(* ===== verification/_CoqProject ===== *)
-Q . S2P
Prelude.v
Bytes.v
HeapLogic.v
Messages.v
Wire.v
WireProofs.v
ConnectionGraph.v
Channel.v
Subscriptions.v
Context.v
Sync.v
Advertise.v
Services.v
Token.v
Outbox.v
Client.v
Server.v
Session.v
SessionProofs.v
SessionTheorems.v
Requests.v
Handlers.v
Connections.v
WebSocketServer.v
Floats.v
Time.v
Image.v
Ros.v
McapSink.v
Following.v
Recorder.v
Protobuf.v
Descriptor.v
DescriptorData.v
Derive.v
DeriveProofs.v
DeriveChecks.v
DeriveExamples.v
DataLoader.v
DataLoaderProofs.v
Parameter.v
AppUrl.v
Stream.v
CError.v
CParameter.v
CParameterLogic.v
CParameterApi.v
CCallback.v
Typed.v
CChannel.v
CChannelProofs.v
CChannelExamples.v
CServer.v
CServerProofs.v
CServerExamples.v
CRecording.v
CRecordingProofs.v
CRecordingExamples.v
Arena.v
CMessages.v
