(* ===== verification/Prelude.v ===== *)
(** * A verification library for the core of the Foxglove SDK

    The Foxglove SDK lets an application log messages on channels, records them
    in MCAP files and serves them to visualisation clients over a WebSocket.
    This library models the core of the Rust crate (`src/rust/foxglove`) and the
    memory-managing parts of its C API (`src/c`): the context that binds
    channels to sinks, the wire format, the server with its connected clients,
    the recorders, the conversions of times, images and messages, and the C
    functions that pass parameters and messages between C and Rust.  Paths below
    are relative to `src/rust/foxglove/src`, or start with `src/`.

    ** How the program fits together

    An application builds a [RawChannel] in a [Context] and logs bytes on it, or
    a typed channel that encodes messages; the channel calls [log] on the sinks
    that subscribe to it.  A [ConnectedClient] of the WebSocket server and the
    writer of an MCAP file are such sinks: the context tells them of channels
    ([add_channels], [remove_channel]); a client advertises them to its peer, and
    the peer subscribes, which the client passes on to the context.  A logged
    message becomes a frame in the client's bounded data queue; all other
    messages go through its bounded control queue; a poller drains both.  The
    [Server] keeps what clients share: the list of clients, parameter
    subscriptions, services, the connection graph.  The C API wraps these objects
    in raw pointers, copies parameters in and out of C structs, and borrows C
    message structs for the time of a call.

    ** The files

    Foundations.
    - Prelude.v: outcomes of Rust computations ([result], with [Panic]), the
      error monad, shared lemmas, tactics and hints.
    - Bytes.v: little-endian integers, UTF-8, and the `bytes` crate's interface.
    - HeapLogic.v: programs over a heap of blocks, and a linear separation logic
      for them with a total-correctness [wp]; used by the files on C parameters.
    - Floats.v: IEEE arithmetic of [f32] and [f64] by SpecFloat.

    Channels and contexts.
    - Channel.v: `channel/raw_channel.rs`, `channel_descriptor.rs`,
      `log_sink_set.rs`, `throttler.rs`; Subscriptions.v:
      `context/subscriptions.rs`; Context.v: `context.rs` and building and
      closing of channels.  The invariant [ctx_inv] ties the indexes together;
      messages reach exactly the subscribed sinks, and sinks always know
      exactly the registered channels.
    - Typed.v: `encode.rs`, `channel.rs`, `channel_builder.rs`,
      `channel/lazy_channel.rs`, `context/lazy_context.rs`: typed channels, and a
      process with several contexts and statics that are built on first use.
    - Sync.v: `websocket/semaphore.rs` and `websocket/cow_vec.rs` by their
      atomic steps, under every interleaving of threads.

    The WebSocket server.
    - Messages.v, Wire.v, WireProofs.v: the messages of `protocol/common`,
      `protocol/v1`, `protocol/v2`, their binary payloads, opcodes and frames;
      round trips, exactness and absence of panics of the parsers.
    - Parameter.v: `protocol/common/parameter.rs`, parameters as JSON values.
    - ConnectionGraph.v: `websocket/connection_graph.rs`; a client that applies
      the updates tracks the graph, up to the exact condition under which a
      delta loses a change.
    - Advertise.v, Services.v, Token.v: schemas and channel advertisements
      (`protocol/common/schema.rs`, `websocket/advertise.rs`), services and
      their map (`websocket/service.rs`), the fingerprint of the catalogue
      ([compute_advertisement_token] of `websocket/server.rs`).
    - Outbox.v: `websocket/connected_client/send_lossy.rs` over the interface of
      flume's channels; Client.v: `websocket/connected_client.rs` as far as it
      concerns one client; Server.v: `websocket/server.rs` as far as it concerns
      the server alone.
    - Session.v: the server, its clients and the context together: every message
      handler, the operations that reach clients, the responders of
      `service/response.rs` and `fetch_asset.rs`, and the life of a connection.
      [run_sys] runs any event that can happen to such a [System].
    - SessionProofs.v: frame lemmas and the invariant [sys_inv] of all events.
      SessionTheorems.v, Requests.v, Connections.v: the properties of sessions.
      Handlers.v: `websocket/service/handler.rs` and the handlers of
      `fetch_asset.rs`, functions as handlers, with the tasks they spawn.
    - WebSocketServer.v: the builder and the handle of `websocket_server.rs`, and
      [create_server]: how a [System] comes to be.
    - AppUrl.v: `app_url.rs`, links that open the server in the app.

    Recording.
    - McapSink.v: `mcap_writer/mcap_sink.rs` over the mcap crate; Following.v:
      the sink attached to a context; Recorder.v: `mcap_writer.rs`, the file that
      a recorder leaves.
    - Stream.v: `stream.rs`, an MCAP file as a stream of byte chunks over a
      bounded tokio channel.

    Times, images and encodings.
    - Time.v: `schemas_wkt.rs`, `convert.rs`, `time.rs`, `metadata.rs`.
    - Image.v, Ros.v: `img2yuv`: buffers, encodings, demosaicing, and ROS image
      messages.
    - Protobuf.v: `protobuf.rs`, the wire format and [ProtobufField].
    - Descriptor.v, DescriptorData.v: file descriptors and descriptor sets, the
      values that prost's types denote, and `schemas/impls.rs`,
      `schemas/descriptors.rs`: what every generated message type publishes.
    - Derive.v: `src/rust/foxglove_derive/src/lib.rs`: what the macro accepts and
      what it generates, with the statics that hold descriptors and schemas.
      DeriveProofs.v: a reader that has only the schema reads every message;
      DeriveChecks.v: which structs are accepted, and that nothing is lost;
      DeriveExamples.v: instances, witnesses and faults.

    Data loaders.
    - DataLoader.v: `src/rust/foxglove_data_loader/src/lib.rs`: the builder of the
      description of data, over shared cells; DataLoaderProofs.v: its
      specification without references, the refinement, and consistency.

    The C API.
    - CError.v: the error codes of `src/c/src/lib.rs`.
    - CParameter.v: `src/c/src/parameter.rs`, its structs with their hand-written
      vectors, clones and drops; CParameterLogic.v: the ownership predicates and
      the specification of each operation; CParameterApi.v: the C functions
      against an abstract state of handles; CCallback.v: the parameter callbacks
      of `src/c/src/server.rs`.
    - CChannel.v: `src/c/src/channel.rs` (contexts and channels),
      `channel_descriptor.rs`, `sink_channel_filter.rs`: raw pointers, reference
      counts and borrowed strings; CChannelProofs.v: programs that follow the
      ownership rules; CChannelExamples.v: witnesses, and programs that do not.
    - CServer.v: `src/c/src/server.rs`, `service.rs`, `fetch_asset.rs`,
      `connection_graph.rs`, `playback_state.rs`: servers, services, graphs,
      responders and the callbacks of a listener, as boxes that C holds by pointer;
      CServerProofs.v: the invariant of host and boxes, and programs that follow
      the ownership rules; CServerExamples.v: a program with a server and a client.
    - CRecording.v: the recording functions of `src/c/src/channel.rs`, with custom
      writers, and `library_version.rs`; CRecordingProofs.v, CRecordingExamples.v:
      each pointer owns one open file, and what the file then contains.
    - Arena.v: `src/c/src/arena.rs`; CMessages.v: `src/c/src/util.rs`,
      `src/c/src/generated_types.rs`: the 42 message structs, their conversion,
      logging and encoding.

    ** What the theorems show

    - Safety: no binary parser and no sequence of events of a session panics;
      requests are gated by capabilities; concurrency limits hold in every
      reachable state; a closed connection leaves nothing behind; contexts of one
      process are isolated; C programs that follow the ownership rules use
      parameters, channels, servers and recordings and log messages without undefined
      behaviour, panic or leak, up to the first call that meets a fault which the
      theorem names: spare capacity in an array of values that is published
      ([c_api_safe], [on_set_parameters_safe]), channel metadata that the caller has
      made ([c_channels_safe]), a client that advertises a byte 0 ([c_servers_safe]),
      a string that is not UTF-8, a time past the range of its type and a null of the
      allocator ([borrow_preserves_message], [log_message_safe], [arena_serves]); a
      request that waits is held by exactly one box of C, and a call on a server that returns an error changes nothing but for what
      was moved into it ([c_servers_safe], [failed_calls_change_nothing]); opening a
      recording leaves an existing file as it is ([mcap_open_spec]).
    - Function: what each request does on every branch, that a service call is
      answered exactly once, that a logged message arrives at a subscribed
      client as a frame that parses to it, what a full queue loses, which bytes a
      stream loses and why ([stream_conserves]), what the
      conversions of images and times give, that a lazily built channel is built
      once.
    - Refinement: [Subscriptions], [ServiceMap], the parameter subscriptions
      and [CowVec] implement sets or lists; the graph updates implement
      replication of the graph; a recorded file holds exactly the messages logged and
      the metadata and attachments given, in order, also when C records it ([recorder_file], [c_file_records]);
      the C calls implement operations on abstract handles; logging a C struct is
      logging the message it describes; the builder of a data loader implements
      maps from ids.
    - Round trips: messages, schemas, advertisements, parameters, derived
      protobuf encodings: the schema of a derived struct describes its messages at
      all depths, with enums by their positions, and two values have the same
      encoding exactly if they are the same ([accepted_lossless]).
    - Faults of the code that modelling has shown are lemmas of the library where
      they can be: a fault is an example that runs ([spare_capacity_fault],
      [empty_array_leaks], [plain_metadata_undefined], [explicit_discriminants],
      [big_integer_mix], [nested_struct_panics], [generic_schema_shared],
      [nested_defined_twice], [double_option_ambiguous], [seek_before_start],
      [rangeless_start], [nul_topic], [no_ids],
      [custom_writer_unfiltered], [null_writer_leaks]) or the exception that a theorem
      states ([diff_applies_iff], [borrow_preserves_message], [log_message_safe],
      [arena_serves], [schema_describes]).

    ** Conventions

    A [Definition] follows the source's order of guards and early returns.  An
    integer is a [Z]; wrap-around is [wrap].  A [HashMap] is a [gmap]; theorems
    about messages built from one do not depend on the order unless it is
    fixed by the code.  Shared mutable objects live in a store (Channel.v), in
    the [System], in the [Process] or in a heap.  Logging and the callbacks of
    external code are recorded as events.  Undefined behaviour is an outcome of
    its own: a [Fault] in HeapLogic.v, [None] in Arena.v.  A loop that is not
    structural carries fuel; that the fuel suffices is proved
    ([swap_loop_spec], [chunks_concat], [send_lossy_loop_ok], the depth bounds of
    CParameterLogic.v, where the fuel is the number of blocks), and running out of
    it is a [Panic] or a [Fault] that the theorems exclude.

    Third-party code is a class of parameters with the laws the code relies on,
    each with a concrete instance: [Buf] (bytes), [Json] and [JsonNumber]
    (serde_json), [Base64] and [Base64Slice] (base64), [Flume] (flume), [BiMap]
    (bimap), [Mpsc] (tokio), [McapCrate] (mcap), [Chrono] (chrono), [Prost] and
    [ProstMessage] (prost), [YuvCrate] and [ImageCrate] (yuv, image), [Cdr] and
    [RosFormat], [UrlEncoding], [SmallBytes].  The allocator ([GlobalAlloc]), the
    layouts of types ([Layouts]) and the capacity that [collect] reserves
    ([Collect]) are parameters too, as are prost's codecs of the generated types
    ([DescriptorCodec], [Generated]), the descriptor files that are included
    ([IncludedFiles]), the order of a hash map ([HashOrder]) and the host of a data
    loader ([HostReader]).
    The answers of the network ([Net]) and of the system that opens files ([Files]), the
    flags of bitflags ([Bitflags]), the settings of mcap ([McapOptions]) and the
    environment of the build ([Build]) are parameters as well.

    ** Bounds

    Identifiers are allocated from wrapping counters; the theorems on runs
    assume fewer than 2^32 - 1 connections and fewer than 2^64 - 2 channels.
    Queues are assumed to have a positive capacity (1024 by default): flume
    treats capacity zero differently.  The stack is below 2^63, and a slice is
    not larger than [isize::MAX] bytes.  The boxes and vectors of HeapLogic.v and
    CServer.v are always allocated (Rust ends the process otherwise); the allocator of
    the arena, whose answer is not checked, may fail.  The ids of a data
    loader are [u16], and a search for a free one has 2^16 rounds, one per id.  A
    reader of derived messages has the depth of the type as its fuel.

    ** Not modelled

    Network I/O, TLS, tokio tasks and the select loop of the poller; JSON text
    (given to the parameter [Json]); the interleaving of two session operations
    (each operation of [System] is one step, as under the locks of the source,
    while Sync.v and [send_lossy_interference] treat the lock-free parts under
    interference); the protobuf codecs that prost
    derives for the generated schemas; recursive derived types, and the parsing
    of the macro's input by syn; the exported wrapper of a data loader; C programs with two servers in one context,
    or that record from two contexts; the tokio runtime and the
    thread that waits in [WebSocketServer::start_blocking]; `src/c/src/logging.rs`; the other language
    bindings; the code generators. *)

From Stdlib Require Export ZArith Lia List.
From stdpp Require Export base tactics option list gmap strings.


(** ** Outcomes of a Rust computation *)

(** A fallible Rust function returns [Ok] or [Err]; it may also panic (an
    [unwrap], a failed [assert!], an out-of-range slice or integer index, a
    read past the end of a [bytes::Buf]). *)
Inductive result (E A : Type) : Type :=
| Ok (a : A)
| Err (e : E)
| Panic.
Arguments Ok {E A} _.
Arguments Err {E A} _.
Arguments Panic {E A}.

#[export] Instance result_ret {E} : MRet (result E) := λ A a, Ok a.
#[export] Instance result_bind {E} : MBind (result E) := λ A B f x,
  match x with Ok a => f a | Err e => Err e | Panic => Panic end.
#[export] Instance result_fmap {E} : FMap (result E) := λ A B f x,
  match x with Ok a => Ok (f a) | Err e => Err e | Panic => Panic end.

Definition no_panic {E A} (x : result E A) : Prop := x ≠ Panic.

(** A partial primitive (an [option]-valued model where [None] is a panic). *)
Definition or_panic {E A} (o : option A) : result E A :=
  match o with Some a => Ok a | None => Panic end.

(** [Option::ok_or], and a guard that returns early with an error. *)
Definition ok_or {E A} (o : option A) (e : E) : result E A :=
  match o with Some a => Ok a | None => Err e end.
Definition ensure {E} (b : bool) (e : E) : result E unit :=
  if b then Ok tt else Err e.

Lemma no_panic_bind {E A B} (x : result E A) (f : A → result E B) :
  no_panic x → (∀ a, x = Ok a → no_panic (f a)) → no_panic (x ≫= f).
Proof. unfold no_panic. destruct x; cbn; auto. Qed.

Lemma ensure_no_panic {E} b (e : E) : no_panic (ensure b e).
Proof. unfold no_panic. by destruct b. Qed.

Lemma bind_Ok {E A B} (x : result E A) (f : A → result E B) b :
  x ≫= f = Ok b ↔ ∃ a, x = Ok a ∧ f a = Ok b.
Proof.
  destruct x as [a|e|]; cbn; split.
  - intros ?. by exists a.
  - by intros (? & [= <-] & ?).
  - done.
  - by intros (? & ? & ?).
  - done.
  - by intros (? & ? & ?).
Qed.

(** ** Machine integers *)

(** Rust's unsigned integers are [Z]s in range; [wrap w] is the wrap-around of
    a [w]-bit register and of the [as] casts to a [w]-bit unsigned type. *)
Definition wrap (w z : Z) : Z := z `mod` 2 ^ w.
Definition fits (w z : Z) : Prop := (0 ≤ z < 2 ^ w)%Z.
#[export] Instance fits_dec w z : Decision (fits w z).
Proof. unfold fits. apply _. Defined.

Lemma wrap_fits w z : (0 ≤ w)%Z → fits w (wrap w z).
Proof. intros. apply Z.mod_pos_bound. lia. Qed.
Lemma wrap_small w z : fits w z → wrap w z = z.
Proof. apply Z.mod_small. Qed.

(** [u64::checked_mul] and its relatives: [None] on overflow. *)
Definition checked_unsigned (w z : Z) : option Z :=
  if decide (fits w z) then Some z else None.
Definition fits_signed (w z : Z) : Prop := (- 2 ^ (w - 1) ≤ z < 2 ^ (w - 1))%Z.
#[export] Instance fits_signed_dec w z : Decision (fits_signed w z).
Proof. unfold fits_signed. apply _. Defined.
Definition checked_signed (w z : Z) : option Z :=
  if decide (fits_signed w z) then Some z else None.

(** ** Strings and bytes *)

(** A Rust [String] or [&str] is its byte sequence; [as_bytes] and its inverse
    on valid sequences are the Standard Library's conversions. *)
Definition as_bytes (s : string) : list Byte.byte := String.list_byte_of_string s.
Definition of_bytes (l : list Byte.byte) : string := String.string_of_list_byte l.

Lemma of_as_bytes s : of_bytes (as_bytes s) = s.
Proof. apply String.string_of_list_byte_of_string. Qed.
Lemma as_of_bytes l : as_bytes (of_bytes l) = l.
Proof. apply String.list_byte_of_string_of_list_byte. Qed.
#[global] Arguments as_bytes : simpl never.
#[global] Arguments of_bytes : simpl never.
#[global] Arguments wrap : simpl never.
#[global] Arguments fits : simpl never.

(** ** Lists *)

Lemma filter_none {A} (P : A → Prop) `{∀ x, Decision (P x)} l :
  (∀ x, x ∈ l → ¬ P x) → filter P l = [].
Proof.
  intros Hl. destruct (filter P l) as [|x k] eqn:E; [done|].
  assert (x ∈ filter P l) as Hx by (rewrite E; left).
  apply list_elem_of_filter in Hx as [??]. by destruct (Hl x).
Qed.

Lemma filter_ext_elem {A} (P Q : A → Prop) `{∀ x, Decision (P x)} `{∀ x, Decision (Q x)}
    (l : list A) :
  (∀ x, x ∈ l → P x ↔ Q x) → filter P l = filter Q l.
Proof.
  induction l as [|x l IH]; intros Hl; [done|]. rewrite !filter_cons.
  rewrite (IH (λ y Hy, Hl y (list_elem_of_further _ _ _ Hy))).
  pose proof (Hl x (list_elem_of_here _ _)). repeat case_decide; tauto.
Qed.
