(* ===== verification/Bytes.v ===== *)
(** * Bytes: little-endian integers, UTF-8, and the interface of the `bytes` crate

    The first half models the Rust standard library's [uN::to_le_bytes],
    [uN::from_le_bytes] and [std::str::from_utf8].  The second half is the
    interface through which the wire format reads and writes buffers: the
    [bytes] crate's [Buf] for [&[u8]] and [BufMut] for [Vec<u8>].  That crate
    is not part of this repository, so its operations are parameters ([Buf])
    and what the code relies on is their documented behaviour ([BufLaws]);
    [buf_ref] is a concrete instance showing the laws can hold. *)

From S2P Require Import Prelude.
Local Open Scope Z_scope.

Abbreviation byte := Byte.byte.

(** ** Bytes as numbers *)

Definition byte_val (b : byte) : Z := Z.of_N (Byte.to_N b).
Definition val_byte (z : Z) : byte :=
  match Byte.of_N (Z.to_N (z `mod` 256)) with Some b => b | None => Byte.x00 end.

Lemma byte_val_range b : 0 ≤ byte_val b < 256.
Proof. unfold byte_val. pose proof (Byte.to_N_bounded b). lia. Qed.

Lemma val_byte_val b : val_byte (byte_val b) = b.
Proof.
  unfold val_byte. rewrite Z.mod_small by apply byte_val_range.
  unfold byte_val. by rewrite N2Z.id, Byte.of_to_N.
Qed.

Lemma byte_val_byte z : byte_val (val_byte z) = z `mod` 256.
Proof.
  unfold val_byte. pose proof (Z.mod_pos_bound z 256 eq_refl) as [H0 H1].
  destruct (Byte.of_N _) as [b|] eqn:E.
  - apply Byte.to_of_N in E. unfold byte_val. lia.
  - apply Byte.of_N_None_iff in E. lia.
Qed.

Lemma byte_val_inj b c : byte_val b = byte_val c → b = c.
Proof. intros E. by rewrite <- (val_byte_val b), E, val_byte_val. Qed.

#[export] Instance byte_eq_dec : EqDecision byte.
Proof.
  intros b c. destruct (decide (byte_val b = byte_val c)) as [E|E].
  - left. by apply byte_val_inj.
  - right. congruence.
Defined.

(** ** Little-endian integers *)

(** [le_bytes n z] is [z.to_le_bytes()] for an [n]-byte integer, and [le_val]
    is [from_le_bytes]. *)
Fixpoint le_bytes (n : nat) (z : Z) : list byte :=
  match n with
  | O => []
  | S n => val_byte z :: le_bytes n (z / 256)
  end.
Fixpoint le_val (l : list byte) : Z :=
  match l with
  | [] => 0
  | b :: l => byte_val b + 256 * le_val l
  end.

Lemma length_le_bytes n z : length (le_bytes n z) = n.
Proof. revert z. induction n; cbn; auto. Qed.

Lemma pow256_succ n : 256 ^ Z.of_nat (S n) = 256 * 256 ^ Z.of_nat n.
Proof. rewrite Nat2Z.inj_succ, Z.pow_succ_r; lia. Qed.

Lemma le_val_bytes n z : le_val (le_bytes n z) = z `mod` 256 ^ Z.of_nat n.
Proof.
  revert z. induction n as [|n IH]; intros z.
  - cbn. by rewrite Z.mod_1_r.
  - cbn [le_bytes le_val]. rewrite IH, byte_val_byte, pow256_succ.
    rewrite Z.rem_mul_r by lia. lia.
Qed.

Lemma le_val_range l : 0 ≤ le_val l < 256 ^ Z.of_nat (length l).
Proof.
  induction l as [|b l IH]; [cbn; lia|].
  cbn [le_val length]. rewrite pow256_succ. pose proof (byte_val_range b). lia.
Qed.

Lemma le_bytes_val l : le_bytes (length l) (le_val l) = l.
Proof.
  induction l as [|b l IH]; [done|]. cbn [length le_bytes le_val].
  pose proof (byte_val_range b). rewrite (Z.mul_comm 256). f_equal.
  - apply byte_val_inj. rewrite byte_val_byte, Z_mod_plus_full.
    apply Z.mod_small. lia.
  - rewrite Z_div_plus_full, (Z.div_small (byte_val b)) by lia. exact IH.
Qed.

Lemma le_val_roundtrip n w z :
  w = 8 * Z.of_nat n → fits w z → le_val (le_bytes n z) = z.
Proof.
  intros -> H. rewrite le_val_bytes. apply Z.mod_small.
  change 256 with (2 ^ 8). rewrite <- Z.pow_mul_r by lia. apply H.
Qed.

Lemma le_val_fits n w l :
  w = 8 * Z.of_nat n → length l = n → fits w (le_val l).
Proof.
  intros -> <-. pose proof (le_val_range l) as H. unfold fits.
  rewrite Z.pow_mul_r by lia. exact H.
Qed.

(** Byte strings of equal length are ordered by their first bytes; equal
    values of equal width have equal bytes. *)
Lemma le_bytes_inj n w x y :
  w = 8 * Z.of_nat n → fits w x → fits w y → le_bytes n x = le_bytes n y → x = y.
Proof.
  intros Hw Hx Hy E. apply (f_equal le_val) in E.
  by rewrite !(le_val_roundtrip n w) in E.
Qed.

#[global] Arguments le_bytes : simpl never.
#[global] Arguments le_val : simpl never.

(** ** UTF-8 *)

(** [std::str::from_utf8] succeeds exactly on well-formed UTF-8 (Unicode
    table 3-7): the continuation ranges after each lead byte. *)
Definition in_range (lo hi : Z) (b : byte) : bool := bool_decide (lo ≤ byte_val b ≤ hi).
Definition cont (b : byte) : bool := in_range 128 191 b.

Fixpoint utf8_valid (l : list byte) : bool :=
  match l with
  | [] => true
  | b :: l1 =>
    if in_range 0 127 b then utf8_valid l1
    else match l1 with
    | [] => false
    | c :: l2 =>
      if in_range 194 223 b then cont c && utf8_valid l2
      else match l2 with
      | [] => false
      | d :: l3 =>
        if in_range 224 239 b then
          (if bool_decide (byte_val b = 224) then in_range 160 191 c
           else if bool_decide (byte_val b = 237) then in_range 128 159 c
           else cont c) && cont d && utf8_valid l3
        else match l3 with
        | [] => false
        | e :: l4 =>
          in_range 240 244 b &&
          (if bool_decide (byte_val b = 240) then in_range 144 191 c
           else if bool_decide (byte_val b = 244) then in_range 128 143 c
           else cont c) && cont d && cont e && utf8_valid l4
        end
      end
    end
  end.

Definition from_utf8 (l : list byte) : option string :=
  if utf8_valid l then Some (of_bytes l) else None.

(** A [String] holds well-formed UTF-8: the invariant of Rust's type. *)
Definition is_utf8 (s : string) : Prop := utf8_valid (as_bytes s) = true.

Lemma from_utf8_as_bytes s : is_utf8 s → from_utf8 (as_bytes s) = Some s.
Proof. intros H. unfold from_utf8. by rewrite H, of_as_bytes. Qed.

Lemma from_utf8_Some l s : from_utf8 l = Some s → as_bytes s = l ∧ is_utf8 s.
Proof.
  unfold from_utf8, is_utf8. destruct (utf8_valid l) eqn:E; [|done].
  intros [= <-]. by rewrite as_of_bytes.
Qed.

(** ** The interface of the [bytes] crate *)

(** [Buf for &[u8]] consumes from the front of a slice; a read past the end
    panics ([None]).  [BufMut for Vec<u8>] appends. *)
Class Buf := {
  get_u8 : list byte → option (Z * list byte);
  get_u32_le : list byte → option (Z * list byte);
  get_u64_le : list byte → option (Z * list byte);
  get_f32_le : list byte → option (Z * list byte);  (* the float's bit pattern *)
  advance : nat → list byte → option (list byte);
  put_u8 : Z → list byte → list byte;
  put_u32_le : Z → list byte → list byte;
  put_u64_le : Z → list byte → list byte;
  put_f32_le : Z → list byte → list byte;
  put_slice : list byte → list byte → list byte
}.

Definition reads_le (n : nat) (get : list byte → option (Z * list byte)) : Prop :=
  ∀ l, get l = if decide (n ≤ length l)%nat
               then Some (le_val (take n l), drop n l) else None.
Definition writes_le (n : nat) (put : Z → list byte → list byte) : Prop :=
  ∀ x buf, fits (8 * Z.of_nat n) x → put x buf = buf ++ le_bytes n x.

Class BufLaws `{Buf} : Prop := {
  get_u8_spec : reads_le 1 get_u8;
  get_u32_le_spec : reads_le 4 get_u32_le;
  get_u64_le_spec : reads_le 8 get_u64_le;
  get_f32_le_spec : reads_le 4 get_f32_le;
  advance_spec : ∀ n l, advance n l =
    if decide (n ≤ length l)%nat then Some (drop n l) else None;
  put_u8_spec : writes_le 1 put_u8;
  put_u32_le_spec : writes_le 4 put_u32_le;
  put_u64_le_spec : writes_le 8 put_u64_le;
  put_f32_le_spec : writes_le 4 put_f32_le;
  put_slice_spec : ∀ s buf, put_slice s buf = buf ++ s
}.

(** A concrete implementation, used by the witnesses. *)
Definition ref_get (n : nat) (l : list byte) : option (Z * list byte) :=
  if decide (n ≤ length l)%nat then Some (le_val (take n l), drop n l) else None.
Definition ref_put (n : nat) (x : Z) (buf : list byte) : list byte := buf ++ le_bytes n x.

#[export] Instance buf_ref : Buf := {|
  get_u8 := ref_get 1; get_u32_le := ref_get 4; get_u64_le := ref_get 8;
  get_f32_le := ref_get 4;
  advance n l := if decide (n ≤ length l)%nat then Some (drop n l) else None;
  put_u8 := ref_put 1; put_u32_le := ref_put 4; put_u64_le := ref_put 8;
  put_f32_le := ref_put 4; put_slice s buf := buf ++ s
|}.
#[export] Instance buf_ref_laws : BufLaws.
Proof. split; intros; repeat intro; reflexivity. Qed.

(** ** Reading what was written *)

Lemma reads_le_app n get h l :
  reads_le n get → length h = n → get (h ++ l) = Some (le_val h, l).
Proof.
  intros G <-. rewrite G, decide_True by (rewrite length_app; lia).
  by rewrite take_app_length, drop_app_length.
Qed.

Lemma reads_le_short n get l :
  reads_le n get → (length l < n)%nat → get l = None.
Proof. intros G ?. rewrite G, decide_False; [done|lia]. Qed.

Lemma reads_le_bytes n w get x l :
  reads_le n get → w = 8 * Z.of_nat n → fits w x →
  get (le_bytes n x ++ l) = Some (x, l).
Proof.
  intros G Hw Hx. rewrite (reads_le_app n) by auto using length_le_bytes.
  by rewrite (le_val_roundtrip n w).
Qed.

Section buf.
Context `{BufLaws}.

Lemma get_u8_bytes x l : fits 8 x → get_u8 (le_bytes 1 x ++ l) = Some (x, l).
Proof. apply (reads_le_bytes 1 8); [apply get_u8_spec|done]. Qed.
Lemma get_u32_le_bytes x l : fits 32 x → get_u32_le (le_bytes 4 x ++ l) = Some (x, l).
Proof. apply (reads_le_bytes 4 32); [apply get_u32_le_spec|done]. Qed.
Lemma get_u64_le_bytes x l : fits 64 x → get_u64_le (le_bytes 8 x ++ l) = Some (x, l).
Proof. apply (reads_le_bytes 8 64); [apply get_u64_le_spec|done]. Qed.
Lemma get_f32_le_bytes x l : fits 32 x → get_f32_le (le_bytes 4 x ++ l) = Some (x, l).
Proof. apply (reads_le_bytes 4 32); [apply get_f32_le_spec|done]. Qed.

Lemma advance_app l1 l2 : advance (length l1) (l1 ++ l2) = Some l2.
Proof.
  rewrite advance_spec, decide_True by (rewrite length_app; lia).
  by rewrite drop_app_length.
Qed.
End buf.

(** [&data[..n]] panics when [n] exceeds the length. *)
Definition slice_to (n : nat) (l : list byte) : option (list byte) :=
  if decide (n ≤ length l)%nat then Some (take n l) else None.

Lemma slice_to_app l1 l2 : slice_to (length l1) (l1 ++ l2) = Some l1.
Proof.
  unfold slice_to. rewrite decide_True by (rewrite length_app; lia).
  by rewrite take_app_length.
Qed.
