(* ===== verification/HeapLogic.v ===== *)
(** * HeapLogic: programs over a heap, and a separation logic for them

    The C API (`src/c/src`) hands out raw pointers to Rust values, so its model
    has a heap: a finite map from locations to blocks.  A program is a function on
    heaps that may fault (an access the allocator or [Vec::from_raw_parts] forbids).
    The logic is linear: an assertion describes exactly the blocks it owns, so that
    a block cannot be forgotten, and [wp] says that a program started on blocks it
    owns, next to any others, finishes without a fault and leaves the others
    alone.  Assertions form a [bi], hence Iris's proof mode works on them. *)

From S2P Require Import Prelude.
From iris.proofmode Require Import proofmode.

Abbreviation loc := positive.

(** What undefined behaviour or a missing resource looks like. *)
Inductive Fault :=
| BadAccess  (* no such block, or a block of another type *)
| BadLayout  (* raw parts that are not those of the allocation *)
| OutOfFuel.

(** ** Programs *)

Definition M (B A : Type) : Type := gmap loc B → result Fault (A * gmap loc B).
#[export] Instance M_ret {B} : MRet (M B) := λ A a h, Ok (a, h).
#[export] Instance M_bind {B} : MBind (M B) := λ A C f m h, '(a, h) ← m h; f a h.

Definition fault {B A} (e : Fault) : M B A := λ _, Err e.
Definition panic {B A} : M B A := λ _, Panic.
(** A location past all those in use. *)
Definition next_loc {B} (h : gmap loc B) : loc := Pos.succ (map_fold (λ l _ m, Pos.max l m) 1%positive h).
Definition alloc {B} (b : B) : M B loc := λ h, let l := next_loc h in Ok (l, <[l:=b]> h).
Definition load {B} (l : loc) : M B B := λ h,
  match h !! l with Some b => Ok (b, h) | None => Err BadAccess end.
Definition store {B} (l : loc) (b : B) : M B unit := λ h,
  match h !! l with Some _ => Ok (tt, <[l:=b]> h) | None => Err BadAccess end.
Definition dealloc {B} (l : loc) : M B unit := λ h,
  match h !! l with Some _ => Ok (tt, delete l h) | None => Err BadAccess end.

(** A structure in the heap is never deeper than the heap has blocks. *)
Definition with_fuel {B A} (f : nat → M B A) : M B A := λ h, f (S (size h)) h.

Lemma next_loc_fresh {B} (h : gmap loc B) : h !! next_loc h = None.
Proof.
  apply eq_None_not_Some. intros Hl. unfold next_loc in Hl.
  set (m := map_fold _ _ h) in Hl. enough (∀ l, is_Some (h !! l) → (l ≤ m)%positive) as Hle.
  { apply Hle in Hl. lia. }
  subst m. clear Hl. apply (map_fold_weak_ind (λ m h, ∀ l, is_Some (h !! l) → (l ≤ m)%positive)).
  - intros l [b Hb]. by rw lookup_empty in Hb.
  - intros k b h' m Hk IH l Hl. destruct (decide (k = l)) as [->|Hne]; [lia|].
    rw lookup_insert_ne // in Hl. specialize (IH l Hl). lia.
Qed.

Fixpoint for_each {B A} (f : A → M B unit) (l : list A) : M B unit :=
  match l with [] => mret tt | a :: l => _ ← f a; for_each f l end.
Fixpoint collect {B A C} (f : A → M B C) (l : list A) : M B (list C) :=
  match l with [] => mret [] | a :: l => c ← f a; cs ← collect f l; mret (c :: cs) end.

(** ** Assertions *)

Record hProp (B : Type) := HProp { holds : gmap loc B → Prop }.
Arguments HProp {B} _.
Arguments holds {B} _ _.

Section assertions.
Context {B : Type}.
Implicit Types (P Q : hProp B) (h : gmap loc B).

Record hProp_equiv_def P Q : Prop := { in_equiv : ∀ h, holds P h ↔ holds Q h }.
#[local] Instance hProp_equiv : Equiv (hProp B) := hProp_equiv_def.
#[local] Instance hProp_equivalence : Equivalence (≡@{hProp B}).
Proof. split; [by constructor|intros ?? []|intros ??? [] []]; constructor; naive_solver. Qed.
Canonical Structure hPropO := discreteO (hProp B).

Record entails P Q : Prop := { in_entails : ∀ h, holds P h → holds Q h }.

Definition h_emp : hProp B := HProp (λ h, h = ∅).
Definition h_pure (φ : Prop) : hProp B := HProp (λ _, φ).
Definition h_and P Q := HProp (λ h, holds P h ∧ holds Q h).
Definition h_or P Q := HProp (λ h, holds P h ∨ holds Q h).
Definition h_impl P Q := HProp (λ h, holds P h → holds Q h).
Definition h_forall {A} (Φ : A → hProp B) := HProp (λ h, ∀ a, holds (Φ a) h).
Definition h_exist {A} (Φ : A → hProp B) := HProp (λ h, ∃ a, holds (Φ a) h).
Definition h_sep P Q := HProp (λ h, ∃ h1 h2, h = h1 ∪ h2 ∧ h1 ##ₘ h2 ∧ holds P h1 ∧ holds Q h2).
Definition h_wand P Q := HProp (λ h, ∀ h', h ##ₘ h' → holds P h' → holds Q (h ∪ h')).
Definition h_persistently P : hProp B := h_pure (entails h_emp P).
Definition h_later P : hProp B := P.

Lemma hProp_bi_mixin :
  BiMixin entails h_emp h_pure h_and h_or h_impl (@h_forall) (@h_exist) h_sep h_wand.
Proof.
  split.
  - split; [by constructor|]. intros ??? [H1] [H2]. constructor. auto.
  - intros P Q. split; [intros [E]; split; constructor; apply E|].
    intros [[H1] [H2]]. constructor. split; auto.
  - intros n φ ψ E. constructor. intros h. exact E.
  - intros n P P' [EP] Q Q' [EQ]. constructor. intros h. cbn. rw EP EQ. done.
  - intros n P P' [EP] Q Q' [EQ]. constructor. intros h. cbn. rw EP EQ. done.
  - intros n P P' [EP] Q Q' [EQ]. constructor. intros h. cbn. rw EP EQ. done.
  - intros A n Φ Ψ E. constructor. intros h. cbn. apply forall_proper. intros a. apply (E a).
  - intros A n Φ Ψ E. constructor. intros h. cbn. split; intros [a Ha]; exists a; by apply (E a).
  - intros n P P' [EP] Q Q' [EQ]. constructor. intros h. cbn. setoid_rewrite EP. setoid_rewrite EQ. done.
  - intros n P P' [EP] Q Q' [EQ]. constructor. intros h. cbn. setoid_rewrite EP. setoid_rewrite EQ. done.
  - intros φ P Hφ. by constructor.
  - intros φ P HP. constructor. intros h Hφ. by apply (HP Hφ).
  - intros P Q. constructor. by intros h [? _].
  - intros P Q. constructor. by intros h [_ ?].
  - intros P Q R [H1] [H2]. constructor. intros h Hh. split; auto.
  - intros P Q. constructor. by left.
  - intros P Q. constructor. by right.
  - intros P Q R [H1] [H2]. constructor. intros h [?|?]; auto.
  - intros P Q R [H1]. constructor. intros h HP HQ. by apply H1.
  - intros P Q R [H1]. constructor. intros h [HP HQ]. by apply H1.
  - intros A P Ψ HΨ. constructor. intros h Hh a. by apply (HΨ a).
  - intros A Ψ a. constructor. intros h Hh. apply Hh.
  - intros A Ψ a. constructor. intros h Hh. by exists a.
  - intros A Φ Q HΦ. constructor. intros h [a Ha]. by apply (HΦ a).
  - intros P P' Q Q' [H1] [H2]. constructor.
    intros h (h1 & h2 & -> & Hd & HP & HP'). exists h1, h2. auto.
  - intros P. constructor. intros h Hh. exists ∅, h. rw (left_id_L ∅ (∪)).
    split_and!; [done|apply map_disjoint_empty_l|done|done].
  - intros P. constructor. intros h (h1 & h2 & -> & Hd & HE & HP). cbn in HE.
    subst h1. by rw (left_id_L ∅ (∪)).
  - intros P Q. constructor. intros h (h1 & h2 & -> & Hd & HP & HQ). exists h2, h1.
    split_and!; [by apply map_union_comm|done|done|done].
  - intros P Q R. constructor. intros h (h12 & h3 & -> & Hd & (h1 & h2 & -> & Hd12 & HP & HQ) & HR).
    apply map_disjoint_union_l in Hd as [Hd13 Hd23]. exists h1, (h2 ∪ h3).
    split_and!; [by rw (assoc_L (∪))|by apply map_disjoint_union_r|done|]. by exists h2, h3.
  - intros P Q R [H1]. constructor. intros h HP h' Hd HQ. apply H1. by exists h, h'.
  - intros P Q R [H1]. constructor. intros h (h1 & h2 & -> & Hd & HP & HQ). by apply H1.
Qed.

Lemma hProp_persistently_mixin :
  BiPersistentlyMixin entails h_emp h_and (@h_exist) h_sep h_persistently.
Proof.
  eapply bi_persistently_mixin_discrete, hProp_bi_mixin; [done| |done].
  intros A Φ [HΦ]. destruct (HΦ ∅ eq_refl) as [a Ha]. exists a. constructor. by intros h ->.
Qed.

Lemma hProp_later_mixin :
  BiLaterMixin entails h_pure h_or h_impl (@h_forall) (@h_exist) h_sep h_persistently h_later.
Proof. eapply bi_later_mixin_id, hProp_bi_mixin. done. Qed.
End assertions.

Canonical Structure hPropI (B : Type) : bi :=
  {| bi_ofe_mixin := ofe_mixin_of (hProp B);
     bi_bi_mixin := hProp_bi_mixin; bi_bi_persistently_mixin := hProp_persistently_mixin;
     bi_bi_later_mixin := hProp_later_mixin |}.

(** A pure fact that owns nothing. *)
Notation "⟨ φ ⟩" := (bi_affinely (bi_pure φ%type%stdpp)) (φ at level 200) : bi_scope.

(** [l] is allocated and holds [b]. *)
Definition points_to {B} (l : loc) (b : B) : hPropI B := HProp (λ h, h = {[l := b]}).
Notation "l ↦ b" := (points_to l b) (at level 20, format "l  ↦  b") : bi_scope.

(** Total correctness: [m] finishes, without a fault or a panic, and the blocks it
    is not given keep their contents. *)
Definition wp {B A} (m : M B A) (Q : A → hPropI B) : hPropI B := HProp (λ h,
  ∀ hf, h ##ₘ hf → ∃ a h', m (h ∪ hf) = Ok (a, h' ∪ hf) ∧ h' ##ₘ hf ∧ holds (Q a) h').

(** [m] stops with a fault, whatever the blocks it is not given. *)
Definition wp_fault {B A} (m : M B A) (e : Fault) : hPropI B := HProp (λ h,
  ∀ hf, h ##ₘ hf → m (h ∪ hf) = Err e).
(** Some [n] blocks. *)
Definition lost_blocks {B} (n : nat) : hPropI B := HProp (λ h, size h = n).

Section wp.
Context {B : Type}.
Implicit Types (P : hPropI B) (b : B).

Lemma points_to_ne l k b c : l ↦ b ∗ k ↦ c ⊢ ⌜l ≠ k⌝ : hPropI B.
Proof.
  constructor. intros h (h1 & h2 & -> & Hd & E1 & E2). cbn in E1, E2. subst h1 h2.
  intros ->. by apply map_disjoint_singleton_l in Hd; rw lookup_insert_eq in Hd.
Qed.

Lemma wp_ret {A} (a : A) (Q : A → hPropI B) : Q a ⊢ wp (mret a) Q.
Proof. constructor. intros h HQ hf Hd. by exists a, h. Qed.

Lemma wp_bind {A C} (m : M B A) (f : A → M B C) Q :
  wp m (λ a, wp (f a) Q) ⊢ wp (m ≫= f) Q.
Proof.
  constructor. intros h Hm hf Hd. destruct (Hm hf Hd) as (a & h1 & E & Hd1 & H1).
  destruct (H1 hf Hd1) as (c & h2 & E2 & Hd2 & H2). exists c, h2. split; [|done].
  unfold mbind, M_bind. by rw E.
Qed.

Lemma wp_wand {A} (m : M B A) Q R : wp m Q -∗ (∀ a, Q a -∗ R a) -∗ wp m R.
Proof.
  apply bi.wand_intro_r, bi.wand_intro_r. rw bi.emp_sep. constructor.
  intros h (h1 & h2 & -> & Hd & Hm & HR) hf Hdf.
  apply map_disjoint_union_l in Hdf as [Hd1 Hd2].
  destruct (Hm (h2 ∪ hf)) as (a & h' & E & Hd' & HQ); [by apply map_disjoint_union_r|].
  apply map_disjoint_union_r in Hd' as [Hd2' Hdf'].
  exists a, (h' ∪ h2). rw -!(assoc_L (∪)). split_and!; [done|by apply map_disjoint_union_l|].
  rw map_union_comm; [|done]. by apply HR.
Qed.

Lemma wp_alloc b (Q : loc → hPropI B) : (∀ l, l ↦ b -∗ Q l) ⊢ wp (alloc b) Q.
Proof.
  constructor. intros h HQ hf Hd. set (l := next_loc (h ∪ hf)).
  assert ((h ∪ hf) !! l = None) as [Hl Hf]%lookup_union_None.
  { apply next_loc_fresh. }
  exists l, (h ∪ {[l := b]}). split_and!.
  - unfold alloc. fold l. do 2 f_equal. rw -(assoc_L (∪)).
    rw (map_union_comm {[l := b]} hf) ?map_disjoint_singleton_l //.
    by rw (assoc_L (∪)) -insert_union_singleton_r ?lookup_union_None.
  - apply map_disjoint_union_l. by rw map_disjoint_singleton_l.
  - apply HQ; [by rw map_disjoint_singleton_r|done].
Qed.

Lemma wp_load l b Q : l ↦ b -∗ (l ↦ b -∗ Q b) -∗ wp (load l) Q.
Proof.
  apply bi.wand_intro_r, bi.wand_intro_r. rw bi.emp_sep. constructor.
  intros h (h1 & h2 & -> & Hd & Hl & HQ) hf Hdf. cbn in Hl. subst h1.
  exists b, ({[l := b]} ∪ h2). split_and!; [|done|].
  - unfold load. rw -(assoc_L (∪)) lookup_union_l'; [by rw lookup_insert_eq|].
    by rw lookup_insert_eq.
  - rw map_union_comm; [|done]. by apply HQ.
Qed.

Lemma wp_store l b c Q : l ↦ b -∗ (l ↦ c -∗ Q tt) -∗ wp (store l c) Q.
Proof.
  apply bi.wand_intro_r, bi.wand_intro_r. rw bi.emp_sep. constructor.
  intros h (h1 & h2 & -> & Hd & Hl & HQ) hf Hdf. cbn in Hl. subst h1.
  apply map_disjoint_union_l in Hdf as [Hl Hdf].
  rw map_disjoint_singleton_l in Hd. rw map_disjoint_singleton_l in Hl.
  exists tt, ({[l := c]} ∪ h2). split_and!.
  - unfold store. rw -(assoc_L (∪)) lookup_union_l' ?lookup_insert_eq //.
    rw -(assoc_L (∪)) -!insert_union_singleton_l insert_insert_eq. done.
  - apply map_disjoint_union_l. by rw map_disjoint_singleton_l.
  - rw map_union_comm; [|by rw map_disjoint_singleton_l].
    apply HQ; [by rw map_disjoint_singleton_r|done].
Qed.

Lemma wp_dealloc l b Q : l ↦ b -∗ Q tt -∗ wp (dealloc l) Q.
Proof.
  apply bi.wand_intro_r, bi.wand_intro_r. rw bi.emp_sep. constructor.
  intros h (h1 & h2 & -> & Hd & Hl & HQ) hf Hdf. cbn in Hl. subst h1.
  apply map_disjoint_union_l in Hdf as [Hl Hdf].
  rw map_disjoint_singleton_l in Hd. rw map_disjoint_singleton_l in Hl.
  exists tt, h2. split_and!; [|done|done].
  unfold dealloc. rw -(assoc_L (∪)) lookup_union_l' ?lookup_insert_eq //.
  rw -insert_union_singleton_l delete_insert_id // lookup_union_None //.
Qed.

(** The owned blocks bound the fuel. *)
Lemma wp_with_fuel {A} (f : nat → M B A) P Q d :
  (∀ h, holds P h → d ≤ S (size h)) → (∀ n, d ≤ n → P ⊢ wp (f n) Q) → P ⊢ wp (with_fuel f) Q.
Proof.
  intros Hd Hf. constructor. intros h HP hf Hdis. unfold with_fuel.
  assert (d ≤ S (size (h ∪ hf))) as Hle.
  { specialize (Hd h HP). rw map_size_disj_union; [|done]. lia. }
  by apply (Hf _ Hle).
Qed.

(** [m] stops with the fault [e], whatever else the heap holds. *)
Lemma wp_fault_now {A} e P : P ⊢ wp_fault (fault (A:=A) e) e.
Proof. by constructor. Qed.
Lemma wp_fault_first {A C} (m : M B A) (f : A → M B C) e : wp_fault m e ⊢ wp_fault (m ≫= f) e.
Proof. constructor. intros h Hm hf Hd. unfold mbind, M_bind. by rw (Hm hf Hd). Qed.
Lemma wp_fault_bind {A C} (m : M B A) (f : A → M B C) e :
  wp m (λ a, wp_fault (f a) e) ⊢ wp_fault (m ≫= f) e.
Proof.
  constructor. intros h Hm hf Hd. destruct (Hm hf Hd) as (a & h1 & E & Hd1 & H1).
  unfold mbind, M_bind. rw E. by apply H1.
Qed.
Lemma wp_fault_frame {A} (m : M B A) e P : wp_fault m e -∗ P -∗ wp_fault m e.
Proof.
  apply bi.wand_intro_r, bi.wand_intro_r. rw bi.emp_sep. constructor. intros h (h1 & h2 & -> & Hd & Hm & _) hf Hdf. rw -(assoc_L (∪)).
  apply map_disjoint_union_l in Hdf as [? ?]. apply Hm. by apply map_disjoint_union_r.
Qed.
Lemma wp_fault_with_fuel {A} (f : nat → M B A) P e d :
  (∀ h, holds P h → d ≤ S (size h)) → (∀ n, d ≤ n → P ⊢ wp_fault (f n) e) → P ⊢ wp_fault (with_fuel f) e.
Proof.
  intros Hd Hf. constructor. intros h HP hf Hdis. unfold with_fuel.
  assert (d ≤ S (size (h ∪ hf))) as Hle.
  { specialize (Hd h HP). rw map_size_disj_union; [|done]. lia. }
  by apply (Hf _ Hle).
Qed.

(** Blocks that nothing refers to. *)
Lemma lost_0 : lost_blocks 0 ⊣⊢ (emp : hPropI B).
Proof. apply bi.equiv_entails; split; constructor; intros h; cbn; [apply map_size_empty_inv|by intros ->]. Qed.
Lemma lost_one l b : l ↦ b ⊢ lost_blocks 1.
Proof. constructor. intros h Hl. cbn in *. subst h. apply map_size_singleton. Qed.
Lemma lost_sep m n : lost_blocks m ∗ lost_blocks n ⊢ (lost_blocks (m + n) : hPropI B).
Proof.
  constructor. intros h (h1 & h2 & -> & Hd & H1 & H2). cbn in *. rw map_size_disj_union; [|done]. by rw H1 H2.
Qed.

(** What the logic proves of a program holds of its runs. *)
Lemma wp_fault_adequacy {A} (m : M B A) P e h : (P ⊢ wp_fault m e) → holds P h → m h = Err e.
Proof.
  intros [Hm] HP. specialize (Hm h HP ∅ (map_disjoint_empty_r h)). by rw (right_id_L ∅ (∪)) in Hm.
Qed.
Lemma wp_adequacy {A} (m : M B A) P Q h :
  (P ⊢ wp m Q) → holds P h → ∃ a h', m h = Ok (a, h') ∧ holds (Q a) h'.
Proof.
  intros [Hm] HP. destruct (Hm h HP ∅) as (a & h' & E & _ & HQ); [apply map_disjoint_empty_r|].
  rw !(right_id_L ∅ (∪)) in E. by exists a, h'.
Qed.
End wp.
