(* ===== verification/Messages.v ===== *)
(** * Messages: the data of the Foxglove WebSocket protocol

    The structs of `protocol/common`, `protocol/v1` and `protocol/v2`, with
    the field order of the source.  `u32` and `u64` fields are [Z]s, an `f32`
    or `f64` is its bit pattern, `String` and `&str` are byte strings, and
    `Vec<u8>` is a list of bytes.  Each record's fields carry a short prefix
    since Rocq has one name space for the fields of a file. *)

From S2P Require Import Prelude Bytes.

(** ** Errors (`protocol/common/parse_error.rs`) *)

Inductive ParseError :=
| EmptyBinaryMessage
| UnhandledMessageType
| InvalidOpcode (opcode : Z)
| BufferTooShort
| InvalidFetchAssetStatus (status : Z)
| Utf8Error
| JsonError
| InvalidPlaybackCommand (command : Z)
| InvalidPlaybackStatus (status : Z).

(** ** Parameters (`protocol/common/parameter.rs`) *)

Inductive ParameterType := ByteArray | Float64 | Float64Array.

Inductive ParameterValue :=
| PInteger (i : Z)
| PFloat64 (bits : Z)
| PBool (b : bool)
| PString (s : string)
| PArray (l : list ParameterValue)
| PDict (d : list (string * ParameterValue)).

Record Param := {
  p_name : string;
  p_type : option ParameterType;
  p_value : option ParameterValue
}.

(** ** Client messages *)

Record ClientMessageData := { cmd_channel_id : Z; cmd_data : list byte }.

Record ServiceCallRequest := {
  scq_service_id : Z;
  scq_call_id : Z;
  scq_encoding : string;
  scq_payload : list byte
}.

Inductive PlaybackCommand := Play | Pause.

Record PlaybackControlRequest := {
  pcr_playback_command : PlaybackCommand;
  pcr_playback_speed : Z;
  pcr_seek_time : option Z;
  pcr_request_id : string
}.

Record WireSubscription := { ws_id : Z; ws_channel_id : Z }.
Record Subscribe := { sub_subscriptions : list WireSubscription }.
Record Unsubscribe := { unsub_subscription_ids : list Z }.

(** A client's channel advertisement (`common/client/advertise.rs`). *)
Record WireClientChannel := {
  wcc_id : Z;
  wcc_topic : string;
  wcc_encoding : string;
  wcc_schema_name : string;
  wcc_schema_encoding : option string;
  wcc_schema : option string
}.
Record ClientAdvertise := { ca_channels : list WireClientChannel }.
Record ClientUnadvertise := { cu_channel_ids : list Z }.
Record GetParameters := { gp_parameter_names : list string; gp_id : option string }.
Record SetParameters := { sp_parameters : list Param; sp_id : option string }.
Record SubscribeParameterUpdates := { spu_parameter_names : list string }.
Record UnsubscribeParameterUpdates := { upu_parameter_names : list string }.
Record FetchAsset := { fa_request_id : Z; fa_uri : string }.

(** `ClientMessage` of protocol v1 (`v1/client.rs`). *)
Inductive ClientMessage :=
| CSubscribe (m : Subscribe)
| CUnsubscribe (m : Unsubscribe)
| CAdvertise (m : ClientAdvertise)
| CUnadvertise (m : ClientUnadvertise)
| CMessageData (m : ClientMessageData)
| CGetParameters (m : GetParameters)
| CSetParameters (m : SetParameters)
| CSubscribeParameterUpdates (m : SubscribeParameterUpdates)
| CUnsubscribeParameterUpdates (m : UnsubscribeParameterUpdates)
| CServiceCallRequest (m : ServiceCallRequest)
| CSubscribeConnectionGraph
| CUnsubscribeConnectionGraph
| CFetchAsset (m : FetchAsset)
| CPlaybackControlRequest (m : PlaybackControlRequest).

(** The JSON-encoded subset, `JsonMessage` of `v1/client.rs`. *)
Inductive ClientJsonMessage :=
| CJSubscribe (m : Subscribe)
| CJUnsubscribe (m : Unsubscribe)
| CJAdvertise (m : ClientAdvertise)
| CJUnadvertise (m : ClientUnadvertise)
| CJGetParameters (m : GetParameters)
| CJSetParameters (m : SetParameters)
| CJSubscribeParameterUpdates (m : SubscribeParameterUpdates)
| CJUnsubscribeParameterUpdates (m : UnsubscribeParameterUpdates)
| CJSubscribeConnectionGraph
| CJUnsubscribeConnectionGraph
| CJFetchAsset (m : FetchAsset).

Definition ClientMessage_from_json (m : ClientJsonMessage) : ClientMessage :=
  match m with
  | CJSubscribe m => CSubscribe m
  | CJUnsubscribe m => CUnsubscribe m
  | CJAdvertise m => CAdvertise m
  | CJUnadvertise m => CUnadvertise m
  | CJGetParameters m => CGetParameters m
  | CJSetParameters m => CSetParameters m
  | CJSubscribeParameterUpdates m => CSubscribeParameterUpdates m
  | CJUnsubscribeParameterUpdates m => CUnsubscribeParameterUpdates m
  | CJSubscribeConnectionGraph => CSubscribeConnectionGraph
  | CJUnsubscribeConnectionGraph => CUnsubscribeConnectionGraph
  | CJFetchAsset m => CFetchAsset m
  end.

(** ** Client messages of protocol v2 (`v2/client.rs`) *)

Record V2Subscribe := { v2s_channel_ids : list Z }.
Record V2Unsubscribe := { v2u_channel_ids : list Z }.

Inductive V2ClientMessage :=
| V2CSubscribe (m : V2Subscribe)
| V2CUnsubscribe (m : V2Unsubscribe)
| V2CAdvertise (m : ClientAdvertise)
| V2CUnadvertise (m : ClientUnadvertise)
| V2CMessageData (m : ClientMessageData)
| V2CGetParameters (m : GetParameters)
| V2CSetParameters (m : SetParameters)
| V2CSubscribeParameterUpdates (m : SubscribeParameterUpdates)
| V2CUnsubscribeParameterUpdates (m : UnsubscribeParameterUpdates)
| V2CServiceCallRequest (m : ServiceCallRequest)
| V2CSubscribeConnectionGraph
| V2CUnsubscribeConnectionGraph
| V2CFetchAsset (m : FetchAsset)
| V2CPlaybackControlRequest (m : PlaybackControlRequest).

(** ** Server messages *)

(** `v1/server/message_data.rs`; v2 (`v2/server/message_data.rs`) carries a
    channel id where v1 carries a subscription id. *)
Record MessageData := { md_subscription_id : Z; md_log_time : Z; md_data : list byte }.
Record V2MessageData := { v2md_channel_id : Z; v2md_log_time : Z; v2md_data : list byte }.

Record TimeMessage := { tm_timestamp : Z }.

Record ServiceCallResponse := {
  scr_service_id : Z;
  scr_call_id : Z;
  scr_encoding : string;
  scr_payload : list byte
}.

Inductive AssetPayload :=
| ErrorMessage (msg : string)
| AssetData (data : list byte).
Record FetchAssetResponse := { far_request_id : Z; far_payload : AssetPayload }.

Inductive PlaybackStatus := Playing | Paused | Buffering | Ended.
Record PlaybackState := {
  ps_status : PlaybackStatus;
  ps_current_time : Z;
  ps_playback_speed : Z;
  ps_did_seek : bool;
  ps_request_id : option string
}.

Inductive StatusLevel := LevelInfo | LevelWarning | LevelError.
Record Status := { st_level : StatusLevel; st_message : string; st_id : option string }.
Definition Status_new (level : StatusLevel) (message : string) : Status :=
  {| st_level := level; st_message := message; st_id := None |}.
Definition Status_warning (message : string) : Status := Status_new LevelWarning message.
Definition Status_error (message : string) : Status := Status_new LevelError message.

Record RemoveStatus := { rs_status_ids : list string }.

(** A server's channel advertisement (`common/server/advertise.rs`). *)
Record WireChannel := {
  wc_id : Z;
  wc_topic : string;
  wc_encoding : string;
  wc_schema_name : string;
  wc_schema_encoding : option string;
  wc_schema : string
}.
Record Advertise := { ad_channels : list WireChannel }.
Record Unadvertise := { un_channel_ids : list Z }.

(** `common/server/advertise_services.rs`. *)
Record WireMessageSchema := {
  wms_encoding : string;
  wms_schema_name : string;
  wms_schema_encoding : string;
  wms_schema : string
}.
Record WireService := {
  wsv_id : Z;
  wsv_name : string;
  wsv_type : string;
  wsv_request : option WireMessageSchema;
  wsv_request_schema : option string;
  wsv_response : option WireMessageSchema;
  wsv_response_schema : option string
}.
Record AdvertiseServices := { as_services : list WireService }.
Record UnadvertiseServices := { us_service_ids : list Z }.

Record ServiceCallFailure := {
  scf_service_id : Z;
  scf_call_id : Z;
  scf_message : string
}.

Record ParameterValues := { pv_parameters : list Param; pv_id : option string }.

Record ConnectionGraphUpdate := {
  cgu_published_topics : list (string * list string);
  cgu_subscribed_topics : list (string * list string);
  cgu_advertised_services : list (string * list string);
  cgu_removed_topics : list string;
  cgu_removed_services : list string
}.

(** `common/server/server_info.rs`. *)
Inductive ProtocolCapability :=
| PcClientPublish | PcParameters | PcParametersSubscribe | PcTime | PcServices
| PcConnectionGraph | PcAssets | PcRangedPlayback.
Record SerializedTimestamp := { sts_sec : Z; sts_nsec : Z }.
Record ServerInfo := {
  si_name : string;
  si_capabilities : list ProtocolCapability;
  si_supported_encodings : list string;
  si_metadata : gmap string string;
  si_session_id : option string;
  si_data_start_time : option SerializedTimestamp;
  si_data_end_time : option SerializedTimestamp
}.

(** `ServerMessage` of protocol v1 (`v1/server.rs`). *)
Inductive ServerMessage :=
| SServerInfo (m : ServerInfo)
| SStatus (m : Status)
| SRemoveStatus (m : RemoveStatus)
| SAdvertise (m : Advertise)
| SUnadvertise (m : Unadvertise)
| SMessageData (m : MessageData)
| STime (m : TimeMessage)
| SParameterValues (m : ParameterValues)
| SAdvertiseServices (m : AdvertiseServices)
| SUnadvertiseServices (m : UnadvertiseServices)
| SServiceCallResponse (m : ServiceCallResponse)
| SConnectionGraphUpdate (m : ConnectionGraphUpdate)
| SFetchAssetResponse (m : FetchAssetResponse)
| SServiceCallFailure (m : ServiceCallFailure)
| SPlaybackState (m : PlaybackState).

(** `JsonMessage` of `v1/server.rs`. *)
Inductive ServerJsonMessage :=
| SJServerInfo (m : ServerInfo)
| SJStatus (m : Status)
| SJRemoveStatus (m : RemoveStatus)
| SJAdvertise (m : Advertise)
| SJUnadvertise (m : Unadvertise)
| SJParameterValues (m : ParameterValues)
| SJAdvertiseServices (m : AdvertiseServices)
| SJUnadvertiseServices (m : UnadvertiseServices)
| SJConnectionGraphUpdate (m : ConnectionGraphUpdate)
| SJServiceCallFailure (m : ServiceCallFailure).

Definition ServerMessage_from_json (m : ServerJsonMessage) : ServerMessage :=
  match m with
  | SJServerInfo m => SServerInfo m
  | SJStatus m => SStatus m
  | SJRemoveStatus m => SRemoveStatus m
  | SJAdvertise m => SAdvertise m
  | SJUnadvertise m => SUnadvertise m
  | SJParameterValues m => SParameterValues m
  | SJAdvertiseServices m => SAdvertiseServices m
  | SJUnadvertiseServices m => SUnadvertiseServices m
  | SJConnectionGraphUpdate m => SConnectionGraphUpdate m
  | SJServiceCallFailure m => SServiceCallFailure m
  end.

(** `ServerMessage` of protocol v2 (`v2/server.rs`): as in v1, but message data
    names the channel. *)
Inductive V2ServerMessage :=
| V2SServerInfo (m : ServerInfo)
| V2SStatus (m : Status)
| V2SRemoveStatus (m : RemoveStatus)
| V2SAdvertise (m : Advertise)
| V2SUnadvertise (m : Unadvertise)
| V2SMessageData (m : V2MessageData)
| V2STime (m : TimeMessage)
| V2SParameterValues (m : ParameterValues)
| V2SAdvertiseServices (m : AdvertiseServices)
| V2SUnadvertiseServices (m : UnadvertiseServices)
| V2SServiceCallResponse (m : ServiceCallResponse)
| V2SConnectionGraphUpdate (m : ConnectionGraphUpdate)
| V2SFetchAssetResponse (m : FetchAssetResponse)
| V2SServiceCallFailure (m : ServiceCallFailure)
| V2SPlaybackState (m : PlaybackState).
