(* ===== verification/Wire.v ===== *)
(** * Wire: binary payloads of the WebSocket protocol

    The [BinaryPayload] trait (`protocol/common/message.rs`) and its ten
    implementations, the opcode framing of protocol v1 and v2
    ([BinaryMessage::to_bytes], [parse_binary]) and the conversions from and
    to [tungstenite::Message] (`protocol/v1/tungstenite.rs`).  Buffers are
    read and written through the [bytes] crate's interface of Bytes.v; JSON
    text through an abstract [serde_json].  [BinaryPayloadLaws] is the
    contract every payload implementation meets: writing then parsing gives
    the message back, the announced size is the written size, and no input
    makes the parser panic. *)

From S2P Require Import Prelude Bytes Messages.
Local Open Scope Z_scope.

(** ** The [BinaryPayload] trait *)

Class BinaryPayload (M : Type) := {
  parse_payload : list byte → result ParseError M;
  payload_size : M → nat;
  write_payload : M → list byte → list byte
}.

(** [usize] is 64 bits wide: [len as u32] truncates, [x as usize] does not. *)
Definition len_u32 (n : nat) : Z := wrap 32 (Z.of_nat n).
#[global] Arguments len_u32 : simpl never.
Definition enough (n : nat) (data : list byte) : result ParseError unit :=
  ensure (bool_decide (n ≤ length data)%nat) BufferTooShort.
Definition parse_str (bytes : list byte) : result ParseError string :=
  ok_or (from_utf8 bytes) Utf8Error.

Section payloads.
Context `{HB : Buf}.

(** *** Client payloads *)

Definition ClientMessageData_parse (data : list byte) : result ParseError ClientMessageData :=
  _ ← enough 4 data;
  '(channel_id, data) ← or_panic (get_u32_le data);
  Ok {| cmd_channel_id := channel_id; cmd_data := data |}.
Definition ClientMessageData_write (m : ClientMessageData) (buf : list byte) : list byte :=
  put_slice (cmd_data m) (put_u32_le (cmd_channel_id m) buf).
#[export] Instance ClientMessageData_payload : BinaryPayload ClientMessageData := {|
  parse_payload := ClientMessageData_parse;
  payload_size m := (4 + length (cmd_data m))%nat;
  write_payload := ClientMessageData_write
|}.

Definition ServiceCallRequest_parse (data : list byte) : result ParseError ServiceCallRequest :=
  _ ← enough (4 + 4 + 4) data;
  '(service_id, data) ← or_panic (get_u32_le data);
  '(call_id, data) ← or_panic (get_u32_le data);
  '(encoding_length, data) ← or_panic (get_u32_le data);
  let encoding_length := Z.to_nat encoding_length in
  _ ← enough encoding_length data;
  bytes ← or_panic (slice_to encoding_length data);
  encoding ← parse_str bytes;
  data ← or_panic (advance encoding_length data);
  Ok {| scq_service_id := service_id; scq_call_id := call_id;
        scq_encoding := encoding; scq_payload := data |}.
Definition ServiceCallRequest_write (m : ServiceCallRequest) (buf : list byte) : list byte :=
  let buf := put_u32_le (scq_service_id m) buf in
  let buf := put_u32_le (scq_call_id m) buf in
  let buf := put_u32_le (len_u32 (length (as_bytes (scq_encoding m)))) buf in
  let buf := put_slice (as_bytes (scq_encoding m)) buf in
  put_slice (scq_payload m) buf.
#[export] Instance ServiceCallRequest_payload : BinaryPayload ServiceCallRequest := {|
  parse_payload := ServiceCallRequest_parse;
  payload_size m :=
    (4 + 4 + 4 + length (as_bytes (scq_encoding m)) + length (scq_payload m))%nat;
  write_payload := ServiceCallRequest_write
|}.

Definition PlaybackCommand_try_from (value : Z) : option PlaybackCommand :=
  if decide (value = 0) then Some Play
  else if decide (value = 1) then Some Pause else None.
Definition PlaybackCommand_as_u8 (c : PlaybackCommand) : Z :=
  match c with Play => 0 | Pause => 1 end.

Definition PlaybackControlRequest_parse (data : list byte)
    : result ParseError PlaybackControlRequest :=
  _ ← enough (1 + 4 + 1 + 8 + 4) data;
  '(state_byte, data) ← or_panic (get_u8 data);
  playback_command ← ok_or (PlaybackCommand_try_from state_byte)
                           (InvalidPlaybackCommand state_byte);
  '(playback_speed, data) ← or_panic (get_f32_le data);
  '(had_seek, data) ← or_panic (get_u8 data);
  '(seek_time, data) ←
    (if bool_decide (had_seek ≠ 0) then
       '(t, data) ← or_panic (get_u64_le data); Ok (Some t, data)
     else data ← or_panic (advance 8 data); Ok (None, data));
  '(request_id_len, data) ← or_panic (get_u32_le data);
  let request_id_len := Z.to_nat request_id_len in
  _ ← enough request_id_len data;
  request_id_bytes ← or_panic (slice_to request_id_len data);
  request_id ← parse_str request_id_bytes;
  Ok {| pcr_playback_command := playback_command; pcr_playback_speed := playback_speed;
        pcr_seek_time := seek_time; pcr_request_id := request_id |}.
Definition PlaybackControlRequest_write (m : PlaybackControlRequest) (buf : list byte)
    : list byte :=
  let buf := put_u8 (PlaybackCommand_as_u8 (pcr_playback_command m)) buf in
  let buf := put_f32_le (pcr_playback_speed m) buf in
  let buf := put_u8 (match pcr_seek_time m with Some _ => 1 | None => 0 end) buf in
  let buf := put_u64_le (default 0 (pcr_seek_time m)) buf in
  let buf := put_u32_le (len_u32 (length (as_bytes (pcr_request_id m)))) buf in
  put_slice (as_bytes (pcr_request_id m)) buf.
#[export] Instance PlaybackControlRequest_payload : BinaryPayload PlaybackControlRequest := {|
  parse_payload := PlaybackControlRequest_parse;
  payload_size m := (1 + 4 + 1 + 8 + 4 + length (as_bytes (pcr_request_id m)))%nat;
  write_payload := PlaybackControlRequest_write
|}.

(** *** v2 subscribe and unsubscribe: a counted list of ids *)

(** [for _ in 0..count { ids.push(data.get_u32_le()) }] *)
Fixpoint get_u32s (count : nat) (data : list byte) : option (list Z) :=
  match count with
  | O => Some []
  | S count =>
    '(id, data) ← get_u32_le data;
    ids ← get_u32s count data;
    Some (id :: ids)
  end.
Definition put_u32s (ids : list Z) (buf : list byte) : list byte :=
  foldl (λ buf id, put_u32_le id buf) buf ids.

Definition id_list_parse (data : list byte) : result ParseError (list Z) :=
  _ ← enough 4 data;
  '(count, data) ← or_panic (get_u32_le data);
  required_len ← ok_or (checked_unsigned 64 (count * 4)) BufferTooShort;
  _ ← enough (Z.to_nat required_len) data;
  or_panic (get_u32s (Z.to_nat count) data).
Definition id_list_write (ids : list Z) (buf : list byte) : list byte :=
  put_u32s ids (put_u32_le (len_u32 (length ids)) buf).

Definition V2Subscribe_parse (data : list byte) : result ParseError V2Subscribe :=
  channel_ids ← id_list_parse data; Ok {| v2s_channel_ids := channel_ids |}.
#[export] Instance V2Subscribe_payload : BinaryPayload V2Subscribe := {|
  parse_payload := V2Subscribe_parse;
  payload_size m := (4 + length (v2s_channel_ids m) * 4)%nat;
  write_payload m := id_list_write (v2s_channel_ids m)
|}.
Definition V2Unsubscribe_parse (data : list byte) : result ParseError V2Unsubscribe :=
  channel_ids ← id_list_parse data; Ok {| v2u_channel_ids := channel_ids |}.
#[export] Instance V2Unsubscribe_payload : BinaryPayload V2Unsubscribe := {|
  parse_payload := V2Unsubscribe_parse;
  payload_size m := (4 + length (v2u_channel_ids m) * 4)%nat;
  write_payload m := id_list_write (v2u_channel_ids m)
|}.

(** *** Server payloads *)

Definition MessageData_parse (data : list byte) : result ParseError MessageData :=
  _ ← enough (4 + 8) data;
  '(subscription_id, data) ← or_panic (get_u32_le data);
  '(log_time, data) ← or_panic (get_u64_le data);
  Ok {| md_subscription_id := subscription_id; md_log_time := log_time; md_data := data |}.
Definition MessageData_write (m : MessageData) (buf : list byte) : list byte :=
  let buf := put_u32_le (md_subscription_id m) buf in
  let buf := put_u64_le (md_log_time m) buf in
  put_slice (md_data m) buf.
#[export] Instance MessageData_payload : BinaryPayload MessageData := {|
  parse_payload := MessageData_parse;
  payload_size m := (4 + 8 + length (md_data m))%nat;
  write_payload := MessageData_write
|}.

Definition V2MessageData_parse (data : list byte) : result ParseError V2MessageData :=
  _ ← enough (4 + 8) data;
  '(channel_id, data) ← or_panic (get_u32_le data);
  '(log_time, data) ← or_panic (get_u64_le data);
  Ok {| v2md_channel_id := channel_id; v2md_log_time := log_time; v2md_data := data |}.
Definition V2MessageData_write (m : V2MessageData) (buf : list byte) : list byte :=
  let buf := put_u32_le (v2md_channel_id m) buf in
  let buf := put_u64_le (v2md_log_time m) buf in
  put_slice (v2md_data m) buf.
#[export] Instance V2MessageData_payload : BinaryPayload V2MessageData := {|
  parse_payload := V2MessageData_parse;
  payload_size m := (4 + 8 + length (v2md_data m))%nat;
  write_payload := V2MessageData_write
|}.

Definition Time_parse (data : list byte) : result ParseError TimeMessage :=
  _ ← enough 8 data;
  '(timestamp, data) ← or_panic (get_u64_le data);
  Ok {| tm_timestamp := timestamp |}.
#[export] Instance Time_payload : BinaryPayload TimeMessage := {|
  parse_payload := Time_parse;
  payload_size _ := 8%nat;
  write_payload m buf := put_u64_le (tm_timestamp m) buf
|}.

Definition ServiceCallResponse_parse (data : list byte) : result ParseError ServiceCallResponse :=
  _ ← enough (4 + 4 + 4) data;
  '(service_id, data) ← or_panic (get_u32_le data);
  '(call_id, data) ← or_panic (get_u32_le data);
  '(encoding_len, data) ← or_panic (get_u32_le data);
  let encoding_len := Z.to_nat encoding_len in
  _ ← enough encoding_len data;
  bytes ← or_panic (slice_to encoding_len data);
  encoding ← parse_str bytes;
  data ← or_panic (advance encoding_len data);
  Ok {| scr_service_id := service_id; scr_call_id := call_id;
        scr_encoding := encoding; scr_payload := data |}.
Definition ServiceCallResponse_write (m : ServiceCallResponse) (buf : list byte) : list byte :=
  let buf := put_u32_le (scr_service_id m) buf in
  let buf := put_u32_le (scr_call_id m) buf in
  let buf := put_u32_le (len_u32 (length (as_bytes (scr_encoding m)))) buf in
  let buf := put_slice (as_bytes (scr_encoding m)) buf in
  put_slice (scr_payload m) buf.
#[export] Instance ServiceCallResponse_payload : BinaryPayload ServiceCallResponse := {|
  parse_payload := ServiceCallResponse_parse;
  payload_size m :=
    (4 + 4 + 4 + length (as_bytes (scr_encoding m)) + length (scr_payload m))%nat;
  write_payload := ServiceCallResponse_write
|}.

Definition FetchAssetResponse_parse (data : list byte) : result ParseError FetchAssetResponse :=
  _ ← enough (4 + 1 + 4) data;
  '(request_id, data) ← or_panic (get_u32_le data);
  '(raw_status, data) ← or_panic (get_u8 data);
  success ← (if decide (raw_status = 0) then Ok true
             else if decide (raw_status = 1) then Ok false
             else Err (InvalidFetchAssetStatus raw_status));
  '(error_message_len, data) ← or_panic (get_u32_le data);
  let error_message_len := Z.to_nat error_message_len in
  _ ← enough error_message_len data;
  payload ←
    (if success : bool then
       data ← or_panic (advance error_message_len data); Ok (AssetData data)
     else
       bytes ← or_panic (slice_to error_message_len data);
       msg ← parse_str bytes; Ok (ErrorMessage msg));
  Ok {| far_request_id := request_id; far_payload := payload |}.
Definition FetchAssetResponse_write (m : FetchAssetResponse) (buf : list byte) : list byte :=
  let '(status, error_message_len, payload) :=
    match far_payload m with
    | ErrorMessage msg => (1, length (as_bytes msg), as_bytes msg)
    | AssetData data => (0, 0%nat, data)
    end in
  let buf := put_u32_le (far_request_id m) buf in
  let buf := put_u8 status buf in
  let buf := put_u32_le (len_u32 error_message_len) buf in
  put_slice payload buf.
#[export] Instance FetchAssetResponse_payload : BinaryPayload FetchAssetResponse := {|
  parse_payload := FetchAssetResponse_parse;
  payload_size m := (4 + 1 + 4 + match far_payload m with
    | ErrorMessage msg => length (as_bytes msg) | AssetData data => length data end)%nat;
  write_payload := FetchAssetResponse_write
|}.

Definition PlaybackStatus_try_from (value : Z) : option PlaybackStatus :=
  if decide (value = 0) then Some Playing
  else if decide (value = 1) then Some Paused
  else if decide (value = 2) then Some Buffering
  else if decide (value = 3) then Some Ended else None.
Definition PlaybackStatus_as_u8 (s : PlaybackStatus) : Z :=
  match s with Playing => 0 | Paused => 1 | Buffering => 2 | Ended => 3 end.

Definition PlaybackState_parse (data : list byte) : result ParseError PlaybackState :=
  _ ← enough (1 + 8 + 4 + 1 + 4) data;
  '(status_byte, data) ← or_panic (get_u8 data);
  status ← ok_or (PlaybackStatus_try_from status_byte) (InvalidPlaybackStatus status_byte);
  '(current_time, data) ← or_panic (get_u64_le data);
  '(playback_speed, data) ← or_panic (get_f32_le data);
  '(did_seek, data) ← or_panic (get_u8 data);
  '(request_id_len, data) ← or_panic (get_u32_le data);
  let request_id_len := Z.to_nat request_id_len in
  request_id ←
    (if decide (request_id_len = 0%nat) then Ok None
     else
       _ ← enough request_id_len data;
       bytes ← or_panic (slice_to request_id_len data);
       request_id ← parse_str bytes; Ok (Some request_id));
  Ok {| ps_status := status; ps_current_time := current_time;
        ps_playback_speed := playback_speed; ps_did_seek := bool_decide (did_seek ≠ 0);
        ps_request_id := request_id |}.
Definition PlaybackState_write (m : PlaybackState) (buf : list byte) : list byte :=
  let request_id_len :=
    match ps_request_id m with Some id => len_u32 (length (as_bytes id)) | None => 0 end in
  let buf := put_u8 (PlaybackStatus_as_u8 (ps_status m)) buf in
  let buf := put_u64_le (ps_current_time m) buf in
  let buf := put_f32_le (ps_playback_speed m) buf in
  let buf := put_u8 (if ps_did_seek m then 1 else 0) buf in
  let buf := put_u32_le request_id_len buf in
  match ps_request_id m with Some id => put_slice (as_bytes id) buf | None => buf end.
#[export] Instance PlaybackState_payload : BinaryPayload PlaybackState := {|
  parse_payload := PlaybackState_parse;
  payload_size m := (1 + 8 + 4 + 1 + 4 +
    match ps_request_id m with Some id => length (as_bytes id) | None => 0 end)%nat;
  write_payload := PlaybackState_write
|}.
End payloads.

#[global] Arguments id_list_parse : simpl never.
#[global] Arguments id_list_write : simpl never.

(** ** Opcode framing *)

(** `BinaryOpcode` of `v1/client.rs`. *)
Inductive ClientOpcode :=
| COMessageData
| COServiceCallRequest
| COPlaybackControlRequest.
Definition ClientOpcode_from_repr (value : Z) : option ClientOpcode :=
  match value with
  | 1 => Some COMessageData
  | 2 => Some COServiceCallRequest
  | 3 => Some COPlaybackControlRequest
  | _ => None
  end.
Definition ClientOpcode_as_u8 (opcode : ClientOpcode) : Z :=
  match opcode with
  | COMessageData => 1
  | COServiceCallRequest => 2
  | COPlaybackControlRequest => 3
  end.

(** `BinaryOpcode` of `v2/client.rs`. *)
Inductive V2ClientOpcode :=
| C2OMessageData
| C2OServiceCallRequest
| C2OPlaybackControlRequest
| C2OSubscribe
| C2OUnsubscribe.
Definition V2ClientOpcode_from_repr (value : Z) : option V2ClientOpcode :=
  match value with
  | 1 => Some C2OMessageData
  | 2 => Some C2OServiceCallRequest
  | 3 => Some C2OPlaybackControlRequest
  | 4 => Some C2OSubscribe
  | 5 => Some C2OUnsubscribe
  | _ => None
  end.
Definition V2ClientOpcode_as_u8 (opcode : V2ClientOpcode) : Z :=
  match opcode with
  | C2OMessageData => 1
  | C2OServiceCallRequest => 2
  | C2OPlaybackControlRequest => 3
  | C2OSubscribe => 4
  | C2OUnsubscribe => 5
  end.

(** `BinaryOpcode` of `v1/server.rs`. *)
Inductive ServerOpcode :=
| SOMessageData
| SOTime
| SOServiceCallResponse
| SOFetchAssetResponse
| SOPlaybackState.
Definition ServerOpcode_from_repr (value : Z) : option ServerOpcode :=
  match value with
  | 1 => Some SOMessageData
  | 2 => Some SOTime
  | 3 => Some SOServiceCallResponse
  | 4 => Some SOFetchAssetResponse
  | 5 => Some SOPlaybackState
  | _ => None
  end.
Definition ServerOpcode_as_u8 (opcode : ServerOpcode) : Z :=
  match opcode with
  | SOMessageData => 1
  | SOTime => 2
  | SOServiceCallResponse => 3
  | SOFetchAssetResponse => 4
  | SOPlaybackState => 5
  end.

(** `BinaryOpcode` of `v2/server.rs`. *)
Inductive V2ServerOpcode :=
| S2OMessageData
| S2OTime
| S2OServiceCallResponse
| S2OFetchAssetResponse
| S2OPlaybackState.
Definition V2ServerOpcode_from_repr (value : Z) : option V2ServerOpcode :=
  match value with
  | 1 => Some S2OMessageData
  | 2 => Some S2OTime
  | 3 => Some S2OServiceCallResponse
  | 4 => Some S2OFetchAssetResponse
  | 5 => Some S2OPlaybackState
  | _ => None
  end.
Definition V2ServerOpcode_as_u8 (opcode : V2ServerOpcode) : Z :=
  match opcode with
  | S2OMessageData => 1
  | S2OTime => 2
  | S2OServiceCallResponse => 3
  | S2OFetchAssetResponse => 4
  | S2OPlaybackState => 5
  end.

(** [BinaryMessage::to_bytes]: the opcode, then the payload. *)
Definition frame `{Buf} {M} `{BinaryPayload M} (opcode : Z) (m : M) : list byte :=
  write_payload m (put_u8 opcode []).

(** [data.get_u8()] then a dispatch on the opcode, shared by the four
    [parse_binary] functions. *)
Definition parse_frame `{Buf} {A} (dispatch : Z → list byte → result ParseError A)
    (data : list byte) : result ParseError A :=
  match data with
  | [] => Err EmptyBinaryMessage
  | _ => '(opcode, data) ← or_panic (get_u8 data); dispatch opcode data
  end.

Section frames.
Context `{HB : Buf}.

(** *** Protocol v1, client (`v1/client.rs`) *)

Definition ClientMessage_dispatch (opcode : Z) (data : list byte)
    : result ParseError ClientMessage :=
  match ClientOpcode_from_repr opcode with
  | Some COMessageData => CMessageData <$> parse_payload data
  | Some COServiceCallRequest => CServiceCallRequest <$> parse_payload data
  | Some COPlaybackControlRequest => CPlaybackControlRequest <$> parse_payload data
  | None => Err (InvalidOpcode opcode)
  end.
Definition ClientMessage_parse_binary : list byte → result ParseError ClientMessage :=
  parse_frame ClientMessage_dispatch.

(** [BinaryMessage::to_bytes] where the message has a binary form. *)
Definition ClientMessage_to_bytes (m : ClientMessage) : option (list byte) :=
  match m with
  | CMessageData m => Some (frame (ClientOpcode_as_u8 COMessageData) m)
  | CServiceCallRequest m => Some (frame (ClientOpcode_as_u8 COServiceCallRequest) m)
  | CPlaybackControlRequest m => Some (frame (ClientOpcode_as_u8 COPlaybackControlRequest) m)
  | _ => None
  end.

(** *** Protocol v2, client (`v2/client.rs`) *)

Definition V2ClientMessage_dispatch (opcode : Z) (data : list byte)
    : result ParseError V2ClientMessage :=
  match V2ClientOpcode_from_repr opcode with
  | Some C2OMessageData => V2CMessageData <$> parse_payload data
  | Some C2OServiceCallRequest => V2CServiceCallRequest <$> parse_payload data
  | Some C2OPlaybackControlRequest => V2CPlaybackControlRequest <$> parse_payload data
  | Some C2OSubscribe => V2CSubscribe <$> parse_payload data
  | Some C2OUnsubscribe => V2CUnsubscribe <$> parse_payload data
  | None => Err (InvalidOpcode opcode)
  end.
Definition V2ClientMessage_parse_binary : list byte → result ParseError V2ClientMessage :=
  parse_frame V2ClientMessage_dispatch.
Definition V2ClientMessage_to_bytes (m : V2ClientMessage) : option (list byte) :=
  match m with
  | V2CMessageData m => Some (frame (V2ClientOpcode_as_u8 C2OMessageData) m)
  | V2CServiceCallRequest m => Some (frame (V2ClientOpcode_as_u8 C2OServiceCallRequest) m)
  | V2CPlaybackControlRequest m => Some (frame (V2ClientOpcode_as_u8 C2OPlaybackControlRequest) m)
  | V2CSubscribe m => Some (frame (V2ClientOpcode_as_u8 C2OSubscribe) m)
  | V2CUnsubscribe m => Some (frame (V2ClientOpcode_as_u8 C2OUnsubscribe) m)
  | _ => None
  end.

(** *** Protocol v1, server (`v1/server.rs`) *)

Definition ServerMessage_dispatch (opcode : Z) (data : list byte)
    : result ParseError ServerMessage :=
  match ServerOpcode_from_repr opcode with
  | Some SOMessageData => SMessageData <$> parse_payload data
  | Some SOTime => STime <$> parse_payload data
  | Some SOServiceCallResponse => SServiceCallResponse <$> parse_payload data
  | Some SOFetchAssetResponse => SFetchAssetResponse <$> parse_payload data
  | Some SOPlaybackState => SPlaybackState <$> parse_payload data
  | None => Err (InvalidOpcode opcode)
  end.
Definition ServerMessage_parse_binary : list byte → result ParseError ServerMessage :=
  parse_frame ServerMessage_dispatch.
Definition ServerMessage_to_bytes (m : ServerMessage) : option (list byte) :=
  match m with
  | SMessageData m => Some (frame (ServerOpcode_as_u8 SOMessageData) m)
  | STime m => Some (frame (ServerOpcode_as_u8 SOTime) m)
  | SServiceCallResponse m => Some (frame (ServerOpcode_as_u8 SOServiceCallResponse) m)
  | SFetchAssetResponse m => Some (frame (ServerOpcode_as_u8 SOFetchAssetResponse) m)
  | SPlaybackState m => Some (frame (ServerOpcode_as_u8 SOPlaybackState) m)
  | _ => None
  end.

(** *** Protocol v2, server (`v2/server.rs`) *)

Definition V2ServerMessage_dispatch (opcode : Z) (data : list byte)
    : result ParseError V2ServerMessage :=
  match V2ServerOpcode_from_repr opcode with
  | Some S2OMessageData => V2SMessageData <$> parse_payload data
  | Some S2OTime => V2STime <$> parse_payload data
  | Some S2OServiceCallResponse => V2SServiceCallResponse <$> parse_payload data
  | Some S2OFetchAssetResponse => V2SFetchAssetResponse <$> parse_payload data
  | Some S2OPlaybackState => V2SPlaybackState <$> parse_payload data
  | None => Err (InvalidOpcode opcode)
  end.
Definition V2ServerMessage_parse_binary : list byte → result ParseError V2ServerMessage :=
  parse_frame V2ServerMessage_dispatch.
Definition V2ServerMessage_to_bytes (m : V2ServerMessage) : option (list byte) :=
  match m with
  | V2SMessageData m => Some (frame (V2ServerOpcode_as_u8 S2OMessageData) m)
  | V2STime m => Some (frame (V2ServerOpcode_as_u8 S2OTime) m)
  | V2SServiceCallResponse m => Some (frame (V2ServerOpcode_as_u8 S2OServiceCallResponse) m)
  | V2SFetchAssetResponse m => Some (frame (V2ServerOpcode_as_u8 S2OFetchAssetResponse) m)
  | V2SPlaybackState m => Some (frame (V2ServerOpcode_as_u8 S2OPlaybackState) m)
  | _ => None
  end.
End frames.

(** ** [tungstenite::Message] (`protocol/v1/tungstenite.rs`) *)

(** The frames of the websocket crate; [Ping], [Pong], [Close] and raw frames
    carry nothing the protocol looks at. *)
Inductive Message :=
| MText (text : string)
| MBinary (bytes : list byte)
| MClose
| MOtherFrame.

(** [serde_json] is external: it renders the JSON-encoded server messages and
    parses client text frames. *)
Class Json := {
  json_of_server : ServerJsonMessage → string;
  json_to_client : string → option ClientJsonMessage
}.

Section tungstenite.
Context `{HB : Buf} `{HJ : Json}.

Definition ClientMessage_parse_json (json : string) : result ParseError ClientMessage :=
  msg ← ok_or (json_to_client json) JsonError; Ok (ClientMessage_from_json msg).

Definition ClientMessage_try_from (msg : Message) : result ParseError ClientMessage :=
  match msg with
  | MText utf8 => ClientMessage_parse_json utf8
  | MBinary bytes => ClientMessage_parse_binary bytes
  | _ => Err UnhandledMessageType
  end.

(** [Message::from(&m)] for every server message. *)
Definition Message_from (m : ServerMessage) : Message :=
  match m with
  | SMessageData m => MBinary (frame (ServerOpcode_as_u8 SOMessageData) m)
  | STime m => MBinary (frame (ServerOpcode_as_u8 SOTime) m)
  | SServiceCallResponse m => MBinary (frame (ServerOpcode_as_u8 SOServiceCallResponse) m)
  | SFetchAssetResponse m => MBinary (frame (ServerOpcode_as_u8 SOFetchAssetResponse) m)
  | SPlaybackState m => MBinary (frame (ServerOpcode_as_u8 SOPlaybackState) m)
  | SServerInfo m => MText (json_of_server (SJServerInfo m))
  | SStatus m => MText (json_of_server (SJStatus m))
  | SRemoveStatus m => MText (json_of_server (SJRemoveStatus m))
  | SAdvertise m => MText (json_of_server (SJAdvertise m))
  | SUnadvertise m => MText (json_of_server (SJUnadvertise m))
  | SParameterValues m => MText (json_of_server (SJParameterValues m))
  | SAdvertiseServices m => MText (json_of_server (SJAdvertiseServices m))
  | SUnadvertiseServices m => MText (json_of_server (SJUnadvertiseServices m))
  | SConnectionGraphUpdate m => MText (json_of_server (SJConnectionGraphUpdate m))
  | SServiceCallFailure m => MText (json_of_server (SJServiceCallFailure m))
  end.
End tungstenite.
