(* ===== verification/WireProofs.v ===== *)
(** * WireProofs: the binary payloads meet their contract

    [BinaryPayloadLaws] states what the framing layer needs of a payload; the
    ten implementations of Wire.v discharge it, and the theorems about
    [parse_binary] are proved against it. *)

From S2P Require Import Prelude Bytes Messages Wire.
Local Open Scope Z_scope.

(** ** The contract of a payload *)

(** [wf] is what Rust's types guarantee of a message (integer ranges, UTF-8)
    together with the 32-bit length fields of the format; [canon] is the
    message a peer reads back. *)
Class BinaryPayloadLaws (M : Type) `{BinaryPayload M} (wf : M → Prop) (canon : M → M) : Prop := {
  payload_append : ∀ m buf, wf m → write_payload m buf = buf ++ write_payload m [];
  payload_roundtrip : ∀ m, wf m → parse_payload (write_payload m []) = Ok (canon m);
  payload_length : ∀ m, wf m → length (write_payload m []) = payload_size m;
  payload_no_panic : ∀ data, no_panic (parse_payload data);
  payload_wf : ∀ data m, parse_payload data = Ok m → wf m
}.

(** ** Outcomes: a weakest precondition for [result] *)

Definition outcome {E A} (x : result E A) (P : A → Prop) : Prop :=
  match x with Ok a => P a | Err _ => True | Panic => False end.

Lemma outcome_no_panic {E A} (x : result E A) P : outcome x P → no_panic x.
Proof. by destruct x. Qed.
Lemma outcome_Ok {E A} (x : result E A) P a : outcome x P → x = Ok a → P a.
Proof. by intros H ->. Qed.
Lemma outcome_mono {E A} (x : result E A) (P Q : A → Prop) :
  outcome x P → (∀ a, P a → Q a) → outcome x Q.
Proof. destruct x; cbn; auto. Qed.
Lemma outcome_bind {E A B} (x : result E A) (f : A → result E B) P :
  outcome x (λ a, outcome (f a) P) → outcome (x ≫= f) P.
Proof. by destruct x. Qed.
Lemma outcome_fmap {E A B} (x : result E A) (f : A → B) P :
  outcome x (λ a, P (f a)) → outcome (f <$> x) P.
Proof. by destruct x. Qed.

Lemma outcome_enough n data (P : unit → Prop) :
  ((n ≤ length data)%nat → P tt) → outcome (enough n data) P.
Proof. unfold enough, ensure. case_bool_decide; cbn; auto. Qed.
Lemma outcome_ok_or {E A} (o : option A) (e : E) (P : A → Prop) :
  (∀ a, o = Some a → P a) → outcome (ok_or o e) P.
Proof. destruct o; cbn; auto. Qed.
Lemma outcome_parse_str data (P : string → Prop) :
  (∀ s, as_bytes s = data → is_utf8 s → P s) → outcome (parse_str data) P.
Proof. intros HP. apply outcome_ok_or. intros s [??]%from_utf8_Some. auto. Qed.
Lemma outcome_slice n data (P : list byte → Prop) :
  (n ≤ length data)%nat → P (take n data) →
  outcome (E := ParseError) (or_panic (slice_to n data)) P.
Proof. intros. unfold slice_to. by rewrite decide_True. Qed.

Lemma take_le_bytes n (l : list byte) :
  (n ≤ length l)%nat → le_bytes n (le_val (take n l)) ++ drop n l = l.
Proof.
  intros. replace (le_bytes n _) with (take n l); [apply take_drop|].
  rewrite <- (le_bytes_val (take n l)) at 1. by rewrite length_take_le.
Qed.

Lemma outcome_get n w get data (P : Z * list byte → Prop) :
  reads_le n get → w = 8 * Z.of_nat n → (n ≤ length data)%nat →
  (∀ x rest, data = le_bytes n x ++ rest → fits w x → P (x, rest)) →
  outcome (E := ParseError) (or_panic (get data)) P.
Proof.
  intros G Hw Hn HP. rewrite G, decide_True by done. cbn. apply HP.
  - by rewrite take_le_bytes.
  - apply (le_val_fits n); [done|]. by rewrite length_take_le.
Qed.

Section buf.
Context `{HB : BufLaws}.

Lemma outcome_get_u8 data P : (1 ≤ length data)%nat →
  (∀ x rest, data = le_bytes 1 x ++ rest → fits 8 x → P (x, rest)) →
  outcome (E := ParseError) (or_panic (get_u8 data)) P.
Proof. apply (outcome_get 1 8); [apply get_u8_spec|done]. Qed.
Lemma outcome_get_u32_le data P : (4 ≤ length data)%nat →
  (∀ x rest, data = le_bytes 4 x ++ rest → fits 32 x → P (x, rest)) →
  outcome (E := ParseError) (or_panic (get_u32_le data)) P.
Proof. apply (outcome_get 4 32); [apply get_u32_le_spec|done]. Qed.
Lemma outcome_get_u64_le data P : (8 ≤ length data)%nat →
  (∀ x rest, data = le_bytes 8 x ++ rest → fits 64 x → P (x, rest)) →
  outcome (E := ParseError) (or_panic (get_u64_le data)) P.
Proof. apply (outcome_get 8 64); [apply get_u64_le_spec|done]. Qed.
Lemma outcome_get_f32_le data P : (4 ≤ length data)%nat →
  (∀ x rest, data = le_bytes 4 x ++ rest → fits 32 x → P (x, rest)) →
  outcome (E := ParseError) (or_panic (get_f32_le data)) P.
Proof. apply (outcome_get 4 32); [apply get_f32_le_spec|done]. Qed.
Lemma outcome_advance n data (P : list byte → Prop) : (n ≤ length data)%nat →
  P (drop n data) → outcome (E := ParseError) (or_panic (advance n data)) P.
Proof. intros. by rewrite advance_spec, decide_True. Qed.

Lemma put_u8_app x buf : fits 8 x → put_u8 x buf = buf ++ le_bytes 1 x.
Proof. apply put_u8_spec. Qed.
Lemma put_u32_le_app x buf : fits 32 x → put_u32_le x buf = buf ++ le_bytes 4 x.
Proof. apply put_u32_le_spec. Qed.
Lemma put_u64_le_app x buf : fits 64 x → put_u64_le x buf = buf ++ le_bytes 8 x.
Proof. apply put_u64_le_spec. Qed.
Lemma put_f32_le_app x buf : fits 32 x → put_f32_le x buf = buf ++ le_bytes 4 x.
Proof. apply put_f32_le_spec. Qed.
End buf.

Lemma enough_ok n data : (n ≤ length data)%nat → enough n data = Ok tt.
Proof. intros. unfold enough, ensure. by rewrite bool_decide_eq_true_2. Qed.
Lemma enough_short n data : (length data < n)%nat → enough n data = Err BufferTooShort.
Proof. intros. unfold enough, ensure. rewrite bool_decide_eq_false_2; [done|lia]. Qed.

Definition len_fits (n : nat) : Prop := fits 32 (Z.of_nat n).
Lemma len_u32_small n : len_fits n → len_u32 n = Z.of_nat n.
Proof. apply wrap_small. Qed.
Lemma len_u32_fits n : fits 32 (len_u32 n).
Proof. by apply wrap_fits. Qed.

(** ** Well-formed messages *)

Definition str_ok (s : string) : Prop := is_utf8 s ∧ len_fits (length (as_bytes s)).

Definition ClientMessageData_wf (m : ClientMessageData) : Prop := fits 32 (cmd_channel_id m).
Definition ServiceCallRequest_wf (m : ServiceCallRequest) : Prop :=
  fits 32 (scq_service_id m) ∧ fits 32 (scq_call_id m) ∧ str_ok (scq_encoding m).
Definition PlaybackControlRequest_wf (m : PlaybackControlRequest) : Prop :=
  fits 32 (pcr_playback_speed m) ∧
  match pcr_seek_time m with Some t => fits 64 t | None => True end ∧
  str_ok (pcr_request_id m).
Definition id_list_wf (ids : list Z) : Prop :=
  Forall (fits 32) ids ∧ len_fits (length ids).
Definition MessageData_wf (m : MessageData) : Prop :=
  fits 32 (md_subscription_id m) ∧ fits 64 (md_log_time m).
Definition V2MessageData_wf (m : V2MessageData) : Prop :=
  fits 32 (v2md_channel_id m) ∧ fits 64 (v2md_log_time m).
Definition Time_wf (m : TimeMessage) : Prop := fits 64 (tm_timestamp m).
Definition ServiceCallResponse_wf (m : ServiceCallResponse) : Prop :=
  fits 32 (scr_service_id m) ∧ fits 32 (scr_call_id m) ∧ str_ok (scr_encoding m).
Definition FetchAssetResponse_wf (m : FetchAssetResponse) : Prop :=
  fits 32 (far_request_id m) ∧
  match far_payload m with ErrorMessage msg => str_ok msg | AssetData _ => True end.
Definition PlaybackState_wf (m : PlaybackState) : Prop :=
  fits 64 (ps_current_time m) ∧ fits 32 (ps_playback_speed m) ∧
  match ps_request_id m with Some id => str_ok id | None => True end.

(** An empty request id is written as a zero length, which reads back as no
    request id. *)
Definition PlaybackState_canon (m : PlaybackState) : PlaybackState :=
  {| ps_status := ps_status m; ps_current_time := ps_current_time m;
     ps_playback_speed := ps_playback_speed m; ps_did_seek := ps_did_seek m;
     ps_request_id := match ps_request_id m with
                      | Some id => if decide (as_bytes id = []) then None else Some id
                      | None => None end |}.

(** ** Automation *)

Ltac fits_solve :=
  first [ assumption | apply len_u32_fits
        | solve [vm_compute; split; congruence] ].

(** Side conditions on lengths, after the buffer has been split into fields. *)
Ltac wire_len :=
  rewrite ?length_app, ?length_le_bytes, ?length_drop in *; cbn [length] in *; lia.

(** Put a written buffer in the normal form [buf ++ field ++ field ++ ...]. *)
Ltac wire_write :=
  rewrite ?put_u8_app, ?put_u32_le_app, ?put_u64_le_app, ?put_f32_le_app by fits_solve;
  rewrite ?put_slice_spec; rewrite ?app_nil_l, <- ?app_assoc.

(** Run a parser on a buffer in that normal form. *)
Ltac wire_run_step :=
  first
    [ rewrite enough_ok by wire_len
    | rewrite get_u32_le_bytes by fits_solve
    | rewrite get_u64_le_bytes by fits_solve
    | rewrite get_u8_bytes by fits_solve
    | rewrite get_f32_le_bytes by fits_solve ]; cbn [or_panic mbind result_bind ok_or].
Ltac wire_run := repeat wire_run_step.

(** Symbolic execution of a parser on an arbitrary buffer. *)
Ltac wire_wp_step :=
  first
    [ apply outcome_bind, outcome_enough; intros ?
    | apply outcome_bind, outcome_get_u8; [wire_len | intros ? ? -> ?]
    | apply outcome_bind, outcome_get_u32_le; [wire_len | intros ? ? -> ?]
    | apply outcome_bind, outcome_get_u64_le; [wire_len | intros ? ? -> ?]
    | apply outcome_bind, outcome_get_f32_le; [wire_len | intros ? ? -> ?]
    | apply outcome_bind, outcome_slice; [wire_len | ]
    | apply outcome_bind, outcome_parse_str; intros ? ? ?
    | apply outcome_bind, outcome_advance; [wire_len | ]
    | apply outcome_bind, outcome_ok_or; intros ? ? ].
Ltac wire_wp := repeat wire_wp_step.

Section length_fields.
(** Reading a counted string back: the length field is the length. *)
Lemma len_u32_to_nat n : len_fits n → Z.to_nat (len_u32 n) = n.
Proof. intros. rewrite len_u32_small by done. lia. Qed.

Lemma counted_str x l s :
  fits 32 x → (Z.to_nat x ≤ length l)%nat → as_bytes s = take (Z.to_nat x) l → is_utf8 s →
  str_ok s ∧ len_u32 (length (as_bytes s)) = x ∧ as_bytes s ++ drop (Z.to_nat x) l = l.
Proof.
  intros Hx Hl Hs Hu. unfold str_ok, len_fits, len_u32. rewrite Hs, length_take_le by done.
  rewrite Z2Nat.id by (unfold fits in *; lia).
  split_and!; [done|done|by apply wrap_small|apply take_drop].
Qed.
End length_fields.

Ltac wire_str E F :=
  match goal with Hs : as_bytes ?s = take (Z.to_nat ?x) ?rest |- _ =>
    destruct (counted_str x rest s) as (? & E & F); [done..|]
  end.

(** Both directions at once for the payloads whose encoding is canonical. *)
Definition exact {M} `{BinaryPayload M} (wf : M → Prop) (data : list byte) (m : M) : Prop :=
  wf m ∧ write_payload m [] = data.

Section instances.
Context `{HB : BufLaws}.

Lemma ClientMessageData_outcome data :
  outcome (parse_payload data) (exact ClientMessageData_wf data).
Proof.
  cbn. unfold ClientMessageData_parse. wire_wp. cbn. split; [done|]. cbn.
  unfold ClientMessageData_write. cbn. by wire_write.
Qed.

Lemma ServiceCallRequest_outcome data :
  outcome (parse_payload data) (exact ServiceCallRequest_wf data).
Proof.
  cbn. unfold ServiceCallRequest_parse. wire_wp. cbn.
  wire_str E F.
  split; [done|]. cbn. unfold ServiceCallRequest_write. cbn. rewrite E.
  wire_write. by rewrite F.
Qed.

Lemma ServiceCallResponse_outcome data :
  outcome (parse_payload data) (exact ServiceCallResponse_wf data).
Proof.
  cbn. unfold ServiceCallResponse_parse. wire_wp. cbn.
  wire_str E F.
  split; [done|]. cbn. unfold ServiceCallResponse_write. cbn. rewrite E.
  wire_write. by rewrite F.
Qed.

Lemma MessageData_outcome data :
  outcome (parse_payload data) (exact MessageData_wf data).
Proof.
  cbn. unfold MessageData_parse. wire_wp. cbn. split; [done|]. cbn.
  unfold MessageData_write. cbn. by wire_write.
Qed.

Lemma V2MessageData_outcome data :
  outcome (parse_payload data) (exact V2MessageData_wf data).
Proof.
  cbn. unfold V2MessageData_parse. wire_wp. cbn. split; [done|]. cbn.
  unfold V2MessageData_write. cbn. by wire_write.
Qed.

Lemma Time_outcome data : outcome (parse_payload data) Time_wf.
Proof. cbn. unfold Time_parse. wire_wp. done. Qed.

Lemma PlaybackControlRequest_outcome data :
  outcome (parse_payload data) PlaybackControlRequest_wf.
Proof.
  cbn. unfold PlaybackControlRequest_parse. wire_wp.
  apply outcome_bind. case_bool_decide.
  - wire_wp. cbn. wire_wp. cbn.
    wire_str E F. done.
  - apply outcome_bind, outcome_advance; [wire_len|]. cbn.
    pose proof (length_drop rest 8) as Hd. revert Hd. generalize (drop 8 rest).
    intros data Hd. wire_wp. cbn. wire_str E F. done.
Qed.

Lemma FetchAssetResponse_outcome data :
  outcome (parse_payload data) FetchAssetResponse_wf.
Proof.
  cbn. unfold FetchAssetResponse_parse. wire_wp.
  apply outcome_bind. repeat case_decide; cbn; [| |done].
  - wire_wp. cbn. apply outcome_bind. wire_wp. done.
  - wire_wp. cbn. apply outcome_bind. wire_wp. cbn.
    wire_str E F. done.
Qed.

Lemma PlaybackState_outcome data : outcome (parse_payload data) PlaybackState_wf.
Proof.
  cbn. unfold PlaybackState_parse. wire_wp. apply outcome_bind. case_decide; cbn; [done|].
  wire_wp. cbn. wire_str E F. done.
Qed.

(** *** Counted lists of ids *)

Lemma put_u32s_app ids buf :
  Forall (fits 32) ids → put_u32s ids buf = buf ++ concat (map (le_bytes 4) ids).
Proof.
  intros Hids. revert buf. unfold put_u32s. induction Hids as [|id ids ?? IH]; intros buf; cbn.
  - by rewrite app_nil_r.
  - rewrite IH, put_u32_le_app by done. by rewrite <- app_assoc.
Qed.

Lemma length_concat_u32s ids : length (concat (map (le_bytes 4) ids)) = (length ids * 4)%nat.
Proof.
  induction ids; cbn; [done|]. rewrite length_app, length_le_bytes. lia.
Qed.

Lemma get_u32s_app ids rest :
  Forall (fits 32) ids →
  get_u32s (length ids) (concat (map (le_bytes 4) ids) ++ rest) = Some ids.
Proof.
  induction 1 as [|id ids ?? IH]; cbn; [done|].
  rewrite <- app_assoc, get_u32_le_bytes by done. cbn. by rewrite IH.
Qed.

Lemma get_u32s_total n data :
  (n * 4 ≤ length data)%nat →
  ∃ ids, get_u32s n data = Some ids ∧ length ids = n ∧ Forall (fits 32) ids.
Proof.
  revert data. induction n as [|n IH]; intros data Hn; cbn.
  - by exists [].
  - assert (outcome (E := ParseError) (or_panic (get_u32_le data)) (λ '(x, rest),
      get_u32_le data = Some (x, rest) ∧ data = le_bytes 4 x ++ rest ∧ fits 32 x)) as Ho.
    { apply (outcome_get 4 32); [apply get_u32_le_spec|done|lia|]. intros x rest -> ?.
      rewrite get_u32_le_bytes; auto. }
    destruct (get_u32_le data) as [[x rest]|]; [|done]. destruct Ho as (_ & -> & ?).
    destruct (IH rest) as (ids & E & <- & ?); [wire_len|].
    exists (x :: ids). cbn. rewrite E. auto.
Qed.

Lemma id_list_outcome data : outcome (id_list_parse data) id_list_wf.
Proof.
  unfold id_list_parse. wire_wp.
  match goal with E : checked_unsigned _ _ = Some ?n |- _ =>
    unfold checked_unsigned in E; case_decide; [injection E as <-|done] end.
  destruct (get_u32s_total (Z.to_nat x) rest) as (ids & -> & E & ?);
    [unfold fits in *; lia|].
  split; [done|]. unfold len_fits, fits in *. lia.
Qed.

Lemma id_list_roundtrip ids :
  id_list_wf ids → id_list_parse (id_list_write ids []) = Ok ids.
Proof.
  intros [Hids Hlen]. unfold id_list_write. rewrite put_u32s_app by done. wire_write.
  unfold id_list_parse. wire_run. rewrite len_u32_small by done.
  unfold checked_unsigned. rewrite decide_True by (unfold len_fits, fits in *; lia).
  cbn. rewrite enough_ok by (rewrite length_concat_u32s; lia). cbn.
  rewrite Nat2Z.id. rewrite <- (app_nil_r (concat _)), get_u32s_app; done.
Qed.

Lemma id_list_append ids buf :
  id_list_wf ids → id_list_write ids buf = buf ++ id_list_write ids [].
Proof.
  intros [Hids _]. unfold id_list_write. rewrite !put_u32s_app by done. by wire_write.
Qed.

Lemma length_id_list_write ids :
  id_list_wf ids → length (id_list_write ids []) = (4 + length ids * 4)%nat.
Proof.
  intros [Hids _]. unfold id_list_write. rewrite put_u32s_app by done. wire_write.
  rewrite length_app, length_le_bytes, length_concat_u32s. lia.
Qed.
End instances.

(** ** The payloads discharge the contract *)

Ltac wire_laws outcome_lemma :=
  split;
  [ | | | intros data; eapply outcome_no_panic, outcome_lemma
    | intros data m E; eapply outcome_Ok in E; [|apply outcome_lemma]; apply E ].

Section laws.
Context `{HB : BufLaws}.

#[export] Instance ClientMessageData_laws :
  BinaryPayloadLaws ClientMessageData ClientMessageData_wf id.
Proof.
  wire_laws ClientMessageData_outcome; unfold ClientMessageData_wf;
    intros [id data]; cbn; intros; unfold ClientMessageData_write; cbn; wire_write; [done|..].
  - unfold ClientMessageData_parse. by wire_run.
  - wire_len.
Qed.

#[export] Instance MessageData_laws : BinaryPayloadLaws MessageData MessageData_wf id.
Proof.
  wire_laws MessageData_outcome; unfold MessageData_wf;
    intros [id t data]; cbn; intros; destruct_and?; unfold MessageData_write; cbn;
    wire_write; [done|..].
  - unfold MessageData_parse. by wire_run.
  - wire_len.
Qed.

#[export] Instance V2MessageData_laws : BinaryPayloadLaws V2MessageData V2MessageData_wf id.
Proof.
  wire_laws V2MessageData_outcome; unfold V2MessageData_wf;
    intros [id t data]; cbn; intros; destruct_and?; unfold V2MessageData_write; cbn;
    wire_write; [done|..].
  - unfold V2MessageData_parse. by wire_run.
  - wire_len.
Qed.

#[export] Instance Time_laws : BinaryPayloadLaws TimeMessage Time_wf id.
Proof.
  wire_laws Time_outcome; unfold Time_wf; intros [t]; cbn; intros; wire_write; [done|..].
  - unfold Time_parse. rewrite <- (app_nil_r (le_bytes 8 t)). by wire_run.
  - wire_len.
Qed.

(** Reading a counted string that is followed by more data. *)
Lemma parse_counted_str {A} s rest (k : string → list byte → result ParseError A) :
  str_ok s →
  (let n := Z.to_nat (len_u32 (length (as_bytes s))) in
   _ ← enough n (as_bytes s ++ rest);
   bytes ← or_panic (slice_to n (as_bytes s ++ rest));
   encoding ← parse_str bytes;
   data ← or_panic (advance n (as_bytes s ++ rest));
   k encoding data) = k s rest.
Proof.
  intros [Hu Hl]. cbn zeta. rewrite len_u32_to_nat by done.
  rewrite enough_ok by wire_len. cbn. rewrite slice_to_app. cbn.
  unfold parse_str. rewrite from_utf8_as_bytes by done. cbn. by rewrite advance_app.
Qed.

Lemma parse_last_str {A} s (k : string → result ParseError A) :
  str_ok s →
  (let n := Z.to_nat (len_u32 (length (as_bytes s))) in
   _ ← enough n (as_bytes s);
   bytes ← or_panic (slice_to n (as_bytes s));
   encoding ← parse_str bytes;
   k encoding) = k s.
Proof.
  intros [Hu Hl]. cbn zeta. rewrite len_u32_to_nat by done.
  rewrite enough_ok by done. cbn. unfold slice_to. rewrite decide_True by done.
  rewrite take_ge by done. cbn. unfold parse_str. by rewrite from_utf8_as_bytes.
Qed.

#[export] Instance ServiceCallRequest_laws :
  BinaryPayloadLaws ServiceCallRequest ServiceCallRequest_wf id.
Proof.
  wire_laws ServiceCallRequest_outcome; unfold ServiceCallRequest_wf;
    intros [sid cid enc pl]; cbn; intros; destruct_and?; unfold ServiceCallRequest_write; cbn;
    wire_write; [done|..].
  - unfold ServiceCallRequest_parse. wire_run.
    by apply (parse_counted_str enc pl (λ e d, Ok (Build_ServiceCallRequest sid cid e d))).
  - wire_len.
Qed.

#[export] Instance ServiceCallResponse_laws :
  BinaryPayloadLaws ServiceCallResponse ServiceCallResponse_wf id.
Proof.
  wire_laws ServiceCallResponse_outcome; unfold ServiceCallResponse_wf;
    intros [sid cid enc pl]; cbn; intros; destruct_and?; unfold ServiceCallResponse_write; cbn;
    wire_write; [done|..].
  - unfold ServiceCallResponse_parse. wire_run.
    by apply (parse_counted_str enc pl (λ e d, Ok (Build_ServiceCallResponse sid cid e d))).
  - wire_len.
Qed.

#[export] Instance V2Subscribe_laws :
  BinaryPayloadLaws V2Subscribe (λ m, id_list_wf (v2s_channel_ids m)) id.
Proof.
  split; cbn; unfold V2Subscribe_parse.
  - intros [ids]; cbn. apply id_list_append.
  - intros [ids] ?; cbn in *. by rewrite id_list_roundtrip.
  - intros [ids] ?; cbn in *. by apply length_id_list_write.
  - intros data. eapply (outcome_no_panic _ (λ _, True)), outcome_bind, outcome_mono;
      [apply id_list_outcome|done].
  - intros data m. apply (outcome_Ok _ (λ m, id_list_wf (v2s_channel_ids m))), outcome_bind.
    eapply outcome_mono; [apply id_list_outcome|done].
Qed.

#[export] Instance V2Unsubscribe_laws :
  BinaryPayloadLaws V2Unsubscribe (λ m, id_list_wf (v2u_channel_ids m)) id.
Proof.
  split; cbn; unfold V2Unsubscribe_parse.
  - intros [ids]; cbn. apply id_list_append.
  - intros [ids] ?; cbn in *. by rewrite id_list_roundtrip.
  - intros [ids] ?; cbn in *. by apply length_id_list_write.
  - intros data. eapply (outcome_no_panic _ (λ _, True)), outcome_bind, outcome_mono;
      [apply id_list_outcome|done].
  - intros data m. apply (outcome_Ok _ (λ m, id_list_wf (v2u_channel_ids m))), outcome_bind.
    eapply outcome_mono; [apply id_list_outcome|done].
Qed.

Lemma PlaybackCommand_try_from_as_u8 c :
  PlaybackCommand_try_from (PlaybackCommand_as_u8 c) = Some c.
Proof. by destruct c. Qed.
Lemma PlaybackCommand_fits c : fits 8 (PlaybackCommand_as_u8 c).
Proof. destruct c; fits_solve. Qed.
Lemma PlaybackStatus_try_from_as_u8 c :
  PlaybackStatus_try_from (PlaybackStatus_as_u8 c) = Some c.
Proof. by destruct c. Qed.
Lemma PlaybackStatus_fits c : fits 8 (PlaybackStatus_as_u8 c).
Proof. destruct c; fits_solve. Qed.

#[export] Instance PlaybackControlRequest_laws :
  BinaryPayloadLaws PlaybackControlRequest PlaybackControlRequest_wf id.
Proof.
  wire_laws PlaybackControlRequest_outcome; unfold PlaybackControlRequest_wf;
    intros [c sp st rid]; cbn -[PlaybackCommand_as_u8]; intros; destruct_and?;
    pose proof (PlaybackCommand_fits c);
    assert (fits 64 (default 0 st)) by (destruct st; [done|fits_solve]);
    assert (fits 8 (match st with Some _ => 1 | None => 0 end)) by (destruct st; fits_solve);
    unfold PlaybackControlRequest_write; cbn -[PlaybackCommand_as_u8]; wire_write; [done|..].
  - unfold PlaybackControlRequest_parse. wire_run.
    rewrite PlaybackCommand_try_from_as_u8. cbn -[PlaybackCommand_as_u8]. wire_run.
    destruct st as [t|]; cbn.
    + rewrite bool_decide_eq_true_2 by done. wire_run. cbn. wire_run.
      by apply (parse_last_str rid (λ r, Ok (Build_PlaybackControlRequest c sp (Some t) r))).
    + rewrite bool_decide_eq_false_2 by (intros []; done).
      rewrite <- (length_le_bytes 8 0) at 1. rewrite advance_app. cbn. wire_run.
      by apply (parse_last_str rid (λ r, Ok (Build_PlaybackControlRequest c sp None r))).
  - wire_len.
Qed.

Lemma did_seek_byte (sk : bool) : bool_decide ((if sk then 1 else 0) ≠ 0) = sk.
Proof. by destruct sk. Qed.

Lemma length_nil_decide {A B} (l : list A) (x y : B) :
  (if decide (length l = 0%nat) then x else y) = (if decide (l = []) then x else y).
Proof. by destruct l. Qed.

#[export] Instance FetchAssetResponse_laws :
  BinaryPayloadLaws FetchAssetResponse FetchAssetResponse_wf id.
Proof.
  wire_laws FetchAssetResponse_outcome; unfold FetchAssetResponse_wf;
    intros [rid [msg|data]]; cbn; intros; destruct_and?; unfold FetchAssetResponse_write; cbn;
    wire_write; try done; try wire_len.
  - unfold FetchAssetResponse_parse. wire_run. cbn.
    rewrite len_u32_to_nat by apply H2. rewrite enough_ok by done. cbn.
    unfold slice_to. rewrite decide_True, take_ge by done. cbn.
    unfold parse_str. by rewrite from_utf8_as_bytes by apply H2.
  - unfold FetchAssetResponse_parse. wire_run. cbn.
    rewrite enough_ok by (vm_compute; lia). cbn.
    by rewrite advance_spec.
Qed.

#[export] Instance PlaybackState_laws :
  BinaryPayloadLaws PlaybackState PlaybackState_wf PlaybackState_canon.
Proof.
  wire_laws PlaybackState_outcome; unfold PlaybackState_wf;
    intros [st t sp sk rid]; cbn -[PlaybackStatus_as_u8]; intros; destruct_and?;
    pose proof (PlaybackStatus_fits st);
    assert (fits 8 (if sk then 1 else 0)) by (destruct sk; fits_solve);
    unfold PlaybackState_write; cbn -[PlaybackStatus_as_u8];
    (destruct rid as [rid|]; cbn -[PlaybackStatus_as_u8]; wire_write); try done; try wire_len.
  - unfold PlaybackState_parse. wire_run.
    rewrite PlaybackStatus_try_from_as_u8. cbn -[PlaybackStatus_as_u8]. wire_run.
    rewrite len_u32_to_nat by apply H3.
    unfold PlaybackState_canon. cbn [ps_request_id ps_status ps_current_time ps_playback_speed
      ps_did_seek].
    rewrite did_seek_byte, (length_nil_decide (as_bytes rid)).
    case_decide as Hnil; cbn; [done|].
    rewrite enough_ok by done. cbn. unfold slice_to. rewrite decide_True, take_ge by done. cbn.
    unfold parse_str. by rewrite from_utf8_as_bytes by apply H3.
  - unfold PlaybackState_parse. rewrite <- (app_nil_r (le_bytes 4 0)). wire_run.
    rewrite PlaybackStatus_try_from_as_u8. cbn -[PlaybackStatus_as_u8]. wire_run.
    unfold PlaybackState_canon. cbn [ps_request_id ps_status ps_current_time ps_playback_speed
      ps_did_seek]. by rewrite did_seek_byte.
Qed.
End laws.

(** ** Framing *)

Section framing.
Context `{HB : BufLaws} {M : Type} `{HL : BinaryPayloadLaws M wf canon}.

(** A frame is the opcode byte followed by the payload on an empty buffer. *)
Lemma frame_bytes opcode m :
  fits 8 opcode → wf m → frame opcode m = le_bytes 1 opcode ++ write_payload m [].
Proof. intros. unfold frame. by rewrite put_u8_app, payload_append. Qed.

Lemma length_frame opcode m :
  fits 8 opcode → wf m → length (frame opcode m) = S (payload_size m).
Proof.
  intros. rewrite frame_bytes, length_app, length_le_bytes by done.
  by rewrite (payload_length m).
Qed.

Lemma parse_frame_frame {A} (dispatch : Z → list byte → result ParseError A)
    (inj : M → A) opcode m :
  fits 8 opcode → wf m →
  (∀ data, dispatch opcode data = inj <$> parse_payload data) →
  parse_frame dispatch (frame opcode m) = Ok (inj (canon m)).
Proof.
  intros Ho Hm Hd. rewrite frame_bytes by done. unfold parse_frame.
  rewrite get_u8_bytes by done. cbn [or_panic mbind result_bind]. rewrite Hd.
  by rewrite payload_roundtrip.
Qed.

Lemma outcome_payload data : outcome (parse_payload data) wf.
Proof.
  pose proof (payload_no_panic data) as Hn. destruct (parse_payload data) eqn:E; try done.
  by apply payload_wf in E.
Qed.
End framing.

Lemma outcome_parse_frame `{BufLaws} {A} (dispatch : Z → list byte → result ParseError A)
    (P : A → Prop) data :
  (∀ opcode rest, data = le_bytes 1 opcode ++ rest → fits 8 opcode →
    outcome (dispatch opcode rest) P) →
  outcome (parse_frame dispatch data) P.
Proof.
  intros Hd. destruct data as [|b data]; [done|]. unfold parse_frame.
  apply outcome_bind, outcome_get_u8; [cbn; lia|auto].
Qed.

(** ** Well-formed messages of each direction *)

Definition ClientMessage_wf (m : ClientMessage) : Prop :=
  match m with
  | CMessageData m => ClientMessageData_wf m
  | CServiceCallRequest m => ServiceCallRequest_wf m
  | CPlaybackControlRequest m => PlaybackControlRequest_wf m
  | _ => True
  end.
Definition V2ClientMessage_wf (m : V2ClientMessage) : Prop :=
  match m with
  | V2CMessageData m => ClientMessageData_wf m
  | V2CServiceCallRequest m => ServiceCallRequest_wf m
  | V2CPlaybackControlRequest m => PlaybackControlRequest_wf m
  | V2CSubscribe m => id_list_wf (v2s_channel_ids m)
  | V2CUnsubscribe m => id_list_wf (v2u_channel_ids m)
  | _ => True
  end.
Definition ServerMessage_wf (m : ServerMessage) : Prop :=
  match m with
  | SMessageData m => MessageData_wf m
  | STime m => Time_wf m
  | SServiceCallResponse m => ServiceCallResponse_wf m
  | SFetchAssetResponse m => FetchAssetResponse_wf m
  | SPlaybackState m => PlaybackState_wf m
  | _ => True
  end.
Definition V2ServerMessage_wf (m : V2ServerMessage) : Prop :=
  match m with
  | V2SMessageData m => V2MessageData_wf m
  | V2STime m => Time_wf m
  | V2SServiceCallResponse m => ServiceCallResponse_wf m
  | V2SFetchAssetResponse m => FetchAssetResponse_wf m
  | V2SPlaybackState m => PlaybackState_wf m
  | _ => True
  end.
Definition ServerMessage_canon (m : ServerMessage) : ServerMessage :=
  match m with SPlaybackState m => SPlaybackState (PlaybackState_canon m) | _ => m end.
Definition V2ServerMessage_canon (m : V2ServerMessage) : V2ServerMessage :=
  match m with V2SPlaybackState m => V2SPlaybackState (PlaybackState_canon m) | _ => m end.

Ltac opcode := solve [vm_compute; split; congruence].
Ltac dispatch_outcome :=
  match goal with |- outcome (match ?x with _ => _ end) _ => destruct x as [[]|]; [..|exact I] end;
    apply outcome_fmap; (eapply outcome_mono; [apply outcome_payload|]; intros; assumption).

Ltac frame_roundtrip Hm Hb :=
  apply (inj Some) in Hb; rewrite <- Hb;
  match goal with |- _ (frame ?o ?m) = Ok ?r =>
    let r := eval hnf in r in
    match r with ?inj _ =>
      etransitivity; [apply (parse_frame_frame _ inj o m); [opcode|exact Hm|done]|done] end
  end.

(** Bytes of the fixed-size fields after each server opcode. *)
Definition ServerMessage_header (opcode : Z) : nat :=
  match opcode with 1 => 12 | 2 => 8 | 3 => 12 | 4 => 9 | 5 => 18 | _ => 0 end.

(** The opcode enums and their numbers. *)
Lemma ClientOpcode_from_repr_Some v o :
  ClientOpcode_from_repr v = Some o → v = ClientOpcode_as_u8 o.
Proof. destruct v as [|v|v]; try done. by repeat (destruct v as [v|v|]; try done); intros [= <-]. Qed.
Lemma ServerOpcode_from_repr_None v : ¬ 1 ≤ v ≤ 5 → ServerOpcode_from_repr v = None.
Proof. unfold ServerOpcode_from_repr. intros. repeat case_match; done || lia. Qed.

Section messages.
Context `{HB : BufLaws}.

Lemma ClientMessage_outcome data :
  outcome (ClientMessage_parse_binary data) ClientMessage_wf.
Proof.
  apply outcome_parse_frame. intros o rest _ _. unfold ClientMessage_dispatch. dispatch_outcome.
Qed.
Lemma V2ClientMessage_outcome data :
  outcome (V2ClientMessage_parse_binary data) V2ClientMessage_wf.
Proof.
  apply outcome_parse_frame. intros o rest _ _. unfold V2ClientMessage_dispatch. dispatch_outcome.
Qed.
Lemma ServerMessage_outcome data :
  outcome (ServerMessage_parse_binary data) ServerMessage_wf.
Proof.
  apply outcome_parse_frame. intros o rest _ _. unfold ServerMessage_dispatch. dispatch_outcome.
Qed.
Lemma V2ServerMessage_outcome data :
  outcome (V2ServerMessage_parse_binary data) V2ServerMessage_wf.
Proof.
  apply outcome_parse_frame. intros o rest _ _. unfold V2ServerMessage_dispatch. dispatch_outcome.
Qed.

(** C32: a protocol v1 client message that has a binary form and whose
    fields respect their Rust types is read back unchanged by the server from
    the bytes [to_bytes] produces. *)
Theorem ClientMessage_roundtrip m bytes :
  ClientMessage_wf m → ClientMessage_to_bytes m = Some bytes →
  ClientMessage_parse_binary bytes = Ok m.
Proof.
  intros Hm Hb. destruct m; try discriminate Hb; frame_roundtrip Hm Hb.
Qed.

(** The same for protocol v2 client messages, subscribe and
    unsubscribe id lists included. *)
Theorem V2ClientMessage_roundtrip m bytes :
  V2ClientMessage_wf m → V2ClientMessage_to_bytes m = Some bytes →
  V2ClientMessage_parse_binary bytes = Ok m.
Proof.
  intros Hm Hb. destruct m; try discriminate Hb; frame_roundtrip Hm Hb.
Qed.

(** C33: a v1 server message survives encoding and decoding, except that
    a playback state with an empty request id comes back without one
    ([ServerMessage_canon] is the identity on every other message). *)
Theorem ServerMessage_roundtrip m bytes :
  ServerMessage_wf m → ServerMessage_to_bytes m = Some bytes →
  ServerMessage_parse_binary bytes = Ok (ServerMessage_canon m).
Proof.
  intros Hm Hb. destruct m; try discriminate Hb; frame_roundtrip Hm Hb.
Qed.

(** The frame of a message's data parses back to it. *)
Lemma MessageData_frame m :
  MessageData_wf m →
  ServerMessage_parse_binary (frame (ServerOpcode_as_u8 SOMessageData) m) = Ok (SMessageData m).
Proof.
  intros Hm. etransitivity;
    [apply (parse_frame_frame _ SMessageData _ m); [opcode|exact Hm|done]|done].
Qed.

(** The same for protocol v2 server messages. *)
Theorem V2ServerMessage_roundtrip m bytes :
  V2ServerMessage_wf m → V2ServerMessage_to_bytes m = Some bytes →
  V2ServerMessage_parse_binary bytes = Ok (V2ServerMessage_canon m).
Proof.
  intros Hm Hb. destruct m; try discriminate Hb; frame_roundtrip Hm Hb.
Qed.

(** C34: none of the four binary parsers panics on any byte string
    (every read, slice and [advance] is guarded), and a message they return
    has its integers in range and its strings in UTF-8. *)
Theorem parse_binary_safe data :
  outcome (ClientMessage_parse_binary data) ClientMessage_wf ∧
  outcome (V2ClientMessage_parse_binary data) V2ClientMessage_wf ∧
  outcome (ServerMessage_parse_binary data) ServerMessage_wf ∧
  outcome (V2ServerMessage_parse_binary data) V2ServerMessage_wf.
Proof.
  auto using ClientMessage_outcome, V2ClientMessage_outcome, ServerMessage_outcome,
    V2ServerMessage_outcome.
Qed.

(** A payload with a canonical encoding gives back the frame it came from. *)
Lemma outcome_frame {M} `{BinaryPayload M} {wf canon} `{!BinaryPayloadLaws M wf canon}
    opcode rest :
  fits 8 opcode → outcome (parse_payload rest) (exact wf rest) →
  outcome (parse_payload rest) (λ m, Some (frame opcode m) = Some (le_bytes 1 opcode ++ rest)).
Proof.
  intros Ho Hx. eapply outcome_mono; [exact Hx|]. intros m [Hm Hw].
  by rewrite frame_bytes, Hw by done.
Qed.

(** Every v1 client frame the server accepts is the exact encoding
    of the message it produced, so no two byte strings decode to the same
    message (playback control, whose flag byte and tail are read leniently,
    apart). *)
Theorem ClientMessage_parse_exact data m :
  ClientMessage_parse_binary data = Ok m →
  (∀ r, m ≠ CPlaybackControlRequest r) →
  ClientMessage_to_bytes m = Some data.
Proof.
  intros E Hr. revert Hr. revert E. apply (outcome_Ok _ (λ m,
    (∀ r, m ≠ CPlaybackControlRequest r) → ClientMessage_to_bytes m = Some data)).
  apply outcome_parse_frame. intros o rest -> Ho. unfold ClientMessage_dispatch.
  destruct (ClientOpcode_from_repr o) as [o'|] eqn:E; [|exact I].
  apply ClientOpcode_from_repr_Some in E as ->. destruct o'; apply outcome_fmap.
  - eapply outcome_mono; [apply (outcome_frame 1), ClientMessageData_outcome; done|by intros].
  - eapply outcome_mono; [apply (outcome_frame 2), ServiceCallRequest_outcome; done|by intros].
  - eapply outcome_mono; [apply PlaybackControlRequest_outcome|].
    intros m' _ Hr. by destruct (Hr m').
Qed.

Lemma enough_bind_short {A} n data (k : result ParseError A) :
  (length data < n)%nat → (_ ← enough n data; k) = Err BufferTooShort.
Proof. intros. by rewrite enough_short. Qed.

(** The errors of the v1 server-message parser: an empty frame, an
    opcode other than the five defined ones whatever follows it, and a payload
    shorter than the fixed fields of its opcode. *)
Theorem ServerMessage_parse_errors opcode rest :
  fits 8 opcode →
  ServerMessage_parse_binary [] = Err EmptyBinaryMessage ∧
  (¬ 1 ≤ opcode ≤ 5 →
    ServerMessage_parse_binary (le_bytes 1 opcode ++ rest) = Err (InvalidOpcode opcode)) ∧
  (1 ≤ opcode ≤ 5 →
    (length rest < ServerMessage_header opcode)%nat →
    ServerMessage_parse_binary (le_bytes 1 opcode ++ rest) = Err BufferTooShort).
Proof.
  intros Ho. split_and!; [done|..]; intros Hr; unfold ServerMessage_parse_binary, parse_frame;
    rewrite get_u8_bytes by done; cbn [or_panic mbind result_bind];
    unfold ServerMessage_dispatch.
  - by rewrite ServerOpcode_from_repr_None.
  - intros Hl.
    assert (opcode = 1 ∨ opcode = 2 ∨ opcode = 3 ∨ opcode = 4 ∨ opcode = 5) by lia.
    destruct_or?; subst; cbn in Hl; cbn [ServerOpcode_from_repr parse_payload MessageData_payload Time_payload
        ServiceCallResponse_payload FetchAssetResponse_payload PlaybackState_payload];
      unfold MessageData_parse, Time_parse, ServiceCallResponse_parse,
        FetchAssetResponse_parse, PlaybackState_parse; by rewrite enough_short by lia.
Qed.
End messages.

(** ** Witnesses: the theorems at concrete messages, over [buf_ref] *)

Definition sample_request : ClientMessage :=
  CServiceCallRequest {| scq_service_id := 7; scq_call_id := 4294967295;
    scq_encoding := "json"; scq_payload := as_bytes "{}" |}.
Definition sample_pcr : V2ClientMessage :=
  V2CPlaybackControlRequest {| pcr_playback_command := Pause;
    pcr_playback_speed := 1065353216; pcr_seek_time := Some 5; pcr_request_id := "r1" |}.
Definition sample_state : PlaybackState :=
  {| ps_status := Ended; ps_current_time := 12; ps_playback_speed := 1065353216;
     ps_did_seek := true; ps_request_id := Some ""%string |}.

Ltac wf_compute := vm_compute; repeat split; congruence.

Lemma ClientMessage_roundtrip_witness :
  ∃ bytes, ClientMessage_to_bytes sample_request = Some bytes ∧ length bytes = 19%nat ∧
    ClientMessage_parse_binary bytes = Ok sample_request.
Proof.
  eexists. split; [reflexivity|]. split; [reflexivity|].
  apply (ClientMessage_roundtrip sample_request); [wf_compute|reflexivity].
Defined.

Lemma V2ClientMessage_roundtrip_witness :
  ∃ bytes, V2ClientMessage_to_bytes sample_pcr = Some bytes ∧
    V2ClientMessage_parse_binary bytes = Ok sample_pcr.
Proof.
  eexists. split; [reflexivity|].
  apply (V2ClientMessage_roundtrip sample_pcr); [wf_compute|reflexivity].
Defined.

Lemma ServerMessage_roundtrip_witness :
  ∃ bytes, ServerMessage_to_bytes (SPlaybackState sample_state) = Some bytes ∧
    ServerMessage_parse_binary bytes = Ok (ServerMessage_canon (SPlaybackState sample_state)) ∧
    ServerMessage_canon (SPlaybackState sample_state) ≠ SPlaybackState sample_state.
Proof.
  eexists. split; [reflexivity|]. split; [|discriminate].
  apply (ServerMessage_roundtrip (SPlaybackState sample_state)); [wf_compute|reflexivity].
Defined.

Lemma V2ServerMessage_roundtrip_witness :
  ∃ bytes,
    V2ServerMessage_to_bytes (V2STime {| tm_timestamp := 258 |}) = Some bytes ∧
    V2ServerMessage_parse_binary bytes = Ok (V2STime {| tm_timestamp := 258 |}).
Proof.
  eexists. split; [reflexivity|].
  apply (V2ServerMessage_roundtrip (V2STime {| tm_timestamp := 258 |}));
    [wf_compute|reflexivity].
Defined.

Lemma ClientMessage_parse_exact_witness :
  let m := CMessageData {| cmd_channel_id := 1; cmd_data := [Byte.xff] |} in
  let data := [Byte.x01; Byte.x01; Byte.x00; Byte.x00; Byte.x00; Byte.xff] in
  ClientMessage_parse_binary data = Ok m ∧ ClientMessage_to_bytes m = Some data.
Proof.
  cbn zeta. split; [reflexivity|].
  apply (ClientMessage_parse_exact); [reflexivity|discriminate].
Defined.

Lemma ServerMessage_parse_errors_witness :
  ServerMessage_parse_binary (le_bytes 1 9 ++ []) = Err (InvalidOpcode 9) ∧
  ServerMessage_parse_binary (le_bytes 1 4 ++ [Byte.x00]) = Err BufferTooShort.
Proof.
  split.
  - apply (ServerMessage_parse_errors 9 []); [wf_compute|lia].
  - apply (ServerMessage_parse_errors 4 [Byte.x00]); [wf_compute|lia|cbn; lia].
Defined.

Lemma parse_binary_safe_witness :
  outcome (ClientMessage_parse_binary [Byte.x02; Byte.xff]) ClientMessage_wf ∧
  ClientMessage_parse_binary [Byte.x02; Byte.xff] = Err BufferTooShort.
Proof. split; [apply (parse_binary_safe [Byte.x02; Byte.xff])|reflexivity]. Defined.
