(* ===== verification/ConnectionGraph.v ===== *)
(** * ConnectionGraph: the connection graph and its delta updates

    `websocket/connection_graph.rs`: the graph kept by the server, its
    subscribers, and the [ConnectionGraphUpdate] messages computed by [diff]
    and [update].  A [HashMap<String, HashSet<String>>] is a
    [gmap string (gset string)].  Iteration over a hash map has no specified
    order: the lists of an update are built here in stdpp's order, and the
    theorems about what a client does with an update hold for every update
    with the same entries ([update_equiv]).

    The specification side is the client of the WebSocket protocol: [view],
    the part of the graph a client knows, and [apply_update], what the
    protocol documentation says an update does to it. *)

From S2P Require Import Prelude Bytes Messages.

Abbreviation MapOfSets := (gmap string (gset string)).
Abbreviation ClientId := Z.

Record ConnectionGraph := {
  cg_published_topics : MapOfSets;
  cg_subscribed_topics : MapOfSets;
  cg_advertised_services : MapOfSets;
  cg_subscribers : gset ClientId
}.

Definition ConnectionGraph_new : ConnectionGraph :=
  {| cg_published_topics := ∅; cg_subscribed_topics := ∅;
     cg_advertised_services := ∅; cg_subscribers := ∅ |}.

(** [HashMap::insert] of a set collected from an iterator. *)
Definition set_ids (name : string) (ids : list string) (m : MapOfSets) : MapOfSets :=
  <[name := list_to_set ids]> m.

Definition set_published_topic (topic : string) (publisher_ids : list string)
    (g : ConnectionGraph) : ConnectionGraph :=
  {| cg_published_topics := set_ids topic publisher_ids (cg_published_topics g);
     cg_subscribed_topics := cg_subscribed_topics g;
     cg_advertised_services := cg_advertised_services g;
     cg_subscribers := cg_subscribers g |}.
Definition set_subscribed_topic (topic : string) (subscriber_ids : list string)
    (g : ConnectionGraph) : ConnectionGraph :=
  {| cg_published_topics := cg_published_topics g;
     cg_subscribed_topics := set_ids topic subscriber_ids (cg_subscribed_topics g);
     cg_advertised_services := cg_advertised_services g;
     cg_subscribers := cg_subscribers g |}.
Definition set_advertised_service (service : string) (provider_ids : list string)
    (g : ConnectionGraph) : ConnectionGraph :=
  {| cg_published_topics := cg_published_topics g;
     cg_subscribed_topics := cg_subscribed_topics g;
     cg_advertised_services := set_ids service provider_ids (cg_advertised_services g);
     cg_subscribers := cg_subscribers g |}.

Definition with_subscribers (s : gset ClientId) (g : ConnectionGraph) : ConnectionGraph :=
  {| cg_published_topics := cg_published_topics g;
     cg_subscribed_topics := cg_subscribed_topics g;
     cg_advertised_services := cg_advertised_services g; cg_subscribers := s |}.

(** [HashSet::insert] and [remove] say whether the set changed. *)
Definition add_subscriber (client_id : ClientId) (g : ConnectionGraph)
    : bool * ConnectionGraph :=
  (bool_decide (client_id ∉ cg_subscribers g),
   with_subscribers ({[client_id]} ∪ cg_subscribers g) g).
Definition remove_subscriber (client_id : ClientId) (g : ConnectionGraph)
    : bool * ConnectionGraph :=
  (bool_decide (client_id ∈ cg_subscribers g),
   with_subscribers (cg_subscribers g ∖ {[client_id]}) g).
Definition has_subscribers (g : ConnectionGraph) : bool :=
  negb (bool_decide (cg_subscribers g = ∅)).
Definition is_subscriber (client_id : ClientId) (g : ConnectionGraph) : bool :=
  bool_decide (client_id ∈ cg_subscribers g).

(** ** Diffs *)

(** The loop over the new entries: those present with the same set are skipped. *)
Definition changed_entries (self other : MapOfSets) : list (string * list string) :=
  omap (λ '(name, ids),
    match self !! name with
    | Some self_ids => if decide (self_ids = ids) then None else Some (name, elements ids)
    | None => Some (name, elements ids)
    end) (map_to_list other).

Definition contains_key (name : string) (m : MapOfSets) : bool := bool_decide (is_Some (m !! name)).
Definition keys (m : MapOfSets) : list string := (map_to_list m).*1.

Definition removed_topics (self other : ConnectionGraph) : gset string :=
  list_to_set (filter (λ name,
      negb (contains_key name (cg_published_topics other)) &&
      negb (contains_key name (cg_subscribed_topics other)))
    (keys (cg_published_topics self) ++ keys (cg_subscribed_topics self))).

Definition diff (self other : ConnectionGraph) : ConnectionGraphUpdate := {|
  cgu_published_topics := changed_entries (cg_published_topics self) (cg_published_topics other);
  cgu_subscribed_topics := changed_entries (cg_subscribed_topics self) (cg_subscribed_topics other);
  cgu_advertised_services :=
    changed_entries (cg_advertised_services self) (cg_advertised_services other);
  cgu_removed_topics := elements (removed_topics self other);
  cgu_removed_services :=
    filter (λ name, negb (contains_key name (cg_advertised_services other)))
      (keys (cg_advertised_services self))
|}.

Definition as_initial_update (g : ConnectionGraph) : ConnectionGraphUpdate :=
  diff ConnectionGraph_new g.

Definition update (g new : ConnectionGraph) : ConnectionGraphUpdate * ConnectionGraph :=
  (diff g new,
   {| cg_published_topics := cg_published_topics new;
      cg_subscribed_topics := cg_subscribed_topics new;
      cg_advertised_services := cg_advertised_services new;
      cg_subscribers := cg_subscribers g |}).

(** ** Specification: a client that follows the updates *)

Record view := {
  v_published : MapOfSets;
  v_subscribed : MapOfSets;
  v_services : MapOfSets
}.
Definition empty_view : view := {| v_published := ∅; v_subscribed := ∅; v_services := ∅ |}.
Definition view_of (g : ConnectionGraph) : view :=
  {| v_published := cg_published_topics g; v_subscribed := cg_subscribed_topics g;
     v_services := cg_advertised_services g |}.

Definition apply_entries (entries : list (string * list string)) (m : MapOfSets) : MapOfSets :=
  foldl (λ m '(name, ids), set_ids name ids m) m entries.
Definition drop_names (names : list string) (m : MapOfSets) : MapOfSets :=
  filter (λ '(name, _), name ∉ names) m.

(** Removed names disappear, listed names take the listed set. *)
Definition apply_update (u : ConnectionGraphUpdate) (v : view) : view := {|
  v_published :=
    apply_entries (cgu_published_topics u) (drop_names (cgu_removed_topics u) (v_published v));
  v_subscribed :=
    apply_entries (cgu_subscribed_topics u) (drop_names (cgu_removed_topics u) (v_subscribed v));
  v_services :=
    apply_entries (cgu_advertised_services u) (drop_names (cgu_removed_services u) (v_services v))
|}.

(** Two updates that list the same entries, in any order. *)
Definition norm (l : list (string * list string)) : list (string * gset string) :=
  prod_map id list_to_set <$> l.
Definition entries_equiv (l k : list (string * list string)) : Prop := norm l ≡ₚ norm k.
Record update_equiv (u u' : ConnectionGraphUpdate) : Prop := {
  ue_published : entries_equiv (cgu_published_topics u) (cgu_published_topics u');
  ue_subscribed : entries_equiv (cgu_subscribed_topics u) (cgu_subscribed_topics u');
  ue_services : entries_equiv (cgu_advertised_services u) (cgu_advertised_services u');
  ue_removed_topics : cgu_removed_topics u ≡ₚ cgu_removed_topics u';
  ue_removed_services : cgu_removed_services u ≡ₚ cgu_removed_services u'
}.

(** No topic disappears from one of the two topic maps while the other keeps it. *)
Definition no_half_removal (old new : ConnectionGraph) : Prop :=
  ∀ topic,
    (topic ∈ dom (cg_published_topics old) → topic ∉ dom (cg_published_topics new) →
     topic ∉ dom (cg_subscribed_topics new)) ∧
    (topic ∈ dom (cg_subscribed_topics old) → topic ∉ dom (cg_subscribed_topics new) →
     topic ∉ dom (cg_published_topics new)).

(** ** Lemmas *)

Lemma elem_of_keys name m : name ∈ keys m ↔ name ∈ dom m.
Proof.
  unfold keys. rewrite list_elem_of_fmap, elem_of_dom. split.
  - intros ([n s] & -> & Hin%elem_of_map_to_list). by exists s.
  - intros [s Hs]. exists (name, s). by rewrite elem_of_map_to_list.
Qed.

Lemma contains_key_true name m : contains_key name m = true ↔ name ∈ dom m.
Proof. unfold contains_key. by rewrite bool_decide_eq_true, elem_of_dom. Qed.
Lemma not_contains_key name m : Is_true (negb (contains_key name m)) ↔ name ∉ dom m.
Proof.
  rewrite <- contains_key_true. by destruct (contains_key name m); cbn; split; auto.
Qed.

Lemma elem_of_removed_topics name old new :
  name ∈ removed_topics old new ↔
  name ∈ dom (cg_published_topics old) ∪ dom (cg_subscribed_topics old) ∧
  name ∉ dom (cg_published_topics new) ∪ dom (cg_subscribed_topics new).
Proof.
  unfold removed_topics. rewrite elem_of_list_to_set, list_elem_of_filter, elem_of_app,
    !elem_of_keys, andb_True, !not_contains_key, elem_of_union, not_elem_of_union. tauto.
Qed.

Lemma elem_of_removed_services name old new :
  name ∈ cgu_removed_services (diff old new) ↔
  name ∈ dom (cg_advertised_services old) ∧ name ∉ dom (cg_advertised_services new).
Proof.
  cbn. rewrite list_elem_of_filter, elem_of_keys, not_contains_key. tauto.
Qed.

(** *** Entries as a finite map *)

Definition changed (self other : MapOfSets) : MapOfSets :=
  filter (λ '(name, ids), self !! name ≠ Some ids) other.

Lemma apply_entries_norm l m :
  NoDup (norm l).*1 → apply_entries l m = list_to_map (norm l) ∪ m.
Proof.
  revert m. induction l as [|[n ids] l IH]; intros m Hl.
  - cbn. by rewrite (left_id_L ∅ (∪)).
  - apply NoDup_cons in Hl as [Hn Hl]. apply not_elem_of_list_to_map_1 in Hn.
    change (apply_entries ((n, ids) :: l) m) with (apply_entries l (set_ids n ids m)).
    rewrite IH by done. cbn. unfold set_ids.
    rewrite <- insert_union_l. symmetry. by apply insert_union_r.
Qed.

Lemma norm_changed_entries self other :
  norm (changed_entries self other) =
  filter (λ '(name, ids), self !! name ≠ Some ids) (map_to_list other).
Proof.
  unfold norm, changed_entries. induction (map_to_list other) as [|[n s] l IH]; [done|].
  rewrite filter_cons. destruct (decide (self !! n = Some s)) as [E|E].
  - rewrite decide_False by (cbn; congruence). cbn -[filter]. rewrite E, decide_True by done.
    exact IH.
  - rewrite decide_True by done. rewrite <- IH. cbn -[filter].
    destruct (self !! n) as [s'|]; [rewrite decide_False by congruence|];
      cbn; unfold prod_map; cbn; by rewrite list_to_set_elements_L.
Qed.

Lemma NoDup_changed_entries self other : NoDup (norm (changed_entries self other)).*1.
Proof.
  rewrite norm_changed_entries. eapply sublist_NoDup; [apply (NoDup_fst_map_to_list other)|].
  apply fmap_sublist, sublist_filter.
Qed.

Lemma list_to_map_changed self other :
  list_to_map (norm (changed_entries self other)) = changed self other.
Proof.
  apply map_eq. intros n. apply option_eq. intros s.
  rewrite <- elem_of_list_to_map by apply NoDup_changed_entries.
  rewrite norm_changed_entries, list_elem_of_filter, elem_of_map_to_list.
  unfold changed. rewrite map_lookup_filter_Some. tauto.
Qed.

(** Applying any reordering of the entries of a diff. *)
Lemma apply_changed_entries l self other m :
  entries_equiv l (changed_entries self other) → apply_entries l m = changed self other ∪ m.
Proof.
  intros Hl. assert (NoDup (norm l).*1) as Hnd.
  { unfold entries_equiv in Hl. rewrite Hl. apply NoDup_changed_entries. }
  rewrite apply_entries_norm by done. rewrite <- list_to_map_changed. f_equal.
  by apply list_to_map_proper.
Qed.

Lemma lookup_drop_names names (m : MapOfSets) n :
  drop_names names m !! n = if decide (n ∈ names) then None else m !! n.
Proof.
  unfold drop_names. case_decide as Hn.
  - apply map_lookup_filter_None. right. intros s _ Hc. by apply Hc.
  - destruct (m !! n) as [s|] eqn:E.
    + by apply map_lookup_filter_Some.
    + apply map_lookup_filter_None. by left.
Qed.

(** One of the three maps after an update: it is the new map exactly when
    every name that left it is among the removed names. *)
Lemma apply_map_iff l names (self other : MapOfSets) :
  entries_equiv l (changed_entries self other) →
  (∀ n, n ∈ names → n ∉ dom other) →
  (apply_entries l (drop_names names self) = other) ↔
  (∀ n, n ∈ dom self → n ∉ dom other → n ∈ names).
Proof.
  intros Hl Hnames. rewrite (apply_changed_entries _ _ _ _ Hl).
  assert (∀ n s, other !! n = Some s →
    (changed self other ∪ drop_names names self) !! n = Some s) as Hsome.
  { intros n s Hs. rewrite lookup_union_Some_raw. unfold changed.
    destruct (decide (self !! n = Some s)) as [Hn|Hn].
    - right. rewrite map_lookup_filter_None, lookup_drop_names. split.
      { right. intros s' Hs' Hc. apply Hc. congruence. }
      rewrite decide_False; [done|]. intros Hin%Hnames. apply Hin. by apply elem_of_dom_2 in Hs.
    - left. by apply map_lookup_filter_Some. }
  assert (∀ n, other !! n = None →
    (changed self other ∪ drop_names names self) !! n = drop_names names self !! n) as Hnone.
  { intros n Hn. apply lookup_union_r. unfold changed. apply map_lookup_filter_None. by left. }
  split.
  - intros E n Hn Ho%not_elem_of_dom. specialize (Hnone n Ho). rewrite E, Ho in Hnone.
    rewrite lookup_drop_names in Hnone. case_decide; [done|]. by apply not_elem_of_dom in Hn.
  - intros Hd. apply map_eq. intros n. destruct (other !! n) as [s|] eqn:E; [by apply Hsome|].
    rewrite Hnone, lookup_drop_names by done. case_decide as Hn; [done|].
    apply not_elem_of_dom. intros Hs. apply Hn, Hd; [done|]. by apply not_elem_of_dom.
Qed.

Lemma fst_norm l : (norm l).*1 = l.*1.
Proof. induction l as [|[n s] l IH]; cbn; [done|]. by rewrite <- IH. Qed.

Lemma elem_of_changed_entries self other name ids :
  (name, ids) ∈ changed_entries self other ↔
  ∃ s, ids = elements s ∧ other !! name = Some s ∧ self !! name ≠ Some s.
Proof.
  unfold changed_entries. rewrite list_elem_of_omap. split.
  - intros ([n s] & Hin%elem_of_map_to_list & E). exists s.
    destruct (self !! n) as [s'|] eqn:Hs; [case_decide|]; simplify_eq;
      split_and!; congruence.
  - intros (s & -> & Hs%elem_of_map_to_list & Hn). exists (name, s). split; [done|].
    by destruct (self !! name); [rewrite decide_False by congruence|].
Qed.

Lemma changed_entries_self m : changed_entries m m = [].
Proof.
  destruct (changed_entries m m) as [|[n ids] l] eqn:E; [done|].
  assert ((n, ids) ∈ changed_entries m m) as H by (rewrite E; left).
  apply elem_of_changed_entries in H as (? & _ & ? & ?). congruence.
Qed.

Lemma diff_self g :
  diff g g = {| cgu_published_topics := []; cgu_subscribed_topics := [];
    cgu_advertised_services := []; cgu_removed_topics := []; cgu_removed_services := [] |}.
Proof.
  unfold diff. rewrite !changed_entries_self. f_equal.
  - apply elements_empty_iff. intros n. rewrite elem_of_removed_topics, elem_of_empty. tauto.
  - apply filter_none. intros n Hn. apply elem_of_keys in Hn. rewrite not_contains_key. tauto.
Qed.

Lemma diff_applies old new u :
  update_equiv u (diff old new) →
  (apply_update u (view_of old) = view_of new) ↔ no_half_removal old new.
Proof.
  intros [Hp Hs Hv Ht Hr]. cbn in Ht.
  assert (∀ n, (n ∈ cgu_removed_topics u) ↔
    (n ∈ dom (cg_published_topics old) ∨ n ∈ dom (cg_subscribed_topics old)) ∧
    ((n ∉ dom (cg_published_topics new)) ∧ (n ∉ dom (cg_subscribed_topics new)))) as Hin.
  { intros n. by rewrite Ht, elem_of_elements, elem_of_removed_topics, elem_of_union,
      not_elem_of_union. }
  assert (∀ n, n ∈ cgu_removed_services u ↔
    n ∈ dom (cg_advertised_services old) ∧ n ∉ dom (cg_advertised_services new)) as Hrm.
  { intros n. by rewrite Hr, elem_of_removed_services. }
  pose proof (apply_map_iff _ _ _ _ Hv (λ n H, proj2 (proj1 (Hrm n) H))) as [_ Hsv].
  pose proof (apply_map_iff _ _ _ _ Hp (λ n H, proj1 (proj2 (proj1 (Hin n) H)))) as [Hp1 Hp2].
  pose proof (apply_map_iff _ _ _ _ Hs (λ n H, proj2 (proj2 (proj1 (Hin n) H)))) as [Hs1 Hs2].
  unfold apply_update, view_of. cbn. split.
  - intros [= Ep Es _] topic. specialize (Hp1 Ep topic). specialize (Hs1 Es topic).
    rewrite Hin in Hp1, Hs1. tauto.
  - intros Hh. rewrite Hp2, Hs2, Hsv; [done|..]; intros n; specialize (Hh n);
      rewrite ?Hrm, ?Hin; tauto.
Qed.

Lemma update_equiv_refl u : update_equiv u u.
Proof. by split; unfold entries_equiv. Qed.

Lemma initial_view g : apply_update (as_initial_update g) empty_view = view_of g.
Proof.
  apply (diff_applies ConnectionGraph_new g); [apply update_equiv_refl|].
  intros topic. cbn. rewrite dom_empty_L, elem_of_empty. tauto.
Qed.

(** The server's graph and a client's view over a sequence of replacements
    ([update]), the client applying each update in turn. *)
Fixpoint follow (g : ConnectionGraph) (v : view) (news : list ConnectionGraph)
    : ConnectionGraph * view :=
  match news with
  | [] => (g, v)
  | new :: news => let '(u, g) := update g new in follow g (apply_update u v) news
  end.
(** Consecutive graphs drop no topic from just one map. *)
Fixpoint no_half_removals (g : ConnectionGraph) (news : list ConnectionGraph) : Prop :=
  match news with
  | [] => True
  | new :: news => no_half_removal g new ∧ no_half_removals new news
  end.

Lemma no_half_removal_subscribed old new :
  cg_published_topics old = ∅ → cg_published_topics new = ∅ → no_half_removal old new.
Proof. intros E1 E2 t. rewrite E1, E2, dom_empty_L, elem_of_empty. tauto. Qed.

Lemma no_half_removals_update g new news :
  no_half_removals (update g new).2 news ↔ no_half_removals new news.
Proof. by destruct news. Qed.

(** The server keeps the last graph, and its subscribers. *)
Lemma follow_graph g v news :
  view_of (follow g v news).1 = view_of (default g (last news)) ∧
  cg_subscribers (follow g v news).1 = cg_subscribers g.
Proof.
  revert g v. induction news as [|new news IH]; intros g v; cbn; [done|].
  destruct (IH (update g new).2 (apply_update (diff g new) v)) as [V S].
  cbn in V, S |- *. split; [|exact S]. rewrite V, last_cons. by destruct (last news).
Qed.

(** The client is up to date after each of the updates. *)
Definition up_to_date (g : ConnectionGraph) (v : view) (news : list ConnectionGraph) : Prop :=
  ∀ n, (follow g v (take n news)).2 = view_of (follow g v (take n news)).1.

Lemma up_to_date_iff g news : up_to_date g (view_of g) news ↔ no_half_removals g news.
Proof.
  revert g. induction news as [|new news IH]; intros g.
  { split; [done|]. by intros _ []. }
  assert (view_of new = view_of (update g new).2) as Ev by done.
  pose proof (diff_applies _ new _ (update_equiv_refl (diff g new))) as Hd. cbn [no_half_removals]. split.
  - intros Hu. pose proof (Hu 1%nat) as H1. cbn in H1. rewrite take_0 in H1. cbn in H1.
    change (apply_update (diff g new) (view_of g) = view_of new) in H1.
    split; [by apply Hd|]. apply (no_half_removals_update g), IH. intros n. specialize (Hu (S n)). cbn in Hu.
    by rewrite H1 in Hu.
  - intros [Hn Hs]. apply Hd in Hn. intros [|n]; [done|]. cbn. rewrite Hn, Ev.
    apply (IH (update g new).2). by apply no_half_removals_update.
Qed.

(** ** Properties *)

(** C30: For a client that holds the old graph, applying the update computed by
    [diff] — its entries in any order — yields the new graph if and only if
    no topic was dropped from just one of the published and subscribed maps.
    (A topic dropped from one map but kept in the other is neither listed nor
    removed, so the client keeps its stale entry.) *)
Theorem diff_applies_iff old new u :
  update_equiv u (diff old new) →
  (apply_update u (view_of old) = view_of new) ↔ no_half_removal old new.
Proof. apply diff_applies. Qed.

(** C29: a client that subscribes — receiving the initial update — and then
    applies every delta sees the server's graph after each of any sequence of
    replacements, if and only if none of them drops a topic from just one map (which
    leaves the client with a stale entry).  Whatever they are, the server has the last
    graph, and the set of subscribers is the one it started with. *)
Theorem follow_tracks_graph g news :
  let start := apply_update (as_initial_update g) empty_view in
  (up_to_date g start news ↔ no_half_removals g news) ∧
  let '(g', v) := follow g start news in
  (no_half_removals g news → v = view_of g') ∧ view_of g' = view_of (default g (last news)) ∧
  cg_subscribers g' = cg_subscribers g.
Proof.
  cbn zeta. rewrite initial_view. split; [apply up_to_date_iff|].
  pose proof (follow_graph g (view_of g) news) as Hg. pose proof (proj2 (up_to_date_iff g news)) as Hu.
  destruct (follow g (view_of g) news) as [g' v] eqn:E. split; [|exact Hg].
  intros Hn. specialize (Hu Hn (length news)). by rewrite firstn_all, E in Hu.
Qed.

(** [diff] lists an entry exactly when the new graph has it with a
    different set than the old one, once per name, and names as removed
    exactly the topics in neither new map; [diff g g] is empty. *)
Theorem diff_lists_changes old new name ids :
  ((name, ids) ∈ cgu_published_topics (diff old new) ↔
    ∃ s, ids = elements s ∧ cg_published_topics new !! name = Some s ∧
         cg_published_topics old !! name ≠ Some s) ∧
  NoDup (cgu_published_topics (diff old new)).*1 ∧
  NoDup (cgu_removed_topics (diff old new)) ∧
  (name ∈ cgu_removed_topics (diff old new) ↔
    name ∈ dom (cg_published_topics old) ∪ dom (cg_subscribed_topics old) ∧
    name ∉ dom (cg_published_topics new) ∪ dom (cg_subscribed_topics new)) ∧
  diff old old = {| cgu_published_topics := []; cgu_subscribed_topics := [];
    cgu_advertised_services := []; cgu_removed_topics := []; cgu_removed_services := [] |}.
Proof.
  split_and!.
  - apply elem_of_changed_entries.
  - rewrite <- fst_norm. apply NoDup_changed_entries.
  - cbn. apply NoDup_elements.
  - cbn. by rewrite elem_of_elements, elem_of_removed_topics.
  - apply diff_self.
Qed.

(** ** Witnesses *)

(** A topic that keeps a subscriber but loses its last publisher. *)
Definition graph_both : ConnectionGraph :=
  set_subscribed_topic "t" ["s"] (set_published_topic "t" ["p"] ConnectionGraph_new).
Definition graph_sub : ConnectionGraph := set_subscribed_topic "t" ["s"] ConnectionGraph_new.

Lemma diff_applies_iff_witness :
  apply_update (diff graph_both graph_sub) (view_of graph_both) ≠ view_of graph_sub.
Proof.
  intros E.
  apply (diff_applies_iff graph_both graph_sub _ (update_equiv_refl _)) in E.
  by destruct (E "t"%string) as [H _]; apply H; vm_compute.
Defined.

Lemma follow_tracks_graph_witness :
  (follow ConnectionGraph_new (apply_update (as_initial_update ConnectionGraph_new) empty_view)
     [graph_sub; ConnectionGraph_new]).2 = empty_view ∧
  ¬ up_to_date graph_both (apply_update (as_initial_update graph_both) empty_view) [graph_sub].
Proof.
  split.
  - pose proof (follow_tracks_graph ConnectionGraph_new [graph_sub; ConnectionGraph_new]) as [_ H].
    destruct (follow _ _ _) as [g v]. cbn in H |- *.
    destruct H as (Hv & Hg & _). rewrite Hv; [by rewrite Hg|].
    by split_and!; [by apply no_half_removal_subscribed..|].
  - intros Hu. apply (proj1 (follow_tracks_graph graph_both [graph_sub])) in Hu as [Hn _].
    destruct (Hn "t"%string) as [Ht _]; apply Ht; vm_compute; done.
Defined.
