(* ===== verification/Channel.v ===== *)
(** * Channel: channels, sinks and the logging path

    `channel/raw_channel.rs`, `channel/channel_descriptor.rs`, `schema.rs`,
    `metadata.rs`, `throttler.rs`, `log_sink_set.rs` and `sink.rs`.

    An [Arc<RawChannel>] is shared by the context's indexes and by its users,
    so its mutable parts (the sink set, the closed flag, the warning
    throttler) live in a store indexed by the channel id, which
    [ChannelId::next] makes unique; a [RawChannel] value is the handle, with
    the immutable descriptor.  What happens outside (calls of sinks, warnings)
    is recorded in a trace, oldest event first. *)

From S2P Require Import Prelude Bytes.
Local Open Scope Z_scope.

(** ** Errors (`lib.rs`); the payloads of foreign error types are messages *)

Inductive FoxgloveError :=
| Unspecified (msg : string)
| ValueError (msg : string)
| FoxgloveUtf8Error (msg : string)
| SinkClosed
| SchemaRequired
| MessageEncodingRequired
| ServerAlreadyStarted
| Bind (msg : string)
| DuplicateService (name : string)
| MissingRequestEncoding (name : string)
| ServicesNotSupported
| ConnectionGraphNotSupported
| IoError (msg : string)
| McapError (msg : string)
| EncodeError (msg : string)
| ConfigurationError (msg : string).

(** ** Descriptors *)

Abbreviation ChannelId := Z.
Abbreviation SinkId := Z.

Record Schema := { sch_name : string; sch_encoding : string; sch_data : list byte }.
#[export] Instance Schema_eq_dec : EqDecision Schema.
Proof. solve_decision. Defined.

Record ChannelDescriptor := {
  cd_id : ChannelId;
  cd_topic : string;
  cd_message_encoding : string;
  cd_metadata : gmap string string;
  cd_schema : option Schema
}.

(** Everything but the id. *)
Definition ChannelDescriptor_matches (self other : ChannelDescriptor) : bool :=
  bool_decide (cd_topic self = cd_topic other) &&
  bool_decide (cd_message_encoding self = cd_message_encoding other) &&
  bool_decide (cd_metadata self = cd_metadata other) &&
  bool_decide (cd_schema self = cd_schema other).

Record Metadata := { m_log_time : Z }.
Record PartialMetadata := { pm_log_time : option Z }.

(** ** [Throttler] *)

(** Instants and durations in nanoseconds of the monotonic clock; [now] is
    what [Instant::now] returns. *)
Record Throttler := { th_interval : Z; th_next_at : option Z }.
Definition Throttler_new (interval : Z) : Throttler :=
  {| th_interval := interval; th_next_at := None |}.
Definition try_acquire (now : Z) (t : Throttler) : bool * Throttler :=
  if match th_next_at t with Some next => bool_decide (now < next) | None => false end
  then (false, t)
  else (true, {| th_interval := th_interval t; th_next_at := Some (now + th_interval t) |}).

Definition WARN_THROTTLER_INTERVAL : Z := 10 * 10 ^ 9.

(** ** Channels and sinks *)

Record RawChannel := { rc_descriptor : ChannelDescriptor }.
Definition rc_id (c : RawChannel) : ChannelId := cd_id (rc_descriptor c).
Definition rc_topic (c : RawChannel) : string := cd_topic (rc_descriptor c).
Definition rc_matches (self other : RawChannel) : bool :=
  ChannelDescriptor_matches (rc_descriptor self) (rc_descriptor other).

(** An [Arc<dyn Sink>]: its identity, and the answers of its callbacks.
    [log] reports an error or nothing. *)
Record Sink := {
  sink_id : SinkId;
  sink_auto_subscribe : bool;
  sink_add_channels : list RawChannel → option (list ChannelId);
  sink_log : RawChannel → list byte → Metadata → option FoxgloveError
}.

Inductive Event :=
| EvAddChannels (sink : SinkId) (channels : list ChannelId)
| EvRemoveChannel (sink : SinkId) (channel : ChannelId)
| EvLog (sink : SinkId) (channel : ChannelId) (msg : list byte) (metadata : Metadata)
| EvWarnLogError (sink : SinkId) (err : FoxgloveError)
| EvWarnClosed (topic : string)
| EvWarnDuplicateTopic (topic : string).

Record ChannelState := {
  cs_sinks : list Sink;
  cs_closed : bool;
  cs_warn_throttler : Throttler
}.

Record World := {
  w_next_id : Z;  (* the counter of [ChannelId::next] *)
  w_store : gmap ChannelId ChannelState;
  w_trace : list Event
}.
Definition emit (evs : list Event) (w : World) : World :=
  {| w_next_id := w_next_id w; w_store := w_store w; w_trace := w_trace w ++ evs |}.
Definition alter_channel (f : ChannelState → ChannelState) (c : RawChannel) (w : World) : World :=
  {| w_next_id := w_next_id w; w_store := alter f (rc_id c) (w_store w);
     w_trace := w_trace w |}.

(** [RawChannel::new] with [ChannelId::next]: a wrapping [fetch_add]. *)
Definition RawChannel_new (topic message_encoding : string) (schema : option Schema)
    (metadata : gmap string string) (w : World) : RawChannel * World :=
  let id := w_next_id w in
  let c := {| rc_descriptor := {| cd_id := id; cd_topic := topic;
      cd_message_encoding := message_encoding; cd_metadata := metadata; cd_schema := schema |} |} in
  (c, {| w_next_id := wrap 64 (id + 1);
         w_store := <[id := {| cs_sinks := []; cs_closed := false;
           cs_warn_throttler := Throttler_new WARN_THROTTLER_INTERVAL |}]> (w_store w);
         w_trace := w_trace w |}).

(** [Sink::add_channels], and the default [Sink::add_channel]. *)
Definition Sink_add_channels (s : Sink) (channels : list RawChannel) (w : World)
    : option (list ChannelId) * World :=
  (sink_add_channels s channels, emit [EvAddChannels (sink_id s) (rc_id <$> channels)] w).
Definition Sink_add_channel (s : Sink) (c : RawChannel) (w : World) : bool * World :=
  let '(ids, w) := Sink_add_channels s [c] w in
  (match ids with Some ids => bool_decide (rc_id c ∈ ids) | None => false end, w).
Definition Sink_remove_channel (s : Sink) (c : RawChannel) (w : World) : World :=
  emit [EvRemoveChannel (sink_id s) (rc_id c)] w.

(** ** [LogSinkSet] and the methods of [RawChannel] *)

Definition LogSinkSet_store (sinks : list Sink) (st : ChannelState) : ChannelState :=
  {| cs_sinks := sinks; cs_closed := cs_closed st;
     cs_warn_throttler := cs_warn_throttler st |}.
Definition LogSinkSet_clear : ChannelState → ChannelState := LogSinkSet_store [].

Definition update_sinks (c : RawChannel) (sinks : list Sink) : World → World :=
  alter_channel (LogSinkSet_store sinks) c.

Definition remove_from_context (c : RawChannel) (w : World) : World :=
  let w := alter_channel (λ st, {| cs_sinks := cs_sinks st; cs_closed := true;
    cs_warn_throttler := cs_warn_throttler st |}) c w in
  alter_channel LogSinkSet_clear c w.

Definition channel_sinks (w : World) (c : RawChannel) : list Sink :=
  default [] (cs_sinks <$> w_store w !! rc_id c).
Definition is_closed (w : World) (c : RawChannel) : bool :=
  default false (cs_closed <$> w_store w !! rc_id c).
Definition has_sinks (w : World) (c : RawChannel) : bool :=
  match channel_sinks w c with [] => false | _ => true end.

(** [instant] is the reading of the monotonic clock. *)
Definition log_warn_if_closed (instant : Z) (c : RawChannel) (w : World) : World :=
  match w_store w !! rc_id c with
  | Some st =>
    if cs_closed st then
      let '(ok, t) := try_acquire instant (cs_warn_throttler st) in
      let w := alter_channel (λ st, {| cs_sinks := cs_sinks st; cs_closed := cs_closed st;
        cs_warn_throttler := t |}) c w in
      if ok : bool then emit [EvWarnClosed (rc_topic c)] w else w
    else w
  | None => w
  end.

(** [LogSinkSet::for_each] and [for_each_filtered] with the logging closure. *)
Definition log_one (c : RawChannel) (msg : list byte) (metadata : Metadata) (s : Sink) : list Event :=
  EvLog (sink_id s) (rc_id c) msg metadata ::
  match sink_log s c msg metadata with Some err => [EvWarnLogError (sink_id s) err] | None => [] end.
Definition for_each (sinks : list Sink) (f : Sink → list Event) (w : World) : World :=
  foldl (λ w s, emit (f s) w) w sinks.
Definition for_each_filtered (sinks : list Sink) (p : Sink → bool) (f : Sink → list Event)
    (w : World) : World :=
  foldl (λ w s, if p s then emit (f s) w else w) w sinks.

(** [epoch] is [nanoseconds_since_epoch()]. *)
Definition log_to_sinks (epoch : Z) (c : RawChannel) (msg : list byte) (opts : PartialMetadata)
    (id : option SinkId) (w : World) : World :=
  let metadata := {| m_log_time := default epoch (pm_log_time opts) |} in
  match id with
  | Some id => for_each_filtered (channel_sinks w c) (λ s, bool_decide (sink_id s = id))
                 (log_one c msg metadata) w
  | None => for_each (channel_sinks w c) (log_one c msg metadata) w
  end.

Definition log_with_meta_to_sink (instant epoch : Z) (c : RawChannel) (msg : list byte)
    (opts : PartialMetadata) (id : option SinkId) (w : World) : World :=
  if has_sinks w c then log_to_sinks epoch c msg opts id w
  else log_warn_if_closed instant c w.

Definition log (instant epoch : Z) (c : RawChannel) (msg : list byte) : World → World :=
  log_with_meta_to_sink instant epoch c msg {| pm_log_time := None |} None.

(** ** Lemmas *)

Lemma rc_matches_spec c d :
  rc_matches c d = true ↔
  cd_topic (rc_descriptor c) = cd_topic (rc_descriptor d) ∧
  cd_message_encoding (rc_descriptor c) = cd_message_encoding (rc_descriptor d) ∧
  cd_metadata (rc_descriptor c) = cd_metadata (rc_descriptor d) ∧
  cd_schema (rc_descriptor c) = cd_schema (rc_descriptor d).
Proof.
  unfold rc_matches, ChannelDescriptor_matches.
  rewrite !andb_true_iff, !bool_decide_eq_true. tauto.
Qed.

Lemma emit_nil w : emit [] w = w.
Proof. destruct w. unfold emit. cbn. by rewrite app_nil_r. Qed.
Lemma emit_app l k w : emit k (emit l w) = emit (l ++ k) w.
Proof. unfold emit. cbn. by rewrite app_assoc. Qed.

Lemma for_each_emit sinks f w : for_each sinks f w = emit (sinks ≫= f) w.
Proof.
  unfold for_each. revert w. induction sinks as [|s sinks IH]; intros w; cbn.
  - by rewrite emit_nil.
  - rewrite IH. apply emit_app.
Qed.

Lemma for_each_filtered_emit sinks p f w :
  for_each_filtered sinks p f w = emit (filter (λ s, p s = true) sinks ≫= f) w.
Proof.
  unfold for_each_filtered. revert w. induction sinks as [|s sinks IH]; intros w.
  - cbn. by rewrite emit_nil.
  - rewrite filter_cons. cbn [foldl]. rewrite IH. destruct (p s) eqn:E.
    + rewrite decide_True by done. cbn. apply emit_app.
    + by rewrite decide_False by done.
Qed.

Lemma channel_sinks_emit evs w c : channel_sinks (emit evs w) c = channel_sinks w c.
Proof. done. Qed.
Lemma is_closed_emit evs w c : is_closed (emit evs w) c = is_closed w c.
Proof. done. Qed.

(** The sinks a message reaches, in the order of the channel's set. *)
Definition targets (sinks : list Sink) (id : option SinkId) : list Sink :=
  match id with
  | Some id => filter (λ s, bool_decide (sink_id s = id) = true) sinks
  | None => sinks
  end.

Lemma log_to_sinks_emit epoch c msg opts id w :
  log_to_sinks epoch c msg opts id w =
  emit (targets (channel_sinks w c) id ≫=
    log_one c msg {| m_log_time := default epoch (pm_log_time opts) |}) w.
Proof.
  unfold log_to_sinks. destruct id; [apply for_each_filtered_emit|apply for_each_emit].
Qed.
