(* ===== verification/Subscriptions.v ===== *)
(** * Subscriptions: which sinks receive which channels

    `context/subscriptions.rs`.  A sink is subscribed globally or to single
    channels, never both, so that the union computed by [get_subscribers] has
    no duplicates.  The specification is a set of global subscribers and a set
    of (sink, channel) pairs; [Subscriptions] refines it. *)

From S2P Require Import Prelude Bytes Channel.
Local Open Scope Z_scope.

Record Subscriptions := {
  global : gmap SinkId Sink;
  by_channel : gmap ChannelId (gmap SinkId Sink)
}.
Definition Subscriptions_default : Subscriptions := {| global := ∅; by_channel := ∅ |}.

Definition Subscriptions_clear (s : Subscriptions) : Subscriptions := Subscriptions_default.

(** [HashMap::retain] with a closure that first removes [sink_id]. *)
Definition retain_without (id : SinkId) (m : gmap ChannelId (gmap SinkId Sink))
    : gmap ChannelId (gmap SinkId Sink) :=
  omap (λ subs, let subs := delete id subs in
                if decide (subs = ∅) then None else Some subs) m.

Definition subscribe_global (sink : Sink) (s : Subscriptions) : bool * Subscriptions :=
  let id := sink_id sink in
  match global s !! id with
  | None => (true, {| global := <[id := sink]> (global s);
                      by_channel := retain_without id (by_channel s) |})
  | Some _ => (false, {| global := <[id := sink]> (global s); by_channel := by_channel s |})
  end.

Definition subscribe_one (sink : Sink) (acc : bool * gmap ChannelId (gmap SinkId Sink))
    (channel_id : ChannelId) : bool * gmap ChannelId (gmap SinkId Sink) :=
  let '(inserted, m) := acc in
  let subs := default ∅ (m !! channel_id) in
  (inserted || bool_decide (subs !! sink_id sink = None),
   <[channel_id := <[sink_id sink := sink]> subs]> m).
Definition subscribe_channels (sink : Sink) (channel_ids : list ChannelId) (s : Subscriptions)
    : bool * Subscriptions :=
  match global s !! sink_id sink with
  | Some _ => (false, s)
  | None =>
    let '(inserted, m) := foldl (subscribe_one sink) (false, by_channel s) channel_ids in
    (inserted, {| global := global s; by_channel := m |})
  end.

Definition unsubscribe_one (id : SinkId) (acc : bool * gmap ChannelId (gmap SinkId Sink))
    (channel_id : ChannelId) : bool * gmap ChannelId (gmap SinkId Sink) :=
  let '(removed, m) := acc in
  match m !! channel_id with
  | Some subs =>
    match subs !! id with
    | Some _ =>
      let subs := delete id subs in
      (true, if decide (subs = ∅) then delete channel_id m else <[channel_id := subs]> m)
    | None => (removed, m)
    end
  | None => (removed, m)
  end.
Definition unsubscribe_channels (id : SinkId) (channel_ids : list ChannelId) (s : Subscriptions)
    : bool * Subscriptions :=
  let '(removed, m) := foldl (unsubscribe_one id) (false, by_channel s) channel_ids in
  (removed, {| global := global s; by_channel := m |}).

Definition remove_channel_subscriptions (channel_id : ChannelId) (s : Subscriptions)
    : bool * Subscriptions :=
  (bool_decide (is_Some (by_channel s !! channel_id)),
   {| global := global s; by_channel := delete channel_id (by_channel s) |}).

Definition remove_subscriber (id : SinkId) (s : Subscriptions) : bool * Subscriptions :=
  match global s !! id with
  | Some _ => (true, {| global := delete id (global s); by_channel := by_channel s |})
  | None =>
    (bool_decide (map_Exists (λ _ (subs : gmap SinkId Sink), is_Some (subs !! id)) (by_channel s)),
     {| global := global s; by_channel := retain_without id (by_channel s) |})
  end.

Definition values {A} (m : gmap Z A) : list A := (map_to_list m).*2.
Definition get_subscribers (channel_id : ChannelId) (s : Subscriptions) : list Sink :=
  values (global s) ++
  match by_channel s !! channel_id with Some subs => values subs | None => [] end.

(** ** Specification *)

Record SubsSpec := { sp_global : gset SinkId; sp_pairs : gset (SinkId * ChannelId) }.

Inductive SubsOp :=
| SubscribeGlobal (sink : Sink)
| SubscribeChannels (sink : Sink) (channel_ids : list ChannelId)
| UnsubscribeChannels (id : SinkId) (channel_ids : list ChannelId)
| RemoveChannelSubscriptions (channel_id : ChannelId)
| RemoveSubscriber (id : SinkId).

Definition run_op (op : SubsOp) (s : Subscriptions) : bool * Subscriptions :=
  match op with
  | SubscribeGlobal sink => subscribe_global sink s
  | SubscribeChannels sink ids => subscribe_channels sink ids s
  | UnsubscribeChannels id ids => unsubscribe_channels id ids s
  | RemoveChannelSubscriptions ch => remove_channel_subscriptions ch s
  | RemoveSubscriber id => remove_subscriber id s
  end.

Definition pairs_with (id : SinkId) (channel_ids : list ChannelId) : gset (SinkId * ChannelId) :=
  list_to_set (pair id <$> channel_ids).

Definition spec_op (op : SubsOp) (a : SubsSpec) : bool * SubsSpec :=
  let '{| sp_global := G; sp_pairs := P |} := a in
  match op with
  | SubscribeGlobal sink =>
    if decide (sink_id sink ∈ G) then (false, a)
    else (true, {| sp_global := {[sink_id sink]} ∪ G;
                   sp_pairs := filter (λ p, p.1 ≠ sink_id sink) P |})
  | SubscribeChannels sink ids =>
    if decide (sink_id sink ∈ G) then (false, a)
    else (bool_decide (Exists (λ ch, (sink_id sink, ch) ∉ P) ids),
          {| sp_global := G; sp_pairs := pairs_with (sink_id sink) ids ∪ P |})
  | UnsubscribeChannels id ids =>
    (bool_decide (Exists (λ ch, (id, ch) ∈ P) ids),
     {| sp_global := G; sp_pairs := P ∖ pairs_with id ids |})
  | RemoveChannelSubscriptions ch =>
    (bool_decide (set_Exists (λ p, p.2 = ch) P),
     {| sp_global := G; sp_pairs := filter (λ p, p.2 ≠ ch) P |})
  | RemoveSubscriber id =>
    if decide (id ∈ G) then (true, {| sp_global := G ∖ {[id]}; sp_pairs := P |})
    else (bool_decide (set_Exists (λ p, p.1 = id) P),
          {| sp_global := G; sp_pairs := filter (λ p, p.1 ≠ id) P |})
  end.

(** ** The invariant and the abstraction *)

Definition subs_at (m : gmap ChannelId (gmap SinkId Sink)) (ch : ChannelId) : gmap SinkId Sink :=
  default ∅ (m !! ch).

Record subs_wf (s : Subscriptions) : Prop := {
  sw_nonempty : ∀ ch, by_channel s !! ch ≠ Some ∅;
  sw_disjoint : ∀ ch, subs_at (by_channel s) ch ##ₘ global s;
  sw_keyed : ∀ id k, global s !! id = Some k → sink_id k = id;
  sw_keyed_at : ∀ ch id k, subs_at (by_channel s) ch !! id = Some k → sink_id k = id
}.

Record subs_abs (s : Subscriptions) (a : SubsSpec) : Prop := {
  sa_global : ∀ id, id ∈ sp_global a ↔ is_Some (global s !! id);
  sa_pairs : ∀ id ch, (id, ch) ∈ sp_pairs a ↔ is_Some (subs_at (by_channel s) ch !! id)
}.

(** ** The per-channel maps after each operation *)

Definition no_empty (m : gmap ChannelId (gmap SinkId Sink)) : Prop := ∀ ch, m !! ch ≠ Some ∅.

Lemma subs_at_retain id m ch : subs_at (retain_without id m) ch = delete id (subs_at m ch).
Proof.
  unfold subs_at, retain_without. rewrite lookup_omap.
  destruct (m !! ch) as [subs|]; cbn; [case_decide as E|]; cbn; by rewrite ?E, ?delete_empty.
Qed.
Lemma no_empty_retain id m : no_empty (retain_without id m).
Proof.
  intros ch. unfold retain_without. rewrite lookup_omap.
  destruct (m !! ch) as [subs|]; cbn; [case_decide|]; congruence.
Qed.

Lemma subs_at_insert m ch ch' subs :
  subs_at (<[ch := subs]> m) ch' = if decide (ch = ch') then subs else subs_at m ch'.
Proof.
  unfold subs_at. case_decide; simplify_eq; [by rewrite lookup_insert_eq|].
  by rewrite lookup_insert_ne.
Qed.
Lemma subs_at_delete m ch ch' :
  subs_at (delete ch m) ch' = if decide (ch = ch') then ∅ else subs_at m ch'.
Proof.
  unfold subs_at. case_decide; simplify_eq; [by rewrite lookup_delete_eq|].
  by rewrite lookup_delete_ne.
Qed.
Lemma no_empty_insert m ch subs : no_empty m → subs ≠ ∅ → no_empty (<[ch := subs]> m).
Proof.
  intros Hm Hs ch'. destruct (decide (ch = ch')) as [->|].
  - rewrite lookup_insert_eq. congruence.
  - by rewrite lookup_insert_ne.
Qed.
Lemma no_empty_delete m ch : no_empty m → no_empty (delete ch m).
Proof.
  intros Hm ch'. destruct (decide (ch = ch')) as [->|].
  - by rewrite lookup_delete_eq.
  - by rewrite lookup_delete_ne.
Qed.

(** [subscribe_channels]'s loop. *)
Lemma subscribe_loop sink ids b m :
  let '(b', m') := foldl (subscribe_one sink) (b, m) ids in
  (∀ ch, subs_at m' ch =
    if decide (ch ∈ ids) then <[sink_id sink := sink]> (subs_at m ch) else subs_at m ch) ∧
  (b' = true ↔ b = true ∨ ∃ ch, ch ∈ ids ∧ subs_at m ch !! sink_id sink = None) ∧
  (no_empty m → no_empty m').
Proof.
  revert b m. induction ids as [|c ids IH]; intros b m; cbn [foldl subscribe_one].
  - split_and!; [done| |done]. setoid_rewrite elem_of_nil. naive_solver.
  - set (b1 := b || _). set (m1 := <[c := _]> m).
    specialize (IH b1 m1). destruct (foldl _ (b1, m1) ids) as [b' m'].
    destruct IH as (Hat & Hb & Hne).
    assert (∀ ch, subs_at m1 ch =
      if decide (c = ch) then <[sink_id sink := sink]> (subs_at m ch) else subs_at m ch) as H1.
    { intros ch. unfold m1. rewrite subs_at_insert. by case_decide; subst. }
    split_and!.
    + intros ch. rewrite Hat, H1. repeat case_decide; subst; rewrite ?insert_insert_eq;
        set_solver.
    + rewrite Hb. unfold b1. rewrite orb_true_iff, bool_decide_eq_true.
      fold (subs_at m c). setoid_rewrite elem_of_cons. setoid_rewrite H1. split.
      * intros [[?|?]|(ch & ? & Hch)]; [by left|right; eauto|].
        case_decide; subst; [by rewrite lookup_insert_eq in Hch|eauto].
      * intros [?|(ch & [->|?] & Hch)]; [by left; left|by left; right|].
        destruct (decide (c = ch)) as [->|]; [by left; right|].
        right. exists ch. by rewrite decide_False.
    + intros Hm. apply Hne, no_empty_insert; [done|]. apply insert_non_empty.
Qed.

(** [unsubscribe_channels]'s loop. *)
Lemma unsubscribe_loop id ids b m :
  let '(b', m') := foldl (unsubscribe_one id) (b, m) ids in
  (∀ ch, subs_at m' ch = if decide (ch ∈ ids) then delete id (subs_at m ch) else subs_at m ch) ∧
  (b' = true ↔ b = true ∨ ∃ ch, ch ∈ ids ∧ is_Some (subs_at m ch !! id)) ∧
  (no_empty m → no_empty m').
Proof.
  revert b m. induction ids as [|c ids IH]; intros b m; cbn [foldl].
  - split_and!; [done| |done]. setoid_rewrite elem_of_nil. naive_solver.
  - destruct (unsubscribe_one id (b, m) c) as [b1 m1] eqn:E1.
    assert ((∀ ch, subs_at m1 ch =
        if decide (c = ch) then delete id (subs_at m ch) else subs_at m ch) ∧
      (b1 = true ↔ b = true ∨ is_Some (subs_at m c !! id)) ∧
      (no_empty m → no_empty m1)) as (H1 & Hb1 & Hne1).
    { revert E1. cbn. assert (Hc : subs_at m c = default ∅ (m !! c)) by done.
      destruct (m !! c) as [subs|] eqn:Ec; [destruct (subs !! id) as [k|] eqn:Ek|];
        cbn in Hc; intros [= <- <-]; rewrite Hc, ?Ek, ?lookup_empty.
      - split_and!; [|naive_solver|].
        + intros ch. destruct (decide (delete id subs = ∅)) as [Hs|Hs];
            rewrite ?subs_at_delete, ?subs_at_insert;
            (case_decide as Hd; [rewrite <- Hd, Hc|]); done.
        + intros Hm. case_decide; [by apply no_empty_delete|by apply no_empty_insert].
      - split_and!; [|naive_solver|done]. intros ch. case_decide as Hd; [rewrite <- Hd, Hc|done].
        symmetry. by apply delete_id.
      - split_and!; [|naive_solver|done]. intros ch. case_decide as Hd; [|done].
        by rewrite <- Hd, Hc, delete_empty. }
    specialize (IH b1 m1). destruct (foldl _ (b1, m1) ids) as [b' m'].
    destruct IH as (Hat & Hb & Hne). split_and!; [| |auto].
    + intros ch. rewrite Hat, H1. repeat case_decide; subst; rewrite ?delete_delete_eq; set_solver.
    + rewrite Hb, Hb1. setoid_rewrite elem_of_cons. setoid_rewrite H1. split.
      * intros [[?|?]|(ch & ? & Hch)]; [by left|right; eauto|].
        case_decide; subst; [by rewrite lookup_delete_eq in Hch; destruct Hch|eauto].
      * intros [?|(ch & [->|?] & Hch)]; [by left; left|by left; right|].
        destruct (decide (c = ch)) as [->|]; [by left; right|].
        right. exists ch. by rewrite decide_False.
Qed.

(** ** Every operation preserves the invariant and refines its specification *)

Lemma elem_of_pairs_with id ids p :
  p ∈ pairs_with id ids ↔ p.1 = id ∧ p.2 ∈ ids.
Proof.
  unfold pairs_with. rewrite elem_of_list_to_set, list_elem_of_fmap. destruct p as [i c]; cbn.
  split; [intros (? & [= -> ->] & ?); done|intros [-> ?]; eauto].
Qed.

(** A state that differs in the per-channel maps only, described pointwise. *)
Lemma subs_wf_intro g m :
  no_empty m →
  (∀ id k, g !! id = Some k → sink_id k = id) →
  (∀ ch id k, subs_at m ch !! id = Some k → sink_id k = id ∧ g !! id = None) →
  subs_wf {| global := g; by_channel := m |}.
Proof.
  intros Hn Hk Hm. split; cbn; [done| |done|].
  - intros ch. apply map_disjoint_spec. intros id x y Hx Hy. apply Hm in Hx as [_ Hx]. congruence.
  - intros ch id k Hx. by apply Hm in Hx as [? _].
Qed.

Lemma subs_wf_elim s ch id k :
  subs_wf s → subs_at (by_channel s) ch !! id = Some k → sink_id k = id ∧ global s !! id = None.
Proof.
  intros Hs Hk. split; [by eapply sw_keyed_at|].
  by eapply map_disjoint_Some_l; [apply sw_disjoint|].
Qed.

Lemma sw_no_empty s : subs_wf s → no_empty (by_channel s).
Proof. intros Hs ch. by apply sw_nonempty. Qed.

Lemma subs_wf_default : subs_wf Subscriptions_default.
Proof.
  apply subs_wf_intro; [intros ch|intros id k|intros ch id k]; unfold subs_at;
    by rewrite lookup_empty.
Qed.

Lemma run_op_wf op s : subs_wf s → subs_wf (run_op op s).2.
Proof.
  intros Hs. destruct op as [sink|sink ids|id ids|ch|id]; cbn.
  - unfold subscribe_global. destruct (global s !! sink_id sink) as [k|] eqn:E; cbn;
      apply subs_wf_intro.
    + apply (sw_no_empty _ Hs).
    + intros id k'. rewrite lookup_insert_Some. intros [[<- <-]|[_ ?]]; [done|].
      by eapply sw_keyed.
    + intros ch id k' Hk. destruct (subs_wf_elim _ _ _ _ Hs Hk) as [? Hg]. split; [done|].
      rewrite lookup_insert_ne; [done|]. congruence.
    + apply no_empty_retain.
    + intros id k'. rewrite lookup_insert_Some. intros [[<- <-]|[_ ?]]; [done|].
      by eapply sw_keyed.
    + intros ch id k'. rewrite subs_at_retain, lookup_delete_Some. intros [? Hk].
      destruct (subs_wf_elim _ _ _ _ Hs Hk) as [? Hg]. by rewrite lookup_insert_ne.
  - unfold subscribe_channels. destruct (global s !! sink_id sink) eqn:E; [done|].
    pose proof (subscribe_loop sink ids false (by_channel s)) as Hl.
    destruct (foldl _ _ _) as [b m]. destruct Hl as (Hat & _ & Hne). cbn.
    apply subs_wf_intro; [by apply Hne, (sw_no_empty _ Hs)|apply (sw_keyed _ Hs)|].
    intros ch id k. rewrite Hat. case_decide; [|by apply subs_wf_elim].
    rewrite lookup_insert_Some. intros [[<- <-]|[? Hk]]; [done|by eapply subs_wf_elim].
  - unfold unsubscribe_channels.
    pose proof (unsubscribe_loop id ids false (by_channel s)) as Hl.
    destruct (foldl _ _ _) as [b m]. destruct Hl as (Hat & _ & Hne). cbn.
    apply subs_wf_intro; [by apply Hne, (sw_no_empty _ Hs)|apply (sw_keyed _ Hs)|].
    intros ch i k. rewrite Hat. case_decide; [|by apply subs_wf_elim].
    rewrite lookup_delete_Some. intros [? Hk]. by eapply subs_wf_elim.
  - apply subs_wf_intro; [apply no_empty_delete, (sw_no_empty _ Hs)|apply (sw_keyed _ Hs)|].
    intros c id k. rewrite subs_at_delete. case_decide; [by rewrite lookup_empty|].
    by apply subs_wf_elim.
  - unfold remove_subscriber. destruct (global s !! id) eqn:E; cbn; apply subs_wf_intro.
    + apply (sw_no_empty _ Hs).
    + intros i k. rewrite lookup_delete_Some. intros [_ ?]. by eapply sw_keyed.
    + intros ch i k Hk. destruct (subs_wf_elim _ _ _ _ Hs Hk) as [? Hg]. split; [done|].
      by apply lookup_delete_None; right.
    + apply no_empty_retain.
    + apply (sw_keyed _ Hs).
    + intros ch i k. rewrite subs_at_retain, lookup_delete_Some. intros [? Hk].
      by eapply subs_wf_elim.
Qed.

Lemma or_iff (P P' Q Q' : Prop) : (P ↔ P') → (Q ↔ Q') → (P ∨ Q ↔ P' ∨ Q').
Proof. tauto. Qed.
Lemma bool_decide_ext (b : bool) (P : Prop) `{Decision P} : (b = true ↔ P) → b = bool_decide P.
Proof. intros HP. case_bool_decide; destruct b; naive_solver. Qed.

Lemma spec_global s a id :
  subs_abs s a → (id ∈ sp_global a ↔ is_Some (global s !! id)).
Proof. intros [H _]. apply H. Qed.

Ltac abs_pairs Ha := intros; rewrite ?elem_of_union, ?elem_of_difference, ?elem_of_filter,
  ?elem_of_pairs_with; cbn; rewrite ?(sa_pairs _ _ Ha); cbn.

Lemma run_op_abs op s a :
  subs_wf s → subs_abs s a →
  (run_op op s).1 = (spec_op op a).1 ∧ subs_abs (run_op op s).2 (spec_op op a).2.
Proof.
  intros Hs Ha. pose proof (spec_global s a) as HG. destruct a as [G P].
  specialize (λ id, HG id Ha). cbn in HG. destruct op as [sink|sink ids|id ids|ch|id]; cbn.
  - unfold subscribe_global. destruct (global s !! sink_id sink) as [k|] eqn:E.
    + rewrite decide_True by (rewrite HG, E; done). cbn. split; [done|]. split; cbn.
      * intros id. rewrite HG, lookup_insert_is_Some'. split; [auto|]. intros [<-|?]; [by rewrite E|done].
      * apply Ha.
    + rewrite decide_False by (rewrite HG, E; intros [??]; done). cbn. split; [done|]. split; cbn.
      * intros id. rewrite elem_of_union, elem_of_singleton, HG, lookup_insert_is_Some'.
        naive_solver.
      * abs_pairs Ha. rewrite subs_at_retain, lookup_delete_is_Some. naive_solver.
  - unfold subscribe_channels. destruct (global s !! sink_id sink) as [k|] eqn:E.
    + by rewrite decide_True by (rewrite HG, E; done).
    + rewrite decide_False by (rewrite HG, E; intros [??]; done).
      pose proof (subscribe_loop sink ids false (by_channel s)) as Hl.
      destruct (foldl _ _ _) as [b m]. destruct Hl as (Hat & Hb & _). cbn. split.
      * apply bool_decide_ext. rewrite Hb, Exists_exists. setoid_rewrite (sa_pairs _ _ Ha).
        cbn. setoid_rewrite eq_None_not_Some. naive_solver.
      * split; cbn; [apply Ha|]. abs_pairs Ha. rewrite Hat. case_decide.
        -- rewrite lookup_insert_is_Some'. naive_solver.
        -- naive_solver.
  - unfold unsubscribe_channels.
    pose proof (unsubscribe_loop id ids false (by_channel s)) as Hl.
    destruct (foldl _ _ _) as [b m]. destruct Hl as (Hat & Hb & _). cbn. split.
    + apply bool_decide_ext. rewrite Hb, Exists_exists. setoid_rewrite (sa_pairs _ _ Ha).
      cbn. naive_solver.
    + split; cbn; [apply Ha|]. abs_pairs Ha. rewrite Hat. case_decide.
      * rewrite lookup_delete_is_Some. naive_solver.
      * naive_solver.
  - split.
    + apply bool_decide_ext. rewrite bool_decide_eq_true. unfold set_Exists. split.
      * intros [m Hm]. destruct (map_choose m) as (id & k & Hk).
        { intros ->. by eapply sw_nonempty. }
        exists (id, ch). split; [|done]. apply (sa_pairs _ _ Ha). cbn. unfold subs_at.
        rewrite Hm. by exists k.
      * intros ([id c] & Hp & E). cbn in E. subst c. apply (sa_pairs _ _ Ha) in Hp. cbn in Hp.
        unfold subs_at in Hp. destruct (by_channel s !! ch); [done|].
        cbn in Hp. rewrite lookup_empty in Hp. by destruct Hp.
    + split; cbn; [apply Ha|]. abs_pairs Ha. rewrite subs_at_delete. case_decide.
      * rewrite lookup_empty. split; [naive_solver|intros [??]; done].
      * naive_solver.
  - unfold remove_subscriber. destruct (global s !! id) as [k|] eqn:E.
    + rewrite decide_True by (rewrite HG, E; done). cbn. split; [done|]. split; cbn.
      * intros i. rewrite elem_of_difference, elem_of_singleton, HG, lookup_delete_is_Some.
        naive_solver.
      * apply Ha.
    + rewrite decide_False by (rewrite HG, E; intros [??]; done). cbn. split.
      * apply bool_decide_ext. rewrite bool_decide_eq_true. unfold set_Exists, map_Exists. split.
        -- intros (ch & m & Hm & Hk). exists (id, ch). split; [|done].
           apply (sa_pairs _ _ Ha). cbn. unfold subs_at. by rewrite Hm.
        -- intros ([i ch] & Hp & Ei). cbn in Ei. subst i. apply (sa_pairs _ _ Ha) in Hp. cbn in Hp.
           unfold subs_at in Hp. destruct (by_channel s !! ch) as [m|] eqn:Em.
           ++ by exists ch, m.
           ++ cbn in Hp. rewrite lookup_empty in Hp. by destruct Hp.
      * split; cbn; [apply Ha|]. abs_pairs Ha. rewrite subs_at_retain, lookup_delete_is_Some.
        naive_solver.
Qed.

(** ** The subscribers of a channel *)

Lemma elem_of_values {A} (m : gmap Z A) x : x ∈ values m ↔ ∃ k, m !! k = Some x.
Proof.
  unfold values. rewrite list_elem_of_fmap. split.
  - intros ([k y] & -> & Hk%elem_of_map_to_list). by exists k.
  - intros [k Hk]. exists (k, x). by rewrite elem_of_map_to_list.
Qed.

Lemma values_keyed (m : gmap SinkId Sink) :
  (∀ id k, m !! id = Some k → sink_id k = id) → sink_id <$> values m = (map_to_list m).*1.
Proof.
  intros Hm. unfold values. rewrite <- list_fmap_compose. apply list_fmap_ext.
  intros i [k x] Hx. cbn. apply Hm. apply elem_of_map_to_list. by eapply list_elem_of_lookup_2.
Qed.

Lemma get_subscribers_subs_at ch s :
  get_subscribers ch s = values (global s) ++ values (subs_at (by_channel s) ch).
Proof.
  unfold get_subscribers, subs_at. destruct (by_channel s !! ch); cbn; [done|].
  unfold values. by rewrite map_to_list_empty.
Qed.

Lemma elem_of_get_subscribers ch s k :
  k ∈ get_subscribers ch s ↔
  (∃ id, global s !! id = Some k) ∨ (∃ id, subs_at (by_channel s) ch !! id = Some k).
Proof. by rewrite get_subscribers_subs_at, elem_of_app, !elem_of_values. Qed.

Lemma get_subscribers_NoDup ch s : subs_wf s → NoDup (sink_id <$> get_subscribers ch s).
Proof.
  intros Hs. rewrite get_subscribers_subs_at, fmap_app, !values_keyed;
    [|by intros id k Hk; eapply sw_keyed_at|by intros id k Hk; eapply sw_keyed].
  apply NoDup_app. split_and!; [apply NoDup_fst_map_to_list| |apply NoDup_fst_map_to_list].
  intros id Hg Hc. apply list_elem_of_fmap in Hg as ([? k] & -> & Hg%elem_of_map_to_list).
  apply list_elem_of_fmap in Hc as ([i k'] & Ei & Hc%elem_of_map_to_list). cbn in *. subst.
  apply (subs_wf_elim _ _ _ _ Hs) in Hc as [_ Hc]. congruence.
Qed.

Lemma get_subscribers_ids ch s id :
  subs_wf s →
  (id ∈ sink_id <$> get_subscribers ch s) ↔
  (is_Some (global s !! id) ∨ is_Some (subs_at (by_channel s) ch !! id)).
Proof.
  intros Hs. rewrite list_elem_of_fmap. setoid_rewrite elem_of_get_subscribers. split.
  - intros (k & -> & [[i Hk]|[i Hk]]).
    + left. by rewrite (sw_keyed _ Hs _ _ Hk), Hk.
    + right. by rewrite (sw_keyed_at _ Hs _ _ _ Hk), Hk.
  - intros [[k Hk]|[k Hk]]; exists k; (split; [symmetry|eauto]).
    + by apply (sw_keyed _ Hs).
    + by apply (sw_keyed_at _ Hs ch).
Qed.

(** ** What each operation does to the two maps, for the context *)

Lemma subscribe_channels_spec sink ids s :
  let '(b, s') := subscribe_channels sink ids s in
  global s' = global s ∧
  (∀ ch, subs_at (by_channel s') ch =
    if decide (global s !! sink_id sink = None ∧ ch ∈ ids)
    then <[sink_id sink := sink]> (subs_at (by_channel s) ch) else subs_at (by_channel s) ch) ∧
  (b = false → global s !! sink_id sink = None →
    ∀ ch, ch ∈ ids → is_Some (subs_at (by_channel s) ch !! sink_id sink)).
Proof.
  unfold subscribe_channels. destruct (global s !! sink_id sink) as [k|] eqn:E.
  - split_and!; [done| |done]. intros ch. rewrite decide_False; [done|naive_solver].
  - pose proof (subscribe_loop sink ids false (by_channel s)) as Hl.
    destruct (foldl _ _ _) as [b m]. destruct Hl as (Hat & Hb & _). cbn. split_and!; [done| |].
    + intros ch. rewrite Hat. repeat case_decide; naive_solver.
    + intros -> _ ch Hch. apply not_eq_None_Some. intros Hn.
      assert (false = true) by (apply Hb; eauto). done.
Qed.

Lemma unsubscribe_channels_spec id ids s :
  let '(b, s') := unsubscribe_channels id ids s in
  global s' = global s ∧
  (∀ ch, subs_at (by_channel s') ch =
    if decide (ch ∈ ids) then delete id (subs_at (by_channel s) ch)
    else subs_at (by_channel s) ch) ∧
  (b = false → ∀ ch, ch ∈ ids → subs_at (by_channel s) ch !! id = None).
Proof.
  unfold unsubscribe_channels.
  pose proof (unsubscribe_loop id ids false (by_channel s)) as Hl.
  destruct (foldl _ _ _) as [b m]. destruct Hl as (Hat & Hb & _). cbn. split_and!; [done|done|].
  intros -> ch Hch. apply eq_None_not_Some. intros Hn.
  assert (false = true) by (apply Hb; eauto). done.
Qed.

Lemma remove_subscriber_spec id s :
  let '(b, s') := remove_subscriber id s in
  global s' = delete id (global s) ∧
  (∀ ch, subs_at (by_channel s') ch =
    if decide (global s !! id = None) then delete id (subs_at (by_channel s) ch)
    else subs_at (by_channel s) ch) ∧
  (b = false → global s !! id = None ∧ ∀ ch, subs_at (by_channel s) ch !! id = None).
Proof.
  unfold remove_subscriber. destruct (global s !! id) as [k|] eqn:E.
  - split_and!; [done| |done]. intros ch. by rewrite decide_False.
  - split_and!; cbn.
    + symmetry. by apply delete_id.
    + intros ch. by rewrite subs_at_retain.
    + intros Hb. apply bool_decide_eq_false in Hb. split; [done|]. intros ch.
      apply eq_None_not_Some. unfold subs_at. destruct (by_channel s !! ch) as [m|] eqn:Em; cbn.
      * intros Hm. apply Hb. by exists ch, m.
      * rewrite lookup_empty. by intros [].
Qed.

Lemma get_subscribers_ext ch s s' :
  global s' = global s → subs_at (by_channel s') ch = subs_at (by_channel s) ch →
  get_subscribers ch s' = get_subscribers ch s.
Proof. intros E1 E2. by rewrite !get_subscribers_subs_at, E1, E2. Qed.

(** ** Properties *)

(** A history of operations on an initially empty collection. *)
Definition run_ops (ops : list SubsOp) (s : Subscriptions) : Subscriptions :=
  foldl (λ s op, (run_op op s).2) s ops.
Definition spec_ops (ops : list SubsOp) (a : SubsSpec) : SubsSpec :=
  foldl (λ a op, (spec_op op a).2) a ops.

Lemma run_ops_refines ops s a :
  subs_wf s → subs_abs s a → subs_wf (run_ops ops s) ∧ subs_abs (run_ops ops s) (spec_ops ops a).
Proof.
  unfold run_ops, spec_ops. revert s a. induction ops as [|op ops IH]; intros s a Hs Ha; [done|].
  cbn. apply IH; [by apply run_op_wf|by apply run_op_abs].
Qed.

(** Every operation on well-formed subscriptions returns what the
    specification (a set of global subscribers and a set of pairs) returns,
    keeps the invariant — global and per-channel subscribers disjoint, no
    empty per-channel map — and stays in the abstraction relation. *)
Theorem Subscriptions_refine op s a :
  subs_wf s → subs_abs s a →
  (run_op op s).1 = (spec_op op a).1 ∧ subs_wf (run_op op s).2 ∧
  subs_abs (run_op op s).2 (spec_op op a).2.
Proof.
  intros Hs Ha. destruct (run_op_abs op s a Hs Ha). auto using run_op_wf.
Qed.

(** After any history, the subscribers of a channel are exactly the
    global ones and those subscribed to that channel, each listed once. *)
Theorem get_subscribers_exact ops ch :
  let s := run_ops ops Subscriptions_default in
  let a := spec_ops ops {| sp_global := ∅; sp_pairs := ∅ |} in
  NoDup (sink_id <$> get_subscribers ch s) ∧
  ∀ id, (id ∈ sink_id <$> get_subscribers ch s) ↔ (id ∈ sp_global a ∨ (id, ch) ∈ sp_pairs a).
Proof.
  intros s a. destruct (run_ops_refines ops Subscriptions_default
    {| sp_global := ∅; sp_pairs := ∅ |}) as [Hs Ha]; [apply subs_wf_default| |].
  { split; cbn; unfold subs_at; intros; rewrite !lookup_empty, ?elem_of_empty;
      (split; [done|by intros []]). }
  split; [by apply get_subscribers_NoDup|]. intros id.
  rewrite get_subscribers_ids by done. symmetry.
  apply or_iff; [apply (sa_global _ _ Ha)|apply (sa_pairs _ _ Ha)].
Qed.

(** ** Witnesses *)

Definition plain_sink (id : SinkId) (auto : bool) : Sink :=
  {| sink_id := id; sink_auto_subscribe := auto; sink_add_channels := λ _, None;
     sink_log := λ _ _ _, None |}.

Lemma Subscriptions_refine_witness :
  (run_op (SubscribeChannels (plain_sink 1 false) [7]) Subscriptions_default).1 = true ∧
  subs_wf (run_op (SubscribeChannels (plain_sink 1 false) [7]) Subscriptions_default).2.
Proof.
  split; [reflexivity|].
  apply (Subscriptions_refine (SubscribeChannels (plain_sink 1 false) [7]) _
    {| sp_global := ∅; sp_pairs := ∅ |}); [apply subs_wf_default|].
  split; cbn; unfold subs_at; intros; rewrite !lookup_empty; split; done || by intros [].
Defined.
