(* ===== verification/Context.v ===== *)
(** * Context: the binding between channels and sinks

    `context.rs` ([ContextInner], whose methods [Context] calls under one
    lock) and [ChannelBuilder::build_raw], [RawChannel::close].  The state is
    the four indexes of [ContextInner] together with the [World] of Channel.v
    (the shared channel state and the trace of callbacks).  The invariant
    [ctx_inv] ties the indexes together; the theorems say that every operation
    keeps it, that a message logged on a channel reaches exactly the sinks
    subscribed to it, and that the sinks always know the registered channels. *)

From S2P Require Import Prelude Bytes Channel Subscriptions.
Local Open Scope Z_scope.

Record ContextInner := {
  channels : gmap ChannelId RawChannel;
  channels_by_topic : gmap string (list RawChannel);
  sinks : gmap SinkId Sink;
  subs : Subscriptions
}.
Definition ContextInner_default : ContextInner :=
  {| channels := ∅; channels_by_topic := ∅; sinks := ∅; subs := Subscriptions_default |}.

Definition with_subs (s : Subscriptions) (x : ContextInner) : ContextInner :=
  {| channels := channels x; channels_by_topic := channels_by_topic x; sinks := sinks x;
     subs := s |}.

Definition get_channel_by_topic (topic : string) (x : ContextInner) : option RawChannel :=
  channels_by_topic x !! topic ≫= head.

(** [update_channel_sinks] and [update_channel_sinks_by_ids]. *)
Definition update_channel_sinks (s : Subscriptions) (cs : list RawChannel) (w : World) : World :=
  foldl (λ w c, update_sinks c (get_subscribers (rc_id c) s) w) w cs.
Definition update_channel_sinks_by_ids (x : ContextInner) (ids : list ChannelId) (w : World)
    : World :=
  update_channel_sinks (subs x) (omap (λ id, channels x !! id) ids) w.

(** The notification of one sink in [add_channel]. *)
Definition notify_added (c : RawChannel) (acc : Subscriptions * World) (sink : Sink)
    : Subscriptions * World :=
  let '(s, w) := acc in
  let '(wants, w) := Sink_add_channel sink c w in
  (if wants && negb (sink_auto_subscribe sink) then
     (Subscriptions.subscribe_channels sink [rc_id c] s).2 else s, w).

Definition add_channel (c : RawChannel) (x : ContextInner) (w : World)
    : RawChannel * ContextInner * World :=
  let topic := rc_topic c in
  let topic_channels := default [] (channels_by_topic x !! topic) in
  match find (λ d, rc_matches c d) topic_channels with
  | Some matching => (matching, x, w)
  | None =>
    let w := match topic_channels with [] => w | _ => emit [EvWarnDuplicateTopic topic] w end in
    let '(s, w) := foldl (notify_added c) (subs x, w) (values (sinks x)) in
    let w := update_sinks c (get_subscribers (rc_id c) s) w in
    (c, {| channels := <[rc_id c := c]> (channels x);
           channels_by_topic := <[topic := topic_channels ++ [c]]> (channels_by_topic x);
           sinks := sinks x; subs := s |}, w)
  end.

Definition notify_removed (x : ContextInner) (c : RawChannel) (w : World) : World :=
  foldl (λ w sink, Sink_remove_channel sink c w) w (values (sinks x)).

(** [retain(|c| c.id() != channel_id)], then the entry is dropped if empty. *)
Definition remove_from_topic (c : RawChannel) (m : gmap string (list RawChannel))
    : gmap string (list RawChannel) :=
  match m !! rc_topic c with
  | Some cs =>
    match filter (λ d, rc_id d ≠ rc_id c) cs with
    | [] => delete (rc_topic c) m
    | cs => <[rc_topic c := cs]> m
    end
  | None => m
  end.

Definition remove_channel (id : ChannelId) (x : ContextInner) (w : World)
    : bool * ContextInner * World :=
  match channels x !! id with
  | None => (false, x, w)
  | Some c =>
    let x := {| channels := delete id (channels x);
                channels_by_topic := remove_from_topic c (channels_by_topic x);
                sinks := sinks x;
                subs := (remove_channel_subscriptions (rc_id c) (subs x)).2 |} in
    let w := remove_from_context c w in
    (true, x, notify_removed x c w)
  end.

Definition add_sink (sink : Sink) (x : ContextInner) (w : World) : bool * ContextInner * World :=
  match sinks x !! sink_id sink with
  | Some _ => (false, x, w)
  | None =>
    let x := {| channels := channels x; channels_by_topic := channels_by_topic x;
                sinks := <[sink_id sink := sink]> (sinks x); subs := subs x |} in
    let chans := values (channels x) in
    let '(ids, w) := match chans with [] => (None, w) | _ => Sink_add_channels sink chans w end in
    if sink_auto_subscribe sink then
      let '(changed, s) := subscribe_global sink (subs x) in
      let x := with_subs s x in
      (true, x, if changed : bool then update_channel_sinks (subs x) chans w else w)
    else
      match ids with
      | None => (true, x, w)
      | Some ids =>
        let ids := filter (λ id, is_Some (channels x !! id)) ids in
        match ids with
        | [] => (true, x, w)
        | _ =>
          let '(changed, s) := Subscriptions.subscribe_channels sink ids (subs x) in
          let x := with_subs s x in
          (true, x, if changed : bool then update_channel_sinks_by_ids x ids w else w)
        end
      end
  end.

Definition remove_sink (id : SinkId) (x : ContextInner) (w : World) : bool * ContextInner * World :=
  let '(changed, s) := remove_subscriber id (subs x) in
  let x := with_subs s x in
  let w := if changed : bool then update_channel_sinks (subs x) (values (channels x)) w else w in
  (bool_decide (is_Some (sinks x !! id)),
   {| channels := channels x; channels_by_topic := channels_by_topic x;
      sinks := delete id (sinks x); subs := subs x |}, w).

Definition subscribe_channels (id : SinkId) (channel_ids : list ChannelId) (x : ContextInner)
    (w : World) : ContextInner * World :=
  match sinks x !! id with
  | Some sink =>
    let '(changed, s) := Subscriptions.subscribe_channels sink channel_ids (subs x) in
    let x := with_subs s x in
    (x, if changed : bool then update_channel_sinks_by_ids x channel_ids w else w)
  | None => (x, w)
  end.

Definition unsubscribe_channels (id : SinkId) (channel_ids : list ChannelId) (x : ContextInner)
    (w : World) : ContextInner * World :=
  let '(changed, s) := Subscriptions.unsubscribe_channels id channel_ids (subs x) in
  let x := with_subs s x in
  (x, if changed : bool then update_channel_sinks_by_ids x channel_ids w else w).

Definition clear (x : ContextInner) (w : World) : ContextInner * World :=
  let w := foldl (λ w c, notify_removed x c (remove_from_context c w)) w (values (channels x)) in
  ({| channels := ∅; channels_by_topic := ∅; sinks := ∅; subs := Subscriptions_clear (subs x) |}, w).

(** [ChannelBuilder::build_raw]: the missing encoding is reported before a
    channel id is taken. *)
Record ChannelBuilder := {
  cb_topic : string;
  cb_message_encoding : option string;
  cb_schema : option Schema;
  cb_metadata : gmap string string
}.
Definition build_raw (b : ChannelBuilder) (x : ContextInner) (w : World)
    : result FoxgloveError (RawChannel * ContextInner * World) :=
  encoding ← ok_or (cb_message_encoding b) MessageEncodingRequired;
  let '(c, w) := RawChannel_new (cb_topic b) encoding (cb_schema b) (cb_metadata b) w in
  Ok (add_channel c x w).

(** [RawChannel::close]. *)
Definition close (c : RawChannel) (x : ContextInner) (w : World) : ContextInner * World :=
  if is_closed w c then (x, w)
  else let '(_, x, w) := remove_channel (rc_id c) x w in (x, w).

(** ** Operations and the invariant *)

Inductive CtxOp :=
| OpBuildRaw (b : ChannelBuilder)
| OpClose (c : RawChannel)
| OpAddSink (s : Sink)
| OpRemoveSink (id : SinkId)
| OpSubscribe (id : SinkId) (ids : list ChannelId)
| OpUnsubscribe (id : SinkId) (ids : list ChannelId)
| OpClear.

Definition CtxState : Type := ContextInner * World.
Definition run_ctx_op (op : CtxOp) (st : CtxState) : CtxState :=
  let '(x, w) := st in
  match op with
  | OpBuildRaw b => match build_raw b x w with Ok (_, x, w) => (x, w) | _ => (x, w) end
  | OpClose c => close c x w
  | OpAddSink s => let '(_, x, w) := add_sink s x w in (x, w)
  | OpRemoveSink id => let '(_, x, w) := remove_sink id x w in (x, w)
  | OpSubscribe id ids => subscribe_channels id ids x w
  | OpUnsubscribe id ids => unsubscribe_channels id ids x w
  | OpClear => clear x w
  end.

(** The channel ids of the process have not wrapped around. *)
Definition ids_left (w : World) : Prop := 0 ≤ w_next_id w < 2 ^ 64 - 1.

(** The open channels' stored sinks are their subscribers. *)
Definition sinks_ok (chans : gmap ChannelId RawChannel) (s : Subscriptions)
    (store : gmap ChannelId ChannelState) : Prop :=
  ∀ id c, chans !! id = Some c →
    ∃ st, store !! id = Some st ∧ cs_closed st = false ∧ cs_sinks st = get_subscribers id s.

Definition topics_ok (chans : gmap ChannelId RawChannel)
    (topics : gmap string (list RawChannel)) : Prop :=
  (∀ t cs, topics !! t = Some cs →
    cs ≠ [] ∧ NoDup (rc_id <$> cs) ∧
    (∀ c, c ∈ cs → rc_topic c = t ∧ chans !! rc_id c = Some c) ∧
    (∀ c d, c ∈ cs → d ∈ cs → rc_matches c d = true → c = d)) ∧
  (∀ id c, chans !! id = Some c →
    rc_id c = id ∧ ∃ cs, topics !! rc_topic c = Some cs ∧ c ∈ cs).

Definition registered_ok (sks : gmap SinkId Sink) (s : Subscriptions) : Prop :=
  (∀ id k, sks !! id = Some k → sink_id k = id) ∧
  (∀ id k, global s !! id = Some k → sks !! id = Some k ∧ sink_auto_subscribe k = true) ∧
  (∀ ch id k, subs_at (by_channel s) ch !! id = Some k →
    sks !! id = Some k ∧ sink_auto_subscribe k = false) ∧
  (∀ id k, sks !! id = Some k → sink_auto_subscribe k = true → global s !! id = Some k).

(** Ids are allocated below the counter, and a channel that is not registered
    (removed, or found to match another) has no sinks. *)
Definition store_ok (chans : gmap ChannelId RawChannel) (w : World) : Prop :=
  0 ≤ w_next_id w ∧
  ∀ id st, w_store w !! id = Some st →
    id < w_next_id w ∧ (chans !! id = None → cs_sinks st = []).

Record ctx_inv (st : CtxState) : Prop := {
  ci_subs : subs_wf (subs st.1);
  ci_topics : topics_ok (channels st.1) (channels_by_topic st.1);
  ci_registered : registered_ok (sinks st.1) (subs st.1);
  ci_sinks : sinks_ok (channels st.1) (subs st.1) (w_store st.2);
  ci_store : store_ok (channels st.1) st.2
}.

(** ** The store after the loops *)

Lemma emit_store evs w : w_store (emit evs w) = w_store w.
Proof. done. Qed.

Lemma notify_removed_store x c w :
  w_store (notify_removed x c w) = w_store w ∧ w_next_id (notify_removed x c w) = w_next_id w.
Proof.
  unfold notify_removed. revert w. induction (values (sinks x)) as [|s l IH]; intros w; [done|].
  cbn. by destruct (IH (Sink_remove_channel s c w)) as [-> ->].
Qed.

Lemma update_channel_sinks_store s cs w id :
  w_store (update_channel_sinks s cs w) !! id =
  if decide (id ∈ rc_id <$> cs) then LogSinkSet_store (get_subscribers id s) <$> w_store w !! id
  else w_store w !! id.
Proof.
  unfold update_channel_sinks. revert w. induction cs as [|c cs IH]; intros w; [done|].
  cbn [foldl]. rewrite IH. cbn [w_store update_sinks alter_channel]. rewrite fmap_cons.
  destruct (decide (id = rc_id c)) as [->|Hid].
  - rewrite lookup_alter_eq. rewrite (decide_True (P := rc_id c ∈ rc_id c :: _)) by left.
    by case_decide; destruct (w_store w !! rc_id c).
  - rewrite lookup_alter_ne by done.
    by repeat case_decide; set_solver.
Qed.

Lemma update_channel_sinks_next s cs w :
  w_next_id (update_channel_sinks s cs w) = w_next_id w.
Proof.
  unfold update_channel_sinks. revert w. induction cs as [|c cs IH]; intros w; [done|].
  cbn. by rewrite IH.
Qed.

(** Refreshing the channels whose subscribers changed. *)
Lemma sinks_ok_update chans s s' cs w :
  sinks_ok chans s (w_store w) →
  (∀ id c, chans !! id = Some c →
    id ∈ rc_id <$> cs ∨ get_subscribers id s' = get_subscribers id s) →
  sinks_ok chans s' (w_store (update_channel_sinks s' cs w)).
Proof.
  intros Hok Hcs id c Hc. destruct (Hok _ _ Hc) as (st & Hst & Hcl & Hs).
  rewrite update_channel_sinks_store, Hst. destruct (Hcs _ _ Hc) as [Hin|E].
  - rewrite decide_True by done. eexists. split_and!; [done|done|done].
  - case_decide; eexists; (split_and!; [done|done|]); cbn; congruence.
Qed.

Lemma store_ok_update chans s cs w :
  (∀ c, c ∈ cs → is_Some (chans !! rc_id c)) →
  store_ok chans w → store_ok chans (update_channel_sinks s cs w).
Proof.
  intros Hcs [Hn Hw]. split; [by rewrite update_channel_sinks_next|]. intros id st.
  rewrite update_channel_sinks_next, update_channel_sinks_store.
  case_decide as Hin; [|apply Hw]. intros (st' & Hst & ->)%fmap_Some.
  destruct (Hw _ _ Hst) as [? _]. split; [done|]. intros Hno.
  apply list_elem_of_fmap in Hin as (c & -> & Hc). destruct (Hcs c Hc). congruence.
Qed.

(** ** Subscriptions under the invariant *)

Lemma subscribe_registered sks sink ids s :
  subs_wf s → registered_ok sks s → sks !! sink_id sink = Some sink →
  let '(b, s') := Subscriptions.subscribe_channels sink ids s in
  subs_wf s' ∧ registered_ok sks s' ∧ global s' = global s ∧
  (∀ ch, ch ∉ ids → get_subscribers ch s' = get_subscribers ch s) ∧
  (b = false → ∀ ch, get_subscribers ch s' = get_subscribers ch s).
Proof.
  intros Hs (Hk & Hg & Hc & Ha) Hsk.
  pose proof (run_op_wf (SubscribeChannels sink ids) s Hs) as Hwf. cbn in Hwf.
  pose proof (subscribe_channels_spec sink ids s) as Hspec.
  destruct (Subscriptions.subscribe_channels sink ids s) as [b s'].
  destruct Hspec as (Eg & Eat & Eb). split_and!; [done| |done| |].
  - split_and!; [done|by rewrite Eg| |by rewrite Eg].
    intros ch id k. rewrite Eat. case_decide as Hd; [|by apply Hc].
    rewrite lookup_insert_Some. intros [[<- <-]|[_ ?]]; [|by eapply Hc]. split; [done|].
    destruct (sink_auto_subscribe sink) eqn:Eauto; [|done].
    destruct Hd as [Hd _]. by rewrite (Ha _ _ Hsk Eauto) in Hd.
  - intros ch Hch. apply get_subscribers_ext; [done|]. rewrite Eat, decide_False; [done|tauto].
  - intros Hb ch. apply get_subscribers_ext; [done|]. rewrite Eat. case_decide as Hd; [|done].
    destruct Hd as [Hn Hch]. destruct (Eb Hb Hn ch Hch) as [k Hk'].
    destruct (Hc _ _ _ Hk') as [Hk'' _]. rewrite Hsk in Hk''. injection Hk'' as <-.
    by apply insert_id.
Qed.

Lemma unsubscribe_registered sks id ids s :
  subs_wf s → registered_ok sks s →
  let '(b, s') := Subscriptions.unsubscribe_channels id ids s in
  subs_wf s' ∧ registered_ok sks s' ∧
  (∀ ch, ch ∉ ids → get_subscribers ch s' = get_subscribers ch s) ∧
  (b = false → ∀ ch, get_subscribers ch s' = get_subscribers ch s).
Proof.
  intros Hs (Hk & Hg & Hc & Ha).
  pose proof (run_op_wf (UnsubscribeChannels id ids) s Hs) as Hwf. cbn in Hwf.
  pose proof (unsubscribe_channels_spec id ids s) as Hspec.
  destruct (Subscriptions.unsubscribe_channels id ids s) as [b s'].
  destruct Hspec as (Eg & Eat & Eb). split_and!; [done| | |].
  - split_and!; [done|by rewrite Eg| |by rewrite Eg].
    intros ch i k. rewrite Eat. case_decide as Hd; [|by apply Hc].
    rewrite lookup_delete_Some. intros [_ ?]. by eapply Hc.
  - intros ch Hch. apply get_subscribers_ext; [done|]. by rewrite Eat, decide_False.
  - intros Hb ch. apply get_subscribers_ext; [done|]. rewrite Eat. case_decide as Hd; [|done].
    apply delete_id. by apply Eb.
Qed.

Lemma subscribe_global_registered sks sink s :
  subs_wf s → registered_ok sks s → sks !! sink_id sink = None → sink_auto_subscribe sink = true →
  let '(b, s') := subscribe_global sink s in
  b = true ∧ subs_wf s' ∧ registered_ok (<[sink_id sink := sink]> sks) s'.
Proof.
  intros Hs (Hk & Hg & Hc & Ha) Hn Hauto.
  pose proof (run_op_wf (SubscribeGlobal sink) s Hs) as Hwf. cbn in Hwf. revert Hwf.
  unfold subscribe_global. destruct (global s !! sink_id sink) as [k|] eqn:E.
  { apply Hg in E as [? _]. congruence. }
  cbn. intros Hwf. split_and!; [done|done|]. split_and!; cbn.
  - intros id k. rewrite lookup_insert_Some. intros [[<- <-]|[_ ?]]; [done|by apply Hk].
  - intros id k. rewrite lookup_insert_Some. intros [[<- <-]|[? Hk']].
    + by rewrite lookup_insert_eq.
    + rewrite lookup_insert_ne by done. by apply Hg.
  - intros ch id k. rewrite subs_at_retain, lookup_delete_Some. intros [? Hk'].
    rewrite lookup_insert_ne by done. by apply (Hc ch).
  - intros id k. rewrite lookup_insert_Some. intros [[<- <-]|[? Hk']] Hka.
    + by rewrite lookup_insert_eq.
    + rewrite lookup_insert_ne by done. by apply Ha.
Qed.

Lemma registered_ok_insert sks sink s :
  registered_ok sks s → sks !! sink_id sink = None → sink_auto_subscribe sink = false →
  registered_ok (<[sink_id sink := sink]> sks) s.
Proof.
  intros (Hk & Hg & Hc & Ha) Hn Hauto. split_and!.
  - intros id k. rewrite lookup_insert_Some. intros [[<- <-]|[_ ?]]; [done|by apply Hk].
  - intros id k Hgk. apply Hg in Hgk as [? ?]. rewrite lookup_insert_ne; [done|congruence].
  - intros ch id k Hck. apply Hc in Hck as [? ?]. rewrite lookup_insert_ne; [done|congruence].
  - intros id k. rewrite lookup_insert_Some. intros [[<- <-]|[_ ?]] ?; [congruence|by apply Ha].
Qed.

Lemma remove_subscriber_registered sks id s :
  subs_wf s → registered_ok sks s →
  let '(b, s') := remove_subscriber id s in
  subs_wf s' ∧ registered_ok (delete id sks) s' ∧
  (b = false → ∀ ch, get_subscribers ch s' = get_subscribers ch s).
Proof.
  intros Hs (Hk & Hg & Hc & Ha).
  pose proof (run_op_wf (RemoveSubscriber id) s Hs) as Hwf. cbn in Hwf.
  pose proof (remove_subscriber_spec id s) as Hspec.
  destruct (remove_subscriber id s) as [b s']. destruct Hspec as (Eg & Eat & Eb).
  split_and!; [done| |].
  - split_and!.
    + intros i k. rewrite lookup_delete_Some. intros [_ ?]. by apply Hk.
    + intros i k. rewrite Eg, lookup_delete_Some. intros [? ?].
      rewrite lookup_delete_ne by done. by apply Hg.
    + intros ch i k. rewrite Eat. case_decide as Hd.
      * rewrite lookup_delete_Some. intros [? ?]. rewrite lookup_delete_ne by done.
        by apply (Hc ch).
      * intros Hck. pose proof (Hc _ _ _ Hck) as [? ?].
        rewrite lookup_delete_ne; [done|]. intros <-. apply Hd.
        by apply (subs_wf_elim _ _ _ _ Hs) in Hck as [_ ?].
    + intros i k. rewrite lookup_delete_Some. intros [? ?] ?. rewrite Eg, lookup_delete_ne by done.
      by apply Ha.
  - intros Hb ch. destruct (Eb Hb) as [E1 E2]. apply get_subscribers_ext.
    + rewrite Eg. by apply delete_id.
    + rewrite Eat. case_decide; [|done]. by apply delete_id.
Qed.

Lemma remove_channel_registered sks ch s :
  subs_wf s → registered_ok sks s →
  let s' := (remove_channel_subscriptions ch s).2 in
  subs_wf s' ∧ registered_ok sks s' ∧
  (∀ c, c ≠ ch → get_subscribers c s' = get_subscribers c s).
Proof.
  intros Hs (Hk & Hg & Hc & Ha) s'. split_and!.
  - apply (run_op_wf (RemoveChannelSubscriptions ch) s Hs).
  - split_and!; [done|done| |done]. intros c id k. unfold s'. cbn. rewrite subs_at_delete.
    case_decide; [by rewrite lookup_empty|]. apply Hc.
  - intros c Hne. apply get_subscribers_ext; [done|]. unfold s'. cbn.
    rewrite subs_at_delete. by rewrite decide_False.
Qed.

(** ** The topic index *)

Lemma find_None_matches c cs :
  find (λ d, rc_matches c d) cs = None ↔ ∀ d, d ∈ cs → rc_matches c d = false.
Proof.
  split.
  - intros Hf d Hd. eapply find_none in Hf; [exact Hf|]. by apply list_elem_of_In.
  - intros Hd. destruct (find _ cs) as [d|] eqn:E; [|done].
    apply find_some in E as [Hin E]. apply list_elem_of_In in Hin. by rewrite Hd in E.
Qed.

Lemma rc_matches_sym c d : rc_matches c d = rc_matches d c.
Proof.
  apply eq_bool_prop_intro. rewrite !Is_true_true, !rc_matches_spec.
  split; intros (-> & -> & -> & ->); done.
Qed.

Lemma topics_ok_insert chans topics c :
  let cs := default [] (topics !! rc_topic c) in
  topics_ok chans topics → chans !! rc_id c = None →
  find (λ d, rc_matches c d) cs = None →
  topics_ok (<[rc_id c := c]> chans) (<[rc_topic c := cs ++ [c]]> topics).
Proof.
  intros cs [Ht Hc] Hfresh Hfind. rewrite find_None_matches in Hfind.
  assert (Hcs : NoDup (rc_id <$> cs) ∧
    (∀ d, d ∈ cs → rc_topic d = rc_topic c ∧ chans !! rc_id d = Some d) ∧
    (∀ d e, d ∈ cs → e ∈ cs → rc_matches d e = true → d = e)).
  { unfold cs. destruct (topics !! rc_topic c) as [l|] eqn:E; cbn.
    - destruct (Ht _ _ E) as (_ & ? & ? & ?). done.
    - split_and!; [constructor|intros d Hd; inversion Hd|intros d e Hd; inversion Hd]. }
  destruct Hcs as (Hnd & Hin & Hm). split.
  - intros t l. rewrite lookup_insert_Some. intros [[<- <-]|[Hne Hl]].
    + split_and!; [by destruct cs| | |].
      * rewrite fmap_app. apply NoDup_app. split_and!; [done| |apply NoDup_singleton].
        intros id Hid ->%list_elem_of_singleton. apply list_elem_of_fmap in Hid as (d & E & Hd).
        apply Hin in Hd as [_ Hd]. congruence.
      * intros d [Hd| ->%list_elem_of_singleton]%elem_of_app; [|by rewrite lookup_insert_eq].
        destruct (Hin d Hd) as [? Hd']. rewrite lookup_insert_ne; [done|congruence].
      * intros d e [Hd| ->%list_elem_of_singleton]%elem_of_app
          [He| ->%list_elem_of_singleton]%elem_of_app Hde; [by apply Hm| | |done].
        -- rewrite rc_matches_sym, Hfind in Hde; done.
        -- by rewrite Hfind in Hde.
    + destruct (Ht _ _ Hl) as (? & ? & Hd & ?). split_and!; [done|done| |done].
      intros d Hdl. destruct (Hd d Hdl) as [? ?]. rewrite lookup_insert_ne; [done|congruence].
  - intros id d. rewrite lookup_insert_Some. intros [[<- <-]|[Hne Hd]].
    + split; [done|]. exists (cs ++ [c]). rewrite lookup_insert_eq. split; [done|].
      apply elem_of_app. right. by left.
    + destruct (Hc _ _ Hd) as [? (l & Hl & Hdl)]. split; [done|].
      destruct (decide (rc_topic c = rc_topic d)) as [E|E].
      * exists (cs ++ [c]). rewrite <- E, lookup_insert_eq. split; [done|]. apply elem_of_app. left.
        unfold cs. by rewrite E, Hl.
      * exists l. by rewrite lookup_insert_ne.
Qed.

Lemma remove_from_topic_lookup c topics t :
  remove_from_topic c topics !! t =
  if decide (t = rc_topic c) then
    topics !! t ≫= λ cs, match filter (λ d, rc_id d ≠ rc_id c) cs with [] => None | cs => Some cs end
  else topics !! t.
Proof.
  unfold remove_from_topic. case_decide; subst.
  - destruct (topics !! rc_topic c) as [cs|] eqn:E; cbn; [|by rewrite E].
    destruct (filter _ cs); [by rewrite lookup_delete_eq|by rewrite lookup_insert_eq].
  - destruct (topics !! rc_topic c) as [cs|]; [|done].
    destruct (filter _ cs); [by rewrite lookup_delete_ne|by rewrite lookup_insert_ne].
Qed.

Lemma topics_ok_remove chans topics c :
  topics_ok chans topics → chans !! rc_id c = Some c →
  topics_ok (delete (rc_id c) chans) (remove_from_topic c topics).
Proof.
  intros [Ht Hc] Hin. split.
  - intros t l. rewrite remove_from_topic_lookup. case_decide as Hd.
    + destruct (topics !! t) as [cs|] eqn:E; [|done]. cbn. intros El.
      assert (l = filter (λ d, rc_id d ≠ rc_id c) cs ∧ l ≠ []) as [-> Hne].
      { destruct (filter _ cs); by simplify_eq. }
      destruct (Ht _ _ E) as (_ & Hnd & Hcs & Hm). split_and!; [done| | |].
      * eapply sublist_NoDup; [exact Hnd|]. apply fmap_sublist, sublist_filter.
      * intros d [Hdc Hd']%list_elem_of_filter. destruct (Hcs d Hd').
        rewrite lookup_delete_ne; [done|congruence].
      * intros d e [_ ?]%list_elem_of_filter [_ ?]%list_elem_of_filter. by apply Hm.
    + intros E. destruct (Ht _ _ E) as (? & ? & Hcs & ?). split_and!; [done|done| |done].
      intros d Hd'. destruct (Hcs d Hd') as [? Hdc].
      destruct (decide (rc_id d = rc_id c)) as [E'|E'].
      * rewrite E', Hin in Hdc. injection Hdc as ->. congruence.
      * rewrite lookup_delete_ne; [done|congruence].
  - intros id d. rewrite lookup_delete_Some. intros [Hne Hd].
    destruct (Hc _ _ Hd) as [<- (l & Hl & Hdl)]. split; [done|].
    rewrite remove_from_topic_lookup. case_decide; [|eauto].
    rewrite Hl. cbn. assert (d ∈ filter (λ d, rc_id d ≠ rc_id c) l) as Hf.
    { apply list_elem_of_filter. split; [congruence|done]. }
    destruct (filter _ l) as [|e l'] eqn:Ef; [inversion Hf|]. by exists (e :: l').
Qed.

(** ** Every operation keeps the invariant *)

Lemma elem_of_values_chans chans topics c :
  topics_ok chans topics → (c ∈ values chans ↔ chans !! rc_id c = Some c).
Proof.
  intros [_ Hc]. rewrite elem_of_values. split.
  - intros [id Hid]. by destruct (Hc _ _ Hid) as [-> _].
  - intros ?. by exists (rc_id c).
Qed.

Lemma values_registered sks s k : registered_ok sks s → k ∈ values sks → sks !! sink_id k = Some k.
Proof. intros [Hk _] [id Hid]%elem_of_values. by rewrite (Hk _ _ Hid). Qed.

(** The notification loop of [add_channel]. *)
Lemma notify_added_loop sks c l s w :
  subs_wf s → registered_ok sks s → (∀ k, k ∈ l → sks !! sink_id k = Some k) →
  let '(s', w') := foldl (notify_added c) (s, w) l in
  subs_wf s' ∧ registered_ok sks s' ∧
  (∀ ch, ch ≠ rc_id c → get_subscribers ch s' = get_subscribers ch s) ∧
  w_store w' = w_store w ∧ w_next_id w' = w_next_id w ∧
  w_trace w' = w_trace w ++ ((λ k, EvAddChannels (sink_id k) [rc_id c]) <$> l).
Proof.
  revert s w. induction l as [|k l IH]; intros s w Hs Hr Hl.
  { cbn. by rewrite app_nil_r. }
  cbn [foldl notify_added Sink_add_channel Sink_add_channels].
  match goal with |- context [foldl _ (?a, ?b) l] => set (s1 := a); set (w1 := b) end.
  assert (subs_wf s1 ∧ registered_ok sks s1 ∧
    (∀ ch, ch ≠ rc_id c → get_subscribers ch s1 = get_subscribers ch s)) as (Hs1 & Hr1 & E1).
  { unfold s1. destruct (_ && _); [|done].
    pose proof (subscribe_registered sks k [rc_id c] s Hs Hr (Hl k ltac:(by left))) as Hsub.
    destruct (Subscriptions.subscribe_channels k [rc_id c] s) as [b s2]. cbn.
    destruct Hsub as (? & ? & _ & E & _). split_and!; [done|done|].
    intros ch Hch. apply E. by rewrite list_elem_of_singleton. }
  specialize (IH s1 w1 Hs1 Hr1). destruct (foldl _ (s1, w1) l) as [s' w'].
  destruct IH as (? & ? & E & -> & -> & ->); [intros; apply Hl; by right|].
  split_and!; [done|done| |done|done|].
  - intros ch Hch. by rewrite E, E1.
  - cbn. by rewrite <- app_assoc.
Qed.

Lemma add_channel_inv c x w st :
  ctx_inv (x, w) → channels x !! rc_id c = None →
  w_store w !! rc_id c = Some st → cs_closed st = false →
  let '(_, x', w') := add_channel c x w in ctx_inv (x', w') ∧ w_next_id w' = w_next_id w.
Proof.
  intros [Hs Ht Hr Hsk [Hn Hst]] Hfresh Hc Hopen. cbn in *. unfold add_channel.
  destruct (find (λ d, rc_matches c d) _) as [d|] eqn:Ef; [done|].
  set (w0 := match default [] _ with [] => w | _ => _ end).
  assert (w_store w0 = w_store w ∧ w_next_id w0 = w_next_id w) as [E1 E2].
  { unfold w0. by destruct (default [] _). }
  pose proof (notify_added_loop (sinks x) c (values (sinks x)) (subs x) w0 Hs Hr) as Hl.
  destruct (foldl _ _ _) as [s' w']. destruct Hl as (Hs' & Hr' & Hg & Ew & En & _);
    [by intros k; eapply values_registered|].
  cbn. rewrite E1 in Ew. rewrite E2 in En. split; [|done]. split; cbn; [done| |done| |].
  - by apply topics_ok_insert.
  - intros id d. rewrite lookup_insert_Some, Ew. intros [[<- <-]|[Hne Hd]].
    + rewrite lookup_alter_eq, Hc. by eexists.
    + destruct (Hsk _ _ Hd) as (st' & Hst' & ? & Hs''). exists st'.
      rewrite lookup_alter_ne by done. split_and!; [done|done|]. by rewrite Hg.
  - unfold store_ok. cbn. rewrite En, Ew. split; [done|]. intros id st'.
    destruct (decide (id = rc_id c)) as [->|Hne].
    + rewrite lookup_alter_eq, Hc. intros [= <-]. destruct (Hst _ _ Hc) as [? _].
      split; [done|]. by rewrite lookup_insert_eq.
    + rewrite lookup_alter_ne, lookup_insert_ne by done. apply Hst.
Qed.

Lemma RawChannel_new_inv topic enc schema md x w :
  ctx_inv (x, w) → ids_left w →
  let '(c, w') := RawChannel_new topic enc schema md w in
  ctx_inv (x, w') ∧ channels x !! rc_id c = None ∧ rc_id c = w_next_id w ∧
  w_next_id w' = w_next_id w + 1 ∧
  ∃ st, w_store w' !! rc_id c = Some st ∧ cs_closed st = false.
Proof.
  intros [Hs Ht Hr Hsk [Hn Hst]] Hleft. cbn in *.
  assert (wrap 64 (w_next_id w + 1) = w_next_id w + 1) as Hwrap.
  { apply wrap_small. unfold fits, ids_left in *. lia. }
  assert (channels x !! w_next_id w = None) as Hfresh.
  { destruct (channels x !! w_next_id w) as [d|] eqn:E; [|done].
    destruct (Hsk _ _ E) as (st & Hd & _). apply Hst in Hd as [? _]. lia. }
  split_and!; [|done|done|done|].
  - split; cbn; [done|done|done| |].
    + intros id c Hc. destruct (Hsk _ _ Hc) as (st & ? & ? & ?). exists st.
      rewrite lookup_insert_ne; [done|]. intros <-. congruence.
    + unfold store_ok. cbn. rewrite Hwrap. split; [lia|]. intros id st.
      rewrite lookup_insert_Some. intros [[<- <-]|[_ Hid]]; [split; [lia|done]|].
      destruct (Hst _ _ Hid). split; [lia|done].
  - eexists. cbn. by rewrite lookup_insert_eq.
Qed.

Lemma remove_channel_inv id x w :
  ctx_inv (x, w) → let '(_, x', w') := remove_channel id x w in
  ctx_inv (x', w') ∧ w_next_id w' = w_next_id w.
Proof.
  intros [Hs Ht Hr Hsk [Hn Hst]]. cbn in *. unfold remove_channel.
  destruct (channels x !! id) as [c|] eqn:Ec; [|by split; [split|]].
  destruct (proj2 Ht _ _ Ec) as [<- _].
  destruct (remove_channel_registered (sinks x) (rc_id c) (subs x) Hs Hr) as (? & ? & Hg).
  set (x' := {| channels := _ |}). set (w1 := remove_from_context c w).
  destruct (notify_removed_store x' c w1) as [Ew En].
  assert (∀ i, w_store w1 !! i = if decide (i = rc_id c) then
    (λ st, LogSinkSet_clear {| cs_sinks := cs_sinks st; cs_closed := true;
      cs_warn_throttler := cs_warn_throttler st |}) <$> w_store w !! i
    else w_store w !! i) as Hw1.
  { intros i. cbn. case_decide; subst; [|by rewrite !lookup_alter_ne].
    rewrite !lookup_alter_eq. by destruct (w_store w !! rc_id c). }
  split; [|done]. split; cbn [fst snd]; [done| |done| |].
  - by apply topics_ok_remove.
  - intros i d. cbn. rewrite lookup_delete_Some. intros [Hne Hd].
    destruct (Hsk _ _ Hd) as (st & Hi & ? & ?). exists st.
    rewrite Ew, Hw1, decide_False by done. split_and!; [done|done|]. by rewrite Hg.
  - unfold store_ok. rewrite Ew, En. split; [done|]. intros i st. rewrite Hw1. cbn.
    case_decide; subst.
    + intros (st' & Hi & ->)%fmap_Some. destruct (Hst _ _ Hi). done.
    + rewrite lookup_delete_ne by done. apply Hst.
Qed.

(** New subscriptions and sinks, with the channels in [cs] refreshed. *)
Lemma refresh_inv x s sks cs w :
  ctx_inv (x, w) → subs_wf s → registered_ok sks s →
  (∀ c, c ∈ cs → channels x !! rc_id c = Some c) →
  (∀ id c, channels x !! id = Some c →
    id ∈ rc_id <$> cs ∨ get_subscribers id s = get_subscribers id (subs x)) →
  ctx_inv ({| channels := channels x; channels_by_topic := channels_by_topic x; sinks := sks;
              subs := s |}, update_channel_sinks s cs w) ∧
  w_next_id (update_channel_sinks s cs w) = w_next_id w.
Proof.
  intros [Hs Ht Hr Hsk Hst] Hs' Hr' Hcs Hg. cbn in *.
  split; [|by rewrite update_channel_sinks_next]. split; cbn; [done|done|done| |].
  - by apply sinks_ok_update with (s := subs x).
  - apply store_ok_update; [|done]. intros c Hc. rewrite (Hcs c Hc). by eexists.
Qed.

Lemma ctx_inv_emit x w evs : ctx_inv (x, w) → ctx_inv (x, emit evs w).
Proof. by intros []; split. Qed.

(** The channels looked up by id in [update_channel_sinks_by_ids]. *)
Lemma elem_of_omap_chans x w (ids : list ChannelId) c :
  ctx_inv (x, w) →
  (c ∈ omap (λ id, channels x !! id) ids) ↔ (rc_id c ∈ ids ∧ channels x !! rc_id c = Some c).
Proof.
  intros [_ [_ Hc] _ _ _]. cbn in *. rewrite list_elem_of_omap. split.
  - intros (id & Hin & Hid). by destruct (Hc _ _ Hid) as [-> _].
  - intros [? ?]. by exists (rc_id c).
Qed.

Lemma omap_chans_ids x w (ids : list ChannelId) id c :
  ctx_inv (x, w) → channels x !! id = Some c → id ∈ ids →
  id ∈ rc_id <$> omap (λ id, channels x !! id) ids.
Proof.
  intros Hi Hc Hin. pose proof (ci_topics _ Hi) as [_ Hch]. cbn in Hch.
  destruct (Hch _ _ Hc) as [<- _]. apply list_elem_of_fmap. exists c. split; [done|].
  by apply (elem_of_omap_chans x w).
Qed.

(** A change of subscriptions limited to [ids], reported by [b]. *)
Lemma refresh_ids_inv x s sks ids b w :
  ctx_inv (x, w) → subs_wf s → registered_ok sks s →
  (∀ ch, ch ∉ ids → get_subscribers ch s = get_subscribers ch (subs x)) →
  (b = false → ∀ ch, get_subscribers ch s = get_subscribers ch (subs x)) →
  let x' := {| channels := channels x; channels_by_topic := channels_by_topic x; sinks := sks;
               subs := s |} in
  let w' := if b : bool then update_channel_sinks_by_ids x' ids w else w in
  ctx_inv (x', w') ∧ w_next_id w' = w_next_id w.
Proof.
  intros Hi Hs Hr Hin Hb x' w'. unfold w'. destruct b.
  - apply refresh_inv; [done..| |].
    + intros c Hc. cbn in Hc. by apply (elem_of_omap_chans x w) in Hc as [_ ?].
    + intros id c Hc. destruct (decide (id ∈ ids)) as [Hid|Hid]; [left|right; auto].
      by apply (omap_chans_ids x w _ _ c).
  - apply (refresh_inv x s sks [] w); [done..| |].
    + intros c Hc. inversion Hc.
    + intros id c Hc. right. auto.
Qed.

Lemma add_sink_inv sink x w :
  ctx_inv (x, w) → let '(_, x', w') := add_sink sink x w in
  ctx_inv (x', w') ∧ w_next_id w' = w_next_id w.
Proof.
  intros Hi. unfold add_sink. destruct (sinks x !! sink_id sink) as [k|] eqn:En; [done|].
  cbn [channels sinks subs channels_by_topic with_subs].
  assert (∃ ids w0, (match values (channels x) with [] => (None, w) | _ =>
    Sink_add_channels sink (values (channels x)) w end) = (ids, w0) ∧ ctx_inv (x, w0) ∧
    w_next_id w0 = w_next_id w) as (ids & w0 & -> & Hi0 & En0).
  { destruct (values (channels x)); eexists _, _; [done|]. split; [done|].
    split; [by apply ctx_inv_emit|done]. }
  rewrite <- En0. pose proof (ci_subs _ Hi) as Hs. pose proof (ci_registered _ Hi) as Hr.
  pose proof (ci_topics _ Hi) as Ht. cbn in *. destruct (sink_auto_subscribe sink) eqn:Ea.
  - pose proof (subscribe_global_registered _ _ _ Hs Hr En Ea) as Hg.
    destruct (subscribe_global sink (subs x)) as [b s]. destruct Hg as (-> & Hs' & Hr').
    apply (refresh_inv x); [done..| |].
    + intros c. by eapply elem_of_values_chans.
    + intros id c Hc. left. apply list_elem_of_fmap. destruct (proj2 Ht _ _ Hc) as [<- _].
      exists c. split; [done|]. by eapply elem_of_values_chans.
  - pose proof (registered_ok_insert _ _ _ Hr En Ea) as Hr'.
    assert (ctx_inv ({| channels := channels x; channels_by_topic := channels_by_topic x;
      sinks := <[sink_id sink := sink]> (sinks x); subs := subs x |}, w0)) as Hi'.
    { apply (refresh_inv x (subs x) _ [] w0); [done..| |]; [intros c Hc; inversion Hc|by right]. }
    destruct ids as [ids|]; [|done]. destruct (filter _ ids) as [|id ids'] eqn:Ef; [done|].
    pose proof (subscribe_registered _ sink (id :: ids') _ Hs Hr' (lookup_insert_eq _ _ _)) as Hsub.
    destruct (Subscriptions.subscribe_channels sink (id :: ids') (subs x)) as [b s].
    destruct Hsub as (? & ? & _ & ? & ?).
    by apply (refresh_ids_inv x).
Qed.

Lemma remove_sink_inv id x w :
  ctx_inv (x, w) → let '(_, x', w') := remove_sink id x w in
  ctx_inv (x', w') ∧ w_next_id w' = w_next_id w.
Proof.
  intros Hi. unfold remove_sink. pose proof (ci_subs _ Hi) as Hs.
  pose proof (ci_registered _ Hi) as Hr. pose proof (ci_topics _ Hi) as Ht. cbn in *.
  pose proof (remove_subscriber_registered _ id _ Hs Hr) as Hrm.
  destruct (remove_subscriber id (subs x)) as [b s]. destruct Hrm as (Hs' & Hr' & Hg).
  cbn. destruct b.
  - apply (refresh_inv x); [done..| |].
    + intros c. by eapply elem_of_values_chans.
    + intros i c Hc. left. apply list_elem_of_fmap. destruct (proj2 Ht _ _ Hc) as [<- _].
      exists c. split; [done|]. by eapply elem_of_values_chans.
  - apply (refresh_inv x s (delete id (sinks x)) [] w); [done..| |].
    + intros c Hc. inversion Hc.
    + intros i c Hc. right. by apply Hg.
Qed.

Lemma subscribe_channels_inv id ids x w :
  ctx_inv (x, w) → ctx_inv (subscribe_channels id ids x w) ∧
  w_next_id (subscribe_channels id ids x w).2 = w_next_id w.
Proof.
  intros Hi. unfold subscribe_channels. destruct (sinks x !! id) as [k|] eqn:Ek; [|done].
  pose proof (ci_registered _ Hi) as Hr. cbn in Hr.
  assert (sinks x !! sink_id k = Some k) as Ek' by (by rewrite (proj1 Hr _ _ Ek)).
  pose proof (subscribe_registered _ k ids _ (ci_subs _ Hi) Hr Ek') as Hsub.
  cbn in Hsub. destruct (Subscriptions.subscribe_channels k ids (subs x)) as [b s].
  destruct Hsub as (? & ? & _ & ? & ?). by apply (refresh_ids_inv x).
Qed.

Lemma unsubscribe_channels_inv id ids x w :
  ctx_inv (x, w) → ctx_inv (unsubscribe_channels id ids x w) ∧
  w_next_id (unsubscribe_channels id ids x w).2 = w_next_id w.
Proof.
  intros Hi. unfold unsubscribe_channels.
  pose proof (unsubscribe_registered _ id ids _ (ci_subs _ Hi) (ci_registered _ Hi)) as Hsub.
  cbn in Hsub. destruct (Subscriptions.unsubscribe_channels id ids (subs x)) as [b s].
  destruct Hsub as (? & ? & ? & ?). by apply (refresh_ids_inv x).
Qed.

(** [clear]'s loop empties the sinks of the listed channels. *)
Lemma clear_loop x cs w :
  let w' := foldl (λ w c, notify_removed x c (remove_from_context c w)) w cs in
  w_next_id w' = w_next_id w ∧
  ∀ id st, w_store w' !! id = Some st → is_Some (w_store w !! id) ∧
    (id ∈ rc_id <$> cs → cs_sinks st = []) ∧ (w_store w !! id = Some st ∨ cs_sinks st = []).
Proof.
  revert w. induction cs as [|c cs IH]; intros w; cbn [foldl].
  - split; [done|]. intros id st ->. split_and!; [done|inversion 1|by left].
  - set (w1 := notify_removed x c (remove_from_context c w)). destruct (IH w1) as [En Hs].
    destruct (notify_removed_store x c (remove_from_context c w)) as [E1 E2].
    split; [by rewrite En|]. intros id st Hid. destruct (Hs id st Hid) as ([st1 Hst1] & Hin & Hor).
    assert (is_Some (w_store w !! id) ∧ (w_store w !! id = Some st1 ∨ cs_sinks st1 = []) ∧
      (id = rc_id c → cs_sinks st1 = [])) as (Hsome & Hor1 & Hc).
    { revert Hst1. unfold w1. rewrite E1. cbn. destruct (decide (id = rc_id c)) as [->|Hne].
      - rewrite !lookup_alter_eq. destruct (w_store w !! rc_id c); [|done].
        intros [= <-]. cbn. split_and!; [done|by right|done].
      - rewrite !lookup_alter_ne by done. intros ->. split_and!; [done|by left|done]. }
    split_and!; [done| |].
    + rewrite fmap_cons, elem_of_cons. intros [Hid'|?]; [|by apply Hin].
      destruct Hor as [Hor|?]; [|done]. rewrite Hst1 in Hor. injection Hor as <-. by apply Hc.
    + destruct Hor as [Hor|?]; [|by right]. rewrite Hst1 in Hor. by injection Hor as <-.
Qed.

Lemma clear_inv x w :
  ctx_inv (x, w) → ctx_inv (clear x w) ∧ w_next_id (clear x w).2 = w_next_id w.
Proof.
  intros [Hs Ht Hr Hsk [Hn Hst]]. cbn in *. unfold clear.
  destruct (clear_loop x (values (channels x)) w) as [En Hl]. split; [|done].
  split; cbn; [apply subs_wf_default|by split| | |].
  - split_and!; intros; unfold subs_at in *; cbn in *; by rewrite !lookup_empty in *.
  - intros id c Hc. by rewrite lookup_empty in Hc.
  - split; [by rewrite En|]. rewrite En. intros id st Hid.
    destruct (Hl _ _ Hid) as ([st0 Hst0] & Hin & Hor). destruct (Hst _ _ Hst0) as [? Hno].
    split; [done|]. intros _. destruct Hor as [Hor|?]; [|done].
    destruct (channels x !! id) as [c|] eqn:Ec.
    + apply Hin, list_elem_of_fmap. destruct (proj2 Ht _ _ Ec) as [<- _]. exists c.
      split; [done|]. by eapply elem_of_values_chans.
    + rewrite Hst0 in Hor. injection Hor as <-. by apply Hno.
Qed.

Lemma build_raw_ok b x w :
  build_raw b x w =
  match cb_message_encoding b with
  | Some e =>
    let '(c, w1) := RawChannel_new (cb_topic b) e (cb_schema b) (cb_metadata b) w in
    Ok (add_channel c x w1)
  | None => Err MessageEncodingRequired
  end.
Proof. unfold build_raw. by destruct (cb_message_encoding b). Qed.

Lemma run_ctx_op_inv op st :
  ctx_inv st → ids_left st.2 →
  ctx_inv (run_ctx_op op st) ∧
  w_next_id st.2 ≤ w_next_id (run_ctx_op op st).2 ≤ w_next_id st.2 + 1.
Proof.
  destruct st as [x w]. intros Hi Hleft. destruct op as [b|c|s|id|id ids|id ids|]; cbn [run_ctx_op].
  - rewrite build_raw_ok. destruct (cb_message_encoding b) as [e|]; [|cbn; split; [done|lia]].
    pose proof (RawChannel_new_inv (cb_topic b) e (cb_schema b) (cb_metadata b) x w Hi Hleft) as Hn.
    destruct (RawChannel_new _ _ _ _ w) as [c w1].
    destruct Hn as (Hi1 & Hf & _ & En & st & Hst & Hop).
    pose proof (add_channel_inv c x w1 st Hi1 Hf Hst Hop) as Ha.
    destruct (add_channel c x w1) as [[c' x'] w']. cbn. destruct Ha. split; [done|lia].
  - unfold close. destruct (is_closed w c); [cbn; split; [done|lia]|].
    pose proof (remove_channel_inv (rc_id c) x w Hi) as Hr.
    destruct (remove_channel _ _ _) as [[? x'] w']. cbn. destruct Hr. split; [done|lia].
  - pose proof (add_sink_inv s x w Hi) as Hr.
    destruct (add_sink _ _ _) as [[? x'] w']. cbn. destruct Hr. split; [done|lia].
  - pose proof (remove_sink_inv id x w Hi) as Hr.
    destruct (remove_sink _ _ _) as [[? x'] w']. cbn. destruct Hr. split; [done|lia].
  - destruct (subscribe_channels_inv id ids x w Hi). cbn. split; [done|lia].
  - destruct (unsubscribe_channels_inv id ids x w Hi). cbn. split; [done|lia].
  - destruct (clear_inv x w Hi). split; [done|]. cbn [snd]. lia.
Qed.

(** A process starts with an empty context and channel id 1. *)
Definition ctx_init : CtxState :=
  (ContextInner_default, {| w_next_id := 1; w_store := ∅; w_trace := [] |}).
Definition run_ctx_ops (ops : list CtxOp) (st : CtxState) : CtxState :=
  foldl (λ st op, run_ctx_op op st) st ops.

Lemma ctx_init_inv : ctx_inv ctx_init.
Proof.
  split; cbn.
  - apply subs_wf_default.
  - by split.
  - split_and!; intros; unfold subs_at in *; cbn in *; by rewrite !lookup_empty in *.
  - intros id c Hc. by rewrite lookup_empty in Hc.
  - split; [done|]. intros id st Hid. cbn in Hid. by rewrite lookup_empty in Hid.
Qed.

Lemma run_ctx_ops_inv ops st :
  ctx_inv st → 0 ≤ w_next_id st.2 → w_next_id st.2 + Z.of_nat (length ops) < 2 ^ 64 - 1 →
  ctx_inv (run_ctx_ops ops st).
Proof.
  unfold run_ctx_ops. revert st. induction ops as [|op ops IH]; intros st Hi H0 Hl; [done|].
  cbn [foldl length] in *.
  destruct (run_ctx_op_inv op st Hi) as [Hi' Hn]; [unfold ids_left; lia|].
  apply IH; [done|lia|lia].
Qed.

(** ** Delivery *)

(** The sinks registered in the context that are subscribed to the channel. *)
Definition subscribed (x : ContextInner) (ch : ChannelId) (k : Sink) : Prop :=
  sinks x !! sink_id k = Some k ∧
  (sink_auto_subscribe k = true ∨ is_Some (subs_at (by_channel (subs x)) ch !! sink_id k)).

Lemma elem_of_get_subscribers_subscribed x w ch k :
  ctx_inv (x, w) → (k ∈ get_subscribers ch (subs x)) ↔ subscribed x ch k.
Proof.
  intros Hi. pose proof (ci_registered _ Hi) as (Hk & Hg & Hc & Ha). cbn in *.
  rewrite elem_of_get_subscribers. unfold subscribed. split.
  - intros [[id Hid]|[id Hid]].
    + destruct (Hg _ _ Hid) as [Hs ?]. rewrite (Hk _ _ Hs). auto.
    + destruct (Hc _ _ _ Hid) as [Hs ?]. rewrite (Hk _ _ Hs). eauto.
  - intros [Hs [Hauto|[k' Hk']]]; [left; eauto|]. right. exists (sink_id k).
    destruct (Hc _ _ _ Hk') as [Hs' _]. congruence.
Qed.

Lemma channel_sinks_registered x w c :
  ctx_inv (x, w) → channels x !! rc_id c = Some c →
  channel_sinks w c = get_subscribers (rc_id c) (subs x) ∧ is_closed w c = false.
Proof.
  intros Hi Hc. destruct (ci_sinks _ Hi _ _ Hc) as (st & Hst & Hcl & Hs). cbn in *.
  unfold channel_sinks, is_closed. by rewrite Hst.
Qed.

Lemma channel_sinks_unregistered x w c :
  ctx_inv (x, w) → channels x !! rc_id c = None → channel_sinks w c = [].
Proof.
  intros Hi Hc. unfold channel_sinks. destruct (w_store w !! rc_id c) as [st|] eqn:E; [|done].
  cbn. by apply (proj2 (ci_store _ Hi) _ _ E).
Qed.

Lemma targets_NoDup l id : NoDup (sink_id <$> l) → NoDup (sink_id <$> targets l id).
Proof.
  intros Hl. destruct id; [|done]. eapply sublist_NoDup; [exact Hl|].
  apply fmap_sublist, sublist_filter.
Qed.

Lemma elem_of_targets l id k :
  k ∈ targets l id ↔ k ∈ l ∧ match id with Some i => sink_id k = i | None => True end.
Proof.
  destruct id as [i|]; cbn; [|tauto]. rewrite list_elem_of_filter, bool_decide_eq_true. tauto.
Qed.

(** In every state an application can reach, a registered channel is open
    and its stored sink set is its set of subscribers; the topic index, the
    channel index, the sinks and the subscriptions agree ([ctx_inv]). *)
Theorem context_invariant ops :
  Z.of_nat (length ops) < 2 ^ 64 - 2 → ctx_inv (run_ctx_ops ops ctx_init).
Proof.
  intros Hl. apply run_ctx_ops_inv; [apply ctx_init_inv|done|].
  change (w_next_id ctx_init.2) with 1. lia.
Qed.

(** The effect of a logged message, and the sinks it reaches. *)
Lemma log_events instant epoch c msg opts id x w :
  ctx_inv (x, w) → channels x !! rc_id c = Some c →
  ∃ ks, log_with_meta_to_sink instant epoch c msg opts id w =
    emit (ks ≫= log_one c msg {| m_log_time := default epoch (pm_log_time opts) |}) w ∧
  NoDup (sink_id <$> ks) ∧
  ∀ k, k ∈ ks ↔ subscribed x (rc_id c) k ∧ match id with Some i => sink_id k = i | None => True end.
Proof.
  intros Hi Hc. destruct (channel_sinks_registered x w c Hi Hc) as [Es Ecl].
  exists (targets (channel_sinks w c) id). split_and!.
  - unfold log_with_meta_to_sink, has_sinks. destruct (channel_sinks w c) as [|k l] eqn:E.
    + unfold log_warn_if_closed. unfold is_closed in Ecl. cbn.
      destruct (w_store w !! rc_id c); cbn in Ecl; rewrite ?Ecl; by destruct id; rewrite emit_nil.
    + by rewrite log_to_sinks_emit, E.
  - apply targets_NoDup. rewrite Es. apply get_subscribers_NoDup, (ci_subs _ Hi).
  - intros k. rewrite elem_of_targets, Es. by rewrite (elem_of_get_subscribers_subscribed x w).
Qed.

(** Logging on a registered channel calls [log] exactly once on exactly
    the registered sinks that are subscribed to the channel (on the given sink
    only, if one is given), with the message and the chosen log time, and
    changes nothing but the trace. *)
Theorem log_delivers instant epoch c msg opts id x w :
  ctx_inv (x, w) → channels x !! rc_id c = Some c →
  ∃ ks, log_with_meta_to_sink instant epoch c msg opts id w =
    emit (ks ≫= log_one c msg {| m_log_time := default epoch (pm_log_time opts) |}) w ∧
  NoDup (sink_id <$> ks) ∧
  ∀ k, k ∈ ks ↔ subscribed x (rc_id c) k ∧ match id with Some i => sink_id k = i | None => True end.
Proof. apply log_events. Qed.

(** After a channel is removed (or the context dropped), logging on it
    reaches no sink: the trace gains at most the throttled warning, and the
    warning appears exactly when the channel is closed and the throttler's
    interval has passed. *)
Theorem log_unregistered instant epoch c msg opts id x w :
  ctx_inv (x, w) → channels x !! rc_id c = None →
  let w' := log_with_meta_to_sink instant epoch c msg opts id w in
  (∀ ev, ev ∈ w_trace w' → ev ∈ w_trace w ∨ ev = EvWarnClosed (rc_topic c)) ∧
  (is_closed w c = false → w' = w) ∧
  (∀ st, w_store w !! rc_id c = Some st → cs_closed st = true →
    w_trace w' = w_trace w ++
      if (try_acquire instant (cs_warn_throttler st)).1 then [EvWarnClosed (rc_topic c)] else []).
Proof.
  intros Hi Hc. pose proof (channel_sinks_unregistered x w c Hi Hc) as Hs.
  unfold log_with_meta_to_sink, has_sinks. rewrite Hs. cbn. unfold log_warn_if_closed, is_closed.
  destruct (w_store w !! rc_id c) as [st|] eqn:E; [|split_and!; [auto|done|done]]. cbn.
  destruct (cs_closed st) eqn:Ecl; [|split_and!; [auto|done|intros; simplify_eq; congruence]].
  destruct (try_acquire instant (cs_warn_throttler st)) as [[] t] eqn:Et; cbn;
    (split_and!; [|done|intros st' [= <-] _; rewrite Et; cbn; by rewrite ?app_nil_r]).
  - intros ev. rewrite elem_of_app, list_elem_of_singleton. tauto.
  - auto.
Qed.

(** ** What the sinks are told *)

Definition learn (id : SinkId) (known : gset ChannelId) (ev : Event) : gset ChannelId :=
  match ev with
  | EvAddChannels s ids => if decide (s = id) then known ∪ list_to_set ids else known
  | EvRemoveChannel s ch => if decide (s = id) then known ∖ {[ch]} else known
  | _ => known
  end.
Definition learn_all (id : SinkId) (known : gset ChannelId) (evs : list Event) : gset ChannelId :=
  foldl (learn id) known evs.

Lemma learn_all_app id known l k : learn_all id known (l ++ k) = learn_all id (learn_all id known l) k.
Proof. apply foldl_app. Qed.

(** One event per registered sink. *)
Lemma learn_all_sinks (sks : gmap SinkId Sink) (f : SinkId → Event) id known :
  (∀ i k, sks !! i = Some k → sink_id k = i) →
  (∀ s known, s ≠ id → learn id known (f s) = known) →
  (∀ known, learn id (learn id known (f id)) (f id) = learn id known (f id)) →
  is_Some (sks !! id) →
  learn_all id known ((λ k, f (sink_id k)) <$> values sks) = learn id known (f id).
Proof.
  intros Hk Hother Hidem [s Hs].
  assert (id ∈ sink_id <$> values sks) as Hin.
  { apply list_elem_of_fmap. exists s. split; [by rewrite (Hk _ _ Hs)|]. apply elem_of_values. eauto. }
  revert Hin. clear s Hs. revert known. unfold learn_all.
  assert (∀ l known, foldl (learn id) (learn id known (f id)) ((λ k, f (sink_id k)) <$> l) =
    learn id known (f id)) as Hstable.
  { induction l as [|k l IH]; intros known; [done|]. cbn.
    destruct (decide (sink_id k = id)) as [->|Hne].
    - by rewrite Hidem, IH.
    - by rewrite Hother, IH. }
  induction (values sks) as [|k l IH]; intros known Hin; [inversion Hin|]. cbn.
  destruct (decide (sink_id k = id)) as [->|Hne]; [apply Hstable|].
  rewrite Hother by done. apply IH. by apply elem_of_cons in Hin as [?|?]; [congruence|].
Qed.

Lemma notify_removed_trace x c w :
  w_trace (notify_removed x c w) =
  w_trace w ++ ((λ k, EvRemoveChannel (sink_id k) (rc_id c)) <$> values (sinks x)).
Proof.
  unfold notify_removed. revert w. induction (values (sinks x)) as [|k l IH]; intros w; cbn.
  - by rewrite app_nil_r.
  - rewrite IH. cbn. by rewrite <- app_assoc.
Qed.

Lemma update_channel_sinks_trace s cs w : w_trace (update_channel_sinks s cs w) = w_trace w.
Proof.
  unfold update_channel_sinks. revert w. induction cs as [|c cs IH]; intros w; [done|].
  cbn. by rewrite IH.
Qed.

(** The notifications of an operation, for a sink registered after it. *)
Definition learns (x x' : ContextInner) (evs : list Event) : Prop :=
  ∀ id, is_Some (sinks x' !! id) →
    learn_all id (if decide (is_Some (sinks x !! id)) then dom (channels x) else ∅) evs =
    dom (channels x').

Lemma learns_nil x x' :
  channels x' = channels x → (∀ id, is_Some (sinks x' !! id) → is_Some (sinks x !! id)) →
  learns x x' [].
Proof. intros E Hs id Hid. rewrite decide_True by auto. by rewrite E. Qed.

Lemma add_channel_learns c x w :
  ctx_inv (x, w) → let '(_, x', w') := add_channel c x w in
  ∃ evs, w_trace w' = w_trace w ++ evs ∧ learns x x' evs.
Proof.
  intros Hi. unfold add_channel.
  destruct (find (λ d, rc_matches c d) _) as [d|] eqn:Ef.
  { exists []. rewrite app_nil_r. split; [done|]. by apply learns_nil. }
  set (warn := match default [] (channels_by_topic x !! rc_topic c) with [] => [] | _ => [EvWarnDuplicateTopic (rc_topic c)] end).
  set (w0 := match default [] (channels_by_topic x !! rc_topic c) with [] => w | _ => _ end).
  assert (w_trace w0 = w_trace w ++ warn ∧ ∀ id known, learn_all id known warn = known) as [E0 Hwarn].
  { unfold w0, warn. by destruct (default [] (channels_by_topic x !! rc_topic c)); rewrite ?app_nil_r. }
  pose proof (notify_added_loop (sinks x) c (values (sinks x)) (subs x) w0 (ci_subs _ Hi)
    (ci_registered _ Hi)) as Hl.
  destruct (foldl _ _ _) as [s' w']. destruct Hl as (_ & _ & _ & _ & _ & Et);
    [intros k; apply (values_registered _ _ _ (ci_registered _ Hi))|].
  exists (warn ++ ((λ k, EvAddChannels (sink_id k) [rc_id c]) <$> values (sinks x))).
  cbn. rewrite Et, E0, <- app_assoc. split; [done|]. intros id Hid. cbn in Hid |- *.
  rewrite decide_True, learn_all_app, Hwarn by done.
  rewrite (learn_all_sinks (sinks x) (λ s, EvAddChannels s [rc_id c])); cbn.
  - rewrite decide_True by done. rewrite dom_insert_L. set_solver.
  - apply (ci_registered _ Hi).
  - intros s known Hs. by rewrite decide_False.
  - intros known. rewrite !decide_True by done. set_solver.
  - done.
Qed.

Lemma remove_channel_learns id x w :
  ctx_inv (x, w) → let '(_, x', w') := remove_channel id x w in
  ∃ evs, w_trace w' = w_trace w ++ evs ∧ learns x x' evs.
Proof.
  intros Hi. unfold remove_channel. destruct (channels x !! id) as [c|] eqn:Ec.
  - destruct (proj2 (ci_topics _ Hi) _ _ Ec) as [<- _]. eexists. rewrite notify_removed_trace.
    split; [done|]. intros i Hid. cbn in *. rewrite decide_True by done.
    rewrite (learn_all_sinks (sinks x) (λ s, EvRemoveChannel s (rc_id c))); cbn.
    + rewrite decide_True by done. by rewrite dom_delete_L.
    + apply (ci_registered _ Hi).
    + intros s known Hs. by rewrite decide_False.
    + intros known. rewrite !decide_True by done. set_solver.
    + done.
  - exists []. rewrite app_nil_r. split; [done|]. by apply learns_nil.
Qed.

Lemma add_sink_learns sink x w :
  ctx_inv (x, w) → let '(_, x', w') := add_sink sink x w in
  ∃ evs, w_trace w' = w_trace w ++ evs ∧ learns x x' evs.
Proof.
  intros Hi. unfold add_sink. destruct (sinks x !! sink_id sink) as [k|] eqn:En.
  { exists []. rewrite app_nil_r. split; [done|]. by apply learns_nil. }
  cbn [channels sinks subs channels_by_topic with_subs].
  set (evs := match values (channels x) with [] => [] | _ =>
    [EvAddChannels (sink_id sink) (rc_id <$> values (channels x))] end).
  assert (∃ ids w0, (match values (channels x) with [] => (None, w) | _ =>
    Sink_add_channels sink (values (channels x)) w end) = (ids, w0) ∧
    w_trace w0 = w_trace w ++ evs) as (ids & w0 & -> & E0).
  { unfold evs. destruct (values (channels x)); eexists _, _; [|done]. by rewrite app_nil_r. }
  assert (∀ x', channels x' = channels x → sinks x' = <[sink_id sink := sink]> (sinks x) →
    learns x x' evs) as Hl.
  { intros x' Ec Es id. rewrite Es, Ec. destruct (decide (id = sink_id sink)) as [->|Hne].
    - intros _. rewrite decide_False by (rewrite En; by intros []).
      assert (list_to_set (rc_id <$> values (channels x)) = dom (channels x)) as Hd.
      { apply set_eq. intros ch. rewrite elem_of_list_to_set, list_elem_of_fmap, elem_of_dom.
        pose proof (ci_topics _ Hi) as Ht. cbn in Ht. split.
        - intros (c & -> & Hc). apply (elem_of_values_chans _ _ _ Ht) in Hc. by rewrite Hc.
        - intros [c Hc]. destruct (proj2 Ht _ _ Hc) as [<- _]. exists c. split; [done|].
          by apply (elem_of_values_chans _ _ _ Ht). }
      rewrite <- Hd. unfold evs. destruct (values (channels x)); [done|]. cbn.
      rewrite decide_True by done. set_solver.
    - rewrite lookup_insert_ne by done. intros Hid. rewrite decide_True by done.
      unfold evs. destruct (values (channels x)); [done|]. cbn. by rewrite decide_False. }
  destruct (sink_auto_subscribe sink).
  - destruct (subscribe_global _ _) as [b s]. exists evs. split; [|by apply Hl].
    destruct b; rewrite ?update_channel_sinks_trace; exact E0.
  - destruct ids as [ids|]; [|by exists evs; split; [|apply Hl]].
    destruct (filter _ ids); [by exists evs; split; [|apply Hl]|].
    destruct (Subscriptions.subscribe_channels _ _ _) as [b s]. exists evs.
    split; [|by apply Hl]. unfold update_channel_sinks_by_ids.
    destruct b; rewrite ?update_channel_sinks_trace; exact E0.
Qed.

(** Operations that change subscriptions only. *)
Lemma learns_refresh x x' (b : bool) s cs w :
  channels x' = channels x → (∀ id, is_Some (sinks x' !! id) → is_Some (sinks x !! id)) →
  ∃ evs, w_trace (if b then update_channel_sinks s cs w else w) = w_trace w ++ evs ∧
    learns x x' evs.
Proof.
  intros Ec Es. exists []. rewrite app_nil_r. split; [|by apply learns_nil].
  destruct b; [apply update_channel_sinks_trace|done].
Qed.

Lemma clear_trace x cs w :
  ∃ evs, w_trace (foldl (λ w c, notify_removed x c (remove_from_context c w)) w cs) =
    w_trace w ++ evs.
Proof.
  revert w. induction cs as [|c cs IH]; intros w; [by exists []; rewrite app_nil_r|].
  cbn [foldl]. destruct (IH (notify_removed x c (remove_from_context c w))) as [evs ->].
  rewrite notify_removed_trace, <- app_assoc. by eexists.
Qed.

(** C27: the callbacks keep every sink informed.  Reading [add_channels] as
    learning and [remove_channel] as forgetting channels, a sink that knew
    exactly the registered channels before an operation knows exactly the
    registered channels after it, and a newly added sink learns all of them
    at once. *)
Theorem sinks_learn_channels op st :
  ctx_inv st → ids_left st.2 →
  ∃ evs, w_trace (run_ctx_op op st).2 = w_trace st.2 ++ evs ∧
    learns st.1 (run_ctx_op op st).1 evs.
Proof.
  destruct st as [x w]. intros Hi Hleft. destruct op as [b|c|s|id|id ids|id ids|]; cbn [run_ctx_op].
  - rewrite build_raw_ok. destruct (cb_message_encoding b) as [e|].
    2: { exists []. rewrite app_nil_r. split; [done|]. by apply learns_nil. }
    pose proof (RawChannel_new_inv (cb_topic b) e (cb_schema b) (cb_metadata b) x w Hi Hleft) as Hn.
    destruct (RawChannel_new _ _ _ _ w) as [c w1] eqn:E1. destruct Hn as (Hi1 & _).
    assert (w_trace w1 = w_trace w) as Et by (unfold RawChannel_new in E1; by simplify_eq).
    pose proof (add_channel_learns c x w1 Hi1) as Ha.
    destruct (add_channel c x w1) as [[c' x'] w']. by rewrite Et in Ha.
  - unfold close. destruct (is_closed w c).
    { exists []. rewrite app_nil_r. split; [done|]. by apply learns_nil. }
    pose proof (remove_channel_learns (rc_id c) x w Hi) as Hr.
    by destruct (remove_channel _ _ _) as [[? x'] w'].
  - pose proof (add_sink_learns s x w Hi) as Hr.
    by destruct (add_sink _ _ _) as [[? x'] w'].
  - unfold remove_sink. destruct (remove_subscriber id (subs x)) as [b s]. cbn [fst snd].
    apply learns_refresh; [done|]. intros i. cbn. rewrite lookup_delete_is_Some. tauto.
  - unfold subscribe_channels. destruct (sinks x !! id) as [k|].
    2: { exists []. rewrite app_nil_r. split; [done|]. by apply learns_nil. }
    destruct (Subscriptions.subscribe_channels _ _ _) as [b s]. by apply learns_refresh.
  - unfold unsubscribe_channels.
    destruct (Subscriptions.unsubscribe_channels _ _ _) as [b s]. by apply learns_refresh.
  - destruct (clear_trace x (values (channels x)) w) as [evs E]. exists evs.
    split; [exact E|]. intros id Hid. cbn in Hid. rewrite lookup_empty in Hid. by destruct Hid.
Qed.

(** ** Building the same channel twice *)

Lemma find_matches c cs d :
  (∀ d e, d ∈ cs → e ∈ cs → rc_matches d e = true → d = e) →
  d ∈ cs → rc_matches c d = true → find (λ d, rc_matches c d) cs = Some d.
Proof.
  intros Hm Hd Hcd. destruct (find _ cs) as [e|] eqn:E.
  - apply find_some in E as [He Hce]. apply list_elem_of_In in He. f_equal.
    apply Hm; [done|done|]. rewrite rc_matches_spec in *.
    destruct Hcd as (?&?&?&?), Hce as (?&?&?&?). repeat split; congruence.
  - rewrite find_None_matches in E. by rewrite E in Hcd.
Qed.

Lemma add_channel_registers c x w :
  topics_ok (channels x) (channels_by_topic x) →
  let '(c', x', _) := add_channel c x w in
  rc_matches c c' = true ∧ ∃ cs, channels_by_topic x' !! rc_topic c = Some cs ∧ c' ∈ cs.
Proof.
  intros [Ht _]. unfold add_channel.
  destruct (find (λ d, rc_matches c d) _) as [d|] eqn:Ef.
  - apply find_some in Ef as [Hd Hm]. apply list_elem_of_In in Hd. split; [done|].
    destruct (channels_by_topic x !! rc_topic c) as [cs|] eqn:E; cbn in Hd; [|inversion Hd]. eauto.
  - destruct (foldl _ _ _) as [s w']. cbn. split; [by apply rc_matches_spec|].
    eexists. rewrite lookup_insert_eq. split; [done|]. apply elem_of_app. right. by left.
Qed.

Lemma add_channel_matching c d cs x w :
  topics_ok (channels x) (channels_by_topic x) →
  channels_by_topic x !! rc_topic c = Some cs → d ∈ cs → rc_matches c d = true →
  add_channel c x w = (d, x, w).
Proof.
  intros [Ht _] Hcs Hd Hm. destruct (Ht _ _ Hcs) as (_ & _ & _ & Hu). unfold add_channel.
  cbn zeta. rewrite Hcs. change (default [] (Some cs)) with cs.
  by rewrite (find_matches c cs d).
Qed.

(** Building a channel with the topic, encoding, schema and metadata of a
    registered one returns that channel: the indexes are unchanged and no
    sink is called.  (An id is consumed.) *)
Theorem build_raw_idempotent b c x w x' w' :
  ctx_inv (x, w) → ids_left w → build_raw b x w = Ok (c, x', w') →
  ∃ w'', build_raw b x' w' = Ok (c, x', w'') ∧ w_trace w'' = w_trace w'.
Proof.
  intros Hi Hleft. rewrite !build_raw_ok. destruct (cb_message_encoding b) as [e|]; [|done].
  pose proof (RawChannel_new_inv (cb_topic b) e (cb_schema b) (cb_metadata b) x w Hi Hleft) as Hn.
  destruct (RawChannel_new _ _ _ _ w) as [c0 w0] eqn:E0.
  destruct Hn as (Hi1 & Hf & _ & _ & st & Hst & Hop).
  pose proof (add_channel_inv c0 x w0 st Hi1 Hf Hst Hop) as Ha.
  pose proof (add_channel_registers c0 x w0 (ci_topics _ Hi1)) as Hr. cbn in Hr.
  intros [= E]. rewrite E in Ha, Hr. destruct Ha as [Hi' _].
  destruct Hr as (Hm & cs & Hcs & Hc).
  unfold RawChannel_new in *. simplify_eq. eexists. rewrite (add_channel_matching _ c cs);
    [done|apply (ci_topics _ Hi')|done..].
Qed.

(** ** Witnesses *)

Definition cb_imu : ChannelBuilder :=
  {| cb_topic := "/imu"; cb_message_encoding := Some "json"%string; cb_schema := None;
     cb_metadata := ∅ |}.
Definition sample_ops : list CtxOp :=
  [OpAddSink (plain_sink 5 true); OpAddSink (plain_sink 6 false); OpBuildRaw cb_imu;
   OpSubscribe 6 [1]; OpRemoveSink 5].
Definition sample_state : CtxState := run_ctx_ops sample_ops ctx_init.
Definition sample_channel : RawChannel :=
  {| rc_descriptor := {| cd_id := 1; cd_topic := "/imu"; cd_message_encoding := "json";
     cd_metadata := ∅; cd_schema := None |} |}.

Lemma context_invariant_witness : ctx_inv sample_state.
Proof. apply (context_invariant sample_ops). cbn. lia. Defined.

Lemma log_delivers_witness :
  ∃ ks, log_with_meta_to_sink 0 99 sample_channel [] {| pm_log_time := None |} None sample_state.2 =
    emit (ks ≫= log_one sample_channel [] {| m_log_time := 99 |}) sample_state.2 ∧
    sink_id <$> channel_sinks sample_state.2 sample_channel = [6].
Proof.
  assert (ctx_inv (sample_state.1, sample_state.2)) as Hi.
  { apply (run_ctx_ops_inv sample_ops ctx_init); [apply ctx_init_inv|done|done]. }
  destruct (log_delivers 0 99 sample_channel [] {| pm_log_time := None |} None
    sample_state.1 sample_state.2 Hi) as (ks & E & _); [reflexivity|].
  exists ks. split; [exact E|reflexivity].
Defined.

Lemma log_unregistered_witness :
  let st := run_ctx_op (OpClose sample_channel) sample_state in
  w_trace (log_with_meta_to_sink 0 99 sample_channel [] {| pm_log_time := None |} None st.2) =
  w_trace st.2 ++ [EvWarnClosed "/imu"].
Proof.
  cbn zeta. set (st := run_ctx_op _ _).
  assert (ctx_inv (st.1, st.2)) as Hi.
  { apply (run_ctx_ops_inv (sample_ops ++ [OpClose sample_channel]) ctx_init);
      [apply ctx_init_inv|done|done]. }
  apply (log_unregistered 0 99 sample_channel [] {| pm_log_time := None |} None st.1 st.2 Hi
    ltac:(reflexivity)) with (st := {| cs_sinks := []; cs_closed := true;
      cs_warn_throttler := Throttler_new WARN_THROTTLER_INTERVAL |}); reflexivity.
Defined.

Lemma sinks_learn_channels_witness :
  ∃ evs, w_trace (run_ctx_op (OpAddSink (plain_sink 7 true)) sample_state).2 =
    w_trace sample_state.2 ++ evs ∧
    learn_all 7 ∅ evs = {[1]}.
Proof.
  destruct (sinks_learn_channels (OpAddSink (plain_sink 7 true)) sample_state) as (evs & E & H).
  - apply (run_ctx_ops_inv sample_ops ctx_init); [apply ctx_init_inv|done|done].
  - done.
  - exists evs. split; [exact E|]. apply (H 7). eexists. reflexivity.
Defined.

Lemma build_raw_idempotent_witness :
  ∃ w'', build_raw cb_imu sample_state.1
      (RawChannel_new "/imu" "json" None ∅ sample_state.2).2 = Ok (sample_channel, sample_state.1, w'') ∧
    w_trace w'' = w_trace sample_state.2.
Proof.
  apply (build_raw_idempotent cb_imu sample_channel sample_state.1 sample_state.2
    sample_state.1 (RawChannel_new "/imu" "json" None ∅ sample_state.2).2);
    [|done|reflexivity].
  apply (run_ctx_ops_inv sample_ops ctx_init); [apply ctx_init_inv|done|done].
Defined.
