(* ===== verification/Sync.v ===== *)
(** * Sync: the server's concurrency primitives

    [Semaphore] (`websocket/semaphore.rs`), a lock-free counting semaphore,
    and [CowVec] (`websocket/cow_vec.rs`), a copy-on-write vector with locked
    writers and wait-free readers.  Both are modelled by their atomic steps
    (loads, compare-exchanges, stores, lock operations), interleaved freely
    between threads; the theorems hold for every interleaving. *)

From S2P Require Import Prelude.

Abbreviation tid := nat.

Module Semaphore.

(** A thread inside [try_acquire]'s loop: about to load, or holding the value
    it loaded. *)
Inductive pc := Idle | Loading | Loaded (current : nat).

Record State := {
  count : nat;           (* the shared counter *)
  guards : list tid;     (* live guards, by the thread that acquired them *)
  threads : gmap tid pc  (* absent: idle *)
}.
Definition pc_of (t : tid) (s : State) : pc := default Idle (threads s !! t).
Definition set_pc (t : tid) (p : pc) (s : State) : State :=
  {| count := count s; guards := guards s; threads := <[t := p]> (threads s) |}.

Definition new (n : nat) : State := {| count := n; guards := []; threads := ∅ |}.

(** One atomic action.  [try_acquire] = [Call]; then [Load] and [Cas] until it
    returns: [Load] returns [None] on zero, a successful [Cas] returns a
    guard, a failed one loops.  [DropGuard] is [SemaphoreGuard::drop]. *)
Inductive Action := Call | Load | Cas | DropGuard (owner : tid).
Inductive Outcome := Pending | ReturnNone | ReturnGuard | Dropped.

Definition remove_one (t : tid) (l : list tid) : option (list tid) :=
  match list_find (eq t) l with
  | Some (i, _) => Some (delete i l)
  | None => None
  end.

Definition step (t : tid) (a : Action) (s : State) : option (Outcome * State) :=
  match a, pc_of t s with
  | Call, Idle => Some (Pending, set_pc t Loading s)
  | Load, Loading =>
    if decide (count s = 0) then Some (ReturnNone, set_pc t Idle s)
    else Some (Pending, set_pc t (Loaded (count s)) s)
  | Cas, Loaded current =>
    if decide (count s = current)
    then Some (ReturnGuard, {| count := current - 1; guards := t :: guards s;
                               threads := <[t := Idle]> (threads s) |})
    else Some (Pending, set_pc t Loading s)
  | DropGuard owner, _ =>
    gs ← remove_one owner (guards s);
    Some (Dropped, {| count := count s + 1; guards := gs; threads := threads s |})
  | _, _ => None
  end.

Inductive steps (n : nat) : State → Prop :=
| steps_new : steps n (new n)
| steps_step s t a o s' : steps n s → step t a s = Some (o, s') → steps n s'.

Definition sem_inv (n : nat) (s : State) : Prop :=
  count s + length (guards s) = n ∧
  ∀ t c, threads s !! t = Some (Loaded c) → 0 < c.

Lemma remove_one_length t l l' : remove_one t l = Some l' → length l = S (length l').
Proof.
  unfold remove_one. destruct (list_find _ l) as [[i x]|] eqn:E; [|done]. intros [= <-].
  apply list_find_Some in E as (Hi & _ & _). pose proof (lookup_lt_Some _ _ _ Hi).
  rewrite length_delete by eauto. lia.
Qed.

Lemma set_pc_inv n s t p :
  sem_inv n s → (∀ c, p ≠ Loaded c) → sem_inv n (set_pc t p s).
Proof.
  intros [Hn Hc] Hp. split; [done|]. intros t' c'. cbn. rewrite lookup_insert_Some.
  intros [[_ Heq]|[_ ?]]; [by destruct (Hp c')|eauto].
Qed.

Lemma drop_inv n s owner o s' :
  sem_inv n s →
  (gs ← remove_one owner (guards s);
   Some (Dropped, {| count := count s + 1; guards := gs; threads := threads s |})) = Some (o, s') →
  sem_inv n s'.
Proof.
  intros [Hn Hc] E. destruct (remove_one owner (guards s)) as [gs|] eqn:Er; cbn in E; [|done].
  simplify_eq. apply remove_one_length in Er. split; [cbn; lia|done].
Qed.

Lemma step_inv n s t a o s' : sem_inv n s → step t a s = Some (o, s') → sem_inv n s'.
Proof.
  intros [Hn Hc] E. unfold step in E. destruct a, (pc_of t s) as [| |c] eqn:Ep; try discriminate E.
  - simplify_eq. by apply set_pc_inv.
  - case_decide; simplify_eq; [by apply set_pc_inv|]. split; [done|]. intros t' c'.
    cbn. rewrite lookup_insert_Some. intros [[_ Heq]|[_ ?]]; [simplify_eq; lia|eauto].
  - assert (0 < c) as Hpos.
    { unfold pc_of in Ep. destruct (threads s !! t) as [p|] eqn:Et; cbn in Ep; [|done]. subst.
      by eapply Hc. }
    case_decide; simplify_eq; [|by apply set_pc_inv]. split; [cbn; lia|]. intros t' c'.
    cbn. rewrite lookup_insert_Some. intros [[_ Heq]|[_ ?]]; [done|eauto].
  - by eapply drop_inv.
  - by eapply drop_inv.
  - by eapply drop_inv.
Qed.

Lemma steps_inv n s : steps n s → sem_inv n s.
Proof. induction 1; [by split|eauto using step_inv]. Qed.

(** Under every interleaving of loads, compare-exchanges and drops, the
    counter plus the live guards is the initial count — so at most [n] guards
    exist at once and the counter never underflows — and [try_acquire] returns
    [None] only at an instant when all [n] guards are live, returns a guard
    only by taking a free slot. *)
Theorem semaphore_bound n s :
  steps n s →
  count s + length (guards s) = n ∧ length (guards s) ≤ n ∧
  (∀ t a s', step t a s = Some (ReturnNone, s') → length (guards s) = n) ∧
  (∀ t a s', step t a s = Some (ReturnGuard, s') →
    length (guards s) < n ∧ guards s' = t :: guards s).
Proof.
  intros Hs. destruct (steps_inv n s Hs) as [Hn Hc]. split_and!; [done|lia| |].
  - intros t a s' E. unfold step in E.
    destruct a, (pc_of t s); repeat case_decide; simplify_eq; try lia;
      destruct (remove_one _ _); discriminate E.
  - intros t a s' E. unfold step in E. destruct a, (pc_of t s) as [| |c] eqn:Ep;
      repeat case_decide; simplify_eq; try (destruct (remove_one _ _); discriminate E).
    split; [|done]. unfold pc_of in Ep. destruct (threads s !! t) as [p|] eqn:Et; cbn in Ep; [|done].
    subst. apply Hc in Et. lia.
Qed.

(** [try_acquire] is lock-free: a thread is always able to take its next
    step, and its compare-exchange fails only if another thread acquired or
    released between its load and its exchange. *)
Theorem semaphore_lock_free t s :
  (pc_of t s = Loading → ∃ o s', step t Load s = Some (o, s') ∧
    (o = ReturnNone ∨ pc_of t s' = Loaded (count s'))) ∧
  (∀ c, pc_of t s = Loaded c → ∃ o s', step t Cas s = Some (o, s') ∧
    (o = ReturnGuard ∧ pc_of t s' = Idle ∨ count s ≠ c ∧ pc_of t s' = Loading)).
Proof.
  unfold step. split.
  - intros ->. case_decide; eexists _, _; (split; [done|]); [by left|right].
    unfold pc_of. cbn. by rewrite lookup_insert_eq.
  - intros c ->. case_decide; eexists _, _; (split; [done|]); [left|right]; split; try done;
      unfold pc_of; cbn; by rewrite lookup_insert_eq.
Qed.

Lemma semaphore_bound_witness :
  ∃ s, steps 1 s ∧ guards s = [0] ∧
    step 1 Load s = Some (ReturnNone, set_pc 1 Idle s) ∧ length (guards s) = 1.
Proof.
  set (s1 := set_pc 0 Loading (new 1)).
  set (s2 := set_pc 0 (Loaded 1) s1).
  set (s3 := {| count := 0; guards := [0]; threads := <[0 := Idle]> (threads s2) |}).
  assert (steps 1 (set_pc 1 Loading s3)) as H.
  { apply (steps_step 1 s3 1 Call Pending); [|reflexivity].
    apply (steps_step 1 s2 0 Cas ReturnGuard); [|reflexivity].
    apply (steps_step 1 s1 0 Load Pending); [|reflexivity].
    apply (steps_step 1 (new 1) 0 Call Pending); [constructor|reflexivity]. }
  exists (set_pc 1 Loading s3). split_and!; [exact H|reflexivity|reflexivity|].
  apply (semaphore_bound 1 _ H) with (t := 1) (a := Load) (s' := set_pc 1 Idle (set_pc 1 Loading s3)).
  reflexivity.
Defined.

End Semaphore.

Module CowVec.
Section cow_vec.
Context {T : Type}.

Record State := { inner : list T; frozen : bool }.

(** The operations as they appear to a caller that holds the lock. *)
Inductive Op := Push (item : T) | Retain (keep : T → bool) | TakeAndFreeze.
Inductive Ret := Pushed (ok : bool) | Retained | AssertFailed | Taken (old : list T).

Definition new : State := {| inner := []; frozen := false |}.
Definition from_vec (v : list T) : State := {| inner := v; frozen := false |}.

Definition push (item : T) (v : State) : Ret * State :=
  if frozen v then (Pushed false, v)
  else (Pushed true, {| inner := inner v ++ [item]; frozen := frozen v |}).
(** The debug assertion on a frozen vector is part of the model. *)
Definition retain (keep : T → bool) (v : State) : Ret * State :=
  if frozen v then
    (match inner v with [] => Retained | _ => AssertFailed end, v)
  else (Retained, {| inner := filter (λ x, keep x = true) (inner v); frozen := frozen v |}).
Definition take_and_freeze (v : State) : Ret * State :=
  (Taken (inner v), {| inner := []; frozen := true |}).
Definition apply (op : Op) (v : State) : Ret * State :=
  match op with
  | Push item => push item v
  | Retain keep => retain keep v
  | TakeAndFreeze => take_and_freeze v
  end.

(** *** Atomic steps *)

(** A writer acquires the lock, builds a new vector from the one it loads,
    and stores it (releasing the lock); readers load at any time. *)
Inductive pc :=
| Locked (op : Op)
| Built (op : Op) (new_vec : list T).

Record Shared := {
  vec : State;
  lock : option (tid * pc);   (* the thread in the critical section *)
  history : list (Op * Ret)   (* completed writes, oldest first *)
}.

Inductive step : Shared → Shared → Prop :=
| step_lock s t op :
  lock s = None →
  step s {| vec := vec s; lock := Some (t, Locked op); history := history s |}
| step_frozen s t op r :  (* push and retain return early *)
  lock s = Some (t, Locked op) → op ≠ TakeAndFreeze → frozen (vec s) = true →
  r = (apply op (vec s)).1 →
  step s {| vec := vec s; lock := None; history := history s ++ [(op, r)] |}
| step_push s t item :
  lock s = Some (t, Locked (Push item)) → frozen (vec s) = false →
  step s {| vec := vec s; lock := Some (t, Built (Push item) (inner (vec s) ++ [item]));
            history := history s |}
| step_retain s t keep :
  lock s = Some (t, Locked (Retain keep)) → frozen (vec s) = false →
  step s {| vec := vec s;
            lock := Some (t, Built (Retain keep) (filter (λ x, keep x = true) (inner (vec s))));
            history := history s |}
| step_store s t op v r :
  lock s = Some (t, Built op v) → op ≠ TakeAndFreeze →
  r = match op with Push _ => Pushed true | _ => Retained end →
  step s {| vec := {| inner := v; frozen := frozen (vec s) |}; lock := None;
            history := history s ++ [(op, r)] |}
| step_freeze s t :  (* [*frozen = true], still under the lock *)
  lock s = Some (t, Locked TakeAndFreeze) →
  step s {| vec := {| inner := inner (vec s); frozen := true |};
            lock := Some (t, Built TakeAndFreeze (inner (vec s))); history := history s |}
| step_swap s t v :
  lock s = Some (t, Built TakeAndFreeze v) →
  step s {| vec := {| inner := []; frozen := frozen (vec s) |}; lock := None;
            history := history s ++ [(TakeAndFreeze, Taken (inner (vec s)))] |}.

Inductive reachable (v0 : State) : Shared → Prop :=
| reach_init : reachable v0 {| vec := v0; lock := None; history := [] |}
| reach_step s s' : reachable v0 s → step s s' → reachable v0 s'.

(** *** The specification: the history run sequentially *)

(** The state after a history, if each recorded result is the one the
    sequential operation gives. *)
Fixpoint replay (v : State) (h : list (Op * Ret)) (v' : State) : Prop :=
  match h with
  | [] => v = v'
  | (op, r) :: h => r = (apply op v).1 ∧ replay (apply op v).2 h v'
  end.

Lemma replay_snoc v h op r v' :
  replay v h v' → r = (apply op v').1 → replay v (h ++ [(op, r)]) (apply op v').2.
Proof.
  revert v. induction h as [|[op' r'] h IH]; intros v; cbn; [by intros ->|].
  intros [-> Hr] E. auto.
Qed.

Definition cv_inv (v0 : State) (s : Shared) : Prop :=
  ∃ v, replay v0 (history s) v ∧ inner (vec s) = inner v ∧ (frozen v = true → inner v = []) ∧
  match lock s with
  | Some (_, Built TakeAndFreeze l) => l = inner v ∧ frozen (vec s) = true
  | Some (_, Built (Push item) l) =>
    frozen v = false ∧ frozen (vec s) = false ∧ l = inner v ++ [item]
  | Some (_, Built (Retain keep) l) =>
    frozen v = false ∧ frozen (vec s) = false ∧ l = filter (λ x, keep x = true) (inner v)
  | _ => frozen (vec s) = frozen v
  end.

Lemma step_cv_inv v0 s s' : cv_inv v0 s → step s s' → cv_inv v0 s'.
Proof.
  intros (v & Hr & Ei & Hf & Hl) Hstep. destruct v as [vi vf]. cbn in Ei, Hf.
  destruct Hstep as [s t op El|s t op r El Hop Hfr ->|s t item El Hfr|s t keep El Hfr
    |s t op l r El Hop ->|s t El|s t l El]; rewrite El in Hl.
  - by exists {| inner := vi; frozen := vf |}.
  - cbn in Hl. assert (apply op {| inner := vi; frozen := vf |} =
      ((apply op (vec s)).1, {| inner := vi; frozen := vf |})) as E.
    { rewrite Hfr in Hl. subst vf. rewrite <- Ei.
      by destruct op; cbn; unfold push, retain; cbn; rewrite ?Hfr. }
    exists {| inner := vi; frozen := vf |}. cbn. split_and!; [|done|done|done].
    pose proof (replay_snoc _ _ op _ _ Hr eq_refl) as Hs. by rewrite E in Hs.
  - exists {| inner := vi; frozen := vf |}. cbn in *. split_and!; [done|done|done|congruence|done|].
    by rewrite Ei.
  - exists {| inner := vi; frozen := vf |}. cbn in *. split_and!; [done|done|done|congruence|done|].
    by rewrite Ei.
  - destruct op as [item|keep|]; [| |done]; destruct Hl as (Hv & Hfv & ->); cbn in Hv; subst vf.
    + pose proof (replay_snoc _ _ (Push item) _ _ Hr eq_refl) as Hs. cbn in Hs.
      eexists. split; [exact Hs|]. cbn. rewrite Hfv. done.
    + pose proof (replay_snoc _ _ (Retain keep) _ _ Hr eq_refl) as Hs. cbn in Hs.
      eexists. split; [exact Hs|]. cbn. rewrite Hfv. done.
  - exists {| inner := vi; frozen := vf |}. cbn. split_and!; done.
  - pose proof (replay_snoc _ _ TakeAndFreeze _ _ Hr eq_refl) as Hs. cbn in Hs.
    rewrite <- Ei in Hs. eexists. split; [exact Hs|]. cbn. split_and!; [done|done|].
    by destruct Hl as [_ ->].
Qed.

Lemma reachable_inv v0 s : frozen v0 = false → reachable v0 s → cv_inv v0 s.
Proof.
  intros Hv0. induction 1 as [|s s' _ IH Hst]; [|by eapply step_cv_inv].
  exists v0. cbn. split_and!; [done|done|congruence|done].
Qed.

Lemma replay_frozen v h v' :
  replay v h v' → frozen v = true → inner v = [] →
  inner v' = [] ∧ ∀ item r, (Push item, r) ∈ h → r = Pushed false.
Proof.
  revert v. induction h as [|[op r] h IH]; intros v; cbn.
  { intros -> _ ->. split; [done|]. intros item r Hin. inversion Hin. }
  intros [-> Hr] Hf Hi. assert (apply op v = ((apply op v).1, (apply op v).2)) as E by by destruct (apply op v).
  assert (frozen (apply op v).2 = true ∧ inner (apply op v).2 = []) as [Hf' Hi'].
  { destruct op; cbn; unfold push, retain; rewrite ?Hf; done. }
  destruct (IH _ Hr Hf' Hi') as [Hv' Hp]. split; [done|].
  intros item r [E'|Hin]%elem_of_cons; [|by apply (Hp item)].
  injection E' as <- ->. cbn. unfold push. by rewrite Hf.
Qed.

Lemma replay_app v h1 h2 v' : replay v (h1 ++ h2) v' ↔ ∃ v1, replay v h1 v1 ∧ replay v1 h2 v'.
Proof.
  revert v. induction h1 as [|[op r] h1 IH]; intros v; cbn; [naive_solver|].
  rewrite IH. naive_solver.
Qed.

Lemma replay_no_assert v h v' :
  replay v h v' → (frozen v = true → inner v = []) →
  ∀ op, (op, AssertFailed) ∉ h.
Proof.
  revert v. induction h as [|[op' r] h IH]; intros v; cbn; [intros _ _ op Hin; inversion Hin|].
  intros [-> Hr] Hv op. rewrite elem_of_cons. intros [E|Hin].
  - injection E as -> E. destruct op'; cbn in E; unfold push, retain in E; destruct (frozen v);
      try done. rewrite Hv in E; done.
  - eapply (IH _ Hr); [|exact Hin]. destruct op'; cbn; unfold push, retain;
      destruct (frozen v) eqn:Ef; cbn; intros; try done; auto; congruence.
Qed.

(** C31: the copy-on-write vector is linearisable.  In every reachable
    interleaving of writers and readers the completed operations returned what
    they return when run one after the other, a reader sees exactly the vector
    after the completed operations, and the debug assertion never fails. *)
Theorem CowVec_linearizable v0 s :
  frozen v0 = false → reachable v0 s →
  (∃ v, replay v0 (history s) v ∧ inner (vec s) = inner v) ∧
  ∀ op, (op, AssertFailed) ∉ history s.
Proof.
  intros Hv0 Hs. destruct (reachable_inv v0 s Hv0 Hs) as (v & Hr & Ei & _ & _).
  split; [by exists v|]. eapply replay_no_assert; [exact Hr|congruence].
Qed.

(** Once [take_and_freeze] has returned, the vector stays empty and every
    later [push] reports failure: no element is lost between the taken vector
    and a later push. *)
Theorem CowVec_frozen v0 s h1 old h2 :
  frozen v0 = false → reachable v0 s → history s = h1 ++ (TakeAndFreeze, old) :: h2 →
  inner (vec s) = [] ∧ ∀ item r, (Push item, r) ∈ h2 → r = Pushed false.
Proof.
  intros Hv0 Hs Eh. destruct (reachable_inv v0 s Hv0 Hs) as (v & Hr & Ei & _ & _).
  rewrite Eh in Hr. apply replay_app in Hr as (v1 & _ & Hr). cbn in Hr. destruct Hr as [_ Hr].
  rewrite Ei. by apply (replay_frozen _ _ _ Hr).
Qed.
End cow_vec.

(** A thread freezes the vector, then another thread's push is refused. *)
Definition frozen_run : @Shared nat :=
  {| vec := {| inner := []; frozen := true |}; lock := None;
     history := [(TakeAndFreeze, Taken [1; 2]); (Push 3, Pushed false)] |}.
Lemma frozen_run_reachable : reachable (from_vec [1; 2]) frozen_run.
Proof.
  eapply reach_step; [|apply (step_frozen
    {| vec := {| inner := []; frozen := true |}; lock := Some (1, Locked (Push 3));
       history := [(TakeAndFreeze, Taken [1; 2])] |} 1 (Push 3) (Pushed false)); done].
  eapply reach_step; [|by apply (step_lock
    {| vec := {| inner := []; frozen := true |}; lock := None;
       history := [(TakeAndFreeze, Taken [1; 2])] |})].
  eapply reach_step; [|by apply (step_swap
    {| vec := {| inner := [1; 2]; frozen := true |}; lock := Some (0, Built TakeAndFreeze [1; 2]);
       history := [] |} 0 [1; 2])].
  eapply reach_step; [|by apply (step_freeze
    {| vec := {| inner := [1; 2]; frozen := false |}; lock := Some (0, Locked TakeAndFreeze);
       history := [] |} 0)].
  eapply reach_step; [constructor|].
  by apply (step_lock {| vec := from_vec [1; 2]; lock := None; history := [] |}).
Qed.

Lemma CowVec_linearizable_witness :
  ∃ v, replay (from_vec [1; 2]) (history frozen_run) v ∧ inner (vec frozen_run) = inner v.
Proof.
  apply (CowVec_linearizable (from_vec [1; 2]) frozen_run); [reflexivity|].
  apply frozen_run_reachable.
Defined.

Lemma CowVec_frozen_witness :
  inner (vec frozen_run) = [] ∧
  ∀ item r, (Push item, r) ∈ [(Push 3, Pushed false)] → r = @Pushed nat false.
Proof.
  apply (CowVec_frozen (from_vec [1; 2]) frozen_run [] (Taken [1; 2]));
    [reflexivity|apply frozen_run_reachable|reflexivity].
Defined.
End CowVec.
