(* ===== verification/Advertise.v ===== *)
(** * Advertise: schemas on the wire and channel advertisements

    `protocol/common/schema.rs`, the channel builders and decoders of
    `protocol/common/server/advertise.rs` and `client/advertise.rs`, the
    conversions of `websocket/advertise.rs` and `websocket/client_channel.rs`.

    A schema is sent inside JSON: binary schemas (protobuf, flatbuffer) are
    base64 text, the others must be UTF-8.  The base64 crate is external: it is
    the parameter [Base64], and what the code relies on is [Base64Laws]. *)

From S2P Require Import Prelude Bytes Messages Channel.
Local Open Scope string_scope.

(** ** The base64 crate *)

(** [BASE64_STANDARD.encode] and [decode]; a decoding error is a message. *)
Class Base64 := {
  base64_encode : list byte → string;
  base64_decode : string → string + list byte
}.
Class Base64Laws `{Base64} : Prop := {
  base64_decode_encode : ∀ data, base64_decode (base64_encode data) = inr data
}.

(** A concrete codec for the witnesses: two letters [A] to [P] per byte. *)
Definition nibble (z : Z) : byte := val_byte (65 + z `mod` 16).
Definition unnibble (b : byte) : Z := byte_val b - 65.
Fixpoint unhex (l : list byte) : list byte :=
  match l with
  | h :: l :: rest => val_byte (unnibble h * 16 + unnibble l) :: unhex rest
  | _ => []
  end.
Definition hex (data : list byte) : list byte :=
  data ≫= λ b, [nibble (byte_val b / 16); nibble (byte_val b)].

#[export] Instance base64_ref : Base64 := {|
  base64_encode data := of_bytes (hex data);
  base64_decode s := inr (unhex (as_bytes s))
|}.

Lemma unnibble_nibble z : unnibble (nibble z) = (z `mod` 16)%Z.
Proof.
  unfold unnibble, nibble. rewrite byte_val_byte.
  pose proof (Z.mod_pos_bound z 16 eq_refl). rewrite Z.mod_small; lia.
Qed.

#[export] Instance base64_ref_laws : Base64Laws.
Proof.
  split. intros data. cbn. rewrite as_of_bytes. f_equal.
  induction data as [|b data IH]; [done|].
  change (hex (b :: data)) with (nibble (byte_val b / 16) :: nibble (byte_val b) :: hex data).
  cbn [unhex]. rewrite IH. f_equal.
  rewrite !unnibble_nibble. pose proof (byte_val_range b).
  rewrite (Z.mod_small (byte_val b / 16)).
  2: { split; [apply Z.div_pos; lia|apply Z.div_lt_upper_bound; lia]. }
  rewrite <- (val_byte_val b) at 3. f_equal.
  rewrite (Z.div_mod (byte_val b) 16) at 3; lia.
Qed.

(** ** Schema data (`protocol/common/schema.rs`) *)

Inductive EncodeError := EncodeUtf8 | EncodeMissingSchema.
Inductive DecodeError := DecodeBase64 (err : string) | DecodeMissingSchema.

Definition is_schema_required (message_encoding : string) : bool :=
  String.eqb message_encoding "flatbuffer" || String.eqb message_encoding "protobuf"
  || String.eqb message_encoding "ros1" || String.eqb message_encoding "cdr".

Definition is_known_binary_schema_encoding (schema_encoding : string) : bool :=
  String.eqb schema_encoding "protobuf" || String.eqb schema_encoding "flatbuffer".

Section codec.
Context `{HB : Base64}.

Definition encode_schema_data (schema_encoding : string) (data : list byte)
    : result EncodeError string :=
  if is_known_binary_schema_encoding schema_encoding then Ok (base64_encode data)
  else ok_or (from_utf8 data) EncodeUtf8.

Definition decode_schema_data (schema_encoding : string) (data : string)
    : result DecodeError (list byte) :=
  if is_known_binary_schema_encoding schema_encoding then
    match base64_decode data with inr data => Ok data | inl err => Err (DecodeBase64 err) end
  else Ok (as_bytes data).

(** ** Server channels (`common/server/advertise.rs`) *)

(** [Channel::builder(..).with_schema(..).build()]. *)
Definition WireChannel_build (id : Z) (topic encoding : string) (schema : option Schema)
    : result EncodeError WireChannel :=
  match schema with
  | None =>
    if is_schema_required encoding then Err EncodeMissingSchema
    else Ok {| wc_id := id; wc_topic := topic; wc_encoding := encoding;
               wc_schema_name := ""; wc_schema_encoding := None; wc_schema := "" |}
  | Some schema =>
    data ← encode_schema_data (sch_encoding schema) (sch_data schema);
    Ok {| wc_id := id; wc_topic := topic; wc_encoding := encoding;
          wc_schema_name := sch_name schema; wc_schema_encoding := Some (sch_encoding schema);
          wc_schema := data |}
  end.

Definition WireChannel_decode_schema (c : WireChannel) : result DecodeError (list byte) :=
  match wc_schema_encoding c with
  | Some schema_encoding => decode_schema_data schema_encoding (wc_schema c)
  | None => Err DecodeMissingSchema
  end.

(** [TryFrom<Channel> for Schema]. *)
Definition Schema_of_WireChannel (c : WireChannel) : result DecodeError Schema :=
  schema ← WireChannel_decode_schema c;
  Ok {| sch_name := wc_schema_name c; sch_encoding := default "" (wc_schema_encoding c);
        sch_data := schema |}.

(** ** Client channels (`common/client/advertise.rs`) *)

Definition WireClientChannel_build (id : Z) (topic encoding : string) (schema : option Schema)
    : result EncodeError WireClientChannel :=
  match schema with
  | None =>
    if is_schema_required encoding then Err EncodeMissingSchema
    else Ok {| wcc_id := id; wcc_topic := topic; wcc_encoding := encoding;
               wcc_schema_name := ""; wcc_schema_encoding := None; wcc_schema := None |}
  | Some schema =>
    data ← encode_schema_data (sch_encoding schema) (sch_data schema);
    Ok {| wcc_id := id; wcc_topic := topic; wcc_encoding := encoding;
          wcc_schema_name := sch_name schema; wcc_schema_encoding := Some (sch_encoding schema);
          wcc_schema := Some data |}
  end.

Definition WireClientChannel_decode_schema (c : WireClientChannel)
    : result DecodeError (list byte) :=
  match wcc_schema_encoding c, wcc_schema c with
  | Some schema_encoding, Some schema => decode_schema_data schema_encoding schema
  | _, _ => Err DecodeMissingSchema
  end.

(** [ClientChannel] and its [TryFrom] (`websocket/client_channel.rs`). *)
Record ClientChannel := {
  cc_id : Z;
  cc_topic : string;
  cc_encoding : string;
  cc_schema_name : string;
  cc_schema_encoding : option string;
  cc_schema : option (list byte)
}.

Definition ClientChannel_try_from (ch : WireClientChannel) : result DecodeError ClientChannel :=
  schema ← match WireClientChannel_decode_schema ch with
           | Ok schema => Ok (Some schema)
           | Err DecodeMissingSchema => Ok None
           | Err e => Err e
           | Panic => Panic
           end;
  Ok {| cc_id := wcc_id ch; cc_topic := wcc_topic ch; cc_encoding := wcc_encoding ch;
        cc_schema_name := wcc_schema_name ch; cc_schema_encoding := wcc_schema_encoding ch;
        cc_schema := schema |}.

(** ** Advertising (`websocket/advertise.rs`) *)

(** [TryFrom<&RawChannel> for advertise::Channel]. *)
Definition WireChannel_try_from (ch : RawChannel) : result EncodeError WireChannel :=
  WireChannel_build (rc_id ch) (rc_topic ch) (cd_message_encoding (rc_descriptor ch))
    (cd_schema (rc_descriptor ch)).

(** The errors are logged and dropped. *)
Definition result_ok {E A} (x : result E A) : option A :=
  match x with Ok a => Some a | _ => None end.
Definition maybe_advertise_channel (channel : RawChannel) : option WireChannel :=
  result_ok (WireChannel_try_from channel).
Definition advertise_channels (channels : list RawChannel) : Advertise :=
  {| ad_channels := omap maybe_advertise_channel channels |}.

(** ** Lemmas *)

(** A channel can be advertised when its schema is there if needed, and is
    text unless its encoding is a binary one. *)
Definition schema_encodable (s : Schema) : bool :=
  is_known_binary_schema_encoding (sch_encoding s) || utf8_valid (sch_data s).
Definition advertisable (encoding : string) (schema : option Schema) : bool :=
  match schema with
  | None => negb (is_schema_required encoding)
  | Some s => schema_encodable s
  end.

Lemma encode_schema_data_Ok s :
  (∃ text, encode_schema_data (sch_encoding s) (sch_data s) = Ok text) ↔
  schema_encodable s = true.
Proof.
  unfold encode_schema_data, schema_encodable, from_utf8.
  destruct (is_known_binary_schema_encoding _), (utf8_valid _); cbn; naive_solver.
Qed.

Lemma WireChannel_build_Ok id topic encoding schema :
  (∃ c, WireChannel_build id topic encoding schema = Ok c) ↔
  advertisable encoding schema = true.
Proof.
  destruct schema as [s|]; cbn.
  - rewrite <- encode_schema_data_Ok.
    destruct (encode_schema_data _ _); cbn; naive_solver.
  - destruct (is_schema_required _); cbn; naive_solver.
Qed.

Lemma WireChannel_build_id id topic encoding schema c :
  WireChannel_build id topic encoding schema = Ok c → wc_id c = id.
Proof.
  destruct schema as [s|]; cbn.
  - rewrite bind_Ok. by intros (data & _ & [= <-]).
  - destruct (is_schema_required _); by intros [= <-].
Qed.

Lemma decode_encode_schema_data `{!Base64Laws} enc data text :
  encode_schema_data enc data = Ok text → decode_schema_data enc text = Ok data.
Proof.
  unfold encode_schema_data, decode_schema_data.
  destruct (is_known_binary_schema_encoding enc).
  - intros [= <-]. by rewrite base64_decode_encode.
  - destruct (from_utf8 data) as [s|] eqn:E; cbn; [|done].
    apply from_utf8_Some in E as [<- _]. by intros [= <-].
Qed.

(** The catalogue entry a channel gives, if any. *)
Definition rc_advertisable (c : RawChannel) : bool :=
  advertisable (cd_message_encoding (rc_descriptor c)) (cd_schema (rc_descriptor c)).

Lemma maybe_advertise_channel_is_Some c :
  is_Some (maybe_advertise_channel c) ↔ rc_advertisable c = true.
Proof.
  unfold rc_advertisable.
  rewrite <- (WireChannel_build_Ok (rc_id c) (rc_topic c)).
  unfold maybe_advertise_channel, WireChannel_try_from, is_Some.
  destruct (WireChannel_build _ _ _ _); cbn; naive_solver.
Qed.

Lemma maybe_advertise_channel_id c w : maybe_advertise_channel c = Some w → wc_id w = rc_id c.
Proof.
  unfold maybe_advertise_channel, WireChannel_try_from.
  destruct (WireChannel_build _ _ _ _) eqn:E; cbn; [|done|done].
  intros [= <-]. by apply WireChannel_build_id in E.
Qed.

Lemma advertise_channels_ids channels :
  wc_id <$> ad_channels (advertise_channels channels) =
  rc_id <$> filter (λ c, rc_advertisable c = true) channels.
Proof.
  cbn. induction channels as [|c cs IH]; [done|]. cbn [omap list_omap]. rewrite filter_cons.
  destruct (maybe_advertise_channel c) as [w|] eqn:E.
  - rewrite decide_True by (apply maybe_advertise_channel_is_Some; eauto).
    rewrite !fmap_cons. f_equal; [by apply maybe_advertise_channel_id|done].
  - rewrite decide_False; [done|]. rewrite <- maybe_advertise_channel_is_Some, E.
    by intros [? ?].
Qed.
End codec.

(** ** Properties *)

(** What a client decodes from a channel advertisement.  Building the
    advertisement of a channel succeeds exactly when the channel has a schema
    where its encoding needs one and the schema data is UTF-8 unless its
    encoding is binary; then the advertisement carries the channel's id, topic
    and encoding, and decoding its schema gives back the channel's schema, or
    reports a missing schema when there was none. *)
Theorem channel_advertisement_roundtrip `{Base64Laws} (c : RawChannel) :
  match maybe_advertise_channel c with
  | Some w =>
    rc_advertisable c = true ∧
    wc_id w = rc_id c ∧ wc_topic w = rc_topic c ∧
    wc_encoding w = cd_message_encoding (rc_descriptor c) ∧
    Schema_of_WireChannel w = ok_or (cd_schema (rc_descriptor c)) DecodeMissingSchema
  | None => rc_advertisable c = false
  end.
Proof.
  pose proof (maybe_advertise_channel_is_Some c) as Hs.
  destruct (maybe_advertise_channel c) as [w|] eqn:E.
  2: { destruct (rc_advertisable c); [|done]. by destruct (proj2 Hs eq_refl). }
  split; [by apply Hs|]. split; [by apply maybe_advertise_channel_id|].
  revert E. unfold maybe_advertise_channel, WireChannel_try_from.
  destruct (cd_schema (rc_descriptor c)) as [[n e d]|]; cbn.
  - destruct (encode_schema_data e d) as [text| |] eqn:Ee; cbn; [|done|done].
    intros [= <-]. split_and!; [done|done|]. unfold Schema_of_WireChannel; cbn.
    by rewrite (decode_encode_schema_data e d text).
  - destruct (is_schema_required _); cbn; [done|]. by intros [= <-].
Qed.

Definition demo_channel : RawChannel :=
  {| rc_descriptor := {| cd_id := 1; cd_topic := "/t"; cd_message_encoding := "protobuf";
     cd_metadata := ∅;
     cd_schema := Some {| sch_name := "S"; sch_encoding := "protobuf";
       sch_data := [Byte.x00; Byte.xff] |} |} |}.
Lemma channel_advertisement_roundtrip_witness :
  match maybe_advertise_channel demo_channel with
  | Some w => Schema_of_WireChannel w = Ok {| sch_name := "S"; sch_encoding := "protobuf";
      sch_data := [Byte.x00; Byte.xff] |}
  | None => False
  end.
Proof.
  pose proof (channel_advertisement_roundtrip demo_channel) as H. revert H.
  destruct (maybe_advertise_channel demo_channel); [|done].
  by intros (_ & _ & _ & _ & ->).
Defined.

(** A client's own advertisement reaches the server's listener as the
    channel the client built: for every channel the client library can build,
    [ClientChannel::try_from] succeeds and gives back the id, topic, encoding,
    schema name, schema encoding and schema data (none of them for a channel
    without a schema).  The only advertisements it rejects are those whose
    binary schema is not base64. *)
Theorem client_channel_roundtrip `{Base64Laws} (id : Z) (topic encoding : string)
    (schema : option Schema) :
  (∀ w, WireClientChannel_build id topic encoding schema = Ok w →
    ClientChannel_try_from w = Ok {| cc_id := id; cc_topic := topic; cc_encoding := encoding;
      cc_schema_name := default "" (sch_name <$> schema);
      cc_schema_encoding := sch_encoding <$> schema; cc_schema := sch_data <$> schema |}) ∧
  (∀ w e, ClientChannel_try_from w = Err e →
    ∃ enc text err, wcc_schema_encoding w = Some enc ∧ wcc_schema w = Some text ∧
      is_known_binary_schema_encoding enc = true ∧ base64_decode text = inl err ∧
      e = DecodeBase64 err) ∧
  (∀ w, ClientChannel_try_from w ≠ Panic).
Proof.
  split_and!.
  - intros w. destruct schema as [[n e d]|]; cbn.
    + destruct (encode_schema_data e d) as [text| |] eqn:Ee; cbn; [|done|done].
      intros [= <-]. unfold ClientChannel_try_from, WireClientChannel_decode_schema. cbn.
      by rewrite (decode_encode_schema_data e d text).
    + destruct (is_schema_required encoding); [done|]. by intros [= <-].
  - intros w e. unfold ClientChannel_try_from, WireClientChannel_decode_schema, decode_schema_data.
    destruct (wcc_schema_encoding w) as [enc|], (wcc_schema w) as [text|]; try done.
    destruct (is_known_binary_schema_encoding enc) eqn:Eb; [|done].
    destruct (base64_decode text) as [err|] eqn:Ed; [|done]. cbn. intros [= <-]. eauto 10.
  - intros w. unfold ClientChannel_try_from, WireClientChannel_decode_schema, decode_schema_data.
    destruct (wcc_schema_encoding w) as [enc|], (wcc_schema w) as [text|]; try done.
    destruct (is_known_binary_schema_encoding enc), (base64_decode text); done.
Qed.

Lemma client_channel_roundtrip_witness :
  ∃ w, WireClientChannel_build 7 "/t" "json"
         (Some {| sch_name := "S"; sch_encoding := "jsonschema"; sch_data := [Byte.x7b] |}) = Ok w ∧
       ClientChannel_try_from w = Ok {| cc_id := 7; cc_topic := "/t"; cc_encoding := "json";
         cc_schema_name := "S"; cc_schema_encoding := Some "jsonschema";
         cc_schema := Some [Byte.x7b] |}.
Proof.
  eexists. split; [reflexivity|].
  apply (proj1 (client_channel_roundtrip 7 "/t" "json"
    (Some {| sch_name := "S"; sch_encoding := "jsonschema"; sch_data := [Byte.x7b] |}))).
  reflexivity.
Defined.
