(* ===== verification/Services.v ===== *)
(** * Services: service definitions, the service map and service advertisements

    `websocket/service.rs` ([Service], [ServiceMap]), `service/schema.rs`, the
    advertisement builder of `protocol/common/server/advertise_services.rs`
    and its use in `websocket/advertise.rs`.  A service's handler is user code:
    a call of it is an event of Server.v, so [Service] keeps no handler. *)

From S2P Require Import Prelude Bytes Messages Channel Advertise.
Local Open Scope string_scope.

(** ** Service schemas and services *)

Abbreviation ServiceId := Z.
Abbreviation CallId := Z.

Record MessageSchema := { ms_encoding : string; ms_schema : Schema }.
Record ServiceSchema := {
  ss_name : string;
  ss_request : option MessageSchema;
  ss_response : option MessageSchema
}.
Definition ServiceSchema_new (name : string) : ServiceSchema :=
  {| ss_name := name; ss_request := None; ss_response := None |}.
Definition with_request (encoding : string) (schema : Schema) (s : ServiceSchema)
    : ServiceSchema :=
  {| ss_name := ss_name s;
     ss_request := Some {| ms_encoding := encoding; ms_schema := schema |};
     ss_response := ss_response s |}.
Definition with_response (encoding : string) (schema : Schema) (s : ServiceSchema)
    : ServiceSchema :=
  {| ss_name := ss_name s; ss_request := ss_request s;
     ss_response := Some {| ms_encoding := encoding; ms_schema := schema |} |}.

Record Service := { svc_id : ServiceId; svc_name : string; svc_schema : ServiceSchema }.
Definition request_encoding (s : Service) : option string :=
  ms_encoding <$> ss_request (svc_schema s).
Definition response_encoding (s : Service) : option string :=
  ms_encoding <$> ss_response (svc_schema s).

(** [ServiceId::next]: the counter wraps, and id 0 is a panic. *)
Definition ServiceId_next (counter : Z) : result string (ServiceId * Z) :=
  if bool_decide (counter = 0%Z) then Panic else Ok (counter, wrap 32 (counter + 1)).

(** ** [ServiceMap] *)

Record ServiceMap := { sm_id : gmap ServiceId Service; sm_name : gmap string ServiceId }.
Definition ServiceMap_default : ServiceMap := {| sm_id := ∅; sm_name := ∅ |}.

(** Both [assert!]s: the previous entry under the name, then under the id. *)
Definition ServiceMap_insert {E} (service : Service) (m : ServiceMap) : result E ServiceMap :=
  match sm_name m !! svc_name service with
  | Some _ => Panic
  | None =>
    match sm_id m !! svc_id service with
    | Some _ => Panic
    | None => Ok {| sm_id := <[svc_id service := service]> (sm_id m);
                    sm_name := <[svc_name service := svc_id service]> (sm_name m) |}
    end
  end.

Fixpoint ServiceMap_extend {E} (services : list Service) (m : ServiceMap) : result E ServiceMap :=
  match services with
  | [] => Ok m
  | service :: services => m ← ServiceMap_insert service m; ServiceMap_extend services m
  end.
Definition ServiceMap_from_iter {E} (services : list Service) : result E ServiceMap :=
  ServiceMap_extend services ServiceMap_default.

Definition remove_by_name (name : string) (m : ServiceMap) : option Service * ServiceMap :=
  match sm_name m !! name with
  | Some id => (sm_id m !! id,
                {| sm_id := delete id (sm_id m); sm_name := delete name (sm_name m) |})
  | None => (None, m)
  end.

Definition contains_name (name : string) (m : ServiceMap) : bool :=
  bool_decide (is_Some (sm_name m !! name)).
Definition contains_id (id : ServiceId) (m : ServiceMap) : bool :=
  bool_decide (is_Some (sm_id m !! id)).
Definition ServiceMap_values (m : ServiceMap) : list Service := (map_to_list (sm_id m)).*2.
Definition get_by_id (id : ServiceId) (m : ServiceMap) : option Service := sm_id m !! id.

(** ** Advertisements *)

Section codec.
Context `{HB : Base64}.

(** [advertise_services::Service::new], [with_request], [with_response] and
    [MessageSchema::schema]. *)
Definition WireService_new (id : Z) (name type : string) : WireService :=
  {| wsv_id := id; wsv_name := name; wsv_type := type; wsv_request := None;
     wsv_request_schema := Some ""; wsv_response := None; wsv_response_schema := Some "" |}.
Definition WireService_with_request (encoding : string) (schema : Schema) (s : WireService)
    : result EncodeError WireService :=
  data ← encode_schema_data (sch_encoding schema) (sch_data schema);
  Ok {| wsv_id := wsv_id s; wsv_name := wsv_name s; wsv_type := wsv_type s;
        wsv_request := Some {| wms_encoding := encoding; wms_schema_name := sch_name schema;
          wms_schema_encoding := sch_encoding schema; wms_schema := data |};
        wsv_request_schema := None;
        wsv_response := wsv_response s; wsv_response_schema := wsv_response_schema s |}.
Definition WireService_with_response (encoding : string) (schema : Schema) (s : WireService)
    : result EncodeError WireService :=
  data ← encode_schema_data (sch_encoding schema) (sch_data schema);
  Ok {| wsv_id := wsv_id s; wsv_name := wsv_name s; wsv_type := wsv_type s;
        wsv_request := wsv_request s; wsv_request_schema := wsv_request_schema s;
        wsv_response := Some {| wms_encoding := encoding; wms_schema_name := sch_name schema;
          wms_schema_encoding := sch_encoding schema; wms_schema := data |};
        wsv_response_schema := None |}.
Definition WireMessageSchema_schema (s : WireMessageSchema) : result DecodeError (list byte) :=
  decode_schema_data (wms_schema_encoding s) (wms_schema s).
Definition Schema_of_WireMessageSchema (s : WireMessageSchema) : result DecodeError Schema :=
  schema ← WireMessageSchema_schema s;
  Ok {| sch_name := wms_schema_name s; sch_encoding := wms_schema_encoding s;
        sch_data := schema |}.

(** [TryFrom<&Service> for advertise_services::Service]. *)
Definition WireService_try_from (s : Service) : result EncodeError WireService :=
  let service := WireService_new (svc_id s) (svc_name s) (ss_name (svc_schema s)) in
  service ← match ss_request (svc_schema s) with
            | Some request =>
              WireService_with_request (ms_encoding request) (ms_schema request) service
            | None => Ok service
            end;
  match ss_response (svc_schema s) with
  | Some response =>
    WireService_with_response (ms_encoding response) (ms_schema response) service
  | None => Ok service
  end.
Definition maybe_advertise_service (service : Service) : option WireService :=
  result_ok (WireService_try_from service).
Definition advertise_services (services : list Service) : AdvertiseServices :=
  {| as_services := omap maybe_advertise_service services |}.

(** A service can be advertised when its schemas are text or binary. *)
Definition part_encodable (s : option MessageSchema) : bool :=
  match s with Some s => schema_encodable (ms_schema s) | None => true end.
Definition svc_advertisable (s : Service) : bool :=
  part_encodable (ss_request (svc_schema s)) && part_encodable (ss_response (svc_schema s)).

(** What a client reads from one half of an advertisement. *)
Definition decode_part (s : option WireMessageSchema)
    : result DecodeError (option MessageSchema) :=
  match s with
  | Some w => schema ← Schema_of_WireMessageSchema w;
              Ok (Some {| ms_encoding := wms_encoding w; ms_schema := schema |})
  | None => Ok None
  end.
End codec.

(** ** Well-formed maps *)

Record sm_wf (m : ServiceMap) : Prop := {
  smw_id : ∀ id s, sm_id m !! id = Some s → svc_id s = id ∧ sm_name m !! svc_name s = Some id;
  smw_name : ∀ n id, sm_name m !! n = Some id → ∃ s, sm_id m !! id = Some s ∧ svc_name s = n
}.

Lemma sm_wf_default : sm_wf ServiceMap_default.
Proof. split; intros *; cbn; by rewrite lookup_empty. Qed.

Lemma ServiceMap_insert_fresh {E} s m :
  contains_name (svc_name s) m = false → contains_id (svc_id s) m = false →
  ServiceMap_insert (E := E) s m =
    Ok {| sm_id := <[svc_id s := s]> (sm_id m); sm_name := <[svc_name s := svc_id s]> (sm_name m) |}.
Proof.
  unfold contains_name, contains_id, ServiceMap_insert.
  rewrite !bool_decide_eq_false. by intros ->%eq_None_not_Some ->%eq_None_not_Some.
Qed.

Lemma ServiceMap_insert_wf {E} s m m' :
  sm_wf m → ServiceMap_insert (E := E) s m = Ok m' → sm_wf m'.
Proof.
  intros [Hi Hn]. unfold ServiceMap_insert.
  destruct (sm_name m !! svc_name s) eqn:En; [done|].
  destruct (sm_id m !! svc_id s) eqn:Ei; [done|]. intros [= <-]. split; cbn.
  - intros id t [[<- <-]|[Hne Ht]]%lookup_insert_Some; [by rewrite lookup_insert_eq|].
    destruct (Hi _ _ Ht) as [<- Hnt]. rewrite lookup_insert_ne; [done|]. congruence.
  - intros n id [[<- <-]|[Hne Ht]]%lookup_insert_Some; [exists s; by rewrite lookup_insert_eq|].
    destruct (Hn _ _ Ht) as (t & Ht' & <-). exists t. rewrite lookup_insert_ne; [done|]. congruence.
Qed.

Lemma remove_by_name_spec n m :
  sm_wf m →
  let '(o, m') := remove_by_name n m in
  sm_wf m' ∧
  (∀ id s, sm_id m' !! id = Some s ↔ sm_id m !! id = Some s ∧ svc_name s ≠ n) ∧
  (∀ s, o = Some s ↔ sm_id m !! svc_id s = Some s ∧ svc_name s = n).
Proof.
  intros [Hi Hn]. unfold remove_by_name. destruct (sm_name m !! n) as [i|] eqn:En.
  - destruct (Hn _ _ En) as (s & Hs & <-). destruct (Hi _ _ Hs) as [<- _].
    assert (Hname : ∀ id t, sm_id m !! id = Some t → id ≠ svc_id s ↔ svc_name t ≠ svc_name s).
    { intros id t Ht. destruct (Hi _ _ Ht) as [<- Hnt]. split; [|congruence].
      intros Hne E. rewrite E in Hnt. congruence. }
    split_and!.
    + split; cbn.
      * intros id t [Hne Ht]%lookup_delete_Some. destruct (Hi _ _ Ht) as [? Hnt].
        split; [done|]. rewrite lookup_delete_ne; [done|].
        apply not_eq_sym. eapply Hname; eauto.
      * intros n id [Hne Ht]%lookup_delete_Some. destruct (Hn _ _ Ht) as (t & Ht' & <-).
        exists t. rewrite lookup_delete_ne; [done|]. apply not_eq_sym. eapply Hname; eauto.
    + intros id t. cbn. rewrite lookup_delete_Some. split; intros [? Ht].
      * split; [done|]. eapply Hname; eauto.
      * split; [|done]. apply not_eq_sym. eapply Hname; eauto.
    + intros t. rewrite Hs. split; [by intros [= <-]|]. intros [Ht Hnt].
      destruct (decide (svc_id t = svc_id s)) as [E|E]; [congruence|].
      by apply (Hname _ _ Ht) in E.
  - split_and!; [done| |].
    + intros id s. split; [|tauto]. intros Hs. split; [done|]. intros <-.
      destruct (Hi _ _ Hs). congruence.
    + intros s. split; [done|]. intros [Hs <-]. destruct (Hi _ _ Hs). congruence.
Qed.

Lemma elem_of_ServiceMap_values m s :
  sm_wf m → s ∈ ServiceMap_values m ↔ sm_id m !! svc_id s = Some s.
Proof.
  intros [Hi _]. unfold ServiceMap_values. rewrite list_elem_of_fmap. split.
  - intros ([id t] & -> & Ht%elem_of_map_to_list). cbn. by destruct (Hi _ _ Ht) as [-> _].
  - intros Hs. exists (svc_id s, s). by rewrite elem_of_map_to_list.
Qed.

(** *** Operations as a whole *)

(** Adding services that are fresh and distinct never hits an [assert!]. *)
Lemma ServiceMap_extend_fresh {E} l m :
  NoDup (svc_name <$> l) → NoDup (svc_id <$> l) →
  (∀ s, s ∈ l → contains_name (svc_name s) m = false ∧ contains_id (svc_id s) m = false) →
  sm_wf m →
  ∃ m', ServiceMap_extend (E := E) l m = Ok m' ∧ sm_wf m' ∧
    (∀ id s, sm_id m' !! id = Some s ↔ sm_id m !! id = Some s ∨ s ∈ l ∧ svc_id s = id).
Proof.
  revert m. induction l as [|s l IH]; intros m Hn Hi Hf Hm; cbn [ServiceMap_extend].
  - exists m. split_and!; [done|done|]. set_solver.
  - rewrite fmap_cons, NoDup_cons in Hn. rewrite fmap_cons, NoDup_cons in Hi. destruct Hn as [Hns Hn], Hi as [His Hi].
    destruct (Hf s) as [Hfn Hfi]; [left|].
    rewrite (ServiceMap_insert_fresh s m Hfn Hfi). cbn [mbind result_bind].
    pose proof (ServiceMap_insert_wf (E := E) s m _ Hm (ServiceMap_insert_fresh s m Hfn Hfi)) as Hm1.
    destruct (λ Hf', IH _ Hn Hi Hf' Hm1) as (m' & -> & Hm' & Hl).
    { intros t Ht. destruct (Hf t) as [Htn Hti]; [by right|].
      unfold contains_name, contains_id in *. cbn.
      rewrite !bool_decide_eq_false, <- !eq_None_not_Some in *.
      rewrite !lookup_insert_ne; [done| |]; intros E'; [apply His|apply Hns];
        rewrite E'; apply list_elem_of_fmap; eauto. }
    exists m'. split_and!; [done|done|]. intros id t. rewrite Hl. cbn.
    rewrite lookup_insert_Some, elem_of_cons.
    unfold contains_id in Hfi. rewrite bool_decide_eq_false, <- eq_None_not_Some in Hfi.
    split.
    + intros [[[<- <-]|[_ ?]]|[? ?]]; auto.
    + intros [Hs|[[->|?] ?]]; [|by left; left|by auto].
      destruct (decide (svc_id s = id)) as [<-|]; [congruence|auto].
Qed.

(** ** Properties *)

Inductive SmOp := SmInsert (s : Service) | SmRemove (name : string).
(** A refused insertion is a panic: the map is gone. *)
Fixpoint run_sm (ops : list SmOp) (m : ServiceMap) : result string ServiceMap :=
  match ops with
  | [] => Ok m
  | SmInsert s :: ops => m ← ServiceMap_insert s m; run_sm ops m
  | SmRemove n :: ops => run_sm ops (remove_by_name n m).2
  end.

(** The specification: a set of services in which ids and names are unique. *)
Fixpoint run_sm_spec (ops : list SmOp) (l : list Service) : option (list Service) :=
  match ops with
  | [] => Some l
  | SmInsert s :: ops =>
    if decide (svc_name s ∈ svc_name <$> l ∨ svc_id s ∈ svc_id <$> l) then None
    else run_sm_spec ops (s :: l)
  | SmRemove n :: ops => run_sm_spec ops (filter (λ s, svc_name s ≠ n) l)
  end.

Definition sm_represents (m : ServiceMap) (l : list Service) : Prop :=
  sm_wf m ∧ ∀ s, sm_id m !! svc_id s = Some s ↔ s ∈ l.

Lemma sm_represents_name m l n :
  sm_represents m l → is_Some (sm_name m !! n) ↔ n ∈ svc_name <$> l.
Proof.
  intros [[Hi Hn] Hl]. rewrite list_elem_of_fmap. split.
  - intros [id Hid]. destruct (Hn _ _ Hid) as (s & Hs & <-). exists s.
    split; [done|]. apply Hl. by destruct (Hi _ _ Hs) as [-> _].
  - intros (s & -> & Hs%Hl). destruct (Hi _ _ Hs). eauto.
Qed.
Lemma sm_represents_id m l id :
  sm_represents m l → is_Some (sm_id m !! id) ↔ id ∈ svc_id <$> l.
Proof.
  intros [[Hi Hn] Hl]. rewrite list_elem_of_fmap. split.
  - intros [s Hs]. destruct (Hi _ _ Hs) as [<- _]. exists s. by rewrite <- Hl.
  - intros (s & -> & Hs%Hl). eauto.
Qed.

Lemma sm_represents_insert {E} m l s :
  sm_represents m l →
  if decide (svc_name s ∈ svc_name <$> l ∨ svc_id s ∈ svc_id <$> l)
  then ServiceMap_insert (E := E) s m = Panic
  else ∃ m', ServiceMap_insert (E := E) s m = Ok m' ∧ sm_represents m' (s :: l).
Proof.
  intros Hr. case_decide as Hd.
  - rewrite <- (sm_represents_name m), <- (sm_represents_id m) in Hd by done.
    unfold ServiceMap_insert. destruct Hd as [[? ->]|[? ->]]; [done|]. by destruct (sm_name m !! _).
  - apply Decidable.not_or in Hd as [H1 H2].
    rewrite <- (sm_represents_name m) in H1 by done. rewrite <- (sm_represents_id m) in H2 by done.
    pose proof (ServiceMap_insert_fresh (E := E) s m) as Hins.
    unfold contains_name, contains_id in Hins. rewrite !bool_decide_eq_false in Hins.
    specialize (Hins H1 H2). eexists. split; [apply Hins|]. destruct Hr as [Hwf Hl].
    split; [by eapply ServiceMap_insert_wf|]. intros t. cbn.
    rewrite lookup_insert_Some, elem_of_cons, <- Hl. rewrite <- eq_None_not_Some in H2.
    split; [naive_solver|]. intros [->|Ht]; [by left|]. right. split; [|done]. intros E'. congruence.
Qed.

Lemma sm_represents_remove m l n :
  sm_represents m l → sm_represents (remove_by_name n m).2 (filter (λ s, svc_name s ≠ n) l).
Proof.
  intros [Hwf Hl]. pose proof (remove_by_name_spec n m Hwf) as Hs.
  destruct (remove_by_name n m) as [o m']. destruct Hs as (Hwf' & Hid & _).
  split; [done|]. intros s. rewrite list_elem_of_filter, <- Hl. cbn. rewrite Hid. tauto.
Qed.

Lemma run_sm_refine ops m l :
  sm_represents m l →
  match run_sm_spec ops l with
  | Some l' => ∃ m', run_sm ops m = Ok m' ∧ sm_represents m' l'
  | None => run_sm ops m = Panic
  end.
Proof.
  revert m l. induction ops as [|[s|n] ops IH]; intros m l Hr; cbn [run_sm run_sm_spec].
  - eauto.
  - pose proof (sm_represents_insert (E := string) m l s Hr) as Hi. case_decide.
    + by rewrite Hi.
    + destruct Hi as (m' & -> & Hr'). by apply IH.
  - apply IH. by apply sm_represents_remove.
Qed.

(** The service map, an index by id and an index by name, implements a set
    of services with unique names and ids.  For every sequence of insertions
    and removals from the empty map: the sequence panics (one of the two
    [assert!]s of [insert]) exactly when it inserts a service whose name or id
    is taken at that moment; otherwise both indexes agree with the specified
    set: a lookup by id returns exactly its services, a name is found exactly
    when a service has it, and [remove_by_name] returns the service of that
    name. *)
Theorem ServiceMap_refine (ops : list SmOp) :
  match run_sm_spec ops [] with
  | Some l =>
    ∃ m, run_sm ops ServiceMap_default = Ok m ∧
      (∀ s, get_by_id (svc_id s) m = Some s ↔ s ∈ l) ∧
      (∀ id s, get_by_id id m = Some s → svc_id s = id) ∧
      (∀ n, contains_name n m = true ↔ n ∈ svc_name <$> l) ∧
      (∀ id, contains_id id m = true ↔ id ∈ svc_id <$> l) ∧
      (∀ n s, (remove_by_name n m).1 = Some s ↔ s ∈ l ∧ svc_name s = n)
  | None => run_sm ops ServiceMap_default = Panic
  end.
Proof.
  pose proof (run_sm_refine ops ServiceMap_default []) as H.
  destruct (run_sm_spec ops []) as [l|].
  - destruct H as (m & Hm & Hr).
    { split; [apply sm_wf_default|]. intros s. cbn. rewrite lookup_empty. set_solver. }
    exists m. pose proof Hr as [Hwf Hl]. split_and!; [done|exact Hl| | | |].
    + intros id s Hs. by destruct (smw_id m Hwf _ _ Hs).
    + intros n. unfold contains_name. rewrite bool_decide_eq_true. by apply sm_represents_name.
    + intros id. unfold contains_id. rewrite bool_decide_eq_true. by apply sm_represents_id.
    + intros n s. pose proof (remove_by_name_spec n m Hwf) as Hsp.
      destruct (remove_by_name n m) as [o m']. destruct Hsp as (_ & _ & Ho). cbn.
      by rewrite Ho, Hl.
  - apply H. split; [apply sm_wf_default|]. intros s. cbn. rewrite lookup_empty. set_solver.
Qed.

Lemma decode_part_with_request `{Base64Laws} enc schema s w :
  WireService_with_request enc schema s = Ok w →
  decode_part (wsv_request w) = Ok (Some {| ms_encoding := enc; ms_schema := schema |}) ∧
  wsv_request_schema w = None ∧ wsv_response w = wsv_response s ∧
  wsv_response_schema w = wsv_response_schema s ∧
  wsv_id w = wsv_id s ∧ wsv_name w = wsv_name s ∧ wsv_type w = wsv_type s.
Proof.
  unfold WireService_with_request. rewrite bind_Ok. intros (text & Ht & [= <-]).
  cbn -[decode_schema_data].
  unfold Schema_of_WireMessageSchema, WireMessageSchema_schema. cbn -[decode_schema_data].
  rewrite (decode_encode_schema_data _ _ _ Ht). destruct schema. by split_and!.
Qed.

Lemma decode_part_with_response `{Base64Laws} enc schema s w :
  WireService_with_response enc schema s = Ok w →
  decode_part (wsv_response w) = Ok (Some {| ms_encoding := enc; ms_schema := schema |}) ∧
  wsv_response_schema w = None ∧ wsv_request w = wsv_request s ∧
  wsv_request_schema w = wsv_request_schema s ∧
  wsv_id w = wsv_id s ∧ wsv_name w = wsv_name s ∧ wsv_type w = wsv_type s.
Proof.
  unfold WireService_with_response. rewrite bind_Ok. intros (text & Ht & [= <-]).
  cbn -[decode_schema_data].
  unfold Schema_of_WireMessageSchema, WireMessageSchema_schema. cbn -[decode_schema_data].
  rewrite (decode_encode_schema_data _ _ _ Ht). destruct schema. by split_and!.
Qed.

Lemma maybe_advertise_service_is_Some `{Base64} s :
  is_Some (maybe_advertise_service s) ↔ svc_advertisable s = true.
Proof.
  unfold maybe_advertise_service, WireService_try_from, svc_advertisable, part_encodable.
  destruct (ss_request (svc_schema s)) as [[e1 s1]|]; cbn.
  - pose proof (encode_schema_data_Ok s1) as H1. unfold WireService_with_request.
    destruct (encode_schema_data _ _) as [t1| |]; cbn;
      (destruct (schema_encodable s1); [|by naive_solver]).
    + destruct (ss_response (svc_schema s)) as [[e2 s2]|]; cbn; [|by naive_solver].
      pose proof (encode_schema_data_Ok s2) as H2. unfold WireService_with_response.
      destruct (encode_schema_data (sch_encoding s2) _) as [t2| |]; cbn; naive_solver.
    + naive_solver.
    + naive_solver.
  - destruct (ss_response (svc_schema s)) as [[e2 s2]|]; cbn; [|by naive_solver].
    pose proof (encode_schema_data_Ok s2) as H2. unfold WireService_with_response.
    destruct (encode_schema_data (sch_encoding s2) _) as [t2| |]; cbn; naive_solver.
Qed.

(** What a client decodes from a service advertisement.  A service is
    advertised exactly when each schema it declares is binary or UTF-8 text;
    the advertisement then carries the service's id, name and type, and each
    half decodes to the message encoding and schema of the service, with the
    legacy schema-name field set (to the empty string) exactly for the halves
    that declare no schema. *)
Theorem service_advertisement_roundtrip `{Base64Laws} (s : Service) :
  match maybe_advertise_service s with
  | Some w =>
    svc_advertisable s = true ∧
    wsv_id w = svc_id s ∧ wsv_name w = svc_name s ∧ wsv_type w = ss_name (svc_schema s) ∧
    decode_part (wsv_request w) = Ok (ss_request (svc_schema s)) ∧
    decode_part (wsv_response w) = Ok (ss_response (svc_schema s)) ∧
    wsv_request_schema w = match ss_request (svc_schema s) with Some _ => None | None => Some "" end ∧
    wsv_response_schema w = match ss_response (svc_schema s) with Some _ => None | None => Some "" end
  | None => svc_advertisable s = false
  end.
Proof.
  pose proof (maybe_advertise_service_is_Some s) as Hs.
  destruct (maybe_advertise_service s) as [w|] eqn:E.
  2: { destruct (svc_advertisable s); [|done]. by destruct (proj2 Hs eq_refl). }
  split; [by apply Hs|]. clear Hs. revert E.
  unfold maybe_advertise_service, WireService_try_from.
  set (base := WireService_new _ _ _).
  assert (decode_part (wsv_request base) = Ok None) as Hb1 by done.
  assert (decode_part (wsv_response base) = Ok None) as Hb2 by done.
  destruct (ss_request (svc_schema s)) as [[e1 s1]|]; cbn -[WireService_with_response].
  - destruct (WireService_with_request e1 s1 base) as [w1| |] eqn:E1;
      cbn -[WireService_with_response]; [|done|done].
    apply decode_part_with_request in E1 as (D1 & L1 & R1 & S1 & I1 & N1 & T1).
    destruct (ss_response (svc_schema s)) as [[e2 s2]|]; cbn -[WireService_with_response].
    + destruct (WireService_with_response e2 s2 w1) as [w2| |] eqn:E2; [|done|done].
      apply decode_part_with_response in E2 as (D2 & L2 & R2 & S2 & I2 & N2 & T2).
      intros [= <-]. rewrite D2, L2, R2, S2, D1, L1, I2, N2, T2, I1, N1, T1. done.
    + intros [= <-]. rewrite R1, D1, L1, S1, I1, N1, T1. done.
  - destruct (ss_response (svc_schema s)) as [[e2 s2]|]; cbn -[WireService_with_response].
    + destruct (WireService_with_response e2 s2 base) as [w2| |] eqn:E2; [|done|done].
      apply decode_part_with_response in E2 as (D2 & L2 & R2 & S2 & I2 & N2 & T2).
      intros [= <-]. rewrite D2, L2, R2, S2, I2, N2, T2. done.
    + by intros [= <-].
Qed.

Definition demo_service : Service :=
  {| svc_id := 5; svc_name := "/s"; svc_schema := with_request "protobuf"
       {| sch_name := "Req"; sch_encoding := "protobuf"; sch_data := [Byte.xff] |}
       (ServiceSchema_new "T") |}.
Lemma service_advertisement_roundtrip_witness :
  match maybe_advertise_service demo_service with
  | Some w => decode_part (wsv_request w) = Ok (ss_request (svc_schema demo_service)) ∧
              wsv_response_schema w = Some ""
  | None => False
  end.
Proof.
  pose proof (service_advertisement_roundtrip demo_service) as H. revert H.
  destruct (maybe_advertise_service demo_service); [|done].
  by intros (_ & _ & _ & _ & -> & _ & _ & ->).
Defined.
