(* ===== verification/Token.v ===== *)
(** * Token: the fingerprint of an advertisement catalogue

    `compute_advertisement_token` of `websocket/server.rs` and
    `parse_advertisement_token` of `websocket/handshake.rs`.  The token is the
    hexadecimal text of two 64-bit FNV-1a style hashes of the catalogue; the
    arithmetic is that of Rust's [u64]: xor, [wrapping_mul], [rotate_left]. *)

From stdpp Require Export sorting.
From S2P Require Import Prelude Bytes Channel.
Local Open Scope Z_scope.

(** ** Machine arithmetic *)

Definition wrapping_mul (x y : Z) : Z := wrap 64 (x * y).
Definition rotate_left (x k : Z) : Z :=
  Z.lor (wrap 64 (Z.shiftl x k)) (Z.shiftr x (64 - k)).

Definition OFFSET_BASIS_A : Z := 0xcbf29ce484222325.
Definition OFFSET_BASIS_B : Z := 0x9e3779b97f4a7c15.
Definition PRIME : Z := 0x00000100000001b3.

(** ** The hash *)

Definition absorb_byte (h : Z * Z) (b : byte) : Z * Z :=
  (wrapping_mul (Z.lxor h.1 (byte_val b)) PRIME,
   wrapping_mul (Z.lxor h.2 (rotate_left (byte_val b) 3)) PRIME).
Definition absorb (h : Z * Z) (bytes : list byte) : Z * Z :=
  let h := foldl absorb_byte h bytes in
  let len := wrap 64 (Z.of_nat (length bytes)) in
  (Z.lxor h.1 len, Z.lxor (rotate_left h.2 7) len).

(** The byte strings a channel and a service feed to [absorb], in order. *)
Definition channel_fields (c : RawChannel) : list (list byte) :=
  [le_bytes 8 (rc_id c); as_bytes (rc_topic c);
   as_bytes (cd_message_encoding (rc_descriptor c))] ++
  match cd_schema (rc_descriptor c) with
  | Some s => [as_bytes (sch_name s); as_bytes (sch_encoding s); sch_data s]
  | None => []
  end.
Definition service_fields (s : string * Z) : list (list byte) :=
  [as_bytes s.1; le_bytes 4 s.2].

(** The orders of [sort_by_key] and of [sort] on pairs of a [String] and a
    [u32]: Rust compares strings by their bytes. *)
Definition channel_le (c d : RawChannel) : Prop := rc_id c ≤ rc_id d.
Fixpoint bytes_le (l k : list byte) : Prop :=
  match l, k with
  | [], _ => True
  | _, [] => False
  | b :: l, c :: k => byte_val b < byte_val c ∨ byte_val b = byte_val c ∧ bytes_le l k
  end.
Definition service_le (s t : string * Z) : Prop :=
  if decide (s.1 = t.1) then s.2 ≤ t.2 else bytes_le (as_bytes s.1) (as_bytes t.1).

#[export] Instance channel_le_dec : RelDecision channel_le.
Proof. unfold channel_le. intros c d. apply _. Defined.
#[export] Instance bytes_le_dec : RelDecision bytes_le.
Proof.
  intros l. induction l as [|b l IH]; intros [|c k]; cbn.
  - left; exact I.
  - left; exact I.
  - right; tauto.
  - pose proof (IH k). apply _.
Defined.
#[export] Instance service_le_dec : RelDecision service_le.
Proof. unfold service_le. intros s t. case (decide (s.1 = t.1)); intros; apply _. Defined.

Definition catalogue_fields (channels : list RawChannel) (services : list (string * Z))
    : list (list byte) :=
  (merge_sort channel_le channels ≫= channel_fields) ++
  (merge_sort service_le services ≫= service_fields).
Definition catalogue_hash (channels : list RawChannel) (services : list (string * Z)) : Z * Z :=
  foldl absorb (OFFSET_BASIS_A, OFFSET_BASIS_B) (catalogue_fields channels services).

(** [format!("{:016x}")] of a [u64]. *)
Definition hex_digit (z : Z) : byte :=
  let d := z `mod` 16 in val_byte (if bool_decide (d < 10) then 48 + d else 87 + d).
Fixpoint hex_digits (n : nat) (z : Z) : list byte :=
  match n with O => [] | S n => hex_digits n (z / 16) ++ [hex_digit z] end.

Definition compute_advertisement_token (channels : list RawChannel)
    (services : list (string * Z)) : string :=
  let '(hash_a, hash_b) := catalogue_hash channels services in
  of_bytes (hex_digits 16 hash_a ++ hex_digits 16 hash_b).

(** ** The query parameter *)

(** [str::split] and [str::split_once] on an ASCII character. *)
Fixpoint split (sep : byte) (l : list byte) : list (list byte) :=
  match l with
  | [] => [[]]
  | b :: l =>
    if decide (b = sep) then [] :: split sep l
    else match split sep l with
         | x :: xs => (b :: x) :: xs
         | [] => [[b]]
         end
  end.
Fixpoint split_once (sep : byte) (l : list byte) : option (list byte * list byte) :=
  match l with
  | [] => None
  | b :: l =>
    if decide (b = sep) then Some ([], l)
    else '(x, y) ← split_once sep l; Some (b :: x, y)
  end.

Definition AMP : byte := Byte.x26.
Definition EQUALS : byte := Byte.x3d.
Definition ADVERTISEMENT_TOKEN_PARAM : list byte := as_bytes "advertisement_token".

Definition token_of_pair (pair : list byte) : option string :=
  let '(key, value) := default (pair, []) (split_once EQUALS pair) in
  if decide (key = ADVERTISEMENT_TOKEN_PARAM) then Some (of_bytes value) else None.
Fixpoint find_map {A B} (f : A → option B) (l : list A) : option B :=
  match l with
  | [] => None
  | x :: l => match f x with Some y => Some y | None => find_map f l end
  end.
Definition parse_advertisement_token (query : option string) : option string :=
  query ← query; find_map token_of_pair (split AMP (as_bytes query)).

(** ** Orders *)

#[export] Instance channel_le_trans : Transitive channel_le.
Proof. unfold channel_le. intros ???. lia. Qed.
#[export] Instance channel_le_total : Total channel_le.
Proof. unfold channel_le. intros ??. lia. Qed.

#[export] Instance bytes_le_total : Total bytes_le.
Proof.
  intros l. induction l as [|b l IH]; intros [|c k]; cbn; auto.
  destruct (IH k), (Z.lt_trichotomy (byte_val b) (byte_val c)) as [|[|]]; auto.
Qed.
#[export] Instance bytes_le_trans : Transitive bytes_le.
Proof.
  intros l. induction l as [|b l IH]; intros [|c k] [|d m]; cbn; try done.
  intros [?|[-> ?]] [?|[? ?]]; [left; lia|left; lia|by left|right]. split; [done|]. eapply IH; eauto.
Qed.
Lemma bytes_le_antisymm l k : bytes_le l k → bytes_le k l → l = k.
Proof.
  revert k. induction l as [|b l IH]; intros [|c k]; cbn; try done.
  intros [?|[E1 ?]] [?|[E2 ?]]; try lia. f_equal; [by apply byte_val_inj|by apply IH].
Qed.

Lemma as_bytes_inj s t : as_bytes s = as_bytes t → s = t.
Proof. intros E. by rewrite <- (of_as_bytes s), E, of_as_bytes. Qed.

#[export] Instance service_le_total : Total service_le.
Proof.
  intros s t. unfold service_le. destruct (decide (s.1 = t.1)) as [E|E].
  - rewrite decide_True by done. lia.
  - rewrite decide_False by congruence. apply bytes_le_total.
Qed.
#[export] Instance service_le_trans : Transitive service_le.
Proof.
  intros s t u. unfold service_le.
  destruct (decide (s.1 = t.1)) as [E|E], (decide (t.1 = u.1)) as [E'|E'].
  - rewrite decide_True by congruence. lia.
  - rewrite decide_False by congruence. by rewrite E.
  - rewrite decide_False by congruence. by rewrite E'.
  - intros H1 H2. destruct (decide (s.1 = u.1)) as [E''|]; [|by etrans].
    destruct E. apply as_bytes_inj, bytes_le_antisymm; [done|by rewrite E''].
Qed.
#[export] Instance service_le_antisymm : AntiSymm (=) service_le.
Proof.
  intros [n i] [m j]. unfold service_le. cbn. intros H1 H2.
  destruct (decide (n = m)) as [->|E].
  - rewrite decide_True in H2 by done. f_equal. lia.
  - rewrite decide_False in H2 by congruence. destruct E.
    by apply as_bytes_inj, bytes_le_antisymm.
Qed.

Lemma sorted_services_unique l k : l ≡ₚ k → merge_sort service_le l = merge_sort service_le k.
Proof.
  intros Hp. eapply (StronglySorted_unique service_le).
  1, 2: apply StronglySorted_merge_sort; apply _.
  by rewrite !merge_sort_Permutation.
Qed.
Lemma sorted_channels_unique l k :
  NoDup (rc_id <$> l) → l ≡ₚ k → merge_sort channel_le l = merge_sort channel_le k.
Proof.
  intros Hd Hp. eapply (StronglySorted_unique_strong channel_le).
  2, 3: apply StronglySorted_merge_sort; apply _.
  2: by rewrite !merge_sort_Permutation.
  intros c d. rewrite !merge_sort_Permutation, <- Hp. unfold channel_le. intros Hc Hk ??.
  assert (rc_id c = rc_id d) as E by lia.
  apply list_elem_of_lookup in Hc as [i Hi], Hk as [j Hj].
  assert (i = j) as <-; [|congruence].
  eapply (NoDup_lookup (rc_id <$> l) i j (rc_id c)); [done| |]; rewrite list_lookup_fmap.
  - by rewrite Hi.
  - rewrite Hj. cbn. congruence.
Qed.

(** ** Bits of 64-bit words *)

Lemma fits_testbit w x : 0 ≤ w → fits w x ↔ 0 ≤ x ∧ ∀ i, w ≤ i → Z.testbit x i = false.
Proof.
  intros Hw. unfold fits. split.
  - intros [H0 H1]. split; [done|]. intros i Hi.
    destruct (decide (x = 0)) as [->|]; [apply Z.testbit_0_l|].
    apply Z.bits_above_log2; [done|]. assert (Z.log2 x < w); [apply Z.log2_lt_pow2; lia|lia].
  - intros [H0 H1]. split; [done|]. destruct (Z_lt_le_dec x (2 ^ w)) as [|Hge]; [done|].
    destruct (decide (x = 0)) as [->|]; [lia|].
    specialize (H1 (Z.log2 x)). rewrite Z.bit_log2 in H1 by lia.
    assert (w ≤ Z.log2 x) as Hl%H1; [|done]. apply Z.log2_le_pow2; lia.
Qed.
Lemma fits_lxor w x y : 0 ≤ w → fits w x → fits w y → fits w (Z.lxor x y).
Proof.
  intros Hw. rewrite !fits_testbit by done. intros [Hx Hx'] [Hy Hy']. split.
  - by apply Z.lxor_nonneg.
  - intros i Hi. by rewrite Z.lxor_spec, Hx', Hy'.
Qed.
Lemma testbit_rotate_left x k i :
  fits 64 x → 0 ≤ k ≤ 64 → 0 ≤ i →
  Z.testbit (rotate_left x k) i =
  (bool_decide (i < 64) && Z.testbit x (if bool_decide (i < k) then i + (64 - k) else i - k)).
Proof.
  intros Hx Hk Hi. pose proof (proj1 (fits_testbit 64 x ltac:(lia)) Hx) as [Hx0 Hx1].
  unfold rotate_left, wrap. rewrite Z.lor_spec, Z.shiftr_spec by done.
  destruct (decide (i < 64)) as [Hlt|Hge].
  - rewrite Z.mod_pow2_bits_low, Z.shiftl_spec by lia. rewrite (bool_decide_eq_true_2 (i < 64)) by done.
    cbn [andb]. destruct (decide (i < k)).
    + rewrite bool_decide_eq_true_2, (Z.testbit_neg_r _ (i - k)) by lia. done.
    + rewrite bool_decide_eq_false_2, (Hx1 (i + (64 - k))) by lia. apply orb_false_r.
  - rewrite Z.mod_pow2_bits_high, bool_decide_eq_false_2 by lia. cbn.
    destruct (decide (k = 64)) as [->|]; [|apply Hx1; lia].
    rewrite Z.sub_diag, Z.add_0_r. apply Hx1. lia.
Qed.
Lemma fits_rotate_left x k : fits 64 x → 0 ≤ k ≤ 64 → fits 64 (rotate_left x k).
Proof.
  intros Hx Hk. apply fits_testbit; [lia|]. split.
  - unfold rotate_left. apply Z.lor_nonneg. split; [apply Z.mod_pos_bound; lia|].
    apply Z.shiftr_nonneg. apply Hx.
  - intros i Hi. rewrite testbit_rotate_left by (done || lia). by rewrite bool_decide_eq_false_2 by lia.
Qed.
Lemma rotate_left_inj x y k :
  fits 64 x → fits 64 y → 0 ≤ k ≤ 64 → rotate_left x k = rotate_left y k → x = y.
Proof.
  intros Hx Hy Hk E. apply Z.bits_inj'. intros i Hi.
  pose proof (proj1 (fits_testbit 64 x ltac:(lia)) Hx) as [_ Hx1].
  pose proof (proj1 (fits_testbit 64 y ltac:(lia)) Hy) as [_ Hy1].
  destruct (decide (64 ≤ i)) as [Hi'|Hi']; [by rewrite Hx1, Hy1|].
  destruct (decide (i < 64 - k)).
  - apply (f_equal (λ z, Z.testbit z (i + k))) in E.
    rewrite !testbit_rotate_left in E by (done || lia).
    rewrite bool_decide_eq_true_2, bool_decide_eq_false_2 in E by lia. cbn in E.
    by replace (i + k - k) with i in E by lia.
  - apply (f_equal (λ z, Z.testbit z (i - (64 - k)))) in E.
    rewrite !testbit_rotate_left in E by (done || lia).
    rewrite !bool_decide_eq_true_2 in E by lia. cbn in E.
    by replace (i - (64 - k) + (64 - k)) with i in E by lia.
Qed.
Lemma lxor_inj_r x y k : Z.lxor x k = Z.lxor y k → x = y.
Proof.
  intros E. apply (f_equal (λ z, Z.lxor z k)) in E.
  by rewrite !Z.lxor_assoc, Z.lxor_nilpotent, !Z.lxor_0_r in E.
Qed.
Lemma lxor_inj_l x y k : Z.lxor k x = Z.lxor k y → x = y.
Proof. rewrite !(Z.lxor_comm k). apply lxor_inj_r. Qed.

(** The prime is odd, so the multiplication loses nothing. *)
Lemma wrapping_mul_inj x y :
  fits 64 x → fits 64 y → wrapping_mul x PRIME = wrapping_mul y PRIME → x = y.
Proof.
  intros Hx Hy E. unfold wrapping_mul, wrap in E. unfold fits in Hx, Hy.
  assert (((x - y) * PRIME) mod 2 ^ 64 = 0) as Hd.
  { rewrite Z.mul_sub_distr_r, Zminus_mod, E, Z.sub_diag. done. }
  apply Z.mod_divide in Hd; [|lia].
  rewrite Z.mul_comm in Hd. apply Z.gauss in Hd; [|by vm_compute].
  destruct Hd as [q Hq]. assert (q = 0) by nia. lia.
Qed.
Lemma fits_wrapping_mul x y : fits 64 (wrapping_mul x y).
Proof. by apply wrap_fits. Qed.
Lemma fits_byte w b : 8 ≤ w → fits w (byte_val b).
Proof.
  intros Hw. pose proof (byte_val_range b). unfold fits.
  assert (2 ^ 8 ≤ 2 ^ w) by (apply Z.pow_le_mono_r; lia). change (2 ^ 8) with 256 in *. lia.
Qed.

(** ** The hash state *)

Definition hash_ok (h : Z * Z) : Prop := fits 64 h.1 ∧ fits 64 h.2.

Lemma absorb_byte_ok h b : hash_ok (absorb_byte h b).
Proof. split; apply fits_wrapping_mul. Qed.
Lemma absorb_byte_xors_ok h b :
  hash_ok h → fits 64 (Z.lxor h.1 (byte_val b)) ∧ fits 64 (Z.lxor h.2 (rotate_left (byte_val b) 3)).
Proof.
  intros [H1 H2]. pose proof (fits_byte 64 b ltac:(lia)).
  split; apply fits_lxor; (done || lia || by apply fits_rotate_left).
Qed.
Lemma foldl_absorb_byte_ok h bs : hash_ok h → hash_ok (foldl absorb_byte h bs).
Proof. revert h. induction bs; intros h Hh; cbn; auto using absorb_byte_ok. Qed.
Lemma absorb_ok h bs : hash_ok h → hash_ok (absorb h bs).
Proof.
  intros Hh. destruct (foldl_absorb_byte_ok h bs Hh) as [H1 H2].
  assert (fits 64 (wrap 64 (Z.of_nat (length bs)))) by (by apply wrap_fits).
  split; cbn; apply fits_lxor; (done || lia || by apply fits_rotate_left).
Qed.
Lemma foldl_absorb_ok h fs : hash_ok h → hash_ok (foldl absorb h fs).
Proof. revert h. induction fs; intros h Hh; cbn; auto using absorb_ok. Qed.

(** Two states that differ in both halves keep differing. *)
Definition both_differ (h k : Z * Z) : Prop := h.1 ≠ k.1 ∧ h.2 ≠ k.2.

Lemma absorb_byte_differ h k b :
  hash_ok h → hash_ok k → both_differ h k → both_differ (absorb_byte h b) (absorb_byte k b).
Proof.
  intros Hh Hk [D1 D2].
  destruct (absorb_byte_xors_ok h b Hh), (absorb_byte_xors_ok k b Hk).
  split; cbn; intros E%wrapping_mul_inj%lxor_inj_r; done.
Qed.
Lemma foldl_absorb_byte_differ h k bs :
  hash_ok h → hash_ok k → both_differ h k →
  both_differ (foldl absorb_byte h bs) (foldl absorb_byte k bs).
Proof.
  revert h k. induction bs as [|b bs IH]; intros h k Hh Hk D; cbn; [done|].
  apply IH; auto using absorb_byte_ok, absorb_byte_differ.
Qed.
Lemma delimit_differ h k len :
  hash_ok h → hash_ok k → both_differ h k →
  both_differ (Z.lxor h.1 len, Z.lxor (rotate_left h.2 7) len)
              (Z.lxor k.1 len, Z.lxor (rotate_left k.2 7) len).
Proof.
  intros [? Hh] [? Hk] [D1 D2]. split; cbn; intros E%lxor_inj_r; [done|].
  apply rotate_left_inj in E; done || lia.
Qed.
Lemma absorb_differ h k bs :
  hash_ok h → hash_ok k → both_differ h k → both_differ (absorb h bs) (absorb k bs).
Proof.
  intros Hh Hk D. apply delimit_differ; auto using foldl_absorb_byte_ok, foldl_absorb_byte_differ.
Qed.
Lemma foldl_absorb_differ h k fs :
  hash_ok h → hash_ok k → both_differ h k → both_differ (foldl absorb h fs) (foldl absorb k fs).
Proof.
  revert h k. induction fs as [|f fs IH]; intros h k Hh Hk D; cbn; [done|].
  apply IH; auto using absorb_ok, absorb_differ.
Qed.

(** A different byte drives equal states apart. *)
Lemma absorb_byte_split h b c :
  hash_ok h → b ≠ c → both_differ (absorb_byte h b) (absorb_byte h c).
Proof.
  intros Hh Hne. destruct (absorb_byte_xors_ok h b Hh), (absorb_byte_xors_ok h c Hh).
  split; cbn; intros E%wrapping_mul_inj%lxor_inj_l; [|done|done| |done|done].
  - by apply byte_val_inj in E.
  - apply rotate_left_inj in E; [by apply byte_val_inj in E| | |lia]; apply fits_byte; lia.
Qed.
Lemma absorb_split h l b c r :
  hash_ok h → b ≠ c → both_differ (absorb h (l ++ b :: r)) (absorb h (l ++ c :: r)).
Proof.
  intros Hh Hne. unfold absorb. rewrite !length_app, !foldl_app. cbn [length foldl].
  pose proof (foldl_absorb_byte_ok h l Hh) as Hl.
  apply delimit_differ; auto using foldl_absorb_byte_ok, absorb_byte_ok.
  apply foldl_absorb_byte_differ; auto using absorb_byte_ok, absorb_byte_split.
Qed.

Lemma basis_ok : hash_ok (OFFSET_BASIS_A, OFFSET_BASIS_B).
Proof. split; by vm_compute. Qed.
Lemma catalogue_hash_ok cs ss : hash_ok (catalogue_hash cs ss).
Proof. apply foldl_absorb_ok, basis_ok. Qed.

(** ** The text *)

Definition unhex_digit (b : byte) : Z :=
  if bool_decide (byte_val b < 58) then byte_val b - 48 else byte_val b - 87.
Definition unhex_digits (l : list byte) : Z := foldl (λ z b, z * 16 + unhex_digit b) 0 l.
Definition is_hex (b : byte) : bool := in_range 48 57 b || in_range 97 102 b.

Lemma hex_digit_val z :
  byte_val (hex_digit z) = (if bool_decide (z `mod` 16 < 10) then 48 else 87) + z `mod` 16.
Proof.
  unfold hex_digit. rewrite byte_val_byte. pose proof (Z.mod_pos_bound z 16 eq_refl).
  case_bool_decide; rewrite Z.mod_small; lia.
Qed.
Lemma unhex_hex_digit z : unhex_digit (hex_digit z) = z `mod` 16.
Proof.
  unfold unhex_digit. rewrite hex_digit_val. pose proof (Z.mod_pos_bound z 16 eq_refl).
  repeat case_bool_decide; lia.
Qed.
Lemma is_hex_hex_digit z : is_hex (hex_digit z) = true.
Proof.
  unfold is_hex, in_range. rewrite !hex_digit_val. pose proof (Z.mod_pos_bound z 16 eq_refl).
  apply orb_true_iff. rewrite !bool_decide_eq_true. case_bool_decide; lia.
Qed.
Lemma unhex_hex_digits n z : unhex_digits (hex_digits n z) = z `mod` 16 ^ Z.of_nat n.
Proof.
  unfold unhex_digits. revert z. induction n as [|n IH]; intros z; cbn [hex_digits].
  - cbn. by rewrite Z.mod_1_r.
  - rewrite foldl_app, IH. cbn. rewrite unhex_hex_digit.
    rewrite Nat2Z.inj_succ, Z.pow_succ_r by lia. rewrite (Z.rem_mul_r z 16) by lia. lia.
Qed.
Lemma length_hex_digits n z : length (hex_digits n z) = n.
Proof. revert z. induction n; intros z; cbn; [done|]. rewrite length_app, IHn. cbn. lia. Qed.
Lemma is_hex_hex_digits n z : Forall (λ b, is_hex b = true) (hex_digits n z).
Proof.
  revert z. induction n; intros z; cbn; [done|].
  apply Forall_app. split; [done|]. constructor; [apply is_hex_hex_digit|done].
Qed.
Lemma hex_digits_inj x y : fits 64 x → fits 64 y → hex_digits 16 x = hex_digits 16 y → x = y.
Proof.
  intros Hx Hy E. apply (f_equal unhex_digits) in E. rewrite !unhex_hex_digits in E.
  change (16 ^ Z.of_nat 16) with (2 ^ 64) in E. unfold fits in *.
  by rewrite !Z.mod_small in E.
Qed.
#[local] Arguments hex_digits : simpl never.

Lemma token_eq cs ss ds ts :
  (compute_advertisement_token cs ss = compute_advertisement_token ds ts) ↔
  catalogue_hash cs ss = catalogue_hash ds ts.
Proof.
  unfold compute_advertisement_token.
  destruct (catalogue_hash_ok cs ss), (catalogue_hash_ok ds ts).
  destruct (catalogue_hash cs ss) as [a b], (catalogue_hash ds ts) as [c d]. cbn in *.
  split; [|by intros [= -> ->]].
  intros E. apply (f_equal as_bytes) in E. rewrite !as_of_bytes in E.
  apply app_inj_1 in E as [E1 E2]; [|by rewrite !length_hex_digits].
  apply hex_digits_inj in E1 as ->; [|done..]. by apply hex_digits_inj in E2 as ->.
Qed.

(** ** Splitting *)

Fixpoint join (sep : byte) (l : list (list byte)) : list byte :=
  match l with
  | [] => []
  | [x] => x
  | x :: l => x ++ sep :: join sep l
  end.

Lemma split_no sep l : sep ∉ l → split sep l = [l].
Proof.
  induction l as [|b l IH]; [done|]. intros [Hb Hl]%not_elem_of_cons. cbn.
  rewrite decide_False by congruence. by rewrite IH.
Qed.
Lemma split_app sep x l : sep ∉ x → split sep (x ++ sep :: l) = x :: split sep l.
Proof.
  induction x as [|b x IH]; cbn.
  - intros _. by rewrite decide_True.
  - intros [Hb Hl]%not_elem_of_cons. rewrite decide_False by congruence. by rewrite IH.
Qed.
Lemma split_join sep l :
  l ≠ [] → Forall (λ x, sep ∉ x) l → split sep (join sep l) = l.
Proof.
  induction l as [|x [|y l] IH]; [done| |].
  - intros _ [Hx _]%Forall_cons. by apply split_no.
  - intros _ [Hx Hl]%Forall_cons.
    change (join sep (x :: y :: l)) with (x ++ sep :: join sep (y :: l)).
    rewrite split_app by done. by rewrite IH.
Qed.

Lemma split_once_no sep l : sep ∉ l → split_once sep l = None.
Proof.
  induction l as [|b l IH]; [done|]. intros [Hb Hl]%not_elem_of_cons. cbn.
  rewrite decide_False by congruence. by rewrite IH.
Qed.
Lemma split_once_app sep x l : sep ∉ x → split_once sep (x ++ sep :: l) = Some (x, l).
Proof.
  induction x as [|b x IH]; cbn.
  - intros _. by rewrite decide_True.
  - intros [Hb Hl]%not_elem_of_cons. rewrite decide_False by congruence. by rewrite IH.
Qed.
Lemma split_once_Some sep l x y :
  split_once sep l = Some (x, y) → l = x ++ sep :: y ∧ sep ∉ x.
Proof.
  revert x. induction l as [|b l IH]; intros x; cbn; [done|].
  case_decide as Hb.
  - intros [= <- <-]. subst. split; [done|]. apply not_elem_of_nil.
  - destruct (split_once sep l) as [[x' y']|]; cbn; [|done].
    intros [= <- <-]. destruct (IH x' eq_refl) as [-> Hx]. split; [done|].
    apply not_elem_of_cons. split; [congruence|done].
Qed.

Lemma param_no_equals : EQUALS ∉ ADVERTISEMENT_TOKEN_PARAM.
Proof. apply (bool_decide_unpack _). by vm_compute. Qed.

(** A pair of the query offers the value [v]. *)
Definition offers (pair : list byte) (v : string) : Prop :=
  pair = ADVERTISEMENT_TOKEN_PARAM ∧ v = ""%string ∨
  pair = ADVERTISEMENT_TOKEN_PARAM ++ EQUALS :: as_bytes v.

Lemma token_of_pair_Some pair v : token_of_pair pair = Some v ↔ offers pair v.
Proof.
  unfold token_of_pair, offers. destruct (split_once EQUALS pair) as [[k x]|] eqn:E; cbn.
  - pose proof (split_once_Some _ _ _ _ E) as [-> Hk]. case_decide as Hp.
    + subst k. split.
      * intros [= <-]. right. by rewrite as_of_bytes.
      * intros [[E' _]|E'].
        -- destruct param_no_equals. rewrite <- E'. set_solver.
        -- apply app_inj_1 in E' as [_ [= ->]]; [|done]. by rewrite of_as_bytes.
    + split; [done|]. intros [[E' _]|E'].
      * destruct param_no_equals. rewrite <- E'. set_solver.
      * rewrite E' in E. rewrite split_once_app in E by apply param_no_equals. congruence.
  - case_decide as Hp.
    + subst pair. split; [intros [= <-]; by left|]. intros [[_ ->]|E']; [done|].
      apply (f_equal length) in E'. rewrite length_app in E'. cbn in E'. lia.
    + split; [done|]. intros [[E' _]|E']; [done|]. rewrite E' in E.
      by rewrite split_once_app in E by apply param_no_equals.
Qed.

Lemma find_map_Some {A B} (f : A → option B) l y :
  find_map f l = Some y ↔
  ∃ l1 x l2, l = l1 ++ x :: l2 ∧ f x = Some y ∧ Forall (λ z, f z = None) l1.
Proof.
  induction l as [|x l IH]; cbn.
  - split; [done|]. by intros ([|] & ? & ? & ? & _).
  - destruct (f x) as [y'|] eqn:E.
    + split; [intros [= ->]; by exists [], x, l|].
      intros ([|z l1] & x' & l2 & [= -> ->] & Hx & Hl); [congruence|].
      apply Forall_cons in Hl as [? _]. congruence.
    + rewrite IH. split.
      * intros (l1 & x' & l2 & -> & ? & ?). exists (x :: l1), x', l2. split_and!; [done|done|by constructor].
      * intros ([|z l1] & x' & l2 & [= -> ->] & Hx & Hl); [congruence|].
        apply Forall_cons in Hl as [? ?]. eauto 10.
Qed.

(** ** Properties *)

(** The token fingerprints a set.  The channels come from a hash map, or
    from the snapshot of another, and the services too, so neither list has a
    fixed order; with unique channel ids, any two enumerations of the same
    channels and the same services give the same token.  This is what lets the
    token pushed to a client match the one computed when it reconnects. *)
Theorem token_order_independent (cs ds : list RawChannel) (ss ts : list (string * Z)) :
  NoDup (rc_id <$> cs) → cs ≡ₚ ds → ss ≡ₚ ts →
  compute_advertisement_token cs ss = compute_advertisement_token ds ts.
Proof.
  intros Hd Hc Hs. apply token_eq. unfold catalogue_hash, catalogue_fields.
  by rewrite (sorted_channels_unique cs ds), (sorted_services_unique ss ts).
Qed.

Definition demo_rc (id : Z) (topic : string) : RawChannel :=
  {| rc_descriptor := {| cd_id := id; cd_topic := topic; cd_message_encoding := "json";
     cd_metadata := ∅; cd_schema := None |} |}.
Lemma token_order_independent_witness :
  compute_advertisement_token [demo_rc 2 "/b"; demo_rc 1 "/a"] [("s", 4); ("r", 3)] =
  compute_advertisement_token [demo_rc 1 "/a"; demo_rc 2 "/b"] [("r", 3); ("s", 4)].
Proof.
  apply (token_order_independent [demo_rc 2 "/b"; demo_rc 1 "/a"] [demo_rc 1 "/a"; demo_rc 2 "/b"]
    [("s", 4); ("r", 3)] [("r", 3); ("s", 4)]).
  - apply (bool_decide_unpack _). by vm_compute.
  - apply Permutation_swap.
  - apply Permutation_swap.
Defined.

(** A change of one byte is always noticed.  If the byte strings that two
    catalogues feed to the hash differ in a single byte of a single field (one
    character of a topic, of an encoding or of a schema, one byte of an id),
    then their tokens differ, whatever comes before and after: every step of
    both hashes, the length delimiters included, is a bijection of 64-bit
    words. *)
Theorem token_single_byte_change (cs ds : list RawChannel) (ss ts : list (string * Z))
    (before after : list (list byte)) (l r : list byte) (b c : byte) :
  catalogue_fields cs ss = before ++ [l ++ b :: r] ++ after →
  catalogue_fields ds ts = before ++ [l ++ c :: r] ++ after →
  b ≠ c →
  compute_advertisement_token cs ss ≠ compute_advertisement_token ds ts.
Proof.
  intros Hcs Hds Hne E%token_eq. unfold catalogue_hash in E.
  rewrite Hcs, Hds, !foldl_app in E. cbn [foldl] in E.
  pose proof (foldl_absorb_ok _ before basis_ok) as Hb.
  destruct (foldl_absorb_differ _ _ after (absorb_ok _ (l ++ b :: r) Hb)
    (absorb_ok _ (l ++ c :: r) Hb) (absorb_split _ l b c r Hb Hne)) as [D _].
  by rewrite E in D.
Qed.

Lemma token_single_byte_change_witness :
  compute_advertisement_token [demo_rc 1 "/a"] [] ≠ compute_advertisement_token [demo_rc 1 "/b"] [].
Proof.
  apply (token_single_byte_change [demo_rc 1 "/a"] [demo_rc 1 "/b"] [] []
    [le_bytes 8 1] [as_bytes "json"] [Byte.x2f] [] Byte.x61 Byte.x62);
    [reflexivity|reflexivity|discriminate].
Defined.

(** The text of a token: 32 lower-case hexadecimal digits, the first
    sixteen and the last sixteen spelling the two 64-bit hashes, so two tokens
    are the same text exactly when both hashes agree; and a token survives the
    trip through the query string of the next connection: offered as a query
    parameter after any parameters of other names, and before anything, it is
    parsed back unchanged. *)
Theorem token_text (cs : list RawChannel) (ss : list (string * Z)) :
  (let text := as_bytes (compute_advertisement_token cs ss) in
   length text = 32%nat ∧ Forall (λ b, is_hex b = true) text ∧
   unhex_digits (take 16 text) = (catalogue_hash cs ss).1 ∧
   unhex_digits (drop 16 text) = (catalogue_hash cs ss).2) ∧
  (∀ before after,
    Forall (λ x, (AMP ∉ x) ∧ ∀ v, ¬ offers x v) before → Forall (λ x, AMP ∉ x) after →
    parse_advertisement_token (Some (of_bytes (join AMP (before ++
      [ADVERTISEMENT_TOKEN_PARAM ++ EQUALS :: as_bytes (compute_advertisement_token cs ss)] ++ after))))
    = Some (compute_advertisement_token cs ss)).
Proof.
  assert (Forall (λ b, is_hex b = true) (as_bytes (compute_advertisement_token cs ss))) as Hhex.
  { unfold compute_advertisement_token. destruct (catalogue_hash cs ss).
    rewrite as_of_bytes. apply Forall_app. split; apply is_hex_hex_digits. }
  split.
  - split_and!; [|exact Hhex| |]; unfold compute_advertisement_token;
      destruct (catalogue_hash_ok cs ss) as [H1 H2]; destruct (catalogue_hash cs ss) as [a b];
      cbn [fst snd] in *; rewrite as_of_bytes.
    + by rewrite length_app, !length_hex_digits.
    + rewrite take_app_length' by (by rewrite length_hex_digits). rewrite unhex_hex_digits.
      change (16 ^ Z.of_nat 16) with (2 ^ 64). by apply Z.mod_small.
    + rewrite drop_app_length' by (by rewrite length_hex_digits). rewrite unhex_hex_digits.
      change (16 ^ Z.of_nat 16) with (2 ^ 64). by apply Z.mod_small.
  - intros before after Hb Ha. unfold parse_advertisement_token. cbn [mbind option_bind].
    rewrite as_of_bytes, split_join; [| by destruct before |].
    + apply find_map_Some. eexists _, _, _. split; [done|]. split.
      * apply token_of_pair_Some. by right.
      * eapply Forall_impl; [exact Hb|]. intros x [_ Hx]. cbn.
        destruct (token_of_pair x) as [v|] eqn:E; [|done]. by apply token_of_pair_Some, Hx in E.
    + apply Forall_app. split; [eapply Forall_impl; [exact Hb|]; by intros x [? _]|].
      constructor; [|done]. rewrite elem_of_app, elem_of_cons. intros [Hin|[Heq|Hin]]; [|done|].
      * revert Hin. apply (bool_decide_unpack _). by vm_compute.
      * rewrite Forall_forall in Hhex. by apply Hhex in Hin.
Qed.

Lemma token_text_witness :
  parse_advertisement_token (Some (of_bytes (join AMP ([as_bytes "foo=1"] ++
    [ADVERTISEMENT_TOKEN_PARAM ++ EQUALS ::
      as_bytes (compute_advertisement_token [demo_rc 1 "/a"] [])] ++ [as_bytes "bar=2"])))) =
  Some (compute_advertisement_token [demo_rc 1 "/a"] []).
Proof.
  apply (proj2 (token_text [demo_rc 1 "/a"] [])).
  - constructor; [|constructor]. split.
    + apply (bool_decide_unpack _). by vm_compute.
    + intros v Hv%token_of_pair_Some. vm_compute in Hv. discriminate.
  - constructor; [|constructor]. apply (bool_decide_unpack _). by vm_compute.
Defined.

(** What the server makes of the query string of a connection.  No token is
    offered exactly when no parameter is called "advertisement_token";
    otherwise the first parameter of that name decides, with the empty value
    whether it is written with or without an equals sign, so that presence
    alone opts the client in. *)
Theorem parse_advertisement_token_spec (pairs : list (list byte)) (v : string) :
  pairs ≠ [] → Forall (λ x, AMP ∉ x) pairs →
  ((parse_advertisement_token (Some (of_bytes (join AMP pairs))) = Some v) ↔
    ∃ before pair after, pairs = before ++ pair :: after ∧ offers pair v ∧
      Forall (λ x, ∀ u, ¬ offers x u) before) ∧
  ((parse_advertisement_token (Some (of_bytes (join AMP pairs))) = None) ↔
    Forall (λ x, ∀ u, ¬ offers x u) pairs).
Proof.
  intros Hne Hp. unfold parse_advertisement_token. cbn [mbind option_bind].
  rewrite as_of_bytes, split_join by done.
  assert (Hnone : ∀ l, Forall (λ z, token_of_pair z = None) l ↔ Forall (λ x, ∀ u, ¬ offers x u) l).
  { intros l. apply Forall_iff. intros x. split.
    - intros E u. by rewrite <- token_of_pair_Some, E.
    - intros Hx. destruct (token_of_pair x) eqn:E; [|done]. by apply token_of_pair_Some, Hx in E. }
  split.
  - rewrite find_map_Some. by setoid_rewrite token_of_pair_Some; setoid_rewrite Hnone.
  - rewrite <- Hnone. clear. induction pairs as [|x l IH]; cbn; [split; auto|].
    rewrite Forall_cons, <- IH. destruct (token_of_pair x); naive_solver.
Qed.

Lemma parse_advertisement_token_spec_witness :
  parse_advertisement_token (Some (of_bytes (join AMP [as_bytes "a=b"; as_bytes "advertisement_token"])))
  = Some ""%string.
Proof.
  apply (proj1 (parse_advertisement_token_spec [as_bytes "a=b"; as_bytes "advertisement_token"] ""
    ltac:(discriminate) ltac:(repeat constructor; apply (bool_decide_unpack _); by vm_compute))).
  eexists [as_bytes "a=b"], _, []. split; [reflexivity|]. split; [by left|].
  constructor; [|constructor]. intros v Hv%token_of_pair_Some. vm_compute in Hv. discriminate.
Defined.
