(* ===== verification/Outbox.v ===== *)
(** * Outbox: the bounded message queues of a client

    `websocket/connected_client/send_lossy.rs`, and the interface of the flume
    crate's bounded channels, through which a client's data plane and control
    plane reach its poller.  Flume is external: its operations are parameters
    ([Flume]) and the code relies on their documented behaviour
    ([FlumeLaws]); [flume_ref] is a concrete instance.

    A channel of capacity zero (a rendezvous) is outside the laws: the server
    makes its queues of the configured backlog size, 1024 by default. *)

From S2P Require Import Prelude Bytes Messages Wire.

(** ** The flume crate *)

Inductive TrySend := SendOk | SendFull (msg : Message) | SendDisconnected (msg : Message).

(** [fl_queue], [fl_capacity] and [fl_disconnected] observe a channel: the
    messages in it, its bound, and whether every receiver is gone. *)
Class Flume := {
  fl_chan : Type;
  fl_bounded : nat → fl_chan;
  fl_try_send : Message → fl_chan → TrySend * fl_chan;
  fl_try_recv : fl_chan → option Message * fl_chan;
  fl_drop_receivers : fl_chan → fl_chan;
  fl_queue : fl_chan → list Message;
  fl_capacity : fl_chan → nat;
  fl_disconnected : fl_chan → bool
}.

Section observe.
Context `{Flume}.
Definition same_ends (c d : fl_chan) : Prop :=
  fl_capacity d = fl_capacity c ∧ fl_disconnected d = fl_disconnected c.
Definition room (c : fl_chan) : Prop := (length (fl_queue c) < fl_capacity c)%nat.
#[export] Instance room_dec c : Decision (room c).
Proof. unfold room. apply _. Defined.
End observe.

Class FlumeLaws `{Flume} : Prop := {
  fl_bounded_spec : ∀ n, fl_queue (fl_bounded n) = [] ∧ fl_capacity (fl_bounded n) = n ∧
    fl_disconnected (fl_bounded n) = false;
  fl_try_send_disconnected : ∀ m c, fl_disconnected c = true →
    fl_try_send m c = (SendDisconnected m, c);
  fl_try_send_full : ∀ m c, fl_disconnected c = false → 0 < fl_capacity c → ¬ room c →
    fl_try_send m c = (SendFull m, c);
  fl_try_send_ok : ∀ m c, fl_disconnected c = false → room c →
    ∃ d, fl_try_send m c = (SendOk, d) ∧ fl_queue d = fl_queue c ++ [m] ∧ same_ends c d;
  fl_try_recv_spec : ∀ c, ∃ d, fl_try_recv c = (head (fl_queue c), d) ∧
    fl_queue d = tail (fl_queue c) ∧ same_ends c d;
  fl_drop_receivers_spec : ∀ c, fl_disconnected (fl_drop_receivers c) = true
}.

(** A concrete channel, for the witnesses. *)
Record ref_chan := { rch_queue : list Message; rch_cap : nat; rch_dis : bool }.
#[export] Instance flume_ref : Flume := {|
  fl_chan := ref_chan;
  fl_bounded n := {| rch_queue := []; rch_cap := n; rch_dis := false |};
  fl_try_send m c :=
    if rch_dis c then (SendDisconnected m, c)
    else if decide (length (rch_queue c) < rch_cap c)%nat then
      (SendOk, {| rch_queue := rch_queue c ++ [m]; rch_cap := rch_cap c; rch_dis := false |})
    else (SendFull m, c);
  fl_try_recv c := (head (rch_queue c),
    {| rch_queue := tail (rch_queue c); rch_cap := rch_cap c; rch_dis := rch_dis c |});
  fl_drop_receivers c :=
    {| rch_queue := rch_queue c; rch_cap := rch_cap c; rch_dis := true |};
  fl_queue := rch_queue; fl_capacity := rch_cap; fl_disconnected := rch_dis
|}.
#[export] Instance flume_ref_laws : FlumeLaws.
Proof.
  split; unfold room, same_ends; cbn.
  - done.
  - by intros m c ->.
  - intros m c -> _ Hr. by rewrite decide_False.
  - intros m c -> Hr. rewrite decide_True by done. by eexists.
  - intros c. by eexists.
  - done.
Qed.

(** ** [send_lossy] *)

Inductive SendLossyResult := Sent | SentLossy (dropped : nat) | ExhaustedRetries.

Section send_lossy.
Context `{HF : Flume}.

(** The loop.  [budget] is [retries - dropped], so [dropped >= retries] is
    [budget = 0].  [env n] is what the other users of the channel (loggers on
    other threads, the poller) do to it before the attempt after [n] drops, and
    [gap n] what they do between a failed attempt and the [try_recv] that follows.
    The list is what these calls of [try_recv] returned, which the code discards.
    [Panic] is the [unreachable!] of a disconnected channel. *)
Fixpoint send_lossy_loop (env gap : nat → fl_chan → fl_chan) (message : Message)
    (budget dropped : nat) (c : fl_chan) :
    result string (SendLossyResult * list (option Message) * fl_chan) :=
  match fl_try_send message (env dropped c) with
  | (SendOk, c) => Ok (match dropped with O => Sent | _ => SentLossy dropped end, [], c)
  | (SendDisconnected _, _) => Panic
  | (SendFull rejected, c) =>
    match budget with
    | O => Ok (ExhaustedRetries, [], c)
    | S budget =>
      let '(received, c) := fl_try_recv (gap dropped c) in
      '(r, l, c) ← send_lossy_loop env gap rejected budget (S dropped) c;
      Ok (r, received :: l, c)
    end
  end.
Definition send_lossy_env (env gap : nat → fl_chan → fl_chan) (message : Message) (retries : nat)
    (c : fl_chan) : result string (SendLossyResult * list (option Message) * fl_chan) :=
  send_lossy_loop env gap message retries 0 c.

(** Without interference. *)
Definition send_lossy (message : Message) (retries : nat) (c : fl_chan) :
    result string (SendLossyResult * fl_chan) :=
  '(r, _, c) ← send_lossy_env (λ _ c, c) (λ _ c, c) message retries c; Ok (r, c).

(** A usable queue: its receiver is alive and it is not a rendezvous. *)
Definition live (c : fl_chan) : Prop := fl_disconnected c = false ∧ 0 < fl_capacity c.

Lemma same_ends_live c d : same_ends c d → live c → live d.
Proof. intros [E1 E2] [? ?]. split; congruence. Qed.

Lemma try_send_cases `{!FlumeLaws} m c :
  live c →
  (room c ∧ ∃ d, fl_try_send m c = (SendOk, d) ∧ fl_queue d = fl_queue c ++ [m] ∧ same_ends c d) ∨
  (¬ room c ∧ fl_try_send m c = (SendFull m, c)).
Proof.
  intros [Hd Hc]. destruct (decide (room c)) as [Hr|Hr].
  - left. split; [done|]. by apply fl_try_send_ok.
  - right. split; [done|]. by apply fl_try_send_full.
Qed.

Lemma omap_id_length {A} (l : list (option A)) :
  length (omap id l) ≤ length l ∧ (None ∉ l → length (omap id l) = length l).
Proof.
  induction l as [|[x|] l [IH1 IH2]]; cbn; [done| |].
  - split; [lia|]. intros [_ Hn]%not_elem_of_cons. by rewrite IH2.
  - split; [lia|]. intros Hn. exfalso. apply Hn. left.
Qed.

Lemma send_lossy_loop_ok `{!FlumeLaws} env gap m budget dropped c :
  (∀ n c, live c → live (env n c)) → (∀ n c, live c → live (gap n c)) → live c →
  ∃ r l d, send_lossy_loop env gap m budget dropped c = Ok (r, l, d) ∧ live d ∧ length l ≤ budget ∧
    ((∀ n c, fl_queue c ≠ [] → fl_queue (gap n c) ≠ []) → None ∉ l) ∧
    match r with
    | Sent => dropped = 0 ∧ l = [] ∧ last (fl_queue d) = Some m
    | SentLossy n => 0 < n ∧ n = dropped + length l ∧ last (fl_queue d) = Some m
    | ExhaustedRetries => length l = budget ∧ ¬ room d
    end.
Proof.
  intros Henv Hgap. revert dropped c. induction budget as [|budget IH]; intros dropped c Hc;
    cbn [send_lossy_loop]; pose proof (Henv dropped c Hc) as Hl;
    destruct (try_send_cases m _ Hl) as [(Hr & d & E & Eq & Hs)|[Hr E]]; rewrite E.
  1, 3: eexists _, [], d; split_and!;
    [done|by eapply same_ends_live|cbn; lia|intros _; apply not_elem_of_nil|];
    rewrite Eq, last_snoc; destruct dropped; cbn; auto with lia.
  - eexists _, [], _. split_and!; [done|done|done|intros _; apply not_elem_of_nil|by split].
  - pose proof (Hgap dropped _ Hl) as Hg. set (c1 := gap dropped (env dropped c)) in *.
    destruct (fl_try_recv_spec c1) as (d & -> & _ & Hs).
    destruct (IH (S dropped) d) as (r & l & d' & -> & Hd' & Hlen & Hn & Hr'); [by eapply same_ends_live|].
    exists r, (head (fl_queue c1) :: l), d'. split_and!; [done|done|cbn; lia| |].
    + intros Hq. apply not_elem_of_cons. split; [|by apply Hn].
      assert (fl_queue c1 ≠ []) as Hne.
      { apply Hq. intros Hnil. apply Hr. unfold room. rewrite Hnil. cbn. apply Hl. }
      by destruct (fl_queue c1).
    + destruct r as [|n|]; cbn [length]; [naive_solver lia| |naive_solver lia].
      destruct Hr' as (? & ? & ?). split_and!; (done || lia).
Qed.

Lemma send_lossy_cases `{!FlumeLaws} m retries c :
  live c → length (fl_queue c) ≤ fl_capacity c →
  ∃ r d, send_lossy m retries c = Ok (r, d) ∧ same_ends c d ∧
    length (fl_queue d) ≤ fl_capacity d ∧
    ((room c ∧ r = Sent ∧ fl_queue d = fl_queue c ++ [m]) ∨
     (¬ room c ∧ 0 < retries ∧ r = SentLossy 1 ∧ fl_queue d = tail (fl_queue c) ++ [m]) ∨
     (¬ room c ∧ retries = 0 ∧ r = ExhaustedRetries ∧ fl_queue d = fl_queue c)).
Proof.
  intros Hc Hlen. unfold send_lossy, send_lossy_env.
  destruct retries as [|retries]; cbn [send_lossy_loop];
    destruct (try_send_cases m c Hc) as [(Hr & d & E & Eq & Hs)|[Hr E]]; rewrite E.
  - exists Sent, d. split_and!; [done|done| |auto]. rewrite Eq, length_app. cbn.
    unfold room in Hr. destruct Hs as [-> _]. lia.
  - exists ExhaustedRetries, c. split_and!; [done|done|done|]. right. by right.
  - exists Sent, d. split_and!; [done|done| |auto]. rewrite Eq, length_app. cbn.
    unfold room in Hr. destruct Hs as [-> _]. lia.
  - destruct (fl_try_recv_spec c) as (d & -> & Hq & Hs).
    pose proof (same_ends_live _ _ Hs Hc) as Hd.
    assert (length (fl_queue d) < fl_capacity d) as Hrd.
    { rewrite Hq. destruct Hs as [-> _], Hc as [_ Hcap]. unfold room in Hr.
      destruct (fl_queue c); cbn in *; lia. }
    destruct (fl_try_send_ok m d (proj1 Hd) Hrd) as (e & Ee & Eq & Hs').
    destruct retries as [|retries]; cbn [send_lossy_loop]; rewrite Ee; cbn [mbind];
      exists (SentLossy 1), e; split_and!; [done| | |right; left|done| | |right; left].
    all: try (destruct Hs, Hs'; split; congruence).
    all: try (rewrite Eq, length_app; destruct Hs' as [-> _]; cbn; lia).
    all: rewrite Eq, Hq; split_and!; (done || lia).
Qed.
End send_lossy.

(** ** Properties *)

(** [send_lossy] on an undisturbed queue that is not over its bound.  With
    room, the message is appended and nothing is lost; without room, exactly
    the oldest message is dropped to make room, provided at least one retry is
    allowed; with no retry, the message is given up and the queue is left as
    it was.  The queue never exceeds its bound. *)
Theorem send_lossy_spec `{FlumeLaws} (m : Message) (retries : nat) (c : fl_chan) :
  live c → length (fl_queue c) ≤ fl_capacity c →
  ∃ r d, send_lossy m retries c = Ok (r, d) ∧ same_ends c d ∧
    length (fl_queue d) ≤ fl_capacity d ∧
    ((room c ∧ r = Sent ∧ fl_queue d = fl_queue c ++ [m]) ∨
     (¬ room c ∧ 0 < retries ∧ r = SentLossy 1 ∧ fl_queue d = tail (fl_queue c) ++ [m]) ∨
     (¬ room c ∧ retries = 0 ∧ r = ExhaustedRetries ∧ fl_queue d = fl_queue c)).
Proof. apply send_lossy_cases. Qed.

Definition demo_chan (l : list Message) (n : nat) : fl_chan (Flume := flume_ref) :=
  {| rch_queue := l; rch_cap := n; rch_dis := false |}.
Lemma send_lossy_spec_witness :
  live (demo_chan [MText "a"; MText "b"] 2) ∧
  ∃ r d, send_lossy (MText "c") 10 (demo_chan [MText "a"; MText "b"] 2) = Ok (r, d) ∧
    same_ends (demo_chan [MText "a"; MText "b"] 2) d ∧
    length (fl_queue d) ≤ fl_capacity d ∧
    ((room (demo_chan [MText "a"; MText "b"] 2) ∧ r = Sent ∧ fl_queue d = [MText "a"; MText "b"; MText "c"]) ∨
     (¬ room (demo_chan [MText "a"; MText "b"] 2) ∧ 0 < 10 ∧ r = SentLossy 1 ∧
        fl_queue d = [MText "b"; MText "c"]) ∨
     (¬ room (demo_chan [MText "a"; MText "b"] 2) ∧ 10 = 0 ∧ r = ExhaustedRetries ∧
        fl_queue d = [MText "a"; MText "b"])).
Proof.
  split; [split; cbn; [done|lia]|].
  apply (send_lossy_spec (MText "c") 10 (demo_chan [MText "a"; MText "b"] 2)).
  - split; cbn; [done|lia].
  - cbn. lia.
Defined.

(** C28: [send_lossy] under interference.  Whatever other users of the channel do
    before its attempts and between a failed attempt and the [try_recv] after it, as
    long as the receiver it holds keeps the channel alive, it terminates without
    reaching its [unreachable!].  The reported number is that of its calls of
    [try_recv], at most [retries]; at most so many messages were dropped, and exactly
    so many if nobody drains the queue in such a gap.  [Sent] has dropped nothing, when
    the message is reported sent it is the last of the queue, and the retries are
    exhausted only after all of them, by a full queue. *)
Theorem send_lossy_interference `{FlumeLaws} (env gap : nat → fl_chan → fl_chan) (m : Message)
    (retries : nat) (c : fl_chan) :
  (∀ n c, live c → live (env n c)) → (∀ n c, live c → live (gap n c)) → live c →
  ∃ r received d, send_lossy_env env gap m retries c = Ok (r, received, d) ∧ live d ∧
    let lost := omap id received in
    length lost ≤ length received ≤ retries ∧
    ((∀ n c, fl_queue c ≠ [] → fl_queue (gap n c) ≠ []) → length lost = length received) ∧
    match r with
    | Sent => received = [] ∧ last (fl_queue d) = Some m
    | SentLossy n => 0 < n ∧ n = length received ∧ last (fl_queue d) = Some m
    | ExhaustedRetries => length received = retries ∧ ¬ room d
    end.
Proof.
  intros Henv Hgap Hc.
  destruct (send_lossy_loop_ok env gap m retries 0 c Henv Hgap Hc) as (r & l & d & E & Hd & Hl & Hn & Hr).
  destruct (omap_id_length l) as [Hle Heq].
  exists r, l, d. split; [exact E|]. split; [exact Hd|]. split; [by split|]. split; [auto|].
  by destruct r; naive_solver lia.
Qed.

(** Another thread that refills the queue before every attempt, and a poller that takes
    everything in the gap. *)
Definition refill (n : nat) (c : fl_chan (Flume := flume_ref)) : fl_chan (Flume := flume_ref) :=
  {| rch_queue := repeat MClose (rch_cap c); rch_cap := rch_cap c; rch_dis := rch_dis c |}.
Definition drain (n : nat) (c : fl_chan (Flume := flume_ref)) : fl_chan (Flume := flume_ref) :=
  {| rch_queue := []; rch_cap := rch_cap c; rch_dis := rch_dis c |}.
Lemma send_lossy_interference_witness :
  send_lossy_env refill (λ _ c, c) (MText "x") 3 (demo_chan [] 2) =
    Ok (ExhaustedRetries, [Some MClose; Some MClose; Some MClose], demo_chan [MClose; MClose] 2) ∧
  ∃ r received d, send_lossy_env refill (λ _ c, c) (MText "x") 3 (demo_chan [] 2) = Ok (r, received, d) ∧
    length (omap id received) = length received.
Proof.
  split; [reflexivity|].
  destruct (send_lossy_interference refill (λ _ c, c) (MText "x") 3 (demo_chan [] 2))
    as (r & received & d & E & _ & _ & Hlost & _).
  - intros n c [? ?]. by split.
  - done.
  - split; cbn; [done|lia].
  - exists r, received, d. split; [exact E|]. by apply Hlost.
Defined.

(** One drop is reported and nothing was dropped: the poller has drained the queue in
    the gap. *)
Example send_lossy_untruthful :
  send_lossy_env (λ _ c, c) drain (MText "x") 3 (demo_chan [MClose] 1) =
    Ok (SentLossy 1, [None], demo_chan [MText "x"] 1).
Proof. reflexivity. Qed.
