(* ===== verification/Client.v ===== *)
(** * Client: one connected client session

    `websocket/connected_client.rs`: the state of a [ConnectedClient] and the
    operations that touch only that state: its queues, its [Sink] callbacks
    (`log`, `add_channels`, `remove_channel`), the advertisement-token pushes,
    the loops of `on_subscribe` and `on_unadvertise` that prune a list with
    [swap_remove], and what the poller (`connected_client/poller.rs`) sends.
    The message handlers, which also use the server and the context, are in
    Session.v.

    The subscriptions are kept in a [BiHashMap] of the bimap crate, which is
    external: its operations are the parameter [BiMap] with the documented laws
    [BiMapLaws]; [bimap_ref] is a concrete instance.  Locks, atomics and weak
    pointers are not represented: a handler runs to its end before the next
    one, and the server and the context outlive their clients. *)

From stdpp Require Export pretty.
From S2P Require Import Prelude Bytes Messages Wire ConnectionGraph Channel Advertise Token.
From S2P Require Import Outbox.
Local Open Scope Z_scope.

(** ** The bimap crate *)

(** [bm_pairs] observes the map from left to right values. *)
Class BiMap := {
  bm : Type;
  bm_default : bm;
  bm_get_by_left : Z → bm → option Z;
  bm_contains_left : Z → bm → bool;
  bm_contains_right : Z → bm → bool;
  bm_insert_no_overwrite : Z → Z → bm → bool * bm;  (* [true] for [Ok] *)
  bm_remove_by_right : Z → bm → option (Z * Z) * bm;
  bm_left_values : bm → list Z;
  bm_pairs : bm → gmap Z Z
}.
Class BiMapLaws `{BiMap} : Prop := {
  bm_default_spec : bm_pairs bm_default = ∅;
  bm_inj : ∀ b l l' r, bm_pairs b !! l = Some r → bm_pairs b !! l' = Some r → l = l';
  bm_get_by_left_spec : ∀ l b, bm_get_by_left l b = bm_pairs b !! l;
  bm_contains_left_spec : ∀ l b, bm_contains_left l b = true ↔ is_Some (bm_pairs b !! l);
  bm_contains_right_spec : ∀ r b,
    bm_contains_right r b = true ↔ ∃ l, bm_pairs b !! l = Some r;
  bm_insert_free : ∀ l r b, bm_pairs b !! l = None → (∀ l', bm_pairs b !! l' ≠ Some r) →
    ∃ b', bm_insert_no_overwrite l r b = (true, b') ∧ bm_pairs b' = <[l := r]> (bm_pairs b);
  bm_insert_taken : ∀ l r b, is_Some (bm_pairs b !! l) ∨ (∃ l', bm_pairs b !! l' = Some r) →
    bm_insert_no_overwrite l r b = (false, b);
  bm_remove_present : ∀ l r b, bm_pairs b !! l = Some r →
    ∃ b', bm_remove_by_right r b = (Some (l, r), b') ∧ bm_pairs b' = delete l (bm_pairs b);
  bm_remove_absent : ∀ r b, (∀ l, bm_pairs b !! l ≠ Some r) → bm_remove_by_right r b = (None, b);
  bm_left_values_spec : ∀ b, bm_left_values b ≡ₚ (map_to_list (bm_pairs b)).*1
}.

Lemma bm_insert_cases `{BiMapLaws} l r b :
  (bm_pairs b !! l = None ∧ (∀ l', bm_pairs b !! l' ≠ Some r) ∧
    ∃ b', bm_insert_no_overwrite l r b = (true, b') ∧ bm_pairs b' = <[l := r]> (bm_pairs b)) ∨
  ((is_Some (bm_pairs b !! l) ∨ ∃ l', bm_pairs b !! l' = Some r) ∧
    bm_insert_no_overwrite l r b = (false, b)).
Proof.
  pose proof (bm_contains_left_spec l b) as Hl. pose proof (bm_contains_right_spec r b) as Hr.
  destruct (bm_contains_left l b), (bm_contains_right r b).
  1-3: right; split; [tauto|]; apply bm_insert_taken; tauto.
  left. assert (bm_pairs b !! l = None) as Hn.
  { apply eq_None_not_Some. intros Hs. by apply Hl in Hs. }
  assert (∀ l', bm_pairs b !! l' ≠ Some r) as Hn'.
  { intros l' Hs. enough (false = true) by done. apply Hr. eauto. }
  split_and!; [done|done|]. by apply bm_insert_free.
Qed.

(** A concrete bidirectional map, for the witnesses. *)
Definition inj_map (m : gmap Z Z) : bool := bool_decide (NoDup (map_to_list m).*2).
Definition right_taken (r : Z) (m : gmap Z Z) : bool := bool_decide (r ∈ (map_to_list m).*2).
Definition left_of (r : Z) (m : gmap Z Z) : option Z :=
  fst <$> find (λ p : Z * Z, bool_decide (p.2 = r)) (map_to_list m).

Lemma right_taken_spec r m : right_taken r m = true ↔ ∃ l, m !! l = Some r.
Proof.
  unfold right_taken. rewrite bool_decide_eq_true, list_elem_of_fmap. split.
  - intros ([l r'] & -> & H%elem_of_map_to_list). eauto.
  - intros [l Hl]. exists (l, r). by rewrite elem_of_map_to_list.
Qed.
Lemma inj_map_spec m :
  inj_map m = true ↔ ∀ l l' r, m !! l = Some r → m !! l' = Some r → l = l'.
Proof.
  unfold inj_map. rewrite bool_decide_eq_true. split.
  - intros Hd l l' r Hl Hl'.
    rewrite <- elem_of_map_to_list in Hl, Hl'.
    apply list_elem_of_lookup in Hl as [i Hi], Hl' as [j Hj].
    assert (i = j) as <-; [|congruence].
    eapply NoDup_lookup; [exact Hd| |]; rewrite list_lookup_fmap; [by rewrite Hi|by rewrite Hj].
  - intros Hi. apply NoDup_fmap_2_strong; [|apply NoDup_map_to_list].
    intros [l r] [l' r'] H H'. cbn. intros ->. f_equal.
    apply elem_of_map_to_list in H, H'. eauto.
Qed.
Lemma left_of_spec r m l :
  (∀ l l' r, m !! l = Some r → m !! l' = Some r → l = l') →
  (left_of r m = Some l) ↔ m !! l = Some r.
Proof.
  intros Hinj. unfold left_of.
  destruct (find (λ p : Z * Z, bool_decide (p.2 = r)) (map_to_list m)) as [[l' r']|] eqn:E; cbn.
  - apply find_some in E as [Hin Hb]. apply list_elem_of_In, elem_of_map_to_list in Hin.
    apply bool_decide_eq_true in Hb. cbn in Hb. subst r'. split; [by intros [= <-]|].
    intros Hl. f_equal. eauto.
  - split; [done|]. intros Hl.
    eapply find_none in E; [|apply list_elem_of_In, elem_of_map_to_list, Hl].
    cbn in E. by apply bool_decide_eq_false in E.
Qed.

Definition ref_bm : Type := { m : gmap Z Z | inj_map m = true }.
Lemma inj_map_empty : inj_map ∅ = true.
Proof. apply inj_map_spec. intros l l' r. by rewrite lookup_empty. Qed.
Lemma inj_map_insert l r m :
  inj_map m = true → right_taken r m = false → inj_map (<[l := r]> m) = true.
Proof.
  rewrite !inj_map_spec. intros Hm Hr a b v.
  assert (∀ l', m !! l' ≠ Some r) as Hno.
  { intros l' Hl'. assert (right_taken r m = true) by (apply right_taken_spec; eauto). congruence. }
  rewrite !lookup_insert_Some. naive_solver.
Qed.
Lemma inj_map_delete l m : inj_map m = true → inj_map (delete l m) = true.
Proof. rewrite !inj_map_spec. intros Hm a b v. rewrite !lookup_delete_Some. naive_solver. Qed.

Definition ref_bm_insert (l r : Z) (b : ref_bm) : bool * ref_bm :=
  match decide (is_Some (`b !! l)), right_taken r (`b) as t return right_taken r (`b) = t → _ with
  | left _, _ => λ _, (false, b)
  | right _, true => λ _, (false, b)
  | right _, false => λ E, (true, <[l := r]> (`b) ↾ inj_map_insert l r (`b) (proj2_sig b) E)
  end eq_refl.

#[export] Instance bimap_ref : BiMap := {|
  bm := ref_bm;
  bm_default := ∅ ↾ inj_map_empty;
  bm_get_by_left l b := `b !! l;
  bm_contains_left l b := bool_decide (is_Some (`b !! l));
  bm_contains_right r b := right_taken r (`b);
  bm_insert_no_overwrite := ref_bm_insert;
  bm_remove_by_right r b :=
    match left_of r (`b) with
    | Some l => (Some (l, r), delete l (`b) ↾ inj_map_delete l (`b) (proj2_sig b))
    | None => (None, b)
    end;
  bm_left_values b := (map_to_list (`b)).*1;
  bm_pairs b := `b
|}.

Lemma ref_bm_insert_free l r (b : ref_bm) :
  `b !! l = None → right_taken r (`b) = false →
  ∃ b', ref_bm_insert l r b = (true, b') ∧ `b' = <[l := r]> (`b).
Proof.
  intros Hl Hr. unfold ref_bm_insert. destruct (decide (is_Some (`b !! l))) as [[? ?]|]; [congruence|].
  generalize (inj_map_insert l r (`b) (proj2_sig b)). rewrite Hr. intros p. by eexists.
Qed.
Lemma ref_bm_insert_taken l r (b : ref_bm) :
  is_Some (`b !! l) ∨ right_taken r (`b) = true → ref_bm_insert l r b = (false, b).
Proof.
  intros H. unfold ref_bm_insert. destruct (decide (is_Some (`b !! l))) as [|Hn]; [done|].
  destruct H as [|Hr]; [done|]. generalize (inj_map_insert l r (`b) (proj2_sig b)). by rewrite Hr.
Qed.
#[export] Instance bimap_ref_laws : BiMapLaws.
Proof.
  assert (Hinj : ∀ b : ref_bm, ∀ l l' r, `b !! l = Some r → `b !! l' = Some r → l = l').
  { intros [m Hm]. by apply inj_map_spec. }
  split; cbn.
  - done.
  - intros b. apply Hinj.
  - done.
  - intros l b. by rewrite bool_decide_eq_true.
  - intros r b. apply right_taken_spec.
  - intros l r b Hl Hr. apply ref_bm_insert_free; [done|].
    destruct (right_taken r (`b)) eqn:E; [|done]. apply right_taken_spec in E as [l' Hl'].
    by destruct (Hr l').
  - intros l r b H. apply ref_bm_insert_taken. by rewrite right_taken_spec.
  - intros l r b Hl. rewrite (proj2 (left_of_spec r (`b) l (Hinj b)) Hl). by eexists.
  - intros r b Hr. destruct (left_of r (`b)) as [l|] eqn:E; [|done].
    apply left_of_spec in E; [by destruct (Hr l)|apply Hinj].
  - done.
Qed.

(** ** The state of a client *)

Inductive ShutdownReason := ClientDisconnected | ServerStopped | ControlPlaneQueueFull.

Definition MAX_SEND_RETRIES : nat := 10.
Definition ADVERTISE_CHANNEL_BATCH_SIZE : nat := 100.
Definition DEFAULT_SERVICE_CALLS_PER_CLIENT : nat := 32.
Definition DEFAULT_FETCH_ASSET_CALLS_PER_CLIENT : nat := 32.

Section client.
Context `{HF : Flume} `{HM : BiMap}.
Local Open Scope string_scope.

(** [cl_shutdown] is [None] while the client still holds its [shutdown_tx], and
    then the reason it sent.  The poller holds the receiving ends. *)
Record ConnectedClient := {
  cl_id : ClientId;
  cl_sink_id : SinkId;
  cl_channel_filter : option (ChannelDescriptor → bool);
  cl_channels : gmap ChannelId RawChannel;
  cl_data_plane : fl_chan;
  cl_control_plane : fl_chan;
  cl_service_call_sem : nat;
  cl_fetch_asset_sem : nat;
  cl_subscriptions : bm;
  cl_advertised_channels : gmap Z ClientChannel;
  cl_shutdown : option ShutdownReason;
  cl_suppress_initial_advertisement : bool;
  cl_advertisement_token_push : bool
}.

Definition ConnectedClient_new (id : ClientId) (sink_id : SinkId) (message_backlog_size : nat)
    (channel_filter : option (ChannelDescriptor → bool)) : ConnectedClient := {|
  cl_id := id; cl_sink_id := sink_id; cl_channel_filter := channel_filter; cl_channels := ∅;
  cl_data_plane := fl_bounded message_backlog_size;
  cl_control_plane := fl_bounded message_backlog_size;
  cl_service_call_sem := DEFAULT_SERVICE_CALLS_PER_CLIENT;
  cl_fetch_asset_sem := DEFAULT_FETCH_ASSET_CALLS_PER_CLIENT;
  cl_subscriptions := bm_default; cl_advertised_channels := ∅; cl_shutdown := None;
  cl_suppress_initial_advertisement := false; cl_advertisement_token_push := false
|}.

Definition set_channels (m : gmap ChannelId RawChannel) (c : ConnectedClient) : ConnectedClient :=
  {| cl_id := cl_id c; cl_sink_id := cl_sink_id c; cl_channel_filter := cl_channel_filter c;
     cl_channels := m; cl_data_plane := cl_data_plane c; cl_control_plane := cl_control_plane c;
     cl_service_call_sem := cl_service_call_sem c; cl_fetch_asset_sem := cl_fetch_asset_sem c;
     cl_subscriptions := cl_subscriptions c; cl_advertised_channels := cl_advertised_channels c;
     cl_shutdown := cl_shutdown c;
     cl_suppress_initial_advertisement := cl_suppress_initial_advertisement c;
     cl_advertisement_token_push := cl_advertisement_token_push c |}.
Definition set_queues (data control : fl_chan) (c : ConnectedClient) : ConnectedClient :=
  {| cl_id := cl_id c; cl_sink_id := cl_sink_id c; cl_channel_filter := cl_channel_filter c;
     cl_channels := cl_channels c; cl_data_plane := data; cl_control_plane := control;
     cl_service_call_sem := cl_service_call_sem c; cl_fetch_asset_sem := cl_fetch_asset_sem c;
     cl_subscriptions := cl_subscriptions c; cl_advertised_channels := cl_advertised_channels c;
     cl_shutdown := cl_shutdown c;
     cl_suppress_initial_advertisement := cl_suppress_initial_advertisement c;
     cl_advertisement_token_push := cl_advertisement_token_push c |}.
Definition set_sems (service_call fetch_asset : nat) (c : ConnectedClient) : ConnectedClient :=
  {| cl_id := cl_id c; cl_sink_id := cl_sink_id c; cl_channel_filter := cl_channel_filter c;
     cl_channels := cl_channels c; cl_data_plane := cl_data_plane c;
     cl_control_plane := cl_control_plane c;
     cl_service_call_sem := service_call; cl_fetch_asset_sem := fetch_asset;
     cl_subscriptions := cl_subscriptions c; cl_advertised_channels := cl_advertised_channels c;
     cl_shutdown := cl_shutdown c;
     cl_suppress_initial_advertisement := cl_suppress_initial_advertisement c;
     cl_advertisement_token_push := cl_advertisement_token_push c |}.
Definition set_subscriptions (b : bm) (c : ConnectedClient) : ConnectedClient :=
  {| cl_id := cl_id c; cl_sink_id := cl_sink_id c; cl_channel_filter := cl_channel_filter c;
     cl_channels := cl_channels c; cl_data_plane := cl_data_plane c;
     cl_control_plane := cl_control_plane c;
     cl_service_call_sem := cl_service_call_sem c; cl_fetch_asset_sem := cl_fetch_asset_sem c;
     cl_subscriptions := b; cl_advertised_channels := cl_advertised_channels c;
     cl_shutdown := cl_shutdown c;
     cl_suppress_initial_advertisement := cl_suppress_initial_advertisement c;
     cl_advertisement_token_push := cl_advertisement_token_push c |}.
Definition set_advertised_channels (m : gmap Z ClientChannel) (c : ConnectedClient)
    : ConnectedClient :=
  {| cl_id := cl_id c; cl_sink_id := cl_sink_id c; cl_channel_filter := cl_channel_filter c;
     cl_channels := cl_channels c; cl_data_plane := cl_data_plane c;
     cl_control_plane := cl_control_plane c;
     cl_service_call_sem := cl_service_call_sem c; cl_fetch_asset_sem := cl_fetch_asset_sem c;
     cl_subscriptions := cl_subscriptions c; cl_advertised_channels := m;
     cl_shutdown := cl_shutdown c;
     cl_suppress_initial_advertisement := cl_suppress_initial_advertisement c;
     cl_advertisement_token_push := cl_advertisement_token_push c |}.
Definition set_shutdown (r : option ShutdownReason) (c : ConnectedClient) : ConnectedClient :=
  {| cl_id := cl_id c; cl_sink_id := cl_sink_id c; cl_channel_filter := cl_channel_filter c;
     cl_channels := cl_channels c; cl_data_plane := cl_data_plane c;
     cl_control_plane := cl_control_plane c;
     cl_service_call_sem := cl_service_call_sem c; cl_fetch_asset_sem := cl_fetch_asset_sem c;
     cl_subscriptions := cl_subscriptions c; cl_advertised_channels := cl_advertised_channels c;
     cl_shutdown := r;
     cl_suppress_initial_advertisement := cl_suppress_initial_advertisement c;
     cl_advertisement_token_push := cl_advertisement_token_push c |}.
Definition set_flags (suppress token_push : bool) (c : ConnectedClient) : ConnectedClient :=
  {| cl_id := cl_id c; cl_sink_id := cl_sink_id c; cl_channel_filter := cl_channel_filter c;
     cl_channels := cl_channels c; cl_data_plane := cl_data_plane c;
     cl_control_plane := cl_control_plane c;
     cl_service_call_sem := cl_service_call_sem c; cl_fetch_asset_sem := cl_fetch_asset_sem c;
     cl_subscriptions := cl_subscriptions c; cl_advertised_channels := cl_advertised_channels c;
     cl_shutdown := cl_shutdown c; cl_suppress_initial_advertisement := suppress;
     cl_advertisement_token_push := token_push |}.

Definition suppress_initial_advertisement (c : ConnectedClient) : ConnectedClient :=
  set_flags true (cl_advertisement_token_push c) c.
Definition enable_advertisement_token_push (c : ConnectedClient) : ConnectedClient :=
  set_flags (cl_suppress_initial_advertisement c) true c.

(** The reason is sent once: the first call takes the sender. *)
Definition shutdown (reason : ShutdownReason) (c : ConnectedClient) : ConnectedClient :=
  match cl_shutdown c with None => set_shutdown (Some reason) c | Some _ => c end.

(** ** Sending *)

(** A panic of [send_lossy] (its [unreachable!]) is kept. *)
Definition send_data_lossy (message : Message) (retries : nat) (c : ConnectedClient)
    : result string ConnectedClient :=
  '(_, q) ← send_lossy message retries (cl_data_plane c);
  Ok (set_queues q (cl_control_plane c) c).

Definition send_control_msg (message : Message) (c : ConnectedClient) : bool * ConnectedClient :=
  match fl_try_send message (cl_control_plane c) with
  | (SendFull _, q) => (false, shutdown ControlPlaneQueueFull (set_queues (cl_data_plane c) q c))
  | (_, q) => (true, set_queues (cl_data_plane c) q c)
  end.
Definition send_control (message : Message) (c : ConnectedClient) : ConnectedClient :=
  (send_control_msg message c).2.

Context `{HB : Buf} `{HJ : Json}.

(** Info goes to the data plane, warnings and errors to the control plane. *)
Definition send_status (status : Status) (c : ConnectedClient) : result string ConnectedClient :=
  match st_level status with
  | LevelInfo => send_data_lossy (Message_from (SStatus status)) MAX_SEND_RETRIES c
  | _ => Ok (send_control (Message_from (SStatus status)) c)
  end.
Definition send_error (message : string) (c : ConnectedClient) : ConnectedClient :=
  send_control (Message_from (SStatus (Status_error message))) c.
Definition send_warning (message : string) (c : ConnectedClient) : ConnectedClient :=
  send_control (Message_from (SStatus (Status_warning message))) c.

Definition FetchAssetResponse_error (request_id : Z) (error : string) : FetchAssetResponse :=
  {| far_request_id := request_id; far_payload := ErrorMessage error |}.
Definition FetchAssetResponse_data (request_id : Z) (data : list byte) : FetchAssetResponse :=
  {| far_request_id := request_id; far_payload := AssetData data |}.
Definition send_asset_error (error : string) (request_id : Z) : ConnectedClient → ConnectedClient :=
  send_control (Message_from (SFetchAssetResponse (FetchAssetResponse_error request_id error))).
Definition send_asset_response (response : list byte) (request_id : Z)
    : ConnectedClient → ConnectedClient :=
  send_control (Message_from (SFetchAssetResponse (FetchAssetResponse_data request_id response))).
Definition send_service_call_failure (service_id call_id : Z) (message : string)
    : ConnectedClient → ConnectedClient :=
  send_control (Message_from (SServiceCallFailure {| scf_service_id := service_id;
    scf_call_id := call_id; scf_message := message |})).

(** [ParameterValues::new] of the parameters that have a value. *)
Definition has_value (p : Param) : bool :=
  match p_value p with Some _ => true | None => false end.
Definition update_parameters (parameters : list Param) (request_id : option string)
    : ConnectedClient → ConnectedClient :=
  send_control (Message_from (SParameterValues
    {| pv_parameters := filter has_value parameters; pv_id := request_id |})).

(** ** Advertisement tokens *)

Definition QUOTE : string := String (Ascii.ascii_of_nat 34) EmptyString.
Definition quoted (s : string) : string := QUOTE +:+ s +:+ QUOTE.
Definition token_message (token : string) : Message :=
  MText ("{" +:+ quoted "op" +:+ ":" +:+ quoted "advertisementToken" +:+ "," +:+
         quoted "token" +:+ ":" +:+ quoted token +:+ "}").
Definition send_advertisement_token (token : string) (c : ConnectedClient) : ConnectedClient :=
  if cl_advertisement_token_push c then send_control (token_message token) c else c.
(** [service_ids] is [server.service_ids()]. *)
Definition push_advertisement_token (service_ids : list (string * Z)) (c : ConnectedClient)
    : ConnectedClient :=
  if cl_advertisement_token_push c then
    send_advertisement_token
      (compute_advertisement_token (map_to_list (cl_channels c)).*2 service_ids) c
  else c.

(** ** Advertising *)

Context `{H64 : Base64}.

Definition record_channels (cs : list RawChannel) (m : gmap ChannelId RawChannel)
    : gmap ChannelId RawChannel :=
  foldl (λ m ch, <[rc_id ch := ch]> m) m cs.

(** Channels are recorded if they were put in the message and it was sent. *)
Definition client_advertise_channels (channels : list RawChannel) (c : ConnectedClient)
    : ConnectedClient :=
  let message := advertise_channels channels in
  match ad_channels message with
  | [] => c
  | _ =>
    let '(sent, c) := send_control_msg (Message_from (SAdvertise message)) c in
    if sent : bool then
      let advertised_ids : gset Z := list_to_set (wc_id <$> ad_channels message) in
      set_channels
        (record_channels (filter (λ ch, rc_id ch ∈ advertised_ids) channels) (cl_channels c)) c
    else c
  end.

(** [slice::chunks]. *)
Fixpoint chunks_fuel {A} (fuel n : nat) (l : list A) : list (list A) :=
  match fuel, l with
  | S fuel, _ :: _ => take n l :: chunks_fuel fuel n (drop n l)
  | _, _ => []
  end.
Definition chunks {A} (n : nat) (l : list A) : list (list A) := chunks_fuel (length l) n l.

Definition should_advertise (c : ConnectedClient) (ch : RawChannel) : bool :=
  match cl_channel_filter c with Some f => f (rc_descriptor ch) | None => true end.

(** [Sink::add_channels]; the result is always [None]. *)
Definition client_add_channels (service_ids : list (string * Z)) (channels : list RawChannel)
    (c : ConnectedClient) : ConnectedClient :=
  let filtered := filter (should_advertise c) channels in
  if cl_suppress_initial_advertisement c then
    let c := set_flags false (cl_advertisement_token_push c) c in
    set_channels (record_channels filtered (cl_channels c)) c
  else
    let c := foldl (λ c chunk, client_advertise_channels chunk c) c
      (chunks ADVERTISE_CHANNEL_BATCH_SIZE filtered) in
    push_advertisement_token service_ids c.

Definition unadvertise_channel (channel_id : ChannelId) (c : ConnectedClient) : ConnectedClient :=
  match cl_channels c !! channel_id with
  | None => c
  | Some _ =>
    send_control (Message_from (SUnadvertise {| un_channel_ids := [channel_id] |}))
      (set_channels (delete channel_id (cl_channels c)) c)
  end.
Definition client_remove_channel (service_ids : list (string * Z)) (channel_id : ChannelId)
    (c : ConnectedClient) : ConnectedClient :=
  push_advertisement_token service_ids (unadvertise_channel channel_id c).

(** [Sink::log]. *)
Definition client_log (channel_id : ChannelId) (msg : list byte) (metadata : Metadata)
    (c : ConnectedClient) : result string ConnectedClient :=
  match bm_get_by_left channel_id (cl_subscriptions c) with
  | None => Ok c
  | Some subscription_id =>
    send_data_lossy (Message_from (SMessageData {| md_subscription_id := subscription_id;
      md_log_time := m_log_time metadata; md_data := msg |})) MAX_SEND_RETRIES c
  end.

(** What the context sees of the client: its answers are constant. *)
Definition client_sink (c : ConnectedClient) : Sink :=
  {| sink_id := cl_sink_id c; sink_auto_subscribe := false;
     sink_add_channels := λ _, None; sink_log := λ _ _ _, None |}.

(** ** The poller *)

(** One turn of the sending loop: [tokio::select!] takes from either queue. *)
Inductive Plane := ControlPlane | DataPlane.
Definition poll_send (plane : Plane) (c : ConnectedClient) : option Message * ConnectedClient :=
  match plane with
  | ControlPlane => let '(m, q) := fl_try_recv (cl_control_plane c) in
                    (m, set_queues (cl_data_plane c) q c)
  | DataPlane => let '(m, q) := fl_try_recv (cl_data_plane c) in
                 (m, set_queues q (cl_control_plane c) c)
  end.
(** The messages sent once the loops have stopped. *)
Definition final_messages (reason : ShutdownReason) : list Message :=
  match reason with
  | ClientDisconnected => []
  | ServerStopped => [MClose]
  | ControlPlaneQueueFull =>
    [Message_from (SStatus (Status_error
       "Disconnected because the message backlog on the server is full. The backlog size is configurable in the server setup."));
     MClose]
  end.
End client.

(** ** Lists pruned with [swap_remove] *)

(** [Vec::swap_remove]: the last element takes the place of the removed one. *)
Definition swap_remove {A} (i : nat) (l : list A) : list A :=
  match last l with
  | Some x => if decide (S i = length l) then removelast l else <[i := x]> (removelast l)
  | None => l
  end.

(** The loop [while i < v.len()] of `on_subscribe` and of `on_unadvertise`: [f]
    says what an element maps to; [None] has it removed and the loop go on at
    the same index.  The outer [None] is for lack of fuel. *)
Fixpoint swap_loop {A B S} (f : A → S → option B * S) (fuel i : nat) (l : list A) (acc : list B)
    (s : S) : option (list A * list B * S) :=
  match l !! i with
  | None => Some (l, acc, s)
  | Some x =>
    match fuel with
    | O => None
    | Datatypes.S fuel =>
      match f x s with
      | (None, s) => swap_loop f fuel i (swap_remove i l) acc s
      | (Some y, s) => swap_loop f fuel (Datatypes.S i) l (acc ++ [y]) s
      end
    end
  end.

(** A plain traversal that keeps the elements that map to something. *)
Fixpoint keep_run {A B S} (f : A → S → option B * S) (l : list A) (s : S)
    : list A * list B * S :=
  match l with
  | [] => ([], [], s)
  | x :: l =>
    match f x s with
    | (None, s) => keep_run f l s
    | (Some y, s) => let '(ks, ys, s) := keep_run f l s in (x :: ks, y :: ys, s)
    end
  end.

(** ** Lemmas: lists *)

Lemma swap_remove_app {A} (l r : list A) x :
  ∃ r', swap_remove (length l) (l ++ x :: r) = l ++ r' ∧ r' ≡ₚ r.
Proof.
  unfold swap_remove. destruct r as [|y r _] using rev_ind.
  - rewrite last_snoc, decide_True by (rewrite length_app; cbn; lia).
    rewrite removelast_last. exists []. by rewrite app_nil_r.
  - replace (l ++ x :: r ++ [y]) with ((l ++ x :: r) ++ [y]) by by rewrite <- app_assoc.
    rewrite last_snoc, decide_False by (rewrite !length_app; cbn; rewrite ?length_app; cbn; lia).
    rewrite removelast_last. exists (y :: r). split; [|apply Permutation_cons_append].
    rewrite <- (Nat.add_0_r (length l)) at 1. by rewrite insert_app_r.
Qed.

Lemma swap_loop_keep {A B S} (f : A → S → option B * S) fuel kept rest acc s :
  (length rest ≤ fuel)%nat →
  ∃ order, order ≡ₚ rest ∧
    swap_loop f fuel (length kept) (kept ++ rest) acc s =
    Some (let '(ks, ys, s') := keep_run f order s in (kept ++ ks, acc ++ ys, s')).
Proof.
  revert kept rest acc s. induction fuel as [|fuel IH]; intros kept rest acc s Hlen;
    destruct rest as [|x rest]; try (cbn in Hlen; lia).
  1, 2: exists []; split; [done|]; cbn; rewrite !app_nil_r, lookup_ge_None_2 by done; done.
  assert ((kept ++ x :: rest) !! length kept = Some x) as Hx by by rewrite list_lookup_middle.
  cbn [swap_loop]. rewrite Hx. cbn in Hlen. destruct (f x s) as [[y|] s'] eqn:E.
  - destruct (IH (kept ++ [x]) rest (acc ++ [y]) s') as (order & Hp & Ho); [lia|].
    exists (x :: order). split; [by rewrite Hp|]. rewrite length_app in Ho. cbn in Ho.
    rewrite Nat.add_1_r, <- app_assoc in Ho. cbn in Ho. rewrite Ho. cbn. rewrite E.
    destruct (keep_run f order s') as [[ks ys] s'']. by rewrite <- !app_assoc.
  - destruct (swap_remove_app kept rest x) as (rest' & -> & Hp').
    destruct (IH kept rest' acc s') as (order & Hp & ->); [by rewrite Hp'; lia|].
    exists (x :: order). split; [by rewrite Hp, Hp'|]. cbn. by rewrite E.
Qed.

(** The loop ends, and traverses the list in some order. *)
Lemma swap_loop_spec {A B S} (f : A → S → option B * S) l s :
  ∃ order, order ≡ₚ l ∧ swap_loop f (length l) 0 l [] s = Some (keep_run f order s).
Proof.
  destruct (swap_loop_keep f (length l) [] l [] s) as (order & Hp & E); [done|].
  exists order. split; [done|]. cbn in E. rewrite E. by destruct (keep_run f order s) as [[??]?].
Qed.

Lemma chunks_fuel_concat {A} fuel n (l : list A) :
  (0 < n)%nat → (length l ≤ fuel)%nat → concat (chunks_fuel fuel n l) = l.
Proof.
  intros Hn. revert l. induction fuel as [|fuel IH]; intros [|x l] Hl; try (cbn in *; lia); try done.
  cbn [chunks_fuel concat]. rewrite IH; [apply take_drop|].
  rewrite length_drop. cbn in *. lia.
Qed.
Lemma chunks_concat {A} n (l : list A) : (0 < n)%nat → concat (chunks n l) = l.
Proof. intros. by apply chunks_fuel_concat. Qed.
Lemma chunks_length {A} n (l : list A) : Forall (λ k, (0 < n → 0 < length k ≤ n)%nat) (chunks n l).
Proof.
  unfold chunks. generalize (length l) as fuel. intros fuel. revert l.
  induction fuel as [|fuel IH]; intros [|x l]; cbn [chunks_fuel]; try constructor; [|apply IH].
  intros. rewrite length_take. cbn. lia.
Qed.

(** ** Lemmas: sending *)

Section lemmas.
Context `{HF : Flume} `{HM : BiMap} `{HB : Buf} `{HJ : Json} `{H64 : Base64} `{!FlumeLaws}.
Implicit Types c d : ConnectedClient.

(** [d] is [c] with [ms] appended to its control plane and its channels set to
    [m]; everything else is unchanged. *)
Definition advanced (ms : list Message) (m : gmap ChannelId RawChannel) c d : Prop :=
  ∃ q, d = set_channels m (set_queues (cl_data_plane c) q c) ∧
    fl_queue q = fl_queue (cl_control_plane c) ++ ms ∧ same_ends (cl_control_plane c) q.

Lemma advanced_refl c : advanced [] (cl_channels c) c c.
Proof. exists (cl_control_plane c). destruct c. by rewrite app_nil_r. Qed.
Lemma advanced_trans ms ms' m m' c d e :
  advanced ms m c d → advanced ms' m' d e → advanced (ms ++ ms') m' c e.
Proof.
  intros (q & -> & Q1 & S1 & S2) (q' & -> & Q2 & S3 & S4). exists q'.
  split_and!; [done|by rewrite Q2; cbn; rewrite Q1, app_assoc|]. split; cbn in *; congruence.
Qed.
Lemma advanced_set_channels ms m m' c d :
  advanced ms m c d → advanced ms m' c (set_channels m' d).
Proof. intros (q & -> & Q1 & S1). by exists q. Qed.
Lemma advanced_channels ms m c d : advanced ms m c d → cl_channels d = m.
Proof. by intros (q & -> & _). Qed.
Lemma advanced_queue ms m c d :
  advanced ms m c d → fl_queue (cl_control_plane d) = fl_queue (cl_control_plane c) ++ ms.
Proof. by intros (q & -> & Q & _). Qed.
Lemma advanced_live ms m c d :
  advanced ms m c d → live (cl_control_plane c) → live (cl_control_plane d).
Proof. intros (q & -> & _ & S1). by apply same_ends_live. Qed.

Definition overflowed c : Prop := cl_shutdown c ≠ None.

Lemma shutdown_overflowed r c : overflowed (shutdown r c).
Proof. unfold overflowed, shutdown. by destruct (cl_shutdown c) eqn:E; cbn; rewrite ?E. Qed.
Lemma shutdown_frame r c :
  shutdown r c = set_shutdown (Some (default r (cl_shutdown c))) c.
Proof. unfold shutdown. destruct c as [????????????]; cbn. by destruct cl_shutdown0. Qed.

Lemma set_queues_same c : set_queues (cl_data_plane c) (cl_control_plane c) c = c.
Proof. by destruct c. Qed.

(** The three outcomes of a send on the control plane. *)
Lemma send_control_msg_cases m c :
  0 < Z.of_nat (fl_capacity (cl_control_plane c)) →
  (fl_disconnected (cl_control_plane c) = false ∧ room (cl_control_plane c) ∧
    ∃ d, send_control_msg m c = (true, d) ∧ advanced [m] (cl_channels c) c d) ∨
  (fl_disconnected (cl_control_plane c) = false ∧ ¬ room (cl_control_plane c) ∧
    send_control_msg m c = (false, shutdown ControlPlaneQueueFull c)) ∨
  (fl_disconnected (cl_control_plane c) = true ∧ send_control_msg m c = (true, c)).
Proof.
  intros Hcap. unfold send_control_msg.
  destruct (fl_disconnected (cl_control_plane c)) eqn:Ed.
  - right; right. rewrite fl_try_send_disconnected by done. by rewrite set_queues_same.
  - destruct (decide (room (cl_control_plane c))) as [Hr|Hr].
    + left. split_and!; [done|done|].
      destruct (fl_try_send_ok m _ Ed Hr) as (q & -> & Hq & Hs).
      eexists. split; [done|]. exists q. by destruct c.
    + right; left. rewrite fl_try_send_full; [|done|lia|done]. by rewrite set_queues_same.
Qed.

Lemma send_control_msg_live m c :
  live (cl_control_plane c) →
  (room (cl_control_plane c) ∧
    ∃ d, send_control_msg m c = (true, d) ∧ advanced [m] (cl_channels c) c d) ∨
  (¬ room (cl_control_plane c) ∧ send_control_msg m c = (false, shutdown ControlPlaneQueueFull c)).
Proof.
  intros [Hd Hc]. destruct (send_control_msg_cases m c) as [(_ & ? & ?)|[(_ & ? & ?)|[E _]]];
    [lia|by left|by right|congruence].
Qed.

Lemma elem_of_record cs m id ch :
  record_channels cs m !! id = Some ch →
  (ch ∈ cs ∧ rc_id ch = id) ∨ m !! id = Some ch.
Proof.
  revert m. induction cs as [|d cs IH]; intros m; cbn; [auto|].
  intros [[? ?]|Hm]%IH; [left; by split; [right|]|].
  apply lookup_insert_Some in Hm as [[<- <-]|[_ ?]]; [left; split; [left|done]|by right].
Qed.
Lemma record_channels_app cs ds m :
  record_channels (cs ++ ds) m = record_channels ds (record_channels cs m).
Proof. apply foldl_app. Qed.

(** With distinct ids, the channels recorded are the ones that were encoded. *)
Lemma recorded_advertisable cs :
  NoDup (rc_id <$> cs) →
  filter (λ ch, rc_id ch ∈@{gset Z} list_to_set (wc_id <$> ad_channels (advertise_channels cs))) cs =
  filter (λ ch, rc_advertisable ch = true) cs.
Proof.
  intros Hd. apply filter_ext_elem. intros ch [i Hi]%list_elem_of_lookup.
  rewrite elem_of_list_to_set, advertise_channels_ids, list_elem_of_fmap. split.
  - intros (ch' & E & [Hadv Hin]%list_elem_of_filter). enough (ch = ch') by congruence.
    apply list_elem_of_lookup in Hin as [j Hj].
    assert (i = j) as <-; [|congruence].
    eapply (NoDup_lookup _ i j (rc_id ch)); [exact Hd| |]; rewrite list_lookup_fmap.
    + by rewrite Hi.
    + rewrite Hj. cbn. congruence.
  - intros Hadv. exists ch. split; [done|]. apply list_elem_of_filter. split; [done|].
    apply list_elem_of_lookup. eauto.
Qed.

Lemma advertise_channels_nil cs :
  ad_channels (advertise_channels cs) = [] ↔ filter (λ ch, rc_advertisable ch = true) cs = [].
Proof.
  pose proof (advertise_channels_ids cs) as E. split; intros Hn; rewrite Hn in E.
  - by apply eq_sym, fmap_nil_inv in E.
  - by apply fmap_nil_inv in E.
Qed.

(** The advertisements of a list of batches; a batch without an encodable
    channel is skipped. *)
Definition batch_messages (batches : list (list RawChannel)) : list Message :=
  omap (λ batch, if decide (filter (λ ch, rc_advertisable ch = true) batch = []) then None
                 else Some (Message_from (SAdvertise (advertise_channels batch)))) batches.

Lemma client_advertise_channels_cases cs c :
  NoDup (rc_id <$> cs) → live (cl_control_plane c) →
  let d := client_advertise_channels cs c in
  advanced (batch_messages [cs]) (record_channels (filter (λ ch, rc_advertisable ch = true) cs)
    (cl_channels c)) c d ∨
  (¬ room (cl_control_plane c) ∧ d = shutdown ControlPlaneQueueFull c).
Proof.
  intros Hd Hl. unfold client_advertise_channels, batch_messages. cbn [omap list_omap].
  destruct (decide (filter (λ ch, rc_advertisable ch = true) cs = [])) as [Hn|Hn].
  - left. rewrite Hn. rewrite (proj2 (advertise_channels_nil cs)) by done. apply advanced_refl.
  - destruct (ad_channels (advertise_channels cs)) as [|w ws] eqn:Ea.
    { by apply advertise_channels_nil in Ea. }
    destruct (send_control_msg_live (Message_from (SAdvertise (advertise_channels cs))) c Hl)
      as [(_ & d & -> & Hadv)|[Hr ->]]; [left|by right].
    rewrite <- Ea, recorded_advertisable by done.
    rewrite (advanced_channels _ _ _ _ Hadv). by eapply advanced_set_channels.
Qed.

Lemma shutdown_fold_overflowed (batches : list (list RawChannel)) c :
  overflowed c → overflowed (foldl (λ c chunk, client_advertise_channels chunk c) c batches).
Proof.
  revert c. induction batches as [|b batches IH]; intros c Hc; [done|]. cbn. apply IH.
  unfold client_advertise_channels. destruct (ad_channels _); [done|].
  unfold send_control_msg. destruct (fl_try_send _ _) as [[| |] q]; [exact Hc| |exact Hc].
  apply shutdown_overflowed.
Qed.

Lemma batches_advance (batches : list (list RawChannel)) c :
  NoDup (rc_id <$> concat batches) → live (cl_control_plane c) →
  let d := foldl (λ c chunk, client_advertise_channels chunk c) c batches in
  advanced (batch_messages batches)
    (record_channels (filter (λ ch, rc_advertisable ch = true) (concat batches)) (cl_channels c)) c d ∨
  overflowed d.
Proof.
  revert c. induction batches as [|b batches IH]; intros c Hd Hl; cbn [foldl].
  - left. cbn. apply advanced_refl.
  - cbn [concat] in Hd. rewrite fmap_app, NoDup_app in Hd. destruct Hd as (Hb & _ & Hd).
    destruct (client_advertise_channels_cases b c Hb Hl) as [Hadv|[_ ->]].
    2: { right. apply shutdown_fold_overflowed, shutdown_overflowed. }
    destruct (IH _ Hd (advanced_live _ _ _ _ Hadv Hl)) as [Hadv'|]; [left|by right].
    rewrite (advanced_channels _ _ _ _ Hadv) in Hadv'.
    cbn [concat]. rewrite filter_app, record_channels_app.
    replace (batch_messages (b :: batches)) with (batch_messages [b] ++ batch_messages batches).
    2: { unfold batch_messages. cbn [omap list_omap]. by case_decide. }
    by eapply advanced_trans.
Qed.

Lemma push_token_cases sids c :
  live (cl_control_plane c) →
  let d := push_advertisement_token sids c in
  advanced (if cl_advertisement_token_push c then
      [token_message (compute_advertisement_token (map_to_list (cl_channels c)).*2 sids)] else [])
    (cl_channels c) c d ∨ overflowed d.
Proof.
  intros Hl. unfold push_advertisement_token, send_advertisement_token, send_control.
  destruct (cl_advertisement_token_push c); [|left; apply advanced_refl].
  set (m := token_message _).
  destruct (send_control_msg_live m c Hl) as [(_ & d & -> & ?)|[_ ->]]; [by left|].
  right. apply shutdown_overflowed.
Qed.
End lemmas.

(** ** Properties *)

(** The control plane never loses a message silently.  While the poller is
    alive, [send_control_msg] either appends the message to the queue, changing
    nothing else, and returns [true]; or, when the queue is full, it queues
    nothing, returns [false] and shuts the client down, with the reason
    [ControlPlaneQueueFull] unless a reason was already sent, which is kept. *)
Theorem control_plane_overflow `{FlumeLaws} `{BiMap} (m : Message) (c : ConnectedClient) :
  live (cl_control_plane c) →
  (room (cl_control_plane c) ∧
    ∃ d, send_control_msg m c = (true, d) ∧
      fl_queue (cl_control_plane d) = fl_queue (cl_control_plane c) ++ [m] ∧
      d = set_queues (cl_data_plane c) (cl_control_plane d) c) ∨
  (¬ room (cl_control_plane c) ∧
    send_control_msg m c =
      (false, set_shutdown (Some (default ControlPlaneQueueFull (cl_shutdown c))) c)).
Proof.
  intros Hl. destruct (send_control_msg_live m c Hl) as [(Hr & d & E & Ha)|[Hr E]].
  - left. split; [done|]. exists d. split_and!; [done|by eapply advanced_queue|].
    destruct Ha as (q & -> & _). by destruct c.
  - right. split; [done|]. by rewrite E, shutdown_frame.
Qed.

Definition demo_client (backlog : nat) : ConnectedClient (HF := flume_ref) (HM := bimap_ref) :=
  ConnectedClient_new 1 1 backlog None.
Lemma control_plane_overflow_witness :
  let c := (send_control_msg MClose (demo_client 1)).2 in
  ¬ room (cl_control_plane c) ∧
  send_control_msg MClose c = (false, set_shutdown (Some ControlPlaneQueueFull) c).
Proof.
  intros c. destruct (control_plane_overflow MClose c) as [[Hr _]|[Hr E]].
  - split; [reflexivity|apply le_n].
  - exfalso. exact (Nat.lt_irrefl 1 Hr).
  - by split.
Defined.

(** What a client is told of new channels.  With a live control plane, and
    distinct channel ids, [add_channels] on a client that did not present a
    current token sends the encodable ones of the channels that pass the
    client's filter in batches of at most 100, in order, followed by the token
    of the resulting catalogue if the client speaks the extension, and records
    exactly the channels it advertised; unless the queue overflowed, and then
    the client is shut down.  A client that did present the current token is
    sent nothing: the channels that pass its filter are recorded and its flag
    is cleared. *)
Theorem add_channels_advertises `{FlumeLaws} `{BiMap} `{Buf} `{Json} `{Base64}
    (sids : list (string * Z)) (chans : list RawChannel) (c : ConnectedClient) :
  live (cl_control_plane c) → NoDup (rc_id <$> chans) →
  let wanted := filter (should_advertise c) chans in
  let batches := chunks ADVERTISE_CHANNEL_BATCH_SIZE wanted in
  let known := record_channels (filter (λ ch, rc_advertisable ch = true) wanted) (cl_channels c) in
  let d := client_add_channels sids chans c in
  (concat batches = wanted ∧ Forall (λ b, (length b ≤ 100)%nat) batches) ∧
  if cl_suppress_initial_advertisement c then
    d = set_channels (record_channels wanted (cl_channels c))
          (set_flags false (cl_advertisement_token_push c) c)
  else
    overflowed d ∨
    (cl_channels d = known ∧ cl_shutdown d = cl_shutdown c ∧
     cl_subscriptions d = cl_subscriptions c ∧ cl_data_plane d = cl_data_plane c ∧
     fl_queue (cl_control_plane d) = fl_queue (cl_control_plane c) ++ batch_messages batches ++
       (if cl_advertisement_token_push c
        then [token_message (compute_advertisement_token (map_to_list known).*2 sids)] else [])).
Proof.
  intros Hl Hd wanted batches known d.
  assert (concat batches = wanted) as Hcat by (apply chunks_concat; unfold ADVERTISE_CHANNEL_BATCH_SIZE; lia).
  split.
  { split; [done|]. eapply Forall_impl; [apply chunks_length|].
    unfold ADVERTISE_CHANNEL_BATCH_SIZE. intros b Hb. destruct Hb; lia. }
  unfold d, client_add_channels. fold wanted batches.
  destruct (cl_suppress_initial_advertisement c); [done|].
  assert (NoDup (rc_id <$> concat batches)) as Hnd.
  { rewrite Hcat. eapply sublist_NoDup; [exact Hd|]. apply fmap_sublist, sublist_filter. }
  destruct (batches_advance batches c Hnd Hl) as [Hadv|Ho].
  2: { left. unfold push_advertisement_token, send_advertisement_token, send_control, send_control_msg.
       destruct (cl_advertisement_token_push _); [|done].
       destruct (fl_try_send _ _) as [[| |] q]; [exact Ho| |exact Ho]. apply shutdown_overflowed. }
  rewrite Hcat in Hadv. fold known in Hadv.
  set (e := foldl _ c batches) in *.
  destruct (push_token_cases sids e (advanced_live _ _ _ _ Hadv Hl)) as [Hadv'|Ho]; [right|by left].
  rewrite (advanced_channels _ _ _ _ Hadv) in Hadv'.
  replace (cl_advertisement_token_push e) with (cl_advertisement_token_push c) in Hadv'
    by (by destruct Hadv as (q & -> & _)).
  destruct (advanced_trans _ _ _ _ _ _ _ Hadv Hadv') as (q & -> & Q & _).
  by split_and!.
Qed.

#[local] Instance json_demo : Json := {| json_of_server _ := "{}"; json_to_client _ := None |}.
Lemma add_channels_advertises_witness :
  cl_channels (client_add_channels [] [demo_rc 3 "/a"] (demo_client 4)) =
    <[3 := demo_rc 3 "/a"]> ∅.
Proof.
  destruct (add_channels_advertises [] [demo_rc 3 "/a"] (demo_client 4)) as [_ Hc].
  - split; cbn; [done|lia].
  - apply (bool_decide_unpack _). by vm_compute.
  - destruct Hc as [Ho|[-> _]]; [|reflexivity].
    exfalso. apply Ho. by vm_compute.
Defined.
