(* ===== verification/Server.v ===== *)
(** * Server: the state of the websocket server

    `websocket/server.rs`, `websocket/capability.rs` and the builder of
    `protocol/common/server/server_info.rs`: the [Server] record, its
    construction from the options, parameter subscriptions, connection-graph
    subscriptions, the service registry and the server info message.  The
    functions of this file change the server alone; Session.v joins the server
    with its clients and the context.

    Parameter subscriptions have a specification: a set of (name, client)
    pairs.  [Params_refine] shows that the map of sets implements it and that
    the listener hears of a name exactly when its first client comes and when
    its last one goes. *)

From S2P Require Import Prelude Bytes Messages Wire ConnectionGraph Channel Advertise Services.
From S2P Require Import Token.
Local Open Scope Z_scope.

(** ** Capabilities *)

Inductive Capability :=
| CapClientPublish | CapParameters | CapTime | CapServices | CapAssets
| CapConnectionGraph | CapRangedPlayback.
#[export] Instance Capability_eq_dec : EqDecision Capability.
Proof. solve_decision. Defined.
Definition Capability_code (c : Capability) : nat :=
  match c with
  | CapClientPublish => 0 | CapParameters => 1 | CapTime => 2 | CapServices => 3
  | CapAssets => 4 | CapConnectionGraph => 5 | CapRangedPlayback => 6
  end.
Definition Capability_of_code (n : nat) : option Capability :=
  [CapClientPublish; CapParameters; CapTime; CapServices; CapAssets; CapConnectionGraph;
   CapRangedPlayback] !! n.
#[export, program] Instance Capability_countable : Countable Capability :=
  inj_countable Capability_code Capability_of_code _.
Next Obligation. by intros []. Qed.

Definition as_protocol_capabilities (c : Capability) : list ProtocolCapability :=
  match c with
  | CapClientPublish => [PcClientPublish]
  | CapParameters => [PcParameters; PcParametersSubscribe]
  | CapTime => [PcTime]
  | CapServices => [PcServices]
  | CapAssets => [PcAssets]
  | CapConnectionGraph => [PcConnectionGraph]
  | CapRangedPlayback => [PcRangedPlayback]
  end.

(** ** The listener and what it hears *)

(** A [ServerListener] is user code: its answers are parameters; every call of
    it is an [Effect]. *)
Record Listener := {
  on_get_parameters : ClientId → list string → option string → list Param;
  on_set_parameters : ClientId → list Param → option string → list Param;
  on_playback_control_request : PlaybackControlRequest → option PlaybackState
}.

(** A service call handed to its handler (`service/request.rs`). *)
Record Request := {
  rq_service : Service;
  rq_client_id : ClientId;
  rq_call_id : CallId;
  rq_encoding : string;
  rq_payload : list byte
}.

(** What the outside sees of the server, other than the clients' queues.
    Handlers that answer later are given the key of their responder. *)
Inductive Effect :=
| EfServerInfo (client : ClientId) (info : ServerInfo)  (* sent before the client exists *)
| EfMessageData (client : ClientId) (channel : ClientChannel) (payload : list byte)
| EfSubscribe (client : ClientId) (channel : ChannelId) (topic : string)
| EfUnsubscribe (client : ClientId) (channel : ChannelId) (topic : string)
| EfClientAdvertise (client : ClientId) (channel : ClientChannel)
| EfClientUnadvertise (client : ClientId) (channel : ClientChannel)
| EfGetParameters (client : ClientId) (names : list string) (request_id : option string)
| EfSetParameters (client : ClientId) (params : list Param) (request_id : option string)
| EfParametersSubscribe (names : list string)
| EfParametersUnsubscribe (names : list string)
| EfConnectionGraphSubscribe
| EfConnectionGraphUnsubscribe
| EfClientConnect
| EfClientDisconnect
| EfPlaybackControlRequest (request : PlaybackControlRequest)
| EfServiceCall (request : Request) (responder : nat)
| EfFetchAsset (client : ClientId) (uri : string) (responder : nat).

(** ** The server *)

Record Server := {
  sv_message_backlog_size : Z;
  sv_session_id : string;
  sv_name : string;
  sv_clients : list ClientId;  (* the [CowVec] of clients, see Sync.v *)
  sv_clients_frozen : bool;
  sv_channel_filter : option (ChannelDescriptor → bool);
  sv_listener : option Listener;
  sv_capabilities : gset Capability;
  sv_subscribed_parameters : gmap string (gset ClientId);
  sv_supported_encodings : gset string;
  sv_connection_graph : ConnectionGraph;
  sv_cancelled : bool;
  sv_services : ServiceMap;
  sv_fetch_asset_handler : bool;  (* whether there is one *)
  sv_tasks : bool;  (* whether there is a [JoinSet] *)
  sv_server_info : gmap string string;
  sv_playback_time_range : option (Z * Z)
}.

Record ServerOptions := {
  op_session_id : option string;
  op_name : option string;
  op_message_backlog_size : option Z;
  op_listener : option Listener;
  op_capabilities : option (gset Capability);
  op_services : list Service;  (* the values of the map *)
  op_supported_encodings : option (gset string);
  op_fetch_asset_handler : bool;
  op_channel_filter : option (ChannelDescriptor → bool);
  op_server_info : option (gmap string string);
  op_playback_time_range : option (Z * Z)
}.

Definition DEFAULT_MESSAGE_BACKLOG_SIZE : Z := 1024.

(** [Server::new]; [generated] is what [generate_session_id] returns. *)
Definition Server_new (generated : string) (opts : ServerOptions) : result FoxgloveError Server :=
  let capabilities := default ∅ (op_capabilities opts) in
  let supported_encodings := default ∅ (op_supported_encodings opts) in
  let '(capabilities, supported_encodings) :=
    match op_services opts with
    | [] => (capabilities, supported_encodings)
    | services => ({[CapServices]} ∪ capabilities,
                   supported_encodings ∪ list_to_set (omap request_encoding services))
    end in
  capabilities ← match op_playback_time_range opts with
                 | Some _ => Ok ({[CapRangedPlayback]} ∪ capabilities)
                 | None => if decide (CapRangedPlayback ∈ capabilities) then Panic
                           else Ok capabilities
                 end;
  let capabilities :=
    if op_fetch_asset_handler opts then {[CapAssets]} ∪ capabilities else capabilities in
  services ← ServiceMap_from_iter (op_services opts);
  Ok {| sv_message_backlog_size :=
          wrap 32 (default DEFAULT_MESSAGE_BACKLOG_SIZE (op_message_backlog_size opts));
        sv_session_id := default generated (op_session_id opts);
        sv_name := default ""%string (op_name opts);
        sv_clients := []; sv_clients_frozen := false;
        sv_channel_filter := op_channel_filter opts; sv_listener := op_listener opts;
        sv_capabilities := capabilities; sv_subscribed_parameters := ∅;
        sv_supported_encodings := supported_encodings;
        sv_connection_graph := ConnectionGraph_new; sv_cancelled := false;
        sv_services := services; sv_fetch_asset_handler := op_fetch_asset_handler opts;
        sv_tasks := false; sv_server_info := default ∅ (op_server_info opts);
        sv_playback_time_range := op_playback_time_range opts |}.

Definition set_clients (l : list ClientId) (frozen : bool) (s : Server) : Server :=
  {| sv_message_backlog_size := sv_message_backlog_size s; sv_session_id := sv_session_id s;
     sv_name := sv_name s; sv_clients := l; sv_clients_frozen := frozen;
     sv_channel_filter := sv_channel_filter s; sv_listener := sv_listener s;
     sv_capabilities := sv_capabilities s; sv_subscribed_parameters := sv_subscribed_parameters s;
     sv_supported_encodings := sv_supported_encodings s;
     sv_connection_graph := sv_connection_graph s; sv_cancelled := sv_cancelled s;
     sv_services := sv_services s; sv_fetch_asset_handler := sv_fetch_asset_handler s;
     sv_tasks := sv_tasks s; sv_server_info := sv_server_info s;
     sv_playback_time_range := sv_playback_time_range s |}.
Definition set_state (session_id : string) (params : gmap string (gset ClientId))
    (graph : ConnectionGraph) (services : ServiceMap) (s : Server) : Server :=
  {| sv_message_backlog_size := sv_message_backlog_size s; sv_session_id := session_id;
     sv_name := sv_name s; sv_clients := sv_clients s; sv_clients_frozen := sv_clients_frozen s;
     sv_channel_filter := sv_channel_filter s; sv_listener := sv_listener s;
     sv_capabilities := sv_capabilities s; sv_subscribed_parameters := params;
     sv_supported_encodings := sv_supported_encodings s; sv_connection_graph := graph;
     sv_cancelled := sv_cancelled s; sv_services := services;
     sv_fetch_asset_handler := sv_fetch_asset_handler s; sv_tasks := sv_tasks s;
     sv_server_info := sv_server_info s; sv_playback_time_range := sv_playback_time_range s |}.
Definition set_session_id (id : string) (s : Server) : Server :=
  set_state id (sv_subscribed_parameters s) (sv_connection_graph s) (sv_services s) s.
Definition set_params (p : gmap string (gset ClientId)) (s : Server) : Server :=
  set_state (sv_session_id s) p (sv_connection_graph s) (sv_services s) s.
Definition set_graph (g : ConnectionGraph) (s : Server) : Server :=
  set_state (sv_session_id s) (sv_subscribed_parameters s) g (sv_services s) s.
Definition set_services (m : ServiceMap) (s : Server) : Server :=
  set_state (sv_session_id s) (sv_subscribed_parameters s) (sv_connection_graph s) m s.
Definition set_tasks (tasks cancelled : bool) (s : Server) : Server :=
  {| sv_message_backlog_size := sv_message_backlog_size s; sv_session_id := sv_session_id s;
     sv_name := sv_name s; sv_clients := sv_clients s; sv_clients_frozen := sv_clients_frozen s;
     sv_channel_filter := sv_channel_filter s; sv_listener := sv_listener s;
     sv_capabilities := sv_capabilities s; sv_subscribed_parameters := sv_subscribed_parameters s;
     sv_supported_encodings := sv_supported_encodings s;
     sv_connection_graph := sv_connection_graph s; sv_cancelled := cancelled;
     sv_services := sv_services s; sv_fetch_asset_handler := sv_fetch_asset_handler s;
     sv_tasks := tasks; sv_server_info := sv_server_info s;
     sv_playback_time_range := sv_playback_time_range s |}.

Definition has_capability (s : Server) (cap : Capability) : bool :=
  bool_decide (cap ∈ sv_capabilities s).
Definition supports_encoding (s : Server) (encoding : string) : bool :=
  bool_decide (encoding ∈ sv_supported_encodings s).
Definition get_service (s : Server) (id : ServiceId) : option Service :=
  get_by_id id (sv_services s).
Definition service_ids (s : Server) : list (string * Z) :=
  (λ service, (svc_name service, svc_id service)) <$> ServiceMap_values (sv_services s).

(** [if let Some(listener) = ..]. *)
Definition notify (s : Server) (effects : list Effect) : list Effect :=
  match sv_listener s with Some _ => effects | None => [] end.

(** [start], up to binding the socket: the guard and the task set. *)
Definition start (s : Server) : result FoxgloveError Server :=
  if sv_tasks s || sv_cancelled s then Err ServerAlreadyStarted
  else Ok (set_tasks true (sv_cancelled s) s).

(** ** Parameter subscriptions *)

Abbreviation ParamSubs := (gmap string (gset ClientId)).

Definition subscribe_parameter (client_id : ClientId) (acc : ParamSubs * list string)
    (name : string) : ParamSubs * list string :=
  let '(subs, new_names) := acc in
  match subs !! name with
  | Some entry => (<[name := {[client_id]} ∪ entry]> subs, new_names)
  | None => (<[name := {[client_id]}]> subs, new_names ++ [name])
  end.
Definition subscribe_parameters (client_id : ClientId) (names : list string) (s : Server)
    : Server * list Effect :=
  let '(subs, new_names) :=
    foldl (subscribe_parameter client_id) (sv_subscribed_parameters s, []) names in
  (set_params subs s,
   match new_names with [] => [] | _ => notify s [EfParametersSubscribe new_names] end).

Definition unsubscribe_parameter (client_id : ClientId) (acc : ParamSubs * list string)
    (name : string) : ParamSubs * list string :=
  let '(subs, old_names) := acc in
  match subs !! name with
  | Some entry =>
    if decide (client_id ∈ entry) then
      let entry := entry ∖ {[client_id]} in
      if decide (entry = ∅) then (delete name subs, old_names ++ [name])
      else (<[name := entry]> subs, old_names)
    else (subs, old_names)
  | None => (subs, old_names)
  end.
Definition unsubscribe_parameters (client_id : ClientId) (names : list string) (s : Server)
    : Server * list Effect :=
  let '(subs, old_names) :=
    foldl (unsubscribe_parameter client_id) (sv_subscribed_parameters s, []) names in
  (set_params subs s,
   match old_names with [] => [] | _ => notify s [EfParametersUnsubscribe old_names] end).

(** The first loop removes the client everywhere and remembers the names it
    emptied, the second one removes those names. *)
Definition emptied_names (client_id : ClientId) (subs : ParamSubs) : list string :=
  omap (λ p : string * gset ClientId,
    if decide (client_id ∈ p.2 ∧ p.2 ∖ {[client_id]} = ∅) then Some p.1 else None)
    (map_to_list subs).
Definition unsubscribe_all_parameters (client_id : ClientId) (s : Server) : Server * list Effect :=
  let old_names := emptied_names client_id (sv_subscribed_parameters s) in
  let subs := (λ entry, entry ∖ {[client_id]}) <$> sv_subscribed_parameters s in
  let subs := foldl (λ subs name, delete name subs) subs old_names in
  (set_params subs s,
   match old_names with [] => [] | _ => notify s [EfParametersUnsubscribe old_names] end).

(** The parameters a client is sent. *)
Definition is_param_subscriber (s : Server) (client_id : ClientId) (p : Param) : bool :=
  match sv_subscribed_parameters s !! p_name p with
  | Some ids => bool_decide (client_id ∈ ids)
  | None => false
  end.
Definition filter_parameters (s : Server) (client_id : ClientId) (parameters : list Param)
    : list Param :=
  filter (λ p, is_param_subscriber s client_id p = true) parameters.

(** ** Connection graph subscriptions *)

Definition subscribe_connection_graph (client_id : ClientId) (s : Server)
    : option ConnectionGraphUpdate * Server * list Effect :=
  let first := negb (has_subscribers (sv_connection_graph s)) in
  let '(added, graph) := add_subscriber client_id (sv_connection_graph s) in
  let s := set_graph graph s in
  if added : bool then
    (Some (as_initial_update graph), s,
     if first then notify s [EfConnectionGraphSubscribe] else [])
  else (None, s, []).

Definition unsubscribe_connection_graph (client_id : ClientId) (s : Server)
    : bool * Server * list Effect :=
  let '(removed, graph) := remove_subscriber client_id (sv_connection_graph s) in
  let s := set_graph graph s in
  if removed : bool then
    (true, s, if has_subscribers graph then [] else notify s [EfConnectionGraphUnsubscribe])
  else (false, s, []).

(** ** Services *)

(** The checks on the new services themselves; [new_names] are those seen. *)
Fixpoint check_new_services (s : Server) (new_names : gset string) (services : list Service)
    : result FoxgloveError unit :=
  match services with
  | [] => Ok tt
  | service :: services =>
    _ ← ensure (negb (bool_decide (svc_name service ∈ new_names)))
          (DuplicateService (svc_name service));
    _ ← ensure (negb (bool_decide (request_encoding service = None) &&
                      bool_decide (sv_supported_encodings s = ∅)))
          (MissingRequestEncoding (svc_name service));
    check_new_services s ({[svc_name service]} ∪ new_names) services
  end.
(** The checks against the registered services. *)
Fixpoint check_unregistered (m : ServiceMap) (services : list Service)
    : result FoxgloveError unit :=
  match services with
  | [] => Ok tt
  | service :: services =>
    _ ← ensure (negb (contains_name (svc_name service) m || contains_id (svc_id service) m))
          (DuplicateService (svc_name service));
    check_unregistered m services
  end.

(** [add_services] on the server's own state: the new state, and whether the
    clients must be told.  [None] for the early return on an empty list. *)
Definition register_services (new_services : list Service) (s : Server)
    : result FoxgloveError (Server * bool) :=
  _ ← ensure (has_capability s CapServices) ServicesNotSupported;
  match new_services with
  | [] => Ok (s, false)
  | _ =>
    _ ← check_new_services s ∅ new_services;
    _ ← check_unregistered (sv_services s) new_services;
    services ← ServiceMap_extend new_services (sv_services s);
    Ok (set_services services s, true)
  end.

Fixpoint unregister_loop (names : list string) (m : ServiceMap) (old : gmap ServiceId string)
    : ServiceMap * gmap ServiceId string :=
  match names with
  | [] => (m, old)
  | name :: names =>
    let '(o, m) := remove_by_name name m in
    unregister_loop names m
      (match o with Some service => <[svc_id service := svc_name service]> old | None => old end)
  end.
Definition unregister_services (names : list string) (s : Server)
    : Server * gmap ServiceId string :=
  let '(m, old) := unregister_loop names (sv_services s) ∅ in (set_services m s, old).

(** ** Server info *)

Definition from_nsecs (timestamp : Z) : SerializedTimestamp :=
  {| sts_sec := default (2 ^ 32 - 1) (checked_unsigned 32 (timestamp / 10 ^ 9));
     sts_nsec := timestamp `mod` 10 ^ 9 |}.

Definition ADVERTISEMENT_TOKEN_METADATA_KEY : string := "advertisement-token".
(** [ServerInfo::new(..).with_capabilities(..)...]; [token] is
    [advertisement_token()] and [version] [get_library_version()]. *)
Definition server_info (version token : string) (s : Server) : ServerInfo := {|
  si_name := sv_name s;
  si_capabilities := elements (sv_capabilities s) ≫= as_protocol_capabilities;
  si_supported_encodings := elements (sv_supported_encodings s);
  si_metadata := <[ADVERTISEMENT_TOKEN_METADATA_KEY := token]>
    (<["fg-library"%string := version]> (sv_server_info s));
  si_session_id := Some (sv_session_id s);
  si_data_start_time := from_nsecs ∘ fst <$> sv_playback_time_range s;
  si_data_end_time := from_nsecs ∘ snd <$> sv_playback_time_range s
|}.

(** ** Parameter subscriptions: lemmas *)

Inductive ParamOp :=
| ParamSubscribe (client_id : ClientId) (names : list string)
| ParamUnsubscribe (client_id : ClientId) (names : list string)
| ParamUnsubscribeAll (client_id : ClientId).
Definition run_param (op : ParamOp) (s : Server) : Server * list Effect :=
  match op with
  | ParamSubscribe client_id names => subscribe_parameters client_id names s
  | ParamUnsubscribe client_id names => unsubscribe_parameters client_id names s
  | ParamUnsubscribeAll client_id => unsubscribe_all_parameters client_id s
  end.

(** The specification: the set of subscribers of each name. *)
Definition subscribers (subs : ParamSubs) (name : string) : gset ClientId :=
  default ∅ (subs !! name).
Definition param_spec (op : ParamOp) (R : string → gset ClientId) (name : string)
    : gset ClientId :=
  match op with
  | ParamSubscribe client_id names =>
    if decide (name ∈ names) then {[client_id]} ∪ R name else R name
  | ParamUnsubscribe client_id names =>
    if decide (name ∈ names) then R name ∖ {[client_id]} else R name
  | ParamUnsubscribeAll client_id => R name ∖ {[client_id]}
  end.

Definition params_ok (subs : ParamSubs) : Prop :=
  ∀ name ids, subs !! name = Some ids → ids ≠ ∅.

Lemma subscribers_empty subs name :
  params_ok subs → (subscribers subs name = ∅ ↔ subs !! name = None).
Proof.
  intros Hok. unfold subscribers. destruct (subs !! name) as [ids|] eqn:E; cbn; [|done].
  split; [|done]. intros ->. by destruct (Hok _ _ E).
Qed.

(** The names whose emptiness a step changes, with the step's own list. *)
Definition gains (subs subs' : ParamSubs) (l : list string) : Prop :=
  NoDup l ∧ ∀ name, name ∈ l ↔ subscribers subs name = ∅ ∧ subscribers subs' name ≠ ∅.
Definition loses (subs subs' : ParamSubs) (l : list string) : Prop :=
  NoDup l ∧ ∀ name, name ∈ l ↔ subscribers subs name ≠ ∅ ∧ subscribers subs' name = ∅.

Lemma union_idemp_assoc_L (X Y : gset ClientId) : X ∪ (X ∪ Y) = X ∪ Y.
Proof. by rewrite (assoc_L (∪)), (idemp_L (∪)). Qed.

Lemma first_gain (n : string) (X Y : gset ClientId) client_id :
  X ⊆ Y →
  (X = ∅ ∧ Y ≠ ∅) ∨ n = n ∧ Y = ∅ ↔ X = ∅ ∧ {[client_id]} ∪ Y ≠ ∅.
Proof.
  intros Hsub. assert ({[client_id]} ∪ Y ≠ ∅) as Hne by set_solver.
  split; [|destruct (decide (Y = ∅)); tauto]. intros [[? _]|[_ ->]]; [done|]. set_solver.
Qed.

Lemma subscribe_fold client_id names subs0 acc :
  params_ok subs0 →
  let '(subs, l) := acc in
  params_ok subs → gains subs0 subs l →
  (∀ name, subscribers subs0 name ⊆ subscribers subs name) →
  let '(subs', l') := foldl (subscribe_parameter client_id) acc names in
  params_ok subs' ∧ gains subs0 subs' l' ∧
  (∀ name, subscribers subs' name =
    if decide (name ∈ names) then {[client_id]} ∪ subscribers subs name else subscribers subs name).
Proof.
  intros H0. revert acc. induction names as [|n names IH]; intros [subs l] Hok [Hd Hg] Hsub.
  - cbn. split_and!; [done|done|]. intros name. by rewrite decide_False by (apply not_elem_of_nil).
  - cbn [foldl]. set (acc' := subscribe_parameter client_id (subs, l) n).
    assert (acc' = (<[n := {[client_id]} ∪ subscribers subs n]> subs,
                    if decide (subscribers subs n = ∅) then l ++ [n] else l)) as E.
    { unfold acc', subscribe_parameter, subscribers. destruct (subs !! n) as [ids|] eqn:En; cbn.
      - by rewrite decide_False by (by apply (Hok n)).
      - rewrite decide_True by done. by rewrite union_empty_r_L. }
    set (subs1 := <[n := _]> subs) in E.
    assert (∀ name, subscribers subs1 name =
      if decide (name = n) then {[client_id]} ∪ subscribers subs n else subscribers subs name) as Hs1.
    { intros name. unfold subs1, subscribers. destruct (decide (name = n)) as [->|Hn]; [by rewrite lookup_insert_eq|].
      by rewrite lookup_insert_ne. }
    assert (params_ok subs1) as Hok1.
    { intros name ids [[<- <-]|[_ ?]]%lookup_insert_Some; [set_solver|by eapply Hok]. }
    specialize (IH acc'). rewrite E in IH |- *. clear E acc'.
    assert (∀ name, subscribers subs0 name ⊆ subscribers subs1 name) as Hsub1.
    { intros name. rewrite Hs1. destruct (decide (name = n)) as [->|]; [|apply Hsub].
      etrans; [apply Hsub|]. apply union_subseteq_r. }
    assert (∀ name, name ∈ (if decide (subscribers subs n = ∅) then l ++ [n] else l) ↔
      name ∈ l ∨ name = n ∧ subscribers subs n = ∅) as Hl.
    { intros name. destruct (decide (subscribers subs n = ∅));
        [rewrite elem_of_app, list_elem_of_singleton|]; tauto. }
    destruct (foldl _ _ names) as [subs' l'] eqn:Ef. destruct IH as (? & ? & Hs'); [done| |done|].
    + split.
      * destruct (decide (subscribers subs n = ∅)) as [Hn|]; [|done].
        apply NoDup_app. split_and!; [done| |apply NoDup_singleton].
        intros name [_ Hne]%Hg ->%list_elem_of_singleton. done.
      * intros name. rewrite Hl, Hs1, Hg. destruct (decide (name = n)) as [->|Hne].
        -- apply first_gain, Hsub.
        -- tauto.
    + split_and!; [done|done|]. intros name. rewrite Hs', Hs1. clear.
      destruct (decide (name = n)) as [->|].
      * rewrite (decide_True (P := n ∈ n :: names)) by left.
        destruct (decide (n ∈ names)); [|done]. apply union_idemp_assoc_L.
      * assert (name ∈ n :: names ↔ name ∈ names) as Hi by set_solver.
        by rewrite (decide_ext _ _ _ _ Hi).
Qed.

Lemma difference_empty_l_L (X : gset ClientId) : ∅ ∖ X = ∅.
Proof. set_solver. Qed.

Lemma unsubscribe_step client_id n subs l :
  params_ok subs →
  let '(subs', l') := unsubscribe_parameter client_id (subs, l) n in
  params_ok subs' ∧
  (∀ name, subscribers subs' name =
    if decide (name = n) then subscribers subs name ∖ {[client_id]} else subscribers subs name) ∧
  l' = if decide (subscribers subs n ≠ ∅ ∧ subscribers subs' n = ∅) then l ++ [n] else l.
Proof.
  intros Hok. unfold unsubscribe_parameter, subscribers.
  destruct (subs !! n) as [ids|] eqn:En; cbn.
  2: { split_and!; [done| |by rewrite En, decide_False by tauto].
       intros name. case_decide as Hn; [|done]. rewrite Hn, En. cbn. by rewrite difference_empty_l_L. }
  pose proof (Hok n ids En) as Hids. destruct (decide (client_id ∈ ids)) as [Hin|Hin].
  - destruct (decide (ids ∖ {[client_id]} = ∅)) as [He|He].
    + split_and!.
      * intros name ids' [_ ?]%lookup_delete_Some. by eapply Hok.
      * intros name. destruct (decide (name = n)) as [->|Hn].
        -- rewrite lookup_delete_eq, En. cbn. by rewrite He.
        -- by rewrite lookup_delete_ne.
      * rewrite lookup_delete_eq. by rewrite decide_True.
    + split_and!.
      * intros name ids' [[<- <-]|[_ ?]]%lookup_insert_Some; [done|by eapply Hok].
      * intros name. destruct (decide (name = n)) as [->|Hn].
        -- by rewrite lookup_insert_eq, En.
        -- by rewrite lookup_insert_ne.
      * rewrite lookup_insert_eq. cbn. by rewrite decide_False by tauto.
  - split_and!; [done| |rewrite En; cbn; by rewrite decide_False by tauto].
    intros name. case_decide as Hn; [|done]. rewrite Hn, En. cbn. set_solver.
Qed.

Lemma last_loss (n : string) (X Y Z : gset ClientId) :
  X ⊆ Y → Y ⊆ Z →
  (Z ≠ ∅ ∧ Y = ∅) ∨ n = n ∧ Y ≠ ∅ ∧ X = ∅ ↔ Z ≠ ∅ ∧ X = ∅.
Proof.
  intros HXY HYZ. split.
  - intros [[? ->]|(_ & HY & ->)]; (split; [|done || set_solver]); [done|].
    intros ->. apply HY. set_solver.
  - intros [? ->]. destruct (decide (Y = ∅)); tauto.
Qed.

Lemma unsubscribe_fold client_id names subs0 acc :
  let '(subs, l) := acc in
  params_ok subs → loses subs0 subs l →
  (∀ name, subscribers subs name ⊆ subscribers subs0 name) →
  let '(subs', l') := foldl (unsubscribe_parameter client_id) acc names in
  params_ok subs' ∧ loses subs0 subs' l' ∧
  (∀ name, subscribers subs' name =
    if decide (name ∈ names) then subscribers subs name ∖ {[client_id]}
    else subscribers subs name).
Proof.
  revert acc. induction names as [|n names IH]; intros [subs l] Hok [Hd Hg] Hsub.
  - cbn. split_and!; [done|done|]. intros name. by rewrite decide_False by (apply not_elem_of_nil).
  - cbn [foldl]. pose proof (unsubscribe_step client_id n subs l Hok) as Hstep.
    destruct (unsubscribe_parameter client_id (subs, l) n) as [subs1 l1].
    destruct Hstep as (Hok1 & Hs1 & ->). set (l1 := if decide _ then _ else _).
    specialize (IH (subs1, l1)). cbn in IH.
    assert (∀ name, subscribers subs1 name ⊆ subscribers subs name) as Hsub1.
    { intros name. rewrite Hs1. destruct (decide (name = n)); [|done]. apply subseteq_difference_l. done. }
    assert (∀ name, name ∈ l1 ↔
      name ∈ l ∨ name = n ∧ subscribers subs n ≠ ∅ ∧ subscribers subs1 n = ∅) as Hl.
    { intros name. unfold l1. destruct (decide (subscribers subs n ≠ ∅ ∧ subscribers subs1 n = ∅));
        [rewrite elem_of_app, list_elem_of_singleton|]; tauto. }
    destruct (foldl _ _ names) as [subs' l'] eqn:Ef. destruct IH as (? & ? & Hs'); [done| | |].
    + split.
      * unfold l1. destruct (decide _) as [[Hn _]|]; [|done].
        apply NoDup_app. split_and!; [done| |apply NoDup_singleton].
        intros name [_ Hne]%Hg ->%list_elem_of_singleton. done.
      * intros name. rewrite Hl, Hg. destruct (decide (name = n)) as [->|Hne].
        -- apply last_loss; [apply Hsub1|apply Hsub].
        -- rewrite (Hs1 name), decide_False by done. tauto.
    + intros name. etrans; [apply Hsub1|apply Hsub].
    + split_and!; [done|done|]. intros name. rewrite Hs', Hs1. clear.
      destruct (decide (name = n)) as [->|].
      * rewrite (decide_True (P := n ∈ n :: names)) by left.
        destruct (decide (n ∈ names)); [|done].
        by rewrite difference_difference_l_L, (idemp_L (∪)).
      * assert (name ∈ n :: names ↔ name ∈ names) as Hi by set_solver.
        by rewrite (decide_ext _ _ _ _ Hi).
Qed.

Lemma elem_of_emptied client_id subs name :
  name ∈ emptied_names client_id subs ↔
  client_id ∈ subscribers subs name ∧ subscribers subs name ∖ {[client_id]} = ∅.
Proof.
  unfold emptied_names, subscribers. rewrite list_elem_of_omap. split.
  - intros ([n ids] & Hin%elem_of_map_to_list & Hd). cbn in Hd. case_decide; [|done].
    injection Hd as <-. by rewrite Hin.
  - destruct (subs !! name) as [ids|] eqn:E; cbn; [|set_solver]. intros Hd.
    exists (name, ids). rewrite elem_of_map_to_list. split; [done|]. cbn. by rewrite decide_True.
Qed.
Lemma NoDup_emptied client_id subs : NoDup (emptied_names client_id subs).
Proof.
  unfold emptied_names.
  assert (∀ l : list (string * gset ClientId), NoDup l.*1 →
    NoDup (omap (λ p, if decide (client_id ∈ p.2 ∧ p.2 ∖ {[client_id]} = ∅) then Some p.1 else None) l) ∧
    ∀ n, n ∈ omap (λ p, if decide (client_id ∈ p.2 ∧ p.2 ∖ {[client_id]} = ∅)
                        then Some p.1 else None) l → n ∈ l.*1) as H.
  { induction l as [|[n ids] l IH]; [by split; [constructor|]|].
    rewrite fmap_cons, NoDup_cons. intros [Hn Hl]. destruct (IH Hl) as [H1 H2].
    cbn [omap list_omap fst snd]. destruct (decide _).
    - split; [apply NoDup_cons; split; [|done]; by intros ?%H2|].
      intros m [->|?]%elem_of_cons; [left|right; auto].
    - split; [done|]. intros m ?. right. auto. }
  apply H, NoDup_fst_map_to_list.
Qed.
Lemma lookup_delete_all names (subs : ParamSubs) name :
  foldl (λ subs n, delete n subs) subs names !! name =
  if decide (name ∈ names) then None else subs !! name.
Proof.
  revert subs. induction names as [|n names IH]; intros subs; cbn.
  - by rewrite decide_False by (apply not_elem_of_nil).
  - rewrite IH. destruct (decide (name ∈ names)).
    + by rewrite decide_True by (by right).
    + destruct (decide (name = n)) as [->|Hne].
      * rewrite decide_True by left. apply lookup_delete_eq.
      * rewrite decide_False by set_solver. by apply lookup_delete_ne.
Qed.

Lemma unsubscribe_all_spec client_id subs :
  params_ok subs →
  let l := emptied_names client_id subs in
  let subs' := foldl (λ subs n, delete n subs) ((λ entry, entry ∖ {[client_id]}) <$> subs) l in
  params_ok subs' ∧ loses subs subs' l ∧
  (∀ name, subscribers subs' name = subscribers subs name ∖ {[client_id]}).
Proof.
  intros Hok l subs'.
  assert (∀ name, subscribers subs' name = subscribers subs name ∖ {[client_id]}) as Hs.
  { intros name. unfold subs', subscribers. rewrite lookup_delete_all, lookup_fmap.
    destruct (decide (name ∈ l)) as [Hl|Hl].
    - apply elem_of_emptied in Hl as [_ Hl]. unfold subscribers in Hl. by rewrite Hl.
    - destruct (subs !! name); cbn; [done|]. by rewrite difference_empty_l_L. }
  split_and!; [| |done].
  - intros name ids. unfold subs'. rewrite lookup_delete_all. case_decide as Hl; [done|].
    rewrite lookup_fmap. intros (ids' & Hids & ->)%fmap_Some.
    intros He. apply Hl. apply elem_of_emptied. unfold subscribers. rewrite Hids. cbn.
    pose proof (Hok _ _ Hids). split; [|done]. set_solver.
  - split; [apply NoDup_emptied|]. intros name. unfold l. rewrite elem_of_emptied, Hs.
    split; intros [? ?]; (split; [|done]); [set_solver|]. set_solver.
Qed.

(** What one operation does, on a map without empty sets. *)
Definition param_step (op : ParamOp) (s : Server) : Prop :=
  let '(s', effects) := run_param op s in
  let before := subscribers (sv_subscribed_parameters s) in
  let after := subscribers (sv_subscribed_parameters s') in
  s' = set_params (sv_subscribed_parameters s') s ∧
  params_ok (sv_subscribed_parameters s') ∧
  (∀ name, after name = param_spec op before name) ∧
  ∃ gained lost,
    gains (sv_subscribed_parameters s) (sv_subscribed_parameters s') gained ∧
    loses (sv_subscribed_parameters s) (sv_subscribed_parameters s') lost ∧
    effects = match gained with [] => [] | _ => notify s [EfParametersSubscribe gained] end ++
              match lost with [] => [] | _ => notify s [EfParametersUnsubscribe lost] end.

Lemma gains_nil subs subs' :
  (∀ name, subscribers subs' name ⊆ subscribers subs name) → gains subs subs' [].
Proof.
  intros Hs. split; [constructor|]. intros name. specialize (Hs name). split; [set_solver|].
  intros [E1 E2]. rewrite E1 in Hs. set_solver.
Qed.
Lemma loses_nil subs subs' :
  (∀ name, subscribers subs name ⊆ subscribers subs' name) → loses subs subs' [].
Proof.
  intros Hs. split; [constructor|]. intros name. specialize (Hs name). split; [set_solver|].
  intros [E1 E2]. rewrite E2 in Hs. set_solver.
Qed.

Lemma run_param_step op s : params_ok (sv_subscribed_parameters s) → param_step op s.
Proof.
  intros Hok. unfold param_step.
  destruct op as [c names|c names|c]; cbn [run_param param_spec];
    unfold subscribe_parameters, unsubscribe_parameters, unsubscribe_all_parameters.
  - pose proof (subscribe_fold c names (sv_subscribed_parameters s) (sv_subscribed_parameters s, [])
      Hok) as H. cbn in H. destruct (foldl _ _ names) as [subs l].
    destruct H as (Hok' & Hg & Hs); [done| |done|].
    { split; [constructor|]. intros name. split; [set_solver|tauto]. }
    cbn. split_and!; [done|done|done|]. exists l, []. split_and!; [done| |by rewrite app_nil_r].
    apply loses_nil. intros name. rewrite Hs. case_decide; set_solver.
  - pose proof (unsubscribe_fold c names (sv_subscribed_parameters s) (sv_subscribed_parameters s, []))
      as H. cbn in H. destruct (foldl _ _ names) as [subs l].
    destruct H as (Hok' & Hg & Hs); [done| |done|].
    { split; [constructor|]. intros name. split; [set_solver|tauto]. }
    cbn. split_and!; [done|done|done|]. exists [], l. split_and!; [|done|done].
    apply gains_nil. intros name. rewrite Hs. case_decide; set_solver.
  - destruct (unsubscribe_all_spec c _ Hok) as (Hok' & Hg & Hs). cbn.
    split_and!; [done|done|done|]. exists [], (emptied_names c (sv_subscribed_parameters s)).
    split_and!; [|done|done]. apply gains_nil. intros name. rewrite Hs. set_solver.
Qed.

Definition run_params (ops : list ParamOp) (s : Server) : Server :=
  foldl (λ s op, (run_param op s).1) s ops.
Lemma run_params_ok ops s :
  params_ok (sv_subscribed_parameters s) →
  params_ok (sv_subscribed_parameters (run_params ops s)).
Proof.
  revert s. induction ops as [|op ops IH]; intros s Hok; [done|]. cbn. apply IH.
  pose proof (run_param_step op s Hok) as H. unfold param_step in H.
  destruct (run_param op s). by destruct H as (_ & ? & _).
Qed.

(** ** Services: lemmas *)

Definition services_wf (s : Server) : Prop := sm_wf (sv_services s).

Lemma check_new_services_Ok s seen l :
  check_new_services s seen l = Ok tt ↔
  NoDup (svc_name <$> l) ∧ Forall (λ v, svc_name v ∉ seen) l ∧
  Forall (λ v, request_encoding v ≠ None ∨ sv_supported_encodings s ≠ ∅) l.
Proof.
  revert seen. induction l as [|v l IH]; intros seen; cbn [check_new_services].
  - split; [|done]. intros _. split_and!; constructor.
  - rewrite fmap_cons, NoDup_cons, !Forall_cons.
    destruct (decide (svc_name v ∈ seen)) as [Hv|Hv].
    { rewrite (bool_decide_eq_true_2 _ Hv). cbn. naive_solver. }
    rewrite (bool_decide_eq_false_2 _ Hv). cbn [ensure negb mbind result_bind].
    destruct (negb (bool_decide (request_encoding v = None) &&
      bool_decide (sv_supported_encodings s = ∅))) eqn:Eq; cbn [ensure mbind result_bind].
    + rewrite IH. apply negb_true_iff, andb_false_iff in Eq. rewrite !bool_decide_eq_false in Eq.
      assert (Forall (λ w, svc_name w ∉ {[svc_name v]} ∪ seen) l ↔
        (svc_name v ∉ svc_name <$> l) ∧ Forall (λ w, svc_name w ∉ seen) l) as ->.
      { rewrite !Forall_forall. rewrite list_elem_of_fmap. setoid_rewrite not_elem_of_union.
        setoid_rewrite not_elem_of_singleton. naive_solver. }
      tauto.
    + apply negb_false_iff, andb_true_iff in Eq. rewrite !bool_decide_eq_true in Eq.
      split; [done|]. tauto.
Qed.
Lemma check_new_services_total s seen l : check_new_services s seen l ≠ Panic.
Proof.
  revert seen. induction l as [|v l IH]; intros seen; cbn [check_new_services]; [done|].
  apply no_panic_bind; [apply ensure_no_panic|]. intros _ _.
  apply no_panic_bind; [apply ensure_no_panic|]. intros _ _. apply IH.
Qed.
Lemma check_unregistered_Ok m l :
  check_unregistered m l = Ok tt ↔
  ∀ v, v ∈ l → contains_name (svc_name v) m = false ∧ contains_id (svc_id v) m = false.
Proof.
  induction l as [|v l IH]; cbn [check_unregistered].
  - split; [|done]. intros _ v Hv. by apply not_elem_of_nil in Hv.
  - destruct (contains_name (svc_name v) m || contains_id (svc_id v) m) eqn:E; cbn.
    + split; [done|]. intros H. destruct (H v) as [H1 H2]; [left|]. by rewrite H1, H2 in E.
    + rewrite IH. apply orb_false_iff in E. setoid_rewrite elem_of_cons. naive_solver.
Qed.
Lemma check_unregistered_total m l : check_unregistered m l ≠ Panic.
Proof.
  induction l as [|v l IH]; cbn [check_unregistered]; [done|].
  apply no_panic_bind; [apply ensure_no_panic|]. intros _ _. apply IH.
Qed.

(** The collected names are those of the services that are gone. *)
Lemma unregister_loop_spec names m old :
  sm_wf m → (∀ id, is_Some (old !! id) → sm_id m !! id = None) →
  let '(m', old') := unregister_loop names m old in
  sm_wf m' ∧
  (∀ id v, sm_id m' !! id = Some v ↔ sm_id m !! id = Some v ∧ svc_name v ∉ names) ∧
  (∀ id n, old' !! id = Some n ↔ old !! id = Some n ∨
    ∃ v, sm_id m !! id = Some v ∧ svc_name v = n ∧ n ∈ names).
Proof.
  revert m old. induction names as [|name names IH]; intros m old Hm Hdis; cbn [unregister_loop].
  - setoid_rewrite elem_of_nil. naive_solver.
  - pose proof (remove_by_name_spec name m Hm) as Hr.
    destruct (remove_by_name name m) as [o m1]. destruct Hr as (Hm1 & Hid & Ho).
    set (old1 := match o with Some v => <[svc_id v := svc_name v]> old | None => old end).
    assert (∀ id n, old1 !! id = Some n ↔ old !! id = Some n ∨
      ∃ v, sm_id m !! id = Some v ∧ svc_name v = n ∧ n = name) as Hold1.
    { intros id n. unfold old1. destruct o as [v|].
      - destruct (proj1 (Ho v) eq_refl) as [Hv Hname].
        rewrite lookup_insert_Some. split.
        + intros [[<- <-]|[_ ?]]; [right|by left]. by exists v.
        + intros [Hn|(v' & Hv' & <- & Hn)].
          * right. split; [|done]. intros <-. rewrite Hdis in Hv; [done|eauto].
          * left. assert (Some v = Some v') as [= <-] by (apply Ho; by destruct (smw_id m Hm _ _ Hv') as [-> _]).
            by destruct (smw_id m Hm _ _ Hv') as [-> _].
      - split; [by left|]. intros [?|(v & Hv & <- & Hn)]; [done|].
        assert (None = Some v) as [=]. apply Ho. by destruct (smw_id m Hm _ _ Hv) as [-> _]. }
    assert (∀ id, is_Some (old1 !! id) → sm_id m1 !! id = None) as Hdis1.
    { intros id [n Hn%Hold1]. destruct (sm_id m1 !! id) as [v|] eqn:E; [|done].
      apply Hid in E as [Hv Hne]. destruct Hn as [Hn|(v' & Hv' & En & En')].
      - rewrite Hdis in Hv; [done|eauto].
      - congruence. }
    specialize (IH m1 old1 Hm1 Hdis1). destruct (unregister_loop names m1 old1) as [m' old'].
    destruct IH as (Hm' & Hid' & Hold'). split_and!; [done| |].
    + intros id v. rewrite Hid', Hid, not_elem_of_cons. tauto.
    + intros id n. rewrite Hold', Hold1. setoid_rewrite Hid. setoid_rewrite elem_of_cons.
      destruct (decide (n = name)); naive_solver.
Qed.

(** ** Properties *)

(** Parameter subscriptions implement a set of (name, client) pairs.  After
    any sequence of subscriptions, unsubscriptions and disconnections, the next
    operation changes the subscribers of every name as specified: the named
    ones gain the client, lose the client, or all names lose the client.  The
    map never keeps a name without subscribers.  The listener, if there is one,
    is told once, in one call, exactly the names that got their first
    subscriber, each name once even if the request repeats it; and likewise
    the names that lost their last. *)
Theorem Params_refine (ops : list ParamOp) (op : ParamOp) (s0 : Server) :
  sv_subscribed_parameters s0 = ∅ →
  let s := run_params ops s0 in
  let '(s', effects) := run_param op s in
  let before := subscribers (sv_subscribed_parameters s) in
  let after := subscribers (sv_subscribed_parameters s') in
  (∀ name, after name = param_spec op before name) ∧
  (∀ name, after name ≠ ∅ ↔ is_Some (sv_subscribed_parameters s' !! name)) ∧
  ∃ gained lost,
    NoDup gained ∧ (∀ name, name ∈ gained ↔ before name = ∅ ∧ after name ≠ ∅) ∧
    NoDup lost ∧ (∀ name, name ∈ lost ↔ before name ≠ ∅ ∧ after name = ∅) ∧
    effects = match gained with [] => [] | _ => notify s [EfParametersSubscribe gained] end ++
              match lost with [] => [] | _ => notify s [EfParametersUnsubscribe lost] end.
Proof.
  intros H0 s. assert (params_ok (sv_subscribed_parameters s)) as Hok.
  { apply run_params_ok. intros name ids. by rewrite H0, lookup_empty. }
  pose proof (run_param_step op s Hok) as H. unfold param_step in H.
  destruct (run_param op s) as [s' effects].
  destruct H as (_ & Hok' & Hs & gained & lost & [Hg Hg'] & [Hl Hl'] & ->).
  split_and!; [done| |by exists gained, lost]. intros name.
  rewrite subscribers_empty by done. by rewrite <- not_eq_None_Some.
Qed.

Definition demo_options (caps : list Capability) (services : list Service) : ServerOptions :=
  {| op_session_id := Some "session"%string; op_name := None; op_message_backlog_size := None;
     op_listener := Some {| on_get_parameters _ _ _ := []; on_set_parameters _ ps _ := ps;
       on_playback_control_request _ := None |};
     op_capabilities := Some (list_to_set caps); op_services := services;
     op_supported_encodings := None; op_fetch_asset_handler := false; op_channel_filter := None;
     op_server_info := None; op_playback_time_range := None |}.
Definition demo_server : Server :=
  match Server_new "" (demo_options [CapParameters; CapServices] [demo_service]) with
  | Ok s => s
  | _ => set_clients [] true {|
      sv_message_backlog_size := 0; sv_session_id := ""; sv_name := ""; sv_clients := [];
      sv_clients_frozen := false; sv_channel_filter := None; sv_listener := None;
      sv_capabilities := ∅; sv_subscribed_parameters := ∅; sv_supported_encodings := ∅;
      sv_connection_graph := ConnectionGraph_new; sv_cancelled := false;
      sv_services := ServiceMap_default; sv_fetch_asset_handler := false; sv_tasks := false;
      sv_server_info := ∅; sv_playback_time_range := None |}
  end.
Lemma Params_refine_witness :
  (run_param (ParamUnsubscribeAll 1)
    (run_params [ParamSubscribe 1 ["a"; "b"; "a"]; ParamSubscribe 2 ["b"]] demo_server)).2 =
    [EfParametersUnsubscribe ["a"%string]] ∧
  let s := run_params [ParamSubscribe 1 ["a"; "b"; "a"]; ParamSubscribe 2 ["b"]] demo_server in
  let '(s', effects) := run_param (ParamUnsubscribeAll 1) s in
  let before := subscribers (sv_subscribed_parameters s) in
  let after := subscribers (sv_subscribed_parameters s') in
  (∀ name, after name = before name ∖ {[1]}) ∧
  (∀ name, after name ≠ ∅ ↔ is_Some (sv_subscribed_parameters s' !! name)) ∧
  ∃ gained lost,
    NoDup gained ∧ (∀ name, name ∈ gained ↔ before name = ∅ ∧ after name ≠ ∅) ∧
    NoDup lost ∧ (∀ name, name ∈ lost ↔ before name ≠ ∅ ∧ after name = ∅) ∧
    effects = match gained with [] => [] | _ => notify s [EfParametersSubscribe gained] end ++
              match lost with [] => [] | _ => notify s [EfParametersUnsubscribe lost] end.
Proof.
  split; [by vm_compute|].
  apply (Params_refine [ParamSubscribe 1 ["a"; "b"; "a"]; ParamSubscribe 2 ["b"]]
    (ParamUnsubscribeAll 1) demo_server). reflexivity.
Defined.

(** Registering services is all or nothing.  Given distinct ids, which
    [ServiceId::next] provides, [add_services] never trips an assertion of the
    service map.  It succeeds exactly when the server has the services
    capability and, for a non-empty list, the names are distinct and new, the
    ids are new, and every service either declares a request encoding or can
    use one the server supports; then the services are all added.  Otherwise
    it returns an error, and no state is kept. *)
Theorem register_services_spec (new : list Service) (s : Server) :
  services_wf s → NoDup (svc_id <$> new) →
  match register_services new s with
  | Ok (s', told) =>
    CapServices ∈ sv_capabilities s ∧
    NoDup (svc_name <$> new) ∧
    (∀ v, v ∈ new → contains_name (svc_name v) (sv_services s) = false ∧
      contains_id (svc_id v) (sv_services s) = false ∧
      (request_encoding v ≠ None ∨ sv_supported_encodings s ≠ ∅)) ∧
    (told = true ↔ new ≠ []) ∧
    s' = set_services (sv_services s') s ∧ services_wf s' ∧
    (∀ id v, get_service s' id = Some v ↔ get_service s id = Some v ∨ v ∈ new ∧ svc_id v = id)
  | Err e =>
    (e = ServicesNotSupported ∧ CapServices ∉ sv_capabilities s) ∨
    CapServices ∈ sv_capabilities s ∧
    ¬ (NoDup (svc_name <$> new) ∧
       ∀ v, v ∈ new → contains_name (svc_name v) (sv_services s) = false ∧
         contains_id (svc_id v) (sv_services s) = false ∧
         (request_encoding v ≠ None ∨ sv_supported_encodings s ≠ ∅))
  | Panic => False
  end.
Proof.
  intros Hwf Hid. unfold register_services, has_capability.
  destruct (decide (CapServices ∈ sv_capabilities s)) as [Hc|Hc].
  2: { rewrite bool_decide_eq_false_2 by done. cbn. by left. }
  rewrite bool_decide_eq_true_2 by done. cbn [ensure mbind result_bind].
  destruct new as [|v0 new0].
  { split_and!; [done|constructor| |done|by destruct s|done|].
    - intros v Hv. by apply not_elem_of_nil in Hv.
    - intros id v. split; [by left|]. intros [?|[Hv _]]; [done|]. by apply not_elem_of_nil in Hv. }
  set (new := v0 :: new0) in *.
  pose proof (check_new_services_Ok s ∅ new) as H1. pose proof (check_new_services_total s ∅ new) as T1.
  pose proof (check_unregistered_Ok (sv_services s) new) as H2.
  pose proof (check_unregistered_total (sv_services s) new) as T2.
  destruct (check_new_services s ∅ new) as [[]|e|]; [| |done]; cbn [mbind result_bind].
  2: { right. split; [done|]. intros [Hn Hall]. enough (Err e = Ok tt) by done. apply H1.
       split_and!; [done| |]; apply Forall_forall; intros v Hv; [set_solver|by apply Hall]. }
  destruct (proj1 H1 eq_refl) as (Hn & _ & Henc). rewrite Forall_forall in Henc.
  destruct (check_unregistered (sv_services s) new) as [[]|e|]; [| |done]; cbn [mbind result_bind].
  2: { right. split; [done|]. intros [_ Hall]. enough (Err e = Ok tt) by done. apply H2.
       intros v Hv. by destruct (Hall v Hv) as (? & ? & _). }
  pose proof (proj1 H2 eq_refl) as Hfresh.
  destruct (ServiceMap_extend_fresh (E := FoxgloveError) new (sv_services s)) as (m & -> & Hm & Hl); [done..|].
  cbn [mbind result_bind]. split_and!; [done|done| |by split|done|done|exact Hl].
  intros v Hv. destruct (Hfresh v Hv). auto.
Qed.

Lemma register_services_spec_witness :
  let v := {| svc_id := 9; svc_name := "/t"; svc_schema := svc_schema demo_service |} in
  ∃ s', register_services [v] demo_server = Ok (s', true) ∧
    get_service s' 9 = Some v.
Proof.
  intros v. pose proof (register_services_spec [v] demo_server) as H.
  destruct (register_services [v] demo_server) as [[s' told]|e|] eqn:E;
    [|exfalso; vm_compute in E; discriminate E..].
  destruct H as (_ & _ & _ & Ht & _ & _ & Hg).
  - split; intros id' n.
    + intros Hid. vm_compute in Hid. destruct id' as [|p|p]; try discriminate Hid.
      repeat (destruct p as [p|p|]; try discriminate Hid). injection Hid as <-. split; reflexivity.
    + intros Hn. assert (id' = "/s"%string ∧ n = 5) as [-> ->]; [|eexists; split; reflexivity].
      change (sm_name (sv_services demo_server)) with (<["/s"%string := 5]> (∅ : gmap string Z)) in Hn.
      apply lookup_insert_Some in Hn as [[<- <-]|[_ Hn]]; [done|]. by rewrite lookup_empty in Hn.
  - apply NoDup_singleton.
  - exists s'. assert (told = true) as -> by (by apply Ht). split; [done|].
    apply Hg. right. split; [left|done].
Defined.

(** Removing services by name.  [remove_services] leaves exactly the
    services of other names, and collects the id and name of each service it
    removed, which is what the clients are told; unknown names are ignored. *)
Theorem unregister_services_spec (names : list string) (s : Server) :
  services_wf s →
  let '(s', old) := unregister_services names s in
  s' = set_services (sv_services s') s ∧ services_wf s' ∧
  (∀ id v, get_service s' id = Some v ↔ get_service s id = Some v ∧ svc_name v ∉ names) ∧
  (∀ id n, old !! id = Some n ↔
    ∃ v, get_service s id = Some v ∧ svc_name v = n ∧ n ∈ names).
Proof.
  intros Hwf. unfold unregister_services.
  pose proof (unregister_loop_spec names (sv_services s) ∅ Hwf) as H.
  destruct (unregister_loop names (sv_services s) ∅) as [m old].
  destruct H as (Hm & Hid & Hold).
  { intros id. rewrite lookup_empty. by intros []. }
  split_and!; [done|done|exact Hid|]. intros id n. rewrite Hold, lookup_empty.
  split; [by intros [?|?]|by right].
Qed.

Lemma unregister_services_spec_witness :
  sv_services demo_server = {| sm_id := <[5 := demo_service]> ∅; sm_name := <["/s"%string := 5]> ∅ |} ∧
  get_service (unregister_services ["/x"; "/s"]%string demo_server).1 5 = None.
Proof.
  split; [reflexivity|].
  pose proof (unregister_services_spec ["/x"; "/s"]%string demo_server) as H.
  destruct (unregister_services ["/x"; "/s"]%string demo_server) as [s' old] eqn:E.
  destruct H as (_ & _ & Hg & _).
  - split; intros id' n.
    + intros Hid. change (sm_id (sv_services demo_server)) with
        (<[5 := demo_service]> (∅ : gmap Z Service)) in Hid.
      apply lookup_insert_Some in Hid as [[<- <-]|[_ Hn]]; [by split|]. by rewrite lookup_empty in Hn.
    + intros Hn. change (sm_name (sv_services demo_server)) with (<["/s"%string := 5]> (∅ : gmap string Z)) in Hn.
      apply lookup_insert_Some in Hn as [[<- <-]|[_ Hn]]; [by eexists|]. by rewrite lookup_empty in Hn.
  - cbn. destruct (get_service s' 5) as [v|] eqn:Ev; [|done].
    apply Hg in Ev as [Ev Hn]. destruct Hn. assert (v = demo_service) as ->; [|by right; left].
    vm_compute in Ev. by injection Ev as <-.
Defined.

(** What a new server announces.  [Server::new] panics exactly when ranged
    playback is declared without a time range or two of the services share an
    id or a name; otherwise the capabilities are the declared ones, with
    services, assets and ranged playback added when services, an asset handler
    or a time range are given, so that every protocol capability in the server
    info is backed by the configuration. *)
Theorem Server_new_capabilities (generated : string) (opts : ServerOptions) :
  let declared := default ∅ (op_capabilities opts) in
  match Server_new generated opts with
  | Ok s =>
    (∀ cap, has_capability s cap = true ↔
      cap ∈ declared ∨ cap = CapServices ∧ op_services opts ≠ [] ∨
      cap = CapAssets ∧ op_fetch_asset_handler opts = true ∨
      cap = CapRangedPlayback ∧ op_playback_time_range opts ≠ None) ∧
    (∀ version token pc, pc ∈ si_capabilities (server_info version token s) ↔
      ∃ cap, has_capability s cap = true ∧ pc ∈ as_protocol_capabilities cap) ∧
    (has_capability s CapRangedPlayback = true ↔
      ∃ info, si_data_start_time (server_info "" "" s) = Some info) ∧
    services_wf s ∧ fits 32 (sv_message_backlog_size s)
  | Err _ => False
  | Panic =>
    (CapRangedPlayback ∈ declared ∧ op_playback_time_range opts = None) ∨
    ServiceMap_from_iter (E := FoxgloveError) (op_services opts) = Panic
  end.
Proof.
  intros declared. unfold Server_new. fold declared.
  set (p := match op_services opts with [] => _ | _ => _ end).
  assert (∀ cap, cap ∈ p.1 ↔ cap ∈ declared ∨ cap = CapServices ∧ op_services opts ≠ []) as Hp.
  { intros cap. unfold p. destruct (op_services opts); cbn; [naive_solver|].
    rewrite elem_of_union, elem_of_singleton. naive_solver. }
  destruct p as [caps encs]. cbn in Hp.
  assert (∀ (l : list Service) m, sm_wf m →
    match ServiceMap_extend (E := FoxgloveError) l m with Ok m' => sm_wf m' | Err _ => False | Panic => True end)
    as Hext.
  { intros l. induction l as [|v l IH]; intros m Hm; cbn; [done|].
    destruct (ServiceMap_insert v m) as [m'|e|] eqn:E; cbn; [| |done].
    2: { unfold ServiceMap_insert in E. destruct (sm_name m !! svc_name v); [done|].
         by destruct (sm_id m !! svc_id v). }
    apply IH. by eapply ServiceMap_insert_wf. }
  specialize (Hext (op_services opts) ServiceMap_default sm_wf_default).
  fold (ServiceMap_from_iter (E := FoxgloveError) (op_services opts)) in Hext.
  destruct (op_playback_time_range opts) as [[t1 t2]|] eqn:Er; cbn [mbind result_bind].
  2: destruct (decide (CapRangedPlayback ∈ caps)) as [Hin|Hin]; cbn [mbind result_bind].
  2: { left. split; [|done]. apply Hp in Hin as [?|[? _]]; done. }
  all: destruct (ServiceMap_from_iter (op_services opts)) as [m|e|]; cbn [mbind result_bind];
    [|done|by right].
  all: set (s := {| sv_capabilities := _ |}).
  all: assert (∀ cap, has_capability s cap = true ↔
      cap ∈ declared ∨ cap = CapServices ∧ op_services opts ≠ [] ∨
      cap = CapAssets ∧ op_fetch_asset_handler opts = true ∨
      cap = CapRangedPlayback ∧ sv_playback_time_range s ≠ None) as Hcap.
  1, 3: intros cap; unfold has_capability; rewrite bool_decide_eq_true; cbn;
    destruct (op_fetch_asset_handler opts);
    rewrite ?elem_of_union, ?elem_of_singleton, Hp, ?Er; naive_solver.
  all: split; [intros cap; exact (Hcap cap)|].
  all: split; [intros version token pc; cbn; rewrite list_elem_of_bind; unfold has_capability;
    setoid_rewrite bool_decide_eq_true; setoid_rewrite elem_of_elements; naive_solver|].
  all: split; [|split; [exact Hext|apply wrap_fits; lia]].
  - rewrite Hcap. cbn. split; [by eexists|]. intros _. do 3 right. done.
  - rewrite Hcap. cbn. split; [|by intros [? ?]].
    intros [Hd|[[? _]|[[? _]|[_ ?]]]]; try done. destruct Hin. apply Hp. by left.
Qed.

(** Timestamps in the server info: seconds and nanoseconds rebuild the
    timestamp as long as the seconds fit 32 bits (until the year 2106); beyond
    that the seconds saturate at their maximum while the nanoseconds remain
    those of the timestamp.  Both always fit their 32-bit fields. *)
Theorem from_nsecs_spec (timestamp : Z) :
  fits 64 timestamp →
  let t := from_nsecs timestamp in
  fits 32 (sts_sec t) ∧ 0 ≤ sts_nsec t < 10 ^ 9 ∧
  (timestamp < 2 ^ 32 * 10 ^ 9 → sts_sec t * 10 ^ 9 + sts_nsec t = timestamp) ∧
  (2 ^ 32 * 10 ^ 9 ≤ timestamp → sts_sec t = 2 ^ 32 - 1).
Proof.
  intros Ht t. unfold t, from_nsecs, checked_unsigned. cbn [sts_sec sts_nsec].
  pose proof (Z.mod_pos_bound timestamp (10 ^ 9) ltac:(lia)).
  pose proof (Z.div_mod timestamp (10 ^ 9) ltac:(lia)) as Hdm.
  unfold fits in *. case_decide as Hd; cbn; split_and!; try lia.
Qed.

Lemma from_nsecs_spec_witness :
  from_nsecs (5 * 10 ^ 9 + 7) = {| sts_sec := 5; sts_nsec := 7 |} ∧
  sts_sec (from_nsecs (2 ^ 64 - 1)) = 2 ^ 32 - 1.
Proof.
  split; [reflexivity|]. apply (from_nsecs_spec (2 ^ 64 - 1)); unfold fits; lia.
Defined.
