(* ===== verification/Session.v ===== *)
(** * Session: the server, its clients and the context together

    The handlers of `websocket/connected_client.rs` and the operations of
    `websocket/server.rs` that reach several components, the responders of
    `service/response.rs` and `fetch_asset.rs`, and the life of a connection
    (`handle_connection` to `unregister_client`).

    A [System] holds the server, every client that has ever connected, the
    context of Context.v with its trace, the responders that handlers still
    hold, and the effects seen by the listener and the handlers.  A client is
    a [Sink] of the context: the context's operations leave their callbacks in
    the trace, and [run_context] passes those of a client's sink on to the
    client ([dispatch]), which is faithful because the answers of a client are
    constant and its callbacks do not read the context.

    A [Panic] is an [assert!], an [unreachable!] or a loop without fuel. *)

From S2P Require Import Prelude Bytes Messages Wire WireProofs ConnectionGraph Channel.
From S2P Require Import Subscriptions Context Advertise Services Token Outbox Client Server.
Local Open Scope Z_scope.

(** ** Responders *)

(** [Inner] of a service [Responder]; its guard is a unit of the client's
    semaphore. *)
Record ResponderInner := {
  ri_client : ClientId;
  ri_service_id : ServiceId;
  ri_call_id : CallId;
  ri_encoding : string
}.
Record AssetResponderInner := { ai_client : ClientId; ai_request_id : Z }.

(** A responder is [None] once it has responded.  Each is used by one handler;
    the key in [Effect] finds it. *)
Inductive Responder :=
| ServiceResponder (inner : option ResponderInner)
| AssetResponder (inner : option AssetResponderInner).

(** What an external handler does with its responder. *)
Inductive Response := RespondOk (data : list byte) | RespondErr (message : string).

Section session.
Context `{HF : Flume} `{HM : BiMap} `{HB : Buf} `{HJ : Json} `{H64 : Base64}.

Record System := {
  sys_server : Server;
  sys_clients : gmap ClientId ConnectedClient;
  sys_running : gset ClientId;  (* clients whose poll loop runs *)
  sys_sink_owner : gmap SinkId ClientId;  (* the client behind a sink *)
  sys_next_client : Z;  (* the counters of [ClientId::next] and [SinkId::next] *)
  sys_next_sink : Z;
  sys_context : ContextInner;
  sys_world : World;
  sys_responders : list Responder;
  sys_effects : list Effect
}.

(** *** Updates *)

Definition with_server (sv : Server) (effects : list Effect) (s : System) : System :=
  {| sys_server := sv; sys_clients := sys_clients s; sys_running := sys_running s;
     sys_sink_owner := sys_sink_owner s; sys_next_client := sys_next_client s;
     sys_next_sink := sys_next_sink s; sys_context := sys_context s; sys_world := sys_world s;
     sys_responders := sys_responders s; sys_effects := sys_effects s ++ effects |}.
Definition with_clients (m : gmap ClientId ConnectedClient) (s : System) : System :=
  {| sys_server := sys_server s; sys_clients := m; sys_running := sys_running s;
     sys_sink_owner := sys_sink_owner s; sys_next_client := sys_next_client s;
     sys_next_sink := sys_next_sink s; sys_context := sys_context s; sys_world := sys_world s;
     sys_responders := sys_responders s; sys_effects := sys_effects s |}.
Definition with_context (x : ContextInner) (w : World) (s : System) : System :=
  {| sys_server := sys_server s; sys_clients := sys_clients s; sys_running := sys_running s;
     sys_sink_owner := sys_sink_owner s; sys_next_client := sys_next_client s;
     sys_next_sink := sys_next_sink s; sys_context := x; sys_world := w;
     sys_responders := sys_responders s; sys_effects := sys_effects s |}.
Definition with_responders (l : list Responder) (s : System) : System :=
  {| sys_server := sys_server s; sys_clients := sys_clients s; sys_running := sys_running s;
     sys_sink_owner := sys_sink_owner s; sys_next_client := sys_next_client s;
     sys_next_sink := sys_next_sink s; sys_context := sys_context s; sys_world := sys_world s;
     sys_responders := l; sys_effects := sys_effects s |}.
Definition with_running (r : gset ClientId) (s : System) : System :=
  {| sys_server := sys_server s; sys_clients := sys_clients s; sys_running := r;
     sys_sink_owner := sys_sink_owner s; sys_next_client := sys_next_client s;
     sys_next_sink := sys_next_sink s; sys_context := sys_context s; sys_world := sys_world s;
     sys_responders := sys_responders s; sys_effects := sys_effects s |}.

Definition effect (e : Effect) (s : System) : System := with_server (sys_server s) [e] s.
(** A call of the listener, if there is one. *)
Definition tell (e : Effect) (s : System) : System :=
  with_server (sys_server s) (notify (sys_server s) [e]) s.
Definition on_client (id : ClientId) (f : ConnectedClient → ConnectedClient) (s : System) : System :=
  with_clients (alter f id (sys_clients s)) s.
Definition try_client (id : ClientId) (f : ConnectedClient → result string ConnectedClient)
    (s : System) : result string System :=
  match sys_clients s !! id with
  | Some c => c ← f c; Ok (with_clients (<[id := c]> (sys_clients s)) s)
  | None => Ok s
  end.
(** A change of the server alone. *)
Definition on_server (f : Server → Server * list Effect) (s : System) : System :=
  let '(sv, effects) := f (sys_server s) in with_server sv effects s.
Definition for_clients (f : ClientId → System → System) (s : System) : System :=
  foldl (λ s id, f id s) s (sv_clients (sys_server s)).

(** *** The context *)

(** A callback of the context on the sink of a client. *)
Definition dispatch (e : Event) (s : System) : result string System :=
  let sids := service_ids (sys_server s) in
  match e with
  | EvAddChannels sink ids =>
    match sys_sink_owner s !! sink with
    | Some id => Ok (on_client id (client_add_channels sids
        (omap (λ ch, channels (sys_context s) !! ch) ids)) s)
    | None => Ok s
    end
  | EvRemoveChannel sink ch =>
    match sys_sink_owner s !! sink with
    | Some id => Ok (on_client id (client_remove_channel sids ch) s)
    | None => Ok s
    end
  | EvLog sink ch msg metadata =>
    match sys_sink_owner s !! sink with
    | Some id => try_client id (client_log ch msg metadata) s
    | None => Ok s
    end
  | _ => Ok s
  end.
Fixpoint dispatch_all (evs : list Event) (s : System) : result string System :=
  match evs with
  | [] => Ok s
  | e :: evs => s ← dispatch e s; dispatch_all evs s
  end.

(** An operation of the context, with the callbacks it makes. *)
Definition run_context (f : ContextInner → World → ContextInner * World) (s : System)
    : result string System :=
  let old := w_trace (sys_world s) in
  let '(x, w) := f (sys_context s) (sys_world s) in
  dispatch_all (drop (length old) (w_trace w)) (with_context x w s).

(** ** Message handlers *)

Definition sys_capability (s : System) (cap : Capability) : bool :=
  has_capability (sys_server s) cap.

(** A subscription with typed ids (`subscription.rs`). *)
Record Subscription := { sn_id : Z; sn_channel_id : ChannelId }.
Definition Subscription_from (v : WireSubscription) : Subscription :=
  {| sn_id := ws_id v; sn_channel_id := ws_channel_id v |}.

(** The body of the first loop: an unknown channel is an error to the client. *)
Definition lookup_subscription (sub : Subscription) (c : ConnectedClient)
    : option RawChannel * ConnectedClient :=
  match cl_channels c !! sn_channel_id sub with
  | None => (None, send_error ("Unknown channel ID: " +:+ pretty (sn_channel_id sub)) c)
  | Some channel => (Some channel, c)
  end.

(** The body of the second loop, for a subscription and its channel. *)
Definition subscribe_one (id : ClientId) (p : Subscription * RawChannel) (s : System)
    : result string System :=
  let '(sub, channel) := p in
  match sys_clients s !! id with
  | None => Ok s
  | Some c =>
    let '(inserted, b) := bm_insert_no_overwrite (sn_channel_id sub) (sn_id sub) (cl_subscriptions c) in
    let c := set_subscriptions b c in
    let s := with_clients (<[id := c]> (sys_clients s)) s in
    if inserted : bool then
      s ← run_context (Context.subscribe_channels (cl_sink_id c) [rc_id channel]) s;
      Ok (tell (EfSubscribe id (rc_id channel) (rc_topic channel)) s)
    else if bm_contains_left (sn_channel_id sub) b then
      Ok (on_client id (send_warning ("Client is already subscribed to channel: "
        +:+ pretty (sn_channel_id sub) +:+ "; ignoring subscription")) s)
    else if bm_contains_right (sn_id sub) b then
      Ok (on_client id (send_error ("Subscription ID was already used: "
        +:+ pretty (sn_id sub) +:+ "; ignoring subscription")) s)
    else Panic
  end.
Fixpoint subscribe_all (id : ClientId) (l : list (Subscription * RawChannel)) (s : System)
    : result string System :=
  match l with
  | [] => Ok s
  | p :: l => s ← subscribe_one id p s; subscribe_all id l s
  end.

Definition on_subscribe (id : ClientId) (message : Subscribe) (s : System) : result string System :=
  let subscriptions := Subscription_from <$> sub_subscriptions message in
  match sys_clients s !! id with
  | None => Ok s
  | Some c =>
    match swap_loop lookup_subscription (length subscriptions) 0 subscriptions [] c with
    | None => Panic
    | Some (subscriptions, subscribed_channels, c) =>
      subscribe_all id (zip subscriptions subscribed_channels)
        (with_clients (<[id := c]> (sys_clients s)) s)
    end
  end.

(** The listener hears of the channels the client still knows. *)
Definition unsubscribe_channel_ids (id : ClientId) (ids : list ChannelId) (s : System)
    : result string System :=
  match sys_clients s !! id with
  | None => Ok s
  | Some c =>
    s ← run_context (Context.unsubscribe_channels (cl_sink_id c) ids) s;
    let unsubscribed := omap (λ ch, cl_channels c !! ch) ids in
    Ok (foldl (λ s ch, tell (EfUnsubscribe id (rc_id ch) (rc_topic ch)) s) s unsubscribed)
  end.

Fixpoint remove_subscriptions (ids : list Z) (b : bm) : list ChannelId * bm :=
  match ids with
  | [] => ([], b)
  | sub :: ids =>
    let '(o, b) := bm_remove_by_right sub b in
    let '(chs, b) := remove_subscriptions ids b in
    (match o with Some (ch, _) => ch :: chs | None => chs end, b)
  end.
Definition on_unsubscribe (id : ClientId) (message : Unsubscribe) (s : System)
    : result string System :=
  match sys_clients s !! id with
  | None => Ok s
  | Some c =>
    let '(ids, b) := remove_subscriptions (unsub_subscription_ids message) (cl_subscriptions c) in
    unsubscribe_channel_ids id ids (with_clients (<[id := set_subscriptions b c]> (sys_clients s)) s)
  end.

Definition advertise_one (id : ClientId) (s : System) (channel : ClientChannel) : System :=
  match sys_clients s !! id with
  | None => s
  | Some c =>
    match cl_advertised_channels c !! cc_id channel with
    | Some _ => on_client id (send_warning ("Client is already advertising channel: "
        +:+ pretty (cc_id channel) +:+ "; ignoring advertisement")) s
    | None =>
      let c := set_advertised_channels (<[cc_id channel := channel]> (cl_advertised_channels c)) c in
      tell (EfClientAdvertise id channel) (with_clients (<[id := c]> (sys_clients s)) s)
    end
  end.
Definition on_advertise (id : ClientId) (message : ClientAdvertise) (s : System) : System :=
  if negb (sys_capability s CapClientPublish) then
    on_client id (send_error "Server does not support clientPublish capability") s
  else
    foldl (advertise_one id) s
      (omap (λ c, result_ok (ClientChannel_try_from c)) (ca_channels message)).

Definition unadvertise_one (ch : Z) (c : ConnectedClient)
    : option ClientChannel * ConnectedClient :=
  match cl_advertised_channels c !! ch with
  | None => (None, send_warning ("Client is not advertising channel: " +:+ pretty ch
      +:+ "; ignoring unadvertisement") c)
  | Some channel =>
    (Some channel, set_advertised_channels (delete ch (cl_advertised_channels c)) c)
  end.
Definition on_unadvertise (id : ClientId) (message : ClientUnadvertise) (s : System)
    : result string System :=
  match sys_clients s !! id with
  | None => Ok s
  | Some c =>
    match swap_loop unadvertise_one (length (cu_channel_ids message)) 0 (cu_channel_ids message) [] c with
    | None => Panic
    | Some (_, client_channels, c) =>
      Ok (foldl (λ s ch, tell (EfClientUnadvertise id ch) s)
        (with_clients (<[id := c]> (sys_clients s)) s) client_channels)
    end
  end.

Definition on_message_data (id : ClientId) (message : ClientMessageData) (s : System) : System :=
  match sys_clients s !! id with
  | None => s
  | Some c =>
    match cl_advertised_channels c !! cmd_channel_id message with
    | None => on_client id (send_error ("Unknown channel ID: " +:+ pretty (cmd_channel_id message))) s
    | Some channel => tell (EfMessageData id channel (cmd_data message)) s
    end
  end.

Definition publish_parameter_values (parameters : list Param) (s : System) : System :=
  if negb (sys_capability s CapParameters) then s
  else for_clients (λ id s,
    match filter_parameters (sys_server s) id parameters with
    | [] => s
    | filtered => on_client id (update_parameters filtered None) s
    end) s.

Definition on_get_parameters (id : ClientId) (m : GetParameters) (s : System) : System :=
  if negb (sys_capability s CapParameters) then
    on_client id (send_error "Server does not support parameters capability") s
  else
    match sv_listener (sys_server s) with
    | Some handler =>
      let parameters := Server.on_get_parameters handler id (gp_parameter_names m) (gp_id m) in
      on_client id (update_parameters parameters (gp_id m))
        (effect (EfGetParameters id (gp_parameter_names m) (gp_id m)) s)
    | None => s
    end.

Definition on_set_parameters (id : ClientId) (m : SetParameters) (s : System) : System :=
  if negb (sys_capability s CapParameters) then
    on_client id (send_error "Server does not support parameters capability") s
  else
    match sv_listener (sys_server s) with
    | Some handler =>
      let updated := Server.on_set_parameters handler id (sp_parameters m) (sp_id m) in
      let s := effect (EfSetParameters id (sp_parameters m) (sp_id m)) s in
      let s := match sp_id m with
               | Some _ => on_client id (update_parameters updated (sp_id m)) s
               | None => s
               end in
      publish_parameter_values updated s
    | None => publish_parameter_values (sp_parameters m) s
    end.

Definition on_parameters_subscribe (id : ClientId) (names : list string) (s : System) : System :=
  if sys_capability s CapParameters then on_server (subscribe_parameters id names) s
  else on_client id (send_error "Server does not support parametersSubscribe capability") s.
Definition on_parameters_unsubscribe (id : ClientId) (names : list string) (s : System) : System :=
  if sys_capability s CapParameters then on_server (unsubscribe_parameters id names) s
  else on_client id (send_error "Server does not support parametersSubscribe capability") s.

(** The encoding a call is accepted with. *)
Definition encoding_accepted (sv : Server) (service : Service) (encoding : string) : bool :=
  match request_encoding service with
  | Some e => String.eqb e encoding
  | None => supports_encoding sv encoding
  end.

Definition on_service_call (id : ClientId) (req : ServiceCallRequest) (s : System) : System :=
  let fail message :=
    on_client id (send_service_call_failure (scq_service_id req) (scq_call_id req) message) s in
  if negb (sys_capability s CapServices) then fail "Server does not support services"%string
  else
    match get_service (sys_server s) (scq_service_id req) with
    | None => fail "Unknown service"%string
    | Some service =>
      if negb (encoding_accepted (sys_server s) service (scq_encoding req))
      then fail "Unsupported encoding"%string
      else
        match sys_clients s !! id with
        | None => s
        | Some c =>
          match cl_service_call_sem c with
          | O => fail "Too many requests"%string
          | S permits =>
            let s := on_client id (set_sems permits (cl_fetch_asset_sem c)) s in
            let responder := ServiceResponder (Some {|
              ri_client := id; ri_service_id := svc_id service; ri_call_id := scq_call_id req;
              ri_encoding := default (scq_encoding req) (response_encoding service) |}) in
            let request := {| rq_service := service; rq_client_id := id;
              rq_call_id := scq_call_id req; rq_encoding := scq_encoding req;
              rq_payload := scq_payload req |} in
            effect (EfServiceCall request (length (sys_responders s)))
              (with_responders (sys_responders s ++ [responder]) s)
          end
        end
    end.

Definition on_fetch_asset (id : ClientId) (uri : string) (request_id : Z) (s : System) : System :=
  if negb (sys_capability s CapAssets) then
    on_client id (send_error "Server does not support assets capability") s
  else
    match sys_clients s !! id with
    | None => s
    | Some c =>
      match cl_fetch_asset_sem c with
      | O => on_client id (send_asset_error "Too many concurrent fetch asset requests" request_id) s
      | S permits =>
        if sv_fetch_asset_handler (sys_server s) then
          let s := on_client id (set_sems (cl_service_call_sem c) permits) s in
          let responder := AssetResponder (Some {| ai_client := id; ai_request_id := request_id |}) in
          effect (EfFetchAsset id uri (length (sys_responders s)))
            (with_responders (sys_responders s ++ [responder]) s)
        else on_client id (send_asset_error "Server does not have a fetch asset handler" request_id) s
      end
    end.

Definition on_connection_graph_subscribe (id : ClientId) (s : System) : System :=
  if negb (sys_capability s CapConnectionGraph) then
    on_client id (send_error "Server does not support connection graph capability") s
  else
    let '(initial_update, sv, effects) := subscribe_connection_graph id (sys_server s) in
    let s := with_server sv effects s in
    match initial_update with
    | Some u => on_client id (send_control (Message_from (SConnectionGraphUpdate u))) s
    | None => s
    end.
Definition on_connection_graph_unsubscribe (id : ClientId) (s : System) : System :=
  if negb (sys_capability s CapConnectionGraph) then
    on_client id (send_error "Server does not support connection graph capability") s
  else
    let '(_, sv, effects) := unsubscribe_connection_graph id (sys_server s) in
    with_server sv effects s.

(** *** Broadcasts *)

Definition broadcast (m : Message) : System → System :=
  for_clients (λ id s, on_client id (send_control m) s).
Definition broadcast_time (timestamp : Z) (s : System) : System :=
  if negb (sys_capability s CapTime) then s
  else broadcast (Message_from (STime {| tm_timestamp := timestamp |})) s.
Definition broadcast_playback_state (p : PlaybackState) (s : System) : System :=
  if negb (sys_capability s CapRangedPlayback) then s
  else broadcast (Message_from (SPlaybackState p)) s.
Definition publish_status (status : Status) (s : System) : result string System :=
  foldl (λ r id, s ← r; try_client id (send_status status) s) (Ok s) (sv_clients (sys_server s)).
Definition remove_status (status_ids : list string) : System → System :=
  broadcast (Message_from (SRemoveStatus {| rs_status_ids := status_ids |})).

Definition on_playback_control_request (id : ClientId) (msg : PlaybackControlRequest) (s : System)
    : System :=
  if negb (sys_capability s CapRangedPlayback) then
    on_client id (send_error "Server does not support ranged playback capability") s
  else
    match sv_listener (sys_server s) with
    | Some handler =>
      let s := effect (EfPlaybackControlRequest msg) s in
      match Server.on_playback_control_request handler msg with
      | None => on_client id (send_error
          "Server did not send playback state in response to playback control request") s
      | Some p => broadcast_playback_state {| ps_status := ps_status p;
          ps_current_time := ps_current_time p; ps_playback_speed := ps_playback_speed p;
          ps_did_seek := ps_did_seek p; ps_request_id := Some (pcr_request_id msg) |} s
      end
    | None => on_client id (send_error
        "Server advertised ranged playback capability but didn't provide a listener") s
    end.

(** *** [handle_message] *)

(** [display] renders a parse error ([thiserror]'s [Display]). *)
Definition dispatch_message (id : ClientId) (m : ClientMessage) (s : System) : result string System :=
  match m with
  | CSubscribe m => on_subscribe id m s
  | CUnsubscribe m => on_unsubscribe id m s
  | CAdvertise m => Ok (on_advertise id m s)
  | CUnadvertise m => on_unadvertise id m s
  | CMessageData m => Ok (on_message_data id m s)
  | CGetParameters m => Ok (on_get_parameters id m s)
  | CSetParameters m => Ok (on_set_parameters id m s)
  | CSubscribeParameterUpdates m => Ok (on_parameters_subscribe id (spu_parameter_names m) s)
  | CUnsubscribeParameterUpdates m => Ok (on_parameters_unsubscribe id (upu_parameter_names m) s)
  | CServiceCallRequest m => Ok (on_service_call id m s)
  | CFetchAsset m => Ok (on_fetch_asset id (fa_uri m) (fa_request_id m) s)
  | CSubscribeConnectionGraph => Ok (on_connection_graph_subscribe id s)
  | CUnsubscribeConnectionGraph => Ok (on_connection_graph_unsubscribe id s)
  | CPlaybackControlRequest m => Ok (on_playback_control_request id m s)
  end.
Definition handle_message (display : ParseError → string) (id : ClientId) (msg : Message) (s : System)
    : result string System :=
  match ClientMessage_try_from msg with
  | Err EmptyBinaryMessage => Ok s
  | Err UnhandledMessageType => Ok s
  | Err err => Ok (on_client id (send_error ("Invalid message: " +:+ display err)) s)
  | Panic => Panic
  | Ok m => dispatch_message id m s
  end.

(** ** Responding *)

(** [Inner::respond]: the message, and then the guard is dropped. *)
Definition respond_service (r : ResponderInner) (res : Response) (s : System) : System :=
  let message := match res with
    | RespondOk payload => Message_from (SServiceCallResponse {|
        scr_service_id := ri_service_id r; scr_call_id := ri_call_id r;
        scr_encoding := ri_encoding r; scr_payload := payload |})
    | RespondErr message => Message_from (SServiceCallFailure {|
        scf_service_id := ri_service_id r; scf_call_id := ri_call_id r; scf_message := message |})
    end in
  on_client (ri_client r) (λ c, let c := send_control message c in
    set_sems (S (cl_service_call_sem c)) (cl_fetch_asset_sem c) c) s.
Definition respond_asset (r : AssetResponderInner) (res : Response) (s : System) : System :=
  on_client (ai_client r) (λ c,
    let c := match res with
      | RespondOk data => send_asset_response data (ai_request_id r) c
      | RespondErr error => send_asset_error error (ai_request_id r) c
      end in
    set_sems (cl_service_call_sem c) (S (cl_fetch_asset_sem c)) c) s.

(** [respond_ok] and [respond_err] take the inner value; [drop] responds with a
    generic error if it is still there. *)
Definition use_responder (key : nat) (res : Response) (s : System) : System :=
  match sys_responders s !! key with
  | Some (ServiceResponder (Some r)) =>
    respond_service r res (with_responders (<[key := ServiceResponder None]> (sys_responders s)) s)
  | Some (AssetResponder (Some r)) =>
    respond_asset r res (with_responders (<[key := AssetResponder None]> (sys_responders s)) s)
  | _ => s
  end.
Definition drop_responder (key : nat) (s : System) : System :=
  match sys_responders s !! key with
  | Some (ServiceResponder _) => use_responder key
      (RespondErr "Internal server error: service failed to send a response") s
  | Some (AssetResponder _) => use_responder key
      (RespondErr "Internal server error: asset handler failed to send a response") s
  | None => s
  end.
(** [respond(self, result)]: the responder is dropped at the end. *)
Definition respond (key : nat) (res : Response) (s : System) : System :=
  drop_responder key (use_responder key res s).
Definition set_encoding (key : nat) (encoding : string) (s : System) : System :=
  match sys_responders s !! key with
  | Some (ServiceResponder (Some r)) =>
    with_responders (<[key := ServiceResponder (Some {| ri_client := ri_client r;
      ri_service_id := ri_service_id r; ri_call_id := ri_call_id r; ri_encoding := encoding |})]>
      (sys_responders s)) s
  | _ => s
  end.

(** ** The server's operations on all clients *)

Definition advertisement_token (s : System) : string :=
  compute_advertisement_token (values (channels (sys_context s))) (service_ids (sys_server s)).

(** [version] is [get_library_version()]. *)
Definition sys_server_info (version : string) (s : System) : ServerInfo :=
  server_info version (advertisement_token s) (sys_server s).
Definition clear_session (version generated : string) (new_session_id : option string) (s : System)
    : System :=
  let s := with_server (set_session_id (default generated new_session_id) (sys_server s)) [] s in
  broadcast (Message_from (SServerInfo (sys_server_info version s))) s.

Definition send_services_update (m : ServerMessage) (s : System) : System :=
  let token := advertisement_token s in
  for_clients (λ id s, on_client id (λ c,
    send_advertisement_token token (send_control (Message_from m) c)) s) s.
Definition add_services (new_services : list Service) (s : System) : result FoxgloveError System :=
  '(sv, told) ← register_services new_services (sys_server s);
  let s := with_server sv [] s in
  let msg := advertise_services new_services in
  if told : bool then
    match as_services msg with
    | [] => Ok s
    | _ => Ok (send_services_update (SAdvertiseServices msg) s)
    end
  else Ok s.
Definition remove_services (names : list string) (s : System) : System :=
  let '(sv, old_services) := unregister_services names (sys_server s) in
  let s := with_server sv [] s in
  if decide (old_services = ∅) then s
  else send_services_update
    (SUnadvertiseServices {| us_service_ids := (map_to_list old_services).*1 |}) s.

Definition replace_connection_graph (g : ConnectionGraph) (s : System)
    : result FoxgloveError System :=
  _ ← ensure (sys_capability s CapConnectionGraph) ConnectionGraphNotSupported;
  let '(msg, graph) := update (sv_connection_graph (sys_server s)) g in
  let s := with_server (set_graph graph (sys_server s)) [] s in
  Ok (for_clients (λ id s,
    if is_subscriber id graph then
      on_client id (send_control (Message_from (SConnectionGraphUpdate msg))) s
    else s) s).

(** ** Connections *)

(** [handle_connection] up to [run]: [offered_token] is what the handshake
    found; the server info is sent first, and a failure to send it ends the
    connection ([info_sent] is false). *)
Definition register_client_and_advertise (id : ClientId) (s : System) : result string System :=
  match sys_clients s !! id with
  | None => Ok s
  | Some c =>
    if sv_clients_frozen (sys_server s) then Ok (on_client id (shutdown ServerStopped) s)
    else
      let s := with_server (set_clients (sv_clients (sys_server s) ++ [id]) false (sys_server s))
                 [] s in
      let s := tell EfClientConnect s in
      let catalogue_is_current := cl_suppress_initial_advertisement c in
      s ← run_context (λ x w, let '(_, x, w) := add_sink (client_sink c) x w in (x, w)) s;
      if catalogue_is_current then Ok s
      else
        let msg := advertise_services (ServiceMap_values (sv_services (sys_server s))) in
        match as_services msg with
        | [] => Ok s
        | _ => Ok (on_client id (send_control (Message_from (SAdvertiseServices msg))) s)
        end
  end.

Definition handle_connection (version : string) (offered_token : option string) (info_sent : bool)
    (s : System) : result string System :=
  let info := sys_server_info version s in
  let current_token := si_metadata info !! ADVERTISEMENT_TOKEN_METADATA_KEY in
  let catalogue_is_current :=
    bool_decide (is_Some offered_token) && bool_decide (offered_token = current_token) in
  if negb info_sent then Ok s
  else
    let id := sys_next_client s in
    let sink := sys_next_sink s in
    let c := ConnectedClient_new id sink (Z.to_nat (sv_message_backlog_size (sys_server s)))
               (sv_channel_filter (sys_server s)) in
    let c := if catalogue_is_current then suppress_initial_advertisement c else c in
    let c := match offered_token with Some _ => enable_advertisement_token_push c | None => c end in
    let s := {| sys_server := sys_server s; sys_clients := <[id := c]> (sys_clients s);
                sys_running := {[id]} ∪ sys_running s;
                sys_sink_owner := <[sink := id]> (sys_sink_owner s);
                sys_next_client := wrap 32 (id + 1); sys_next_sink := wrap 64 (sink + 1);
                sys_context := sys_context s; sys_world := sys_world s;
                sys_responders := sys_responders s;
                sys_effects := sys_effects s ++ [EfServerInfo id info] |} in
    register_client_and_advertise id s.

Definition on_disconnect (id : ClientId) (s : System) : result string System :=
  match sys_clients s !! id with
  | None => Ok s
  | Some c => unsubscribe_channel_ids id (bm_left_values (cl_subscriptions c)) s
  end.

Definition unregister_client (id : ClientId) (s : System) : result string System :=
  match sys_clients s !! id with
  | None => Ok s
  | Some c =>
    s ← run_context (λ x w, let '(_, x, w) := remove_sink (cl_sink_id c) x w in (x, w)) s;
    let sv := sys_server s in
    let s := with_server (set_clients (filter (λ i, i ≠ id) (sv_clients sv))
               (sv_clients_frozen sv) sv) [] s in
    let s := if sys_capability s CapParameters then on_server (unsubscribe_all_parameters id) s
             else s in
    let s := if sys_capability s CapConnectionGraph then
               on_server (λ sv, let '(_, sv, effects) := unsubscribe_connection_graph id sv in
                                (sv, effects)) s
             else s in
    s ← on_disconnect id s;
    Ok (tell EfClientDisconnect s)
  end.

(** The poll loop ends: the poller is gone, and with it the control plane's
    receiver. *)
Definition connection_closed (id : ClientId) (s : System) : result string System :=
  let s := with_running (sys_running s ∖ {[id]}) s in
  let s := on_client id (λ c, set_queues (cl_data_plane c)
             (fl_drop_receivers (cl_control_plane c)) c) s in
  unregister_client id s.

Definition stop (s : System) : bool * System :=
  if sv_tasks (sys_server s) then
    let clients := sv_clients (sys_server s) in
    let s := with_server (set_clients [] true (set_tasks false true (sys_server s))) [] s in
    (true, foldl (λ s id, on_client id (shutdown ServerStopped) s) s clients)
  else (false, s).

(** ** The system as a whole *)

(** Everything that can happen to the system.  Messages come from running
    clients; other sinks may use the context. *)
Inductive SysOp :=
| SysConnect (version : string) (offered_token : option string) (info_sent : bool)
| SysMessage (id : ClientId) (msg : Message)
| SysClosed (id : ClientId)
| SysPollSend (id : ClientId) (plane : Plane)
| SysContext (op : CtxOp)
| SysLog (instant epoch : Z) (c : RawChannel) (msg : list byte)
    (opts : PartialMetadata) (sink : option SinkId)
| SysRespond (key : nat) (res : Response)
| SysDropResponder (key : nat)
| SysSetEncoding (key : nat) (encoding : string)
| SysAddServices (services : list Service)
| SysRemoveServices (names : list string)
| SysPublishParameters (parameters : list Param)
| SysPublishStatus (status : Status)
| SysRemoveStatus (ids : list string)
| SysBroadcastTime (timestamp : Z)
| SysBroadcastPlayback (p : PlaybackState)
| SysClearSession (version generated : string) (new_session_id : option string)
| SysReplaceGraph (g : ConnectionGraph)
| SysStart
| SysStop.

(** An error that is returned leaves the state as it was. *)
Definition keep_on_error {E} (r : result E System) (s : System) : result string System :=
  match r with Ok s => Ok s | Err _ => Ok s | Panic => Panic end.

Definition run_sys (display : ParseError → string) (op : SysOp) (s : System) : result string System :=
  match op with
  | SysConnect version offered_token info_sent => handle_connection version offered_token info_sent s
  | SysMessage id msg => if decide (id ∈ sys_running s) then handle_message display id msg s else Ok s
  | SysClosed id => if decide (id ∈ sys_running s) then connection_closed id s else Ok s
  | SysPollSend id plane => Ok (on_client id (λ c, (poll_send plane c).2) s)
  | SysContext op => run_context (λ x w, run_ctx_op op (x, w)) s
  | SysLog instant epoch c msg opts sink =>
    run_context (λ x w, (x, log_with_meta_to_sink instant epoch c msg opts sink w)) s
  | SysRespond key res => Ok (respond key res s)
  | SysDropResponder key => Ok (drop_responder key s)
  | SysSetEncoding key encoding => Ok (set_encoding key encoding s)
  | SysAddServices services => keep_on_error (add_services services s) s
  | SysRemoveServices names => Ok (remove_services names s)
  | SysPublishParameters parameters => Ok (publish_parameter_values parameters s)
  | SysPublishStatus status => publish_status status s
  | SysRemoveStatus ids => Ok (remove_status ids s)
  | SysBroadcastTime timestamp => Ok (broadcast_time timestamp s)
  | SysBroadcastPlayback p => Ok (broadcast_playback_state p s)
  | SysClearSession version generated new => Ok (clear_session version generated new s)
  | SysReplaceGraph g => keep_on_error (replace_connection_graph g s) s
  | SysStart => match start (sys_server s) with Ok sv => Ok (with_server sv [] s) | _ => Ok s end
  | SysStop => Ok (stop s).2
  end.
End session.
