(* ===== verification/SessionProofs.v ===== *)
(** * SessionProofs: what holds of the whole system

    Frame lemmas for the operations of Session.v (most operations are [calm]:
    they change the clients' queues and caches, but neither their identities,
    nor their semaphores, nor the responders), the system invariant
    [sys_inv], and its preservation by every operation. *)

From S2P Require Import Prelude Bytes Messages Wire WireProofs ConnectionGraph Channel.
From S2P Require Import Subscriptions Context Advertise Services Token Outbox Client Server.
From S2P Require Import Session.
Local Open Scope Z_scope.

Create HintDb calm.

Section frame.
Context `{HF : Flume} `{HM : BiMap} `{HB : Buf} `{HJ : Json} `{H64 : Base64}.
Context `{!FlumeLaws} `{!BiMapLaws}.
Implicit Types s : System.
Implicit Types c d : ConnectedClient.

(** ** Benign changes of a client *)

Record benign c d : Prop := {
  bn_id : cl_id d = cl_id c;
  bn_sink : cl_sink_id d = cl_sink_id c;
  bn_service : cl_service_call_sem d = cl_service_call_sem c;
  bn_fetch : cl_fetch_asset_sem d = cl_fetch_asset_sem c;
  bn_live : live (cl_data_plane c) → live (cl_data_plane d);
  bn_shutdown : cl_shutdown c ≠ None → cl_shutdown d = cl_shutdown c
}.

#[export] Instance benign_refl : Reflexive benign.
Proof. intros c. by split. Qed.
#[export] Instance benign_trans : Transitive benign.
Proof.
  intros c d e [E1 E2 E3 E4 E5 E6] [F1 F2 F3 F4 F5 F6].
  split; [congruence..|auto|]. intros Hc. rewrite F6, E6; [done|done|]. by rewrite E6.
Qed.

Lemma benign_queues c data control :
  (live (cl_data_plane c) → live data) → benign c (set_queues data control c).
Proof. by split. Qed.
Lemma benign_channels c m : benign c (set_channels m c).
Proof. by split. Qed.
Lemma benign_subscriptions c b : benign c (set_subscriptions b c).
Proof. by split. Qed.
Lemma benign_advertised c m : benign c (set_advertised_channels m c).
Proof. by split. Qed.
Lemma benign_flags c a b : benign c (set_flags a b c).
Proof. by split. Qed.
Lemma benign_shutdown r c : benign c (shutdown r c).
Proof. unfold shutdown. destruct (cl_shutdown c) eqn:E; split; cbn; congruence || auto. Qed.

Lemma benign_send_control_msg m c : benign c (send_control_msg m c).2.
Proof.
  unfold send_control_msg. destruct (fl_try_send m (cl_control_plane c)) as [[| |] q]; cbn.
  - by apply benign_queues.
  - etrans; [|apply benign_shutdown]. by apply benign_queues.
  - by apply benign_queues.
Qed.
Lemma benign_send_control m c : benign c (send_control m c).
Proof. apply benign_send_control_msg. Qed.
Lemma benign_send_token t c : benign c (send_advertisement_token t c).
Proof. unfold send_advertisement_token. destruct (cl_advertisement_token_push c); [|done]. apply benign_send_control. Qed.
Lemma benign_push_token sids c : benign c (push_advertisement_token sids c).
Proof. unfold push_advertisement_token. destruct (cl_advertisement_token_push c); [|done]. apply benign_send_token. Qed.

Lemma benign_advertise_channels cs c : benign c (client_advertise_channels cs c).
Proof.
  unfold client_advertise_channels. destruct (ad_channels _) as [|w ws] eqn:E; [done|].
  pose proof (benign_send_control_msg (Message_from (SAdvertise (advertise_channels cs))) c) as Hb.
  destruct (send_control_msg _ c) as [[] d]; [|done].
  etrans; [exact Hb|]. apply benign_channels.
Qed.
Lemma benign_batches bs c :
  benign c (foldl (λ c chunk, client_advertise_channels chunk c) c bs).
Proof.
  revert c. induction bs as [|b bs IH]; intros c; cbn; [done|].
  etrans; [apply benign_advertise_channels|]. apply IH.
Qed.
Lemma benign_add_channels sids cs c : benign c (client_add_channels sids cs c).
Proof.
  unfold client_add_channels. destruct (cl_suppress_initial_advertisement c).
  - etrans; [apply benign_flags|]. apply benign_channels.
  - etrans; [|apply benign_push_token]. apply benign_batches.
Qed.
Lemma benign_remove_channel sids ch c : benign c (client_remove_channel sids ch c).
Proof.
  unfold client_remove_channel, unadvertise_channel. etrans; [|apply benign_push_token].
  destruct (cl_channels c !! ch); [|done]. etrans; [|apply benign_send_control]. apply benign_channels.
Qed.

(** The data plane: with a live queue there is no [unreachable!]. *)
Lemma benign_send_data m n c :
  live (cl_data_plane c) → ∃ d, send_data_lossy m n c = Ok d ∧ benign c d.
Proof.
  intros Hl. unfold send_data_lossy.
  destruct (send_lossy_loop_ok (λ _ q, q) (λ _ q, q) m n 0 (cl_data_plane c))
    as (r & l & q & E & Hq & _); [auto|auto|done|].
  unfold send_lossy, send_lossy_env. rewrite E. cbn. eexists. split; [done|]. by apply benign_queues.
Qed.
Lemma benign_log ch msg md c :
  live (cl_data_plane c) → ∃ d, client_log ch msg md c = Ok d ∧ benign c d.
Proof.
  intros Hl. unfold client_log. destruct (bm_get_by_left _ _); [|by eexists].
  by apply benign_send_data.
Qed.
Lemma benign_send_status st c :
  live (cl_data_plane c) → ∃ d, send_status st c = Ok d ∧ benign c d.
Proof.
  intros Hl. unfold send_status. destruct (st_level st); [by apply benign_send_data| |];
    (eexists; split; [done|apply benign_send_control]).
Qed.

(** ** Calm changes of the system *)

Definition server_ok (sv : Server) : Prop :=
  params_ok (sv_subscribed_parameters sv) ∧
  (sv_subscribed_parameters sv ≠ ∅ → CapParameters ∈ sv_capabilities sv) ∧
  (cg_subscribers (sv_connection_graph sv) ≠ ∅ → CapConnectionGraph ∈ sv_capabilities sv) ∧
  services_wf sv.
Record server_step (sv sv' : Server) : Prop := {
  ss_ok : server_ok sv → server_ok sv';
  ss_backlog : sv_message_backlog_size sv' = sv_message_backlog_size sv;
  ss_clients : sv_clients sv' `sublist_of` sv_clients sv;
  ss_tasks : sv_tasks sv' = sv_tasks sv
}.
#[export] Instance server_step_refl : Reflexive server_step.
Proof. by split. Qed.
#[export] Instance server_step_trans : Transitive server_step.
Proof. intros a b c [E1 E2 E3 E4] [F1 F2 F3 F4]. split; [auto|congruence|by etrans|congruence]. Qed.

Definition clients_step (m m' : gmap ClientId ConnectedClient) : Prop :=
  ∀ id, match m !! id, m' !! id with
        | Some c, Some d => benign c d
        | None, None => True
        | _, _ => False
        end.
#[export] Instance clients_step_refl : Reflexive clients_step.
Proof. intros m id. by destruct (m !! id). Qed.
#[export] Instance clients_step_trans : Transitive clients_step.
Proof.
  intros m1 m2 m3 H1 H2 id. specialize (H1 id). specialize (H2 id).
  destruct (m1 !! id), (m2 !! id), (m3 !! id); try done. by etrans.
Qed.

Record calm s s' : Prop := {
  calm_clients : clients_step (sys_clients s) (sys_clients s');
  calm_server : server_step (sys_server s) (sys_server s');
  calm_responders : sys_responders s' = sys_responders s;
  calm_next : sys_next_client s' = sys_next_client s
}.
#[export] Instance calm_refl : Reflexive calm.
Proof. by split. Qed.
#[export] Instance calm_trans : Transitive calm.
Proof. intros a b c [E1 E2 E3 E4] [F1 F2 F3 F4]. split; [by etrans..|congruence|congruence]. Qed.

Lemma clients_step_alter f id m : (∀ c, benign c (f c)) → clients_step m (alter f id m).
Proof.
  intros Hf i. destruct (decide (i = id)) as [->|Hne].
  - rewrite lookup_alter_eq. destruct (m !! id); cbn; auto.
  - rewrite lookup_alter_ne by done. by destruct (m !! i).
Qed.
Lemma clients_step_insert id c d m : m !! id = Some c → benign c d → clients_step m (<[id := d]> m).
Proof.
  intros Hc Hb i. destruct (decide (i = id)) as [->|Hne].
  - by rewrite Hc, lookup_insert_eq.
  - rewrite lookup_insert_ne by done. by destruct (m !! i).
Qed.

Lemma calm_on_client id f s : (∀ c, benign c (f c)) → calm s (on_client id f s).
Proof. intros Hf. split; [by apply clients_step_alter|done..]. Qed.
Lemma calm_send id m s : calm s (on_client id (send_control m) s).
Proof. apply calm_on_client. intros. apply benign_send_control. Qed.
Lemma calm_set_client id c d s :
  sys_clients s !! id = Some c → benign c d → calm s (with_clients (<[id := d]> (sys_clients s)) s).
Proof. intros Hc Hb. split; [by eapply clients_step_insert|done..]. Qed.
Lemma calm_with_server sv effects s : server_step (sys_server s) sv → calm s (with_server sv effects s).
Proof. by split. Qed.
Lemma calm_effect e s : calm s (effect e s).
Proof. by apply calm_with_server. Qed.
Lemma calm_tell e s : calm s (tell e s).
Proof. by apply calm_with_server. Qed.
Lemma calm_with_context x w s : calm s (with_context x w s).
Proof. by split. Qed.
Lemma calm_with_running r s : calm s (with_running r s).
Proof. by split. Qed.
Lemma calm_foldl {A} (f : System → A → System) (l : list A) s :
  (∀ s a, calm s (f s a)) → calm s (foldl f s l).
Proof. intros Hf. revert s. induction l as [|a l IH]; intros s; cbn; [done|]. etrans; [apply Hf|apply IH]. Qed.
Lemma calm_for_clients f s : (∀ id s, calm s (f id s)) → calm s (for_clients f s).
Proof. intros Hf. by apply calm_foldl. Qed.

(** Every data plane is alive. *)
Definition live_all s : Prop := ∀ id c, sys_clients s !! id = Some c → live (cl_data_plane c).
Lemma calm_live s s' : calm s s' → live_all s → live_all s'.
Proof.
  intros [Hc _ _ _] Hl id d Hd. specialize (Hc id). rewrite Hd in Hc.
  destruct (sys_clients s !! id) as [c|] eqn:E; [|done]. apply Hc. by eapply Hl.
Qed.

(** A fallible operation succeeds and is calm. *)
Definition calmly s (r : result string System) : Prop := ∃ s', r = Ok s' ∧ calm s s'.
Lemma calmly_Ok s s' : calm s s' → calmly s (Ok s').
Proof. intros. by exists s'. Qed.
Lemma calmly_bind s r k :
  live_all s → calmly s r → (∀ s', calm s s' → live_all s' → calmly s' (k s')) →
  calmly s (r ≫= k).
Proof.
  intros Hl (s1 & -> & Hs1) Hk. cbn. destruct (Hk s1 Hs1) as (s2 & -> & Hs2); [by eapply calm_live|].
  exists s2. split; [done|]. by etrans.
Qed.
Lemma calmly_after s s1 r : calm s s1 → calmly s1 r → calmly s r.
Proof. intros Hs (s2 & -> & Hs2). exists s2. split; [done|]. by etrans. Qed.
Lemma calmly_try_client id f s :
  live_all s →
  (∀ c, sys_clients s !! id = Some c → live (cl_data_plane c) → ∃ d, f c = Ok d ∧ benign c d) →
  calmly s (try_client id f s).
Proof.
  intros Hl Hf. unfold try_client. destruct (sys_clients s !! id) as [c|] eqn:E; [|by apply calmly_Ok].
  destruct (Hf c) as (d & -> & Hb); [done|by eapply Hl|]. cbn. apply calmly_Ok. by eapply calm_set_client.
Qed.

(** ** The context *)

Lemma calmly_dispatch e s : live_all s → calmly s (dispatch e s).
Proof.
  intros Hl. unfold dispatch.
  destruct e; try (by apply calmly_Ok); (destruct (sys_sink_owner s !! sink); [|by apply calmly_Ok]).
  - apply calmly_Ok, calm_on_client. intros. apply benign_add_channels.
  - apply calmly_Ok, calm_on_client. intros. apply benign_remove_channel.
  - apply calmly_try_client; [done|]. intros. by apply benign_log.
Qed.
Lemma calmly_dispatch_all evs s : live_all s → calmly s (dispatch_all evs s).
Proof.
  revert s. induction evs as [|e evs IH]; intros s Hl; cbn; [by apply calmly_Ok|].
  apply calmly_bind; [done|by apply calmly_dispatch|]. auto.
Qed.
Lemma calmly_run_context f s : live_all s → calmly s (run_context f s).
Proof.
  intros Hl. unfold run_context. destruct (f _ _) as [x w].
  eapply calmly_after; [apply calm_with_context|]. by apply calmly_dispatch_all.
Qed.

(** ** Message handlers *)

Lemma benign_lookup_subscription sub c : benign c (lookup_subscription sub c).2.
Proof. unfold lookup_subscription. destruct (cl_channels c !! _); [done|]. apply benign_send_control. Qed.
Lemma benign_keep_run {A B} (f : A → ConnectedClient → option B * ConnectedClient) l c :
  (∀ a c, benign c (f a c).2) → benign c (keep_run f l c).2.
Proof.
  intros Hf. revert c. induction l as [|a l IH]; intros c; cbn; [done|].
  pose proof (Hf a c) as Ha. destruct (f a c) as [[y|] d]; cbn in Ha.
  - specialize (IH d). destruct (keep_run f l d) as [[ks ys] e]. cbn in *. by etrans.
  - etrans; [exact Ha|apply IH].
Qed.

Lemma calmly_subscribe_one id p s : live_all s → calmly s (subscribe_one id p s).
Proof.
  intros Hl. destruct p as [sub channel]. cbn.
  destruct (sys_clients s !! id) as [c|] eqn:Ec; [|by apply calmly_Ok].
  destruct (bm_insert_cases (sn_channel_id sub) (sn_id sub) (cl_subscriptions c))
    as [(_ & _ & b & -> & _)|[Ht ->]].
  2: { eapply calmly_after; [eapply calm_set_client, benign_subscriptions; done|].
       destruct (bm_contains_left _ _) eqn:El; [apply calmly_Ok, calm_send|].
       destruct (bm_contains_right _ _) eqn:Er; [apply calmly_Ok, calm_send|].
       exfalso. destruct Ht as [Ht%bm_contains_left_spec|Ht%bm_contains_right_spec]; congruence. }
  set (s1 := with_clients _ s).
  assert (calm s s1) as Hs1 by (eapply calm_set_client, benign_subscriptions; done).
  eapply calmly_after; [exact Hs1|].
  apply calmly_bind; [by eapply calm_live|apply calmly_run_context; by eapply calm_live|].
  intros s2 _ _. apply calmly_Ok, calm_tell.
Qed.
Lemma calmly_subscribe_all id l s : live_all s → calmly s (subscribe_all id l s).
Proof.
  revert s. induction l as [|p l IH]; intros s Hl; cbn; [by apply calmly_Ok|].
  apply calmly_bind; [done|by apply calmly_subscribe_one|]. auto.
Qed.

Lemma calmly_on_subscribe id m s : live_all s → calmly s (on_subscribe id m s).
Proof.
  intros Hl. unfold on_subscribe. destruct (sys_clients s !! id) as [c|] eqn:Ec; [|by apply calmly_Ok].
  set (subs := Subscription_from <$> _).
  destruct (swap_loop_spec lookup_subscription subs c) as (order & _ & ->).
  pose proof (benign_keep_run lookup_subscription order c benign_lookup_subscription) as Hb.
  destruct (keep_run lookup_subscription order c) as [[ks ys] d].
  assert (calm s (with_clients (<[id := d]> (sys_clients s)) s)) as Hs by by eapply calm_set_client.
  eapply calmly_after; [exact Hs|]. apply calmly_subscribe_all. by eapply calm_live.
Qed.

Lemma calmly_unsubscribe_channel_ids id ids s :
  live_all s → calmly s (unsubscribe_channel_ids id ids s).
Proof.
  intros Hl. unfold unsubscribe_channel_ids.
  destruct (sys_clients s !! id) as [c|]; [|by apply calmly_Ok].
  apply calmly_bind; [done|by apply calmly_run_context|]. intros s1 _ _.
  apply calmly_Ok, calm_foldl. intros. apply calm_tell.
Qed.
Lemma calmly_on_unsubscribe id m s : live_all s → calmly s (on_unsubscribe id m s).
Proof.
  intros Hl. unfold on_unsubscribe. destruct (sys_clients s !! id) as [c|] eqn:Ec; [|by apply calmly_Ok].
  destruct (remove_subscriptions _ _) as [ids b].
  assert (calm s (with_clients (<[id := set_subscriptions b c]> (sys_clients s)) s)) as Hs
    by (eapply calm_set_client, benign_subscriptions; done).
  eapply calmly_after; [exact Hs|]. apply calmly_unsubscribe_channel_ids. by eapply calm_live.
Qed.

Lemma calm_on_advertise id m s : calm s (on_advertise id m s).
Proof.
  unfold on_advertise. destruct (negb _); [apply calm_send|]. apply calm_foldl. clear. intros s ch.
  unfold advertise_one. destruct (sys_clients s !! id) as [c|] eqn:Ec; [|done].
  destruct (cl_advertised_channels c !! _); [apply calm_send|].
  etrans; [|apply calm_tell]. eapply calm_set_client, benign_advertised. done.
Qed.
Lemma calmly_on_unadvertise id m s : calmly s (on_unadvertise id m s).
Proof.
  unfold on_unadvertise. destruct (sys_clients s !! id) as [c|] eqn:Ec; [|by apply calmly_Ok].
  destruct (swap_loop_spec unadvertise_one (cu_channel_ids m) c) as (order & _ & ->).
  assert (benign c (keep_run unadvertise_one order c).2) as Hb.
  { apply benign_keep_run. intros ch d. unfold unadvertise_one.
    destruct (cl_advertised_channels d !! ch); [apply benign_advertised|apply benign_send_control]. }
  destruct (keep_run unadvertise_one order c) as [[ks ys] d].
  apply calmly_Ok. etrans; [by eapply calm_set_client|]. apply calm_foldl. intros. apply calm_tell.
Qed.
Lemma calm_on_message_data id m s : calm s (on_message_data id m s).
Proof.
  unfold on_message_data. destruct (sys_clients s !! id) as [c|]; [|done].
  destruct (cl_advertised_channels c !! _); [apply calm_tell|apply calm_send].
Qed.
Lemma calm_publish_parameters ps s : calm s (publish_parameter_values ps s).
Proof.
  unfold publish_parameter_values. destruct (negb _); [done|]. apply calm_for_clients.
  intros id s'. destruct (filter_parameters _ _ _); [done|apply calm_send].
Qed.
Lemma calm_on_get_parameters id m s : calm s (on_get_parameters id m s).
Proof.
  unfold on_get_parameters. destruct (negb _); [apply calm_send|].
  destruct (sv_listener _); [|done]. etrans; [apply calm_effect|apply calm_send].
Qed.
Lemma calm_on_set_parameters id m s : calm s (on_set_parameters id m s).
Proof.
  unfold on_set_parameters. destruct (negb _); [apply calm_send|].
  destruct (sv_listener _); [|apply calm_publish_parameters].
  etrans; [|apply calm_publish_parameters].
  destruct (sp_id m); [|apply calm_effect]. etrans; [apply calm_effect|apply calm_send].
Qed.

(** *** Steps of the server *)

Lemma server_step_param op sv :
  CapParameters ∈ sv_capabilities sv → server_step sv (run_param op sv).1.
Proof.
  intros Hcap. split.
  - intros (Hp & _ & Hg & Hs). pose proof (run_param_step op sv Hp) as H1.
    unfold param_step in H1. destruct (run_param op sv) as [sv' effects].
    destruct H1 as (E & Hok & _). cbn. rewrite E. by split_and!.
  - unfold run_param, subscribe_parameters, unsubscribe_parameters, unsubscribe_all_parameters.
    destruct op as [c names|c names|c]; [..|done]; by destruct (foldl _ _ names).
  - unfold run_param, subscribe_parameters, unsubscribe_parameters, unsubscribe_all_parameters.
    destruct op as [c names|c names|c]; [..|done]; by destruct (foldl _ _ names).
  - unfold run_param, subscribe_parameters, unsubscribe_parameters, unsubscribe_all_parameters.
    destruct op as [c names|c names|c]; [..|done]; by destruct (foldl _ _ names).
Qed.
Lemma server_step_graph g sv :
  (cg_subscribers g ≠ ∅ → cg_subscribers (sv_connection_graph sv) ≠ ∅ ∨
    CapConnectionGraph ∈ sv_capabilities sv) →
  server_step sv (set_graph g sv).
Proof.
  intros Hg. split; [|done..]. intros (Hp & Hpc & Hgc & Hs). split_and!; [done|done| |done].
  cbn. intros Hne. destruct (Hg Hne); auto.
Qed.
Lemma server_step_services m sv : sm_wf m → server_step sv (set_services m sv).
Proof. intros Hm. split; [|done..]. intros (? & ? & ? & ?). by split_and!. Qed.
Lemma server_step_clients l b sv : l `sublist_of` sv_clients sv → server_step sv (set_clients l b sv).
Proof. intros Hl. by split. Qed.
Lemma server_step_session i sv : server_step sv (set_session_id i sv).
Proof. by split. Qed.

Lemma calm_on_server_param op s :
  sys_capability s CapParameters = true → calm s (on_server (run_param op) s).
Proof.
  intros Hcap%bool_decide_eq_true. unfold on_server.
  pose proof (server_step_param op (sys_server s) Hcap) as Hs.
  destruct (run_param op (sys_server s)). by apply calm_with_server.
Qed.
Lemma calm_on_parameters_subscribe id names s : calm s (on_parameters_subscribe id names s).
Proof.
  unfold on_parameters_subscribe. destruct (sys_capability s CapParameters) eqn:E; [|apply calm_send].
  by apply (calm_on_server_param (ParamSubscribe id names)).
Qed.
Lemma calm_on_parameters_unsubscribe id names s : calm s (on_parameters_unsubscribe id names s).
Proof.
  unfold on_parameters_unsubscribe. destruct (sys_capability s CapParameters) eqn:E; [|apply calm_send].
  by apply (calm_on_server_param (ParamUnsubscribe id names)).
Qed.

Lemma subscribe_graph_step id sv :
  CapConnectionGraph ∈ sv_capabilities sv →
  server_step sv (subscribe_connection_graph id sv).1.2.
Proof.
  intros Hcap. unfold subscribe_connection_graph.
  destruct (add_subscriber id (sv_connection_graph sv)) as [[] g] eqn:E; cbn;
    apply server_step_graph; auto.
Qed.
Lemma unsubscribe_graph_step id sv :
  server_step sv (unsubscribe_connection_graph id sv).1.2.
Proof.
  unfold unsubscribe_connection_graph.
  assert (cg_subscribers (sv_connection_graph sv) ∖ {[id]} ≠ ∅ →
    cg_subscribers (sv_connection_graph sv) ≠ ∅) as Hne by set_solver.
  destruct (ConnectionGraph.remove_subscriber id (sv_connection_graph sv)) as [b g] eqn:E.
  assert (g = with_subscribers (cg_subscribers (sv_connection_graph sv) ∖ {[id]})
    (sv_connection_graph sv)) as -> by (by injection E as _ <-).
  destruct b; cbn; apply server_step_graph; cbn; auto.
Qed.
Lemma calm_on_graph_subscribe id s : calm s (on_connection_graph_subscribe id s).
Proof.
  unfold on_connection_graph_subscribe.
  destruct (sys_capability s CapConnectionGraph) eqn:E; cbn [negb]; [|apply calm_send].
  apply bool_decide_eq_true in E. pose proof (subscribe_graph_step id (sys_server s) E) as Hs.
  destruct (subscribe_connection_graph id (sys_server s)) as [[u sv] effects]. cbn in Hs.
  destruct u; [|by apply calm_with_server]. etrans; [by apply calm_with_server|apply calm_send].
Qed.
Lemma calm_on_graph_unsubscribe id s : calm s (on_connection_graph_unsubscribe id s).
Proof.
  unfold on_connection_graph_unsubscribe. destruct (negb _); [apply calm_send|].
  pose proof (unsubscribe_graph_step id (sys_server s)) as Hs.
  destruct (unsubscribe_connection_graph id (sys_server s)) as [[u sv] effects].
  by apply calm_with_server.
Qed.

(** *** Broadcasts and services *)

Lemma calm_broadcast m s : calm s (broadcast m s).
Proof. apply calm_for_clients. intros. apply calm_send. Qed.
Lemma calm_broadcast_playback p s : calm s (broadcast_playback_state p s).
Proof. unfold broadcast_playback_state. destruct (negb _); [done|apply calm_broadcast]. Qed.
Lemma calm_broadcast_time t s : calm s (broadcast_time t s).
Proof. unfold broadcast_time. destruct (negb _); [done|apply calm_broadcast]. Qed.
Lemma calm_on_playback id m s : calm s (on_playback_control_request id m s).
Proof.
  unfold on_playback_control_request. destruct (negb _); [apply calm_send|].
  destruct (sv_listener _) as [h|]; [|apply calm_send].
  etrans; [apply calm_effect|].
  destruct (Server.on_playback_control_request h m); [apply calm_broadcast_playback|apply calm_send].
Qed.
Lemma calmly_publish_status st s : live_all s → calmly s (publish_status st s).
Proof.
  unfold publish_status. generalize (sv_clients (sys_server s)) as l. intros l.
  revert s. induction l as [|id l IH]; intros s Hl; cbn; [by apply calmly_Ok|].
  destruct (calmly_try_client id (send_status st) s Hl) as (s1 & E1 & Hs1).
  { intros c _ Hc. by apply benign_send_status. }
  rewrite E1. eapply calmly_after; [exact Hs1|]. apply IH. by eapply calm_live.
Qed.
Lemma calm_services_update m s : calm s (send_services_update m s).
Proof.
  apply calm_for_clients. intros id s'. apply calm_on_client. intros c.
  etrans; [apply benign_send_control|apply benign_send_token].
Qed.
Lemma calmly_add_services new s :
  services_wf (sys_server s) → NoDup (svc_id <$> new) →
  calmly s (keep_on_error (add_services new s) s).
Proof.
  intros Hwf Hd. unfold add_services, register_services.
  destruct (has_capability _ _); cbn [ensure mbind result_bind]; [|by apply calmly_Ok].
  destruct new as [|v0 new0]; cbn [mbind result_bind].
  { apply calmly_Ok. by apply calm_with_server. }
  set (new := v0 :: new0) in *.
  pose proof (check_new_services_Ok (sys_server s) ∅ new) as H1.
  pose proof (check_new_services_total (sys_server s) ∅ new) as T1.
  pose proof (check_unregistered_Ok (sv_services (sys_server s)) new) as H2.
  pose proof (check_unregistered_total (sv_services (sys_server s)) new) as T2.
  destruct (check_new_services (sys_server s) ∅ new) as [[]| |]; cbn [mbind result_bind];
    [|by apply calmly_Ok|done].
  destruct (check_unregistered (sv_services (sys_server s)) new) as [[]| |]; cbn [mbind result_bind];
    [|by apply calmly_Ok|done].
  destruct (ServiceMap_extend_fresh (E := FoxgloveError) new (sv_services (sys_server s)))
    as (m & -> & Hm & _); [by apply H1|done|by apply H2|done|].
  cbn [mbind result_bind]. apply calmly_after with (with_server (set_services m (sys_server s)) [] s).
  { by apply calm_with_server, server_step_services. }
  destruct (as_services _); apply calmly_Ok; [done|]. apply calm_services_update.
Qed.
Lemma calm_remove_services names s : services_wf (sys_server s) → calm s (remove_services names s).
Proof.
  intros Hwf. unfold remove_services, unregister_services.
  pose proof (unregister_loop_spec names (sv_services (sys_server s)) ∅ Hwf) as Hm.
  destruct (unregister_loop _ _ _) as [m old].
  destruct Hm as [Hm _]; [intros i; rewrite lookup_empty; by intros []|].
  assert (calm s (with_server (set_services m (sys_server s)) [] s)) as Hs
    by by apply calm_with_server, server_step_services.
  destruct (decide (old = ∅)); [done|]. etrans; [exact Hs|apply calm_services_update].
Qed.
Lemma calm_replace_graph g s :
  calmly s (keep_on_error (replace_connection_graph g s) s).
Proof.
  unfold replace_connection_graph.
  destruct (sys_capability s CapConnectionGraph); cbn [ensure mbind result_bind]; [|by apply calmly_Ok].
  unfold update. apply calmly_Ok.
  set (s1 := with_server _ [] s).
  assert (calm s s1) as Hs by (apply calm_with_server, server_step_graph; by left).
  etrans; [exact Hs|].
  apply calm_for_clients. intros id s'. destruct (is_subscriber id _); [apply calm_send|done].
Qed.
Lemma calm_clear_session v g n s : calm s (clear_session v g n s).
Proof.
  unfold clear_session. etrans; [apply calm_with_server, server_step_session|apply calm_broadcast].
Qed.
Lemma calm_poll id plane s : calm s (on_client id (λ c, (poll_send plane c).2) s).
Proof.
  apply calm_on_client. intros c. unfold poll_send. destruct plane.
  - destruct (fl_try_recv _). by apply benign_queues.
  - destruct (fl_try_recv_spec (cl_data_plane c)) as (q & -> & _ & Hs). cbn.
    apply benign_queues. by apply same_ends_live.
Qed.
Lemma calm_set_encoding_clients key e s :
  clients_step (sys_clients s) (sys_clients (set_encoding key e s)).
Proof.
  unfold set_encoding. by destruct (sys_responders s !! key) as [[[?|]|]|].
Qed.

Lemma calmly_unregister id s : live_all s → calmly s (unregister_client id s).
Proof.
  intros Hl. unfold unregister_client. destruct (sys_clients s !! id) as [c|]; [|by apply calmly_Ok].
  apply calmly_bind; [done|by apply calmly_run_context|]. intros s1 _ Hl1.
  set (s2 := with_server _ [] s1).
  assert (calm s1 s2) as Hs2 by (apply calm_with_server, server_step_clients, sublist_filter).
  set (s3 := if sys_capability s2 CapParameters then _ else _).
  assert (calm s2 s3) as Hs3.
  { unfold s3. destruct (sys_capability s2 CapParameters) eqn:E; [|done].
    by apply (calm_on_server_param (ParamUnsubscribeAll id)). }
  set (s4 := if sys_capability s3 CapConnectionGraph then _ else _).
  assert (calm s3 s4) as Hs4.
  { unfold s4. destruct (sys_capability s3 CapConnectionGraph); [|done]. unfold on_server.
    pose proof (unsubscribe_graph_step id (sys_server s3)) as Hg.
    destruct (unsubscribe_connection_graph id (sys_server s3)) as [[u sv] effects].
    by apply calm_with_server. }
  assert (calm s1 s4) as Hs14 by (etrans; [exact Hs2|etrans; [exact Hs3|exact Hs4]]).
  eapply calmly_after; [exact Hs14|].
  assert (live_all s4) as Hl4 by by eapply calm_live.
  apply calmly_bind; [done| |].
  - unfold on_disconnect. destruct (sys_clients s4 !! id); [|by apply calmly_Ok].
    by apply calmly_unsubscribe_channel_ids.
  - intros s5 _ _. apply calmly_Ok, calm_tell.
Qed.
Lemma calmly_closed id s : live_all s → calmly s (connection_closed id s).
Proof.
  intros Hl. unfold connection_closed.
  assert (calm s (on_client id (λ c, set_queues (cl_data_plane c)
    (fl_drop_receivers (cl_control_plane c)) c) (with_running (sys_running s ∖ {[id]}) s))) as Hs.
  { etrans; [apply calm_with_running|]. apply calm_on_client. intros c. by apply benign_queues. }
  eapply calmly_after; [exact Hs|]. apply calmly_unregister. by eapply calm_live.
Qed.
(** What registering a client changes. *)
Record registered (id : ClientId) s s' : Prop := {
  rg_clients : clients_step (sys_clients s) (sys_clients s');
  rg_responders : sys_responders s' = sys_responders s;
  rg_next : sys_next_client s' = sys_next_client s;
  rg_ok : server_ok (sys_server s) → server_ok (sys_server s');
  rg_backlog : sv_message_backlog_size (sys_server s') = sv_message_backlog_size (sys_server s);
  rg_list : sv_clients (sys_server s') `sublist_of` sv_clients (sys_server s) ++ [id];
  rg_tasks : sv_tasks (sys_server s') = sv_tasks (sys_server s)
}.
Lemma registered_calm id s s1 s2 :
  calm s1 s2 → sys_clients s1 = sys_clients s → registered id s s1 → registered id s s2.
Proof.
  intros [C1 [C2 C3 C4 C5] C6 C7] E [_ R2 R3 R4 R5 R6 R7]. rewrite E in C1.
  split; [done|congruence|congruence|auto|congruence|by etrans|congruence].
Qed.
Lemma calmly_register id s :
  live_all s → ∃ s', register_client_and_advertise id s = Ok s' ∧ registered id s s'.
Proof.
  intros Hl. unfold register_client_and_advertise.
  assert (registered id s s) as Hrefl by (split; try done; by apply sublist_inserts_r).
  destruct (sys_clients s !! id) as [c|]; [|by exists s].
  destruct (sv_clients_frozen (sys_server s)).
  { eexists. split; [done|]. apply (registered_calm id s s); [|done..].
    apply calm_on_client. intros. apply benign_shutdown. }
  set (s1 := with_server _ [] s). set (s2 := tell EfClientConnect s1).
  assert (registered id s s2) as H2 by by split.
  destruct (calmly_run_context (λ x w, let '(_, x, w) := add_sink (client_sink c) x w in (x, w)) s2)
    as (s3 & E & Hs3).
  { exact Hl. }
  rewrite E. cbn [mbind result_bind].
  assert (∀ s4, calm s3 s4 → registered id s s4) as Hfin.
  { intros s4 Hs4. apply (registered_calm id s s2); [by etrans|done..]. }
  destruct (cl_suppress_initial_advertisement c); [exists s3; split; [done|by apply Hfin]|].
  destruct (as_services _); eexists; (split; [done|]); apply Hfin; [done|apply calm_send].
Qed.

(** ** The system invariant *)

Definition responder_client (r : Responder) : option ClientId :=
  match r with
  | ServiceResponder (Some i) => Some (ri_client i)
  | AssetResponder (Some i) => Some (ai_client i)
  | _ => None
  end.
Definition is_call (id : ClientId) (r : Responder) : bool :=
  match r with ServiceResponder (Some i) => bool_decide (ri_client i = id) | _ => false end.
Definition is_fetch (id : ClientId) (r : Responder) : bool :=
  match r with AssetResponder (Some i) => bool_decide (ai_client i = id) | _ => false end.
(** The calls of a client whose handler has not responded yet. *)
Definition outstanding (p : Responder → bool) (l : list Responder) : nat :=
  length (filter (λ r, p r = true) l).

Definition sems_ok (l : list Responder) c : Prop :=
  (cl_service_call_sem c + outstanding (is_call (cl_id c)) l = DEFAULT_SERVICE_CALLS_PER_CLIENT)%nat ∧
  (cl_fetch_asset_sem c + outstanding (is_fetch (cl_id c)) l = DEFAULT_FETCH_ASSET_CALLS_PER_CLIENT)%nat.

Record sys_inv (n : nat) s : Prop := {
  si_server : server_ok (sys_server s);
  si_backlog : 0 < sv_message_backlog_size (sys_server s);
  si_next : 1 ≤ sys_next_client s ≤ Z.of_nat n + 1;
  si_clients : ∀ id c, sys_clients s !! id = Some c →
    cl_id c = id ∧ 1 ≤ id < sys_next_client s ∧ live (cl_data_plane c) ∧ sems_ok (sys_responders s) c;
  si_responders : ∀ r id, r ∈ sys_responders s → responder_client r = Some id →
    is_Some (sys_clients s !! id);
  si_list : NoDup (sv_clients (sys_server s)) ∧
    ∀ id, id ∈ sv_clients (sys_server s) → is_Some (sys_clients s !! id)
}.

Lemma sys_inv_live n s : sys_inv n s → live_all s.
Proof. intros Hi id c Hc. by destruct (si_clients n s Hi id c Hc) as (_ & _ & ? & _). Qed.
Lemma sys_inv_mono n m s : (n ≤ m)%nat → sys_inv n s → sys_inv m s.
Proof. intros Hle [? ? ? ? ? ?]. split; auto. lia. Qed.

Lemma clients_step_Some m m' id d :
  clients_step m m' → m' !! id = Some d → ∃ c, m !! id = Some c ∧ benign c d.
Proof. intros Hs Hd. specialize (Hs id). rewrite Hd in Hs. destruct (m !! id); [eauto|done]. Qed.
Lemma clients_step_is_Some m m' id :
  clients_step m m' → is_Some (m !! id) → is_Some (m' !! id).
Proof. intros Hs [c Hc]. specialize (Hs id). rewrite Hc in Hs. by destruct (m' !! id). Qed.

Lemma calm_inv n s s' : calm s s' → sys_inv n s → sys_inv n s'.
Proof.
  intros [Hc [Hok Hb Hl _] Hr Hn] [I1 I2 I3 I4 I5 [I6 I7]]. split.
  - auto.
  - by rewrite Hb.
  - by rewrite Hn.
  - intros id d Hd. destruct (clients_step_Some _ _ _ _ Hc Hd) as (c & Hcc & Hbn).
    destruct (I4 id c Hcc) as (? & ? & ? & Hs). destruct Hbn as [E1 _ E3 E4 E5 _].
    rewrite E1, Hn, Hr. split_and!; [done|lia|lia|auto|]. unfold sems_ok in *. by rewrite E1, E3, E4.
  - intros r id. rewrite Hr. intros Hin Hid. eapply clients_step_is_Some; [exact Hc|]. eauto.
  - split; [by eapply sublist_NoDup|]. intros id Hid.
    eapply clients_step_is_Some; [exact Hc|]. apply I7. by eapply elem_of_submseteq, sublist_submseteq.
Qed.
Lemma calmly_inv n s r : calmly s r → sys_inv n s → ∃ s', r = Ok s' ∧ sys_inv n s'.
Proof. intros (s' & -> & Hc) Hi. exists s'. split; [done|]. by eapply calm_inv. Qed.

(** *** Calls and responses *)

Lemma outstanding_snoc p l r :
  outstanding p (l ++ [r]) = (outstanding p l + if p r then 1 else 0)%nat.
Proof.
  unfold outstanding. rewrite filter_app, length_app. f_equal. rewrite filter_cons, filter_nil.
  by destruct (p r).
Qed.
Lemma outstanding_insert p l key r r' :
  l !! key = Some r →
  (outstanding p (<[key := r']> l) + (if p r then 1 else 0) =
   outstanding p l + if p r' then 1 else 0)%nat.
Proof.
  intros Hk. unfold outstanding.
  rewrite insert_take_drop by (by eapply lookup_lt_Some).
  replace (filter (λ r, p r = true) l) with
    (filter (λ r, p r = true) (take key l ++ r :: drop (S key) l))
    by (by rewrite (take_drop_middle l key r Hk)).
  rewrite !filter_app, !length_app, !filter_cons.
  destruct (p r), (p r'); repeat case_decide; try done; cbn; lia.
Qed.

(** A client takes a permit as its responder is handed out. *)
Lemma sys_inv_acquire n s s' id c r :
  sys_inv n s → sys_clients s !! id = Some c → responder_client r = Some id →
  sys_server s' = sys_server s → sys_next_client s' = sys_next_client s →
  sys_responders s' = sys_responders s ++ [r] →
  (∃ a b, sys_clients s' = alter (set_sems a b) id (sys_clients s) ∧
    (cl_service_call_sem c = a + if is_call id r then 1 else 0)%nat ∧
    (cl_fetch_asset_sem c = b + if is_fetch id r then 1 else 0)%nat) →
  sys_inv n s'.
Proof.
  intros [I1 I2 I3 I4 I5 I6] Hc Hr Esv En Er (a & b & Ecl & Ea & Eb).
  assert (Hsome : ∀ i, is_Some (sys_clients s' !! i) ↔ is_Some (sys_clients s !! i)).
  { intros i. rewrite Ecl. apply lookup_alter_is_Some. }
  assert (Hother : ∀ i, i ≠ id → is_call i r = false ∧ is_fetch i r = false).
  { intros i Hi. destruct r as [[ri|]|[ai|]]; cbn in *; try done; injection Hr as <-;
      by rewrite bool_decide_eq_false_2. }
  split; rewrite ?Esv, ?En, ?Er; [done..| | |].
  - intros i d. rewrite Ecl. destruct (decide (i = id)) as [->|Hne].
    + rewrite lookup_alter_eq, Hc. intros [= <-]. destruct (I4 id c Hc) as (<- & ? & ? & Hs1 & Hs2).
      split; [done|]. split; [done|]. split; [done|].
      unfold sems_ok; cbn; rewrite !outstanding_snoc; split; lia.
    + rewrite lookup_alter_ne by done. intros Hd. destruct (I4 i d Hd) as (<- & ? & ? & Hs1 & Hs2).
      destruct (Hother _ Hne) as [O1 O2]. split; [done|]. split; [done|]. split; [done|].
      unfold sems_ok. rewrite !outstanding_snoc, O1, O2. split; lia.
  - intros r' i [Hin| ->%list_elem_of_singleton]%elem_of_app Hi; apply Hsome; [by eapply I5|].
    rewrite Hr in Hi. injection Hi as <-. eauto.
  - destruct I6 as [I6 I7]. split; [done|]. intros i Hi. apply Hsome. auto.
Qed.

Lemma on_service_call_inv n id m s : sys_inv n s → sys_inv n (on_service_call id m s).
Proof.
  intros Hi. unfold on_service_call.
  destruct (negb _); [eapply calm_inv; [apply calm_send|done]|].
  destruct (get_service _ _) as [v|]; [|eapply calm_inv; [apply calm_send|done]].
  destruct (negb _); [eapply calm_inv; [apply calm_send|done]|].
  destruct (sys_clients s !! id) as [c|] eqn:Ec; [|done].
  destruct (cl_service_call_sem c) as [|permits] eqn:Es; [eapply calm_inv; [apply calm_send|done]|].
  eapply sys_inv_acquire; [exact Hi|exact Ec| |done|done|done|]; [done|].
  exists permits, (cl_fetch_asset_sem c). split_and!; [done| |cbn; lia].
  cbn. rewrite bool_decide_eq_true_2 by done. lia.
Qed.
Lemma on_fetch_asset_inv n id uri rid s : sys_inv n s → sys_inv n (on_fetch_asset id uri rid s).
Proof.
  intros Hi. unfold on_fetch_asset.
  destruct (negb _); [eapply calm_inv; [apply calm_send|done]|].
  destruct (sys_clients s !! id) as [c|] eqn:Ec; [|done].
  destruct (cl_fetch_asset_sem c) as [|permits] eqn:Es; [eapply calm_inv; [apply calm_send|done]|].
  destruct (sv_fetch_asset_handler _); [|eapply calm_inv; [apply calm_send|done]].
  eapply sys_inv_acquire; [exact Hi|exact Ec| |done|done|done|]; [done|].
  exists (cl_service_call_sem c), permits. split_and!; [done|cbn; lia|].
  cbn. rewrite bool_decide_eq_true_2 by done. lia.
Qed.

(** A response: a message, and the permit goes back. *)
Lemma sys_inv_release n s key r r' id m :
  sys_inv n s → sys_responders s !! key = Some r → responder_client r = Some id →
  responder_client r' = None →
  sys_inv n (on_client id (λ c, let c := send_control m c in
      set_sems (cl_service_call_sem c + if is_call id r then 1 else 0)
               (cl_fetch_asset_sem c + if is_fetch id r then 1 else 0) c)
    (with_responders (<[key := r']> (sys_responders s)) s)).
Proof.
  intros Hi Hk Hr Hr'.
  pose proof (calm_inv n s _ (calm_on_client id (send_control m) s
    (λ c, benign_send_control m c)) Hi) as [I1 I2 I3 I4 I5 I6].
  assert (Hnone : ∀ i, is_call i r' = false ∧ is_fetch i r' = false).
  { intros i. destruct r' as [[?|]|[?|]]; cbn in *; done. }
  assert (Hother : ∀ i, i ≠ id → is_call i r = false ∧ is_fetch i r = false).
  { intros i Hne. destruct r as [[ri|]|[ai|]]; cbn in *; try done; injection Hr as <-;
      by rewrite bool_decide_eq_false_2. }
  split; cbn; [done|done|done| | |].
  - intros i d Hd. cbn in I4. destruct (decide (i = id)) as [->|Hne].
    + rewrite lookup_alter_eq in Hd. apply fmap_Some in Hd as (c & Hc & ->).
      destruct (I4 id (send_control m c)) as (<- & ? & ? & Hs1 & Hs2); [by rewrite lookup_alter_eq, Hc|].
      split; [done|]. split; [done|]. split; [done|]. unfold sems_ok; cbn;
        pose proof (outstanding_insert (is_call (cl_id (send_control m c))) _ key r r' Hk);
        pose proof (outstanding_insert (is_fetch (cl_id (send_control m c))) _ key r r' Hk);
        destruct (Hnone (cl_id (send_control m c))) as [N1 N2]; rewrite N1, N2 in *; split; lia.
    + rewrite lookup_alter_ne in Hd by done.
      destruct (I4 i d) as (<- & ? & ? & Hs1 & Hs2); [by rewrite lookup_alter_ne|].
      destruct (Hother _ Hne) as [O1 O2], (Hnone (cl_id d)) as [N1 N2].
      pose proof (outstanding_insert (is_call (cl_id d)) _ key r r' Hk) as P1.
      pose proof (outstanding_insert (is_fetch (cl_id d)) _ key r r' Hk) as P2.
      rewrite O1, N1 in P1. rewrite O2, N2 in P2.
      split; [done|]. split; [done|]. split; [done|]. unfold sems_ok; split; lia.
  - intros x i [j Hj]%list_elem_of_lookup Hx. apply lookup_alter_is_Some.
    cbn in I5. setoid_rewrite lookup_alter_is_Some in I5.
    apply list_lookup_insert_Some in Hj as [(-> & <- & _)|[_ Hj]]; [congruence|].
    eapply I5; [|done]. apply list_elem_of_lookup. eauto.
  - destruct I6 as [I6 I7]. split; [done|]. intros i Hin%I7. cbn in Hin.
    rewrite lookup_alter_is_Some in Hin. by apply lookup_alter_is_Some.
Qed.

Lemma on_client_ext id f g s : (∀ c, f c = g c) → on_client id f s = on_client id g s.
Proof. intros E. unfold on_client. f_equal. apply alter_ext. auto. Qed.

Lemma use_responder_inv n key res s : sys_inv n s → sys_inv n (use_responder key res s).
Proof.
  intros Hi. unfold use_responder.
  destruct (sys_responders s !! key) as [[[r|]|[r|]]|] eqn:Hk; [|done| |done|done].
  - unfold respond_service. set (m := match res with RespondOk _ => _ | RespondErr _ => _ end).
    erewrite on_client_ext.
    + eapply (sys_inv_release n s key _ (ServiceResponder None) (ri_client r) m Hi Hk); done.
    + intros c. cbn. rewrite bool_decide_eq_true_2 by done. f_equal; lia.
  - unfold respond_asset. erewrite on_client_ext.
    + eapply (sys_inv_release n s key _ (AssetResponder None) (ai_client r)
        (match res with
         | RespondOk d => Message_from (SFetchAssetResponse (FetchAssetResponse_data (ai_request_id r) d))
         | RespondErr e => Message_from (SFetchAssetResponse (FetchAssetResponse_error (ai_request_id r) e))
         end) Hi Hk); done.
    + intros c. cbn [is_call is_fetch]. rewrite bool_decide_eq_true_2 by done.
      destruct res; unfold send_asset_response, send_asset_error; cbv zeta; f_equal; lia.
Qed.
Lemma drop_responder_inv n key s : sys_inv n s → sys_inv n (drop_responder key s).
Proof.
  intros Hi. unfold drop_responder.
  destruct (sys_responders s !! key) as [[?|?]|]; [by apply use_responder_inv..|done].
Qed.
Lemma set_encoding_inv n key e s : sys_inv n s → sys_inv n (set_encoding key e s).
Proof.
  intros Hi. unfold set_encoding.
  destruct (sys_responders s !! key) as [[[r|]|?]|] eqn:Hk; try done.
  set (r' := ServiceResponder _). destruct Hi as [I1 I2 I3 I4 I5 I6]. split; cbn; try done.
  - intros id c Hc. destruct (I4 id c Hc) as (<- & ? & ? & Hs1 & Hs2).
    split; [done|]. split; [done|]. split; [done|].
    pose proof (outstanding_insert (is_call (cl_id c)) _ key _ r' Hk) as P1.
    pose proof (outstanding_insert (is_fetch (cl_id c)) _ key _ r' Hk) as P2.
    cbn in P1, P2. unfold sems_ok. split; lia.
  - intros x i [j Hj]%list_elem_of_lookup Hx.
    apply list_lookup_insert_Some in Hj as [(-> & <- & _)|[_ Hj]].
    + apply (I5 (ServiceResponder (Some r))); [|exact Hx]. apply list_elem_of_lookup. eauto.
    + eapply I5; [|done]. apply list_elem_of_lookup. eauto.
Qed.

(** Starting and stopping. *)
Lemma sys_inv_tasks n t b s : sys_inv n s → sys_inv n (with_server (set_tasks t b (sys_server s)) [] s).
Proof. by intros [? ? ? ? ? ?]. Qed.
Lemma calm_shut_down (l : list ClientId) s :
  calm s (foldl (λ s id, on_client id (shutdown ServerStopped) s) s l).
Proof. apply calm_foldl. intros. apply calm_on_client. intros. apply benign_shutdown. Qed.
Lemma stop_inv n s : sys_inv n s → sys_inv n (stop s).2.
Proof.
  intros Hi. unfold stop. destruct (sv_tasks _); [|done]. cbn.
  eapply calm_inv; [apply calm_shut_down|]. apply (sys_inv_tasks n false true) in Hi.
  destruct Hi as [I1 I2 I3 I4 I5 I6]. split; [done..|]. split; [constructor|].
  intros id Hid. by apply not_elem_of_nil in Hid.
Qed.

(** *** Every operation *)

Lemma dispatch_message_inv n id m s :
  sys_inv n s → ∃ s', dispatch_message id m s = Ok s' ∧ sys_inv n s'.
Proof.
  intros Hi. pose proof (sys_inv_live n s Hi) as Hl.
  destruct m; cbn [dispatch_message].
  - eapply calmly_inv; [by apply calmly_on_subscribe|done].
  - eapply calmly_inv; [by apply calmly_on_unsubscribe|done].
  - eapply calmly_inv; [apply calmly_Ok, calm_on_advertise|done].
  - eapply calmly_inv; [apply calmly_on_unadvertise|done].
  - eapply calmly_inv; [apply calmly_Ok, calm_on_message_data|done].
  - eapply calmly_inv; [apply calmly_Ok, calm_on_get_parameters|done].
  - eapply calmly_inv; [apply calmly_Ok, calm_on_set_parameters|done].
  - eapply calmly_inv; [apply calmly_Ok, calm_on_parameters_subscribe|done].
  - eapply calmly_inv; [apply calmly_Ok, calm_on_parameters_unsubscribe|done].
  - eexists. split; [done|]. by apply on_service_call_inv.
  - eapply calmly_inv; [apply calmly_Ok, calm_on_graph_subscribe|done].
  - eapply calmly_inv; [apply calmly_Ok, calm_on_graph_unsubscribe|done].
  - eexists. split; [done|]. by apply on_fetch_asset_inv.
  - eapply calmly_inv; [apply calmly_Ok, calm_on_playback|done].
Qed.
Lemma handle_message_inv `{!BufLaws} n display id msg s :
  sys_inv n s → ∃ s', handle_message display id msg s = Ok s' ∧ sys_inv n s'.
Proof.
  intros Hi. unfold handle_message.
  assert (no_panic (ClientMessage_try_from msg)) as Hnp.
  { unfold ClientMessage_try_from, ClientMessage_parse_json. destruct msg; try done.
    - by destruct (json_to_client text).
    - eapply outcome_no_panic, ClientMessage_outcome. }
  destruct (ClientMessage_try_from msg) as [m|e|]; [by apply dispatch_message_inv| |done].
  destruct e; eexists; (split; [done|]); try done; (eapply calm_inv; [apply calm_send|done]).
Qed.

Lemma handle_connection_spec n version token sent s :
  sys_inv n s → Z.of_nat n + 2 < 2 ^ 32 →
  ∃ s', handle_connection version token sent s = Ok s' ∧ sys_inv (S n) s' ∧
    sys_responders s' = sys_responders s ∧ sv_tasks (sys_server s') = sv_tasks (sys_server s).
Proof.
  intros Hi Hn. unfold handle_connection. destruct (negb sent).
  { exists s. split; [done|]. split; [|done]. apply (sys_inv_mono n); [lia|done]. }
  set (c := match token with Some _ => _ | None => _ end).
  set (id := sys_next_client s).
  set (s1 := {| sys_server := sys_server s |}).
  assert (cl_id c = id ∧ cl_data_plane c = fl_bounded (Z.to_nat (sv_message_backlog_size (sys_server s))) ∧
    cl_service_call_sem c = DEFAULT_SERVICE_CALLS_PER_CLIENT ∧
    cl_fetch_asset_sem c = DEFAULT_FETCH_ASSET_CALLS_PER_CLIENT) as (Eid & Ed & Es & Ef).
  { unfold c. by destruct token, (bool_decide _ && bool_decide _). }
  destruct Hi as [I1 I2 I3 I4 I5 [I6 I7]].
  assert (wrap 32 (id + 1) = id + 1) as Ew by (apply wrap_small; unfold fits, id; lia).
  assert (sys_clients s !! id = None) as Hfresh.
  { destruct (sys_clients s !! id) as [d|] eqn:E; [|done]. destruct (I4 id d E) as (_ & Hlt & _).
    unfold id in Hlt. lia. }
  assert (Hout : ∀ p, (∀ r, p r = true → responder_client r = Some id) →
    outstanding p (sys_responders s) = 0%nat).
  { intros p Hp. unfold outstanding. rewrite filter_none; [done|]. intros r Hr Hpr.
    destruct (I5 r id Hr (Hp r Hpr)) as [d Hd]. congruence. }
  assert (live (cl_data_plane c)) as Hlive.
  { rewrite Ed. destruct (fl_bounded_spec (Z.to_nat (sv_message_backlog_size (sys_server s))))
      as (_ & Hcap & Hdis). split; [done|]. rewrite Hcap. lia. }
  assert (sys_inv (S n) s1) as Hi1.
  { split; cbn; rewrite ?Ew; [done|done|unfold id; lia| | |].
    - intros i d [[<- <-]|[Hne Hd]]%lookup_insert_Some.
      + split; [done|]. split; [unfold id; lia|]. split; [done|].
        unfold sems_ok. rewrite Eid, Es, Ef, !Hout; [done| |].
        * intros [[?|]|[?|]]; cbn; try done. intros ->%bool_decide_eq_true. done.
        * intros [[?|]|[?|]]; cbn; try done. intros ->%bool_decide_eq_true. done.
      + destruct (I4 i d Hd) as (<- & ? & ? & ?). split; [done|]. split; [|done]. unfold id. lia.
    - intros r i Hr Hri. apply lookup_insert_is_Some'. right. by eapply I5.
    - split; [done|]. intros i Hin. apply lookup_insert_is_Some'. right. by apply I7. }
  destruct (calmly_register id s1 (sys_inv_live _ _ Hi1)) as (s2 & -> & [Hc Hr Hnx Hok Hb Hsub Ht]).
  exists s2. split; [done|]. split; [|by rewrite Hr, Ht].
  destruct Hi1 as [J1 J2 J3 J4 J5 [J6 J7]]. split.
  - auto.
  - by rewrite Hb.
  - by rewrite Hnx.
  - intros i d Hd. destruct (clients_step_Some _ _ _ _ Hc Hd) as (c1 & Hc1 & Hbn).
    destruct (J4 i c1 Hc1) as (? & ? & ? & Hs). destruct Hbn as [E1 _ E3 E4 E5 _].
    rewrite E1, Hnx, Hr. split; [done|]. split; [done|]. split; [auto|].
    unfold sems_ok in *. by rewrite E1, E3, E4.
  - intros r i. rewrite Hr. intros Hin Hid. eapply clients_step_is_Some; [exact Hc|]. eauto.
  - cbn in Hsub. split.
    + eapply sublist_NoDup; [|exact Hsub]. apply NoDup_app. split_and!; [done| |apply NoDup_singleton].
      intros i Hin ->%list_elem_of_singleton. destruct (I7 _ Hin). congruence.
    + intros i Hin. eapply clients_step_is_Some; [exact Hc|]. cbn. apply lookup_insert_is_Some'.
      eapply elem_of_sublist in Hin; [|exact Hsub].
      apply elem_of_app in Hin as [?| ->%list_elem_of_singleton]; [right; auto|by left].
Qed.

Lemma handle_connection_inv n version token sent s :
  sys_inv n s → Z.of_nat n + 2 < 2 ^ 32 →
  ∃ s', handle_connection version token sent s = Ok s' ∧ sys_inv (S n) s'.
Proof.
  intros Hi Hn. destruct (handle_connection_spec n version token sent s Hi Hn) as (s' & E & Hs & _).
  by exists s'.
Qed.

(** Services are given distinct ids by [ServiceId::next]. *)
Definition sys_op_ok (op : SysOp) : Prop :=
  match op with SysAddServices l => NoDup (svc_id <$> l) | _ => True end.

Lemma run_sys_inv `{!BufLaws} n display op s :
  sys_inv n s → sys_op_ok op → Z.of_nat n + 2 < 2 ^ 32 →
  ∃ s', run_sys display op s = Ok s' ∧ sys_inv (S n) s'.
Proof.
  intros Hi Hop Hn. pose proof (sys_inv_live n s Hi) as Hl.
  assert (Hmono : ∀ r, (∃ s', r = Ok s' ∧ sys_inv n s') → ∃ s', r = Ok (E := string) s' ∧ sys_inv (S n) s').
  { intros r (s' & -> & Hs'). exists s'. split; [done|]. apply (sys_inv_mono n); [lia|done]. }
  destruct op; cbn [run_sys]; [by apply handle_connection_inv|apply Hmono..].
  - destruct (decide _); [by apply handle_message_inv|by exists s].
  - destruct (decide _); [|by exists s]. eapply calmly_inv; [by apply calmly_closed|done].
  - eapply calmly_inv; [|done]. apply calmly_Ok, calm_poll.
  - eapply calmly_inv; [|done]. by apply calmly_run_context.
  - eapply calmly_inv; [|done]. by apply calmly_run_context.
  - eexists. split; [done|]. by apply drop_responder_inv, use_responder_inv.
  - eexists. split; [done|]. by apply drop_responder_inv.
  - eexists. split; [done|]. by apply set_encoding_inv.
  - eapply calmly_inv; [|done]. apply calmly_add_services; [|done]. apply Hi.
  - eapply calmly_inv; [|done]. apply calmly_Ok, calm_remove_services. apply Hi.
  - eapply calmly_inv; [|done]. apply calmly_Ok, calm_publish_parameters.
  - eapply calmly_inv; [|done]. by apply calmly_publish_status.
  - eapply calmly_inv; [|done]. apply calmly_Ok, calm_broadcast.
  - eapply calmly_inv; [|done]. apply calmly_Ok, calm_broadcast_time.
  - eapply calmly_inv; [|done]. apply calmly_Ok, calm_broadcast_playback.
  - eapply calmly_inv; [|done]. apply calmly_Ok, calm_clear_session.
  - eapply calmly_inv; [|done]. apply calm_replace_graph.
  - unfold start. destruct (sv_tasks _ || sv_cancelled _); [by exists s|].
    eexists. split; [done|]. by apply sys_inv_tasks.
  - eexists. split; [done|]. by apply stop_inv.
Qed.

(** A system that starts. *)
Definition sys_init (sv : Server) : System :=
  {| sys_server := sv; sys_clients := ∅; sys_running := ∅; sys_sink_owner := ∅;
     sys_next_client := 1; sys_next_sink := 1; sys_context := ctx_init.1;
     sys_world := ctx_init.2; sys_responders := []; sys_effects := [] |}.
Fixpoint run_all (display : ParseError → string) (ops : list SysOp) (s : System)
    : result string System :=
  match ops with
  | [] => Ok s
  | op :: ops => s ← run_sys display op s; run_all display ops s
  end.

(** What [Server::new] gives: nobody is connected or subscribed. *)
Definition fresh_server (sv : Server) : Prop :=
  sv_clients sv = [] ∧ sv_subscribed_parameters sv = ∅ ∧
  cg_subscribers (sv_connection_graph sv) = ∅ ∧ services_wf sv ∧ 0 < sv_message_backlog_size sv.

Lemma sys_init_inv sv : fresh_server sv → sys_inv 0 (sys_init sv).
Proof.
  intros (Hc & Hp & Hg & Hs & Hb). split; cbn; [|done|lia| | |].
  - split_and!; [|by rewrite Hp|by rewrite Hg|done]. intros name ids. by rewrite Hp, lookup_empty.
  - intros id c. by rewrite lookup_empty.
  - intros r id Hr. by apply not_elem_of_nil in Hr.
  - rewrite Hc. split; [constructor|]. intros id Hid. by apply not_elem_of_nil in Hid.
Qed.
Lemma run_all_inv `{!BufLaws} display ops n s :
  sys_inv n s → Forall sys_op_ok ops → Z.of_nat n + Z.of_nat (length ops) + 1 < 2 ^ 32 →
  ∃ s', run_all display ops s = Ok s' ∧ sys_inv (n + length ops) s'.
Proof.
  revert n s. induction ops as [|op ops IH]; intros n s Hi Hops Hn; cbn [run_all].
  - exists s. split; [done|]. by rewrite Nat.add_0_r.
  - apply Forall_cons in Hops as [Hop Hops]. cbn [length] in Hn |- *.
    destruct (run_sys_inv n display op s Hi Hop) as (s1 & -> & Hi1); [lia|]. cbn.
    destruct (IH (S n) s1 Hi1 Hops) as (s2 & E & Hi2); [lia|].
    exists s2. split; [done|]. by replace (n + S (length ops))%nat with (S n + length ops)%nat by lia.
Qed.
End frame.
