(* ===== verification/SessionTheorems.v ===== *)
(** * SessionTheorems: the properties of the server with its clients

    Theorems about Session.v: every operation returns (no assertion fails, no
    [unreachable!] is reached), the concurrency limits on service calls and
    asset fetches, and what a subscribe request does.  Requests.v and
    Connections.v continue with the other requests and with the life of a
    connection. *)

From S2P Require Import Prelude Bytes Messages Wire WireProofs ConnectionGraph Channel.
From S2P Require Import Subscriptions Context Advertise Services Token Outbox Client Server.
From S2P Require Import Session SessionProofs.
Local Open Scope Z_scope.

(** ** Reachable states *)

Lemma Server_new_fresh generated opts sv :
  Server_new generated opts = Ok sv →
  sv_clients sv = [] ∧ sv_subscribed_parameters sv = ∅ ∧
  cg_subscribers (sv_connection_graph sv) = ∅ ∧ services_wf sv ∧
  sv_message_backlog_size sv =
    wrap 32 (default DEFAULT_MESSAGE_BACKLOG_SIZE (op_message_backlog_size opts)).
Proof.
  unfold Server_new. set (p := match op_services opts with [] => _ | _ => _ end).
  destruct p as [caps encs]. rewrite bind_Ok. intros (caps' & _ & Hb).
  rewrite bind_Ok in Hb. destruct Hb as (services & Hs & [= <-]). cbn. split_and!; try done.
  assert (∀ (l : list Service) m m', sm_wf m →
    ServiceMap_extend (E := FoxgloveError) l m = Ok m' → sm_wf m') as Hext.
  { intros l. induction l as [|v l IH]; intros m m' Hm; cbn; [by intros [= <-]|].
    rewrite bind_Ok. intros (m1 & H1 & H2). eapply IH; [|exact H2]. by eapply ServiceMap_insert_wf. }
  eapply Hext; [apply sm_wf_default|exact Hs].
Qed.

(** A server as [Server::new] makes it, with room in its queues. *)
Definition new_server (sv : Server) : Prop :=
  (∃ generated opts, Server_new generated opts = Ok sv) ∧ 0 < sv_message_backlog_size sv.
Lemma new_server_fresh sv : new_server sv → fresh_server sv.
Proof.
  intros [(g & o & Hnew) Hb]. destruct (Server_new_fresh g o sv Hnew) as (? & ? & ? & ? & _).
  by split_and!.
Qed.

(** C1: no sequence of events panics.  From a server made by [Server::new] with a
    positive backlog size and an empty context, after any sequence of fewer
    than 2^32 - 1 connections, client messages of any content, disconnections,
    logs, context operations, handler responses and calls of the server's own
    interface (services with distinct ids, as they are allocated), every step
    returns: no assertion of the subscription or service maps fails, no loop
    runs out of its bound, and no queue is found disconnected where the code
    says that is unreachable.  In the state reached, the connected clients are
    known and listed once, no parameter is listed without a subscriber, and
    parameter or connection-graph subscribers exist only if the server declared
    the capability. *)
Theorem system_never_panics `{FlumeLaws} `{BiMapLaws} `{BufLaws} `{Json} `{Base64}
    (display : ParseError → string) (ops : list SysOp) (sv : Server) :
  new_server sv → Forall sys_op_ok ops → Z.of_nat (length ops) + 1 < 2 ^ 32 →
  ∃ s, run_all display ops (sys_init sv) = Ok s ∧
    NoDup (sv_clients (sys_server s)) ∧
    (∀ id, id ∈ sv_clients (sys_server s) →
      ∃ c, sys_clients s !! id = Some c ∧ cl_id c = id) ∧
    (∀ name ids, sv_subscribed_parameters (sys_server s) !! name = Some ids →
      ids ≠ ∅ ∧ has_capability (sys_server s) CapParameters = true) ∧
    (cg_subscribers (sv_connection_graph (sys_server s)) ≠ ∅ →
      has_capability (sys_server s) CapConnectionGraph = true).
Proof.
  intros Hsv Hops Hn.
  destruct (run_all_inv display ops 0 (sys_init sv)) as (s & E & Hi); [|done|lia|].
  { by apply sys_init_inv, new_server_fresh. }
  exists s. destruct Hi as [(Hp & Hpc & Hgc & _) _ _ Hc _ [Hd Hl]]. unfold has_capability.
  split_and!; [done|done| | |].
  - intros id Hid. destruct (Hl id Hid) as [c Hcl]. exists c. split; [done|]. by destruct (Hc id c Hcl).
  - intros name ids Hids. split; [by eapply Hp|]. apply bool_decide_eq_true, Hpc.
    intros He. by rewrite He, lookup_empty in Hids.
  - intros Hne. by apply bool_decide_eq_true, Hgc.
Qed.

(** C6: the limits on concurrent requests.  In every reachable state, for every
    client, the free permits of its service-call semaphore and the service
    calls whose handler has not responded add up to 32, and likewise for asset
    fetches; so a client never has more than 32 of each in flight, a refused
    request costs no permit, and responding, or dropping the responder, gives
    exactly one permit back. *)
Theorem concurrent_requests_bounded `{FlumeLaws} `{BiMapLaws} `{BufLaws} `{Json} `{Base64}
    (display : ParseError → string) (ops : list SysOp) (sv : Server) :
  new_server sv → Forall sys_op_ok ops → Z.of_nat (length ops) + 1 < 2 ^ 32 →
  ∃ s, run_all display ops (sys_init sv) = Ok s ∧
    ∀ id c, sys_clients s !! id = Some c →
      (cl_service_call_sem c + outstanding (is_call id) (sys_responders s) = 32)%nat ∧
      (cl_fetch_asset_sem c + outstanding (is_fetch id) (sys_responders s) = 32)%nat.
Proof.
  intros Hsv Hops Hn.
  destruct (run_all_inv display ops 0 (sys_init sv)) as (s & E & Hi); [|done|lia|].
  { by apply sys_init_inv, new_server_fresh. }
  exists s. split; [done|]. intros id c Hc.
  by destruct (si_clients _ s Hi id c Hc) as (<- & _ & _ & Hs).
Qed.

(** *** A system to try things on *)

#[export] Instance json_ref : Json :=
  {| json_of_server _ := "{}"; json_to_client _ := None |}.
Definition show (e : ParseError) : string := "error".

Definition try_options : ServerOptions := {|
  op_session_id := Some "session"%string; op_name := None; op_message_backlog_size := Some 8;
  op_listener := Some {| Server.on_get_parameters _ _ _ := [];
    Server.on_set_parameters _ ps _ := ps; Server.on_playback_control_request _ := None |};
  op_capabilities := Some {[CapParameters; CapConnectionGraph]};
  op_services := [demo_service]; op_supported_encodings := None;
  op_fetch_asset_handler := true; op_channel_filter := None; op_server_info := None;
  op_playback_time_range := None |}.
Definition try_server : Server :=
  match Server_new "" try_options with Ok sv => sv | _ => demo_server end.
Lemma try_server_new : new_server try_server.
Proof. split; [|reflexivity]. exists ""%string, try_options. vm_compute. reflexivity. Qed.

Definition try_builder (topic : string) : ChannelBuilder :=
  {| cb_topic := topic; cb_message_encoding := Some "json"%string; cb_schema := None;
     cb_metadata := ∅ |}.
Definition call_frame (call_id : Z) : Message :=
  MBinary (frame (ClientOpcode_as_u8 COServiceCallRequest)
    {| scq_service_id := 5; scq_call_id := call_id; scq_encoding := "protobuf"; scq_payload := [] |}).
Definition try_ops : list SysOp :=
  [SysConnect "v" None true; SysContext (OpBuildRaw (try_builder "/a"));
   SysMessage 1 (call_frame 1); SysMessage 1 (call_frame 2); SysRespond 0 (RespondOk [])].

Lemma try_ops_run :
  match run_all show try_ops (sys_init try_server) with
  | Ok s => sv_clients (sys_server s) = [1] ∧ length (sys_effects s) = 4%nat
  | _ => False
  end.
Proof. vm_compute. by split. Qed.

Lemma system_never_panics_witness :
  ∃ s, run_all show try_ops (sys_init try_server) = Ok s ∧
    sv_clients (sys_server s) = [1] ∧ length (sys_effects s) = 4%nat.
Proof.
  destruct (system_never_panics show try_ops try_server) as (s & E & _).
  - apply try_server_new.
  - repeat constructor.
  - reflexivity.
  - exists s. split; [exact E|]. pose proof try_ops_run as Ht. by rewrite E in Ht.
Defined.

Lemma concurrent_requests_bounded_witness :
  ∃ s, run_all show try_ops (sys_init try_server) = Ok s ∧
    ∀ c, sys_clients s !! 1 = Some c →
      (cl_service_call_sem c + outstanding (is_call 1) (sys_responders s) = 32)%nat.
Proof.
  destruct (concurrent_requests_bounded show try_ops try_server) as (s & E & Hs).
  - apply try_server_new.
  - repeat constructor.
  - reflexivity.
  - exists s. split; [exact E|]. intros c Hc. by destruct (Hs 1 c Hc).
Defined.

(** ** Frames for the handlers *)

Section handlers.
Context `{FlumeLaws} `{BiMapLaws} `{HB : Buf} `{HJ : Json} `{H64 : Base64}.
Implicit Types s : System.
Implicit Types c d : ConnectedClient.

(** What the control plane cannot change. *)
Record same_view c d : Prop := {
  sv_view_channels : cl_channels d = cl_channels c;
  sv_view_subs : cl_subscriptions d = cl_subscriptions c;
  sv_view_sink : cl_sink_id d = cl_sink_id c;
  sv_view_advertised : cl_advertised_channels d = cl_advertised_channels c;
  sv_view_data : cl_data_plane d = cl_data_plane c
}.
#[export] Instance same_view_refl : Reflexive same_view.
Proof. by split. Qed.
#[export] Instance same_view_trans : Transitive same_view.
Proof. intros c d e [] []. split; congruence. Qed.
Lemma same_view_send m c : same_view c (send_control m c).
Proof.
  unfold send_control, send_control_msg, shutdown.
  destruct (fl_try_send m (cl_control_plane c)) as [[| |] q]; cbn; [done| |done].
  by destruct (cl_shutdown c).
Qed.

(** An operation of the context without callbacks. *)
Lemma run_context_quiet f s :
  w_trace (f (sys_context s) (sys_world s)).2 = w_trace (sys_world s) →
  run_context f s =
  Ok (with_context (f (sys_context s) (sys_world s)).1 (f (sys_context s) (sys_world s)).2 s).
Proof.
  intros E. unfold run_context. destruct (f _ _) as [x w]. cbn in *.
  by rewrite E, drop_all.
Qed.
Lemma subscribe_quiet id ids x w : w_trace (Context.subscribe_channels id ids x w).2 = w_trace w.
Proof.
  unfold Context.subscribe_channels. destruct (sinks x !! id); [|done].
  destruct (Subscriptions.subscribe_channels _ _ _) as [[] u]; [|done].
  apply update_channel_sinks_trace.
Qed.
Lemma unsubscribe_quiet id ids x w : w_trace (Context.unsubscribe_channels id ids x w).2 = w_trace w.
Proof.
  unfold Context.unsubscribe_channels.
  destruct (Subscriptions.unsubscribe_channels _ _ _) as [[] u]; [|done].
  apply update_channel_sinks_trace.
Qed.

(** ** Subscribing *)

(** The subscriptions a request makes, given the channels the client knows and
    the pairs it has: in order, those of a known channel that is not yet
    subscribed, under an id that is not yet used. *)
Fixpoint accepted (known : gmap ChannelId RawChannel) (pairs : gmap Z Z) (l : list Subscription)
    : list (Subscription * RawChannel) :=
  match l with
  | [] => []
  | sub :: l =>
    match known !! sn_channel_id sub with
    | None => accepted known pairs l
    | Some channel =>
      if bool_decide (is_Some (pairs !! sn_channel_id sub)) || right_taken (sn_id sub) pairs
      then accepted known pairs l
      else (sub, channel) :: accepted known (<[sn_channel_id sub := sn_id sub]> pairs) l
    end
  end.
Definition add_pair (pairs : gmap Z Z) (p : Subscription * RawChannel) : gmap Z Z :=
  <[sn_channel_id p.1 := sn_id p.1]> pairs.
Definition context_subscribe (sink : SinkId) (st : CtxState) (p : Subscription * RawChannel) : CtxState :=
  Context.subscribe_channels sink [rc_id p.2] st.1 st.2.
Definition subscribed_effect (sv : Server) (id : ClientId) (p : Subscription * RawChannel)
    : list Effect :=
  notify sv [EfSubscribe id (rc_id p.2) (rc_topic p.2)].

(** The first loop keeps the known channels, each next to its subscription. *)
Lemma lookup_run order c :
  let '(ks, ys, d) := keep_run lookup_subscription order c in
  zip ks ys = omap (λ sub, pair sub <$> cl_channels c !! sn_channel_id sub) order ∧
  same_view c d.
Proof.
  revert c. induction order as [|sub order IH]; intros c; cbn [keep_run]; [done|].
  unfold lookup_subscription at 1. cbn [omap list_omap].
  destruct (cl_channels c !! sn_channel_id sub) as [ch|] eqn:E.
  - specialize (IH c). destruct (keep_run _ order c) as [[ks ys] d].
    destruct IH as [Hz Hv]. cbn [zip fmap option_fmap option_map]. split; [|done]. cbn. by rewrite Hz.
  - cbn [fmap option_fmap option_map]. set (m := "Unknown channel ID: " +:+ _).
    specialize (IH (send_error m c)). destruct (keep_run _ order _) as [[ks ys] d].
    destruct IH as [Hz Hv]. pose proof (same_view_send (Message_from (SStatus (Status_error m))) c) as Hs.
    split; [|by etrans]. rewrite Hz. unfold send_error. by rewrite (sv_view_channels _ _ Hs).
Qed.

(** The second loop, over subscriptions of known channels. *)
Fixpoint accept_pairs (pairs : gmap Z Z) (l : list (Subscription * RawChannel))
    : list (Subscription * RawChannel) :=
  match l with
  | [] => []
  | p :: l =>
    if bool_decide (is_Some (pairs !! sn_channel_id p.1)) || right_taken (sn_id p.1) pairs
    then accept_pairs pairs l else p :: accept_pairs (add_pair pairs p) l
  end.
Lemma accepted_pairs known pairs l :
  accepted known pairs l = accept_pairs pairs (omap (λ sub, pair sub <$> known !! sn_channel_id sub) l).
Proof.
  revert pairs. induction l as [|sub l IH]; intros pairs; cbn [accepted omap list_omap]; [done|].
  destruct (known !! sn_channel_id sub); cbn [fmap option_fmap option_map]; [|apply IH].
  cbn [accept_pairs fst]. destruct (_ || _); [apply IH|]. f_equal. apply IH.
Qed.

(** How a handler leaves the system: only the client [id], the context and the
    effects change. *)
Record only_client (id : ClientId) s s' : Prop := {
  oc_server : sys_server s' = sys_server s;
  oc_others : ∀ i, i ≠ id → sys_clients s' !! i = sys_clients s !! i;
  oc_running : sys_running s' = sys_running s;
  oc_responders : sys_responders s' = sys_responders s
}.
#[export] Instance only_client_refl id : Reflexive (only_client id).
Proof. by split. Qed.
#[export] Instance only_client_trans id : Transitive (only_client id).
Proof.
  intros a b e [E1 E2 E3 E4] [F1 F2 F3 F4]. split; [congruence| |congruence|congruence].
  intros i Hi. by rewrite F2, E2.
Qed.
Lemma only_client_set id c s : only_client id s (with_clients (<[id := c]> (sys_clients s)) s).
Proof. split; cbn; try done. intros i Hi. by apply lookup_insert_ne. Qed.
Lemma only_client_on id f s : only_client id s (on_client id f s).
Proof. split; cbn; try done. intros i Hi. by apply lookup_alter_ne. Qed.

Lemma subscribe_all_spec id l s c :
  sys_clients s !! id = Some c →
  let acc := accept_pairs (bm_pairs (cl_subscriptions c)) l in
  ∃ s' d, subscribe_all id l s = Ok s' ∧ sys_clients s' !! id = Some d ∧
    only_client id s s' ∧
    bm_pairs (cl_subscriptions d) = foldl add_pair (bm_pairs (cl_subscriptions c)) acc ∧
    cl_channels d = cl_channels c ∧
    (sys_context s', sys_world s') =
      foldl (context_subscribe (cl_sink_id c)) (sys_context s, sys_world s) acc ∧
    sys_effects s' = sys_effects s ++ (acc ≫= subscribed_effect (sys_server s) id).
Proof.
  revert s c. induction l as [|[sub ch] l IH]; intros s c Hc; cbn [subscribe_all accept_pairs].
  - exists s, c. split_and!; try done. by rewrite app_nil_r.
  - unfold subscribe_one. rewrite Hc. cbn [fst].
    destruct (bm_insert_cases (sn_channel_id sub) (sn_id sub) (cl_subscriptions c))
      as [(Hl & Hr & b & -> & Hb)|[Ht ->]].
    + assert (bool_decide (is_Some (bm_pairs (cl_subscriptions c) !! sn_channel_id sub))
        || right_taken (sn_id sub) (bm_pairs (cl_subscriptions c)) = false) as ->.
      { apply orb_false_iff. rewrite bool_decide_eq_false, <- eq_None_not_Some. split; [done|].
        destruct (right_taken _ _) eqn:E; [|done]. apply right_taken_spec in E as [l' Hl'].
        by destruct (Hr l'). }
      set (c1 := set_subscriptions b c). set (s1 := with_clients _ s).
      rewrite run_context_quiet by apply subscribe_quiet. cbn [mbind result_bind].
      set (s2 := tell _ _).
      destruct (IH s2 c1) as (s' & d & E & Hd & Hoc & Hp & Hch & Hx & He).
      { cbn. apply lookup_insert_eq. }
      exists s', d. split_and!; [exact E|exact Hd| | |exact Hch| |].
      * etrans; [apply (only_client_set id c1)|]. etrans; [|exact Hoc]. by split.
      * rewrite Hp. cbn. by rewrite Hb.
      * rewrite Hx. cbn. unfold c1, add_pair. cbn. by rewrite Hb, <- surjective_pairing.
      * rewrite He. cbn. unfold c1. cbn. rewrite Hb. by rewrite <- app_assoc.
    + assert (bool_decide (is_Some (bm_pairs (cl_subscriptions c) !! sn_channel_id sub))
        || right_taken (sn_id sub) (bm_pairs (cl_subscriptions c)) = true) as ->.
      { apply orb_true_iff. rewrite bool_decide_eq_true, right_taken_spec. done. }
      set (s1 := with_clients _ s). set (c1 := set_subscriptions (cl_subscriptions c) c) in *.
      assert (∃ m, (if bm_contains_left (sn_channel_id sub) (cl_subscriptions c)
        then Ok (on_client id (send_warning ("Client is already subscribed to channel: "
            +:+ pretty (sn_channel_id sub) +:+ "; ignoring subscription")) s1)
        else if bm_contains_right (sn_id sub) (cl_subscriptions c)
        then Ok (on_client id (send_error ("Subscription ID was already used: "
            +:+ pretty (sn_id sub) +:+ "; ignoring subscription")) s1)
        else Panic) = Ok (E := string) (on_client id (send_control m) s1)) as [m ->].
      { destruct (bm_contains_left _ _) eqn:El; [by eexists|].
        destruct (bm_contains_right _ _) eqn:Er; [by eexists|].
        exfalso. destruct Ht as [Ht%bm_contains_left_spec|Ht%bm_contains_right_spec]; congruence. }
      cbn [mbind result_bind]. pose proof (same_view_send m c1) as Hv.
      destruct (IH (on_client id (send_control m) s1) (send_control m c1))
        as (s' & d & E & Hd & Hoc & Hp & Hch & Hx & He).
      { cbn. by rewrite lookup_alter_eq, lookup_insert_eq. }
      rewrite (sv_view_subs _ _ Hv) in Hp, Hx, He. rewrite (sv_view_channels _ _ Hv) in Hch.
      rewrite (sv_view_sink _ _ Hv) in Hx.
      exists s', d. split_and!; [exact E|exact Hd| |exact Hp|exact Hch|exact Hx|exact He].
      etrans; [apply (only_client_set id c1)|]. etrans; [apply (only_client_on id)|exact Hoc].
Qed.
End handlers.

(** C4: what a subscribe request does.  It always returns: the loop that prunes
    unknown channels with [swap_remove] ends, and the [assert!] on a refused
    insertion holds.  It accepts, in some order of the request (the pruning
    permutes it), the subscriptions of channels the client knows that are not
    subscribed yet under ids not in use; the client's two-way map gains
    exactly those pairs; the context subscribes the client's sink to exactly
    those channels; and the listener is called for each of them in turn with
    the id and topic of the very channel that was asked for, so the two lists
    the code keeps in parallel stay aligned.  Nothing else changes but the
    client's control queue. *)
Theorem on_subscribe_spec `{FlumeLaws} `{BiMapLaws} `{Buf} `{Json}
    `{Base64} (id : ClientId) (msg : Subscribe) (s : System) (c : ConnectedClient) :
  sys_clients s !! id = Some c →
  ∃ order s' d,
    order ≡ₚ Subscription_from <$> sub_subscriptions msg ∧
    on_subscribe id msg s = Ok s' ∧ sys_clients s' !! id = Some d ∧ only_client id s s' ∧
    let acc := accepted (cl_channels c) (bm_pairs (cl_subscriptions c)) order in
    bm_pairs (cl_subscriptions d) = foldl add_pair (bm_pairs (cl_subscriptions c)) acc ∧
    cl_channels d = cl_channels c ∧
    (sys_context s', sys_world s') =
      foldl (context_subscribe (cl_sink_id c)) (sys_context s, sys_world s) acc ∧
    sys_effects s' = sys_effects s ++ (acc ≫= subscribed_effect (sys_server s) id) ∧
    (∀ p, p ∈ acc → cl_channels c !! sn_channel_id p.1 = Some p.2).
Proof.
  intros Hc. unfold on_subscribe. rewrite Hc. set (subs := Subscription_from <$> _).
  destruct (swap_loop_spec lookup_subscription subs c) as (order & Hp & ->).
  pose proof (lookup_run order c) as Hrun.
  destruct (keep_run lookup_subscription order c) as [[ks ys] c1]. destruct Hrun as [Hz Hv].
  destruct (subscribe_all_spec id (zip ks ys) (with_clients (<[id := c1]> (sys_clients s)) s) c1)
    as (s' & d & E & Hd & Hoc & Hpairs & Hch & Hx & He).
  { cbn. apply lookup_insert_eq. }
  rewrite Hz, (sv_view_subs _ _ Hv) in Hpairs, Hx, He.
  rewrite (sv_view_channels _ _ Hv) in Hch. rewrite (sv_view_sink _ _ Hv) in Hx.
  rewrite <- accepted_pairs in Hpairs, Hx, He.
  exists order, s', d. split; [done|]. split; [exact E|]. split; [done|].
  split; [etrans; [apply (only_client_set id c1)|exact Hoc]|].
  cbn zeta. split_and!; [exact Hpairs|exact Hch|exact Hx|exact He|].
  clear. intros p. generalize (bm_pairs (cl_subscriptions c)) as pairs. intros pairs. revert pairs.
  induction order as [|sub order IH]; intros pairs; cbn [accepted].
  - intros Hp. by apply not_elem_of_nil in Hp.
  - destruct (cl_channels c !! sn_channel_id sub) as [ch|] eqn:E; [|apply IH].
    destruct (_ || _); [apply IH|]. intros [->|Hp]%elem_of_cons; [done|by eapply IH].
Qed.

Definition run_or_init (ops : list SysOp) : System :=
  match run_all show ops (sys_init try_server) with Ok s => s | _ => sys_init try_server end.
Definition one_client : System :=
  run_or_init [SysConnect "v" None true; SysContext (OpBuildRaw (try_builder "/a"))].
Lemma run_or_init_inv ops :
  Forall sys_op_ok ops → Z.of_nat (length ops) + 1 < 2 ^ 32 →
  sys_inv (length ops) (run_or_init ops).
Proof.
  intros Hops Hn. unfold run_or_init.
  destruct (run_all_inv show ops 0 (sys_init try_server)) as (s & -> & Hi);
    [|done|lia|done]. by apply sys_init_inv, new_server_fresh, try_server_new.
Qed.
Lemma one_client_inv : sys_inv 2 one_client.
Proof. apply (run_or_init_inv [_; _]); [by repeat constructor|reflexivity]. Qed.
Definition two_requests : Subscribe :=
  {| sub_subscriptions := [{| ws_id := 7; ws_channel_id := 1 |}] |}.

Lemma one_client_accepts :
  match sys_clients one_client !! 1 with
  | Some c => ∃ ch, accepted (cl_channels c) (bm_pairs (cl_subscriptions c))
      (Subscription_from <$> sub_subscriptions two_requests) =
      [({| sn_id := 7; sn_channel_id := 1 |}, ch)] ∧ bm_pairs (cl_subscriptions c) = ∅
  | None => False
  end.
Proof. vm_compute. eexists. by split. Qed.
#[local] Opaque one_client.
Lemma one_client_known :
  ∃ c ch, sys_clients one_client !! 1 = Some c ∧
    accepted (cl_channels c) (bm_pairs (cl_subscriptions c))
      (Subscription_from <$> sub_subscriptions two_requests) =
      [({| sn_id := 7; sn_channel_id := 1 |}, ch)] ∧ bm_pairs (cl_subscriptions c) = ∅.
Proof.
  generalize one_client_accepts. destruct (sys_clients one_client !! 1) as [c|].
  - intros [ch Hc]. exists c, ch. exact (conj eq_refl Hc).
  - intros Hf. exact (False_ind _ Hf).
Qed.

Lemma on_subscribe_spec_witness :
  ∃ s' d, on_subscribe 1 two_requests one_client = Ok s' ∧ sys_clients s' !! 1 = Some d ∧
    bm_pairs (cl_subscriptions d) = {[1 := 7]}.
Proof.
  destruct one_client_known as (c & ch & E & Ha & Hp).
  destruct (on_subscribe_spec 1 two_requests one_client c E)
    as (order & s' & d & Ho & Er & Ed & _ & Hd & _).
  exists s', d. split; [exact Er|]. split; [exact Ed|].
  apply Permutation_singleton_r in Ho. rewrite Hd, Ho.
  change ([Subscription_from _]) with (Subscription_from <$> sub_subscriptions two_requests).
  rewrite Ha, Hp. reflexivity.
Defined.
