(* ===== verification/Requests.v ===== *)
(** * Requests: what a server does with the requests of its clients

    Theorems about the handlers of Session.v that answer a request: the
    capability each message needs, service calls and asset fetches up to the
    response of their handler, and parameters up to the updates that every
    subscriber is sent. *)

From S2P Require Import Prelude Bytes Messages Wire WireProofs ConnectionGraph Channel.
From S2P Require Import Subscriptions Context Advertise Services Token Outbox Client Server.
From S2P Require Import Session SessionProofs SessionTheorems.
Local Open Scope Z_scope.

(** ** Capabilities *)

(** The capability that a message needs. *)
Definition required_capability (m : ClientMessage) : option Capability :=
  match m with
  | CAdvertise _ => Some CapClientPublish
  | CGetParameters _ | CSetParameters _ => Some CapParameters
  | CSubscribeParameterUpdates _ | CUnsubscribeParameterUpdates _ => Some CapParameters
  | CServiceCallRequest _ => Some CapServices
  | CFetchAsset _ => Some CapAssets
  | CSubscribeConnectionGraph | CUnsubscribeConnectionGraph => Some CapConnectionGraph
  | CPlaybackControlRequest _ => Some CapRangedPlayback
  | CSubscribe _ | CUnsubscribe _ | CUnadvertise _ | CMessageData _ => None
  end.
(** A refusal: an error status, or the failure of a service call with the ids
    of the call. *)
Definition refusal (m : ClientMessage) (reply : ServerMessage) : Prop :=
  match m with
  | CServiceCallRequest req => ∃ why, reply = SServiceCallFailure
      {| scf_service_id := scq_service_id req; scf_call_id := scq_call_id req; scf_message := why |}
  | _ => ∃ why, reply = SStatus (Status_error why)
  end.

(** C8: requests are gated by capabilities.  A message of a kind that the server
    did not declare the capability for has one effect: the client that sent it
    is sent one refusal.  No other client is sent anything, the listener and
    the handlers hear nothing, no permit is taken, and no state of the server
    or the context changes. *)
Theorem capability_gating `{Flume} `{BiMap} `{Buf} `{Json} `{Base64}
    (display : ParseError → string) (id : ClientId) (msg : Message) (m : ClientMessage)
    (cap : Capability) (s : System) :
  ClientMessage_try_from msg = Ok m → required_capability m = Some cap →
  has_capability (sys_server s) cap = false →
  ∃ reply, refusal m reply ∧
    handle_message display id msg s = Ok (on_client id (send_control (Message_from reply)) s).
Proof.
  intros Hm Hr Hc. unfold handle_message. rewrite Hm.
  destruct m; cbn in Hr |- *; try done; injection Hr as <-;
    unfold on_advertise, on_get_parameters, on_set_parameters, on_parameters_subscribe,
      on_parameters_unsubscribe, on_service_call, on_fetch_asset, on_connection_graph_subscribe,
      on_connection_graph_unsubscribe, on_playback_control_request, sys_capability;
    rewrite Hc; cbn [negb];
    (eexists; split; [by eexists|reflexivity]).
Qed.

Definition playback_frame : Message := MBinary
  (frame (ClientOpcode_as_u8 COPlaybackControlRequest)
    {| pcr_playback_command := Play; pcr_playback_speed := 0; pcr_seek_time := None;
       pcr_request_id := "r" |}).
Lemma capability_gating_witness :
  ∃ reply, (∃ why, reply = SStatus (Status_error why)) ∧
    handle_message show 1 playback_frame one_client =
    Ok (on_client 1 (send_control (Message_from reply)) one_client).
Proof.
  apply (capability_gating show 1 playback_frame (CPlaybackControlRequest
    {| pcr_playback_command := Play; pcr_playback_speed := 0; pcr_seek_time := None;
       pcr_request_id := "r" |}) CapRangedPlayback one_client).
  - vm_compute. reflexivity.
  - reflexivity.
  - vm_compute. reflexivity.
Defined.

(** ** Calls and their responders *)

(** What an external handler does with a responder: it may set the encoding, and
    responds or drops the responder. *)
Record HandlerRun := { hr_encodings : list string; hr_response : option Response }.
Definition run_handler `{Flume} `{BiMap} `{Buf} `{Json} `{Base64} (key : nat) (h : HandlerRun)
    (s : System) : System :=
  let s := foldl (λ s e, set_encoding key e s) s (hr_encodings h) in
  match hr_response h with Some res => respond key res s | None => drop_responder key s end.

Section calls.
Context `{HF : Flume} `{HM : BiMap} `{HB : Buf} `{HJ : Json} `{H64 : Base64}.
Implicit Types s : System.
Implicit Types c : ConnectedClient.

Lemma set_sems_send a b m c : set_sems a b (send_control m c) = send_control m (set_sems a b c).
Proof.
  unfold send_control, send_control_msg. cbn.
  destruct (fl_try_send m (cl_control_plane c)) as [[| |] q]; cbn; [done| |done].
  unfold shutdown, set_queues. cbn. by destruct (cl_shutdown c).
Qed.
Lemma set_sems_id c : set_sems (cl_service_call_sem c) (cl_fetch_asset_sem c) c = c.
Proof. by destruct c. Qed.
Lemma set_sems_twice a b a' b' c : set_sems a b (set_sems a' b' c) = set_sems a b c.
Proof. done. Qed.
Lemma sems_send m c :
  cl_service_call_sem (send_control m c) = cl_service_call_sem c ∧
  cl_fetch_asset_sem (send_control m c) = cl_fetch_asset_sem c.
Proof.
  unfold send_control, send_control_msg. destruct (fl_try_send m _) as [[| |] q]; cbn; [done| |done].
  unfold shutdown. cbn. by destruct (cl_shutdown c).
Qed.

Lemma alter_Some (f : ConnectedClient → ConnectedClient) id c (m : gmap ClientId ConnectedClient) :
  m !! id = Some c → alter f id m = <[id := f c]> m.
Proof.
  intros Hc. apply map_eq. intros i. destruct (decide (i = id)) as [->|Hne].
  - by rewrite lookup_alter_eq, Hc, lookup_insert_eq.
  - by rewrite lookup_alter_ne, lookup_insert_ne.
Qed.
Lemma respond_used key res s :
  sys_responders s !! key = Some (ServiceResponder None) ∨
  sys_responders s !! key = Some (AssetResponder None) →
  use_responder key res s = s ∧ drop_responder key s = s.
Proof. unfold drop_responder, use_responder. by intros [-> | ->]. Qed.

(** Setting the encoding of a responder that has not responded. *)
Lemma set_encodings key es r s :
  sys_responders s !! key = Some (ServiceResponder (Some r)) →
  let s' := foldl (λ s e, set_encoding key e s) s es in
  sys_responders s' !! key = Some (ServiceResponder (Some {|
    ri_client := ri_client r; ri_service_id := ri_service_id r; ri_call_id := ri_call_id r;
    ri_encoding := default (ri_encoding r) (last es) |})) ∧
  sys_clients s' = sys_clients s ∧ sys_effects s' = sys_effects s ∧
  sys_server s' = sys_server s.
Proof.
  revert s r. induction es as [|e es IH]; intros s r Hr; cbn [foldl].
  - cbn. rewrite Hr. by destruct r.
  - unfold set_encoding at 2 4 6 8. rewrite Hr.
    destruct (IH (with_responders (<[key:=ServiceResponder (Some {| ri_client := ri_client r;
      ri_service_id := ri_service_id r; ri_call_id := ri_call_id r; ri_encoding := e |})]>
      (sys_responders s)) s) {| ri_client := ri_client r;
      ri_service_id := ri_service_id r; ri_call_id := ri_call_id r; ri_encoding := e |})
      as (E1 & E2 & E3 & E4).
    { cbn. apply list_lookup_insert_eq. by eapply lookup_lt_Some. }
    split_and!; [|done..]. rewrite E1, last_cons. by destruct (last es).
Qed.

(** The message that answers a call: the handler's response, or a failure if the
    handler dropped its responder.  [encoding] is the one the call was accepted
    with. *)
Definition call_reply (service_id call_id : Z) (encoding : string) (h : HandlerRun) : ServerMessage :=
  let failure why := SServiceCallFailure
    {| scf_service_id := service_id; scf_call_id := call_id; scf_message := why |} in
  match hr_response h with
  | Some (RespondOk payload) => SServiceCallResponse
      {| scr_service_id := service_id; scr_call_id := call_id;
         scr_encoding := default encoding (last (hr_encodings h)); scr_payload := payload |}
  | Some (RespondErr why) => failure why
  | None => failure "Internal server error: service failed to send a response"%string
  end.

Lemma use_service_responder key r res s :
  sys_responders s !! key = Some (ServiceResponder (Some r)) →
  let s' := use_responder key res s in
  let reply := call_reply (ri_service_id r) (ri_call_id r) (ri_encoding r)
    {| hr_encodings := []; hr_response := Some res |} in
  sys_responders s' !! key = Some (ServiceResponder None) ∧
  sys_effects s' = sys_effects s ∧ sys_server s' = sys_server s ∧
  sys_clients s' = alter (λ c, set_sems (S (cl_service_call_sem c)) (cl_fetch_asset_sem c)
    (send_control (Message_from reply) c)) (ri_client r) (sys_clients s).
Proof.
  intros Hr s' reply. unfold s', use_responder. rewrite Hr. cbn. split_and!; [|done..|].
  - apply list_lookup_insert_eq. by eapply lookup_lt_Some.
  - apply alter_ext. intros c _. destruct res; unfold reply; cbn;
      by rewrite !(proj1 (sems_send _ c)), !(proj2 (sems_send _ c)).
Qed.

(** The response of a handler to a call. *)
Lemma handler_responds key h r c s :
  sys_responders s !! key = Some (ServiceResponder (Some r)) →
  sys_clients s !! ri_client r = Some c →
  let reply := call_reply (ri_service_id r) (ri_call_id r) (ri_encoding r) h in
  let s' := run_handler key h s in
  sys_clients s' = <[ri_client r := set_sems (S (cl_service_call_sem c)) (cl_fetch_asset_sem c)
    (send_control (Message_from reply) c)]> (sys_clients s) ∧
  sys_responders s' !! key = Some (ServiceResponder None) ∧
  sys_effects s' = sys_effects s ∧ sys_server s' = sys_server s.
Proof.
  intros Hr Hc reply s'. unfold s', run_handler.
  destruct (set_encodings key (hr_encodings h) r s Hr) as (E1 & E2 & E3 & E4).
  set (s1 := foldl _ s _) in *. clearbody s1.
  assert (Huse : ∀ res, let s2 := use_responder key res s1 in
    hr_response h = Some res ∨ hr_response h = None ∧
      res = RespondErr "Internal server error: service failed to send a response" →
    drop_responder key s2 = s2 ∧ sys_clients s2 =
      <[ri_client r := set_sems (S (cl_service_call_sem c)) (cl_fetch_asset_sem c)
        (send_control (Message_from reply) c)]> (sys_clients s) ∧
    sys_responders s2 !! key = Some (ServiceResponder None) ∧
    sys_effects s2 = sys_effects s ∧ sys_server s2 = sys_server s).
  { intros res s2 Hres. destruct (use_service_responder key _ res s1 E1) as (F1 & F2 & F3 & F4).
    split; [by apply (respond_used key res); left|]. unfold s2.
    rewrite F2, F3, F4, E2, E3, E4. cbn [ri_client]. rewrite (alter_Some _ _ c) by done.
    split_and!; [|done..]. do 3 f_equal. unfold reply, call_reply. cbn.
    destruct Hres as [-> | [-> ->]]; done. }
  unfold respond. destruct (hr_response h) as [res|].
  - destruct (Huse res (or_introl eq_refl)) as [-> Hs]. exact Hs.
  - unfold drop_responder. rewrite E1. apply Huse. by right.
Qed.
End calls.

(** A call that is handed to its service. *)
Record call_accepted `{Flume} `{BiMap} (sv : Server) (c : ConnectedClient) (req : ServiceCallRequest)
    (service : Service) : Prop := {
  ca_capability : has_capability sv CapServices = true;
  ca_service : get_service sv (scq_service_id req) = Some service;
  ca_encoding : encoding_accepted sv service (scq_encoding req) = true;
  ca_permit : (0 < cl_service_call_sem c)%nat
}.

(** C5: a service call is answered once.  Either the call is accepted: the
    capability is declared, the service exists, the encoding is one it accepts
    and a permit is free; then a permit is taken, the handler is called once
    with the call, and whatever the handler does with its responder (sets
    encodings, responds, or drops it) the outcome is that the client has been
    sent exactly one message, with the ids of its call and the handler's
    payload and encoding (the last one it set, or else the service's response
    encoding, or else the request's), its permit is back, and a second response
    does nothing.  Or the call is refused: the client is sent one failure with
    the ids of its call, no handler is called and no permit is taken. *)
Theorem service_call_answered_once `{Flume} `{BiMap} `{Buf} `{Json} `{Base64}
    (id : ClientId) (req : ServiceCallRequest) (h : HandlerRun) (s : System) (c : ConnectedClient) :
  services_wf (sys_server s) → sys_clients s !! id = Some c →
  let key := length (sys_responders s) in
  let s1 := on_service_call id req s in
  let s2 := run_handler key h s1 in
  (∃ service, call_accepted (sys_server s) c req service ∧
    S ∘ cl_service_call_sem <$> sys_clients s1 !! id = Some (cl_service_call_sem c) ∧
    sys_effects s1 = sys_effects s ++ [EfServiceCall {| rq_service := service;
      rq_client_id := id; rq_call_id := scq_call_id req; rq_encoding := scq_encoding req;
      rq_payload := scq_payload req |} key] ∧
    let reply := call_reply (scq_service_id req) (scq_call_id req)
      (default (scq_encoding req) (response_encoding service)) h in
    sys_clients s2 = <[id := send_control (Message_from reply) c]> (sys_clients s) ∧
    sys_effects s2 = sys_effects s1 ∧ sys_server s2 = sys_server s ∧
    (∀ res, use_responder key res s2 = s2 ∧ drop_responder key s2 = s2)) ∨
  ((∀ service, ¬ call_accepted (sys_server s) c req service) ∧
    ∃ why, s1 = on_client id (send_control (Message_from (SServiceCallFailure
      {| scf_service_id := scq_service_id req; scf_call_id := scq_call_id req;
         scf_message := why |}))) s).
Proof.
  intros Hwf Hc key s1 s2. unfold s2, s1, on_service_call, sys_capability.
  destruct (has_capability (sys_server s) CapServices) eqn:Ecap; cbn [negb].
  2: { right. split; [|by eexists]. intros v [Hv _ _ _]. congruence. }
  destruct (get_service (sys_server s) (scq_service_id req)) as [service|] eqn:Es.
  2: { right. split; [|by eexists]. intros v [_ Hv _ _]. congruence. }
  destruct (encoding_accepted (sys_server s) service (scq_encoding req)) eqn:Ee; cbn [negb].
  2: { right. split; [|by eexists]. intros v [_ Hv He _]. congruence. }
  rewrite Hc. destruct (cl_service_call_sem c) as [|permits] eqn:Ep.
  { right. split; [|by eexists]. intros v [_ _ _ Hp]. lia. }
  left. exists service. split; [by split; [..|lia]|].
  set (r := {| ri_client := id; ri_service_id := svc_id service; ri_call_id := scq_call_id req;
    ri_encoding := default (scq_encoding req) (response_encoding service) |}).
  set (s1' := effect _ _).
  destruct (handler_responds key h r (set_sems permits (cl_fetch_asset_sem c) c) s1')
    as (E1 & E2 & E3 & E4).
  { cbn. by rewrite lookup_app_r, Nat.sub_diag. }
  { cbn. by rewrite lookup_alter_eq, Hc. }
  split; [cbn; by rewrite lookup_alter_eq, Hc|]. split; [done|]. cbn zeta.
  split; [|split; [exact E3|split; [exact E4|intros res; apply respond_used; by left]]].
  rewrite E1. cbn [ri_client r]. change (ri_service_id r) with (svc_id service).
  assert (svc_id service = scq_service_id req) as -> by by eapply (smw_id _ Hwf).
  cbn [sys_clients s1' effect with_server with_responders on_client with_clients].
  rewrite (alter_Some _ id c), insert_insert_eq by done. f_equal.
  rewrite <- set_sems_send. cbn [cl_service_call_sem cl_fetch_asset_sem set_sems].
  change (ri_call_id r) with (scq_call_id req). subst r. cbn [ri_encoding].
  rewrite set_sems_twice, <- Ep. set (m := Message_from _).
  destruct (sems_send m c) as [Es1 Es2]. rewrite <- Es1, <- Es2. apply set_sems_id.
Qed.

Definition one_call : ServiceCallRequest :=
  {| scq_service_id := 5; scq_call_id := 1; scq_encoding := "protobuf"; scq_payload := [] |}.
Lemma one_client_services :
  match sys_clients one_client !! 1, get_service (sys_server one_client) 5 with
  | Some c, Some service => has_capability (sys_server one_client) CapServices &&
      encoding_accepted (sys_server one_client) service (scq_encoding one_call) &&
      (0 <? cl_service_call_sem c)%nat = true
  | _, _ => False
  end.
Proof. vm_compute. reflexivity. Qed.
#[local] Opaque one_client.
Lemma one_client_call :
  ∃ c service, sys_clients one_client !! 1 = Some c ∧
    call_accepted (sys_server one_client) c one_call service.
Proof.
  generalize one_client_services. destruct (sys_clients one_client !! 1) as [c|];
    [|intros Hf; exact (False_ind _ Hf)].
  destruct (get_service _ 5) as [v|] eqn:Ev; [|intros Hf; exact (False_ind _ Hf)].
  intros [[Hcap He]%andb_true_iff Hp%Nat.ltb_lt]%andb_true_iff.
  exists c, v. split; [exact eq_refl|]. by split.
Qed.

Definition silent_handler : HandlerRun := {| hr_encodings := ["json"%string]; hr_response := None |}.
Lemma service_call_answered_once_witness :
  ∃ c m, sys_clients one_client !! 1 = Some c ∧
    sys_clients (run_handler (length (sys_responders one_client)) silent_handler
      (on_service_call 1 one_call one_client)) =
    <[1 := send_control (Message_from m) c]> (sys_clients one_client).
Proof.
  destruct one_client_call as (c & v & Ec & Ha).
  destruct (service_call_answered_once 1 one_call silent_handler one_client c
    (proj2 (proj2 (proj2 (si_server 2 _ one_client_inv)))) Ec)
    as [(v' & _ & _ & _ & Hr & _)|[Hn _]].
  - eexists c, _. split; [exact Ec|exact Hr].
  - destruct (Hn v Ha).
Defined.

(** ** Parameters *)

(** What a client with id [i] is sent when [id] sets parameters and [updated] is
    what was set: the requester is told if it gave an id, and then each
    connected client that subscribes to some of the names gets those. *)
Definition set_replies (sv : Server) (id : ClientId) (request_id : option string)
    (updated : list Param) (i : ClientId) : list ServerMessage :=
  let values l request_id :=
    SParameterValues {| pv_parameters := filter has_value l; pv_id := request_id |} in
  let mine := filter (λ p, is_param_subscriber sv i p = true) updated in
  (match request_id with
   | Some r => if bool_decide (i = id) && bool_decide (is_Some (sv_listener sv))
               then [values updated (Some r)] else []
   | None => []
   end) ++
  (if bool_decide (i ∈ sv_clients sv) && bool_decide (mine ≠ []) then [values mine None] else []).
Definition send_all `{Flume} `{BiMap} `{Json} `{Buf} (ms : list ServerMessage)
    (c : ConnectedClient) : ConnectedClient :=
  foldl (λ c m, send_control (Message_from m) c) c ms.

Section parameters.
Context `{HF : Flume} `{HM : BiMap} `{HB : Buf} `{HJ : Json} `{H64 : Base64}.
Implicit Types s : System.

(** A loop over distinct clients that touches each at its turn. *)
Lemma foldl_clients (f : System → ClientId → System) (g : ClientId → ConnectedClient → ConnectedClient)
    sv l s :
  (∀ s id, sys_server s = sv →
    sys_server (f s id) = sv ∧ sys_clients (f s id) = alter (g id) id (sys_clients s) ∧
    sys_effects (f s id) = sys_effects s) →
  sys_server s = sv → NoDup l →
  let s' := foldl f s l in
  sys_server s' = sv ∧ sys_effects s' = sys_effects s ∧
  ∀ i, sys_clients s' !! i = (if bool_decide (i ∈ l) then g i else id) <$> sys_clients s !! i.
Proof.
  intros Hf. revert s. induction l as [|a l IH]; intros s Hs Hd; cbn [foldl].
  - split_and!; [done..|]. intros i. rewrite bool_decide_eq_false_2 by apply not_elem_of_nil.
    by destruct (sys_clients s !! i).
  - apply NoDup_cons in Hd as [Ha Hd]. destruct (Hf s a Hs) as (E1 & E2 & E3).
    destruct (IH (f s a) E1 Hd) as (F1 & F2 & F3). split_and!; [done|congruence|].
    intros i. rewrite F3, E2. destruct (decide (i = a)) as [->|Hne].
    + rewrite lookup_alter_eq, bool_decide_eq_false_2, bool_decide_eq_true_2 by (done || left).
      by destruct (sys_clients s !! a).
    + rewrite lookup_alter_ne by done. f_equal.
      by rewrite (bool_decide_ext _ (i ∈ a :: l)) by set_solver.
Qed.

Lemma publish_spec ps s :
  has_capability (sys_server s) CapParameters = true → NoDup (sv_clients (sys_server s)) →
  let s' := publish_parameter_values ps s in
  sys_server s' = sys_server s ∧ sys_effects s' = sys_effects s ∧
  ∀ i, sys_clients s' !! i =
    send_all (set_replies (sys_server s) i None ps i) <$> sys_clients s !! i.
Proof.
  intros Hcap Hd. unfold publish_parameter_values, sys_capability. rewrite Hcap. cbn [negb].
  set (sv := sys_server s).
  destruct (foldl_clients (λ s id,
      match filter_parameters (sys_server s) id ps with
      | [] => s
      | filtered => on_client id (update_parameters filtered None) s
      end) (λ id, match filter_parameters sv id ps with
                  | [] => Datatypes.id | l => update_parameters l None end) sv (sv_clients sv) s)
    as (E1 & E2 & E3); [|done|done|].
  - intros s0 i <-. destruct (filter_parameters _ i ps) as [|p l] eqn:E; cbn; rewrite ?E; [|done].
    split_and!; [done| |done]. symmetry. by apply alter_id.
  - split_and!; [done|done|]. intros i. rewrite E3. f_equal. unfold set_replies. cbn [app].
    destruct (bool_decide (i ∈ sv_clients sv)); [|done]. cbn [andb].
    unfold filter_parameters. by destruct (filter _ ps).
Qed.
End parameters.

(** C9: setting parameters.  When the capability is declared, a request to set
    parameters calls the listener once with the request (without a listener,
    the parameters stand as requested); the requester is sent the updated
    values under its request id, if it gave one; then every connected client
    that subscribes to any of the updated names is sent one update, with
    exactly the parameters it subscribes to, in order and without those that
    have no value; the others are sent nothing. *)
Theorem on_set_parameters_spec `{Flume} `{BiMap} `{Buf} `{Json} `{Base64}
    (id : ClientId) (m : SetParameters) (s : System) :
  has_capability (sys_server s) CapParameters = true → NoDup (sv_clients (sys_server s)) →
  let sv := sys_server s in
  let updated := match sv_listener sv with
                 | Some h => Server.on_set_parameters h id (sp_parameters m) (sp_id m)
                 | None => sp_parameters m
                 end in
  let s' := on_set_parameters id m s in
  (∀ i, sys_clients s' !! i = send_all (set_replies sv id (sp_id m) updated i) <$> sys_clients s !! i) ∧
  sys_effects s' = sys_effects s ++
    notify sv [EfSetParameters id (sp_parameters m) (sp_id m)] ∧
  sys_server s' = sv.
Proof.
  intros Hcap Hd sv updated s'. unfold s', on_set_parameters, sys_capability. rewrite Hcap.
  cbn [negb]. unfold updated, notify. fold sv. destruct (sv_listener sv) as [h|] eqn:El.
  - set (ps := Server.on_set_parameters h _ _ _). set (s1 := effect _ s).
    set (s2 := match sp_id m with Some _ => _ | None => _ end).
    assert (sys_server s2 = sv ∧ sys_effects s2 = sys_effects s1) as [Es Ef]
      by (unfold s2; by destruct (sp_id m)).
    destruct (publish_spec ps s2) as (E1 & E2 & E3); [by rewrite Es..|].
    rewrite E1, E2, Es, Ef. split_and!; [|done..]. intros i. rewrite E3, Es. unfold set_replies, s2.
    destruct (sp_id m) as [r|]; [|done]. cbn [on_client sys_clients with_clients].
    destruct (decide (i = id)) as [->|Hne].
    + rewrite lookup_alter_eq, (bool_decide_eq_true_2 (id = id)) by done.
      rewrite (bool_decide_eq_true_2 (is_Some _)) by (rewrite El; by eexists).
      by destruct (sys_clients s1 !! id) eqn:E; cbn in E; rewrite E.
    + rewrite lookup_alter_ne, (bool_decide_eq_false_2 (i = id)) by done. done.
  - destruct (publish_spec (sp_parameters m) s) as (E1 & E2 & E3); [done..|].
    rewrite E1, E2, app_nil_r. split_and!; [|done..]. intros i. rewrite E3.
    unfold set_replies. rewrite El. rewrite (bool_decide_eq_false_2 (is_Some _)) by (by intros []).
    destruct (sp_id m); [|done]. by rewrite andb_false_r.
Qed.

Definition set_request : SetParameters :=
  {| sp_parameters := [{| p_name := "rate"; p_type := None; p_value := None |}];
     sp_id := Some "q"%string |}.
Lemma one_client_parameters :
  has_capability (sys_server one_client) CapParameters = true ∧
  match sv_listener (sys_server one_client) with
  | Some h => Server.on_set_parameters h 1 (sp_parameters set_request) (sp_id set_request) =
      sp_parameters set_request
  | None => True
  end.
Proof. vm_compute. by split. Qed.
Lemma on_set_parameters_spec_witness :
  sys_clients (on_set_parameters 1 set_request one_client) !! 1 =
  send_all (set_replies (sys_server one_client) 1 (Some "q"%string) (sp_parameters set_request) 1)
    <$> sys_clients one_client !! 1.
Proof.
  destruct one_client_parameters as [Hcap Hu].
  destruct (on_set_parameters_spec 1 set_request one_client Hcap
    (proj1 (si_list 2 _ one_client_inv))) as (Hc & _ & _).
  rewrite Hc. destruct (sv_listener _) as [h|]; [rewrite Hu|]; exact eq_refl.
Defined.
