(* ===== verification/Handlers.v ===== *)
(** * Handlers: functions as handlers of services and assets

    `websocket/service/handler.rs`, the handlers of `websocket/fetch_asset.rs`, and
    `websocket/client.rs`: the wrappers that make a handler of a function.  A
    synchronous handler responds before it returns; the others spawn a task that owns
    the responder.  A task is a value ([Task]) that tokio runs at any time, or drops
    when the runtime shuts down.  A function may panic: unwinding drops the responder.

    Every wrapper does what a handler may do in Requests.v ([handler_is_run]), and
    tasks that run or are dropped in any order answer all their requests
    ([tasks_answer]). *)

From S2P Require Import Prelude Bytes Messages Wire ConnectionGraph Channel Subscriptions Context.
From S2P Require Import Advertise Services Token Outbox Client Server Session Requests.
Local Open Scope Z_scope.

(** What a call of a function comes to; the message is the display of its error. *)
Inductive Returned := Returns (payload : list byte) | Fails (message : string) | Unwinds.

Section handlers.
Context `{HF : Flume} `{HM : BiMap} `{HB : Buf} `{HJ : Json} `{H64 : Base64}.

(** ** Clients *)

(** A [Client] holds the id and a weak reference, which is the id of a client that may
    be gone. *)
Definition Client_sink_id (id : ClientId) (s : System) : option SinkId := cl_sink_id <$> sys_clients s !! id.
(** Nothing happens if the client is gone. *)
Definition Client_send_status (id : ClientId) (status : Status) (s : System) : result string System :=
  match sys_clients s !! id with
  | Some c => c ← send_status status c; Ok (on_client id (λ _, c) s)
  | None => Ok s
  end.
Definition Client_send_asset_response (id : ClientId) (res : Response) (request_id : Z) (s : System) : System :=
  on_client id (λ c, match res with
    | RespondOk asset => send_asset_response asset request_id c
    | RespondErr err => send_asset_error err request_id c
    end) s.

(** ** Handlers *)

Definition ServiceFn : Type := Request → Returned.
Definition AssetFn : Type := ClientId → string → Returned.
Inductive Handler := HandlerFn (f : ServiceFn) | BlockingHandlerFn (f : ServiceFn) | AsyncHandlerFn (f : ServiceFn).
Inductive AssetHandler := BlockingAssetHandlerFn (f : AssetFn) | AsyncAssetHandlerFn (f : AssetFn).

(** A spawned task owns the responder with the key. *)
Inductive Task :=
| CallTask (f : ServiceFn) (request : Request) (responder : nat)
| FetchTask (f : AssetFn) (uri : string) (responder : nat).
Definition task_responder (t : Task) : nat :=
  match t with CallTask _ _ key | FetchTask _ _ key => key end.

(** [responder.respond(result)], after the call of the function. *)
Definition respond_with (r : Returned) (key : nat) (s : System) : System :=
  match r with
  | Returns payload => respond key (RespondOk payload) s
  | Fails message => respond key (RespondErr message) s
  | Unwinds => drop_responder key s
  end.
(** [AssetResponder::client], of a responder that has not responded. *)
Definition responder_client (key : nat) (s : System) : option ClientId :=
  match sys_responders s !! key with Some (AssetResponder (Some r)) => Some (ai_client r) | _ => None end.
(** The system, the tasks that are spawned, and whether the caller unwinds. *)
Definition Handler_call (h : Handler) (request : Request) (responder : nat) (s : System) :
    System * list Task * bool :=
  match h with
  | HandlerFn f =>
    (respond_with (f request) responder s, [], match f request with Unwinds => true | _ => false end)
  | BlockingHandlerFn f | AsyncHandlerFn f => (s, [CallTask f request responder], false)
  end.
Definition AssetHandler_fetch (h : AssetHandler) (uri : string) (responder : nat) : list Task :=
  match h with BlockingAssetHandlerFn f | AsyncAssetHandlerFn f => [FetchTask f uri responder] end.

Definition run_task (t : Task) (s : System) : System :=
  match t with
  | CallTask f request key => respond_with (f request) key s
  | FetchTask f uri key =>
    match responder_client key s with
    | Some client => respond_with (f client uri) key s
    | None => s
    end
  end.
(** A task that is dropped drops its responder. *)
Definition drop_task (t : Task) (s : System) : System := drop_responder (task_responder t) s.
(** Tasks end in some order, each by running or by being dropped. *)
Fixpoint settle (ts : list (Task * bool)) (s : System) : System :=
  match ts with
  | [] => s
  | (t, runs) :: ts => settle ts (if runs : bool then run_task t s else drop_task t s)
  end.

(** ** What the wrappers do *)

(** The run of a handler in Requests.v. *)
Definition as_run (r : Returned) : HandlerRun :=
  {| hr_encodings := [];
     hr_response := match r with
       | Returns payload => Some (RespondOk payload)
       | Fails message => Some (RespondErr message)
       | Unwinds => None
       end |}.

Lemma respond_with_run r key s : respond_with r key s = run_handler key (as_run r) s.
Proof. by destruct r. Qed.

Definition handler_fn (h : Handler) : ServiceFn :=
  match h with HandlerFn f | BlockingHandlerFn f | AsyncHandlerFn f => f end.

(** A function that handles a service does one run of a handler with its responder:
    before the call returns, or in a task, whatever has happened until then.  The
    loop of the client unwinds exactly for a synchronous function that panics. *)
Theorem handler_is_run h request key s :
  let '(s1, tasks, unwinds) := Handler_call h request key s in
  match h with
  | HandlerFn f => s1 = run_handler key (as_run (f request)) s ∧ tasks = [] ∧
      (unwinds = true ↔ f request = Unwinds)
  | _ => s1 = s ∧ unwinds = false ∧
      ∃ t, tasks = [t] ∧ task_responder t = key ∧
        ∀ later, run_task t later = run_handler key (as_run (handler_fn h request)) later ∧
          drop_task t later = run_handler key (as_run Unwinds) later
  end.
Proof.
  destruct h as [f|f|f]; cbn.
  - split_and!; [apply respond_with_run|done|]. by destruct (f request).
  - split_and!; [done..|]. eexists. split_and!; [done..|]. intros later. split; [apply respond_with_run|done].
  - split_and!; [done..|]. eexists. split_and!; [done..|]. intros later. split; [apply respond_with_run|done].
Qed.

(** ** Tasks *)

Definition pending (key : nat) (s : System) : Prop :=
  (∃ r, sys_responders s !! key = Some (ServiceResponder (Some r))) ∨
  ∃ r, sys_responders s !! key = Some (AssetResponder (Some r)).
Definition answered (key : nat) (s : System) : Prop :=
  sys_responders s !! key = Some (ServiceResponder None) ∨ sys_responders s !! key = Some (AssetResponder None).
(** Responding changes one responder. *)
Definition answers (key : nat) (s s' : System) : Prop :=
  answered key s' ∧ ∀ k, k ≠ key → sys_responders s' !! k = sys_responders s !! k.

Lemma use_answers key res s : pending key s → answers key s (use_responder key res s).
Proof.
  unfold use_responder, answers, answered. intros [[r Hr]|[r Hr]]; rewrite Hr; cbn;
    (split; [|intros k Hk; by rewrite list_lookup_insert_ne]);
    rewrite list_lookup_insert_eq by (by eapply lookup_lt_Some); auto.
Qed.
Lemma drop_answers key s : pending key s → answers key s (drop_responder key s).
Proof.
  intros Hp. unfold drop_responder. destruct Hp as [[r Hr]|[r Hr]]; rewrite Hr; apply use_answers;
    [left|right]; by exists r.
Qed.
Lemma drop_answered key s : answered key s → drop_responder key s = s.
Proof. intros Ha. by apply (respond_used key (RespondOk [])). Qed.
Lemma respond_with_answers r key s : pending key s → answers key s (respond_with r key s).
Proof.
  intros Hp. destruct r as [payload|message|]; cbn; [| |by apply drop_answers]; unfold respond;
    rewrite drop_answered; (try apply use_answers); try done; by apply use_answers.
Qed.
Definition fits_task (t : Task) (s : System) : Prop :=
  match t with
  | CallTask _ _ key => pending key s
  | FetchTask _ _ key => ∃ r, sys_responders s !! key = Some (AssetResponder (Some r))
  end.
Lemma task_answers t (runs : bool) s :
  fits_task t s → answers (task_responder t) s (if runs then run_task t s else drop_task t s).
Proof.
  intros Hf. assert (pending (task_responder t) s) as Hp by (destruct t; [done|by right]).
  destruct runs; [|by apply drop_answers]. destruct t as [f request key|f uri key]; cbn in *.
  - by apply respond_with_answers.
  - destruct Hf as [r Hr]. unfold responder_client. rewrite Hr. by apply respond_with_answers.
Qed.

(** However tasks end, and in whatever order, each request of theirs is answered, and the
    responders of others are untouched. *)
Theorem tasks_answer ts s :
  NoDup (task_responder ∘ fst <$> ts) → (∀ t b, (t, b) ∈ ts → fits_task t s) →
  (∀ t b, (t, b) ∈ ts → answered (task_responder t) (settle ts s)) ∧
  ∀ k, k ∉ (task_responder ∘ fst <$> ts) → sys_responders (settle ts s) !! k = sys_responders s !! k.
Proof.
  revert s. induction ts as [|[t b] ts IH]; intros s Hnd Hf; [by split; [intros ? ? ?%elem_of_nil|]|].
  cbn [fmap list_fmap] in Hnd. apply NoDup_cons in Hnd as [Hni Hnd]. cbn [settle].
  destruct (task_answers t b s (Hf t b ltac:(left))) as [Ha Hsame].
  set (s1 := if b then run_task t s else drop_task t s) in *.
  assert (∀ u c, (u, c) ∈ ts → task_responder u ≠ task_responder t) as Hne.
  { intros u c Hu E. apply Hni. apply list_elem_of_fmap. exists (u, c). split; [symmetry; exact E|done]. }
  destruct (IH s1 Hnd) as [IH1 IH2].
  { intros u c Hu. pose proof (Hf u c ltac:(by right)) as Hfu. specialize (Hne u c Hu).
    destruct u; cbn in *; unfold pending in *; by rewrite Hsame. }
  split.
  - intros u c [[= -> ->]|Hu]%elem_of_cons; [|by eapply IH1]. unfold answered. by rewrite IH2.
  - intros k Hk. cbn [fmap list_fmap] in Hk. apply not_elem_of_cons in Hk as [Hk1 Hk2].
    rewrite IH2 by done. by apply Hsame.
Qed.
End handlers.
