(* ===== verification/Connections.v ===== *)
(** * Connections: the life of a client, from its handshake to its removal

    What a client that reconnects with the current token is sent and knows, what
    remains of a client whose connection ended, and the way of a logged message
    to a subscribed client. *)

From S2P Require Import Prelude Bytes Messages Wire WireProofs ConnectionGraph Channel.
From S2P Require Import Subscriptions Context Advertise Services Token Outbox Client Server.
From S2P Require Import Session SessionProofs SessionTheorems.
Local Open Scope Z_scope.

Section connections.
Context `{HF : Flume} `{HM : BiMap} `{HB : Buf} `{HJ : Json} `{H64 : Base64}.
Implicit Types s : System.
Implicit Types c : ConnectedClient.

(** ** Without a sink, a client has no subscriptions *)

(** The context has no trace of a sink. *)
Definition ctx_forgets (sink : SinkId) (x : ContextInner) (w : World) : Prop :=
  sinks x !! sink = None ∧
  ∀ ch st k, w_store w !! ch = Some st → k ∈ cs_sinks st → sink_id k ≠ sink.

Lemma ctx_inv_forgets sink x w :
  ctx_inv (x, w) → sinks x !! sink = None → ctx_forgets sink x w.
Proof.
  intros Hi Hn. split; [done|]. intros ch st k Hst Hk <-.
  destruct (channels x !! ch) as [c|] eqn:Ec.
  - destruct (ci_sinks _ Hi _ _ Ec) as (st' & Hst' & _ & Hs). cbn in Hst', Hs.
    assert (st' = st) as -> by congruence. rewrite Hs in Hk.
    destruct (ci_registered _ Hi) as (Hr & Hg & Hc & _). cbn in *.
    apply elem_of_get_subscribers in Hk as [[id Hid]|[id Hid]].
    + destruct (Hg _ _ Hid) as [E _]. pose proof (Hr _ _ E). congruence.
    + destruct (Hc _ _ _ Hid) as [E _]. pose proof (Hr _ _ E). congruence.
  - rewrite (proj2 (proj2 (ci_store _ Hi) ch st Hst) Ec) in Hk. by apply not_elem_of_nil in Hk.
Qed.

Lemma remove_sink_quiet id x w : w_trace (remove_sink id x w).2 = w_trace w.
Proof.
  unfold remove_sink. destruct (remove_subscriber id (subs x)) as [[] u]; [|done].
  apply update_channel_sinks_trace.
Qed.
Lemma unsubscribe_keeps_sinks id ids x w :
  sinks (Context.unsubscribe_channels id ids x w).1 = sinks x ∧
  channels (Context.unsubscribe_channels id ids x w).1 = channels x.
Proof.
  unfold Context.unsubscribe_channels. by destruct (Subscriptions.unsubscribe_channels _ _ _) as [[] u].
Qed.

(** What is told of the unsubscribed channels. *)
Definition unsubscribed_effects sv id (chans : gmap ChannelId RawChannel) (ids : list ChannelId)
    : list Effect :=
  (omap (λ ch, chans !! ch) ids) ≫= (λ ch, notify sv [EfUnsubscribe id (rc_id ch) (rc_topic ch)]).

Lemma fold_tell {A} (f : A → Effect) (l : list A) s :
  foldl (λ s a, tell (f a) s) s l =
  with_server (sys_server s) (l ≫= (λ a, notify (sys_server s) [f a])) s.
Proof.
  revert s. induction l as [|a l IH]; intros s; cbn.
  - destruct s. unfold with_server. cbn. by rewrite app_nil_r.
  - rewrite IH. unfold tell, with_server. cbn. by rewrite <- app_assoc.
Qed.

Lemma unsubscribe_channel_ids_spec id ids s c :
  sys_clients s !! id = Some c →
  let st := Context.unsubscribe_channels (cl_sink_id c) ids (sys_context s) (sys_world s) in
  unsubscribe_channel_ids id ids s =
  Ok (with_server (sys_server s) (unsubscribed_effects (sys_server s) id (cl_channels c) ids)
    (with_context st.1 st.2 s)).
Proof.
  intros Hc. unfold unsubscribe_channel_ids. rewrite Hc.
  rewrite run_context_quiet by apply unsubscribe_quiet. cbn [mbind result_bind].
  by rewrite (fold_tell (λ ch, EfUnsubscribe id (rc_id ch) (rc_topic ch))).
Qed.

(** ** The server's side *)

Definition server_forgets id (sv : Server) : Prop :=
  (id ∉ sv_clients sv) ∧
  (∀ name ids, sv_subscribed_parameters sv !! name = Some ids → id ∉ ids) ∧
  id ∉ cg_subscribers (sv_connection_graph sv).

Lemma unsubscribe_all_forgets id sv :
  params_ok (sv_subscribed_parameters sv) →
  let sv' := (unsubscribe_all_parameters id sv).1 in
  sv' = set_params (sv_subscribed_parameters sv') sv ∧
  ∀ name ids, sv_subscribed_parameters sv' !! name = Some ids → id ∉ ids.
Proof.
  intros Hp. pose proof (run_param_step (ParamUnsubscribeAll id) sv Hp) as Hs.
  unfold param_step in Hs. cbn [run_param] in Hs.
  destruct (unsubscribe_all_parameters id sv) as [sv' effects]. cbn.
  destruct Hs as (E & _ & Hn & _). split; [exact E|]. intros name ids Hids.
  specialize (Hn name). cbn in Hn. unfold subscribers in Hn. rewrite Hids in Hn. cbn in Hn.
  rewrite Hn. set_solver.
Qed.

(** A change of the server and the effects only. *)
Record server_change s s' : Prop := {
  sc_clients : sys_clients s' = sys_clients s;
  sc_running : sys_running s' = sys_running s;
  sc_context : sys_context s' = sys_context s;
  sc_world : sys_world s' = sys_world s;
  sc_listener : sv_listener (sys_server s') = sv_listener (sys_server s);
  sc_effects : ∃ es, sys_effects s' = sys_effects s ++ es
}.
#[export] Instance server_change_refl : Reflexive server_change.
Proof. split; try done. exists []. by rewrite app_nil_r. Qed.
#[export] Instance server_change_trans : Transitive server_change.
Proof.
  intros a b d [E1 E2 E3 E4 E5 [es E6]] [F1 F2 F3 F4 F5 [fs F6]]. split; try congruence.
  exists (es ++ fs). by rewrite F6, E6, app_assoc.
Qed.
Lemma server_change_on f s :
  sv_listener (f (sys_server s)).1 = sv_listener (sys_server s) →
  server_change s (on_server f s) ∧ sys_server (on_server f s) = (f (sys_server s)).1.
Proof. unfold on_server. destruct (f (sys_server s)) as [sv es]. cbn. split; [|done]. split; try done. by exists es. Qed.

(** The steps of [unregister_client] on the server. *)
Definition server_leaves (id : ClientId) (s : System) : System :=
  let sv := sys_server s in
  let s := with_server (set_clients (filter (λ i, i ≠ id) (sv_clients sv))
             (sv_clients_frozen sv) sv) [] s in
  let s := if sys_capability s CapParameters then on_server (unsubscribe_all_parameters id) s
           else s in
  if sys_capability s CapConnectionGraph then
    on_server (λ sv, let '(_, sv, effects) := unsubscribe_connection_graph id sv in
                     (sv, effects)) s
  else s.

Lemma server_leaves_spec id s :
  server_ok (sys_server s) →
  server_change s (server_leaves id s) ∧ server_forgets id (sys_server (server_leaves id s)).
Proof.
  intros (Hp & Hpc & Hgc & _). unfold server_leaves, sys_capability.
  set (sv1 := set_clients _ _ (sys_server s)). set (s1 := with_server sv1 [] s).
  assert (server_change s s1) as H1 by (split; try done; by exists []).
  assert (id ∉ sv_clients sv1) as Hcl by (cbn; rewrite list_elem_of_filter; tauto).
  change (sys_server s1) with sv1.
  set (s2 := if has_capability sv1 CapParameters then _ else s1).
  assert (server_change s1 s2 ∧ sys_server s2 = set_params (sv_subscribed_parameters (sys_server s2)) sv1 ∧
    ∀ name ids, sv_subscribed_parameters (sys_server s2) !! name = Some ids → id ∉ ids)
    as (H2 & E2 & Hnp).
  { unfold s2. destruct (has_capability sv1 CapParameters) eqn:Ecap.
    - destruct (unsubscribe_all_forgets id sv1 Hp) as [E Hn].
      destruct (server_change_on (unsubscribe_all_parameters id) s1) as [Hc E'];
        [by rewrite (E : (unsubscribe_all_parameters id (sys_server s1)).1 = _)|].
      rewrite E'. by split_and!.
    - split_and!; [done|by destruct (sys_server s)|]. cbn. intros name ids Hids.
      apply bool_decide_eq_false in Ecap. exfalso. apply Ecap, Hpc. intros He.
      by rewrite He, lookup_empty in Hids. }
  clearbody s2. rewrite E2.
  change (has_capability (set_params _ sv1)) with (has_capability (sys_server s)).
  assert (cg_subscribers (sv_connection_graph (sys_server s2)) =
    cg_subscribers (sv_connection_graph (sys_server s))) as Eg by by rewrite E2.
  assert (id ∉ sv_clients (sys_server s2)) as Hcl2 by by rewrite E2.
  destruct (has_capability (sys_server s) CapConnectionGraph) eqn:Ecap.
  - set (f := λ sv, let '(_, _, _) := _ in _).
    assert ((f (sys_server s2)).1 = set_graph (with_subscribers
      (cg_subscribers (sv_connection_graph (sys_server s2)) ∖ {[id]})
      (sv_connection_graph (sys_server s2))) (sys_server s2)) as Ef.
    { unfold f, unsubscribe_connection_graph, ConnectionGraph.remove_subscriber.
      by destruct (bool_decide _). }
    destruct (server_change_on f s2) as [H3 E3]; [by rewrite Ef|].
    split; [etrans; [exact H1|]; by etrans|]. rewrite E3, Ef.
    split_and!; [done|done|]. cbn. set_solver.
  - split; [by etrans|]. split_and!; [done|done|]. rewrite Eg.
    apply bool_decide_eq_false in Ecap. destruct (decide (cg_subscribers
      (sv_connection_graph (sys_server s)) = ∅)) as [->|Hne]; [set_solver|].
    by destruct Ecap; apply Hgc.
Qed.

(** [unregister_client], step by step. *)
Lemma unregister_steps id s c :
  sys_clients s !! id = Some c →
  unregister_client id s =
    (s ← run_context (λ x w, let '(_, x, w) := remove_sink (cl_sink_id c) x w in (x, w)) s;
     s ← on_disconnect id (server_leaves id s); Ok (tell EfClientDisconnect s)).
Proof. intros Hc. unfold unregister_client. by rewrite Hc. Qed.
Lemma unregister_spec id s c :
  sys_clients s !! id = Some c → server_ok (sys_server s) →
  ctx_inv (sys_context s, sys_world s) →
  ∃ s' es, unregister_client id s = Ok s' ∧
    sys_clients s' = sys_clients s ∧ sys_running s' = sys_running s ∧
    server_forgets id (sys_server s') ∧
    ctx_forgets (cl_sink_id c) (sys_context s') (sys_world s') ∧
    ctx_inv (sys_context s', sys_world s') ∧
    channels (sys_context s') = channels (sys_context s) ∧
    sys_effects s' = sys_effects s ++ es ++
      unsubscribed_effects (sys_server s) id (cl_channels c) (bm_left_values (cl_subscriptions c)) ++
      notify (sys_server s) [EfClientDisconnect].
Proof.
  intros Hc Hok Hi. rewrite (unregister_steps id s c Hc).
  set (leave := λ x w, let '(_, x, w) := remove_sink (cl_sink_id c) x w in (x, w)).
  pose proof (remove_sink_quiet (cl_sink_id c) (sys_context s) (sys_world s)) as Hq.
  pose proof (remove_sink_inv (cl_sink_id c) _ _ Hi) as Hinv.
  assert (sinks (remove_sink (cl_sink_id c) (sys_context s) (sys_world s)).1.2 !! cl_sink_id c = None
    ∧ channels (remove_sink (cl_sink_id c) (sys_context s) (sys_world s)).1.2 =
      channels (sys_context s)) as [Hsn Hch].
  { unfold remove_sink. destruct (remove_subscriber _ _) as [b u]. cbn. by rewrite lookup_delete_eq. }
  rewrite run_context_quiet by (unfold leave; destruct (remove_sink _ _ _) as [[? ?] ?]; exact Hq).
  cbn [mbind result_bind]. unfold leave.
  destruct (remove_sink (cl_sink_id c) (sys_context s) (sys_world s)) as [[b x] w] eqn:Erm.
  cbn in Hsn, Hch, Hq |- *. destruct Hinv as [Hinv _].
  set (s1 := with_context x w s).
  destruct (server_leaves_spec id s1 Hok) as [[E1 E2 E3 E4 E5 [es E6]] Hf].
  set (s2 := server_leaves id s1) in *. clearbody s2.
  unfold on_disconnect. rewrite E1. cbn [sys_clients with_context s1]. rewrite Hc.
  rewrite (unsubscribe_channel_ids_spec id _ s2 c) by by rewrite E1.
  cbn [mbind result_bind]. rewrite E3, E4. cbn [sys_context sys_world with_context s1].
  set (st := Context.unsubscribe_channels _ _ x w).
  destruct (unsubscribe_channels_inv (cl_sink_id c) (bm_left_values (cl_subscriptions c)) _ _ Hinv)
    as [Hinv2 _]. fold st in Hinv2.
  destruct (unsubscribe_keeps_sinks (cl_sink_id c) (bm_left_values (cl_subscriptions c)) x w)
    as [Hs2 Hc2]. fold st in Hs2, Hc2.
  eexists _, es. split; [done|]. cbn. split; [done|]. split; [done|]. split; [done|].
  split; [apply ctx_inv_forgets; [by destruct st|by rewrite Hs2]|].
  split; [by destruct st|]. split; [by rewrite Hc2|].
  unfold unsubscribed_effects, notify. rewrite E5, E6. cbn. by rewrite <- !app_assoc.
Qed.
End connections.

(** C7: a connection that ends leaves nothing behind.  After the poll loop of a
    client ends, the client is not running and not listed, it subscribes to no
    parameter and not to the connection graph, its sink is not registered with
    the context, and no channel stores it among its sinks, so no message will
    be logged to it; the channels and all other clients are as they were, and
    the context's invariant holds.  The listener hears of the end of each of
    its channel subscriptions and then of the disconnect. *)
Theorem connection_closed_forgets `{Flume} `{BiMap} `{Buf} `{Json} `{Base64}
    (id : ClientId) (s : System) (c : ConnectedClient) :
  sys_clients s !! id = Some c → server_ok (sys_server s) →
  ctx_inv (sys_context s, sys_world s) →
  ∃ s' es, connection_closed id s = Ok s' ∧
    (id ∉ sys_running s') ∧ (∀ i, i ≠ id → sys_clients s' !! i = sys_clients s !! i) ∧
    server_forgets id (sys_server s') ∧
    ctx_forgets (cl_sink_id c) (sys_context s') (sys_world s') ∧
    ctx_inv (sys_context s', sys_world s') ∧
    channels (sys_context s') = channels (sys_context s) ∧
    sys_effects s' = sys_effects s ++ es ++
      unsubscribed_effects (sys_server s) id (cl_channels c) (bm_left_values (cl_subscriptions c)) ++
      notify (sys_server s) [EfClientDisconnect].
Proof.
  intros Hc Hok Hi. unfold connection_closed.
  set (s1 := on_client id _ _).
  assert (sys_clients s1 !! id = Some (set_queues (cl_data_plane c)
    (fl_drop_receivers (cl_control_plane c)) c)) as Hc1 by (cbn; by rewrite lookup_alter_eq, Hc).
  destruct (unregister_spec id s1 _ Hc1 Hok Hi) as (s' & es & E & E1 & E2 & Hrest).
  exists s', es. split; [done|]. split; [rewrite E2; cbn; set_solver|]. split; [|exact Hrest].
  intros i Hne. rewrite E1. cbn. by apply lookup_alter_ne.
Qed.

Definition one_sink : Sink :=
  {| sink_id := 1; sink_auto_subscribe := false; sink_add_channels := λ _, None;
     sink_log := λ _ _ _, None |}.
Lemma one_client_context :
  (sys_context one_client, sys_world one_client) =
  run_ctx_ops [OpAddSink one_sink; OpBuildRaw (try_builder "/a")] ctx_init.
Proof. vm_compute. reflexivity. Qed.
Lemma one_client_ctx_inv : ctx_inv (sys_context one_client, sys_world one_client).
Proof. rewrite one_client_context. apply run_ctx_ops_inv; [apply ctx_init_inv|done..]. Qed.
#[local] Opaque one_client.
Lemma connection_closed_forgets_witness :
  ∃ c s', sys_clients one_client !! 1 = Some c ∧ connection_closed 1 one_client = Ok s' ∧
    server_forgets 1 (sys_server s') ∧ sinks (sys_context s') !! cl_sink_id c = None.
Proof.
  destruct one_client_known as (c & _ & E & _ & _).
  destruct (connection_closed_forgets 1 one_client c E (si_server 2 _ one_client_inv)
    one_client_ctx_inv) as (s' & _ & Er & _ & _ & Hf & [Hn _] & _).
  exists c, s'. exact (conj E (conj Er (conj Hf Hn))).
Defined.
#[local] Transparent one_client.

(** ** Reconnecting with the current token *)

Section tokens.
Context `{HF : Flume} `{HM : BiMap} `{HB : Buf} `{HJ : Json} `{H64 : Base64}.

Lemma values_nil {A} (m : gmap Z A) : values m = [] ↔ m = ∅.
Proof.
  unfold values. split; [|by intros ->]. intros E%fmap_nil_inv. by apply map_to_list_empty_iff.
Qed.

(** What the context does with the sink of a new client. *)
Lemma add_client_sink c x w :
  sinks x !! cl_sink_id c = None →
  let '(_, x', w') := add_sink (client_sink c) x w in
  channels x' = channels x ∧
  w_trace w' = w_trace w ++
    (if decide (values (channels x) = []) then []
     else [EvAddChannels (cl_sink_id c) (rc_id <$> values (channels x))]).
Proof.
  intros Hn. unfold add_sink. cbn [sink_id client_sink]. rewrite Hn. cbn.
  destruct (values (channels x)) as [|r l] eqn:E; cbn; [|done]. by rewrite app_nil_r.
Qed.

Lemma lookup_values x w :
  ctx_inv (x, w) →
  omap (λ ch, channels x !! ch) (rc_id <$> values (channels x)) = values (channels x).
Proof.
  intros Hi. pose proof (ci_topics _ Hi) as Ht. cbn in Ht.
  assert (∀ c, c ∈ values (channels x) → channels x !! rc_id c = Some c) as Hl
    by (intros c; by apply (elem_of_values_chans _ _ _ Ht)).
  induction (values (channels x)) as [|c l IH]; cbn; [done|].
  rewrite (Hl c) by left. f_equal. apply IH. intros d Hd. apply Hl. by right.
Qed.

(** The state in which the client starts. *)
Definition current_client (s : System) : ConnectedClient :=
  enable_advertisement_token_push (suppress_initial_advertisement
    (ConnectedClient_new (sys_next_client s) (sys_next_sink s)
      (Z.to_nat (sv_message_backlog_size (sys_server s))) (sv_channel_filter (sys_server s)))).
Lemma current_client_add sids chans (s : System) `{!FlumeLaws} :
  let c := client_add_channels sids chans (current_client s) in
  fl_queue (cl_control_plane c) = [] ∧
  cl_channels c = record_channels (filter (should_advertise c) chans) ∅ ∧
  cl_suppress_initial_advertisement c = false.
Proof.
  cbn. destruct (fl_bounded_spec (Z.to_nat (sv_message_backlog_size (sys_server s)))) as (E & _).
  by split_and!.
Qed.
End tokens.

(** C10: a client that reconnects with the current token.  It is sent nothing by
    the registration, neither channels nor services, and it knows exactly the
    channels of the context that pass its filter, so that it can subscribe to
    them at once.  The mark that suppresses the advertisement is cleared by
    this if the context has channels.  If it has none, the mark stays, because
    the context does not call [add_channels] for an empty catalogue: then the
    channels that are added first, which the client has not seen, are recorded
    as known to it and never advertised. *)
Theorem current_token_connection `{FlumeLaws} `{BiMap} `{Buf} `{Json} `{Base64}
    (version : string) (s : System) :
  sv_clients_frozen (sys_server s) = false → ctx_inv (sys_context s, sys_world s) →
  sinks (sys_context s) !! sys_next_sink s = None →
  ∃ s' c, handle_connection version (Some (advertisement_token s)) true s = Ok s' ∧
    sys_clients s' !! sys_next_client s = Some c ∧
    fl_queue (cl_control_plane c) = [] ∧
    cl_channels c =
      record_channels (filter (should_advertise c) (values (channels (sys_context s)))) ∅ ∧
    cl_suppress_initial_advertisement c = bool_decide (channels (sys_context s) = ∅) ∧
    (channels (sys_context s) = ∅ → ∀ sids new,
      let d := client_add_channels sids new c in
      fl_queue (cl_control_plane d) = [] ∧
      cl_channels d = record_channels (filter (should_advertise c) new) ∅).
Proof.
  intros Hfr Hi Hsn. unfold handle_connection, sys_server_info, server_info. cbn [si_metadata negb].
  rewrite lookup_insert_eq, bool_decide_eq_true_2, bool_decide_eq_true_2 by (done || by eexists).
  cbn [andb]. fold (current_client s). set (c0 := current_client s).
  unfold register_client_and_advertise. cbn [sys_clients sys_server]. rewrite lookup_insert_eq, Hfr.
  cbn [cl_suppress_initial_advertisement c0 current_client enable_advertisement_token_push
    suppress_initial_advertisement set_flags].
  unfold run_context. cbn [sys_context sys_world tell with_server].
  pose proof (add_client_sink c0 (sys_context s) (sys_world s) Hsn) as Hadd.
  fold (current_client s). fold c0.
  destruct (add_sink (client_sink c0) (sys_context s) (sys_world s)) as [[b x] w].
  destruct Hadd as [Hch ->]. rewrite drop_app_length.
  pose proof (current_client_add (service_ids (sys_server s)) (values (channels (sys_context s))) s)
    as Hq. cbn zeta in Hq. fold c0 in Hq.
  assert (fl_queue (cl_control_plane c0) = []) as Hq0
    by apply (fl_bounded_spec (Z.to_nat (sv_message_backlog_size (sys_server s)))).
  case_decide as Hv.
  - rewrite Hv. pose proof (proj1 (values_nil _) Hv) as He. rewrite (bool_decide_eq_true_2 _ He).
    eexists _, c0. split; [done|]. cbn [sys_clients with_context tell with_server]. rewrite lookup_insert_eq.
    by split_and!.
  - rewrite bool_decide_eq_false_2 by (intros He; by apply Hv, values_nil).
    cbn [dispatch_all dispatch with_context sys_sink_owner sys_context sys_server with_server tell].
    change (cl_sink_id c0) with (sys_next_sink s). rewrite lookup_insert_eq.
    cbn [mbind result_bind]. rewrite Hch, (lookup_values _ _ Hi).
    eexists _, _. split; [done|]. cbn [sys_clients on_client with_clients with_context tell with_server].
    rewrite lookup_alter_eq, lookup_insert_eq. cbn [fmap option_fmap option_map].
    split; [done|]. destruct Hq as (E1 & E2 & E3).
    split; [exact E1|]. split; [exact E2|]. split; [exact E3|].
    intros He. by destruct Hv; apply values_nil.
Qed.

Definition start_system : System := sys_init try_server.
Lemma current_token_connection_witness :
  ∃ s' c, handle_connection "v" (Some (advertisement_token start_system)) true start_system = Ok s' ∧
    sys_clients s' !! 1 = Some c ∧ cl_suppress_initial_advertisement c = true ∧
    ∀ sids new, fl_queue (cl_control_plane (client_add_channels sids new c)) = [].
Proof.
  destruct (current_token_connection "v" start_system) as (s' & c & E & Ec & _ & _ & Hs & Hn).
  - reflexivity.
  - apply ctx_init_inv.
  - reflexivity.
  - exists s', c. split; [exact E|]. split; [exact Ec|]. split; [exact Hs|].
    intros sids new. exact (proj1 (Hn eq_refl sids new)).
Defined.

(** ** Delivering messages *)

Section delivery.
Context `{FlumeLaws} `{BiMapLaws} `{HB : Buf} `{HJ : Json} `{H64 : Base64}.
Implicit Types s : System.

(** The only sink of a client. *)
Definition sole_sink s (id : ClientId) (sink : SinkId) : Prop :=
  ∀ k, sys_sink_owner s !! k = Some id ↔ k = sink.

(** The events of a logged message, passed to the clients. *)
Lemma dispatch_logs ch msg md ks s :
  live_all s → NoDup (sink_id <$> ks) →
  ∃ s', dispatch_all (ks ≫= log_one ch msg md) s = Ok s' ∧ live_all s' ∧
    sys_server s' = sys_server s ∧ sys_effects s' = sys_effects s ∧
    sys_context s' = sys_context s ∧ sys_world s' = sys_world s ∧
    ∀ id c sink, sys_clients s !! id = Some c → sole_sink s id sink →
      ∃ d, sys_clients s' !! id = Some d ∧
        if bool_decide (sink ∈ sink_id <$> ks) then client_log (rc_id ch) msg md c = Ok d
        else d = c.
Proof.
  revert s. induction ks as [|k ks IH]; intros s Hl Hd.
  { exists s. split_and!; try done. intros id c sink Hc _. by exists c. }
  rewrite fmap_cons in Hd. apply NoDup_cons in Hd as [Hk Hd].
  assert (∃ s1, dispatch (EvLog (sink_id k) (rc_id ch) msg md) s = Ok s1 ∧ live_all s1 ∧
    sys_server s1 = sys_server s ∧ sys_effects s1 = sys_effects s ∧
    sys_context s1 = sys_context s ∧ sys_world s1 = sys_world s ∧
    sys_sink_owner s1 = sys_sink_owner s ∧
    ∀ id c sink, sys_clients s !! id = Some c → sole_sink s id sink →
      ∃ d, sys_clients s1 !! id = Some d ∧
        if bool_decide (sink = sink_id k) then client_log (rc_id ch) msg md c = Ok d else d = c)
    as (s1 & E & Hl1 & E1 & E2 & E3 & E4 & E5 & Hs1).
  { destruct (calmly_dispatch (EvLog (sink_id k) (rc_id ch) msg md) s Hl) as (s1 & E & Hcalm).
    exists s1. split; [exact E|]. split; [by eapply calm_live|]. cbn [dispatch] in E.
    destruct (sys_sink_owner s !! sink_id k) as [i|] eqn:Eo.
    - unfold try_client in E. destruct (sys_clients s !! i) as [ci|] eqn:Ei.
      + destruct (client_log (rc_id ch) msg md ci) as [d| |] eqn:Ed; cbn in E; [|done..].
        injection E as <-. split_and!; try done. intros id c sink Hc Hsole.
        cbn [sys_clients with_clients]. destruct (decide (id = i)) as [->|Hne].
        * rewrite (proj1 (Hsole (sink_id k)) Eo), bool_decide_eq_true_2 by done.
          exists d. rewrite lookup_insert_eq. split; [done|]. congruence.
        * rewrite lookup_insert_ne, bool_decide_eq_false_2 by (congruence || (intros ->;
            pose proof (proj2 (Hsole (sink_id k)) eq_refl); congruence)). by exists c.
      + injection E as <-. split_and!; try done. intros id c sink Hc Hsole.
        rewrite bool_decide_eq_false_2; [by exists c|]. intros ->.
        pose proof (proj2 (Hsole (sink_id k)) eq_refl). congruence.
    - injection E as <-. split_and!; try done. intros id c sink Hc Hsole.
      rewrite bool_decide_eq_false_2; [by exists c|]. intros ->.
      pose proof (proj2 (Hsole (sink_id k)) eq_refl). congruence. }
  destruct (IH s1 Hl1 Hd) as (s' & F & Hl' & F1 & F2 & F3 & F4 & Hs').
  exists s'. split.
  { cbn [mbind list_bind log_one app dispatch_all]. rewrite E. cbn [mbind result_bind].
    destruct (sink_log k ch msg md); cbn [app dispatch_all dispatch mbind result_bind]; exact F. }
  split_and!; try done; try congruence. intros id c sink Hc Hsole.
  destruct (Hs1 id c sink Hc Hsole) as (d & Hd1 & Hlog).
  destruct (Hs' id d sink Hd1) as (e & He & Hlog'); [intros k'; rewrite E5; apply Hsole|].
  exists e. split; [done|]. rewrite fmap_cons. destruct (decide (sink = sink_id k)) as [->|Hne].
  - rewrite (bool_decide_eq_true_2 (sink_id k ∈ _)) by left.
    rewrite bool_decide_eq_true_2 in Hlog by done.
    rewrite bool_decide_eq_false_2 in Hlog' by done. by rewrite Hlog'.
  - rewrite bool_decide_eq_false_2 in Hlog by done. subst d.
    rewrite (bool_decide_ext _ (sink ∈ sink_id <$> ks)); [done|].
    rewrite elem_of_cons. tauto.
Qed.
End delivery.

(** C2: a logged message is delivered.  Logging on a registered channel succeeds
    and does this to a client that is subscribed to the channel, in the context
    and in its own map: one frame is appended to its data queue, after the
    oldest message was dropped if the queue was full; the frame parses, at the
    client's end, to the message with the client's own subscription id, the
    chosen log time and the data.  The control queue is not used, a client
    whose sink is not subscribed is sent nothing, and neither the server nor
    the context's channels and subscriptions change. *)
Theorem logged_message_delivered `{FlumeLaws} `{BiMapLaws} `{BufLaws} `{Json} `{Base64}
    (display : ParseError → string) (instant epoch : Z) (ch : RawChannel) (msg : list byte)
    (opts : PartialMetadata) (s : System) (id : ClientId) (c : ConnectedClient) (k : Sink) (sub : Z) :
  ctx_inv (sys_context s, sys_world s) → live_all s →
  channels (sys_context s) !! rc_id ch = Some ch →
  sys_clients s !! id = Some c → sole_sink s id (sink_id k) →
  subscribed (sys_context s) (rc_id ch) k →
  bm_get_by_left (rc_id ch) (cl_subscriptions c) = Some sub →
  (length (fl_queue (cl_data_plane c)) ≤ fl_capacity (cl_data_plane c))%nat →
  let data := {| md_subscription_id := sub; md_log_time := default epoch (pm_log_time opts);
                 md_data := msg |} in
  MessageData_wf data →
  ∃ s' d bytes, run_sys display (SysLog instant epoch ch msg opts None) s = Ok s' ∧
    sys_clients s' !! id = Some d ∧
    fl_queue (cl_data_plane d) =
      (if decide (room (cl_data_plane c)) then fl_queue (cl_data_plane c)
       else tail (fl_queue (cl_data_plane c))) ++ [MBinary bytes] ∧
    ServerMessage_parse_binary bytes = Ok (SMessageData data) ∧
    cl_control_plane d = cl_control_plane c ∧
    (∀ i e sink, sys_clients s !! i = Some e → sole_sink s i sink →
      (∀ k, subscribed (sys_context s) (rc_id ch) k → sink_id k ≠ sink) →
      sys_clients s' !! i = Some e) ∧
    sys_server s' = sys_server s ∧ sys_context s' = sys_context s ∧ sys_effects s' = sys_effects s.
Proof.
  intros Hi Hl Hch Hc Hsole Hsub Hbm Hlen data Hwf. cbn [run_sys]. unfold run_context.
  destruct (log_events instant epoch ch msg opts None _ _ Hi Hch) as (ks & -> & Hnd & Hks).
  cbn [w_trace emit]. rewrite drop_app_length.
  set (s1 := with_context _ _ s).
  destruct (dispatch_logs ch msg {| m_log_time := default epoch (pm_log_time opts) |} ks s1 Hl Hnd)
    as (s' & E & _ & E1 & E2 & E3 & _ & Hs').
  destruct (Hs' id c (sink_id k) Hc Hsole) as (d & Hd & Hlog).
  rewrite bool_decide_eq_true_2 in Hlog by (apply list_elem_of_fmap_2, Hks; by split).
  unfold client_log in Hlog. rewrite Hbm in Hlog. unfold send_data_lossy in Hlog.
  destruct (send_lossy_cases (Message_from (SMessageData data)) MAX_SEND_RETRIES (cl_data_plane c)
    (Hl id c Hc) Hlen) as (r & q & Eq & _ & _ & Hq).
  cbn [m_log_time] in Hlog. fold data in Hlog. rewrite Eq in Hlog. cbn in Hlog.
  injection Hlog as <-. eexists s', _, _. split; [exact E|]. split; [exact Hd|].
  split; [|split; [by apply MessageData_frame|split; [done|]]].
  - cbn [cl_data_plane set_queues]. unfold MAX_SEND_RETRIES in Hq.
    destruct Hq as [(Hr & _ & ->)|[(Hr & _ & _ & ->)|(_ & ? & _)]];
      [by rewrite decide_True|by rewrite decide_False|lia].
  - split_and!; [|done..]. intros i e sink He Hse Hno.
    destruct (Hs' i e sink He Hse) as (e' & He' & Hlog').
    rewrite bool_decide_eq_false_2 in Hlog'; [congruence|].
    intros (k' & -> & [Hk' _]%Hks)%list_elem_of_fmap. by destruct (Hno k' Hk').
Qed.

#[local] Transparent one_client.
Definition subscribed_system : System :=
  match on_subscribe 1 two_requests one_client with Ok s => s | _ => one_client end.
Definition channel_a : RawChannel :=
  {| rc_descriptor := {| cd_id := 1; cd_topic := "/a"; cd_message_encoding := "json";
     cd_metadata := ∅; cd_schema := None |} |}.
Lemma subscribed_system_context :
  (sys_context subscribed_system, sys_world subscribed_system) = run_ctx_ops
    [OpAddSink one_sink; OpBuildRaw (try_builder "/a"); OpSubscribe 1 [1]] ctx_init.
Proof. vm_compute. reflexivity. Qed.
Lemma subscribed_system_facts :
  match sys_clients subscribed_system !! 1 with
  | Some c => bm_get_by_left 1 (cl_subscriptions c) = Some 7 ∧
      fl_queue (cl_data_plane c) = [] ∧ fl_capacity (cl_data_plane c) = 8%nat
  | None => False
  end ∧ channels (sys_context subscribed_system) !! rc_id channel_a = Some channel_a ∧
  sys_sink_owner subscribed_system = {[1 := 1]} ∧
  sinks (sys_context subscribed_system) !! 1 = Some one_sink ∧
  subs_at (by_channel (subs (sys_context subscribed_system))) 1 !! 1 = Some one_sink.
Proof. vm_compute. by split_and!. Qed.
Lemma subscribed_system_live : live_all subscribed_system.
Proof.
  destruct (calmly_on_subscribe 1 two_requests one_client (sys_inv_live 2 _ one_client_inv))
    as (s' & E & Hs). unfold subscribed_system. rewrite E.
  eapply calm_live; [exact Hs|]. apply (sys_inv_live 2 _ one_client_inv).
Qed.
#[local] Opaque subscribed_system one_client.

Lemma sole_singleton `{Flume} `{BiMap} (s : System) (id : ClientId) (sink : SinkId) :
  sys_sink_owner s = {[sink := id]} → sole_sink s id sink.
Proof.
  intros Ho k. rewrite Ho, lookup_singleton_Some. split; [by intros [-> _]|by intros ->].
Qed.

Lemma logged_message_delivered_witness :
  ∃ s' d bytes, run_sys show (SysLog 0 5 channel_a [Byte.x2a] {| pm_log_time := None |} None)
      subscribed_system = Ok s' ∧ sys_clients s' !! 1 = Some d ∧
    fl_queue (cl_data_plane d) = [MBinary bytes] ∧
    ServerMessage_parse_binary bytes = Ok (SMessageData
      {| md_subscription_id := 7; md_log_time := 5; md_data := [Byte.x2a] |}).
Proof.
  destruct subscribed_system_facts as (Hc & Hch & Ho & Hk & Hs).
  destruct (sys_clients subscribed_system !! 1) as [c|] eqn:E; [|exact (False_ind _ Hc)].
  destruct Hc as (Hbm & Hq & Hcap).
  destruct (logged_message_delivered show 0 5 channel_a [Byte.x2a] {| pm_log_time := None |}
    subscribed_system 1 c one_sink 7) as (s' & d & bytes & Er & Ed & Eq & Ep & _).
  - rewrite subscribed_system_context. apply run_ctx_ops_inv; [apply ctx_init_inv|done..].
  - exact subscribed_system_live.
  - exact Hch.
  - exact E.
  - apply sole_singleton, Ho.
  - split; [exact Hk|]. right. eexists. exact Hs.
  - exact Hbm.
  - rewrite Hq. apply Nat.le_0_l.
  - split; split; cbn; lia.
  - exists s', d, bytes. split; [exact Er|]. split; [exact Ed|]. split; [|exact Ep].
    rewrite Eq, Hq. destruct (decide _); reflexivity.
Defined.
