(* ===== verification/WebSocketServer.v ===== *)
(** * WebSocketServer: building, starting and stopping a server

    The builder and the handle of `websocket_server.rs`, and `create_server` of
    `websocket/server.rs`, over Session.v.  Each method of the builder is a function
    of the builder; starting gives a [System], in the state of the context that the
    builder names.  The default context is [None].

    What the operating system and rustls answer are parameters ([Net]): whether a
    certificate and key are accepted, and the port that is bound.  The tokio runtime
    is not modelled; the wrappers that make a handler of a function are in Handlers.v. *)

From S2P Require Import Prelude Bytes Messages Wire ConnectionGraph Channel Subscriptions Context.
From S2P Require Import Advertise Services Token Outbox Client Server Session SessionProofs.
Local Open Scope Z_scope.

Record TlsIdentity := { cert : list byte; key : list byte }.

(** [build_tls_acceptor] is the reason for which rustls refuses an identity; [bind]
    is [TcpListener::bind] with [local_addr]: the error, or the port. *)
Class Net := {
  rustls_refuses : TlsIdentity → option string;
  tcp_bind : string → string + Z
}.

(** ** The builder *)

Record WebSocketServer := {
  wss_host : string;
  wss_port : Z;
  wss_options : ServerOptions;
  wss_tls_identity : option TlsIdentity;
  wss_context : option nat
}.

(** [ServerOptions::default]. *)
Definition ServerOptions_default : ServerOptions := {|
  op_session_id := None; op_name := None; op_message_backlog_size := None; op_listener := None;
  op_capabilities := None; op_services := []; op_supported_encodings := None;
  op_fetch_asset_handler := false; op_channel_filter := None; op_server_info := None;
  op_playback_time_range := None
|}.

Definition set_options (o : ServerOptions) (self : WebSocketServer) : WebSocketServer :=
  {| wss_host := wss_host self; wss_port := wss_port self; wss_options := o;
     wss_tls_identity := wss_tls_identity self; wss_context := wss_context self |}.

(** Options with one field changed; [f] is the field's new value. *)
Definition with_session_id (id : string) (o : ServerOptions) : ServerOptions :=
  {| op_session_id := Some id; op_name := op_name o;
     op_message_backlog_size := op_message_backlog_size o; op_listener := op_listener o;
     op_capabilities := op_capabilities o; op_services := op_services o;
     op_supported_encodings := op_supported_encodings o;
     op_fetch_asset_handler := op_fetch_asset_handler o; op_channel_filter := op_channel_filter o;
     op_server_info := op_server_info o; op_playback_time_range := op_playback_time_range o |}.
Definition with_name (name : string) (o : ServerOptions) : ServerOptions :=
  {| op_session_id := op_session_id o; op_name := Some name;
     op_message_backlog_size := op_message_backlog_size o; op_listener := op_listener o;
     op_capabilities := op_capabilities o; op_services := op_services o;
     op_supported_encodings := op_supported_encodings o;
     op_fetch_asset_handler := op_fetch_asset_handler o; op_channel_filter := op_channel_filter o;
     op_server_info := op_server_info o; op_playback_time_range := op_playback_time_range o |}.
Definition with_hooks (listener : option Listener) (fetch_asset : bool)
    (filter : option (ChannelDescriptor → bool)) (o : ServerOptions) : ServerOptions :=
  {| op_session_id := op_session_id o; op_name := op_name o;
     op_message_backlog_size := op_message_backlog_size o; op_listener := listener;
     op_capabilities := op_capabilities o; op_services := op_services o;
     op_supported_encodings := op_supported_encodings o;
     op_fetch_asset_handler := fetch_asset; op_channel_filter := filter;
     op_server_info := op_server_info o; op_playback_time_range := op_playback_time_range o |}.
Definition with_features (capabilities : option (gset Capability)) (services : list Service)
    (encodings : option (gset string)) (o : ServerOptions) : ServerOptions :=
  {| op_session_id := op_session_id o; op_name := op_name o;
     op_message_backlog_size := op_message_backlog_size o; op_listener := op_listener o;
     op_capabilities := capabilities; op_services := services;
     op_supported_encodings := encodings;
     op_fetch_asset_handler := op_fetch_asset_handler o; op_channel_filter := op_channel_filter o;
     op_server_info := op_server_info o; op_playback_time_range := op_playback_time_range o |}.
Definition with_about (backlog : option Z) (info : option (gmap string string))
    (range : option (Z * Z)) (o : ServerOptions) : ServerOptions :=
  {| op_session_id := op_session_id o; op_name := op_name o;
     op_message_backlog_size := backlog; op_listener := op_listener o;
     op_capabilities := op_capabilities o; op_services := op_services o;
     op_supported_encodings := op_supported_encodings o;
     op_fetch_asset_handler := op_fetch_asset_handler o; op_channel_filter := op_channel_filter o;
     op_server_info := info; op_playback_time_range := range |}.

Module Builder.
(** [WebSocketServer::new]; [generated] is what [generate_session_id] returns. *)
Definition WebSocketServer_new (generated : string) : WebSocketServer := {|
  wss_host := "127.0.0.1"; wss_port := 8765;
  wss_options := with_session_id generated ServerOptions_default;
  wss_tls_identity := None; wss_context := None
|}.
Definition name (n : string) (self : WebSocketServer) : WebSocketServer :=
  set_options (with_name n (wss_options self)) self.
Definition bind (host : string) (port : Z) (self : WebSocketServer) : WebSocketServer :=
  {| wss_host := host; wss_port := port; wss_options := wss_options self;
     wss_tls_identity := wss_tls_identity self; wss_context := wss_context self |}.
Definition channel_filter (f : ChannelDescriptor → bool) (self : WebSocketServer) : WebSocketServer :=
  let o := wss_options self in
  set_options (with_hooks (op_listener o) (op_fetch_asset_handler o) (Some f) o) self.
Definition tls (identity : TlsIdentity) (self : WebSocketServer) : WebSocketServer :=
  {| wss_host := wss_host self; wss_port := wss_port self; wss_options := wss_options self;
     wss_tls_identity := Some identity; wss_context := wss_context self |}.
Definition capabilities (l : list Capability) (self : WebSocketServer) : WebSocketServer :=
  let o := wss_options self in
  set_options (with_features (Some (list_to_set l)) (op_services o) (op_supported_encodings o) o) self.
Definition server_info (info : gmap string string) (self : WebSocketServer) : WebSocketServer :=
  let o := wss_options self in
  set_options (with_about (op_message_backlog_size o) (Some info) (op_playback_time_range o) o) self.
Definition playback_time_range (start_time end_time : Z) (self : WebSocketServer) : WebSocketServer :=
  let o := wss_options self in
  set_options (with_about (op_message_backlog_size o) (op_server_info o) (Some (start_time, end_time)) o)
    self.
Definition listener (l : Listener) (self : WebSocketServer) : WebSocketServer :=
  let o := wss_options self in
  set_options (with_hooks (Some l) (op_fetch_asset_handler o) (op_channel_filter o) o) self.
Definition fetch_asset_handler (self : WebSocketServer) : WebSocketServer :=
  let o := wss_options self in
  set_options (with_hooks (op_listener o) true (op_channel_filter o) o) self.
Definition message_backlog_size (size : Z) (self : WebSocketServer) : WebSocketServer :=
  let o := wss_options self in
  set_options (with_about (Some size) (op_server_info o) (op_playback_time_range o) o) self.
(** A [HashMap] by name: a service replaces an earlier one of its name. *)
Definition services (l : list Service) (self : WebSocketServer) : WebSocketServer :=
  let o := wss_options self in
  let m := foldl (λ (m : gmap string Service) service, <[svc_name service := service]> m) ∅ l in
  set_options (with_features (op_capabilities o) (map_to_list m).*2 (op_supported_encodings o) o) self.
Definition supported_encodings (l : list string) (self : WebSocketServer) : WebSocketServer :=
  let o := wss_options self in
  set_options (with_features (op_capabilities o) (op_services o) (Some (list_to_set l)) o) self.
Definition session_id (id : string) (self : WebSocketServer) : WebSocketServer :=
  set_options (with_session_id id (wss_options self)) self.
Definition context (ctx : option nat) (self : WebSocketServer) : WebSocketServer :=
  {| wss_host := wss_host self; wss_port := wss_port self; wss_options := wss_options self;
     wss_tls_identity := wss_tls_identity self; wss_context := ctx |}.

End Builder.

(** ** Starting *)

Section start.
Context `{Net} `{HF : Flume} `{HM : BiMap} `{HB : Buf} `{HJ : Json} `{H64 : Base64}.

(** [StreamConfiguration::new] of `streams/rust_tls.rs`. *)
Definition StreamConfiguration_new (identity : option TlsIdentity) : result FoxgloveError unit :=
  match identity with
  | Some identity =>
    match rustls_refuses identity with
    | Some e => Err (ConfigurationError ("TLS configuration: " +:+ e))
    | None => Ok tt
    end
  | None => Ok tt
  end.
Definition create_server (generated : string) (self : WebSocketServer) : result FoxgloveError Server :=
  _ ← StreamConfiguration_new (wss_tls_identity self);
  Server_new generated (wss_options self).
(** [Server::start]: nobody else has the server, so a failure leaves nothing. *)
Definition server_start (host : string) (port : Z) (server : Server) : result FoxgloveError (Server * Z) :=
  server ← Server.start server;
  match tcp_bind (host +:+ ":" +:+ pretty port) with
  | inl e => Err (Bind e)
  | inr local => Ok (server, local)
  end.
(** A server in a context: [x] and [w] are the context's state. *)
Definition sys_start (x : ContextInner) (w : World) (server : Server) : System :=
  with_context x w (sys_init server).
(** [start] and [start_blocking]; [contexts] is the state of each context. *)
Definition start_blocking (contexts : option nat → ContextInner * World) (generated : string)
    (self : WebSocketServer) : result FoxgloveError (System * Z) :=
  server ← create_server generated self;
  '(server, port) ← server_start (wss_host self) (wss_port self) server;
  let '(x, w) := contexts (wss_context self) in
  Ok (sys_start x w server, port).

(** The handle. *)
Definition client_count (s : System) : nat := length (sv_clients (sys_server s)).
(** [stop] expects that the server has not been stopped. *)
Definition handle_stop (s : System) : result string System :=
  let '(stopped, s) := Session.stop s in if stopped : bool then Ok s else Panic.
End start.
