(* ===== verification/Floats.v ===== *)
(** * Floats: rounding of IEEE 754 arithmetic

    Lemmas on the Standard Library's [SpecFloat] that the time conversions need.
    A float is measured in units of [2 ^ -N], for an [N] at least as large as
    the precision of every float involved: [sfval N x].  The central fact is
    that rounding to nearest does not cross a multiple of [2 ^ g], as long as
    the result's last place is at most [2 ^ g] ([normalize_between],
    [mul_between], [sub_between]); when the exact result is such a multiple,
    it is exact. *)

From Stdlib Require Export SpecFloat.
From S2P Require Import Prelude.
Local Open Scope Z_scope.

(** The value in units of [2 ^ -N]; NaN and the infinities have none. *)
Definition sfval (N : Z) (x : spec_float) : Z :=
  match x with
  | S754_finite s m e => cond_Zopp s (Zpos m * 2 ^ (e + N))
  | _ => 0
  end.
Definition is_real (x : spec_float) : bool :=
  match x with S754_zero _ | S754_finite _ _ _ => true | _ => false end.

(** Finite, with an exponent that fits the scale. *)
Definition scaled (N : Z) (x : spec_float) : Prop :=
  match x with S754_zero _ => True | S754_finite _ _ e => 0 ≤ e + N | _ => False end.

Lemma scaled_real N x : scaled N x → is_real x = true.
Proof. by destruct x. Qed.

(** ** Digits and shifts *)

Lemma digits2_bounds m :
  2 ^ (Zpos (digits2_pos m) - 1) ≤ Zpos m < 2 ^ Zpos (digits2_pos m).
Proof.
  induction m as [m IH|m IH|]; cbn [digits2_pos]; [| |done];
    rewrite Pos2Z.inj_succ;
    replace (Z.succ (Zpos (digits2_pos m)) - 1) with (Z.succ (Zpos (digits2_pos m) - 1)) by lia;
    rewrite !Z.pow_succ_r by lia; lia.
Qed.

Lemma digits2_le m e N h :
  0 ≤ e + N → Zpos m * 2 ^ (e + N) < 2 ^ (h + N) → Zpos (digits2_pos m) + e ≤ h.
Proof.
  intros He Hm. destruct (digits2_bounds m) as [Hd _].
  assert (2 ^ (Zpos (digits2_pos m) - 1 + (e + N)) < 2 ^ (h + N)) as Hlt.
  { rewrite Z.pow_add_r by lia.
    apply Z.le_lt_trans with (Zpos m * 2 ^ (e + N)); [|done].
    apply Z.mul_le_mono_nonneg_r; [|done]. apply Z.pow_nonneg. lia. }
  destruct (decide (0 ≤ h + N)) as [Hh|Hh].
  - apply Z.pow_lt_mono_r_iff in Hlt; lia.
  - rewrite (Z.pow_neg_r 2 (h + N)) in Hlt by lia.
    pose proof (Z.pow_nonneg 2 (Zpos (digits2_pos m) - 1 + (e + N))). lia.
Qed.

Lemma digits2_unique m d : 0 < d → 2 ^ (d - 1) ≤ Zpos m < 2 ^ d → Zpos (digits2_pos m) = d.
Proof.
  intros Hd [H1 H2]. destruct (digits2_bounds m) as [H3 H4].
  assert (2 ^ (d - 1) < 2 ^ Zpos (digits2_pos m)) as Ha by lia.
  assert (2 ^ (Zpos (digits2_pos m) - 1) < 2 ^ d) as Hb by lia.
  apply Z.pow_lt_mono_r_iff in Ha, Hb; lia.
Qed.

Lemma iter_pos_nat {A} (f : A → A) n x : SpecFloat.iter_pos f n x = Nat.iter (Pos.to_nat n) f x.
Proof.
  revert x. induction n as [n IH|n IH|]; intros x; cbn [SpecFloat.iter_pos];
    [rewrite Pos2Nat.inj_xI|rewrite Pos2Nat.inj_xO|done]; rewrite !IH.
  - replace (S (2 * Pos.to_nat n))%nat with (Pos.to_nat n + (Pos.to_nat n + 1))%nat by lia.
    by rewrite !Nat.iter_add.
  - replace (2 * Pos.to_nat n)%nat with (Pos.to_nat n + Pos.to_nat n)%nat by lia.
    by rewrite Nat.iter_add.
Qed.

(** A right shift keeps whether it lost anything. *)
Lemma shr_iter_spec m (k : nat) : 0 ≤ m →
  let r := Nat.iter k shr_1 {| shr_m := m; shr_r := false; shr_s := false |} in
  shr_m r = m / 2 ^ Z.of_nat k ∧
  (shr_r r || shr_s r = false ↔ m `mod` 2 ^ Z.of_nat k = 0).
Proof.
  intros Hm. induction k as [|k IH]; cbn zeta in *.
  { change (2 ^ Z.of_nat 0) with 1. by rewrite Z.div_1_r, Z.mod_1_r. }
  cbn [Nat.iter nat_rect]. change (nat_rect _ _ _ k) with
    (Nat.iter k shr_1 {| shr_m := m; shr_r := false; shr_s := false |}).
  destruct (Nat.iter k _ _) as [m' r s]. cbn [shr_m shr_r shr_s] in IH.
  destruct IH as [-> IH].
  assert (0 < 2 ^ Z.of_nat k) as Hp by (apply Z.pow_pos_nonneg; lia).
  rewrite Nat2Z.inj_succ, Z.pow_succ_r by lia. rewrite (Z.mul_comm 2).
  rewrite <- Z.div_div, Z.rem_mul_r by lia.
  pose proof (Z.div_pos m (2 ^ Z.of_nat k) Hm Hp) as Hq.
  pose proof (Z.mod_pos_bound m (2 ^ Z.of_nat k) Hp) as Hr.
  assert (∀ a b, a / 2 = b → a `mod` 2 = a - 2 * b) as Hmod.
  { intros a b <-. rewrite Z.mod_eq by lia. lia. }
  set (q := m / 2 ^ Z.of_nat k) in *. set (r0 := m `mod` 2 ^ Z.of_nat k) in *.
  destruct q as [|[p|p|]|p] eqn:Eq; cbn [shr_1 shr_m shr_r shr_s]; [| | | |lia].
  - rewrite Z.mod_0_l, Z.mul_0_r, Z.add_0_r by lia. split; [done|]. by rewrite orb_false_l.
  - assert (Z.pos p~1 / 2 = Z.pos p) as E by (symmetry; apply Z.div_unique with 1; lia).
    rewrite E, (Hmod _ _ E). split; [done|]. cbn [orb]. split; [done|]. nia.
  - assert (Z.pos p~0 / 2 = Z.pos p) as E by (symmetry; apply Z.div_unique with 0; lia).
    rewrite E, (Hmod _ _ E). split; [done|]. cbn [orb].
    replace (Z.pos p~0 - 2 * Z.pos p) with 0 by lia. by rewrite Z.mul_0_r, Z.add_0_r.
  - change (1 / 2) with 0. change (1 `mod` 2) with 1. split; [done|]. cbn [orb].
    split; [done|]. nia.
Qed.

(** ** Rounding *)

Section rounding.
Context (prec emax : Z).
Hypothesis prec_pos : 1 < prec.
Hypothesis emax_pos : 1 < emax.
Local Abbreviation fexp := (SpecFloat.fexp prec emax).
Local Abbreviation emin := (SpecFloat.emin prec emax).

Lemma shr_fexp_small m e l :
  fexp (Zdigits2 m + e) ≤ e → shr_fexp prec emax m e l = (shr_record_of_loc m l, e).
Proof. intros. unfold shr_fexp, shr. destruct (_ - e) eqn:?; [done|lia|done]. Qed.

Lemma shr_fexp_exact m e : 0 ≤ m →
  let f := Z.max e (fexp (Zdigits2 m + e)) in
  let r := shr_fexp prec emax m e loc_Exact in
  r.2 = f ∧ shr_m r.1 = m / 2 ^ (f - e) ∧
  (shr_r r.1 || shr_s r.1 = false ↔ m `mod` 2 ^ (f - e) = 0).
Proof.
  intros Hm. cbn zeta. destruct (decide (fexp (Zdigits2 m + e) ≤ e)) as [Hle|Hgt].
  - rewrite shr_fexp_small by done. cbn. rewrite Z.max_l by lia. rewrite Z.sub_diag.
    change (2 ^ 0) with 1. by rewrite Z.div_1_r, Z.mod_1_r.
  - rewrite Z.max_r by lia. unfold shr_fexp, shr.
    destruct (_ - e) as [|p|] eqn:Ep; [lia| |lia]. rewrite iter_pos_nat. cbn [fst snd].
    pose proof (shr_iter_spec m (Pos.to_nat p) Hm) as Hs. rewrite positive_nat_Z in Hs.
    split; [lia|done].
Qed.

(** The mantissa is rounded down or up, and up only if it is not exact. *)
Lemma round_nearest_even_or m r s :
  let x := {| shr_m := m; shr_r := r; shr_s := s |} in
  round_nearest_even m (loc_of_shr_record x) = m ∨
  round_nearest_even m (loc_of_shr_record x) = m + 1 ∧ r || s = true.
Proof. destruct r, s; cbn; try case_match; auto. Qed.

Lemma fexp_ge_emin d : emin ≤ fexp d.
Proof. unfold SpecFloat.fexp. lia. Qed.
Lemma fexp_mono d d' : d ≤ d' → fexp d ≤ fexp d'.
Proof. unfold SpecFloat.fexp. lia. Qed.

Lemma Zdigits2_le q : 0 ≤ q < 2 ^ prec → Zdigits2 q ≤ prec.
Proof.
  intros Hq. destruct q as [|p|]; cbn [Zdigits2]; [lia| |lia].
  destruct (digits2_bounds p) as [Hd _].
  assert (2 ^ (Zpos (digits2_pos p) - 1) < 2 ^ prec) as Hlt by lia.
  apply Z.pow_lt_mono_r_iff in Hlt; lia.
Qed.

(** The second shift of [binary_round_aux] is exact: only a carry to
    [2 ^ prec] is shifted, by one place. *)
Lemma second_shift m f :
  0 ≤ m ≤ 2 ^ prec → emin ≤ f → (fexp (Zdigits2 m + f) ≤ f ∨ m = 2 ^ prec ∧ 0 < m) →
  let r := shr_fexp prec emax m f loc_Exact in
  f ≤ r.2 ≤ f + 1 ∧ shr_m r.1 * 2 ^ (r.2 - f) = m.
Proof.
  intros Hm Hf [Hle|[-> Hpos]]; cbn zeta.
  { rewrite shr_fexp_small by done. cbn. rewrite Z.sub_diag. lia. }
  destruct (shr_fexp_exact (2 ^ prec) f) as (H1 & H2 & _); [lia|].
  assert (Zdigits2 (2 ^ prec) = prec + 1) as Hd.
  { destruct (2 ^ prec) as [|p|] eqn:E; [lia| |lia]. cbn [Zdigits2].
    apply digits2_unique; [lia|]. rewrite Z.add_simpl_r, Z.add_1_r, Z.pow_succ_r by lia. lia. }
  rewrite Hd in H1, H2. unfold SpecFloat.fexp in H1, H2.
  assert (Z.max f (Z.max (prec + 1 + f - prec) emin) - f = 1) as Hone by lia.
  rewrite Hone in H2. rewrite H1, H2. split; [lia|].
  replace (Z.max f _ - f) with 1 by lia.
  replace prec with (1 + (prec - 1)) by lia. rewrite Z.pow_add_r by lia.
  change (2 ^ 1) with 2. rewrite (Z.mul_comm 2), Z.div_mul; lia.
Qed.

(** The result is [q * 2 ^ f], for [f] the exponent the result should have and
    [q] the integer below or, if that is not exact, above [m * 2 ^ (e - f)]. *)
Lemma round_aux_spec s m e :
  let f := Z.max e (fexp (Zpos (digits2_pos m) + e)) in
  Zpos (digits2_pos m) + e ≤ emax - 1 → e ≤ emax - prec - 1 →
  ∃ q, (q = Zpos m / 2 ^ (f - e) ∨
        q = Zpos m / 2 ^ (f - e) + 1 ∧ Zpos m `mod` 2 ^ (f - e) ≠ 0) ∧
    (q = 0 ∧ binary_round_aux prec emax s (Zpos m) e loc_Exact = S754_zero s ∨
     ∃ m' e', f ≤ e' ∧ Zpos m' * 2 ^ (e' - f) = q ∧
       binary_round_aux prec emax s (Zpos m) e loc_Exact = S754_finite s m' e').
Proof.
  intros f Hd He. unfold binary_round_aux.
  destruct (shr_fexp_exact (Zpos m) e) as (H1 & H2 & H3); [lia|]. cbn [Zdigits2] in H1, H2, H3.
  fold f in H1, H2, H3.
  destruct (shr_fexp prec emax (Zpos m) e loc_Exact) as [[m1 r1 s1] e1].
  cbn [fst snd shr_m shr_r shr_s] in H1, H2, H3. subst e1 m1. cbn [shr_m].
  set (k := f - e) in *. assert (0 ≤ k) as Hk by lia.
  pose proof (round_nearest_even_or (Zpos m / 2 ^ k) r1 s1) as Hq. cbn zeta in Hq.
  set (q := round_nearest_even (Zpos m / 2 ^ k) _) in *.
  assert (0 < 2 ^ k) as Hp by (apply Z.pow_pos_nonneg; lia).
  assert (0 ≤ Zpos m / 2 ^ k) as Hm0 by (apply Z.div_pos; lia).
  assert (emin ≤ f) as Hf by (unfold f, SpecFloat.fexp in *; lia).
  destruct (digits2_bounds m) as [Hd1 Hd2].
  assert (0 ≤ q ≤ 2 ^ prec ∧ (fexp (Zdigits2 q + f) ≤ f ∨ q = 2 ^ prec ∧ 0 < q)) as [Hq1 Hq2].
  { assert (0 < 2 ^ prec) as Hpp by (apply Z.pow_pos_nonneg; lia).
    destruct (decide (k = 0)) as [Hk0|Hk0].
    - rewrite Hk0 in Hq, H3. change (2 ^ 0) with 1 in *. rewrite Z.div_1_r, Z.mod_1_r in *.
      destruct Hq as [Hq|[_ Hq]]; [|by rewrite (proj2 H3) in Hq].
      assert (Zpos (digits2_pos m) ≤ prec) as Hdp by (unfold f, SpecFloat.fexp in *; lia).
      assert (2 ^ Zpos (digits2_pos m) ≤ 2 ^ prec) by (apply Z.pow_le_mono_r; lia).
      rewrite Hq. split; [lia|]. left. cbn [Zdigits2]. replace f with e by lia. lia.
    - assert (Zpos m / 2 ^ k < 2 ^ prec) as Hlt.
      { apply Z.div_lt_upper_bound; [done|]. rewrite <- Z.pow_add_r by lia.
        assert (2 ^ Zpos (digits2_pos m) ≤ 2 ^ (k + prec)); [|lia].
        apply Z.pow_le_mono_r; [lia|]. unfold f, SpecFloat.fexp in *. lia. }
      assert (0 ≤ q ≤ 2 ^ prec) as Hq0 by lia. split; [done|].
      destruct (decide (q = 2 ^ prec)) as [->|Hne]; [by right|left].
      pose proof (Zdigits2_le q ltac:(lia)). unfold SpecFloat.fexp at 1. lia. }
  exists q. split.
  { destruct Hq as [->|[-> Hrs]]; [by left|right]. split; [done|].
    intros Hz. by rewrite (proj2 H3) in Hrs. }
  destruct (second_shift q f Hq1 Hf Hq2) as [He2 Hm2].
  destruct (shr_fexp prec emax q f loc_Exact) as [[m2 r2 s2] e2].
  cbn [fst snd shr_m] in He2, Hm2 |- *.
  assert (0 < 2 ^ (e2 - f)) by (apply Z.pow_pos_nonneg; lia).
  destruct m2 as [|m2|m2]; [left; split; [lia|done]| |nia].
  right. exists m2, e2. split_and!; [lia|done|].
  assert (f + 1 ≤ emax - prec) as Hfit.
  { unfold f, SpecFloat.fexp, SpecFloat.emin. lia. }
  by rewrite (proj2 (Z.leb_le _ _)) by lia.
Qed.

(** Rounding does not cross the multiples of [2 ^ g]. *)
Lemma round_aux_between N g s m e K1 K2 :
  0 ≤ e + N → fexp (Zpos (digits2_pos m) + e) ≤ g →
  Zpos (digits2_pos m) + e ≤ emax - 1 → e ≤ emax - prec - 1 →
  K1 * 2 ^ (g + N) ≤ Zpos m * 2 ^ (e + N) ≤ K2 * 2 ^ (g + N) →
  let r := binary_round_aux prec emax s (Zpos m) e loc_Exact in
  scaled N r ∧ ∃ v, 0 ≤ v ∧ sfval N r = cond_Zopp s v ∧
    K1 * 2 ^ (g + N) ≤ v ≤ K2 * 2 ^ (g + N).
Proof.
  intros HN Hg Hd He HK r.
  destruct (round_aux_spec s m e Hd He) as (q & Hq & Hr). fold r in Hr.
  set (f := Z.max e (fexp (Zpos (digits2_pos m) + e))) in *.
  assert (0 ≤ q) as Hq0.
  { assert (0 ≤ Zpos m / 2 ^ (f - e)) by (apply Z.div_pos; [lia|apply Z.pow_pos_nonneg; lia]).
    lia. }
  assert (scaled N r ∧ sfval N r = cond_Zopp s (q * 2 ^ (f + N))) as [Hreal Hval].
  { destruct Hr as [[-> ->]|(m' & e' & Hle & <- & ->)]; [by destruct s|].
    split; [cbn; lia|]. cbn [sfval]. f_equal.
    rewrite <- Z.mul_assoc, <- Z.pow_add_r by lia. do 2 f_equal. lia. }
  split; [done|]. exists (q * 2 ^ (f + N)). split_and!; [|done|..].
  { apply Z.mul_nonneg_nonneg; [done|]. apply Z.pow_nonneg. lia. }
  all: destruct (decide (fexp (Zpos (digits2_pos m) + e) ≤ e)) as [Hle|Hgt].
  1,3: assert (f = e) as Hf by lia; rewrite Hf in Hq |- *; rewrite Z.sub_diag in Hq;
    change (2 ^ 0) with 1 in Hq; rewrite Z.div_1_r, Z.mod_1_r in Hq;
    destruct Hq as [->|[_ []]]; [lia|done].
  all: assert (f ≤ g ∧ e < f) as [Hfg Hef] by lia;
    assert (0 < 2 ^ (f + N)) as Hp by (apply Z.pow_pos_nonneg; lia);
    assert (0 < 2 ^ (e + N)) as Hp2 by (apply Z.pow_pos_nonneg; lia);
    assert (0 < 2 ^ (f - e)) as Hp3 by (apply Z.pow_pos_nonneg; lia);
    assert (2 ^ (g + N) = 2 ^ (g - f) * 2 ^ (f + N)) as Eg
      by (rewrite <- Z.pow_add_r by lia; f_equal; lia);
    assert (2 ^ (f + N) = 2 ^ (f - e) * 2 ^ (e + N)) as Ef
      by (rewrite <- Z.pow_add_r by lia; f_equal; lia);
    rewrite Eg in HK |- *; rewrite !Z.mul_assoc in HK |- *;
    apply Z.mul_le_mono_nonneg_r; [lia|];
    rewrite Ef, !Z.mul_assoc in HK; destruct HK as [HK1 HK2];
    apply Z.mul_le_mono_pos_r in HK1, HK2; [|done..].
  - assert (K1 * 2 ^ (g - f) ≤ Zpos m / 2 ^ (f - e)); [|lia].
    apply Z.div_le_lower_bound; [done|]. lia.
  - assert (Zpos m / 2 ^ (f - e) ≤ K2 * 2 ^ (g - f)) as Hup.
    { apply Z.div_le_upper_bound; [done|]. lia. }
    destruct Hq as [->|[-> Hmod]]; [done|].
    enough (Zpos m / 2 ^ (f - e) < K2 * 2 ^ (g - f)) by lia.
    apply Z.le_neq. split; [done|]. intros Heq. apply Hmod.
    pose proof (Z.div_mod (Zpos m) (2 ^ (f - e)) ltac:(lia)).
    pose proof (Z.mod_pos_bound (Zpos m) (2 ^ (f - e)) Hp3). rewrite Heq in *. nia.
Qed.

Lemma shl_align_spec m e e' :
  let r := shl_align m e e' in r.2 = Z.min e e' ∧ Zpos r.1 = Zpos m * 2 ^ (e - r.2).
Proof.
  unfold shl_align. destruct (e' - e) as [|p|p] eqn:E; cbn.
  1,2: rewrite Z.sub_diag, Z.mul_1_r; split; [lia|done].
  replace (e - e') with (Zpos p) by lia. split; [lia|].
  clear E. induction p as [|p IH] using Pos.peano_ind; [cbn; lia|].
  rewrite Pos.iter_succ, Pos2Z.inj_xO, IH, Pos2Z.inj_succ, Z.pow_succ_r by lia. lia.
Qed.

Lemma shl_align_value N m e e' : 0 ≤ e + N → 0 ≤ e' + N →
  let r := shl_align m e e' in Zpos r.1 * 2 ^ (r.2 + N) = Zpos m * 2 ^ (e + N).
Proof.
  intros H1 H2 r. destruct (shl_align_spec m e e') as [Hr1 Hr2]. fold r in Hr1, Hr2.
  rewrite Hr2, <- Z.mul_assoc, <- Z.pow_add_r by lia. do 2 f_equal. lia.
Qed.

Lemma cond_Zopp_between (s : bool) (v a b : Z) :
  (if s then - b ≤ v ≤ - a else a ≤ v ≤ b) → a ≤ cond_Zopp s v ≤ b.
Proof. destruct s; cbn; lia. Qed.

Lemma binary_round_between N g h s m e K1 K2 :
  0 ≤ e + N → 0 ≤ emin + N → h ≤ emax - prec - 1 → fexp h ≤ g →
  Zpos m * 2 ^ (e + N) < 2 ^ (h + N) →
  K1 * 2 ^ (g + N) ≤ cond_Zopp s (Zpos m * 2 ^ (e + N)) ≤ K2 * 2 ^ (g + N) →
  let r := binary_round prec emax s m e in
  scaled N r ∧ K1 * 2 ^ (g + N) ≤ sfval N r ≤ K2 * 2 ^ (g + N).
Proof.
  intros HN HeN Hh Hg Hm HK r. unfold r, binary_round.
  set (f := fexp (Zpos (digits2_pos m) + e)).
  pose proof (fexp_ge_emin (Zpos (digits2_pos m) + e)) as Hf. fold f in Hf.
  destruct (shl_align_spec m e f) as [Hr1 _].
  pose proof (shl_align_value N m e f HN ltac:(lia)) as Hv.
  destruct (shl_align m e f) as [mz ez]. cbn [fst snd] in Hr1, Hv. rewrite <- Hv in Hm, HK.
  assert (0 ≤ ez + N) as HezN by lia.
  pose proof (digits2_le mz ez N h HezN Hm) as Hd.
  destruct (round_aux_between N g s mz ez (if s then - K2 else K1) (if s then - K1 else K2))
    as (Hreal & v & _ & -> & Hb); [done| |lia..| |].
  - pose proof (fexp_mono _ _ Hd). lia.
  - destruct s; cbn in HK; lia.
  - split; [done|]. apply cond_Zopp_between. destruct s; lia.
Qed.

Lemma normalize_between N g h z e s K1 K2 :
  0 ≤ e + N → 0 ≤ emin + N → h ≤ emax - prec - 1 → fexp h ≤ g →
  Z.abs z * 2 ^ (e + N) < 2 ^ (h + N) →
  K1 * 2 ^ (g + N) ≤ z * 2 ^ (e + N) ≤ K2 * 2 ^ (g + N) →
  let r := binary_normalize prec emax z e s in
  scaled N r ∧ K1 * 2 ^ (g + N) ≤ sfval N r ≤ K2 * 2 ^ (g + N).
Proof.
  intros HN HeN Hh Hg Hz HK. destruct z as [|m|m]; cbn [binary_normalize].
  - by rewrite Z.mul_0_l in HK.
  - by apply (binary_round_between N g h).
  - apply (binary_round_between N g h); try done. cbn. lia.
Qed.

(** ** Operations on numbers whose exponents fit the scale *)

Lemma sfval_scale N N' x : scaled N x → N ≤ N' → sfval N' x = sfval N x * 2 ^ (N' - N).
Proof.
  destruct x as [| | |s m e]; cbn; intros Hx HN; [done..|].
  assert (2 ^ (e + N') = 2 ^ (e + N) * 2 ^ (N' - N)) as ->.
  { rewrite <- Z.pow_add_r by lia. f_equal. lia. }
  destruct s; cbn; lia.
Qed.

Lemma mul_between Nx Ny g h x y K1 K2 :
  scaled Nx x → scaled Ny y → h ≤ emax - prec - 1 → fexp h ≤ g →
  let N := Nx + Ny in
  Z.abs (sfval Nx x * sfval Ny y) < 2 ^ (h + N) →
  K1 * 2 ^ (g + N) ≤ sfval Nx x * sfval Ny y ≤ K2 * 2 ^ (g + N) →
  let r := SFmul prec emax x y in
  scaled N r ∧ K1 * 2 ^ (g + N) ≤ sfval N r ≤ K2 * 2 ^ (g + N).
Proof.
  intros Hx Hy Hh Hg N Habs HK r. unfold r.
  destruct x as [sx| | |sx mx ex]; try done;
    destruct y as [sy| | |sy my ey]; try done; try (by cbn in HK |- *; lia).
  cbn [SFmul sfval scaled] in *.
  assert (Zpos (mx * my) * 2 ^ (ex + ey + N) = (Zpos mx * 2 ^ (ex + Nx)) * (Zpos my * 2 ^ (ey + Ny)))
    as Hprod.
  { rewrite Pos2Z.inj_mul. replace (ex + ey + N) with (ex + Nx + (ey + Ny)) by (unfold N; lia).
    rewrite Z.pow_add_r by lia. lia. }
  assert (cond_Zopp sx (Zpos mx * 2 ^ (ex + Nx)) * cond_Zopp sy (Zpos my * 2 ^ (ey + Ny)) =
    cond_Zopp (xorb sx sy) (Zpos (mx * my) * 2 ^ (ex + ey + N))) as Hsign.
  { rewrite Hprod. destruct sx, sy; cbn; lia. }
  rewrite Hsign in *.
  assert (Zpos (mx * my) * 2 ^ (ex + ey + N) < 2 ^ (h + N)) as Hlt
    by (destruct (xorb sx sy); cbn in Habs; lia).
  assert (0 ≤ ex + ey + N) as HN by (unfold N; lia).
  pose proof (digits2_le _ _ N h HN Hlt) as Hd. pose proof (fexp_mono _ _ Hd).
  set (s := xorb sx sy) in *.
  destruct (round_aux_between N g s (mx * my) (ex + ey) (if s then - K2 else K1)
    (if s then - K1 else K2)) as (Hreal & v & _ & -> & Hb); [lia..| |].
  - destruct s; cbn in HK; lia.
  - split; [done|]. apply cond_Zopp_between. destruct s; lia.
Qed.

Lemma sub_between N g h x y K1 K2 :
  scaled N x → scaled N y → 0 ≤ emin + N → h ≤ emax - prec - 1 → fexp h ≤ g →
  Z.abs (sfval N x - sfval N y) < 2 ^ (h + N) →
  K1 * 2 ^ (g + N) ≤ sfval N x - sfval N y ≤ K2 * 2 ^ (g + N) →
  let r := SFsub prec emax x y in
  scaled N r ∧ K1 * 2 ^ (g + N) ≤ sfval N r ≤ K2 * 2 ^ (g + N).
Proof.
  intros Hx Hy HeN Hh Hg Habs HK r. unfold r.
  destruct x as [sx| | |sx mx ex]; try done;
    destruct y as [sy| | |sy my ey]; try done; cbn [sfval] in *.
  - cbn in HK |- *. destruct sx, sy; cbn; lia.
  - cbn [SFsub sfval scaled]. split; [done|]. destruct sy; cbn in *; lia.
  - cbn [SFsub sfval scaled]. split; [done|]. lia.
  - cbn [SFsub scaled] in *.
    destruct (shl_align_spec mx ex (Z.min ex ey)) as [Ex _].
    destruct (shl_align_spec my ey (Z.min ex ey)) as [Ey _].
    pose proof (shl_align_value N mx ex (Z.min ex ey) Hx ltac:(lia)) as Vx.
    pose proof (shl_align_value N my ey (Z.min ex ey) Hy ltac:(lia)) as Vy.
    cbn zeta in Ex, Ey, Vx, Vy. rewrite Ex in Vx. rewrite Ey in Vy.
    replace (Z.min ex (Z.min ex ey)) with (Z.min ex ey) in Vx by lia.
    replace (Z.min ey (Z.min ex ey)) with (Z.min ex ey) in Vy by lia.
    set (ax := shl_align mx ex (Z.min ex ey)) in *. set (ay := shl_align my ey (Z.min ex ey)) in *.
    rewrite <- Vx, <- Vy in Habs, HK.
    assert ((cond_Zopp sx (Zpos ax.1) - cond_Zopp sy (Zpos ay.1)) * 2 ^ (Z.min ex ey + N) =
      cond_Zopp sx (Zpos ax.1 * 2 ^ (Z.min ex ey + N)) -
      cond_Zopp sy (Zpos ay.1 * 2 ^ (Z.min ex ey + N))) as Ediff by (destruct sx, sy; cbn; lia).
    rewrite <- Ediff in Habs, HK.
    apply (normalize_between N g h); try done; [lia|].
    rewrite Z.abs_mul in Habs. rewrite (Z.abs_eq (2 ^ _)) in Habs by (apply Z.pow_nonneg; lia).
    done.
Qed.

Lemma SFadd_opp x y : SFadd prec emax x y = SFsub prec emax x (SFopp y).
Proof.
  destruct x as [[]|[]| |sx mx ex], y as [[]|[]| |sy my ey]; try done; cbn [SFadd SFsub SFopp].
  1,2: by rewrite negb_involutive.
  do 2 f_equal. rewrite <- Z.add_opp_r. f_equal. by destruct sy.
Qed.
Lemma sfval_opp N x : sfval N (SFopp x) = - sfval N x.
Proof. destruct x as [| | |[] m e]; cbn; lia. Qed.
Lemma scaled_opp N x : scaled N x → scaled N (SFopp x).
Proof. by destruct x. Qed.

Lemma add_between N g h x y K1 K2 :
  scaled N x → scaled N y → 0 ≤ emin + N → h ≤ emax - prec - 1 → fexp h ≤ g →
  Z.abs (sfval N x + sfval N y) < 2 ^ (h + N) →
  K1 * 2 ^ (g + N) ≤ sfval N x + sfval N y ≤ K2 * 2 ^ (g + N) →
  let r := SFadd prec emax x y in
  scaled N r ∧ K1 * 2 ^ (g + N) ≤ sfval N r ≤ K2 * 2 ^ (g + N).
Proof.
  intros Hx Hy%scaled_opp HeN Hh Hg Ha HK. cbn zeta. rewrite SFadd_opp.
  apply (sub_between N g h); try done; rewrite sfval_opp, Z.sub_opp_r; done.
Qed.

(** ** Comparison *)

Definition valid_real (x : spec_float) : bool := is_real x && valid_binary prec emax x.

Lemma valid_scaled N x : 0 ≤ emin + N → valid_real x = true → scaled N x.
Proof.
  intros HN Hx. apply andb_prop in Hx as [Hr Hv]. destruct x as [| | |s m e]; try done.
  unfold valid_binary, bounded, canonical_mantissa, scaled in *.
  apply andb_prop in Hv as [Hc _]. apply Z.eqb_eq in Hc.
  pose proof (fexp_ge_emin (Zpos (digits2_pos m) + e)). lia.
Qed.

Lemma canonical_lt N m1 e1 m2 e2 :
  canonical_mantissa prec emax m1 e1 = true → canonical_mantissa prec emax m2 e2 = true →
  0 ≤ e1 + N → e1 < e2 → Zpos m1 * 2 ^ (e1 + N) < Zpos m2 * 2 ^ (e2 + N).
Proof.
  intros Hc1%Z.eqb_eq Hc2%Z.eqb_eq HN He.
  destruct (digits2_bounds m1) as [_ H1]. destruct (digits2_bounds m2) as [H2 _].
  assert (Zpos (digits2_pos m1) + e1 < Zpos (digits2_pos m2) + e2) as Hd.
  { destruct (decide (Zpos (digits2_pos m2) + e2 ≤ Zpos (digits2_pos m1) + e1)) as [Hle|]; [|lia].
    apply fexp_mono in Hle. lia. }
  apply Z.lt_le_trans with (2 ^ (Zpos (digits2_pos m1) + (e1 + N))).
  { rewrite (Z.pow_add_r 2 (Zpos _)) by lia. apply Z.mul_lt_mono_pos_r; [|done].
    apply Z.pow_pos_nonneg; lia. }
  apply Z.le_trans with (2 ^ (Zpos (digits2_pos m2) - 1 + (e2 + N))).
  { apply Z.pow_le_mono_r; lia. }
  rewrite (Z.pow_add_r 2 (Zpos _ - 1)) by lia.
  apply Z.mul_le_mono_nonneg_r; [|done]. apply Z.pow_nonneg. lia.
Qed.

Lemma SFcompare_real N x y :
  0 ≤ emin + N → valid_real x = true → valid_real y = true →
  SFcompare x y = Some (sfval N x ?= sfval N y).
Proof.
  intros HN Hx Hy. pose proof (valid_scaled N x HN Hx) as Sx.
  pose proof (valid_scaled N y HN Hy) as Sy.
  apply andb_prop in Hx as [Rx Vx], Hy as [Ry Vy].
  destruct x as [sx| | |sx m1 e1], y as [sy| | |sy m2 e2]; try done;
    unfold valid_binary, bounded, scaled in *.
  - cbn [SFcompare sfval]. assert (0 < Zpos m2 * 2 ^ (e2 + N)) by (apply Z.mul_pos_pos; [|apply Z.pow_pos_nonneg]; lia).
    f_equal. symmetry. destruct sy; [apply Z.compare_gt_iff|apply Z.compare_lt_iff]; cbn; lia.
  - cbn [SFcompare sfval]. assert (0 < Zpos m1 * 2 ^ (e1 + N)) by (apply Z.mul_pos_pos; [|apply Z.pow_pos_nonneg]; lia).
    f_equal. symmetry. destruct sx; [apply Z.compare_lt_iff|apply Z.compare_gt_iff]; cbn; lia.
  - apply andb_prop in Vx as [Cx _], Vy as [Cy _]. cbn [SFcompare sfval].
    assert (0 < Zpos m1 * 2 ^ (e1 + N)) by (apply Z.mul_pos_pos; [|apply Z.pow_pos_nonneg]; lia).
    assert (0 < Zpos m2 * 2 ^ (e2 + N)) by (apply Z.mul_pos_pos; [|apply Z.pow_pos_nonneg]; lia).
    assert (match e1 ?= e2 with Eq => (m1 ?= m2)%positive | c => c end =
      (Zpos m1 * 2 ^ (e1 + N) ?= Zpos m2 * 2 ^ (e2 + N))) as Hcmp.
    { symmetry. destruct (Z.compare_spec e1 e2) as [->|Hlt|Hlt].
      - rewrite <- Zmult_compare_compat_r; [done|]. apply Z.lt_gt, Z.pow_pos_nonneg; lia.
      - apply Z.compare_lt_iff. by apply canonical_lt.
      - apply Z.compare_gt_iff. by apply canonical_lt. }
    change (Pos.compare_cont Eq m1 m2) with (m1 ?= m2)%positive. f_equal.
    destruct sx, sy; cbn [cond_Zopp].
    + rewrite Z.compare_opp, (Z.compare_antisym (Zpos m1 * _)), <- Hcmp. by destruct (e1 ?= e2).
    + symmetry. apply Z.compare_lt_iff. lia.
    + symmetry. apply Z.compare_gt_iff. lia.
    + done.
Qed.
End rounding.
