(* ===== verification/Time.v ===== *)
(** * Time: durations and timestamps

    `schemas_wkt.rs`, `schemas_wkt/chrono.rs`, `convert.rs` and the time
    conversions of `metadata.rs` and `time.rs`: the normalisation of
    nanoseconds, the checked and panicking constructors of [Duration] (a signed
    number of seconds) and [Timestamp] (an unsigned one), the conversions from
    the standard library's times, from chrono's, from `f64` seconds, and to
    the protobuf types, and the saturating conversions.

    The specification is the total number of nanoseconds.  [f64] arithmetic is
    the Standard Library's [SpecFloat] at precision 53; chrono is a third-party
    crate, whose types are the parameter [Chrono]. *)

From S2P Require Import Prelude Floats.
Local Open Scope Z_scope.

Definition NANOS : Z := 1000000000.

(** ** Machine integers *)

Definition U32_MAX : Z := 2 ^ 32 - 1.
Definition I32_MAX : Z := 2 ^ 31 - 1.
Definition I32_MIN : Z := - 2 ^ 31.

(** ** [NormalizeResult] *)

Inductive NormalizeResult := NrOk (nsec : Z) | NrOverflow (sec nsec : Z).

Definition normalize_nsec (nsec : Z) : NormalizeResult :=
  if nsec <? NANOS then NrOk nsec
  else
    let sec := nsec / NANOS in
    NrOverflow sec (nsec `mod` NANOS).

(** The conversion of the extra seconds to [i32] is [unreachable!] on failure. *)
Definition carry_i32 {E} (r : NormalizeResult) (sec : Z) : result E (option (Z * Z)) :=
  match r with
  | NrOk nsec => Ok (Some (sec, nsec))
  | NrOverflow extra_sec nsec =>
    match checked_signed 32 extra_sec with
    | None => Panic
    | Some extra_sec => Ok ((λ sec, (sec, nsec)) <$> checked_signed 32 (sec + extra_sec))
    end
  end.
Definition carry_u32 (r : NormalizeResult) (sec : Z) : option (Z * Z) :=
  match r with
  | NrOk nsec => Some (sec, nsec)
  | NrOverflow extra_sec nsec => (λ sec, (sec, nsec)) <$> checked_unsigned 32 (sec + extra_sec)
  end.

(** ** [Duration] *)

Record Duration := { dur_sec : Z; dur_nsec : Z }.
#[export] Instance Duration_eq_dec : EqDecision Duration.
Proof. solve_decision. Defined.

Definition Duration_MAX : Duration := {| dur_sec := I32_MAX; dur_nsec := 999999999 |}.
Definition Duration_MIN : Duration := {| dur_sec := I32_MIN; dur_nsec := 0 |}.

Definition Duration_new_checked {E} (sec nsec : Z) : result E (option Duration) :=
  o ← carry_i32 (E:=E) (normalize_nsec nsec) sec;
  mret (fmap (M:=option) (λ '(sec, nsec), {| dur_sec := sec; dur_nsec := nsec |}) o).
Definition Duration_new {E} (sec nsec : Z) : result E Duration :=
  o ← Duration_new_checked (E:=E) sec nsec; or_panic o.
Definition Duration_normalize {E} (d : Duration) : result E (option Duration) :=
  Duration_new_checked (dur_sec d) (dur_nsec d).

(** ** [Timestamp] *)

Record Timestamp := { ts_sec : Z; ts_nsec : Z }.
#[export] Instance Timestamp_eq_dec : EqDecision Timestamp.
Proof. solve_decision. Defined.

Definition Timestamp_MAX : Timestamp := {| ts_sec := U32_MAX; ts_nsec := 999999999 |}.
Definition Timestamp_MIN : Timestamp := {| ts_sec := 0; ts_nsec := 0 |}.

Definition Timestamp_new_checked (sec nsec : Z) : option Timestamp :=
  (λ '(sec, nsec), {| ts_sec := sec; ts_nsec := nsec |}) <$> carry_u32 (normalize_nsec nsec) sec.
Definition Timestamp_new {E} (sec nsec : Z) : result E Timestamp :=
  or_panic (Timestamp_new_checked sec nsec).
Definition Timestamp_normalize (t : Timestamp) : option Timestamp :=
  Timestamp_new_checked (ts_sec t) (ts_nsec t).

(** [u64] arithmetic: debug builds panic on overflow, release builds wrap. *)
Definition total_nanos {E} (t : Timestamp) : result E Z :=
  a ← or_panic (E:=E) (checked_unsigned 64 (ts_sec t * NANOS));
  or_panic (checked_unsigned 64 (a + ts_nsec t)).

(** The derived orders compare the fields in turn. *)
Definition lex_le (a b : Z * Z) : bool := (a.1 <? b.1) || (a.1 =? b.1) && (a.2 <=? b.2).
Definition Duration_le (a b : Duration) : bool :=
  lex_le (dur_sec a, dur_nsec a) (dur_sec b, dur_nsec b).
Definition Timestamp_le (a b : Timestamp) : bool :=
  lex_le (ts_sec a, ts_nsec a) (ts_sec b, ts_nsec b).

(** ** Range errors and saturation *)

Inductive RangeError := LowerBound | UpperBound.
#[export] Instance RangeError_eq_dec : EqDecision RangeError.
Proof. solve_decision. Defined.

(** [saturating_from], for a type with bounds [lo] and [hi]. *)
Definition saturate {E T} (lo hi : T) (r : result RangeError T) : result E T :=
  match r with
  | Ok d => Ok d
  | Err LowerBound => Ok lo
  | Err UpperBound => Ok hi
  | Panic => Panic
  end.
Definition Duration_saturating {E} : result RangeError Duration → result E Duration :=
  saturate Duration_MIN Duration_MAX.
Definition Timestamp_saturating {E} : result RangeError Timestamp → result E Timestamp :=
  saturate Timestamp_MIN Timestamp_MAX.

(** ** The standard library's times *)

(** [std::time::Duration]: [as_secs] and [subsec_nanos]. *)
Record std_duration := { as_secs : Z; subsec_nanos : Z }.
Definition std_wf (d : std_duration) : Prop := fits 64 (as_secs d) ∧ 0 ≤ subsec_nanos d < NANOS.
Definition std_nanos (d : std_duration) : Z := as_secs d * NANOS + subsec_nanos d.

Definition Duration_try_from_std (d : std_duration) : result RangeError Duration :=
  match checked_signed 32 (as_secs d) with
  | None => Err UpperBound
  | Some sec => Ok {| dur_sec := sec; dur_nsec := subsec_nanos d |}
  end.

(** A [SystemTime] is its distance from the epoch in nanoseconds;
    [duration_since] fails on earlier times. *)
Definition duration_since_epoch (time : Z) : option std_duration :=
  if time <? 0 then None
  else Some {| as_secs := time / NANOS; subsec_nanos := time `mod` NANOS |}.

Definition Timestamp_try_from_system (time : Z) : result RangeError Timestamp :=
  match duration_since_epoch time with
  | None => Err LowerBound
  | Some duration =>
    match checked_unsigned 32 (as_secs duration) with
    | None => Err UpperBound
    | Some sec => Timestamp_new sec (subsec_nanos duration)
    end
  end.

(** [nanoseconds_since_epoch] of `time.rs`; [now] is the clock. *)
Definition nanoseconds_since_epoch {E} (now : Z) : result E Z :=
  match duration_since_epoch now with
  | None => Ok 0
  | Some d =>
    a ← or_panic (E:=E) (checked_unsigned 64 (as_secs d * NANOS));
    or_panic (checked_unsigned 64 (a + subsec_nanos d))
  end.

(** [ToUnixNanos] of `metadata.rs`. *)
Definition to_unix_nanos_system {E} (time : Z) : result E Z :=
  match duration_since_epoch time with
  | None => Panic
  | Some d => Ok (wrap 64 (std_nanos d))
  end.

(** ** Protobuf's types *)

(** [prost_types::Duration] and [prost_types::Timestamp]; a [nsec] above [i32]
    is [unreachable!]. *)
Record prost_time := { seconds : Z; nanos : Z }.
Definition prost_nanos {E} (nsec : Z) : result E Z := or_panic (checked_signed 32 nsec).
Definition prost_of_Duration {E} (v : Duration) : result E prost_time :=
  nanos ← prost_nanos (E:=E) (dur_nsec v); Ok {| seconds := dur_sec v; nanos := nanos |}.
Definition prost_of_Timestamp {E} (v : Timestamp) : result E prost_time :=
  nanos ← prost_nanos (E:=E) (ts_nsec v); Ok {| seconds := ts_sec v; nanos := nanos |}.

(** ** chrono *)

(** [TimeDelta] through [num_seconds] and [subsec_nanos], which have the sign of
    the delta; [DateTime<Utc>] through [timestamp] and
    [timestamp_subsec_nanos], of which the second is never negative (and
    reaches beyond a second in a leap second). *)
Class Chrono := {
  TimeDelta : Type;
  num_seconds : TimeDelta → Z;
  delta_subsec_nanos : TimeDelta → Z;
  DateTime : Type;
  timestamp : DateTime → Z;
  timestamp_subsec_nanos : DateTime → Z
}.
Class ChronoLaws `{Chrono} : Prop := {
  delta_subsec : ∀ d, - NANOS < delta_subsec_nanos d < NANOS;
  delta_sign : ∀ d, (0 < num_seconds d → 0 ≤ delta_subsec_nanos d) ∧
    (num_seconds d < 0 → delta_subsec_nanos d ≤ 0);
  timestamp_subsec : ∀ t, 0 ≤ timestamp_subsec_nanos t < 2 * NANOS
}.

Section chrono.
Context `{Chrono}.

Definition Duration_try_from_delta (delta : TimeDelta) : result RangeError Duration :=
  let secs := num_seconds delta in
  match checked_signed 32 secs with
  | None => Err (if 0 <? secs then UpperBound else LowerBound)
  | Some sec =>
    let subsec := delta_subsec_nanos delta in
    '(sec, nsec) ←
      (if 0 <=? subsec then
         nsec ← or_panic (E:=RangeError) (checked_unsigned 32 subsec); Ok (sec, nsec)
       else if sec =? I32_MIN then Err LowerBound
       else
         sec ← or_panic (E:=RangeError) (checked_signed 32 (sec - 1));
         nsec ← or_panic (E:=RangeError) (checked_unsigned 32 (subsec + NANOS)); Ok (sec, nsec));
    Duration_new sec nsec
  end.

Definition Timestamp_try_from_datetime (time : DateTime) : result RangeError Timestamp :=
  let secs := timestamp time in
  match checked_unsigned 32 secs with
  | None => Err (if 0 <? secs then UpperBound else LowerBound)
  | Some sec => Timestamp_new sec (timestamp_subsec_nanos time)
  end.
End chrono.

(** ** [f64] *)

Abbreviation f64 := spec_float.
Definition f64_lt (x y : f64) : bool := SFltb x y.
Definition f64_ge (x y : f64) : bool := SFleb y x.
Definition f64_of_Z (z : Z) : f64 := binary_normalize 53 1024 z 0 false.
Definition f64_sub : f64 → f64 → f64 := SFsub 53 1024.
Definition f64_add : f64 → f64 → f64 := SFadd 53 1024.
Definition f64_mul : f64 → f64 → f64 := SFmul 53 1024.

(** An [as] cast to an integer type with bounds [lo] and [hi]: truncation
    towards zero, saturating, and zero for a NaN. *)
Definition clamp (lo hi z : Z) : Z := Z.max lo (Z.min hi z).
Definition f64_as (lo hi : Z) (x : f64) : Z :=
  match x with
  | S754_zero _ | S754_nan => 0
  | S754_infinity true => lo
  | S754_infinity false => hi
  | S754_finite s m e =>
    let a := if 0 <=? e then Zpos m * 2 ^ e else Zpos m / 2 ^ (- e) in
    clamp lo hi (if s then - a else a)
  end.
Definition f64_as_i32 : f64 → Z := f64_as I32_MIN I32_MAX.
Definition f64_as_u32 : f64 → Z := f64_as 0 U32_MAX.

Definition Duration_try_from_secs_f64 (secs : f64) : result RangeError Duration :=
  if f64_lt secs (f64_of_Z I32_MIN) then Err LowerBound
  else if f64_ge secs (f64_add (f64_of_Z I32_MAX) (f64_of_Z 1)) then Err UpperBound
  else
    let sec := f64_as_i32 secs in
    let nsec := f64_as_i32 (f64_mul (f64_sub secs (f64_of_Z sec)) (f64_of_Z NANOS)) in
    '(sec, nsec) ←
      (if nsec <? 0 then
         sec ← or_panic (E:=RangeError) (checked_signed 32 (sec - 1));
         nsec ← or_panic (E:=RangeError) (checked_signed 32 (nsec + NANOS)); Ok (sec, nsec)
       else Ok (sec, nsec));
    nsec ← or_panic (E:=RangeError) (checked_unsigned 32 nsec);
    Duration_new sec nsec.

Definition Timestamp_try_from_epoch_secs_f64 (secs : f64) : result RangeError Timestamp :=
  if f64_lt secs (f64_of_Z 0) then Err LowerBound
  else if f64_ge secs (f64_add (f64_of_Z U32_MAX) (f64_of_Z 1)) then Err UpperBound
  else
    let sec := f64_as_u32 secs in
    let nsec := f64_as_u32 (f64_mul (f64_sub secs (f64_of_Z sec)) (f64_of_Z NANOS)) in
    Timestamp_new sec nsec.

Definition Duration_saturating_from_secs_f64 {E} (secs : f64) : result E Duration :=
  match Duration_try_from_secs_f64 secs with
  | Ok d => Ok d
  | Err LowerBound => Ok Duration_MIN
  | Err UpperBound => Ok Duration_MAX
  | Panic => Panic
  end.
Definition Timestamp_saturating_from_epoch_secs_f64 {E} (secs : f64) : result E Timestamp :=
  match Timestamp_try_from_epoch_secs_f64 secs with
  | Ok d => Ok d
  | Err LowerBound => Ok Timestamp_MIN
  | Err UpperBound => Ok Timestamp_MAX
  | Panic => Panic
  end.

(** ** The specification: a number of nanoseconds in range *)

Definition dur_total (d : Duration) : Z := dur_sec d * NANOS + dur_nsec d.
Definition ts_total (t : Timestamp) : Z := ts_sec t * NANOS + ts_nsec t.
Definition dur_wf (d : Duration) : Prop := fits_signed 32 (dur_sec d) ∧ 0 ≤ dur_nsec d < NANOS.
Definition ts_wf (t : Timestamp) : Prop := fits 32 (ts_sec t) ∧ 0 ≤ ts_nsec t < NANOS.

(** The reference conversions from a total number of nanoseconds. *)
Definition in_range (lo hi n : Z) : result RangeError Z :=
  if n <? lo then Err LowerBound else if hi <? n then Err UpperBound else Ok n.
Definition Duration_of_nanos (n : Z) : result RangeError Duration :=
  n ← in_range (dur_total Duration_MIN) (dur_total Duration_MAX) n;
  Ok {| dur_sec := n / NANOS; dur_nsec := n `mod` NANOS |}.
Definition Timestamp_of_nanos (n : Z) : result RangeError Timestamp :=
  n ← in_range (ts_total Timestamp_MIN) (ts_total Timestamp_MAX) n;
  Ok {| ts_sec := n / NANOS; ts_nsec := n `mod` NANOS |}.

(** [Result::ok]. *)
Definition ok_of {E A} (r : result E A) : option A := match r with Ok a => Some a | _ => None end.

Ltac time_unfold := unfold dur_total, ts_total, dur_wf, ts_wf, fits, fits_signed,
  Duration_MIN, Duration_MAX, Timestamp_MIN, Timestamp_MAX, I32_MIN, I32_MAX, U32_MAX,
  NANOS in *; cbn [dur_sec dur_nsec ts_sec ts_nsec] in *; change (2 ^ 32) with 4294967296 in *;
  change (2 ^ (32 - 1)) with 2147483648 in *; change (2 ^ 31) with 2147483648 in *;
  change (2 ^ 64) with 18446744073709551616 in *.

Lemma divmod_nanos s n : 0 ≤ n < NANOS → (s * NANOS + n) / NANOS = s ∧ (s * NANOS + n) `mod` NANOS = n.
Proof.
  intros Hn. unfold NANOS in *. split.
  - symmetry. apply Z.div_unique with n; lia.
  - symmetry. apply Z.mod_unique with s; lia.
Qed.

Lemma Duration_of_nanos_eq n s ns : fits_signed 32 s → 0 ≤ ns < NANOS → n = s * NANOS + ns →
  Duration_of_nanos n = Ok {| dur_sec := s; dur_nsec := ns |}.
Proof.
  intros Hs Hn ->. destruct (divmod_nanos s ns Hn) as [E1 E2].
  unfold Duration_of_nanos, in_range.
  repeat case_match; cbn; [time_unfold; lia..|]. by rewrite E1, E2.
Qed.
Lemma Timestamp_of_nanos_eq n s ns : fits 32 s → 0 ≤ ns < NANOS → n = s * NANOS + ns →
  Timestamp_of_nanos n = Ok {| ts_sec := s; ts_nsec := ns |}.
Proof.
  intros Hs Hn ->. destruct (divmod_nanos s ns Hn) as [E1 E2].
  unfold Timestamp_of_nanos, in_range.
  repeat case_match; cbn; [time_unfold; lia..|]. by rewrite E1, E2.
Qed.
Lemma Duration_of_nanos_lower n : n < I32_MIN * NANOS → Duration_of_nanos n = Err LowerBound.
Proof. intros. unfold Duration_of_nanos, in_range. case_match; [done|]. time_unfold. lia. Qed.
Lemma Duration_of_nanos_upper n : (I32_MAX + 1) * NANOS ≤ n → Duration_of_nanos n = Err UpperBound.
Proof.
  intros. unfold Duration_of_nanos, in_range. repeat case_match; [|done|]; time_unfold; lia.
Qed.
Lemma Timestamp_of_nanos_lower n : n < 0 → Timestamp_of_nanos n = Err LowerBound.
Proof. intros. unfold Timestamp_of_nanos, in_range. case_match; [done|]. time_unfold. lia. Qed.
Lemma Timestamp_of_nanos_upper n : (U32_MAX + 1) * NANOS ≤ n → Timestamp_of_nanos n = Err UpperBound.
Proof.
  intros. unfold Timestamp_of_nanos, in_range. repeat case_match; [|done|]; time_unfold; lia.
Qed.

(** ** Constructors *)

Lemma checked_signed_in w z : fits_signed w z → checked_signed w z = Some z.
Proof. intros. unfold checked_signed. by rewrite decide_True. Qed.
Lemma checked_signed_out w z : ¬ fits_signed w z → checked_signed w z = None.
Proof. intros. unfold checked_signed. by rewrite decide_False. Qed.
Lemma checked_unsigned_in w z : fits w z → checked_unsigned w z = Some z.
Proof. intros. unfold checked_unsigned. by rewrite decide_True. Qed.
Lemma checked_unsigned_out w z : ¬ fits w z → checked_unsigned w z = None.
Proof. intros. unfold checked_unsigned. by rewrite decide_False. Qed.

Lemma nsec_div nsec : fits 32 nsec → NANOS ≤ nsec →
  1 ≤ nsec / NANOS ≤ 4 ∧ 0 ≤ nsec `mod` NANOS < NANOS ∧
  nsec = NANOS * (nsec / NANOS) + nsec `mod` NANOS.
Proof.
  intros Hf Hn. pose proof (Z.div_mod nsec NANOS ltac:(unfold NANOS; lia)).
  pose proof (Z.mod_pos_bound nsec NANOS ltac:(unfold NANOS; lia)). time_unfold. lia.
Qed.

(** [Duration::new_checked] never panics (its [unreachable!] is one), and
    builds the duration whose total is that of its arguments, normalised, when
    that is in range, and [None] otherwise. *)
Theorem Duration_new_checked_spec {E} sec nsec :
  fits_signed 32 sec → fits 32 nsec →
  Duration_new_checked (E:=E) sec nsec = Ok (ok_of (Duration_of_nanos (sec * NANOS + nsec))).
Proof.
  intros Hs Hn. unfold Duration_new_checked, carry_i32, normalize_nsec.
  destruct (Z.ltb_spec nsec NANOS) as [Hlt|Hge].
  - cbn. erewrite Duration_of_nanos_eq; [done|done| |done]. time_unfold. lia.
  - destruct (nsec_div nsec Hn Hge) as (Hq & Hr & Heq).
    rewrite checked_signed_in by (time_unfold; lia). cbn.
    destruct (decide (fits_signed 32 (sec + nsec / NANOS))) as [Hin|Hout].
    + rewrite checked_signed_in by done. cbn.
      erewrite Duration_of_nanos_eq; [done|done|done|]. lia.
    + rewrite checked_signed_out by done. cbn. rewrite Duration_of_nanos_upper; [done|].
      time_unfold. lia.
Qed.

Theorem Timestamp_new_checked_spec sec nsec :
  fits 32 sec → fits 32 nsec →
  Timestamp_new_checked sec nsec = ok_of (Timestamp_of_nanos (sec * NANOS + nsec)).
Proof.
  intros Hs Hn. unfold Timestamp_new_checked, carry_u32, normalize_nsec.
  destruct (Z.ltb_spec nsec NANOS) as [Hlt|Hge].
  - cbn. erewrite Timestamp_of_nanos_eq; [done|done| |done]. time_unfold. lia.
  - destruct (nsec_div nsec Hn Hge) as (Hq & Hr & Heq).
    destruct (decide (fits 32 (sec + nsec / NANOS))) as [Hin|Hout].
    + rewrite checked_unsigned_in by done. cbn.
      erewrite Timestamp_of_nanos_eq; [done|done|done|]. lia.
    + rewrite checked_unsigned_out by done. cbn. rewrite Timestamp_of_nanos_upper; [done|].
      time_unfold. lia.
Qed.

(** The panicking constructors panic exactly out of range. *)
Lemma Duration_new_spec {E} sec nsec : fits_signed 32 sec → fits 32 nsec →
  Duration_new (E:=E) sec nsec = or_panic (ok_of (Duration_of_nanos (sec * NANOS + nsec))).
Proof. intros. unfold Duration_new. by rewrite Duration_new_checked_spec. Qed.
Lemma Timestamp_new_spec {E} sec nsec : fits 32 sec → fits 32 nsec →
  Timestamp_new (E:=E) sec nsec = or_panic (ok_of (Timestamp_of_nanos (sec * NANOS + nsec))).
Proof. intros. unfold Timestamp_new. by rewrite Timestamp_new_checked_spec. Qed.

Lemma Duration_of_nanos_Ok n d : Duration_of_nanos n = Ok d → dur_wf d ∧ dur_total d = n.
Proof.
  unfold Duration_of_nanos, in_range. repeat case_match; intros [= <-].
  pose proof (Z.div_mod n NANOS ltac:(unfold NANOS; lia)).
  pose proof (Z.mod_pos_bound n NANOS ltac:(unfold NANOS; lia)). time_unfold. lia.
Qed.
Lemma Timestamp_of_nanos_Ok n t : Timestamp_of_nanos n = Ok t → ts_wf t ∧ ts_total t = n.
Proof.
  unfold Timestamp_of_nanos, in_range. repeat case_match; intros [= <-].
  pose proof (Z.div_mod n NANOS ltac:(unfold NANOS; lia)).
  pose proof (Z.mod_pos_bound n NANOS ltac:(unfold NANOS; lia)). time_unfold. lia.
Qed.

(** ** Orders *)

Lemma lex_le_total s1 n1 s2 n2 : 0 ≤ n1 < NANOS → 0 ≤ n2 < NANOS →
  lex_le (s1, n1) (s2, n2) = (s1 * NANOS + n1 <=? s2 * NANOS + n2).
Proof.
  intros H1 H2. unfold lex_le. cbn [fst snd]. apply eq_bool_prop_intro.
  rewrite !Is_true_true, orb_true_iff, andb_true_iff, Z.ltb_lt, Z.eqb_eq, !Z.leb_le.
  unfold NANOS in *. lia.
Qed.

(** On normalised values the derived orders and equality are those of the
    total numbers of nanoseconds. *)
Theorem order_is_total :
  (∀ a b, dur_wf a → dur_wf b → Duration_le a b = (dur_total a <=? dur_total b) ∧
    (a = b ↔ dur_total a = dur_total b)) ∧
  (∀ a b, ts_wf a → ts_wf b → Timestamp_le a b = (ts_total a <=? ts_total b) ∧
    (a = b ↔ ts_total a = ts_total b)).
Proof.
  split; intros [s1 n1] [s2 n2] [_ H1] [_ H2]; (split; [by apply lex_le_total|]).
  all: split; [by intros ->|]; cbn in H1, H2; intros Ht; f_equal; time_unfold; lia.
Qed.

(** ** Conversions *)

Section conversions.
Context `{ChronoLaws}.

Lemma std_exact d : std_wf d → Duration_try_from_std d = Duration_of_nanos (std_nanos d).
Proof.
  intros [Hs Hn]. unfold Duration_try_from_std.
  destruct (decide (fits_signed 32 (as_secs d))) as [Hin|Hout].
  - rewrite checked_signed_in by done. symmetry. by apply Duration_of_nanos_eq.
  - rewrite checked_signed_out by done. symmetry. apply Duration_of_nanos_upper.
    unfold std_nanos. time_unfold. lia.
Qed.

Lemma system_exact time : Timestamp_try_from_system time = Timestamp_of_nanos time.
Proof.
  unfold Timestamp_try_from_system, duration_since_epoch.
  destruct (Z.ltb_spec time 0) as [Hlt|Hge].
  - symmetry. by apply Timestamp_of_nanos_lower.
  - cbn [as_secs subsec_nanos].
    pose proof (Z.div_mod time NANOS ltac:(unfold NANOS; lia)).
    pose proof (Z.mod_pos_bound time NANOS ltac:(unfold NANOS; lia)) as Hm.
    pose proof (Z.div_pos time NANOS Hge ltac:(unfold NANOS; lia)).
    destruct (decide (fits 32 (time / NANOS))) as [Hin|Hout].
    + rewrite checked_unsigned_in by done. rewrite Timestamp_new_spec; [|done|time_unfold; lia].
      erewrite !Timestamp_of_nanos_eq; [done|done..| |done|done|done]. lia.
    + rewrite checked_unsigned_out by done. symmetry. apply Timestamp_of_nanos_upper.
      time_unfold. lia.
Qed.

Lemma delta_exact (d : TimeDelta) :
  Duration_try_from_delta d = Duration_of_nanos (num_seconds d * NANOS + delta_subsec_nanos d).
Proof.
  unfold Duration_try_from_delta.
  pose proof (delta_subsec d) as Hsub. pose proof (delta_sign d) as Hsign.
  set (s := num_seconds d) in *. set (n := delta_subsec_nanos d) in *.
  destruct (decide (fits_signed 32 s)) as [Hin|Hout].
  - rewrite checked_signed_in by done. cbn zeta.
    destruct (Z.leb_spec 0 n) as [Hn|Hn].
    + rewrite checked_unsigned_in by (time_unfold; lia). cbn -[Duration_new].
      rewrite Duration_new_spec; [|done|time_unfold; lia].
      by rewrite !(Duration_of_nanos_eq _ s n) by (done || lia).
    + destruct (Z.eqb_spec s I32_MIN) as [Hmin|Hmin].
      { symmetry. apply Duration_of_nanos_lower. lia. }
      rewrite checked_signed_in by (time_unfold; lia). cbn -[Duration_new NANOS].
      rewrite checked_unsigned_in by (time_unfold; lia). cbn -[Duration_new NANOS].
      rewrite Duration_new_spec by (time_unfold; lia).
      by rewrite !(Duration_of_nanos_eq _ (s - 1) (n + NANOS)) by (time_unfold; lia).
  - rewrite checked_signed_out by done. cbn zeta. destruct (Z.ltb_spec 0 s).
    + symmetry. apply Duration_of_nanos_upper. time_unfold. lia.
    + symmetry. apply Duration_of_nanos_lower. time_unfold. lia.
Qed.

(** A [DateTime] in a leap second counts the second's excess nanoseconds; in
    the last second of the range this is a panic, and before the epoch it is
    out of range. *)
Lemma datetime_exact (t : DateTime) :
  Timestamp_try_from_datetime t =
    if bool_decide (NANOS ≤ timestamp_subsec_nanos t ∧ timestamp t = U32_MAX) then Panic
    else if bool_decide (NANOS ≤ timestamp_subsec_nanos t ∧ timestamp t = -1) then Err LowerBound
    else Timestamp_of_nanos (timestamp t * NANOS + timestamp_subsec_nanos t).
Proof.
  unfold Timestamp_try_from_datetime. pose proof (timestamp_subsec t) as Hsub.
  set (s := timestamp t) in *. set (n := timestamp_subsec_nanos t) in *.
  destruct (decide (fits 32 s)) as [Hin|Hout].
  - rewrite checked_unsigned_in by done. rewrite Timestamp_new_spec; [|done|time_unfold; lia].
    case_bool_decide as Hleap.
    { rewrite Timestamp_of_nanos_upper; [done|]. time_unfold. lia. }
    rewrite bool_decide_false by (time_unfold; lia).
    destruct (decide (n < NANOS)) as [Hn|Hn].
    + by rewrite !(Timestamp_of_nanos_eq _ s n) by (time_unfold; lia).
    + by rewrite !(Timestamp_of_nanos_eq _ (s + 1) (n - NANOS)) by (time_unfold; lia).
  - rewrite checked_unsigned_out by done. rewrite bool_decide_false by (time_unfold; lia).
    destruct (Z.ltb_spec 0 s).
    + rewrite bool_decide_false by lia. symmetry. apply Timestamp_of_nanos_upper. time_unfold. lia.
    + case_bool_decide; [done|]. symmetry. apply Timestamp_of_nanos_lower. time_unfold. lia.
Qed.
End conversions.

Lemma in_range_clamp lo hi n : lo ≤ hi →
  in_range lo hi n = if bool_decide (lo ≤ n ≤ hi) then Ok n
    else Err (if n <? lo then LowerBound else UpperBound).
Proof.
  intros. unfold in_range.
  destruct (Z.ltb_spec n lo), (Z.ltb_spec hi n); case_bool_decide; try done; lia.
Qed.

Lemma Duration_saturating_of {E} n : ∃ d,
  Duration_saturating (E:=E) (Duration_of_nanos n) = Ok d ∧ dur_wf d ∧
  dur_total d = clamp (dur_total Duration_MIN) (dur_total Duration_MAX) n.
Proof.
  destruct (Duration_of_nanos n) as [d|e|] eqn:Hn.
  - apply Duration_of_nanos_Ok in Hn as [Hwf <-]. exists d. split_and!; [done..|].
    unfold clamp. time_unfold. lia.
  - unfold Duration_of_nanos, in_range in Hn. repeat case_match; simplify_eq/=;
      (eexists; split_and!; [done| |]; [time_unfold; lia|]; unfold clamp; time_unfold; lia).
  - unfold Duration_of_nanos, in_range in Hn. by repeat case_match.
Qed.
Lemma Timestamp_saturating_of {E} n : ∃ t,
  Timestamp_saturating (E:=E) (Timestamp_of_nanos n) = Ok t ∧ ts_wf t ∧
  ts_total t = clamp (ts_total Timestamp_MIN) (ts_total Timestamp_MAX) n.
Proof.
  destruct (Timestamp_of_nanos n) as [d|e|] eqn:Hn.
  - apply Timestamp_of_nanos_Ok in Hn as [Hwf <-]. exists d. split_and!; [done..|].
    unfold clamp. time_unfold. lia.
  - unfold Timestamp_of_nanos, in_range in Hn. repeat case_match; simplify_eq/=;
      (eexists; split_and!; [done| |]; [time_unfold; lia|]; unfold clamp; time_unfold; lia).
  - unfold Timestamp_of_nanos, in_range in Hn. by repeat case_match.
Qed.

(** ** [f64] seconds *)

Section f64_secs.
Context (N : Z).
Hypothesis N_large : 1074 ≤ N.
Local Abbreviation S := (2 ^ N).

Lemma S_pos : 0 < S.
Proof. apply Z.pow_pos_nonneg; lia. Qed.

Lemma f64_of_Z_exact z : Z.abs z < 2 ^ 33 →
  scaled N (f64_of_Z z) ∧ sfval N (f64_of_Z z) = z * S.
Proof.
  intros Hz. destruct (normalize_between 53 1024 ltac:(lia) ltac:(lia) N 0 33 z 0 false z z)
    as [Hr Hv]; [lia|unfold fexp, emin; lia|unfold fexp, emin; lia|unfold fexp, emin; lia| | |].
  - rewrite Z.add_0_l, (Z.pow_add_r 2 33) by lia.
    apply Z.mul_lt_mono_pos_r; [apply S_pos|done].
  - rewrite Z.add_0_l. lia.
  - split; [done|]. unfold f64_of_Z. rewrite Z.add_0_l in Hv. lia.
Qed.

Lemma f64_compare_const secs z : valid_real 53 1024 secs = true →
  valid_real 53 1024 (f64_of_Z z) = true → Z.abs z < 2 ^ 33 →
  f64_lt secs (f64_of_Z z) = (sfval N secs <? z * S) ∧
  f64_ge secs (f64_of_Z z) = (z * S <=? sfval N secs).
Proof.
  intros Hs Hz Habs. destruct (f64_of_Z_exact z Habs) as [_ <-].
  unfold f64_lt, f64_ge, SFltb, SFleb, Z.ltb, Z.leb.
  rewrite !(SFcompare_real 53 1024 N) by (done || (unfold emin; lia)).
  by split; case_match.
Qed.

Lemma scaled_any x : valid_real 53 1024 x = true → scaled N x.
Proof. apply valid_scaled; unfold emin; lia. Qed.

(** An [as] cast truncates. *)
Lemma f64_as_spec M lo hi x : 0 ≤ M → lo ≤ 0 ≤ hi → scaled M x →
  f64_as lo hi x = clamp lo hi (sfval M x ÷ 2 ^ M).
Proof.
  intros HM Hb Hs. assert (0 < 2 ^ M) as HS by (apply Z.pow_pos_nonneg; lia).
  destruct x as [| | |s m e]; try done; cbn [scaled sfval f64_as] in *.
  { rewrite Z.quot_0_l by lia. unfold clamp. lia. }
  f_equal.
  assert ((if 0 <=? e then Zpos m * 2 ^ e else Zpos m / 2 ^ (- e)) = Zpos m * 2 ^ (e + M) ÷ 2 ^ M) as Ha.
  { rewrite Z.quot_div_nonneg; [|apply Z.mul_nonneg_nonneg; [lia|apply Z.pow_nonneg; lia]|done].
    destruct (Z.leb_spec 0 e).
    - rewrite Z.pow_add_r, Z.mul_assoc, Z.div_mul by lia. done.
    - replace M with (- e + (e + M)) at 2 by lia. rewrite (Z.pow_add_r 2 (- e)) by lia.
      assert (2 ^ (- e) ≠ 0) by (apply Z.pow_nonzero; lia).
      assert (2 ^ (e + M) ≠ 0) by (apply Z.pow_nonzero; lia).
      by rewrite Z.div_mul_cancel_r. }
  destruct s; cbn [cond_Zopp]; [|done]. rewrite Z.quot_opp_l by lia. lia.
Qed.

(** The fraction is exact. *)
Lemma frac_exact secs sec : valid_real 53 1024 secs = true → Z.abs (sfval N secs) < 2 ^ (33 + N) →
  sec = sfval N secs ÷ S →
  let fr := f64_sub secs (f64_of_Z sec) in
  scaled N fr ∧ sfval N fr = sfval N secs - sec * S.
Proof.
  intros Hv Hlt Hsec. cbn zeta. pose proof (scaled_any _ Hv) as Hsc. pose proof S_pos as HS.
  assert (Z.abs sec < 2 ^ 33) as Habs.
  { subst sec. rewrite Z.pow_add_r in Hlt by lia. rewrite <- Z.quot_abs by lia.
    rewrite (Z.abs_eq S) by lia. apply Z.quot_lt_upper_bound; lia. }
  destruct (f64_of_Z_exact sec Habs) as [Hk Hval].
  set (k := f64_of_Z sec) in *. unfold f64_sub.
  destruct secs as [s| | |s m e]; try done.
  - cbn [sfval] in *. rewrite Z.quot_0_l in Hsec by lia. subst sec.
    destruct (sub_between 53 1024 ltac:(lia) ltac:(lia) N 0 0 (S754_zero s) k 0 0)
      as [Hr Hb]; [done|done|unfold fexp, emin; lia..| | |].
    + cbn [sfval]. rewrite Hval. cbn. apply S_pos.
    + cbn [sfval]. rewrite Hval. lia.
    + split; [done|]. rewrite Z.mul_0_l in *. lia.
  - set (x := S754_finite s m e) in *. cbn [scaled x] in Hsc.
    assert (fexp 53 1024 (Zpos (digits2_pos m) + e) = e) as He.
    { apply andb_prop in Hv as [_ Hv]. apply andb_prop in Hv as [Hv _]. by apply Z.eqb_eq. }
    assert (0 < 2 ^ (e + N)) as HP by (apply Z.pow_pos_nonneg; lia).
    assert (Z.abs (sfval N x) = Zpos m * 2 ^ (e + N)) as Hxabs.
    { cbn [sfval x]. destruct s; cbn [cond_Zopp]; lia. }
    set (h := Zpos (digits2_pos m) + e) in *.
    assert (Z.abs (sfval N x) < 2 ^ (h + N)) as Hd.
    { replace (h + N) with (Zpos (digits2_pos m) + (e + N)) by (unfold h; lia).
      rewrite Hxabs, (Z.pow_add_r 2 (Zpos _)) by lia. destruct (digits2_bounds m) as [_ Hm].
      by apply Z.mul_lt_mono_pos_r. }
    assert (h ≤ 33) as Hh by (apply (digits2_le _ _ N); lia).
    assert (∃ K, sfval N x - sec * S = K * 2 ^ (e + N)) as [K HK].
    { cbn [sfval x] in Hsec |- *. destruct (decide (e ≤ 0)).
      - exists (cond_Zopp s (Zpos m) - sec * 2 ^ (- e)).
        assert (S = 2 ^ (- e) * 2 ^ (e + N)) as -> by (rewrite <- Z.pow_add_r by lia; f_equal; lia).
        destruct s; cbn [cond_Zopp]; lia.
      - exists 0. rewrite (Z.pow_add_r 2 e N) in * by lia. subst sec.
        assert (cond_Zopp s (Zpos m * (2 ^ e * S)) = cond_Zopp s (Zpos m) * 2 ^ e * S) as ->
          by (destruct s; cbn [cond_Zopp]; lia).
        rewrite Z.quot_mul by lia. lia. }
    assert (Z.abs (sfval N x - sec * S) < 2 ^ (h + N)) as Hlt2.
    { pose proof (Z.quot_rem (sfval N x) S ltac:(lia)) as Hqr. rewrite <- Hsec in Hqr.
      replace (sfval N x - sec * S) with (Z.rem (sfval N x) S) by lia.
      rewrite <- Z.rem_abs by lia. pose proof (Z.rem_le (Z.abs (sfval N x)) (Z.abs S)). lia. }
    destruct (sub_between 53 1024 ltac:(lia) ltac:(lia) N e h x k K K) as [Hr Hb];
      [done|done|unfold emin; lia|lia|lia|by rewrite Hval|rewrite Hval; lia|].
    split; [done|]. lia.
Qed.

(** The nanoseconds are the integer below or above the exact ones. *)
Lemma nsec_spec fr : scaled N fr → Z.abs (sfval N fr) < S →
  ∃ q, (∀ lo hi, lo ≤ 0 ≤ hi → f64_as lo hi (f64_mul fr (f64_of_Z NANOS)) = clamp lo hi q) ∧
    (∀ k, k * S ≤ sfval N fr * NANOS → k ≤ q) ∧ (∀ k, sfval N fr * NANOS ≤ k * S → q ≤ k).
Proof.
  intros Hfr Habs. pose proof S_pos as HS.
  destruct (f64_of_Z_exact NANOS ltac:(unfold NANOS; lia)) as [Hk Hval].
  set (v := sfval N fr) in *. set (p := v * NANOS).
  pose proof (Z.mul_div_le p S HS) as Hlo. pose proof (Z.mul_div_le (- p) S HS) as Hhi.
  assert (2 ^ (0 + (N + N)) = S * S) as E0 by (rewrite Z.add_0_l; apply Z.pow_add_r; lia).
  destruct (mul_between 53 1024 ltac:(lia) ltac:(lia) N N 0 30 fr (f64_of_Z NANOS)
    (p / S) (- (- p / S))) as [Hr Hb]; [done|done|lia|unfold fexp, emin; lia| | |].
  - rewrite Hval. fold v. replace (2 ^ (30 + (N + N))) with (2 ^ 30 * (S * S))
      by (rewrite !Z.pow_add_r by lia; lia).
    unfold NANOS. change (2 ^ 30) with 1073741824. nia.
  - rewrite E0, Hval. fold v. replace (v * (NANOS * S)) with (p * S) by (unfold p; lia). nia.
  - fold v in Hb. rewrite E0 in Hb. set (r := SFmul 53 1024 fr (f64_of_Z NANOS)) in *.
    exists (sfval (N + N) r ÷ (S * S)). split.
    { intros lo hi Hlh. unfold f64_mul. fold r. rewrite (f64_as_spec (N + N)) by (done || lia).
      by rewrite Z.pow_add_r by lia. }
    assert (0 < S * S) as HSS by lia.
    assert (p / S ≤ sfval (N + N) r ÷ (S * S) ≤ - (- p / S)) as Hq.
    { rewrite <- (Z.quot_mul (p / S) (S * S)), <- (Z.quot_mul (- (- p / S)) (S * S)) by lia.
      split; apply Z.quot_le_mono; lia. }
    split; intros k Hk'.
    + assert (k ≤ p / S) by (apply Z.div_le_lower_bound; lia). lia.
    + assert (- k ≤ - p / S) by (apply Z.div_le_lower_bound; lia). lia.
Qed.

(** From [2 ^ 30] on, the last place is at least [2 ^ -22]. *)
Lemma ulp_spec secs : valid_real 53 1024 secs = true → 2 ^ 30 * S ≤ sfval N secs →
  ∃ K, sfval N secs = K * 2 ^ (N - 22).
Proof.
  intros Hv Hge. pose proof (scaled_any _ Hv) as Hsc. pose proof S_pos as HS.
  destruct secs as [| | |[] m e]; try done; cbn [sfval cond_Zopp scaled] in *; [lia..| |].
  { pose proof (Z.pow_nonneg 2 (e + N)). lia. }
  apply andb_prop in Hv as [_ Hv]. apply andb_prop in Hv as [Hv _]. apply Z.eqb_eq in Hv.
  assert (30 < Zpos (digits2_pos m) + e) as Hd.
  { destruct (digits2_bounds m) as [_ Hm]. assert (0 < 2 ^ (e + N)) by (apply Z.pow_pos_nonneg; lia).
    assert (2 ^ (30 + N) < 2 ^ (Zpos (digits2_pos m) + (e + N))) as Hlt.
    { rewrite (Z.pow_add_r 2 30), (Z.pow_add_r 2 (Zpos _)) by lia. nia. }
    apply Z.pow_lt_mono_r_iff in Hlt; lia. }
  assert (- 22 ≤ e) by (unfold fexp, emin in Hv; lia).
  exists (Zpos m * 2 ^ (e + 22)). rewrite <- Z.mul_assoc, <- Z.pow_add_r by lia. do 2 f_equal. lia.
Qed.

(** Seconds and nanoseconds of [secs]: [q] is what the code computes. *)
Lemma split_spec secs : valid_real 53 1024 secs = true → Z.abs (sfval N secs) < 2 ^ (33 + N) →
  let v := sfval N secs in let sec := v ÷ S in
  ∃ q, (∀ lo hi, lo ≤ 0 ≤ hi → f64_as lo hi
      (f64_mul (f64_sub secs (f64_of_Z sec)) (f64_of_Z NANOS)) = clamp lo hi q) ∧
    Z.abs ((sec * NANOS + q) * S - v * NANOS) < S ∧
    (0 ≤ v → 0 ≤ q ≤ NANOS) ∧ (v ≤ 0 → - NANOS ≤ q ≤ 0) ∧ (q < 0 → v < sec * S) ∧
    (2 ^ 30 * S ≤ v → q < NANOS).
Proof.
  intros Hv Habs v sec. pose proof S_pos as HS.
  destruct (frac_exact secs sec Hv Habs eq_refl) as [Hfr Hfv]. fold v in Hfv.
  set (fr := f64_sub secs (f64_of_Z sec)) in *.
  pose proof (Z.quot_rem v S ltac:(lia)) as Hqr. fold sec in Hqr.
  pose proof (Z.rem_bound_abs v S ltac:(lia)) as Hrb.
  destruct (nsec_spec fr Hfr) as (q & Hq & Hlo & Hhi); [lia|]. rewrite Hfv in Hlo, Hhi.
  set (fv := v - sec * S) in *. exists q. split; [done|].
  pose proof (Z.mul_div_le (fv * NANOS) S HS) as Hf1.
  pose proof (Z.mul_div_le (- (fv * NANOS)) S HS) as Hf2.
  pose proof (Hlo (fv * NANOS / S) ltac:(lia)) as Hq1.
  pose proof (Hhi (- (- (fv * NANOS) / S)) ltac:(lia)) as Hq2.
  pose proof (Z.mod_pos_bound (fv * NANOS) S HS) as Hm1. rewrite Z.mod_eq in Hm1 by lia.
  pose proof (Z.mod_pos_bound (- (fv * NANOS)) S HS) as Hm2. rewrite Z.mod_eq in Hm2 by lia.
  split_and!.
  - replace ((sec * NANOS + q) * S - v * NANOS) with (q * S - fv * NANOS) by (unfold fv; lia).
    apply Z.abs_lt. nia.
  - intros Hpos. pose proof (Z.rem_nonneg v S ltac:(lia) Hpos). unfold NANOS in *.
    split; [apply Hlo|apply Hhi]; lia.
  - intros Hneg. pose proof (Z.rem_nonpos v S ltac:(lia) Hneg). unfold NANOS in *.
    split; [apply Hlo|apply Hhi]; lia.
  - intros Hneg. destruct (decide (fv < 0)); [lia|].
    assert (0 ≤ q); [|lia]. apply Hlo. unfold NANOS. lia.
  - intros Hlarge. destruct (ulp_spec secs Hv Hlarge) as [K HK]. fold v in HK.
    assert (S = 2 ^ 22 * 2 ^ (N - 22)) as HU by (rewrite <- Z.pow_add_r by lia; f_equal; lia).
    set (U := 2 ^ (N - 22)) in *. assert (0 < U) by (apply Z.pow_pos_nonneg; lia).
    change (2 ^ 22) with 4194304 in HU.
    assert (q ≤ NANOS - 1); [|lia]. apply Hhi.
    assert (fv < 4194304 * U) as Hlt by lia.
    assert (fv = (K - sec * 4194304) * U) as Efv by (unfold fv; lia).
    rewrite Efv in Hlt. apply Z.mul_lt_mono_pos_r in Hlt; [|done]. unfold NANOS. nia.
Qed.
End f64_secs.

Lemma quot_floor v S k : 0 < S → 0 ≤ v → k * S ≤ v < (k + 1) * S → v ÷ S = k.
Proof.
  intros HS Hv Hk. rewrite Z.quot_div_nonneg by lia. symmetry.
  apply Z.div_unique with (v - k * S); lia.
Qed.

Lemma secs_bounds v S a b : 0 < S → a ≤ 0 → 0 < b → a * S ≤ v < b * S → a ≤ v ÷ S < b.
Proof.
  intros HS Ha Hb Hv. split.
  - rewrite <- (Z.quot_mul a S) by lia. apply Z.quot_le_mono; lia.
  - destruct (decide (0 ≤ v)).
    + rewrite Z.quot_div_nonneg by lia. apply Z.div_lt_upper_bound; lia.
    + assert (v ÷ S ≤ 0); [|lia]. rewrite <- (Z.quot_0_l S) by lia. apply Z.quot_le_mono; lia.
Qed.

(** The normalisation at the end of [try_from_secs_f64]. *)
Lemma Duration_borrow sec q :
  I32_MIN ≤ sec ≤ I32_MAX → - NANOS ≤ q ≤ NANOS → (q < 0 → I32_MIN < sec) →
  (q = NANOS → sec < I32_MAX) →
  ∃ d, ('(sec, nsec) ←
      (if q <? 0 then
         sec ← or_panic (E:=RangeError) (checked_signed 32 (sec - 1));
         nsec ← or_panic (E:=RangeError) (checked_signed 32 (q + NANOS)); Ok (sec, nsec)
       else Ok (sec, q));
    nsec ← or_panic (checked_unsigned 32 nsec);
    Duration_new sec nsec) = Ok d ∧ dur_wf d ∧ dur_total d = sec * NANOS + q.
Proof.
  intros Hs Hq Hmin Hmax. destruct (Z.ltb_spec q 0) as [Hq0|Hq0].
  - specialize (Hmin Hq0). rewrite !checked_signed_in by (time_unfold; lia).
    cbn -[NANOS Duration_new]. rewrite checked_unsigned_in by (time_unfold; lia).
    cbn -[NANOS Duration_new]. rewrite Duration_new_spec by (time_unfold; lia).
    destruct (decide (q = - NANOS)) as [->|].
    + rewrite (Duration_of_nanos_eq _ (sec - 1) 0) by (time_unfold; lia).
      eexists. split_and!; [done|..]; time_unfold; lia.
    + rewrite (Duration_of_nanos_eq _ (sec - 1) (q + NANOS)) by (time_unfold; lia).
      eexists. split_and!; [done|..]; time_unfold; lia.
  - cbn -[NANOS Duration_new]. rewrite checked_unsigned_in by (time_unfold; lia).
    cbn -[NANOS Duration_new]. rewrite Duration_new_spec by (time_unfold; lia).
    destruct (decide (q = NANOS)) as [->|].
    + specialize (Hmax eq_refl). rewrite (Duration_of_nanos_eq _ (sec + 1) 0) by (time_unfold; lia).
      eexists. split_and!; [done|..]; time_unfold; lia.
    + rewrite (Duration_of_nanos_eq _ sec q) by (time_unfold; lia).
      eexists. split_and!; [done|..]; time_unfold; lia.
Qed.

Lemma sec_top v S k : 0 < S → 0 < k → v ÷ S = k → k * S ≤ v.
Proof.
  intros HS Hk Hv. destruct (decide (0 ≤ v)) as [|Hneg].
  - pose proof (Z.mul_quot_le v S ltac:(done) ltac:(lia)). lia.
  - assert (v ÷ S ≤ 0); [|lia]. rewrite <- (Z.quot_0_l S) by lia. apply Z.quot_le_mono; lia.
Qed.

Lemma Duration_secs_scaled N secs : 1074 ≤ N → valid_real 53 1024 secs = true →
  let v := sfval N secs in
  if v <? I32_MIN * 2 ^ N then Duration_try_from_secs_f64 secs = Err LowerBound
  else if (I32_MAX + 1) * 2 ^ N <=? v then Duration_try_from_secs_f64 secs = Err UpperBound
  else ∃ d, Duration_try_from_secs_f64 secs = Ok d ∧ dur_wf d ∧
    Z.abs (dur_total d * 2 ^ N - v * NANOS) < 2 ^ N.
Proof.
  intros HN Hv v. pose proof (S_pos N HN) as HS. unfold Duration_try_from_secs_f64.
  replace (f64_add (f64_of_Z I32_MAX) (f64_of_Z 1)) with (f64_of_Z (I32_MAX + 1))
    by (vm_compute; reflexivity).
  destruct (f64_compare_const N HN secs I32_MIN Hv) as [Hlow _]; [by vm_compute..|].
  destruct (f64_compare_const N HN secs (I32_MAX + 1) Hv) as [_ Hup]; [by vm_compute..|].
  rewrite Hlow, Hup. fold v. set (S := 2 ^ N) in *.
  destruct (Z.ltb_spec v (I32_MIN * S)) as [|Hge]; [done|].
  destruct (Z.leb_spec ((I32_MAX + 1) * S) v) as [|Hlt]; [done|].
  change I32_MIN with (-2147483648) in Hge. change (I32_MAX + 1) with 2147483648 in Hlt.
  destruct (split_spec N HN secs Hv) as (q & Hq & Herr & Hpos & Hneg & Hfr & Hmax).
  { rewrite Z.pow_add_r by lia. fold v S. change (2 ^ 33) with 8589934592. lia. }
  fold v S in Hq, Herr, Hpos, Hneg, Hfr, Hmax.
  pose proof (secs_bounds v S (-2147483648) 2147483648 HS ltac:(lia) ltac:(lia) ltac:(lia)) as Hsec.
  assert (f64_as_i32 secs = v ÷ S) as Hcast.
  { unfold f64_as_i32. rewrite (f64_as_spec N) by (done || lia || by apply (scaled_any N HN)).
    fold v S. unfold clamp, I32_MIN, I32_MAX. lia. }
  rewrite Hcast. cbn zeta. unfold f64_as_i32. rewrite Hq by done.
  pose proof (sec_top v S (v ÷ S) HS) as Htop. set (sec := v ÷ S) in *.
  assert (- NANOS ≤ q ≤ NANOS) as Hqb by (unfold NANOS in *; lia).
  assert (clamp I32_MIN I32_MAX q = q) as -> by (unfold clamp; time_unfold; lia).
  destruct (Duration_borrow sec q) as (d & Hd & Hwf & Ht); [time_unfold; lia|done|..].
  { unfold I32_MIN. intros. nia. }
  { intros ->. change (2 ^ 30) with 1073741824 in Hmax. unfold I32_MAX.
    destruct (decide (sec = 2147483647)); [|lia]. lia. }
  exists d. by rewrite Ht.
Qed.

(** C35: what every double becomes.  For a finite one, [Duration::try_from_secs_f64] neither panics nor
    loses more than a nanosecond: it is the bound error out of
    [[-2^31, 2^31)], and otherwise a normalised duration less than one
    nanosecond away from the exact value (a double is measured in units of
    [2 ^ -1074]); the infinities are the bound errors.  A NaN is neither below nor
    above the bounds, and becomes zero, although it is not representable. *)
Theorem Duration_try_from_secs_f64_spec secs :
  (valid_real 53 1024 secs = true →
   let v := sfval 1074 secs in
   if v <? I32_MIN * 2 ^ 1074 then Duration_try_from_secs_f64 secs = Err LowerBound
   else if (I32_MAX + 1) * 2 ^ 1074 <=? v then Duration_try_from_secs_f64 secs = Err UpperBound
   else ∃ d, Duration_try_from_secs_f64 secs = Ok d ∧ dur_wf d ∧
     Z.abs (dur_total d * 2 ^ 1074 - v * NANOS) < 2 ^ 1074) ∧
  Duration_try_from_secs_f64 (S754_infinity true) = Err LowerBound ∧
  Duration_try_from_secs_f64 (S754_infinity false) = Err UpperBound ∧
  Duration_try_from_secs_f64 S754_nan = Ok {| dur_sec := 0; dur_nsec := 0 |}.
Proof. split_and!; [by apply Duration_secs_scaled|by vm_compute..]. Qed.

Lemma Timestamp_secs_scaled N secs : 1074 ≤ N → valid_real 53 1024 secs = true →
  let v := sfval N secs in
  if v <? 0 then Timestamp_try_from_epoch_secs_f64 secs = Err LowerBound
  else if (U32_MAX + 1) * 2 ^ N <=? v then Timestamp_try_from_epoch_secs_f64 secs = Err UpperBound
  else ∃ t, Timestamp_try_from_epoch_secs_f64 secs = Ok t ∧ ts_wf t ∧
    Z.abs (ts_total t * 2 ^ N - v * NANOS) < 2 ^ N.
Proof.
  intros HN Hv v. pose proof (S_pos N HN) as HS. unfold Timestamp_try_from_epoch_secs_f64.
  replace (f64_add (f64_of_Z U32_MAX) (f64_of_Z 1)) with (f64_of_Z (U32_MAX + 1))
    by (vm_compute; reflexivity).
  destruct (f64_compare_const N HN secs 0 Hv) as [Hlow _]; [by vm_compute..|].
  destruct (f64_compare_const N HN secs (U32_MAX + 1) Hv) as [_ Hup]; [by vm_compute..|].
  rewrite Hlow, Hup, Z.mul_0_l. fold v. set (S := 2 ^ N) in *.
  destruct (Z.ltb_spec v 0) as [|Hge]; [done|].
  destruct (Z.leb_spec ((U32_MAX + 1) * S) v) as [|Hlt]; [done|].
  change (U32_MAX + 1) with 4294967296 in Hlt.
  destruct (split_spec N HN secs Hv) as (q & Hq & Herr & Hpos & Hneg & Hfr & Hmax).
  { rewrite Z.pow_add_r by lia. fold v S. change (2 ^ 33) with 8589934592. lia. }
  fold v S in Hq, Herr, Hpos, Hneg, Hfr, Hmax.
  pose proof (secs_bounds v S 0 4294967296 HS ltac:(lia) ltac:(lia) ltac:(lia)) as Hsec.
  assert (f64_as_u32 secs = v ÷ S) as Hcast.
  { unfold f64_as_u32. rewrite (f64_as_spec N) by (done || lia || by apply (scaled_any N HN)).
    fold v S. unfold clamp, U32_MAX. lia. }
  rewrite Hcast. cbn zeta. unfold f64_as_u32. rewrite Hq by done.
  pose proof (sec_top v S (v ÷ S) HS) as Htop. set (sec := v ÷ S) in *.
  assert (0 ≤ q ≤ NANOS) as Hqb by (apply Hpos; lia).
  assert (clamp 0 U32_MAX q = q) as -> by (unfold clamp; time_unfold; lia).
  rewrite Timestamp_new_spec by (time_unfold; lia).
  destruct (decide (q = NANOS)) as [->|].
  - change (2 ^ 30) with 1073741824 in Hmax.
    assert (sec ≠ 4294967295) by (intros Es; rewrite Es in Htop; lia).
    rewrite (Timestamp_of_nanos_eq _ (sec + 1) 0) by (time_unfold; lia).
    eexists. split_and!; [done|time_unfold; lia..|]. unfold ts_total; cbn [ts_sec ts_nsec].
    by replace ((sec + 1) * NANOS + 0) with (sec * NANOS + NANOS) by lia.
  - rewrite (Timestamp_of_nanos_eq _ sec q) by (time_unfold; lia).
    eexists. split_and!; [done|time_unfold; lia..|done].
Qed.

(** The same for [Timestamp::try_from_epoch_secs_f64] and the range
    [[0, 2^32)]. *)
Theorem Timestamp_try_from_epoch_secs_f64_spec secs :
  (valid_real 53 1024 secs = true →
   let v := sfval 1074 secs in
   if v <? 0 then Timestamp_try_from_epoch_secs_f64 secs = Err LowerBound
   else if (U32_MAX + 1) * 2 ^ 1074 <=? v then
     Timestamp_try_from_epoch_secs_f64 secs = Err UpperBound
   else ∃ t, Timestamp_try_from_epoch_secs_f64 secs = Ok t ∧ ts_wf t ∧
     Z.abs (ts_total t * 2 ^ 1074 - v * NANOS) < 2 ^ 1074) ∧
  Timestamp_try_from_epoch_secs_f64 (S754_infinity true) = Err LowerBound ∧
  Timestamp_try_from_epoch_secs_f64 (S754_infinity false) = Err UpperBound.
Proof. split_and!; [by apply Timestamp_secs_scaled|by vm_compute..]. Qed.

(** A NaN passes both range checks, and becomes zero. *)
Theorem secs_f64_nan :
  Duration_try_from_secs_f64 S754_nan = Ok {| dur_sec := 0; dur_nsec := 0 |} ∧
  Timestamp_try_from_epoch_secs_f64 S754_nan = Ok {| ts_sec := 0; ts_nsec := 0 |}.
Proof. by split; vm_compute. Qed.

(** ** Totals and protobuf *)

(** [total_nanos] fits 64 bits, even when [nsec] is not normalised. *)
Theorem total_nanos_ok {E} t : fits 32 (ts_sec t) → fits 32 (ts_nsec t) →
  total_nanos (E:=E) t = Ok (ts_total t).
Proof.
  intros Hs Hn. unfold total_nanos. rewrite checked_unsigned_in by (time_unfold; lia).
  cbn -[NANOS]. by rewrite checked_unsigned_in by (time_unfold; lia).
Qed.

Lemma nanoseconds_since_epoch_ok {E} now : now < 2 ^ 64 →
  nanoseconds_since_epoch (E:=E) now = Ok (Z.max 0 now).
Proof.
  intros Hn. unfold nanoseconds_since_epoch, duration_since_epoch.
  destruct (Z.ltb_spec now 0) as [|Hge]; [f_equal; lia|]. cbn [as_secs subsec_nanos].
  pose proof (Z.div_mod now NANOS ltac:(unfold NANOS; lia)) as Hdm.
  pose proof (Z.mod_pos_bound now NANOS ltac:(unfold NANOS; lia)).
  pose proof (Z.div_pos now NANOS Hge ltac:(unfold NANOS; lia)).
  rewrite checked_unsigned_in by (time_unfold; lia). cbn -[NANOS].
  rewrite checked_unsigned_in by (time_unfold; lia). cbn. f_equal. lia.
Qed.

(** The conversion to protobuf's types keeps the fields, and panics on the
    unnormalised nanoseconds that deserialisation may produce, from [2 ^ 31]. *)
Theorem prost_of_spec {E} :
  (∀ d, fits 32 (dur_nsec d) → prost_of_Duration (E:=E) d =
    if dur_nsec d <? 2 ^ 31 then Ok {| seconds := dur_sec d; nanos := dur_nsec d |} else Panic) ∧
  (∀ t, fits 32 (ts_nsec t) → prost_of_Timestamp (E:=E) t =
    if ts_nsec t <? 2 ^ 31 then Ok {| seconds := ts_sec t; nanos := ts_nsec t |} else Panic).
Proof.
  split; intros [s n] Hn; cbn in Hn |- *; unfold prost_of_Duration, prost_of_Timestamp, prost_nanos;
    cbn [dur_nsec ts_nsec dur_sec ts_sec].
  all: destruct (Z.ltb_spec n (2 ^ 31));
    [rewrite checked_signed_in by (time_unfold; lia)|rewrite checked_signed_out by (time_unfold; lia)];
    done.
Qed.

(** ** All conversions against their reference *)

Section reference.
Context `{ChronoLaws}.

(** Every conversion from another representation of time is the reference
    conversion of its total number of nanoseconds: exact, normalised and with
    the right bound error, for the standard library's durations and system
    times, chrono's deltas, and chrono's times outside leap seconds. *)
Theorem conversions_exact :
  (∀ d, std_wf d → Duration_try_from_std d = Duration_of_nanos (std_nanos d)) ∧
  (∀ time, Timestamp_try_from_system time = Timestamp_of_nanos time) ∧
  (∀ d : TimeDelta, Duration_try_from_delta d =
    Duration_of_nanos (num_seconds d * NANOS + delta_subsec_nanos d)) ∧
  (∀ t : DateTime, timestamp_subsec_nanos t < NANOS → Timestamp_try_from_datetime t =
    Timestamp_of_nanos (timestamp t * NANOS + timestamp_subsec_nanos t)).
Proof.
  split_and!; [apply std_exact|apply system_exact|apply delta_exact|].
  intros t Ht. rewrite datetime_exact. by rewrite !bool_decide_false by lia.
Qed.

(** In a leap second the conversion still counts the excess nanoseconds, except
    at the ends of the range: the last second's panics. *)
Theorem datetime_leap_second (t : DateTime) : NANOS ≤ timestamp_subsec_nanos t →
  (timestamp t = U32_MAX → Timestamp_try_from_datetime t = Panic) ∧
  (0 ≤ timestamp t < U32_MAX → ∃ ts, Timestamp_try_from_datetime t = Ok ts ∧ ts_wf ts ∧
     ts_total ts = timestamp t * NANOS + timestamp_subsec_nanos t).
Proof.
  intros Hl. rewrite datetime_exact. split; intros Ht.
  - by rewrite bool_decide_true by done.
  - rewrite !bool_decide_false by lia. pose proof (timestamp_subsec t).
    rewrite (Timestamp_of_nanos_eq _ (timestamp t + 1) (timestamp_subsec_nanos t - NANOS))
      by (time_unfold; lia).
    eexists. split_and!; [done|time_unfold; lia..].
Qed.

(** The saturating conversions never fail: the result is normalised, and its
    total is the source's, clamped to the range. *)
Theorem saturating_clamps {E} :
  (∀ d, std_wf d → ∃ r, Duration_saturating (E:=E) (Duration_try_from_std d) = Ok r ∧ dur_wf r ∧
    dur_total r = clamp (dur_total Duration_MIN) (dur_total Duration_MAX) (std_nanos d)) ∧
  (∀ d : TimeDelta, ∃ r,
    Duration_saturating (E:=E) (Duration_try_from_delta d) = Ok r ∧ dur_wf r ∧
    dur_total r = clamp (dur_total Duration_MIN) (dur_total Duration_MAX)
      (num_seconds d * NANOS + delta_subsec_nanos d)) ∧
  (∀ time, ∃ r,
    Timestamp_saturating (E:=E) (Timestamp_try_from_system time) = Ok r ∧ ts_wf r ∧
    ts_total r = clamp (ts_total Timestamp_MIN) (ts_total Timestamp_MAX) time).
Proof.
  split_and!; intros d; [intros Hd; rewrite std_exact by done|rewrite delta_exact|rewrite system_exact];
    apply Duration_saturating_of || apply Timestamp_saturating_of.
Qed.
End reference.

(** ** An instance of chrono, and witnesses *)

Definition Chrono_nanos : Chrono := {|
  TimeDelta := Z;
  num_seconds := λ d, d ÷ NANOS;
  delta_subsec_nanos := λ d, Z.rem d NANOS;
  DateTime := Z;
  timestamp := λ t, t / NANOS;
  timestamp_subsec_nanos := λ t, t `mod` NANOS
|}.

Lemma Chrono_nanos_laws : @ChronoLaws Chrono_nanos.
Proof.
  split; cbn.
  - intros d. pose proof (Z.rem_bound_abs d NANOS ltac:(unfold NANOS; lia)).
    unfold NANOS in *. lia.
  - intros d. pose proof (Z.quot_rem d NANOS ltac:(unfold NANOS; lia)).
    pose proof (Z.rem_bound_abs d NANOS ltac:(unfold NANOS; lia)).
    destruct (decide (0 ≤ d)).
    + pose proof (Z.rem_nonneg d NANOS ltac:(unfold NANOS; lia)). unfold NANOS in *. lia.
    + pose proof (Z.rem_nonpos d NANOS ltac:(unfold NANOS; lia)). unfold NANOS in *. lia.
  - intros t. pose proof (Z.mod_pos_bound t NANOS ltac:(unfold NANOS; lia)).
    unfold NANOS in *. lia.
Qed.

(** 2.5 seconds before the epoch, as a delta; the doc's examples. *)
Lemma conversions_exact_witness :
  @Duration_try_from_delta Chrono_nanos (-2500000000) = Duration_of_nanos (-2500000000) ∧
  Duration_of_nanos (-2500000000) = Ok {| dur_sec := -3; dur_nsec := 500000000 |}.
Proof.
  split; [|vm_compute; reflexivity].
  exact (proj1 (proj2 (proj2 (@conversions_exact Chrono_nanos Chrono_nanos_laws))) (-2500000000)).
Defined.

Lemma saturating_clamps_witness :
  ∃ r, Duration_saturating (E:=unit) (Duration_try_from_std
      {| as_secs := 2 ^ 64 - 1; subsec_nanos := 0 |}) = Ok r ∧ dur_wf r ∧
    dur_total r = clamp (dur_total Duration_MIN) (dur_total Duration_MAX) ((2 ^ 64 - 1) * NANOS + 0).
Proof.
  apply (proj1 (@saturating_clamps Chrono_nanos Chrono_nanos_laws unit)
    {| as_secs := 2 ^ 64 - 1; subsec_nanos := 0 |}).
  unfold std_wf; cbn [as_secs subsec_nanos]; time_unfold; lia.
Defined.

Lemma Duration_new_checked_spec_witness :
  Duration_new_checked (E:=unit) (-1) 2500000000 = Ok (Some {| dur_sec := 1; dur_nsec := 500000000 |}).
Proof.
  refine (Duration_new_checked_spec (E:=unit) (-1) 2500000000 _ _); time_unfold; lia.
Defined.

Lemma order_is_total_witness :
  Duration_le {| dur_sec := -1; dur_nsec := 500000000 |} {| dur_sec := 0; dur_nsec := 0 |} = true.
Proof.
  refine (proj1 (proj1 order_is_total {| dur_sec := -1; dur_nsec := 500000000 |}
    {| dur_sec := 0; dur_nsec := 0 |} _ _)); time_unfold; lia.
Defined.

(** -0.25 is [-1 * 2 ^ -2]. *)
Lemma Duration_try_from_secs_f64_spec_witness :
  let secs := binary_normalize 53 1024 (-1) (-2) false in
  valid_real 53 1024 secs = true ∧
  (∃ d, Duration_try_from_secs_f64 secs = Ok d ∧ dur_wf d ∧
     Z.abs (dur_total d * 2 ^ 1074 - sfval 1074 secs * NANOS) < 2 ^ 1074) ∧
  Duration_try_from_secs_f64 secs = Ok {| dur_sec := -1; dur_nsec := 750000000 |}.
Proof.
  split_and!; [vm_compute; reflexivity| |vm_compute; reflexivity].
  exact (proj1 (Duration_try_from_secs_f64_spec (binary_normalize 53 1024 (-1) (-2) false)) eq_refl).
Defined.

Lemma Timestamp_try_from_epoch_secs_f64_spec_witness :
  let secs := binary_normalize 53 1024 (2 ^ 53 - 1) (-21) false in
  valid_real 53 1024 secs = true ∧
  (∃ t, Timestamp_try_from_epoch_secs_f64 secs = Ok t ∧ ts_wf t ∧
     Z.abs (ts_total t * 2 ^ 1074 - sfval 1074 secs * NANOS) < 2 ^ 1074) ∧
  Timestamp_try_from_epoch_secs_f64 secs = Ok {| ts_sec := U32_MAX; ts_nsec := 999999523 |}.
Proof.
  split_and!; [vm_compute; reflexivity| |vm_compute; reflexivity].
  exact (proj1 (Timestamp_try_from_epoch_secs_f64_spec
    (binary_normalize 53 1024 (2 ^ 53 - 1) (-21) false)) eq_refl).
Defined.
