(* ===== verification/Image.v ===== *)
(** * Image: raw images and their conversion to YUV 4:2:0

    `img2yuv/mod.rs`, `img2yuv/raw.rs`, `img2yuv/raw/helpers.rs`,
    `img2yuv/compressed.rs`: the destination buffers with their validation, the
    raw encodings, the pixel iterators, Bayer demosaicing, the repacking of
    packed YUV 4:2:2, and the luma of monochrome images in 32-bit floats.

    The trait [Yuv420Buffer] is a class with laws, implemented by [Yuv420Vec];
    the `yuv` and `image` crates are parameters.  An index or a length
    ([usize]) is a [nat]: products of two [u32] fit 64 bits, so the only
    operations that could leave the range are subtractions, which are
    checked.  A [u32] is a [Z]. *)

From S2P Require Import Prelude Bytes Floats.

(** ** Errors *)

Inductive Error {YuvError ImageError : Type} :=
| ZeroSized
| StrideTooSmall (which : string) (stride : Z) (row_size : nat)
| BufferTooSmall (which : string) (actual expect : nat)
| DimensionMismatch (which : string) (expect actual : Z * Z)
| DimensionsTooLargeForU32
| BayerDimensionsMustBeEven (width height : Z)
| Yuv422WidthMustBeEven (width : Z)
| ReadDimensions (e : ImageError)
| Decompress (e : ImageError)
| ConvertToYuv420 (e : YuvError).
Arguments Error : clear implicits.

(** ** [Yuv420Buffer] *)

Definition planes : Type := list byte * list byte * list byte.

(** [yuv] panics ([None]) when the planes cannot be cut out of the buffer;
    [set_yuv] is what is written through the slices of [yuv_mut]. *)
Class Yuv420Buffer (T : Type) := {
  dimensions : T → Z * Z;
  yuv : T → option planes;
  set_yuv : planes → T → T;
  yuv_strides : T → Z * Z * Z
}.

Definition same_sizes (p q : planes) : Prop :=
  length p.1.1 = length q.1.1 ∧ length p.1.2 = length q.1.2 ∧ length p.2 = length q.2.

Class Yuv420BufferLaws (T : Type) `{Yuv420Buffer T} : Prop := {
  yuv_set : ∀ t p q, yuv t = Some p → same_sizes p q → yuv (set_yuv q t) = Some q;
  dimensions_set : ∀ t p, dimensions (set_yuv p t) = dimensions t;
  strides_set : ∀ t p, yuv_strides (set_yuv p t) = yuv_strides t
}.

(** A [for] loop with an early return of an error. *)
Fixpoint try_each {A E} (f : A → result E unit) (l : list A) : result E unit :=
  match l with
  | [] => Ok tt
  | x :: l => f x ≫= λ _, try_each f l
  end.

Section buffer.
Context {T YE IE : Type} `{Yuv420Buffer T}.

Definition validate (dst : T) : result (Error YE IE) unit :=
  let '(width, height) := dimensions dst in
  let '(y_stride, u_stride, v_stride) := yuv_strides dst in
  let width := Z.to_nat width in
  let height := Z.to_nat height in
  try_each (λ '(which, stride, row_size),
      ensure (negb (bool_decide (Z.to_nat stride < row_size))) (StrideTooSmall which stride row_size))
    [("y", y_stride, width); ("u", u_stride, width `div` 2); ("v", v_stride, width `div` 2)]%string%nat
  ≫= λ _,
  '(y, u, v) ← or_panic (yuv dst);
  try_each (λ '(which, actual, expect),
      ensure (negb (bool_decide (actual < expect))) (BufferTooSmall which actual expect))
    [("y", length y, Z.to_nat y_stride * height);
     ("u", length u, (Z.to_nat u_stride * height) `div` 2);
     ("v", length v, (Z.to_nat v_stride * height) `div` 2)]%string%nat.

Definition validate_dst_dimensions (dst : T) (width height : Z) : result (Error YE IE) unit :=
  if negb (bool_decide (dimensions dst = (width, height))) then
    Err (DimensionMismatch "Yuv420Buffer" (width, height) (dimensions dst))
  else validate dst.
End buffer.

(** *** [Yuv420Vec] *)

Record Yuv420Vec := { yv_data : list byte; yv_width : Z; yv_height : Z }.

Definition Yuv420Vec_new {E} (width height : Z) : result E Yuv420Vec :=
  if (width `mod` 2 =? 0)%Z && (height `mod` 2 =? 0)%Z then
    let len := (Z.to_nat width * Z.to_nat height) `div` 2 * 3 in
    Ok {| yv_data := replicate len Byte.x00; yv_width := width; yv_height := height |}
  else Panic.

(** [split_at] panics past the end. *)
Definition split_at {A} (n : nat) (l : list A) : option (list A * list A) :=
  if decide (n ≤ length l) then Some (take n l, drop n l) else None.

Definition Yuv420Vec_yuv (b : Yuv420Vec) : option planes :=
  let ylen := Z.to_nat (yv_width b) * Z.to_nat (yv_height b) in
  let ulen := ylen `div` 4 in
  '(y, uv) ← split_at ylen (yv_data b);
  '(u, v) ← split_at ulen uv;
  Some (y, u, v).

#[export] Instance Yuv420Vec_buffer : Yuv420Buffer Yuv420Vec := {|
  dimensions b := (yv_width b, yv_height b);
  yuv := Yuv420Vec_yuv;
  set_yuv p b := {| yv_data := p.1.1 ++ p.1.2 ++ p.2; yv_width := yv_width b;
                    yv_height := yv_height b |};
  yuv_strides b := (yv_width b, yv_width b / 2, yv_width b / 2)%Z
|}.

(** ** Raw images *)

Inductive Endian := Little | Big.
Inductive BayerCfa := Bggr | Gbrg | Grbg | Rggb.
Inductive RawImageEncoding :=
| Rgb8 | Rgba8 | Bgr8 | Bgra8 | Mono8
| Mono16 (endian : Endian) | Mono32F (endian : Endian)
| Uyvy | Yuyv
| Bayer8 (cfa : BayerCfa).

Definition parse_endian (s : string) (endian : Endian) : option RawImageEncoding :=
  if String.eqb s "rgb8" then Some Rgb8
  else if String.eqb s "rgba8" then Some Rgba8
  else if String.eqb s "bgr8" || String.eqb s "8UC3" then Some Bgr8
  else if String.eqb s "bgra8" then Some Bgra8
  else if String.eqb s "yuv422" || String.eqb s "uyvy" then Some Uyvy
  else if String.eqb s "yuv422_yuy2" || String.eqb s "yuyv" then Some Yuyv
  else if String.eqb s "mono8" || String.eqb s "8UC1" then Some Mono8
  else if String.eqb s "mono16" || String.eqb s "16UC1" then Some (Mono16 endian)
  else if String.eqb s "32FC1" then Some (Mono32F endian)
  else if String.eqb s "bayer_bggr8" then Some (Bayer8 Bggr)
  else if String.eqb s "bayer_gbrg8" then Some (Bayer8 Gbrg)
  else if String.eqb s "bayer_grbg8" then Some (Bayer8 Grbg)
  else if String.eqb s "bayer_rggb8" then Some (Bayer8 Rggb)
  else None.

Definition bytes_per_pixel (e : RawImageEncoding) : nat :=
  match e with
  | Mono8 | Bayer8 _ => 1
  | Yuyv | Uyvy | Mono16 _ => 2
  | Rgb8 | Bgr8 => 3
  | Rgba8 | Bgra8 | Mono32F _ => 4
  end.

Definition is_subsampled (e : RawImageEncoding) : bool :=
  match e with Bayer8 _ | Uyvy | Yuyv => true | _ => false end.

Record RawImage := {
  encoding : RawImageEncoding;
  width : Z;
  height : Z;
  stride : Z;
  data : list byte
}.

Definition is_even (z : Z) : bool := (z `mod` 2 =? 0)%Z.

Definition validate_dimensions {YE IE} (im : RawImage) : result (Error YE IE) unit :=
  if (width im =? 0)%Z || (height im =? 0)%Z then Err ZeroSized
  else
    let row_size := Z.to_nat (width im) * bytes_per_pixel (encoding im) in
    if bool_decide (Z.to_nat (stride im) < row_size) then
      Err (StrideTooSmall "RawImage" (stride im) row_size)
    else
      let expect := Z.to_nat (height im) * Z.to_nat (stride im) in
      if bool_decide (length (data im) < expect) then
        Err (BufferTooSmall "RawImage" (length (data im)) expect)
      else
        match encoding im, is_even (width im), is_even (height im) with
        | Bayer8 _, w, h =>
          if negb (w && h) then Err (BayerDimensionsMustBeEven (width im) (height im)) else Ok tt
        | (Uyvy | Yuyv), false, _ => Err (Yuv422WidthMustBeEven (width im))
        | _, _, _ => Ok tt
        end.

(** ** The pixel iterators *)

Record Pixels := {
  px_data : list byte; px_width : nat; px_height : nat; px_stride : nat;
  px_row : nat; px_col : nat
}.

(** [&data[pos..pos + n]] and its panic; [usize] subtraction and its panic. *)
Definition slice {E} (pos n : nat) (l : list byte) : result E (list byte) :=
  if decide (pos + n ≤ length l) then Ok (take n (drop pos l)) else Panic.
Definition index {E} (pos : nat) (l : list byte) : result E byte := or_panic (l !! pos).
Definition usize_sub {E} (a b : nat) : result E nat :=
  if decide (b ≤ a) then Ok (a - b) else Panic.

Definition Pixels_new (im : RawImage) : Pixels :=
  {| px_data := data im; px_width := Z.to_nat (width im); px_height := Z.to_nat (height im);
     px_stride := Z.to_nat (stride im); px_row := 0; px_col := 0 |}.

Definition Pixels_next {E} (N : nat) (s : Pixels) : result E (option (list byte * Pixels)) :=
  if decide (px_row s = px_height s) then Ok None
  else
    let pos := px_row s * px_stride s + px_col s * N in
    last ← usize_sub (px_width s) 1;
    let '(row, col) := if decide (px_col s = last) then (S (px_row s), 0)
                       else (px_row s, S (px_col s)) in
    p ← slice pos N (px_data s);
    Ok (Some (p, {| px_data := px_data s; px_width := px_width s; px_height := px_height s;
                    px_stride := px_stride s; px_row := row; px_col := col |})).

(** [pixels::<N>()] with its debug assertions. *)
Definition pixels {E} (N : nat) (im : RawImage) : result E Pixels :=
  if negb (is_subsampled (encoding im)) && bool_decide (bytes_per_pixel (encoding im) = N)
  then Ok (Pixels_new im) else Panic.

Record BayerPixel := { bp_r : byte; bp_g0 : byte; bp_g1 : byte; bp_b : byte; bp_row : nat; bp_col : nat }.
Record Bayer8Pixels := {
  b8_data : list byte; b8_cfa : BayerCfa; b8_width : nat; b8_height : nat; b8_stride : nat;
  b8_row : nat; b8_col : nat
}.

Definition Bayer8Pixels_new {YE IE} (im : RawImage) (cfa : BayerCfa) :
    result (Error YE IE) Bayer8Pixels :=
  if negb (is_even (width im)) || negb (is_even (height im)) then
    Err (BayerDimensionsMustBeEven (width im) (height im))
  else Ok {| b8_data := data im; b8_cfa := cfa; b8_width := Z.to_nat (width im);
    b8_height := Z.to_nat (height im); b8_stride := Z.to_nat (stride im); b8_row := 0; b8_col := 0 |}.

(** The order of the color filter array: red, the two greens and blue of the
    four bytes of a 2x2 region. *)
Definition cfa_order (cfa : BayerCfa) (v0 v1 v2 v3 : byte) : byte * byte * byte * byte :=
  match cfa with
  | Bggr => (v3, v1, v2, v0)
  | Gbrg => (v2, v0, v3, v1)
  | Grbg => (v1, v0, v3, v2)
  | Rggb => (v0, v1, v2, v3)
  end.

Definition Bayer8Pixels_next {E} (s : Bayer8Pixels) : result E (option (BayerPixel * Bayer8Pixels)) :=
  if decide (b8_row s = b8_height s) then Ok None
  else
    let r0 := b8_row s * b8_stride s + b8_col s in
    let r1 := r0 + b8_stride s in
    v0 ← index r0 (b8_data s);
    v1 ← index (S r0) (b8_data s);
    v2 ← index r1 (b8_data s);
    v3 ← index (S r1) (b8_data s);
    let '(r, g0, g1, b) := cfa_order (b8_cfa s) v0 v1 v2 v3 in
    let pixel := {| bp_r := r; bp_g0 := g0; bp_g1 := g1; bp_b := b;
                    bp_row := b8_row s; bp_col := b8_col s |} in
    last ← usize_sub (b8_width s) 2;
    let '(row, col) := if decide (b8_col s = last) then (b8_row s + 2, 0)
                       else (b8_row s, b8_col s + 2) in
    Ok (Some (pixel, {| b8_data := b8_data s; b8_cfa := b8_cfa s; b8_width := b8_width s;
                        b8_height := b8_height s; b8_stride := b8_stride s;
                        b8_row := row; b8_col := col |})).

(** [bayer8_pixels] is only called on a Bayer image. *)
Definition bayer8_pixels {YE IE} (im : RawImage) : result (Error YE IE) Bayer8Pixels :=
  match encoding im with
  | Bayer8 cfa => Bayer8Pixels_new im cfa
  | _ => Panic
  end.

(** [Result::expect]. *)
Definition expect {E E' A} (r : result E A) : result E' A :=
  match r with Ok a => Ok a | _ => Panic end.

(** Everything an iterator yields. *)
Fixpoint collect {E A S} (next : S → result E (option (A * S))) (fuel : nat) (s : S) :
    result E (list A) :=
  match fuel with
  | O => Panic
  | Datatypes.S fuel =>
    o ← next s;
    match o with
    | None => Ok []
    | Some (x, s) => xs ← collect next fuel s; Ok (x :: xs)
    end
  end.

(** [data[pos..pos + len].copy_from_slice(src)], which panics out of range. *)
Definition copy_from_slice {E} (pos : nat) (src dst : list byte) : result E (list byte) :=
  if decide (pos + length src ≤ length dst)
  then Ok (take pos dst ++ src ++ drop (pos + length src) dst) else Panic.

(** A run of such writes. *)
Fixpoint write_all {E} (ws : list (nat * list byte)) (dst : list byte) : result E (list byte) :=
  match ws with
  | [] => Ok dst
  | (pos, src) :: ws => dst ← copy_from_slice pos src dst; write_all ws dst
  end.

(** The body of the demosaicing loop: two rows of two RGB8 pixels. *)
Definition bayer_writes (width : nat) (bp : BayerPixel) : list (nat * list byte) :=
  let '(r, g0, g1, b) := (bp_r bp, bp_g0 bp, bp_g1 bp, bp_b bp) in
  let r0 := 3 * (bp_row bp * width + bp_col bp) in
  let r1 := 3 * ((bp_row bp + 1) * width + bp_col bp) in
  [(r0, [r; g0; b; r; g0; b]); (r1, [r; g1; b; r; g1; b])].

(** ** 32-bit floats *)

Abbreviation f32 := spec_float.
Definition f32_of_Z (z : Z) : f32 := binary_normalize 24 128 z 0 false.
Definition f32_lt (x y : f32) : bool := SFltb x y.

(** [f32::clamp], which keeps a NaN. *)
Definition f32_clamp (x lo hi : f32) : f32 :=
  if f32_lt x lo then lo else if f32_lt hi x then hi else x.

(** [f32::round] (half away from zero) followed by [as u8] (saturating, and zero
    for a NaN). *)
Definition f32_round_as_u8 (x : f32) : Z :=
  match x with
  | S754_zero _ | S754_nan => 0
  | S754_infinity s => if s then 0 else 255
  | S754_finite s m e =>
    let a := if decide (0 ≤ e)%Z then (Zpos m * 2 ^ e)%Z
             else ((2 * Zpos m + 2 ^ (- e)) / (2 * 2 ^ (- e)))%Z in
    if s then 0 else Z.min 255 a
  end%Z.

(** The luma of a brightness: [(16.0 + p.clamp(0.0, 1.0) * 219.0).round() as u8]. *)
Definition luma (p : f32) : byte :=
  val_byte (f32_round_as_u8 (SFadd 24 128 (f32_of_Z 16)
    (SFmul 24 128 (f32_clamp p (f32_of_Z 0) (f32_of_Z 1)) (f32_of_Z 219)))).

(** [f32::from_bits]: the sign, eight bits of exponent, 23 of fraction. *)
Definition f32_of_bits (z : Z) : f32 :=
  let s := Z.testbit z 31 in
  let ex := Z.land (Z.shiftr z 23) 255 in
  let fr := Z.land z (2 ^ 23 - 1) in
  if (ex =? 255)%Z then if (fr =? 0)%Z then S754_infinity s else S754_nan
  else if (ex =? 0)%Z then
    match fr with Zpos m => S754_finite s m (-149) | _ => S754_zero s end
  else match (fr + 2 ^ 23)%Z with Zpos m => S754_finite s m (ex - 150) | _ => S754_nan end.

Definition read_int (endian : Endian) (l : list byte) : Z :=
  le_val (match endian with Little => l | Big => reverse l end).

(** The brightness of a pixel of a monochrome encoding: the closures that
    [to_yuv420] maps over the pixels. *)
Definition brightness (e : RawImageEncoding) (p : list byte) : f32 :=
  match e with
  | Mono16 endian => SFdiv 24 128 (f32_of_Z (read_int endian p)) (f32_of_Z 65535)
  | Mono32F endian => f32_of_bits (read_int endian p)
  | _ => SFdiv 24 128 (f32_of_Z (le_val (take 1 p))) (f32_of_Z 255)
  end.

(** ** Conversions to YUV 4:2:0 *)

(** A [YuvPlanarImageMut], whose planes the `yuv` crate fills. *)
Record PlanarImage := {
  pl_planes : planes; pl_strides : Z * Z * Z; pl_width : Z; pl_height : Z
}.
(** A [YuvPackedImage]. *)
Record PackedImage := { yuy : list byte; yuy_stride : Z; pk_width : Z; pk_height : Z }.

(** The `yuv` crate's conversions return what is left in the planes, and
    perhaps an error. *)
Class YuvCrate := {
  YuvError : Type;
  yuv_rgb_to_yuv420 : PlanarImage → list byte → Z → planes * option YuvError;
  yuv_rgba_to_yuv420 : PlanarImage → list byte → Z → planes * option YuvError;
  yuv_bgr_to_yuv420 : PlanarImage → list byte → Z → planes * option YuvError;
  yuv_bgra_to_yuv420 : PlanarImage → list byte → Z → planes * option YuvError;
  yuv_yuyv422_to_yuv420 : PlanarImage → PackedImage → planes * option YuvError;
  yuv_uyvy422_to_yuv420 : PlanarImage → PackedImage → planes * option YuvError
}.

Section conversion.
Context `{YuvCrate} {IE T : Type} `{Yuv420Buffer T}.
Abbreviation Res A := (result (Error YuvError IE) A).

(** The destination after a conversion, and its result. *)
Definition wrapped (dst : T) : Res PlanarImage :=
  p ← or_panic (yuv dst);
  Ok {| pl_planes := p; pl_strides := yuv_strides dst; pl_width := (dimensions dst).1;
        pl_height := (dimensions dst).2 |}.
Definition finish_conv (dst : T) (r : planes * option YuvError) : T * Res unit :=
  (set_yuv r.1 dst, match r.2 with None => Ok tt | Some e => Err (ConvertToYuv420 e) end).

(** An operation on the destination that fails before it writes anything. *)
Definition or_fail {A} (r : Res A) (dst : T) (k : A → T * Res unit) : T * Res unit :=
  match r with Ok a => k a | Err e => (dst, Err e) | Panic => (dst, Panic) end.

Definition rgb_to_yuv420 (dst : T) (enc : RawImageEncoding) (data : list byte) (stride : Z) :
    T * Res unit :=
  or_fail (match enc with
    | Rgb8 => Ok yuv_rgb_to_yuv420 | Rgba8 => Ok yuv_rgba_to_yuv420
    | Bgr8 => Ok yuv_bgr_to_yuv420 | Bgra8 => Ok yuv_bgra_to_yuv420
    | _ => Panic
    end) dst (λ conv,
  or_fail (wrapped dst) dst (λ w, finish_conv dst (conv w data stride))).

(** Rows without their padding. *)
Fixpoint repack_rows {E} (data : list byte) (s row_len : nat) (rows : list nat) :
    result E (list byte) :=
  match rows with
  | [] => Ok []
  | row :: rows =>
    let pos := row * s in
    bs ← slice pos row_len data;
    rest ← repack_rows data s row_len rows;
    Ok (bs ++ rest)
  end.

Definition yuv422_to_yuv420 (dst : T) (enc : RawImageEncoding) (data : list byte) (stride : Z) :
    T * Res unit :=
  let '(width, height) := dimensions dst in
  if negb (is_even width) then (dst, Err (Yuv422WidthMustBeEven width))
  else
    or_fail (or_panic (checked_unsigned 32 (2 * width))) dst (λ expected_stride,
    or_fail (if decide (stride = expected_stride) then Ok data
             else repack_rows data (Z.to_nat stride) (2 * Z.to_nat width)
                    (seq 0 (Z.to_nat height))) dst (λ yuy,
    or_fail (match enc with
      | Yuyv => Ok yuv_yuyv422_to_yuv420 | Uyvy => Ok yuv_uyvy422_to_yuv420
      | _ => Panic
      end) dst (λ conv,
    or_fail (or_panic (checked_unsigned 32 (width * 2))) dst (λ yuy_stride,
    or_fail (wrapped dst) dst (λ w,
      finish_conv dst (conv w {| yuy := yuy; yuy_stride := yuy_stride; pk_width := width;
                                 pk_height := height |})))))).

(** [y[pos] = ...] for the pixels in order; the division by the width panics
    at zero. *)
Definition mono_writes (width y_stride : nat) (data : list f32) : list (nat * list byte) :=
  imap (λ i p, (i `mod` width + (i `div` width) * y_stride, [luma p])) data.

Definition mono_to_yuv420 (dst : T) (data : list f32) : T * Res unit :=
  let '(width, height) := dimensions dst in
  let y_stride := Z.to_nat (yuv_strides dst).1.1 in
  or_fail (or_panic (yuv dst)) dst (λ '(y, u, v),
  or_fail (if decide (width = 0%Z) then match data with [] => Ok y | _ => Panic end
           else write_all (mono_writes (Z.to_nat width) y_stride data) y) dst (λ y,
  (* the debug assertion on the number of pixels *)
  or_fail (if decide (length data = Z.to_nat width * Z.to_nat height) then Ok tt else Panic)
    (set_yuv (y, u, v) dst) (λ _,
  (set_yuv (y, replicate (length u) (val_byte 128), replicate (length v) (val_byte 128)) dst,
   Ok tt)))).

(** Enough for every iterator over the image. *)
Definition image_fuel (im : RawImage) : nat := S (Z.to_nat (width im) * Z.to_nat (height im)).

Definition mono_pixels (im : RawImage) : Res (list f32) :=
  s ← pixels (bytes_per_pixel (encoding im)) im;
  ps ← collect (Pixels_next (bytes_per_pixel (encoding im))) (image_fuel im) s;
  Ok (map (brightness (encoding im)) ps).

Definition demosaic (im : RawImage) : Res (Z * list byte) :=
  stride ← ok_or (checked_unsigned 32 (width im * 3)) DimensionsTooLargeForU32;
  rgb_size ← ok_or (checked_unsigned 64 (stride * height im)) DimensionsTooLargeForU32;
  let data := replicate (Z.to_nat rgb_size) Byte.x00 in
  s ← expect (bayer8_pixels (YE:=YuvError) (IE:=IE) im);
  bps ← collect Bayer8Pixels_next (image_fuel im) s;
  data ← write_all (bps ≫= bayer_writes (Z.to_nat (width im))) data;
  Ok (stride, data).

Definition RawImage_to_yuv420 (im : RawImage) (dst : T) : T * Res unit :=
  or_fail (validate_dimensions im) dst (λ _,
  or_fail (validate_dst_dimensions dst (width im) (height im)) dst (λ _,
  match encoding im with
  | Rgb8 | Rgba8 | Bgr8 | Bgra8 => rgb_to_yuv420 dst (encoding im) (data im) (stride im)
  | Uyvy | Yuyv => yuv422_to_yuv420 dst (encoding im) (data im) (stride im)
  | Mono8 | Mono16 _ | Mono32F _ => or_fail (mono_pixels im) dst (mono_to_yuv420 dst)
  | Bayer8 _ => or_fail (demosaic im) dst (λ '(stride, data), rgb_to_yuv420 dst Rgb8 data stride)
  end)).
End conversion.

(** ** The iterators yield the pixels in order *)

Lemma slice_ok {E} pos n l : pos + n ≤ length l → slice (E:=E) pos n l = Ok (take n (drop pos l)).
Proof. intros. unfold slice. by rewrite decide_True. Qed.
Lemma index_ok {E} pos l b : l !! pos = Some b → index (E:=E) pos l = Ok b.
Proof. intros Hl. unfold index. by rewrite Hl. Qed.
Lemma usize_sub_ok {E} a b : b ≤ a → usize_sub (E:=E) a b = Ok (a - b).
Proof. intros. unfold usize_sub. by rewrite decide_True. Qed.

Lemma divmod_row w row col : col < w → (row * w + col) `div` w = row ∧ (row * w + col) `mod` w = col.
Proof.
  intros. split.
  - symmetry. apply (Nat.div_unique _ _ _ col); lia.
  - symmetry. apply (Nat.mod_unique _ _ row); lia.
Qed.

(** Pixel number [k] of a row-major walk. *)
Definition pixel_at (N w stride : nat) (data : list byte) (k : nat) : list byte :=
  take N (drop ((k `div` w) * stride + (k `mod` w) * N) data).

Lemma Pixels_next_spec {E} N d w h st row col :
  row ≠ h → 0 < w → row * st + col * N + N ≤ length d →
  Pixels_next (E:=E) N {| px_data := d; px_width := w; px_height := h; px_stride := st;
    px_row := row; px_col := col |} =
  Ok (Some (take N (drop (row * st + col * N) d),
    {| px_data := d; px_width := w; px_height := h; px_stride := st;
       px_row := (if decide (col = w - 1) then S row else row);
       px_col := (if decide (col = w - 1) then 0 else S col) |})).
Proof.
  intros Hne Hw Hin. unfold Pixels_next.
  cbn [px_row px_height px_stride px_col px_width px_data]. rewrite decide_False by done.
  rewrite usize_sub_ok by lia. cbn [mbind result_bind].
  destruct (decide (col = w - 1)); by rewrite slice_ok by done.
Qed.

Lemma Pixels_collect {E} N (d : list byte) w h st :
  0 < w → w * N ≤ st → h * st ≤ length d →
  ∀ fuel row col, col < w → row ≤ h → (row = h → col = 0) → h * w - (row * w + col) < fuel →
  collect (E:=E) (Pixels_next N) fuel {| px_data := d; px_width := w; px_height := h;
    px_stride := st; px_row := row; px_col := col |} =
  Ok (map (pixel_at N w st d) (seq (row * w + col) (h * w - (row * w + col)))).
Proof.
  intros Hw Hst Hd fuel. induction fuel as [|fuel IH]; intros row col Hcol Hrow Hend Hfuel; [lia|].
  cbn [collect]. destruct (decide (row = h)) as [->|Hne].
  { unfold Pixels_next. cbn [px_row px_height]. rewrite decide_True by done.
    by rewrite Hend, Nat.add_0_r, Nat.sub_diag by done. }
  assert (row * w + col < h * w) as Hlt by nia.
  rewrite Pixels_next_spec by nia. cbn [mbind result_bind].
  destruct (divmod_row w row col Hcol) as [Hdiv Hmod].
  replace (h * w - (row * w + col)) with (S (h * w - S (row * w + col))) by lia.
  cbn [seq map]. assert (pixel_at N w st d (row * w + col) =
    take N (drop (row * st + col * N) d)) as -> by (unfold pixel_at; by rewrite Hdiv, Hmod).
  destruct (decide (col = w - 1)) as [->|Hc].
  - rewrite IH by nia. cbn [mbind result_bind].
    by replace (S row * w + 0) with (S (row * w + (w - 1))) by nia.
  - rewrite IH by nia. cbn [mbind result_bind].
    by replace (row * w + S col) with (S (row * w + col)) by lia.
Qed.

(** The four bytes of the 2x2 region whose upper left corner is [(row, col)]. *)
Definition region (d : list byte) (st row col : nat) : option (byte * byte * byte * byte) :=
  v0 ← d !! (row * st + col); v1 ← d !! S (row * st + col);
  v2 ← d !! (row * st + col + st); v3 ← d !! S (row * st + col + st);
  Some (v0, v1, v2, v3).
Definition bayer_at (cfa : BayerCfa) (d : list byte) (st row col : nat) : option BayerPixel :=
  '(v0, v1, v2, v3) ← region d st row col;
  let '(r, g0, g1, b) := cfa_order cfa v0 v1 v2 v3 in
  Some {| bp_r := r; bp_g0 := g0; bp_g1 := g1; bp_b := b; bp_row := row; bp_col := col |}.

Lemma region_is_Some d st row col : S (row * st + col + st) < length d → is_Some (region d st row col).
Proof.
  intros Hlt. unfold region.
  destruct (lookup_lt_is_Some_2 d (row * st + col) ltac:(lia)) as [? ->].
  destruct (lookup_lt_is_Some_2 d (S (row * st + col)) ltac:(lia)) as [? ->].
  destruct (lookup_lt_is_Some_2 d (row * st + col + st) ltac:(lia)) as [? ->].
  destruct (lookup_lt_is_Some_2 d (S (row * st + col + st)) ltac:(lia)) as [? ->]. by eexists.
Qed.

Lemma Bayer8Pixels_next_spec {E} cfa d w h st row col :
  row ≠ h → 2 ≤ w → S (row * st + col + st) < length d →
  ∃ bp, bayer_at cfa d st row col = Some bp ∧
  Bayer8Pixels_next (E:=E) {| b8_data := d; b8_cfa := cfa; b8_width := w; b8_height := h;
    b8_stride := st; b8_row := row; b8_col := col |} =
  Ok (Some (bp, {| b8_data := d; b8_cfa := cfa; b8_width := w; b8_height := h; b8_stride := st;
    b8_row := (if decide (col = w - 2) then row + 2 else row);
    b8_col := (if decide (col = w - 2) then 0 else col + 2) |})).
Proof.
  intros Hne Hw Hlt. destruct (region_is_Some d st row col Hlt) as [[[[v0 v1] v2] v3] Hr].
  unfold bayer_at. rewrite Hr. cbn.
  unfold region in Hr. unfold Bayer8Pixels_next.
  cbn [b8_data b8_cfa b8_width b8_height b8_stride b8_row b8_col].
  rewrite decide_False by done.
  destruct (d !! (row * st + col)) eqn:E0; [|done]; cbn in Hr.
  destruct (d !! S (row * st + col)) eqn:E1; [|done]; cbn in Hr.
  destruct (d !! (row * st + col + st)) eqn:E2; [|done]; cbn in Hr.
  destruct (d !! S (row * st + col + st)) eqn:E3; [|done]. injection Hr as -> -> -> ->.
  rewrite (index_ok _ _ _ E0), (index_ok _ _ _ E1), (index_ok _ _ _ E2), (index_ok _ _ _ E3).
  cbn [mbind result_bind]. rewrite usize_sub_ok by done. cbn [mbind result_bind].
  destruct (cfa_order cfa v0 v1 v2 v3) as [[[r g0] g1] b]. eexists. split; [done|].
  by destruct (decide _).
Qed.

(** Region number [k] of a row-major walk over an image of [W] regions a row. *)
Definition region_pos (W k : nat) : nat * nat := (2 * (k `div` W), 2 * (k `mod` W)).

Lemma Bayer_collect {E} cfa (d : list byte) W H st :
  0 < W → 2 * W ≤ st → 2 * H * st ≤ length d →
  ∀ fuel i j, j < W → i ≤ H → (i = H → j = 0) → H * W - (i * W + j) < fuel →
  ∃ bps, collect (E:=E) Bayer8Pixels_next fuel {| b8_data := d; b8_cfa := cfa; b8_width := 2 * W;
    b8_height := 2 * H; b8_stride := st; b8_row := 2 * i; b8_col := 2 * j |} = Ok bps ∧
  Forall2 (λ k bp, bayer_at cfa d st (region_pos W k).1 (region_pos W k).2 = Some bp)
    (seq (i * W + j) (H * W - (i * W + j))) bps.
Proof.
  intros HW Hst Hd fuel. induction fuel as [|fuel IH]; intros i j Hj Hi Hend Hfuel; [lia|].
  cbn [collect]. destruct (decide (i = H)) as [->|Hne].
  { unfold Bayer8Pixels_next. cbn [b8_row b8_height]. rewrite decide_True by done.
    exists []. split; [done|]. rewrite Hend, Nat.add_0_r, Nat.sub_diag by done. constructor. }
  assert (i * W + j < H * W) as Hlt by nia.
  destruct (Bayer8Pixels_next_spec (E:=E) cfa d (2 * W) (2 * H) st (2 * i) (2 * j))
    as (bp & Hbp & Hnext); [lia|lia|nia|].
  rewrite Hnext. cbn [mbind result_bind].
  destruct (divmod_row W i j Hj) as [Hdiv Hmod].
  replace (H * W - (i * W + j)) with (S (H * W - S (i * W + j))) by lia. cbn [seq].
  assert (∃ bps, collect (E:=E) Bayer8Pixels_next fuel {| b8_data := d; b8_cfa := cfa;
      b8_width := 2 * W; b8_height := 2 * H; b8_stride := st;
      b8_row := (if decide (2 * j = 2 * W - 2) then 2 * i + 2 else 2 * i);
      b8_col := (if decide (2 * j = 2 * W - 2) then 0 else 2 * j + 2) |} = Ok bps ∧
    Forall2 (λ k bp, bayer_at cfa d st (region_pos W k).1 (region_pos W k).2 = Some bp)
      (seq (S (i * W + j)) (H * W - S (i * W + j))) bps) as (bps & -> & Hall).
  { destruct (decide (2 * j = 2 * W - 2)) as [Hlast|].
    - destruct (IH (S i) 0) as (bps & Hc & Hall); [lia|lia|done|nia|]. exists bps.
      replace (2 * i + 2) with (2 * S i) by lia. split; [done|].
      by replace (S i * W + 0) with (S (i * W + j)) in Hall by nia.
    - destruct (IH i (S j)) as (bps & Hc & Hall); [lia|lia|lia|nia|]. exists bps.
      replace (2 * j + 2) with (2 * S j) by lia. split; [done|].
      by replace (i * W + S j) with (S (i * W + j)) in Hall by lia. }
  exists (bp :: bps). split; [done|]. constructor; [|done].
  unfold region_pos. cbn [fst snd]. by rewrite Hdiv, Hmod.
Qed.

(** ** Runs of writes *)

Lemma copy_from_slice_ok {E} pos src dst : pos + length src ≤ length dst →
  ∃ dst', copy_from_slice (E:=E) pos src dst = Ok dst' ∧ length dst' = length dst ∧
    ∀ k, dst' !! k = if decide (pos ≤ k < pos + length src) then src !! (k - pos) else dst !! k.
Proof.
  intros Hle. unfold copy_from_slice. rewrite decide_True by done. eexists. split; [done|].
  split. { rewrite !length_app, length_take, length_drop. lia. }
  intros k. case_decide.
  - rewrite lookup_app_r by (rewrite length_take; lia). rewrite length_take, Nat.min_l by lia.
    rewrite lookup_app_l by lia. done.
  - destruct (decide (k < pos)).
    + rewrite lookup_app_l by (rewrite length_take; lia). by rewrite lookup_take_lt.
    + rewrite lookup_app_r by (rewrite length_take; lia). rewrite length_take, Nat.min_l by lia.
      rewrite lookup_app_r by lia. rewrite lookup_drop. f_equal. lia.
Qed.

Definition in_write (k : nat) (w : nat * list byte) : Prop := w.1 ≤ k < w.1 + length w.2.

(** A position that every write covering it gives the same value has it. *)
Lemma write_all_spec {E} ws : ∀ dst, Forall (λ w, w.1 + length w.2 ≤ length dst) ws →
  ∃ dst', write_all (E:=E) ws dst = Ok dst' ∧ length dst' = length dst ∧
    ∀ k x, (∀ w, w ∈ ws → in_write k w → w.2 !! (k - w.1) = x) →
      (dst !! k = x ∨ ∃ w, w ∈ ws ∧ in_write k w) → dst' !! k = x.
Proof.
  induction ws as [|[pos src] ws IH]; intros dst Hin.
  { exists dst. split_and!; [done..|]. intros k x _ [|(w & Hw & _)]; [done|]. by apply elem_of_nil in Hw. }
  apply Forall_cons in Hin as [Hw Hin]. cbn [fst snd] in Hw.
  destruct (copy_from_slice_ok (E:=E) pos src dst Hw) as (d1 & Hd1 & Hlen & Hlook).
  destruct (IH d1) as (dst' & Hd' & Hlen' & Hlook'). { by rewrite Hlen. }
  exists dst'. cbn [write_all]. rewrite Hd1. cbn [mbind result_bind]. split_and!; [done|lia|].
  intros k x Hall Hex. apply Hlook'.
  { intros w Hwin. apply Hall. by right. }
  rewrite Hlook. case_decide as Hk.
  - left. apply (Hall (pos, src)); [left|done].
  - destruct Hex as [|(w & [->|Hw']%elem_of_cons & Hinw)]; [by left| |right; eauto].
    by destruct Hk.
Qed.

(** ** What validation ensures *)

Record valid_image (im : RawImage) : Prop := {
  vi_width : (0 < width im)%Z; vi_height : (0 < height im)%Z;
  vi_row : Z.to_nat (width im) * bytes_per_pixel (encoding im) ≤ Z.to_nat (stride im);
  vi_data : Z.to_nat (height im) * Z.to_nat (stride im) ≤ length (data im);
  vi_bayer : ∀ cfa, encoding im = Bayer8 cfa → is_even (width im) = true ∧ is_even (height im) = true;
  vi_yuv422 : encoding im = Uyvy ∨ encoding im = Yuyv → is_even (width im) = true
}.
Definition image_fits (im : RawImage) : Prop :=
  fits 32 (width im) ∧ fits 32 (height im) ∧ fits 32 (stride im).

(** The validation of a raw image accepts exactly the images whose rows and
    pixels lie within the data, with even dimensions where the encoding needs
    them; and it never panics. *)
Lemma validate_dimensions_iff {YE IE} im : image_fits im →
  (validate_dimensions (YE:=YE) (IE:=IE) im = Ok tt ↔ valid_image im) ∧
  no_panic (validate_dimensions (YE:=YE) (IE:=IE) im).
Proof.
  intros ([Hw _] & [Hh _] & _). unfold validate_dimensions, no_panic.
  destruct (Z.eqb_spec (width im) 0) as [E|Ew]; cbn [orb].
  { split; [|done]. split; [done|]. intros []. lia. }
  destruct (Z.eqb_spec (height im) 0) as [E|Eh].
  { split; [|done]. split; [done|]. intros []. lia. }
  case_bool_decide as Hrow.
  { split; [|done]. split; [done|]. intros []. lia. }
  case_bool_decide as Hdata.
  { split; [|done]. split; [done|]. intros []. lia. }
  split; [split|].
  - intros Hm. split; [lia..| |].
    + intros cfa Ee. rewrite Ee in Hm. by destruct (is_even (width im)), (is_even (height im)).
    + intros [Ee|Ee]; rewrite Ee in Hm; by destruct (is_even (width im)).
  - intros [_ _ _ _ Hb Hy].
    destruct (encoding im) eqn:Ee; try done; [by rewrite Hy by auto..|].
    by destruct (Hb _ eq_refl) as [-> ->].
  - by destruct (encoding im), (is_even (width im)), (is_even (height im)).
Qed.

Lemma ensure_Ok {E} b (e : E) : ensure b e = Ok tt ↔ b = true.
Proof. by destruct b. Qed.

Lemma try_each_Ok {A E} (f : A → result E unit) l :
  try_each f l = Ok tt ↔ Forall (λ x, f x = Ok tt) l.
Proof.
  induction l as [|x l IH]; cbn; [by split|]. rewrite Forall_cons, <- IH.
  destruct (f x) as [[]| |]; cbn; naive_solver.
Qed.
Lemma try_each_no_panic {A E} (f : A → result E unit) l :
  (∀ x, no_panic (f x)) → no_panic (try_each f l).
Proof.
  intros Hf. induction l as [|x l IH]; cbn; [done|]. by apply no_panic_bind.
Qed.

Section planes.
Context {T YE IE : Type} `{Yuv420BufferLaws T}.

(** A destination in which everything is where the conversions write. *)
Record valid_dst (dst : T) (p : planes) : Prop := {
  vd_yuv : yuv dst = Some p;
  vd_stride : Z.to_nat (dimensions dst).1 ≤ Z.to_nat (yuv_strides dst).1.1;
  vd_size : Z.to_nat (yuv_strides dst).1.1 * Z.to_nat (dimensions dst).2 ≤ length p.1.1
}.

Lemma validate_Ok (dst : T) : validate (YE:=YE) (IE:=IE) dst = Ok tt → ∃ p, valid_dst dst p.
Proof.
  unfold validate. destruct (dimensions dst) as [w h] eqn:Ed.
  destruct (yuv_strides dst) as [[ys us] vs] eqn:Es.
  intros ([] & Hstr%try_each_Ok & ([[y u] v] & Hp & Hsz%try_each_Ok)%bind_Ok)%bind_Ok.
  apply Forall_cons in Hstr as [Hstr%ensure_Ok%negb_true_iff%bool_decide_eq_false _].
  apply Forall_cons in Hsz as [Hsz%ensure_Ok%negb_true_iff%bool_decide_eq_false _].
  exists (y, u, v). split; rewrite ?Ed, ?Es; cbn; [by destruct (yuv dst); simplify_eq/=|lia..].
Qed.

Lemma validate_no_panic (dst : T) : is_Some (yuv dst) → no_panic (validate (YE:=YE) (IE:=IE) dst).
Proof.
  intros [[[y u] v] Hy]. unfold validate. destruct (dimensions dst) as [w h].
  destruct (yuv_strides dst) as [[ys us] vs]. rewrite Hy.
  apply no_panic_bind; [|intros _ _]; [|apply no_panic_bind; [done|intros [[??]?] [= <- <- <-]]];
    apply try_each_no_panic; intros [[??]?]; apply ensure_no_panic.
Qed.
End planes.

#[export] Instance Yuv420Vec_laws : Yuv420BufferLaws Yuv420Vec.
Proof.
  split; [|done..]. intros [d w h] [[y u] v] [[y' u'] v'] Hy (H1 & H2 & H3).
  cbn [fst snd] in *. cbn in Hy |- *. unfold Yuv420Vec_yuv, split_at in *. cbn [yv_data yv_width yv_height] in *.
  set (n := Z.to_nat w * Z.to_nat h) in *. case_decide; [|done]. cbn in Hy.
  case_decide as Hd; [|done]. cbn in Hy. rewrite length_drop in Hd.
  injection Hy as <- <- <-. rewrite length_take, Nat.min_l in H1 by done.
  rewrite length_take, length_drop, Nat.min_l in H2 by lia.
  rewrite decide_True by (rewrite !length_app; lia). cbn.
  rewrite drop_app_length' by done. rewrite decide_True by (rewrite !length_app; lia). cbn.
  by rewrite !take_app_length', drop_app_length' by done.
Qed.

Lemma even_to_nat z : (0 ≤ z)%Z → (z `mod` 2 =? 0)%Z = true → Z.to_nat z = 2 * (Z.to_nat (z / 2)).
Proof.
  intros Hz He%Z.eqb_eq. pose proof (Z.div_mod z 2 ltac:(lia)) as Hd.
  pose proof (Z.div_pos z 2 Hz ltac:(lia)). lia.
Qed.

(** A new [Yuv420Vec] of even dimensions passes its own validation, and its
    three planes make up the whole buffer; [new] panics on odd dimensions. *)
Theorem Yuv420Vec_new_valid {E YE IE} w h : fits 32 w → fits 32 h →
  if is_even w && is_even h then
    ∃ b p, Yuv420Vec_new (E:=E) w h = Ok b ∧ dimensions b = (w, h) ∧ yuv b = Some p ∧
      p.1.1 ++ p.1.2 ++ p.2 = yv_data b ∧
      length p.1.2 = Z.to_nat (w / 2) * Z.to_nat (h / 2) ∧ length p.2 = length p.1.2 ∧
      validate_dst_dimensions (YE:=YE) (IE:=IE) b w h = Ok tt
  else Yuv420Vec_new (E:=E) w h = Panic.
Proof.
  intros [Hw _] [Hh _]. unfold Yuv420Vec_new, is_even.
  destruct (w `mod` 2 =? 0)%Z eqn:Ew, (h `mod` 2 =? 0)%Z eqn:Eh; cbn [andb]; try done.
  pose proof (even_to_nat w Hw Ew) as Ew'. pose proof (even_to_nat h Hh Eh) as Eh'.
  set (W := Z.to_nat (w / 2)) in *. set (H := Z.to_nat (h / 2)) in *.
  assert (Z.to_nat w * Z.to_nat h = (W * H) * 4) as Earea by (rewrite Ew', Eh'; lia).
  assert ((Z.to_nat w * Z.to_nat h) `div` 2 * 3 = W * H * 6) as Elen.
  { replace (Z.to_nat w * Z.to_nat h) with ((W * H * 2) * 2) by lia. rewrite Nat.div_mul; lia. }
  assert ((Z.to_nat w * Z.to_nat h) `div` 4 = W * H) as Eu by (rewrite Earea, Nat.div_mul; lia).
  rewrite Elen. set (b := {| yv_data := _; yv_width := w; yv_height := h |}).
  set (d := replicate (W * H * 6) Byte.x00) in *.
  set (p := (take (W * H * 4) d, take (W * H) (drop (W * H * 4) d), drop (W * H) (drop (W * H * 4) d))).
  assert (yuv b = Some p) as Hyuv.
  { cbn. unfold Yuv420Vec_yuv, split_at. cbn [yv_data yv_width yv_height b]. rewrite Eu, Earea.
    rewrite decide_True by (unfold d; rewrite length_replicate; lia). cbn.
    by rewrite decide_True by (unfold d; rewrite length_drop, length_replicate; lia). }
  assert (length p.1.1 = W * H * 4 ∧ length p.1.2 = W * H ∧ length p.2 = W * H) as (L1 & L2 & L3).
  { cbn [fst snd p]. rewrite !length_take, !length_drop. unfold d. rewrite length_replicate. lia. }
  exists b, p. split_and!; [done|done|done| |lia|lia|].
  { cbn [fst snd p yv_data b]. by rewrite !take_drop. }
  unfold validate_dst_dimensions. rewrite bool_decide_true by done. cbn [negb].
  unfold validate. rewrite Hyuv. cbn [dimensions yuv_strides Yuv420Vec_buffer b yv_width yv_height].
  assert (Z.to_nat (w / 2) = W) as -> by done.
  assert (Z.to_nat w `div` 2 = W) as -> by (rewrite Ew', Nat.mul_comm, Nat.div_mul; lia).
  assert ((W * Z.to_nat h) `div` 2 = W * H) as EWH.
  { rewrite Eh'. replace (W * (2 * H)) with (W * H * 2) by lia. rewrite Nat.div_mul; lia. }
  rewrite (proj2 (try_each_Ok _ _)); [cbn [mbind result_bind]|].
  - destruct p as [[y u] v]. cbn [or_panic mbind result_bind fst snd] in *.
    apply try_each_Ok. rewrite EWH, Earea, L1, L2, L3.
    repeat constructor; apply ensure_Ok, negb_true_iff, bool_decide_eq_false; lia.
  - repeat constructor; apply ensure_Ok, negb_true_iff, bool_decide_eq_false; lia.
Qed.

(** ** Monochrome images *)

Section mono.
Context `{YuvCrate} {IE T : Type} `{Yuv420BufferLaws T}.

Lemma mono_writes_elem w ys ps x :
  x ∈ mono_writes w ys ps ↔ ∃ i p, ps !! i = Some p ∧ x = (i `mod` w + i `div` w * ys, [luma p]).
Proof.
  unfold mono_writes. rewrite list_elem_of_lookup. setoid_rewrite list_lookup_imap.
  split.
  - intros (i & Hi). destruct (ps !! i) as [p|] eqn:Ep; [|done]. cbn in Hi. injection Hi as <-. eauto.
  - intros (i & p & Hp & ->). exists i. by rewrite Hp.
Qed.

Lemma in_mono_write k w ys i p :
  in_write k (i `mod` w + i `div` w * ys, [luma p]) ↔ k = i `div` w * ys + i `mod` w.
Proof. unfold in_write. cbn. lia. Qed.

Lemma mono_position w ys row col i : 0 < w → w ≤ ys → col < w →
  row * ys + col = i `div` w * ys + i `mod` w → i = row * w + col.
Proof.
  intros Hw Hys Hcol Heq. pose proof (Nat.div_mod i w ltac:(lia)) as Hdm.
  pose proof (Nat.mod_upper_bound i w ltac:(lia)) as Hmod.
  assert (row = i `div` w) as ->; [|lia].
  destruct (Nat.lt_trichotomy row (i `div` w)) as [|[|]]; [nia|done|nia].
Qed.

Lemma mono_to_yuv420_spec (dst : T) p ps :
  valid_dst dst p → (0 < (dimensions dst).1)%Z →
  length ps = Z.to_nat (dimensions dst).1 * Z.to_nat (dimensions dst).2 →
  let w := Z.to_nat (dimensions dst).1 in let ys := Z.to_nat (yuv_strides dst).1.1 in
  ∃ y', mono_to_yuv420 (IE:=IE) dst ps =
      (set_yuv (y', replicate (length p.1.2) (val_byte 128), replicate (length p.2) (val_byte 128)) dst,
       Ok tt) ∧
    length y' = length p.1.1 ∧
    (∀ row col x, col < w → ps !! (row * w + col) = Some x → y' !! (row * ys + col) = Some (luma x)) ∧
    (∀ k, (∀ row col, row < Z.to_nat (dimensions dst).2 → col < w → k ≠ row * ys + col) →
       y' !! k = p.1.1 !! k).
Proof.
  intros [Hyuv Hst Hsz] Hwpos Hlen w ys. unfold mono_to_yuv420.
  destruct (dimensions dst) as [wz hz]. cbn [fst snd] in *. fold w ys in Hst, Hsz, Hlen |- *.
  destruct p as [[y u] v]. cbn [fst snd] in *. rewrite Hyuv. cbn [or_panic or_fail].
  rewrite (decide_False (P := wz = 0%Z)) by lia. assert (0 < w) by lia.
  destruct (write_all_spec (E := Error YuvError IE) (mono_writes w ys ps) y) as (y' & Hy' & Hl & Hlook).
  { apply Forall_forall. intros x (i & q & Hi & ->)%mono_writes_elem. cbn.
    apply lookup_lt_Some in Hi. rewrite Hlen in Hi.
    pose proof (Nat.div_mod i w ltac:(lia)). pose proof (Nat.mod_upper_bound i w ltac:(lia)).
    assert (i `div` w < Z.to_nat hz) by (apply Nat.Div0.div_lt_upper_bound; lia). nia. }
  rewrite Hy'. cbn [or_fail]. rewrite decide_True by done. cbn [or_fail].
  exists y'. split_and!; [done|done| |].
  - intros row col x Hcol Hx. apply Hlook.
    + intros wr (i & q & Hi & ->)%mono_writes_elem Hin. apply in_mono_write in Hin as Hk.
      apply mono_position in Hk; [|done..]. subst i. rewrite Hx in Hi. injection Hi as <-. cbn.
      destruct (divmod_row w row col Hcol) as [-> ->].
      by replace (row * ys + col - (col + row * ys)) with 0 by lia.
    + right. eexists. split; [apply mono_writes_elem; eauto|]. apply in_mono_write.
      by destruct (divmod_row w row col Hcol) as [-> ->].
  - intros k Hk. apply Hlook; [|by left].
    intros wr (i & q & Hi & ->)%mono_writes_elem Hin%in_mono_write.
    exfalso. apply (Hk (i `div` w) (i `mod` w)); [|apply Nat.mod_upper_bound; lia|done].
    apply lookup_lt_Some in Hi. apply Nat.Div0.div_lt_upper_bound. lia.
Qed.
End mono.

(** ** Demosaicing *)

(** The reference: every pixel takes the red and blue of its 2x2 region, and
    the green of its own row. *)
Definition rgb_at (cfa : BayerCfa) (d : list byte) (st row col : nat) : option (list byte) :=
  bp ← bayer_at cfa d st (2 * (row `div` 2)) (2 * (col `div` 2));
  Some [bp_r bp; if decide (row `mod` 2 = 0) then bp_g0 bp else bp_g1 bp; bp_b bp].

Lemma bayer_at_pos cfa d st row col bp :
  bayer_at cfa d st row col = Some bp → bp_row bp = row ∧ bp_col bp = col.
Proof.
  unfold bayer_at. destruct (region d st row col) as [[[[??]?]?]|]; [|done]. cbn.
  destruct (cfa_order _ _ _ _ _) as [[[??]?]?]. by intros [= <-].
Qed.

(** A position in a row of pairs of pixels belongs to one pair. *)
Lemma pair_position w row col c R C W :
  w = 2 * W → col < w → c < 3 → C < W →
  3 * (R * w + 2 * C) ≤ 3 * (row * w + col) + c < 3 * (R * w + 2 * C) + 6 →
  row = R ∧ col `div` 2 = C ∧
    3 * (row * w + col) + c - 3 * (R * w + 2 * C) = 3 * (col `mod` 2) + c.
Proof.
  intros -> Hcol Hc HC Hk. assert (row = R) as ->.
  { destruct (Nat.lt_trichotomy row R) as [|[|]]; [nia|done|nia]. }
  split; [done|]. pose proof (Nat.div_mod col 2 ltac:(lia)).
  pose proof (Nat.mod_upper_bound col 2 ltac:(lia)).
  assert (col `div` 2 = C) as <- by lia. lia.
Qed.

Lemma bayer_write_lookup w W bp x row col c :
  w = 2 * W → col < w → c < 3 → (∃ C, bp_col bp = 2 * C ∧ C < W) → (∃ R, bp_row bp = 2 * R) →
  x ∈ bayer_writes w bp → in_write (3 * (row * w + col) + c) x →
  bp_row bp = 2 * (row `div` 2) ∧ bp_col bp = 2 * (col `div` 2) ∧
  x.2 !! (3 * (row * w + col) + c - x.1) =
    [bp_r bp; if decide (row `mod` 2 = 0) then bp_g0 bp else bp_g1 bp; bp_b bp] !! c.
Proof.
  intros Hw Hcol Hc (C & HC & HCW) (R & HR) Hx Hin. unfold bayer_writes in Hx. rewrite HC, HR in *.
  pose proof (Nat.mod_upper_bound col 2 ltac:(lia)) as Hm.
  apply elem_of_cons in Hx as [->|Hx]; [|apply list_elem_of_singleton in Hx as ->];
    cbn [fst snd] in *; unfold in_write in Hin; cbn [fst snd length] in Hin;
    destruct (pair_position w row col c _ C W Hw Hcol Hc HCW Hin) as (Hrow & Hdiv & ->).
  - assert (row `div` 2 = R ∧ row `mod` 2 = 0) as [-> ->].
    { subst row. rewrite (Nat.mul_comm 2), Nat.div_mul, Nat.Div0.mod_mul by lia. done. }
    rewrite Hdiv. split_and!; [done|done|]. cbn [decide].
    destruct (col `mod` 2) as [|[|]], c as [|[|[|]]]; done || lia.
  - assert (row `div` 2 = R ∧ row `mod` 2 = 1) as [-> ->].
    { subst row. rewrite (Nat.mul_comm 2). split.
      - symmetry. apply (Nat.div_unique _ _ _ 1); lia.
      - symmetry. apply (Nat.mod_unique _ _ R); lia. }
    rewrite Hdiv. split_and!; [done|done|]. cbn [decide].
    destruct (col `mod` 2) as [|[|]], c as [|[|[|]]]; done || lia.
Qed.

Lemma bayer_writes_elem cfa d st W n bps w x :
  Forall2 (λ k bp, bayer_at cfa d st (region_pos W k).1 (region_pos W k).2 = Some bp) (seq 0 n) bps →
  x ∈ bps ≫= bayer_writes w ↔ ∃ k bp, k < n ∧ x ∈ bayer_writes w bp ∧
    bayer_at cfa d st (region_pos W k).1 (region_pos W k).2 = Some bp.
Proof.
  intros Hall. rewrite list_elem_of_bind. split.
  - intros (bp & Hx & (i & Hi)%list_elem_of_lookup).
    destruct (Forall2_lookup_r _ _ _ _ _ Hall Hi) as (k & Hk & Hbp).
    apply lookup_seq in Hk as [-> Hk]. eauto.
  - intros (k & bp & Hk & Hx & Hbp).
    destruct (Forall2_lookup_l _ _ _ k k Hall) as (bp' & Hi & Hbp'); [by apply lookup_seq|].
    rewrite Hbp in Hbp'. injection Hbp' as <-. exists bp. split; [done|].
    by eapply list_elem_of_lookup_2.
Qed.

Lemma demosaic_writes {E} cfa d st W H bps (out : list byte) :
  0 < W → length out = 3 * (2 * W * (2 * H)) →
  Forall2 (λ k bp, bayer_at cfa d st (region_pos W k).1 (region_pos W k).2 = Some bp)
    (seq 0 (H * W)) bps →
  ∃ out', write_all (E:=E) (bps ≫= bayer_writes (2 * W)) out = Ok out' ∧ length out' = length out ∧
    ∀ row col px, row < 2 * H → col < 2 * W → rgb_at cfa d st row col = Some px →
      ∀ c, c < 3 → out' !! (3 * (row * (2 * W) + col) + c) = px !! c.
Proof.
  intros HW Hlen Hall.
  destruct (write_all_spec (E:=E) (bps ≫= bayer_writes (2 * W)) out) as (out' & Ho & Hl & Hlook).
  { apply Forall_forall. intros x Hx. apply (bayer_writes_elem _ _ _ _ _ _ _ _ Hall) in Hx.
    destruct Hx as (k & bp & Hk & Hx & Hbp). apply bayer_at_pos in Hbp as [Hr Hc].
    unfold region_pos in Hr, Hc. cbn [fst snd] in Hr, Hc.
    pose proof (Nat.div_mod k W ltac:(lia)). pose proof (Nat.mod_upper_bound k W ltac:(lia)).
    assert (k `div` W < H) by (apply Nat.Div0.div_lt_upper_bound; lia).
    unfold bayer_writes in Hx. rewrite Hr, Hc in Hx.
    apply elem_of_cons in Hx as [->|Hx]; [|apply list_elem_of_singleton in Hx as ->]; cbn [fst snd length]; nia. }
  exists out'. split_and!; [done|done|]. intros row col px Hrow Hcol Hpx c Hc.
  unfold rgb_at in Hpx. destruct (bayer_at cfa d st _ _) as [bp|] eqn:Hbp; [|done].
  cbn in Hpx. injection Hpx as <-. apply Hlook.
  - intros x Hx Hin. apply (bayer_writes_elem _ _ _ _ _ _ _ _ Hall) in Hx.
    destruct Hx as (k & bp' & Hk & Hx & Hbp'). pose proof (bayer_at_pos _ _ _ _ _ _ Hbp') as [Hr' Hc'].
    destruct (bayer_write_lookup (2 * W) W bp' x row col c) as (E1 & E2 & ->); try done.
    { exists (k `mod` W). split; [done|]. apply Nat.mod_upper_bound. lia. }
    { by exists (k `div` W). }
    assert (bp' = bp) as ->; [|done].
    rewrite <- Hr', <- Hc', E1, E2, Hbp in Hbp'. by injection Hbp'.
  - right. assert (row `div` 2 < H ∧ col `div` 2 < W) as [HR HC]
      by (split; apply Nat.Div0.div_lt_upper_bound; lia).
    pose proof (bayer_at_pos _ _ _ _ _ _ Hbp) as [Hr Hcc].
    pose proof (Nat.div_mod row 2 ltac:(lia)). pose proof (Nat.mod_upper_bound row 2 ltac:(lia)).
    pose proof (Nat.div_mod col 2 ltac:(lia)). pose proof (Nat.mod_upper_bound col 2 ltac:(lia)).
    assert (∃ x, x ∈ bayer_writes (2 * W) bp ∧ in_write (3 * (row * (2 * W) + col) + c) x)
      as (x & Hx & Hin).
    { unfold bayer_writes, in_write. rewrite Hr, Hcc. destruct (decide (row `mod` 2 = 0)).
      - eexists. split; [by left|]. cbn [fst snd length]. nia.
      - eexists. split; [right; by left|]. cbn [fst snd length]. nia. }
    exists x. split; [|done]. apply (bayer_writes_elem _ _ _ _ _ _ _ _ Hall).
    exists (row `div` 2 * W + col `div` 2), bp. unfold region_pos.
    destruct (divmod_row W (row `div` 2) (col `div` 2) HC) as [-> ->]. split_and!; [nia|done|done].
Qed.

Section to_yuv420.
Context `{YuvCrate} {IE T : Type} `{Yuv420BufferLaws T}.
Abbreviation Res A := (result (Error YuvError IE) A).

Lemma valid_even im cfa : valid_image im → encoding im = Bayer8 cfa →
  ∃ W HH, Z.to_nat (width im) = 2 * W ∧ Z.to_nat (height im) = 2 * HH ∧ 0 < W.
Proof.
  intros [Hw Hh _ _ Hb _] Ee. destruct (Hb _ Ee) as [Ew Eh].
  exists (Z.to_nat (width im / 2)), (Z.to_nat (height im / 2)).
  pose proof (even_to_nat (width im) ltac:(lia) Ew). pose proof (even_to_nat (height im) ltac:(lia) Eh).
  lia.
Qed.

(** Demosaicing a valid Bayer image is the reference: it never reads or
    writes out of range, and gives each pixel the red and blue of its 2x2 region
    and the green of its row; it fails only when a row of RGB does not fit 32
    bits. *)
Lemma demosaic_spec im cfa : valid_image im → image_fits im → encoding im = Bayer8 cfa →
  let w := Z.to_nat (width im) in let h := Z.to_nat (height im) in
  if bool_decide (fits 32 (width im * 3)) then
    ∃ out, demosaic (IE:=IE) im = Ok ((width im * 3)%Z, out) ∧ length out = 3 * w * h ∧
      ∀ row col, row < h → col < w → ∃ px, rgb_at cfa (data im) (Z.to_nat (stride im)) row col = Some px ∧
        length px = 3 ∧ ∀ c, c < 3 → out !! (3 * (row * w + col) + c) = px !! c
  else demosaic (IE:=IE) im = Err DimensionsTooLargeForU32.
Proof.
  intros Hv Hf Ee w h. destruct (valid_even im cfa Hv Ee) as (W & HH & Ew & Eh & HW).
  destruct Hv as [Hw Hh Hrow Hdata Hb _]. rewrite Ee in Hrow. cbn [bytes_per_pixel] in Hrow.
  destruct Hf as ([_ Fw] & [_ Fh] & _). unfold demosaic.
  case_bool_decide as Hfit; unfold checked_unsigned; [|by rewrite decide_False].
  rewrite decide_True by done. cbn [ok_or mbind result_bind].
  rewrite decide_True; [cbn [ok_or mbind result_bind]|].
  2: { destruct Hfit as [_ Hfit]. unfold fits. change (2 ^ 64)%Z with (2 ^ 32 * 2 ^ 32)%Z.
       change (2 ^ 32)%Z with 4294967296%Z in *. nia. }
  unfold bayer8_pixels, Bayer8Pixels_new. rewrite Ee. destruct (Hb _ Ee) as [-> ->].
  cbn [negb orb expect mbind result_bind].
  set (st := Z.to_nat (stride im)) in *. rewrite Ew, Eh in *.
  destruct (Bayer_collect (E:=Error YuvError IE) cfa (data im) W HH st HW ltac:(lia) ltac:(lia)
    (image_fuel im) 0 0) as (bps & Hc & Hall); [done|lia|done|unfold image_fuel; rewrite Ew, Eh; nia|].
  change (0 * W + 0) with 0 in Hall. change (2 * 0) with 0 in Hc. rewrite Hc. rewrite Nat.sub_0_r in Hall.
  cbn [mbind result_bind].
  set (out := replicate _ Byte.x00).
  assert (length out = 3 * (2 * W * (2 * HH))) as Hlen.
  { unfold out. rewrite length_replicate. rewrite !Z2Nat.inj_mul by lia. rewrite Ew, Eh.
    change (Z.to_nat 3) with 3. lia. }
  destruct (demosaic_writes (E:=Error YuvError IE) cfa (data im) st W HH bps out HW Hlen Hall)
    as (out' & -> & Hl & Hlook).
  exists out'. split; [done|]. split; [unfold w, h; lia|].
  intros row col Hr Hcol. unfold w, h in Hr, Hcol |- *. rewrite Eh in Hr. rewrite Ew in Hcol |- *.
  assert (∃ px, rgb_at cfa (data im) st row col = Some px ∧ length px = 3) as (px & Hpx & Hl3).
  { unfold rgb_at, bayer_at.
    pose proof (Nat.div_mod row 2 ltac:(lia)). pose proof (Nat.div_mod col 2 ltac:(lia)).
    assert (row `div` 2 < HH ∧ col `div` 2 < W) as [HR HC]
      by (split; apply Nat.Div0.div_lt_upper_bound; lia).
    destruct (region_is_Some (data im) st (2 * (row `div` 2)) (2 * (col `div` 2)))
      as [[[[v0 v1] v2] v3] ->]; [nia|]. cbn [mbind option_bind].
    destruct (cfa_order _ _ _ _ _) as [[[??]?]?]. cbn. by eexists. }
  exists px. split_and!; [done|done|]. by apply (Hlook row col px).
Qed.

(** The pixels of a valid monochrome image, in order. *)
Definition is_mono (e : RawImageEncoding) : bool :=
  match e with Mono8 | Mono16 _ | Mono32F _ => true | _ => false end.

Lemma mono_pixels_spec im : valid_image im → is_mono (encoding im) = true →
  let w := Z.to_nat (width im) in let h := Z.to_nat (height im) in
  let N := bytes_per_pixel (encoding im) in
  mono_pixels (IE:=IE) im = Ok (map (brightness (encoding im))
    (map (pixel_at N w (Z.to_nat (stride im)) (data im)) (seq 0 (h * w)))).
Proof.
  intros [Hw Hh Hrow Hdata _ _] Hm w h N. unfold mono_pixels, pixels.
  assert (is_subsampled (encoding im) = false) as -> by by destruct (encoding im).
  rewrite bool_decide_true by done. cbn [negb andb mbind result_bind].
  unfold Pixels_new. fold w h N.
  rewrite (Pixels_collect N (data im) w h (Z.to_nat (stride im))) by (unfold image_fuel; lia).
  cbn [mbind result_bind Nat.mul Nat.add]. by rewrite Nat.sub_0_r.
Qed.

(** A valid monochrome image fills the luma plane of a valid destination with
    the luma of every pixel, in place, leaves the padding of its rows alone,
    and sets both chroma planes to their middle value. *)
Lemma mono_image_spec im (dst : T) :
  image_fits im → validate_dimensions (YE:=YuvError) (IE:=IE) im = Ok tt →
  validate_dst_dimensions (YE:=YuvError) (IE:=IE) dst (width im) (height im) = Ok tt →
  is_mono (encoding im) = true →
  let w := Z.to_nat (width im) in let h := Z.to_nat (height im) in
  let N := bytes_per_pixel (encoding im) in let ys := Z.to_nat (yuv_strides dst).1.1 in
  ∃ y u v y' dst', yuv dst = Some (y, u, v) ∧ RawImage_to_yuv420 (IE:=IE) im dst = (dst', Ok tt) ∧
    dimensions dst' = dimensions dst ∧ yuv_strides dst' = yuv_strides dst ∧
    yuv dst' =
      Some (y', replicate (length u) (val_byte 128), replicate (length v) (val_byte 128)) ∧
    length y' = length y ∧
    (∀ row col, row < h → col < w → y' !! (row * ys + col) = Some (luma (brightness (encoding im)
      (take N (drop (row * Z.to_nat (stride im) + col * N) (data im)))))) ∧
    (∀ k, (∀ row col, row < h → col < w → k ≠ row * ys + col) → y' !! k = y !! k).
Proof.
  intros Hf Him Hdst Hm w h N ys. pose proof Him as Hv. apply validate_dimensions_iff in Hv; [|done].
  unfold RawImage_to_yuv420. rewrite Him, Hdst. cbn [or_fail].
  unfold validate_dst_dimensions in Hdst. case_bool_decide as Hdim; [|done]. cbn [negb] in Hdst.
  apply validate_Ok in Hdst as [[[y u] v] Hp].
  pose proof (mono_pixels_spec im Hv Hm) as Hps. cbn zeta in Hps. fold w h N in Hps.
  set (ps := map _ _) in Hps.
  destruct (mono_to_yuv420_spec (IE:=IE) dst (y, u, v) ps) as (y' & Hy' & Hl & Hlook & Hrest).
  { done. } { rewrite Hdim. apply Hv. }
  { unfold ps. rewrite !length_map, length_seq, Hdim. cbn. fold w h. lia. }
  rewrite Hdim in Hlook, Hrest. cbn [fst snd] in *. fold w ys h in Hlook, Hrest.
  exists y, u, v, y'. eexists. split_and!; [apply Hp| |apply dimensions_set|apply strides_set| |done| |exact Hrest].
  - destruct (encoding im) eqn:Ee; try done; rewrite Hps; cbn [or_fail]; exact Hy'.
  - apply (yuv_set _ (y, u, v)); [apply Hp|]. split_and!; cbn; [done|by rewrite length_replicate..].
  - intros row col Hr Hc. apply Hlook; [done|]. unfold ps. rewrite !list_lookup_fmap.
    rewrite (proj2 (lookup_seq 0 (h * w) (row * w + col) (row * w + col))) by (split; [done|nia]).
    cbn. unfold pixel_at. by destruct (divmod_row w row col Hc) as [-> ->].
Qed.

(** ** Packed YUV 4:2:2 *)

Lemma repack_rows_spec {E} (d : list byte) s rl n : ∀ r0, rl ≤ s → (r0 + n) * s ≤ length d →
  ∃ packed, repack_rows (E:=E) d s rl (seq r0 n) = Ok packed ∧ length packed = n * rl ∧
    ∀ i j, i < n → j < rl → packed !! (i * rl + j) = d !! ((r0 + i) * s + j).
Proof.
  induction n as [|n IH]; intros r0 Hrl Hd; cbn [seq repack_rows].
  { exists []. split_and!; [done|done|lia]. }
  rewrite slice_ok by nia. cbn [mbind result_bind].
  destruct (IH (S r0)) as (rest & -> & Hl & Hlook); [done|nia|]. cbn [mbind result_bind].
  assert (length (take rl (drop (r0 * s) d)) = rl) as Hlen
    by (rewrite length_take, length_drop; nia).
  eexists. split_and!; [done|rewrite length_app; lia|].
  intros [|i] j Hi Hj.
  - rewrite lookup_app_l by lia. rewrite lookup_take_lt by lia. rewrite lookup_drop.
    f_equal. lia.
  - rewrite lookup_app_r by lia. rewrite Hlen.
    replace (S i * rl + j - rl) with (i * rl + j) by lia. rewrite Hlook by lia. f_equal. lia.
Qed.

Definition yuv422_conv (e : RawImageEncoding) : PlanarImage → PackedImage → planes * option YuvError :=
  match e with Uyvy => yuv_uyvy422_to_yuv420 | _ => yuv_yuyv422_to_yuv420 end.

(** A valid packed YUV 4:2:2 image is handed to the `yuv` crate with its rows
    packed at exactly twice the width, whatever its stride, along with the
    planes of the destination; no 32-bit computation overflows. *)
Lemma yuv422_image_spec im (dst : T) :
  image_fits im → validate_dimensions (YE:=YuvError) (IE:=IE) im = Ok tt →
  validate_dst_dimensions (YE:=YuvError) (IE:=IE) dst (width im) (height im) = Ok tt →
  encoding im = Uyvy ∨ encoding im = Yuyv →
  let w := Z.to_nat (width im) in let h := Z.to_nat (height im) in
  ∃ p packed, yuv dst = Some p ∧
    RawImage_to_yuv420 (IE:=IE) im dst = finish_conv dst (yuv422_conv (encoding im)
      {| pl_planes := p; pl_strides := yuv_strides dst; pl_width := width im;
         pl_height := height im |}
      {| yuy := packed; yuy_stride := 2 * width im; pk_width := width im;
         pk_height := height im |}) ∧
    h * (2 * w) ≤ length packed ∧
    (∀ row j, row < h → j < 2 * w → packed !! (row * (2 * w) + j) =
      data im !! (row * Z.to_nat (stride im) + j)).
Proof.
  intros Hf Him Hdst He w h. pose proof Him as Hv. apply validate_dimensions_iff in Hv; [|done].
  unfold RawImage_to_yuv420. rewrite Him, Hdst. cbn [or_fail].
  unfold validate_dst_dimensions in Hdst. case_bool_decide as Hdim; [|done]. cbn [negb] in Hdst.
  apply validate_Ok in Hdst as [p [Hyuv _ _]].
  destruct Hv as [Hw Hh Hrow Hdata _ Heven]. specialize (Heven He).
  assert (bytes_per_pixel (encoding im) = 2) as Hbpp by by destruct He as [-> | ->].
  rewrite Hbpp in Hrow. fold w h in Hrow, Hdata. set (st := Z.to_nat (stride im)) in *.
  destruct Hf as (_ & _ & [Hst1 Hst2]).
  assert (fits 32 (2 * width im)) as Hfit by (unfold fits; lia).
  assert (∃ packed, (if decide (stride im = 2 * width im)%Z then Ok (data im)
      else repack_rows (E:=Error YuvError IE) (data im) st (2 * w) (seq 0 h)) = Ok packed ∧
    h * (2 * w) ≤ length packed ∧
    ∀ row j, row < h → j < 2 * w → packed !! (row * (2 * w) + j) = data im !! (row * st + j))
    as (packed & Hpk & Hlen & Hlook).
  { case_decide as Hs.
    - assert (st = 2 * w) as Est by (unfold st, w; lia).
      exists (data im). rewrite <- Est. split_and!; [done|lia|done].
    - destruct (repack_rows_spec (E:=Error YuvError IE) (data im) st (2 * w) h 0)
        as (packed & Hp & Hl & Hk); [lia|lia|]. exists packed. split_and!; [done|lia|done]. }
  exists p, packed. split_and!; [done| |done|done].
  enough (yuv422_to_yuv420 (IE:=IE) dst (encoding im) (data im) (stride im) =
    finish_conv dst (yuv422_conv (encoding im)
      {| pl_planes := p; pl_strides := yuv_strides dst; pl_width := width im;
         pl_height := height im |}
      {| yuy := packed; yuy_stride := 2 * width im; pk_width := width im;
         pk_height := height im |})) as Hc by (by destruct He as [Ee|Ee]; rewrite Ee in *).
  unfold yuv422_to_yuv420. rewrite Hdim, Heven. cbn [negb].
  unfold checked_unsigned. rewrite !decide_True by (done || by rewrite Z.mul_comm).
  cbn [or_panic or_fail]. fold w h st. rewrite Hpk. cbn [or_fail].
  unfold wrapped. rewrite Hyuv, Hdim. cbn [or_panic mbind result_bind or_fail fst snd].
  rewrite (Z.mul_comm (width im) 2). by destruct He as [-> | ->].
Qed.

(** ** No conversion panics *)

Lemma rgb_to_yuv420_no_panic (dst : T) e d st : is_Some (yuv dst) →
  (e = Rgb8 ∨ e = Rgba8 ∨ e = Bgr8 ∨ e = Bgra8) →
  no_panic (rgb_to_yuv420 (IE:=IE) dst e d st).2.
Proof.
  intros [p Hp] He. unfold rgb_to_yuv420, wrapped, finish_conv, no_panic. rewrite Hp.
  destruct He as [-> |[-> |[-> | ->]]]; cbn; by destruct (_ : option YuvError).
Qed.

(** No image whose fields are 32-bit integers makes [RawImage::to_yuv420]
    panic, for any destination that can cut out its planes, valid or not. *)
Theorem RawImage_to_yuv420_no_panic im (dst : T) : image_fits im → is_Some (yuv dst) →
  no_panic (RawImage_to_yuv420 (IE:=IE) im dst).2.
Proof.
  intros Hf Hyuv. destruct (validate_dimensions_iff (YE:=YuvError) (IE:=IE) im Hf) as [Hv Hnp].
  destruct (validate_dimensions (YE:=YuvError) (IE:=IE) im) as [[]|e|] eqn:Him; [|..].
  2: { unfold RawImage_to_yuv420. by rewrite Him. }
  2: { by destruct Hnp. }
  destruct (validate_dst_dimensions (YE:=YuvError) (IE:=IE) dst (width im) (height im))
    as [[]|e|] eqn:Hdst.
  2: { unfold RawImage_to_yuv420. by rewrite Him, Hdst. }
  2: { unfold validate_dst_dimensions in Hdst. case_bool_decide; [|done].
       by destruct (validate_no_panic (YE:=YuvError) (IE:=IE) dst Hyuv). }
  destruct (encoding im) as [| | | | |en|en| | |cfa] eqn:Ee.
  1-4: unfold RawImage_to_yuv420; rewrite Him, Hdst, Ee; cbn [or_fail];
    apply rgb_to_yuv420_no_panic; auto.
  1-3: destruct (mono_image_spec im dst Hf Him Hdst) as (? & ? & ? & ? & ? & _ & -> & _);
    [by rewrite Ee|done].
  1-2: destruct (yuv422_image_spec im dst Hf Him Hdst ltac:(auto)) as (? & ? & _ & -> & _);
    unfold finish_conv, no_panic; cbn [snd]; by case_match.
  pose proof (demosaic_spec im cfa (proj1 Hv eq_refl) Hf Ee) as Hd. cbn zeta in Hd.
  unfold RawImage_to_yuv420. rewrite Him, Hdst, Ee. cbn [or_fail].
  case_bool_decide; [destruct Hd as (out & -> & _)|by rewrite Hd]. cbn [or_fail].
  apply rgb_to_yuv420_no_panic; auto.
Qed.
End to_yuv420.

(** ** Luma *)

Section luma_range.
Context (N : Z).
Hypothesis N_large : (149 ≤ N)%Z.
Local Open Scope Z_scope.

Lemma f32_of_Z_exact z : Z.abs z < 2 ^ 9 →
  scaled N (f32_of_Z z) ∧ sfval N (f32_of_Z z) = z * 2 ^ N.
Proof.
  intros Hz. destruct (normalize_between 24 128 ltac:(lia) ltac:(lia) N 0 9 z 0 false z z)
    as [Hr Hv]; [lia|unfold emin; lia|unfold fexp, emin; lia|unfold fexp, emin; lia| | |].
  - rewrite Z.add_0_l, (Z.pow_add_r 2 9) by lia.
    apply Z.mul_lt_mono_pos_r; [apply Z.pow_pos_nonneg; lia|done].
  - rewrite Z.add_0_l. lia.
  - split; [done|]. unfold f32_of_Z. rewrite Z.add_0_l in Hv. lia.
Qed.

Lemma f32_clamp_range p : valid_binary 24 128 p = true → p ≠ S754_nan →
  scaled N (f32_clamp p (f32_of_Z 0) (f32_of_Z 1)) ∧
  0 ≤ sfval N (f32_clamp p (f32_of_Z 0) (f32_of_Z 1)) ≤ 2 ^ N.
Proof.
  intros Hv Hn. assert (0 < 2 ^ N) by (apply Z.pow_pos_nonneg; lia).
  destruct (f32_of_Z_exact 0 ltac:(lia)) as [S0 V0]. destruct (f32_of_Z_exact 1 ltac:(lia)) as [S1 V1].
  destruct (is_real p) eqn:Er.
  - assert (valid_real 24 128 p = true) as Hp by (unfold valid_real; by rewrite Er, Hv).
    pose proof (valid_scaled 24 128 N p ltac:(unfold emin; lia) Hp) as Sp.
    unfold f32_clamp, f32_lt, SFltb.
    rewrite !(SFcompare_real 24 128 N) by (done || unfold emin; lia). rewrite V0, V1.
    destruct (Z.compare_spec (sfval N p) (0 * 2 ^ N)); cbn [sfval]; try (split; [done|lia]);
      destruct (Z.compare_spec (1 * 2 ^ N) (sfval N p)); (split; [done|lia]).
  - destruct p as [|[]| |]; try done.
    + assert (f32_clamp (S754_infinity true) (f32_of_Z 0) (f32_of_Z 1) = f32_of_Z 0) as -> by done.
      rewrite V0. split; [done|lia].
    + assert (f32_clamp (S754_infinity false) (f32_of_Z 0) (f32_of_Z 1) = f32_of_Z 1) as -> by done.
      rewrite V1. split; [done|lia].
Qed.

(** Rounding to the nearest integer, upwards at the half. *)
Lemma f32_round_spec M x : 0 ≤ M → scaled M x → 0 ≤ sfval M x →
  f32_round_as_u8 x = Z.min 255 ((2 * sfval M x + 2 ^ M) / (2 * 2 ^ M)).
Proof.
  intros HM Hx Hv. assert (0 < 2 ^ M) as HS by (apply Z.pow_pos_nonneg; lia).
  destruct x as [| | |s m e]; try done; cbn [sfval f32_round_as_u8] in *.
  { rewrite Z.mul_0_r, Z.add_0_l, Z.div_small; lia. }
  cbn [scaled] in Hx. assert (0 < 2 ^ (e + M)) by (apply Z.pow_pos_nonneg; lia).
  destruct s; cbn [cond_Zopp] in *; [lia|]. f_equal. case_decide.
  - rewrite Z.pow_add_r by lia. apply Z.div_unique with (2 ^ M); lia.
  - assert (2 ^ M = 2 ^ (- e) * 2 ^ (e + M)) as -> by (rewrite <- Z.pow_add_r by lia; f_equal; lia).
    assert (0 < 2 ^ (- e)) by (apply Z.pow_pos_nonneg; lia).
    replace (2 * (Zpos m * 2 ^ (e + M)) + 2 ^ (- e) * 2 ^ (e + M)) with
      ((2 * Zpos m + 2 ^ (- e)) * 2 ^ (e + M)) by lia.
    rewrite Z.mul_assoc, Z.div_mul_cancel_r by lia. done.
Qed.

Lemma luma_range_scaled p : valid_binary 24 128 p = true → p ≠ S754_nan →
  16 ≤ byte_val (luma p) ≤ 235.
Proof.
  intros Hv Hn. destruct (f32_clamp_range p Hv Hn) as [Sx Vx]. unfold luma.
  set (x := f32_clamp _ _ _) in *. assert (0 < 2 ^ N) as HS by (apply Z.pow_pos_nonneg; lia).
  destruct (f32_of_Z_exact 219 ltac:(lia)) as [Sk Vk]. destruct (f32_of_Z_exact 16 ltac:(lia)) as [Sc Vc].
  assert (2 ^ (0 + (N + N)) = 2 ^ N * 2 ^ N) as E0 by (rewrite Z.add_0_l, Z.pow_add_r by lia; done).
  destruct (mul_between 24 128 ltac:(lia) ltac:(lia) N N 0 9 x (f32_of_Z 219) 0 219)
    as [Sm Vm]; [done|done|lia|unfold fexp, emin; lia| | |].
  { rewrite Vk, (Z.pow_add_r 2 9), Z.pow_add_r by lia. change (2 ^ 9) with 512. nia. }
  { rewrite E0, Vk. nia. }
  rewrite E0 in Vm. set (y := SFmul 24 128 x (f32_of_Z 219)) in *.
  assert (scaled (N + N) (f32_of_Z 16) ∧ sfval (N + N) (f32_of_Z 16) = 16 * (2 ^ N * 2 ^ N))
    as [Sc2 Vc2].
  { split; [clear -Sc N_large; destruct (f32_of_Z 16); cbn in *; done || lia|].
    rewrite (sfval_scale N) by (done || lia). rewrite Vc. replace (N + N - N) with N by lia. lia. }
  destruct (add_between 24 128 ltac:(lia) ltac:(lia) (N + N) 0 9 (f32_of_Z 16) y 16 235)
    as [Sa Va]; [done|done|unfold emin; lia|lia|unfold fexp, emin; lia| | |].
  { rewrite Vc2, (Z.pow_add_r 2 9), Z.pow_add_r by lia. change (2 ^ 9) with 512. nia. }
  { rewrite E0, Vc2. lia. }
  rewrite E0 in Va. rewrite byte_val_byte, (f32_round_spec (N + N)) by (done || lia).
  set (z := SFadd 24 128 _ y) in *. rewrite Z.pow_add_r by lia. set (S := 2 ^ N * 2 ^ N) in *.
  assert (0 < S) by (unfold S; lia).
  assert (16 ≤ (2 * sfval (N + N) z + S) / (2 * S) ≤ 235).
  { split; [apply Z.div_le_lower_bound; lia|].
    assert ((2 * sfval (N + N) z + S) / (2 * S) < 236); [|lia].
    apply Z.div_lt_upper_bound; lia. }
  rewrite Z.mod_small; lia.
Qed.
End luma_range.

(** On 8-bit pixels the floats give the correctly rounded [16 + 219 * v / 255]. *)
Definition luma8 (v : Z) : Z := (2 * (16 * 255 + 219 * v) + 255) / (2 * 255).
Lemma luma_mono8 b : luma (brightness Mono8 [b]) = val_byte (luma8 (byte_val b)).
Proof. by destruct b; vm_compute. Qed.

(** The luma of every brightness lies in the limited range, whatever the
    float, infinities included; that of a NaN is zero, outside the range. *)
Theorem luma_limited_range :
  (∀ p, valid_binary 24 128 p = true → p ≠ S754_nan → (16 ≤ byte_val (luma p) ≤ 235)%Z) ∧
  byte_val (luma S754_nan) = 0%Z.
Proof. split; [intros p; by apply (luma_range_scaled 149)|done]. Qed.

Section equivalence.
Context `{YuvCrate} {IE T : Type} `{Yuv420BufferLaws T}.

(** Converting a valid 8-bit monochrome image stores at every pixel of the
    luma plane the correctly rounded integer [16 + 219 * v / 255], although the
    code computes in 32-bit floats; it sets both chroma planes to 128 and
    leaves the padding of the luma rows alone. *)
Theorem mono8_image_to_yuv420 im (dst : T) :
  image_fits im → validate_dimensions (YE:=YuvError) (IE:=IE) im = Ok tt →
  validate_dst_dimensions (YE:=YuvError) (IE:=IE) dst (width im) (height im) = Ok tt →
  encoding im = Mono8 →
  let w := Z.to_nat (width im) in let h := Z.to_nat (height im) in
  let ys := Z.to_nat (yuv_strides dst).1.1 in
  ∃ y u v y' dst', yuv dst = Some (y, u, v) ∧ RawImage_to_yuv420 (IE:=IE) im dst = (dst', Ok tt) ∧
    yuv dst' =
      Some (y', replicate (length u) (val_byte 128), replicate (length v) (val_byte 128)) ∧
    length y' = length y ∧
    (∀ row col, row < h → col < w → ∃ b, data im !! (row * Z.to_nat (stride im) + col) = Some b ∧
      y' !! (row * ys + col) = Some (val_byte (luma8 (byte_val b)))) ∧
    (∀ k, (∀ row col, row < h → col < w → k ≠ row * ys + col) → y' !! k = y !! k).
Proof.
  intros Hf Him Hdst He w h ys.
  destruct (mono_image_spec im dst Hf Him Hdst) as (y & u & v & y' & dst' & Hy & Hr & _ & _ & Hd & Hl & Hp & Hrest);
    [by rewrite He|].
  exists y, u, v, y', dst'. split_and!; [done..| |done].
  intros row col Hrow Hcol. specialize (Hp row col Hrow Hcol). rewrite He in Hp.
  cbn [bytes_per_pixel] in Hp. rewrite Nat.mul_1_r in Hp.
  apply validate_dimensions_iff in Him as [_ _ Hst Hdata _ _]; [|done]. rewrite He in Hst.
  cbn [bytes_per_pixel] in Hst. fold w in Hst. fold h in Hdata.
  destruct (lookup_lt_is_Some_2 (data im) (row * Z.to_nat (stride im) + col)) as [b Hb]; [nia|].
  exists b. split; [done|]. rewrite <- luma_mono8. rewrite (drop_S _ _ _ Hb) in Hp. exact Hp.
Qed.

(** A valid Bayer image is handed to the `yuv` crate as an RGB8 image of the
    same dimensions in which every pixel has the red and blue of its 2x2
    region and the green of its row; the only other outcome is the error for
    a row of RGB that does not fit 32 bits. *)
Theorem bayer_image_to_yuv420 im cfa (dst : T) :
  image_fits im → validate_dimensions (YE:=YuvError) (IE:=IE) im = Ok tt →
  validate_dst_dimensions (YE:=YuvError) (IE:=IE) dst (width im) (height im) = Ok tt →
  encoding im = Bayer8 cfa →
  let w := Z.to_nat (width im) in let h := Z.to_nat (height im) in
  if bool_decide (fits 32 (width im * 3)) then
    ∃ p out, yuv dst = Some p ∧
      RawImage_to_yuv420 (IE:=IE) im dst = finish_conv dst (yuv_rgb_to_yuv420
        {| pl_planes := p; pl_strides := yuv_strides dst; pl_width := width im;
           pl_height := height im |} out (width im * 3)) ∧
      length out = 3 * w * h ∧
      ∀ row col, row < h → col < w → ∃ px,
        rgb_at cfa (data im) (Z.to_nat (stride im)) row col = Some px ∧ length px = 3 ∧
        ∀ c, c < 3 → out !! (3 * (row * w + col) + c) = px !! c
  else RawImage_to_yuv420 (IE:=IE) im dst = (dst, Err DimensionsTooLargeForU32).
Proof.
  intros Hf Him Hdst He w h. pose proof Him as Hv. apply validate_dimensions_iff in Hv; [|done].
  pose proof (demosaic_spec (IE:=IE) im cfa Hv Hf He) as Hd. cbn zeta in Hd. fold w h in Hd.
  unfold RawImage_to_yuv420. rewrite Him, Hdst, He. cbn [or_fail].
  unfold validate_dst_dimensions in Hdst.
  destruct (decide (dimensions dst = (width im, height im))) as [Hdim|];
    [rewrite bool_decide_true in Hdst by done|by rewrite bool_decide_false in Hdst].
  cbn [negb] in Hdst. apply validate_Ok in Hdst as [p [Hyuv _ _]].
  case_bool_decide; [|by rewrite Hd]. destruct Hd as (out & -> & Hl & Hpx). cbn [or_fail].
  exists p, out. split_and!; [done| |done|done].
  unfold rgb_to_yuv420, wrapped. cbn [or_fail]. by rewrite Hyuv, Hdim.
Qed.
End equivalence.

(** ** Compressed images *)

Inductive Compression := Png | Jpeg | WebP.
#[export] Instance Compression_eq_dec : EqDecision Compression.
Proof. solve_decision. Defined.

Definition Compression_from_str (s : string) : option Compression :=
  if String.eqb s "png" then Some Png
  else if String.eqb s "jpg" || String.eqb s "jpeg" then Some Jpeg
  else if String.eqb s "webp" then Some WebP
  else None.

(** The `image` crate: the decoded RGB8 pixels with their dimensions, and the
    dimensions alone. *)
Class ImageCrate := {
  ImageError : Type;
  load_rgb8 : Compression → list byte → result ImageError (Z * Z * list byte);
  into_dimensions : Compression → list byte → result ImageError (Z * Z)
}.
Class ImageCrateLaws `{ImageCrate} : Prop := {
  load_no_panic : ∀ c d, no_panic (load_rgb8 c d);
  load_dimensions : ∀ c d w h px, load_rgb8 c d = Ok (w, h, px) → fits 32 w ∧ fits 32 h
}.

Record CompressedImage := { compression : Compression; ci_data : list byte }.
Inductive Image := CompressedImg (image : CompressedImage) | RawImg (image : RawImage).

Section images.
Context `{YuvCrate} `{ImageCrate} {T : Type} `{Yuv420Buffer T}.
Abbreviation Res A := (result (Error YuvError ImageError) A).

Definition map_err {E E' A} (f : E → E') (r : result E A) : result E' A :=
  match r with Ok a => Ok a | Err e => Err (f e) | Panic => Panic end.

Definition CompressedImage_probe_dimensions (im : CompressedImage) : Res (Z * Z) :=
  map_err ReadDimensions (into_dimensions (compression im) (ci_data im)).

Definition CompressedImage_to_yuv420 (im : CompressedImage) (dst : T) : T * Res unit :=
  or_fail (map_err Decompress (load_rgb8 (compression im) (ci_data im))) dst
    (λ '(width, height, rgb),
  or_fail (or_panic (checked_unsigned 32 (width * 3))) dst (λ stride,
  or_fail (validate_dst_dimensions dst width height) dst (λ _,
  rgb_to_yuv420 dst Rgb8 rgb stride))).

Definition probe_dimensions (im : Image) : Res (Z * Z) :=
  match im with
  | CompressedImg image => CompressedImage_probe_dimensions image
  | RawImg image => Ok (width image, height image)
  end.

Definition Image_to_yuv420 (im : Image) (dst : T) : T * Res unit :=
  match im with
  | CompressedImg image => CompressedImage_to_yuv420 image dst
  | RawImg image => RawImage_to_yuv420 image dst
  end.

(** A compressed image makes [to_yuv420] panic (in a build that checks for
    overflow) exactly when a row of RGB does not fit 32 bits: here this is not
    an error as it is for Bayer images. *)
Theorem CompressedImage_to_yuv420_spec `{!ImageCrateLaws} `{!Yuv420BufferLaws T}
    (im : CompressedImage) (dst : T) : is_Some (yuv dst) →
  match load_rgb8 (compression im) (ci_data im) with
  | Ok (w, h, rgb) =>
    if bool_decide (fits 32 (w * 3)) then
      no_panic (CompressedImage_to_yuv420 im dst).2 ∧
      (dimensions dst ≠ (w, h) → CompressedImage_to_yuv420 im dst =
        (dst, Err (DimensionMismatch "Yuv420Buffer" (w, h) (dimensions dst))))
    else CompressedImage_to_yuv420 im dst = (dst, Panic)
  | Err e => CompressedImage_to_yuv420 im dst = (dst, Err (Decompress e))
  | Panic => False
  end.
Proof.
  intros Hyuv. unfold CompressedImage_to_yuv420.
  pose proof (load_no_panic (compression im) (ci_data im)) as Hnp.
  destruct (load_rgb8 _ _) as [[[w h] rgb]|e|]; [|done|done]. cbn [map_err or_fail].
  unfold checked_unsigned. case_bool_decide as Hfit; [|by rewrite decide_False].
  rewrite decide_True by done. cbn [or_panic or_fail]. split.
  - destruct (validate_dst_dimensions (YE:=YuvError) (IE:=ImageError) dst w h) as [[]|e|] eqn:Hd;
      cbn [or_fail]; [apply rgb_to_yuv420_no_panic; auto|done|].
    unfold validate_dst_dimensions in Hd. case_bool_decide; [|done].
    by destruct (validate_no_panic (YE:=YuvError) (IE:=ImageError) dst Hyuv).
  - intros Hne. unfold validate_dst_dimensions. by rewrite bool_decide_false by done.
Qed.
End images.

(** ** An instance of the crates, and witnesses *)

Definition yuv_ref : YuvCrate := {|
  YuvError := unit;
  yuv_rgb_to_yuv420 := λ w _ _, (pl_planes w, None);
  yuv_rgba_to_yuv420 := λ w _ _, (pl_planes w, None);
  yuv_bgr_to_yuv420 := λ w _ _, (pl_planes w, None);
  yuv_bgra_to_yuv420 := λ w _ _, (pl_planes w, None);
  yuv_yuyv422_to_yuv420 := λ w _, (pl_planes w, None);
  yuv_uyvy422_to_yuv420 := λ w _, (pl_planes w, None)
|}.

Definition small_image (e : RawImageEncoding) (stride : Z) : RawImage :=
  {| encoding := e; width := 2; height := 2; stride := stride;
     data := map val_byte (map Z.of_nat (seq 0 (2 * Z.to_nat stride))) |}.
Definition small_dst : Yuv420Vec :=
  {| yv_data := replicate 6 Byte.x00; yv_width := 2; yv_height := 2 |}.

Ltac image_fits := unfold image_fits, fits; cbn; lia.

Lemma Yuv420Vec_new_valid_witness :
  ∃ b p, Yuv420Vec_new (E:=unit) 4 2 = Ok b ∧ dimensions b = (4, 2)%Z ∧ yuv b = Some p ∧
    p.1.1 ++ p.1.2 ++ p.2 = yv_data b ∧ length p.1.2 = 2 ∧ length p.2 = length p.1.2 ∧
    validate_dst_dimensions (YE:=unit) (IE:=unit) b 4 2 = Ok tt.
Proof.
  refine (Yuv420Vec_new_valid (E:=unit) (YE:=unit) (IE:=unit) 4 2 _ _); unfold fits; lia.
Defined.

Lemma bayer_image_to_yuv420_witness :
  ∃ p out, yuv small_dst = Some p ∧
    @RawImage_to_yuv420 yuv_ref unit _ _ (small_image (Bayer8 Grbg) 3) small_dst =
      finish_conv small_dst (p, None) ∧
    length out = 12 ∧ out !! 6 = Some (val_byte 1) ∧ out !! 7 = Some (val_byte 4) ∧
    out !! 8 = Some (val_byte 3).
Proof.
  destruct (@bayer_image_to_yuv420 yuv_ref unit _ _ (small_image (Bayer8 Grbg) 3) Grbg small_dst)
    as (p & out & Hy & Hr & Hl & Hp); [image_fits|reflexivity|reflexivity|reflexivity|].
  exists p, out. split; [exact Hy|]. split; [exact Hr|]. split; [exact Hl|].
  destruct (Hp 1 0 ltac:(cbn; lia) ltac:(cbn; lia)) as (px & Hpx & _ & Hc).
  vm_compute in Hpx. injection Hpx as <-.
  split; [exact (Hc 0 ltac:(lia))|]. split; [exact (Hc 1 ltac:(lia))|exact (Hc 2 ltac:(lia))].
Defined.

Lemma mono8_image_to_yuv420_witness :
  ∃ y u v dst', yuv small_dst = Some (y, u, v) ∧
    @RawImage_to_yuv420 yuv_ref unit _ _ (small_image Mono8 3) small_dst = (dst', Ok tt) ∧
    ∃ y', yuv dst' = Some (y', [val_byte 128], [val_byte 128]) ∧
      y' !! 2 = Some (val_byte (luma8 3)) ∧ luma8 3 = 19%Z.
Proof.
  destruct (@mono8_image_to_yuv420 yuv_ref unit _ _ _ (small_image Mono8 3) small_dst)
    as (y & u & v & y' & dst' & Hy & Hr & Hd & Hl & Hp & _);
    [image_fits|reflexivity|reflexivity|reflexivity|].
  exists y, u, v, dst'. split; [exact Hy|]. split; [exact Hr|]. exists y'.
  injection Hy as <- <- <-. split; [exact Hd|].
  destruct (Hp 1 0 ltac:(cbn; lia) ltac:(cbn; lia)) as (b & Hb & H1).
  injection Hb as <-. split; [exact H1|reflexivity].
Defined.

Lemma RawImage_to_yuv420_no_panic_witness :
  no_panic (@RawImage_to_yuv420 yuv_ref unit _ _ (small_image (Bayer8 Rggb) 2) small_dst).2.
Proof.
  refine (@RawImage_to_yuv420_no_panic yuv_ref unit _ _ _ (small_image (Bayer8 Rggb) 2) small_dst _ _).
  - image_fits.
  - by eexists.
Defined.

Lemma luma_limited_range_witness :
  (16 ≤ byte_val (luma (S754_infinity false)) ≤ 235)%Z.
Proof. exact (proj1 luma_limited_range (S754_infinity false) eq_refl ltac:(discriminate)). Defined.
