(* ===== verification/Ros.v ===== *)
(** * Ros: image messages and the ROS decoders

    `img2yuv/message.rs`, `img2yuv/ros1.rs`, `img2yuv/ros2.rs` and the ROS part
    of `img2yuv/compressed.rs`: the decoder of ROS 1 image messages is the exact
    inverse of the message layout, never panics, and the conversion to an
    [ImageMessage] panics exactly when the header's time is out of range.

    Parameters: the fallible getters of the `bytes` crate ([TryBuf]), the
    regular expressions of the format string ([RosFormat]), and the `cdr` crate
    ([Cdr]). *)

From S2P Require Import Prelude Bytes Floats Time Image.
Local Open Scope Z_scope.

(** ** The getters of the `bytes` crate *)

Record TryGetError := { requested : nat; available : nat }.
Class TryBuf := {
  try_get_u8 : list byte → result TryGetError (Z * list byte);
  try_get_u32_le : list byte → result TryGetError (Z * list byte);
  buf_advance : nat → list byte → option (list byte)
}.
Definition tries_le (n : nat) (get : list byte → result TryGetError (Z * list byte)) : Prop :=
  ∀ l, get l = if decide (n ≤ length l)%nat then Ok (le_val (take n l), drop n l)
               else Err {| requested := n; available := length l |}.
Class TryBufLaws `{TryBuf} : Prop := {
  try_get_u8_spec : tries_le 1 try_get_u8;
  try_get_u32_le_spec : tries_le 4 try_get_u32_le;
  buf_advance_spec : ∀ n l, buf_advance n l =
    if decide (n ≤ length l)%nat then Some (drop n l) else None
}.

(** ** Errors *)

Inductive Ros1DecodeError :=
| UnexpectedEof (want avail : nat)
| InvalidUtf8
| UnknownEncoding (s : string)
| UnknownCompression (s : string).

Definition of_try_get {A} (r : result TryGetError A) : result Ros1DecodeError A :=
  map_err (λ e, UnexpectedEof (requested e) (available e)) r.

(** The two regular expressions of [try_from_ros_format]: their capture [codec]. *)
Class RosFormat := {
  compressed_codec : string → option string;
  compressed_depth_codec : string → option string
}.

Definition try_from_ros_format `{RosFormat} (format : string) : option Compression :=
  let codec := match compressed_codec format with
    | Some c => c
    | None => match compressed_depth_codec format with Some c => c | None => format end
    end in
  Compression_from_str codec.

(** ** Image messages *)

Record ImageMessage := { im_timestamp : option Timestamp; im_frame_id : string; im_image : Image }.

(** The generated [schemas::CompressedImage] and [schemas::RawImage]. *)
Record schemas_CompressedImage := {
  sc_timestamp : option Timestamp; sc_frame_id : string; sc_data : list byte; sc_format : string
}.
Record schemas_RawImage := {
  sr_timestamp : option Timestamp; sr_frame_id : string; sr_width : Z; sr_height : Z;
  sr_encoding : string; sr_step : Z; sr_data : list byte
}.

Definition ImageMessage_of_compressed (image : schemas_CompressedImage) : result string ImageMessage :=
  c ← ok_or (E:=string) (Compression_from_str (sc_format image)) (sc_format image);
  Ok {| im_timestamp := sc_timestamp image; im_frame_id := sc_frame_id image;
        im_image := CompressedImg {| compression := c; ci_data := sc_data image |} |}.

Definition ImageMessage_of_raw (image : schemas_RawImage) : result string ImageMessage :=
  e ← ok_or (E:=string) (parse_endian (sr_encoding image) Little) (sr_encoding image);
  Ok {| im_timestamp := sr_timestamp image; im_frame_id := sr_frame_id image;
        im_image := RawImg {| encoding := e; width := sr_width image; height := sr_height image;
                              stride := sr_step image; data := sr_data image |} |}.

(** ** ROS 1 *)

Record Ros1Header := { h_seq : Z; h_sec : Z; h_nsec : Z; h_frame_id : string }.
Record Ros1Image := {
  r1_header : Ros1Header; r1_height : Z; r1_width : Z; r1_encoding : string;
  r1_is_bigendian : Z; r1_step : Z; r1_data : list byte
}.
Record Ros1CompressedImage := { c1_header : Ros1Header; c1_format : string; c1_data : list byte }.

Section ros1.
Context `{TryBuf}.
Abbreviation Dec A := (result Ros1DecodeError (A * list byte)).

Definition try_get_ros1_bytes (buf : list byte) : Dec (list byte) :=
  '(len, buf) ← of_try_get (try_get_u32_le buf);
  let len := Z.to_nat len in
  if bool_decide (length buf < len)%nat then Err (UnexpectedEof len (length buf))
  else
    bytes ← or_panic (slice_to len buf);
    buf ← or_panic (buf_advance len buf);
    Ok (bytes, buf).

Definition try_get_ros1_str (buf : list byte) : Dec string :=
  '(bytes, buf) ← try_get_ros1_bytes buf;
  str ← ok_or (from_utf8 bytes) InvalidUtf8;
  Ok (str, buf).

Definition try_get_ros1_header (buf : list byte) : Dec Ros1Header :=
  '(seq, buf) ← of_try_get (try_get_u32_le buf);
  '(sec, buf) ← of_try_get (try_get_u32_le buf);
  '(nsec, buf) ← of_try_get (try_get_u32_le buf);
  '(frame_id, buf) ← try_get_ros1_str buf;
  Ok ({| h_seq := seq; h_sec := sec; h_nsec := nsec; h_frame_id := frame_id |}, buf).

Definition Ros1Image_decode (data : list byte) : result Ros1DecodeError Ros1Image :=
  '(header, data) ← try_get_ros1_header data;
  '(height, data) ← of_try_get (try_get_u32_le data);
  '(width, data) ← of_try_get (try_get_u32_le data);
  '(encoding, data) ← try_get_ros1_str data;
  '(is_bigendian, data) ← of_try_get (try_get_u8 data);
  '(step, data) ← of_try_get (try_get_u32_le data);
  '(data, _) ← try_get_ros1_bytes data;
  Ok {| r1_header := header; r1_height := height; r1_width := width; r1_encoding := encoding;
        r1_is_bigendian := is_bigendian; r1_step := step; r1_data := data |}.

Definition Ros1CompressedImage_decode (data : list byte) : result Ros1DecodeError Ros1CompressedImage :=
  '(header, data) ← try_get_ros1_header data;
  '(format, data) ← try_get_ros1_str data;
  '(data, _) ← try_get_ros1_bytes data;
  Ok {| c1_header := header; c1_format := format; c1_data := data |}.
End ros1.

Definition ImageMessage_of_ros1 (image : Ros1Image) : result Ros1DecodeError ImageMessage :=
  let endian := if 0 <? r1_is_bigendian image then Big else Little in
  e ← ok_or (parse_endian (r1_encoding image) endian) (UnknownEncoding (r1_encoding image));
  timestamp ← Timestamp_new (h_sec (r1_header image)) (h_nsec (r1_header image));
  Ok {| im_timestamp := Some timestamp; im_frame_id := h_frame_id (r1_header image);
        im_image := RawImg {| encoding := e; width := r1_width image; height := r1_height image;
                              stride := r1_step image; data := r1_data image |} |}.

Definition ImageMessage_of_ros1_compressed `{RosFormat} (image : Ros1CompressedImage) :
    result Ros1DecodeError ImageMessage :=
  c ← ok_or (try_from_ros_format (c1_format image)) (UnknownCompression (c1_format image));
  timestamp ← Timestamp_new (h_sec (c1_header image)) (h_nsec (c1_header image));
  Ok {| im_timestamp := Some timestamp; im_frame_id := h_frame_id (c1_header image);
        im_image := CompressedImg {| compression := c; ci_data := c1_data image |} |}.

(** ** ROS 2 *)

Record Ros2Time := { t2_sec : Z; t2_nanosec : Z }.
Record Ros2Header := { h2_stamp : Ros2Time; h2_frame_id : string }.
Record Ros2Image := {
  r2_header : Ros2Header; r2_height : Z; r2_width : Z; r2_encoding : string;
  r2_is_bigendian : Z; r2_step : Z; r2_data : list byte
}.
Record Ros2CompressedImage := { c2_header : Ros2Header; c2_format : string; c2_data : list byte }.

(** The `cdr` crate's deserialisation of the derived types. *)
Class Cdr := {
  CdrError : Type;
  cdr_image : list byte → result CdrError Ros2Image;
  cdr_compressed : list byte → result CdrError Ros2CompressedImage
}.

Inductive Ros2DecodeError {E : Type} :=
| NegativeTimestamp
| CdrErr (e : E)
| UnknownEncoding2 (s : string)
| UnknownCompression2 (s : string).
Arguments Ros2DecodeError : clear implicits.

Definition Timestamp_of_ros2 {E} (value : Ros2Time) : result (Ros2DecodeError E) Timestamp :=
  if t2_sec value <? 0 then Err NegativeTimestamp
  else Timestamp_new (wrap 32 (t2_sec value)) (t2_nanosec value).

Section ros2.
Context `{Cdr} `{RosFormat}.

Definition Ros2Image_decode (data : list byte) : result (Ros2DecodeError CdrError) Ros2Image :=
  map_err CdrErr (cdr_image data).
Definition Ros2CompressedImage_decode (data : list byte) :
    result (Ros2DecodeError CdrError) Ros2CompressedImage :=
  map_err CdrErr (cdr_compressed data).

Definition ImageMessage_of_ros2 (image : Ros2Image) : result (Ros2DecodeError CdrError) ImageMessage :=
  let endian := if 0 <? r2_is_bigendian image then Big else Little in
  e ← ok_or (parse_endian (r2_encoding image) endian) (UnknownEncoding2 (r2_encoding image));
  timestamp ← Timestamp_of_ros2 (h2_stamp (r2_header image));
  Ok {| im_timestamp := Some timestamp; im_frame_id := h2_frame_id (r2_header image);
        im_image := RawImg {| encoding := e; width := r2_width image; height := r2_height image;
                              stride := r2_step image; data := r2_data image |} |}.

Definition ImageMessage_of_ros2_compressed (image : Ros2CompressedImage) :
    result (Ros2DecodeError CdrError) ImageMessage :=
  c ← ok_or (try_from_ros_format (c2_format image)) (UnknownCompression2 (c2_format image));
  timestamp ← Timestamp_of_ros2 (h2_stamp (c2_header image));
  Ok {| im_timestamp := Some timestamp; im_frame_id := h2_frame_id (c2_header image);
        im_image := CompressedImg {| compression := c; ci_data := c2_data image |} |}.
End ros2.

(** ** The layout of ROS 1 messages *)

Definition bytes_layout (bs : list byte) : list byte := le_bytes 4 (Z.of_nat (length bs)) ++ bs.
Definition str_layout (s : string) : list byte := bytes_layout (as_bytes s).
Definition header_layout (h : Ros1Header) : list byte :=
  le_bytes 4 (h_seq h) ++ le_bytes 4 (h_sec h) ++ le_bytes 4 (h_nsec h) ++ str_layout (h_frame_id h).
Definition image_layout (i : Ros1Image) : list byte :=
  header_layout (r1_header i) ++ le_bytes 4 (r1_height i) ++ le_bytes 4 (r1_width i) ++
  str_layout (r1_encoding i) ++ le_bytes 1 (r1_is_bigendian i) ++ le_bytes 4 (r1_step i) ++
  bytes_layout (r1_data i).
Definition compressed_layout (i : Ros1CompressedImage) : list byte :=
  header_layout (c1_header i) ++ str_layout (c1_format i) ++ bytes_layout (c1_data i).

Definition bytes_wf (bs : list byte) : Prop := fits 32 (Z.of_nat (length bs)).
Definition str_wf (s : string) : Prop := is_utf8 s ∧ bytes_wf (as_bytes s).
Definition header_wf (h : Ros1Header) : Prop :=
  fits 32 (h_seq h) ∧ fits 32 (h_sec h) ∧ fits 32 (h_nsec h) ∧ str_wf (h_frame_id h).
Definition image_wf (i : Ros1Image) : Prop :=
  header_wf (r1_header i) ∧ fits 32 (r1_height i) ∧ fits 32 (r1_width i) ∧ str_wf (r1_encoding i) ∧
  fits 8 (r1_is_bigendian i) ∧ fits 32 (r1_step i) ∧ bytes_wf (r1_data i).
Definition compressed_wf (i : Ros1CompressedImage) : Prop :=
  header_wf (c1_header i) ∧ str_wf (c1_format i) ∧ bytes_wf (c1_data i).

(** [p] is the exact inverse of a layout: it accepts its images, followed by
    anything, and nothing else; and it never panics. *)
Definition decodes {A} (p : list byte → result Ros1DecodeError (A * list byte))
    (wf : A → Prop) (layout : A → list byte) : Prop :=
  ∀ d, no_panic (p d) ∧ ∀ a rest, p d = Ok (a, rest) ↔ wf a ∧ d = layout a ++ rest.

Lemma decodes_Ok {A} p (wf : A → Prop) layout a rest :
  decodes p wf layout → wf a → p (layout a ++ rest) = Ok (a, rest).
Proof. intros Hp Ha. by apply Hp. Qed.

Lemma le_decodes n w get : w = 8 * Z.of_nat n → tries_le n get →
  decodes (λ d, of_try_get (get d)) (fits w) (le_bytes n).
Proof.
  unfold decodes, tries_le. intros Hw Hget d. cbv beta. rewrite !Hget. case_decide as Hl; cbn; (split; [done|]); intros a rest.
  - assert (length (take n d) = n) as Ht by (rewrite length_take; lia). split.
    + intros [= <- <-]. split; [by apply (le_val_fits n)|].
      rewrite <- (take_drop n d) at 1. f_equal. rewrite <- Ht at 2. by rewrite le_bytes_val.
    + intros [Hf ->]. rewrite take_app_length', drop_app_length' by (by rewrite length_le_bytes).
      by rewrite (le_val_roundtrip n w).
  - split; [done|]. intros [_ ->]. rewrite length_app, length_le_bytes in Hl. lia.
Qed.

Section decoding.
Context `{TryBufLaws}.

Lemma u32_decodes : decodes (λ d, of_try_get (try_get_u32_le d)) (fits 32) (le_bytes 4).
Proof. apply le_decodes; [done|apply try_get_u32_le_spec]. Qed.
Lemma u8_decodes : decodes (λ d, of_try_get (try_get_u8 d)) (fits 8) (le_bytes 1).
Proof. apply le_decodes; [done|apply try_get_u8_spec]. Qed.

(** One step of a decoder, forwards and backwards. *)
Ltac step L Hd := apply bind_Ok in Hd as ([? ?] & [? ->]%L & Hd).
Ltac fwd L := rewrite (decodes_Ok _ _ _ _ _ L) by done; cbn [mbind result_bind].
Ltac safe L := apply no_panic_bind; [apply L|intros [? ?] _].

Lemma bytes_decodes : decodes try_get_ros1_bytes bytes_wf bytes_layout.
Proof.
  intros d. unfold try_get_ros1_bytes. split.
  - safe u32_decodes. case_bool_decide; [done|]. unfold slice_to. rewrite decide_True by lia.
    rewrite buf_advance_spec, decide_True by lia. done.
  - intros bs rest. split.
    + intros Hd. step u32_decodes Hd. rename z into len. case_bool_decide as Hl; [done|].
      unfold slice_to in Hd. rewrite buf_advance_spec, !decide_True in Hd by lia.
      cbn in Hd. injection Hd as <- <-.
      assert (Z.of_nat (length (take (Z.to_nat len) l)) = len) as Elen.
      { unfold fits in *. rewrite length_take. lia. }
      split; unfold bytes_wf, bytes_layout; rewrite Elen; [done|].
      by rewrite <- app_assoc, take_drop.
    + intros [Hwf ->]. unfold bytes_layout. rewrite <- app_assoc. fwd u32_decodes.
      rewrite Nat2Z.id. rewrite bool_decide_false by (rewrite length_app; lia).
      rewrite slice_to_app. cbn. rewrite buf_advance_spec, decide_True by (rewrite length_app; lia).
      by rewrite drop_app_length.
Qed.

Lemma str_decodes : decodes try_get_ros1_str str_wf str_layout.
Proof.
  intros d. unfold try_get_ros1_str. split.
  - safe bytes_decodes. by destruct (from_utf8 _).
  - intros s rest. split.
    + intros Hd. step bytes_decodes Hd. destruct (from_utf8 l) as [s'|] eqn:Es; [|done].
      cbn in Hd. injection Hd as -> <-. apply from_utf8_Some in Es as [<- Hu]. by split.
    + intros [[Hu Hb] ->]. unfold str_layout. fwd bytes_decodes. by rewrite from_utf8_as_bytes.
Qed.

Lemma header_decodes : decodes try_get_ros1_header header_wf header_layout.
Proof.
  intros d. unfold try_get_ros1_header. split.
  - do 3 safe u32_decodes. by safe str_decodes.
  - intros h rest. unfold header_wf, header_layout. split.
    + intros Hd. do 3 step u32_decodes Hd. step str_decodes Hd. injection Hd as <- <-. cbn.
      by rewrite <- !app_assoc.
    + destruct h as [? ? ? ?]. cbn. intros [(? & ? & ? & ?) ->]. rewrite <- !app_assoc.
      do 3 fwd u32_decodes. by fwd str_decodes.
Qed.

(** Decoding a ROS 1 image never panics, and accepts exactly the messages
    laid out as ROS 1 prescribes, whatever follows them, giving back their
    fields. *)
Theorem Ros1Image_decode_iff d :
  no_panic (Ros1Image_decode d) ∧
  ∀ i, Ros1Image_decode d = Ok i ↔ image_wf i ∧ ∃ rest, d = image_layout i ++ rest.
Proof.
  unfold Ros1Image_decode. split.
  - safe header_decodes. do 2 safe u32_decodes. safe str_decodes. safe u8_decodes.
    safe u32_decodes. by safe bytes_decodes.
  - intros i. unfold image_wf, image_layout. split.
    + intros Hd. step header_decodes Hd. do 2 step u32_decodes Hd. step str_decodes Hd.
      step u8_decodes Hd. step u32_decodes Hd. step bytes_decodes Hd. injection Hd as <-. cbn.
      split; [done|]. eexists. by rewrite <- !app_assoc.
    + destruct i. cbn. intros ((? & ? & ? & ? & ? & ? & ?) & rest & ->). rewrite <- !app_assoc.
      fwd header_decodes. do 2 fwd u32_decodes. fwd str_decodes. fwd u8_decodes. fwd u32_decodes.
      by fwd bytes_decodes.
Qed.

Theorem Ros1CompressedImage_decode_iff d :
  no_panic (Ros1CompressedImage_decode d) ∧
  ∀ i, Ros1CompressedImage_decode d = Ok i ↔ compressed_wf i ∧ ∃ rest, d = compressed_layout i ++ rest.
Proof.
  unfold Ros1CompressedImage_decode. split.
  - safe header_decodes. safe str_decodes. by safe bytes_decodes.
  - intros i. unfold compressed_wf, compressed_layout. split.
    + intros Hd. step header_decodes Hd. step str_decodes Hd. step bytes_decodes Hd.
      injection Hd as <-. cbn. split; [done|]. eexists. by rewrite <- !app_assoc.
    + destruct i. cbn. intros ((? & ? & ?) & rest & ->). rewrite <- !app_assoc.
      fwd header_decodes. fwd str_decodes. by fwd bytes_decodes.
Qed.
End decoding.

(** ** Timestamps of messages *)

(** Whether the nanoseconds of an unsigned time carry it past the last second. *)
Definition time_overflows (sec nsec : Z) : bool := U32_MAX <? sec + nsec / NANOS.

Lemma Timestamp_new_overflow {E} sec nsec : fits 32 sec → fits 32 nsec →
  if time_overflows sec nsec then Timestamp_new (E:=E) sec nsec = Panic
  else ∃ t, Timestamp_new (E:=E) sec nsec = Ok t ∧ ts_wf t ∧ ts_total t = sec * NANOS + nsec.
Proof.
  intros Hs Hn. rewrite Timestamp_new_spec by done. unfold time_overflows.
  pose proof (Z.div_mod nsec NANOS ltac:(unfold NANOS; lia)).
  pose proof (Z.mod_pos_bound nsec NANOS ltac:(unfold NANOS; lia)) as Hm.
  pose proof (Z.div_pos nsec NANOS ltac:(apply Hn) ltac:(unfold NANOS; lia)).
  destruct (Z.ltb_spec U32_MAX (sec + nsec / NANOS)).
  - rewrite Timestamp_of_nanos_upper; [done|]. time_unfold. lia.
  - rewrite (Timestamp_of_nanos_eq _ (sec + nsec / NANOS) (nsec `mod` NANOS)); [|time_unfold; lia..].
    eexists. split_and!; [done|time_unfold; lia..].
Qed.

(** What becomes of a ROS 1 image once it has been decoded from any bytes: an
    unknown encoding is an error; otherwise the message has its fields and
    the exact time of its header, except that a time past the last second of
    a [Timestamp] is a panic. *)
Theorem ros1_image_message `{TryBufLaws} d i : Ros1Image_decode d = Ok i →
  let h := r1_header i in
  match parse_endian (r1_encoding i) (if 0 <? r1_is_bigendian i then Big else Little) with
  | None => ImageMessage_of_ros1 i = Err (UnknownEncoding (r1_encoding i))
  | Some e =>
    if time_overflows (h_sec h) (h_nsec h) then ImageMessage_of_ros1 i = Panic
    else ∃ t, ImageMessage_of_ros1 i = Ok {| im_timestamp := Some t; im_frame_id := h_frame_id h;
        im_image := RawImg {| encoding := e; width := r1_width i; height := r1_height i;
                              stride := r1_step i; data := r1_data i |} |} ∧
      ts_wf t ∧ ts_total t = h_sec h * NANOS + h_nsec h
  end.
Proof.
  intros Hd h.
  assert (image_wf i) as ((_ & Hs & Hn & _) & _).
  { unfold Ros1Image_decode in Hd.
    apply bind_Ok in Hd as ([? ?] & [? ->]%header_decodes & Hd).
    do 2 apply bind_Ok in Hd as ([? ?] & [? ->]%u32_decodes & Hd).
    apply bind_Ok in Hd as ([? ?] & [? ->]%str_decodes & Hd).
    apply bind_Ok in Hd as ([? ?] & [? ->]%u8_decodes & Hd).
    apply bind_Ok in Hd as ([? ?] & [? ->]%u32_decodes & Hd).
    apply bind_Ok in Hd as ([? ?] & [? ->]%bytes_decodes & Hd). by injection Hd as <-. }
  unfold ImageMessage_of_ros1. destruct (parse_endian _ _) as [e|]; [|done]. cbn [ok_or mbind result_bind].
  pose proof (Timestamp_new_overflow (E:=Ros1DecodeError) _ _ Hs Hn) as Ht. fold h in Ht |- *.
  destruct (time_overflows _ _); [by rewrite Ht|].
  destruct Ht as (t & -> & Hwf & Htot). by exists t.
Qed.

(** The same for compressed images. *)
Theorem ros1_compressed_message `{RosFormat} i : compressed_wf i →
  let h := c1_header i in
  match try_from_ros_format (c1_format i) with
  | None => ImageMessage_of_ros1_compressed i = Err (UnknownCompression (c1_format i))
  | Some c =>
    if time_overflows (h_sec h) (h_nsec h) then ImageMessage_of_ros1_compressed i = Panic
    else ∃ t, ImageMessage_of_ros1_compressed i = Ok {| im_timestamp := Some t;
        im_frame_id := h_frame_id h;
        im_image := CompressedImg {| compression := c; ci_data := c1_data i |} |} ∧
      ts_wf t ∧ ts_total t = h_sec h * NANOS + h_nsec h
  end.
Proof.
  intros [(_ & Hs & Hn & _) _] h. unfold ImageMessage_of_ros1_compressed.
  destruct (try_from_ros_format _) as [c|]; [|done]. cbn [ok_or mbind result_bind].
  pose proof (Timestamp_new_overflow (E:=Ros1DecodeError) _ _ Hs Hn) as Ht. fold h in Ht |- *.
  destruct (time_overflows _ _); [by rewrite Ht|].
  destruct Ht as (t & -> & Hwf & Htot). by exists t.
Qed.

(** A ROS 2 time converts without panics: a negative one is an error, and any
    other is exact, as its seconds leave room for the carry. *)
Theorem Timestamp_of_ros2_spec {E} t : fits_signed 32 (t2_sec t) → fits 32 (t2_nanosec t) →
  if t2_sec t <? 0 then Timestamp_of_ros2 (E:=E) t = Err NegativeTimestamp
  else ∃ ts, Timestamp_of_ros2 (E:=E) t = Ok ts ∧ ts_wf ts ∧
    ts_total ts = t2_sec t * NANOS + t2_nanosec t.
Proof.
  intros Hs Hn. unfold Timestamp_of_ros2. destruct (Z.ltb_spec (t2_sec t) 0); [done|].
  rewrite wrap_small by (time_unfold; lia).
  pose proof (Timestamp_new_overflow (E:=Ros2DecodeError E) (t2_sec t) (t2_nanosec t)) as Ht.
  destruct (time_overflows _ _) eqn:Ho; [|apply Ht; [time_unfold; lia|done]].
  apply Z.ltb_lt in Ho. assert (t2_nanosec t / NANOS < 5).
  { apply Z.div_lt_upper_bound; time_unfold; lia. }
  time_unfold. lia.
Qed.

(** ** An instance of the getters, and witnesses *)

Definition ref_try (n : nat) (l : list byte) : result TryGetError (Z * list byte) :=
  if decide (n ≤ length l)%nat then Ok (le_val (take n l), drop n l)
  else Err {| requested := n; available := length l |}.
#[export] Instance try_ref : TryBuf := {|
  try_get_u8 := ref_try 1; try_get_u32_le := ref_try 4;
  buf_advance n l := if decide (n ≤ length l)%nat then Some (drop n l) else None
|}.
#[export] Instance try_ref_laws : TryBufLaws.
Proof. split; intros; repeat intro; reflexivity. Qed.

Definition late_image : Ros1Image := {|
  r1_header := {| h_seq := 1; h_sec := U32_MAX; h_nsec := NANOS; h_frame_id := "f" |};
  r1_height := 1; r1_width := 1; r1_encoding := "mono8"; r1_is_bigendian := 0; r1_step := 1;
  r1_data := [Byte.x07]
|}.

(** A received message with a time past the range makes the conversion panic. *)
Lemma ros1_image_message_witness :
  Ros1Image_decode (image_layout late_image) = Ok late_image ∧
  ImageMessage_of_ros1 late_image = Panic.
Proof.
  assert (Ros1Image_decode (image_layout late_image) = Ok late_image) as Hd by (vm_compute; reflexivity).
  split; [exact Hd|]. exact (ros1_image_message (image_layout late_image) late_image Hd).
Defined.

Lemma Timestamp_of_ros2_spec_witness :
  ∃ ts, Timestamp_of_ros2 (E:=unit) {| t2_sec := I32_MAX; t2_nanosec := U32_MAX |} = Ok ts ∧
    ts_wf ts ∧ ts_total ts = I32_MAX * NANOS + U32_MAX.
Proof.
  refine (Timestamp_of_ros2_spec (E:=unit) {| t2_sec := I32_MAX; t2_nanosec := U32_MAX |} _ _);
    cbn [t2_sec t2_nanosec]; time_unfold; lia.
Defined.

Lemma Ros1Image_decode_iff_witness :
  ∃ rest, image_layout late_image ++ [Byte.x01] = image_layout late_image ++ rest.
Proof.
  refine (proj2 (proj1 (proj2 (@Ros1Image_decode_iff try_ref try_ref_laws
    (image_layout late_image ++ [Byte.x01])) late_image) _)).
  vm_compute. reflexivity.
Defined.
