(* ===== verification/McapSink.v ===== *)
(** * McapSink: recording to an MCAP file

    `mcap_writer/mcap_sink.rs` and the handle of `mcap_writer.rs`: the sink's
    maps from channels to the file's channel ids and sequence numbers, logging,
    metadata, attachments, and closing.  The `mcap` crate's writer is the
    parameter [McapCrate]; what it promises is stated on the records of the
    operations it acknowledged ([McapLaws]), with a concrete instance.

    The theorem [mcap_recording]: a run of any operations leaves exactly the
    acknowledged messages, metadata and attachments in the file, in order, the
    messages under a channel record that describes their channel, numbered
    increasingly in each of the file's channels. *)

From Stdlib Require Import Sorted.
From S2P Require Import Prelude Bytes Channel.
Local Open Scope Z_scope.

(** ** The `mcap` crate *)

Record MessageHeader := { hd_channel_id : Z; hd_sequence : Z; hd_log_time : Z; hd_publish_time : Z }.
Record Attachment := {
  at_log_time : Z; at_create_time : Z; at_name : string; at_media_type : string; at_data : list byte
}.

(** What a file contains, in order of writing. *)
Inductive McapRecord :=
| RSchema (id : Z) (name encoding : string) (data : list byte)
| RChannel (id schema_id : Z) (topic message_encoding : string) (metadata : gmap string string)
| RMessage (header : MessageHeader) (data : list byte)
| RMetadata (name : string) (metadata : gmap string string)
| RAttachment (a : Attachment).

(** An operation of the writer: its new state, and a value or an error. *)
Class McapCrate := {
  Writer : Type;
  Inner : Type;
  create : Inner → result string Writer;
  add_schema : string → string → list byte → Writer → Writer * result string Z;
  add_channel : Z → string → string → gmap string string → Writer → Writer * result string Z;
  write_to_known_channel : MessageHeader → list byte → Writer → Writer * result string unit;
  writer_metadata : string → gmap string string → Writer → Writer * result string unit;
  writer_attach : Attachment → Writer → Writer * result string unit;
  writer_finish : Writer → Writer * result string unit;
  into_inner : Writer → Inner;
  records : Writer → list McapRecord
}.

Definition schema_ids (rs : list McapRecord) : list Z :=
  omap (λ r, match r with RSchema id _ _ _ => Some id | _ => None end) rs.
Definition channel_ids (rs : list McapRecord) : list Z :=
  omap (λ r, match r with RChannel id _ _ _ _ => Some id | _ => None end) rs.
Definition messages (rs : list McapRecord) : list (MessageHeader * list byte) :=
  omap (λ r, match r with RMessage h d => Some (h, d) | _ => None end) rs.
(** Without schemas and channels. *)
Definition contents (rs : list McapRecord) : list McapRecord :=
  omap (λ r, match r with RSchema _ _ _ _ | RChannel _ _ _ _ _ => None | _ => Some r end) rs.

(** An operation that returns [Ok] adds its record, and an error adds none; an
    equal schema or channel is not written twice, its id is reused; the ids of
    new ones are fresh, and a schema's is not zero; nothing panics. *)
Class McapLaws `{McapCrate} : Prop := {
  create_records : ∀ i w, create i = Ok w → records w = [];
  create_returns : ∀ i, create i ≠ Panic;
  add_schema_law : ∀ n e d w, let '(w', r) := add_schema n e d w in
    match r with
    | Ok id => id ≠ 0 ∧ (records w' = records w ∧ RSchema id n e d ∈ records w ∨
        records w' = records w ++ [RSchema id n e d] ∧ id ∉ schema_ids (records w))
    | Err _ => records w' = records w
    | Panic => False
    end;
  add_channel_law : ∀ s t e m w, let '(w', r) := add_channel s t e m w in
    match r with
    | Ok id => records w' = records w ∧ RChannel id s t e m ∈ records w ∨
        records w' = records w ++ [RChannel id s t e m] ∧ id ∉ channel_ids (records w)
    | Err _ => records w' = records w
    | Panic => False
    end;
  write_law : ∀ h d w, let '(w', r) := write_to_known_channel h d w in
    match r with
    | Ok _ => records w' = records w ++ [RMessage h d]
    | Err _ => records w' = records w
    | Panic => False
    end;
  metadata_law : ∀ n m w, let '(w', r) := writer_metadata n m w in
    match r with
    | Ok _ => records w' = records w ++ [RMetadata n m]
    | Err _ => records w' = records w
    | Panic => False
    end;
  attach_law : ∀ a w, let '(w', r) := writer_attach a w in
    match r with
    | Ok _ => records w' = records w ++ [RAttachment a]
    | Err _ => records w' = records w
    | Panic => False
    end;
  finish_law : ∀ w, let '(w', r) := writer_finish w in records w' = records w ∧ r ≠ Panic
}.

(** ** [WriterState] *)

Section sink.
Context `{McapCrate}.

Record WriterState := {
  ws_writer : Writer;
  ws_channel_map : gmap ChannelId Z;
  ws_channel_sequence : gmap Z Z
}.
Definition WriterState_new (w : Writer) : WriterState :=
  {| ws_writer := w; ws_channel_map := ∅; ws_channel_sequence := ∅ |}.

Definition set_writer (w : Writer) (s : WriterState) : WriterState :=
  {| ws_writer := w; ws_channel_map := ws_channel_map s;
     ws_channel_sequence := ws_channel_sequence s |}.
Definition insert_channel (c : ChannelId) (m : Z) (s : WriterState) : WriterState :=
  {| ws_writer := ws_writer s; ws_channel_map := <[c := m]> (ws_channel_map s);
     ws_channel_sequence := ws_channel_sequence s |}.

Abbreviation Res A := (result FoxgloveError A).
Definition from_mcap {A} (r : result string A) : Res A :=
  match r with Ok a => Ok a | Err e => Err (McapError e) | Panic => Panic end.

Definition put_sequence (m n : Z) (s : WriterState) : WriterState :=
  {| ws_writer := ws_writer s; ws_channel_map := ws_channel_map s;
     ws_channel_sequence := <[m := n]> (ws_channel_sequence s) |}.

(** The sequence number is a [u32]: the increment panics on overflow (and wraps
    in a release build). *)
Definition next_sequence (m : Z) (s : WriterState) : WriterState * Res Z :=
  match ws_channel_sequence s !! m with
  | Some n =>
    match checked_unsigned 32 (n + 1) with
    | Some n => (put_sequence m n s, Ok n)
    | None => (s, Panic)
    end
  | None => (put_sequence m 1 s, Ok 1)
  end.

(** The id of the channel in the file, registering it first if it is new. *)
Definition mcap_channel (channel : RawChannel) (s : WriterState) : WriterState * Res Z :=
  match ws_channel_map s !! rc_id channel with
  | Some m => (s, Ok m)
  | None =>
    let '(s, schema_id) :=
      match cd_schema (rc_descriptor channel) with
      | Some schema =>
        let '(w, r) := add_schema (sch_name schema) (sch_encoding schema) (sch_data schema)
                         (ws_writer s) in
        (set_writer w s, from_mcap r)
      | None => (s, Ok 0)
      end in
    match schema_id with
    | Ok schema_id =>
      let '(w, r) := add_channel schema_id (rc_topic channel)
        (cd_message_encoding (rc_descriptor channel)) (cd_metadata (rc_descriptor channel))
        (ws_writer s) in
      let s := set_writer w s in
      match from_mcap r with
      | Ok m => (insert_channel (rc_id channel) m s, Ok m)
      | Err e => (s, Err e)
      | Panic => (s, Panic)
      end
    | Err e => (s, Err e)
    | Panic => (s, Panic)
    end
  end.

Definition WriterState_log (channel : RawChannel) (msg : list byte) (metadata : Metadata)
    (s : WriterState) : WriterState * Res unit :=
  match mcap_channel channel s with
  | (s, Ok m) =>
    match next_sequence m s with
    | (s, Ok sequence) =>
      let '(w, r) := write_to_known_channel
        {| hd_channel_id := m; hd_sequence := sequence; hd_log_time := m_log_time metadata;
           hd_publish_time := m_log_time metadata |} msg (ws_writer s) in
      (set_writer w s, from_mcap r)
    | (s, Err e) => (s, Err e)
    | (s, Panic) => (s, Panic)
    end
  | (s, Err e) => (s, Err e)
  | (s, Panic) => (s, Panic)
  end.

(** ** [McapSink] *)

Record McapSink := {
  mk_sink_id : SinkId;
  mk_inner : option WriterState;
  mk_channel_filter : option (ChannelDescriptor → bool)
}.
Definition set_inner (i : option WriterState) (k : McapSink) : McapSink :=
  {| mk_sink_id := mk_sink_id k; mk_inner := i; mk_channel_filter := mk_channel_filter k |}.

(** [id] is what [SinkId::next] returns. *)
Definition McapSink_new (id : SinkId) (writer : Inner) (filter : option (ChannelDescriptor → bool))
    : Res McapSink :=
  w ← from_mcap (create writer);
  Ok {| mk_sink_id := id; mk_inner := Some (WriterState_new w); mk_channel_filter := filter |}.

Definition McapSink_finish (k : McapSink) : McapSink * Res (option Inner) :=
  match mk_inner k with
  | None => (k, Ok None)
  | Some s =>
    let '(w, r) := writer_finish (ws_writer s) in
    (set_inner None k, _ ← from_mcap r; Ok (Some (into_inner w)))
  end.

(** An operation on the writer under the lock, unless the sink is closed. *)
Definition with_writer (f : WriterState → WriterState * Res unit) (k : McapSink) : McapSink * Res unit :=
  match mk_inner k with
  | None => (k, Err SinkClosed)
  | Some s => let '(s, r) := f s in (set_inner (Some s) k, r)
  end.

Definition McapSink_write_metadata (name : string) (metadata : gmap string string) (k : McapSink)
    : McapSink * Res unit :=
  if decide (metadata = ∅) then (k, Ok tt)
  else with_writer (λ s, let '(w, r) := writer_metadata name metadata (ws_writer s) in
                         (set_writer w s, from_mcap r)) k.

Definition McapSink_attach (a : Attachment) : McapSink → McapSink * Res unit :=
  with_writer (λ s, let '(w, r) := writer_attach a (ws_writer s) in (set_writer w s, from_mcap r)).

Definition McapSink_log (channel : RawChannel) (msg : list byte) (metadata : Metadata)
    : McapSink → McapSink * Res unit :=
  with_writer (WriterState_log channel msg metadata).

Definition McapSink_auto_subscribe (k : McapSink) : bool :=
  match mk_channel_filter k with None => true | Some _ => false end.

Definition McapSink_add_channels (channels : list RawChannel) (k : McapSink) : option (list ChannelId) :=
  f ← mk_channel_filter k;
  Some (rc_id <$> filter (λ c, f (rc_descriptor c) = true) channels).

(** ** Runs *)

Inductive McapOp :=
| OpLog (channel : RawChannel) (msg : list byte) (metadata : Metadata)
| OpMetadata (name : string) (metadata : gmap string string)
| OpAttach (a : Attachment)
| OpFinish.

Definition run_op (op : McapOp) (k : McapSink) : McapSink * Res unit :=
  match op with
  | OpLog c msg meta => McapSink_log c msg meta k
  | OpMetadata n m => McapSink_write_metadata n m k
  | OpAttach a => McapSink_attach a k
  | OpFinish => let '(k, r) := McapSink_finish k in (k, _ ← r; Ok tt)
  end.
Fixpoint run_ops (ops : list McapOp) (k : McapSink) : McapSink * list (Res unit) :=
  match ops with
  | [] => (k, [])
  | op :: ops => let '(k, r) := run_op op k in let '(k, rs) := run_ops ops k in (k, r :: rs)
  end.

(** ** What a recording contains *)

(** Channel record [m] of the file describes [d]. *)
Definition describes (rs : list McapRecord) (m : Z) (d : ChannelDescriptor) : Prop :=
  ∃ sid, RChannel m sid (cd_topic d) (cd_message_encoding d) (cd_metadata d) ∈ rs ∧
    match cd_schema d with
    | Some sc => sid ≠ 0 ∧ RSchema sid (sch_name sc) (sch_encoding sc) (sch_data sc) ∈ rs
    | None => sid = 0
    end.

(** The sequence numbers of the messages of one of the file's channels. *)
Definition sequences (m : Z) (rs : list McapRecord) : list Z :=
  hd_sequence ∘ fst <$> filter (λ x, hd_channel_id x.1 = m) (messages rs).

(** The record of an operation. *)
Definition records_op (rs : list McapRecord) (op : McapOp) (r : McapRecord) : Prop :=
  match op, r with
  | OpLog c msg meta, RMessage h data =>
    data = msg ∧ hd_log_time h = m_log_time meta ∧ hd_publish_time h = m_log_time meta ∧
    describes rs (hd_channel_id h) (rc_descriptor c)
  | OpMetadata name md, RMetadata name' md' => name' = name ∧ md' = md
  | OpAttach a, RAttachment a' => a' = a
  | _, _ => False
  end.

(** The operations that write a record and returned [Ok]: empty metadata are
    skipped. *)
Definition writes (op : McapOp) : bool :=
  match op with OpMetadata _ md => bool_decide (md ≠ ∅) | OpFinish => false | _ => true end.
Fixpoint acknowledged (ops : list McapOp) (res : list (Res unit)) : list McapOp :=
  match ops, res with
  | op :: ops, Ok _ :: res => if writes op then op :: acknowledged ops res else acknowledged ops res
  | _ :: ops, _ :: res => acknowledged ops res
  | _, _ => []
  end.

Record recording (rs : list McapRecord) (logs : list McapOp) : Prop := {
  rec_channels : NoDup (channel_ids rs);
  rec_schemas : NoDup (schema_ids rs);
  rec_contents : Forall2 (records_op rs) logs (contents rs);
  rec_increasing : ∀ m, StronglySorted Z.lt (sequences m rs);
  rec_positive : ∀ m n, n ∈ sequences m rs → 1 ≤ n < 2 ^ 32
}.

(** ** Invariant *)

Context (desc : ChannelId → ChannelDescriptor).

Record ws_inv (s : WriterState) (logs : list McapOp) (n : nat) : Prop := {
  wi_recording : recording (records (ws_writer s)) logs;
  wi_map : ∀ c m, ws_channel_map s !! c = Some m → describes (records (ws_writer s)) m (desc c);
  wi_last : ∀ m x, x ∈ sequences m (records (ws_writer s)) →
    ∃ last, ws_channel_sequence s !! m = Some last ∧ x ≤ last;
  wi_count : ∀ m last, ws_channel_sequence s !! m = Some last → 1 ≤ last ≤ Z.of_nat n
}.

Lemma messages_app rs rs' : messages (rs ++ rs') = messages rs ++ messages rs'.
Proof. apply omap_app. Qed.
Lemma contents_app rs rs' : contents (rs ++ rs') = contents rs ++ contents rs'.
Proof. apply omap_app. Qed.
Lemma channel_ids_app rs rs' : channel_ids (rs ++ rs') = channel_ids rs ++ channel_ids rs'.
Proof. apply omap_app. Qed.
Lemma schema_ids_app rs rs' : schema_ids (rs ++ rs') = schema_ids rs ++ schema_ids rs'.
Proof. apply omap_app. Qed.

Lemma describes_app rs rs' m d : describes rs m d → describes (rs ++ rs') m d.
Proof.
  intros (sid & Hc & Hs). exists sid. split; [apply elem_of_app; by left|].
  destruct (cd_schema d); [|done]. destruct Hs. split; [done|]. apply elem_of_app. by left.
Qed.

Lemma records_op_app rs rs' op r : records_op rs op r → records_op (rs ++ rs') op r.
Proof.
  destruct op, r; cbn; try done. intros (? & ? & ? & ?). split_and!; [done..|]. by apply describes_app.
Qed.

Lemma StronglySorted_snoc (l : list Z) y :
  StronglySorted Z.lt l → (∀ x, x ∈ l → x < y) → StronglySorted Z.lt (l ++ [y]).
Proof.
  induction 1 as [|x l Hl IH Hx]; intros Hy; cbn; [repeat constructor|]. constructor.
  - apply IH. intros z Hz. apply Hy. by right.
  - apply Forall_app. split; [done|]. constructor; [|done]. apply Hy. by left.
Qed.

(** A record that is no message, with a fresh id, for the operations [more]. *)
Lemma recording_app rs r logs more :
  recording rs logs → messages [r] = [] → Forall2 (records_op (rs ++ [r])) more (contents [r]) →
  NoDup (channel_ids (rs ++ [r])) → NoDup (schema_ids (rs ++ [r])) →
  recording (rs ++ [r]) (logs ++ more).
Proof.
  intros [_ _ Hm Hi Hp] Hr Hmore Hc Hs.
  assert (∀ m, sequences m (rs ++ [r]) = sequences m rs) as Esq.
  { intros m. unfold sequences. by rewrite messages_app, Hr, app_nil_r. }
  split; [done|done| | |].
  - rewrite contents_app. apply Forall2_app; [|done].
    eapply Forall2_impl; [done|]. intros x y. apply records_op_app.
  - intros m. by rewrite Esq.
  - intros m n. rewrite Esq. apply Hp.
Qed.

Lemma NoDup_snoc_fresh (l : list Z) x : NoDup l → x ∉ l → NoDup (l ++ [x]).
Proof. intros Hl Hx. apply NoDup_app. split_and!; [done| |apply NoDup_singleton]. set_solver. Qed.

(** Writing such a record keeps the invariant. *)
Lemma ws_inv_more s w logs more n r :
  ws_inv s logs n → records w = records (ws_writer s) ++ [r] → messages [r] = [] →
  Forall2 (records_op (records w)) more (contents [r]) →
  NoDup (channel_ids (records w)) → NoDup (schema_ids (records w)) →
  ws_inv (set_writer w s) (logs ++ more) n.
Proof.
  intros [Hr Hm Hl Hc] E Hmsg Hmore Hnc Hns. split; cbn; rewrite ?E in *; [..|done].
  - by apply recording_app.
  - intros c m Hcm. apply describes_app. by apply Hm.
  - intros m x. unfold sequences. rewrite messages_app, Hmsg, app_nil_r. apply Hl.
Qed.
Lemma ws_inv_records s w logs n r :
  ws_inv s logs n → records w = records (ws_writer s) ∨ (records w = records (ws_writer s) ++ [r] ∧
    contents [r] = [] ∧ NoDup (channel_ids (records w)) ∧ NoDup (schema_ids (records w))) →
  ws_inv (set_writer w s) logs n.
Proof.
  intros Hinv [E|(E & Hr & Hnc & Hns)].
  - destruct Hinv as [? ? ? ?]. by split; cbn; rewrite ?E.
  - rewrite <- (app_nil_r logs). eapply ws_inv_more; [done|done|by destruct r|by rewrite Hr|done|done].
Qed.

Context `{!McapLaws}.

Lemma mcap_channel_spec c s logs n : ws_inv s logs n → rc_descriptor c = desc (rc_id c) →
  let '(s', r) := mcap_channel c s in
  ws_inv s' logs n ∧ ws_channel_sequence s' = ws_channel_sequence s ∧
  match r with
  | Ok m => describes (records (ws_writer s')) m (rc_descriptor c)
  | Err e => ∃ msg, e = McapError msg
  | Panic => False
  end.
Proof.
  intros Hinv Hdesc. unfold mcap_channel.
  destruct (ws_channel_map s !! rc_id c) as [m|] eqn:Em.
  { split_and!; [done|done|]. rewrite Hdesc. by apply Hinv. }
  assert (∃ s1 r1, match cd_schema (rc_descriptor c) with
      | Some schema =>
        let '(w, r) := add_schema (sch_name schema) (sch_encoding schema) (sch_data schema)
                         (ws_writer s) in (set_writer w s, from_mcap r)
      | None => (s, Ok 0)
      end = (s1, r1) ∧ ws_inv s1 logs n ∧ ws_channel_sequence s1 = ws_channel_sequence s ∧
    match r1 with
    | Ok sid => match cd_schema (rc_descriptor c) with
        | Some sc => sid ≠ 0 ∧ RSchema sid (sch_name sc) (sch_encoding sc) (sch_data sc)
            ∈ records (ws_writer s1)
        | None => sid = 0
        end
    | Err e => ∃ msg, e = McapError msg
    | Panic => False
    end) as (s1 & r1 & -> & Hinv1 & Hseq1 & Hr1).
  { destruct (cd_schema (rc_descriptor c)) as [sc|]; [|by exists s, (Ok 0)].
    pose proof (add_schema_law (sch_name sc) (sch_encoding sc) (sch_data sc) (ws_writer s)) as Hlaw.
    destruct (add_schema _ _ _ _) as [w [id|e|]]; [| |done].
    - exists (set_writer w s), (Ok id). destruct Hlaw as [Hid [[E Hin]|[E Hnew]]].
      + split_and!; [done| |done|done|by cbn; rewrite E]. eapply (ws_inv_records _ _ _ _ (RSchema 0 "" "" [])); [done|by left].
      + split_and!; [done| |done|done|cbn; rewrite E; apply elem_of_app; right; by left].
        eapply ws_inv_records; [done|right]. rewrite E, channel_ids_app, schema_ids_app, app_nil_r.
        split_and!; [done|done|apply Hinv|]. apply NoDup_snoc_fresh; [apply Hinv|done].
    - exists (set_writer w s), (Err (McapError e)). split_and!; [done| |done|by eexists].
      by eapply (ws_inv_records _ _ _ _ (RSchema 0 "" "" [])); [done|left]. }
  destruct r1 as [sid|e|]; [|by split_and!|done].
  pose proof (add_channel_law sid (rc_topic c) (cd_message_encoding (rc_descriptor c))
    (cd_metadata (rc_descriptor c)) (ws_writer s1)) as Hlaw.
  destruct (add_channel _ _ _ _ _) as [w [m|e|]]; cbn [from_mcap]; [| |done].
  2: { split_and!; [|done|by eexists]. by eapply (ws_inv_records _ _ _ _ (RSchema 0 "" "" [])); [done|left]. }
  assert (ws_inv (set_writer w s1) logs n ∧ describes (records w) m (rc_descriptor c)) as [Hinv2 Hd].
  { destruct Hlaw as [[E Hin]|[E Hnew]].
    - split; [by eapply (ws_inv_records _ _ _ _ (RSchema 0 "" "" [])); [done|left]|].
      exists sid. rewrite E. by destruct (cd_schema _).
    - split.
      + eapply ws_inv_records; [done|right]. rewrite E, channel_ids_app, schema_ids_app, app_nil_r.
        split_and!; [done|done| |apply Hinv1]. apply NoDup_snoc_fresh; [apply Hinv1|done].
      + exists sid. rewrite E. split; [apply elem_of_app; right; by left|].
        destruct (cd_schema _); [|done]. destruct Hr1. split; [done|]. apply elem_of_app. by left. }
  split_and!; [|done|done]. destruct Hinv2 as [H1 H2 H3 H4]. split; cbn in *; [done| |done|done].
  intros c' m' [[<- <-]|[Hne Hl]]%lookup_insert_Some; [by rewrite <- Hdesc|by apply H2].
Qed.

Lemma next_sequence_spec m s logs n : ws_inv s logs n → Z.of_nat n < 2 ^ 32 - 1 →
  ∃ s' x, next_sequence m s = (s', Ok x) ∧ ws_inv s' logs (S n) ∧ ws_writer s' = ws_writer s ∧
    ws_channel_sequence s' !! m = Some x ∧ 1 ≤ x < 2 ^ 32 ∧
    ∀ y, y ∈ sequences m (records (ws_writer s)) → y < x.
Proof.
  intros [H1 H2 H3 H4] Hn. unfold next_sequence. set (put := λ x, put_sequence m x s).
  assert (∀ x, (default 0 (ws_channel_sequence s !! m)) < x → 1 ≤ x ≤ Z.of_nat (S n) →
    ws_inv (put x) logs (S n) ∧ ∀ y, y ∈ sequences m (records (ws_writer s)) → y < x) as Hput.
  { intros x Hlt Hx. split.
    - split; cbn; [done|done| |].
      + intros m' y Hy. destruct (H3 m' y Hy) as (last & Hlast & Hle).
        destruct (decide (m' = m)) as [->|].
        * exists x. rewrite lookup_insert_eq. split; [done|]. rewrite Hlast in Hlt. cbn in Hlt. lia.
        * exists last. by rewrite lookup_insert_ne by done.
      + intros m' last [[<- <-]|[_ Hl]]%lookup_insert_Some; [done|]. specialize (H4 _ _ Hl). lia.
    - intros y Hy. destruct (H3 m y Hy) as (last & Hlast & Hle). rewrite Hlast in Hlt. cbn in Hlt. lia. }
  destruct (ws_channel_sequence s !! m) as [last|] eqn:Em.
  - pose proof (H4 _ _ Em). unfold checked_unsigned. rewrite decide_True by (unfold fits; lia).
    destruct (Hput (last + 1)) as [Hi Hy]; [cbn; lia|lia|].
    exists (put (last + 1)), (last + 1). split_and!; [done|done|done|apply lookup_insert_eq|lia|lia|done].
  - destruct (Hput 1) as [Hi Hy]; [cbn; lia|lia|].
    exists (put 1), 1. split_and!; [done|done|done|apply lookup_insert_eq|lia|lia|done].
Qed.

Lemma sequences_snoc m rs h d :
  sequences m (rs ++ [RMessage h d]) =
    sequences m rs ++ if decide (hd_channel_id h = m) then [hd_sequence h] else [].
Proof.
  unfold sequences. rewrite messages_app, filter_app, fmap_app. f_equal.
  change (messages [RMessage h d]) with [(h, d)].
  rewrite filter_cons. cbn [fst]. by case_decide.
Qed.

Lemma ws_inv_mono s logs n n' : ws_inv s logs n → (n ≤ n')%nat → ws_inv s logs n'.
Proof. intros [? ? ? Hc] Hn. split; [done..|]. intros m l Hl. specialize (Hc m l Hl). lia. Qed.

(** A log operation: the message is recorded exactly if it is acknowledged. *)
Lemma WriterState_log_spec c msg meta s logs n :
  ws_inv s logs n → rc_descriptor c = desc (rc_id c) → Z.of_nat n < 2 ^ 32 - 1 →
  let '(s', r) := WriterState_log c msg meta s in
  no_panic r ∧ ws_inv s' (match r with Ok _ => logs ++ [OpLog c msg meta] | _ => logs end) (S n).
Proof.
  intros Hinv Hdesc Hn. unfold WriterState_log.
  pose proof (mcap_channel_spec c s logs n Hinv Hdesc) as Hch.
  destruct (mcap_channel c s) as [s1 [m|e|]]; destruct Hch as (Hinv1 & _ & Hm); [| |done].
  2: { split; [done|]. apply (ws_inv_mono _ _ n); [done|lia]. }
  destruct (next_sequence_spec m s1 logs n Hinv1 Hn) as (s2 & x & -> & Hinv2 & Hw & Hx & Hfit & Hlt).
  set (h := {| hd_channel_id := m |}).
  pose proof (write_law h msg (ws_writer s2)) as Hlaw.
  destruct (write_to_known_channel _ _ _) as [w [[]|e|]]; cbn [from_mcap]; [| |done].
  2: { split; [done|]. by eapply (ws_inv_records _ _ _ _ (RSchema 0 "" "" [])); [done|left]. }
  split; [done|]. destruct Hinv2 as [[R1 R2 R3 R4 R5] H2 H3 H4]. rewrite Hw in *.
  assert (∀ m' y, y ∈ sequences m' (records w) →
    y ∈ sequences m' (records (ws_writer s1)) ∨ m' = m ∧ y = x) as Hin.
  { intros m' y. rewrite Hlaw, sequences_snoc, elem_of_app. intros [|Hy]; [by left|right].
    case_decide; [|by apply elem_of_nil in Hy]. apply list_elem_of_singleton in Hy. auto. }
  split; cbn [set_writer ws_writer ws_channel_map ws_channel_sequence]; [split| | |done].
  - by rewrite Hlaw, channel_ids_app, app_nil_r.
  - by rewrite Hlaw, schema_ids_app, app_nil_r.
  - rewrite Hlaw, contents_app. apply Forall2_app.
    + eapply Forall2_impl; [done|]. intros. by apply records_op_app.
    + constructor; [|constructor]. split_and!; [done..|]. by apply describes_app.
  - intros m'. rewrite Hlaw, sequences_snoc. case_decide as Hm'; [|by rewrite app_nil_r].
    cbn in Hm'. subst m'. by apply StronglySorted_snoc.
  - intros m' y Hy. destruct (Hin _ _ Hy) as [Ho|[-> ->]]; [by apply (R5 m')|done].
  - intros c' m' Hc. rewrite Hlaw. apply describes_app. by apply (H2 c').
  - intros m' y Hy. destruct (Hin _ _ Hy) as [Ho|[-> ->]]; [by apply H3|]. by exists x.
Qed.

(** The answer of the crate to metadata and attachments. *)
Lemma ws_inv_answer s w logs n op (r0 : McapRecord) (r : result string unit) :
  ws_inv s logs n →
  match r with
  | Ok _ => records w = records (ws_writer s) ++ [r0]
  | Err _ => records w = records (ws_writer s)
  | Panic => False
  end →
  writes op = true → messages [r0] = [] → contents [r0] = [r0] → records_op (records w) op r0 →
  ws_inv (set_writer w s) (logs ++ acknowledged [op] [from_mcap r]) n.
Proof.
  intros Hinv Hlaw Hw Hm Hc Hop. destruct r; cbn; rewrite ?Hw, ?app_nil_r; [| |done].
  - eapply ws_inv_more; [done|done|done|by rewrite Hc; repeat constructor|..].
    all: rewrite Hlaw, ?channel_ids_app, ?schema_ids_app; destruct r0; try done; rewrite app_nil_r; apply Hinv.
  - by eapply (ws_inv_records _ _ _ _ r0); [|left].
Qed.

(** An operation other than closing, on an open sink. *)
Lemma run_op_spec op k s logs n :
  mk_inner k = Some s → ws_inv s logs n → Z.of_nat n < 2 ^ 32 - 1 →
  match op with OpLog c _ _ => rc_descriptor c = desc (rc_id c) | OpFinish => False | _ => True end →
  let '(k', r) := run_op op k in
  no_panic r ∧ ∃ s', mk_inner k' = Some s' ∧ ws_inv s' (logs ++ acknowledged [op] [r]) (S n).
Proof.
  intros Hk Hinv Hn Hop. destruct op as [c msg meta|name md|a|]; [| | |done]; cbn [run_op].
  - unfold McapSink_log, with_writer. rewrite Hk.
    pose proof (WriterState_log_spec c msg meta s logs n Hinv Hop Hn) as Hl.
    destruct (WriterState_log c msg meta s) as [s' r]. destruct Hl as [Hnp Hinv'].
    split; [done|]. exists s'. split; [done|]. by destruct r; cbn; rewrite ?app_nil_r.
  - unfold McapSink_write_metadata. case_decide as Hmd.
    { split; [done|]. exists s. cbn. rewrite bool_decide_eq_false_2, app_nil_r by naive_solver.
      split; [done|]. apply (ws_inv_mono _ _ n); [done|lia]. }
    unfold with_writer. rewrite Hk. pose proof (metadata_law name md (ws_writer s)) as Hlaw.
    destruct (writer_metadata _ _ _) as [w r]. split; [by destruct r|].
    exists (set_writer w s). split; [done|]. apply (ws_inv_mono _ _ n); [|lia].
    apply (ws_inv_answer _ _ _ _ _ (RMetadata name md) r Hinv Hlaw); [|done..].
    cbn. by rewrite bool_decide_eq_true_2.
  - unfold McapSink_attach, with_writer. rewrite Hk. pose proof (attach_law a (ws_writer s)) as Hlaw.
    destruct (writer_attach _ _) as [w r]. split; [by destruct r|].
    exists (set_writer w s). split; [done|]. apply (ws_inv_mono _ _ n); [|lia].
    by apply (ws_inv_answer _ _ _ _ _ (RAttachment a) r Hinv Hlaw).
Qed.

Definition op_ok (op : McapOp) : Prop :=
  match op with OpLog c _ _ => rc_descriptor c = desc (rc_id c) | OpFinish => False | _ => True end.

Lemma run_ops_spec ops : ∀ k s logs n,
  mk_inner k = Some s → ws_inv s logs n → Z.of_nat (n + length ops) < 2 ^ 32 →
  Forall op_ok ops →
  let '(k', res) := run_ops ops k in
  Forall no_panic res ∧
  ∃ s', mk_inner k' = Some s' ∧ ws_inv s' (logs ++ acknowledged ops res) (n + length ops).
Proof.
  induction ops as [|op ops IH]; intros k s logs n Hk Hinv Hn Hops; cbn [run_ops].
  { split; [done|]. exists s. cbn. by rewrite app_nil_r, Nat.add_0_r. }
  apply Forall_cons in Hops as [Hop Hops]. cbn [length] in Hn.
  pose proof (run_op_spec op k s logs n Hk Hinv ltac:(lia) Hop) as Hstep.
  destruct (run_op op k) as [k1 r]. destruct Hstep as (Hnp & s1 & Hk1 & Hinv1).
  specialize (IH k1 s1 _ (S n) Hk1 Hinv1 ltac:(lia) Hops).
  destruct (run_ops ops k1) as [k' res]. destruct IH as (Hres & s' & Hk' & Hinv').
  split; [by constructor|]. exists s'. split; [done|]. cbn [length].
  replace (n + S (length ops))%nat with (S n + length ops)%nat by lia.
  replace (logs ++ acknowledged (op :: ops) (r :: res))
    with ((logs ++ acknowledged [op] [r]) ++ acknowledged ops res); [done|].
  rewrite <- app_assoc. f_equal. destruct r; cbn; [|done..]. by destruct (writes op).
Qed.

Lemma ws_inv_new w : records w = [] → ws_inv (WriterState_new w) [] 0.
Proof.
  intros Hw. assert (∀ m, sequences m (records w) = []) as Es
    by (intros m; unfold sequences; by rewrite Hw).
  split; cbn [WriterState_new ws_writer ws_channel_map ws_channel_sequence]; [|done|..|done].
  - split; [by rewrite Hw; constructor..| |]; intros m; rewrite Es; [constructor|].
    intros n Hn. by apply elem_of_nil in Hn.
  - intros m x. rewrite Es. intros Hx. by apply elem_of_nil in Hx.
Qed.

(** A recording is faithful.  After any operations on a new sink, none of
    which panics, the file holds exactly the messages, metadata and
    attachments that were acknowledged, in order, each message with its payload,
    its log time (as publish time too) and a channel record that describes its
    channel and schema; every channel and schema of the file has its own id, and in each channel
    the sequence numbers increase.  Closing then gives back a writer with
    the same records, or the error of the `mcap` crate. *)
Theorem mcap_recording id writer filter k ops :
  McapSink_new id writer filter = Ok k → Forall op_ok ops → Z.of_nat (length ops) < 2 ^ 32 →
  let '(k', res) := run_ops ops k in
  Forall no_panic res ∧
  ∃ s, mk_inner k' = Some s ∧ recording (records (ws_writer s)) (acknowledged ops res) ∧
    ∃ w r, writer_finish (ws_writer s) = (w, r) ∧ records w = records (ws_writer s) ∧
      McapSink_finish k' = (set_inner None k',
        match r with Ok _ => Ok (Some (into_inner w)) | Err e => Err (McapError e) | Panic => Panic end).
Proof.
  intros Hnew Hops Hlen. unfold McapSink_new in Hnew.
  destruct (create writer) as [w0| |] eqn:Hc; cbn in Hnew; [|done|done]. injection Hnew as <-.
  pose proof (ws_inv_new w0 (create_records _ _ Hc)) as Hinv.
  set (k := {| mk_inner := _ |}) in *.
  pose proof (run_ops_spec ops k (WriterState_new w0) [] 0 eq_refl Hinv Hlen Hops) as Hrun.
  destruct (run_ops ops k) as [k' res]. destruct Hrun as (Hres & s & Hk' & [Hrec _ _ _]).
  split; [done|]. exists s. split_and!; [done|done|].
  pose proof (finish_law (ws_writer s)) as Hf. destruct (writer_finish (ws_writer s)) as [w r] eqn:Ew.
  exists w, r. split_and!; [done|by destruct Hf|]. unfold McapSink_finish. rewrite Hk', Ew.
  by destruct r as [[]| |].
Qed.

(** A closed sink stays closed: it records nothing more, its operations
    report [SinkClosed] (but for empty metadata, which are accepted and
    skipped), and closing it again returns nothing. *)
Theorem mcap_closed k :
  let k' := (McapSink_finish k).1 in
  mk_inner k' = None ∧ McapSink_finish k' = (k', Ok None) ∧
  ∀ op, op ≠ OpFinish → run_op op k' =
    (k', match op with OpMetadata _ md => if decide (md = ∅) then Ok tt else Err SinkClosed
         | _ => Err SinkClosed end).
Proof.
  cbn zeta. assert (mk_inner (McapSink_finish k).1 = None) as Hk.
  { unfold McapSink_finish. destruct (mk_inner k) eqn:E; [|done]. by destruct (writer_finish _). }
  split_and!; [done|unfold McapSink_finish at 1; by rewrite Hk|].
  intros op Hop. destruct op as [c msg meta|name md|a|]; [| | |done]; cbn [run_op].
  - unfold McapSink_log, with_writer. by rewrite Hk.
  - unfold McapSink_write_metadata. case_decide; [done|]. unfold with_writer. by rewrite Hk.
  - unfold McapSink_attach, with_writer. by rewrite Hk.
Qed.
End sink.

(** ** An instance of the `mcap` crate, and witnesses *)

#[export] Instance MessageHeader_eq_dec : EqDecision MessageHeader.
Proof. solve_decision. Defined.
#[export] Instance Attachment_eq_dec : EqDecision Attachment.
Proof. solve_decision. Defined.
#[export] Instance McapRecord_eq_dec : EqDecision McapRecord.
Proof. solve_decision. Defined.

(** The least id above all ids in use. *)
Definition next_id (ids : list Z) : Z := 1 + foldr Z.max 0 ids.
Definition find_schema (n e : string) (d : list byte) (rs : list McapRecord) : option Z :=
  head (filter (λ id, RSchema id n e d ∈ rs ∧ id ≠ 0) (schema_ids rs)).
Definition find_channel (s : Z) (t e : string) (m : gmap string string) (rs : list McapRecord) : option Z :=
  head (filter (λ id, RChannel id s t e m ∈ rs) (channel_ids rs)).

Definition mcap_ref : McapCrate := {|
  Writer := list McapRecord;
  Inner := unit;
  create _ := Ok [];
  add_schema n e d rs := match find_schema n e d rs with
    | Some id => (rs, Ok id)
    | None => let id := next_id (schema_ids rs) in (rs ++ [RSchema id n e d], Ok id)
    end;
  add_channel s t e m rs := match find_channel s t e m rs with
    | Some id => (rs, Ok id)
    | None => let id := next_id (channel_ids rs) in (rs ++ [RChannel id s t e m], Ok id)
    end;
  write_to_known_channel h d rs := (rs ++ [RMessage h d], Ok tt);
  writer_metadata n m rs := (rs ++ [RMetadata n m], Ok tt);
  writer_attach a rs := (rs ++ [RAttachment a], Ok tt);
  writer_finish rs := (rs, Ok tt);
  into_inner _ := tt;
  records rs := rs
|}.

Lemma next_id_fresh ids : next_id ids ≠ 0 ∧ next_id ids ∉ ids.
Proof.
  unfold next_id.
  assert (∀ x, x ∈ ids → x ≤ foldr Z.max 0 ids) as Hle.
  { induction ids as [|y ids IH]; intros x Hx; [by apply elem_of_nil in Hx|]. cbn.
    apply elem_of_cons in Hx as [->|Hx]; [lia|]. specialize (IH _ Hx). lia. }
  assert (0 ≤ foldr Z.max 0 ids) by (clear; induction ids; cbn; lia).
  split; [lia|]. intros Hin%Hle. lia.
Qed.

Lemma head_filter {A} (P : A → Prop) `{∀ x, Decision (P x)} l x : head (filter P l) = Some x → P x.
Proof.
  intros Hh. assert (x ∈ filter P l) as Hx by (destruct (filter P l); simplify_eq/=; left).
  by apply list_elem_of_filter in Hx as [? _].
Qed.

Lemma mcap_ref_laws : @McapLaws mcap_ref.
Proof.
  split; cbn; try done; [by intros ? ? [= <-]|..].
  - intros n e d w. destruct (find_schema n e d w) as [id|] eqn:Ef.
    + apply head_filter in Ef as [Hin Hid]. split; [done|by left].
    + destruct (next_id_fresh (schema_ids w)). split; [done|by right].
  - intros s t e m w. destruct (find_channel s t e m w) as [id|] eqn:Ef.
    + apply head_filter in Ef. by left.
    + right. split; [done|]. apply next_id_fresh.
Qed.

(** Two channels of the context that the file describes by one record, and a
    third. *)
Definition example_desc (id : ChannelId) : ChannelDescriptor :=
  {| cd_id := id; cd_topic := if decide (id = 3) then "/b" else "/a"; cd_message_encoding := "json";
     cd_metadata := ∅; cd_schema := Some {| sch_name := "S"; sch_encoding := "jsonschema"; sch_data := [] |} |}.
Definition example_log (id : ChannelId) (t : Z) : @McapOp :=
  OpLog {| rc_descriptor := example_desc id |} [Byte.x07] {| m_log_time := t |}.
Definition example_ops : list McapOp := [example_log 1 10; example_log 2 11; example_log 3 12].

Definition example_sink : @McapSink mcap_ref :=
  {| mk_sink_id := 1; mk_inner := Some (@WriterState_new mcap_ref []); mk_channel_filter := None |}.

Lemma mcap_recording_witness :
  (let '(k', res) := run_ops example_ops example_sink in
   Forall no_panic res ∧
   ∃ s, mk_inner k' = Some s ∧ recording (records (ws_writer s)) (acknowledged example_ops res)) ∧
  match mk_inner (run_ops example_ops example_sink).1 with
  | Some s => hd_channel_id ∘ fst <$> messages (ws_writer s) = [1; 1; 2] ∧
      hd_sequence ∘ fst <$> messages (ws_writer s) = [1; 2; 1]
  | None => False
  end.
Proof.
  split; [|vm_compute; split; reflexivity].
  pose proof (@mcap_recording mcap_ref example_desc mcap_ref_laws 1 tt None example_sink example_ops
    eq_refl ltac:(repeat constructor) eq_refl) as Hr.
  destruct (run_ops example_ops example_sink) as [k' res].
  destruct Hr as (Hres & s & Hs & Hrec & _). split; [exact Hres|]. exists s. split; assumption.
Defined.

Lemma mcap_closed_witness :
  run_op (example_log 1 13) (McapSink_finish example_sink).1 =
    ((McapSink_finish example_sink).1, Err SinkClosed).
Proof.
  exact (proj2 (proj2 (mcap_closed example_sink)) (example_log 1 13) ltac:(discriminate)).
Defined.
