(* ===== verification/Following.v ===== *)
(** * Sinks that decide for each channel

    A sink whose [add_channels] looks at each channel on its own (an MCAP sink
    with a channel filter) is subscribed by the context exactly to the registered
    channels that it wants ([follows]); every operation of Context.v on channels
    and sinks keeps this. *)

From S2P Require Import Prelude Bytes Channel Subscriptions Context.
Local Open Scope Z_scope.

Section follows.
Context (wants : SinkId → ChannelDescriptor → bool).

(** The sink's answer to [add_channels]. *)
Definition decides (k : Sink) : Prop :=
  ∀ cs, sink_auto_subscribe k = false → ∃ ids, sink_add_channels k cs = Some ids ∧
    ∀ ch, ch ∈ ids ↔ ∃ c, c ∈ cs ∧ rc_id c = ch ∧ wants (sink_id k) (rc_descriptor c) = true.

(** The single subscriptions are those of the sinks to the channels they want. *)
Definition follows (x : ContextInner) : Prop :=
  ∀ ch id k, subs_at (by_channel (subs x)) ch !! id = Some k ↔
    ∃ c, channels x !! ch = Some c ∧ sinks x !! id = Some k ∧ sink_auto_subscribe k = false ∧
         wants id (rc_descriptor c) = true.

Lemma decides_one k c :
  decides k → sink_auto_subscribe k = false →
  (match sink_add_channels k [c] with Some ids => bool_decide (rc_id c ∈ ids) | None => false end) =
    wants (sink_id k) (rc_descriptor c).
Proof.
  intros Hk Ha. destruct (Hk [c] Ha) as (ids & -> & Hids). apply eq_bool_prop_intro.
  rewrite !Is_true_true, bool_decide_eq_true, Hids. split.
  - intros (d & ->%list_elem_of_singleton & _ & ?). done.
  - intros ?. exists c. split; [by left|done].
Qed.

(** The notification loop subscribes the sinks that want the channel. *)
Lemma notify_added_follows sks c l s w :
  subs_wf s → registered_ok sks s → (∀ k, k ∈ l → sks !! sink_id k = Some k ∧ decides k) →
  ∀ ch id k, subs_at (by_channel (foldl (notify_added c) (s, w) l).1) ch !! id = Some k ↔
    subs_at (by_channel s) ch !! id = Some k ∨
    ch = rc_id c ∧ k ∈ l ∧ sink_id k = id ∧ sink_auto_subscribe k = false ∧
      wants id (rc_descriptor c) = true.
Proof.
  revert s w. induction l as [|k0 l IH]; intros s w Hs Hr Hl ch id k.
  { cbn. split; [by left|]. intros [?|(_ & Hk & _)]; [done|by apply elem_of_nil in Hk]. }
  destruct (Hl k0 ltac:(by left)) as [Hk0 Hd0]. cbn [foldl notify_added Sink_add_channel Sink_add_channels].
  match goal with |- context [foldl _ (?a, ?b) l] => set (s1 := a); set (w1 := b) end.
  assert (subs_wf s1 ∧ registered_ok sks s1 ∧ ∀ ch id k,
    subs_at (by_channel s1) ch !! id = Some k ↔ subs_at (by_channel s) ch !! id = Some k ∨
      ch = rc_id c ∧ k = k0 ∧ sink_id k = id ∧ sink_auto_subscribe k = false ∧
        wants id (rc_descriptor c) = true) as (Hs1 & Hr1 & E1).
  { unfold s1. destruct (sink_auto_subscribe k0) eqn:Ea.
    { rewrite andb_false_r. split_and!; [done..|]. intros. split; [by left|].
      intros [?|(_ & -> & _ & ? & _)]; [done|congruence]. }
    rewrite (decides_one k0 c Hd0 Ea), andb_true_r. destruct (wants _ _) eqn:Ew.
    2: { split_and!; [done..|]. intros. split; [by left|].
      intros [?|(_ & -> & <- & _ & ?)]; [done|congruence]. }
    pose proof (subscribe_registered sks k0 [rc_id c] s Hs Hr Hk0) as Hsub.
    pose proof (subscribe_channels_spec k0 [rc_id c] s) as Hspec.
    destruct (Subscriptions.subscribe_channels k0 [rc_id c] s) as [b s2]. cbn.
    destruct Hsub as (? & ? & _). destruct Hspec as (_ & Eat & _). split_and!; [done..|].
    destruct Hr as (_ & Hg & Hc & _).
    assert (global s !! sink_id k0 = None) as Hn.
    { destruct (global s !! sink_id k0) as [k'|] eqn:E; [|done].
      destruct (Hg _ _ E) as [? ?]. congruence. }
    intros ch' id' k'. rewrite Eat.
    destruct (decide (ch' = rc_id c)) as [->|Hch].
    - rewrite decide_True by (split; [done|by left]). rewrite lookup_insert_Some. split.
      + intros [[<- <-]|[? ?]]; [by right|by left].
      + intros [Hk'|(_ & -> & <- & _)]; [|by left].
        destruct (decide (sink_id k0 = id')) as [<-|]; [left|by right]. split; [done|].
        destruct (Hc _ _ _ Hk') as [? _]. congruence.
    - rewrite decide_False by (rewrite list_elem_of_singleton; tauto).
      split; [by left|]. intros [?|[? _]]; done. }
  rewrite (IH s1 w1 Hs1 Hr1 (λ k Hk, Hl k ltac:(by right)) ch id k), E1, elem_of_cons.
  split; [intros [[?|(? & -> & ?)]|(? & ? & ?)]|intros [?|(? & [->|?] & ?)]]; auto 10.
Qed.

Definition all_decide (x : ContextInner) : Prop := ∀ id k, sinks x !! id = Some k → decides k.

Lemma add_channel_follows c x w :
  ctx_inv (x, w) → channels x !! rc_id c = None → all_decide x → follows x →
  let '(c', x', _) := add_channel c x w in
  follows x' ∧ sinks x' = sinks x ∧
  (c' = c ∧ channels x' = <[rc_id c := c]> (channels x) ∨
   x' = x ∧ channels x !! rc_id c' = Some c').
Proof.
  intros Hi Hfresh Hd Hf. pose proof (ci_registered _ Hi) as Hr. pose proof (ci_topics _ Hi) as [Ht _].
  unfold add_channel. destruct (find (λ d, rc_matches c d) _) as [d|] eqn:Ef.
  { split_and!; [done..|right]. split; [done|]. apply find_some in Ef as [Hin _].
    apply list_elem_of_In in Hin. cbn in *.
    destruct (channels_by_topic x !! rc_topic c) as [cs|] eqn:Ecs; [|by apply elem_of_nil in Hin].
    by destruct (Ht _ _ Ecs) as (_ & _ & Hcs & _); destruct (Hcs d Hin). }
  set (w0 := match default [] _ with [] => w | _ => _ end).
  pose proof (notify_added_follows (sinks x) c (values (sinks x)) (subs x) w0 (ci_subs _ Hi) Hr) as Hl.
  destruct (foldl _ _ _) as [s' w'] eqn:Es. cbn [fst] in Hl. split_and!; [|done|by left].
  intros ch id k. cbn [subs channels sinks]. rewrite Hl; [rewrite (Hf ch id k)|].
  - split.
    + intros [(d & Hd' & ?)|(-> & Hk & <- & ? & ?)].
      * exists d. rewrite lookup_insert_ne by congruence. done.
      * exists c. rewrite lookup_insert_eq. split_and!; [done| |done..]. by eapply values_registered.
    + intros (d & Hd' & Hk & ? & ?). apply lookup_insert_Some in Hd' as [[<- <-]|[? ?]]; [right|left; eauto].
      split_and!; [done| |by apply (proj1 Hr)|done|done]. apply elem_of_values. eauto.
  - intros k' Hk'. pose proof (values_registered _ _ _ Hr Hk'). split; [done|]. by eapply Hd.
Qed.

Lemma remove_channel_follows id x w :
  ctx_inv (x, w) → follows x →
  let '(_, x', _) := remove_channel id x w in
  follows x' ∧ sinks x' = sinks x ∧ channels x' = delete id (channels x).
Proof.
  intros Hi Hf. unfold remove_channel. destruct (channels x !! id) as [c|] eqn:Ec.
  2: { split_and!; [done..|]. by rewrite delete_id. }
  destruct (proj2 (ci_topics _ Hi) _ _ Ec) as [<- _]. split_and!; [|done|done].
  intros ch i k. cbn [channels sinks subs remove_channel_subscriptions by_channel snd].
  rewrite subs_at_delete. case_decide as Hch.
  - subst. rewrite lookup_empty. split; [done|]. intros (d & Hd & _). by rewrite lookup_delete_eq in Hd.
  - rewrite (Hf ch i k). by setoid_rewrite lookup_delete_ne; [|done..].
Qed.

Lemma add_sink_follows sink x w :
  ctx_inv (x, w) → sinks x !! sink_id sink = None → decides sink → follows x →
  let '(_, x', _) := add_sink sink x w in
  follows x' ∧ channels x' = channels x ∧ sinks x' = <[sink_id sink := sink]> (sinks x).
Proof.
  intros Hi Hn Hd Hf. pose proof (ci_registered _ Hi) as Hr. pose proof (ci_topics _ Hi) as Ht.
  assert (∀ ch, subs_at (by_channel (subs x)) ch !! sink_id sink = None) as Hno.
  { intros ch. destruct (subs_at _ ch !! _) as [k|] eqn:E; [|done].
    apply Hf in E as (? & _ & ? & _). congruence. }
  unfold add_sink. rewrite Hn. cbn [channels sinks subs channels_by_topic with_subs].
  set (r := match values (channels x) with [] => _ | _ => _ end).
  assert (r.1 = match values (channels x) with [] => None
                | _ => sink_add_channels sink (values (channels x)) end) as Er
    by (unfold r; by destruct (values (channels x))).
  destruct r as [ids w0]. cbn in Er. subst ids.
  destruct (sink_auto_subscribe sink) eqn:Ea.
  - pose proof (subscribe_global_registered _ _ _ (ci_subs _ Hi) Hr Hn Ea) as Hg.
    unfold subscribe_global in *. cbn in Hn, Hg.
    destruct (global (subs x) !! sink_id sink); [by destruct Hg|].
    split_and!; [|done|done]. intros ch id k. cbn [with_subs subs by_channel channels sinks].
    rewrite subs_at_retain, lookup_delete_Some, (Hf ch id k). split.
    + intros [? (c & ? & ? & ?)]. exists c. by rewrite lookup_insert_ne.
    + intros (c & ? & Hk & ? & ?). apply lookup_insert_Some in Hk as [[<- <-]|[? ?]]; [congruence|].
      split; [done|]. eauto.
  - destruct (Hd (values (channels x)) Ea) as (ids & Eids & Hids).
    set (wanted := filter (λ id, is_Some (channels x !! id)) (match values (channels x) with [] => [] | _ => ids end)).
    assert (∀ ch, ch ∈ wanted ↔ ∃ c, channels x !! ch = Some c ∧
      wants (sink_id sink) (rc_descriptor c) = true) as Hw.
    { intros ch. unfold wanted. rewrite list_elem_of_filter. split.
      - intros [[c Hc] Hin]. destruct (values (channels x)) eqn:E; [by apply elem_of_nil in Hin|].
        apply Hids in Hin as (d & Hd' & <- & ?). exists d. split; [|done].
        rewrite <- E in Hd'. by eapply elem_of_values_chans in Hd'.
      - intros (c & Hc & ?). split; [by eexists|].
        assert (c ∈ values (channels x)) as Hin by (apply elem_of_values; eauto).
        destruct (values (channels x)) eqn:E; [by apply elem_of_nil in Hin|].
        apply Hids. exists c. split_and!; [done| |done].
        by destruct (proj2 Ht _ _ Hc). }
    set (x1 := {| channels := channels x; channels_by_topic := _; sinks := _; subs := subs x |}).
    pose proof (subscribe_channels_spec sink wanted (subs x)) as Hspec.
    assert (global (subs x) !! sink_id sink = None) as Hg.
    { destruct (global (subs x) !! sink_id sink) as [k|] eqn:E; [|done].
      destruct (proj1 (proj2 Hr) _ _ E) as [Hk _]. cbn in Hk. congruence. }
    assert (∀ s', (∀ ch, subs_at (by_channel s') ch = if decide (ch ∈ wanted)
        then <[sink_id sink := sink]> (subs_at (by_channel (subs x)) ch)
        else subs_at (by_channel (subs x)) ch) → follows (with_subs s' x1)) as Hgoal.
    { intros s' Eat ch id k. cbn [with_subs subs x1 channels sinks]. rewrite Eat.
      case_decide as Hch.
      - rewrite lookup_insert_Some, (Hf ch id k). split.
        + intros [[<- <-]|[? (c & ? & ? & ?)]].
          * apply Hw in Hch as (c & ? & ?). exists c. by rewrite lookup_insert_eq.
          * exists c. by rewrite lookup_insert_ne.
        + intros (c & ? & Hk & ? & ?). apply lookup_insert_Some in Hk as [[<- <-]|[? ?]]; [by left|].
          right. split; [done|]. eauto.
      - rewrite (Hf ch id k). split.
        + intros (c & ? & ? & ?). exists c. rewrite lookup_insert_ne by congruence. done.
        + intros (c & ? & Hk & ? & ?). apply lookup_insert_Some in Hk as [[<- <-]|[? ?]]; [|eauto].
          destruct Hch. apply Hw. eauto. }
    assert (wanted = [] → follows x1) as Hnil.
    { intros E. apply (Hgoal (subs x)). intros ch. rewrite E, decide_False; [done|].
      apply not_elem_of_nil. }
    destruct (values (channels x)) eqn:Ev; [by split_and!; [apply Hnil|..]|].
    rewrite Eids. fold wanted.
    destruct wanted as [|id ids'] eqn:E; [by split_and!; [apply Hnil|..]|].
    destruct (Subscriptions.subscribe_channels _ _ _) as [b s']. destruct Hspec as (_ & Eat & _).
    split_and!; [|done|done]. apply Hgoal. intros ch. rewrite Eat.
    destruct (decide (ch ∈ id :: ids')); [by rewrite decide_True|by rewrite decide_False by tauto].
Qed.

Lemma remove_sink_follows id x w :
  ctx_inv (x, w) → follows x →
  let '(_, x', _) := remove_sink id x w in
  follows x' ∧ channels x' = channels x ∧ sinks x' = delete id (sinks x).
Proof.
  intros Hi Hf. unfold remove_sink. pose proof (remove_subscriber_spec id (subs x)) as Hspec.
  destruct (remove_subscriber id (subs x)) as [b s]. destruct Hspec as (_ & Eat & _).
  split_and!; [|done|done]. intros ch i k. cbn [with_subs subs channels sinks]. rewrite Eat.
  assert (subs_at (by_channel (subs x)) ch !! i = Some k → i = id →
    global (subs x) !! id = None) as Hn.
  { intros Hk ->. by destruct (subs_wf_elim _ _ _ _ (ci_subs _ Hi) Hk). }
  setoid_rewrite lookup_delete_Some. case_decide as Hg.
  - rewrite lookup_delete_Some, (Hf ch i k). naive_solver.
  - rewrite (Hf ch i k) in *. naive_solver.
Qed.

Lemma clear_follows x w : follows (clear x w).1.
Proof.
  intros ch id k. cbn. unfold subs_at. rewrite !lookup_empty. cbn. rewrite lookup_empty.
  split; [done|]. by intros (c & Hc & _).
Qed.
End follows.
