(* ===== verification/Recorder.v ===== *)
(** * Recorders: MCAP writers attached to a context

    `mcap_writer.rs` on top of the context (Context.v) and the sink (McapSink.v):
    an application builds channels, creates MCAP files with [McapWriter], logs,
    and closes or drops the [McapWriterHandle]s.  The sinks live in a store,
    because the context and the handles share them; the calls of [log] that the
    context makes on them are the [EvLog] events of the trace, which [deliver]
    carries out in order.  The main theorem says what a file then contains. *)

From S2P Require Import Prelude Bytes Channel Subscriptions Context Following McapSink.
Local Open Scope Z_scope.

Section recorder.
Context `{McapCrate}.
Abbreviation Filter := (option (ChannelDescriptor → bool)).

(** ** The system *)

(** [Arc<McapSink>] as the context's [Arc<dyn Sink>].  Its [log] is carried out by
    [deliver]. *)
Definition McapSink_as_sink (k : McapSink) : Sink :=
  {| sink_id := mk_sink_id k; sink_auto_subscribe := McapSink_auto_subscribe k;
     sink_add_channels cs := McapSink_add_channels cs k; sink_log _ _ _ := None |}.

(** A handle is known by its sink's id; [rec_handles] are those not yet closed.
    The context is dropped when [rec_alive] is false. *)
Record Recorder := {
  rec_context : ContextInner;
  rec_alive : bool;
  rec_world : World;
  rec_made : gmap ChannelId RawChannel;
  rec_sinks : gmap SinkId McapSink;
  rec_handles : gset SinkId;
  rec_next_sink : Z  (* the counter of [SinkId::next] *)
}.
Definition Recorder_init : Recorder :=
  {| rec_context := ContextInner_default; rec_alive := true;
     rec_world := {| w_next_id := 1; w_store := ∅; w_trace := [] |};
     rec_made := ∅; rec_sinks := ∅; rec_handles := ∅; rec_next_sink := 1 |}.

Definition set_ctx (x : ContextInner) (w : World) (s : Recorder) : Recorder :=
  {| rec_context := x; rec_alive := rec_alive s; rec_world := w; rec_made := rec_made s;
     rec_sinks := rec_sinks s; rec_handles := rec_handles s; rec_next_sink := rec_next_sink s |}.
Definition set_sink (id : SinkId) (k : McapSink) (s : Recorder) : Recorder :=
  {| rec_context := rec_context s; rec_alive := rec_alive s; rec_world := rec_world s;
     rec_made := rec_made s; rec_sinks := <[id := k]> (rec_sinks s);
     rec_handles := rec_handles s; rec_next_sink := rec_next_sink s |}.

(** ** Logging *)

(** One call of [Sink::log] on an MCAP sink; an error is reported by the logging
    loop ([for_each]).  A panic is the application's. *)
Definition log_event (made : gmap ChannelId RawChannel) (ev : Event) (ks : gmap SinkId McapSink) :
    result FoxgloveError (list Event * gmap SinkId McapSink) :=
  match ev with
  | EvLog sid ch msg metadata =>
    match made !! ch, ks !! sid with
    | Some c, Some k =>
      let '(k, r) := McapSink_log c msg metadata k in
      match r with
      | Ok _ => Ok ([ev], <[sid := k]> ks)
      | Err e => Ok ([ev; EvWarnLogError sid e], <[sid := k]> ks)
      | Panic => Panic
      end
    | _, _ => Ok ([ev], ks)
    end
  | _ => Ok ([ev], ks)
  end.
Fixpoint log_all (made : gmap ChannelId RawChannel) (evs : list Event) (ks : gmap SinkId McapSink) :
    result FoxgloveError (list Event * gmap SinkId McapSink) :=
  match evs with
  | [] => Ok ([], ks)
  | ev :: evs =>
    '(es, ks) ← log_event made ev ks;
    '(es', ks) ← log_all made evs ks;
    Ok (es ++ es', ks)
  end.

(** After a logging call that took the world from that of [s] to [w]. *)
Definition deliver (w : World) (s : Recorder) : result FoxgloveError Recorder :=
  let old := w_trace (rec_world s) in
  '(evs, ks) ← log_all (rec_made s) (drop (length old) (w_trace w)) (rec_sinks s);
  Ok {| rec_context := rec_context s; rec_alive := rec_alive s;
        rec_world := {| w_next_id := w_next_id w; w_store := w_store w; w_trace := old ++ evs |};
        rec_made := rec_made s; rec_sinks := ks; rec_handles := rec_handles s;
        rec_next_sink := rec_next_sink s |}.

(** [RawChannel::log_with_meta_to_sink]; [instant] and [epoch] are the clocks. *)
Definition log_message (instant epoch : Z) (c : RawChannel) (msg : list byte) (opts : PartialMetadata)
    (target : option SinkId) (s : Recorder) : result FoxgloveError Recorder :=
  deliver (log_with_meta_to_sink instant epoch c msg opts target (rec_world s)) s.

(** ** [McapWriter] *)

Record McapWriter := { mw_channel_filter : Filter }.
Definition McapWriter_new : McapWriter := {| mw_channel_filter := None |}.
Definition McapWriter_channel_filter (f : ChannelDescriptor → bool) (b : McapWriter) : McapWriter :=
  {| mw_channel_filter := Some f |}.

(** [McapWriter::create].  The id is taken once the writer exists. *)
Definition McapWriter_create (b : McapWriter) (writer : Inner) (s : Recorder) :
    result FoxgloveError SinkId * Recorder :=
  let id := rec_next_sink s in
  match McapSink_new id writer (mw_channel_filter b) with
  | Ok k =>
    let '(_, x, w) := add_sink (McapSink_as_sink k) (rec_context s) (rec_world s) in
    (Ok id, {| rec_context := x; rec_alive := rec_alive s; rec_world := w; rec_made := rec_made s;
               rec_sinks := <[id := k]> (rec_sinks s);
               rec_handles := {[id]} ∪ rec_handles s;
               rec_next_sink := wrap 64 (id + 1) |})
  | Err e => (Err e, s)
  | Panic => (Panic, s)
  end.

(** ** [McapWriterHandle] *)

(** [finish]: [upgrade] fails once the context is dropped. *)
Definition handle_finish (id : SinkId) (s : Recorder) : result FoxgloveError (option Inner) * Recorder :=
  let s := if rec_alive s then
             let '(_, x, w) := remove_sink id (rec_context s) (rec_world s) in set_ctx x w s
           else s in
  match rec_sinks s !! id with
  | Some k => let '(k, r) := McapSink_finish k in (r, set_sink id k s)
  | None => (Ok None, s)
  end.
Definition forget_handle (id : SinkId) (s : Recorder) : Recorder :=
  {| rec_context := rec_context s; rec_alive := rec_alive s; rec_world := rec_world s;
     rec_made := rec_made s; rec_sinks := rec_sinks s; rec_handles := rec_handles s ∖ {[id]};
     rec_next_sink := rec_next_sink s |}.

(** [Drop::drop] logs the error of [finish]. *)
Definition handle_drop (id : SinkId) (s : Recorder) : result FoxgloveError unit * Recorder :=
  let '(r, s) := handle_finish id s in
  (match r with Panic => Panic | _ => Ok tt end, forget_handle id s).

(** [close] consumes the handle, which is then dropped. *)
Definition handle_close (id : SinkId) (s : Recorder) : result FoxgloveError Inner * Recorder :=
  let '(r, s) := handle_finish id s in
  let '(d, s) := handle_drop id s in
  (_ ← d; o ← r; or_panic (E:=FoxgloveError) o, s).

(** [write_metadata] and [attach]. *)
Definition with_sink (f : McapSink → McapSink * result FoxgloveError unit) (id : SinkId) (s : Recorder) :
    result FoxgloveError unit * Recorder :=
  match rec_sinks s !! id with
  | Some k => let '(k, r) := f k in (r, set_sink id k s)
  | None => (Err SinkClosed, s)
  end.
Definition handle_write_metadata (id : SinkId) (name : string) (metadata : gmap string string) :
    Recorder → result FoxgloveError unit * Recorder :=
  with_sink (McapSink_write_metadata name metadata) id.
Definition handle_attach (id : SinkId) (a : Attachment) :
    Recorder → result FoxgloveError unit * Recorder :=
  with_sink (McapSink_attach a) id.

(** ** Runs *)

(** What an application does.  An operation on a channel it has not built, or on
    a handle it no longer holds, is not possible and changes nothing. *)
Inductive RecOp :=
| RBuild (b : ChannelBuilder)
| RCloseChannel (ch : ChannelId)
| RLog (instant epoch : Z) (ch : ChannelId) (msg : list byte) (opts : PartialMetadata)
    (target : option SinkId)
| RCreate (b : McapWriter) (writer : Inner)
| RClose (id : SinkId)
| RDrop (id : SinkId)
| RMetadata (id : SinkId) (name : string) (metadata : gmap string string)
| RAttach (id : SinkId) (a : Attachment)
| RDropContext.

Definition no_result {A} (r : result FoxgloveError A * Recorder) : result FoxgloveError Recorder :=
  match r.1 with Panic => Panic | _ => Ok r.2 end.

Definition rec_step (op : RecOp) (s : Recorder) : result FoxgloveError Recorder :=
  match op with
  | RBuild b =>
    if rec_alive s then
      match build_raw b (rec_context s) (rec_world s) with
      | Ok (c, x, w) =>
        Ok {| rec_context := x; rec_alive := true; rec_world := w;
              rec_made := <[rc_id c := c]> (rec_made s); rec_sinks := rec_sinks s;
              rec_handles := rec_handles s; rec_next_sink := rec_next_sink s |}
      | Err _ => Ok s
      | Panic => Panic
      end
    else Ok s
  | RCloseChannel ch =>
    match rec_made s !! ch with
    | Some c => let '(x, w) := close c (rec_context s) (rec_world s) in Ok (set_ctx x w s)
    | None => Ok s
    end
  | RLog instant epoch ch msg opts target =>
    match rec_made s !! ch with
    | Some c => log_message instant epoch c msg opts target s
    | None => Ok s
    end
  | RCreate b writer => if rec_alive s then no_result (McapWriter_create b writer s) else Ok s
  | RClose id => if decide (id ∈ rec_handles s) then no_result (handle_close id s) else Ok s
  | RDrop id => if decide (id ∈ rec_handles s) then no_result (handle_drop id s) else Ok s
  | RMetadata id name md =>
    if decide (id ∈ rec_handles s) then no_result (handle_write_metadata id name md s) else Ok s
  | RAttach id a => if decide (id ∈ rec_handles s) then no_result (handle_attach id a s) else Ok s
  | RDropContext =>
    let '(x, w) := clear (rec_context s) (rec_world s) in
    Ok {| rec_context := x; rec_alive := false; rec_world := w; rec_made := rec_made s;
          rec_sinks := rec_sinks s; rec_handles := rec_handles s; rec_next_sink := rec_next_sink s |}
  end.
Fixpoint rec_run (ops : list RecOp) (s : Recorder) : result FoxgloveError Recorder :=
  match ops with [] => Ok s | op :: ops => s ← rec_step op s; rec_run ops s end.

(** ** What a file should contain *)

Definition accepts (f : Filter) (d : ChannelDescriptor) : bool :=
  match f with Some f => f d | None => true end.

(** What one operation of the application asks of a file whose handle is open: to
    record the messages logged on registered channels that its filter accepts
    (if they are not meant for another sink), the metadata and the attachments. *)
Definition seen_op (id : SinkId) (f : Filter) (op : RecOp) (s : Recorder) : list McapOp :=
  match op with
  | RLog _ epoch ch msg opts target =>
    match channels (rec_context s) !! ch with
    | Some c =>
      if accepts f (rc_descriptor c) && bool_decide (default id target = id)
      then [OpLog c msg {| m_log_time := default epoch (pm_log_time opts) |}] else []
    | None => []
    end
  | RMetadata id' name md => if decide (id' = id) then [OpMetadata name md] else []
  | RAttach id' a => if decide (id' = id) then [OpAttach a] else []
  | _ => []
  end.
Fixpoint seen (id : SinkId) (f : Filter) (ops : list RecOp) (s : Recorder) : list McapOp :=
  match ops with
  | [] => []
  | op :: ops =>
    seen_op id f op s ++ match rec_step op s with Ok s => seen id f ops s | _ => [] end
  end.

(** An operation that leaves the handle open. *)
Definition keeps (id : SinkId) (op : RecOp) : Prop :=
  match op with RClose id' | RDrop id' => id' ≠ id | _ => True end.

(** ** The invariant *)

Context `{!McapLaws}.

Definition wants (s : Recorder) (id : SinkId) (d : ChannelDescriptor) : bool :=
  match rec_sinks s !! id ≫= mk_channel_filter with Some f => f d | None => false end.

(** A past operation of a sink, on channels that exist. *)
Definition op_made (made : gmap ChannelId RawChannel) (op : McapOp) : Prop :=
  match op with OpLog c _ _ => made !! rc_id c = Some c | OpFinish => False | _ => True end.

(** The state of an open sink comes from the operations on it. *)
Definition has_history (made : gmap ChannelId RawChannel) (n : nat) (id : SinkId) (m : McapSink) : Prop :=
  ∃ writer k0 h, McapSink_new id writer (mk_channel_filter m) = Ok k0 ∧ Forall (op_made made) h ∧
    (length h ≤ n)%nat ∧ (run_ops h k0).1 = m.

Record rec_inv (n : nat) (s : Recorder) : Prop := {
  ri_ctx : ctx_inv (rec_context s, rec_world s);
  ri_next : w_next_id (rec_world s) ≤ 1 + Z.of_nat n ∧ 1 ≤ rec_next_sink s ≤ 1 + Z.of_nat n;
  ri_follows : follows (wants s) (rec_context s);
  ri_sinks : ∀ id k, sinks (rec_context s) !! id = Some k →
    id ∈ rec_handles s ∧ ∃ m, rec_sinks s !! id = Some m ∧ k = McapSink_as_sink m;
  ri_keyed : ∀ id m, rec_sinks s !! id = Some m → mk_sink_id m = id ∧ id < rec_next_sink s;
  ri_made : ∀ ch c, rec_made s !! ch = Some c → rc_id c = ch ∧ ch < w_next_id (rec_world s);
  ri_registered : ∀ ch c, channels (rec_context s) !! ch = Some c → rec_made s !! ch = Some c;
  ri_handles : ∀ id, id ∈ rec_handles s → ∃ m, rec_sinks s !! id = Some m ∧
    has_history (rec_made s) n id m ∧
    (rec_alive s = true → sinks (rec_context s) !! id = Some (McapSink_as_sink m));
  ri_dropped : rec_alive s = false → channels (rec_context s) = ∅ ∧ sinks (rec_context s) = ∅
}.

(** ** Histories *)

Definition desc_of (made : gmap ChannelId RawChannel) (ch : ChannelId) : ChannelDescriptor :=
  match made !! ch with
  | Some c => rc_descriptor c
  | None => {| cd_id := ch; cd_topic := ""; cd_message_encoding := ""; cd_metadata := ∅; cd_schema := None |}
  end.

Lemma op_made_ok made op : op_made made op → op_ok (desc_of made) op.
Proof. destruct op; cbn; [|done..]. unfold desc_of. by intros ->. Qed.

Lemma op_made_mono made made' op : made ⊆ made' → op_made made op → op_made made' op.
Proof. destruct op; cbn; [|done..]. intros Hm Hc. by apply (lookup_weaken made). Qed.

Lemma has_history_mono made made' n n' id m :
  made ⊆ made' → (n ≤ n')%nat → has_history made n id m → has_history made' n' id m.
Proof.
  intros Hm Hn (writer & k0 & h & Hk & Hh & Hl & Hr). exists writer, k0, h.
  split_and!; [done| |lia|done]. eapply Forall_impl; [done|]. intros op. by apply op_made_mono.
Qed.

Lemma with_writer_keeps f k :
  mk_sink_id (with_writer f k).1 = mk_sink_id k ∧
  mk_channel_filter (with_writer f k).1 = mk_channel_filter k.
Proof. unfold with_writer. destruct (mk_inner k) as [st|]; [|done]. by destruct (f st). Qed.

Lemma run_op_keeps op k :
  mk_sink_id (run_op op k).1 = mk_sink_id k ∧ mk_channel_filter (run_op op k).1 = mk_channel_filter k.
Proof.
  destruct op as [c msg meta|name md|a|]; cbn [run_op].
  - apply with_writer_keeps.
  - unfold McapSink_write_metadata. case_decide; [done|]. apply with_writer_keeps.
  - apply with_writer_keeps.
  - unfold McapSink_finish. destruct (mk_inner k) as [st|]; [|done]. by destruct (writer_finish _).
Qed.

Lemma run_ops_filter h k : mk_channel_filter (run_ops h k).1 = mk_channel_filter k.
Proof.
  revert k. induction h as [|op h IH]; intros k; [done|]. cbn [run_ops].
  destruct (run_op_keeps op k) as [_ E]. destruct (run_op op k) as [k1 r]. cbn in E.
  rewrite <- E, <- (IH k1). by destruct (run_ops h k1).
Qed.

Lemma run_ops_app h1 h2 k :
  run_ops (h1 ++ h2) k =
    (let '(k1, r1) := run_ops h1 k in let '(k2, r2) := run_ops h2 k1 in (k2, r1 ++ r2)).
Proof.
  revert k. induction h1 as [|op h1 IH]; intros k; cbn [app run_ops].
  - by destruct (run_ops h2 k).
  - destruct (run_op op k) as [k1 r]. rewrite IH. destruct (run_ops h1 k1) as [k2 r1].
    by destruct (run_ops h2 k2) as [k3 r2].
Qed.

(** A history from a new sink goes as in McapSink.v. *)
Lemma history_run made id writer f k0 h :
  McapSink_new id writer f = Ok k0 → Forall (op_made made) h → Z.of_nat (length h) < 2 ^ 32 →
  let '(k, res) := run_ops h k0 in
  Forall no_panic res ∧
  ∃ st, mk_inner k = Some st ∧ recording (records (ws_writer st)) (acknowledged h res).
Proof.
  intros Hk Hh Hl. unfold McapSink_new in Hk.
  destruct (create writer) as [w0| |] eqn:Hc; cbn in Hk; [|done|done]. injection Hk as <-.
  set (k0 := {| mk_inner := _ |}).
  pose proof (run_ops_spec (desc_of made) h k0 (WriterState_new w0) [] 0 eq_refl
    (ws_inv_new _ _ (create_records _ _ Hc)) Hl) as Hrun.
  destruct (run_ops h k0) as [k res]. destruct Hrun as (Hres & st & Hst & [Hrec _ _ _]).
  - eapply Forall_impl; [done|]. intros op. apply op_made_ok.
  - split; [done|]. by exists st.
Qed.

(** One more operation on a sink with a history. *)
Lemma history_step made n id m op :
  has_history made n id m → op_made made op → Z.of_nat n < 2 ^ 32 - 1 →
  is_Some (mk_inner m) ∧ no_panic (run_op op m).2 ∧ has_history made (S n) id (run_op op m).1.
Proof.
  intros (writer & k0 & h & Hk & Hh & Hl & Hr) Hop Hn.
  assert (is_Some (mk_inner m)) as Hopen.
  { pose proof (history_run made id writer _ k0 h Hk Hh ltac:(lia)) as Hrun.
    destruct (run_ops h k0) as [k res]. cbn in Hr. subst k. destruct Hrun as (_ & st & -> & _). done. }
  pose proof (history_run made id writer _ k0 (h ++ [op]) Hk) as Hrun.
  rewrite run_ops_app in Hrun. destruct (run_ops h k0) as [k res] eqn:E. cbn in Hr. subst k.
  cbn [run_ops] in Hrun. destruct (run_op op m) as [k1 r] eqn:E1.
  destruct Hrun as (Hres & _).
  { apply Forall_app. split; [done|]. by constructor. }
  { rewrite length_app. cbn. lia. }
  split_and!; [done| |].
  - apply Forall_app in Hres as [_ Hres]. by inversion Hres.
  - destruct (run_op_keeps op m) as [_ Ef]. rewrite E1 in Ef. exists writer, k0, (h ++ [op]).
    cbn in Ef |- *. rewrite Ef, run_ops_app, E. cbn [run_ops]. rewrite E1.
    split_and!; [done| |rewrite length_app; cbn; lia|done].
    apply Forall_app. split; [done|]. by constructor.
Qed.

(** ** Logging *)

Lemma ctx_inv_world x w w' :
  ctx_inv (x, w) → w_store w' = w_store w → w_next_id w' = w_next_id w → ctx_inv (x, w').
Proof.
  intros [Hs Ht Hr Hsk Hst] Ew En. split; cbn in *; [done|done|done|by rewrite Ew|].
  unfold store_ok. by rewrite Ew, En.
Qed.

(** Logging on a channel that is not registered reaches no sink. *)
Lemma log_unregistered_world instant epoch c msg opts target x w :
  ctx_inv (x, w) → channels x !! rc_id c = None →
  let w' := log_with_meta_to_sink instant epoch c msg opts target w in
  ctx_inv (x, w') ∧ w_next_id w' = w_next_id w ∧
  ∃ evs, w_trace w' = w_trace w ++ evs ∧ (evs = [] ∨ evs = [EvWarnClosed (rc_topic c)]).
Proof.
  intros Hi Hc w'. unfold w', log_with_meta_to_sink, has_sinks.
  rewrite (channel_sinks_unregistered x w c Hi Hc). unfold log_warn_if_closed.
  destruct (w_store w !! rc_id c) as [st|] eqn:Est.
  2: { split_and!; [done..|]. exists []. rewrite app_nil_r. auto. }
  destruct (cs_closed st) eqn:Ecl.
  2: { split_and!; [done..|]. exists []. rewrite app_nil_r. auto. }
  destruct (Channel.try_acquire instant (cs_warn_throttler st)) as [ok t].
  set (w1 := alter_channel _ c w).
  assert (ctx_inv (x, w1)) as Hi1.
  { destruct Hi as [Hs Ht Hr Hsk [Hn Hst]]. split; cbn in *; [done|done|done| |].
    - intros id d Hd. destruct (Hsk _ _ Hd) as (st' & ? & ?). exists st'.
      rewrite lookup_alter_ne; [done|]. congruence.
    - split; [done|]. intros id st'. cbn. destruct (decide (id = rc_id c)) as [->|Hne].
      + rewrite lookup_alter_eq, Est. intros [= <-]. cbn. by apply Hst.
      + rewrite lookup_alter_ne by done. apply Hst. }
  destruct ok; (split_and!; [first [exact Hi1|exact (ctx_inv_emit _ _ _ Hi1)]|done|]).
  - eexists. split; [done|auto].
  - exists []. rewrite app_nil_r. auto.
Qed.

(** The logging loop calls each listed sink once. *)
Lemma log_all_spec made c msg metadata ids ks :
  made !! rc_id c = Some c → NoDup ids →
  (∀ id, id ∈ ids → ∃ m, ks !! id = Some m ∧ no_panic (McapSink_log c msg metadata m).2) →
  ∃ evs ks', log_all made ((λ id, EvLog id (rc_id c) msg metadata) <$> ids) ks = Ok (evs, ks') ∧
    ∀ id, ks' !! id = if decide (id ∈ ids) then fst ∘ McapSink_log c msg metadata <$> ks !! id
                      else ks !! id.
Proof.
  intros Hc Hnd. revert ks. induction Hnd as [|id ids Hid Hnd IH]; intros ks Hks.
  { exists [], ks. split; [done|]. intros id. rewrite decide_False; [done|apply not_elem_of_nil]. }
  destruct (Hks id ltac:(by left)) as (m & Hm & Hnp).
  rewrite fmap_cons. cbn [log_all log_event]. rewrite Hc, Hm.
  destruct (McapSink_log c msg metadata m) as [m' r] eqn:E. cbn in Hnp.
  destruct (IH (<[id := m']> ks)) as (evs & ks' & El & Hks').
  { intros id' Hid'. rewrite lookup_insert_ne by congruence. apply Hks. by right. }
  assert (∀ es, ∃ evs, (('(es, ks) ← (Ok (es, <[id := m']> ks) : result FoxgloveError _);
    '(es', ks) ← log_all made ((λ id, EvLog id (rc_id c) msg metadata) <$> ids) ks;
    Ok (es ++ es', ks)) : result FoxgloveError _) = Ok (evs, ks')) as Hrun
    by (intros es; cbn; rewrite El; by eexists).
  assert (∀ id0, ks' !! id0 = if decide (id0 ∈ id :: ids)
    then fst ∘ McapSink_log c msg metadata <$> ks !! id0 else ks !! id0) as Hl.
  { intros id0. rewrite Hks'. destruct (decide (id0 = id)) as [->|Hne].
    - rewrite decide_False by done. rewrite decide_True by left. rewrite Hm. cbn.
      by rewrite lookup_insert_eq, E.
    - rewrite lookup_insert_ne by done. destruct (decide (id0 ∈ ids)).
      + by rewrite decide_True by (by right).
      + rewrite decide_False; [done|]. by intros [?|?]%elem_of_cons. }
  destruct r as [[]|e|]; [| |done].
  - destruct (Hrun [EvLog id (rc_id c) msg metadata]) as [evs' Hev]. exists evs', ks'. done.
  - destruct (Hrun [EvLog id (rc_id c) msg metadata; EvWarnLogError id e]) as [evs' Hev].
    exists evs', ks'. done.
Qed.

(** ** Every operation keeps the invariant *)

Lemma follows_ext (w1 w2 : SinkId → ChannelDescriptor → bool) x :
  (∀ id k, sinks x !! id = Some k → ∀ d, w1 id d = w2 id d) → follows w1 x → follows w2 x.
Proof.
  intros He Hf ch id k. rewrite (Hf ch id k). split; intros (c & ? & Hk & ? & Hw); exists c;
    (split_and!; [done..|]); [by rewrite <- (He _ _ Hk)|by rewrite (He _ _ Hk)].
Qed.

Lemma as_sink_decides s m :
  rec_sinks s !! mk_sink_id m = Some m → decides (wants s) (McapSink_as_sink m).
Proof.
  intros Hm cs. cbn. unfold McapSink_auto_subscribe, McapSink_add_channels, wants.
  destruct (mk_channel_filter m) as [f|] eqn:Ef; [|done]. intros _. eexists. split; [done|].
  intros ch. rewrite list_elem_of_fmap. rewrite Hm. cbn. rewrite Ef.
  setoid_rewrite list_elem_of_filter. naive_solver.
Qed.

Lemma inv_decides n s id k :
  rec_inv n s → sinks (rec_context s) !! id = Some k → decides (wants s) k.
Proof.
  intros Hi Hk. destruct (ri_sinks _ _ Hi _ _ Hk) as (_ & m & Hm & ->).
  apply as_sink_decides. by rewrite (proj1 (ri_keyed _ _ Hi _ _ Hm)).
Qed.

Lemma rec_inv_mono n n' s : (n ≤ n')%nat → rec_inv n s → rec_inv n' s.
Proof.
  intros Hn [Hc [Hx Hy] Hf Hs Hk Hm Hr Hh Hd]. split; [done|lia|done..| |done].
  intros id Hid. destruct (Hh id Hid) as (m & ? & ? & ?). exists m. split_and!; [done| |done].
  by eapply has_history_mono.
Qed.

(** A step that only works on the open sinks. *)
Lemma rec_inv_sinks n s s' :
  rec_inv n s →
  rec_context s' = rec_context s → rec_alive s' = rec_alive s → rec_made s' = rec_made s →
  rec_handles s' = rec_handles s → rec_next_sink s' = rec_next_sink s →
  ctx_inv (rec_context s, rec_world s') → w_next_id (rec_world s') = w_next_id (rec_world s) →
  (∀ id, match rec_sinks s !! id with
    | Some m => ∃ m', rec_sinks s' !! id = Some m' ∧ mk_sink_id m' = mk_sink_id m ∧
        mk_channel_filter m' = mk_channel_filter m ∧
        (id ∈ rec_handles s → has_history (rec_made s) (S n) id m')
    | None => rec_sinks s' !! id = None
    end) →
  rec_inv (S n) s'.
Proof.
  intros [Hc [Hx Hy] Hf Hs Hk Hm Hr Hh Hd] Ex Ea Em Eh En Hw Ewn Hsk.
  assert (∀ m m', mk_sink_id m' = mk_sink_id m → mk_channel_filter m' = mk_channel_filter m →
    McapSink_as_sink m' = McapSink_as_sink m) as Has.
  { intros m m' E1 E2. unfold McapSink_as_sink, McapSink_auto_subscribe, McapSink_add_channels.
    by rewrite E1, E2. }
  split; rewrite ?Ex, ?Ea, ?Em, ?Eh, ?En, ?Ewn; [done|lia| | | |done|done| |done].
  - eapply follows_ext; [|exact Hf]. intros id k Hid d. unfold wants. specialize (Hsk id).
    destruct (rec_sinks s !! id) as [m|] eqn:E; [|by rewrite Hsk].
    destruct Hsk as (m' & -> & _ & Ef & _). cbn. by rewrite Ef.
  - intros id k Hid. destruct (Hs _ _ Hid) as (? & m & E & ->). split; [done|].
    specialize (Hsk id). rewrite E in Hsk. destruct Hsk as (m' & ? & ? & ? & _). exists m'.
    split; [done|]. symmetry. by apply Has.
  - intros id m'. specialize (Hsk id). destruct (rec_sinks s !! id) as [m|] eqn:E; [|congruence].
    destruct Hsk as (m1 & -> & Ei & _). intros [= <-]. rewrite Ei. by apply Hk.
  - intros id Hid. destruct (Hh id Hid) as (m & E & _ & Ha). specialize (Hsk id). rewrite E in Hsk.
    destruct Hsk as (m' & ? & ? & ? & Hhist). exists m'. split_and!; [done|by apply Hhist|].
    intros Halive. rewrite (Has m m'); auto.
Qed.

(** *** Logging *)

Lemma subscribed_accepts n s id m c :
  rec_inv n s → channels (rec_context s) !! rc_id c = Some c →
  sinks (rec_context s) !! id = Some (McapSink_as_sink m) → rec_sinks s !! id = Some m →
  subscribed (rec_context s) (rc_id c) (McapSink_as_sink m) ↔
    accepts (mk_channel_filter m) (rc_descriptor c) = true.
Proof.
  intros Hi Hc Hk Hm. destruct (ri_keyed _ _ Hi _ _ Hm) as [Eid _]. unfold subscribed.
  cbn [sink_id sink_auto_subscribe McapSink_as_sink]. rewrite Eid, Hk.
  unfold McapSink_auto_subscribe. destruct (mk_channel_filter m) as [f|] eqn:Ef; cbn [accepts].
  2: { split; auto. }
  assert (∀ d, wants s id d = f d) as Ew by (intros d; unfold wants; rewrite Hm; cbn; by rewrite Ef).
  pose proof (ri_follows _ _ Hi (rc_id c) id) as Hf. split.
  - intros [_ [?|[k Hs]]]; [done|]. apply Hf in Hs as (d & Hd & _ & _ & Hw).
    rewrite Hc in Hd. injection Hd as <-. by rewrite <- Ew.
  - intros Hw. split; [done|right]. eexists. apply Hf. exists c.
    split_and!; [done|exact Hk| |by rewrite Ew]. cbn. unfold McapSink_auto_subscribe. by rewrite Ef.
Qed.

(** What [seen_op] says of a log, as a condition. *)
Definition hears (s : Recorder) (c : RawChannel) (target : option SinkId) (id : SinkId) (m : McapSink) : Prop :=
  is_Some (channels (rec_context s) !! rc_id c) ∧
  accepts (mk_channel_filter m) (rc_descriptor c) = true ∧ default id target = id.

Lemma log_targets n s instant epoch c msg opts target :
  rec_inv n s → rec_made s !! rc_id c = Some c → Z.of_nat n < 2 ^ 32 - 1 →
  let metadata := {| m_log_time := default epoch (pm_log_time opts) |} in
  let w' := log_with_meta_to_sink instant epoch c msg opts target (rec_world s) in
  ∃ ids evs, w_trace w' = w_trace (rec_world s) ++ evs ∧
    (evs = ((λ id, EvLog id (rc_id c) msg metadata) <$> ids) ∨
     ids = [] ∧ evs = [EvWarnClosed (rc_topic c)]) ∧
    ctx_inv (rec_context s, w') ∧ w_next_id w' = w_next_id (rec_world s) ∧ NoDup ids ∧
    ∀ id, id ∈ ids ↔ id ∈ rec_handles s ∧ ∃ m, rec_sinks s !! id = Some m ∧ hears s c target id m.
Proof.
  intros Hi Hc Hn metadata w'. pose proof (ri_ctx _ _ Hi) as Hx.
  destruct (channels (rec_context s) !! rc_id c) as [d|] eqn:Ech.
  2: { destruct (log_unregistered_world instant epoch c msg opts target _ _ Hx Ech)
         as (? & ? & evs & ? & Hevs).
       exists [], evs. split_and!; [done| |done|done|constructor|].
       - destruct Hevs; auto.
       - intros id. rewrite elem_of_nil. split; [done|]. intros (_ & m & _ & [? Hd] & _). congruence. }
  assert (d = c) as -> by (apply (ri_registered _ _ Hi) in Ech; congruence).
  destruct (log_events instant epoch c msg opts target _ _ Hx Ech) as (ks & Ew & Hnd & Hks).
  assert (∀ k, k ∈ ks → sink_id k ∈ rec_handles s ∧ ∃ m, rec_sinks s !! sink_id k = Some m ∧
    k = McapSink_as_sink m ∧ hears s c target (sink_id k) m) as Hin.
  { intros k Hk. apply Hks in Hk as [Hsub Htg]. pose proof (proj1 Hsub) as Hreg.
    destruct (ri_sinks _ _ Hi _ _ Hreg) as (Hh & m & Hm & Ek). split; [done|]. exists m.
    unfold hears. rewrite Ech. split_and!; [done|done|done| |by destruct target; cbn].
    rewrite Ek in Hsub, Hreg. rewrite Ek in Hm. by eapply subscribed_accepts in Hsub. }
  exists (sink_id <$> ks), ((λ id, EvLog id (rc_id c) msg metadata) <$> (sink_id <$> ks)).
  split_and!; [| by left | | |done|].
  - unfold w'. rewrite Ew. cbn. f_equal. clear -Hin. induction ks as [|k ks IH]; [done|].
    cbn. destruct (Hin k ltac:(by left)) as (_ & m & _ & -> & _). cbn. f_equal. apply IH.
    intros k' Hk'. apply Hin. by right.
  - unfold w'. rewrite Ew. by apply ctx_inv_emit.
  - unfold w'. by rewrite Ew.
  - intros id. rewrite list_elem_of_fmap. split.
    + intros (k & -> & Hk). destruct (Hin k Hk) as (? & m & ? & _ & ?). eauto.
    + intros (Hh & m & Hm & _ & Hacc & Htg). destruct (ri_handles _ _ Hi _ Hh) as (m' & Hm' & _ & Ha).
      assert (m' = m) as -> by congruence.
      assert (rec_alive s = true) as Halive.
      { destruct (rec_alive s) eqn:E; [done|]. rewrite (proj1 (ri_dropped _ _ Hi E)) in Ech.
        by rewrite lookup_empty in Ech. }
      specialize (Ha Halive). pose proof (proj1 (ri_keyed _ _ Hi _ _ Hm)) as Eid.
      exists (McapSink_as_sink m). split; [done|]. apply Hks. split.
      * by eapply subscribed_accepts.
      * destruct target; cbn in *; [congruence|done].
Qed.

(** Logging records the message in the files that should hear of it. *)
Lemma log_message_spec n s instant epoch ch c msg opts target :
  rec_inv n s → rec_made s !! ch = Some c → Z.of_nat n < 2 ^ 32 - 1 →
  ∃ s', log_message instant epoch c msg opts target s = Ok s' ∧ rec_inv (S n) s' ∧
    rec_made s' = rec_made s ∧ rec_handles s' = rec_handles s ∧
    ∀ id m, id ∈ rec_handles s → rec_sinks s !! id = Some m →
      rec_sinks s' !! id =
        Some (run_ops (seen_op id (mk_channel_filter m) (RLog instant epoch ch msg opts target) s) m).1.
Proof.
  intros Hi Hc Hn. destruct (ri_made _ _ Hi _ _ Hc) as [<- _].
  destruct (log_targets n s instant epoch c msg opts target Hi Hc Hn)
    as (ids & evs & Et & Hevs & Hx & En & Hnd & Hids).
  set (metadata := {| m_log_time := _ |}) in *.
  set (w' := log_with_meta_to_sink _ _ _ _ _ _ _) in *.
  assert (∀ id m, id ∈ rec_handles s → rec_sinks s !! id = Some m →
    no_panic (McapSink_log c msg metadata m).2 ∧
    has_history (rec_made s) (S n) id (McapSink_log c msg metadata m).1) as Hstep.
  { intros id m Hh Hm. destruct (ri_handles _ _ Hi _ Hh) as (m' & Hm' & Hhist & _).
    assert (m' = m) as -> by congruence.
    by destruct (history_step _ _ _ _ (OpLog c msg metadata) Hhist Hc Hn) as (_ & ? & ?). }
  assert (∃ evs' ks', log_all (rec_made s) evs (rec_sinks s) = Ok (evs', ks') ∧
    ∀ id, ks' !! id = if decide (id ∈ ids)
      then fst ∘ McapSink_log c msg metadata <$> rec_sinks s !! id else rec_sinks s !! id)
    as (evs' & ks' & El & Hks').
  { destruct Hevs as [->|[-> ->]].
    - apply log_all_spec; [done|done|]. intros id Hid.
      apply Hids in Hid as (Hh & m & Hm & _). exists m. split; [done|]. by eapply Hstep.
    - eexists _, _. split; [done|]. intros id. by rewrite decide_False by apply not_elem_of_nil. }
  assert (drop (length (w_trace (rec_world s))) (w_trace w') = evs) as Ed
    by (rewrite Et; apply drop_app_length).
  unfold log_message, deliver. fold w'. rewrite Ed, El. eexists. split; [done|].
  split_and!; [|done|done|].
  - eapply rec_inv_sinks; [exact Hi|done..| |exact En|].
    { by eapply ctx_inv_world; [exact Hx| |]. }
    intros id. cbn [rec_sinks]. rewrite Hks'. destruct (rec_sinks s !! id) as [m|] eqn:Em.
    2: { by case_decide. }
    case_decide as Hid; eexists; (split; [done|]).
    + destruct (with_writer_keeps (WriterState_log c msg metadata) m) as [E1 E2].
      split_and!; [exact E1|exact E2|]. intros Hh. by eapply Hstep.
    + split_and!; [done|done|]. intros Hh. destruct (ri_handles _ _ Hi _ Hh) as (m' & Hm' & Hhist & _).
      assert (m' = m) as -> by congruence. eapply has_history_mono; [done| |exact Hhist]. lia.
  - intros id m Hh Hm. cbn [rec_sinks seen_op]. rewrite Hks', Hm. specialize (Hids id).
    destruct (channels (rec_context s) !! rc_id c) as [d|] eqn:Ech.
    + assert (d = c) as -> by (apply (ri_registered _ _ Hi) in Ech; congruence).
      unfold hears in Hids. rewrite Ech in Hids.
      destruct (accepts _ _ && _) eqn:Ea.
      * apply andb_prop in Ea as [Ea ?%bool_decide_eq_true]. rewrite decide_True
          by (apply Hids; split; [done|]; exists m; by split_and!).
        cbn [run_ops run_op]. fold metadata. cbn. by destruct (McapSink_log c msg metadata m).
      * rewrite decide_False; [done|]. intros (_ & m' & Hm' & _ & Hacc & Htg)%Hids.
        assert (m' = m) as -> by congruence. by rewrite Hacc, (bool_decide_eq_true_2 _ Htg) in Ea.
    + rewrite decide_False; [done|]. intros (_ & m' & _ & [d Hd] & _)%Hids. congruence.
Qed.

(** *** Every operation *)

(** An operation returns, keeps the invariant, and does to an open sink that it
    leaves open what [seen_op] says. *)
Definition step_ok (n : nat) (op : RecOp) (s : Recorder) : Prop :=
  ∃ s', rec_step op s = Ok s' ∧ rec_inv (S n) s' ∧ rec_made s ⊆ rec_made s' ∧
    ∀ id m, id ∈ rec_handles s → rec_sinks s !! id = Some m → keeps id op →
      id ∈ rec_handles s' ∧
      rec_sinks s' !! id = Some (run_ops (seen_op id (mk_channel_filter m) op s) m).1.

Lemma step_skip n op s :
  rec_inv n s → rec_step op s = Ok s →
  (∀ id m, id ∈ rec_handles s → keeps id op → seen_op id (mk_channel_filter m) op s = []) →
  step_ok n op s.
Proof.
  intros Hi Hs Hseen. exists s. split_and!; [done|eapply rec_inv_mono; [|done]; lia|done|].
  intros id m Hh Hm Hk. by rewrite (Hseen id m Hh Hk).
Qed.

Lemma build_step n b s : rec_inv n s → Z.of_nat n < 2 ^ 32 - 2 → step_ok n (RBuild b) s.
Proof.
  intros Hi Hn. pose proof (ri_next _ _ Hi) as [Hwn Hsn].
  destruct (rec_alive s) eqn:Ea.
  2: { apply step_skip; [done|cbn; by rewrite Ea|done]. }
  destruct (cb_message_encoding b) as [e|] eqn:Ee.
  2: { apply step_skip; [done| |done]. cbn. by rewrite Ea, build_raw_ok, Ee. }
  pose proof (ri_ctx _ _ Hi) as Hx.
  assert (ids_left (rec_world s)) as Hleft.
  { split; [apply (ci_store _ Hx)|lia]. }
  pose proof (RawChannel_new_inv (cb_topic b) e (cb_schema b) (cb_metadata b) _ _ Hx Hleft) as Hnew.
  unfold step_ok. cbn [rec_step]. rewrite Ea, build_raw_ok, Ee.
  destruct (RawChannel_new _ _ _ _ _) as [c w1].
  destruct Hnew as (Hx1 & Hfresh & Eid & En1 & st & Hst & Hop).
  pose proof (add_channel_inv c _ w1 st Hx1 Hfresh Hst Hop) as Hinv.
  assert (all_decide (wants s) (rec_context s)) as Hall by (intros id k; by apply (inv_decides n)).
  pose proof (add_channel_follows (wants s) c _ w1 Hx1 Hfresh Hall (ri_follows _ _ Hi)) as Hf.
  destruct (Context.add_channel c (rec_context s) w1) as [[c' x'] w'].
  destruct Hinv as [Hx' En'], Hf as (Hf & Esk & Hcase).
  assert (rec_made s ⊆ <[rc_id c' := c']> (rec_made s) ∧
    rc_id c' < w_next_id w' ∧
    ∀ ch d, channels x' !! ch = Some d → <[rc_id c' := c']> (rec_made s) !! ch = Some d)
    as (Hsub & Hlt & Hreg).
  { destruct Hcase as [[-> Ech]|[-> Hc']].
    - split_and!; [|lia|].
      + apply insert_subseteq. destruct (rec_made s !! rc_id c) as [d|] eqn:E; [|done].
        apply (ri_made _ _ Hi) in E as [_ ?]. lia.
      + intros ch d. rewrite Ech, !lookup_insert_Some. intros [?|[? ?]]; [by left|right].
        split; [done|]. by apply (ri_registered _ _ Hi).
    - apply (ri_registered _ _ Hi) in Hc'. rewrite insert_id by done.
      destruct (ri_made _ _ Hi _ _ Hc'). split_and!; [done|lia|]. apply (ri_registered _ _ Hi). }
  eexists. split; [done|]. split_and!; [|done|].
  - destruct Hi as [_ _ _ Hs Hk Hm _ Hh Hd]. split; cbn; [done|lia|done|by rewrite Esk|done| |done| |done].
    + intros ch d. rewrite lookup_insert_Some. intros [[<- <-]|[_ Hd']]; [done|].
      destruct (Hm _ _ Hd'). split; [done|lia].
    + intros id Hid. destruct (Hh id Hid) as (m & ? & Hhist & Hal). exists m. rewrite Esk.
      split_and!; [done| |by intros _; apply Hal]. eapply has_history_mono; [done| |done]. lia.
  - done.
Qed.

(** The context changes and the sinks do not. *)
Lemma context_step n s x w :
  rec_inv n s → ctx_inv (x, w) → w_next_id w = w_next_id (rec_world s) →
  follows (wants s) x → sinks x = sinks (rec_context s) →
  channels x ⊆ channels (rec_context s) → rec_inv (S n) (set_ctx x w s).
Proof.
  intros [_ [Hwn Hsn] _ Hs Hk Hm Hr Hh Hd] Hx En Hf Esk Hch.
  split; cbn; rewrite ?En, ?Esk; [done|lia|done|done|done|done| | |].
  - intros ch c Hc. apply Hr. by apply (lookup_weaken (channels x)).
  - intros id Hid. destruct (Hh id Hid) as (m & ? & Hhist & Hal). exists m.
    split_and!; [done| |done]. eapply has_history_mono; [done| |done]. lia.
  - intros Ha. destruct (Hd Ha) as [Ec Es]. split; [|done]. apply map_empty. intros ch.
    destruct (channels x !! ch) as [c|] eqn:E; [|done].
    apply (lookup_weaken _ _ _ _ E) in Hch. by rewrite Ec, lookup_empty in Hch.
Qed.

Lemma close_channel_step n ch s : rec_inv n s → step_ok n (RCloseChannel ch) s.
Proof.
  intros Hi. destruct (rec_made s !! ch) as [c|] eqn:Ec.
  2: { apply step_skip; [done|cbn; by rewrite Ec|done]. }
  unfold step_ok. cbn [rec_step]. rewrite Ec. unfold close.
  destruct (is_closed (rec_world s) c).
  { eexists. split; [done|]. split_and!; [|done|done].
    apply context_step; [done|apply Hi|done|apply Hi|done|done]. }
  pose proof (remove_channel_inv (rc_id c) _ _ (ri_ctx _ _ Hi)) as Hx.
  pose proof (remove_channel_follows (wants s) (rc_id c) _ _ (ri_ctx _ _ Hi) (ri_follows _ _ Hi)) as Hf.
  destruct (remove_channel _ _ _) as [[b x] w]. destruct Hx as [Hx En], Hf as (Hf & Esk & Ech).
  eexists. split; [done|]. split_and!; [|done|done].
  apply context_step; [done..|]. rewrite Ech. apply delete_subseteq.
Qed.

Lemma drop_context_step n s : rec_inv n s → step_ok n RDropContext s.
Proof.
  intros Hi. unfold step_ok. cbn [rec_step]. pose proof (clear_inv _ _ (ri_ctx _ _ Hi)) as [Hx En].
  pose proof (clear_follows (wants s) (rec_context s) (rec_world s)) as Hf.
  assert (sinks (clear (rec_context s) (rec_world s)).1 = ∅ ∧
          channels (clear (rec_context s) (rec_world s)).1 = ∅) as [Es Ec] by done.
  destruct (clear (rec_context s) (rec_world s)) as [x w]. cbn in En, Hf, Es, Ec.
  eexists. split; [done|]. split_and!; [|done|done].
  destruct Hi as [_ [Hwn Hsn] _ Hs Hk Hm Hr Hh Hd].
  split; cbn; rewrite ?En, ?Es, ?Ec; [done|lia|done| |done|done| | |done].
  - intros id k. by rewrite lookup_empty.
  - intros ch c. by rewrite lookup_empty.
  - intros id Hid. destruct (Hh id Hid) as (m & ? & Hhist & _). exists m.
    split_and!; [done| |done]. eapply has_history_mono; [done| |done]. lia.
Qed.

(** *** Creating and closing files *)

(** A sink that the context is about to meet. *)
Lemma create_spec n b writer s id s' :
  rec_inv n s → rec_alive s = true → Z.of_nat n < 2 ^ 32 - 2 →
  McapWriter_create b writer s = (Ok id, s') →
  rec_inv (S n) s' ∧ id = rec_next_sink s ∧ rec_made s' = rec_made s ∧
  (rec_handles s' = {[id]} ∪ rec_handles s) ∧ (id ∉ rec_handles s) ∧
  ∃ k, McapSink_new id writer (mw_channel_filter b) = Ok k ∧ rec_sinks s' = <[id := k]> (rec_sinks s).
Proof.
  intros Hi Ha Hn. unfold McapWriter_create. set (id0 := rec_next_sink s).
  destruct (McapSink_new id0 writer (mw_channel_filter b)) as [k|e|] eqn:Ek; [|done|done].
  assert (mk_sink_id k = id0 ∧ mk_channel_filter k = mw_channel_filter b) as [Eid Ef].
  { unfold McapSink_new in Ek. by destruct (create writer); cbn in Ek; simplify_eq. }
  assert (rec_sinks s !! id0 = None) as Hnew.
  { destruct (rec_sinks s !! id0) as [m|] eqn:E; [|done]. apply (ri_keyed _ _ Hi) in E as [_ ?].
    unfold id0 in *. lia. }
  assert (sinks (rec_context s) !! id0 = None) as Hunreg.
  { destruct (sinks (rec_context s) !! id0) as [k'|] eqn:E; [|done].
    apply (ri_sinks _ _ Hi) in E as (_ & m & ? & _). congruence. }
  assert (id0 ∉ rec_handles s) as Hnoth.
  { intros Hh. apply (ri_handles _ _ Hi) in Hh as (m & ? & _). congruence. }
  set (wants' := wants {| rec_context := rec_context s; rec_alive := rec_alive s;
    rec_world := rec_world s; rec_made := rec_made s; rec_sinks := <[id0 := k]> (rec_sinks s);
    rec_handles := rec_handles s; rec_next_sink := rec_next_sink s |}).
  assert (follows wants' (rec_context s)) as Hf0.
  { eapply follows_ext; [|apply (ri_follows _ _ Hi)]. intros id1 k1 Hid1 d. unfold wants', wants. cbn.
    rewrite lookup_insert_ne; [done|]. intros <-. congruence. }
  assert (decides wants' (McapSink_as_sink k)) as Hdec.
  { apply as_sink_decides. cbn. by rewrite Eid, lookup_insert_eq. }
  pose proof (add_sink_inv (McapSink_as_sink k) _ _ (ri_ctx _ _ Hi)) as Hx.
  assert (sinks (rec_context s) !! sink_id (McapSink_as_sink k) = None) as Hunreg'
    by (cbn; by rewrite Eid).
  pose proof (add_sink_follows wants' (McapSink_as_sink k) _ _ (ri_ctx _ _ Hi) Hunreg' Hdec Hf0) as Hf.
  destruct (add_sink _ _ _) as [[ok x] w]. destruct Hx as [Hx En], Hf as (Hf & Ech & Esk).
  cbn [sink_id McapSink_as_sink] in Esk. rewrite Eid in Esk.
  intros [= <- <-]. pose proof (ri_next _ _ Hi) as [Hwn Hsn].
  assert (wrap 64 (id0 + 1) = id0 + 1) as Hwrap.
  { apply wrap_small. unfold fits, id0. lia. }
  split_and!; [|done|done|done|done|by exists k].
  destruct Hi as [_ _ _ Hs Hk Hm Hr Hh Hd].
  split; cbn; rewrite ?Hwrap, ?En, ?Ech; [done|unfold id0; lia|exact Hf| | |done|done| |congruence].
  - intros id1 k1. rewrite Esk, lookup_insert_Some. intros [[<- <-]|[Hne Hid1]].
    + split; [set_solver|]. exists k. by rewrite lookup_insert_eq.
    + destruct (Hs _ _ Hid1) as (? & m & ? & ->). split; [set_solver|]. exists m.
      by rewrite lookup_insert_ne.
  - intros id1 m. rewrite lookup_insert_Some. intros [[<- <-]|[Hne Hm1]]; [split; [done|lia]|].
    destruct (Hk _ _ Hm1). split; [done|]. unfold id0. lia.
  - intros id1. rewrite elem_of_union, elem_of_singleton. rewrite Esk. intros [->|Hid1].
    + exists k. rewrite !lookup_insert_eq. split_and!; [done| |done]. exists writer, k, [].
      rewrite Ef. split_and!; [done|constructor|cbn; lia|done].
    + assert (id1 ≠ id0) by congruence. destruct (Hh id1 Hid1) as (m & ? & Hhist & Hal).
      exists m. rewrite !lookup_insert_ne by done. split_and!; [done| |done].
      eapply has_history_mono; [done| |done]. lia.
Qed.

Lemma create_step n b writer s :
  rec_inv n s → Z.of_nat n < 2 ^ 32 - 2 → step_ok n (RCreate b writer) s.
Proof.
  intros Hi Hn. destruct (rec_alive s) eqn:Ea.
  2: { apply step_skip; [done|cbn; by rewrite Ea|done]. }
  unfold step_ok. cbn [rec_step]. rewrite Ea.
  destruct (McapWriter_create b writer s) as [r s'] eqn:Ec. unfold no_result. cbn [fst snd].
  destruct r as [id|e|].
  - destruct (create_spec n b writer s id s' Hi Ea Hn Ec) as (Hi' & _ & Em & Eh & Hnot & k & _ & Es).
    exists s'. split_and!; [done|done|by rewrite Em|]. intros id' m Hh Hm _. rewrite Eh, Es.
    split; [set_solver|]. rewrite lookup_insert_ne; [done|]. set_solver.
  - exists s'. unfold McapWriter_create in Ec.
    destruct (McapSink_new _ _ _) as [k|e'|]; [by destruct (add_sink _ _ _) as [[? ?] ?]| |done].
    simplify_eq. split_and!; [done|eapply rec_inv_mono; [|done]; lia|done|done].
  - unfold McapWriter_create, McapSink_new in Ec. pose proof (create_returns writer).
    destruct (create writer) as [w0|e'|]; cbn in Ec; [|done|done].
    by destruct (add_sink _ _ _) as [[? ?] ?].
Qed.

(** What finishing the sink of a handle leaves. *)
Record finished (id : SinkId) (s s' : Recorder) (m' : McapSink) : Prop := {
  fi_ctx : ctx_inv (rec_context s', rec_world s');
  fi_next : w_next_id (rec_world s') = w_next_id (rec_world s);
  fi_follows : follows (wants s) (rec_context s');
  fi_sinks : sinks (rec_context s') = delete id (sinks (rec_context s));
  fi_channels : channels (rec_context s') = channels (rec_context s);
  fi_store : rec_sinks s' = <[id := m']> (rec_sinks s);
  fi_rest : rec_alive s' = rec_alive s ∧ rec_made s' = rec_made s ∧
    rec_handles s' = rec_handles s ∧ rec_next_sink s' = rec_next_sink s
}.

Lemma McapSink_finish_closed k :
  mk_inner (McapSink_finish k).1 = None ∧ mk_sink_id (McapSink_finish k).1 = mk_sink_id k ∧
  mk_channel_filter (McapSink_finish k).1 = mk_channel_filter k ∧
  (mk_inner k = None → McapSink_finish k = (k, Ok None)).
Proof.
  unfold McapSink_finish. destruct (mk_inner k) as [st|] eqn:E; [|done]. by destruct (writer_finish _).
Qed.

Lemma finish_once n id s m :
  rec_inv n s → rec_sinks s !! id = Some m →
  (handle_finish id s).1 = (McapSink_finish m).2 ∧
  finished id s (handle_finish id s).2 (McapSink_finish m).1.
Proof.
  intros Hi Hm. unfold handle_finish. destruct (rec_alive s) eqn:Ea.
  - pose proof (remove_sink_inv id _ _ (ri_ctx _ _ Hi)) as Hx.
    pose proof (remove_sink_follows (wants s) id _ _ (ri_ctx _ _ Hi) (ri_follows _ _ Hi)) as Hf.
    destruct (remove_sink _ _ _) as [[b x] w]. destruct Hx as [Hx En], Hf as (Hf & Ech & Esk).
    cbn [rec_sinks set_ctx]. rewrite Hm. destruct (McapSink_finish m) as [m' r]. by split; [|split].
  - rewrite Hm. destruct (McapSink_finish m) as [m' r]. split; [done|].
    destruct (ri_dropped _ _ Hi Ea) as [_ Es].
    split; cbn; [apply Hi|done|apply Hi|by rewrite Es, delete_empty|done|done|done].
Qed.

(** Finishing again, when the handle is dropped, changes nothing. *)
Lemma finish_again n id s s1 m1 :
  rec_inv n s → finished id s s1 m1 → mk_inner m1 = None →
  (handle_finish id s1).1 = Ok None ∧ finished id s (handle_finish id s1).2 m1.
Proof.
  intros Hi [Hx En Hf Esk Ech Est (Ea & Em & Eh & Ens)] Hm1.
  assert (McapSink_finish m1 = (m1, Ok None)) as Efin by by apply McapSink_finish_closed.
  unfold handle_finish. destruct (rec_alive s1) eqn:Ea1.
  - pose proof (remove_sink_inv id _ _ Hx) as Hx'.
    pose proof (remove_sink_follows (wants s) id _ _ Hx Hf) as Hf'.
    destruct (remove_sink _ _ _) as [[b x] w]. destruct Hx' as [Hx' En'], Hf' as (Hf' & Ech' & Esk').
    cbn [rec_sinks set_ctx]. rewrite Est, lookup_insert_eq, Efin. split; [done|].
    split; cbn; [done|congruence|done| |congruence| |by split_and!; congruence].
    + by rewrite Esk', Esk, delete_delete_eq.
    + by rewrite Est, insert_insert_eq.
  - rewrite Est, lookup_insert_eq, Efin. split; [done|].
    split; cbn; [done..| |by split_and!; congruence]. by rewrite Est, insert_insert_eq.
Qed.

Lemma forget_inv n id s s' m m' :
  rec_inv n s → rec_sinks s !! id = Some m → finished id s s' m' →
  mk_sink_id m' = mk_sink_id m → mk_channel_filter m' = mk_channel_filter m →
  rec_inv (S n) (forget_handle id s').
Proof.
  intros [_ [Hwn Hsn] _ Hs Hk Hmd Hr Hh Hd] Hm [Hx En Hf Esk Ech Est (Ea & Em & Eh & Ens)] Ei Ef.
  split; cbn; rewrite ?En, ?Ech, ?Em, ?Eh, ?Ens, ?Ea, ?Esk; [done|lia| | | |done|done| |].
  - eapply follows_ext; [|exact Hf]. intros id1 k1 _ d. unfold wants. cbn. rewrite Est.
    destruct (decide (id1 = id)) as [->|]; [|by rewrite lookup_insert_ne].
    rewrite lookup_insert_eq, Hm. cbn. by rewrite Ef.
  - intros id1 k1. rewrite lookup_delete_Some. intros [Hne Hk1].
    destruct (Hs _ _ Hk1) as (? & m1 & ? & ->). split; [set_solver|]. exists m1.
    rewrite Est, lookup_insert_ne; done.
  - intros id1 m1. rewrite Est, lookup_insert_Some. intros [[<- <-]|[_ Hm1]]; [|by apply Hk].
    rewrite Ei. by apply Hk.
  - intros id1 [Hid1 Hne]%elem_of_difference. assert (id ≠ id1) as Hne' by set_solver.
    destruct (Hh id1 Hid1) as (m1 & ? & Hhist & Hal). exists m1.
    rewrite Est, lookup_insert_ne, lookup_delete_ne by done. split_and!; [done| |done].
    eapply has_history_mono; [done| |done]. lia.
  - intros Ha. destruct (Hd Ha) as [-> ->]. by rewrite delete_empty.
Qed.

Lemma finish_returns k : is_Some (mk_inner k) →
  (McapSink_finish k).2 ≠ Panic ∧ (McapSink_finish k).2 ≠ Ok None.
Proof.
  intros [st Hst]. unfold McapSink_finish. rewrite Hst. pose proof (finish_law (ws_writer st)) as Hl.
  destruct (writer_finish _) as [w r]. destruct Hl as [_ Hr]. by destruct r as [[]| |].
Qed.

(** The other handles, after one is closed. *)
Lemma finished_others id s s' m' id' m :
  finished id s s' m' → id ≠ id' → id' ∈ rec_handles s → rec_sinks s !! id' = Some m →
  id' ∈ rec_handles (forget_handle id s') ∧ rec_sinks (forget_handle id s') !! id' = Some m.
Proof.
  intros [_ _ _ _ _ Est (_ & _ & Eh & _)] Hne Hh Hm. cbn. rewrite Eh, Est.
  split; [set_solver|]. by rewrite lookup_insert_ne.
Qed.

Lemma drop_step n id s : rec_inv n s → Z.of_nat n < 2 ^ 32 - 2 → step_ok n (RDrop id) s.
Proof.
  intros Hi Hn. destruct (decide (id ∈ rec_handles s)) as [Hh|Hh].
  2: { apply step_skip; [done|cbn; by rewrite decide_False|done]. }
  destruct (ri_handles _ _ Hi _ Hh) as (m & Hm & Hhist & _).
  destruct (history_step _ _ _ _ (OpMetadata "" ∅) Hhist I ltac:(lia)) as (Hopen & _).
  destruct (finish_once n id s m Hi Hm) as [Er Hfin].
  destruct (finish_returns m Hopen) as [Hnp _].
  destruct (McapSink_finish_closed m) as (Hcl & Ei & Ef & _).
  unfold step_ok. cbn [rec_step]. rewrite decide_True by done. unfold handle_drop.
  destruct (handle_finish id s) as [r s1]. cbn in Er, Hfin. unfold no_result. cbn [fst snd].
  exists (forget_handle id s1). split_and!.
  - rewrite Er. by destruct (McapSink_finish m).2.
  - by eapply forget_inv.
  - cbn. by destruct (fi_rest _ _ _ _ Hfin) as (_ & -> & _).
  - intros id' m' Hh' Hm' Hk. cbn in Hk. eapply finished_others; [exact Hfin|congruence|done|done].
Qed.

(** Closing returns what [McapSink::finish] does. *)
Lemma close_spec n id s m :
  rec_inv n s → Z.of_nat n < 2 ^ 32 - 2 → id ∈ rec_handles s → rec_sinks s !! id = Some m →
  (handle_close id s).1 = (o ← (McapSink_finish m).2; or_panic (E:=FoxgloveError) o) ∧
  (handle_close id s).1 ≠ Panic ∧
  ∃ s1, (handle_close id s).2 = forget_handle id s1 ∧ finished id s s1 (McapSink_finish m).1.
Proof.
  intros Hi Hn Hh Hm. destruct (ri_handles _ _ Hi _ Hh) as (m' & Hm' & Hhist & _).
  assert (m' = m) as -> by congruence.
  destruct (history_step _ _ _ _ (OpMetadata "" ∅) Hhist I ltac:(lia)) as (Hopen & _).
  destruct (finish_once n id s m Hi Hm) as [Er Hfin].
  destruct (finish_returns m Hopen) as [Hnp Hnn].
  destruct (McapSink_finish_closed m) as (Hcl & _).
  destruct (finish_again n id s _ _ Hi Hfin Hcl) as [Er2 Hfin2].
  unfold handle_close. destruct (handle_finish id s) as [r s1]. cbn in Er, Hfin, Er2, Hfin2 |- *.
  unfold handle_drop. destruct (handle_finish id s1) as [r2 s2]. cbn in Er2, Hfin2 |- *. subst r2 r.
  split_and!; [done| |by exists s2].
  by destruct (McapSink_finish m).2 as [[]| |].
Qed.

Lemma close_step n id s : rec_inv n s → Z.of_nat n < 2 ^ 32 - 2 → step_ok n (RClose id) s.
Proof.
  intros Hi Hn. destruct (decide (id ∈ rec_handles s)) as [Hh|Hh].
  2: { apply step_skip; [done|cbn; by rewrite decide_False|done]. }
  destruct (ri_handles _ _ Hi _ Hh) as (m & Hm & _).
  destruct (close_spec n id s m Hi Hn Hh Hm) as (_ & Hnp & s1 & Es & Hfin).
  destruct (McapSink_finish_closed m) as (_ & Ei & Ef & _).
  unfold step_ok. cbn [rec_step]. rewrite decide_True by done.
  exists (forget_handle id s1). split_and!.
  - unfold no_result. rewrite Es. by destruct (handle_close id s).1.
  - by eapply forget_inv.
  - cbn. by destruct (fi_rest _ _ _ _ Hfin) as (_ & -> & _).
  - intros id' m' Hh' Hm' Hk. cbn in Hk. eapply finished_others; [exact Hfin|congruence|done|done].
Qed.

(** Metadata and attachments go to the sink of the handle. *)
Lemma with_sink_step n id s mop :
  rec_inv n s → Z.of_nat n < 2 ^ 32 - 2 → op_made (rec_made s) mop → id ∈ rec_handles s →
  let r := with_sink (run_op mop) id s in
  r.1 ≠ Panic ∧ rec_inv (S n) r.2 ∧ rec_made r.2 = rec_made s ∧ rec_handles r.2 = rec_handles s ∧
  ∀ id' m, rec_sinks s !! id' = Some m →
    rec_sinks r.2 !! id' = Some (if decide (id = id') then (run_op mop m).1 else m).
Proof.
  intros Hi Hn Hop Hh. cbn zeta. destruct (ri_handles _ _ Hi _ Hh) as (m & Hm & Hhist & _).
  destruct (history_step _ _ _ _ mop Hhist Hop ltac:(lia)) as (_ & Hnp & Hhist').
  unfold with_sink. rewrite Hm. destruct (run_op_keeps mop m) as [Ei Ef].
  destruct (run_op mop m) as [m' r] eqn:Eop. cbn in *. split_and!; [done| |done|done|].
  - eapply rec_inv_sinks; [exact Hi|done..|apply Hi|done|]. intros id'. cbn.
    destruct (decide (id' = id)) as [->|Hne].
    + rewrite Hm. exists m'. by rewrite lookup_insert_eq.
    + rewrite lookup_insert_ne by done. destruct (rec_sinks s !! id') as [m1|] eqn:E1; [|done].
      exists m1. split_and!; [done..|]. intros Hh'.
      destruct (ri_handles _ _ Hi _ Hh') as (m2 & Hm2 & Hhist2 & _).
      assert (m2 = m1) as -> by congruence. eapply has_history_mono; [done| |exact Hhist2]. lia.
  - intros id' m1 Hm1. case_decide as Hid.
    + subst. rewrite lookup_insert_eq. assert (m1 = m) as -> by congruence. by rewrite Eop.
    + by rewrite lookup_insert_ne.
Qed.

(** An operation of a handle is one of its sink's. *)
Lemma handle_step n op mop id s :
  rec_inv n s → Z.of_nat n < 2 ^ 32 - 2 → op_made (rec_made s) mop →
  rec_step op s =
    (if decide (id ∈ rec_handles s) then no_result (with_sink (run_op mop) id s) else Ok s) →
  (∀ id' f, seen_op id' f op s = if decide (id = id') then [mop] else []) →
  step_ok n op s.
Proof.
  intros Hi Hn Hop Hstep Hseen. destruct (decide (id ∈ rec_handles s)) as [Hh|Hh].
  2: { apply step_skip; [done|done|]. intros id' m Hh' _. by rewrite Hseen, decide_False by (by intros ->). }
  destruct (with_sink_step n id s mop Hi Hn Hop Hh) as (Hnp & Hi' & Em & Eh & Hs).
  exists (with_sink (run_op mop) id s).2. split_and!; [|done|by rewrite Em|].
  - rewrite Hstep. unfold no_result. by destruct (with_sink _ _ _).1.
  - intros id' m Hh' Hm _. rewrite Eh, (Hs _ _ Hm), Hseen. split; [done|].
    case_decide; [|done]. cbn [run_ops]. by destruct (run_op mop m).
Qed.

Lemma rec_step_ok n op s : rec_inv n s → Z.of_nat n < 2 ^ 32 - 2 → step_ok n op s.
Proof.
  intros Hi Hn. destruct op as [b|ch|instant epoch ch msg opts target|b writer|id|id|id name md|id a|].
  - by apply build_step.
  - by apply close_channel_step.
  - destruct (rec_made s !! ch) as [c|] eqn:Ec.
    + destruct (log_message_spec n s instant epoch ch c msg opts target Hi Ec ltac:(lia))
        as (s' & E & Hi' & Em & Eh & Hs).
      exists s'. cbn [rec_step]. rewrite Ec. split_and!; [done|done|by rewrite Em|].
      intros id m Hh Hm _. rewrite Eh. auto.
    + apply step_skip; [done|cbn; by rewrite Ec|]. intros id m _ _. cbn.
      destruct (channels (rec_context s) !! ch) as [c|] eqn:E; [|done].
      apply (ri_registered _ _ Hi) in E. congruence.
  - by apply create_step.
  - by apply close_step.
  - by apply drop_step.
  - by apply (handle_step n _ (OpMetadata name md) id).
  - by apply (handle_step n _ (OpAttach a) id).
  - by apply drop_context_step.
Qed.

Lemma seen_op_made n id f op s :
  rec_inv n s → Forall (op_made (rec_made s)) (seen_op id f op s) ∧ (length (seen_op id f op s) ≤ 1)%nat.
Proof.
  intros Hi. destruct op as [| |instant epoch ch msg opts target| | | |id' name md|id' a|]; cbn;
    [split; [constructor|lia]..| | | | | | |split; [constructor|lia]]; try (split; [constructor|lia]).
  - destruct (channels (rec_context s) !! ch) as [c|] eqn:E; [|by split; [constructor|cbn; lia]].
    apply (ri_registered _ _ Hi) in E. pose proof (proj1 (ri_made _ _ Hi _ _ E)) as <-.
    destruct (_ && _); (split; [repeat constructor|cbn; lia]). exact E.
  - case_decide; (split; [repeat constructor|cbn; lia]).
  - case_decide; (split; [repeat constructor|cbn; lia]).
Qed.

Lemma seen_made n id f ops s s' :
  rec_inv n s → Z.of_nat (n + length ops) < 2 ^ 32 - 2 → rec_run ops s = Ok s' →
  rec_made s ⊆ rec_made s' ∧ Forall (op_made (rec_made s')) (seen id f ops s) ∧
  (length (seen id f ops s) ≤ length ops)%nat.
Proof.
  revert n s. induction ops as [|op ops IH]; intros n s Hi Hn; cbn [rec_run seen length] in *.
  { intros [= ->]. split_and!; [done|constructor|done]. }
  destruct (rec_step_ok n op s Hi ltac:(lia)) as (s1 & E1 & Hi1 & Hm1 & _). rewrite E1.
  intros Hrun. destruct (IH (S n) s1 Hi1 ltac:(lia) Hrun) as (Hm & Hf & Hl).
  destruct (seen_op_made n id f op s Hi) as [Hf1 Hl1].
  assert (rec_made s ⊆ rec_made s') as Hsub by by transitivity (rec_made s1).
  split_and!; [done| |rewrite length_app; lia]. apply Forall_app. split; [|done].
  eapply Forall_impl; [exact Hf1|]. intros mop. by apply op_made_mono.
Qed.

Lemma rec_init_inv : rec_inv 0 Recorder_init.
Proof.
  split; cbn; [apply ctx_init_inv|lia| | |done|done| | |done].
  - intros ch id k. unfold subs_at. cbn. rewrite !lookup_empty. cbn. rewrite lookup_empty.
    split; [done|]. by intros (c & ? & _).
  - intros id k. by rewrite lookup_empty.
  - intros ch c. by rewrite lookup_empty.
  - intros id. set_solver.
Qed.

Lemma rec_run_ok n ops s :
  rec_inv n s → Z.of_nat (n + length ops) < 2 ^ 32 - 2 →
  ∃ s', rec_run ops s = Ok s' ∧ rec_inv (n + length ops) s' ∧ rec_made s ⊆ rec_made s' ∧
    ∀ id m, id ∈ rec_handles s → rec_sinks s !! id = Some m → Forall (keeps id) ops →
      id ∈ rec_handles s' ∧
      rec_sinks s' !! id = Some (run_ops (seen id (mk_channel_filter m) ops s) m).1.
Proof.
  revert n s. induction ops as [|op ops IH]; intros n s Hi Hn; cbn [rec_run seen length] in *.
  { exists s. rewrite Nat.add_0_r. split_and!; done. }
  destruct (rec_step_ok n op s Hi ltac:(lia)) as (s1 & E1 & Hi1 & Hm1 & Hs1).
  destruct (IH (S n) s1 Hi1 ltac:(lia)) as (s2 & E2 & Hi2 & Hm2 & Hs2).
  rewrite E1. exists s2. cbn [mbind result_bind]. rewrite Nat.add_succ_r.
  split_and!; [done|done|by transitivity (rec_made s1)|].
  intros id m Hh Hm [Hk Hks]%Forall_cons. destruct (Hs1 id m Hh Hm Hk) as [Hh1 Hm1'].
  destruct (Hs2 id _ Hh1 Hm1' Hks) as [? ->]. split; [done|].
  rewrite (run_ops_app (seen_op id (mk_channel_filter m) op s)).
  assert (mk_channel_filter (run_ops (seen_op id (mk_channel_filter m) op s) m).1 =
    mk_channel_filter m) as -> by apply run_ops_filter.
  destruct (run_ops (seen_op _ _ _ _) m) as [m1 r1]. cbn [fst].
  by destruct (run_ops (seen _ _ _ _) m1) as [m2 r2].
Qed.

(** A new sink, from when it is created until its handle is closed. *)
Lemma file_records n s1 id writer f k0 ops :
  rec_inv n s1 → id ∈ rec_handles s1 → rec_sinks s1 !! id = Some k0 → McapSink_new id writer f = Ok k0 →
  Forall (keeps id) ops → Z.of_nat (n + length ops) < 2 ^ 32 - 2 →
  ∃ s2 k res st, rec_run ops s1 = Ok s2 ∧ run_ops (seen id f ops s1) k0 = (k, res) ∧
    rec_sinks s2 !! id = Some k ∧ mk_inner k = Some st ∧
    recording (records (ws_writer st)) (acknowledged (seen id f ops s1) res) ∧
    ∃ w r, writer_finish (ws_writer st) = (w, r) ∧ records w = records (ws_writer st) ∧
      (handle_close id s2).1 =
        match r with Ok _ => Ok (into_inner w) | Err e => Err (McapError e) | Panic => Panic end.
Proof.
  intros Hi1 Hh1 Hk0 Ek Hk Hl.
  assert (mk_channel_filter k0 = f) as Ef.
  { unfold McapSink_new in Ek. by destruct (create writer); cbn in Ek; simplify_eq. }
  destruct (rec_run_ok _ ops s1 Hi1 Hl) as (s2 & E2 & Hi2 & _ & Hs2).
  destruct (Hs2 id k0 Hh1 Hk0 Hk) as [Hh2 Hk2]. rewrite Ef in Hk2.
  destruct (seen_made _ id f ops s1 s2 Hi1 Hl E2) as (_ & Hmade & Hlen).
  pose proof (history_run _ id writer _ k0 _ Ek Hmade ltac:(lia)) as Hhist.
  destruct (run_ops _ k0) as [k res] eqn:Erun. cbn [fst] in Hk2. destruct Hhist as (_ & st & Hst & Hrec).
  exists s2, k, res, st. split_and!; [done..|].
  destruct (close_spec _ id s2 k Hi2 Hl Hh2 Hk2) as (-> & _).
  pose proof (finish_law (ws_writer st)) as Hfl. destruct (writer_finish (ws_writer st)) as [w r] eqn:Ew.
  exists w, r. split_and!; [done|by destruct Hfl|]. unfold McapSink_finish. rewrite Hst, Ew.
  by destruct r as [[]| |].
Qed.

(** ** Properties *)

(** No application that builds and closes channels, logs, creates, closes and
    drops MCAP files and drops the context makes the SDK panic, whatever the
    errors of the files; closing a file never finds it already finished. *)
Theorem recorder_never_panics ops :
  Z.of_nat (length ops) < 2 ^ 32 - 2 → ∃ s, rec_run ops Recorder_init = Ok s.
Proof.
  intros Hl. destruct (rec_run_ok 0 ops _ rec_init_inv Hl) as (s & ? & _). by exists s.
Qed.

(** What a file contains.  From the creation of an MCAP writer in any state an
    application can reach until its handle is closed, its sink carries out
    exactly the operations [seen]: the messages logged on registered channels
    that its filter accepts, and the metadata and attachments of its handle, in
    order.  The file holds exactly those that were acknowledged, in that order
    (empty metadata apart), and closing returns the writer with these records, or
    the crate's error. *)
Theorem recorder_file before s b writer id s1 ops :
  rec_run before Recorder_init = Ok s → rec_alive s = true →
  McapWriter_create b writer s = (Ok id, s1) → Forall (keeps id) ops →
  Z.of_nat (length before + length ops) < 2 ^ 32 - 4 →
  ∃ k0 s2 k res st, rec_sinks s1 !! id = Some k0 ∧ rec_run ops s1 = Ok s2 ∧
    run_ops (seen id (mw_channel_filter b) ops s1) k0 = (k, res) ∧
    rec_sinks s2 !! id = Some k ∧ mk_inner k = Some st ∧
    recording (records (ws_writer st)) (acknowledged (seen id (mw_channel_filter b) ops s1) res) ∧
    ∃ w r, writer_finish (ws_writer st) = (w, r) ∧ records w = records (ws_writer st) ∧
      (handle_close id s2).1 =
        match r with Ok _ => Ok (into_inner w) | Err e => Err (McapError e) | Panic => Panic end.
Proof.
  intros Hb Ha Hc Hk Hl.
  destruct (rec_run_ok 0 before _ rec_init_inv ltac:(lia)) as (s0 & Es & Hi & _).
  assert (s0 = s) as -> by congruence.
  destruct (create_spec _ b writer s id s1 Hi Ha ltac:(lia) Hc) as (Hi1 & _ & _ & Eh & _ & k0 & Ek & Est).
  assert (rec_sinks s1 !! id = Some k0) as Hk0 by (by rewrite Est, lookup_insert_eq).
  assert (id ∈ rec_handles s1) as Hh1 by (rewrite Eh; set_solver).
  destruct (file_records _ s1 id writer _ k0 ops Hi1 Hh1 Hk0 Ek Hk ltac:(lia)) as (s2 & k & res & st & ?).
  exists k0, s2, k, res, st. by split.
Qed.
End recorder.

(** ** Witnesses *)

Definition topic_channel (topic : string) : ChannelBuilder :=
  {| cb_topic := topic; cb_message_encoding := Some "json"; cb_schema := None; cb_metadata := ∅ |}.
Definition example_log_op (ch : ChannelId) (b : byte) : @RecOp mcap_ref :=
  RLog 0 100 ch [b] {| pm_log_time := None |} None.
(** The file takes the topic "/a" only. *)
Definition only_a : McapWriter :=
  McapWriter_channel_filter (λ d, bool_decide (cd_topic d = "/a"%string)) McapWriter_new.
Definition before_ops : list (@RecOp mcap_ref) :=
  [RBuild (topic_channel "/a"); example_log_op 1 Byte.x01].
Definition during_ops : list (@RecOp mcap_ref) :=
  [example_log_op 1 Byte.x02; RBuild (topic_channel "/b"); example_log_op 2 Byte.x03;
   RMetadata 1 "m" ∅; example_log_op 1 Byte.x04; RCloseChannel 1; example_log_op 1 Byte.x05].
Definition payloads (id : SinkId) (s : @Recorder mcap_ref) : list (list byte) :=
  match rec_sinks s !! id ≫= mk_inner with
  | Some st => snd <$> messages (records (ws_writer st))
  | None => []
  end.

Lemma recorder_file_witness :
  match rec_run before_ops Recorder_init with
  | Ok s =>
    match McapWriter_create (H:=mcap_ref) only_a tt s with
    | (Ok id, s1) =>
      ∃ s2 k st, rec_run during_ops s1 = Ok s2 ∧ rec_sinks s2 !! id = Some k ∧
        mk_inner k = Some st ∧ NoDup (channel_ids (records (ws_writer st)))
    | _ => False
    end
  | _ => False
  end ∧
  match (s ← rec_run (before_ops ++ RCreate (H:=mcap_ref) only_a tt :: during_ops) Recorder_init; Ok (payloads 1 s)) with
  | Ok ps => ps = [[Byte.x02]; [Byte.x04]]
  | _ => False
  end.
Proof.
  split; [|vm_compute; reflexivity].
  assert (match rec_run before_ops Recorder_init with
          | Ok s => match (McapWriter_create (H:=mcap_ref) only_a tt s).1 with
                    | Ok id => rec_alive s && (id =? 1) | _ => false end
          | _ => false end = true) as Hc by (vm_compute; reflexivity).
  destruct (rec_run before_ops Recorder_init) as [s| |] eqn:Es; [|discriminate Hc..].
  destruct (McapWriter_create (H:=mcap_ref) only_a tt s) as [[id| |] s1] eqn:Ec; [|discriminate Hc..].
  apply andb_prop in Hc as [Ha Hid]. apply Z.eqb_eq in Hid. subst id.
  destruct (recorder_file (H:=mcap_ref) (H0:=mcap_ref_laws) before_ops s only_a tt 1 s1 during_ops Es Ha Ec
    ltac:(repeat constructor) eq_refl) as (k0 & s2 & k & res & st & _ & Hrun & _ & Hk & Hst & Hrec & _).
  exists s2, k, st. split; [exact Hrun|]. split; [exact Hk|]. split; [exact Hst|]. apply Hrec.
Defined.

Lemma recorder_never_panics_witness :
  ∃ s, rec_run (before_ops ++ [RCreate (H:=mcap_ref) only_a tt; RClose 1; RDropContext; RDrop 1]) Recorder_init = Ok s.
Proof.
  apply (recorder_never_panics (H0:=mcap_ref_laws)). vm_compute. reflexivity.
Defined.
