(* ===== verification/Protobuf.v ===== *)
(** * Protobuf: fields in the protocol-buffers wire format

    `protobuf.rs`, `protobuf/wkt.rs`, `protobuf/chrono.rs` and the code that
    `foxglove_derive/src/lib.rs` generates for structs and enums.

    The trait [ProtobufField] is a class with the trait's default methods, and
    its implementations are instances.  Each has a specification ([FieldSpec]):
    the records that the wire format prescribes for a value.  The writers
    implement it, and a reference parser ([parse_records]) reads the records
    back.  The lengths announced for a field are exact ([LenSpec]) for all types
    but derived structs, which forget their own length prefix
    ([struct_len_short]).

    The `prost` and `bytes` crates are the parameters [Prost] and [Buf]; writing
    to a [Vec] never runs out of space.  A writer that panics returns [None]. *)

From S2P Require Import Prelude Bytes Floats Time.
Local Open Scope Z_scope.

(** ** Base-128 varints: the reference *)

Fixpoint leb128_fuel (fuel : nat) (v : Z) : list byte :=
  match fuel with
  | O => []
  | S fuel => if v <? 128 then [val_byte v] else val_byte (v `mod` 128 + 128) :: leb128_fuel fuel (v / 128)
  end.
(** Ten groups of seven bits hold any [u64]. *)
Definition leb128 (v : Z) : list byte := leb128_fuel 10 v.

Fixpoint read_leb128_fuel (fuel : nat) (l : list byte) : option (Z * list byte) :=
  match fuel, l with
  | S fuel, b :: l =>
    if byte_val b <? 128 then Some (byte_val b, l)
    else '(v, l) ← read_leb128_fuel fuel l; Some (byte_val b - 128 + 128 * v, l)
  | _, _ => None
  end.
Definition read_leb128 : list byte → option (Z * list byte) := read_leb128_fuel 10.

Lemma read_leb128_fuel_spec fuel v rest : 0 ≤ v < 128 ^ Z.of_nat (S fuel) →
  read_leb128_fuel (S fuel) (leb128_fuel (S fuel) v ++ rest) = Some (v, rest).
Proof.
  revert v. induction fuel as [|fuel IH]; intros v Hv;
    cbn [leb128_fuel]; destruct (Z.ltb_spec v 128) as [Hlt|Hge].
  1,3: cbn [app read_leb128_fuel]; rewrite byte_val_byte, Z.mod_small by lia;
    by rewrite (proj2 (Z.ltb_lt _ _)) by lia.
  { change (128 ^ Z.of_nat 1) with 128 in Hv. lia. }
  pose proof (Z.mod_pos_bound v 128 ltac:(lia)).
  change (val_byte ?x :: ?l ++ ?r) with ((val_byte x :: l) ++ r).
  cbn [app]. cbn [read_leb128_fuel].
  rewrite byte_val_byte, (Z.mod_small (v `mod` 128 + 128)) by lia.
  rewrite (proj2 (Z.ltb_ge _ _)) by lia.
  change (read_leb128_fuel (S fuel) (leb128_fuel (S fuel) (v / 128) ++ rest)
    ≫= (λ '(v0, l), Some (v `mod` 128 + 128 - 128 + 128 * v0, l)) = Some (v, rest)).
  rewrite IH.
  - cbn. do 2 f_equal. pose proof (Z.div_mod v 128 ltac:(lia)). lia.
  - rewrite Nat2Z.inj_succ, Z.pow_succ_r in Hv by lia. split; [apply Z.div_pos; lia|].
    apply Z.div_lt_upper_bound; lia.
Qed.

Lemma read_leb128_spec v rest : fits 64 v → read_leb128 (leb128 v ++ rest) = Some (v, rest).
Proof.
  intros Hv. apply read_leb128_fuel_spec. unfold fits in Hv.
  assert (2 ^ 64 < 128 ^ Z.of_nat 10) by done. lia.
Qed.

Lemma leb128_short v : 0 ≤ v < 128 → leb128 v = [val_byte v].
Proof. intros Hv. unfold leb128. cbn. by rewrite (proj2 (Z.ltb_lt _ _)) by lia. Qed.

#[global] Arguments leb128 : simpl never.

(** ** The `prost` crate *)

Class Prost := {
  encode_varint : Z → list byte → list byte;
  encoded_len_varint : Z → nat;
  (** The generated [prost::Message] implementations of the two time types. *)
  Timestamp_encode_raw : Timestamp → list byte → list byte;
  Timestamp_encoded_len : Timestamp → nat;
  Duration_encode_raw : Duration → list byte → list byte;
  Duration_encoded_len : Duration → nat
}.
Class ProstLaws `{Prost} : Prop := {
  encode_varint_spec : ∀ v buf, fits 64 v → encode_varint v buf = buf ++ leb128 v;
  encoded_len_varint_spec : ∀ v, fits 64 v → encoded_len_varint v = length (leb128 v);
  Timestamp_raw_spec : ∀ t buf, Timestamp_encode_raw t buf = buf ++ Timestamp_encode_raw t [] ∧
    Timestamp_encoded_len t = length (Timestamp_encode_raw t []);
  Duration_raw_spec : ∀ d buf, Duration_encode_raw d buf = buf ++ Duration_encode_raw d [] ∧
    Duration_encoded_len d = length (Duration_encode_raw d [])
}.

(** ** The trait *)

(** [prost_types]'s field types, and the wire types. *)
Inductive FieldType :=
| FtDouble | FtFloat | FtInt64 | FtUint64 | FtInt32 | FtFixed64 | FtFixed32 | FtBool | FtString
| FtGroup | FtMessage | FtBytes | FtUint32 | FtEnum | FtSfixed32 | FtSfixed64 | FtSint32 | FtSint64.
#[export] Instance FieldType_eq_dec : EqDecision FieldType.
Proof. solve_decision. Defined.
Definition Varint : Z := 0.
Definition SixtyFourBit : Z := 1.
Definition LengthDelimited : Z := 2.
Definition ThirtyTwoBit : Z := 5.

Class ProtobufField (T : Type) := {
  field_type : FieldType;
  wire_type : Z;
  write_tagged : Z → T → list byte → option (list byte);
  write : T → list byte → option (list byte);
  repeating : bool;
  optional : bool;
  encoded_len : T → nat;
  encoded_len_tagged : Z → T → nat
}.
Arguments field_type T {_}.
Arguments wire_type T {_}.
Arguments repeating T {_}.
Arguments optional T {_}.

Section fields.
Context `{Prost} `{Buf}.

(** The tag is computed in [u32]; the shift drops high bits. *)
Definition tag (field_number wire : Z) : Z := Z.lor (wrap 32 (Z.shiftl field_number 3)) wire.

(** The default methods. *)
Definition write_tagged_default {T} (wire : Z) (write : T → list byte → option (list byte))
    (field_number : Z) (x : T) (buf : list byte) : option (list byte) :=
  write x (encode_varint (tag field_number wire) buf).
Definition encoded_len_tagged_default {T} (wire : Z) (len : T → nat) (field_number : Z) (x : T) : nat :=
  encoded_len_varint (tag field_number wire) + len x.

(** An implementation that keeps the defaults. *)
Definition scalar {T} (ft : FieldType) (wire : Z) (write : T → list byte → option (list byte))
    (len : T → nat) : ProtobufField T :=
  {| field_type := ft; wire_type := wire; write_tagged := write_tagged_default wire write;
     write := write; repeating := false; optional := false; encoded_len := len;
     encoded_len_tagged := encoded_len_tagged_default wire len |}.

(** ** Scalars *)

(** Integers of the different widths are different types. *)
Record UInt (w : Z) := MkU { u_val : Z }.
Record SInt (w : Z) := MkS { s_val : Z }.
Arguments u_val {w} _.
Arguments s_val {w} _.

Definition uint_field (w : Z) (ft : FieldType) : ProtobufField (UInt w) :=
  scalar ft Varint (λ x buf, Some (encode_varint (u_val x) buf)) (λ x, encoded_len_varint (u_val x)).
Definition u64_field : ProtobufField (UInt 64) := uint_field 64 FtUint64.
Definition u32_field : ProtobufField (UInt 32) := uint_field 32 FtUint32.
Definition u16_field : ProtobufField (UInt 16) := uint_field 16 FtUint32.
Definition u8_field : ProtobufField (UInt 8) := uint_field 8 FtUint32.

(** A value of a [w]-bit signed register, from its bits. *)
Definition to_signed (w z : Z) : Z :=
  let z := wrap w z in if z <? 2 ^ (w - 1) then z else z - 2 ^ w.

(** [((n << 1) ^ (n >> k)) as u64] with [n] in a register of [reg] bits: the left
    shift drops high bits, the right one is arithmetic, the cast extends the
    sign. *)
Definition zigzag (reg k n : Z) : Z :=
  wrap 64 (Z.lxor (to_signed reg (Z.shiftl n 1)) (Z.shiftr n k)).
Definition sint_field (w reg k : Z) (ft : FieldType) : ProtobufField (SInt w) :=
  scalar ft Varint (λ x buf, Some (encode_varint (zigzag reg k (s_val x)) buf))
    (λ x, encoded_len_varint (zigzag reg k (s_val x))).
Definition i64_field : ProtobufField (SInt 64) := sint_field 64 128 63 FtSint64.
Definition i32_field : ProtobufField (SInt 32) := sint_field 32 64 31 FtSint32.
Definition i16_field : ProtobufField (SInt 16) := sint_field 16 32 15 FtSint32.
Definition i8_field : ProtobufField (SInt 8) := sint_field 8 16 7 FtSint32.

Definition bool_field : ProtobufField bool :=
  scalar FtBool Varint (λ x buf, Some (put_u8 (if x : bool then 1 else 0) buf)) (λ _, 1%nat).

(** Floats by their bit patterns; [put_f64_le] writes them like an integer. *)
Record F32 := MkF32 { f32_bits : Z }.
Record F64 := MkF64 { f64_bits : Z }.
Definition f32_field : ProtobufField F32 :=
  scalar FtFloat ThirtyTwoBit (λ x buf, Some (put_f32_le (f32_bits x) buf)) (λ _, 4%nat).
Definition f64_field : ProtobufField F64 :=
  scalar FtDouble SixtyFourBit (λ x buf, Some (put_u64_le (f64_bits x) buf)) (λ _, 8%nat).

(** [encode_length_delimiter] and the bytes; [length_delimiter_len]. *)
Definition write_delimited (bs : list byte) (buf : list byte) : list byte :=
  put_slice bs (encode_varint (Z.of_nat (length bs)) buf).
Definition len_delimited (bs : list byte) : nat :=
  encoded_len_varint (Z.of_nat (length bs)) + length bs.
Definition string_field : ProtobufField string :=
  scalar FtString LengthDelimited (λ s buf, Some (write_delimited (as_bytes s) buf))
    (λ s, len_delimited (as_bytes s)).
Record PBytes := MkBytes { pb_bytes : list byte }.
Definition bytes_field : ProtobufField PBytes :=
  scalar FtBytes LengthDelimited (λ b buf, Some (write_delimited (pb_bytes b) buf))
    (λ b, len_delimited (pb_bytes b)).

(** ** The well-known types *)

Definition Timestamp_field : ProtobufField Timestamp :=
  scalar FtMessage LengthDelimited
    (λ t buf, Some (Timestamp_encode_raw t (encode_varint (Z.of_nat (Timestamp_encoded_len t)) buf)))
    (λ t, encoded_len_varint (Z.of_nat (Timestamp_encoded_len t)) + Timestamp_encoded_len t)%nat.
Definition Duration_field : ProtobufField Duration :=
  scalar FtMessage LengthDelimited
    (λ d buf, Some (Duration_encode_raw d (encode_varint (Z.of_nat (Duration_encoded_len d)) buf)))
    (λ d, encoded_len_varint (Z.of_nat (Duration_encoded_len d)) + Duration_encoded_len d)%nat.

(** chrono's types go through the saturating conversions, which panic when the
    conversion does. *)
Definition from_saturated {A} (r : result unit A) : option A :=
  match r with Ok a => Some a | _ => None end.
Definition DateTime_field `{Chrono} : ProtobufField DateTime :=
  scalar FtMessage LengthDelimited
    (λ t buf, t ← from_saturated (Timestamp_saturating (Timestamp_try_from_datetime t));
              write (ProtobufField := Timestamp_field) t buf)
    (λ t, match from_saturated (Timestamp_saturating (Timestamp_try_from_datetime t)) with
          | Some t => encoded_len (ProtobufField := Timestamp_field) t | None => 0%nat end).
Definition TimeDelta_field `{Chrono} : ProtobufField TimeDelta :=
  scalar FtMessage LengthDelimited
    (λ d buf, d ← from_saturated (Duration_saturating (Duration_try_from_delta d));
              write (ProtobufField := Duration_field) d buf)
    (λ d, match from_saturated (Duration_saturating (Duration_try_from_delta d)) with
          | Some d => encoded_len (ProtobufField := Duration_field) d | None => 0%nat end).

(** ** Repeated and optional fields *)

Fixpoint write_each {T} `{ProtobufField T} (n : Z) (l : list T) (buf : list byte) : option (list byte) :=
  match l with
  | [] => Some buf
  | x :: l => buf ← write_tagged n x buf; write_each n l buf
  end.

(** [Vec<T>], and [[T; N]], which has the same methods. *)
Definition vec_field {T} `{ProtobufField T} : ProtobufField (list T) :=
  {| field_type := field_type T; wire_type := LengthDelimited;
     write_tagged := write_each; write := λ _ _, None; repeating := true; optional := false;
     encoded_len l := sum_list (encoded_len <$> l);
     encoded_len_tagged n l := sum_list (encoded_len_tagged n <$> l) |}.

Definition option_field {T} `{ProtobufField T} : ProtobufField (option T) :=
  {| field_type := field_type T; wire_type := wire_type T;
     write_tagged n o buf := match o with Some x => write_tagged n x buf | None => Some buf end;
     write := λ _ _, None; repeating := repeating T; optional := true;
     encoded_len o := match o with Some x => encoded_len x | None => 0%nat end;
     encoded_len_tagged n o := match o with Some x => encoded_len_tagged n x | None => 0%nat end |}.

(** ** Derived implementations *)

(** A field of a derived struct: its value with its type's implementation. *)
Record AnyField := MkField { af_type : Type; af_impl : ProtobufField af_type; af_value : af_type }.

(** The generated field encoders: [write_tagged] with field numbers from 1. *)
Fixpoint encode_fields (n : Z) (fs : list AnyField) (buf : list byte) : option (list byte) :=
  match fs with
  | [] => Some buf
  | f :: fs => buf ← write_tagged (ProtobufField := af_impl f) n (af_value f) buf;
               encode_fields (n + 1) fs buf
  end.
Fixpoint fields_len (n : Z) (fs : list AnyField) : nat :=
  match fs with
  | [] => 0
  | f :: fs => encoded_len_tagged (ProtobufField := af_impl f) n (af_value f) + fields_len (n + 1) fs
  end.

(** A struct [S] whose fields are [fields]. *)
Definition struct_field {S} (fields : S → list AnyField) : ProtobufField S :=
  scalar FtMessage 2
    (λ x out, local_buf ← encode_fields 1 (fields x) [];
              Some (put_slice local_buf (encode_varint (Z.of_nat (length local_buf)) out)))
    (λ x, fields_len 1 (fields x)).

(** [Encode::encode] and [Encode::encoded_len] of the struct; [remaining] is the
    buffer's [remaining_mut], beyond which writing panics. *)
Definition struct_encode {S} (fields : S → list AnyField) (remaining : nat) (x : S) (buf : list byte) :
    result string (list byte) :=
  if bool_decide (remaining < fields_len 1 (fields x))%nat then Err "insufficient buffer"%string
  else
    bytes ← or_panic (E:=string) (encode_fields 1 (fields x) []);
    if bool_decide (length bytes ≤ remaining)%nat then Ok (buf ++ bytes) else Panic.
Definition struct_encoded_len {S} (fields : S → list AnyField) (x : S) : option nat :=
  Some (fields_len 1 (fields x)).

(** A unit-only enum, by its discriminants ([isize]); [*self as u64]. *)
Record EnumValue := MkEnum { discriminant : Z }.
Definition enum_field : ProtobufField EnumValue :=
  scalar FtEnum 0 (λ x buf, Some (encode_varint (wrap 64 (discriminant x)) buf))
    (λ x, encoded_len_varint (wrap 64 (discriminant x))).
End fields.

#[global] Arguments u_val {w} _.
#[global] Arguments s_val {w} _.

(** ** The wire format: the reference *)

Inductive payload :=
| PVarint (v : Z) | PFixed64 (v : Z) | PLen (bs : list byte) | PFixed32 (v : Z).
Abbreviation wire_record := (Z * payload)%type.

Definition payload_wire (p : payload) : Z :=
  match p with
  | PVarint _ => Varint | PFixed64 _ => SixtyFourBit | PLen _ => LengthDelimited
  | PFixed32 _ => ThirtyTwoBit
  end.
Definition encode_payload (p : payload) : list byte :=
  match p with
  | PVarint v => leb128 v
  | PFixed64 v => le_bytes 8 v
  | PLen bs => leb128 (Z.of_nat (length bs)) ++ bs
  | PFixed32 v => le_bytes 4 v
  end.
Definition encode_record (r : wire_record) : list byte :=
  leb128 (8 * r.1 + payload_wire r.2) ++ encode_payload r.2.
Definition encode_records (rs : list wire_record) : list byte := rs ≫= encode_record.

Definition field_number (n : Z) : Prop := 1 ≤ n < 2 ^ 29.
Definition payload_valid (p : payload) : Prop :=
  match p with
  | PVarint v | PFixed64 v => fits 64 v
  | PLen bs => fits 64 (Z.of_nat (length bs))
  | PFixed32 v => fits 32 v
  end.
Definition record_valid (r : wire_record) : Prop := field_number r.1 ∧ payload_valid r.2.

Definition parse_payload (wire : Z) (l : list byte) : option (payload * list byte) :=
  if wire =? Varint then '(v, l) ← read_leb128 l; Some (PVarint v, l)
  else if wire =? SixtyFourBit then
    if decide (8 ≤ length l)%nat then Some (PFixed64 (le_val (take 8 l)), drop 8 l) else None
  else if wire =? LengthDelimited then
    '(n, l) ← read_leb128 l;
    if decide (Z.to_nat n ≤ length l)%nat
    then Some (PLen (take (Z.to_nat n) l), drop (Z.to_nat n) l) else None
  else if wire =? ThirtyTwoBit then
    if decide (4 ≤ length l)%nat then Some (PFixed32 (le_val (take 4 l)), drop 4 l) else None
  else None.
Fixpoint parse_records_fuel (fuel : nat) (l : list byte) : option (list wire_record) :=
  match l, fuel with
  | [], _ => Some []
  | _, O => None
  | _, S fuel =>
    '(t, l) ← read_leb128 l;
    '(p, l) ← parse_payload (t `mod` 8) l;
    rs ← parse_records_fuel fuel l;
    Some ((t / 8, p) :: rs)
  end.
Definition parse_records (l : list byte) : option (list wire_record) :=
  parse_records_fuel (length l) l.

Lemma parse_payload_encode p rest : payload_valid p →
  parse_payload (payload_wire p) (encode_payload p ++ rest) = Some (p, rest).
Proof.
  destruct p as [v|v|bs|v]; intros Hv; unfold parse_payload; cbn [payload_wire encode_payload];
    cbn [Z.eqb Pos.eqb Varint SixtyFourBit LengthDelimited ThirtyTwoBit].
  - change (Varint =? Varint) with true. cbn iota. by rewrite read_leb128_spec.
  - change (SixtyFourBit =? Varint) with false. change (SixtyFourBit =? SixtyFourBit) with true.
    cbn iota. rewrite decide_True by (rewrite length_app, length_le_bytes; lia).
    rewrite take_app_length', drop_app_length' by (by rewrite length_le_bytes).
    by rewrite (le_val_roundtrip 8 64).
  - change (LengthDelimited =? Varint) with false. change (LengthDelimited =? SixtyFourBit) with false.
    change (LengthDelimited =? LengthDelimited) with true. cbn iota.
    rewrite <- app_assoc, read_leb128_spec by done. cbn [mbind option_bind]. rewrite Nat2Z.id.
    rewrite decide_True by (rewrite length_app; lia). by rewrite take_app_length, drop_app_length.
  - change (ThirtyTwoBit =? Varint) with false. change (ThirtyTwoBit =? SixtyFourBit) with false.
    change (ThirtyTwoBit =? LengthDelimited) with false. change (ThirtyTwoBit =? ThirtyTwoBit) with true.
    cbn iota. rewrite decide_True by (rewrite length_app, length_le_bytes; lia).
    rewrite take_app_length', drop_app_length' by (by rewrite length_le_bytes).
    by rewrite (le_val_roundtrip 4 32).
Qed.

Lemma leb128_nonempty v : leb128 v ≠ [].
Proof. unfold leb128. cbn. by case_match. Qed.

Lemma payload_wire_small p : 0 ≤ payload_wire p < 8.
Proof. destruct p; cbn; unfold Varint, SixtyFourBit, LengthDelimited, ThirtyTwoBit; lia. Qed.

Lemma parse_records_encode rs : Forall record_valid rs →
  parse_records (encode_records rs) = Some rs.
Proof.
  intros Hrs. unfold parse_records.
  assert (∀ fuel, (length (encode_records rs) ≤ fuel)%nat →
    parse_records_fuel fuel (encode_records rs) = Some rs) as Hall; [|by apply Hall].
  induction Hrs as [|[n p] rs [Hn Hp] Hrs IH]; intros fuel Hfuel; [by destruct fuel|].
  cbn [fst snd] in *. pose proof (payload_wire_small p) as Hw.
  set (t := 8 * n + payload_wire p).
  assert (encode_records ((n, p) :: rs) = leb128 t ++ encode_payload p ++ encode_records rs) as Ecat
    by (cbn; unfold encode_record; by rewrite <- app_assoc).
  rewrite Ecat in Hfuel |- *.
  pose proof (leb128_nonempty t) as Hne.
  assert (fits 64 t) as Ht by (unfold t, fits, field_number in *; lia).
  destruct fuel as [|fuel]; [rewrite !length_app in Hfuel; destruct (leb128 t); [done|cbn in Hfuel; lia]|].
  assert (∀ l, parse_records_fuel (S fuel) (leb128 t ++ l) =
    ('(t, l) ← read_leb128 (leb128 t ++ l); '(p, l) ← parse_payload (t `mod` 8) l;
     rs ← parse_records_fuel fuel l; Some ((t / 8, p) :: rs))) as Eq
    by (intros l; by destruct (leb128 t)).
  rewrite Eq, read_leb128_spec by done. cbn [mbind option_bind].
  assert (t `mod` 8 = payload_wire p ∧ t / 8 = n) as [-> ->].
  { split; [symmetry; apply Z.mod_unique with n|symmetry; apply Z.div_unique with (payload_wire p)];
      unfold t; lia. }
  rewrite parse_payload_encode by done. cbn [mbind option_bind].
  rewrite IH; [done|]. rewrite !length_app in Hfuel. destruct (leb128 t); [done|].
  cbn in Hfuel. lia.
Qed.

(** ** Zigzag: the reference *)

Definition zigzag_ref (n : Z) : Z := if 0 <=? n then 2 * n else - 2 * n - 1.
Definition unzigzag (u : Z) : Z := if Z.even u then u / 2 else - ((u + 1) / 2).

Lemma unzigzag_zigzag n : unzigzag (zigzag_ref n) = n.
Proof.
  unfold unzigzag, zigzag_ref. destruct (Z.leb_spec 0 n).
  - rewrite Z.even_mul. cbn. rewrite Z.mul_comm, Z.div_mul; lia.
  - replace (- 2 * n - 1) with (1 + 2 * (- n - 1)) by lia. rewrite Z.even_add_mul_2. cbn.
    replace (1 + 2 * (- n - 1) + 1) with (- n * 2) by lia. rewrite Z.div_mul by lia. lia.
Qed.

Lemma to_signed_id w z : 0 < w → fits_signed w z → to_signed w z = z.
Proof.
  intros Hw [H1 H2]. unfold to_signed, wrap.
  assert (2 ^ w = 2 * 2 ^ (w - 1)) as E by (rewrite <- Z.pow_succ_r by lia; f_equal; lia).
  assert (0 < 2 ^ (w - 1)) by (apply Z.pow_pos_nonneg; lia).
  destruct (decide (0 ≤ z)).
  - rewrite Z.mod_small by lia. by rewrite (proj2 (Z.ltb_lt _ _)) by lia.
  - assert (z `mod` 2 ^ w = z + 2 ^ w) as ->
      by (symmetry; apply Z.mod_unique with (-1); lia).
    rewrite (proj2 (Z.ltb_ge _ _)) by lia. lia.
Qed.

(** The shifts and the exclusive or compute the reference. *)
Lemma zigzag_spec w reg n : 1 < w ≤ 64 → w < reg → fits_signed w n →
  zigzag reg (w - 1) n = zigzag_ref n ∧ fits w (zigzag_ref n).
Proof.
  intros Hw Hreg [H1 H2]. unfold zigzag.
  assert (2 ^ w = 2 * 2 ^ (w - 1)) as E by (rewrite <- Z.pow_succ_r by lia; f_equal; lia).
  assert (2 ^ w ≤ 2 ^ (reg - 1)) by (apply Z.pow_le_mono_r; lia).
  assert (2 ^ w ≤ 2 ^ 64) as H64 by (apply Z.pow_le_mono_r; lia).
  rewrite Z.shiftl_mul_pow2 by lia. change (2 ^ 1) with 2.
  rewrite to_signed_id by (unfold fits_signed; lia).
  rewrite Z.shiftr_div_pow2 by lia. unfold zigzag_ref.
  destruct (Z.leb_spec 0 n).
  - rewrite Z.div_small, Z.lxor_0_r by lia. rewrite wrap_small by (unfold fits; lia).
    unfold fits. lia.
  - assert (n / 2 ^ (w - 1) = -1) as -> by (symmetry; apply Z.div_unique with (n + 2 ^ (w - 1)); lia).
    rewrite Z.lxor_m1_r. unfold Z.lnot. rewrite wrap_small by (unfold fits; lia).
    unfold fits. lia.
Qed.

(** ** What an implementation promises *)

(** Writing a valid value appends the records of the wire format. *)
Class FieldSpec (T : Type) (F : ProtobufField T) := {
  field_records : Z → T → list wire_record;
  field_valid : T → Prop;
  spec_valid : ∀ n x, field_number n → field_valid x → Forall record_valid (field_records n x);
  spec_write : ∀ n x buf, field_number n → field_valid x →
    write_tagged n x buf = Some (buf ++ encode_records (field_records n x))
}.
Arguments field_records {T} F {_}.
Arguments field_valid {T} F {_}.

(** The announced length is the length written. *)
Class LenSpec (T : Type) (F : ProtobufField T) `{!FieldSpec T F} : Prop := {
  spec_len : ∀ n x, field_number n → field_valid F x →
    encoded_len_tagged n x = length (encode_records (field_records F n x))
}.

Section specs.
Context `{ProstLaws} `{BufLaws}.

Lemma land_small n w : 0 ≤ w < 8 → Z.land (Z.shiftl n 3) w = 0.
Proof.
  intros Hw. apply Z.bits_inj'. intros i Hi. rewrite Z.land_spec, Z.bits_0.
  destruct (decide (i < 3)).
  - by rewrite Z.shiftl_spec_low by lia.
  - rewrite (Z.testbit_eqb w) by lia. rewrite Z.div_small; [by rewrite andb_false_r|].
    assert (2 ^ 3 ≤ 2 ^ i) by (apply Z.pow_le_mono_r; lia). lia.
Qed.

Lemma tag_spec n w : field_number n → 0 ≤ w < 8 → tag n w = 8 * n + w ∧ fits 64 (8 * n + w).
Proof.
  intros Hn Hw. unfold field_number in Hn. split; [|unfold fits; lia]. unfold tag.
  assert (wrap 32 (Z.shiftl n 3) = Z.shiftl n 3) as ->.
  { apply wrap_small. rewrite Z.shiftl_mul_pow2 by lia. unfold fits. lia. }
  pose proof (land_small n w Hw) as Hl.
  rewrite <- Z.lxor_lor, <- Z.add_nocarry_lxor by done. rewrite Z.shiftl_mul_pow2 by lia. lia.
Qed.

(** *** Scalars *)

Section scalar.
Context {T : Type} (ft : FieldType) (wire : Z) (wr : T → list byte → option (list byte))
  (len : T → nat) (pay : T → payload) (valid : T → Prop).
Hypothesis wire_ok : ∀ x, payload_wire (pay x) = wire.
Hypothesis wire_small : 0 ≤ wire < 8.
Hypothesis valid_ok : ∀ x, valid x → payload_valid (pay x).
Hypothesis write_ok : ∀ x buf, valid x → wr x buf = Some (buf ++ encode_payload (pay x)).
Hypothesis len_ok : ∀ x, valid x → len x = length (encode_payload (pay x)).

Program Definition scalar_spec : FieldSpec T (scalar ft wire wr len) := {|
  field_records n x := [(n, pay x)];
  field_valid := valid
|}.
Next Obligation. intros n x Hn Hx. repeat constructor; cbn; [apply Hn..|by apply valid_ok]. Qed.
Next Obligation.
  intros n x buf Hn Hx. cbn. unfold write_tagged_default, encode_record. cbn [fst snd].
  destruct (tag_spec n wire Hn wire_small) as [-> Hfit].
  rewrite encode_varint_spec, write_ok, wire_ok by done. by rewrite app_nil_r, app_assoc.
Qed.

Lemma scalar_len : @LenSpec T (scalar ft wire wr len) scalar_spec.
Proof.
  split. intros n x Hn Hx. cbn. unfold encoded_len_tagged_default, encode_record. cbn [fst snd].
  destruct (tag_spec n wire Hn wire_small) as [-> Hfit].
  by rewrite encoded_len_varint_spec, len_ok, wire_ok, app_nil_r, length_app by done.
Qed.
End scalar.

Lemma uint_fits w v : 0 ≤ w ≤ 64 → fits w v → fits 64 v.
Proof. intros Hw [Hlo Hhi]. pose proof (Z.pow_le_mono_r 2 w 64). unfold fits. lia. Qed.

Definition uint_spec w ft (Hw : 0 ≤ w ≤ 64) : FieldSpec (UInt w) (uint_field w ft).
Proof.
  apply (scalar_spec _ _ _ _ (λ x, PVarint (u_val x)) (λ x, fits w (u_val x)));
    [done|done|intros; by apply (uint_fits w)|].
  intros. rewrite encode_varint_spec by (by apply (uint_fits w)). done.
Defined.
Lemma uint_len w ft Hw : @LenSpec _ _ (uint_spec w ft Hw).
Proof.
  apply scalar_len. intros. rewrite encoded_len_varint_spec by (by apply (uint_fits w)). done.
Qed.

Lemma zigzag_fits w reg n : 1 < w ≤ 64 → w < reg → fits_signed w n →
  zigzag reg (w - 1) n = zigzag_ref n ∧ fits 64 (zigzag_ref n).
Proof.
  intros Hw Hreg Hn. destruct (zigzag_spec w reg n Hw Hreg Hn) as [-> Hf]. split; [done|].
  by apply (uint_fits w); [lia|].
Qed.

Definition sint_spec w reg k ft (Hw : 1 < w ≤ 64) (Hreg : w < reg) (Hk : k = w - 1) :
  FieldSpec (SInt w) (sint_field w reg k ft).
Proof.
  apply (scalar_spec _ _ _ _ (λ x, PVarint (zigzag_ref (s_val x))) (λ x, fits_signed w (s_val x)));
    [done|done|intros x Hx; by apply (zigzag_fits w reg)|].
  intros x buf Hx. subst k. destruct (zigzag_fits w reg (s_val x) Hw Hreg Hx) as [-> Hf].
  by rewrite encode_varint_spec.
Defined.
Lemma sint_len w reg k ft Hw Hreg Hk : @LenSpec _ _ (sint_spec w reg k ft Hw Hreg Hk).
Proof.
  apply scalar_len. intros x Hx. subst k.
  destruct (zigzag_fits w reg (s_val x) Hw Hreg Hx) as [-> Hf]. by rewrite encoded_len_varint_spec.
Qed.

Definition bool_spec : FieldSpec bool bool_field.
Proof.
  apply (scalar_spec _ _ _ _ (λ b : bool, PVarint (if b then 1 else 0)) (λ _, True));
    [done|done|by intros []|].
  intros [] buf _; by rewrite put_u8_spec.
Defined.
Lemma bool_len : @LenSpec _ _ bool_spec.
Proof. apply scalar_len. by intros []. Qed.

Definition f32_spec : FieldSpec F32 f32_field.
Proof.
  apply (scalar_spec _ _ _ _ (λ x, PFixed32 (f32_bits x)) (λ x, fits 32 (f32_bits x)));
    [done|done|done|]. intros x buf Hx. by rewrite put_f32_le_spec.
Defined.
Lemma f32_len : @LenSpec _ _ f32_spec.
Proof. apply scalar_len. intros. cbn. by rewrite length_le_bytes. Qed.

Definition f64_spec : FieldSpec F64 f64_field.
Proof.
  apply (scalar_spec _ _ _ _ (λ x, PFixed64 (f64_bits x)) (λ x, fits 64 (f64_bits x)));
    [done|done|done|]. intros x buf Hx. by rewrite put_u64_le_spec.
Defined.
Lemma f64_len : @LenSpec _ _ f64_spec.
Proof. apply scalar_len. intros. cbn. by rewrite length_le_bytes. Qed.

Lemma write_delimited_spec bs buf : fits 64 (Z.of_nat (length bs)) →
  write_delimited bs buf = buf ++ encode_payload (PLen bs).
Proof.
  intros Hf. unfold write_delimited. rewrite put_slice_spec, encode_varint_spec by done.
  cbn [encode_payload]. by rewrite app_assoc.
Qed.
Lemma len_delimited_spec bs : fits 64 (Z.of_nat (length bs)) →
  len_delimited bs = length (encode_payload (PLen bs)).
Proof.
  intros Hf. unfold len_delimited. rewrite encoded_len_varint_spec by done. cbn [encode_payload].
  by rewrite length_app.
Qed.

Definition string_spec : FieldSpec string string_field.
Proof.
  apply (scalar_spec _ _ _ _ (λ s, PLen (as_bytes s))
    (λ s, fits 64 (Z.of_nat (length (as_bytes s))))); [done|done|done|].
  intros x buf Hx. by rewrite write_delimited_spec.
Defined.
Lemma string_len : @LenSpec _ _ string_spec.
Proof. apply scalar_len. intros. by apply len_delimited_spec. Qed.

Definition bytes_spec : FieldSpec PBytes bytes_field.
Proof.
  apply (scalar_spec _ _ _ _ (λ b, PLen (pb_bytes b))
    (λ b, fits 64 (Z.of_nat (length (pb_bytes b))))); [done|done|done|].
  intros x buf Hx. by rewrite write_delimited_spec.
Defined.
Lemma bytes_len : @LenSpec _ _ bytes_spec.
Proof. apply scalar_len. intros. by apply len_delimited_spec. Qed.

Definition enum_spec : FieldSpec EnumValue enum_field.
Proof.
  apply (scalar_spec _ _ _ _ (λ x, PVarint (wrap 64 (discriminant x))) (λ _, True));
    [done|done|intros; by apply wrap_fits|].
  intros x buf _. rewrite encode_varint_spec by (by apply wrap_fits). done.
Defined.
Lemma enum_len : @LenSpec _ _ enum_spec.
Proof. apply scalar_len. intros. by rewrite encoded_len_varint_spec by (by apply wrap_fits). Qed.

(** *** The well-known types, by their `prost` encodings *)

Definition Timestamp_spec : FieldSpec Timestamp Timestamp_field.
Proof.
  apply (scalar_spec _ _ _ _ (λ t, PLen (Timestamp_encode_raw t []))
    (λ t, fits 64 (Z.of_nat (length (Timestamp_encode_raw t []))))); [done|done|done|].
  intros t buf Ht. destruct (Timestamp_raw_spec t (encode_varint (Z.of_nat (Timestamp_encoded_len t)) buf))
    as [-> ->]. rewrite encode_varint_spec by done. cbn. by rewrite app_assoc.
Defined.
Lemma Timestamp_len : @LenSpec _ _ Timestamp_spec.
Proof.
  apply scalar_len. intros t Ht. destruct (Timestamp_raw_spec t []) as [_ ->].
  rewrite encoded_len_varint_spec by done. cbn. by rewrite length_app.
Qed.

Definition Duration_spec : FieldSpec Duration Duration_field.
Proof.
  apply (scalar_spec _ _ _ _ (λ t, PLen (Duration_encode_raw t []))
    (λ t, fits 64 (Z.of_nat (length (Duration_encode_raw t []))))); [done|done|done|].
  intros t buf Ht. destruct (Duration_raw_spec t (encode_varint (Z.of_nat (Duration_encoded_len t)) buf))
    as [-> ->]. rewrite encode_varint_spec by done. cbn. by rewrite app_assoc.
Defined.
Lemma Duration_len : @LenSpec _ _ Duration_spec.
Proof.
  apply scalar_len. intros t Ht. destruct (Duration_raw_spec t []) as [_ ->].
  rewrite encoded_len_varint_spec by done. cbn. by rewrite length_app.
Qed.

(** *** Repeated and optional fields *)

Lemma encode_records_app l k : encode_records (l ++ k) = encode_records l ++ encode_records k.
Proof. apply bind_app. Qed.

Section wrappers.
Context {T : Type} {F : ProtobufField T} (SF : FieldSpec T F).

Program Definition vec_spec : FieldSpec (list T) vec_field := {|
  field_records n l := l ≫= field_records F n;
  field_valid := Forall (field_valid F)
|}.
Next Obligation.
  intros n l Hn Hl. induction Hl as [|x l Hx _ IH]; cbn; [done|].
  apply Forall_app. split; [by apply spec_valid|done].
Qed.
Next Obligation.
  intros n l buf Hn Hl. cbn. revert buf.
  induction Hl as [|x l Hx _ IH]; intros buf; cbn; [by rewrite app_nil_r|].
  rewrite spec_write by done. cbn. by rewrite IH, encode_records_app, app_assoc.
Qed.

Lemma vec_len : LenSpec T F → @LenSpec _ _ vec_spec.
Proof.
  intros HL. split. intros n l Hn Hl. cbn.
  induction Hl as [|x l Hx _ IH]; [done|]. cbn. rewrite encode_records_app, length_app.
  by rewrite spec_len, IH.
Qed.

Program Definition option_spec : FieldSpec (option T) option_field := {|
  field_records n o := match o with Some x => field_records F n x | None => [] end;
  field_valid o := match o with Some x => field_valid F x | None => True end
|}.
Next Obligation. intros n [x|] Hn Hx; cbn; [by apply spec_valid|constructor]. Qed.
Next Obligation.
  intros n [x|] buf Hn Hx; cbn; [by apply spec_write|by rewrite app_nil_r].
Qed.

Lemma option_len : LenSpec T F → @LenSpec _ _ option_spec.
Proof. intros HL. split. intros n [x|] Hn Hx; [by apply (@spec_len T F SF HL)|done]. Qed.
End wrappers.

(** *** Structs *)

(** A field with the specification of its type. *)
Record SpecField := { sf_field : AnyField; sf_spec : FieldSpec (af_type sf_field) (af_impl sf_field) }.

Definition sf_records (n : Z) (f : SpecField) : list wire_record :=
  @field_records _ _ (sf_spec f) n (af_value (sf_field f)).
Definition sf_valid (f : SpecField) : Prop := @field_valid _ _ (sf_spec f) (af_value (sf_field f)).
Definition sf_exact (f : SpecField) : Prop := @LenSpec _ _ (sf_spec f).

Fixpoint struct_records (n : Z) (fs : list SpecField) : list wire_record :=
  match fs with
  | [] => []
  | f :: fs => sf_records n f ++ struct_records (n + 1) fs
  end.

(** The field numbers from [n] on are valid. *)
Definition numbered (n : Z) (fs : list SpecField) : Prop :=
  1 ≤ n ∧ n + Z.of_nat (length fs) ≤ 2 ^ 29.

Lemma numbered_cons n f fs : numbered n (f :: fs) → field_number n ∧ numbered (n + 1) fs.
Proof. unfold numbered, field_number. cbn [length]. lia. Qed.

Lemma encode_fields_spec fs : ∀ n buf, numbered n fs → Forall sf_valid fs →
  encode_fields n (sf_field <$> fs) buf = Some (buf ++ encode_records (struct_records n fs)).
Proof.
  induction fs as [|f fs IH]; intros n buf Hn Hv; cbn; [by rewrite app_nil_r|].
  apply numbered_cons in Hn as [Hn Hns]. apply Forall_cons in Hv as [Hf Hv].
  rewrite (@spec_write _ _ (sf_spec f)) by done. cbn.
  by rewrite IH, encode_records_app, app_assoc by done.
Qed.

Lemma struct_records_valid fs : ∀ n, numbered n fs → Forall sf_valid fs →
  Forall record_valid (struct_records n fs).
Proof.
  induction fs as [|f fs IH]; intros n Hn Hv; cbn; [done|].
  apply numbered_cons in Hn as [Hn Hns]. apply Forall_cons in Hv as [Hf Hv].
  apply Forall_app. split; [by apply (@spec_valid _ _ (sf_spec f))|by apply IH].
Qed.

Lemma fields_len_exact fs : ∀ n, numbered n fs → Forall sf_valid fs → Forall sf_exact fs →
  fields_len n (sf_field <$> fs) = length (encode_records (struct_records n fs)).
Proof.
  induction fs as [|f fs IH]; intros n Hn Hv Hl; cbn; [done|].
  apply numbered_cons in Hn as [Hn Hns]. apply Forall_cons in Hv as [Hf Hv].
  apply Forall_cons in Hl as [Hfl Hl]. rewrite encode_records_app, length_app, IH by done.
  by rewrite (@spec_len _ _ (sf_spec f) Hfl).
Qed.

Section struct.
Context {S : Type} (specs : S → list SpecField).
Abbreviation fields x := (sf_field <$> specs x).

Definition struct_valid (x : S) : Prop :=
  numbered 1 (specs x) ∧ Forall sf_valid (specs x) ∧
  fits 64 (Z.of_nat (length (encode_records (struct_records 1 (specs x))))).

(** A nested message is one length-delimited record. *)
Definition struct_spec : FieldSpec S (struct_field (λ x, fields x)).
Proof.
  apply (scalar_spec _ _ _ _ (λ x, PLen (encode_records (struct_records 1 (specs x)))) struct_valid);
    [done|done|intros x Hx; apply Hx|].
  intros x buf (Hn & Hv & Hf). rewrite encode_fields_spec by done. cbn [mbind option_bind app].
  rewrite put_slice_spec, encode_varint_spec by done. cbn [encode_payload]. by rewrite app_assoc.
Defined.

(** The length that a derived struct announces for itself as a field is short
    by its length prefix: one byte, or more from 128 bytes of content on. *)
Theorem struct_len_short n x : field_number n → struct_valid x → Forall sf_exact (specs x) →
  let content := encode_records (struct_records 1 (specs x)) in
  (encoded_len_tagged (ProtobufField := struct_field (λ x, fields x)) n x +
    length (leb128 (Z.of_nat (length content))))%nat =
  length (encode_records (@field_records _ _ struct_spec n x)).
Proof.
  intros Hn (Hnum & Hv & Hf) Hl content. cbn. unfold encoded_len_tagged_default.
  destruct (tag_spec n 2 Hn ltac:(lia)) as [-> Hfit].
  rewrite encoded_len_varint_spec by done. rewrite fields_len_exact by done. fold content.
  unfold encode_record. cbn [fst snd payload_wire encode_payload].
  rewrite !length_app. cbn [length]. fold content. change LengthDelimited with 2. lia.
Qed.

(** C36: encoding a message of a derived struct, on every branch: an error if the
    buffer is smaller than the announced length; a panic if it is smaller
    than the length written; otherwise the bytes are the wire format's: a
    parser reads back exactly the records of the fields, numbered from 1, in
    order.  If all fields announce their exact lengths, so does the message,
    and encoding never panics. *)
Theorem struct_encode_spec remaining x buf : struct_valid x →
  let bs := encode_records (struct_records 1 (specs x)) in
  let r := struct_encode (λ x, fields x) remaining x buf in
  parse_records bs = Some (struct_records 1 (specs x)) ∧
  r = (if bool_decide (remaining < fields_len 1 (fields x))%nat then Err "insufficient buffer"%string
       else if bool_decide (length bs ≤ remaining)%nat then Ok (buf ++ bs) else Panic) ∧
  (Forall sf_exact (specs x) → struct_encoded_len (λ x, fields x) x = Some (length bs) ∧ no_panic r).
Proof.
  intros (Hn & Hv & Hf) bs r.
  assert (r = (if bool_decide (remaining < fields_len 1 (fields x))%nat
      then Err "insufficient buffer"%string
      else if bool_decide (length bs ≤ remaining)%nat then Ok (buf ++ bs) else Panic)) as Hr.
  { unfold r, struct_encode. case_bool_decide; [done|]. by rewrite encode_fields_spec. }
  split_and!; [by apply parse_records_encode, struct_records_valid|done|].
  intros Hl. unfold struct_encoded_len. rewrite Hr, fields_len_exact by done. fold bs.
  split; [done|]. destruct (decide (remaining < length bs)%nat) as [Hb|Hb].
  - by rewrite bool_decide_true by done.
  - rewrite bool_decide_false by done. by rewrite bool_decide_true by lia.
Qed.
End struct.
End specs.

(** Signed integers of every width survive: the record that [write_tagged]
    appends is read back by the parser, and undoing the zigzag gives the
    value. *)
Theorem sint_roundtrip `{ProstLaws} `{BufLaws} w reg k ft (F : ProtobufField (SInt w)) n z buf :
  (w, reg, k, ft) ∈ [(64, 128, 63, FtSint64); (32, 64, 31, FtSint32); (16, 32, 15, FtSint32);
                     (8, 16, 7, FtSint32)] →
  F = sint_field w reg k ft → field_number n → fits_signed w z →
  ∃ bs u, write_tagged n (MkS w z) buf = Some (buf ++ bs) ∧
    parse_records bs = Some [(n, PVarint u)] ∧ fits w u ∧ unzigzag u = z.
Proof.
  intros Hin -> Hn Hz.
  assert (1 < w ≤ 64 ∧ w < reg ∧ k = w - 1) as (Hw & Hreg & Hk).
  { repeat (apply elem_of_cons in Hin as [[= -> -> -> ->]|Hin]; [lia|]). by apply elem_of_nil in Hin. }
  exists (encode_records [(n, PVarint (zigzag_ref z))]), (zigzag_ref z). split_and!.
  - by rewrite (@spec_write _ _ (sint_spec w reg k ft Hw Hreg Hk)).
  - apply parse_records_encode. constructor; [|constructor]. split; [done|]. cbn.
    by apply (zigzag_fits w reg).
  - by apply (zigzag_spec w reg).
  - apply unzigzag_zigzag.
Qed.

(** ** An instance of `prost`, examples and witnesses *)

(** The generated encoding of a message of two integers: a field that has the
    default value is left out, and a signed one is extended to 64 bits. *)
Definition raw_time (sec nsec : Z) : list byte :=
  (if sec =? 0 then [] else leb128 8 ++ leb128 (wrap 64 sec)) ++
  (if nsec =? 0 then [] else leb128 16 ++ leb128 (wrap 64 nsec)).
#[export] Instance prost_ref : Prost := {|
  encode_varint v buf := buf ++ leb128 v;
  encoded_len_varint v := length (leb128 v);
  Timestamp_encode_raw t buf := buf ++ raw_time (ts_sec t) (ts_nsec t);
  Timestamp_encoded_len t := length (raw_time (ts_sec t) (ts_nsec t));
  Duration_encode_raw d buf := buf ++ raw_time (dur_sec d) (dur_nsec d);
  Duration_encoded_len d := length (raw_time (dur_sec d) (dur_nsec d))
|}.
#[export] Instance prost_ref_laws : ProstLaws.
Proof. by split. Qed.

(** `struct Inner { a: u8 }` and `struct Outer { inner: Inner, name: String }`. *)
Definition u8_sf (v : Z) : SpecField :=
  {| sf_field := MkField _ u8_field (MkU 8 v); sf_spec := uint_spec 8 FtUint32 ltac:(lia) |}.
Definition string_sf (s : string) : SpecField :=
  {| sf_field := MkField _ string_field s; sf_spec := string_spec |}.
Definition inner_specs (v : Z) : list SpecField := [u8_sf v].
Definition outer_specs (x : Z * string) : list SpecField :=
  [{| sf_field := MkField _ (struct_field (λ v, sf_field <$> inner_specs v)) x.1;
      sf_spec := struct_spec inner_specs |}; string_sf x.2].
Definition flat_specs (x : Z * string) : list SpecField := [u8_sf x.1; string_sf x.2].

Ltac compute_fits := vm_compute; split; [discriminate|reflexivity].
Lemma flat_valid : struct_valid flat_specs (5, "ab"%string).
Proof.
  split; [split; cbn; lia|]. split; [|compute_fits].
  apply Forall_cons; split; [compute_fits|]. apply Forall_cons; split; [compute_fits|].
  by apply Forall_nil.
Qed.
Lemma flat_exact : Forall sf_exact (flat_specs (5, "ab"%string)).
Proof. constructor; [apply uint_len|constructor; [apply string_len|constructor]]. Qed.
Lemma inner_valid : struct_valid inner_specs 5.
Proof.
  split; [split; cbn; lia|]. split; [|compute_fits].
  apply Forall_cons; split; [compute_fits|]. by apply Forall_nil.
Qed.

Lemma struct_encode_spec_witness :
  struct_encode (λ x, sf_field <$> flat_specs x) 6 (5, "ab"%string) [] =
    Ok (val_byte <$> [8; 5; 18; 2; 97; 98]) ∧
  no_panic (struct_encode (λ x, sf_field <$> flat_specs x) 6 (5, "ab"%string) []).
Proof.
  destruct (struct_encode_spec flat_specs 6 (5, "ab"%string) [] flat_valid) as (_ & _ & Hex).
  split; [vm_compute; reflexivity|]. exact (proj2 (Hex flat_exact)).
Defined.

Lemma struct_len_short_witness :
  (encoded_len_tagged (ProtobufField := struct_field (λ v, sf_field <$> inner_specs v)) 1%Z 5%Z + 1)%nat =
  length (encode_records (@field_records _ _ (struct_spec inner_specs) 1 5)).
Proof.
  refine (struct_len_short inner_specs 1 5 _ inner_valid _).
  - unfold field_number. lia.
  - constructor; [apply uint_len|constructor].
Defined.

(** A message with a nested one panics instead of reporting a buffer that is one
    byte too small: the announced length passes the check. *)
Lemma nested_struct_panics :
  struct_encode (λ x, sf_field <$> outer_specs x) 7 (5, "ab"%string) [] = Panic ∧
  struct_encode (λ x, sf_field <$> outer_specs x) 8 (5, "ab"%string) [] =
    Ok (val_byte <$> [10; 2; 8; 5; 18; 2; 97; 98]).
Proof. split; vm_compute; reflexivity. Qed.

Lemma sint_roundtrip_witness :
  ∃ bs u, write_tagged (ProtobufField := i8_field) 1 (MkS 8 (-128)) [] = Some ([] ++ bs) ∧
    parse_records bs = Some [(1, PVarint u)] ∧ fits 8 u ∧ unzigzag u = -128.
Proof.
  refine (sint_roundtrip 8 16 7 FtSint32 i8_field 1 (-128) [] _ eq_refl _ _).
  - right; right; right; left.
  - unfold field_number. lia.
  - unfold fits_signed. lia.
Defined.
