(* ===== verification/Descriptor.v ===== *)
(** * Descriptor: message descriptors, and the message types generated from schemas

    The descriptors of the `prost_types` crate, as far as this library reads or
    sets them; `schemas/descriptors.rs`, the serialised descriptors of the
    Foxglove schemas; and `schemas/impls.rs`, the implementations of [Encode],
    [Decode] and [ProtobufField] for the generated message types.

    The generated structs are external: [Generated] gives a type of messages for
    each of them, with `prost`'s codec.  All implementations have one shape; a
    [GeneratedType] holds what distinguishes them.  Each publishes a schema that
    names its message, survives encoding and decoding, and, as a field, is one
    length-delimited record whose announced length is exact. *)

From S2P Require Import Prelude Bytes Channel Protobuf.
Local Open Scope Z_scope.

(** ** Descriptors *)

Inductive Label := LabelOptional | LabelRequired | LabelRepeated.
#[export] Instance Label_eq_dec : EqDecision Label.
Proof. solve_decision. Defined.

Record FieldDescriptorProto := {
  fd_name : string;
  fd_number : Z;
  fd_label : Label;
  fd_type : FieldType;
  fd_type_name : option string
}.
Record EnumDescriptorProto := { ed_name : string; ed_value : list (string * Z) }.
Inductive DescriptorProto := MkDescriptor {
  d_name : string;
  d_field : list FieldDescriptorProto;
  d_enum_type : list EnumDescriptorProto;
  d_nested_type : list DescriptorProto
}.
Record FileDescriptorProto := {
  fp_name : option string;
  fp_package : option string;
  fp_dependency : list string;
  fp_message_type : list DescriptorProto;
  fp_enum_type : list EnumDescriptorProto;
  fp_syntax : option string
}.
Abbreviation FileDescriptorSet := (list FileDescriptorProto).

(** `prost`'s codec for file descriptor sets. *)
Class DescriptorCodec := {
  fds_encode_to_vec : FileDescriptorSet → list byte;
  fds_decode : list byte → option FileDescriptorSet
}.
Class DescriptorCodecLaws `{DescriptorCodec} : Prop := {
  fds_decode_encode : ∀ fds, fds_decode (fds_encode_to_vec fds) = Some fds
}.

(** The files that the build includes, by name. *)
Class IncludedFiles := { include_bytes : string → list byte }.

(** ** Names in a file descriptor set *)

(** The full name of a message at the top of a file. *)
Definition full_name (package name : string) : string := package +:+ "." +:+ name.
Definition defines (f : FileDescriptorProto) (name : string) (d : DescriptorProto) : Prop :=
  ∃ package, fp_package f = Some package ∧ d ∈ fp_message_type f ∧ name = full_name package (d_name d).
(** Some file defines the message that the field type [type_name] refers to by its
    absolute name, which starts with a dot. *)
Definition defined_in (fds : FileDescriptorSet) (type_name : string) : Prop :=
  ∃ f d name, f ∈ fds ∧ defines f name d ∧ type_name = ("." +:+ name)%string.

(** Each file comes after the files it depends on. *)
Fixpoint ordered_after (seen : list string) (fds : FileDescriptorSet) : Prop :=
  match fds with
  | [] => True
  | f :: fds => Forall (λ d, d ∈ seen) (fp_dependency f) ∧ ordered_after (option_list (fp_name f) ++ seen) fds
  end.
Definition dependencies_first : FileDescriptorSet → Prop := ordered_after [].

(** ** `schemas/descriptors.rs` *)

Module descriptors.
Section files.
Context `{IncludedFiles}.
Definition ARROW_PRIMITIVE : list byte := include_bytes "data/ArrowPrimitive.bin".
Definition CAMERA_CALIBRATION : list byte := include_bytes "data/CameraCalibration.bin".
Definition CIRCLE_ANNOTATION : list byte := include_bytes "data/CircleAnnotation.bin".
Definition COLOR : list byte := include_bytes "data/Color.bin".
Definition COMPRESSED_IMAGE : list byte := include_bytes "data/CompressedImage.bin".
Definition COMPRESSED_VIDEO : list byte := include_bytes "data/CompressedVideo.bin".
Definition CUBE_PRIMITIVE : list byte := include_bytes "data/CubePrimitive.bin".
Definition CYLINDER_PRIMITIVE : list byte := include_bytes "data/CylinderPrimitive.bin".
Definition DURATION : list byte := include_bytes "data/Duration.bin".
Definition FRAME_TRANSFORM : list byte := include_bytes "data/FrameTransform.bin".
Definition FRAME_TRANSFORMS : list byte := include_bytes "data/FrameTransforms.bin".
Definition GEO_JSON : list byte := include_bytes "data/GeoJSON.bin".
Definition GRID : list byte := include_bytes "data/Grid.bin".
Definition IMAGE_ANNOTATIONS : list byte := include_bytes "data/ImageAnnotations.bin".
Definition KEY_VALUE_PAIR : list byte := include_bytes "data/KeyValuePair.bin".
Definition LASER_SCAN : list byte := include_bytes "data/LaserScan.bin".
Definition LINE_PRIMITIVE : list byte := include_bytes "data/LinePrimitive.bin".
Definition LOCATION_FIX : list byte := include_bytes "data/LocationFix.bin".
Definition LOCATION_FIXES : list byte := include_bytes "data/LocationFixes.bin".
Definition LOG : list byte := include_bytes "data/Log.bin".
Definition MODEL_PRIMITIVE : list byte := include_bytes "data/ModelPrimitive.bin".
Definition PACKED_ELEMENT_FIELD : list byte := include_bytes "data/PackedElementField.bin".
Definition POINT2 : list byte := include_bytes "data/Point2.bin".
Definition POINT3 : list byte := include_bytes "data/Point3.bin".
Definition POINT3_IN_FRAME : list byte := include_bytes "data/Point3InFrame.bin".
Definition POINTS_ANNOTATION : list byte := include_bytes "data/PointsAnnotation.bin".
Definition POINT_CLOUD : list byte := include_bytes "data/PointCloud.bin".
Definition POSE : list byte := include_bytes "data/Pose.bin".
Definition POSES_IN_FRAME : list byte := include_bytes "data/PosesInFrame.bin".
Definition POSE_IN_FRAME : list byte := include_bytes "data/PoseInFrame.bin".
Definition QUATERNION : list byte := include_bytes "data/Quaternion.bin".
Definition RAW_AUDIO : list byte := include_bytes "data/RawAudio.bin".
Definition RAW_IMAGE : list byte := include_bytes "data/RawImage.bin".
Definition SCENE_ENTITY : list byte := include_bytes "data/SceneEntity.bin".
Definition SCENE_ENTITY_DELETION : list byte := include_bytes "data/SceneEntityDeletion.bin".
Definition SCENE_UPDATE : list byte := include_bytes "data/SceneUpdate.bin".
Definition SPHERE_PRIMITIVE : list byte := include_bytes "data/SpherePrimitive.bin".
Definition TEXT_ANNOTATION : list byte := include_bytes "data/TextAnnotation.bin".
Definition TEXT_PRIMITIVE : list byte := include_bytes "data/TextPrimitive.bin".
Definition TIMESTAMP : list byte := include_bytes "data/Timestamp.bin".
Definition TRIANGLE_LIST_PRIMITIVE : list byte := include_bytes "data/TriangleListPrimitive.bin".
Definition VECTOR2 : list byte := include_bytes "data/Vector2.bin".
Definition VECTOR3 : list byte := include_bytes "data/Vector3.bin".
Definition VOXEL_GRID : list byte := include_bytes "data/VoxelGrid.bin".
End files.
End descriptors.

(** ** The implementations of `schemas/impls.rs` *)

(** `prost::Message`: writing the fields, their length, and reading them. *)
Class ProstMessage (T : Type) := {
  encode_raw : T → list byte → list byte;
  message_encoded_len : T → nat;
  message_encode : nat → T → list byte → result unit (list byte);
  message_decode : list byte → result unit T
}.
Class ProstMessageLaws (T : Type) `{ProstMessage T} : Prop := {
  encode_raw_spec : ∀ x buf, encode_raw x buf = buf ++ encode_raw x [];
  message_encoded_len_spec : ∀ x, message_encoded_len x = length (encode_raw x []);
  (** [encode] checks the space that remains in the buffer. *)
  message_encode_spec : ∀ remaining x buf, message_encode remaining x buf =
    if bool_decide (message_encoded_len x ≤ remaining)%nat then Ok (encode_raw x buf) else Err tt;
  message_decode_spec : ∀ x, message_decode (encode_raw x []) = Ok x
}.

(** The generated structs, by their names in Rust. *)
Class Generated := {
  Message : string → Type;
  #[global] Message_prost n :: ProstMessage (Message n)
}.
Class GeneratedLaws `{Generated} : Prop := {
  #[global] Message_laws n :: ProstMessageLaws (Message n)
}.

(** What the implementations for a struct say. *)
Record GeneratedType := {
  gt_name : string;
  gt_schema : Schema;
  gt_type_name : string;
  gt_descriptor : list byte
}.
(** The shape that all of them have. *)
Definition generated (name schema_name type_name : string) (descriptor : list byte) : GeneratedType :=
  {| gt_name := name;
     gt_schema := {| sch_name := schema_name; sch_encoding := "protobuf"; sch_data := descriptor |};
     gt_type_name := type_name; gt_descriptor := descriptor |}.

Module schemas.
Section impls.
Context `{IncludedFiles}.
Definition ArrowPrimitive : GeneratedType :=
  generated "ArrowPrimitive" "foxglove.ArrowPrimitive" ".foxglove.ArrowPrimitive" descriptors.ARROW_PRIMITIVE.
Definition CameraCalibration : GeneratedType :=
  generated "CameraCalibration" "foxglove.CameraCalibration" ".foxglove.CameraCalibration" descriptors.CAMERA_CALIBRATION.
Definition CircleAnnotation : GeneratedType :=
  generated "CircleAnnotation" "foxglove.CircleAnnotation" ".foxglove.CircleAnnotation" descriptors.CIRCLE_ANNOTATION.
Definition Color : GeneratedType :=
  generated "Color" "foxglove.Color" ".foxglove.Color" descriptors.COLOR.
Definition CompressedImage : GeneratedType :=
  generated "CompressedImage" "foxglove.CompressedImage" ".foxglove.CompressedImage" descriptors.COMPRESSED_IMAGE.
Definition CompressedVideo : GeneratedType :=
  generated "CompressedVideo" "foxglove.CompressedVideo" ".foxglove.CompressedVideo" descriptors.COMPRESSED_VIDEO.
Definition CubePrimitive : GeneratedType :=
  generated "CubePrimitive" "foxglove.CubePrimitive" ".foxglove.CubePrimitive" descriptors.CUBE_PRIMITIVE.
Definition CylinderPrimitive : GeneratedType :=
  generated "CylinderPrimitive" "foxglove.CylinderPrimitive" ".foxglove.CylinderPrimitive" descriptors.CYLINDER_PRIMITIVE.
Definition FrameTransform : GeneratedType :=
  generated "FrameTransform" "foxglove.FrameTransform" ".foxglove.FrameTransform" descriptors.FRAME_TRANSFORM.
Definition FrameTransforms : GeneratedType :=
  generated "FrameTransforms" "foxglove.FrameTransforms" ".foxglove.FrameTransforms" descriptors.FRAME_TRANSFORMS.
Definition GeoJson : GeneratedType :=
  generated "GeoJson" "foxglove.GeoJSON" ".foxglove.GeoJSON" descriptors.GEO_JSON.
Definition Grid : GeneratedType :=
  generated "Grid" "foxglove.Grid" ".foxglove.Grid" descriptors.GRID.
Definition ImageAnnotations : GeneratedType :=
  generated "ImageAnnotations" "foxglove.ImageAnnotations" ".foxglove.ImageAnnotations" descriptors.IMAGE_ANNOTATIONS.
Definition KeyValuePair : GeneratedType :=
  generated "KeyValuePair" "foxglove.KeyValuePair" ".foxglove.KeyValuePair" descriptors.KEY_VALUE_PAIR.
Definition LaserScan : GeneratedType :=
  generated "LaserScan" "foxglove.LaserScan" ".foxglove.LaserScan" descriptors.LASER_SCAN.
Definition LinePrimitive : GeneratedType :=
  generated "LinePrimitive" "foxglove.LinePrimitive" ".foxglove.LinePrimitive" descriptors.LINE_PRIMITIVE.
Definition LocationFix : GeneratedType :=
  generated "LocationFix" "foxglove.LocationFix" ".foxglove.LocationFix" descriptors.LOCATION_FIX.
Definition LocationFixes : GeneratedType :=
  generated "LocationFixes" "foxglove.LocationFixes" ".foxglove.LocationFixes" descriptors.LOCATION_FIXES.
Definition Log : GeneratedType :=
  generated "Log" "foxglove.Log" ".foxglove.Log" descriptors.LOG.
Definition ModelPrimitive : GeneratedType :=
  generated "ModelPrimitive" "foxglove.ModelPrimitive" ".foxglove.ModelPrimitive" descriptors.MODEL_PRIMITIVE.
Definition PackedElementField : GeneratedType :=
  generated "PackedElementField" "foxglove.PackedElementField" ".foxglove.PackedElementField" descriptors.PACKED_ELEMENT_FIELD.
Definition Point2 : GeneratedType :=
  generated "Point2" "foxglove.Point2" ".foxglove.Point2" descriptors.POINT2.
Definition Point3 : GeneratedType :=
  generated "Point3" "foxglove.Point3" ".foxglove.Point3" descriptors.POINT3.
Definition Point3InFrame : GeneratedType :=
  generated "Point3InFrame" "foxglove.Point3InFrame" ".foxglove.Point3InFrame" descriptors.POINT3_IN_FRAME.
Definition PointCloud : GeneratedType :=
  generated "PointCloud" "foxglove.PointCloud" ".foxglove.PointCloud" descriptors.POINT_CLOUD.
Definition PointsAnnotation : GeneratedType :=
  generated "PointsAnnotation" "foxglove.PointsAnnotation" ".foxglove.PointsAnnotation" descriptors.POINTS_ANNOTATION.
Definition Pose : GeneratedType :=
  generated "Pose" "foxglove.Pose" ".foxglove.Pose" descriptors.POSE.
Definition PoseInFrame : GeneratedType :=
  generated "PoseInFrame" "foxglove.PoseInFrame" ".foxglove.PoseInFrame" descriptors.POSE_IN_FRAME.
Definition PosesInFrame : GeneratedType :=
  generated "PosesInFrame" "foxglove.PosesInFrame" ".foxglove.PosesInFrame" descriptors.POSES_IN_FRAME.
Definition Quaternion : GeneratedType :=
  generated "Quaternion" "foxglove.Quaternion" ".foxglove.Quaternion" descriptors.QUATERNION.
Definition RawAudio : GeneratedType :=
  generated "RawAudio" "foxglove.RawAudio" ".foxglove.RawAudio" descriptors.RAW_AUDIO.
Definition RawImage : GeneratedType :=
  generated "RawImage" "foxglove.RawImage" ".foxglove.RawImage" descriptors.RAW_IMAGE.
Definition SceneEntity : GeneratedType :=
  generated "SceneEntity" "foxglove.SceneEntity" ".foxglove.SceneEntity" descriptors.SCENE_ENTITY.
Definition SceneEntityDeletion : GeneratedType :=
  generated "SceneEntityDeletion" "foxglove.SceneEntityDeletion" ".foxglove.SceneEntityDeletion" descriptors.SCENE_ENTITY_DELETION.
Definition SceneUpdate : GeneratedType :=
  generated "SceneUpdate" "foxglove.SceneUpdate" ".foxglove.SceneUpdate" descriptors.SCENE_UPDATE.
Definition SpherePrimitive : GeneratedType :=
  generated "SpherePrimitive" "foxglove.SpherePrimitive" ".foxglove.SpherePrimitive" descriptors.SPHERE_PRIMITIVE.
Definition TextAnnotation : GeneratedType :=
  generated "TextAnnotation" "foxglove.TextAnnotation" ".foxglove.TextAnnotation" descriptors.TEXT_ANNOTATION.
Definition TextPrimitive : GeneratedType :=
  generated "TextPrimitive" "foxglove.TextPrimitive" ".foxglove.TextPrimitive" descriptors.TEXT_PRIMITIVE.
Definition TriangleListPrimitive : GeneratedType :=
  generated "TriangleListPrimitive" "foxglove.TriangleListPrimitive" ".foxglove.TriangleListPrimitive" descriptors.TRIANGLE_LIST_PRIMITIVE.
Definition Vector2 : GeneratedType :=
  generated "Vector2" "foxglove.Vector2" ".foxglove.Vector2" descriptors.VECTOR2.
Definition Vector3 : GeneratedType :=
  generated "Vector3" "foxglove.Vector3" ".foxglove.Vector3" descriptors.VECTOR3.
Definition VoxelGrid : GeneratedType :=
  generated "VoxelGrid" "foxglove.VoxelGrid" ".foxglove.VoxelGrid" descriptors.VOXEL_GRID.
Definition all : list GeneratedType :=
  [ArrowPrimitive; CameraCalibration; CircleAnnotation; Color; CompressedImage;
   CompressedVideo; CubePrimitive; CylinderPrimitive; FrameTransform; FrameTransforms;
   GeoJson; Grid; ImageAnnotations; KeyValuePair; LaserScan; LinePrimitive; LocationFix;
   LocationFixes; Log; ModelPrimitive; PackedElementField; Point2; Point3; Point3InFrame;
   PointCloud; PointsAnnotation; Pose; PoseInFrame; PosesInFrame; Quaternion; RawAudio;
   RawImage; SceneEntity; SceneEntityDeletion; SceneUpdate; SpherePrimitive; TextAnnotation;
   TextPrimitive; TriangleListPrimitive; Vector2; Vector3; VoxelGrid].
End impls.
End schemas.

Section impls.
Context `{Prost} `{Buf} `{Generated} `{DescriptorCodec} `{IncludedFiles}.

Definition generated_get_schema (g : GeneratedType) : option Schema := Some (gt_schema g).
Definition generated_message_encoding (g : GeneratedType) : string := "protobuf".
Definition generated_encode (g : GeneratedType) (remaining : nat) (x : Message (gt_name g)) (buf : list byte) :
    result unit (list byte) := message_encode remaining x buf.
Definition generated_encoded_len (g : GeneratedType) (x : Message (gt_name g)) : option nat :=
  Some (message_encoded_len x).
Definition generated_decode (g : GeneratedType) (buf : list byte) : result unit (Message (gt_name g)) :=
  message_decode buf.

(** [ProtobufField] for a generated type. *)
Definition generated_field (g : GeneratedType) : ProtobufField (Message (gt_name g)) :=
  scalar FtMessage LengthDelimited
    (λ x buf, Some (encode_raw x (encode_varint (Z.of_nat (message_encoded_len x)) buf)))
    (λ x, encoded_len_varint (Z.of_nat (message_encoded_len x)) + message_encoded_len x)%nat.
(** [expect]s that the included descriptors decode. *)
Definition generated_file_descriptors (g : GeneratedType) : option FileDescriptorSet :=
  fds_decode (gt_descriptor g).
End impls.

(** ** What the included descriptors say *)

(** The descriptors that the library includes, with the type that each is for. *)
Definition described `{IncludedFiles} : list (list byte * string) :=
  (descriptors.TIMESTAMP, ".google.protobuf.Timestamp"%string) ::
  (descriptors.DURATION, ".google.protobuf.Duration"%string) ::
  ((λ g, (gt_descriptor g, gt_type_name g)) <$> schemas.all).

Definition SLASH : byte := val_byte 47.
Definition names_path (f : FileDescriptorProto) : Prop :=
  ∃ name, fp_name f = Some name ∧ SLASH ∈ as_bytes name.

(** Each is complete and in order, and they agree on the files that they share. *)
Class IncludedLaws `{DescriptorCodec} `{IncludedFiles} : Prop := {
  included_complete : ∀ bs name, (bs, name) ∈ described →
    ∃ fds, fds_decode bs = Some fds ∧ dependencies_first fds ∧ defined_in fds name ∧
           Forall names_path fds;
  included_agree : ∀ bs1 n1 fds1 f1 bs2 n2 fds2 f2,
    (bs1, n1) ∈ described → fds_decode bs1 = Some fds1 → f1 ∈ fds1 →
    (bs2, n2) ∈ described → fds_decode bs2 = Some fds2 → f2 ∈ fds2 →
    fp_name f1 = fp_name f2 → f1 = f2;
  included_wkt : ∀ bs, bs ∈ [descriptors.TIMESTAMP; descriptors.DURATION] →
    ∃ f, fds_decode bs = Some [f]
}.

(** ** Properties *)

Section properties.
Context `{ProstLaws} `{BufLaws} `{GeneratedLaws}.

Definition generated_valid (g : GeneratedType) (x : Message (gt_name g)) : Prop :=
  fits 64 (Z.of_nat (length (encode_raw x []))).

Definition generated_spec (g : GeneratedType) : FieldSpec _ (generated_field g).
Proof.
  apply (scalar_spec _ _ _ _ (λ x, PLen (encode_raw x [])) (generated_valid g)); [done|done|done|].
  intros x buf Hx. rewrite encode_raw_spec, message_encoded_len_spec, encode_varint_spec by done.
  cbn. by rewrite app_assoc.
Defined.
Lemma generated_len (g : GeneratedType) : @LenSpec _ _ (generated_spec g).
Proof.
  apply scalar_len. intros x Hx. rewrite message_encoded_len_spec, encoded_len_varint_spec by done.
  cbn. by rewrite length_app.
Qed.

(** A message of a generated type, logged and read back: encoding fails exactly
    if the buffer is smaller than the announced length, which is exact; the
    bytes decode to the message; and as a field the message is one record with
    these bytes. *)
Theorem generated_roundtrip (g : GeneratedType) (x : Message (gt_name g)) remaining buf n :
  generated_valid g x → field_number n →
  ∃ bs, generated_encoded_len g x = Some (length bs) ∧
    generated_encode g remaining x buf =
      (if bool_decide (length bs ≤ remaining)%nat then Ok (buf ++ bs) else Err tt) ∧
    generated_decode g bs = Ok x ∧
    ∃ field, write_tagged (ProtobufField := generated_field g) n x buf = Some (buf ++ field) ∧
      length field = encoded_len_tagged (ProtobufField := generated_field g) n x ∧
      parse_records field = Some [(n, PLen bs)].
Proof.
  intros Hx Hn. exists (encode_raw x []). split_and!.
  - unfold generated_encoded_len. by rewrite message_encoded_len_spec.
  - unfold generated_encode. rewrite message_encode_spec, message_encoded_len_spec.
    by rewrite (encode_raw_spec x buf).
  - apply message_decode_spec.
  - exists (encode_records (@field_records _ _ (generated_spec g) n x)). split_and!.
    + by rewrite (@spec_write _ _ (generated_spec g)).
    + by rewrite (@spec_len _ _ (generated_spec g) (generated_len g)).
    + apply parse_records_encode. by apply (@spec_valid _ _ (generated_spec g)).
Qed.
End properties.

(** All implementations are for different types, publish schemas of different
    names, and name the same message in the schema and as a field. *)
Lemma schemas_distinct `{IncludedFiles} :
  NoDup (gt_name <$> schemas.all) ∧ NoDup ((λ g, sch_name (gt_schema g)) <$> schemas.all) ∧
  Forall (λ g, gt_type_name g = ("." +:+ sch_name (gt_schema g))%string ∧
               sch_data (gt_schema g) = gt_descriptor g) schemas.all.
Proof.
  split_and!; [|..].
  1,2: apply (bool_decide_unpack _); vm_compute; exact I.
  unfold schemas.all. repeat (constructor; [done|]). constructor.
Qed.
