(* ===== verification/DescriptorData.v ===== *)
(** * DescriptorData: the descriptors that the library includes

    The contents of `schemas/data/*.bin`: the file descriptors of the Foxglove
    schemas and of the two well-known types, with the fields that Descriptor.v
    models, and which of them each included file holds.  What Derive.v's
    theorems rely on ([IncludedLaws]) is checked on these data by evaluation.

    The bytes of the files are `prost`'s; here they are those of a codec of our
    own, built from stdpp's encoding of countable types. *)

From stdpp Require Import countable.
From S2P Require Import Prelude Bytes Channel Protobuf Descriptor.
Local Open Scope Z_scope.

(** ** The data *)

Definition field (f : string * Z * Label * FieldType * option string) : FieldDescriptorProto :=
  let '(name, number, label, type, type_name) := f in
  {| fd_name := name; fd_number := number; fd_label := label; fd_type := type; fd_type_name := type_name |}.
Definition enum (name : string) (values : list (string * Z)) : EnumDescriptorProto :=
  {| ed_name := name; ed_value := values |}.
(** All files have one message and are in the syntax of proto3. *)
Definition file (name package : string) (dependencies : list string) (message : string)
    (fields : list (string * Z * Label * FieldType * option string))
    (enums : list EnumDescriptorProto) : FileDescriptorProto :=
  {| fp_name := Some name; fp_package := Some package; fp_dependency := dependencies;
     fp_message_type := [MkDescriptor message (field <$> fields) enums []];
     fp_enum_type := []; fp_syntax := Some "proto3"%string |}.

Local Open Scope string_scope.
Local Open Scope Z_scope.
Definition ArrowPrimitive_file : FileDescriptorProto :=
  file "foxglove/ArrowPrimitive.proto" "foxglove"
    ["foxglove/Color.proto"; "foxglove/Pose.proto"]
    "ArrowPrimitive"
    [("pose", 1, LabelOptional, FtMessage, Some ".foxglove.Pose");
     ("shaft_length", 2, LabelOptional, FtDouble, None);
     ("shaft_diameter", 3, LabelOptional, FtDouble, None);
     ("head_length", 4, LabelOptional, FtDouble, None);
     ("head_diameter", 5, LabelOptional, FtDouble, None);
     ("color", 6, LabelOptional, FtMessage, Some ".foxglove.Color")]
    [].
Definition CameraCalibration_file : FileDescriptorProto :=
  file "foxglove/CameraCalibration.proto" "foxglove"
    ["google/protobuf/timestamp.proto"]
    "CameraCalibration"
    [("timestamp", 1, LabelOptional, FtMessage, Some ".google.protobuf.Timestamp");
     ("frame_id", 9, LabelOptional, FtString, None);
     ("width", 2, LabelOptional, FtFixed32, None);
     ("height", 3, LabelOptional, FtFixed32, None);
     ("distortion_model", 4, LabelOptional, FtString, None);
     ("D", 5, LabelRepeated, FtDouble, None); ("K", 6, LabelRepeated, FtDouble, None);
     ("R", 7, LabelRepeated, FtDouble, None); ("P", 8, LabelRepeated, FtDouble, None)]
    [].
Definition CircleAnnotation_file : FileDescriptorProto :=
  file "foxglove/CircleAnnotation.proto" "foxglove"
    ["foxglove/Color.proto"; "foxglove/Point2.proto"; "google/protobuf/timestamp.proto"]
    "CircleAnnotation"
    [("timestamp", 1, LabelOptional, FtMessage, Some ".google.protobuf.Timestamp");
     ("position", 2, LabelOptional, FtMessage, Some ".foxglove.Point2");
     ("diameter", 3, LabelOptional, FtDouble, None);
     ("thickness", 4, LabelOptional, FtDouble, None);
     ("fill_color", 5, LabelOptional, FtMessage, Some ".foxglove.Color");
     ("outline_color", 6, LabelOptional, FtMessage, Some ".foxglove.Color")]
    [].
Definition Color_file : FileDescriptorProto :=
  file "foxglove/Color.proto" "foxglove"
    []
    "Color"
    [("r", 1, LabelOptional, FtDouble, None); ("g", 2, LabelOptional, FtDouble, None);
     ("b", 3, LabelOptional, FtDouble, None); ("a", 4, LabelOptional, FtDouble, None)]
    [].
Definition CompressedImage_file : FileDescriptorProto :=
  file "foxglove/CompressedImage.proto" "foxglove"
    ["google/protobuf/timestamp.proto"]
    "CompressedImage"
    [("timestamp", 1, LabelOptional, FtMessage, Some ".google.protobuf.Timestamp");
     ("frame_id", 4, LabelOptional, FtString, None); ("data", 2, LabelOptional, FtBytes, None);
     ("format", 3, LabelOptional, FtString, None)]
    [].
Definition CompressedVideo_file : FileDescriptorProto :=
  file "foxglove/CompressedVideo.proto" "foxglove"
    ["google/protobuf/timestamp.proto"]
    "CompressedVideo"
    [("timestamp", 1, LabelOptional, FtMessage, Some ".google.protobuf.Timestamp");
     ("frame_id", 2, LabelOptional, FtString, None); ("data", 3, LabelOptional, FtBytes, None);
     ("format", 4, LabelOptional, FtString, None)]
    [].
Definition CubePrimitive_file : FileDescriptorProto :=
  file "foxglove/CubePrimitive.proto" "foxglove"
    ["foxglove/Color.proto"; "foxglove/Pose.proto"; "foxglove/Vector3.proto"]
    "CubePrimitive"
    [("pose", 1, LabelOptional, FtMessage, Some ".foxglove.Pose");
     ("size", 2, LabelOptional, FtMessage, Some ".foxglove.Vector3");
     ("color", 3, LabelOptional, FtMessage, Some ".foxglove.Color")]
    [].
Definition CylinderPrimitive_file : FileDescriptorProto :=
  file "foxglove/CylinderPrimitive.proto" "foxglove"
    ["foxglove/Color.proto"; "foxglove/Pose.proto"; "foxglove/Vector3.proto"]
    "CylinderPrimitive"
    [("pose", 1, LabelOptional, FtMessage, Some ".foxglove.Pose");
     ("size", 2, LabelOptional, FtMessage, Some ".foxglove.Vector3");
     ("bottom_scale", 3, LabelOptional, FtDouble, None);
     ("top_scale", 4, LabelOptional, FtDouble, None);
     ("color", 5, LabelOptional, FtMessage, Some ".foxglove.Color")]
    [].
Definition FrameTransform_file : FileDescriptorProto :=
  file "foxglove/FrameTransform.proto" "foxglove"
    ["foxglove/Quaternion.proto"; "foxglove/Vector3.proto"; "google/protobuf/timestamp.proto"]
    "FrameTransform"
    [("timestamp", 1, LabelOptional, FtMessage, Some ".google.protobuf.Timestamp");
     ("parent_frame_id", 2, LabelOptional, FtString, None);
     ("child_frame_id", 3, LabelOptional, FtString, None);
     ("translation", 4, LabelOptional, FtMessage, Some ".foxglove.Vector3");
     ("rotation", 5, LabelOptional, FtMessage, Some ".foxglove.Quaternion")]
    [].
Definition FrameTransforms_file : FileDescriptorProto :=
  file "foxglove/FrameTransforms.proto" "foxglove"
    ["foxglove/FrameTransform.proto"]
    "FrameTransforms"
    [("transforms", 1, LabelRepeated, FtMessage, Some ".foxglove.FrameTransform")]
    [].
Definition GeoJSON_file : FileDescriptorProto :=
  file "foxglove/GeoJSON.proto" "foxglove"
    []
    "GeoJSON"
    [("geojson", 1, LabelOptional, FtString, None)]
    [].
Definition Grid_file : FileDescriptorProto :=
  file "foxglove/Grid.proto" "foxglove"
    ["foxglove/PackedElementField.proto"; "foxglove/Pose.proto"; "foxglove/Vector2.proto";
     "google/protobuf/timestamp.proto"]
    "Grid"
    [("timestamp", 1, LabelOptional, FtMessage, Some ".google.protobuf.Timestamp");
     ("frame_id", 2, LabelOptional, FtString, None);
     ("pose", 3, LabelOptional, FtMessage, Some ".foxglove.Pose");
     ("column_count", 4, LabelOptional, FtFixed32, None);
     ("cell_size", 5, LabelOptional, FtMessage, Some ".foxglove.Vector2");
     ("row_stride", 6, LabelOptional, FtFixed32, None);
     ("cell_stride", 7, LabelOptional, FtFixed32, None);
     ("fields", 8, LabelRepeated, FtMessage, Some ".foxglove.PackedElementField");
     ("data", 9, LabelOptional, FtBytes, None)]
    [].
Definition ImageAnnotations_file : FileDescriptorProto :=
  file "foxglove/ImageAnnotations.proto" "foxglove"
    ["foxglove/CircleAnnotation.proto"; "foxglove/PointsAnnotation.proto";
     "foxglove/TextAnnotation.proto"]
    "ImageAnnotations"
    [("circles", 1, LabelRepeated, FtMessage, Some ".foxglove.CircleAnnotation");
     ("points", 2, LabelRepeated, FtMessage, Some ".foxglove.PointsAnnotation");
     ("texts", 3, LabelRepeated, FtMessage, Some ".foxglove.TextAnnotation")]
    [].
Definition KeyValuePair_file : FileDescriptorProto :=
  file "foxglove/KeyValuePair.proto" "foxglove"
    []
    "KeyValuePair"
    [("key", 1, LabelOptional, FtString, None); ("value", 2, LabelOptional, FtString, None)]
    [].
Definition LaserScan_file : FileDescriptorProto :=
  file "foxglove/LaserScan.proto" "foxglove"
    ["foxglove/Pose.proto"; "google/protobuf/timestamp.proto"]
    "LaserScan"
    [("timestamp", 1, LabelOptional, FtMessage, Some ".google.protobuf.Timestamp");
     ("frame_id", 2, LabelOptional, FtString, None);
     ("pose", 3, LabelOptional, FtMessage, Some ".foxglove.Pose");
     ("start_angle", 4, LabelOptional, FtDouble, None);
     ("end_angle", 5, LabelOptional, FtDouble, None);
     ("ranges", 6, LabelRepeated, FtDouble, None);
     ("intensities", 7, LabelRepeated, FtDouble, None)]
    [].
Definition LinePrimitive_file : FileDescriptorProto :=
  file "foxglove/LinePrimitive.proto" "foxglove"
    ["foxglove/Color.proto"; "foxglove/Point3.proto"; "foxglove/Pose.proto"]
    "LinePrimitive"
    [("type", 1, LabelOptional, FtEnum, Some ".foxglove.LinePrimitive.Type");
     ("pose", 2, LabelOptional, FtMessage, Some ".foxglove.Pose");
     ("thickness", 3, LabelOptional, FtDouble, None);
     ("scale_invariant", 4, LabelOptional, FtBool, None);
     ("points", 5, LabelRepeated, FtMessage, Some ".foxglove.Point3");
     ("color", 6, LabelOptional, FtMessage, Some ".foxglove.Color");
     ("colors", 7, LabelRepeated, FtMessage, Some ".foxglove.Color");
     ("indices", 8, LabelRepeated, FtFixed32, None)]
    [enum "Type" [("LINE_STRIP", 0); ("LINE_LOOP", 1); ("LINE_LIST", 2)]].
Definition LocationFix_file : FileDescriptorProto :=
  file "foxglove/LocationFix.proto" "foxglove"
    ["foxglove/Color.proto"; "google/protobuf/timestamp.proto"]
    "LocationFix"
    [("timestamp", 6, LabelOptional, FtMessage, Some ".google.protobuf.Timestamp");
     ("frame_id", 7, LabelOptional, FtString, None);
     ("latitude", 1, LabelOptional, FtDouble, None);
     ("longitude", 2, LabelOptional, FtDouble, None);
     ("altitude", 3, LabelOptional, FtDouble, None);
     ("position_covariance", 4, LabelRepeated, FtDouble, None);
     ("position_covariance_type", 5, LabelOptional, FtEnum, Some ".foxglove.LocationFix.PositionCovarianceType");
     ("color", 8, LabelOptional, FtMessage, Some ".foxglove.Color")]
    [
     enum "PositionCovarianceType" [("UNKNOWN", 0); ("APPROXIMATED", 1); ("DIAGONAL_KNOWN", 2); ("KNOWN", 3)]].
Definition LocationFixes_file : FileDescriptorProto :=
  file "foxglove/LocationFixes.proto" "foxglove"
    ["foxglove/LocationFix.proto"]
    "LocationFixes"
    [("fixes", 1, LabelRepeated, FtMessage, Some ".foxglove.LocationFix")]
    [].
Definition Log_file : FileDescriptorProto :=
  file "foxglove/Log.proto" "foxglove"
    ["google/protobuf/timestamp.proto"]
    "Log"
    [("timestamp", 1, LabelOptional, FtMessage, Some ".google.protobuf.Timestamp");
     ("level", 2, LabelOptional, FtEnum, Some ".foxglove.Log.Level");
     ("message", 3, LabelOptional, FtString, None); ("name", 4, LabelOptional, FtString, None);
     ("file", 5, LabelOptional, FtString, None); ("line", 6, LabelOptional, FtFixed32, None)]
    [
     enum "Level" [("UNKNOWN", 0); ("DEBUG", 1); ("INFO", 2); ("WARNING", 3); ("ERROR", 4); ("FATAL", 5)]].
Definition ModelPrimitive_file : FileDescriptorProto :=
  file "foxglove/ModelPrimitive.proto" "foxglove"
    ["foxglove/Color.proto"; "foxglove/Pose.proto"; "foxglove/Vector3.proto"]
    "ModelPrimitive"
    [("pose", 1, LabelOptional, FtMessage, Some ".foxglove.Pose");
     ("scale", 2, LabelOptional, FtMessage, Some ".foxglove.Vector3");
     ("color", 3, LabelOptional, FtMessage, Some ".foxglove.Color");
     ("override_color", 4, LabelOptional, FtBool, None);
     ("url", 5, LabelOptional, FtString, None);
     ("media_type", 6, LabelOptional, FtString, None);
     ("data", 7, LabelOptional, FtBytes, None)]
    [].
Definition PackedElementField_file : FileDescriptorProto :=
  file "foxglove/PackedElementField.proto" "foxglove"
    []
    "PackedElementField"
    [("name", 1, LabelOptional, FtString, None); ("offset", 2, LabelOptional, FtFixed32, None);
     ("type", 3, LabelOptional, FtEnum, Some ".foxglove.PackedElementField.NumericType")]
    [
     enum "NumericType" [("UNKNOWN", 0); ("UINT8", 1); ("INT8", 2); ("UINT16", 3); ("INT16", 4); ("UINT32", 5); ("INT32", 6); ("FLOAT32", 7); ("FLOAT64", 8)]].
Definition Point2_file : FileDescriptorProto :=
  file "foxglove/Point2.proto" "foxglove"
    []
    "Point2"
    [("x", 1, LabelOptional, FtDouble, None); ("y", 2, LabelOptional, FtDouble, None)]
    [].
Definition Point3_file : FileDescriptorProto :=
  file "foxglove/Point3.proto" "foxglove"
    []
    "Point3"
    [("x", 1, LabelOptional, FtDouble, None); ("y", 2, LabelOptional, FtDouble, None);
     ("z", 3, LabelOptional, FtDouble, None)]
    [].
Definition Point3InFrame_file : FileDescriptorProto :=
  file "foxglove/Point3InFrame.proto" "foxglove"
    ["foxglove/Point3.proto"; "google/protobuf/timestamp.proto"]
    "Point3InFrame"
    [("timestamp", 1, LabelOptional, FtMessage, Some ".google.protobuf.Timestamp");
     ("frame_id", 2, LabelOptional, FtString, None);
     ("point", 3, LabelOptional, FtMessage, Some ".foxglove.Point3")]
    [].
Definition PointCloud_file : FileDescriptorProto :=
  file "foxglove/PointCloud.proto" "foxglove"
    ["foxglove/PackedElementField.proto"; "foxglove/Pose.proto";
     "google/protobuf/timestamp.proto"]
    "PointCloud"
    [("timestamp", 1, LabelOptional, FtMessage, Some ".google.protobuf.Timestamp");
     ("frame_id", 2, LabelOptional, FtString, None);
     ("pose", 3, LabelOptional, FtMessage, Some ".foxglove.Pose");
     ("point_stride", 4, LabelOptional, FtFixed32, None);
     ("fields", 5, LabelRepeated, FtMessage, Some ".foxglove.PackedElementField");
     ("data", 6, LabelOptional, FtBytes, None)]
    [].
Definition PointsAnnotation_file : FileDescriptorProto :=
  file "foxglove/PointsAnnotation.proto" "foxglove"
    ["foxglove/Color.proto"; "foxglove/Point2.proto"; "google/protobuf/timestamp.proto"]
    "PointsAnnotation"
    [("timestamp", 1, LabelOptional, FtMessage, Some ".google.protobuf.Timestamp");
     ("type", 2, LabelOptional, FtEnum, Some ".foxglove.PointsAnnotation.Type");
     ("points", 3, LabelRepeated, FtMessage, Some ".foxglove.Point2");
     ("outline_color", 4, LabelOptional, FtMessage, Some ".foxglove.Color");
     ("outline_colors", 5, LabelRepeated, FtMessage, Some ".foxglove.Color");
     ("fill_color", 6, LabelOptional, FtMessage, Some ".foxglove.Color");
     ("thickness", 7, LabelOptional, FtDouble, None)]
    [
     enum "Type" [("UNKNOWN", 0); ("POINTS", 1); ("LINE_LOOP", 2); ("LINE_STRIP", 3); ("LINE_LIST", 4)]].
Definition Pose_file : FileDescriptorProto :=
  file "foxglove/Pose.proto" "foxglove"
    ["foxglove/Quaternion.proto"; "foxglove/Vector3.proto"]
    "Pose"
    [("position", 1, LabelOptional, FtMessage, Some ".foxglove.Vector3");
     ("orientation", 2, LabelOptional, FtMessage, Some ".foxglove.Quaternion")]
    [].
Definition PoseInFrame_file : FileDescriptorProto :=
  file "foxglove/PoseInFrame.proto" "foxglove"
    ["foxglove/Pose.proto"; "google/protobuf/timestamp.proto"]
    "PoseInFrame"
    [("timestamp", 1, LabelOptional, FtMessage, Some ".google.protobuf.Timestamp");
     ("frame_id", 2, LabelOptional, FtString, None);
     ("pose", 3, LabelOptional, FtMessage, Some ".foxglove.Pose")]
    [].
Definition PosesInFrame_file : FileDescriptorProto :=
  file "foxglove/PosesInFrame.proto" "foxglove"
    ["foxglove/Pose.proto"; "google/protobuf/timestamp.proto"]
    "PosesInFrame"
    [("timestamp", 1, LabelOptional, FtMessage, Some ".google.protobuf.Timestamp");
     ("frame_id", 2, LabelOptional, FtString, None);
     ("poses", 3, LabelRepeated, FtMessage, Some ".foxglove.Pose")]
    [].
Definition Quaternion_file : FileDescriptorProto :=
  file "foxglove/Quaternion.proto" "foxglove"
    []
    "Quaternion"
    [("x", 1, LabelOptional, FtDouble, None); ("y", 2, LabelOptional, FtDouble, None);
     ("z", 3, LabelOptional, FtDouble, None); ("w", 4, LabelOptional, FtDouble, None)]
    [].
Definition RawAudio_file : FileDescriptorProto :=
  file "foxglove/RawAudio.proto" "foxglove"
    ["google/protobuf/timestamp.proto"]
    "RawAudio"
    [("timestamp", 1, LabelOptional, FtMessage, Some ".google.protobuf.Timestamp");
     ("data", 2, LabelOptional, FtBytes, None); ("format", 3, LabelOptional, FtString, None);
     ("sample_rate", 4, LabelOptional, FtFixed32, None);
     ("number_of_channels", 5, LabelOptional, FtFixed32, None)]
    [].
Definition RawImage_file : FileDescriptorProto :=
  file "foxglove/RawImage.proto" "foxglove"
    ["google/protobuf/timestamp.proto"]
    "RawImage"
    [("timestamp", 1, LabelOptional, FtMessage, Some ".google.protobuf.Timestamp");
     ("frame_id", 7, LabelOptional, FtString, None);
     ("width", 2, LabelOptional, FtFixed32, None);
     ("height", 3, LabelOptional, FtFixed32, None);
     ("encoding", 4, LabelOptional, FtString, None);
     ("step", 5, LabelOptional, FtFixed32, None); ("data", 6, LabelOptional, FtBytes, None)]
    [].
Definition SceneEntity_file : FileDescriptorProto :=
  file "foxglove/SceneEntity.proto" "foxglove"
    ["foxglove/ArrowPrimitive.proto"; "foxglove/CubePrimitive.proto";
     "foxglove/CylinderPrimitive.proto"; "foxglove/KeyValuePair.proto";
     "foxglove/LinePrimitive.proto"; "foxglove/ModelPrimitive.proto";
     "foxglove/SpherePrimitive.proto"; "foxglove/TextPrimitive.proto";
     "foxglove/TriangleListPrimitive.proto"; "google/protobuf/duration.proto";
     "google/protobuf/timestamp.proto"]
    "SceneEntity"
    [("timestamp", 1, LabelOptional, FtMessage, Some ".google.protobuf.Timestamp");
     ("frame_id", 2, LabelOptional, FtString, None); ("id", 3, LabelOptional, FtString, None);
     ("lifetime", 4, LabelOptional, FtMessage, Some ".google.protobuf.Duration");
     ("frame_locked", 5, LabelOptional, FtBool, None);
     ("metadata", 6, LabelRepeated, FtMessage, Some ".foxglove.KeyValuePair");
     ("arrows", 7, LabelRepeated, FtMessage, Some ".foxglove.ArrowPrimitive");
     ("cubes", 8, LabelRepeated, FtMessage, Some ".foxglove.CubePrimitive");
     ("spheres", 9, LabelRepeated, FtMessage, Some ".foxglove.SpherePrimitive");
     ("cylinders", 10, LabelRepeated, FtMessage, Some ".foxglove.CylinderPrimitive");
     ("lines", 11, LabelRepeated, FtMessage, Some ".foxglove.LinePrimitive");
     ("triangles", 12, LabelRepeated, FtMessage, Some ".foxglove.TriangleListPrimitive");
     ("texts", 13, LabelRepeated, FtMessage, Some ".foxglove.TextPrimitive");
     ("models", 14, LabelRepeated, FtMessage, Some ".foxglove.ModelPrimitive")]
    [].
Definition SceneEntityDeletion_file : FileDescriptorProto :=
  file "foxglove/SceneEntityDeletion.proto" "foxglove"
    ["google/protobuf/timestamp.proto"]
    "SceneEntityDeletion"
    [("timestamp", 1, LabelOptional, FtMessage, Some ".google.protobuf.Timestamp");
     ("type", 2, LabelOptional, FtEnum, Some ".foxglove.SceneEntityDeletion.Type");
     ("id", 3, LabelOptional, FtString, None)]
    [enum "Type" [("MATCHING_ID", 0); ("ALL", 1)]].
Definition SceneUpdate_file : FileDescriptorProto :=
  file "foxglove/SceneUpdate.proto" "foxglove"
    ["foxglove/SceneEntity.proto"; "foxglove/SceneEntityDeletion.proto"]
    "SceneUpdate"
    [("deletions", 1, LabelRepeated, FtMessage, Some ".foxglove.SceneEntityDeletion");
     ("entities", 2, LabelRepeated, FtMessage, Some ".foxglove.SceneEntity")]
    [].
Definition SpherePrimitive_file : FileDescriptorProto :=
  file "foxglove/SpherePrimitive.proto" "foxglove"
    ["foxglove/Color.proto"; "foxglove/Pose.proto"; "foxglove/Vector3.proto"]
    "SpherePrimitive"
    [("pose", 1, LabelOptional, FtMessage, Some ".foxglove.Pose");
     ("size", 2, LabelOptional, FtMessage, Some ".foxglove.Vector3");
     ("color", 3, LabelOptional, FtMessage, Some ".foxglove.Color")]
    [].
Definition TextAnnotation_file : FileDescriptorProto :=
  file "foxglove/TextAnnotation.proto" "foxglove"
    ["foxglove/Color.proto"; "foxglove/Point2.proto"; "google/protobuf/timestamp.proto"]
    "TextAnnotation"
    [("timestamp", 1, LabelOptional, FtMessage, Some ".google.protobuf.Timestamp");
     ("position", 2, LabelOptional, FtMessage, Some ".foxglove.Point2");
     ("text", 3, LabelOptional, FtString, None);
     ("font_size", 4, LabelOptional, FtDouble, None);
     ("text_color", 5, LabelOptional, FtMessage, Some ".foxglove.Color");
     ("background_color", 6, LabelOptional, FtMessage, Some ".foxglove.Color")]
    [].
Definition TextPrimitive_file : FileDescriptorProto :=
  file "foxglove/TextPrimitive.proto" "foxglove"
    ["foxglove/Color.proto"; "foxglove/Pose.proto"]
    "TextPrimitive"
    [("pose", 1, LabelOptional, FtMessage, Some ".foxglove.Pose");
     ("billboard", 2, LabelOptional, FtBool, None);
     ("font_size", 3, LabelOptional, FtDouble, None);
     ("scale_invariant", 4, LabelOptional, FtBool, None);
     ("color", 5, LabelOptional, FtMessage, Some ".foxglove.Color");
     ("text", 6, LabelOptional, FtString, None)]
    [].
Definition TriangleListPrimitive_file : FileDescriptorProto :=
  file "foxglove/TriangleListPrimitive.proto" "foxglove"
    ["foxglove/Color.proto"; "foxglove/Point3.proto"; "foxglove/Pose.proto"]
    "TriangleListPrimitive"
    [("pose", 1, LabelOptional, FtMessage, Some ".foxglove.Pose");
     ("points", 2, LabelRepeated, FtMessage, Some ".foxglove.Point3");
     ("color", 3, LabelOptional, FtMessage, Some ".foxglove.Color");
     ("colors", 4, LabelRepeated, FtMessage, Some ".foxglove.Color");
     ("indices", 5, LabelRepeated, FtFixed32, None)]
    [].
Definition Vector2_file : FileDescriptorProto :=
  file "foxglove/Vector2.proto" "foxglove"
    []
    "Vector2"
    [("x", 1, LabelOptional, FtDouble, None); ("y", 2, LabelOptional, FtDouble, None)]
    [].
Definition Vector3_file : FileDescriptorProto :=
  file "foxglove/Vector3.proto" "foxglove"
    []
    "Vector3"
    [("x", 1, LabelOptional, FtDouble, None); ("y", 2, LabelOptional, FtDouble, None);
     ("z", 3, LabelOptional, FtDouble, None)]
    [].
Definition VoxelGrid_file : FileDescriptorProto :=
  file "foxglove/VoxelGrid.proto" "foxglove"
    ["foxglove/PackedElementField.proto"; "foxglove/Pose.proto"; "foxglove/Vector3.proto";
     "google/protobuf/timestamp.proto"]
    "VoxelGrid"
    [("timestamp", 1, LabelOptional, FtMessage, Some ".google.protobuf.Timestamp");
     ("frame_id", 2, LabelOptional, FtString, None);
     ("pose", 3, LabelOptional, FtMessage, Some ".foxglove.Pose");
     ("row_count", 4, LabelOptional, FtFixed32, None);
     ("column_count", 5, LabelOptional, FtFixed32, None);
     ("cell_size", 6, LabelOptional, FtMessage, Some ".foxglove.Vector3");
     ("slice_stride", 7, LabelOptional, FtFixed32, None);
     ("row_stride", 8, LabelOptional, FtFixed32, None);
     ("cell_stride", 9, LabelOptional, FtFixed32, None);
     ("fields", 10, LabelRepeated, FtMessage, Some ".foxglove.PackedElementField");
     ("data", 11, LabelOptional, FtBytes, None)]
    [].
Definition Duration_file : FileDescriptorProto :=
  file "google/protobuf/duration.proto" "google.protobuf"
    []
    "Duration"
    [("seconds", 1, LabelOptional, FtInt64, None); ("nanos", 2, LabelOptional, FtInt32, None)]
    [].
Definition Timestamp_file : FileDescriptorProto :=
  file "google/protobuf/timestamp.proto" "google.protobuf"
    []
    "Timestamp"
    [("seconds", 1, LabelOptional, FtInt64, None); ("nanos", 2, LabelOptional, FtInt32, None)]
    [].
Definition files : list FileDescriptorProto :=
  [ArrowPrimitive_file; CameraCalibration_file;
   CircleAnnotation_file; Color_file; CompressedImage_file; CompressedVideo_file;
   CubePrimitive_file; CylinderPrimitive_file; FrameTransform_file; FrameTransforms_file;
   GeoJSON_file; Grid_file; ImageAnnotations_file; KeyValuePair_file; LaserScan_file;
   LinePrimitive_file; LocationFix_file; LocationFixes_file; Log_file; ModelPrimitive_file;
   PackedElementField_file; Point2_file; Point3_file; Point3InFrame_file; PointCloud_file;
   PointsAnnotation_file; Pose_file; PoseInFrame_file; PosesInFrame_file; Quaternion_file;
   RawAudio_file; RawImage_file; SceneEntity_file; SceneEntityDeletion_file; SceneUpdate_file;
   SpherePrimitive_file; TextAnnotation_file; TextPrimitive_file; TriangleListPrimitive_file;
   Vector2_file; Vector3_file; VoxelGrid_file; Duration_file; Timestamp_file].

(** The sets of files, by the names of the included files. *)
Definition sets : list (string * list string) := [
  ("data/ArrowPrimitive.bin",
    ["foxglove/Color.proto"; "foxglove/Quaternion.proto";
     "foxglove/Vector3.proto"; "foxglove/Pose.proto"; "foxglove/ArrowPrimitive.proto"]);
  ("data/CameraCalibration.bin",
    ["google/protobuf/timestamp.proto";
     "foxglove/CameraCalibration.proto"]);
  ("data/CircleAnnotation.bin",
    ["foxglove/Color.proto"; "foxglove/Point2.proto";
     "google/protobuf/timestamp.proto"; "foxglove/CircleAnnotation.proto"]);
  ("data/Color.bin",
    ["foxglove/Color.proto"]);
  ("data/CompressedImage.bin",
    ["google/protobuf/timestamp.proto";
     "foxglove/CompressedImage.proto"]);
  ("data/CompressedVideo.bin",
    ["google/protobuf/timestamp.proto";
     "foxglove/CompressedVideo.proto"]);
  ("data/CubePrimitive.bin",
    ["foxglove/Color.proto"; "foxglove/Quaternion.proto";
     "foxglove/Vector3.proto"; "foxglove/Pose.proto"; "foxglove/CubePrimitive.proto"]);
  ("data/CylinderPrimitive.bin",
    ["foxglove/Color.proto"; "foxglove/Quaternion.proto";
     "foxglove/Vector3.proto"; "foxglove/Pose.proto"; "foxglove/CylinderPrimitive.proto"]);
  ("data/Duration.bin",
    ["google/protobuf/duration.proto"]);
  ("data/FrameTransform.bin",
    ["foxglove/Quaternion.proto"; "foxglove/Vector3.proto";
     "google/protobuf/timestamp.proto"; "foxglove/FrameTransform.proto"]);
  ("data/FrameTransforms.bin",
    ["foxglove/Quaternion.proto"; "foxglove/Vector3.proto";
     "google/protobuf/timestamp.proto"; "foxglove/FrameTransform.proto";
     "foxglove/FrameTransforms.proto"]);
  ("data/GeoJSON.bin",
    ["foxglove/GeoJSON.proto"]);
  ("data/Grid.bin",
    ["foxglove/PackedElementField.proto"; "foxglove/Quaternion.proto";
     "foxglove/Vector3.proto"; "foxglove/Pose.proto"; "foxglove/Vector2.proto";
     "google/protobuf/timestamp.proto"; "foxglove/Grid.proto"]);
  ("data/ImageAnnotations.bin",
    ["foxglove/Color.proto"; "foxglove/Point2.proto";
     "google/protobuf/timestamp.proto"; "foxglove/CircleAnnotation.proto";
     "foxglove/PointsAnnotation.proto"; "foxglove/TextAnnotation.proto";
     "foxglove/ImageAnnotations.proto"]);
  ("data/KeyValuePair.bin",
    ["foxglove/KeyValuePair.proto"]);
  ("data/LaserScan.bin",
    ["foxglove/Quaternion.proto"; "foxglove/Vector3.proto";
     "foxglove/Pose.proto"; "google/protobuf/timestamp.proto"; "foxglove/LaserScan.proto"]);
  ("data/LinePrimitive.bin",
    ["foxglove/Color.proto"; "foxglove/Point3.proto";
     "foxglove/Quaternion.proto"; "foxglove/Vector3.proto"; "foxglove/Pose.proto";
     "foxglove/LinePrimitive.proto"]);
  ("data/LocationFix.bin",
    ["foxglove/Color.proto"; "google/protobuf/timestamp.proto";
     "foxglove/LocationFix.proto"]);
  ("data/LocationFixes.bin",
    ["foxglove/Color.proto"; "google/protobuf/timestamp.proto";
     "foxglove/LocationFix.proto"; "foxglove/LocationFixes.proto"]);
  ("data/Log.bin",
    ["google/protobuf/timestamp.proto"; "foxglove/Log.proto"]);
  ("data/ModelPrimitive.bin",
    ["foxglove/Color.proto"; "foxglove/Quaternion.proto";
     "foxglove/Vector3.proto"; "foxglove/Pose.proto"; "foxglove/ModelPrimitive.proto"]);
  ("data/PackedElementField.bin",
    ["foxglove/PackedElementField.proto"]);
  ("data/Point2.bin",
    ["foxglove/Point2.proto"]);
  ("data/Point3.bin",
    ["foxglove/Point3.proto"]);
  ("data/Point3InFrame.bin",
    ["foxglove/Point3.proto"; "google/protobuf/timestamp.proto";
     "foxglove/Point3InFrame.proto"]);
  ("data/PointCloud.bin",
    ["foxglove/PackedElementField.proto"; "foxglove/Quaternion.proto";
     "foxglove/Vector3.proto"; "foxglove/Pose.proto"; "google/protobuf/timestamp.proto";
     "foxglove/PointCloud.proto"]);
  ("data/PointsAnnotation.bin",
    ["foxglove/Color.proto"; "foxglove/Point2.proto";
     "google/protobuf/timestamp.proto"; "foxglove/PointsAnnotation.proto"]);
  ("data/Pose.bin",
    ["foxglove/Quaternion.proto"; "foxglove/Vector3.proto";
     "foxglove/Pose.proto"]);
  ("data/PoseInFrame.bin",
    ["foxglove/Quaternion.proto"; "foxglove/Vector3.proto";
     "foxglove/Pose.proto"; "google/protobuf/timestamp.proto"; "foxglove/PoseInFrame.proto"]);
  ("data/PosesInFrame.bin",
    ["foxglove/Quaternion.proto"; "foxglove/Vector3.proto";
     "foxglove/Pose.proto"; "google/protobuf/timestamp.proto"; "foxglove/PosesInFrame.proto"]);
  ("data/Quaternion.bin",
    ["foxglove/Quaternion.proto"]);
  ("data/RawAudio.bin",
    ["google/protobuf/timestamp.proto"; "foxglove/RawAudio.proto"]);
  ("data/RawImage.bin",
    ["google/protobuf/timestamp.proto"; "foxglove/RawImage.proto"]);
  ("data/SceneEntity.bin",
    ["foxglove/Color.proto"; "foxglove/Quaternion.proto";
     "foxglove/Vector3.proto"; "foxglove/Pose.proto"; "foxglove/ArrowPrimitive.proto";
     "foxglove/CubePrimitive.proto"; "foxglove/CylinderPrimitive.proto";
     "foxglove/KeyValuePair.proto"; "foxglove/Point3.proto"; "foxglove/LinePrimitive.proto";
     "foxglove/ModelPrimitive.proto"; "foxglove/SpherePrimitive.proto";
     "foxglove/TextPrimitive.proto"; "foxglove/TriangleListPrimitive.proto";
     "google/protobuf/duration.proto"; "google/protobuf/timestamp.proto";
     "foxglove/SceneEntity.proto"]);
  ("data/SceneEntityDeletion.bin",
    ["google/protobuf/timestamp.proto";
     "foxglove/SceneEntityDeletion.proto"]);
  ("data/SceneUpdate.bin",
    ["foxglove/Color.proto"; "foxglove/Quaternion.proto";
     "foxglove/Vector3.proto"; "foxglove/Pose.proto"; "foxglove/ArrowPrimitive.proto";
     "foxglove/CubePrimitive.proto"; "foxglove/CylinderPrimitive.proto";
     "foxglove/KeyValuePair.proto"; "foxglove/Point3.proto"; "foxglove/LinePrimitive.proto";
     "foxglove/ModelPrimitive.proto"; "foxglove/SpherePrimitive.proto";
     "foxglove/TextPrimitive.proto"; "foxglove/TriangleListPrimitive.proto";
     "google/protobuf/duration.proto"; "google/protobuf/timestamp.proto";
     "foxglove/SceneEntity.proto"; "foxglove/SceneEntityDeletion.proto";
     "foxglove/SceneUpdate.proto"]);
  ("data/SpherePrimitive.bin",
    ["foxglove/Color.proto"; "foxglove/Quaternion.proto";
     "foxglove/Vector3.proto"; "foxglove/Pose.proto"; "foxglove/SpherePrimitive.proto"]);
  ("data/TextAnnotation.bin",
    ["foxglove/Color.proto"; "foxglove/Point2.proto";
     "google/protobuf/timestamp.proto"; "foxglove/TextAnnotation.proto"]);
  ("data/TextPrimitive.bin",
    ["foxglove/Color.proto"; "foxglove/Quaternion.proto";
     "foxglove/Vector3.proto"; "foxglove/Pose.proto"; "foxglove/TextPrimitive.proto"]);
  ("data/Timestamp.bin",
    ["google/protobuf/timestamp.proto"]);
  ("data/TriangleListPrimitive.bin",
    ["foxglove/Color.proto"; "foxglove/Point3.proto";
     "foxglove/Quaternion.proto"; "foxglove/Vector3.proto"; "foxglove/Pose.proto";
     "foxglove/TriangleListPrimitive.proto"]);
  ("data/Vector2.bin",
    ["foxglove/Vector2.proto"]);
  ("data/Vector3.bin",
    ["foxglove/Vector3.proto"]);
  ("data/VoxelGrid.bin",
    ["foxglove/PackedElementField.proto"; "foxglove/Quaternion.proto";
     "foxglove/Vector3.proto"; "foxglove/Pose.proto"; "google/protobuf/timestamp.proto";
     "foxglove/VoxelGrid.proto"])].
Definition find_file (name : string) : option FileDescriptorProto :=
  snd <$> list_find (λ f, fp_name f = Some name) files.
Definition file_set (path : string) : FileDescriptorSet :=
  match list_find (λ e, e.1 = path) sets with
  | Some (_, (_, names)) => omap find_file names
  | None => []
  end.

(** ** A codec *)

(** The bits of a positive number, and back. *)
Fixpoint bits (p : positive) : list byte :=
  match p with
  | xH => []
  | xO p => Byte.x00 :: bits p
  | xI p => Byte.x01 :: bits p
  end.
Fixpoint unbits (l : list byte) : option positive :=
  match l with
  | [] => Some xH
  | b :: l => p ← unbits l;
    match b with Byte.x00 => Some (xO p) | Byte.x01 => Some (xI p) | _ => None end
  end.
Lemma unbits_bits p : unbits (bits p) = Some p.
Proof. induction p as [p IH|p IH|]; cbn; [by rewrite IH|by rewrite IH|done]. Qed.

#[local] Instance Label_countable : Countable Label.
Proof.
  apply (inj_countable' (λ l, match l with LabelOptional => 1%positive | LabelRequired => 2%positive
      | LabelRepeated => 3%positive end)
    (λ n, match n with 1%positive => LabelOptional | 2%positive => LabelRequired | _ => LabelRepeated end)).
  by intros [].
Defined.
Definition all_types : list FieldType :=
  [FtDouble; FtFloat; FtInt64; FtUint64; FtInt32; FtFixed64; FtFixed32; FtBool; FtString; FtGroup;
   FtMessage; FtBytes; FtUint32; FtEnum; FtSfixed32; FtSfixed64; FtSint32; FtSint64].
#[local] Instance FieldType_countable : Countable FieldType.
Proof.
  apply (inj_countable (λ t, fst <$> list_find (eq t) all_types)
    (λ i, match i with Some i => all_types !! i | None => None end)).
  by intros [].
Defined.
#[local] Instance FieldDescriptorProto_eq_dec : EqDecision FieldDescriptorProto.
Proof. solve_decision. Defined.
#[local] Instance FieldDescriptorProto_countable : Countable FieldDescriptorProto.
Proof.
  apply (inj_countable' (λ f, (fd_name f, fd_number f, fd_label f, fd_type f, fd_type_name f)) field).
  by intros [].
Defined.
#[local] Instance EnumDescriptorProto_eq_dec : EqDecision EnumDescriptorProto.
Proof. solve_decision. Defined.
#[local] Instance EnumDescriptorProto_countable : Countable EnumDescriptorProto.
Proof.
  apply (inj_countable' (λ e, (ed_name e, ed_value e)) (λ e, enum e.1 e.2)). by intros [].
Defined.

(** Descriptors are trees. *)
Abbreviation dtree := (gen_tree (string * list FieldDescriptorProto * list EnumDescriptorProto)).
Fixpoint to_tree (d : DescriptorProto) : dtree :=
  GenNode 0 (GenLeaf (d_name d, d_field d, d_enum_type d) :: (to_tree <$> d_nested_type d)).
Fixpoint of_tree (t : dtree) : option DescriptorProto :=
  match t with
  | GenNode _ (GenLeaf (name, fields, enums) :: ts) => MkDescriptor name fields enums <$> mapM of_tree ts
  | _ => None
  end.
Fixpoint of_to_tree (d : DescriptorProto) : of_tree (to_tree d) = Some d.
Proof.
  destruct d as [name fields enums nested]. cbn.
  assert (mapM of_tree (to_tree <$> nested) = Some nested) as ->; [|done].
  induction nested as [|d ds IH]; [done|]. cbn. rewrite of_to_tree. cbn. by rewrite IH.
Qed.

Definition of_files (fds : FileDescriptorSet) :=
  (λ f, (fp_name f, fp_package f, fp_dependency f, to_tree <$> fp_message_type f,
         (fp_enum_type f, fp_syntax f))) <$> fds.
Definition to_file (f : option string * option string * list string * list dtree *
    (list EnumDescriptorProto * option string)) : option FileDescriptorProto :=
  let '(name, package, deps, messages, (enums, syntax)) := f in
  ms ← mapM of_tree messages;
  Some {| fp_name := name; fp_package := package; fp_dependency := deps; fp_message_type := ms;
          fp_enum_type := enums; fp_syntax := syntax |}.
#[export] Instance codec : DescriptorCodec := {|
  fds_encode_to_vec fds := bits (encode (of_files fds));
  fds_decode bs := p ← unbits bs; l ← decode p; mapM to_file l
|}.
#[export] Instance codec_laws : DescriptorCodecLaws.
Proof.
  split. intros fds. cbn. rewrite unbits_bits. cbn. rewrite decode_encode. cbn.
  apply mapM_Some, Forall2_fmap_l, Forall_Forall2_diag, Forall_forall. intros [name pkg deps ms en syn] _.
  cbn. assert (mapM of_tree (to_tree <$> ms) = Some ms) as ->; [|done].
  apply mapM_Some, Forall2_fmap_l, Forall_Forall2_diag, Forall_forall. intros. apply of_to_tree.
Qed.

#[export] Instance included_files : IncludedFiles := {|
  include_bytes path := fds_encode_to_vec (file_set path)
|}.

(** ** The laws *)

(** Where the descriptors of each type are; the names do not depend on the files. *)
Definition paths : list (string * string) :=
  (("data/Timestamp.bin", ".google.protobuf.Timestamp") ::
   ("data/Duration.bin", ".google.protobuf.Duration") ::
   ((λ g, ("data/" +:+ String.substring 9 (String.length (sch_name (gt_schema g))) (sch_name (gt_schema g))
            +:+ ".bin", gt_type_name g)) <$> @schemas.all {| include_bytes := λ _, [] |}))%string.
Lemma described_paths : described = (λ e, (include_bytes e.1, e.2)) <$> paths.
Proof. reflexivity. Qed.

Fixpoint ordered_b (seen : list string) (fds : FileDescriptorSet) : bool :=
  match fds with
  | [] => true
  | f :: fds => forallb (λ d, bool_decide (d ∈ seen)) (fp_dependency f) &&
                ordered_b (option_list (fp_name f) ++ seen) fds
  end.
Lemma ordered_b_spec seen fds : ordered_b seen fds = true → ordered_after seen fds.
Proof.
  revert seen. induction fds as [|f fds IH]; intros seen; [done|]. cbn.
  intros [Hd Ho]%andb_prop. split; [|by apply IH]. apply Forall_forall. intros d Hin.
  apply list_elem_of_In in Hin. apply (proj1 (forallb_forall _ _) Hd) in Hin.
  by apply bool_decide_eq_true in Hin.
Qed.
Definition complete_b (fds : FileDescriptorSet) (name : string) : bool :=
  ordered_b [] fds &&
  existsb (λ f, match fp_package f with
    | Some p => existsb (λ d, bool_decide (name = ("." +:+ full_name p (d_name d))%string)) (fp_message_type f)
    | None => false end) fds &&
  forallb (λ f, match fp_name f with Some n => bool_decide (SLASH ∈ as_bytes n) | None => false end) fds.
Lemma complete_b_spec fds name : complete_b fds name = true →
  dependencies_first fds ∧ defined_in fds name ∧ Forall names_path fds.
Proof.
  intros [[Ho Hd]%andb_prop Hn]%andb_prop. split; [by apply ordered_b_spec|]. split.
  - apply existsb_exists in Hd as (f & Hf & Hd). destruct (fp_package f) as [p|] eqn:Hp; [|done].
    apply existsb_exists in Hd as (d & Hin & ->%bool_decide_eq_true).
    exists f, d, (full_name p (d_name d)). split; [by apply list_elem_of_In|]. split; [|done].
    exists p. by split_and!; [|apply list_elem_of_In|].
  - apply Forall_forall. intros f Hf%list_elem_of_In. apply (proj1 (forallb_forall _ _) Hn) in Hf.
    unfold names_path. destruct (fp_name f) as [n|]; [|done]. exists n. split; [done|].
    by apply bool_decide_eq_true in Hf.
Qed.

Lemma paths_complete : forallb (λ e, complete_b (file_set e.1) e.2) paths = true.
Proof. by vm_compute. Qed.
Lemma files_named : NoDup (fp_name <$> files).
Proof. apply (bool_decide_unpack _). vm_compute. exact I. Qed.

Lemma file_set_files path f : f ∈ file_set path → f ∈ files.
Proof.
  unfold file_set. destruct (list_find _ sets) as [[i0 [p0 ns]]|]; [|by intros ?%elem_of_nil].
  intros (n & _ & Hf)%list_elem_of_omap. unfold find_file in Hf.
  destruct (list_find _ files) as [[i g]|] eqn:E; [|done]. injection Hf as ->.
  apply list_find_Some in E as (Hl & _). by eapply list_elem_of_lookup_2.
Qed.

#[export] Instance included_laws : IncludedLaws.
Proof.
  split.
  - intros bs name Hin. rewrite described_paths in Hin.
    apply list_elem_of_fmap in Hin as ([path n] & [= -> ->] & Hin%list_elem_of_In).
    exists (file_set path). split; [exact (fds_decode_encode (file_set path))|].
    apply complete_b_spec, (proj1 (forallb_forall _ _) paths_complete _ Hin).
  - intros bs1 n1 fds1 f1 bs2 n2 fds2 f2 H1 D1 F1 H2 D2 F2 Hn. rewrite described_paths in *.
    apply list_elem_of_fmap in H1 as ([p1 m1] & [= -> ->] & _), H2 as ([p2 m2] & [= -> ->] & _).
    injection (eq_trans (eq_sym (fds_decode_encode (file_set p1))) D1) as <-.
    injection (eq_trans (eq_sym (fds_decode_encode (file_set p2))) D2) as <-. apply file_set_files, list_elem_of_lookup in F1 as [i Hi].
    apply file_set_files, list_elem_of_lookup in F2 as [j Hj].
    assert (i = j) as ->; [|congruence].
    eapply NoDup_lookup; [exact files_named|..]; rewrite list_lookup_fmap; [by rewrite Hi|rewrite Hj; cbn; by rewrite Hn].
  - assert (file_set "data/Timestamp.bin" = [Timestamp_file]) as Et by (by vm_compute).
    assert (file_set "data/Duration.bin" = [Duration_file]) as Ed by (by vm_compute).
    intros bs [->|[->|[]%elem_of_nil]%elem_of_cons]%elem_of_cons.
    + exists Timestamp_file. rewrite <- Et. exact (fds_decode_encode (file_set "data/Timestamp.bin")).
    + exists Duration_file. rewrite <- Ed. exact (fds_decode_encode (file_set "data/Duration.bin")).
Qed.
