(* ===== verification/Derive.v ===== *)
(** * Derive: what `#[derive(Encode)]` accepts, encodes and publishes

    `foxglove_derive/src/lib.rs` and the descriptor half of `protobuf.rs`,
    `protobuf/wkt.rs`, `protobuf/chrono.rs` and `schemas/impls.rs`.

    The macro sees syntax ([SynType], as `syn` parses it) and checks it
    ([derive_loggable]).  The code that it generates calls the methods of the
    types which the syntax resolves to ([Ty]): each [Ty] has a type of values
    ([den]), an implementation of [ProtobufField] ([impl], composed of
    Protobuf.v's), and the associated functions that describe it ([type_name],
    [enum_descriptor], [message_descriptor], [file_descriptors]).  A struct's
    descriptor and schema are kept in [OnceLock] statics, one of each per impl
    block; they are the state [Statics].

    The iteration order of the macro's hash maps is a parameter ([HashOrder]). *)

From S2P Require Import Prelude Bytes Time Channel Protobuf Descriptor.
Local Open Scope Z_scope.

(** ** The syntax of types *)

(** [syn::Type]: paths by the text before the last segment, that segment and its
    arguments in angle brackets; arrays; and anything else by its text. *)
Inductive SynType :=
| SPath (prefix ident : string) (args : SynArgs)
| SArray (elem : SynType) (len : string)
| SOther (tokens : string)
with SynArgs :=
| ANone
| ANil
| AType (t : SynType) (rest : SynArgs)
| AOther (tokens : string) (rest : SynArgs).

Fixpoint SynType_dec (x y : SynType) : {x = y} + {x ≠ y}
with SynArgs_dec (x y : SynArgs) : {x = y} + {x ≠ y}.
Proof. all: decide equality; apply String.string_dec. Defined.
#[export] Instance SynType_eq_dec : EqDecision SynType := SynType_dec.

Definition unwrap_generic_type (ty : SynType) (wrapper : string) : option SynType :=
  match ty with
  | SPath _ ident args =>
    if bool_decide (ident = wrapper)
    then match args with AType inner _ => Some inner | _ => None end else None
  | _ => None
  end.
Definition is_vec (ty : SynType) : bool := bool_decide (is_Some (unwrap_generic_type ty "Vec")).
Definition is_option (ty : SynType) : bool := bool_decide (is_Some (unwrap_generic_type ty "Option")).
Definition is_array (ty : SynType) : bool := match ty with SArray _ _ => true | _ => false end.
Definition unwrap_array_type (ty : SynType) : option SynType :=
  match ty with SArray elem _ => Some elem | _ => None end.

(** [Option::is_some_and]. *)
Definition is_some_and {A} (o : option A) (f : A → bool) : bool :=
  match o with Some a => f a | None => false end.
Definition is_vec_of_option (ty : SynType) : bool := is_some_and (unwrap_generic_type ty "Vec") is_option.
Definition is_array_of_option (ty : SynType) : bool := is_some_and (unwrap_array_type ty) is_option.
Definition is_option_of_vec (ty : SynType) : bool := is_some_and (unwrap_generic_type ty "Option") is_vec.
Definition is_option_of_array (ty : SynType) : bool := is_some_and (unwrap_generic_type ty "Option") is_array.
Definition is_vec_of_vec (ty : SynType) : bool := is_some_and (unwrap_generic_type ty "Vec") is_vec.
Definition is_array_of_vec (ty : SynType) : bool := is_some_and (unwrap_array_type ty) is_vec.
Definition is_vec_of_array (ty : SynType) : bool := is_some_and (unwrap_generic_type ty "Vec") is_array.
Definition is_array_of_array (ty : SynType) : bool := is_some_and (unwrap_array_type ty) is_array.

(** ** The checks of the macro *)

(** The input: an enum by its variants, and whether they have fields; a struct by
    its fields, if they are named; a union. *)
Inductive DeriveInput :=
| DataEnum (variants : list (string * bool))
| DataStruct (fields : option (list (string * SynType)))
| DataUnion.

Definition max_field_number : Z := 2047.

(** The [compile_error!] for a field. *)
Definition check_field (field_number : Z) (ty : SynType) : result string unit :=
  if max_field_number <? field_number then Err "Too many fields to encode"
  else if is_vec_of_option ty then Err "Vec<Option<T>> is not supported. Protobuf repeated fields cannot represent null/missing elements."
  else if is_option_of_vec ty then Err "Option<Vec<T>> is not supported. Protobuf cannot distinguish between absent and empty repeated fields."
  else if is_vec_of_vec ty then Err "Vec<Vec<T>> is not supported. Protobuf does not support nested repeated fields."
  else if is_array_of_option ty then Err "[Option<T>; N] is not supported. Protobuf repeated fields cannot represent null/missing elements."
  else if is_option_of_array ty then Err "Option<[T; N]> is not supported. Protobuf cannot distinguish between absent and empty repeated fields."
  else if is_array_of_array ty then Err "[[T; M]; N] is not supported. Protobuf does not support nested repeated fields."
  else if is_array_of_vec ty then Err "[Vec<T>; N] is not supported. Protobuf does not support nested repeated fields."
  else if is_vec_of_array ty then Err "Vec<[T; N]> is not supported. Protobuf does not support nested repeated fields."
  else Ok tt.
Fixpoint check_fields (field_number : Z) (fields : list (string * SynType)) : result string unit :=
  match fields with
  | [] => Ok tt
  | (_, ty) :: fields => _ ← check_field field_number ty; check_fields (field_number + 1) fields
  end.

Definition derive_enum_impl (variants : list (string * bool)) : result string unit :=
  ensure (negb (existsb snd variants)) "Enums with associated data are not supported."%string.
Definition derive_struct_impl (fields : option (list (string * SynType))) : result string unit :=
  match fields with
  | Some fields => check_fields 1 fields
  | None => Err "Only named struct fields are supported"%string
  end.
Definition derive_loggable (data : DeriveInput) : result string unit :=
  match data with
  | DataEnum variants => derive_enum_impl variants
  | DataStruct fields => derive_struct_impl fields
  | DataUnion => Err "Encode can only be used with enums or structs"%string
  end.

(** ** Types *)

(** The types of the library that implement [ProtobufField]. *)
Inductive Prim :=
| PU64 | PU32 | PU16 | PU8 | PI64 | PI32 | PI16 | PI8 | PBool | PF32 | PF64 | PString | PStr | PBytes
| PTimestamp | PDuration | PDateTime | PTimeDelta.
#[export] Instance Prim_eq_dec : EqDecision Prim.
Proof. solve_decision. Defined.

(** A type, with the definitions of the structs and enums in it.  A struct has
    the path of its impl block, which all instances of a generic struct share,
    its name, and its fields: their names, and their types as written and as
    resolved. *)
Inductive Ty :=
| TPrim (p : Prim)
| TGenerated (g : GeneratedType)
| TEnum (name : string) (variants : list (string * Z))
| TStruct (path name : string) (fields : Fields)
| TVec (t : Ty)
| TArray (n : nat) (t : Ty)
| TOption (t : Ty)
with Fields :=
| FNil
| FCons (name : string) (syn : SynType) (t : Ty) (rest : Fields).

Scheme Ty_mut := Induction for Ty Sort Prop
with Fields_mut := Induction for Fields Sort Prop.
Combined Scheme Ty_Fields_ind from Ty_mut, Fields_mut.

(** The fields as the macro sees them. *)
Fixpoint syntax (fs : Fields) : list (string * SynType) :=
  match fs with FNil => [] | FCons name syn _ fs => (name, syn) :: syntax fs end.

(** ** Values and their encoding *)

Section derive.
Context `{Prost} `{Buf} `{Chrono} `{Generated}.

Definition prim_den (p : Prim) : Type :=
  match p with
  | PU64 => UInt 64 | PU32 => UInt 32 | PU16 => UInt 16 | PU8 => UInt 8
  | PI64 => SInt 64 | PI32 => SInt 32 | PI16 => SInt 16 | PI8 => SInt 8
  | PBool => bool | PF32 => F32 | PF64 => F64 | PString | PStr => string | PBytes => Protobuf.PBytes
  | PTimestamp => Timestamp | PDuration => Duration
  | PDateTime => DateTime | PTimeDelta => TimeDelta
  end.
Definition prim_impl (p : Prim) : ProtobufField (prim_den p) :=
  match p with
  | PU64 => u64_field | PU32 => u32_field | PU16 => u16_field | PU8 => u8_field
  | PI64 => i64_field | PI32 => i32_field | PI16 => i16_field | PI8 => i8_field
  | PBool => bool_field | PF32 => f32_field | PF64 => f64_field
  | PString | PStr => string_field | PBytes => bytes_field
  | PTimestamp => Timestamp_field | PDuration => Duration_field
  | PDateTime => DateTime_field | PTimeDelta => TimeDelta_field
  end.

Fixpoint den (t : Ty) : Type :=
  match t with
  | TPrim p => prim_den p
  | TGenerated g => Message (gt_name g)
  | TEnum _ _ => EnumValue
  | TStruct _ _ fs => den_fields fs
  | TVec t | TArray _ t => list (den t)
  | TOption t => option (den t)
  end
with den_fields (fs : Fields) : Type :=
  match fs with FNil => unit | FCons _ _ t fs => den t * den_fields fs end.

(** The implementation of [ProtobufField]; the generated one for a struct calls
    those of its fields. *)
Fixpoint impl (t : Ty) : ProtobufField (den t) :=
  match t with
  | TPrim p => prim_impl p
  | TGenerated g => generated_field g
  | TEnum _ _ => enum_field
  | TStruct _ _ fs => struct_field (fields_of fs)
  | TVec t | TArray _ t => @vec_field _ (impl t)
  | TOption t => @option_field _ (impl t)
  end
with fields_of (fs : Fields) : den_fields fs → list AnyField :=
  match fs with
  | FNil => λ _, []
  | FCons _ _ t fs => λ x, MkField (den t) (impl t) x.1 :: fields_of fs x.2
  end.

(** [Encode::encode] and [Encode::encoded_len] of a struct. *)
Definition encode (fs : Fields) : nat → den_fields fs → list byte → result string (list byte) :=
  struct_encode (fields_of fs).
Definition encoded_len (fs : Fields) : den_fields fs → option nat := struct_encoded_len (fields_of fs).

(** ** Descriptions *)

Fixpoint type_name (t : Ty) : option string :=
  match t with
  | TPrim (PTimestamp | PDateTime) => Some ".google.protobuf.Timestamp"%string
  | TPrim (PDuration | PTimeDelta) => Some ".google.protobuf.Duration"%string
  | TPrim _ => None
  | TGenerated g => Some (gt_type_name g)
  | TEnum name _ | TStruct _ name _ => Some name
  | TVec t | TArray _ t | TOption t => type_name t
  end.

(** The position of a variant, as an [i32], is its number. *)
Definition variant_descriptors (variants : list (string * Z)) : list (string * Z) :=
  imap (λ i v, (v.1, to_signed 32 (Z.of_nat i))) variants.
Fixpoint enum_descriptor (t : Ty) : option EnumDescriptorProto :=
  match t with
  | TEnum name variants => Some {| ed_name := name; ed_value := variant_descriptors variants |}
  | TVec t | TArray _ t | TOption t => enum_descriptor t
  | TPrim _ | TGenerated _ | TStruct _ _ _ => None
  end.

(** The iteration order of a hash map of the macro: the order in which the keys
    come out, as a list of their positions, for a struct and for each of its
    three maps. *)
Class HashOrder := { hash_order : string → nat → list SynType → list nat }.
Class HashOrderLaws `{HashOrder} : Prop := {
  hash_order_perm : ∀ path k keys, hash_order path k keys ≡ₚ seq 0 (length keys)
}.
Context `{HashOrder} `{DescriptorCodec} `{IncludedFiles}.

(** [entry(key).or_insert_with(..)] for each pair, and [into_values]. *)
Fixpoint or_insert {A} (l : list (SynType * A)) : list (SynType * A) :=
  match l with
  | [] => []
  | (key, a) :: l => (key, a) :: filter (λ e, e.1 ≠ key) (or_insert l)
  end.
Definition into_values {A} (path : string) (k : nat) (l : list (SynType * A)) : list A :=
  let m := or_insert l in omap (λ i, snd <$> m !! i) (hash_order path k (m.*1)).

(** [decode_file_descriptor] [expect]s a file. *)
Definition decode_file_descriptor (bytes : list byte) : option FileDescriptorProto :=
  fds ← fds_decode bytes; head fds.
Definition TIMESTAMP_FD : option FileDescriptorProto := decode_file_descriptor descriptors.TIMESTAMP.
Definition DURATION_FD : option FileDescriptorProto := decode_file_descriptor descriptors.DURATION.

(** [None] is a panic. *)
Fixpoint file_descriptors (t : Ty) : option FileDescriptorSet :=
  match t with
  | TPrim (PTimestamp | PDateTime) => fd ← TIMESTAMP_FD; Some [fd]
  | TPrim (PDuration | PTimeDelta) => fd ← DURATION_FD; Some [fd]
  | TPrim _ | TEnum _ _ => Some []
  | TGenerated g => generated_file_descriptors g
  | TStruct path _ fs => @concat _ <$> mapM id (into_values path 2 (file_defs fs))
  | TVec t | TArray _ t | TOption t => file_descriptors t
  end
with file_defs (fs : Fields) : list (SynType * option FileDescriptorSet) :=
  match fs with
  | FNil => []
  | FCons _ syn t fs => (syn, file_descriptors t) :: file_defs fs
  end.

Fixpoint enum_defs (fs : Fields) : list (SynType * option EnumDescriptorProto) :=
  match fs with
  | FNil => []
  | FCons _ syn t fs => (syn, enum_descriptor t) :: enum_defs fs
  end.

Definition field_def (name : string) (number : Z) (t : Ty) : FieldDescriptorProto :=
  {| fd_name := name; fd_number := number;
     fd_label := if @repeating _ (impl t) then LabelRepeated
                 else if @optional _ (impl t) then LabelOptional else LabelRequired;
     fd_type := @field_type _ (impl t);
     fd_type_name := type_name t |}.
Fixpoint field_defs (number : Z) (fs : Fields) : list FieldDescriptorProto :=
  match fs with
  | FNil => []
  | FCons name _ t fs => field_def name number t :: field_defs (number + 1) fs
  end.

(** ** The statics *)

(** The [OnceLock]s [DESCRIPTOR] and [SCHEMA], by the path of their impl block. *)
Record Statics := { s_descriptor : gmap string DescriptorProto; s_schema : gmap string Schema }.
Definition set_descriptor (path : string) (d : DescriptorProto) (st : Statics) : Statics :=
  {| s_descriptor := <[path := d]> (s_descriptor st); s_schema := s_schema st |}.
Definition set_schema (path : string) (s : Schema) (st : Statics) : Statics :=
  {| s_descriptor := s_descriptor st; s_schema := <[path := s]> (s_schema st) |}.

Definition Describe : Type := Statics → option DescriptorProto * Statics.

(** The generated statements, one after the other; each pushes a descriptor. *)
Fixpoint push_all (l : list Describe) (st : Statics) : list DescriptorProto * Statics :=
  match l with
  | [] => ([], st)
  | f :: l => let '(d, st) := f st in let '(ds, st) := push_all l st in (option_list d ++ ds, st)
  end.

Fixpoint message_descriptor (t : Ty) : Describe :=
  match t with
  | TPrim _ | TGenerated _ | TEnum _ _ => λ st, (None, st)
  | TStruct path name fs => λ st,
    match s_descriptor st !! path with
    | Some d => (Some d, st)
    | None =>
      let '(nested_type, st) := push_all (into_values path 1 (message_defs fs)) st in
      let d := MkDescriptor name (field_defs 1 fs)
        (omap id (into_values path 0 (enum_defs fs))) nested_type in
      (Some d, set_descriptor path d st)
    end
  | TVec t | TArray _ t | TOption t => message_descriptor t
  end
with message_defs (fs : Fields) : list (SynType * Describe) :=
  match fs with
  | FNil => []
  | FCons _ syn t fs => (syn, message_descriptor t) :: message_defs fs
  end.

(** ** [get_schema] *)

(** The files that have a name which has not been [seen]. *)
Fixpoint dedup (seen : list string) (fds : FileDescriptorSet) : FileDescriptorSet :=
  match fds with
  | [] => []
  | fd :: fds =>
    match fp_name fd with
    | Some name => if bool_decide (name ∈ seen) then dedup seen fds else fd :: dedup (name :: seen) fds
    | None => dedup seen fds
    end
  end.

(** [str::to_lowercase], for ASCII. *)
Definition lower (b : byte) : byte :=
  if (65 <=? byte_val b) && (byte_val b <=? 90) then val_byte (byte_val b + 32) else b.
Definition to_lowercase (s : string) : string := of_bytes (lower <$> as_bytes s).

(** Inside the result, [None] is a panic while the cell is initialised. *)
Definition get_schema (path name : string) (fs : Fields) (st : Statics) : option (Schema * Statics) :=
  match s_schema st !! path with
  | Some s => Some (s, st)
  | None =>
    dependency_fds ← file_descriptors (TStruct path name fs);
    let files := dedup [] dependency_fds in
    let '(message_descriptor, st) := message_descriptor (TStruct path name fs) st in
    let file := {|
      fp_name := Some (name +:+ ".proto"); fp_package := Some (to_lowercase name);
      fp_dependency := omap fp_name files; fp_message_type := option_list message_descriptor;
      fp_enum_type := []; fp_syntax := Some "proto3"%string |} in
    let schema := {| sch_name := full_name (to_lowercase name) name; sch_encoding := "protobuf";
                     sch_data := fds_encode_to_vec (files ++ [file]) |} in
    Some (schema, set_schema path schema st)
  end.
Definition get_message_encoding : string := "protobuf".
End derive.
