(* ===== verification/DeriveProofs.v ===== *)
(** * DeriveProofs: a derived message is described by its schema

    For the model of Derive.v: what the macro accepts; that a value is encoded as
    the records of the wire format ([recs]); that the descriptors, however the
    statics came to be filled and the hash maps ordered, are those of a pure function
    ([descriptor]); and that a reader which knows nothing but the published
    schema ([read_message]) recovers the message ([view]) from its bytes. *)

From S2P Require Import Prelude Bytes Time Channel Protobuf Descriptor Derive.
Local Open Scope Z_scope.

(** ** The hash maps of the macro *)

Section maps.
Context `{HashOrderLaws}.

Lemma elem_of_or_insert {A} (l : list (SynType * A)) e : e ∈ or_insert l → e ∈ l.
Proof.
  induction l as [|[key a] l IH]; [done|]. cbn. intros [->|Hin]%elem_of_cons; [by left|].
  right. apply IH. by apply list_elem_of_filter in Hin as [_ ?].
Qed.
Lemma or_insert_has {A} (l : list (SynType * A)) key a :
  (key, a) ∈ l → (∀ a', (key, a') ∈ l → a' = a) → (key, a) ∈ or_insert l.
Proof.
  induction l as [|[key' a'] l IH]; intros Hin Huniq; [by apply elem_of_nil in Hin|].
  cbn. destruct (decide (key = key')) as [->|Hne].
  - rewrite (Huniq a') by left. left.
  - right. apply list_elem_of_filter. split; [done|]. apply elem_of_cons in Hin as [[=]|Hin]; [done|].
    apply IH; [done|]. intros. apply Huniq. by right.
Qed.
Lemma filter_keys_fmap {A B} (f : A → B) key (l : list (SynType * A)) :
  filter (λ e, e.1 ≠ key) (prod_map id f <$> l) = prod_map id f <$> filter (λ e, e.1 ≠ key) l.
Proof.
  induction l as [|[k a] l IH]; [done|]. rewrite fmap_cons, !filter_cons. cbn [prod_map fst id].
  destruct (decide (k ≠ key)); [|done]. by rewrite fmap_cons, IH.
Qed.
Lemma or_insert_fmap {A B} (f : A → B) (l : list (SynType * A)) :
  or_insert (prod_map id f <$> l) = prod_map id f <$> or_insert l.
Proof. induction l as [|[key a] l IH]; [done|]. cbn. f_equal. by rewrite IH, filter_keys_fmap. Qed.

Lemma into_values_perm {A} path k (l : list (SynType * A)) :
  into_values path k l ≡ₚ (or_insert l).*2.
Proof.
  unfold into_values. rewrite hash_order_perm, length_fmap.
  generalize (or_insert l). clear. intros m.
  assert (∀ pre, omap (λ i, snd <$> (pre ++ m) !! i) (seq (length pre) (length m)) = m.*2) as Hm.
  { induction m as [|e m IH]; intros pre; [done|]. cbn.
    rewrite list_lookup_middle by done. cbn. f_equal.
    specialize (IH (pre ++ [e])). rewrite length_app, Nat.add_comm in IH. cbn in IH.
    by rewrite <- app_assoc in IH. }
  by rewrite <- (Hm []).
Qed.
Lemma into_values_fmap {A B} (f : A → B) path k (l : list (SynType * A)) :
  into_values path k (prod_map id f <$> l) = f <$> into_values path k l.
Proof.
  unfold into_values. rewrite or_insert_fmap.
  assert ((prod_map id f <$> or_insert l).*1 = (or_insert l).*1) as ->.
  { rewrite <- list_fmap_compose. by apply list_fmap_ext. }
  rewrite list_fmap_omap. apply list_omap_ext, Forall_Forall2_diag, Forall_forall.
  intros i _. cbn. rewrite list_lookup_fmap. by destruct (or_insert l !! _) as [[]|].
Qed.

Lemma elem_of_into_values {A} path k (l : list (SynType * A)) a :
  a ∈ into_values path k l → ∃ key, (key, a) ∈ l.
Proof.
  rewrite into_values_perm. intros ([key ?] & -> & Hin)%list_elem_of_fmap. exists key.
  by apply elem_of_or_insert.
Qed.
Lemma into_values_has {A} path k (l : list (SynType * A)) key a :
  (key, a) ∈ l → (∀ a', (key, a') ∈ l → a' = a) → a ∈ into_values path k l.
Proof.
  intros. rewrite into_values_perm. apply list_elem_of_fmap. exists (key, a).
  split; [done|by apply or_insert_has].
Qed.
End maps.

(** ** The records of a value *)

Section records.
Context `{Prost} `{Buf} `{Chrono} `{Generated}.

(** The times that chrono's types are converted to. *)
Definition timestamp_of (t : DateTime) : option Timestamp :=
  from_saturated (Timestamp_saturating (Timestamp_try_from_datetime t)).
Definition duration_of (d : TimeDelta) : option Duration :=
  from_saturated (Duration_saturating (Duration_try_from_delta d)).
Definition raw_of {A} (raw : A → list byte → list byte) (a : option A) : list byte :=
  match a with Some a => raw a [] | None => [] end.

Definition len_valid (bs : list byte) : Prop := fits 64 (Z.of_nat (length bs)).

Definition prim_payload (p : Prim) : prim_den p → payload :=
  match p with
  | PU64 | PU32 | PU16 | PU8 => λ x, PVarint (u_val x)
  | PI64 | PI32 | PI16 | PI8 => λ x, PVarint (zigzag_ref (s_val x))
  | PBool => λ b, PVarint (if (b : bool) then 1 else 0)
  | PF32 => λ x, PFixed32 (f32_bits x)
  | PF64 => λ x, PFixed64 (f64_bits x)
  | PString | PStr => λ s, PLen (as_bytes s)
  | PBytes => λ b, PLen (pb_bytes b)
  | PTimestamp => λ t, PLen (Timestamp_encode_raw t [])
  | PDuration => λ d, PLen (Duration_encode_raw d [])
  | PDateTime => λ t, PLen (raw_of Timestamp_encode_raw (timestamp_of t))
  | PTimeDelta => λ d, PLen (raw_of Duration_encode_raw (duration_of d))
  end.
Definition prim_valid (p : Prim) : prim_den p → Prop :=
  match p with
  | PU64 => λ x, fits 64 (u_val x) | PU32 => λ x, fits 32 (u_val x)
  | PU16 => λ x, fits 16 (u_val x) | PU8 => λ x, fits 8 (u_val x)
  | PI64 => λ x, fits_signed 64 (s_val x) | PI32 => λ x, fits_signed 32 (s_val x)
  | PI16 => λ x, fits_signed 16 (s_val x) | PI8 => λ x, fits_signed 8 (s_val x)
  | PBool => λ _, True
  | PF32 => λ x, fits 32 (f32_bits x)
  | PF64 => λ x, fits 64 (f64_bits x)
  | PString | PStr => λ s, len_valid (as_bytes s) ∧ utf8_valid (as_bytes s) = true
  | PBytes => λ b, len_valid (pb_bytes b)
  | PTimestamp => λ t, len_valid (Timestamp_encode_raw t []) ∧ fits 32 (ts_sec t) ∧ fits 32 (ts_nsec t)
  | PDuration => λ d, len_valid (Duration_encode_raw d []) ∧ fits_signed 32 (dur_sec d) ∧ fits 32 (dur_nsec d)
  | PDateTime => λ t, is_Some (timestamp_of t) ∧ len_valid (raw_of Timestamp_encode_raw (timestamp_of t))
  | PTimeDelta => λ d, is_Some (duration_of d) ∧ len_valid (raw_of Duration_encode_raw (duration_of d))
  end.

Fixpoint recs (t : Ty) (n : Z) : den t → list wire_record :=
  match t with
  | TPrim p => λ x, [(n, prim_payload p x)]
  | TGenerated g => λ x, [(n, PLen (encode_raw x []))]
  | TEnum _ _ => λ x, [(n, PVarint (wrap 64 (discriminant x)))]
  | TStruct _ _ fs => λ x, [(n, PLen (encode_records (field_recs fs 1 x)))]
  | TVec t | TArray _ t => λ l, l ≫= recs t n
  | TOption t => λ o, match o with Some x => recs t n x | None => [] end
  end
with field_recs (fs : Fields) (n : Z) : den_fields fs → list wire_record :=
  match fs with
  | FNil => λ _, []
  | FCons _ _ t fs => λ x, recs t n x.1 ++ field_recs fs (n + 1) x.2
  end.

(** The values of a type: integers in range, strings in UTF-8, arrays of the
    right length, discriminants of variants; no length exceeds 64 bits. *)
Fixpoint valid (t : Ty) : den t → Prop :=
  match t with
  | TPrim p => prim_valid p
  | TGenerated g => generated_valid g
  | TEnum _ variants => λ x, discriminant x ∈ variants.*2
  | TStruct _ _ fs => λ x, valid_fields fs x ∧ len_valid (encode_records (field_recs fs 1 x))
  | TVec t => Forall (valid t)
  | TArray n t => λ l, length l = n ∧ Forall (valid t) l
  | TOption t => λ o, match o with Some x => valid t x | None => True end
  end
with valid_fields (fs : Fields) : den_fields fs → Prop :=
  match fs with
  | FNil => λ _, True
  | FCons _ _ t fs => λ x, valid t x.1 ∧ valid_fields fs x.2
  end.

Fixpoint count (fs : Fields) : Z :=
  match fs with FNil => 0 | FCons _ _ _ fs => 1 + count fs end.
(** The field numbers of all structs are valid. *)
Fixpoint numbers_ok (t : Ty) : Prop :=
  match t with
  | TPrim _ | TGenerated _ | TEnum _ _ => True
  | TStruct _ _ fs => count fs ≤ max_field_number ∧ numbers_ok_fields fs
  | TVec t | TArray _ t | TOption t => numbers_ok t
  end
with numbers_ok_fields (fs : Fields) : Prop :=
  match fs with FNil => True | FCons _ _ t fs => numbers_ok t ∧ numbers_ok_fields fs end.

Lemma count_nonneg fs : 0 ≤ count fs.
Proof. induction fs; cbn; lia. Qed.
End records.

Section encoding.
Context `{ProstLaws} `{BufLaws} `{Chrono} `{GeneratedLaws}.

Definition DateTime_spec : FieldSpec DateTime DateTime_field.
Proof.
  apply (scalar_spec _ _ _ _ (prim_payload PDateTime) (prim_valid PDateTime)); [done|done|by intros x []|].
  intros t buf [[ts E] Hlen]. cbn in *. unfold timestamp_of in *. rewrite E in *. cbn in *.
  destruct (Timestamp_raw_spec ts (encode_varint (Z.of_nat (Timestamp_encoded_len ts)) buf)) as [-> ->].
  rewrite encode_varint_spec by done. by rewrite app_assoc.
Defined.
Definition TimeDelta_spec : FieldSpec TimeDelta TimeDelta_field.
Proof.
  apply (scalar_spec _ _ _ _ (prim_payload PTimeDelta) (prim_valid PTimeDelta)); [done|done|by intros x []|].
  intros t buf [[d E] Hlen]. cbn in *. unfold duration_of in *. rewrite E in *. cbn in *.
  destruct (Duration_raw_spec d (encode_varint (Z.of_nat (Duration_encoded_len d)) buf)) as [-> ->].
  rewrite encode_varint_spec by done. by rewrite app_assoc.
Defined.
Lemma DateTime_len : @LenSpec _ _ DateTime_spec.
Proof.
  apply scalar_len. intros t [[ts E] Hlen]. cbn in *. unfold timestamp_of in *. rewrite E in *. cbn in *.
  destruct (Timestamp_raw_spec ts []) as [_ ->]. rewrite encoded_len_varint_spec by done.
  by rewrite length_app.
Qed.
Lemma TimeDelta_len : @LenSpec _ _ TimeDelta_spec.
Proof.
  apply scalar_len. intros t [[d E] Hlen]. cbn in *. unfold duration_of in *. rewrite E in *. cbn in *.
  destruct (Duration_raw_spec d []) as [_ ->]. rewrite encoded_len_varint_spec by done.
  by rewrite length_app.
Qed.

Definition prim_spec (p : Prim) : FieldSpec (prim_den p) (prim_impl p) :=
  match p with
  | PU64 => uint_spec 64 FtUint64 ltac:(lia) | PU32 => uint_spec 32 FtUint32 ltac:(lia)
  | PU16 => uint_spec 16 FtUint32 ltac:(lia) | PU8 => uint_spec 8 FtUint32 ltac:(lia)
  | PI64 => sint_spec 64 128 63 FtSint64 ltac:(lia) ltac:(lia) eq_refl
  | PI32 => sint_spec 32 64 31 FtSint32 ltac:(lia) ltac:(lia) eq_refl
  | PI16 => sint_spec 16 32 15 FtSint32 ltac:(lia) ltac:(lia) eq_refl
  | PI8 => sint_spec 8 16 7 FtSint32 ltac:(lia) ltac:(lia) eq_refl
  | PBool => bool_spec | PF32 => f32_spec | PF64 => f64_spec
  | PString | PStr => string_spec | PBytes => bytes_spec
  | PTimestamp => Timestamp_spec | PDuration => Duration_spec
  | PDateTime => DateTime_spec | PTimeDelta => TimeDelta_spec
  end.
Lemma prim_spec_valid p x : prim_valid p x → field_valid (FieldSpec := prim_spec p) (prim_impl p) x.
Proof. by destruct p; try exact id; intros []. Qed.
Lemma prim_spec_records p n x :
  field_records (FieldSpec := prim_spec p) (prim_impl p) n x = [(n, prim_payload p x)].
Proof. by destruct p. Qed.
Lemma prim_spec_len p : @LenSpec _ _ (prim_spec p).
Proof.
  destruct p; first [apply uint_len | apply sint_len | apply bool_len | apply f32_len | apply f64_len
    | apply string_len | apply bytes_len | apply Timestamp_len | apply Duration_len
    | apply DateTime_len | apply TimeDelta_len].
Qed.

(** What the implementation for a type does with a value, and what it announces:
    never more than it writes. *)
Definition writes (t : Ty) : Prop := ∀ n x, field_number n → valid t x →
  Forall record_valid (recs t n x) ∧
  (∀ buf, @write_tagged _ (impl t) n x buf = Some (buf ++ encode_records (recs t n x))) ∧
  (@encoded_len_tagged _ (impl t) n x ≤ length (encode_records (recs t n x)))%nat.
Definition writes_fields (fs : Fields) : Prop := ∀ n x,
  1 ≤ n → n + count fs ≤ 2 ^ 29 → valid_fields fs x →
  Forall record_valid (field_recs fs n x) ∧
  (∀ buf, encode_fields n (fields_of fs x) buf = Some (buf ++ encode_records (field_recs fs n x))) ∧
  (fields_len n (fields_of fs x) ≤ length (encode_records (field_recs fs n x)))%nat.

(** A type with a specification. *)
Lemma writes_spec t (S : FieldSpec (den t) (impl t)) : @LenSpec _ _ S →
  (∀ x, valid t x → @field_valid _ _ S x) → (∀ n x, @field_records _ _ S n x = recs t n x) → writes t.
Proof.
  intros HL Hv Hr n x Hn Hx%Hv. rewrite <- Hr. split_and!.
  - by apply spec_valid.
  - intros buf. by apply spec_write.
  - by rewrite (@spec_len _ _ S HL).
Qed.

Lemma writes_repeated t n l : writes t → field_number n → Forall (valid t) l →
  Forall record_valid (l ≫= recs t n) ∧
  (∀ buf, @write_each _ (impl t) n l buf = Some (buf ++ encode_records (l ≫= recs t n))) ∧
  (sum_list (@encoded_len_tagged _ (impl t) n <$> l) ≤ length (encode_records (l ≫= recs t n)))%nat.
Proof.
  intros Ht Hn Hl. induction Hl as [|x l Hx _ IH]; cbn.
  - split_and!; [done| |done]. intros. by rewrite app_nil_r.
  - destruct (Ht n x Hn Hx) as (Hv & Hw & Hlen). destruct IH as (IHv & IHw & IHlen). split_and!.
    + by apply Forall_app.
    + intros buf. rewrite Hw. cbn. by rewrite IHw, encode_records_app, app_assoc.
    + rewrite encode_records_app, length_app. lia.
Qed.

Lemma writes_struct path name fs : writes_fields fs → count fs ≤ max_field_number →
  writes (TStruct path name fs).
Proof.
  intros Hfs Hc n x Hn [Hx Hlen].
  destruct (Hfs 1 x ltac:(lia) ltac:(unfold max_field_number in Hc; lia) Hx) as (Hv & Hw & Hl).
  destruct (tag_spec n 2 Hn ltac:(lia)) as [Htag Hfit]. split_and!.
  - constructor; [by split|constructor].
  - intros buf. change (@write_tagged _ (impl (TStruct path name fs)) n x buf) with
      (local_buf ← encode_fields 1 (fields_of fs x) [];
       Some (put_slice local_buf (encode_varint (Z.of_nat (length local_buf)) (encode_varint (tag n 2) buf)))).
    rewrite Htag, Hw. cbn [mbind option_bind app].
    rewrite put_slice_spec, !encode_varint_spec by done. unfold encode_records, encode_record. cbn.
    by rewrite app_nil_r, <- !app_assoc.
  - change (@encoded_len_tagged _ (impl (TStruct path name fs)) n x) with
      (encoded_len_varint (tag n 2) + fields_len 1 (fields_of fs x))%nat.
    change (encode_records (recs (TStruct path name fs) n x)) with
      (encode_record (n, PLen (encode_records (field_recs fs 1 x))) ++ []).
    unfold encode_record. cbn [fst snd payload_wire encode_payload].
    change LengthDelimited with 2. rewrite Htag, encoded_len_varint_spec, app_nil_r by done.
    rewrite !length_app. lia.
Qed.

Lemma all_write :
  (∀ t, numbers_ok t → writes t) ∧ (∀ fs, numbers_ok_fields fs → writes_fields fs).
Proof.
  apply Ty_Fields_ind; cbn [numbers_ok numbers_ok_fields].
  - intros p _. apply (writes_spec (TPrim p) (prim_spec p)).
    + apply prim_spec_len.
    + apply prim_spec_valid.
    + apply prim_spec_records.
  - intros g _. by apply (writes_spec (TGenerated g) (generated_spec g) (generated_len g)).
  - intros name vs _. by apply (writes_spec (TEnum name vs) enum_spec enum_len).
  - intros path name fs IH [Hc Hfs]. apply writes_struct; auto.
  - intros t IH Ht n l Hn Hl. by apply writes_repeated; auto.
  - intros k t IH Ht n l Hn [_ Hl]. by apply writes_repeated; auto.
  - intros t IH Ht n [x|] Hn Hx; [by apply IH|]. cbn. split_and!; [done| |lia].
    intros. by rewrite app_nil_r.
  - intros _ n x _ _ _. cbn. split_and!; [done| |lia]. intros. by rewrite app_nil_r.
  - intros name syn t IHt fs IHfs [Ht Hfs] n x Hn Hc [Hx Hxs]. cbn in Hc.
    pose proof (count_nonneg fs).
    destruct (IHt Ht n x.1 ltac:(unfold field_number; lia) Hx) as (Hv & Hw & Hl).
    destruct (IHfs Hfs (n + 1) x.2 ltac:(lia) ltac:(lia) Hxs) as (Hvs & Hws & Hls).
    change (field_recs (FCons name syn t fs) n x) with (recs t n x.1 ++ field_recs fs (n + 1) x.2).
    split_and!.
    + by apply Forall_app.
    + intros buf. change (encode_fields n (fields_of (FCons name syn t fs) x) buf) with
        (buf ← @write_tagged _ (impl t) n x.1 buf; encode_fields (n + 1) (fields_of fs x.2) buf).
      rewrite Hw. cbn [mbind option_bind]. by rewrite Hws, encode_records_app, app_assoc.
    + change (fields_len n (fields_of (FCons name syn t fs) x)) with
        (@encoded_len_tagged _ (impl t) n x.1 + fields_len (n + 1) (fields_of fs x.2))%nat.
      rewrite encode_records_app, length_app. lia.
Qed.

(** Encoding a message into a buffer that has room for it. *)
Lemma encode_struct fs x remaining buf : count fs ≤ max_field_number → numbers_ok_fields fs →
  valid_fields fs x → let bs := encode_records (field_recs fs 1 x) in
  (length bs ≤ remaining)%nat → encode fs remaining x buf = Ok (buf ++ bs) ∧
  parse_records bs = Some (field_recs fs 1 x).
Proof.
  intros Hc Hn Hx bs Hr. unfold max_field_number in Hc.
  destruct (proj2 all_write fs Hn 1 x ltac:(lia) ltac:(lia) Hx) as (Hv & Hw & Hl). fold bs in Hl.
  split; [|by apply parse_records_encode].
  unfold encode, struct_encode. rewrite bool_decide_false by lia. rewrite Hw. cbn. fold bs.
  by rewrite bool_decide_true by done.
Qed.
End encoding.

(** ** Descriptors, apart from the statics *)

Section descriptors.
Context `{Prost} `{Buf} `{Chrono} `{Generated} `{HashOrderLaws} `{DescriptorCodec} `{IncludedFiles}.

Fixpoint descriptor (t : Ty) : option DescriptorProto :=
  match t with
  | TPrim _ | TGenerated _ | TEnum _ _ => None
  | TStruct path name fs =>
    Some (MkDescriptor name (field_defs 1 fs) (omap id (into_values path 0 (enum_defs fs)))
      (omap id (into_values path 1 (nested_defs fs))))
  | TVec t | TArray _ t | TOption t => descriptor t
  end
with nested_defs (fs : Fields) : list (SynType * option DescriptorProto) :=
  match fs with
  | FNil => []
  | FCons _ syn t fs => (syn, descriptor t) :: nested_defs fs
  end.
Definition schema_file (name : string) (d : DescriptorProto) (deps : FileDescriptorSet) :
    FileDescriptorProto :=
  {| fp_name := Some (name +:+ ".proto"); fp_package := Some (to_lowercase name);
     fp_dependency := omap fp_name deps; fp_message_type := [d];
     fp_enum_type := []; fp_syntax := Some "proto3"%string |}.
Definition schema_of (path name : string) (fs : Fields) : option Schema :=
  fds ← file_descriptors (TStruct path name fs);
  d ← descriptor (TStruct path name fs);
  Some {| sch_name := full_name (to_lowercase name) name; sch_encoding := "protobuf";
          sch_data := fds_encode_to_vec (dedup [] fds ++ [schema_file name d (dedup [] fds)]) |}.

(** The structs of a program: each path has one definition.  Of a generic struct
    this leaves one instantiation. *)
Context (decl : string → option (string * Fields)).

Fixpoint declared (t : Ty) : Prop :=
  match t with
  | TPrim _ | TGenerated _ | TEnum _ _ => True
  | TStruct path name fs => decl path = Some (name, fs) ∧ declared_fields fs
  | TVec t | TArray _ t | TOption t => declared t
  end
with declared_fields (fs : Fields) : Prop :=
  match fs with FNil => True | FCons _ _ t fs => declared t ∧ declared_fields fs end.

(** The cells that are initialised hold what the definitions say. *)
Record statics_ok (st : Statics) : Prop := {
  descriptor_ok path d : s_descriptor st !! path = Some d →
    ∃ name fs, decl path = Some (name, fs) ∧ descriptor (TStruct path name fs) = Some d;
  schema_ok path s : s_schema st !! path = Some s →
    ∃ name fs, decl path = Some (name, fs) ∧ schema_of path name fs = Some s
}.
Lemma statics_initial : statics_ok {| s_descriptor := ∅; s_schema := ∅ |}.
Proof. split; intros ??; cbn; by rewrite lookup_empty. Qed.
Lemma set_descriptor_ok path name fs d st : statics_ok st → decl path = Some (name, fs) →
  descriptor (TStruct path name fs) = Some d → statics_ok (set_descriptor path d st).
Proof.
  intros [Hd Hs] ? ?. split; [|done]. intros path' d'. cbn.
  intros [[<- <-]|[_ Hl]]%lookup_insert_Some; [by exists name, fs|by apply Hd].
Qed.
Lemma set_schema_ok path name fs s st : statics_ok st → decl path = Some (name, fs) →
  schema_of path name fs = Some s → statics_ok (set_schema path s st).
Proof.
  intros [Hd Hs] ? ?. split; [done|]. intros path' s'. cbn.
  intros [[<- <-]|[_ Hl]]%lookup_insert_Some; [by exists name, fs|by apply Hs].
Qed.

(** What a program asks of its types: schemas, and descriptors. *)
Inductive Ask := AskSchema (path name : string) (fs : Fields) | AskDescriptor (t : Ty).
Definition ask (st : Statics) (a : Ask) : Statics :=
  match a with
  | AskSchema path name fs => match get_schema path name fs st with Some (_, st) => st | None => st end
  | AskDescriptor t => (message_descriptor t st).2
  end.
Definition asked_of_program (a : Ask) : Prop :=
  match a with AskSchema path name fs => declared (TStruct path name fs) | AskDescriptor t => declared t end.
(** The statics of a program that has asked. *)
Definition statics_after (asks : list Ask) : Statics :=
  foldl ask {| s_descriptor := ∅; s_schema := ∅ |} asks.

Definition computes (f : Describe) (d : option DescriptorProto) : Prop :=
  ∀ st, statics_ok st → ∃ st', f st = (d, st') ∧ statics_ok st'.
Lemma push_all_computes (l : list (Describe * option DescriptorProto)) st :
  (∀ e, e ∈ l → computes e.1 e.2) → statics_ok st →
  ∃ st', push_all l.*1 st = (omap id l.*2, st') ∧ statics_ok st'.
Proof.
  revert st. induction l as [|[f d] l IH]; intros st Hl Hst; [by exists st|].
  destruct (Hl (f, d) ltac:(left) st Hst) as (st1 & Hf & Hst1).
  destruct (IH st1) as (st2 & Hp & Hst2); [intros; apply Hl; by right|done|].
  exists st2. split; [|done]. cbn in *. rewrite Hf, Hp. by destruct d.
Qed.

(** The two versions of the nested definitions of a struct, side by side. *)
Fixpoint both_defs (fs : Fields) : list (SynType * (Describe * option DescriptorProto)) :=
  match fs with
  | FNil => []
  | FCons _ syn t fs => (syn, (message_descriptor t, descriptor t)) :: both_defs fs
  end.
Lemma both_defs_split fs :
  message_defs fs = prod_map id fst <$> both_defs fs ∧ nested_defs fs = prod_map id snd <$> both_defs fs.
Proof. induction fs as [|name syn t fs [IH1 IH2]]; [done|]. split; cbn; f_equal; assumption. Qed.

Lemma message_descriptor_computes :
  (∀ t, declared t → computes (message_descriptor t) (descriptor t)) ∧
  (∀ fs, declared_fields fs → ∀ e, e ∈ both_defs fs → computes e.2.1 e.2.2).
Proof.
  apply Ty_Fields_ind; cbn [declared declared_fields];
    [by intros; intros st ?; exists st..| | | | | |].
  - intros path name fs IH [Hdecl Hfs] st Hst.
    change (message_descriptor (TStruct path name fs) st) with
      (match s_descriptor st !! path with
       | Some d => (Some d, st)
       | None => let '(nested_type, st) := push_all (into_values path 1 (message_defs fs)) st in
                 let d := MkDescriptor name (field_defs 1 fs)
                   (omap id (into_values path 0 (enum_defs fs))) nested_type in
                 (Some d, set_descriptor path d st)
       end).
    destruct (s_descriptor st !! path) as [d|] eqn:Hp.
    { exists st. split; [|done]. destruct (descriptor_ok _ Hst _ _ Hp) as (name' & fs' & E & <-).
      by simplify_eq. }
    destruct (both_defs_split fs) as [Hm Hn]. rewrite Hm, into_values_fmap.
    destruct (push_all_computes (into_values path 1 (both_defs fs)) st) as (st' & -> & Hst'); [|done|].
    { intros e (key & Hin)%elem_of_into_values. by apply (IH Hfs (key, e)). }
    assert (omap id (into_values path 1 (both_defs fs)).*2 = omap id (into_values path 1 (nested_defs fs)))
      as -> by (by rewrite Hn, into_values_fmap).
    eexists. split; [reflexivity|]. by apply (set_descriptor_ok _ name fs).
  - done.
  - done.
  - done.
  - intros _ e Hin. by apply elem_of_nil in Hin.
  - intros name syn t IHt fs IHfs [Ht Hfs] e [->|Hin]%elem_of_cons; [by apply IHt|by apply IHfs].
Qed.

(** [get_schema], called at any time, gives the schema of the definitions. *)
Lemma get_schema_computes path name fs st : declared (TStruct path name fs) → statics_ok st →
  match schema_of path name fs with
  | Some s => ∃ st', get_schema path name fs st = Some (s, st') ∧ statics_ok st'
  | None => get_schema path name fs st = None
  end.
Proof.
  intros Hd Hst. unfold get_schema. destruct (s_schema st !! path) as [s|] eqn:Hp.
  { destruct (schema_ok _ Hst _ _ Hp) as (name' & fs' & E & Hs). destruct Hd as [E' _].
    rewrite E in E'. injection E' as -> ->. rewrite Hs. by exists st. }
  unfold schema_of at 1. destruct (file_descriptors (TStruct path name fs)) as [fds|] eqn:Hf; [|done].
  cbn [mbind option_bind].
  destruct (proj1 message_descriptor_computes _ Hd st Hst) as (st' & -> & Hst').
  eexists. split; [reflexivity|].
  apply (set_schema_ok _ name fs); [done|by destruct Hd|]. unfold schema_of. by rewrite Hf.
Qed.
Lemma statics_after_ok asks : Forall asked_of_program asks → statics_ok (statics_after asks).
Proof.
  unfold statics_after. generalize statics_initial. generalize {| s_descriptor := ∅; s_schema := ∅ |}.
  intros st Hst Ha. revert st Hst. induction Ha as [|a asks Ha _ IH]; intros st Hst; [done|].
  apply IH. destruct a as [path name fs|t]; cbn [ask].
  - pose proof (get_schema_computes path name fs st Ha Hst) as Hg.
    destruct (schema_of path name fs); [by destruct Hg as (st' & -> & ?)|by rewrite Hg].
  - by destruct (proj1 message_descriptor_computes t Ha st Hst) as (st' & -> & ?).
Qed.
End descriptors.

(** ** The files of a schema *)

Definition absolute (name : string) : bool := bool_decide (head (as_bytes name) = Some (val_byte 46)).
(** The name of a struct or an enum is an identifier. *)
Definition identifier (name : string) : Prop := (SLASH ∉ as_bytes name) ∧ absolute name = false.

Fixpoint types (fs : Fields) : list (SynType * Ty) :=
  match fs with FNil => [] | FCons _ syn t fs => (syn, t) :: types fs end.

(** A type without its containers. *)
Fixpoint base (t : Ty) : Ty :=
  match t with TVec t | TArray _ t | TOption t => base t | _ => t end.

(** Types that are written alike in one struct are one type, and so are types
    with the same name. *)
Definition scoped (fs : Fields) : Prop :=
  (∀ syn t1 t2, (syn, t1) ∈ types fs → (syn, t2) ∈ types fs → t1 = t2) ∧
  (∀ syn1 t1 syn2 t2 name, (syn1, t1) ∈ types fs → (syn2, t2) ∈ types fs →
    type_name t1 = Some name → type_name t2 = Some name → absolute name = false → base t1 = base t2).
(** What Rust makes of an enum: different names, and different discriminants of one
    type of at most 64 bits. *)
Definition enum_ok (variants : list (string * Z)) : Prop :=
  NoDup variants.*1 ∧ NoDup variants.*2 ∧ Z.of_nat (length variants) ≤ 2 ^ 31 ∧
  (Forall (fits 64) variants.*2 ∨ Forall (fits_signed 64) variants.*2).

(** A program's type: names are identifiers, generated types are the library's, and
    names are resolved in the scope of each struct. *)
Fixpoint wf `{IncludedFiles} (t : Ty) : Prop :=
  match t with
  | TPrim _ => True
  | TGenerated g => g ∈ schemas.all
  | TEnum name variants => identifier name ∧ enum_ok variants
  | TStruct _ name fs => identifier name ∧ count fs ≤ max_field_number ∧ scoped fs ∧ wf_fields fs
  | TVec t | TArray _ t | TOption t => wf t
  end
with wf_fields `{IncludedFiles} (fs : Fields) : Prop :=
  match fs with FNil => True | FCons _ _ t fs => wf t ∧ wf_fields fs end.

Lemma wf_numbers `{IncludedFiles} :
  (∀ t, wf t → numbers_ok t) ∧ (∀ fs, wf_fields fs → numbers_ok_fields fs).
Proof. apply Ty_Fields_ind; cbn [wf wf_fields numbers_ok numbers_ok_fields]; intros; naive_solver. Qed.

Lemma wf_fields_in `{IncludedFiles} fs syn t : wf_fields fs → (syn, t) ∈ types fs → wf t.
Proof.
  induction fs as [|name syn' t' fs IH]; intros Hw Hin; [by apply elem_of_nil in Hin|].
  destruct Hw as [Ht Hfs]. apply elem_of_cons in Hin as [[= -> ->]|Hin]; [done|by apply IH].
Qed.

Section order.
Definition names (fds : FileDescriptorSet) : list string := omap fp_name fds.

Lemma ordered_mono s1 s2 fds : s1 ⊆ s2 → ordered_after s1 fds → ordered_after s2 fds.
Proof.
  revert s1 s2. induction fds as [|f fds IH]; intros s1 s2 Hs; [done|]. intros [Hd Ho]. split.
  - by eapply Forall_impl; [exact Hd|]; cbn; auto.
  - eapply IH; [|exact Ho]. set_solver.
Qed.
Lemma ordered_app s l k : ordered_after s l → ordered_after (names l ++ s) k → ordered_after s (l ++ k).
Proof.
  revert s. induction l as [|f l IH]; intros s; [done|]. intros [Hd Ho] Hk. split; [done|].
  apply IH; [done|]. eapply ordered_mono; [|exact Hk]. cbn. destruct (fp_name f); set_solver.
Qed.
Lemma ordered_concat ls : Forall dependencies_first ls → dependencies_first (concat ls).
Proof.
  induction 1 as [|l ls Hl _ IH]; [done|]. cbn. apply ordered_app; [done|].
  eapply ordered_mono; [|exact IH]. set_solver.
Qed.

Lemma dedup_sub seen fds f : f ∈ dedup seen fds → f ∈ fds.
Proof.
  revert seen. induction fds as [|g fds IH]; intros seen; [done|]. cbn.
  destruct (fp_name g); [case_bool_decide|]; intros Hin; try (right; by eapply IH).
  apply elem_of_cons in Hin as [->|Hin]; [left|right; by eapply IH].
Qed.
(** A file is kept, or an earlier one of the same name is. *)
Lemma dedup_has seen fds f name : f ∈ fds → fp_name f = Some name → (name ∉ seen) →
  ∃ g, g ∈ dedup seen fds ∧ fp_name g = Some name.
Proof.
  revert seen. induction fds as [|g fds IH]; intros seen Hin Hf Hs; [by apply elem_of_nil in Hin|].
  cbn. apply elem_of_cons in Hin as [->|Hin].
  - rewrite Hf, bool_decide_false by done. eexists. split; [left|done].
  - destruct (fp_name g) as [n|] eqn:Hg; [|by apply IH]. case_bool_decide; [by apply IH|].
    destruct (decide (n = name)) as [->|Hne].
    + exists g. split; [left|done].
    + destruct (IH (n :: seen)) as (h & Hh & Hn); [done|done|by apply not_elem_of_cons|].
      exists h. split; [by right|done].
Qed.
Lemma dedup_names seen fds : NoDup (names (dedup seen fds)) ∧
  ∀ n, n ∈ names (dedup seen fds) → n ∉ seen.
Proof.
  revert seen. induction fds as [|f fds IH]; intros seen.
  { split; [constructor|]. intros n Hin. by apply elem_of_nil in Hin. }
  cbn. destruct (fp_name f) as [name|] eqn:Hf; [case_bool_decide|]; [by apply IH| |by apply IH].
  destruct (IH (name :: seen)) as [Hnd Hns]. unfold names in *. cbn. rewrite Hf. split.
  - constructor; [|done]. intros Hin. apply (Hns _ Hin). left.
  - intros n [->|Hin]%elem_of_cons; [done|]. apply Hns in Hin. set_solver.
Qed.
Lemma dedup_ordered s1 s2 fds : ordered_after s1 fds → s1 ⊆ s2 → ordered_after s2 (dedup s2 fds).
Proof.
  revert s1 s2. induction fds as [|f fds IH]; intros s1 s2; [done|]. intros [Hd Ho] Hs. cbn.
  destruct (fp_name f) as [name|] eqn:Hf; [case_bool_decide|].
  - eapply IH; [exact Ho|]. cbn. set_solver.
  - split; [by eapply Forall_impl; [exact Hd|]; cbn; auto|]. rewrite Hf. cbn.
    eapply IH; [exact Ho|]. cbn. set_solver.
  - eapply IH; [exact Ho|]. cbn. set_solver.
Qed.
End order.

Section files.
Context `{Prost} `{Buf} `{Chrono} `{GeneratedLaws} `{HashOrderLaws} `{DescriptorCodecLaws} `{!IncludedFiles}
  `{!IncludedLaws}.

Definition included (f : FileDescriptorProto) : Prop :=
  ∃ bs name fds, (bs, name) ∈ described ∧ fds_decode bs = Some fds ∧ f ∈ fds.

(** What the files of a type do: they are there, in order, and come from the
    library. *)
Definition files_ok (t : Ty) : Prop := ∃ fds, file_descriptors t = Some fds ∧
  dependencies_first fds ∧ Forall included fds.

Lemma described_files bs name : (bs, name) ∈ described →
  ∃ fds, fds_decode bs = Some fds ∧ dependencies_first fds ∧ Forall included fds.
Proof.
  intros Hin. destruct (included_complete bs name Hin) as (fds & Hd & Ho & _ & _). exists fds.
  split; [done|split; [done|]]. apply Forall_forall. intros f Hf. by exists bs, name, fds.
Qed.
Lemma described_generated g : g ∈ schemas.all → (gt_descriptor g, gt_type_name g) ∈ described.
Proof. intros Hg. unfold described. right. right. apply list_elem_of_fmap. by exists g. Qed.

Lemma wkt_files bs name : bs ∈ [descriptors.TIMESTAMP; descriptors.DURATION] → (bs, name) ∈ described →
  ∃ f, decode_file_descriptor bs = Some f ∧ fds_decode bs = Some [f] ∧ dependencies_first [f] ∧ included f.
Proof.
  intros Hbs Hin. destruct (included_wkt bs Hbs) as [f Hf]. exists f.
  destruct (described_files bs name Hin) as (fds & Hd & Ho & Hi). rewrite Hf in Hd. injection Hd as <-.
  unfold decode_file_descriptor. rewrite Hf. split; [done|split; [done|split; [done|by inversion Hi]]].
Qed.
Lemma timestamp_files : ∃ f, TIMESTAMP_FD = Some f ∧ fds_decode descriptors.TIMESTAMP = Some [f] ∧
  dependencies_first [f] ∧ included f.
Proof. eapply wkt_files; [left|]. left. Qed.
Lemma duration_files : ∃ f, DURATION_FD = Some f ∧ fds_decode descriptors.DURATION = Some [f] ∧
  dependencies_first [f] ∧ included f.
Proof. eapply wkt_files; [right; left|]. right. left. Qed.

Lemma file_defs_types fs : file_defs fs = prod_map id file_descriptors <$> types fs.
Proof. induction fs as [|name syn t fs IH]; [done|]. cbn. by f_equal. Qed.

(** The files of a struct are those of its fields. *)
Lemma struct_files path name fs : (∀ syn t, (syn, t) ∈ types fs → files_ok t) →
  ∃ ls, mapM id (into_values path 2 (file_defs fs)) = Some ls ∧
    file_descriptors (TStruct path name fs) = Some (concat ls) ∧
    Forall (λ l, dependencies_first l ∧ Forall included l) ls.
Proof.
  intros Hall. change (file_descriptors (TStruct path name fs)) with
    (@concat _ <$> mapM id (into_values path 2 (file_defs fs))).
  rewrite file_defs_types, into_values_fmap.
  assert (∀ t, t ∈ into_values path 2 (types fs) → files_ok t) as Hv.
  { intros t (syn & Hin)%elem_of_into_values. by eapply Hall. }
  assert (∃ ls, mapM id (file_descriptors <$> into_values path 2 (types fs)) = Some ls ∧
    Forall (λ l, dependencies_first l ∧ Forall included l) ls) as (ls & E & Hls).
  { induction (into_values path 2 (types fs)) as [|t l IH]; [by exists []|].
    destruct (Hv t ltac:(left)) as (fds & E & Ho & Hi).
    destruct IH as (ls & E' & Hls); [intros; apply Hv; by right|].
    exists (fds :: ls). cbn in *. rewrite E, E'. split; [done|]. by constructor. }
  exists ls. by rewrite E.
Qed.

Lemma wf_files : (∀ t, wf t → files_ok t) ∧
  (∀ fs, wf_fields fs → ∀ syn t, (syn, t) ∈ types fs → files_ok t).
Proof.
  apply Ty_Fields_ind; cbn [wf wf_fields].
  - intros p _. pose proof timestamp_files as (ft & E1 & _ & Ho1 & Hi1).
    pose proof duration_files as (fd & E2 & _ & Ho2 & Hi2).
    assert (files_ok (TPrim PU64)) as Hnil by (by exists []).
    destruct p; first [exact Hnil
      | exists [ft]; cbn; rewrite E1; split; [done|split; [done|by apply Forall_singleton]]
      | exists [fd]; cbn; rewrite E2; split; [done|split; [done|by apply Forall_singleton]]].
  - intros g Hg. apply (described_files _ _ (described_generated g Hg)).
  - intros. by exists [].
  - intros path name fs IH (_ & _ & _ & Hfs).
    destruct (struct_files path name fs (IH Hfs)) as (ls & _ & E & Hls). exists (concat ls).
    split; [done|]. split.
    + apply ordered_concat. eapply Forall_impl; [exact Hls|]. by intros l [? _].
    + apply Forall_concat. eapply Forall_impl; [exact Hls|]. by intros l [_ ?].
  - done.
  - done.
  - done.
  - intros _ syn t Hin. by apply elem_of_nil in Hin.
  - intros name syn t IHt fs IHfs [Ht Hfs] syn' t' [[= -> ->]|Hin]%elem_of_cons; [by apply IHt|].
    by eapply IHfs.
Qed.

(** The files of a field are among those of the struct. *)
Lemma field_files path name fs syn t fds fds' : wf (TStruct path name fs) → (syn, t) ∈ types fs →
  file_descriptors (TStruct path name fs) = Some fds → file_descriptors t = Some fds' → fds' ⊆ fds.
Proof.
  intros (_ & _ & [Hsyn _] & Hw) Hin Hf Ht.
  destruct (struct_files path name fs (proj2 wf_files fs Hw)) as (ls & Em & E & _).
  rewrite E in Hf. injection Hf as <-.
  assert (Some fds' ∈ into_values path 2 (file_defs fs)) as Hv.
  { rewrite file_defs_types, into_values_fmap, <- Ht. apply list_elem_of_fmap_2.
    eapply into_values_has; [exact Hin|]. intros. by eapply Hsyn. }
  apply mapM_Some in Em. intros f Hff. apply list_elem_of_lookup in Hv as [i Hi].
  destruct (Forall2_lookup_l _ _ _ _ _ Em Hi) as (l & Hl & [= ->]).
  apply list_elem_of_In, in_concat. exists l. split; apply list_elem_of_In; [|done].
  by eapply list_elem_of_lookup_2.
Qed.
End files.

(** ** A reader that knows the schema *)

(** A message as the schema shows it: its fields by name, each with its values. *)
Inductive DynVal :=
| DUint (v : Z) | DSint (v : Z) | DBool (b : bool) | DFloat (bits : Z) | DDouble (bits : Z)
| DString (bs : list byte) | DBytes (bs : list byte)
| DEnum (variant : string) | DOpen (number : Z)
| DExternal (type_name : string) (bs : list byte)
| DMessage (fields : list (string * list DynVal)).

Definition defined_inb (fds : FileDescriptorSet) (type_name : string) : bool :=
  existsb (λ f, match fp_package f with
    | Some package => existsb (λ d, bool_decide (type_name = ("." +:+ full_name package (d_name d))%string))
                        (fp_message_type f)
    | None => false
    end) fds.

(** What a reader makes of the number of an enum. *)
Abbreviation Seen := (EnumDescriptorProto → Z → DynVal).
(** As in proto3: the variant that has it, as 32 bits, and otherwise the number. *)
Definition open_enum : Seen := λ e v,
  match list_find (λ w, w.2 = to_signed 32 v) (ed_value e) with
  | Some (_, (variant, _)) => DEnum variant
  | None => DOpen (to_signed 32 v)
  end.

Section reader.
Context (see : Seen).
(** A value of a field of the message [d]: a relative type name is looked up among
    the definitions nested in [d]; an absolute one must be defined in a file, and
    the message of that type is left as it is. *)
Definition read_value (read : DescriptorProto → list byte → option DynVal) (fds : FileDescriptorSet)
    (d : DescriptorProto) (f : FieldDescriptorProto) (p : payload) : option DynVal :=
  match fd_type f, p, fd_type_name f with
  | FtUint64, PVarint v, None => Some (DUint v)
  | FtUint32, PVarint v, None => if decide (fits 32 v) then Some (DUint v) else None
  | FtSint64, PVarint v, None => Some (DSint (unzigzag v))
  | FtSint32, PVarint v, None => if decide (fits_signed 32 (unzigzag v)) then Some (DSint (unzigzag v)) else None
  | FtBool, PVarint v, None => Some (DBool (negb (v =? 0)))
  | FtFloat, PFixed32 v, None => Some (DFloat v)
  | FtDouble, PFixed64 v, None => Some (DDouble v)
  | FtString, PLen bs, None => if utf8_valid bs then Some (DString bs) else None
  | FtBytes, PLen bs, None => Some (DBytes bs)
  | FtEnum, PVarint v, Some name =>
    '(_, e) ← list_find (λ e, ed_name e = name) (d_enum_type d); Some (see e v)
  | FtMessage, PLen bs, Some name =>
    if absolute name then if defined_inb fds name then Some (DExternal name bs) else None
    else '(_, m) ← list_find (λ m, d_name m = name) (d_nested_type d); read m bs
  | _, _, _ => None
  end.
(** Without [Repeated], the last value counts. *)
Definition by_label (l : Label) (vs : list DynVal) : list DynVal :=
  match l with LabelRepeated => vs | _ => option_list (last vs) end.
Definition read_field (read : DescriptorProto → list byte → option DynVal) (fds : FileDescriptorSet)
    (d : DescriptorProto) (rs : list wire_record) (f : FieldDescriptorProto) :
    option (string * list DynVal) :=
  vs ← mapM (read_value read fds d f) (filter (λ r, r.1 = fd_number f) rs).*2;
  Some (fd_name f, by_label (fd_label f) vs).
(** All records must belong to fields of the descriptor. *)
Fixpoint read_message (fuel : nat) (fds : FileDescriptorSet) (d : DescriptorProto) (bs : list byte) :
    option DynVal :=
  match fuel with
  | O => None
  | S fuel =>
    rs ← parse_records bs;
    if decide (Forall (λ r, r.1 ∈ fd_number <$> d_field d) rs)
    then DMessage <$> mapM (read_field (read_message fuel fds) fds d rs) (d_field d)
    else None
  end.
End reader.

(** ** What the reader shows *)

Section view.
Context `{Prost} `{Buf} `{Chrono} `{Generated}.

Definition prim_view (p : Prim) : prim_den p → DynVal :=
  match p with
  | PU64 | PU32 | PU16 | PU8 => λ x, DUint (u_val x)
  | PI64 | PI32 | PI16 | PI8 => λ x, DSint (s_val x)
  | PBool => λ b, DBool b
  | PF32 => λ x, DFloat (f32_bits x)
  | PF64 => λ x, DDouble (f64_bits x)
  | PString | PStr => λ s, DString (as_bytes s)
  | PBytes => λ b, DBytes (pb_bytes b)
  | PTimestamp => λ t, DExternal ".google.protobuf.Timestamp" (Timestamp_encode_raw t [])
  | PDuration => λ d, DExternal ".google.protobuf.Duration" (Duration_encode_raw d [])
  | PDateTime => λ t, DExternal ".google.protobuf.Timestamp" (raw_of Timestamp_encode_raw (timestamp_of t))
  | PTimeDelta => λ d, DExternal ".google.protobuf.Duration" (raw_of Duration_encode_raw (duration_of d))
  end.
(** The value of an enum, by its name and variants: as a reader sees what is written,
    and by the variant that it is. *)
Abbreviation Shown := (string → list (string * Z) → Z → DynVal).
Definition enum_seen (see : Seen) : Shown := λ name variants d,
  see {| ed_name := name; ed_value := variant_descriptors variants |} (wrap 64 d).
Definition variant_name (variants : list (string * Z)) (d : Z) : string :=
  match list_find (λ v, v.2 = d) variants with Some (_, v) => v.1 | None => "" end.

Definition by_variant : Shown := λ _ variants d, DEnum (variant_name variants d).

Section show.
Context (show : Shown).
Fixpoint view (t : Ty) : den t → list DynVal :=
  match t with
  | TPrim p => λ x, [prim_view p x]
  | TGenerated g => λ x, [DExternal (gt_type_name g) (encode_raw x [])]
  | TEnum name variants => λ x, [show name variants (discriminant x)]
  | TStruct _ _ fs => λ x, [DMessage (view_fields fs x)]
  | TVec t | TArray _ t => λ l, l ≫= view t
  | TOption t => λ o, match o with Some x => view t x | None => [] end
  end
with view_fields (fs : Fields) : den_fields fs → list (string * list DynVal) :=
  match fs with
  | FNil => λ _, []
  | FCons name _ t fs => λ x, (name, view t x.1) :: view_fields fs x.2
  end.
End show.

(** The nesting of messages bounds the reader's recursion. *)
Fixpoint depth (t : Ty) : nat :=
  match t with
  | TPrim _ | TGenerated _ | TEnum _ _ => 0
  | TStruct _ _ fs => S (depth_fields fs)
  | TVec t | TArray _ t | TOption t => depth t
  end
with depth_fields (fs : Fields) : nat :=
  match fs with FNil => 0 | FCons _ _ t fs => depth t `max` depth_fields fs end.

Lemma view_single show t x : @repeating _ (impl t) = false → (length (view show t x) ≤ 1)%nat.
Proof.
  induction t as [| | | | | |t IH]; intros Hr; try discriminate Hr; try reflexivity.
  destruct x as [x|]; [by apply IH|cbn; lia].
Qed.
Lemma by_label_view show name n t x :
  by_label (fd_label (field_def name n t)) (view show t x) = view show t x.
Proof.
  unfold field_def. cbn. destruct (@repeating _ (impl t)) eqn:E; [done|].
  pose proof (view_single show t x E). destruct (view show t x) as [|v [|]]; cbn in *; [..|lia];
    by destruct (@optional _ (impl t)).
Qed.

(** Records and field numbers. *)
Lemma recs_number t n x : Forall (λ r, r.1 = n) (recs t n x).
Proof.
  induction t as [| | |path name fs|t IH|k t IH|t IH]; try by constructor.
  1,2: induction x; cbn; [done|by apply Forall_app].
  by destruct x; [apply IH|constructor].
Qed.
Lemma field_recs_number fs n x : Forall (λ r, n ≤ r.1 < n + count fs) (field_recs fs n x).
Proof.
  revert n. induction fs as [|name syn t fs IH]; intros n; [done|]. cbn [count].
  change (field_recs (FCons name syn t fs) n x) with (recs t n x.1 ++ field_recs fs (n + 1) x.2).
  pose proof (count_nonneg fs). apply Forall_app. split.
  - eapply Forall_impl; [apply recs_number|]. cbn. intros. lia.
  - eapply Forall_impl; [apply IH|]. cbn. intros. lia.
Qed.
Lemma field_defs_numbers fs n m : n ≤ m < n + count fs → m ∈ fd_number <$> field_defs n fs.
Proof.
  revert n. induction fs as [|name syn t fs IH]; intros n Hm; cbn [count] in Hm; [lia|].
  cbn [field_defs]. rewrite fmap_cons. destruct (decide (m = n)) as [->|Hne]; [left|].
  right. apply IH. lia.
Qed.
End view.

(** ** Reading back *)

Lemma list_find_unique {A} (P : A → Prop) `{∀ x, Decision (P x)} l x :
  x ∈ l → P x → (∀ y, y ∈ l → P y → y = x) → ∃ i, list_find P l = Some (i, x).
Proof.
  intros Hin Hx Hu. destruct (list_find_elem_of P l x Hin Hx) as [[i y] Hf]. exists i.
  pose proof (proj1 (list_find_Some _ _ _ _) Hf) as (Hl & Hy & _).
  by rewrite Hf, (Hu y (list_elem_of_lookup_2 _ _ _ Hl) Hy).
Qed.

Lemma defined_in_b fds name : defined_in fds name → defined_inb fds name = true.
Proof.
  intros (f & d & full & Hf & (package & Hp & Hd & ->) & ->). apply existsb_exists.
  exists f. split; [by apply list_elem_of_In|]. rewrite Hp. apply existsb_exists.
  exists d. split; [by apply list_elem_of_In|]. by apply bool_decide_true.
Qed.
Lemma defined_in_mono fds fds' name : fds ⊆ fds' → defined_in fds name → defined_in fds' name.
Proof. intros Hs (f & d & full & Hf & Hd). exists f, d, full. split; [by apply Hs|done]. Qed.

(** *** Enums by their numbers *)

(** A discriminant whose lower 32 bits are its position among the variants. *)
Definition in_place (variants : list (string * Z)) (d : Z) : Prop :=
  ∃ i, variants.*2 !! i = Some d ∧ to_signed 32 (wrap 64 d) = Z.of_nat i.
Lemma variant_name_at variants i name d : NoDup variants.*2 → variants !! i = Some (name, d) →
  variant_name variants d = name.
Proof.
  intros Hnd Hi. unfold variant_name.
  destruct (list_find_elem_of (λ v, v.2 = d) variants (name, d)) as [[j [n e]] Hf];
    [by eapply list_elem_of_lookup_2|done|].
  rewrite Hf. apply list_find_Some in Hf as (Hj & <- & _). cbn in *.
  assert (i = j) as <-; [|congruence].
  eapply NoDup_lookup; [exact Hnd|..]; rewrite list_lookup_fmap; [by rewrite Hi|by rewrite Hj].
Qed.
Lemma variant_number variants k : Z.of_nat (length variants) ≤ 2 ^ 31 →
  variant_descriptors variants !! k = (λ v, (v.1, Z.of_nat k)) <$> variants !! k.
Proof.
  intros Hlen. unfold variant_descriptors. rewrite list_lookup_imap.
  destruct (variants !! k) as [v|] eqn:Hk; [|done]. cbn.
  pose proof (lookup_lt_Some _ _ _ Hk). by rewrite to_signed_id by (unfold fits_signed; lia).
Qed.
(** The reader sees the variant exactly if its discriminant is in place. *)
Lemma enum_in_place name variants d : enum_ok variants → d ∈ variants.*2 →
  enum_seen open_enum name variants d = by_variant name variants d ↔ in_place variants d.
Proof.
  intros (Hn & Hd & Hlen & _) ([v d'] & -> & [i Hi]%list_elem_of_lookup)%list_elem_of_fmap.
  cbn [snd]. unfold enum_seen, by_variant, open_enum. cbn [ed_value].
  rewrite (variant_name_at variants i v d' Hd Hi).
  assert (variants.*2 !! i = Some d') as Hi2 by (by rewrite list_lookup_fmap, Hi).
  set (m := to_signed 32 (wrap 64 d')). split.
  - destruct (list_find _ _) as [[k [u n]]|] eqn:Hf; [|done]. intros [= ->]. exists i. split; [done|].
    apply list_find_Some in Hf as (Hk & Hm & _). rewrite variant_number in Hk by done.
    destruct (variants !! k) as [[u e]|] eqn:Hvk; [|done]. injection Hk as -> <-.
    fold m in Hm. cbn in Hm. change (m = Z.of_nat i). rewrite <- Hm. f_equal.
    eapply NoDup_lookup; [exact Hn|..]; rewrite list_lookup_fmap; [by rewrite Hvk|by rewrite Hi].
  - intros (k & Hk & Hm). assert (k = i) as -> by (eapply NoDup_lookup; [exact Hd|done|done]).
    rewrite (proj2 (list_find_Some _ _ i (v, Z.of_nat i))); [done|].
    split_and!; [by rewrite variant_number, Hi|by cbn; fold m in Hm; rewrite Hm|].
    intros j [u n] Hj Hlt. rewrite variant_number in Hj by done.
    destruct (variants !! j); [|done]. injection Hj as _ <-. cbn. lia.
Qed.

Section placed.
Context `{Prost} `{Buf} `{Chrono} `{Generated} `{IncludedFiles}.
(** All values of enums are in place. *)
Fixpoint placed (t : Ty) : den t → Prop :=
  match t with
  | TPrim _ | TGenerated _ => λ _, True
  | TEnum _ variants => λ x, in_place variants (discriminant x)
  | TStruct _ _ fs => λ x, placed_fields fs x
  | TVec t | TArray _ t => Forall (placed t)
  | TOption t => λ o, match o with Some x => placed t x | None => True end
  end
with placed_fields (fs : Fields) : den_fields fs → Prop :=
  match fs with
  | FNil => λ _, True
  | FCons _ _ t fs => λ x, placed t x.1 ∧ placed_fields fs x.2
  end.

Lemma view_length s1 s2 t x : length (view s1 t x) = length (view s2 t x).
Proof.
  induction t as [| | | |t IH|k t IH|t IH]; try done.
  1,2: cbn; induction x as [|y x IHx]; [done|]; cbn; rewrite !length_app; by rewrite IHx, (IH y).
  by destruct x; [apply IH|].
Qed.
Lemma placed_repeated t l :
  (∀ x, valid t x → view (enum_seen open_enum) t x = view by_variant t x ↔ placed t x) →
  Forall (valid t) l →
  l ≫= view (enum_seen open_enum) t = l ≫= view by_variant t ↔ Forall (placed t) l.
Proof.
  intros Hx. induction 1 as [|x l Hv _ IH]; [done|].
  change ((x :: l) ≫= view (enum_seen open_enum) t) with
    (view (enum_seen open_enum) t x ++ (l ≫= view (enum_seen open_enum) t)).
  change ((x :: l) ≫= view by_variant t) with (view by_variant t x ++ (l ≫= view by_variant t)).
  rewrite Forall_cons, <- IH, <- (Hx x Hv). split.
  - intros E. by apply app_inj_1 in E; [|apply view_length].
  - by intros [-> ->].
Qed.
Lemma placed_view :
  (∀ t, wf t → ∀ x, valid t x → view (enum_seen open_enum) t x = view by_variant t x ↔ placed t x) ∧
  (∀ fs, wf_fields fs → ∀ x, valid_fields fs x →
    view_fields (enum_seen open_enum) fs x = view_fields by_variant fs x ↔ placed_fields fs x).
Proof.
  apply Ty_Fields_ind; cbn [wf wf_fields].
  - done.
  - done.
  - intros name vs [_ Hvs] x Hx. cbn. rewrite <- (enum_in_place name vs) by done.
    split; [by intros [= ?]|by intros ->].
  - intros path name fs IH (_ & _ & _ & Hfs) x [Hx _].
    change ([DMessage (view_fields (enum_seen open_enum) fs x)] = [DMessage (view_fields by_variant fs x)]
      ↔ placed_fields fs x). rewrite <- (IH Hfs x Hx).
    split; [by intros [= ?]|by intros ->].
  - intros t IH Ht l Hl. apply placed_repeated; [|done]. intros. by apply IH.
  - intros k t IH Ht l [_ Hl]. apply placed_repeated; [|done]. intros. by apply IH.
  - intros t IH Ht [x|] Hx; [by apply IH|done].
  - done.
  - intros name syn t IHt fs IHfs [Ht Hfs] [x xs] [Hx Hxs]. cbn [placed_fields fst snd].
    rewrite <- (IHt Ht x Hx), <- (IHfs Hfs xs Hxs).
    change ((name, view (enum_seen open_enum) t x) :: view_fields (enum_seen open_enum) fs xs =
      (name, view by_variant t x) :: view_fields by_variant fs xs
      ↔ view (enum_seen open_enum) t x = view by_variant t x ∧
        view_fields (enum_seen open_enum) fs xs = view_fields by_variant fs xs).
    split; [by intros [= ? ?]|by intros [-> ->]].
Qed.
End placed.

Section reading.
Context `{ProstLaws} `{BufLaws} `{Chrono} `{GeneratedLaws} `{HashOrderLaws} `{DescriptorCodecLaws}
  `{!IncludedFiles} `{!IncludedLaws}.

Context (see : Seen).
Abbreviation read_message := (read_message see).
Abbreviation view := (view (enum_seen see)).
Abbreviation view_fields := (view_fields (enum_seen see)).

(** The files of a type are among the files of the schema. *)
Definition covers (fds : FileDescriptorSet) (t : Ty) : Prop :=
  ∃ fds', file_descriptors t = Some fds' ∧ fds' ⊆ fds.

(** The type's name means the type, within the message [d]. *)
Record resolves (fds : FileDescriptorSet) (d : DescriptorProto) (t : Ty) : Prop := {
  resolves_absolute name : type_name t = Some name → absolute name = true → defined_inb fds name = true;
  resolves_enum name e : type_name t = Some name → absolute name = false → enum_descriptor t = Some e →
    ∃ i, list_find (λ e, ed_name e = name) (d_enum_type d) = Some (i, e);
  resolves_message name m : type_name t = Some name → absolute name = false → descriptor t = Some m →
    ∃ i, list_find (λ m, d_name m = name) (d_nested_type d) = Some (i, m)
}.

Lemma base_descriptors t : type_name (base t) = type_name t ∧
  enum_descriptor (base t) = enum_descriptor t ∧ descriptor (base t) = descriptor t.
Proof. by induction t. Qed.
Lemma enum_descriptor_name t e : wf t → enum_descriptor t = Some e →
  type_name t = Some (ed_name e) ∧ absolute (ed_name e) = false.
Proof. induction t; cbn; try done; intros Hw He; [|by auto..]. simplify_eq/=. by destruct Hw as [[_ ?] _]. Qed.
Lemma descriptor_name t m : wf t → descriptor t = Some m →
  type_name t = Some (d_name m) ∧ absolute (d_name m) = false.
Proof.
  induction t as [| | |path name fs|t IH|k t IH|t IH]; try done; intros Hw He; [|by apply IH..].
  injection He as <-. destruct Hw as [[_ ?] _]. done.
Qed.

Lemma generated_absolute g : g ∈ schemas.all → absolute (gt_type_name g) = true.
Proof.
  intros Hg. destruct schemas_distinct as (_ & _ & Hall). rewrite Forall_forall in Hall.
  destruct (Hall g Hg) as [-> _]. done.
Qed.

Lemma absolute_defined fds t name : wf t → covers fds t → type_name t = Some name →
  absolute name = true → defined_inb fds name = true.
Proof.
  intros Hw (fds' & Hf & Hs) Hn Ha. apply defined_in_b, (defined_in_mono fds'); [done|]. clear Hs.
  revert Hw Hf Hn. induction t as [p|g|nm vs|path nm fs|t IH|k t IH|t IH]; intros Hw Hf Hn;
    try (by apply IH).
  - destruct timestamp_files as (ft & E1 & Ed1 & _), duration_files as (fd & E2 & Ed2 & _).
    destruct p; try done; cbn in Hf, Hn; injection Hn as <-;
      rewrite ?E1, ?E2 in Hf; injection Hf as <-.
    1,3: destruct (included_complete descriptors.TIMESTAMP ".google.protobuf.Timestamp")
      as (fds1 & Hd & _ & Hdef & _); [left|]; by rewrite Ed1 in Hd; injection Hd as <-.
    all: destruct (included_complete descriptors.DURATION ".google.protobuf.Duration")
      as (fds1 & Hd & _ & Hdef & _); [right; left|]; by rewrite Ed2 in Hd; injection Hd as <-.
  - injection Hn as <-.
    destruct (included_complete _ _ (described_generated g Hw)) as (fds1 & Hd & _ & Hdef & _).
    change (fds_decode (gt_descriptor g) = Some fds') in Hf. by rewrite Hd in Hf; injection Hf as <-.
  - injection Hn as <-. destruct Hw as [[_ Hrel] _]. by rewrite Hrel in Ha.
  - injection Hn as <-. destruct Hw as [[_ Hrel] _]. by rewrite Hrel in Ha.
Qed.

Lemma enum_defs_types fs : enum_defs fs = prod_map id enum_descriptor <$> types fs.
Proof. induction fs as [|name syn t fs IH]; [done|]. cbn. by f_equal. Qed.
Lemma nested_defs_types fs : nested_defs fs = prod_map id descriptor <$> types fs.
Proof. induction fs as [|name syn t fs IH]; [done|]. cbn. f_equal. exact IH. Qed.

(** What a hash map of the macro collects from the fields' types. *)
Lemma collected {A} path k fs (f : Ty → option A) a : scoped fs →
  a ∈ omap id (into_values path k (prod_map id f <$> types fs)) ↔
  ∃ syn t, (syn, t) ∈ types fs ∧ f t = Some a.
Proof.
  intros [Hsyn _]. rewrite list_elem_of_omap, into_values_fmap. split.
  - intros (o & (t & -> & (syn & Hin)%elem_of_into_values)%list_elem_of_fmap & Ho). by exists syn, t.
  - intros (syn & t & Hin & Ht). exists (f t). split; [|done]. apply list_elem_of_fmap_2.
    eapply into_values_has; [exact Hin|]. intros. by eapply Hsyn.
Qed.

Lemma field_resolves path name fs d fds syn t : wf (TStruct path name fs) →
  covers fds (TStruct path name fs) → descriptor (TStruct path name fs) = Some d →
  (syn, t) ∈ types fs → resolves fds d t ∧ covers fds t.
Proof.
  intros Hw (fds' & Hf & Hs) Hd Hin.
  pose proof Hw as (_ & _ & Hsc & Hwf). pose proof Hsc as [_ Hnames].
  pose proof (wf_fields_in fs syn t Hwf Hin) as Hwt.
  assert (covers fds t) as Hcov.
  { destruct (proj1 wf_files t Hwt) as (fdst & Hft & _). exists fdst. split; [done|].
    etransitivity; [by eapply field_files|done]. }
  split; [|done]. injection Hd as <-. split.
  - intros n Hn Ha. by apply (absolute_defined fds t).
  - intros n e Hn Ha He. cbn [d_enum_type]. rewrite enum_defs_types.
    apply list_find_unique; [apply collected; [done|by exists syn, t]| |].
    + destruct (enum_descriptor_name t e Hwt He) as [E _]. congruence.
    + intros e' (syn' & t' & Hin' & He')%collected <-; [|done].
      pose proof (wf_fields_in fs syn' t' Hwf Hin') as Hwt'.
      destruct (enum_descriptor_name t' e' Hwt' He') as [Hn' _].
      pose proof (Hnames _ _ _ _ _ Hin Hin' Hn Hn' Ha) as Hb.
      destruct (base_descriptors t) as (_ & E1 & _), (base_descriptors t') as (_ & E2 & _). congruence.
  - intros n m Hn Ha Hm. cbn [d_nested_type]. rewrite nested_defs_types.
    apply list_find_unique; [apply collected; [done|by exists syn, t]| |].
    + destruct (descriptor_name t m Hwt Hm) as [E _]. congruence.
    + intros m' (syn' & t' & Hin' & Hm')%collected <-; [|done].
      pose proof (wf_fields_in fs syn' t' Hwf Hin') as Hwt'.
      destruct (descriptor_name t' m' Hwt' Hm') as [Hn' _].
      pose proof (Hnames _ _ _ _ _ Hin Hin' Hn Hn' Ha) as Hb.
      destruct (base_descriptors t) as (_ & _ & E1), (base_descriptors t') as (_ & _ & E2). congruence.
Qed.

(** *** The fields *)

Lemma mapM_append {A B} (f : A → option B) l k r s :
  mapM f l = Some r → mapM f k = Some s → mapM f (l ++ k) = Some (r ++ s).
Proof. intros Hl%mapM_Some Hk%mapM_Some. by apply mapM_Some, Forall2_app. Qed.
Lemma filter_all_of {A} (P : A → Prop) `{∀ x, Decision (P x)} l : Forall P l → filter P l = l.
Proof. induction 1 as [|x l Hx _ IH]; [done|]. by rewrite filter_cons_True, IH. Qed.

Abbreviation reads fuel fds d f := (read_value see (read_message fuel fds) fds d f).

Lemma read_prim fuel fds d f p x : fd_type f = @field_type _ (impl (TPrim p)) →
  fd_type_name f = type_name (TPrim p) → covers fds (TPrim p) → prim_valid p x →
  reads fuel fds d f (prim_payload p x) = Some (prim_view p x).
Proof.
  intros Hft Hn Hc Hx. unfold read_value. rewrite Hft, Hn.
  assert (∀ name, type_name (TPrim p) = Some name → absolute name = true → defined_inb fds name = true)
    as Habs by (intros; by apply (absolute_defined fds (TPrim p))).
  destruct p; cbn in *; try done; rewrite ?unzigzag_zigzag, ?decide_True by
    (unfold fits, fits_signed in *; lia); try done.
  all: try (by destruct x).
  all: try (by rewrite (proj2 Hx)).
  all: by rewrite Habs.
Qed.

Lemma read_repeated fuel fds d f t n l :
  (∀ x, valid t x → mapM (reads fuel fds d f) (recs t n x).*2 = Some (view t x)) →
  Forall (valid t) l → mapM (reads fuel fds d f) (l ≫= recs t n).*2 = Some (l ≫= view t).
Proof.
  intros Hx. induction 1 as [|x l Hv _ IH]; [done|].
  change ((x :: l) ≫= recs t n) with (recs t n x ++ (l ≫= recs t n)).
  change ((x :: l) ≫= view t) with (view t x ++ (l ≫= view t)).
  rewrite fmap_app. by apply mapM_append; [apply Hx|].
Qed.

Lemma read_field_here fuel fds d n name t fs (x : den t * den_fields fs) pre :
  Forall (λ r, r.1 < n) pre →
  mapM (reads fuel fds d (field_def name n t)) (recs t n x.1).*2 = Some (view t x.1) →
  read_field see (read_message fuel fds) fds d (pre ++ recs t n x.1 ++ field_recs fs (n + 1) x.2)
    (field_def name n t) = Some (name, view t x.1).
Proof.
  intros Hpre Ht. unfold read_field. cbn [fd_number field_def fd_name].
  rewrite !filter_app, (filter_none _ pre), (filter_none _ (field_recs fs (n + 1) x.2)).
  - rewrite app_nil_r. cbn [app]. rewrite (filter_all_of _ (recs t n x.1)) by apply recs_number.
    change {| fd_name := name; fd_number := n; fd_label := _; fd_type := _; fd_type_name := _ |}
      with (field_def name n t). rewrite Ht. cbn [mbind option_bind].
    by rewrite <- (by_label_view (enum_seen see) name n t x.1) at 2.
  - intros r Hr. pose proof (proj1 (Forall_forall _ _) (field_recs_number fs (n + 1) x.2) r Hr) as Hn. cbv beta in Hn. lia.
  - intros r Hr. pose proof (proj1 (Forall_forall _ _) Hpre r Hr). cbn in *. lia.
Qed.

(** What reading a type, and the fields of a struct, comes to. *)
Definition readable (t : Ty) : Prop := ∀ fuel fds d f n x, (depth t ≤ fuel)%nat →
  fd_type f = @field_type _ (impl t) → fd_type_name f = type_name t →
  wf t → covers fds t → resolves fds d t → valid t x →
  mapM (reads fuel fds d f) (recs t n x).*2 = Some (view t x).
Definition readable_fields (fs : Fields) : Prop := ∀ fuel fds d n pre x, (depth_fields fs ≤ fuel)%nat →
  wf_fields fs → (∀ syn t, (syn, t) ∈ types fs → resolves fds d t ∧ covers fds t) →
  valid_fields fs x → Forall (λ r, r.1 < n) pre →
  mapM (read_field see (read_message fuel fds) fds d (pre ++ field_recs fs n x)) (field_defs n fs) =
    Some (view_fields fs x).

Lemma read_struct path name fs fuel fds d x : readable_fields fs → wf (TStruct path name fs) →
  covers fds (TStruct path name fs) → descriptor (TStruct path name fs) = Some d →
  valid_fields fs x → (depth_fields fs ≤ fuel)%nat →
  read_message (S fuel) fds d (encode_records (field_recs fs 1 x)) = Some (DMessage (view_fields fs x)).
Proof.
  intros Hfs Hw Hc Hd Hx Hfuel. pose proof Hw as (_ & Hcount & _ & Hwf).
  destruct (encode_struct fs x _ [] Hcount (proj2 wf_numbers fs Hwf) Hx (le_n _)) as [_ Hp].
  cbn [read_message]. rewrite Hp. cbn [mbind option_bind].
  pose proof Hd as Hd'. injection Hd' as <-. cbn [d_field].
  rewrite decide_True.
  - pose proof (Hfs fuel fds _ 1 [] x Hfuel Hwf (λ syn t, field_resolves _ _ _ _ _ syn t Hw Hc Hd) Hx
      (List.Forall_nil _)) as Hr. cbn [app] in Hr. by rewrite Hr.
  - eapply Forall_impl; [apply field_recs_number|]. intros r Hr. cbv beta in Hr.
    apply field_defs_numbers. lia.
Qed.

Lemma read_nested path name fs : readable_fields fs → readable (TStruct path name fs).
Proof.
  intros Hfs fuel fds d f n x Hfuel Hft Hn Hw Hc Hr [Hx _].
  assert (∃ m, descriptor (TStruct path name fs) = Some m) as [m Hm] by (eexists; reflexivity).
  pose proof Hw as [[_ Hrel] _].
  destruct (resolves_message _ _ _ Hr name m eq_refl Hrel Hm) as [i Hf].
  destruct fuel as [|fuel]; [cbn in Hfuel; lia|].
  change ((recs (TStruct path name fs) n x).*2) with [PLen (encode_records (field_recs fs 1 x))].
  cbn [mapM]. unfold read_value at 1. rewrite Hft, Hn.
  change (@field_type _ (impl (TStruct path name fs))) with FtMessage. cbn [type_name].
  rewrite Hrel, Hf. cbn [mbind option_bind].
  rewrite (read_struct path name fs) by (try done; cbn [depth] in Hfuel; lia). done.
Qed.

Lemma read_enum name variants : readable (TEnum name variants).
Proof.
  intros fuel fds d f n x _ Hft Hn Hw _ Hr Hx. pose proof Hw as [[_ Hrel] _].
  destruct (resolves_enum _ _ _ Hr name _ eq_refl Hrel eq_refl) as [i Hf].
  change ((recs (TEnum name variants) n x).*2) with [PVarint (wrap 64 (discriminant x))].
  cbn [mapM]. unfold read_value at 1. rewrite Hft, Hn.
  change (@field_type _ (impl (TEnum name variants))) with FtEnum. cbn [type_name].
  by rewrite Hf.
Qed.

Lemma resolves_base fds d t t' : base t = base t' → resolves fds d t → resolves fds d t'.
Proof.
  intros E [H1' H2' H3']. destruct (base_descriptors t) as (N & En & D), (base_descriptors t') as (N' & En' & D').
  rewrite E in *. split; intros; [apply H1'|eapply H2'|eapply H3']; congruence.
Qed.

Lemma all_readable : (∀ t, readable t) ∧ (∀ fs, readable_fields fs).
Proof.
  apply Ty_Fields_ind.
  - intros p fuel fds d f n x _ Hft Hn Hw Hc _ Hx. cbn [recs view].
    change (([(n, prim_payload p x)]).*2) with [prim_payload p x]. cbn [mapM].
    by rewrite (read_prim fuel fds d f p x).
  - intros g fuel fds d f n x _ Hft Hn Hw Hc Hr Hx. cbn in *. unfold read_value.
    rewrite Hft, Hn. rewrite (generated_absolute g Hw).
    by rewrite (resolves_absolute _ _ _ Hr _ eq_refl (generated_absolute g Hw)).
  - apply read_enum.
  - apply read_nested.
  - intros t IH fuel fds d f n l Hfuel Hft Hn Hw Hc Hr Hl. apply (read_repeated fuel fds d f t n l); [|done].
    intros x Hx. apply IH; try done. by apply (resolves_base _ _ (TVec t)).
  - intros k t IH fuel fds d f n l Hfuel Hft Hn Hw Hc Hr [_ Hl].
    apply (read_repeated fuel fds d f t n l); [|done].
    intros x Hx. apply IH; try done. by apply (resolves_base _ _ (TArray k t)).
  - intros t IH fuel fds d f n [x|] Hfuel Hft Hn Hw Hc Hr Hx; [|done].
    apply IH; try done. by apply (resolves_base _ _ (TOption t)).
  - done.
  - intros name syn t IHt fs IHfs fuel fds d n pre [x xs] Hfuel [Hwt Hw] Hall [Hx Hxs] Hpre.
    cbn [fst snd] in Hx, Hxs.
    cbn [depth_fields] in Hfuel.
    destruct (Hall syn t ltac:(left)) as [Hr Hc].
    assert (mapM (reads fuel fds d (field_def name n t)) (recs t n x).*2 = Some (view t x)) as Ht
      by (apply IHt; try done; lia).
    change (field_recs (FCons name syn t fs) n (x, xs)) with (recs t n x ++ field_recs fs (n + 1) xs).
    pose proof (read_field_here fuel fds d n name t fs (x, xs) pre Hpre Ht) as Hread.
    cbn [fst snd] in Hread. cbn [field_defs mapM]. rewrite Hread.
    cbn [mbind option_bind]. rewrite app_assoc, IHfs; [done|lia|done| |done|].
    + intros syn' t' Hin. apply (Hall syn' t'). by right.
    + apply Forall_app. split; [by eapply Forall_impl; [exact Hpre|]; cbn; intros; lia|].
      eapply Forall_impl; [apply recs_number|]. cbn. intros. lia.
Qed.

(** *** The published files *)

Lemma included_named f : included f → names_path f.
Proof.
  intros (bs & name & fds & Hin & Hd & Hf).
  destruct (included_complete bs name Hin) as (fds' & Hd' & _ & _ & Hn). rewrite Hd in Hd'.
  injection Hd' as <-. by apply (proj1 (Forall_forall _ _) Hn).
Qed.
(** Deduplication by name loses nothing. *)
Lemma dedup_covers fds : Forall included fds → fds ⊆ dedup [] fds.
Proof.
  intros Hi f Hf. rewrite Forall_forall in Hi.
  destruct (included_named f (Hi f Hf)) as (name & Hn & _).
  destruct (dedup_has [] fds f name Hf Hn (not_elem_of_nil _)) as (g & Hg & Hgn).
  destruct (Hi f Hf) as (bs1 & n1 & fds1 & Hd1 & Hf1 & Hin1).
  destruct (Hi g (dedup_sub _ _ _ Hg)) as (bs2 & n2 & fds2 & Hd2 & Hf2 & Hin2).
  by rewrite (included_agree bs1 n1 fds1 f bs2 n2 fds2 g) by (done || congruence).
Qed.
Lemma as_bytes_app s1 s2 : as_bytes (s1 +:+ s2) = as_bytes s1 ++ as_bytes s2.
Proof.
  unfold as_bytes, String.list_byte_of_string. rewrite <- map_app. f_equal.
  induction s1 as [|c s1 IH]; [done|]. change (String c s1 +:+ s2) with (String c (s1 +:+ s2)).
  cbn. f_equal. exact IH.
Qed.

Lemma schema_files name d fds : identifier name → dependencies_first fds → Forall included fds →
  let all := dedup [] fds ++ [schema_file name d (dedup [] fds)] in
  dependencies_first all ∧ NoDup (names all).
Proof.
  intros [Hid _] Ho Hi all. destruct (dedup_names [] fds) as [Hnd _]. split.
  - apply ordered_app; [by apply (dedup_ordered [])|]. split; [|done]. cbn.
    apply Forall_forall. intros dep Hdep. apply elem_of_app. by left.
  - unfold all, names. rewrite omap_app. apply NoDup_app. split_and!; [done| |cbn; apply NoDup_singleton].
    intros n (f & Hf & Hn)%list_elem_of_omap [= ->]%list_elem_of_singleton.
    rewrite Forall_forall in Hi.
    destruct (included_named f (Hi f (dedup_sub _ _ _ Hf))) as (n' & Hn' & Hs).
    rewrite Hn in Hn'. injection Hn' as <-. rewrite as_bytes_app in Hs.
    apply elem_of_app in Hs as [Hs|Hs]; [done|]. revert Hs. apply (bool_decide_unpack _). by vm_compute.
Qed.

End reading.

Section describing.
Context `{ProstLaws} `{BufLaws} `{Chrono} `{GeneratedLaws} `{HashOrderLaws} `{DescriptorCodecLaws}
  `{!IncludedFiles} `{!IncludedLaws}.

End describing.
