(* ===== verification/DeriveChecks.v ===== *)
(** * DeriveChecks: what the derive macro accepts, and that nothing is lost

    The checks of `derive_struct_impl`: which structs they accept
    ([derive_accepts]), and what they are for: two values of a struct are encoded
    alike exactly if they are [same], which counts of a container the elements in
    order and of chrono's times what they are converted to, and for the structs
    that are accepted, with the exceptions that [derivable] names, this is
    equality ([accepted_lossless]). *)

From S2P Require Import Prelude Bytes Time Channel Protobuf Descriptor Derive DeriveProofs.
Local Open Scope Z_scope.

(** ** The accepted structs *)

Inductive Container := CVec | COption | CArray.
(** The container that a type is, as far as its syntax shows, and its elements. *)
Definition container (ty : SynType) : option (Container * SynType) :=
  match ty with
  | SPath _ ident (AType inner _) =>
    if bool_decide (ident = "Vec"%string) then Some (CVec, inner)
    else if bool_decide (ident = "Option"%string) then Some (COption, inner) else None
  | SArray elem _ => Some (CArray, elem)
  | _ => None
  end.
(** No container directly inside a container, options of options apart. *)
Definition plain (ty : SynType) : bool :=
  match container ty with
  | Some (k, inner) =>
    match k, container inner with
    | _, None | COption, Some (COption, _) => true
    | _, _ => false
    end
  | None => true
  end.

Lemma container_tests ty :
  is_vec ty = match container ty with Some (CVec, _) => true | _ => false end ∧
  is_option ty = match container ty with Some (COption, _) => true | _ => false end ∧
  is_array ty = match container ty with Some (CArray, _) => true | _ => false end ∧
  unwrap_generic_type ty "Vec" = match container ty with Some (CVec, i) => Some i | _ => None end ∧
  unwrap_generic_type ty "Option" = match container ty with Some (COption, i) => Some i | _ => None end ∧
  unwrap_array_type ty = match container ty with Some (CArray, i) => Some i | _ => None end.
Proof.
  destruct ty as [prefix ident args|elem len|tokens]; [|done|done].
  unfold is_vec, is_option, container, unwrap_generic_type. cbn.
  destruct args; repeat case_bool_decide; try done; simplify_eq; naive_solver.
Qed.

Lemma check_field_ok n ty : check_field n ty = Ok tt ↔ n ≤ max_field_number ∧ plain ty = true.
Proof.
  destruct (container_tests ty) as (_ & _ & _ & E1 & E2 & E3).
  unfold check_field, is_vec_of_option, is_option_of_vec, is_vec_of_vec, is_array_of_option,
    is_option_of_array, is_array_of_array, is_array_of_vec, is_vec_of_array, plain.
  rewrite E1, E2, E3.
  destruct (Z.ltb_spec max_field_number n); [split; [done|intros []; lia]|].
  destruct (container ty) as [[k inner]|]; [|by split].
  destruct (container_tests inner) as (I1 & I2 & I3 & _).
  destruct k; cbn [is_some_and]; rewrite ?I1, ?I2, ?I3;
    destruct (container inner) as [[[] ]|]; split; intros; naive_solver.
Qed.

Lemma check_fields_ok n fields : check_fields n fields = Ok tt ↔
  (fields = [] ∨ n + Z.of_nat (length fields) ≤ max_field_number + 1) ∧ Forall (λ f, plain f.2 = true) fields.
Proof.
  revert n. induction fields as [|[name ty] fields IH]; intros n.
  { split; [|done]. split; [by left|constructor]. }
  cbn [check_fields length]. rewrite bind_Ok. split.
  - intros ([] & [Hn Hp]%check_field_ok & [Hl Hf]%IH). split; [|by constructor].
    right. destruct Hl as [->|Hl]; cbn [length] in *; lia.
  - intros [[[=]|Hl] [Hp Hf]%Forall_cons]. exists tt. split; [apply check_field_ok; split; [lia|done]|].
    apply IH. split; [|done]. destruct fields; [by left|right; lia].
Qed.

(** The first field that is not accepted decides the error. *)
Lemma check_fields_error n fields e : check_fields n fields = Err e ↔
  ∃ pre f post, fields = pre ++ f :: post ∧ check_fields n pre = Ok tt ∧
    check_field (n + Z.of_nat (length pre)) f.2 = Err e.
Proof.
  revert n. induction fields as [|[name ty] fields IH]; intros n.
  { split; [done|]. by intros ([] & ? & ? & ? & _). }
  cbn [check_fields]. destruct (check_field n ty) as [[]|e'|] eqn:Hc; cbn [mbind result_bind].
  - rewrite IH. split.
    + intros (pre & f & post & -> & Hpre & Hf). exists ((name, ty) :: pre), f, post.
      cbn [check_fields length]. rewrite Hc. split_and!; [done|done|]. rewrite <- Hf. f_equal. lia.
    + intros (pre & f & post & Heq & Hpre & Hf). destruct pre as [|g pre]; injection Heq as <- ->.
      * cbn in Hf. rewrite Z.add_0_r in Hf. congruence.
      * exists pre, f, post. cbn [check_fields] in Hpre. rewrite Hc in Hpre. split_and!; [done|done|].
        rewrite <- Hf. f_equal. cbn [length]. lia.
  - split.
    + intros [= ->]. exists [], (name, ty), fields. cbn. by rewrite Z.add_0_r.
    + intros (pre & f & post & Heq & Hpre & Hf). destruct pre as [|g pre]; injection Heq as <- ->.
      * cbn in Hf. rewrite Z.add_0_r in Hf. congruence.
      * cbn [check_fields] in Hpre. by rewrite Hc in Hpre.
  - exfalso. revert Hc. unfold check_field. by repeat case_match.
Qed.

Lemma leb128_two v : 0 ≤ v < 2 ^ 14 → (length (leb128 v) ≤ 2)%nat.
Proof.
  intros Hv. unfold leb128. cbn [leb128_fuel]. destruct (v <? 128); [cbn; lia|].
  assert (v / 128 < 128) by (apply Z.div_lt_upper_bound; lia).
  by rewrite (proj2 (Z.ltb_lt (v / 128) 128)).
Qed.

(** C21: the macro accepts a struct exactly if it has named fields, at most 2047,
    and no field is a container directly inside a container (as its syntax
    shows; options of options are let through).  Otherwise the first field
    that breaks a rule decides the error.  The tag of a field of an accepted
    struct takes at most two bytes. *)
Theorem derive_accepts fields :
  (derive_loggable (DataStruct (Some fields)) = Ok tt ↔
    Z.of_nat (length fields) ≤ max_field_number ∧ Forall (λ f, plain f.2 = true) fields) ∧
  (∀ e, derive_loggable (DataStruct (Some fields)) = Err e ↔
    ∃ pre f post, fields = pre ++ f :: post ∧ derive_loggable (DataStruct (Some pre)) = Ok tt ∧
      check_field (Z.of_nat (length pre) + 1) f.2 = Err e) ∧
  (derive_loggable (DataStruct (Some fields)) = Ok tt → ∀ n wire,
    1 ≤ n ≤ Z.of_nat (length fields) → 0 ≤ wire < 8 →
    tag n wire = 8 * n + wire ∧ (length (leb128 (tag n wire)) ≤ 2)%nat).
Proof.
  assert (derive_loggable (DataStruct (Some fields)) = Ok tt ↔
    Z.of_nat (length fields) ≤ max_field_number ∧ Forall (λ f, plain f.2 = true) fields) as Hok.
  { cbn. rewrite check_fields_ok. unfold max_field_number. destruct fields; cbn [length];
      split; intros [H1 H2]; (split; [|done]); [lia|by left|destruct H1; [done|lia]|right; lia]. }
  split; [done|]. split.
  - intros e. cbn. rewrite check_fields_error. by setoid_rewrite (Z.add_comm 1).
  - intros [Hlen _]%Hok n wire Hn Hw. unfold max_field_number in Hlen.
    destruct (tag_spec n wire ltac:(unfold field_number; lia) Hw) as [-> _].
    split; [done|]. apply leb128_two. lia.
Qed.

(** ** Nothing is lost *)

(** The encodings of the two time types are decodable, for values in range. *)
Class ProstTimesInjective `{Prost} : Prop := {
  Timestamp_raw_inj t u : fits 32 (ts_sec t) → fits 32 (ts_nsec t) →
    fits 32 (ts_sec u) → fits 32 (ts_nsec u) →
    Timestamp_encode_raw t [] = Timestamp_encode_raw u [] → t = u;
  Duration_raw_inj d e : fits_signed 32 (dur_sec d) → fits 32 (dur_nsec d) →
    fits_signed 32 (dur_sec e) → fits 32 (dur_nsec e) →
    Duration_encode_raw d [] = Duration_encode_raw e [] → d = e
}.

(** A type that is no container. *)
Definition single (t : Ty) : bool := match t with TVec _ | TArray _ _ | TOption _ => false | _ => true end.

(** The syntax of a container type shows the container. *)
Inductive written : SynType → Ty → Prop :=
| written_vec prefix s rest t : written s t → written (SPath prefix "Vec" (AType s rest)) (TVec t)
| written_option prefix s rest t : written s t → written (SPath prefix "Option" (AType s rest)) (TOption t)
| written_array s len n t : written s t → written (SArray s len) (TArray n t)
| written_base s t : single t = true → written s t.

Definition double_option (t : Ty) : Prop := match t with TOption (TOption _) => True | _ => False end.

(** All structs of a type are accepted by the macro, and what the macro cannot see
    does not occur: an alias that hides a container; the types of chrono, whose
    conversion saturates; and options of options. *)
Fixpoint derivable (t : Ty) : Prop :=
  match t with
  | TPrim p => p ≠ PDateTime ∧ p ≠ PTimeDelta
  | TGenerated _ | TEnum _ _ => True
  | TStruct _ _ fs =>
    derive_loggable (DataStruct (Some (syntax fs))) = Ok tt ∧
    (∀ syn t, (syn, t) ∈ types fs → written syn t ∧ ¬ double_option t) ∧ derivable_fields fs
  | TVec t | TArray _ t | TOption t => derivable t
  end
with derivable_fields (fs : Fields) : Prop :=
  match fs with FNil => True | FCons _ _ t fs => derivable t ∧ derivable_fields fs end.

(** Containers hold single values. *)
Definition flat (t : Ty) : Prop :=
  match t with TVec t | TArray _ t | TOption t => single t = true | _ => True end.

Lemma plain_inner syn t k inner : plain syn = true → container syn = Some (k, inner) → written inner t →
  single t = true ∨ k = COption ∧ ∃ u, t = TOption u.
Proof.
  unfold plain. intros Hp Hc. rewrite Hc in Hp. destruct 1 as [prefix s rest t Ht|prefix s rest t Ht|s len n t Ht|s t Ht];
    [..|by left].
  - cbn in Hp. by destruct k.
  - cbn in Hp. destruct k; [done| |done]. right. eauto.
  - cbn in Hp. by destruct k.
Qed.
Lemma accepted_flat syn t : plain syn = true → written syn t → ¬ double_option t → flat t.
Proof.
  intros Hp Hw Hd. destruct Hw as [prefix s rest t Hw|prefix s rest t Hw|s len n t Hw|s t Hw].
  - by destruct (plain_inner _ t CVec s Hp eq_refl Hw) as [?|[? _]].
  - destruct (plain_inner _ t COption s Hp eq_refl Hw) as [?|[_ [u ->]]]; [done|]. by destruct Hd.
  - by destruct (plain_inner _ t CArray s Hp eq_refl Hw) as [?|[? _]].
  - by destruct t.
Qed.

(** *** Values that are the same *)

Section same.
Context `{Prost} `{Buf} `{Chrono} `{Generated}.

Definition same_prim (p : Prim) : prim_den p → prim_den p → Prop :=
  match p with
  | PDateTime => λ x y, timestamp_of x = timestamp_of y
  | PTimeDelta => λ x y, duration_of x = duration_of y
  | _ => eq
  end.
(** Two sequences of values: a container stands for its elements. *)
Fixpoint same (t : Ty) : list (den t) → list (den t) → Prop :=
  match t with
  | TPrim p => Forall2 (same_prim p)
  | TGenerated _ | TEnum _ _ => eq
  | TStruct _ _ fs => Forall2 (same_fields fs)
  | TVec t | TArray _ t => λ ls ks, same t (concat ls) (concat ks)
  | TOption t => λ os ps, same t (omap id os) (omap id ps)
  end
with same_fields (fs : Fields) : den_fields fs → den_fields fs → Prop :=
  match fs with
  | FNil => λ _ _, True
  | FCons _ _ t fs => λ x y, same t [x.1] [y.1] ∧ same_fields fs x.2 y.2
  end.
End same.

Lemma bind_concat {A B} (f : A → list B) ls : ls ≫= (λ l, l ≫= f) = concat ls ≫= f.
Proof. induction ls as [|l ls IH]; [done|]. cbn. by rewrite IH, bind_app. Qed.
Lemma bind_omap {A B} (f : A → list B) (os : list (option A)) :
  os ≫= (λ o, match o with Some x => f x | None => [] end) = omap id os ≫= f.
Proof. induction os as [|[x|] os IH]; [done|..]; cbn; by rewrite IH. Qed.
Lemma Forall_omap_id {A} (P : A → Prop) (os : list (option A)) :
  Forall (λ o, match o with Some x => P x | None => True end) os → Forall P (omap id os).
Proof. induction 1 as [|[x|] os Hx _ IH]; [done|..]; cbn; [by constructor|done]. Qed.
Lemma bind_single_inj {A B} (f : A → B) (P : A → Prop) (R : A → A → Prop) l k :
  (∀ x y, P x → P y → f x = f y → R x y) → Forall P l → Forall P k →
  l ≫= (λ x, [f x]) = k ≫= (λ x, [f x]) → Forall2 R l k.
Proof.
  intros Hf Hl. revert k. induction Hl as [|x l Hx _ IH]; intros [|y k] Hk; try done.
  apply Forall_cons in Hk as [Hy Hk]. cbn. intros [= E Es]. constructor; [by apply Hf|by apply IH].
Qed.
Lemma bind_single_eq {A B} (f : A → B) (R : A → A → Prop) l k :
  (∀ x y, R x y → f x = f y) → Forall2 R l k → l ≫= (λ x, [f x]) = k ≫= (λ x, [f x]).
Proof. intros Hf. induction 1 as [|x y l k Hx _ IH]; [done|]. cbn. by rewrite (Hf x y Hx), IH. Qed.

Section lossless.
Context `{Prost} `{!ProstTimesInjective} `{Buf} `{ChronoLaws} `{GeneratedLaws} `{!IncludedFiles}.

(** *** What is the same is encoded alike *)

Definition alike (t : Ty) : Prop := ∀ n l k, same t l k → l ≫= recs t n = k ≫= recs t n.
Definition alike_fields (fs : Fields) : Prop := ∀ n x y, same_fields fs x y →
  field_recs fs n x = field_recs fs n y.
Lemma all_alike : (∀ t, alike t) ∧ (∀ fs, alike_fields fs).
Proof.
  apply Ty_Fields_ind.
  - intros p n l k. apply (bind_single_eq (λ x, (n, prim_payload p x))). intros x y Hxy.
    destruct p; cbn in *; by rewrite Hxy.
  - by intros g n l k ->.
  - by intros name vs n l k ->.
  - intros path name fs IH n l k.
    apply (bind_single_eq (λ x, (n, PLen (encode_records (field_recs fs 1 x))))).
    intros x y Hxy. by rewrite (IH 1 x y Hxy).
  - intros t IH n ls ks Hs. etransitivity; [apply (bind_concat (recs t n))|].
    etransitivity; [|symmetry; apply (bind_concat (recs t n))]. by apply IH.
  - intros m t IH n ls ks Hs. etransitivity; [apply (bind_concat (recs t n))|].
    etransitivity; [|symmetry; apply (bind_concat (recs t n))]. by apply IH.
  - intros t IH n os ps Hs. etransitivity; [apply (bind_omap (recs t n))|].
    etransitivity; [|symmetry; apply (bind_omap (recs t n))]. by apply IH.
  - done.
  - intros name syn t IHt fs IHfs n [x xs] [y ys] [Hx Hxs]. cbn [fst snd] in *.
    change (recs t n x ++ field_recs fs (n + 1) xs = recs t n y ++ field_recs fs (n + 1) ys).
    rewrite (IHfs (n + 1) xs ys Hxs). f_equal. specialize (IHt n [x] [y] Hx). cbn in IHt.
    by rewrite !app_nil_r in IHt.
Qed.

(** *** What a reader sees alike is the same *)

Lemma timestamp_of_wf t ts : timestamp_of t = Some ts → fits 32 (ts_sec ts) ∧ fits 32 (ts_nsec ts).
Proof.
  unfold timestamp_of. rewrite datetime_exact. intros E.
  assert (ts_wf ts) as [? ?]; [|split; [done|time_unfold; lia]].
  revert E. repeat case_bool_decide; [done|intros [= <-]; time_unfold; lia|].
  destruct (Timestamp_saturating_of (E := unit) (timestamp t * NANOS + timestamp_subsec_nanos t))
    as (u & -> & Hu & _). by intros [= <-].
Qed.
Lemma duration_of_wf d e : duration_of d = Some e → fits_signed 32 (dur_sec e) ∧ fits 32 (dur_nsec e).
Proof.
  unfold duration_of. rewrite delta_exact.
  destruct (Duration_saturating_of (E := unit) (num_seconds d * NANOS + delta_subsec_nanos d))
    as (u & -> & Hu & _). intros [= <-]. time_unfold. lia.
Qed.

Lemma seen_prim p x y : prim_valid p x → prim_valid p y → prim_view p x = prim_view p y → same_prim p x y.
Proof.
  intros Hx Hy. destruct p; cbn in *; intros [= E].
  1-8: destruct x, y; cbn in *; by subst.
  - done.
  - destruct x, y; cbn in *; by subst.
  - destruct x, y; cbn in *; by subst.
  - by rewrite <- (of_as_bytes x), E, of_as_bytes.
  - by rewrite <- (of_as_bytes x), E, of_as_bytes.
  - destruct x, y; cbn in *; by subst.
  - destruct Hx as (_ & ? & ?), Hy as (_ & ? & ?). by apply Timestamp_raw_inj.
  - destruct Hx as (_ & ? & ?), Hy as (_ & ? & ?). by apply Duration_raw_inj.
  - destruct Hx as [[t Et] _], Hy as [[u Eu] _]. rewrite Et, Eu in *. cbn in E. f_equal.
    destruct (timestamp_of_wf _ _ Et), (timestamp_of_wf _ _ Eu). by apply Timestamp_raw_inj.
  - destruct Hx as [[d Ed] _], Hy as [[e Ee] _]. rewrite Ed, Ee in *. cbn in E. f_equal.
    destruct (duration_of_wf _ _ Ed), (duration_of_wf _ _ Ee). by apply Duration_raw_inj.
Qed.

(** A reader that takes the number of an enum as it is written. *)
Definition raw_enum : Seen := λ _ v, DOpen v.
Lemma discriminant_inj variants d e : enum_ok variants → d ∈ variants.*2 → e ∈ variants.*2 →
  wrap 64 d = wrap 64 e → d = e.
Proof.
  intros (_ & _ & _ & [Hf|Hf]) Hd He E; rewrite Forall_forall in Hf.
  - rewrite !wrap_small in E by auto. done.
  - rewrite <- (to_signed_id 64 d), <- (to_signed_id 64 e) by (lia || auto).
    unfold to_signed. by rewrite E.
Qed.

Abbreviation view := (view (enum_seen raw_enum)).
Abbreviation view_fields := (view_fields (enum_seen raw_enum)).
Definition shown (t : Ty) : Prop := ∀ l k, wf t → Forall (valid t) l → Forall (valid t) k →
  l ≫= view t = k ≫= view t → same t l k.
Definition shown_fields (fs : Fields) : Prop := ∀ x y, wf_fields fs → valid_fields fs x → valid_fields fs y →
  view_fields fs x = view_fields fs y → same_fields fs x y.
Lemma all_shown : (∀ t, shown t) ∧ (∀ fs, shown_fields fs).
Proof.
  apply Ty_Fields_ind.
  - intros p l k _ Hl Hk. apply (bind_single_inj (prim_view p) (prim_valid p)); [|done..].
    apply seen_prim.
  - intros g l k _ Hl Hk E. apply list_eq_Forall2.
    apply (bind_single_inj (λ x, DExternal (gt_type_name g) (encode_raw x [])) (generated_valid g));
      [|exact Hl|exact Hk|exact E]. intros x y _ _ [= Exy].
    pose proof (f_equal (message_decode (T := Message (gt_name g))) Exy) as Hm.
    rewrite !message_decode_spec in Hm. by injection Hm.
  - intros name vs l k [_ Hvs] Hl Hk E. apply list_eq_Forall2.
    apply (bind_single_inj (λ x, DOpen (wrap 64 (discriminant x))) (valid (TEnum name vs)));
      [|exact Hl|exact Hk|exact E]. intros [d] [e] Hd He [= Ede]. f_equal. by eapply discriminant_inj.
  - intros path name fs IH l k (_ & _ & _ & Hw) Hl Hk.
    apply (bind_single_inj (λ x, DMessage (view_fields fs x)) (valid (TStruct path name fs))); [|done..].
    intros x y [Hx _] [Hy _] [= E]. by apply IH.
  - intros t IH ls ks Hw Hl Hk E. apply IH; [done|by apply Forall_concat..|].
    etransitivity; [symmetry; apply (bind_concat (view t))|].
    etransitivity; [exact E|apply (bind_concat (view t))].
  - intros m t IH ls ks Hw Hl Hk E. apply IH; [done| | |].
    1,2: apply Forall_concat; eapply Forall_impl; [eassumption|]; by intros ? [_ ?].
    etransitivity; [symmetry; apply (bind_concat (view t))|].
    etransitivity; [exact E|apply (bind_concat (view t))].
  - intros t IH os ps Hw Hl Hk E. apply IH; [done|by apply Forall_omap_id..|].
    etransitivity; [symmetry; apply (bind_omap (view t))|].
    etransitivity; [exact E|apply (bind_omap (view t))].
  - done.
  - intros name syn t IHt fs IHfs [x xs] [y ys] [Hwt Hw] [Hx Hxs] [Hy Hys] [= E Es]. split.
    + apply IHt; [done|by apply Forall_singleton..|]. cbn in *. by rewrite !app_nil_r.
    + by apply IHfs.
Qed.

(** *** What is the same, and accepted, is equal *)

Definition exact (t : Ty) : Prop := derivable t →
  (single t = true → ∀ l k, same t l k → l = k) ∧ (flat t → ∀ x y, same t [x] [y] → x = y).
Definition exact_fields (fs : Fields) : Prop := ∀ x y, derivable_fields fs →
  (∀ syn t, (syn, t) ∈ types fs → flat t) → same_fields fs x y → x = y.

(** The types of the fields of an accepted struct. *)
Lemma accepted_fields fs : derive_loggable (DataStruct (Some (syntax fs))) = Ok tt →
  (∀ syn t, (syn, t) ∈ types fs → written syn t ∧ ¬ double_option t) →
  ∀ syn t, (syn, t) ∈ types fs → flat t.
Proof.
  intros [_ Hplain]%(check_fields_ok 1) Hwr syn t Hin. destruct (Hwr syn t Hin) as [? ?].
  apply (accepted_flat syn); [|done..]. rewrite Forall_forall in Hplain.
  clear -Hin Hplain. induction fs as [|name syn' t' fs IH]; [by apply elem_of_nil in Hin|].
  apply elem_of_cons in Hin as [[= -> ->]|Hin].
  - apply (Hplain (name, syn')). left.
  - apply IH; [intros f Hf; apply Hplain; by right|done].
Qed.
Lemma exact_single t : (derivable t → ∀ l k, same t l k → l = k) → exact t.
Proof.
  intros Ht Hd. split; [intros _; by apply Ht|]. intros _ x y E. apply (Ht Hd) in E. by injection E.
Qed.
Lemma all_exact : (∀ t, exact t) ∧ (∀ fs, exact_fields fs).
Proof.
  apply Ty_Fields_ind.
  - intros p. apply exact_single. intros [? ?] l k Hs. apply list_eq_Forall2. destruct p; done.
  - intros g. by apply exact_single.
  - intros name vs. by apply exact_single.
  - intros path name fs IH. apply exact_single. intros (Hacc & Hwr & Hd) l k Hs. apply list_eq_Forall2.
    eapply Forall2_impl; [exact Hs|]. intros x y Hxy. apply IH; [done| |done].
    by apply accepted_fields.
  - intros t IH Hd. split; [done|]. intros Hf l k Hs. cbn in Hs. rewrite !app_nil_r in Hs.
    by apply (proj1 (IH Hd)).
  - intros m t IH Hd. split; [done|]. intros Hf l k Hs. cbn in Hs. rewrite !app_nil_r in Hs.
    by apply (proj1 (IH Hd)).
  - intros t IH Hd. split; [done|]. intros Hf [x|] [y|] Hs; apply (proj1 (IH Hd) Hf) in Hs; [|done..].
    by injection Hs as ->.
  - by intros [] [].
  - intros name syn t IHt fs IHfs [x xs] [y ys] [Hdt Hd] Hf [Hx Hxs]. f_equal.
    + apply (proj2 (IHt Hdt)); [|done]. apply (Hf syn). left.
    + apply IHfs; [done| |done]. intros syn' t' Hin. apply (Hf syn'). by right.
Qed.
End lossless.

(** C20: what the encoding of a struct keeps.  Every valid value has bytes, and another
    value has the same bytes exactly if it is the same, field by field and at any depth:
    equal scalars, enums and generated messages, equal conversions of chrono's times,
    which saturate, and the same elements, in order, in each container.  If moreover the
    macro accepts the structs of the type, and in them no alias hides a container, no
    field has a type of chrono and none is an option of an option (which the macro lets
    through), the same values are equal: nothing is lost. *)
Theorem accepted_lossless `{ProstLaws} `{!ProstTimesInjective} `{BufLaws} `{ChronoLaws} `{GeneratedLaws}
    `{HashOrderLaws} `{DescriptorCodecLaws} `{!IncludedFiles} `{!IncludedLaws} path name fs :
  wf (TStruct path name fs) → ∀ x, valid (TStruct path name fs) x →
  ∃ bs, (∀ remaining buf, (length bs ≤ remaining)%nat → encode fs remaining x buf = Ok (buf ++ bs)) ∧
    ∀ y, valid (TStruct path name fs) y →
      ((∃ remaining, encode fs remaining y [] = Ok bs) ↔ same_fields fs x y) ∧
      (derivable (TStruct path name fs) → same_fields fs x y → x = y).
Proof.
  intros Hw x Hx. exists (encode_records (field_recs fs 1 x)).
  pose proof Hw as (_ & Hcount & _ & Hwf). split.
  { intros. by apply encode_struct; [|apply wf_numbers|destruct Hx|]. }
  intros y Hy. destruct Hx as [Hx Hlx], Hy as [Hy Hly]. split; [split|].
  - intros [remaining E].
    assert (encode_records (field_recs fs 1 y) = encode_records (field_recs fs 1 x)) as Ebs.
    { unfold encode, struct_encode in E. case_bool_decide; [done|]. unfold max_field_number in Hcount.
      destruct (proj2 all_write fs (proj2 wf_numbers fs Hwf) 1 y ltac:(lia) ltac:(lia) Hy) as (_ & Hwr & _).
      rewrite Hwr in E. cbn in E. case_bool_decide; congruence. }
    destruct (proj1 wf_files _ Hw) as (fds & Hf & _).
    assert (∃ d, descriptor (TStruct path name fs) = Some d) as [d Hdesc] by (eexists; reflexivity).
    assert (covers fds (TStruct path name fs)) as Hc by (by exists fds).
    pose proof (read_struct raw_enum path name fs _ fds d x (proj2 (all_readable _) fs) Hw Hc Hdesc Hx (le_n _)) as Rx.
    pose proof (read_struct raw_enum path name fs _ fds d y (proj2 (all_readable _) fs) Hw Hc Hdesc Hy (le_n _)) as Ry.
    rewrite Ebs, Rx in Ry. injection Ry as Eview. by apply all_shown.
  - intros Hs. exists (length (encode_records (field_recs fs 1 y))).
    destruct (encode_struct fs y _ [] Hcount (proj2 wf_numbers fs Hwf) Hy (le_n _)) as [-> _].
    by rewrite (proj2 all_alike fs 1 x y Hs).
  - intros (Hacc & Hwr & Hd) Hs. apply (proj2 all_exact fs x y Hd); [|done]. by apply accepted_fields.
Qed.
