(* ===== verification/DeriveExamples.v ===== *)
(** * DeriveExamples: derived structs at work

    Instances of the parameters of Derive.v, with the descriptors that the
    library includes (DescriptorData.v); the theorems of DeriveProofs.v and
    DeriveChecks.v at a concrete struct; and structs with which the macro does
    not do what it means to. *)

From S2P Require Import Prelude Bytes Time Channel Protobuf Descriptor DescriptorData.
From S2P Require Import Derive DeriveProofs DeriveChecks.
Local Open Scope Z_scope.

(** ** Instances *)

(** Messages of generated types by their encodings. *)
#[export] Instance raw_message : ProstMessage (list byte) := {|
  encode_raw x buf := buf ++ x;
  message_encoded_len x := length x;
  message_encode remaining x buf := if bool_decide (length x ≤ remaining)%nat then Ok (buf ++ x) else Err tt;
  message_decode bs := Ok bs
|}.
#[export] Instance raw_messages : Generated := {| Message _ := list byte; Message_prost _ := raw_message |}.
#[export] Instance raw_messages_laws : GeneratedLaws.
Proof. split. by split. Qed.

(** The last key of a hash map comes out first. *)
#[export] Instance last_first : HashOrder := {| hash_order _ _ keys := reverse (seq 0 (length keys)) |}.
#[export] Instance last_first_laws : HashOrderLaws.
Proof. split. intros. apply reverse_Permutation. Qed.

(** The instance of `prost` can decode the time types. *)
Definition time_records (sec nsec : Z) : list wire_record :=
  (if sec =? 0 then [] else [(1, PVarint (wrap 64 sec))]) ++
  (if nsec =? 0 then [] else [(2, PVarint (wrap 64 nsec))]).
Lemma raw_time_records sec nsec : raw_time sec nsec = encode_records (time_records sec nsec).
Proof.
  unfold raw_time, time_records. rewrite encode_records_app.
  by destruct (sec =? 0), (nsec =? 0); cbn; unfold encode_record; cbn; rewrite ?app_nil_r.
Qed.
Lemma time_records_inj s n s' n' : time_records s n = time_records s' n' →
  wrap 64 s = wrap 64 s' ∧ wrap 64 n = wrap 64 n'.
Proof.
  unfold time_records.
  destruct (Z.eqb_spec s 0), (Z.eqb_spec n 0), (Z.eqb_spec s' 0), (Z.eqb_spec n' 0);
    cbn; intros [=]; subst; done.
Qed.
Lemma raw_time_inj s n s' n' : raw_time s n = raw_time s' n' → wrap 64 s = wrap 64 s' ∧ wrap 64 n = wrap 64 n'.
Proof.
  rewrite !raw_time_records. intros E%(f_equal parse_records).
  assert (∀ a b, Forall record_valid (time_records a b)) as Hv.
  { intros a b. unfold time_records. apply Forall_app. split.
    - destruct (a =? 0); constructor; [|constructor]. split; [unfold field_number; cbn; lia|].
      apply wrap_fits. lia.
    - destruct (b =? 0); constructor; [|constructor]. split; [unfold field_number; cbn; lia|].
      apply wrap_fits. lia. }
  rewrite !parse_records_encode in E by apply Hv. injection E as E. by apply time_records_inj.
Qed.
Lemma wrap_signed_inj a b : fits_signed 32 a → fits_signed 32 b → wrap 64 a = wrap 64 b → a = b.
Proof.
  intros Ha Hb E. unfold fits_signed in *.
  rewrite <- (to_signed_id 64 a), <- (to_signed_id 64 b) by (unfold fits_signed; lia).
  unfold to_signed. by rewrite E.
Qed.
#[export] Instance prost_times_injective : ProstTimesInjective.
Proof.
  split.
  - intros [s n] [s' n'] H1 H2 H3 H4 [Es En]%raw_time_inj. cbn in *.
    rewrite !wrap_small in Es, En by (unfold fits in *; lia). by subst.
  - intros [s n] [s' n'] H1 H2 H3 H4 [Es En]%raw_time_inj. cbn in *.
    rewrite !wrap_small in En by (unfold fits in *; lia).
    apply wrap_signed_inj in Es; [|done..]. by subst.
Qed.

#[export] Instance no_chrono : Chrono := {|
  TimeDelta := unit; num_seconds _ := 0; delta_subsec_nanos _ := 0;
  DateTime := unit; timestamp _ := 0; timestamp_subsec_nanos _ := 0
|}.
#[export] Instance no_chrono_laws : ChronoLaws.
Proof. split; cbn; intros; unfold NANOS; lia. Qed.

(** ** A program

    `enum Level { Low, High }`, `struct Inner { a: u8, level: Level }` and
    `struct Outer { inner: Inner, levels: Vec<Level>, name: Option<String>,
    stamp: Timestamp, pose: Pose }`. *)

Definition named (ident : string) : SynType := SPath "" ident ANone.
Definition of_arg (ident : string) (arg : SynType) : SynType := SPath "" ident (AType arg ANil).

Definition Level : Ty := TEnum "Level" [("Low"%string, 0); ("High"%string, 1)].
Definition Inner_fields : Fields := FCons "a" (named "u8") (TPrim PU8) (FCons "level" (named "Level") Level FNil).
Definition Inner : Ty := TStruct "Inner" "Inner" Inner_fields.
Definition Outer_fields : Fields :=
  FCons "inner" (named "Inner") Inner
  (FCons "levels" (of_arg "Vec" (named "Level")) (TVec Level)
  (FCons "name" (of_arg "Option" (named "String")) (TOption (TPrim PString))
  (FCons "stamp" (named "Timestamp") (TPrim PTimestamp)
  (FCons "pose" (named "Pose") (TGenerated schemas.Pose) FNil)))).
Definition Outer : Ty := TStruct "Outer" "Outer" Outer_fields.
Definition program (path : string) : option (string * Fields) :=
  if bool_decide (path = "Outer"%string) then Some ("Outer"%string, Outer_fields)
  else if bool_decide (path = "Inner"%string) then Some ("Inner"%string, Inner_fields) else None.

Definition message : den_fields Outer_fields :=
  ((MkU 8 7, (MkEnum 1, tt)), ([MkEnum 0; MkEnum 1], (Some "ab"%string,
    ({| ts_sec := 3; ts_nsec := 5 |}, ([Byte.x0a; Byte.x00], tt))))).

Lemma identifier_outer : identifier "Outer" ∧ identifier "Inner" ∧ identifier "Level".
Proof. split_and!; (split; [apply (bool_decide_unpack _); by vm_compute|done]). Qed.

(** The members of a short list, one by one. *)
Ltac each_field H :=
  repeat (apply elem_of_cons in H as [H|H]; [simplify_eq/=|]);
  try (by apply elem_of_nil in H).
Lemma Inner_scoped : scoped Inner_fields.
Proof.
  split.
  - intros syn t1 t2 H1 H2. cbn in H1, H2. each_field H1; each_field H2; try done.
  - intros s1 t1 s2 t2 name H1 H2. cbn in H1, H2. each_field H1; each_field H2; try done;
      cbn; intros; congruence.
Qed.
Lemma Outer_scoped : scoped Outer_fields.
Proof.
  split.
  - intros syn t1 t2 H1 H2. cbn in H1, H2. each_field H1; each_field H2; try done.
  - intros s1 t1 s2 t2 name H1 H2. cbn in H1, H2. each_field H1; each_field H2; try done;
      cbn; intros; congruence.
Qed.
Lemma Level_wf : wf Level.
Proof.
  split; [apply identifier_outer|].
  split; [|split]; [apply (bool_decide_unpack _); by vm_compute..|]. split; [by vm_compute|].
  left. repeat constructor; by vm_compute.
Qed.
Lemma Outer_wf : wf Outer.
Proof.
  split; [apply identifier_outer|]. split; [by vm_compute|]. split; [apply Outer_scoped|].
  split; [|split; [apply Level_wf|split; [done|split; [done|split; [|done]]]]].
  - split; [apply identifier_outer|]. split; [by vm_compute|]. split; [apply Inner_scoped|].
    split; [done|]. split; [apply Level_wf|done].
  - by apply (list_elem_of_lookup_2 _ 26).
Qed.
Lemma Outer_declared : declared program Outer.
Proof. by repeat split. Qed.
Lemma Outer_derivable : derivable Outer.
Proof.
  assert (∀ syn t, (syn, t) ∈ types Inner_fields → written syn t ∧ ¬ double_option t) as Hinner.
  { intros syn t H. cbn in H. each_field H; (split; [by apply written_base|by intros []]). }
  split; [done|]. split.
  - intros syn t H. cbn in H. each_field H; (split; [|by intros []]).
    + by apply written_base.
    + by apply written_vec, written_base.
    + by apply written_option, written_base.
    + by apply written_base.
    + by apply written_base.
  - split; [|by repeat split]. split; [done|]. by split.
Qed.
Lemma message_valid : valid Outer message.
Proof.
  assert (∀ d, d ∈ [0; 1] → valid Level (MkEnum d)) as Hlevel by done.
  split; [|by vm_compute].
  split; [split; [split; [by vm_compute|split; [apply Hlevel; right; left|done]]|by vm_compute]|].
  split; [repeat (apply Forall_cons; split; [apply Hlevel|]); [left|right; left|by apply Forall_nil]|].
  split; [by split; vm_compute|]. split; [by split_and!; vm_compute|]. by split; vm_compute.
Qed.

(** The schema is asked for after that of `Inner`, and twice. *)
Definition sample_asks : list Ask :=
  [AskSchema "Inner" "Inner" Inner_fields; AskDescriptor Outer; AskSchema "Outer" "Outer" Outer_fields].
Lemma asks_of_program : Forall (asked_of_program program) sample_asks.
Proof. by repeat constructor. Qed.


Lemma accepted_lossless_witness :
  ∃ bs, (∀ remaining buf, (length bs ≤ remaining)%nat →
      encode Outer_fields remaining message buf = Ok (buf ++ bs)) ∧
    ∀ y remaining, valid Outer y → encode Outer_fields remaining y [] = Ok bs → message = y.
Proof.
  destruct (accepted_lossless "Outer" "Outer" Outer_fields Outer_wf message message_valid) as (bs & He & Hall).
  exists bs. split; [exact He|]. intros y remaining Hy E.
  destruct (Hall y Hy) as [Hs Hd]. apply (Hd Outer_derivable), Hs. exists remaining. exact E.
Defined.

Definition pose : Message "Pose" := [Byte.x0a; Byte.x00].
Lemma generated_roundtrip_witness :
  ∃ bs, generated_encoded_len schemas.Pose pose = Some (length bs) ∧
    generated_decode schemas.Pose bs = Ok pose.
Proof.
  destruct (generated_roundtrip schemas.Pose pose 10 [] 1) as (bs & H1 & _ & H2 & _).
  - by vm_compute.
  - unfold field_number. lia.
  - by exists bs.
Defined.

Lemma derive_accepts_witness :
  derive_loggable (DataStruct (Some (syntax Outer_fields))) = Ok tt ∧
  derive_loggable (DataStruct (Some [("a", named "u8"); ("b", of_arg "Vec" (of_arg "Vec" (named "u8")))]%string)) =
    Err "Vec<Vec<T>> is not supported. Protobuf does not support nested repeated fields."%string.
Proof.
  split.
  - apply (proj2 (proj1 (derive_accepts (syntax Outer_fields)))). split; [by vm_compute|].
    by repeat constructor.
  - apply (proj2 (proj1 (proj2 (derive_accepts _)) _)).
    by exists [("a", named "u8")]%string, ("b", of_arg "Vec" (of_arg "Vec" (named "u8")))%string, [].
Defined.

(** ** What the macro does not mean to do *)

Definition initial : Statics := {| s_descriptor := ∅; s_schema := ∅ |}.

(** `struct GenericMessage<T> { value: T }` at two types.  The statics are shared by
    all instantiations. *)
Definition value_of (t : Ty) : Fields := FCons "value" (named "T") t FNil.

(** The second instantiation of a generic struct for which a schema is asked
    gets the schema of the first, with which its messages cannot be read:
    `GenericMessage<String>` after `GenericMessage<u8>`. *)
Theorem generic_schema_shared :
  ∃ s st d file bs, get_schema "GenericMessage" "GenericMessage" (value_of (TPrim PU8)) initial = Some (s, st) ∧
    get_schema "GenericMessage" "GenericMessage" (value_of (TPrim PString)) st = Some (s, st) ∧
    fds_decode (sch_data s) = Some [file] ∧ fp_message_type file = [d] ∧
    encode (value_of (TPrim PString)) 100 ("ab"%string, tt) [] = Ok bs ∧
    read_message open_enum 1 [file] d bs = None.
Proof.
  eexists _, _, _, _, (val_byte <$> [10; 2; 97; 98]). split; [reflexivity|]. split; [reflexivity|].
  split; [exact (fds_decode_encode [schema_file "GenericMessage" _ []])|]. split; [reflexivity|].
  split; vm_compute; reflexivity.
Qed.

(** A struct with fields of the types `Inner` and `Vec<Inner>` defines the nested
    message twice: the macro's maps are keyed by the types of the fields. *)
Lemma nested_defined_twice :
  let fs := FCons "one" (named "Inner") Inner (FCons "many" (of_arg "Vec" (named "Inner")) (TVec Inner) FNil) in
  ∃ d, descriptor (TStruct "Pair" "Pair" fs) = Some d ∧ (d_name <$> d_nested_type d) = ["Inner"; "Inner"]%string.
Proof. eexists. split; reflexivity. Qed.

(** `enum Status { On = 1, Off = 2 }`: the schema numbers the variants by their
    positions, so that [On] is read as [Off], and [Off] as no variant. *)
Lemma explicit_discriminants :
  let status := [("On", 1); ("Off", 2)]%string in
  let fs := FCons "status" (named "Status") (TEnum "Status" status) FNil in
  ∃ d, descriptor (TStruct "Light" "Light" fs) = Some d ∧
    (∃ bs, encode fs 100 (MkEnum 1, tt) [] = Ok bs ∧
      read_message open_enum 1 [] d bs = Some (DMessage [("status", [DEnum "Off"])]%string)) ∧
    ∃ bs, encode fs 100 (MkEnum 2, tt) [] = Ok bs ∧
      read_message open_enum 1 [] d bs = Some (DMessage [("status", [DOpen 2])]%string).
Proof.
  eexists. split; [reflexivity|].
  split; eexists; (split; [vm_compute; reflexivity|vm_compute; reflexivity]).
Qed.

(** The macro accepts an option of an option, of which two values are encoded
    alike. *)
Lemma double_option_ambiguous :
  let t := TOption (TOption (TPrim PU8)) in
  let fs := FCons "a" (of_arg "Option" (of_arg "Option" (named "u8"))) t FNil in
  derive_loggable (DataStruct (Some (syntax fs))) = Ok tt ∧
  encode fs 100 (Some None, tt) [] = encode fs 100 (None, tt) [].
Proof. split; reflexivity. Qed.
