(* ===== verification/DataLoader.v ===== *)
(** * DataLoader: how a data loader describes its data

    `src/rust/foxglove_data_loader/src/lib.rs`: the builder of an
    [Initialization], which assigns the ids of channels and schemas, its handles
    ([LinkedSchema], [LinkedChannel]), and the reader's [Seek].

    The builder's clones and its handles share the two managers by
    [Rc<RefCell<_>>]; the properties of a channel are shared between its handles
    and the manager.  All of it is one [Store]: the managers with their borrow
    flags, and the cells of the channels.  A borrow that is refused is a
    [Panic]; the search for a free id that never ends is the error [Forever].
    Ids are [u16]; [overflow_checks] is the build profile.

    The specification ([Spec]) has no references: channels are a map from ids to
    their properties, a handle is an id.  Every program of builder calls
    implements it ([builder_refines]), and what is built is consistent
    ([built_consistent]). *)

From stdpp Require Import sorting.
From S2P Require Import Prelude Bytes Channel.
Local Open Scope Z_scope.

(** ** The generated types of the host interface *)

Record LoaderChannel := {
  ch_id : Z;
  ch_schema_id : option Z;
  ch_topic_name : string;
  ch_message_encoding : string;
  ch_message_count : option Z
}.
Record LoaderSchema := { sc_id : Z; sc_name : string; sc_encoding : string; sc_data : list byte }.
Record TimeRange := { start_time : Z; end_time : Z }.
Inductive Severity := SevError | SevWarn | SevInfo.
Record Problem := { p_severity : Severity; p_message : string; p_tip : option string }.

Definition Problem_new (severity : Severity) (message : string) : Problem :=
  {| p_severity := severity; p_message := message; p_tip := None |}.
Definition Problem_tip (tip : string) (self : Problem) : Problem :=
  {| p_severity := p_severity self; p_message := p_message self; p_tip := Some tip |}.
Definition Problem_error : string → Problem := Problem_new SevError.
Definition Problem_warn : string → Problem := Problem_new SevWarn.
Definition Problem_info : string → Problem := Problem_new SevInfo.

Record Initialization := {
  in_channels : list LoaderChannel;
  in_schemas : list LoaderSchema;
  in_time_range : TimeRange;
  in_problems : list Problem
}.

(** ** Shared state *)

Record LinkedChannel := { lc_id : Z; lc_topic_name : string; lc_cell : nat }.
Record LinkedSchema := { ls_id : Z; ls_schema : Schema; ls_message_encoding : string }.

Record ChannelCell := {
  cc_schema_id : option Z;
  cc_message_encoding : string;
  cc_message_count : option Z
}.
Record ChannelManager := { next_channel_id : Z; cm_channels : gmap Z LinkedChannel }.
Record SchemaManager := { next_schema_id : Z; sm_schemas : gmap Z LinkedSchema }.

Record RefCell (A : Type) := { rc_borrowed : bool; rc_value : A }.
Arguments rc_borrowed {A} _.
Arguments rc_value {A} _.
Arguments Build_RefCell {A} _ _.

Record Store := {
  st_channels : RefCell ChannelManager;
  st_schemas : RefCell SchemaManager;
  st_cells : list ChannelCell
}.
Definition set_channels (c : RefCell ChannelManager) (st : Store) : Store :=
  {| st_channels := c; st_schemas := st_schemas st; st_cells := st_cells st |}.
Definition set_schemas (c : RefCell SchemaManager) (st : Store) : Store :=
  {| st_channels := st_channels st; st_schemas := c; st_cells := st_cells st |}.
Definition set_cells (c : list ChannelCell) (st : Store) : Store :=
  {| st_channels := st_channels st; st_schemas := st_schemas st; st_cells := c |}.

(** [SchemaManager::default], [ChannelManager::default]. *)
Definition SchemaManager_default : SchemaManager := {| next_schema_id := 1; sm_schemas := ∅ |}.
Definition ChannelManager_default : ChannelManager := {| next_channel_id := 1; cm_channels := ∅ |}.
Definition initial_store : Store := {|
  st_channels := Build_RefCell false ChannelManager_default;
  st_schemas := Build_RefCell false SchemaManager_default;
  st_cells := []
|}.

Inductive Forever := DoesNotReturn.
Definition M (A : Type) : Type := Store → result Forever (A * Store).
#[export] Instance M_ret : MRet M := λ A a st, Ok (a, st).
#[export] Instance M_bind : MBind M := λ A B f m st, '(a, st) ← m st; f a st.
Definition panic {A} : M A := λ _, Panic.
Definition lift {A} (r : result Forever A) : M A := λ st, a ← r; Ok (a, st).

(** [borrow_mut]: the guard lives while [f] runs. *)
Definition with_channels {A} (f : ChannelManager → M (A * ChannelManager)) : M A := λ st,
  let c := st_channels st in
  if rc_borrowed c then Panic
  else '((a, cm), st) ← f (rc_value c) (set_channels (Build_RefCell true (rc_value c)) st);
       Ok (a, set_channels (Build_RefCell false cm) st).
Definition with_schemas {A} (f : SchemaManager → M (A * SchemaManager)) : M A := λ st,
  let c := st_schemas st in
  if rc_borrowed c then Panic
  else '((a, sm), st) ← f (rc_value c) (set_schemas (Build_RefCell true (rc_value c)) st);
       Ok (a, set_schemas (Build_RefCell false sm) st).
(** [borrow], for the time of an expression. *)
Definition read_channels : M ChannelManager := λ st,
  if rc_borrowed (st_channels st) then Panic else Ok (rc_value (st_channels st), st).
Definition read_schemas : M SchemaManager := λ st,
  if rc_borrowed (st_schemas st) then Panic else Ok (rc_value (st_schemas st), st).

(** [Rc::new(RefCell::new(..))] for the cells of a channel; [replace]; [borrow]. *)
Definition new_cell (c : ChannelCell) : M nat := λ st,
  Ok (length (st_cells st), set_cells (st_cells st ++ [c]) st).
Definition replace_cell (l : nat) (f : ChannelCell → ChannelCell) : M unit := λ st,
  Ok (tt, set_cells (alter f l (st_cells st)) st).
Definition read_cell (l : nat) : M ChannelCell := λ st,
  c ← or_panic (st_cells st !! l); Ok (c, st).

(** The values of a [BTreeMap]: in the order of the keys. *)
Definition values {A} (m : gmap Z A) : list A :=
  omap (λ k, m !! k) (merge_sort Z.le (elements (dom m))).

(** ** Ids *)

Section builder.
Context (overflow_checks : bool).

Definition next_u16 (n : Z) : option Z :=
  if overflow_checks then checked_unsigned 16 (n + 1) else Some (wrap 16 (n + 1)).

(** [get_free_id] of both managers: the id and the next one.  After 2^16 rounds
    all ids have been seen to be taken. *)
Fixpoint free_id_loop (fuel : nat) (taken : Z → bool) (next : Z) : result Forever (Z * Z) :=
  match fuel with
  | O => Err DoesNotReturn
  | S fuel =>
    next' ← or_panic (next_u16 next);
    if taken next then free_id_loop fuel taken next' else Ok (next, next')
  end.
Definition rounds : nat := Z.to_nat (2 ^ 16).
Definition free_id : (Z → bool) → Z → result Forever (Z * Z) := free_id_loop rounds.

Definition is_taken {A} (m : gmap Z A) (id : Z) : bool := bool_decide (is_Some (m !! id)).

Definition SchemaManager_get_free_id (self : SchemaManager) : result Forever (Z * SchemaManager) :=
  '(id, next) ← free_id (is_taken (sm_schemas self)) (next_schema_id self);
  Ok (id, {| next_schema_id := next; sm_schemas := sm_schemas self |}).
Definition ChannelManager_get_free_id (self : ChannelManager) : result Forever (Z * ChannelManager) :=
  '(id, next) ← free_id (is_taken (cm_channels self)) (next_channel_id self);
  Ok (id, {| next_channel_id := next; cm_channels := cm_channels self |}).

(** ** The managers *)

Definition SchemaManager_add_schema (id : Z) (schema : Schema) (self : SchemaManager) :
    option LinkedSchema * SchemaManager :=
  match sm_schemas self !! id with
  | Some _ => (None, self)
  | None =>
    let s := {| ls_id := id; ls_schema := schema; ls_message_encoding := "" |} in
    (Some s, {| next_schema_id := next_schema_id self; sm_schemas := <[id := s]> (sm_schemas self) |})
  end.
Definition ChannelManager_add_channel (id : Z) (topic_name : string) (self : ChannelManager) :
    M (option LinkedChannel * ChannelManager) :=
  match cm_channels self !! id with
  | Some _ => mret (None, self)
  | None =>
    l ← new_cell {| cc_schema_id := None; cc_message_encoding := ""; cc_message_count := None |};
    let c := {| lc_id := id; lc_topic_name := topic_name; lc_cell := l |} in
    mret (Some c, {| next_channel_id := next_channel_id self; cm_channels := <[id := c]> (cm_channels self) |})
  end.

(** ** Channel handles *)

Definition LinkedChannel_message_count (message_count : Z) (self : LinkedChannel) : M LinkedChannel :=
  _ ← replace_cell (lc_cell self) (λ c, {| cc_schema_id := cc_schema_id c;
    cc_message_encoding := cc_message_encoding c; cc_message_count := Some message_count |});
  mret self.
Definition LinkedChannel_message_encoding (message_encoding : string) (self : LinkedChannel) : M LinkedChannel :=
  _ ← replace_cell (lc_cell self) (λ c, {| cc_schema_id := cc_schema_id c;
    cc_message_encoding := message_encoding; cc_message_count := cc_message_count c |});
  mret self.
Definition LinkedChannel_schema (linked_schema : LinkedSchema) (self : LinkedChannel) : M LinkedChannel :=
  _ ← replace_cell (lc_cell self) (λ c, {| cc_schema_id := Some (ls_id linked_schema);
    cc_message_encoding := cc_message_encoding c; cc_message_count := cc_message_count c |});
  mret self.

(** ** Schema handles *)

(** The borrow of the manager is held while the new channel is set up. *)
Definition LinkedSchema_add_channel_with_id (self : LinkedSchema) (id : Z) (topic_name : string) :
    M (option LinkedChannel) :=
  with_channels (λ channels,
    '(channel, channels) ← ChannelManager_add_channel id topic_name channels;
    match channel with
    | Some channel =>
      channel ← LinkedChannel_message_encoding (ls_message_encoding self) channel;
      channel ← LinkedChannel_schema self channel;
      mret (Some channel, channels)
    | None => mret (None, channels)
    end).
(** [expect]. *)
Definition expect {A} (o : option A) : M A := match o with Some a => mret a | None => panic end.
Definition next_channel : M Z :=
  with_channels (λ channels, lift (ChannelManager_get_free_id channels)).
Definition LinkedSchema_add_channel (self : LinkedSchema) (topic_name : string) : M LinkedChannel :=
  next_id ← next_channel;
  c ← LinkedSchema_add_channel_with_id self next_id topic_name; expect c.
Definition LinkedSchema_message_encoding (message_encoding : string) (self : LinkedSchema) : LinkedSchema :=
  {| ls_id := ls_id self; ls_schema := ls_schema self; ls_message_encoding := message_encoding |}.

(** ** The builder *)

Record InitializationBuilder := { ib_time_range : TimeRange; ib_problems : list Problem }.
Definition TimeRange_default : TimeRange := {| start_time := 0; end_time := 0 |}.
Definition InitializationBuilder_default : InitializationBuilder :=
  {| ib_time_range := TimeRange_default; ib_problems := [] |}.

Definition builder_time_range (time_range : TimeRange) (self : InitializationBuilder) : InitializationBuilder :=
  {| ib_time_range := time_range; ib_problems := ib_problems self |}.
Definition builder_start_time (t : Z) (self : InitializationBuilder) : InitializationBuilder :=
  {| ib_time_range := {| start_time := t; end_time := end_time (ib_time_range self) |};
     ib_problems := ib_problems self |}.
Definition builder_end_time (t : Z) (self : InitializationBuilder) : InitializationBuilder :=
  {| ib_time_range := {| start_time := start_time (ib_time_range self); end_time := t |};
     ib_problems := ib_problems self |}.
Definition builder_add_problem (problem : Problem) (self : InitializationBuilder) : InitializationBuilder :=
  {| ib_time_range := ib_time_range self; ib_problems := ib_problems self ++ [problem] |}.

Definition builder_add_channel_with_id (id : Z) (topic_name : string) : M (option LinkedChannel) :=
  with_channels (ChannelManager_add_channel id topic_name).
Definition builder_add_channel (topic_name : string) : M LinkedChannel :=
  id ← next_channel;
  c ← builder_add_channel_with_id id topic_name; expect c.

Definition builder_add_schema_with_id (id : Z) (schema : Schema) : M (option LinkedSchema) :=
  if 0 <? id then with_schemas (λ schemas, mret (SchemaManager_add_schema id schema schemas)) else panic.
Definition next_schema : M Z := with_schemas (λ schemas, lift (SchemaManager_get_free_id schemas)).
Definition builder_add_schema (schema : Schema) : M LinkedSchema :=
  id ← next_schema;
  s ← builder_add_schema_with_id id schema; expect s.

(** [add_encode] for a type with this schema and message encoding; [None] is the
    error that there is no schema. *)
Definition builder_add_encode_with_id (get_schema : option Schema) (encoding : string) (id : Z) :
    M (option (option LinkedSchema)) :=
  match get_schema with
  | None => mret None
  | Some schema =>
    s ← builder_add_schema_with_id id schema;
    mret (Some (LinkedSchema_message_encoding encoding <$> s))
  end.
Definition builder_add_encode (get_schema : option Schema) (encoding : string) : M (option LinkedSchema) :=
  schema_id ← next_schema;
  r ← builder_add_encode_with_id get_schema encoding schema_id;
  match r with None => mret None | Some s => s ← expect s; mret (Some s) end.

(** [From<LinkedSchema>], [From<LinkedChannel>]. *)
Definition loader_schema (s : LinkedSchema) : LoaderSchema :=
  {| sc_id := ls_id s; sc_name := sch_name (ls_schema s); sc_encoding := sch_encoding (ls_schema s);
     sc_data := sch_data (ls_schema s) |}.
Definition loader_channel (c : LinkedChannel) : M LoaderChannel :=
  cell ← read_cell (lc_cell c);
  mret {| ch_id := lc_id c; ch_schema_id := cc_schema_id cell; ch_topic_name := lc_topic_name c;
          ch_message_encoding := cc_message_encoding cell; ch_message_count := cc_message_count cell |}.
Fixpoint loader_channels (cs : list LinkedChannel) : M (list LoaderChannel) :=
  match cs with
  | [] => mret []
  | c :: cs => c ← loader_channel c; cs ← loader_channels cs; mret (c :: cs)
  end.
Definition build (self : InitializationBuilder) : M Initialization :=
  sm ← read_schemas;
  cm ← read_channels;
  channels ← loader_channels (values (cm_channels cm));
  mret {| in_channels := channels; in_schemas := loader_schema <$> values (sm_schemas sm);
          in_time_range := ib_time_range self; in_problems := ib_problems self |}.

(** ** Programs *)

(** What a program does with a builder, its clones and its handles, which it
    holds in variables. *)
Inductive Op :=
| OAddChannel (topic : string)
| OAddChannelWithId (id : Z) (topic : string)
| OAddSchema (s : Schema)
| OAddSchemaWithId (id : Z) (s : Schema)
| OAddEncode (s : option Schema) (encoding : string)
| OAddEncodeWithId (s : option Schema) (encoding : string) (id : Z)
| OSchemaEncoding (h : nat) (encoding : string)
| OCloneSchema (h : nat)
| OSchemaAddChannel (h : nat) (topic : string)
| OSchemaAddChannelWithId (h : nat) (id : Z) (topic : string)
| OChannelCount (h : nat) (n : Z)
| OChannelEncoding (h : nat) (encoding : string)
| OChannelSchema (h s : nat)
| OCloneBuilder (b : nat)
| OTimeRange (b : nat) (r : TimeRange)
| OStartTime (b : nat) (t : Z)
| OEndTime (b : nat) (t : Z)
| OAddProblem (b : nat) (p : Problem)
| OBuild (b : nat).

Record Env := {
  e_builders : list InitializationBuilder;
  e_schemas : list LinkedSchema;
  e_channels : list LinkedChannel;
  e_built : list Initialization
}.
Definition push_channel (c : option LinkedChannel) (e : Env) : Env :=
  {| e_builders := e_builders e; e_schemas := e_schemas e;
     e_channels := e_channels e ++ option_list c; e_built := e_built e |}.
Definition push_schema (s : option LinkedSchema) (e : Env) : Env :=
  {| e_builders := e_builders e; e_schemas := e_schemas e ++ option_list s;
     e_channels := e_channels e; e_built := e_built e |}.
Definition map_builders (f : list InitializationBuilder → list InitializationBuilder) (e : Env) : Env :=
  {| e_builders := f (e_builders e); e_schemas := e_schemas e;
     e_channels := e_channels e; e_built := e_built e |}.
Definition map_schemas (f : list LinkedSchema → list LinkedSchema) (e : Env) : Env :=
  {| e_builders := e_builders e; e_schemas := f (e_schemas e);
     e_channels := e_channels e; e_built := e_built e |}.

(** A variable that is not bound does nothing. *)
Definition on {A} (o : option A) (e : Env) (f : A → M Env) : M Env :=
  match o with Some a => f a | None => mret e end.
Definition run_op (op : Op) (e : Env) : M Env :=
  match op with
  | OAddChannel topic => c ← builder_add_channel topic; mret (push_channel (Some c) e)
  | OAddChannelWithId id topic => c ← builder_add_channel_with_id id topic; mret (push_channel c e)
  | OAddSchema s => s ← builder_add_schema s; mret (push_schema (Some s) e)
  | OAddSchemaWithId id s => s ← builder_add_schema_with_id id s; mret (push_schema s e)
  | OAddEncode s encoding => s ← builder_add_encode s encoding; mret (push_schema s e)
  | OAddEncodeWithId s encoding id =>
    s ← builder_add_encode_with_id s encoding id; mret (push_schema (mjoin s) e)
  | OSchemaEncoding h encoding => mret (map_schemas (alter (LinkedSchema_message_encoding encoding) h) e)
  | OCloneSchema h => mret (push_schema (e_schemas e !! h) e)
  | OSchemaAddChannel h topic => on (e_schemas e !! h) e (λ s,
      c ← LinkedSchema_add_channel s topic; mret (push_channel (Some c) e))
  | OSchemaAddChannelWithId h id topic => on (e_schemas e !! h) e (λ s,
      c ← LinkedSchema_add_channel_with_id s id topic; mret (push_channel c e))
  | OChannelCount h n => on (e_channels e !! h) e (λ c, _ ← LinkedChannel_message_count n c; mret e)
  | OChannelEncoding h encoding => on (e_channels e !! h) e (λ c,
      _ ← LinkedChannel_message_encoding encoding c; mret e)
  | OChannelSchema h s => on (e_channels e !! h) e (λ c, on (e_schemas e !! s) e (λ s,
      _ ← LinkedChannel_schema s c; mret e))
  | OCloneBuilder b => mret (map_builders (λ l, l ++ option_list (l !! b)) e)
  | OTimeRange b r => mret (map_builders (alter (builder_time_range r) b) e)
  | OStartTime b t => mret (map_builders (alter (builder_start_time t) b) e)
  | OEndTime b t => mret (map_builders (alter (builder_end_time t) b) e)
  | OAddProblem b p => mret (map_builders (alter (builder_add_problem p) b) e)
  | OBuild b => on (e_builders e !! b) e (λ b, i ← build b;
      mret {| e_builders := e_builders e; e_schemas := e_schemas e; e_channels := e_channels e;
              e_built := e_built e ++ [i] |})
  end.
Fixpoint run (ops : list Op) (e : Env) : M Env :=
  match ops with [] => mret e | op :: ops => e ← run_op op e; run ops e end.
Definition initial_env : Env := {|
  e_builders := [InitializationBuilder_default]; e_schemas := []; e_channels := []; e_built := []
|}.
End builder.

(** ** Seeking in a reader *)

(** The host's reader: its size, its position, and moving it. *)
Class HostReader := {
  reader : Type;
  reader_size : reader → Z;
  reader_position : reader → Z;
  reader_seek : Z → reader → reader
}.
Inductive SeekFrom := SeekStart (offset : Z) | SeekEnd (offset : Z) | SeekCurrent (offset : Z).

(** [as i64]. *)
Definition to_i64 (z : Z) : Z := let z := wrap 64 z in if z <? 2 ^ 63 then z else z - 2 ^ 64.

Section seek.
Context `{HostReader} (overflow_checks : bool).
Definition add_i64 (a b : Z) : option Z :=
  if overflow_checks then checked_signed 64 (a + b) else Some (to_i64 (a + b)).
(** The new position; the casts to [u64] and [i64] wrap.  There is no error. *)
Definition seek (from : SeekFrom) (self : reader) : result Forever (Z * reader) :=
  target ← or_panic (match from with
    | SeekStart offset => Some offset
    | SeekEnd offset => wrap 64 <$> add_i64 (to_i64 (reader_size self)) offset
    | SeekCurrent offset => wrap 64 <$> add_i64 (to_i64 (reader_position self)) offset
    end);
  let self := reader_seek target self in
  Ok (reader_position self, self).
End seek.
