(* ===== verification/DataLoaderProofs.v ===== *)
(** * DataLoaderProofs: the builder of a data loader keeps its descriptions consistent

    For DataLoader.v: what the search for a free id returns ([free_id_spec]); the
    specification of the builder without references, its refinement, and the
    consistency of what is built. *)

From stdpp Require Import sorting.
From S2P Require Import Prelude Bytes Channel DataLoader.
Local Open Scope Z_scope.

(** ** Free ids *)

Lemma free_id_checked fuel taken n : 0 ≤ n < 2 ^ 16 → 2 ^ 16 - n ≤ Z.of_nat fuel →
  (∃ id, free_id_loop true fuel taken n = Ok (id, id + 1) ∧ n ≤ id < 2 ^ 16 - 1 ∧ taken id = false ∧
    ∀ k, n ≤ k < id → taken k = true) ∨
  free_id_loop true fuel taken n = Panic ∧ ∀ k, n ≤ k < 2 ^ 16 - 1 → taken k = true.
Proof.
  revert n. induction fuel as [|fuel IH]; intros n Hn Hf; [lia|]. cbn [free_id_loop]. unfold next_u16.
  destruct (decide (n = 2 ^ 16 - 1)) as [->|Hlt].
  { right. split; [done|]. intros. lia. }
  assert (checked_unsigned 16 (n + 1) = Some (n + 1)) as -> by
    (unfold checked_unsigned; rewrite decide_True by (unfold fits; lia); done).
  cbn [or_panic mbind result_bind].
  destruct (taken n) eqn:Ht.
  - destruct (IH (n + 1) ltac:(lia) ltac:(lia)) as [(id & E & Hid & Hfree & Hall)|[E Hall]].
    + left. exists id. split; [done|]. split; [lia|]. split; [done|]. intros k Hk.
      destruct (decide (k = n)) as [->|]; [done|]. apply Hall. lia.
    + right. split; [done|]. intros k Hk. destruct (decide (k = n)) as [->|]; [done|]. apply Hall. lia.
  - left. exists n. split; [done|]. split; [lia|]. split; [done|]. intros. lia.
Qed.

Lemma wrap_succ n j : wrap 16 (wrap 16 (n + 1) + j) = wrap 16 (n + (j + 1)).
Proof. unfold wrap. rewrite Z.add_mod_idemp_l by lia. f_equal. lia. Qed.
Lemma free_id_wrapping fuel taken n : fits 16 n →
  (∃ j, 0 ≤ j < Z.of_nat fuel ∧ free_id_loop false fuel taken n =
      Ok (wrap 16 (n + j), wrap 16 (wrap 16 (n + j) + 1)) ∧
    taken (wrap 16 (n + j)) = false ∧ ∀ i, 0 ≤ i < j → taken (wrap 16 (n + i)) = true) ∨
  free_id_loop false fuel taken n = Err DoesNotReturn ∧
    ∀ i, 0 ≤ i < Z.of_nat fuel → taken (wrap 16 (n + i)) = true.
Proof.
  revert n. induction fuel as [|fuel IH]; intros n Hn; [right; split; [done|intros; lia]|].
  cbn [free_id_loop next_u16 or_panic mbind result_bind].
  assert (wrap 16 (n + 0) = n) as E0 by (rewrite Z.add_0_r; by apply wrap_small).
  destruct (taken n) eqn:Ht.
  - destruct (IH (wrap 16 (n + 1)) (wrap_fits 16 _ ltac:(lia))) as [(j & Hj & E & Hfree & Hall)|[E Hall]].
    + left. exists (j + 1). rewrite wrap_succ in *. split; [lia|]. split; [done|]. split; [done|].
      intros i Hi. destruct (decide (i = 0)) as [->|]; [by rewrite E0|].
      specialize (Hall (i - 1) ltac:(lia)). rewrite wrap_succ in Hall. by replace (i - 1 + 1) with i in Hall by lia.
    + right. split; [done|]. intros i Hi. destruct (decide (i = 0)) as [->|]; [by rewrite E0|].
      specialize (Hall (i - 1) ltac:(lia)). rewrite wrap_succ in Hall. by replace (i - 1 + 1) with i in Hall by lia.
  - left. exists 0. rewrite E0. split; [lia|]. split; [done|]. split; [done|]. intros. lia.
Qed.

Lemma rounds_val : Z.of_nat rounds = 2 ^ 16.
Proof. unfold rounds. by rewrite Z2Nat.id. Qed.
#[local] Opaque rounds.

(** C38: [get_free_id].  With overflow checks it returns the least free id from the
    next one on, and panics if that is the last id or none is left: the last id is
    never assigned.  Without them the search goes around, through 0, to the
    first free id, and never returns exactly if all 2^16 ids are taken; the
    rounds of the model suffice. *)
Theorem free_id_spec taken n : fits 16 n →
  (∀ id next, free_id true taken n = Ok (id, next) ↔
    n ≤ id < 2 ^ 16 - 1 ∧ taken id = false ∧ (∀ k, n ≤ k < id → taken k = true) ∧ next = id + 1) ∧
  (free_id true taken n = Panic ↔ ∀ k, n ≤ k < 2 ^ 16 - 1 → taken k = true) ∧
  (∀ id next, free_id false taken n = Ok (id, next) ↔
    ∃ j, 0 ≤ j < 2 ^ 16 ∧ id = wrap 16 (n + j) ∧ taken id = false ∧
      (∀ i, 0 ≤ i < j → taken (wrap 16 (n + i)) = true) ∧ next = wrap 16 (id + 1)) ∧
  (free_id false taken n = Err DoesNotReturn ↔ ∀ k, fits 16 k → taken k = true) ∧
  free_id true taken n ≠ Err DoesNotReturn ∧ free_id false taken n ≠ Panic.
Proof.
  intros Hn. unfold free_id. pose proof rounds_val as Efuel.
  generalize dependent rounds. intros fuel Efuel.
  pose proof (free_id_checked fuel taken n Hn ltac:(unfold fits in Hn; lia)) as Hc.
  pose proof (free_id_wrapping fuel taken n Hn) as Hw. rewrite Efuel in Hw.
  assert ((∀ i, 0 ≤ i < 2 ^ 16 → taken (wrap 16 (n + i)) = true) ↔ ∀ k, fits 16 k → taken k = true) as Hall.
  { split; intros H k Hk; [|apply H, wrap_fits; lia].
    replace k with (wrap 16 (n + wrap 16 (k - n))); [apply H, wrap_fits; lia|].
    unfold wrap. rewrite Z.add_mod_idemp_r by lia. replace (n + (k - n)) with k by lia.
    by apply Z.mod_small. }
  split; [|split; [|split; [|split; [|split]]]].
  - intros id next. destruct Hc as [(id' & -> & Hid & Hfree & Htaken)|[-> Htaken]].
    + split; [intros [= <- <-]; split_and!; auto; lia|]. intros (Hr & Hf & Hk & ->).
      assert (id = id') as ->; [|done]. destruct (Z.lt_trichotomy id id') as [H|[H|H]]; [|done|].
      * rewrite Htaken in Hf by lia. done.
      * rewrite Hk in Hfree by lia. done.
    + split; [done|]. intros (Hr & Hf & _). by rewrite Htaken in Hf by lia.
  - destruct Hc as [(id' & -> & Hid & Hfree & _)|[-> Htaken]]; [|done]. split; [done|].
    intros H. rewrite H in Hfree by lia. done.
  - intros id next. destruct Hw as [(j & Hj & -> & Hfree & Htaken)|[-> Htaken]].
    + split; [intros [= <- <-]; by exists j|]. intros (j' & Hj' & -> & Hf & Hk & ->).
      assert (j = j') as ->; [|done]. destruct (Z.lt_trichotomy j j') as [H|[H|H]]; [|done|].
      * rewrite Hk in Hfree by lia. done.
      * rewrite Htaken in Hf by lia. done.
    + split; [done|]. intros (j & Hj & -> & Hf & _). by rewrite Htaken in Hf by lia.
  - rewrite <- Hall. destruct Hw as [(j & Hj & -> & Hfree & _)|[-> Htaken]]; [|done]. split; [done|].
    intros H. by rewrite H in Hfree by lia.
  - destruct Hc as [(? & -> & _)|[-> _]]; done.
  - destruct Hw as [(? & _ & -> & _)|[-> _]]; done.
Qed.

Lemma free_id_free checks taken n id next : fits 16 n → free_id checks taken n = Ok (id, next) →
  taken id = false ∧ fits 16 id ∧ fits 16 next.
Proof.
  intros Hn E. unfold free_id in E. pose proof rounds_val as Efuel.
  generalize dependent rounds. intros fuel E Efuel.
  destruct (free_id_checked fuel taken n Hn ltac:(unfold fits in Hn; lia))
    as [(id' & E' & Hid & Hfree & _)|[E' _]].
  all: destruct (free_id_wrapping fuel taken n Hn) as [(j & Hj & E'' & Hf & _)|[E'' _]].
  all: destruct checks; rewrite ?E', ?E'' in E; try done; injection E as <- <-.
  all: split_and!; try done; try (apply wrap_fits; lia); unfold fits in *; lia.
Qed.

(** ** The specification *)

(** The properties of a channel; handles are ids, those of schemas with their
    message encoding. *)
Record SpecChannel := {
  x_topic : string;
  x_schema : option Z;
  x_encoding : string;
  x_count : option Z
}.
Record Spec := {
  s_channels : gmap Z SpecChannel;
  s_next_channel : Z;
  s_schemas : gmap Z Schema;
  s_next_schema : Z;
  s_builders : list InitializationBuilder;
  s_schema_handles : list (Z * string);
  s_channel_handles : list Z;
  s_built : list Initialization
}.
Definition spec_initial : Spec := {|
  s_channels := ∅; s_next_channel := 1; s_schemas := ∅; s_next_schema := 1;
  s_builders := [InitializationBuilder_default]; s_schema_handles := []; s_channel_handles := [];
  s_built := []
|}.

Definition spec_channel (id : Z) (c : SpecChannel) : LoaderChannel :=
  {| ch_id := id; ch_schema_id := x_schema c; ch_topic_name := x_topic c;
     ch_message_encoding := x_encoding c; ch_message_count := x_count c |}.
Definition spec_schema (id : Z) (s : Schema) : LoaderSchema :=
  {| sc_id := id; sc_name := sch_name s; sc_encoding := sch_encoding s; sc_data := sch_data s |}.
(** The entries of a map in the order of the keys. *)
Definition keys {A} (m : gmap Z A) : list Z := merge_sort Z.le (elements (dom m)).
Definition listed {A B} (f : Z → A → B) (m : gmap Z A) : list B := omap (λ k, f k <$> m !! k) (keys m).
Definition spec_build (b : InitializationBuilder) (s : Spec) : Initialization :=
  {| in_channels := listed spec_channel (s_channels s); in_schemas := listed spec_schema (s_schemas s);
     in_time_range := ib_time_range b; in_problems := ib_problems b |}.

Definition set_s_channels (m : gmap Z SpecChannel) (s : Spec) : Spec :=
  {| s_channels := m; s_next_channel := s_next_channel s; s_schemas := s_schemas s;
     s_next_schema := s_next_schema s; s_builders := s_builders s;
     s_schema_handles := s_schema_handles s; s_channel_handles := s_channel_handles s; s_built := s_built s |}.
Definition set_s_next_channel (n : Z) (s : Spec) : Spec :=
  {| s_channels := s_channels s; s_next_channel := n; s_schemas := s_schemas s;
     s_next_schema := s_next_schema s; s_builders := s_builders s;
     s_schema_handles := s_schema_handles s; s_channel_handles := s_channel_handles s; s_built := s_built s |}.
Definition set_s_schemas (m : gmap Z Schema) (s : Spec) : Spec :=
  {| s_channels := s_channels s; s_next_channel := s_next_channel s; s_schemas := m;
     s_next_schema := s_next_schema s; s_builders := s_builders s;
     s_schema_handles := s_schema_handles s; s_channel_handles := s_channel_handles s; s_built := s_built s |}.
Definition set_s_next_schema (n : Z) (s : Spec) : Spec :=
  {| s_channels := s_channels s; s_next_channel := s_next_channel s; s_schemas := s_schemas s;
     s_next_schema := n; s_builders := s_builders s;
     s_schema_handles := s_schema_handles s; s_channel_handles := s_channel_handles s; s_built := s_built s |}.
Definition set_s_builders (l : list InitializationBuilder) (s : Spec) : Spec :=
  {| s_channels := s_channels s; s_next_channel := s_next_channel s; s_schemas := s_schemas s;
     s_next_schema := s_next_schema s; s_builders := l;
     s_schema_handles := s_schema_handles s; s_channel_handles := s_channel_handles s; s_built := s_built s |}.
Definition set_s_schema_handles (l : list (Z * string)) (s : Spec) : Spec :=
  {| s_channels := s_channels s; s_next_channel := s_next_channel s; s_schemas := s_schemas s;
     s_next_schema := s_next_schema s; s_builders := s_builders s;
     s_schema_handles := l; s_channel_handles := s_channel_handles s; s_built := s_built s |}.
Definition set_s_channel_handles (l : list Z) (s : Spec) : Spec :=
  {| s_channels := s_channels s; s_next_channel := s_next_channel s; s_schemas := s_schemas s;
     s_next_schema := s_next_schema s; s_builders := s_builders s;
     s_schema_handles := s_schema_handles s; s_channel_handles := l; s_built := s_built s |}.
Definition set_s_built (l : list Initialization) (s : Spec) : Spec :=
  {| s_channels := s_channels s; s_next_channel := s_next_channel s; s_schemas := s_schemas s;
     s_next_schema := s_next_schema s; s_builders := s_builders s;
     s_schema_handles := s_schema_handles s; s_channel_handles := s_channel_handles s; s_built := l |}.

(** A new channel or schema, if the id is free; its handle. *)
Definition spec_add_channel (id : Z) (c : SpecChannel) (s : Spec) : Spec :=
  match s_channels s !! id with
  | Some _ => s
  | None => set_s_channel_handles (s_channel_handles s ++ [id])
              (set_s_channels (<[id := c]> (s_channels s)) s)
  end.
Definition spec_add_schema (id : Z) (schema : Schema) (encoding : string) (s : Spec) : Spec :=
  match s_schemas s !! id with
  | Some _ => s
  | None => set_s_schema_handles (s_schema_handles s ++ [(id, encoding)])
              (set_s_schemas (<[id := schema]> (s_schemas s)) s)
  end.
Definition spec_channel_of (topic : string) (schema : option (Z * string)) : SpecChannel :=
  {| x_topic := topic; x_schema := fst <$> schema;
     x_encoding := match schema with Some (_, e) => e | None => "" end; x_count := None |}.
Definition spec_update (f : SpecChannel → SpecChannel) (h : nat) (s : Spec) : Spec :=
  match s_channel_handles s !! h with
  | Some id => set_s_channels (alter f id (s_channels s)) s
  | None => s
  end.
Definition set_count (n : Z) (c : SpecChannel) : SpecChannel :=
  {| x_topic := x_topic c; x_schema := x_schema c; x_encoding := x_encoding c; x_count := Some n |}.
Definition set_encoding (e : string) (c : SpecChannel) : SpecChannel :=
  {| x_topic := x_topic c; x_schema := x_schema c; x_encoding := e; x_count := x_count c |}.
Definition set_schema (id : Z) (c : SpecChannel) : SpecChannel :=
  {| x_topic := x_topic c; x_schema := Some id; x_encoding := x_encoding c; x_count := x_count c |}.

Section spec.
Context (checks : bool).

Definition spec_next_channel (s : Spec) : result Forever (Z * Spec) :=
  '(id, next) ← free_id checks (is_taken (s_channels s)) (s_next_channel s);
  Ok (id, set_s_next_channel next s).
Definition spec_next_schema (s : Spec) : result Forever (Z * Spec) :=
  '(id, next) ← free_id checks (is_taken (s_schemas s)) (s_next_schema s);
  Ok (id, set_s_next_schema next s).
(** The id of a schema is not zero. *)
Definition spec_schema_at (id : Z) (schema : Schema) (encoding : string) (s : Spec) : result Forever Spec :=
  if 0 <? id then Ok (spec_add_schema id schema encoding s) else Panic.
Definition spec_op (op : Op) (s : Spec) : result Forever Spec :=
  match op with
  | OAddChannel topic =>
    '(id, s) ← spec_next_channel s; Ok (spec_add_channel id (spec_channel_of topic None) s)
  | OAddChannelWithId id topic => Ok (spec_add_channel id (spec_channel_of topic None) s)
  | OAddSchema schema => '(id, s) ← spec_next_schema s; spec_schema_at id schema "" s
  | OAddSchemaWithId id schema => spec_schema_at id schema "" s
  | OAddEncode schema encoding =>
    '(id, s) ← spec_next_schema s;
    match schema with Some schema => spec_schema_at id schema encoding s | None => Ok s end
  | OAddEncodeWithId schema encoding id =>
    match schema with Some schema => spec_schema_at id schema encoding s | None => Ok s end
  | OSchemaEncoding h encoding =>
    Ok (set_s_schema_handles (alter (λ e, (e.1, encoding)) h (s_schema_handles s)) s)
  | OCloneSchema h =>
    Ok (set_s_schema_handles (s_schema_handles s ++ option_list (s_schema_handles s !! h)) s)
  | OSchemaAddChannel h topic =>
    match s_schema_handles s !! h with
    | Some e => '(id, s) ← spec_next_channel s; Ok (spec_add_channel id (spec_channel_of topic (Some e)) s)
    | None => Ok s
    end
  | OSchemaAddChannelWithId h id topic =>
    match s_schema_handles s !! h with
    | Some e => Ok (spec_add_channel id (spec_channel_of topic (Some e)) s)
    | None => Ok s
    end
  | OChannelCount h n => Ok (spec_update (set_count n) h s)
  | OChannelEncoding h e => Ok (spec_update (set_encoding e) h s)
  | OChannelSchema h k =>
    match s_schema_handles s !! k with
    | Some (id, _) => Ok (spec_update (set_schema id) h s)
    | None => Ok s
    end
  | OCloneBuilder b => Ok (set_s_builders (s_builders s ++ option_list (s_builders s !! b)) s)
  | OTimeRange b r => Ok (set_s_builders (alter (builder_time_range r) b (s_builders s)) s)
  | OStartTime b t => Ok (set_s_builders (alter (builder_start_time t) b (s_builders s)) s)
  | OEndTime b t => Ok (set_s_builders (alter (builder_end_time t) b (s_builders s)) s)
  | OAddProblem b p => Ok (set_s_builders (alter (builder_add_problem p) b (s_builders s)) s)
  | OBuild b =>
    match s_builders s !! b with
    | Some b => Ok (set_s_built (s_built s ++ [spec_build b s]) s)
    | None => Ok s
    end
  end.
Fixpoint spec_run (ops : list Op) (s : Spec) : result Forever Spec :=
  match ops with [] => Ok s | op :: ops => s ← spec_op op s; spec_run ops s end.
End spec.

(** ** The refinement *)

Definition cell_of (x : SpecChannel) : ChannelCell :=
  {| cc_schema_id := x_schema x; cc_message_encoding := x_encoding x; cc_message_count := x_count x |}.
Definition linked_schema (id : Z) (s : Schema) : LinkedSchema :=
  {| ls_id := id; ls_schema := s; ls_message_encoding := "" |}.
Definition channel_rel (cells : list ChannelCell) (id : Z) (c : LinkedChannel) (x : SpecChannel) : Prop :=
  lc_id c = id ∧ lc_topic_name c = x_topic x ∧ cells !! lc_cell c = Some (cell_of x).

(** A store and the variables of a program implement a state of the specification. *)
Record related (st : Store) (e : Env) (s : Spec) : Prop := {
  r_borrowed_c : rc_borrowed (st_channels st) = false;
  r_borrowed_s : rc_borrowed (st_schemas st) = false;
  r_next_c : next_channel_id (rc_value (st_channels st)) = s_next_channel s;
  r_next_s : next_schema_id (rc_value (st_schemas st)) = s_next_schema s;
  r_schemas id : sm_schemas (rc_value (st_schemas st)) !! id = linked_schema id <$> s_schemas s !! id;
  r_channels id : option_Forall2 (channel_rel (st_cells st) id)
    (cm_channels (rc_value (st_channels st)) !! id) (s_channels s !! id);
  r_cells id1 id2 c1 c2 : cm_channels (rc_value (st_channels st)) !! id1 = Some c1 →
    cm_channels (rc_value (st_channels st)) !! id2 = Some c2 → lc_cell c1 = lc_cell c2 → id1 = id2;
  r_builders : e_builders e = s_builders s;
  r_schema_handles : Forall2 (λ h x, ls_id h = x.1 ∧ ls_message_encoding h = x.2)
    (e_schemas e) (s_schema_handles s);
  r_channel_handles : Forall2 (λ c id, cm_channels (rc_value (st_channels st)) !! id = Some c)
    (e_channels e) (s_channel_handles s);
  r_built : e_built e = s_built s
}.
Lemma related_initial : related initial_store initial_env spec_initial.
Proof.
  split; try done; cbn. intros id. rewrite !lookup_empty. constructor.
Qed.

Lemma free_id_ext checks t u n : (∀ k, t k = u k) → free_id checks t n = free_id checks u n.
Proof.
  intros Htu. unfold free_id. generalize rounds. intros fuel. revert n.
  induction fuel as [|fuel IH]; intros n; [done|]. cbn. rewrite Htu.
  destruct (or_panic _); cbn; [|done|done]. destruct (u n); [apply IH|done].
Qed.
Lemma free_id_not_taken checks t n id next : free_id checks t n = Ok (id, next) → t id = false.
Proof.
  unfold free_id. generalize rounds. intros fuel. revert n.
  induction fuel as [|fuel IH]; intros n; [done|]. cbn. destruct (or_panic _); cbn; [|done|done].
  destruct (t n) eqn:Ht; [apply IH|]. by intros [= <- _].
Qed.
Lemma taken_related {A B} (P : A → B → Prop) (m : option A) (o : option B) :
  option_Forall2 P m o → bool_decide (is_Some m) = bool_decide (is_Some o).
Proof. by destruct 1. Qed.

(** The result of a monadic operation against that of the specification. *)
Definition implements {A B} (m : result Forever (A * Store)) (r : result Forever B)
    (P : A → Store → B → Prop) : Prop :=
  match r with
  | Ok b => ∃ a st, m = Ok (a, st) ∧ P a st b
  | Err x => m = Err x
  | Panic => m = Panic
  end.

Lemma next_channel_spec checks st e s : related st e s →
  implements (next_channel checks st) (spec_next_channel checks s)
    (λ id st' p, p.1 = id ∧ related st' e p.2 ∧ s_channels p.2 !! id = None).
Proof.
  intros R. unfold next_channel, with_channels, spec_next_channel, lift, ChannelManager_get_free_id.
  rewrite (r_borrowed_c _ _ _ R), (r_next_c _ _ _ R).
  rewrite (free_id_ext _ (is_taken (cm_channels _)) (is_taken (s_channels s)))
    by (intros k; eapply taken_related, r_channels, R).
  destruct (free_id checks _ _) as [[id next]|x|] eqn:E; [|done|done]. cbn.
  eexists _, _. split; [reflexivity|]. split; [done|]. split.
  - destruct R. split; done.
  - apply free_id_not_taken in E. apply bool_decide_eq_false in E. by apply eq_None_not_Some.
Qed.
Lemma next_schema_spec checks st e s : related st e s →
  implements (next_schema checks st) (spec_next_schema checks s)
    (λ id st' p, p.1 = id ∧ related st' e p.2 ∧ s_schemas p.2 !! id = None).
Proof.
  intros R. unfold next_schema, with_schemas, spec_next_schema, lift, SchemaManager_get_free_id.
  rewrite (r_borrowed_s _ _ _ R), (r_next_s _ _ _ R).
  rewrite (free_id_ext _ (is_taken (sm_schemas _)) (is_taken (s_schemas s))).
  2:{ intros k. unfold is_taken. rewrite (r_schemas _ _ _ R). by destruct (s_schemas s !! k). }
  destruct (free_id checks _ _) as [[id next]|x|] eqn:E; [|done|done]. cbn.
  eexists _, _. split; [reflexivity|]. split; [done|]. split.
  - destruct R. split; done.
  - apply free_id_not_taken in E. apply bool_decide_eq_false in E. by apply eq_None_not_Some.
Qed.

(** A channel that is added with the properties [x]. *)
Definition added (id : Z) (x : SpecChannel) (st : Store) : Store :=
  set_channels (Build_RefCell false {| next_channel_id := next_channel_id (rc_value (st_channels st));
      cm_channels := <[id := {| lc_id := id; lc_topic_name := x_topic x; lc_cell := length (st_cells st) |}]>
        (cm_channels (rc_value (st_channels st))) |})
    (set_cells (st_cells st ++ [cell_of x]) st).
Lemma related_added id x st e s : related st e s → s_channels s !! id = None →
  related (added id x st)
    (push_channel (Some {| lc_id := id; lc_topic_name := x_topic x; lc_cell := length (st_cells st) |}) e)
    (spec_add_channel id x s).
Proof.
  intros R Hid. unfold spec_add_channel. rewrite Hid.
  assert (cm_channels (rc_value (st_channels st)) !! id = None) as Hcm.
  { pose proof (r_channels _ _ _ R id) as H. rewrite Hid in H. by inversion H. }
  assert (∀ i c, cm_channels (rc_value (st_channels st)) !! i = Some c → (lc_cell c < length (st_cells st))%nat)
    as Hlt.
  { intros i c Hc. pose proof (r_channels _ _ _ R i) as H. rewrite Hc in H.
    inversion H as [? x' (_ & _ & Hl)|]. by eapply lookup_lt_Some. }
  split; cbn; try (apply R).
  - done.
  - intros i. destruct (decide (i = id)) as [->|Hne].
    + rewrite !lookup_insert_eq. constructor. split_and!; [done..|].
      by rewrite lookup_app_r, Nat.sub_diag by done.
    + rewrite !lookup_insert_ne by done. pose proof (r_channels _ _ _ R i) as H.
      destruct H as [c x' (H1 & H2 & H3)|]; constructor. split_and!; [done..|].
      by apply lookup_app_l_Some.
  - intros i j c d. rewrite !lookup_insert_Some. intros [[<- <-]|[Hi Hc]] [[<- <-]|[Hj Hd]] E; cbn in E.
    + done.
    + apply Hlt in Hd. lia.
    + apply Hlt in Hc. lia.
    + by eapply r_cells.
  - apply Forall2_app; [|constructor; [by rewrite lookup_insert_eq|constructor]].
    eapply Forall2_impl; [apply R|]. cbn. intros c i Hc. rewrite lookup_insert_ne; [done|]. by intros ->; simplify_eq.
Qed.

(** Adding a channel whose id may be taken, with what the handle is set to. *)
Definition adds (m : M (option LinkedChannel)) (id : Z) (x : SpecChannel) : Prop := ∀ st e s, related st e s →
  ∃ c st', m st = Ok (c, st') ∧ related st' (push_channel c e) (spec_add_channel id x s) ∧
    (s_channels s !! id = None → is_Some c).
Lemma push_nothing e : push_channel None e = e ∧ push_schema None e = e.
Proof. destruct e. unfold push_channel, push_schema. cbn. by rewrite !app_nil_r. Qed.

Lemma builder_adds id topic : adds (builder_add_channel_with_id id topic) id (spec_channel_of topic None).
Proof.
  intros st e s R. unfold builder_add_channel_with_id, with_channels, ChannelManager_add_channel.
  rewrite (r_borrowed_c _ _ _ R). pose proof (r_channels _ _ _ R id) as H.
  destruct (s_channels s !! id) as [x|] eqn:Hid.
  - inversion H as [c y Hc E1 E2|]. cbn. eexists None, _. split; [reflexivity|]. split; [|done].
    unfold spec_add_channel. rewrite Hid. rewrite (proj1 (push_nothing e)). destruct R. by split.
  - inversion H as [|E1 E2]. eexists _, _. split; [reflexivity|]. split; [|by eexists].
    exact (related_added id (spec_channel_of topic None) st e s R Hid).
Qed.
Lemma schema_adds h id topic : adds (LinkedSchema_add_channel_with_id h id topic) id
  (spec_channel_of topic (Some (ls_id h, ls_message_encoding h))).
Proof.
  intros st e s R. unfold LinkedSchema_add_channel_with_id, with_channels, ChannelManager_add_channel.
  rewrite (r_borrowed_c _ _ _ R). pose proof (r_channels _ _ _ R id) as H.
  destruct (s_channels s !! id) as [x|] eqn:Hid.
  - inversion H as [c y Hc E1 E2|]. cbn. eexists None, _. split; [reflexivity|]. split; [|done].
    unfold spec_add_channel. rewrite Hid. rewrite (proj1 (push_nothing e)). destruct R. by split.
  - inversion H as [|E1 E2]. eexists _, _. split; [reflexivity|]. split; [|by eexists].
    pose proof (related_added id (spec_channel_of topic (Some (ls_id h, ls_message_encoding h))) st e s R Hid) as R'.
    unfold added in R'. cbn in R' |- *. unfold set_cells, set_channels in *. cbn in *.
    rewrite alter_app_r_alt, alter_app_r_alt by (rewrite ?length_app; lia).
    by rewrite Nat.sub_diag.
Qed.

Lemma bind_ok {A B} (m : M A) (f : A → M B) st a st' : m st = Ok (a, st') → (m ≫= f) st = f a st'.
Proof. intros E. unfold mbind, M_bind. by rewrite E. Qed.
Lemma bind_panic {A B} (m : M A) (f : A → M B) st : m st = Panic → (m ≫= f) st = Panic.
Proof. intros E. unfold mbind, M_bind. by rewrite E. Qed.
Lemma bind_err {A B} (m : M A) (f : A → M B) st x : m st = Err x → (m ≫= f) st = Err x.
Proof. intros E. unfold mbind, M_bind. by rewrite E. Qed.

(** Setting a property of a channel through a handle. *)
Lemma related_update f g h c st e s : related st e s → e_channels e !! h = Some c →
  (∀ x, cell_of (g x) = f (cell_of x) ∧ x_topic (g x) = x_topic x) →
  related (set_cells (alter f (lc_cell c) (st_cells st)) st) e (spec_update g h s).
Proof.
  intros R Hc Hfg.
  destruct (Forall2_lookup_l _ _ _ _ _ (r_channel_handles _ _ _ R) Hc) as (id & Hid & Hcm). cbn in Hcm.
  unfold spec_update. rewrite Hid. split; cbn; try (apply R).
  - intros i. pose proof (r_channels _ _ _ R i) as H. destruct (decide (i = id)) as [->|Hne].
    + rewrite lookup_alter_eq. rewrite Hcm in *. inversion H as [? x (H1 & H2 & H3) E1 E2|].
      cbn. constructor. destruct (Hfg x) as [E3 E4]. split_and!; [done|by rewrite E4|].
      by rewrite list_lookup_alter_eq, H3, E3.
    + rewrite lookup_alter_ne by done.
      destruct (cm_channels (rc_value (st_channels st)) !! i) as [d|] eqn:Hd; [|inversion H; constructor].
      inversion H as [? x (H1 & H2 & H3) E1 E2|]. constructor. split_and!; [done..|].
      rewrite list_lookup_alter_ne; [done|].
      intros E. apply Hne. symmetry. by eapply r_cells.
Qed.
Lemma related_update_unbound g h st e s : related st e s → e_channels e !! h = None →
  spec_update g h s = s.
Proof.
  intros R Hn. unfold spec_update. destruct (s_channel_handles s !! h) as [id|] eqn:Hid; [|done].
  destruct (Forall2_lookup_r _ _ _ _ _ (r_channel_handles _ _ _ R) Hid) as (c & Hc & _). congruence.
Qed.

(** Schemas. *)
Lemma related_schema_added id schema encoding st e s : related st e s → 0 < id →
  ∃ o st', builder_add_schema_with_id id schema st = Ok (o, st') ∧
    related st' (push_schema (LinkedSchema_message_encoding encoding <$> o) e)
      (spec_add_schema id schema encoding s) ∧ (s_schemas s !! id = None → is_Some o).
Proof.
  intros R Hpos. unfold builder_add_schema_with_id, with_schemas, SchemaManager_add_schema.
  rewrite (proj2 (Z.ltb_lt 0 id)) by done. rewrite (r_borrowed_s _ _ _ R), (r_schemas _ _ _ R).
  unfold spec_add_schema. destruct (s_schemas s !! id) as [sc|] eqn:Hid; cbn.
  - eexists None, _. split; [reflexivity|]. split; [|done]. cbn. rewrite (proj2 (push_nothing e)).
    destruct R. by split.
  - eexists _, _. split; [reflexivity|]. split; [|by eexists]. split; cbn; try (apply R).
    + done.
    + intros i. destruct (decide (i = id)) as [->|]; [by rewrite !lookup_insert_eq|].
      rewrite !lookup_insert_ne by done. apply R.
    + apply Forall2_app; [apply R|]. by repeat constructor.
Qed.
Lemma schema_at_spec id schema encoding st e s : related st e s →
  implements (builder_add_schema_with_id id schema st) (spec_schema_at id schema encoding s)
    (λ o st' s', related st' (push_schema (LinkedSchema_message_encoding encoding <$> o) e) s' ∧
      (s_schemas s !! id = None → is_Some o)).
Proof.
  intros R. unfold spec_schema_at. destruct (0 <? id) eqn:Hpos.
  - apply Z.ltb_lt in Hpos. destruct (related_schema_added id schema encoding st e s R Hpos)
      as (o & st' & E & R' & Ho). exists o, st'. done.
  - cbn. unfold builder_add_schema_with_id. by rewrite Hpos.
Qed.

(** Building. *)
Lemma loader_channels_spec cells xs cs st : st_cells st = cells →
  Forall2 (λ c x, channel_rel cells x.1 c x.2) cs xs →
  loader_channels cs st = Ok ((λ x, spec_channel x.1 x.2) <$> xs, st).
Proof.
  intros <-. induction 1 as [|c [id x] cs xs (H1 & H2 & H3) _ IH]; [done|].
  cbn [loader_channels]. cbn in H1, H2, H3.
  rewrite (bind_ok _ _ st (spec_channel id x) st).
  - by rewrite (bind_ok _ _ st _ st IH).
  - unfold loader_channel. rewrite (bind_ok _ _ st (cell_of x) st); [by rewrite H1, H2|].
    unfold read_cell. by rewrite H3.
Qed.
Lemma keys_related {A B} (P : Z → A → B → Prop) (m : gmap Z A) (o : gmap Z B) :
  (∀ i, option_Forall2 (P i) (m !! i) (o !! i)) → keys m = keys o.
Proof.
  intros H. unfold keys. f_equal. f_equal. apply set_eq. intros i. rewrite !elem_of_dom.
  destruct (H i); split; intros; by eauto using mk_is_Some.
Qed.
Lemma build_spec b st e s : related st e s → build b st = Ok (spec_build b s, st).
Proof.
  intros R. unfold build.
  rewrite (bind_ok read_schemas _ st (rc_value (st_schemas st)) st)
    by (unfold read_schemas; by rewrite (r_borrowed_s _ _ _ R)).
  rewrite (bind_ok read_channels _ st (rc_value (st_channels st)) st)
    by (unfold read_channels; by rewrite (r_borrowed_c _ _ _ R)).
  assert (values (cm_channels (rc_value (st_channels st))) =
    omap (λ k, cm_channels (rc_value (st_channels st)) !! k) (keys (s_channels s))) as ->.
  { unfold values. change (merge_sort Z.le (elements (dom ?m))) with (keys m).
    by rewrite (keys_related _ _ _ (r_channels _ _ _ R)). }
  assert (∀ ks, loader_channels (omap (λ k, cm_channels (rc_value (st_channels st)) !! k) ks) st =
    Ok (omap (λ k, spec_channel k <$> s_channels s !! k) ks, st)) as Hcs.
  { intros ks. rewrite (loader_channels_spec (st_cells st)
      (omap (λ k, pair k <$> s_channels s !! k) ks) _ _ eq_refl).
    - do 2 f_equal. induction ks as [|k ks IH]; [done|]. cbn. destruct (s_channels s !! k); cbn; [by rewrite IH|done].
    - induction ks as [|k ks IH]; [constructor|]. cbn.
      destruct (r_channels _ _ _ R k); cbn; [by constructor|done]. }
  rewrite (bind_ok _ _ st _ st (Hcs _)). unfold mret, M_ret. do 2 f_equal. unfold spec_build. f_equal.
  unfold values, listed.
  change (merge_sort Z.le (elements (dom ?m))) with (keys m).
  assert (keys (sm_schemas (rc_value (st_schemas st))) = keys (s_schemas s)) as ->.
  { apply (keys_related (λ i l x, l = linked_schema i x)). intros i. rewrite (r_schemas _ _ _ R).
    by destruct (s_schemas s !! i); constructor. }
  induction (keys (s_schemas s)) as [|k ks IH]; [done|]. cbn. rewrite (r_schemas _ _ _ R).
  destruct (s_schemas s !! k); cbn; [by rewrite IH|done].
Qed.

(** One operation. *)
Definition refines (m : M Env) (r : result Forever Spec) (st : Store) : Prop :=
  implements (m st) r (λ e' st' s', related st' e' s').

Lemma refines_ret st e s : related st e s → refines (mret e) (Ok s) st.
Proof. intros R. by exists e, st. Qed.
Lemma refines_bind {A B} (m : M A) (f : A → M Env) (r : result Forever B) (g : B → result Forever Spec)
    (P : A → Store → B → Prop) st :
  implements (m st) r P → (∀ a st' b, P a st' b → refines (f a) (g b) st') → refines (m ≫= f) (r ≫= g) st.
Proof.
  intros Hm Hf. unfold refines. destruct r as [b|x|]; cbn in Hm |- *.
  - destruct Hm as (a & st' & E & HP). rewrite (bind_ok _ _ _ _ _ E). by apply Hf.
  - by apply bind_err.
  - by apply bind_panic.
Qed.
Lemma refines_adds m id x e s st : adds m id x → related st e s →
  refines (c ← m; mret (push_channel c e)) (Ok (spec_add_channel id x s)) st.
Proof.
  intros Hm R. destruct (Hm st e s R) as (c & st' & E & R' & _). unfold refines.
  rewrite (bind_ok _ _ _ _ _ E). by apply refines_ret.
Qed.
(** With an id that [get_free_id] gave. *)
Lemma refines_adds_free checks m x e s st : (∀ id, adds (m id) id x) → related st e s →
  refines (c ← (id ← next_channel checks; c ← m id; expect c); mret (push_channel (Some c) e))
    ('(id, s) ← spec_next_channel checks s; Ok (spec_add_channel id x s)) st.
Proof.
  intros Hm R. pose proof (next_channel_spec checks st e s R) as Hn. unfold refines.
  destruct (spec_next_channel checks s) as [[id s']|y|]; cbn in Hn |- *.
  - destruct Hn as (? & st1 & E & <- & R1 & Hfree). cbn in *.
    destruct (Hm id st1 e s' R1) as (c & st2 & E2 & R2 & Hc). destruct (Hc Hfree) as [d ->].
    exists (push_channel (Some d) e), st2. split; [|done].
    rewrite (bind_ok _ _ st d st2); [done|]. rewrite (bind_ok _ _ _ _ _ E).
    by rewrite (bind_ok _ _ _ _ _ E2).
  - by apply bind_err, bind_err.
  - by apply bind_panic, bind_panic.
Qed.

Lemma refines_schema id schema encoding e s st : related st e s →
  refines (o ← builder_add_schema_with_id id schema;
           mret (push_schema (LinkedSchema_message_encoding encoding <$> o) e))
    (spec_schema_at id schema encoding s) st.
Proof.
  intros R. pose proof (schema_at_spec id schema encoding st e s R) as H. unfold refines.
  destruct (spec_schema_at id schema encoding s) as [s'|y|]; cbn in H |- *.
  - destruct H as (o & st' & E & R' & _). rewrite (bind_ok _ _ _ _ _ E). by eexists _, _.
  - by apply bind_err.
  - by apply bind_panic.
Qed.
Lemma message_encoding_empty s : ls_message_encoding s = "" → LinkedSchema_message_encoding "" s = s.
Proof. by destruct s; cbn; intros ->. Qed.
(** A new schema handle has no message encoding. *)
Lemma add_schema_plain id schema st o st' : builder_add_schema_with_id id schema st = Ok (o, st') →
  LinkedSchema_message_encoding "" <$> o = o.
Proof.
  unfold builder_add_schema_with_id, with_schemas, SchemaManager_add_schema.
  destruct (0 <? id); [|done]. destruct (rc_borrowed _); [done|].
  destruct (sm_schemas _ !! id); cbn; by intros [= <- _].
Qed.
Lemma refines_schema_plain id schema e s st : related st e s →
  refines (o ← builder_add_schema_with_id id schema; mret (push_schema o e)) (spec_schema_at id schema "" s) st.
Proof.
  intros R. pose proof (refines_schema id schema "" e s st R) as H. unfold refines in *.
  destruct (builder_add_schema_with_id id schema st) as [[o st']|y|] eqn:E.
  - rewrite (bind_ok _ _ _ _ _ E) in H. rewrite (bind_ok _ _ _ _ _ E).
    by rewrite (add_schema_plain _ _ _ _ _ E) in H.
  - rewrite (bind_err _ _ _ _ E) in H. by rewrite (bind_err _ _ _ _ E).
  - rewrite (bind_panic _ _ _ E) in H. by rewrite (bind_panic _ _ _ E).
Qed.
Lemma bind_assoc {A B C} (m : M A) (f : A → M B) (g : B → M C) st :
  ((m ≫= f) ≫= g) st = (m ≫= λ a, f a ≫= g) st.
Proof. unfold mbind, M_bind. destruct (m st) as [[a st']|x|]; [|done|done]. cbn. by destruct (f a st') as [[]|x|]. Qed.
(** What follows the choice of an id adds a schema under it. *)
Lemma refines_schema_free checks schema encoding (k : Z → M Env) e s st : related st e s →
  (∀ id st1 st2 o, builder_add_schema_with_id id schema st1 = Ok (Some o, st2) →
    k id st1 = Ok (push_schema (Some (LinkedSchema_message_encoding encoding o)) e, st2)) →
  (∀ id st1, builder_add_schema_with_id id schema st1 = Panic → k id st1 = Panic) →
  (∀ id st1 x, builder_add_schema_with_id id schema st1 = Err x → k id st1 = Err x) →
  refines (id ← next_schema checks; k id)
    ('(id, s) ← spec_next_schema checks s; spec_schema_at id schema encoding s) st.
Proof.
  intros R Hok Hpanic Herr.
  eapply refines_bind; [by apply (next_schema_spec checks st e s)|].
  intros id st1 [id' s1] (<- & R1 & Hfree). cbn in *.
  pose proof (schema_at_spec id' schema encoding st1 e s1 R1) as Hs. unfold refines.
  destruct (spec_schema_at id' schema encoding s1) as [s2|y|]; cbn in Hs |- *.
  - destruct Hs as (o & st2 & E & R2 & Ho). destruct (Ho Hfree) as [d ->].
    rewrite (Hok _ _ _ _ E). by eexists _, _.
  - by apply Herr.
  - by apply Hpanic.
Qed.

(** Operations that concern the variables only. *)
Lemma related_builders f st e s : related st e s →
  related st (map_builders f e) (set_s_builders (f (s_builders s)) s).
Proof. intros R. destruct R. split; try done. cbn. congruence. Qed.
Lemma related_handles st e s l k : related st e s →
  Forall2 (λ h x, ls_id h = x.1 ∧ ls_message_encoding h = x.2) l k →
  related st (map_schemas (λ _, l) e) (set_s_schema_handles k s).
Proof. intros R H. destruct R. by split. Qed.

Lemma refines_update f g h (m : LinkedChannel → M LinkedChannel) e s st : related st e s →
  (∀ c st, m c st = Ok (c, set_cells (alter f (lc_cell c) (st_cells st)) st)) →
  (∀ x, cell_of (g x) = f (cell_of x) ∧ x_topic (g x) = x_topic x) →
  refines (on (e_channels e !! h) e (λ c, _ ← m c; mret e)) (Ok (spec_update g h s)) st.
Proof.
  intros R Hm Hfg. destruct (e_channels e !! h) as [c|] eqn:Hc; cbn [on].
  - unfold refines. rewrite (bind_ok _ _ _ _ _ (Hm c st)). eexists _, _. split; [reflexivity|].
    by apply (related_update f).
  - rewrite (related_update_unbound g h st e s R Hc). by apply refines_ret.
Qed.

Lemma run_op_refines checks op st e s : related st e s →
  refines (run_op checks op e) (spec_op checks op s) st.
Proof.
  intros R. destruct op as [topic|id topic|sc|id sc|[sc|] enc|[sc|] enc id|h enc|h|h topic|h id topic|h n|h enc|h k|b|b r|b t|b t|b p|b];
    cbn [run_op spec_op].
  - apply (refines_adds_free checks (λ id, builder_add_channel_with_id id topic)); [|done].
    intros. apply builder_adds.
  - apply refines_adds; [apply builder_adds|done].
  - unfold refines, builder_add_schema. rewrite bind_assoc.
    apply (refines_schema_free checks sc "" (λ id, (o ← builder_add_schema_with_id id sc; expect o) ≫=
      λ s, mret (push_schema (Some s) e)) e s st R).
    + intros id st1 st2 o E. rewrite (bind_ok _ _ st1 o st2) by by rewrite (bind_ok _ _ _ _ _ E).
      pose proof (add_schema_plain _ _ _ _ _ E) as [= Eo]. by rewrite Eo.
    + intros. by apply bind_panic, bind_panic.
    + intros. by apply bind_err, bind_err.
  - by apply refines_schema_plain.
  - unfold refines, builder_add_encode. rewrite bind_assoc.
    eapply (refines_schema_free checks sc enc _ e s st R); cbn beta.
    + intros id st1 st2 o E. unfold builder_add_encode_with_id.
      rewrite (bind_ok _ _ st1 (Some (LinkedSchema_message_encoding enc o)) st2); [done|].
      rewrite (bind_ok _ _ st1 (Some (Some (LinkedSchema_message_encoding enc o))) st2); [done|].
      by rewrite (bind_ok _ _ _ _ _ E).
    + intros. by apply bind_panic, bind_panic, bind_panic.
    + intros. by apply bind_err, bind_err, bind_err.
  - unfold refines, builder_add_encode. rewrite bind_assoc.
    eapply refines_bind; [by apply (next_schema_spec checks st e s)|].
    intros id st1 [id' s1] (<- & R1 & _).
    exists (push_schema None e), st1. split; [reflexivity|]. by rewrite (proj2 (push_nothing e)).
  - unfold refines, builder_add_encode_with_id. pose proof (refines_schema id sc enc e s st R) as H.
    unfold refines in H. rewrite bind_assoc. done.
  - exists (push_schema None e), st. split; [reflexivity|]. by rewrite (proj2 (push_nothing e)).
  - apply refines_ret. unfold map_schemas.
    apply (related_handles st e s (alter (LinkedSchema_message_encoding enc) h (e_schemas e))); [done|].
    apply Forall2_alter; [apply R|]. by intros x y _ _ [H1 H2].
  - apply refines_ret. apply (related_handles st e s (e_schemas e ++ option_list (e_schemas e !! h))); [done|].
    apply Forall2_app; [apply R|].
    destruct (proj1 (Forall2_lookup _ _ _) (r_schema_handles _ _ _ R) h);
      [by apply List.Forall2_cons; [|apply List.Forall2_nil]|apply List.Forall2_nil].
  - destruct (proj1 (Forall2_lookup _ _ _) (r_schema_handles _ _ _ R) h) as [sh [i enc] [H1 H2]|];
      [cbn in H1, H2; subst i enc|by apply refines_ret].
    apply (refines_adds_free checks (λ id, LinkedSchema_add_channel_with_id sh id topic)); [|done].
    intros. apply schema_adds.
  - destruct (proj1 (Forall2_lookup _ _ _) (r_schema_handles _ _ _ R) h) as [sh [i enc] [H1 H2]|];
      [cbn in H1, H2; subst i enc|by apply refines_ret].
    apply refines_adds; [apply schema_adds|done].
  - by apply (refines_update (λ c, {| cc_schema_id := cc_schema_id c;
      cc_message_encoding := cc_message_encoding c; cc_message_count := Some n |})).
  - by apply (refines_update (λ c, {| cc_schema_id := cc_schema_id c;
      cc_message_encoding := enc; cc_message_count := cc_message_count c |})).
  - destruct (proj1 (Forall2_lookup _ _ _) (r_schema_handles _ _ _ R) k) as [sh [i enc] [H1 _]|].
    + cbn in H1. subst i. by apply (refines_update (λ c, {| cc_schema_id := Some (ls_id sh);
        cc_message_encoding := cc_message_encoding c; cc_message_count := cc_message_count c |})).
    + destruct (e_channels e !! h); by apply refines_ret.
  - apply refines_ret. by apply (related_builders (λ l, l ++ option_list (l !! b))).
  - apply refines_ret. by apply (related_builders (alter (builder_time_range r) b)).
  - apply refines_ret. by apply (related_builders (alter (builder_start_time t) b)).
  - apply refines_ret. by apply (related_builders (alter (builder_end_time t) b)).
  - apply refines_ret. by apply (related_builders (alter (builder_add_problem p) b)).
  - rewrite (r_builders _ _ _ R). destruct (s_builders s !! b) as [bu|]; [|by apply refines_ret].
    unfold refines, on. rewrite (bind_ok _ _ _ _ _ (build_spec bu st e s R)). eexists _, _.
    split; [reflexivity|]. destruct R. split; try done. cbn. congruence.
Qed.

Lemma run_refines checks ops e st s : related st e s → refines (run checks ops e) (spec_run checks ops s) st.
Proof.
  revert e st s. induction ops as [|op ops IH]; intros e st s R; [by apply refines_ret|].
  cbn [run spec_run]. eapply refines_bind; [by apply run_op_refines|]. intros e' st' s' R'. by apply IH.
Qed.

(** C37: every program of builder calls behaves as the specification says, in which
    a channel is an entry of a map and a handle is its id: no borrow of a cell
    is refused, no [expect] fails, and what is built is what the specification
    builds; a program panics, or does not return, exactly where an id cannot
    be assigned or the id of a schema is zero. *)
Theorem builder_refines checks ops :
  match spec_run checks ops spec_initial with
  | Ok s => ∃ e st, run checks ops initial_env initial_store = Ok (e, st) ∧ related st e s
  | Err x => run checks ops initial_env initial_store = Err x
  | Panic => run checks ops initial_env initial_store = Panic
  end.
Proof.
  exact (run_refines checks ops _ _ _ related_initial).
Qed.

(** ** Consistency *)

Definition op_ok (op : Op) : Prop :=
  match op with
  | OAddChannelWithId id _ | OAddSchemaWithId id _ | OAddEncodeWithId _ _ id
  | OSchemaAddChannelWithId _ id _ => fits 16 id
  | _ => True
  end.

Record wf_spec (s : Spec) : Prop := {
  w_next_channel : fits 16 (s_next_channel s);
  w_next_schema : fits 16 (s_next_schema s);
  w_channels id c : s_channels s !! id = Some c → fits 16 id ∧
    match x_schema c with Some k => is_Some (s_schemas s !! k) | None => True end;
  w_schemas id x : s_schemas s !! id = Some x → fits 16 id ∧ 0 < id;
  w_schema_handles h : h ∈ s_schema_handles s → is_Some (s_schemas s !! h.1);
  w_channel_handles id : id ∈ s_channel_handles s ↔ is_Some (s_channels s !! id)
}.

Lemma wf_initial : wf_spec spec_initial.
Proof.
  split; cbn; try done.
  - intros h Hin. by apply elem_of_nil in Hin.
  - intros id. rewrite lookup_empty. split; [intros Hin; by apply elem_of_nil in Hin|by intros []].
Qed.
Lemma wf_add_channel id topic schema s : wf_spec s → fits 16 id →
  match schema with Some h => h ∈ s_schema_handles s | None => True end →
  wf_spec (spec_add_channel id (spec_channel_of topic schema) s).
Proof.
  intros W Hid Hs. unfold spec_add_channel. destruct (s_channels s !! id) as [c|] eqn:Hc; [done|].
  destruct W as [W1 W2 W3 W4 W5 W6]. split; cbn; try done.
  - intros i d [[<- <-]|[_ Hd]]%lookup_insert_Some; [|by eapply W3]. split; [done|]. cbn.
    destruct schema as [h|]; [|done]. cbn. by apply W5.
  - intros i. rewrite elem_of_app, list_elem_of_singleton, W6, lookup_insert_is_Some'. naive_solver.
Qed.
Lemma wf_add_schema id x enc s : wf_spec s → fits 16 id → 0 < id → wf_spec (spec_add_schema id x enc s).
Proof.
  intros W Hid Hpos. unfold spec_add_schema. destruct (s_schemas s !! id) as [y|] eqn:Hy; [done|].
  destruct W as [W1 W2 W3 W4 W5 W6]. split; cbn; try done.
  - intros i c Hc. destruct (W3 i c Hc) as [? Hk]. split; [done|]. destruct (x_schema c); [|done].
    apply lookup_insert_is_Some'. by right.
  - intros i y' [[<- <-]|[_ Hi]]%lookup_insert_Some; [done|by eapply W4].
  - intros h [Hin|Hin%list_elem_of_singleton]%elem_of_app; apply lookup_insert_is_Some';
      [right; by apply W5|left; by subst].
Qed.
Lemma wf_update g h s : wf_spec s →
  (∀ c, x_schema (g c) = x_schema c ∨ ∃ k, x_schema (g c) = Some k ∧ is_Some (s_schemas s !! k)) →
  wf_spec (spec_update g h s).
Proof.
  intros W Hg. unfold spec_update. destruct (s_channel_handles s !! h) as [id|]; [|done].
  destruct W as [W1 W2 W3 W4 W5 W6]. split; cbn; try done.
  - intros i c. destruct (decide (i = id)) as [->|Hne].
    + rewrite lookup_alter_eq. intros (d & Hd & ->)%fmap_Some. destruct (W3 _ _ Hd) as [? Hk].
      split; [done|]. destruct (Hg d) as [->|(k & -> & ?)]; done.
    + rewrite lookup_alter_ne by done. apply W3.
  - intros i. rewrite W6. destruct (decide (i = id)) as [->|Hne].
    + by rewrite lookup_alter_eq, fmap_is_Some.
    + by rewrite lookup_alter_ne by done.
Qed.
Lemma wf_next_channel checks s id s' : wf_spec s → spec_next_channel checks s = Ok (id, s') →
  fits 16 id ∧ wf_spec s' ∧ s_schema_handles s' = s_schema_handles s.
Proof.
  intros W. unfold spec_next_channel. destruct (free_id _ _ _) as [[i n]|x|] eqn:E; [|done|done].
  cbn. intros [= <- <-]. destruct (free_id_free _ _ _ _ _ (w_next_channel _ W) E) as (_ & Hi & Hn).
  split; [done|]. split; [|done]. destruct W. by split.
Qed.
Lemma wf_next_schema checks s id s' : wf_spec s → spec_next_schema checks s = Ok (id, s') →
  fits 16 id ∧ wf_spec s'.
Proof.
  intros W. unfold spec_next_schema. destruct (free_id _ _ _) as [[i n]|x|] eqn:E; [|done|done].
  cbn. intros [= <- <-]. destruct (free_id_free _ _ _ _ _ (w_next_schema _ W) E) as (_ & Hi & Hn).
  split; [done|]. destruct W. by split.
Qed.
Lemma wf_schema_at id x enc s s' : wf_spec s → fits 16 id → spec_schema_at id x enc s = Ok s' → wf_spec s'.
Proof.
  intros W Hid. unfold spec_schema_at. destruct (0 <? id) eqn:Hp; [|done]. intros [= <-].
  apply wf_add_schema; [done..|]. by apply Z.ltb_lt.
Qed.
Lemma wf_builders l s : wf_spec s → wf_spec (set_s_builders l s).
Proof. intros W. destruct W. by split. Qed.
Lemma wf_handles l s : wf_spec s → (∀ h, h ∈ l → is_Some (s_schemas s !! h.1)) →
  wf_spec (set_s_schema_handles l s).
Proof. intros W Hl. destruct W. by split. Qed.

Lemma wf_op checks op s s' : wf_spec s → op_ok op → spec_op checks op s = Ok s' → wf_spec s'.
Proof.
  intros W Hok.
  destruct op as [topic|id topic|sc|id sc|[sc|] enc|[sc|] enc id|h enc|h|h topic|h id topic|h n|h enc|h k|b|b r|b t|b t|b p|b];
    cbn [spec_op op_ok] in *; intros E.
  - apply bind_Ok in E as ([id s1] & E1 & [= <-]).
    destruct (wf_next_channel _ _ _ _ W E1) as (? & ? & _). by apply wf_add_channel.
  - injection E as <-. by apply wf_add_channel.
  - apply bind_Ok in E as ([id s1] & E1 & E2). destruct (wf_next_schema _ _ _ _ W E1). by eapply wf_schema_at.
  - by eapply wf_schema_at.
  - apply bind_Ok in E as ([id s1] & E1 & E2). destruct (wf_next_schema _ _ _ _ W E1). by eapply wf_schema_at.
  - apply bind_Ok in E as ([id s1] & E1 & [= <-]). by destruct (wf_next_schema _ _ _ _ W E1).
  - by eapply wf_schema_at.
  - by injection E as <-.
  - injection E as <-. apply wf_handles; [done|]. intros x Hx.
    apply list_elem_of_lookup in Hx as [i Hi]. rewrite list_lookup_alter in Hi.
    destruct (decide (h = i)); [apply fmap_Some in Hi as (y & Hy & ->); cbn|];
      eapply w_schema_handles; try done; by eapply list_elem_of_lookup_2.
  - injection E as <-. apply wf_handles; [done|]. intros x [Hx|Hx]%elem_of_app; [by eapply w_schema_handles|].
    destruct (s_schema_handles s !! h) eqn:Hh; cbn in Hx; [|by apply elem_of_nil in Hx].
    apply list_elem_of_singleton in Hx as ->. eapply w_schema_handles; [done|]. by eapply list_elem_of_lookup_2.
  - destruct (s_schema_handles s !! h) as [x|] eqn:Hh; [|by injection E as <-].
    apply bind_Ok in E as ([id s1] & E1 & [= <-]). destruct (wf_next_channel _ _ _ _ W E1) as (? & ? & Eh).
    apply wf_add_channel; [done..|]. rewrite Eh. by eapply list_elem_of_lookup_2.
  - destruct (s_schema_handles s !! h) as [x|] eqn:Hh; injection E as <-; [|done].
    apply wf_add_channel; [done..|]. by eapply list_elem_of_lookup_2.
  - injection E as <-. apply wf_update; [done|]. by left.
  - injection E as <-. apply wf_update; [done|]. by left.
  - destruct (s_schema_handles s !! k) as [[id enc]|] eqn:Hk; injection E as <-; [|done].
    apply wf_update; [done|]. right. exists id. split; [done|].
    apply (w_schema_handles _ W (id, enc)). by eapply list_elem_of_lookup_2.
  - injection E as <-. by apply wf_builders.
  - injection E as <-. by apply wf_builders.
  - injection E as <-. by apply wf_builders.
  - injection E as <-. by apply wf_builders.
  - injection E as <-. by apply wf_builders.
  - destruct (s_builders s !! b); injection E as <-; [|done]. destruct W. by split.
Qed.
Lemma wf_run checks ops s s' : wf_spec s → Forall op_ok ops → spec_run checks ops s = Ok s' → wf_spec s'.
Proof.
  intros W Hops. revert s W. induction Hops as [|op ops Hop _ IH]; intros s W; [by intros [= <-]|].
  cbn [spec_run]. intros (s1 & E & E')%bind_Ok. eapply IH; [|done]. by eapply wf_op.
Qed.

(** What a host can rely on. *)
Record consistent (i : Initialization) : Prop := {
  channels_ordered : StronglySorted Z.lt (ch_id <$> in_channels i);
  schemas_ordered : StronglySorted Z.lt (sc_id <$> in_schemas i);
  channels_valid : Forall (λ c, fits 16 (ch_id c) ∧
    match ch_schema_id c with Some k => k ∈ sc_id <$> in_schemas i | None => True end) (in_channels i);
  schemas_valid : Forall (λ s, fits 16 (sc_id s) ∧ 0 < sc_id s) (in_schemas i)
}.

Lemma elem_of_loader_keys {A} (m : gmap Z A) k : k ∈ keys m ↔ is_Some (m !! k).
Proof. unfold keys. by rewrite merge_sort_Permutation, elem_of_elements, elem_of_dom. Qed.
Lemma keys_sorted {A} (m : gmap Z A) : StronglySorted Z.lt (keys m).
Proof.
  assert (StronglySorted Z.le (keys m)) as Hs by (apply StronglySorted_merge_sort; apply _).
  assert (NoDup (keys m)) as Hnd.
  { unfold keys. rewrite merge_sort_Permutation. apply NoDup_elements. }
  revert Hnd. induction Hs as [|k ks Hs IH Hk]; intros Hnd; [constructor|].
  apply NoDup_cons in Hnd as [Hn Hnd]. constructor; [by apply IH|].
  rewrite Forall_forall in Hk |- *. intros j Hj. specialize (Hk j Hj).
  assert (k ≠ j) by (by intros ->). lia.
Qed.
Lemma listed_ids {A B} (f : Z → A → B) (id : B → Z) (m : gmap Z A) : (∀ k x, id (f k x) = k) →
  id <$> listed f m = keys m.
Proof.
  intros Hf. unfold listed. assert (∀ k, k ∈ keys m → is_Some (m !! k)) as Hk by (intros; by apply elem_of_loader_keys).
  induction (keys m) as [|k ks IH]; [done|]. cbn. destruct (Hk k ltac:(left)) as [x ->]. cbn.
  rewrite Hf. f_equal. apply IH. intros. apply Hk. by right.
Qed.
Lemma elem_of_listed {A B} (f : Z → A → B) (m : gmap Z A) y : y ∈ listed f m → ∃ k x, m !! k = Some x ∧ y = f k x.
Proof.
  intros (k & _ & Hk)%list_elem_of_omap. apply fmap_Some in Hk as (x & Hx & ->). eauto.
Qed.

(** Whatever a program has done with the builder, its clones and its handles,
    [build] succeeds, and what it builds is consistent: ids are unique, 16 bits
    wide and in ascending order, no schema has the id 0, the schema that a
    channel refers to is there, and the channels are exactly those that the
    program was given handles of. *)
Theorem built_consistent checks ops e st b : Forall op_ok ops →
  run checks ops initial_env initial_store = Ok (e, st) →
  ∃ i, build b st = Ok (i, st) ∧ consistent i ∧
    ∀ id, id ∈ ch_id <$> in_channels i ↔ id ∈ lc_id <$> e_channels e.
Proof.
  intros Hops Hrun. pose proof (run_refines checks ops _ _ _ related_initial) as H. unfold refines in H.
  destruct (spec_run checks ops spec_initial) as [s|x|] eqn:Hs; [|congruence..].
  destruct H as (e' & st' & E & R). rewrite E in Hrun. injection Hrun as -> ->.
  pose proof (wf_run checks ops _ s wf_initial Hops Hs) as W.
  exists (spec_build b s). split; [by apply (build_spec b st e)|].
  assert (ch_id <$> in_channels (spec_build b s) = keys (s_channels s)) as Ec by by apply listed_ids.
  assert (sc_id <$> in_schemas (spec_build b s) = keys (s_schemas s)) as Es by by apply listed_ids.
  split.
  - split.
    + rewrite Ec. apply keys_sorted.
    + rewrite Es. apply keys_sorted.
    + rewrite Es. apply Forall_forall. intros c (k & x & Hx & ->)%elem_of_listed. cbn.
      destruct (w_channels _ W _ _ Hx) as [? Hl]. split; [done|]. destruct (x_schema x); [|done].
      by apply elem_of_loader_keys.
    + apply Forall_forall. intros y (k & x & Hx & ->)%elem_of_listed. by apply (w_schemas _ W k x).
  - intros id. rewrite Ec, elem_of_loader_keys, <- (w_channel_handles _ W).
    assert (lc_id <$> e_channels e = s_channel_handles s) as ->; [|done].
    eapply list_eq_Forall2, Forall2_fmap_l, Forall2_impl; [apply (r_channel_handles _ _ _ R)|].
    cbn. intros c i Hc. pose proof (r_channels _ _ _ R i) as Hi. rewrite Hc in Hi.
    by inversion Hi as [? ? (? & _)|].
Qed.

(** ** Examples and witnesses *)

Lemma free_id_spec_witness :
  free_id true (λ k, k <? 6) 1 = Ok (6, 7) ∧ free_id true (λ _, false) 65535 = Panic.
Proof.
  assert (fits 16 1) as H1 by (vm_compute; split; [discriminate|reflexivity]).
  assert (fits 16 65535) as H2 by (vm_compute; split; [discriminate|reflexivity]).
  destruct (free_id_spec (λ k, k <? 6) 1 H1) as [Hok _].
  destruct (free_id_spec (λ _, false) 65535 H2) as (_ & Hp & _). split.
  - apply Hok. split; [lia|]. split; [done|]. split; [|done]. intros. apply Z.ltb_lt. lia.
  - apply Hp. intros. lia.
Defined.

(** Schemas, explicit and assigned ids, a channel that is set through its handle
    after it was added. *)
Definition sample : list Op :=
  [OAddSchemaWithId 1 {| sch_name := "a"; sch_encoding := "jsonschema"; sch_data := [] |};
   OAddEncode (Some {| sch_name := "b"; sch_encoding := "protobuf"; sch_data := [] |}) "protobuf";
   OSchemaEncoding 0 "json"; OSchemaAddChannel 0 "/x"; OSchemaAddChannel 1 "/y"; OAddChannel "/z";
   OAddChannelWithId 2 "/taken"; OChannelSchema 2 1; OChannelCount 0 10; OCloneBuilder 0;
   OStartTime 1 50]%string.
Lemma sample_ok : Forall op_ok sample.
Proof. by repeat (apply Forall_cons; split; [vm_compute; try (split; [discriminate|reflexivity])|]). Qed.
Lemma sample_runs : ∃ e st, run true sample initial_env initial_store = Ok (e, st) ∧
  (lc_id <$> e_channels e) = [1; 2; 3].
Proof. eexists _, _. split; vm_compute; reflexivity. Qed.
Lemma built_consistent_witness :
  ∃ e st i, run true sample initial_env initial_store = Ok (e, st) ∧
    build InitializationBuilder_default st = Ok (i, st) ∧ consistent i ∧ 2 ∈ ch_id <$> in_channels i.
Proof.
  destruct sample_runs as (e & st & Hrun & Hids).
  destruct (built_consistent true sample e st InitializationBuilder_default sample_ok Hrun)
    as (i & Hb & Hc & Hiff).
  exists e, st, i. split; [exact Hrun|]. split; [exact Hb|]. split; [exact Hc|].
  apply Hiff. rewrite Hids. right. left.
Defined.

(** Seeking to before the start does not fail: the host is asked for a position
    near 2^64. *)
Lemma seek_before_start `{HostReader} checks self : reader_position self = 0 →
  seek checks (SeekCurrent (-1)) self =
    let self := reader_seek (2 ^ 64 - 1) self in Ok (reader_position self, self).
Proof. intros E. unfold seek. rewrite E. by destruct checks. Qed.
