(* ===== verification/Parameter.v ===== *)
(** * Parameters: reading and writing them as JSON values

    `protocol/common/parameter.rs`: the constructors of parameters, the byte-array
    decoder, and (de)serialisation between parameters and [serde_json::Value]s.
    The text of JSON is serde_json's; its numbers are a parameter ([JsonNumber]).

    A parameter that has been read is well typed ([param_ok]) and well-typed
    parameters survive being written and read. *)

From Stdlib Require Import SpecFloat.
From S2P Require Import Prelude Bytes Messages Advertise.
Local Open Scope Z_scope.

(** ** serde_json *)

(** [serde_json::Number]: made of an [i64] or of a finite [f64] (by its bits). *)
Class JsonNumber := {
  Number : Type;
  of_i64 : Z → Number;
  of_f64 : Z → option Number;
  as_i64 : Number → option Z;
  is_f64 : Number → bool;
  as_f64 : Number → option Z
}.
Definition is_i64 `{JsonNumber} (n : Number) : bool := match as_i64 n with Some _ => true | None => false end.

Class JsonNumberLaws `{JsonNumber} : Prop := {
  as_i64_of_i64 : ∀ z, fits_signed 64 z → as_i64 (of_i64 z) = Some z;
  is_f64_not_i64 : ∀ n, is_f64 n = true → as_i64 n = None;
  is_f64_of_i64 : ∀ z, is_f64 (of_i64 z) = false;
  of_f64_spec : ∀ x n, of_f64 x = Some n → is_f64 n = true ∧ as_f64 n = Some x;
  as_i64_fits : ∀ n z, as_i64 n = Some z → fits_signed 64 z;
  (** A number read as an [f64] is finite. *)
  as_f64_finite : ∀ n x, as_f64 n = Some x → is_Some (of_f64 x)
}.

Section parameter.
Context `{JsonNumber} `{Base64}.

(** [serde_json::Value]; an object lists its members, each key once. *)
Inductive Value :=
| JNull
| JBool (b : bool)
| JNumber (n : Number)
| JString (s : string)
| JArray (l : list Value)
| JObject (m : list (string * Value)).

(** ** Constructors *)

Definition Parameter_empty (name : string) : Param :=
  {| p_name := name; p_type := None; p_value := None |}.
Definition Parameter_float64 (name : string) (value : Z) : Param :=
  {| p_name := name; p_type := Some Float64; p_value := Some (PFloat64 value) |}.
Definition Parameter_integer (name : string) (value : Z) : Param :=
  {| p_name := name; p_type := None; p_value := Some (PInteger value) |}.
Definition Parameter_integer_array (name : string) (values : list Z) : Param :=
  {| p_name := name; p_type := None; p_value := Some (PArray (PInteger <$> values)) |}.
Definition Parameter_float64_array (name : string) (values : list Z) : Param :=
  {| p_name := name; p_type := Some Float64Array; p_value := Some (PArray (PFloat64 <$> values)) |}.
Definition Parameter_string (name value : string) : Param :=
  {| p_name := name; p_type := None; p_value := Some (PString value) |}.
Definition Parameter_byte_array (name : string) (data : list byte) : Param :=
  {| p_name := name; p_type := Some ByteArray; p_value := Some (PString (base64_encode data)) |}.
Definition Parameter_bool (name : string) (value : bool) : Param :=
  {| p_name := name; p_type := None; p_value := Some (PBool value) |}.
Definition Parameter_dict (name : string) (value : list (string * ParameterValue)) : Param :=
  {| p_name := name; p_type := None; p_value := Some (PDict value) |}.

(** ** Byte arrays *)

Inductive DecodeError := WrongType | Base64Error (e : string).
Definition decode_byte_array (p : Param) : result DecodeError (option (list byte)) :=
  match p_type p, p_value p with
  | Some ByteArray, Some (PString s) =>
    match base64_decode s with inr data => Ok (Some data) | inl e => Err (Base64Error e) end
  | _, None => Ok None
  | _, _ => Err WrongType
  end.

(** ** Serialisation *)

(** The derived [Serialize]; serde_json writes a float that is not finite as
    [null]. *)
Fixpoint to_value (v : ParameterValue) : Value :=
  match v with
  | PInteger i => JNumber (of_i64 i)
  | PFloat64 x => match of_f64 x with Some n => JNumber n | None => JNull end
  | PBool b => JBool b
  | PString s => JString s
  | PArray l => JArray (map to_value l)
  | PDict d => JObject (map (λ '(k, v), (k, to_value v)) d)
  end.
Definition type_to_value (t : ParameterType) : Value :=
  JString (match t with
    | ByteArray => "byte_array" | Float64 => "float64" | Float64Array => "float64_array" end).
Definition Parameter_serialize (p : Param) : list (string * Value) :=
  ("name"%string, JString (p_name p)) ::
  match p_type p with Some t => [("type"%string, type_to_value t)] | None => [] end ++
  match p_value p with Some v => [("value"%string, to_value v)] | None => [] end.

(** ** Deserialisation *)

(** The derived untagged [Deserialize]: the first variant that fits. *)
Fixpoint from_value (v : Value) : option ParameterValue :=
  match v with
  | JNull => None
  | JBool b => Some (PBool b)
  | JNumber n =>
    match as_i64 n with
    | Some i => Some (PInteger i)
    | None => match as_f64 n with Some x => Some (PFloat64 x) | None => None end
    end
  | JString s => Some (PString s)
  | JArray l => l ← mapM from_value l; Some (PArray l)
  | JObject m => m ← mapM (λ '(k, v), v ← from_value v; Some (k, v)) m; Some (PDict m)
  end.
Definition type_of_name (s : string) : option ParameterType :=
  if decide (s = "byte_array"%string) then Some ByteArray
  else if decide (s = "float64"%string) then Some Float64
  else if decide (s = "float64_array"%string) then Some Float64Array else None.
(** serde's derived enums: a variant without data is its name, or an object with this
    name for its only key and null for its value. *)
Definition type_from_value (v : Value) : option ParameterType :=
  match v with
  | JString s => type_of_name s
  | JObject [(s, JNull)] => type_of_name s
  | _ => None
  end.

Inductive DeError :=
| UnknownField (key : string)
| MissingField
| InvalidField (key : string)
| Custom (msg : string).

(** serde_json's own message. *)
Definition from_value_res (v : Value) : result DeError ParameterValue :=
  ok_or (from_value v) (Custom "data did not match any variant of untagged enum ParameterValue").

Definition convert_to_float64_value (v : Value) : result DeError ParameterValue :=
  match v with
  | JNumber n =>
    match as_f64 n with Some f => Ok (PFloat64 f) | None => Err (Custom "Invalid number for float64") end
  | _ => Err (Custom "Non-numeric value had type set to float64")
  end.

(** The loops that push floats, with their two messages. *)
Fixpoint push_floats (invalid other : result DeError (list ParameterValue)) (arr : list Value) :
    result DeError (list ParameterValue) :=
  match arr with
  | [] => Ok []
  | JNumber n :: arr =>
    match as_f64 n with
    | Some f => fs ← push_floats invalid other arr; Ok (PFloat64 f :: fs)
    | None => invalid
    end
  | _ :: _ => other
  end.
Definition convert_to_float64_array_value (v : Value) : result DeError ParameterValue :=
  match v with
  | JArray arr =>
    fs ← push_floats (Err (Custom "Invalid number in float64 array"))
           (Err (Custom "Non-numeric value in float64 array")) arr;
    Ok (PArray fs)
  | _ => Err (Custom "Value with type set to float64_array was not an array of numbers")
  end.
Definition convert_to_byte_array_value (v : Value) : result DeError ParameterValue :=
  match v with
  | JString s => match base64_decode s with inl e => Err (Custom e) | inr _ => Ok (PString s) end
  | _ => Err (Custom "Value with type set to byte_array was not a string")
  end.

Definition item_is_i64 (v : Value) : bool := match v with JNumber n => is_i64 n | _ => false end.
Definition item_is_f64 (v : Value) : bool := match v with JNumber n => is_f64 n | _ => false end.
Definition convert_value_with_homogenization (v : Value) : result DeError ParameterValue :=
  match v with
  | JArray arr =>
    let has_int := existsb item_is_i64 arr in
    let has_float := existsb (λ v, negb (item_is_i64 v) && item_is_f64 v) arr in
    let has_other := existsb (λ v, negb (item_is_i64 v) && negb (item_is_f64 v)) arr in
    if (has_float || has_int) && has_other then
      Err (Custom "Array contains a mix of numeric and non-numeric-values")
    else if has_int && has_float then
      fs ← push_floats (Err (Custom "Invalid number in mixed array")) Panic arr; Ok (PArray fs)
    else from_value_res (JArray arr)
  | _ => from_value_res v
  end.

(** The fields collected by [visit_map]: a repeated field replaces the earlier. *)
Fixpoint visit_fields (fields : list (string * Value))
    (acc : option string * option ParameterType * option Value) :
    result DeError (option string * option ParameterType * option Value) :=
  match fields with
  | [] => Ok acc
  | (key, v) :: fields =>
    let '(name, ty, value) := acc in
    acc ←
      (if decide (key = "name"%string) then
         match v with JString s => Ok (Some s, ty, value) | _ => Err (InvalidField key) end
       else if decide (key = "type"%string) then
         match type_from_value v with
         | Some t => Ok (name, Some t, value)
         | None => Err (InvalidField key)
         end
       else if decide (key = "value"%string) then Ok (name, ty, Some v)
       else Err (UnknownField key));
    visit_fields fields acc
  end.

Definition convert_value (ty : option ParameterType) (value : option Value) :
    result DeError (option ParameterValue) :=
  match ty, value with
  | Some Float64, Some v => v ← convert_to_float64_value v; Ok (Some v)
  | Some Float64Array, Some v => v ← convert_to_float64_array_value v; Ok (Some v)
  | Some ByteArray, Some v => v ← convert_to_byte_array_value v; Ok (Some v)
  | None, Some v => v ← convert_value_with_homogenization v; Ok (Some v)
  | _, None => Ok None
  end.
Definition Parameter_deserialize (fields : list (string * Value)) : result DeError Param :=
  '(name, ty, value) ← visit_fields fields (None, None, None);
  name ← ok_or name MissingField;
  value ← convert_value ty value;
  Ok {| p_name := name; p_type := ty; p_value := value |}.

(** ** Well-typed parameters *)

Definition finite (x : Z) : Prop := is_Some (of_f64 x).

(** A value that JSON can carry: integers of 64 bits and finite floats. *)
Fixpoint value_ok (v : ParameterValue) : Prop :=
  match v with
  | PInteger i => fits_signed 64 i
  | PFloat64 x => finite x
  | PBool _ | PString _ => True
  | PArray l => foldr (λ v P, value_ok v ∧ P) True l
  | PDict d => foldr (λ '(_, v) P, value_ok v ∧ P) True d
  end.

Definition is_integer (v : ParameterValue) : Prop := match v with PInteger _ => True | _ => False end.
Definition is_float (v : ParameterValue) : Prop := match v with PFloat64 _ => True | _ => False end.
Definition homogeneous (v : ParameterValue) : Prop :=
  match v with
  | PArray l => Forall is_integer l ∨ Forall is_float l ∨ Forall (λ v, ¬ is_integer v ∧ ¬ is_float v) l
  | _ => True
  end.

Definition param_ok (p : Param) : Prop :=
  match p_type p, p_value p with
  | _, None => True
  | Some Float64, Some v => ∃ x, v = PFloat64 x ∧ finite x
  | Some Float64Array, Some v => ∃ xs, v = PArray (PFloat64 <$> xs) ∧ Forall finite xs
  | Some ByteArray, Some v => ∃ s data, v = PString s ∧ base64_decode s = inr data
  | None, Some v => value_ok v ∧ homogeneous v
  end.

(** Numbers that are neither 64-bit signed integers nor floats (the upper half of
    [u64]) do not occur among the items of an array. *)
Definition plain_number (v : Value) : Prop :=
  match v with JNumber n => is_i64 n = true ∨ is_f64 n = true | _ => True end.
Definition plain (v : Value) : Prop := match v with JArray l => Forall plain_number l | _ => True end.

(** ** Proofs *)

Context `{!JsonNumberLaws} `{!Base64Laws}.

Lemma ParameterValue_nested_ind (P : ParameterValue → Prop) :
  (∀ i, P (PInteger i)) → (∀ x, P (PFloat64 x)) → (∀ b, P (PBool b)) → (∀ s, P (PString s)) →
  (∀ l, Forall P l → P (PArray l)) → (∀ d, Forall (λ kv, P kv.2) d → P (PDict d)) → ∀ v, P v.
Proof.
  intros Hi Hx Hb Hs Hl Hd. fix IH 1. intros [i|x|b|s|l|d]; [apply Hi|apply Hx|apply Hb|apply Hs| |].
  - apply Hl. induction l as [|v l IHl]; constructor; [apply IH|exact IHl].
  - apply Hd. induction d as [|[k v] d IHd]; constructor; [apply IH|exact IHd].
Qed.

Lemma Value_nested_ind (P : Value → Prop) :
  P JNull → (∀ b, P (JBool b)) → (∀ n, P (JNumber n)) → (∀ s, P (JString s)) →
  (∀ l, Forall P l → P (JArray l)) → (∀ m, Forall (λ kv, P kv.2) m → P (JObject m)) → ∀ v, P v.
Proof.
  intros H0' Hb Hn Hs Hl Hm. fix IH 1.
  intros [|b|n|s|l|m]; [apply H0'|apply Hb|apply Hn|apply Hs| |].
  - apply Hl. induction l as [|v l IHl]; constructor; [apply IH|exact IHl].
  - apply Hm. induction m as [|[k v] m IHm]; constructor; [apply IH|exact IHm].
Qed.

Lemma value_ok_array l : value_ok (PArray l) ↔ Forall value_ok l.
Proof. induction l as [|v l IH]; [by cbn|]. rewrite Forall_cons. cbn in *. tauto. Qed.
Lemma value_ok_dict d : value_ok (PDict d) ↔ Forall (λ kv, value_ok kv.2) d.
Proof. induction d as [|[k v] d IH]; [by cbn|]. rewrite Forall_cons. cbn in *. tauto. Qed.

(** *** Values survive *)

Lemma from_to_value v : value_ok v → from_value (to_value v) = Some v.
Proof.
  induction v as [i|x|b|s|l IH|d IH] using ParameterValue_nested_ind; [| |done|done| |].
  - cbn. intros Hi. by rewrite as_i64_of_i64.
  - cbn. intros [n Hn]. rewrite Hn. cbn. destruct (of_f64_spec _ _ Hn) as [Hf Ha].
    by rewrite (is_f64_not_i64 _ Hf), Ha.
  - rewrite value_ok_array. intros Hl. cbn.
    assert (mapM from_value (map to_value l) = Some l) as ->; [|done].
    induction l as [|v l IHl]; [done|]. apply Forall_cons in IH as [IHv IH], Hl as [Hv Hl].
    cbn. rewrite (IHv Hv). cbn. by rewrite (IHl IH Hl).
  - rewrite value_ok_dict. intros Hd. cbn.
    assert (mapM (λ '(k, v), v ← from_value v; Some (k, v)) (map (λ '(k, v), (k, to_value v)) d)
      = Some d) as ->; [|done].
    induction d as [|[k v] d IHd]; [done|]. apply Forall_cons in IH as [IHv IH], Hd as [Hv Hd].
    cbn in *. rewrite (IHv Hv). cbn. by rewrite (IHd IH Hd).
Qed.

Lemma from_value_ok v pv : from_value v = Some pv → value_ok pv.
Proof.
  revert pv. induction v as [|b|n|s|l IH|m IH] using Value_nested_ind; intros pv; cbn;
    [done|by intros [= <-]| |by intros [= <-]| |].
  - destruct (as_i64 n) as [i|] eqn:Ei; [intros [= <-]; by eapply as_i64_fits|].
    destruct (as_f64 n) as [x|] eqn:Ex; [|done]. intros [= <-]. by eapply as_f64_finite.
  - destruct (mapM from_value l) as [pl|] eqn:E; cbn; [|done]. intros [= <-].
    apply value_ok_array. revert pl E. induction l as [|v l IHl]; intros pl; cbn; [by intros [= <-]|].
    apply Forall_cons in IH as [IHv IH]. destruct (from_value v) as [pv|]; cbn; [|done].
    destruct (mapM from_value l) as [pl'|]; cbn; [|done]. intros [= <-].
    constructor; [by apply IHv|by apply IHl].
  - destruct (mapM _ m) as [pm|] eqn:E; cbn; [|done]. intros [= <-].
    apply value_ok_dict. revert pm E. induction m as [|[k v] m IHm]; intros pm; cbn; [by intros [= <-]|].
    apply Forall_cons in IH as [IHv IH]. cbn in IHv. destruct (from_value v) as [pv|]; cbn; [|done].
    destruct (mapM _ m) as [pm'|]; cbn; [|done]. intros [= <-].
    constructor; [by apply IHv|by apply IHm].
Qed.

(** *** Items of arrays *)

Lemma item_is_i64_spec v : value_ok v → item_is_i64 (to_value v) = true ↔ is_integer v.
Proof.
  destruct v as [i|x| | | |]; cbn; try done; unfold is_i64.
  - intros Hi. by rewrite as_i64_of_i64.
  - intros [n Hn]. rewrite Hn. cbn. destruct (of_f64_spec _ _ Hn) as [Hf _]. unfold is_i64.
    by rewrite (is_f64_not_i64 _ Hf).
Qed.
Lemma item_is_f64_spec v : value_ok v → item_is_f64 (to_value v) = true ↔ is_float v.
Proof.
  destruct v as [i|x| | | |]; cbn; try done.
  - intros _. by rewrite is_f64_of_i64.
  - intros [n Hn]. rewrite Hn. cbn. by destruct (of_f64_spec _ _ Hn) as [-> _].
Qed.

Lemma existsb_map_false {A B} (f : B → bool) (g : A → B) l :
  Forall (λ x, f (g x) = false) l → existsb f (map g l) = false.
Proof. induction 1 as [|x l Hx _ IH]; [done|]. cbn. by rewrite Hx. Qed.

(** An array of one kind is read as it is. *)
Lemma homogeneous_plain_read v :
  value_ok v → homogeneous v → convert_value_with_homogenization (to_value v) = Ok v.
Proof.
  intros Hv Hh. pose proof (from_to_value v Hv) as Hf.
  assert (from_value_res (to_value v) = Ok v) as Hr by (unfold from_value_res; by rewrite Hf).
  destruct v as [i|x|b|s|l|d]; try exact Hr.
  { cbn. cbn in Hr. by destruct (of_f64 x). }
  apply value_ok_array in Hv. cbn [to_value convert_value_with_homogenization] in *.
  assert (∀ (Q : ParameterValue → Prop), Forall Q l → Forall (λ v, value_ok v ∧ Q v) l) as Hboth
    by (intros Q HQ; by apply Forall_and).
  assert (∀ (P : bool) (Q : Prop), (P = true ↔ Q) → ¬ Q → P = false) as Hno
    by (intros [] Q HQ HnQ; [destruct HnQ; by apply HQ|done]).
  destruct Hh as [Hl%Hboth|[Hl%Hboth|Hl%Hboth]].
  - rewrite (existsb_map_false (λ v, negb (item_is_i64 v) && item_is_f64 v)).
    2: { eapply Forall_impl; [exact Hl|]. intros v [Hv' Hi]. cbn.
         by rewrite (proj2 (item_is_i64_spec v Hv') Hi). }
    rewrite (existsb_map_false (λ v, negb (item_is_i64 v) && negb (item_is_f64 v))).
    2: { eapply Forall_impl; [exact Hl|]. intros v [Hv' Hi]. cbn.
         by rewrite (proj2 (item_is_i64_spec v Hv') Hi). }
    by rewrite !andb_false_r.
  - rewrite (existsb_map_false item_is_i64).
    2: { eapply Forall_impl; [exact Hl|]. intros v [Hv' Hi]. cbn.
         eapply Hno; [by apply item_is_i64_spec|]. intros ?; by destruct v. }
    rewrite (existsb_map_false (λ v, negb (item_is_i64 v) && negb (item_is_f64 v))).
    2: { eapply Forall_impl; [exact Hl|]. intros v [Hv' Hi]. cbn.
         rewrite (proj2 (item_is_f64_spec v Hv') Hi). apply andb_false_r. }
    by rewrite andb_false_r.
  - rewrite (existsb_map_false item_is_i64).
    2: { eapply Forall_impl; [exact Hl|]. intros v (Hv' & Hi & _). cbn.
         eapply Hno; [by apply item_is_i64_spec|done]. }
    rewrite (existsb_map_false (λ v, negb (item_is_i64 v) && item_is_f64 v)).
    2: { eapply Forall_impl; [exact Hl|]. intros v (Hv' & _ & Hi). cbn.
         rewrite (Hno _ _ (item_is_f64_spec v Hv') Hi). apply andb_false_r. }
    done.
Qed.

(** *** Reading *)

Lemma push_floats_spec invalid other arr :
  (∀ fs, push_floats invalid other arr = Ok fs →
    (∀ x, invalid ≠ Ok x) → (∀ x, other ≠ Ok x) →
    ∃ xs, fs = PFloat64 <$> xs ∧ Forall finite xs) ∧
  (push_floats invalid other arr = Panic → invalid = Panic ∨
    other = Panic ∧ existsb (λ v, negb (item_is_i64 v) && negb (item_is_f64 v)) arr = true).
Proof.
  induction arr as [|v arr [IH1 IH2]]; cbn [push_floats].
  { split; [|done]. intros fs [= <-] _ _. by exists []. }
  destruct v as [|b|n|s|l|m]; try (split; [intros fs E _ Ho; by destruct (Ho fs)|intros E; right; by split]).
  destruct (as_f64 n) as [x|] eqn:Ex.
  - split.
    + intros fs Hfs Hi Ho. destruct (push_floats invalid other arr) as [fs'| |]; cbn in Hfs; [|done..].
      injection Hfs as <-. destruct (IH1 fs' eq_refl Hi Ho) as (xs & -> & Hxs). exists (x :: xs).
      split; [done|]. constructor; [by eapply as_f64_finite|done].
    + intros Hp. destruct (push_floats invalid other arr) as [fs'| |]; cbn in Hp; [done|done|].
      destruct (IH2 eq_refl) as [?|[? E]]; [by left|right]. split; [done|].
      apply orb_true_iff. by right.
  - split; [intros fs E Hi _; by destruct (Hi fs)|intros E; by left].
Qed.

Lemma from_value_number v pv :
  from_value v = Some pv → plain_number v →
  (is_integer pv ↔ item_is_i64 v = true) ∧
  (is_float pv ↔ negb (item_is_i64 v) && item_is_f64 v = true) ∧
  (is_integer pv ∨ is_float pv ∨ negb (item_is_i64 v) && negb (item_is_f64 v) = true).
Proof.
  destruct v as [|b|n|s|l|m]; cbn; [done|intros [= <-] _; cbn; naive_solver| |intros [= <-] _; cbn; naive_solver| |].
  - unfold is_i64. destruct (as_i64 n) as [i|] eqn:Ei; [intros [= <-] _; cbn; naive_solver|].
    destruct (as_f64 n) as [x|] eqn:Ex; [|done]. intros [= <-] [?| ->]; [done|]. cbn. naive_solver.
  - destruct (mapM _ l); cbn; [|done]. intros [= <-] _. cbn. naive_solver.
  - destruct (mapM _ m); cbn; [|done]. intros [= <-] _. cbn. naive_solver.
Qed.

Lemma existsb_false_forall {A} (f : A → bool) l : existsb f l = false → Forall (λ x, f x = false) l.
Proof.
  induction l as [|x l IH]; [constructor|]. cbn. intros [? ?]%orb_false_iff. constructor; auto.
Qed.

Lemma homogenized_spec v :
  no_panic (convert_value_with_homogenization v) ∧
  ∀ pv, convert_value_with_homogenization v = Ok pv → plain v → value_ok pv ∧ homogeneous pv.
Proof.
  assert (∀ v, no_panic (from_value_res v)) as Hnp
    by (intros v'; unfold from_value_res; by destruct (from_value v')).
  assert (∀ v pv, from_value_res v = Ok pv → from_value v = Some pv) as Hres
    by (intros v' pv; unfold from_value_res; destruct (from_value v'); by intros [= <-]).
  destruct v as [|b|n|s|arr|m]; cbn [convert_value_with_homogenization].
  5: {
    destruct ((_ || _) && _) eqn:Emix; [done|].
    destruct (existsb item_is_i64 arr && existsb _ arr) eqn:Eboth.
    - pose proof (push_floats_spec (Err (Custom "Invalid number in mixed array")) Panic arr) as [Hok Hpanic].
      destruct (push_floats _ _ arr) as [fs| |] eqn:Ep; cbn.
      + split; [done|]. intros pv [= <-] _. destruct (Hok fs eq_refl) as (xs & -> & Hxs); [done|done|].
        split; [apply value_ok_array|right; left]; apply Forall_fmap; [exact Hxs|].
        by apply Forall_true.
      + done.
      + destruct (Hpanic eq_refl) as [?|[_ Ho]]; [done|]. apply andb_prop in Eboth as [Ei _].
        by rewrite Ho, Ei, orb_true_r in Emix.
    - split; [apply Hnp|]. intros pv Hpv%Hres Hplain. split; [by eapply from_value_ok|].
      cbn in Hpv, Hplain. destruct (mapM from_value arr) as [l|] eqn:El; cbn in Hpv; [|done].
      injection Hpv as <-. cbn. apply mapM_Some in El.
      apply andb_false_iff in Emix as [Ehd|Eother].
      + right. right. apply orb_false_iff in Ehd as [Hf%existsb_false_forall Hi%existsb_false_forall].
        clear -El Hf Hi Hplain. induction El as [|v pv arr l Hv _ IH]; [constructor|].
        apply Forall_cons in Hf as [Hf1 Hf], Hi as [Hi1 Hi], Hplain as [Hp1 Hp].
        destruct (from_value_number _ _ Hv Hp1) as (E1 & E2 & _).
        constructor; [|by apply IH]. rewrite E1, E2, Hf1, Hi1. by split.
      + apply existsb_false_forall in Eother.
        apply andb_false_iff in Eboth as [Hn%existsb_false_forall|Hn%existsb_false_forall];
          [right; left|left]; clear -El Eother Hn Hplain;
          (induction El as [|v pv arr l Hv _ IH]; [constructor|]);
          apply Forall_cons in Eother as [Ho1 Ho], Hn as [Hn1 Hn], Hplain as [Hp1 Hp];
          destruct (from_value_number _ _ Hv Hp1) as (E1 & E2 & E3);
          (constructor; [|by apply IH]); cbn in *;
          (destruct E3 as [E3|[E3|E3]]; [| |congruence]); try done.
        * apply E1 in E3. congruence.
        * apply E2 in E3. congruence. }
  all: split; [apply Hnp|]; intros pv Hpv%Hres _; split; [by eapply from_value_ok|]; cbn in Hpv.
  - done.
  - by injection Hpv as <-.
  - destruct (as_i64 n); [by injection Hpv as <-|]. destruct (as_f64 n); [|done]. by injection Hpv as <-.
  - by injection Hpv as <-.
  - destruct (mapM _ m); [|done]. cbn in Hpv. by injection Hpv as <-.
Qed.

Lemma visit_fields_ok fs acc :
  no_panic (visit_fields fs acc) ∧
  ∀ name ty value, visit_fields fs acc = Ok (name, ty, value) →
    ∀ v, value = Some v → acc.2 = Some v ∨ v ∈ fs.*2.
Proof.
  revert acc. induction fs as [|[key v] fs IH]; intros [[name ty] value]; cbn [visit_fields].
  { split; [done|]. intros n t w [= <- <- <-] v ->. by left. }
  assert (∀ acc', (acc'.2 = value ∨ acc'.2 = Some v) →
    no_panic (visit_fields fs acc') ∧ ∀ n t w, visit_fields fs acc' = Ok (n, t, w) →
      ∀ v', w = Some v' → value = Some v' ∨ v' ∈ ((key, v) :: fs).*2) as Hnext.
  { intros acc' Hacc. destruct (IH acc') as [Hnp Hok]. split; [done|].
    intros n t w Hw v' ->. cbn. destruct (Hok n t _ Hw v' eq_refl) as [E|?]; [|right; by right].
    destruct Hacc as [Ea|Ea]; [left; congruence|right]. assert (v' = v) as -> by congruence. by left. }
  repeat case_decide; cbn [mbind result_bind]; try done.
  - destruct v; try done. apply Hnext. by left.
  - destruct (type_from_value v); [|done]. apply Hnext. by left.
  - apply Hnext. by right.
Qed.

(** *** The properties *)

Lemma convert_value_spec ty value :
  no_panic (convert_value ty value) ∧
  ∀ name pv, convert_value ty value = Ok pv → (∀ v, value = Some v → plain v) →
    param_ok {| p_name := name; p_type := ty; p_value := pv |}.
Proof.
  unfold convert_value, param_ok. destruct value as [v|].
  2: { split; [by destruct ty as [[]|]|]. intros name pv Hpv _. destruct ty as [[]|]; by injection Hpv as <-. }
  destruct ty as [[]|]; cbn [p_type p_value].
  - destruct v; try done. cbn. destruct (base64_decode s) as [|data] eqn:E; [done|]. split; [done|].
    intros _ pv [= <-] _. eauto.
  - destruct v; try done. cbn. destruct (as_f64 n) as [x|] eqn:E; [|done]. split; [done|].
    intros _ pv [= <-] _. exists x. split; [done|]. by eapply as_f64_finite.
  - destruct v as [| | | |arr|]; try done. cbn. set (inv := Err (Custom "Invalid number in float64 array")).
    set (oth := Err (Custom "Non-numeric value in float64 array")).
    destruct (push_floats_spec inv oth arr) as [Hok Hp].
    destruct (push_floats inv oth arr) as [fs| |]; cbn.
    + split; [done|]. intros _ pv [= <-] _. destruct (Hok fs eq_refl) as (xs & -> & ?); [done|done|eauto].
    + done.
    + by destruct (Hp eq_refl) as [?|[? _]].
  - destruct (homogenized_spec v) as [Hnp Hok].
    destruct (convert_value_with_homogenization v) as [pv0| |]; cbn; [|done|done].
    split; [done|]. intros _ pv [= <-] Hplain. apply Hok; [done|]. by apply Hplain.
Qed.

Lemma push_floats_map invalid other xs :
  Forall finite xs → push_floats invalid other (map to_value (PFloat64 <$> xs)) = Ok (PFloat64 <$> xs).
Proof.
  induction 1 as [|x xs [n Hn] _ IH]; [done|]. cbn. rewrite Hn.
  destruct (of_f64_spec _ _ Hn) as [_ ->]. change (list_fmap _ _ PFloat64 xs) with (PFloat64 <$> xs).
  by rewrite IH.
Qed.

Lemma write_read p : param_ok p → Parameter_deserialize (Parameter_serialize p) = Ok p.
Proof.
  destruct p as [name ty value]. intros Hp. unfold Parameter_deserialize.
  assert (visit_fields (Parameter_serialize {| p_name := name; p_type := ty; p_value := value |})
    (None, None, None) = Ok (Some name, ty, to_value <$> value)) as -> by by destruct ty as [[]|], value.
  cbn [mbind result_bind ok_or].
  assert (convert_value ty (to_value <$> value) = Ok value) as ->; [|done].
  unfold param_ok in Hp. cbn in Hp. destruct value as [v|]; [|by destruct ty as [[]|]].
  destruct ty as [[]|]; cbn.
  - destruct Hp as (s & data & -> & E). cbn. by rewrite E.
  - destruct Hp as (x & -> & n & Hn). cbn. rewrite Hn. cbn. by destruct (of_f64_spec _ _ Hn) as [_ ->].
  - destruct Hp as (xs & -> & Hxs). cbn [to_value convert_to_float64_array_value].
    by rewrite push_floats_map.
  - destruct Hp as [Hv Hh]. by rewrite homogeneous_plain_read.
Qed.

(** C40: reading a parameter never panics, and one that is read is well typed: its
    value has the declared type, floats are finite, and an array without a
    declared type does not mix integers, floats and other values (unless it
    holds integers above the signed range). *)
Theorem parameter_read_typed fs :
  no_panic (Parameter_deserialize fs) ∧
  ∀ p, Parameter_deserialize fs = Ok p → Forall (λ f, plain f.2) fs → param_ok p.
Proof.
  unfold Parameter_deserialize. destruct (visit_fields_ok fs (None, None, None)) as [Hnp Hok].
  destruct (visit_fields fs _) as [[[name ty] value]| |]; cbn [mbind result_bind]; [|done|done].
  destruct name as [name|]; cbn [ok_or mbind result_bind]; [|done].
  destruct (convert_value_spec ty value) as [Hnp' Hok'].
  destruct (convert_value ty value) as [pv| |]; cbn; [|done|done]. split; [done|].
  intros p [= <-] Hplain. apply Hok'; [done|]. intros v Hv.
  destruct (Hok _ _ _ eq_refl v Hv) as [?|Hin]; [done|].
  apply list_elem_of_fmap in Hin as (f & -> & Hf). by eapply Forall_forall in Hplain.
Qed.

(** A well-typed parameter survives being written and read back; byte arrays
    decode to the data they were made of. *)
Theorem parameter_roundtrip p :
  param_ok p →
  Parameter_deserialize (Parameter_serialize p) = Ok p ∧
  ∀ name data, decode_byte_array (Parameter_byte_array name data) = Ok (Some data) ∧
    param_ok (Parameter_byte_array name data).
Proof.
  intros Hp. split; [by apply write_read|]. intros name data. unfold decode_byte_array, param_ok. cbn.
  rewrite base64_decode_encode. split; [done|]. eexists _, _. split; [done|]. apply base64_decode_encode.
Qed.
End parameter.

(** ** An instance, and witnesses *)

(** A number is an integer or the bits of a double. *)
Definition finite_bits (x : Z) : bool := negb (Z.land (Z.shiftr x 52) 2047 =? 2047).
Definition bits_of_Z (z : Z) : Z :=
  match binary_normalize 53 1024 z 0 false with
  | S754_finite s m e =>
    (if s then 2 ^ 63 else 0) + (e + 1075) * 2 ^ 52 + (Zpos m - 2 ^ 52)
  | S754_infinity _ => 2047 * 2 ^ 52
  | _ => 0
  end.
Definition if_finite (x : Z) : option Z := if finite_bits x then Some x else None.
#[export] Instance number_ref : JsonNumber := {|
  Number := Z + Z;
  of_i64 := inl;
  of_f64 x := if finite_bits x then Some (inr x) else None;
  as_i64 n := match n with inl z => if decide (fits_signed 64 z) then Some z else None | inr _ => None end;
  is_f64 n := match n with inl _ => false | inr _ => true end;
  as_f64 n := if_finite (match n with inl z => bits_of_Z z | inr x => x end)
|}.
#[export] Instance number_ref_laws : JsonNumberLaws.
Proof.
  split; cbn.
  - intros z Hz. by rewrite decide_True.
  - by intros [z|x].
  - done.
  - intros x n. unfold if_finite. destruct (finite_bits x) eqn:E; [|done]. intros [= <-]. by rewrite E.
  - intros [z|x] i; [|done]. case_decide; [|done]. by intros [= <-].
  - intros n x. unfold if_finite. destruct (finite_bits _) eqn:E; [|done]. intros [= <-].
    rewrite E. by eexists.
Qed.

(** A mixed array of numbers, as text reads it: [{"name": "p", "value": [1, 2.5]}]. *)
Definition mixed_fields : list (string * @Value number_ref) :=
  [("name"%string, JString "p"); ("value"%string, JArray [JNumber (inl 1); JNumber (inr (1025 * 2 ^ 52 - 3 * 2 ^ 50))])].

Lemma parameter_read_typed_witness :
  ∃ p, Parameter_deserialize mixed_fields = Ok p ∧ param_ok p ∧
    p_value p = Some (PArray [PFloat64 (1023 * 2 ^ 52); PFloat64 (1025 * 2 ^ 52 - 3 * 2 ^ 50)]).
Proof.
  eexists. split; [vm_compute; reflexivity|]. split; [|vm_compute; reflexivity].
  eapply (proj2 (@parameter_read_typed number_ref base64_ref number_ref_laws mixed_fields)).
  - vm_compute. reflexivity.
  - constructor; [exact I|]. constructor; [|constructor].
    constructor; [left; reflexivity|]. constructor; [right; reflexivity|constructor].
Defined.

Lemma parameter_roundtrip_witness :
  let p := Parameter_dict "d" [("a"%string, PArray [PInteger 1; PString "x"]); ("b"%string, PBool true)] in
  Parameter_deserialize (Parameter_serialize p) = Ok p.
Proof.
  cbn zeta.
  refine (proj1 (@parameter_roundtrip number_ref base64_ref number_ref_laws base64_ref_laws
    (Parameter_dict "d" [("a"%string, PArray [PInteger 1; PString "x"]); ("b"%string, PBool true)]) _)).
  split; [|exact I]. cbn. repeat split; done.
Defined.

(** An integer above the signed range counts as non-numeric: such an array is
    read, but what it is written as is refused. *)
Lemma big_integer_mix :
  ∃ p, Parameter_deserialize [("name"%string, JString "p");
      ("value"%string, JArray [JNumber (inl (2 ^ 63) : @Number number_ref); JString "x"])] = Ok p ∧
    Parameter_deserialize (Parameter_serialize p) =
      Err (Custom "Array contains a mix of numeric and non-numeric-values").
Proof. eexists. split; [vm_compute; reflexivity|vm_compute; reflexivity]. Qed.
