(* ===== verification/AppUrl.v ===== *)
(** * Links to the Foxglove app

    `app_url.rs`: the builder of app URLs and their text.  Percent-encoding is
    the `urlencoding` crate's ([UrlEncoding]).  A reader of such URLs recovers
    everything that was put into the builder. *)

From S2P Require Import Prelude Bytes Advertise Token.

(** ** The urlencoding crate *)

Class UrlEncoding := {
  url_encode : string → string;
  url_decode : string → option string
}.
Definition QUESTION : byte := Byte.x3f.
(** What [encode] writes holds none of the characters that separate the parts of
    a query. *)
Class UrlEncodingLaws `{UrlEncoding} : Prop := {
  url_decode_encode : ∀ s, url_decode (url_encode s) = Some s;
  url_encode_safe : ∀ s, (AMP ∉ as_bytes (url_encode s)) ∧ (EQUALS ∉ as_bytes (url_encode s))
}.

(** ** The builder *)

Definition BASE_URL : list byte := as_bytes "https://app.foxglove.dev".

Inductive DataSource := WebSocket (url : string).
Record AppUrl := {
  data_source : option DataSource;
  layout_id : option string;
  open_in_desktop : bool
}.
Definition AppUrl_new : AppUrl :=
  {| data_source := None; layout_id := None; open_in_desktop := false |}.
Definition with_layout_id (id : string) (u : AppUrl) : AppUrl :=
  {| data_source := data_source u; layout_id := Some id; open_in_desktop := open_in_desktop u |}.
Definition with_open_in_desktop (u : AppUrl) : AppUrl :=
  {| data_source := data_source u; layout_id := layout_id u; open_in_desktop := true |}.
Definition with_websocket (url : string) (u : AppUrl) : AppUrl :=
  {| data_source := Some (WebSocket url); layout_id := layout_id u;
     open_in_desktop := open_in_desktop u |}.

Definition query_params (u : AppUrl) : list (string * string) :=
  match data_source u with
  | Some (WebSocket url) => [("ds", "foxglove-websocket"); ("ds.url", url)]
  | None => []
  end%string ++
  match layout_id u with Some id => [("layoutId"%string, id)] | None => [] end ++
  (if open_in_desktop u then [("openIn", "desktop")] else [])%string.

Section display.
Context `{UrlEncoding}.

Definition param_text (ii : nat) (kv : string * string) : list byte :=
  let sep := if decide (ii = 0)%nat then QUESTION else AMP in
  sep :: as_bytes kv.1 ++ EQUALS :: as_bytes (url_encode kv.2).
(** [Display::fmt]. *)
Definition AppUrl_fmt (u : AppUrl) : list byte :=
  BASE_URL ++ concat (imap param_text (query_params u)).

(** ** A reader *)

Definition read_param (pair : list byte) : option (list byte * string) :=
  '(k, v) ← split_once EQUALS pair; v ← url_decode (of_bytes v); Some (k, v).
Definition read_query (url : list byte) : option (list (list byte * string)) :=
  match split_once QUESTION url with
  | None => Some []
  | Some (_, q) => mapM read_param (split AMP q)
  end.
Definition param_of (key : string) (ps : list (list byte * string)) : option string :=
  find_map (λ kv : list byte * string, if decide (kv.1 = as_bytes key) then Some kv.2 else None) ps.
Definition read_url (url : list byte) : option AppUrl :=
  ps ← read_query url;
  Some {| data_source := WebSocket <$> param_of "ds.url" ps; layout_id := param_of "layoutId" ps;
          open_in_desktop := bool_decide (param_of "openIn" ps = Some "desktop"%string) |}.

Context `{!UrlEncodingLaws}.

Lemma imap_later (l : list (string * string)) n :
  (0 < n)%nat → concat (imap (λ i, param_text (n + i)) l) =
    l ≫= (λ kv, AMP :: as_bytes kv.1 ++ EQUALS :: as_bytes (url_encode kv.2)).
Proof.
  revert n. induction l as [|kv l IH]; intros n Hn; [done|]. cbn [imap concat].
  rewrite Nat.add_0_r. unfold param_text at 1. rewrite decide_False by lia. cbn [mbind list_bind].
  f_equal. f_equal. rewrite (imap_ext _ (λ i, param_text (S n + i))) by (intros i x _; cbn; by rewrite Nat.add_succ_r).
  apply IH. lia.
Qed.

Lemma bind_join l kv :
  as_bytes kv.1 ++ EQUALS :: as_bytes (url_encode kv.2) ++
    (l ≫= λ kv : string * string, AMP :: as_bytes kv.1 ++ EQUALS :: as_bytes (url_encode kv.2)) =
  join AMP ((λ kv : string * string, as_bytes kv.1 ++ EQUALS :: as_bytes (url_encode kv.2)) <$> kv :: l).
Proof.
  revert kv. induction l as [|kv' l IH]; intros kv.
  - cbn. by rewrite app_nil_r.
  - rewrite !fmap_cons. cbn [mbind list_bind]. rewrite <- app_comm_cons, <- app_assoc, <- app_comm_cons.
    rewrite (IH kv'), !fmap_cons. cbn [join]. by rewrite <- (app_assoc (as_bytes kv.1)).
Qed.

(** The keys that occur. *)
Definition plain_key (k : string) : Prop := (AMP ∉ as_bytes k) ∧ (EQUALS ∉ as_bytes k).

Lemma query_params_plain u : Forall (λ kv, plain_key kv.1) (query_params u).
Proof.
  assert (plain_key "ds" ∧ plain_key "ds.url" ∧ plain_key "layoutId" ∧ plain_key "openIn") as (?&?&?&?).
  { unfold plain_key. repeat split; apply (bool_decide_unpack _); vm_compute; exact I. }
  unfold query_params. rewrite !Forall_app. split_and!.
  - destruct (data_source u) as [[url]|]; repeat first [by apply Forall_nil|apply Forall_cons; split]; done.
  - destruct (layout_id u); repeat first [by apply Forall_nil|apply Forall_cons; split]; done.
  - destruct (open_in_desktop u); repeat first [by apply Forall_nil|apply Forall_cons; split]; done.
Qed.

Lemma read_param_fmt kv :
  plain_key kv.1 →
  read_param (as_bytes kv.1 ++ EQUALS :: as_bytes (url_encode kv.2)) = Some (as_bytes kv.1, kv.2).
Proof.
  intros [_ He]. unfold read_param. rewrite split_once_app by done. cbn.
  by rewrite of_as_bytes, url_decode_encode.
Qed.

Lemma read_query_fmt u :
  read_query (AppUrl_fmt u) = Some ((λ kv, (as_bytes kv.1, kv.2)) <$> query_params u).
Proof.
  pose proof (query_params_plain u) as Hplain. unfold AppUrl_fmt, read_query.
  assert (QUESTION ∉ BASE_URL) as Hbase by (apply (bool_decide_unpack _); vm_compute; exact I).
  destruct (query_params u) as [|kv l].
  { cbn [imap concat]. rewrite app_nil_r. by rewrite split_once_no. }
  cbn [imap concat]. unfold param_text at 1. rewrite decide_True by done.
  rewrite <- app_comm_cons, split_once_app by done.
  rewrite (imap_ext _ (λ i, param_text (1 + i))) by done. rewrite imap_later by lia.
  rewrite <- app_assoc, <- app_comm_cons, bind_join. rewrite split_join; [|done|].
  - induction Hplain as [|kv' l' Hk _ IH]; [done|]. rewrite !fmap_cons. cbn [mapM].
    rewrite read_param_fmt by done. cbn [mbind option_bind]. by rewrite IH.
  - apply Forall_fmap. eapply Forall_impl; [exact Hplain|]. intros kv' [Ha _] Hin. cbn in Hin.
    apply elem_of_app in Hin as [?|[?|Hin]%elem_of_cons]; [done|done|].
    by destruct (url_encode_safe kv'.2).
Qed.

(** A link says exactly what was put into the builder: a reader that takes the
    query apart and decodes its values recovers the builder, whatever the
    texts are; without any option the link is the base URL. *)
Theorem app_url_roundtrip u :
  read_url (AppUrl_fmt u) = Some u ∧ AppUrl_fmt AppUrl_new = BASE_URL.
Proof.
  split; [|apply app_nil_r]. unfold read_url. rewrite read_query_fmt. cbn [mbind option_bind].
  by destruct u as [[[url]|] [id|] []].
Qed.
End display.

(** ** An instance, and the witness *)

#[export] Instance hex_encoding : UrlEncoding := {|
  url_encode s := of_bytes (hex (as_bytes s));
  url_decode s := Some (of_bytes (unhex (as_bytes s)))
|}.

Lemma nibble_letter z b : nibble z = b → (65 ≤ byte_val b < 81)%Z.
Proof.
  intros <-. unfold nibble. rewrite byte_val_byte. pose proof (Z.mod_pos_bound z 16 eq_refl).
  rewrite Z.mod_small; lia.
Qed.

#[export] Instance hex_encoding_laws : UrlEncodingLaws.
Proof.
  split; intros s; cbn; rewrite as_of_bytes.
  - pose proof (base64_decode_encode (as_bytes s)) as E. cbn in E. rewrite as_of_bytes in E.
    injection E as E. by rewrite E, of_as_bytes.
  - assert (∀ b, b ∈ hex (as_bytes s) → (65 ≤ byte_val b < 81)%Z) as Hb.
    { unfold hex. intros b (x & Hx & _)%list_elem_of_bind.
      apply elem_of_cons in Hx as [Hx|Hx%list_elem_of_singleton]; by eapply nibble_letter. }
    split; intros Hin%Hb; cbn in Hin; lia.
Qed.

Definition example_url : AppUrl :=
  with_websocket "ws://a?b&c=d" (with_open_in_desktop (with_layout_id "lay_123" AppUrl_new)).
Lemma app_url_roundtrip_witness :
  read_url (AppUrl_fmt example_url) = Some example_url ∧
  length (query_params example_url) = 4%nat.
Proof.
  split; [exact (proj1 (@app_url_roundtrip hex_encoding hex_encoding_laws example_url))|reflexivity].
Defined.
