(* ===== verification/Stream.v ===== *)
(** * Streams of MCAP bytes

    `stream.rs`: an MCAP writer over a [SharedBuffer], whose bytes
    [McapStreamHandle::flush] and [close] pass through a tokio channel to an
    [McapStream].  The channel is external ([Mpsc], with its documented laws); the
    writer is whatever sequence of writes it makes.  An [async] function that
    awaits is a state, with the bytes it has taken from the buffer and still has to
    send ([hd_waiting]); its future may be dropped there, and the stream may be dropped
    at any time.

    No byte is doubled or reordered between the writer and the stream, and what is lost
    is known ([stream_conserves]). *)

From S2P Require Import Prelude Bytes.
Local Open Scope Z_scope.

(** ** tokio's bounded channel *)

Inductive Poll (A : Type) := Ready (a : A) | Pending.
Arguments Ready {A} _.
Arguments Pending {A}.

(** [poll_send] is [send(..)] polled once; [mp_queue] are the messages not yet
    received, [mp_senders] and [mp_receiver] whether the two ends exist. *)
Class Mpsc := {
  mp_chan : Type;
  mp_channel : nat → mp_chan;
  mp_poll_send : list byte → mp_chan → Poll (result unit unit) * mp_chan;
  mp_try_send : list byte → mp_chan → result unit unit * mp_chan;
  mp_poll_recv : mp_chan → Poll (option (list byte)) * mp_chan;
  mp_drop_sender : mp_chan → mp_chan;
  mp_drop_receiver : mp_chan → mp_chan;
  mp_queue : mp_chan → list (list byte);
  mp_capacity : mp_chan → nat;
  mp_senders : mp_chan → bool;
  mp_receiver : mp_chan → bool
}.

Section observe.
Context `{Mpsc}.
Definition ends_of (c : mp_chan) : nat * bool * bool := (mp_capacity c, mp_senders c, mp_receiver c).
End observe.

Class MpscLaws `{Mpsc} : Prop := {
  mp_channel_law : ∀ n, mp_queue (mp_channel n) = [] ∧ ends_of (mp_channel n) = (n, true, true);
  mp_poll_send_law : ∀ m c, let '(r, d) := mp_poll_send m c in
    if mp_receiver c then
      if (length (mp_queue c) <? mp_capacity c)%nat
      then r = Ready (Ok tt) ∧ mp_queue d = mp_queue c ++ [m] ∧ ends_of d = ends_of c
      else r = Pending ∧ mp_queue d = mp_queue c ∧ ends_of d = ends_of c
    else r = Ready (Err tt) ∧ d = c;
  mp_try_send_law : ∀ m c, let '(r, d) := mp_try_send m c in
    if mp_receiver c && (length (mp_queue c) <? mp_capacity c)%nat
    then r = Ok tt ∧ mp_queue d = mp_queue c ++ [m] ∧ ends_of d = ends_of c
    else r = Err tt ∧ d = c;
  mp_poll_recv_law : ∀ c, let '(r, d) := mp_poll_recv c in
    mp_queue d = tail (mp_queue c) ∧ ends_of d = ends_of c ∧
    r = match mp_queue c with
        | m :: _ => Ready (Some m)
        | [] => if mp_senders c then Pending else Ready None
        end;
  mp_drop_sender_law : ∀ c, mp_queue (mp_drop_sender c) = mp_queue c ∧
    ends_of (mp_drop_sender c) = (mp_capacity c, false, mp_receiver c);
  mp_drop_receiver_law : ∀ c, mp_queue (mp_drop_receiver c) = [] ∧
    ends_of (mp_drop_receiver c) = (mp_capacity c, mp_senders c, false)
}.

(** ** [SharedBuffer] *)

Record Inner := { in_buffer : list byte; in_position : Z }.
Definition Inner_default : Inner := {| in_buffer := []; in_position := 0 |}.

(** [Write::write]; the position is a [u64]. *)
Definition SharedBuffer_write {E} (buf : list byte) (i : Inner) : result E (Z * Inner) :=
  position ← or_panic (E:=E) (checked_unsigned 64 (in_position i + Z.of_nat (length buf)));
  Ok (Z.of_nat (length buf), {| in_buffer := in_buffer i ++ buf; in_position := position |}).

Inductive SeekFrom := SeekStart (n : Z) | SeekEnd (n : Z) | SeekCurrent (n : Z).
(** [Seek::seek], which does not move. *)
Definition SharedBuffer_seek (pos : SeekFrom) (i : Inner) : result string Z :=
  match pos with
  | SeekStart n => if in_position i =? n then Ok n else Err "seek on unseekable file"%string
  | SeekCurrent 0 => Ok (in_position i)
  | _ => Err "seek on unseekable file"%string
  end.

(** [buffer.split()]. *)
Definition take_buffer (i : Inner) : list byte * Inner :=
  (in_buffer i, {| in_buffer := []; in_position := in_position i |}).

Section stream.
Context `{Mpsc}.

(** ** The handle *)

(** What the caller of a pending [flush_shared_buffer] does with its result:
    [flush] and [close] return it; after a failure to finish the file, [close]
    returns that failure. *)
Inductive Caller := CallFlush | CallClose (writer_error : option string).

(** [hd_writer]: the MCAP writer still exists.  [hd_open]: the handle does.
    [hd_stream]: the [McapStream] does. *)
Record Handle := {
  hd_inner : Inner;
  hd_chan : mp_chan;
  hd_writer : bool;
  hd_open : bool;
  hd_waiting : option (list byte * Caller);
  hd_stream : bool
}.
Definition create_mcap_stream : Handle :=
  {| hd_inner := Inner_default; hd_chan := mp_channel 1; hd_writer := true; hd_open := true;
     hd_waiting := None; hd_stream := true |}.

Definition set_inner (i : Inner) (h : Handle) : Handle :=
  {| hd_inner := i; hd_chan := hd_chan h; hd_writer := hd_writer h; hd_open := hd_open h;
     hd_waiting := hd_waiting h; hd_stream := hd_stream h |}.
Definition set_waiting (w : option (list byte * Caller)) (c : mp_chan) (h : Handle) : Handle :=
  {| hd_inner := hd_inner h; hd_chan := c; hd_writer := hd_writer h; hd_open := hd_open h;
     hd_waiting := w; hd_stream := hd_stream h |}.
(** The handle is gone: its sender is dropped. *)
Definition consumed (h : Handle) : Handle :=
  {| hd_inner := hd_inner h; hd_chan := mp_drop_sender (hd_chan h); hd_writer := false;
     hd_open := false; hd_waiting := None; hd_stream := hd_stream h |}.

Inductive Out :=
| ONothing
| OWrote (n : Z)
| OAwait
| OFlushed (r : result string unit)
| OClosed (r : result string unit)
| ODropped (sent : bool)
| OCancelled
| OReceived (item : option (list byte)).

(** The caller of [flush_shared_buffer] continues with its result.  [close] owns
    the handle, which is dropped when it returns: the buffer is then empty, or
    else sent if there is room. *)
Definition handle_drop (h : Handle) : bool * Handle :=
  let '(bytes, i) := take_buffer (hd_inner h) in
  let h := set_inner i h in
  match bytes with
  | [] => (true, consumed h)
  | _ => let '(r, c) := mp_try_send bytes (hd_chan h) in
         (match r with Ok _ => true | _ => false end, consumed (set_waiting None c h))
  end.
Definition resume (caller : Caller) (r : result string unit) (h : Handle) : Out * Handle :=
  match caller with
  | CallFlush => (OFlushed r, h)
  | CallClose err =>
    (OClosed (match err with Some e => Err e | None => r end), (handle_drop h).2)
  end.

(** [flush_shared_buffer] from its [send] on, and from its start. *)
Definition poll_flush (bytes : list byte) (caller : Caller) (h : Handle) : Out * Handle :=
  match mp_poll_send bytes (hd_chan h) with
  | (Pending, c) => (OAwait, set_waiting (Some (bytes, caller)) c h)
  | (Ready (Ok _), c) => resume caller (Ok tt) (set_waiting None c h)
  | (Ready _, c) => resume caller (Err "McapStream channel was closed"%string) (set_waiting None c h)
  end.
Definition flush_shared_buffer (caller : Caller) (h : Handle) : Out * Handle :=
  let '(bytes, i) := take_buffer (hd_inner h) in
  let h := set_inner i h in
  match bytes with
  | [] => resume caller (Ok tt) h
  | _ => poll_flush bytes caller h
  end.

Definition McapStreamHandle_flush (h : Handle) : Out * Handle := flush_shared_buffer CallFlush h.

Definition buffer_size (h : Handle) : nat := length (in_buffer (hd_inner h)).

(** The writes with which the MCAP writer finishes the file. *)
Fixpoint write_final {E} (bufs : list (list byte)) (h : Handle) : result E Handle :=
  match bufs with
  | [] => Ok h
  | buf :: bufs =>
    '(_, i) ← SharedBuffer_write buf (hd_inner h); write_final bufs (set_inner i h)
  end.
Definition drop_writer (h : Handle) : Handle :=
  {| hd_inner := hd_inner h; hd_chan := hd_chan h; hd_writer := false; hd_open := hd_open h;
     hd_waiting := hd_waiting h; hd_stream := hd_stream h |}.

(** [close]: [final] and [err] are what closing the writer writes and returns. *)
Definition McapStreamHandle_close (final : list (list byte)) (err : option string) (h : Handle)
    : result string (Out * Handle) :=
  h ← (if hd_writer h then h ← write_final final h; Ok (drop_writer h) else Ok h);
  Ok (flush_shared_buffer (CallClose err) h).

(** [Drop::drop] of a handle that was not closed. *)
Definition McapStreamHandle_drop (final : list (list byte)) (h : Handle) : result string (Out * Handle) :=
  h ← (if hd_writer h then h ← write_final final h; Ok (drop_writer h) else Ok h);
  let '(sent, h) := handle_drop h in Ok (ODropped sent, h).

(** [McapStream::poll_next]. *)
Definition poll_next (h : Handle) : Out * Handle :=
  match mp_poll_recv (hd_chan h) with
  | (Ready item, c) => (OReceived item, set_waiting (hd_waiting h) c h)
  | (Pending, c) => (OAwait, set_waiting (hd_waiting h) c h)
  end.

(** The future of a waiting [flush] or [close] is dropped, with the bytes that it has
    taken; that of [close] owns the handle, which is dropped too. *)
Definition cancel (h : Handle) : Out * Handle :=
  match hd_waiting h with
  | None => (ONothing, h)
  | Some (_, CallFlush) => (OCancelled, set_waiting None (hd_chan h) h)
  | Some (_, CallClose _) => (OCancelled, (handle_drop (set_waiting None (hd_chan h) h)).2)
  end.
(** The drop of the [McapStream], and of its receiver. *)
Definition McapStream_drop (h : Handle) : Handle :=
  {| hd_inner := hd_inner h; hd_chan := mp_drop_receiver (hd_chan h); hd_writer := hd_writer h;
     hd_open := hd_open h; hd_waiting := hd_waiting h; hd_stream := false |}.

(** ** Runs *)

(** The writer writes on any thread, even while a flush waits; a handle runs one
    method at a time.  What is not possible changes nothing. *)
Inductive Op :=
| OpWrite (buf : list byte)
| OpFlush
| OpClose (final : list (list byte)) (err : option string)
| OpDrop (final : list (list byte))
| OpPoll
| OpCancel
| OpRecv
| OpDropStream.

Definition idle (h : Handle) : bool :=
  hd_open h && match hd_waiting h with None => true | Some _ => false end.

Definition step (op : Op) (h : Handle) : result string (Out * Handle) :=
  match op with
  | OpWrite buf =>
    if hd_writer h then '(n, i) ← SharedBuffer_write buf (hd_inner h); Ok (OWrote n, set_inner i h)
    else Ok (ONothing, h)
  | OpFlush => Ok (if idle h then McapStreamHandle_flush h else (ONothing, h))
  | OpClose final err => if idle h then McapStreamHandle_close final err h else Ok (ONothing, h)
  | OpDrop final => if idle h then McapStreamHandle_drop final h else Ok (ONothing, h)
  | OpPoll =>
    Ok (match hd_waiting h with
        | Some (bytes, caller) => poll_flush bytes caller h
        | None => (ONothing, h)
        end)
  | OpCancel => Ok (cancel h)
  | OpRecv => Ok (if hd_stream h then poll_next h else (ONothing, h))
  | OpDropStream => Ok (ONothing, if hd_stream h then McapStream_drop h else h)
  end.
Fixpoint run (ops : list Op) (h : Handle) : result string (list Out * Handle) :=
  match ops with
  | [] => Ok ([], h)
  | op :: ops => '(o, h) ← step op h; '(os, h) ← run ops h; Ok (o :: os, h)
  end.

(** ** What was written, received and lost *)

Definition finals (final : list (list byte)) (h : Handle) : list byte := if hd_writer h then concat final else [].
Definition accepted (op : Op) (h : Handle) : list byte :=
  match op with
  | OpWrite buf => if hd_writer h then buf else []
  | OpClose final _ | OpDrop final => if idle h then finals final h else []
  | _ => []
  end.
Definition received_item (o : Out) : list byte :=
  match o with OReceived (Some m) => m | _ => [] end.
Definition received (outs : list Out) : list byte := outs ≫= received_item.

Definition waiting_bytes (h : Handle) : list byte :=
  match hd_waiting h with Some (bytes, _) => bytes | None => [] end.
Definition full (h : Handle) : bool := negb (length (mp_queue (hd_chan h)) <? mp_capacity (hd_chan h))%nat.
(** What a step loses: the bytes of a future that is dropped; those in the channel when
    the stream is dropped, and afterwards what is to be sent; and the last bytes of a
    handle that is dropped while the channel is full. *)
Definition lost_by (op : Op) (h : Handle) : list byte :=
  match op with
  | OpWrite _ | OpRecv => []
  | OpFlush => if idle h && negb (hd_stream h) then in_buffer (hd_inner h) else []
  | OpClose final _ => if idle h && negb (hd_stream h) then in_buffer (hd_inner h) ++ finals final h else []
  | OpDrop final =>
    if idle h && (negb (hd_stream h) || full h) then in_buffer (hd_inner h) ++ finals final h else []
  | OpPoll => if hd_stream h then [] else waiting_bytes h
  | OpCancel => waiting_bytes h
  | OpDropStream => if hd_stream h then concat (mp_queue (hd_chan h)) else []
  end.
Fixpoint over_run (f : Op → Handle → list byte) (ops : list Op) (h : Handle) : list byte :=
  match ops with
  | [] => []
  | op :: ops => f op h ++ match step op h with Ok (_, h) => over_run f ops h | _ => [] end
  end.
Definition written : list Op → Handle → list byte := over_run accepted.
Definition lost : list Op → Handle → list byte := over_run lost_by.

(** The bytes on their way, oldest first. *)
Definition in_transit (h : Handle) : list byte :=
  concat (mp_queue (hd_chan h)) ++ waiting_bytes h ++ in_buffer (hd_inner h).

(** *** Accounts *)

(** Bytes that are marked, in order, and those with a mark. *)
Definition marked (b : bool) (l : list (byte * bool)) : list byte := (filter (λ x, x.2 = b) l).*1.
(** The bytes [w] in order are those that were received or lost, and then those that are
    on their way or lost. *)
Definition accounts (w r t l : list byte) : Prop :=
  ∃ done rest : list (byte * bool), w = (done ++ rest).*1 ∧ r = marked true done ∧ t = marked true rest ∧
    l ≡ₚ marked false (done ++ rest).

Lemma marked_app b l1 l2 : marked b (l1 ++ l2) = marked b l1 ++ marked b l2.
Proof. unfold marked. by rewrite filter_app, fmap_app. Qed.
Lemma mark_bytes (b : bool) (bs : list byte) : ((λ x, (x, b)) <$> bs).*1 = bs.
Proof. induction bs as [|x bs IH]; [done|]. cbn. by f_equal. Qed.
Lemma marked_all b bs : marked b ((λ x, (x, b)) <$> bs) = bs.
Proof.
  unfold marked. induction bs as [|x bs IH]; [done|]. cbn [fmap list_fmap].
  rewrite filter_cons_True by done. cbn. by rewrite IH.
Qed.
Lemma marked_none b bs : marked b ((λ x, (x, negb b)) <$> bs) = [].
Proof.
  unfold marked. induction bs as [|x bs IH]; [done|]. cbn [fmap list_fmap].
  rewrite filter_cons_False; [done|]. by destruct b.
Qed.
Lemma marked_split l a c :
  marked true l = a ++ c → ∃ l1 l2, l = l1 ++ l2 ∧ marked true l1 = a ∧ marked true l2 = c.
Proof.
  revert a. induction l as [|[x b] l IH]; intros a E.
  { exists [], []. apply (eq_sym (x:=[])), app_eq_nil in E as [-> ->]. done. }
  destruct a as [|y a]; [by exists [], ((x, b) :: l)|]. unfold marked in E, IH |- *. destruct b.
  - rewrite filter_cons_True in E by done. cbn in E. injection E as -> E.
    destruct (IH a E) as (l1 & l2 & -> & <- & <-). exists ((y, true) :: l1), l2.
    by rewrite filter_cons_True.
  - rewrite filter_cons_False in E by done. destruct (IH (y :: a) E) as (l1 & l2 & -> & E1 & <-).
    exists ((x, false) :: l1), l2. by rewrite filter_cons_False.
Qed.

Lemma accounts_nil : accounts [] [] [] [].
Proof. by exists [], []. Qed.
Lemma accounts_write w r t l b : accounts w r t l → accounts (w ++ b) r (t ++ b) l.
Proof.
  intros (d & e & -> & -> & -> & Hl). exists d, (e ++ ((λ x, (x, true)) <$> b)).
  split_and!; [by rewrite app_assoc, (fmap_app _ (d ++ e)), mark_bytes|done|by rewrite marked_app, marked_all|].
  by rewrite app_assoc, marked_app, (marked_none false), app_nil_r.
Qed.
Lemma accounts_receive w r b t l : accounts w r (b ++ t) l → accounts w (r ++ b) t l.
Proof.
  intros (d & e & -> & -> & Et & Hl). symmetry in Et.
  destruct (marked_split e b t Et) as (e1 & e2 & -> & <- & <-).
  exists (d ++ e1), e2. by rewrite <- app_assoc, marked_app.
Qed.
Lemma marked_both (l : list (byte * bool)) : l.*1 ≡ₚ marked false l ++ marked true l.
Proof.
  unfold marked. induction l as [|[x []] l IH]; [done| |]; rewrite !filter_cons; cbn.
  - by rewrite IH, Permutation_middle.
  - by rewrite IH.
Qed.
Lemma accounts_lose w r a b c l : accounts w r (a ++ b ++ c) l → accounts w r (a ++ c) (l ++ b).
Proof.
  intros (d & e & -> & -> & Et & Hl). symmetry in Et.
  destruct (marked_split e _ _ Et) as (e1 & e2 & -> & <- & Ebc).
  destruct (marked_split e2 b c Ebc) as (e2' & e3 & -> & <- & <-).
  exists d, (e1 ++ ((λ x, (x, false)) <$> e2'.*1) ++ e3). split_and!.
  - by rewrite !fmap_app, mark_bytes.
  - done.
  - by rewrite !marked_app, (marked_none true).
  - rewrite Hl, !marked_app, marked_all, marked_both, <- !app_assoc. do 3 f_equiv. apply Permutation_app_comm.
Qed.

(** ** The invariant *)

Record stream_inv (w r l : list byte) (h : Handle) : Prop := {
  si_bytes : accounts w r (in_transit h) l;
  si_position : in_position (hd_inner h) = Z.of_nat (length w);
  si_ends : ends_of (hd_chan h) = (1%nat, hd_open h, hd_stream h);
  si_gone : hd_open h = false →
    in_buffer (hd_inner h) = [] ∧ hd_waiting h = None ∧ hd_writer h = false;
  si_stream : hd_stream h = false → mp_queue (hd_chan h) = []
}.
Context `{!MpscLaws}.

Lemma create_inv : stream_inv [] [] [] create_mcap_stream.
Proof.
  destruct (mp_channel_law 1) as [Eq Ee]. split; [|done|exact Ee|done|done].
  unfold in_transit. cbn [hd_chan create_mcap_stream]. rewrite Eq. apply accounts_nil.
Qed.

(** Writing appends to the buffer. *)
Lemma write_inv w r l h buf :
  stream_inv w r l h → hd_open h = true → Z.of_nat (length (w ++ buf)) < 2 ^ 64 →
  ∃ i, SharedBuffer_write (E:=string) buf (hd_inner h) = Ok (Z.of_nat (length buf), i) ∧
    stream_inv (w ++ buf) r l (set_inner i h).
Proof.
  intros [Eb Ep Ee Hg Hq] Ho Hlen. unfold SharedBuffer_write. rewrite Ep.
  assert (checked_unsigned 64 (Z.of_nat (length w) + Z.of_nat (length buf)) =
    Some (Z.of_nat (length (w ++ buf)))) as ->.
  { rewrite length_app, Nat2Z.inj_add. unfold checked_unsigned. rewrite decide_True; [done|].
    rewrite length_app in Hlen. unfold fits. lia. }
  eexists. split; [done|]. split; cbn; [|done|done|congruence|done].
  apply (accounts_write _ _ _ _ buf) in Eb. unfold in_transit, waiting_bytes in *. cbn.
  by rewrite <- !app_assoc in Eb.
Qed.

Lemma write_final_inv w r l h bufs :
  stream_inv w r l h → hd_open h = true → Z.of_nat (length (w ++ concat bufs)) < 2 ^ 64 →
  ∃ h', write_final (E:=string) bufs h = Ok h' ∧ stream_inv (w ++ concat bufs) r l h' ∧
    hd_open h' = true ∧ hd_waiting h' = hd_waiting h ∧ hd_stream h' = hd_stream h ∧
    hd_chan h' = hd_chan h ∧ in_buffer (hd_inner h') = in_buffer (hd_inner h) ++ concat bufs.
Proof.
  revert w h. induction bufs as [|buf bufs IH]; intros w h Hi Ho Hlen; cbn in *.
  { exists h. by rewrite !app_nil_r. }
  rewrite app_assoc in Hlen. destruct (write_inv w r l h buf Hi Ho) as (i & E & Hi').
  { rewrite !length_app in *. lia. }
  assert (in_buffer i = in_buffer (hd_inner h) ++ buf) as Ebuf.
  { unfold SharedBuffer_write in E. destruct (or_panic _); cbn in E; [|done..]. by injection E as <-. }
  rewrite E. destruct (IH _ _ Hi' Ho Hlen) as (h' & Ef & Hi2 & ? & ? & ? & ? & Eb). exists h'. cbn.
  rewrite app_assoc. cbn in Eb. rewrite Ebuf, <- app_assoc in Eb. by split_and!.
Qed.

Lemma lose_nothing w r t l l' : accounts w r t l → l' = [] → accounts w r t (l ++ l').
Proof. intros Ha ->. by rewrite app_nil_r. Qed.

Lemma mp_drop_sender_ends c cap b s :
  ends_of c = (cap, b, s) → ends_of (mp_drop_sender c) = (cap, false, s) ∧ mp_queue (mp_drop_sender c) = mp_queue c.
Proof.
  intros Hc. destruct (mp_drop_sender_law c) as [-> ->]. unfold ends_of in Hc. by injection Hc as -> _ ->.
Qed.

(** Dropping the handle sends the buffer, or loses it. *)
Definition dropped (h : Handle) : list byte :=
  if negb (hd_stream h) || full h then in_buffer (hd_inner h) else [].
Lemma handle_drop_inv w r l h :
  stream_inv w r l h → hd_open h = true → hd_waiting h = None →
  let '(sent, h') := handle_drop h in
  stream_inv w r (l ++ dropped h) h' ∧ hd_open h' = false ∧ hd_stream h' = hd_stream h ∧
  (dropped h ≠ [] → sent = false).
Proof.
  intros [Eb Ep Ee Hg Hq] Ho Hw. unfold handle_drop, take_buffer, dropped.
  unfold in_transit, waiting_bytes in Eb. rewrite Hw in Eb. cbn in Eb. rewrite Ho in Ee.
  destruct (in_buffer (hd_inner h)) as [|b bs] eqn:Ebuf.
  - destruct (mp_drop_sender_ends _ _ _ _ Ee) as [Ee' Eq']. split_and!; [|done|done|by destruct (_ || _)].
    split; cbn; [|done|done|done|by rewrite Eq'].
    apply lose_nothing; [|by destruct (_ || _)]. unfold in_transit, waiting_bytes. cbn. by rewrite Eq'.
  - cbn [set_inner hd_chan]. pose proof (mp_try_send_law (b :: bs) (hd_chan h)) as Hs. unfold full.
    assert (mp_receiver (hd_chan h) = hd_stream h) as Er by (unfold ends_of in Ee; congruence).
    destruct (mp_try_send _ _) as [res c]. rewrite Er in Hs. rewrite <- negb_andb.
    destruct (hd_stream h && _) eqn:Eroom; cbn [negb].
    + destruct Hs as (-> & Eq & Ends). rewrite Ee in Ends.
      destruct (mp_drop_sender_ends _ _ _ _ Ends) as [Ee' Eq'].
      split_and!; [|done|done|done]. split; cbn; [|done|done|done|].
      * rewrite app_nil_r. unfold in_transit, waiting_bytes. cbn. rewrite Eq', Eq, concat_app. cbn.
        by rewrite !app_nil_r.
      * intros Hst. by rewrite Hst in Eroom.
    + destruct Hs as [-> ->]. destruct (mp_drop_sender_ends _ _ _ _ Ee) as [Ee' Eq'].
      split_and!; [|done|done|done]. split; cbn; [|done|done|done|by rewrite Eq'].
      unfold in_transit, waiting_bytes. cbn. rewrite Eq'.
      apply (accounts_lose _ _ _ (b :: bs) []). by rewrite app_nil_r.
Qed.

(** The handle is consumed. *)
Definition ends (o : Out) : bool :=
  match o with OClosed _ | ODropped _ => true | _ => false end.

(** What a part of a method does: it loses the bytes [x], and receives none. *)
Definition part_inv (w r l x : list byte) (h : Handle) (p : Out * Handle) : Prop :=
  stream_inv w r (l ++ x) p.2 ∧ (ends p.1 = true → hd_open p.2 = false) ∧
  hd_stream p.2 = hd_stream h ∧ received_item p.1 = [] ∧ p.1 ≠ OReceived None.

Lemma resume_inv w r l h caller res :
  stream_inv w r l h → hd_open h = true → hd_waiting h = None →
  (∀ e, caller = CallClose e → in_buffer (hd_inner h) = []) →
  part_inv w r l [] h (resume caller res h).
Proof.
  intros Hi Ho Hw Hb. destruct caller as [|err]; cbn [resume].
  - split_and!; [|done..]. by rewrite app_nil_r.
  - pose proof (handle_drop_inv w r l h Hi Ho Hw) as Hd. destruct (handle_drop h) as [sent h'].
    destruct Hd as (Hi' & Ho' & Hst & _). unfold dropped in Hi'. rewrite (Hb _ eq_refl) in Hi'.
    split_and!; [|done..]. cbn. by destruct (_ || _).
Qed.

(** Sending the bytes taken from the buffer; a closing handle's writer writes no
    more, so that its buffer is empty. *)
Lemma poll_flush_inv w r l h bytes caller :
  accounts w r (concat (mp_queue (hd_chan h)) ++ bytes ++ in_buffer (hd_inner h)) l →
  in_position (hd_inner h) = Z.of_nat (length w) → ends_of (hd_chan h) = (1%nat, true, hd_stream h) →
  (hd_stream h = false → mp_queue (hd_chan h) = []) →
  hd_open h = true → (∀ e, caller = CallClose e → in_buffer (hd_inner h) = []) →
  part_inv w r l (if hd_stream h then [] else bytes) h (poll_flush bytes caller h).
Proof.
  intros Hb Hp He Hq Ho Hc. unfold poll_flush. pose proof (mp_poll_send_law bytes (hd_chan h)) as Hs.
  assert (mp_receiver (hd_chan h) = hd_stream h) as Er by (unfold ends_of in He; congruence).
  destruct (mp_poll_send bytes (hd_chan h)) as [p c]. rewrite Er in Hs.
  destruct (hd_stream h) eqn:Est; [destruct (_ <? _)%nat; destruct Hs as (-> & Eq & Ends)|destruct Hs as [-> ->]].
  - apply (resume_inv w r l (set_waiting None c h)); [|done|done|done].
    rewrite He in Ends. split; cbn; [|done|by rewrite Ho, Est|congruence|congruence].
    unfold in_transit, waiting_bytes. cbn. rewrite Eq, concat_app. cbn. by rewrite app_nil_r, <- app_assoc.
  - rewrite He in Ends. split_and!; [|done|done|done|done]. rewrite app_nil_r. cbn.
    split; cbn; [|done|by rewrite Ho, Est|congruence|congruence].
    unfold in_transit, waiting_bytes. cbn. by rewrite Eq.
  - destruct (resume_inv w r (l ++ bytes) (set_waiting None (hd_chan h) h) caller
      (Err "McapStream channel was closed"%string)) as (Hi & ? & ? & ? & ?); [|done|done|done|].
    + split; cbn; [|done|by rewrite Ho, Est|congruence|by intros _; apply Hq].
      unfold in_transit, waiting_bytes. cbn. by apply accounts_lose.
    + rewrite app_nil_r in Hi. by split_and!.
Qed.

Lemma flush_inv w r l h caller :
  stream_inv w r l h → hd_open h = true → hd_waiting h = None →
  part_inv w r l (if hd_stream h then [] else in_buffer (hd_inner h)) h (flush_shared_buffer caller h).
Proof.
  intros Hi Ho Hw. pose proof Hi as [Eb Ep Ee Hg Hq]. rewrite Ho in Ee.
  unfold flush_shared_buffer, take_buffer. unfold in_transit, waiting_bytes in Eb.
  rewrite Hw in Eb. cbn in Eb. destruct (in_buffer (hd_inner h)) as [|b bs] eqn:Ebuf.
  - assert ((if hd_stream h then [] else []) = @nil byte) as -> by by destruct (hd_stream h).
    apply (resume_inv w r l (set_inner _ h)); [|done|done|done].
    split; cbn; [|done|by rewrite Ho|congruence|done]. unfold in_transit, waiting_bytes. cbn. by rewrite Hw.
  - apply (poll_flush_inv w r l (set_inner _ h)); [|done..]. cbn. by rewrite app_nil_r.
Qed.

(** A waiting close has an empty buffer. *)
Definition closing_ok (h : Handle) : Prop :=
  match hd_waiting h with
  | Some (_, CallClose _) => in_buffer (hd_inner h) = [] ∧ hd_writer h = false
  | _ => True
  end.

Lemma closing_ok_out h : hd_waiting h = None → closing_ok h.
Proof. unfold closing_ok. by intros ->. Qed.
Lemma handle_drop_closing h : closing_ok (handle_drop h).2.
Proof.
  unfold handle_drop, take_buffer. destruct (in_buffer (hd_inner h)); [done|]. by destruct (mp_try_send _ _).
Qed.

(** What is sent for a caller leaves a handle that waits properly. *)
Lemma resume_closing caller r h : hd_waiting h = None → closing_ok (resume caller r h).2.
Proof. intros Hw. destruct caller; cbn; [by apply closing_ok_out|apply handle_drop_closing]. Qed.
Lemma poll_flush_closing h bytes caller :
  (∀ e, caller = CallClose e → in_buffer (hd_inner h) = [] ∧ hd_writer h = false) →
  closing_ok (poll_flush bytes caller h).2.
Proof.
  intros Hc. unfold poll_flush. destruct (mp_poll_send _ _) as [[res|] c].
  - destruct res; by apply resume_closing.
  - destruct caller as [|e]; [done|]. by apply (Hc e).
Qed.
Lemma flush_closing h caller :
  hd_waiting h = None → (∀ e, caller = CallClose e → hd_writer h = false) →
  closing_ok (flush_shared_buffer caller h).2.
Proof.
  intros Hw Hc. unfold flush_shared_buffer, take_buffer.
  destruct (in_buffer (hd_inner h)) as [|b bs]; [by apply resume_closing|].
  apply poll_flush_closing. intros e He. split; [done|by apply (Hc e)].
Qed.

(** ** Steps *)

(** The one step that ends the stream. *)
Definition drops_stream (op : Op) : bool := match op with OpDropStream => true | _ => false end.
Definition cancels (op : Op) : bool := match op with OpCancel => true | _ => false end.

Definition step_spec (op : Op) (w r l : list byte) (h : Handle) : Prop :=
  ∃ o h', step op h = Ok (o, h') ∧ closing_ok h' ∧
    stream_inv (w ++ accepted op h) (r ++ received_item o) (l ++ lost_by op h) h' ∧
    (ends o = true → hd_open h' = false) ∧
    (o = OReceived None → hd_open h' = false ∧ mp_queue (hd_chan h') = []) ∧
    hd_stream h' = hd_stream h && negb (drops_stream op) ∧
    (hd_stream h = true → drops_stream op = false → cancels op = false →
      lost_by op h ≠ [] → o = ODropped false).

Lemma skip_spec op w r l h :
  stream_inv w r l h → closing_ok h → step op h = Ok (ONothing, h) → accepted op h = [] →
  lost_by op h = [] → drops_stream op = false → step_spec op w r l h.
Proof.
  intros Hi Hc Hs Ha Hl Hd. exists ONothing, h. rewrite Ha, Hl, Hd, andb_true_r, !app_nil_r. by split_and!.
Qed.

Lemma part_spec op w r l h p :
  step op h = Ok p → closing_ok p.2 → part_inv (w ++ accepted op h) r l (lost_by op h) h p →
  drops_stream op = false → (hd_stream h = true → lost_by op h = []) → step_spec op w r l h.
Proof.
  destruct p as [o h']. intros Hs Hc (Hi & He & Hst & Hrec & Hn) Hd Hlost. exists o, h'.
  cbn in Hi, He, Hst, Hrec, Hn. rewrite Hrec, Hd, andb_true_r, app_nil_r. split_and!; [done..| |].
  - done.
  - intros Hh _ _ Hne. by destruct (Hne (Hlost Hh)).
Qed.

Lemma idle_spec h : idle h = true ↔ hd_open h = true ∧ hd_waiting h = None.
Proof. unfold idle. destruct (hd_open h), (hd_waiting h); cbn; naive_solver. Qed.

(** The writer's last writes. *)
Lemma finish_writer w r l h final :
  stream_inv w r l h → idle h = true → Z.of_nat (length (w ++ finals final h)) < 2 ^ 64 →
  ∃ h', (if hd_writer h then h ← write_final (E:=string) final h; Ok (drop_writer h) else Ok h) = Ok h' ∧
    stream_inv (w ++ finals final h) r l h' ∧ hd_open h' = true ∧ hd_waiting h' = None ∧
    hd_writer h' = false ∧ hd_stream h' = hd_stream h ∧ full h' = full h ∧
    in_buffer (hd_inner h') = in_buffer (hd_inner h) ++ finals final h.
Proof.
  unfold finals. intros Hi [Ho Hw]%idle_spec Hlen. destruct (hd_writer h) eqn:Ewr.
  - destruct (write_final_inv w r l h final Hi Ho Hlen) as (h' & -> & Hi' & Ho' & Hw' & Hst & Hch & Hb).
    exists (drop_writer h'). unfold full. cbn. rewrite Hch.
    split_and!; [done| |done|congruence|done|done|done|done].
    destruct Hi' as [Eb Ep Ee Hg Hq]. split; cbn; [done|done|done| |done]. congruence.
  - exists h. rewrite !app_nil_r. by split_and!.
Qed.

Lemma stream_write_step buf w r l h :
  stream_inv w r l h → closing_ok h → Z.of_nat (length (w ++ accepted (OpWrite buf) h)) < 2 ^ 64 →
  step_spec (OpWrite buf) w r l h.
Proof.
  intros Hi Hc Hlen. destruct (hd_writer h) eqn:Ew; [|apply skip_spec; [done..| | |done|done]; cbn; by rewrite Ew].
  assert (hd_open h = true) as Ho.
  { destruct (hd_open h) eqn:E; [done|]. by destruct (si_gone _ _ _ _ Hi E) as (_ & _ & ?); congruence. }
  cbn [accepted] in Hlen. rewrite Ew in Hlen. destruct (write_inv w r l h buf Hi Ho Hlen) as (i & E & Hi').
  exists (OWrote (Z.of_nat (length buf))), (set_inner i h). cbn. rewrite Ew, E, !app_nil_r, andb_true_r.
  split_and!; [done| |done..]. unfold closing_ok in *. cbn.
  destruct (hd_waiting h) as [[? []]|]; [done| |done]. destruct Hc. congruence.
Qed.

Lemma stream_flush_step w r l h : stream_inv w r l h → closing_ok h → step_spec OpFlush w r l h.
Proof.
  intros Hi Hc. destruct (idle h) eqn:Eid;
    [|apply skip_spec; [done..| |done| |done]; cbn; by rewrite Eid].
  destruct (proj1 (idle_spec h) Eid) as [Ho Hw]. pose proof (flush_inv w r l h CallFlush Hi Ho Hw) as Hf.
  apply (part_spec _ _ _ _ _ (flush_shared_buffer CallFlush h)); [| | |done|].
  - cbn. by rewrite Eid.
  - by apply flush_closing.
  - cbn [accepted lost_by]. rewrite Eid, app_nil_r. cbn [andb]. by destruct (hd_stream h).
  - cbn. intros ->. by rewrite andb_false_r.
Qed.

Lemma stream_close_step final err w r l h :
  stream_inv w r l h → closing_ok h → Z.of_nat (length (w ++ accepted (OpClose final err) h)) < 2 ^ 64 →
  step_spec (OpClose final err) w r l h.
Proof.
  intros Hi Hc Hlen. destruct (idle h) eqn:Eid;
    [|apply skip_spec; [done..| | | |done]; cbn; by rewrite Eid].
  cbn [accepted] in Hlen. rewrite Eid in Hlen.
  destruct (finish_writer w r l h final Hi Eid Hlen) as (h' & E & Hi' & Ho' & Hw' & Hwr & Hst & _ & Hb).
  pose proof (flush_inv _ _ _ h' (CallClose err) Hi' Ho' Hw') as Hf. rewrite Hst, Hb in Hf.
  apply (part_spec _ _ _ _ _ (flush_shared_buffer (CallClose err) h')); [| | |done|].
  - cbn. rewrite Eid. unfold McapStreamHandle_close. by rewrite E.
  - by apply flush_closing.
  - cbn [accepted lost_by]. rewrite Eid. cbn [andb]. destruct Hf as (? & ? & ? & ? & ?).
    split_and!; [by destruct (hd_stream h)|done|congruence|done|done].
  - cbn. intros ->. by rewrite andb_false_r.
Qed.

Lemma stream_drop_step final w r l h :
  stream_inv w r l h → closing_ok h → Z.of_nat (length (w ++ accepted (OpDrop final) h)) < 2 ^ 64 →
  step_spec (OpDrop final) w r l h.
Proof.
  intros Hi Hc Hlen. destruct (idle h) eqn:Eid;
    [|apply skip_spec; [done..| | | |done]; cbn; by rewrite Eid].
  cbn [accepted] in Hlen. rewrite Eid in Hlen.
  destruct (finish_writer w r l h final Hi Eid Hlen) as (h' & E & Hi' & Ho' & Hw' & Hwr & Hst & Hfu & Hb).
  pose proof (handle_drop_inv _ _ _ h' Hi' Ho' Hw') as Hd. pose proof (handle_drop_closing h') as Hcl.
  destruct (handle_drop h') as [sent h2] eqn:Ed. destruct Hd as (Hi2 & Ho2 & Hst2 & Hs).
  unfold dropped in Hi2, Hs. rewrite Hst, Hfu, Hb in Hi2, Hs.
  exists (ODropped sent), h2. cbn [step accepted lost_by]. rewrite Eid. cbn [andb].
  unfold McapStreamHandle_drop. rewrite E. cbn [mbind result_bind]. rewrite Ed.
  cbn [received_item drops_stream negb]. rewrite app_nil_r, andb_true_r.
  split_and!; [done|exact Hcl|done|done|done|congruence|]. intros _ _ _ Hne. by rewrite (Hs Hne).
Qed.

Lemma waiting_open w r l h b : stream_inv w r l h → hd_waiting h = Some b → hd_open h = true.
Proof.
  intros Hi Hw. destruct (hd_open h) eqn:E; [done|].
  destruct (si_gone _ _ _ _ Hi E) as (_ & ? & _). congruence.
Qed.

Lemma stream_poll_step w r l h : stream_inv w r l h → closing_ok h → step_spec OpPoll w r l h.
Proof.
  intros Hi Hc. destruct (hd_waiting h) as [[bytes caller]|] eqn:Ew.
  2: { apply skip_spec; [done..| |done| |done]; cbn; unfold waiting_bytes; rewrite Ew; [done|].
       by destruct (hd_stream h). }
  pose proof (waiting_open _ _ _ _ _ Hi Ew) as Ho. pose proof Hi as [Eb Ep Ee Hg Hq].
  unfold closing_ok in Hc. rewrite Ew in Hc.
  unfold in_transit, waiting_bytes in Eb. rewrite Ew in Eb. rewrite Ho in Ee.
  assert (∀ e, caller = CallClose e → in_buffer (hd_inner h) = [] ∧ hd_writer h = false) as Hcl
    by (intros e ->; exact Hc).
  pose proof (poll_flush_inv w r l h bytes caller Eb Ep Ee Hq Ho (λ e He, proj1 (Hcl e He))) as Hp.
  apply (part_spec _ _ _ _ _ (poll_flush bytes caller h)); [| | |done|].
  - cbn. by rewrite Ew.
  - by apply poll_flush_closing.
  - cbn [accepted lost_by]. unfold waiting_bytes. by rewrite Ew, app_nil_r.
  - cbn. by intros ->.
Qed.

Lemma stream_cancel_step w r l h : stream_inv w r l h → closing_ok h → step_spec OpCancel w r l h.
Proof.
  intros Hi Hc. destruct (hd_waiting h) as [[bytes caller]|] eqn:Ew.
  2: { apply skip_spec; [done..| |done| |done]; cbn; unfold cancel, waiting_bytes; by rewrite Ew. }
  pose proof (waiting_open _ _ _ _ _ Hi Ew) as Ho. pose proof Hi as [Eb Ep Ee Hg Hq].
  unfold in_transit, waiting_bytes in Eb. rewrite Ew in Eb. set (h1 := set_waiting None (hd_chan h) h).
  assert (stream_inv w r (l ++ bytes) h1) as Hi1.
  { split; cbn; [|done|done|congruence|done]. unfold in_transit, waiting_bytes. cbn. by apply accounts_lose. }
  unfold step_spec. cbn [step accepted lost_by drops_stream negb]. unfold cancel, waiting_bytes.
  rewrite Ew, andb_true_r. destruct caller as [|err].
  - exists OCancelled, h1. cbn [received_item]. rewrite !app_nil_r. by split_and!.
  - exists OCancelled, (handle_drop h1).2. cbn [received_item]. rewrite !app_nil_r. fold h1.
    pose proof (handle_drop_inv _ _ _ h1 Hi1 Ho eq_refl) as Hd. pose proof (handle_drop_closing h1) as Hcl.
    destruct (handle_drop h1) as [sent h2]. destruct Hd as (Hi2 & Ho2 & Hst2 & _).
    unfold closing_ok in Hc. rewrite Ew in Hc. unfold dropped in Hi2. cbn in Hi2. rewrite (proj1 Hc) in Hi2.
    split_and!; [done|done| |done|done|done|done]. cbn. rewrite <- (app_nil_r (l ++ bytes)).
    by destruct (_ || _).
Qed.

Lemma stream_recv_step w r l h : stream_inv w r l h → closing_ok h → step_spec OpRecv w r l h.
Proof.
  intros Hi Hc. destruct (hd_stream h) eqn:Est.
  2: { apply skip_spec; [done..| |done|done|done]. cbn. by rewrite Est. }
  unfold step_spec. cbn [step accepted lost_by drops_stream negb]. rewrite Est. unfold poll_next.
  pose proof (mp_poll_recv_law (hd_chan h)) as Hr. pose proof Hi as [Eb Ep Ee Hg Hq].
  destruct (mp_poll_recv (hd_chan h)) as [p c]. destruct Hr as (Eq & Ends & Ep').
  rewrite !app_nil_r. rewrite Ee in Ends.
  assert (∀ q, concat (mp_queue (hd_chan h)) = q ++ concat (mp_queue c) →
    stream_inv w (r ++ q) l (set_waiting (hd_waiting h) c h)) as Hnext.
  { intros q E. split; cbn; [|done|done|done|congruence]. unfold in_transit in *. cbn.
    rewrite E, <- app_assoc in Eb. by apply accounts_receive. }
  set (h1 := set_waiting (hd_waiting h) c h) in *. assert (closing_ok h1) as Hc' by done.
  destruct (mp_queue (hd_chan h)) as [|m q] eqn:Eqh; cbn in Eq, Hnext.
  - assert (stream_inv w (r ++ []) l h1) as Hi1 by (apply Hnext; by rewrite Eq).
    destruct (mp_senders (hd_chan h)) eqn:Es; subst p.
    + by exists OAwait, h1; split_and!.
    + exists (OReceived None), h1. split_and!; [done..| |done|done].
      intros _. cbn. split; [|done]. unfold ends_of in Ee. congruence.
  - subst p. exists (OReceived (Some m)), h1. split_and!; [done|done| |done..]. apply Hnext. by rewrite Eq.
Qed.

Lemma stream_gone_step w r l h : stream_inv w r l h → closing_ok h → step_spec OpDropStream w r l h.
Proof.
  intros Hi Hc. unfold step_spec. cbn [step accepted lost_by drops_stream negb received_item].
  rewrite andb_false_r, !app_nil_r. destruct (hd_stream h) eqn:Est.
  2: { exists ONothing, h. cbn [received_item]. rewrite !app_nil_r. by split_and!. }
  pose proof Hi as [Eb Ep Ee Hg Hq]. destruct (mp_drop_receiver_law (hd_chan h)) as [Eq Ends].
  exists ONothing, (McapStream_drop h). cbn [received_item]. rewrite app_nil_r.
  split_and!; [done|done| |done|done|done|done].
  split; cbn; [|done| |done|done].
  - unfold in_transit in *. cbn. rewrite Eq. by apply (accounts_lose _ _ []).
  - rewrite Ends. unfold ends_of in Ee. congruence.
Qed.

Lemma stream_step_ok op w r l h :
  stream_inv w r l h → closing_ok h → Z.of_nat (length (w ++ accepted op h)) < 2 ^ 64 →
  step_spec op w r l h.
Proof.
  intros Hi Hc Hlen. destruct op.
  - by apply stream_write_step.
  - by apply stream_flush_step.
  - by apply stream_close_step.
  - by apply stream_drop_step.
  - by apply stream_poll_step.
  - by apply stream_cancel_step.
  - by apply stream_recv_step.
  - by apply stream_gone_step.
Qed.

(** A handle that is gone does nothing more; the stream only drains. *)
Definition ended (h : Handle) : Prop := hd_open h = false ∧ mp_queue (hd_chan h) = [].

Lemma stream_end_step op w r l h o h' :
  stream_inv w r l h → hd_open h = false → step op h = Ok (o, h') →
  hd_open h' = false ∧ ends o = false ∧ (ended h → ended h') ∧
  (drops_stream op = false → lost_by op h = []).
Proof.
  intros Hi Ho Hs. destruct (si_gone _ _ _ _ Hi Ho) as (Hb & Hw & Hwr).
  assert (idle h = false) as Hid by (unfold idle; by rewrite Ho).
  assert (drops_stream op = false → lost_by op h = []) as Hlost.
  { destruct op; cbn; rewrite ?Hid; unfold waiting_bytes; rewrite ?Hw; try done. by destruct (hd_stream h). }
  assert (op = OpRecv ∨ op = OpDropStream ∨ (o, h') = (ONothing, h)) as [->|[->|[= -> ->]]]; [| | |done].
  { destruct op; cbn in Hs; unfold cancel in Hs; rewrite ?Hid, ?Hw, ?Hwr in Hs;
      (by left) || (by right; left) || (right; right; congruence). }
  - cbn in Hs. destruct (hd_stream h); [|by injection Hs as <- <-]. unfold poll_next in Hs.
    pose proof (mp_poll_recv_law (hd_chan h)) as Hr.
    destruct (mp_poll_recv (hd_chan h)) as [p c]. destruct Hr as (Eq & _ & _). unfold ended.
    destruct p; injection Hs as <- <-; cbn; (split_and!; [done|done| |done]; intros [_ E]; by rewrite Eq, E).
  - cbn in Hs. destruct (hd_stream h); injection Hs as <- <-; [|done].
    split_and!; [done|done| |done]. intros _. split; [done|]. apply (mp_drop_receiver_law (hd_chan h)).
Qed.

Definition run_spec (ops : list Op) (w r l : list byte) (h : Handle) : Prop :=
  ∃ outs h', run ops h = Ok (outs, h') ∧
    stream_inv (w ++ written ops h) (r ++ received outs) (l ++ lost ops h) h' ∧
    (OReceived None ∈ outs → ended h') ∧
    (hd_open h = false → Forall (λ o, ends o = false) outs ∧ (ended h → ended h') ∧
       (Forall (λ op, drops_stream op = false) ops → lost ops h = [])) ∧
    (hd_stream h = true → Forall (λ op, drops_stream op = false ∧ cancels op = false) ops →
      lost ops h ≠ [] → ODropped false ∈ outs ∧ ∀ res, OClosed res ∉ outs).

Lemma run_ok ops w r l h :
  stream_inv w r l h → closing_ok h → Z.of_nat (length (w ++ written ops h)) < 2 ^ 64 →
  run_spec ops w r l h.
Proof.
  unfold run_spec, written, lost. revert w r l h.
  induction ops as [|op ops IH]; intros w r l h Hi Hc Hlen; cbn [run over_run] in *.
  { exists [], h. rewrite !app_nil_r. split_and!; [done|done| |done|done]. by intros ?%not_elem_of_nil. }
  assert (Z.of_nat (length (w ++ accepted op h)) < 2 ^ 64) as Hl1.
  { rewrite app_assoc, length_app in Hlen. lia. }
  destruct (stream_step_ok op w r l h Hi Hc Hl1) as (o & h1 & E & Hc1 & Hi1 & Hcl & Hend & Hst & Hlost).
  rewrite E in *. rewrite app_assoc in Hlen.
  destruct (IH _ _ _ h1 Hi1 Hc1 Hlen) as (outs & h2 & E2 & Hi2 & Hend2 & Hgone & Hone).
  cbn [mbind result_bind]. rewrite E2. cbn [mbind result_bind].
  exists (o :: outs), h2. split_and!; [done| | | |].
  - unfold received in *. cbn [mbind list_bind]. by rewrite !app_assoc.
  - intros [Ho|Hin]%elem_of_cons; [|auto]. symmetry in Ho. by apply Hgone; apply Hend in Ho as [? ?].
  - intros Ho. destruct (stream_end_step _ _ _ _ _ _ _ Hi Ho E) as (Ho1 & Hn & He1 & Hl0).
    destruct (Hgone Ho1) as (Hf & He2 & Hl2). split_and!; [by constructor|auto|].
    intros [Hd Hds]%Forall_cons. by rewrite Hl0, Hl2.
  - intros Hs [[Hd Hca] Hall]%Forall_cons Hne. rewrite Hd, andb_true_r, Hs in Hst.
    assert (Forall (λ op, drops_stream op = false) ops) as Hds
      by (eapply Forall_impl; [exact Hall|]; by intros ? [? _]).
    assert (ends o = true → Forall (λ o, ends o = false) outs ∧ over_run lost_by ops h1 = []) as Hlast.
    { intros Ho. destruct (Hgone (Hcl Ho)) as (? & _ & Hl2). auto. }
    destruct (decide (lost_by op h = [])) as [El|El].
    + rewrite El in Hne. destruct (Hone Hst Hall Hne) as [Hin Hno]. split; [by right|].
      intros res [<-|Hin']%elem_of_cons; [|by eapply Hno]. by destruct (Hlast eq_refl) as [_ ?].
    + rewrite (Hlost Hs Hd Hca El) in *. split; [left|]. intros res [?|Hin]%elem_of_cons; [done|].
      destruct (Hlast eq_refl) as [Hf _]. rewrite Forall_forall in Hf. by specialize (Hf _ Hin).
Qed.

(** C26: bytes of an MCAP stream.  Whatever the order of the writer's writes, the
    handle's flushes, its close or drop, the reader's polls, dropped futures of flushes
    and closes, and the drop of the stream, and wherever a flush waits for room, as long
    as fewer than 2^64 bytes are written: nothing fails, and the bytes written are, in
    order and each once, those that were received or lost and then those on their way
    (in the channel, with a waiting flush, in the buffer) or lost.  Those lost are exactly
    the ones of dropped futures, those in the channel when the stream is dropped and
    those sent to it later, and the last ones of a handle that is dropped while the
    channel is full ([lost]); without dropped futures and with the stream alive only the
    last kind, never when the handle is closed.  The position the writer sees is the
    number of bytes written; and once the reader has been told the stream is over,
    nothing is on its way. *)
Theorem stream_conserves ops :
  Z.of_nat (length (written ops create_mcap_stream)) < 2 ^ 64 →
  ∃ outs h, run ops create_mcap_stream = Ok (outs, h) ∧
    accounts (written ops create_mcap_stream) (received outs) (in_transit h) (lost ops create_mcap_stream) ∧
    in_position (hd_inner h) = Z.of_nat (length (written ops create_mcap_stream)) ∧
    (Forall (λ op, op ≠ OpCancel ∧ op ≠ OpDropStream) ops → lost ops create_mcap_stream ≠ [] →
      ODropped false ∈ outs ∧ ∀ res, OClosed res ∉ outs) ∧
    (OReceived None ∈ outs → in_transit h = []).
Proof.
  intros Hlen. destruct (run_ok ops [] [] [] create_mcap_stream create_inv I Hlen)
    as (outs & h & E & Hi & Hend & _ & Hone).
  exists outs, h. split_and!; [done|apply Hi|apply Hi| |].
  - intros Hall. apply Hone; [done|]. eapply Forall_impl; [exact Hall|]. intros op [? ?]. by destruct op.
  - intros Hin. destruct (Hend Hin) as [Ho Hq]. destruct (si_gone _ _ _ _ Hi Ho) as (Eb & Ew & _).
    unfold in_transit, waiting_bytes. by rewrite Hq, Ew, Eb.
Qed.
End stream.

(** ** A channel with these laws *)

Record RefChan := { rc_queue : list (list byte); rc_capacity : nat; rc_sender : bool; rc_receiver : bool }.
Definition rc_set (q : list (list byte)) (c : RefChan) : RefChan :=
  {| rc_queue := q; rc_capacity := rc_capacity c; rc_sender := rc_sender c; rc_receiver := rc_receiver c |}.
Definition rc_room (c : RefChan) : bool := (length (rc_queue c) <? rc_capacity c)%nat.

#[export] Instance mpsc_ref : Mpsc := {|
  mp_chan := RefChan;
  mp_channel n := {| rc_queue := []; rc_capacity := n; rc_sender := true; rc_receiver := true |};
  mp_poll_send m c :=
    if rc_receiver c then
      if rc_room c then (Ready (Ok tt), rc_set (rc_queue c ++ [m]) c) else (Pending, c)
    else (Ready (Err tt), c);
  mp_try_send m c :=
    if rc_receiver c && rc_room c then (Ok tt, rc_set (rc_queue c ++ [m]) c) else (Err tt, c);
  mp_poll_recv c :=
    (match rc_queue c with
     | m :: _ => Ready (Some m)
     | [] => if rc_sender c then Pending else Ready None
     end, rc_set (tail (rc_queue c)) c);
  mp_drop_sender c :=
    {| rc_queue := rc_queue c; rc_capacity := rc_capacity c; rc_sender := false;
       rc_receiver := rc_receiver c |};
  mp_drop_receiver c :=
    {| rc_queue := []; rc_capacity := rc_capacity c; rc_sender := rc_sender c; rc_receiver := false |};
  mp_queue := rc_queue;
  mp_capacity := rc_capacity;
  mp_senders := rc_sender;
  mp_receiver := rc_receiver
|}.

#[export] Instance mpsc_ref_laws : MpscLaws.
Proof.
  split; cbn -[Nat.ltb]; unfold ends_of, rc_room; cbn -[Nat.ltb]; intros.
  - done.
  - destruct (rc_receiver c) eqn:Er; [|done].
    destruct (length (rc_queue c) <? rc_capacity c)%nat; cbn; rewrite ?Er; done.
  - by destruct (rc_receiver c && _).
  - done.
  - done.
  - done.
Qed.

(** Two writes around a flush that waits, a close, and a reader who reads it all. *)
Definition demo : list Op :=
  [OpWrite [Byte.x01; Byte.x02]; OpFlush; OpWrite [Byte.x03]; OpFlush; OpWrite [Byte.x04]; OpRecv; OpPoll;
   OpClose [[Byte.x05]] None; OpRecv; OpPoll; OpRecv; OpRecv].

(** A flush that waits is given up, and later the stream is dropped. *)
Definition demo_losses : list Op :=
  [OpWrite [Byte.x01]; OpFlush; OpWrite [Byte.x02]; OpFlush; OpCancel; OpWrite [Byte.x03]; OpRecv; OpFlush;
   OpDropStream; OpWrite [Byte.x04]; OpFlush].

Lemma stream_conserves_witness :
  written demo create_mcap_stream = [Byte.x01; Byte.x02; Byte.x03; Byte.x04; Byte.x05] ∧
  (∃ outs h, run demo create_mcap_stream = Ok (outs, h) ∧
    accounts (written demo create_mcap_stream) (received outs) (in_transit h) (lost demo create_mcap_stream)) ∧
  lost demo create_mcap_stream = [] ∧
  lost demo_losses create_mcap_stream = [Byte.x02; Byte.x03; Byte.x04].
Proof.
  split; [vm_compute; reflexivity|]. split; [|split; vm_compute; reflexivity].
  destruct (stream_conserves (H:=mpsc_ref) demo eq_refl) as (outs & h & E & Ha & _).
  exists outs, h. split; [exact E|exact Ha].
Defined.
