(* ===== verification/CError.v ===== *)
(** * CError: the error codes of the C API

    [FoxgloveError] of `src/c/src/lib.rs` (here [CError]: the library's own error
    type has the same name), the conversion from the library's errors, and the
    strings of [foxglove_error_to_cstr]. *)

From S2P Require Import Prelude Channel.

Inductive CError :=
| COk | CUnspecified | CValueError | CUtf8Error | CSinkClosed | CSchemaRequired
| CMessageEncodingRequired | CServerAlreadyStarted | CBind | CDuplicateService
| CMissingRequestEncoding | CServicesNotSupported | CConnectionGraphNotSupported | CIoError
| CMcapError | CEncodeError | CBufferTooShort | CBase64DecodeError.

(** [From<foxglove::FoxgloveError> for FoxgloveError]. *)
Definition CError_from (error : FoxgloveError) : CError :=
  match error with
  | ValueError _ => CValueError
  | FoxgloveUtf8Error _ => CUtf8Error
  | SinkClosed => CSinkClosed
  | SchemaRequired => CSchemaRequired
  | MessageEncodingRequired => CMessageEncodingRequired
  | ServerAlreadyStarted => CServerAlreadyStarted
  | Bind _ => CBind
  | DuplicateService _ => CDuplicateService
  | MissingRequestEncoding _ => CMissingRequestEncoding
  | ServicesNotSupported => CServicesNotSupported
  | ConnectionGraphNotSupported => CConnectionGraphNotSupported
  | IoError _ => CIoError
  | McapError _ => CMcapError
  | EncodeError _ => CEncodeError
  | _ => CUnspecified
  end.

(** [result_to_c]: the code, and what is stored through a non-null [out_ptr]. *)
Definition result_to_c {T} (result : result FoxgloveError T) (out_ptr_null : bool)
    : Prelude.result FoxgloveError (CError * option T) :=
  match result with
  | Ok value => Ok (COk, if out_ptr_null then None else Some value)
  | Err e => Ok (CError_from e, None)
  | Panic => Panic
  end.

Definition to_cstr (error : CError) : string :=
  match error with
  | COk => "Ok"
  | CValueError => "Value Error"
  | CUtf8Error => "UTF-8 Error"
  | CSinkClosed => "Sink Closed"
  | CSchemaRequired => "Schema Required"
  | CMessageEncodingRequired => "Message Encoding Required"
  | CServerAlreadyStarted => "Server Already Started"
  | CBind => "Bind Error"
  | CDuplicateService => "Duplicate Service"
  | CMissingRequestEncoding => "Missing Request Encoding"
  | CServicesNotSupported => "Services Not Supported"
  | CConnectionGraphNotSupported => "Connection Graph Not Supported"
  | CIoError => "IO Error"
  | CMcapError => "MCAP Error"
  | CEncodeError => "Encode Error"
  | CBufferTooShort => "Buffer too short"
  | CBase64DecodeError => "Base64 decode error"
  | CUnspecified => "Unspecified Error"
  end.
