(* ===== verification/CParameter.v ===== *)
(** * CParameter: parameters in the C API

    `src/c/src/parameter.rs` and the strings of `src/c/src/lib.rs`: parameters,
    values, arrays and dictionaries that C code owns through raw pointers.  A Rust
    value is modelled where it is: inline in its owner, or in a block of the heap (a
    box, the buffer of a [Vec] or of a string).  The contents of a tagged union are
    a constructor.  Moving a value out of a [ManuallyDrop] moves it and frees
    nothing; [drop] frees what the value owns.

    The operations on values recurse through the heap, with fuel; [with_fuel]
    gives the number of blocks of the heap, which is enough. *)

From S2P Require Import Prelude Bytes Messages CError Advertise HeapLogic.
From iris.proofmode Require Import proofmode.

(** ** Data *)

(** The raw parts of a [Vec]; a vector without capacity has no block. *)
Record RawVec := { rv_ptr : loc; rv_len : nat; rv_cap : nat }.
(** [FoxgloveStringBuf]: its capacity is its length. *)
Record CStr := { cs_ptr : loc; cs_len : nat }.

Inductive FoxgloveParameterType := TNone | TByteArray | TFloat64 | TFloat64Array.
Inductive FoxgloveParameterValue :=
| CFloat64 (bits : Z)
| CInteger (i : Z)
| CBoolean (b : bool)
| CString (s : CStr)
| CArray (a : RawVec)
| CDict (d : RawVec).
Record FoxgloveParameterValueDictEntry := { ce_key : CStr; ce_value : loc }.
(** A null value pointer is [None]. *)
Record FoxgloveParameter := {
  cp_name : CStr;
  cp_type : FoxgloveParameterType;
  cp_value : option loc
}.
Abbreviation CValue := FoxgloveParameterValue.
Abbreviation CEntry := FoxgloveParameterValueDictEntry.
Abbreviation CParam := FoxgloveParameter.

Inductive Block :=
| BText (s : string)
| BValues (cap : nat) (l : list CValue)
| BEntries (cap : nat) (l : list CEntry)
| BParams (cap : nat) (l : list CParam)
| BValue (v : CValue)
| BParam (p : CParam)
| BArrayBox (a : RawVec)
| BDictBox (d : RawVec)
| BParamsBox (a : RawVec).
Abbreviation M := (HeapLogic.M Block).

Definition as_text (b : Block) : option string := match b with BText s => Some s | _ => None end.
Definition as_value (b : Block) : option CValue := match b with BValue v => Some v | _ => None end.
Definition as_param (b : Block) : option CParam := match b with BParam p => Some p | _ => None end.
Definition as_array (b : Block) : option RawVec := match b with BArrayBox a => Some a | _ => None end.
Definition as_dict (b : Block) : option RawVec := match b with BDictBox d => Some d | _ => None end.
Definition as_params (b : Block) : option RawVec := match b with BParamsBox a => Some a | _ => None end.

(** ** Boxes, vectors and strings *)

Definition expect {A} (o : option A) : M A :=
  match o with Some a => mret a | None => fault BadAccess end.

Definition Box_read {A} (un : Block → option A) (l : loc) : M A := b ← load l; expect (un b).
(** [*b] for a box [b]. *)
Definition Box_take {A} (un : Block → option A) (l : loc) : M A :=
  a ← Box_read un l; _ ← dealloc l; mret a.
Definition Box_drop {A} (un : Block → option A) (drop : A → M unit) (l : loc) : M unit :=
  a ← Box_read un l; _ ← drop a; dealloc l.

(** The element types of vectors. *)
Class VecElem (A : Type) := {
  vec_block : nat → list A → Block;
  vec_parts : Block → option (nat * list A);
  elem_size : Z;
  vec_parts_block : ∀ c l, vec_parts (vec_block c l) = Some (c, l)
}.
#[export] Instance value_elem : VecElem CValue :=
  {| vec_block := BValues; elem_size := 32; vec_parts_block c l := eq_refl;
     vec_parts b := match b with BValues c l => Some (c, l) | _ => None end |}.
#[export] Instance entry_elem : VecElem CEntry :=
  {| vec_block := BEntries; elem_size := 24; vec_parts_block c l := eq_refl;
     vec_parts b := match b with BEntries c l => Some (c, l) | _ => None end |}.
#[export] Instance param_elem : VecElem CParam :=
  {| vec_block := BParams; elem_size := 32; vec_parts_block c l := eq_refl;
     vec_parts b := match b with BParams c l => Some (c, l) | _ => None end |}.

Section vectors.
Context {A : Type} `{VecElem A}.

(** A vector with the elements [l] and room for [cap]. *)
Definition vec_new (cap : nat) (l : list A) : M RawVec :=
  if decide (cap = 0%nat) then mret {| rv_ptr := 1; rv_len := length l; rv_cap := 0 |}
  else p ← alloc (vec_block cap l); mret {| rv_ptr := p; rv_len := length l; rv_cap := cap |}.
(** [Vec::with_capacity] panics when the capacity exceeds [isize::MAX] bytes. *)
Definition vec_with_capacity (n : nat) : M RawVec :=
  if decide (Z.of_nat n * elem_size < 2 ^ 63)%Z then vec_new n [] else panic.

(** [Vec::from_raw_parts]: the elements, which the vector then owns. *)
Definition from_raw_parts (ptr : loc) (len cap : nat) : M (list A) :=
  if decide (cap = 0%nat) then if decide (len = 0%nat) then mret [] else fault BadLayout
  else
    b ← load ptr;
    '(c, l) ← expect (vec_parts b);
    if decide (c = cap ∧ len ≤ length l)%nat then mret (take len l) else fault BadLayout.
(** The buffer of a vector whose elements are gone. *)
Definition vec_dealloc (ptr : loc) (cap : nat) : M unit :=
  if decide (cap = 0%nat) then mret tt else dealloc ptr.

(** [Vec::push] grows the buffer when it is full. *)
Definition grown (len cap : nat) : nat := (2 * cap) `max` (S len `max` 4).
Definition raw_vec_push (v : RawVec) (a : A) : M RawVec :=
  l ← from_raw_parts (rv_ptr v) (rv_len v) (rv_cap v);
  if decide (rv_len v < rv_cap v)%nat then
    _ ← store (rv_ptr v) (vec_block (rv_cap v) (l ++ [a]));
    mret {| rv_ptr := rv_ptr v; rv_len := S (rv_len v); rv_cap := rv_cap v |}
  else
    let cap := grown (rv_len v) (rv_cap v) in
    p ← alloc (vec_block cap (l ++ [a]));
    _ ← vec_dealloc (rv_ptr v) (rv_cap v);
    mret {| rv_ptr := p; rv_len := S (rv_len v); rv_cap := cap |}.
(** [raw_vec_clone], with the [Clone] of the elements; a slice iterator collects into
    a vector of its exact length. *)
Definition raw_vec_clone (clone : A → M A) (v : RawVec) : M RawVec :=
  l ← from_raw_parts (rv_ptr v) (rv_len v) (rv_cap v);
  l ← collect clone l;
  vec_new (length l) l.
(** Dropping a vector, and consuming it element by element. *)
Definition vec_drop (drop : A → M unit) (v : RawVec) : M unit :=
  l ← from_raw_parts (rv_ptr v) (rv_len v) (rv_cap v);
  _ ← for_each drop l;
  vec_dealloc (rv_ptr v) (rv_cap v).
Definition vec_into_iter {C} (f : A → M C) (ptr : loc) (len cap : nat) : M (list C) :=
  l ← from_raw_parts ptr len cap;
  cs ← collect f l;
  _ ← vec_dealloc ptr cap;
  mret cs.
End vectors.

(** [FoxgloveStringBuf] *)
Definition StringBuf_new (s : string) : M CStr :=
  if decide (s = ""%string) then mret {| cs_ptr := 1; cs_len := 0 |}
  else p ← alloc (BText s); mret {| cs_ptr := p; cs_len := String.length s |}.
Definition StringBuf_as_str (s : CStr) : M string :=
  if decide (cs_len s = 0%nat) then mret ""%string
  else
    str ← Box_read as_text (cs_ptr s);
    if decide (String.length str = cs_len s) then mret str else fault BadLayout.
Definition StringBuf_into_string (s : CStr) : M string :=
  str ← StringBuf_as_str s;
  _ ← vec_dealloc (cs_ptr s) (cs_len s);
  mret str.
Definition StringBuf_clone (s : CStr) : M CStr := str ← StringBuf_as_str s; StringBuf_new str.
Definition StringBuf_drop (s : CStr) : M unit := _ ← StringBuf_into_string s; mret tt.

(** ** Types *)

Definition Type_from (t : option ParameterType) : FoxgloveParameterType :=
  match t with
  | Some ByteArray => TByteArray
  | Some Float64 => TFloat64
  | Some Float64Array => TFloat64Array
  | None => TNone
  end.
Definition Type_to_native (t : FoxgloveParameterType) : option ParameterType :=
  match t with
  | TNone => None
  | TByteArray => Some ByteArray
  | TFloat64 => Some Float64
  | TFloat64Array => Some Float64Array
  end.

(** ** Values *)

(** [BTreeMap]'s [collect]: sorted by key, the last entry of a key wins. *)
Fixpoint btree_insert {V} (k : string) (v : V) (m : list (string * V)) : list (string * V) :=
  match m with
  | [] => [(k, v)]
  | (k', v') :: m =>
    match String.compare k k' with
    | Lt => (k, v) :: (k', v') :: m
    | Eq => (k, v) :: m
    | Gt => (k', v') :: btree_insert k v m
    end
  end.
Definition btree_collect {V} (l : list (string * V)) : list (string * V) :=
  foldl (λ m '(k, v), btree_insert k v m) [] l.

Section recursive.
Context (value_drop : CValue → M unit) (value_clone : CValue → M CValue)
  (value_into_native : CValue → M ParameterValue).

Definition Entry_drop (e : CEntry) : M unit :=
  _ ← StringBuf_drop (ce_key e); Box_drop as_value value_drop (ce_value e).
Definition Entry_new (key : string) (value : loc) : M CEntry :=
  k ← StringBuf_new key; mret {| ce_key := k; ce_value := value |}.
Definition Entry_clone (e : CEntry) : M CEntry :=
  v ← Box_read as_value (ce_value e);
  key ← StringBuf_as_str (ce_key e);
  v ← value_clone v;
  l ← alloc (BValue v);
  Entry_new key l.
Definition Entry_into_native (e : CEntry) : M (string * ParameterValue) :=
  v ← Box_take as_value (ce_value e);
  v ← value_into_native v;
  key ← StringBuf_into_string (ce_key e);
  mret (key, v).

(** [FoxgloveParameterValueArray::into_native] rebuilds the vector with its length
    as its capacity. *)
Definition Array_into_native (a : RawVec) : M (list ParameterValue) :=
  vec_into_iter value_into_native (rv_ptr a) (rv_len a) (rv_len a).
Definition Dict_into_native (d : RawVec) : M (list (string * ParameterValue)) :=
  l ← vec_into_iter Entry_into_native (rv_ptr d) (rv_len d) (rv_cap d);
  mret (btree_collect l).
End recursive.

Fixpoint Value_drop (n : nat) (v : CValue) : M unit :=
  match n with
  | 0%nat => fault OutOfFuel
  | S n =>
    match v with
    | CFloat64 _ | CInteger _ | CBoolean _ => mret tt
    | CString s => StringBuf_drop s
    | CArray a => vec_drop (Value_drop n) a
    | CDict d => vec_drop (Entry_drop (Value_drop n)) d
    end
  end.
Fixpoint Value_clone (n : nat) (v : CValue) : M CValue :=
  match n with
  | 0%nat => fault OutOfFuel
  | S n =>
    match v with
    | CFloat64 _ | CInteger _ | CBoolean _ => mret v
    | CString s => s ← StringBuf_clone s; mret (CString s)
    | CArray a => a ← raw_vec_clone (Value_clone n) a; mret (CArray a)
    | CDict d => d ← raw_vec_clone (Entry_clone (Value_clone n)) d; mret (CDict d)
    end
  end.
Fixpoint Value_into_native (n : nat) (v : CValue) : M ParameterValue :=
  match n with
  | 0%nat => fault OutOfFuel
  | S n =>
    match v with
    | CFloat64 x => mret (PFloat64 x)
    | CInteger i => mret (PInteger i)
    | CBoolean b => mret (PBool b)
    | CString s => s ← StringBuf_into_string s; mret (PString s)
    | CArray a => l ← Array_into_native (Value_into_native n) a; mret (PArray l)
    | CDict d => l ← Dict_into_native (Value_into_native n) d; mret (PDict l)
    end
  end.

(** Collecting from a native [Vec] or [BTreeMap] may leave spare capacity. *)
Class Collect := { collect_cap : nat → nat; collect_cap_ge : ∀ n, (n ≤ collect_cap n)%nat }.

Section from_native.
Context `{Collect}.
(** The [FromIterator]s of the arrays and of the dictionary. *)
Definition vec_from {X A} `{VecElem A} (from : X → M A) (l : list X) : M RawVec :=
  l ← collect from l; vec_new (collect_cap (length l)) l.
Definition Entry_from (value_from : ParameterValue → M CValue) (kv : string * ParameterValue) : M CEntry :=
  v ← value_from kv.2; p ← alloc (BValue v); Entry_new kv.1 p.
Fixpoint Value_from (v : ParameterValue) : M CValue :=
  match v with
  | PFloat64 x => mret (CFloat64 x)
  | PInteger i => mret (CInteger i)
  | PBool b => mret (CBoolean b)
  | PString s => s ← StringBuf_new s; mret (CString s)
  | PArray l => a ← vec_from Value_from l; mret (CArray a)
  | PDict m => d ← vec_from (Entry_from Value_from) m; mret (CDict d)
  end.
End from_native.

(** ** Parameters *)

(** The name becomes a string of the heap, then the box becomes a raw pointer. *)
Definition Parameter_new (name : string) (ty : FoxgloveParameterType) (value : option loc) : M CParam :=
  s ← StringBuf_new name; mret {| cp_name := s; cp_type := ty; cp_value := value |}.
Definition Parameter_into_native (n : nat) (p : CParam) : M Param :=
  value ←
    match cp_value p with
    | Some l => v ← Box_take as_value l; v ← Value_into_native n v; mret (Some v)
    | None => mret None
    end;
  name ← StringBuf_into_string (cp_name p);
  mret {| p_name := name; p_type := Type_to_native (cp_type p); p_value := value |}.
Definition Parameter_clone (n : nat) (p : CParam) : M CParam :=
  value ←
    match cp_value p with
    | Some l => v ← Box_read as_value l; v ← Value_clone n v; l ← alloc (BValue v); mret (Some l)
    | None => mret None
    end;
  name ← StringBuf_clone (cp_name p);
  mret {| cp_name := name; cp_type := cp_type p; cp_value := value |}.
Definition Parameter_drop (n : nat) (p : CParam) : M unit :=
  _ ← StringBuf_drop (cp_name p);
  match cp_value p with Some l => Box_drop as_value (Value_drop n) l | None => mret tt end.
Definition get_byte_array_as_str (p : CParam) : M (option string) :=
  match cp_value p with
  | None => mret None
  | Some l =>
    v ← Box_read as_value l;
    match cp_type p, v with
    | TByteArray, CString s => str ← StringBuf_as_str s; mret (Some str)
    | _, _ => mret None
    end
  end.

Section from_native_parameter.
Context `{Collect}.
Definition Parameter_from (p : Param) : M CParam :=
  value ←
    match p_value p with
    | Some v => v ← Value_from v; l ← alloc (BValue v); mret (Some l)
    | None => mret None
    end;
  Parameter_new (p_name p) (Type_from (p_type p)) value.
Definition Params_from : list Param → M RawVec := vec_from Parameter_from.
End from_native_parameter.

Definition Params_into_native (n : nat) (a : RawVec) : M (list Param) :=
  vec_into_iter (Parameter_into_native n) (rv_ptr a) (rv_len a) (rv_cap a).

(** ** The C functions

    A C string is null or its bytes; a handle is null or a location; out
    parameters are results. *)

Abbreviation FoxgloveString := (option (list byte)).

Definition as_utf8_str (s : FoxgloveString) : option string :=
  match s with
  | None | Some [] => Some ""%string
  | Some bytes => from_utf8 bytes
  end.

Definition foxglove_parameter_value_create_float64 (x : Z) : M loc := alloc (BValue (CFloat64 x)).
Definition foxglove_parameter_value_create_integer (i : Z) : M loc := alloc (BValue (CInteger i)).
Definition foxglove_parameter_value_create_boolean (b : bool) : M loc := alloc (BValue (CBoolean b)).
Definition value_string (s : string) : M loc := s ← StringBuf_new s; alloc (BValue (CString s)).
(** [value]: whether the out pointer is given. *)
Definition foxglove_parameter_value_create_string (value : bool) (s : FoxgloveString) :
    M (CError * option loc) :=
  if negb value then mret (CValueError, None)
  else match as_utf8_str s with
       | None => mret (CUtf8Error, None)
       | Some s => l ← value_string s; mret (COk, Some l)
       end.
Definition foxglove_parameter_value_create_array (array : loc) : M loc :=
  a ← Box_take as_array array; alloc (BValue (CArray a)).
Definition foxglove_parameter_value_create_dict (dict : loc) : M loc :=
  d ← Box_take as_dict dict; alloc (BValue (CDict d)).
Definition foxglove_parameter_value_clone (value : option loc) : M (option loc) :=
  match value with
  | Some l =>
    v ← Box_read as_value l;
    v ← with_fuel (λ n, Value_clone n v);
    l ← alloc (BValue v); mret (Some l)
  | None => mret None
  end.
Definition foxglove_parameter_value_free (value : option loc) : M unit :=
  match value with
  | Some l => with_fuel (λ n, Box_drop as_value (Value_drop n) l)
  | None => mret tt
  end.

Definition foxglove_parameter_value_array_create (capacity : nat) : M loc :=
  a ← vec_with_capacity (A:=CValue) capacity; alloc (BArrayBox a).
Definition foxglove_parameter_value_array_push (array value : option loc) : M CError :=
  match value with
  | None => mret CValueError
  | Some l =>
    match array with
    | Some array =>
      a ← Box_read as_array array;
      v ← Box_take as_value l;
      a ← raw_vec_push a v;
      _ ← store array (BArrayBox a); mret COk
    | None => _ ← with_fuel (λ n, Box_drop as_value (Value_drop n) l); mret CValueError
    end
  end.
Definition foxglove_parameter_value_array_free (array : option loc) : M unit :=
  match array with
  | Some l => with_fuel (λ n, Box_drop as_array (vec_drop (Value_drop n)) l)
  | None => mret tt
  end.

Definition foxglove_parameter_value_dict_create (capacity : nat) : M loc :=
  d ← vec_with_capacity (A:=CEntry) capacity; alloc (BDictBox d).
Definition foxglove_parameter_value_dict_insert (dict : option loc) (key : FoxgloveString)
    (value : option loc) : M CError :=
  match value with
  | None => mret CValueError
  | Some l =>
    match dict with
    | None => _ ← with_fuel (λ n, Box_drop as_value (Value_drop n) l); mret CValueError
    | Some dict =>
      match as_utf8_str key with
      | None => _ ← with_fuel (λ n, Box_drop as_value (Value_drop n) l); mret CUtf8Error
      | Some key =>
        e ← Entry_new key l;
        d ← Box_read as_dict dict;
        d ← raw_vec_push d e;
        _ ← store dict (BDictBox d); mret COk
      end
    end
  end.
Definition foxglove_parameter_value_dict_free (dict : option loc) : M unit :=
  match dict with
  | Some l => with_fuel (λ n, Box_drop as_dict (vec_drop (Entry_drop (Value_drop n))) l)
  | None => mret tt
  end.

(** [param]: whether the out pointer is given. *)
Definition foxglove_parameter_create (param : bool) (name : FoxgloveString)
    (ty : FoxgloveParameterType) (value : option loc) : M (CError * option loc) :=
  let free := match value with
    | Some l => with_fuel (λ n, Box_drop as_value (Value_drop n) l)
    | None => mret tt
    end in
  if negb param then _ ← free; mret (CValueError, None)
  else match as_utf8_str name with
       | None => _ ← free; mret (CUtf8Error, None)
       | Some name => p ← Parameter_new name ty value; l ← alloc (BParam p); mret (COk, Some l)
       end.
Definition foxglove_parameter_create_empty (param : bool) (name : FoxgloveString) :=
  foxglove_parameter_create param name TNone None.
Definition foxglove_parameter_create_float64 (param : bool) (name : FoxgloveString) (x : Z) :=
  l ← foxglove_parameter_value_create_float64 x;
  foxglove_parameter_create param name TFloat64 (Some l).
Definition foxglove_parameter_create_integer (param : bool) (name : FoxgloveString) (i : Z) :=
  l ← foxglove_parameter_value_create_integer i;
  foxglove_parameter_create param name TNone (Some l).
Definition foxglove_parameter_create_boolean (param : bool) (name : FoxgloveString) (b : bool) :=
  l ← foxglove_parameter_value_create_boolean b;
  foxglove_parameter_create param name TNone (Some l).
Definition foxglove_parameter_create_string (param : bool) (name value : FoxgloveString) :
    M (CError * option loc) :=
  match as_utf8_str value with
  | None => mret (CUtf8Error, None)
  | Some s => l ← value_string s; foxglove_parameter_create param name TNone (Some l)
  end.

(** A vector of plain values, collected from a slice. *)
Definition value_array (vs : list CValue) : M loc :=
  a ← vec_new (length vs) vs; alloc (BValue (CArray a)).
Definition foxglove_parameter_create_float64_array (param : bool) (name : FoxgloveString)
    (values : list Z) : M (CError * option loc) :=
  l ← value_array (CFloat64 <$> values); foxglove_parameter_create param name TFloat64Array (Some l).
Definition foxglove_parameter_create_integer_array (param : bool) (name : FoxgloveString)
    (values : list Z) : M (CError * option loc) :=
  l ← value_array (CInteger <$> values); foxglove_parameter_create param name TNone (Some l).
Definition foxglove_parameter_create_dict (param : bool) (name : FoxgloveString) (dict : loc) :
    M (CError * option loc) :=
  l ← foxglove_parameter_value_create_dict dict; foxglove_parameter_create param name TNone (Some l).

Definition foxglove_parameter_clone (param : option loc) : M (option loc) :=
  match param with
  | Some l =>
    p ← Box_read as_param l;
    p ← with_fuel (λ n, Parameter_clone n p);
    l ← alloc (BParam p); mret (Some l)
  | None => mret None
  end.
Definition foxglove_parameter_free (param : option loc) : M unit :=
  match param with
  | Some l => with_fuel (λ n, Box_drop as_param (Parameter_drop n) l)
  | None => mret tt
  end.

Definition foxglove_parameter_array_create (capacity : nat) : M loc :=
  a ← vec_with_capacity (A:=CParam) capacity; alloc (BParamsBox a).
Definition foxglove_parameter_array_push (array param : option loc) : M CError :=
  match param with
  | None => mret CValueError
  | Some l =>
    match array with
    | Some array =>
      a ← Box_read as_params array;
      p ← Box_take as_param l;
      a ← raw_vec_push a p;
      _ ← store array (BParamsBox a); mret COk
    | None => _ ← with_fuel (λ n, Box_drop as_param (Parameter_drop n) l); mret CValueError
    end
  end.
Definition foxglove_parameter_array_free (array : option loc) : M unit :=
  match array with
  | Some l => with_fuel (λ n, Box_drop as_params (vec_drop (Parameter_drop n)) l)
  | None => mret tt
  end.

Section byte_arrays.
Context `{Base64}.

Definition foxglove_parameter_create_byte_array (param : bool) (name : FoxgloveString)
    (value : list byte) : M (CError * option loc) :=
  l ← value_string (base64_encode value); foxglove_parameter_create param name TByteArray (Some l).

(** base64's estimate of the decoded length, and its decoding into a slice, which
    panics when the slice is too short. *)
Class Base64Slice := {
  decoded_len_estimate : nat → nat;
  decode_slice_unchecked : string → nat → result string (list byte)
}.
Context `{Base64Slice}.

Definition foxglove_parameter_get_byte_array_decoded_size (param : option loc) :
    M (CError * option nat) :=
  match param with
  | None => mret (CValueError, None)
  | Some l =>
    p ← Box_read as_param l;
    s ← get_byte_array_as_str p;
    mret match s with
         | None => (CValueError, None)
         | Some s => (COk, Some (decoded_len_estimate (String.length s)))
         end
  end.
(** [data]: whether the buffer is given; [len]: its size.  The result is what is
    written to the buffer. *)
Definition foxglove_parameter_decode_byte_array (param : option loc) (data : bool) (len : nat) :
    M (CError * list byte) :=
  match param with
  | None => mret (CValueError, [])
  | Some l =>
    p ← Box_read as_param l;
    s ← get_byte_array_as_str p;
    match s with
    | None => mret (CValueError, [])
    | Some s =>
      if decide (len < decoded_len_estimate (String.length s))%nat then mret (CBufferTooShort, [])
      else
        match decode_slice_unchecked s (if data then len else 0%nat) with
        | Ok written => mret (COk, written)
        | Err _ => mret (CBase64DecodeError, [])
        | Panic => panic
        end
    end
  end.
End byte_arrays.

(** [FoxgloveParameterArray::from_raw(l).into_native()]. *)
Definition Params_consume (l : loc) : M (list Param) :=
  a ← Box_take as_params l; with_fuel (λ n, Params_into_native n a).

(** `server.rs`: the array is consumed whatever the state of the server; an open one
    gets the parameters. *)
Inductive ServerHandle := NullServer | ClosedServer | OpenServer.
Definition foxglove_server_publish_parameter_values (server : ServerHandle) (params : option loc) :
    M (CError * option (list Param)) :=
  match params with
  | None => mret (CValueError, None)
  | Some l =>
    match server with
    | OpenServer =>
      ps ← Params_consume l;
      mret (COk, Some ps)
    | _ =>
      _ ← with_fuel (λ n, Box_drop as_params (vec_drop (Parameter_drop n)) l);
      mret (match server with NullServer => CValueError | _ => CSinkClosed end, None)
    end
  end.
