(* ===== verification/CParameterLogic.v ===== *)
(** * CParameterLogic: what the C parameters own

    For each structure of CParameter.v the abstract value it holds and the blocks it
    owns ([own_value] and its relatives), and for each operation on values its
    specification in the separation logic of HeapLogic.v: dropping frees exactly
    what is owned, cloning makes an independent equal value, converting to the
    native form frees the structure and returns what it held. *)

From S2P Require Import Prelude Bytes Messages Advertise HeapLogic CParameter.
From iris.proofmode Require Import proofmode.

(** ** What a structure holds *)

(** A value with the capacities of its vectors. *)
Inductive AValue :=
| AFloat64 (bits : Z)
| AInteger (i : Z)
| ABoolean (b : bool)
| AString (s : string)
| AArray (cap : nat) (l : list AValue)
| ADict (cap : nat) (l : list (string * AValue)).

Section induction.
Context (P : AValue → Prop) (Hf : ∀ x, P (AFloat64 x)) (Hi : ∀ i, P (AInteger i))
  (Hb : ∀ b, P (ABoolean b)) (Hs : ∀ s, P (AString s))
  (Ha : ∀ cap l, Forall P l → P (AArray cap l))
  (Hd : ∀ cap l, Forall (λ kv, P kv.2) l → P (ADict cap l)).
Fixpoint AValue_rect' (a : AValue) : P a :=
  match a with
  | AFloat64 x => Hf x
  | AInteger i => Hi i
  | ABoolean b => Hb b
  | AString s => Hs s
  | AArray cap l => Ha cap l ((fix go l := match l return Forall P l with
      | [] => Forall_nil_2 _ | a :: l => Forall_cons_2 _ _ _ (AValue_rect' a) (go l) end) l)
  | ADict cap l => Hd cap l ((fix go l := match l return Forall (λ kv, P kv.2) l with
      | [] => Forall_nil_2 _
      | (k, a) :: l => Forall_cons_2 (λ kv, P kv.2) (k, a) l (AValue_rect' a) (go l) end) l)
  end.
End induction.

Definition on_value {A C} (f : A → C) (kv : string * A) : string * C := (kv.1, f kv.2).

Fixpoint depth (a : AValue) : nat :=
  match a with
  | AArray _ l => S (list_max (map depth l))
  | ADict _ l => S (list_max (map (λ kv, depth kv.2) l))
  | _ => 1
  end.
Fixpoint native (a : AValue) : ParameterValue :=
  match a with
  | AFloat64 x => PFloat64 x
  | AInteger i => PInteger i
  | ABoolean b => PBool b
  | AString s => PString s
  | AArray _ l => PArray (map native l)
  | ADict _ l => PDict (btree_collect (map (λ kv, (kv.1, native kv.2)) l))
  end.
(** What [FoxgloveParameterValueArray::into_native] does to an array with spare
    capacity: one that has elements is rebuilt with a layout that is not its own, and
    the buffer of an empty one is forgotten. *)
Fixpoint convertible (a : AValue) : bool :=
  match a with
  | AArray cap l => (bool_decide (length l = cap) || bool_decide (length l = 0)) && forallb convertible l
  | ADict _ l => forallb (λ kv, convertible kv.2) l
  | _ => true
  end.
Fixpoint unfreed (a : AValue) : nat :=
  match a with
  | AArray cap l => (if decide (length l = cap) then 0 else 1) + list_sum (map unfreed l)
  | ADict _ l => list_sum (map (λ kv, unfreed kv.2) l)
  | _ => 0
  end.
(** A clone has no spare capacity. *)
Fixpoint fitted (a : AValue) : AValue :=
  match a with
  | AArray _ l => AArray (length l) (map fitted l)
  | ADict _ l => ADict (length l) (map (λ kv, (kv.1, fitted kv.2)) l)
  | _ => a
  end.

Abbreviation hp := (hPropI Block).

Definition own_str (c : CStr) (s : string) : hp :=
  (⟨cs_len c = String.length s⟩ ∗
   if decide (cs_len c = 0)%nat then emp else cs_ptr c ↦ BText s)%I.
Definition own_buf {A} `{VecElem A} (cap : nat) (l : list A) (v : RawVec) : hp :=
  (⟨rv_len v = length l ∧ rv_cap v = cap ∧ (length l ≤ cap)%nat⟩ ∗
   if decide (cap = 0)%nat then emp else rv_ptr v ↦ vec_block cap l)%I.

Definition own_list {X C} (own : X → C → hp) : list X → list C → hp :=
  fix go xs cs :=
    match xs, cs with
    | [], [] => emp%I
    | x :: xs, c :: cs => (own x c ∗ go xs cs)%I
    | _, _ => (⌜False⌝)%I
    end.
Definition own_vec {X C} `{VecElem C} (own : X → C → hp) (cap : nat) (xs : list X) (v : RawVec) : hp :=
  (∃ cs, own_buf cap cs v ∗ own_list own xs cs)%I.
Definition own_box {C} (mk : C → Block) (own : C → hp) (l : loc) : hp := (∃ c, l ↦ mk c ∗ own c)%I.
Definition own_entry (own : AValue → CValue → hp) (kv : string * AValue) (e : CEntry) : hp :=
  (own_str (ce_key e) kv.1 ∗ own_box BValue (own kv.2) (ce_value e))%I.

Fixpoint own_value (a : AValue) (v : CValue) : hp :=
  match a, v with
  | AFloat64 x, CFloat64 y => ⟨x = y⟩
  | AInteger i, CInteger j => ⟨i = j⟩
  | ABoolean b, CBoolean c => ⟨b = c⟩
  | AString s, CString c => own_str c s
  | AArray cap l, CArray r => own_vec own_value cap l r
  | ADict cap l, CDict r => own_vec (own_entry own_value) cap l r
  | _, _ => ⌜False⌝
  end%I.

(** ** Rules for boxes, strings and vectors *)

(** [step lem]: run the first operation of the program by the rule [lem]. *)
Tactic Notation "step" open_constr(lem) := iApply wp_bind; iApply lem.
Tactic Notation "step" open_constr(lem) "with" constr(H) := iApply wp_bind; iApply (lem with H).

Lemma wp_Box_read {A} (un : Block → option A) mk l (a : A) Q :
  un (mk a) = Some a → l ↦ mk a -∗ (l ↦ mk a -∗ Q a) -∗ wp (Box_read un l) Q.
Proof.
  iIntros (Hun) "Hl HQ". step wp_load with "Hl". iIntros "Hl". rw Hun. iApply wp_ret. by iApply "HQ".
Qed.
Lemma wp_Box_take {A} (un : Block → option A) mk l (a : A) Q :
  un (mk a) = Some a → l ↦ mk a -∗ Q a -∗ wp (Box_take un l) Q.
Proof.
  iIntros (Hun) "Hl HQ". step wp_Box_read with "Hl"; [done|]. iIntros "Hl".
  step wp_dealloc with "Hl". by iApply wp_ret.
Qed.
Lemma wp_Box_drop {A} (un : Block → option A) mk (own : A → hp) f l :
  (∀ a, un (mk a) = Some a) → (∀ a, own a ⊢ wp (f a) (λ _, emp)) →
  own_box mk own l ⊢ wp (Box_drop un f l) (λ _, emp).
Proof.
  iIntros (Hun Hf) "(%a & Hl & Ha)". step wp_Box_read with "Hl"; [done|]. iIntros "Hl".
  iApply wp_bind. iApply (wp_wand with "[Ha]"); [by iApply Hf|]. iIntros (_) "_".
  by iApply (wp_dealloc with "Hl").
Qed.

Lemma wp_StringBuf_new s : emp ⊢ wp (StringBuf_new s) (λ c, own_str c s).
Proof.
  iIntros "_". unfold StringBuf_new. destruct (decide (s = _)) as [->|Hs].
  { iApply wp_ret. unfold own_str. by iSplit. }
  step wp_alloc. iIntros (l) "Hl". iApply wp_ret. unfold own_str. iSplit; [done|]. cbn.
  rw decide_False; [done|]. by destruct s.
Qed.
Lemma wp_as_str c s Q : own_str c s -∗ (own_str c s -∗ Q s) -∗ wp (StringBuf_as_str c) Q.
Proof.
  iIntros "(%E & Hc) HQ". unfold StringBuf_as_str. destruct (decide (cs_len c = 0)%nat) as [E0|E0].
  - assert (s = ""%string) as ->. { rw E0 in E. by destruct s. }
    iApply wp_ret. iApply "HQ". unfold own_str. rw E0. by iSplit.
  - step wp_Box_read with "Hc"; [done|]. iIntros "Hc". rw decide_True; [|done]. iApply wp_ret.
    iApply "HQ". unfold own_str. rw (decide_False (P:=cs_len c = _)); [|done]. by iSplit.
Qed.
Lemma wp_into_string c s : own_str c s ⊢ wp (StringBuf_into_string c) (λ r, ⟨r = s⟩).
Proof.
  iIntros "Hc". step wp_as_str with "Hc". iIntros "(%E & Hc)". unfold vec_dealloc.
  destruct (decide (cs_len c = 0)%nat).
  - step wp_ret. by iApply wp_ret.
  - step wp_dealloc with "Hc". by iApply wp_ret.
Qed.
Lemma wp_StringBuf_drop c s : own_str c s ⊢ wp (StringBuf_drop c) (λ _, emp).
Proof.
  iIntros "Hc". iApply wp_bind. iApply (wp_wand with "[Hc]"); [by iApply wp_into_string|].
  iIntros (r) "_". by iApply wp_ret.
Qed.
Lemma wp_StringBuf_clone c s : own_str c s ⊢ wp (StringBuf_clone c) (λ d, own_str c s ∗ own_str d s).
Proof.
  iIntros "Hc". step wp_as_str with "Hc". iIntros "Hc".
  iApply (wp_wand with "[]"); [by iApply wp_StringBuf_new|]. iIntros (d) "Hd". iFrame.
Qed.

Section vectors.
Context {C : Type} `{VecElem C}.
Implicit Types (l : list C) (v : RawVec).

Lemma wp_vec_new cap l : length l ≤ cap → emp ⊢ wp (vec_new cap l) (own_buf cap l).
Proof.
  iIntros (Hle) "_". unfold vec_new. destruct (decide (cap = 0)%nat) as [->|Hc].
  - iApply wp_ret. unfold own_buf. cbn. iSplit; [by iPureIntro|done].
  - step wp_alloc. iIntros (p) "Hp". iApply wp_ret. unfold own_buf. cbn.
    iSplit; [by iPureIntro|]. by rw decide_False.
Qed.
Lemma wp_from_raw_parts cap l v Q :
  own_buf cap l v -∗ (own_buf cap l v -∗ Q l) -∗ wp (from_raw_parts (rv_ptr v) (rv_len v) cap) Q.
Proof.
  iIntros "(%E & Hv) HQ". destruct E as (El & Ec & Hle). unfold from_raw_parts.
  destruct (decide (cap = 0)%nat) as [->|Hc].
  - destruct l; [|cbn in Hle; lia]. rw decide_True; [|done]. iApply wp_ret. iApply "HQ".
    unfold own_buf. iSplit; [by iPureIntro|done].
  - step wp_load with "Hv". iIntros "Hv". rw vec_parts_block. step wp_ret.
    rw decide_True; [|lia]. iApply wp_ret. rw firstn_all2; [|lia]. iApply "HQ".
    unfold own_buf. iSplit; [by iPureIntro|]. by rw decide_False.
Qed.
Lemma wp_vec_dealloc cap l v Q : own_buf cap l v -∗ Q tt -∗ wp (vec_dealloc (rv_ptr v) cap) Q.
Proof.
  iIntros "(%E & Hv) HQ". unfold vec_dealloc. destruct (decide (cap = 0)%nat); [by iApply wp_ret|].
  by iApply (wp_dealloc with "Hv").
Qed.
Lemma own_buf_parts cap l v : own_buf cap l v ⊢ ⌜rv_len v = length l ∧ rv_cap v = cap⌝ ∧ own_buf cap l v.
Proof. iIntros "(%E & Hv)". iSplit; [iPureIntro; naive_solver|]. iSplit; [by iPureIntro|done]. Qed.

(** The capacity after a push. *)
Definition pushed (len cap : nat) : nat := if decide (len < cap) then cap else grown len cap.
Lemma wp_raw_vec_push cap l v a :
  own_buf cap l v ⊢ wp (raw_vec_push v a) (own_buf (pushed (length l) cap) (l ++ [a])).
Proof.
  iIntros "Hv". iDestruct (own_buf_parts with "Hv") as "[%E Hv]". destruct E as [El Ec].
  unfold raw_vec_push. rw Ec. step wp_from_raw_parts with "Hv". iIntros "Hv". unfold pushed.
  rw El. destruct (decide (length l < cap)) as [Hlt|Hge].
  - unfold own_buf. iDestruct "Hv" as "(_ & Hv)". rw decide_False; [|lia].
    step wp_store with "Hv". iIntros "Hv". iApply wp_ret. cbn. rw decide_False; [|lia].
    iFrame. iPureIntro. rw length_app. cbn. lia.
  - step wp_alloc. iIntros (p) "Hp". step wp_vec_dealloc with "Hv". iApply wp_ret. unfold own_buf. cbn.
    assert (grown (length l) cap ≠ 0) by (unfold grown; lia). rw decide_False; [|done].
    iFrame. iPureIntro. rw length_app. cbn. unfold grown. lia.
Qed.
End vectors.

(** ** Rules for lists of structures *)

Section lists.
Context {X C : Type}.
Implicit Types (own : X → C → hp) (xs : list X) (cs : list C).

Lemma own_list_length own xs cs : own_list own xs cs ⊢ ⌜length xs = length cs⌝ ∧ own_list own xs cs.
Proof.
  revert cs. induction xs as [|x xs IH]; intros [|c cs]; cbn; try (by iIntros "%").
  - iIntros "$". done.
  - rw {1}IH. iIntros "(Hx & %E & Hl)". iSplit; [iPureIntro; lia|]. iFrame.
Qed.

Lemma wp_for_each own f xs cs :
  Forall (λ x, ∀ c, own x c ⊢ wp (f c) (λ _, emp)) xs →
  own_list own xs cs ⊢ wp (for_each f cs) (λ _, emp).
Proof.
  intros Hf. revert cs. induction Hf as [|x xs Hx _ IH]; intros [|c cs]; cbn; try (by iIntros "%").
  - iIntros "_". by iApply wp_ret.
  - iIntros "(Hc & Hl)". iApply wp_bind. iApply (wp_wand with "[Hc]"); [by iApply Hx|].
    iIntros (_) "_". by iApply IH.
Qed.

(** Of each element the program may keep something ([K]) and makes a result ([R]). *)
Lemma wp_collect {D} own (K : X → C → hp) (R : X → D → hp) f xs cs :
  Forall (λ x, ∀ c, own x c ⊢ wp (f c) (λ d, K x c ∗ R x d)) xs →
  own_list own xs cs ⊢ wp (collect f cs) (λ ds, own_list K xs cs ∗ own_list R xs ds).
Proof.
  intros Hf. revert cs. induction Hf as [|x xs Hx _ IH]; intros [|c cs]; cbn; try (by iIntros "%").
  - iIntros "_". iApply wp_ret. by iSplit.
  - iIntros "(Hc & Hl)". iApply wp_bind. iApply (wp_wand with "[Hc]"); [by iApply Hx|].
    iIntros (d) "(HK & HR)". iApply wp_bind. iApply (wp_wand with "[Hl]"); [by iApply IH|].
    iIntros (ds) "(HKs & HRs)". iApply wp_ret. iFrame.
Qed.

Lemma own_list_emp own xs cs : (∀ x c, own x c ⊣⊢ emp) → own_list own xs cs ⊢ emp.
Proof.
  intros He. revert cs. induction xs as [|x xs IH]; intros [|c cs]; cbn; try (by iIntros "%"); [done|].
  by rw He IH bi.emp_sep.
Qed.
Lemma own_list_pure (f : X → C) xs cs : own_list (λ x c, ⟨c = f x⟩%I) xs cs ⊢ ⟨cs = map f xs⟩.
Proof.
  revert cs. induction xs as [|x xs IH]; intros [|c cs]; cbn; try (by iIntros "%"); [by iIntros|].
  rw IH. by iIntros "(-> & ->)".
Qed.
Lemma own_list_map {Y} (f : X → Y) (own : Y → C → hp) xs cs :
  own_list (λ x, own (f x)) xs cs ⊣⊢ own_list own (map f xs) cs.
Proof.
  revert cs. induction xs as [|x xs IH]; intros [|c cs]; cbn; [done..|]. by rw IH.
Qed.
Lemma own_list_snoc own xs cs x c :
  own_list own xs cs ∗ own x c ⊢ own_list own (xs ++ [x]) (cs ++ [c]).
Proof.
  revert cs. induction xs as [|y xs IH]; intros [|d cs]; cbn.
  - iIntros "(_ & $)".
  - by iIntros "(% & _)".
  - by iIntros "(% & _)".
  - rw -IH. iIntros "(($ & $) & $)".
Qed.
End lists.

Section vector_lists.
Context {X C : Type} `{VecElem C}.
Implicit Types (own : X → C → hp) (xs : list X).

Lemma own_vec_parts own cap xs v :
  own_vec own cap xs v ⊢ ⌜rv_len v = length xs ∧ rv_cap v = cap⌝ ∧ own_vec own cap xs v.
Proof.
  iIntros "(%cs & Hv & Hl)". iDestruct (own_list_length with "Hl") as "[%E Hl]".
  iDestruct (own_buf_parts with "Hv") as "[%E2 Hv]". iSplit; [|iExists cs; iFrame].
  iPureIntro. rw E. done.
Qed.

Lemma wp_vec_drop own f cap xs v :
  Forall (λ x, ∀ c, own x c ⊢ wp (f c) (λ _, emp)) xs →
  own_vec own cap xs v ⊢ wp (vec_drop f v) (λ _, emp).
Proof.
  iIntros (Hf) "(%cs & Hv & Hl)". iDestruct (own_buf_parts with "Hv") as "[[%El %Ec] Hv]".
  unfold vec_drop. rw Ec. step wp_from_raw_parts with "Hv". iIntros "Hv". iApply wp_bind.
  iApply (wp_wand with "[Hl]"); [by iApply wp_for_each|]. iIntros (_) "_".
  by iApply (wp_vec_dealloc with "Hv").
Qed.

(** Converting may lose [u x] blocks of the element [x]. *)
Lemma own_list_lost own xs cs (u : X → nat) :
  (∀ x c, own x c ⊢ lost_blocks (u x)) → own_list own xs cs ⊢ lost_blocks (list_sum (map u xs)).
Proof.
  intros Hu. revert cs. induction xs as [|x xs IH]; intros [|c cs]; cbn; try (by iIntros "%").
  - by rw lost_0.
  - by rw Hu IH lost_sep.
Qed.
Lemma wp_vec_into_iter {D} own (R : X → D) (u : X → nat) f cap xs v :
  Forall (λ x, ∀ c, own x c ⊢ wp (f c) (λ d, ⟨d = R x⟩ ∗ lost_blocks (u x))) xs →
  own_vec own cap xs v ⊢ wp (vec_into_iter f (rv_ptr v) (rv_len v) cap)
    (λ ds, ⟨ds = map R xs⟩ ∗ lost_blocks (list_sum (map u xs))).
Proof.
  iIntros (Hf) "(%cs & Hv & Hl)". unfold vec_into_iter.
  step wp_from_raw_parts with "Hv". iIntros "Hv". iApply wp_bind.
  iApply (wp_wand with "[Hl]").
  { iApply (wp_collect own (λ x _, lost_blocks (u x)) (λ x d, ⟨d = R x⟩%I) with "Hl").
    eapply Forall_impl; [exact Hf|]. intros x Hx c. cbn. rw Hx. iIntros "Hw".
    iApply (wp_wand with "Hw"). iIntros (d) "($ & $)". }
  iIntros (ds) "(HK & HR)". rw own_list_pure (own_list_lost _ _ _ u); [|done]. iDestruct "HR" as %->.
  step wp_vec_dealloc with "Hv". iApply wp_ret. by iFrame.
Qed.

(** A vector of which one element cannot be converted. *)
Lemma wp_collect_fault {D} own (good : X → bool) (f : C → M D) xs cs e :
  Forall (λ x, if good x then ∀ c, own x c ⊢ wp (f c) (λ _, True) else ∀ c, own x c ⊢ wp_fault (f c) e) xs →
  forallb good xs = false → own_list own xs cs ⊢ wp_fault (collect f cs) e.
Proof.
  intros Hf. revert cs. induction Hf as [|x xs Hx _ IH]; intros cs Hg; [done|].
  destruct cs as [|c cs]; [by iIntros "%"|]. cbn in *. destruct (good x); cbn in Hg.
  - iIntros "(Hc & Hl)". iApply wp_fault_bind. iApply (wp_wand with "[Hc]"); [by iApply Hx|].
    iIntros (d) "Hd". iApply wp_fault_first. iApply (wp_fault_frame with "[Hl] Hd"). by iApply IH.
  - iIntros "(Hc & Hl)". iApply wp_fault_first. iApply (wp_fault_frame with "[Hc] Hl"). by iApply Hx.
Qed.
Lemma wp_vec_into_iter_fault {D} own (good : X → bool) (f : C → M D) cap xs v e :
  Forall (λ x, if good x then ∀ c, own x c ⊢ wp (f c) (λ _, True) else ∀ c, own x c ⊢ wp_fault (f c) e) xs →
  forallb good xs = false →
  own_vec own cap xs v ⊢ wp_fault (vec_into_iter f (rv_ptr v) (rv_len v) cap) e.
Proof.
  iIntros (Hf Hg) "(%cs & Hv & Hl)". iApply wp_fault_bind. iApply (wp_from_raw_parts with "Hv").
  iIntros "Hv". iApply wp_fault_first. iApply (wp_fault_frame with "[Hl] Hv"). by iApply (wp_collect_fault own good).
Qed.
(** Raw parts with a capacity that is not that of the vector, and no capacity at all. *)
Lemma wp_vec_into_iter_layout {D} own (f : C → M D) cap xs v :
  length xs ≠ cap → length xs ≠ 0 →
  own_vec own cap xs v ⊢ wp_fault (vec_into_iter f (rv_ptr v) (length xs) (length xs)) BadLayout.
Proof.
  iIntros (Hcap H0) "(%cs & Hv & Hl)". iDestruct (own_list_length with "Hl") as "[%E Hl]".
  iDestruct "Hv" as "(%Hv & Hv)". destruct Hv as (El & Ec & Hle). iApply wp_fault_first.
  unfold from_raw_parts. rw !decide_False; [|lia..]. iApply wp_fault_bind. iApply (wp_load with "Hv").
  iIntros "Hv". rw vec_parts_block. iApply wp_fault_bind. iApply wp_ret. rw decide_False; [|lia].
  iStopProof. by apply wp_fault_now.
Qed.
Lemma wp_vec_into_iter_empty {D} own (f : C → M D) cap v :
  own_vec own cap [] v ⊢ wp (vec_into_iter f (rv_ptr v) 0 0)
    (λ ds, ⟨ds = []⟩ ∗ lost_blocks (if decide (0 = cap) then 0 else 1)).
Proof.
  iIntros "(%cs & Hv & Hl)". destruct cs; [|by iDestruct "Hl" as %[]]. iDestruct "Hl" as "_".
  iDestruct "Hv" as "(_ & Hv)". step wp_ret. step wp_ret. step wp_ret. iApply wp_ret. iSplit; [done|].
  destruct (decide (cap = 0)), (decide (0 = cap)); try lia; [by rw lost_0|by iApply lost_one].
Qed.

(** [xs'] is what the clones hold. *)
Lemma wp_raw_vec_clone own (g : X → X) f cap xs v :
  Forall (λ x, ∀ c, own x c ⊢ wp (f c) (λ d, own x c ∗ own (g x) d)) xs →
  own_vec own cap xs v ⊢
  wp (raw_vec_clone f v) (λ w, own_vec own cap xs v ∗ own_vec own (length xs) (map g xs) w).
Proof.
  iIntros (Hf) "(%cs & Hv & Hl)". iDestruct (own_buf_parts with "Hv") as "[[%El %Ec] Hv]".
  unfold raw_vec_clone. rw Ec. step wp_from_raw_parts with "Hv". iIntros "Hv". iApply wp_bind.
  iApply (wp_wand with "[Hl]"); [by iApply (wp_collect own own (λ x, own (g x)))|].
  iIntros (ds) "(Hl & Hd)". iDestruct (own_list_length with "Hd") as "[%E Hd]".
  iApply (wp_wand with "[]"); [by iApply wp_vec_new|]. iIntros (w) "Hw". rw (own_list_map g).
  iSplitL "Hv Hl"; [iExists cs; iFrame|]. iExists ds. rw E. iFrame.
Qed.

Lemma wp_vec_push own cap xs v x c :
  own_vec own cap xs v ∗ own x c ⊢
  wp (raw_vec_push v c) (own_vec own (pushed (length xs) cap) (xs ++ [x])).
Proof.
  iIntros "((%cs & Hv & Hl) & Hx)". iDestruct (own_list_length with "Hl") as "[%E Hl]".
  iApply (wp_wand with "[Hv]"); [by iApply wp_raw_vec_push|]. iIntros (w) "Hw".
  iExists (cs ++ [c]). rw E. iFrame. iApply own_list_snoc. iFrame.
Qed.
End vector_lists.

(** ** Values *)

Lemma list_max_le_elem {A} (f : A → nat) l n :
  S (list_max (map f l)) ≤ S n → Forall (λ x, f x ≤ n) l.
Proof. intros Hle. apply le_S_n, list_max_le in Hle. by apply Forall_map in Hle. Qed.

(** From a bound on the depth of a structure, and a fact about each element. *)
Lemma Forall_depth {A} (f : A → nat) (P : A → nat → Prop) l n :
  Forall (λ x, ∀ n, f x ≤ n → P x n) l → S (list_max (map f l)) ≤ S n → Forall (λ x, P x n) l.
Proof.
  intros HP Hle%list_max_le_elem. rw Forall_forall. intros x Hx. rw !Forall_forall in HP, Hle.
  apply HP; auto.
Qed.

(** The specifications, for a structure with the contents [a] and fuel [n]. *)
Definition drop_ok (a : AValue) (n : nat) : Prop :=
  ∀ v, own_value a v ⊢ wp (Value_drop n v) (λ _, emp).
Definition clone_ok (a : AValue) (n : nat) : Prop :=
  ∀ v, own_value a v ⊢ wp (Value_clone n v) (λ w, own_value a v ∗ own_value (fitted a) w).
Definition native_ok (a : AValue) (n : nat) : Prop :=
  if convertible a then
    ∀ v, own_value a v ⊢ wp (Value_into_native n v) (λ p, ⟨p = native a⟩ ∗ lost_blocks (unfreed a))
  else ∀ v, own_value a v ⊢ wp_fault (Value_into_native n v) BadLayout.

Lemma wp_Entry_drop kv n :
  drop_ok kv.2 n → ∀ e, own_entry own_value kv e ⊢ wp (Entry_drop (Value_drop n) e) (λ _, emp).
Proof.
  iIntros (Hf e) "(Hk & Hv)". iApply wp_bind. iApply (wp_wand with "[Hk]"); [by iApply wp_StringBuf_drop|].
  iIntros (_) "_". by iApply (wp_Box_drop with "Hv").
Qed.

Lemma wp_Value_drop a : ∀ n, depth a ≤ n → drop_ok a n.
Proof.
  induction a as [x|i|b|s|cap l IH|cap l IH] using AValue_rect'; intros [|n] Hn v; cbn in Hn; try lia;
    destruct v as [y|j|c|t|r|r]; cbn; try (by iIntros "%"); try (iIntros "_"; by iApply wp_ret).
  - apply wp_StringBuf_drop.
  - apply wp_vec_drop. by apply (Forall_depth depth drop_ok).
  - apply wp_vec_drop. eapply Forall_impl; [|intros kv; apply wp_Entry_drop].
    by apply (Forall_depth (λ kv, depth kv.2) (λ kv, drop_ok kv.2)).
Qed.

Lemma wp_Entry_new k l (own : CValue → hp) :
  own_box BValue own l ⊢
  wp (Entry_new k l) (λ e, own_str (ce_key e) k ∗ own_box BValue own (ce_value e)).
Proof.
  iIntros "Hl". iApply wp_bind. iApply (wp_wand with "[]"); [by iApply wp_StringBuf_new|].
  iIntros (s) "Hs". iApply wp_ret. iFrame.
Qed.

Lemma wp_Entry_clone kv n :
  clone_ok kv.2 n → ∀ e, own_entry own_value kv e ⊢
  wp (Entry_clone (Value_clone n) e)
    (λ d, own_entry own_value kv e ∗ own_entry own_value (kv.1, fitted kv.2) d).
Proof.
  iIntros (Hf e) "(Hk & %v & Hl & Hv)". step wp_Box_read with "Hl"; [done|]. iIntros "Hl".
  step wp_as_str with "Hk". iIntros "Hk". iApply wp_bind. iApply (wp_wand with "[Hv]"); [by iApply Hf|].
  iIntros (w) "(Hv & Hw)". step wp_alloc. iIntros (p) "Hp".
  iApply (wp_wand with "[Hp Hw]").
  { iApply (wp_Entry_new kv.1 p (own_value (fitted kv.2))). iExists w. iFrame. }
  iIntros (d) "(Hk' & Hv')". iFrame.
Qed.

Lemma wp_Value_clone a : ∀ n, depth a ≤ n → clone_ok a n.
Proof.
  induction a as [x|i|b|s|cap l IH|cap l IH] using AValue_rect'; intros [|n] Hn v; cbn in Hn; try lia;
    destruct v as [y|j|c|t|r|r]; cbn; try (by iIntros "%"); try (iIntros (->); iApply wp_ret; by iSplit).
  - iIntros "Ht". iApply wp_bind. iApply (wp_wand with "[Ht]"); [by iApply wp_StringBuf_clone|].
    iIntros (u) "(Ht & Hu)". iApply wp_ret. iFrame.
  - iIntros "Hr". iApply wp_bind. iApply (wp_wand with "[Hr]").
    { iApply (wp_raw_vec_clone with "Hr"). by apply (Forall_depth depth clone_ok). }
    iIntros (w) "(Hr & Hw)". iApply wp_ret. iFrame.
  - iIntros "Hr". iApply wp_bind. iApply (wp_wand with "[Hr]").
    { iApply (wp_raw_vec_clone _ (λ kv, (kv.1, fitted kv.2)) with "Hr").
      eapply Forall_impl; [|intros kv; apply wp_Entry_clone].
      by apply (Forall_depth (λ kv, depth kv.2) (λ kv, clone_ok kv.2)). }
    iIntros (w) "(Hr & Hw)". iApply wp_ret. iFrame.
Qed.

Lemma wp_Entry_into_native kv n :
  native_ok kv.2 n →
  if convertible kv.2 then ∀ e, own_entry own_value kv e ⊢
    wp (Entry_into_native (Value_into_native n) e)
      (λ r, ⟨r = (kv.1, native kv.2)⟩ ∗ lost_blocks (unfreed kv.2))
  else ∀ e, own_entry own_value kv e ⊢ wp_fault (Entry_into_native (Value_into_native n) e) BadLayout.
Proof.
  unfold native_ok. destruct (convertible kv.2); iIntros (Hf e) "(Hk & %v & Hl & Hv)".
  - step wp_Box_take with "Hl"; [done|]. iApply wp_bind.
    iApply (wp_wand with "[Hv]"); [by iApply Hf|]. iIntros (p) "(-> & Hu)". iApply wp_bind.
    iApply (wp_wand with "[Hk]"); [by iApply wp_into_string|]. iIntros (s) "->". iApply wp_ret. by iFrame.
  - iApply wp_fault_bind. iApply (wp_Box_take with "Hl"); [done|]. iApply wp_fault_first.
    iApply (wp_fault_frame with "[Hv] Hk"). by iApply Hf.
Qed.

(** From a dichotomy for each element, those for the list. *)
Lemma good_elems {A} (good : A → bool) (P Q : A → Prop) l :
  Forall (λ x, if good x then P x else Q x) l → forallb good l = true → Forall P l.
Proof.
  induction 1 as [|x l Hx _ IH]; cbn; [done|]. destruct (good x); [|done]. constructor; auto.
Qed.
Lemma bad_elems {X C D} (own : X → C → hp) (good : X → bool) (f : C → M D) (R : X → D → hp) e l :
  Forall (λ x, if good x then ∀ c, own x c ⊢ wp (f c) (R x) else ∀ c, own x c ⊢ wp_fault (f c) e) l →
  Forall (λ x, if good x then ∀ c, own x c ⊢ wp (f c) (λ _, True) else ∀ c, own x c ⊢ wp_fault (f c) e) l.
Proof.
  intros Hl. eapply Forall_impl; [exact Hl|]. intros x. cbn. destruct (good x); [|done]. intros Hx c.
  iIntros "H". iApply (wp_wand with "[H]"); [by iApply Hx|]. iIntros (d) "H". iStopProof. apply bi.True_intro.
Qed.

(** Converting a structure. *)
Lemma wp_Value_into_native a : ∀ n, depth a ≤ n → native_ok a n.
Proof.
  induction a as [x|i|b|s|cap l IH|cap l IH] using AValue_rect'; intros [|n] Hn; cbn in Hn; try lia;
    unfold native_ok; cbn [convertible unfreed].
  1-4: intros [y|j|c|t|r|r]; cbn; try (by iIntros "%");
    try (iIntros (->); iApply wp_ret; iSplit; [done|by rw lost_0]).
  - iIntros "Ht". iApply wp_bind. iApply (wp_wand with "[Ht]"); [by iApply wp_into_string|].
    iIntros (u ->). iApply wp_ret. iSplit; [done|by rw lost_0].
  - apply (Forall_depth depth native_ok l n IH) in Hn. clear IH. unfold native_ok in Hn.
    destruct (decide (length l = 0)) as [E0%nil_length_inv|E0].
    { subst l. cbn. rw orb_true_r. intros [y|j|c|t|r|r]; cbn; try (by iIntros "%"). iIntros "Hr".
      iDestruct (own_vec_parts with "Hr") as "[[%El _] Hr]". iApply wp_bind. unfold Array_into_native.
      rw El. iApply (wp_wand with "[Hr]"); [by iApply wp_vec_into_iter_empty|]. iIntros (ds) "(-> & Hu)".
      iApply wp_ret. rw Nat.add_0_r. by iFrame. }
    destruct (decide (length l = cap)) as [Ecap|Ecap].
    + rw (bool_decide_true _ Ecap). cbn [orb andb Nat.add]. destruct (forallb convertible l) eqn:Eg.
      * intros [y|j|c|t|r|r]; cbn; try (by iIntros "%"). iIntros "Hr".
        iDestruct (own_vec_parts with "Hr") as "[[%El _] Hr]". iApply wp_bind. unfold Array_into_native.
        rw {2}El Ecap. iApply (wp_wand with "[Hr]").
        { iApply (wp_vec_into_iter _ native unfreed with "Hr"). by apply (good_elems _ _ _ _ Hn). }
        iIntros (ds) "(-> & Hu)". iApply wp_ret. by iFrame.
      * intros [y|j|c|t|r|r]; cbn; try (by iIntros "%"). iIntros "Hr".
        iDestruct (own_vec_parts with "Hr") as "[[%El _] Hr]". iApply wp_fault_first. unfold Array_into_native.
        rw {2}El Ecap. iApply (wp_vec_into_iter_fault with "Hr"); [|exact Eg].
        exact (bad_elems own_value _ _ (λ a p, ⟨p = native a⟩ ∗ lost_blocks (unfreed a))%I _ _ Hn).
    + rw (bool_decide_false _ Ecap) (bool_decide_false _ E0). cbn [orb andb].
      intros [y|j|c|t|r|r]; cbn; try (by iIntros "%"). iIntros "Hr".
      iDestruct (own_vec_parts with "Hr") as "[[%El _] Hr]". iApply wp_fault_first. unfold Array_into_native.
      rw El. by iApply (wp_vec_into_iter_layout with "Hr").
  - assert (Forall (λ kv, native_ok kv.2 n) l) as Hl
      by by apply (Forall_depth (λ kv, depth kv.2) (λ kv, native_ok kv.2)).
    clear IH Hn. pose proof (Forall_impl _ _ _ Hl (λ kv, wp_Entry_into_native kv n)) as Hn. cbn in Hn.
    destruct (forallb (λ kv, convertible kv.2) l) eqn:Eg; intros [y|j|c|t|r|r]; cbn; try (by iIntros "%");
      iIntros "Hr"; iDestruct (own_vec_parts with "Hr") as "[[_ %Ec] Hr]"; unfold Dict_into_native; rw Ec.
    + iApply wp_bind. iApply wp_bind. iApply (wp_wand with "[Hr]").
      { iApply (wp_vec_into_iter _ (λ kv, (kv.1, native kv.2)) (λ kv, unfreed kv.2) with "Hr").
        by apply (good_elems (λ kv, convertible kv.2) _ _ _ Hn). }
      iIntros (ds) "(-> & Hu)". iApply wp_ret. iApply wp_ret. by iFrame.
    + iApply wp_fault_first. iApply wp_fault_first.
      iApply (wp_vec_into_iter_fault _ (λ kv, convertible kv.2) with "Hr"); [|exact Eg].
      exact (bad_elems (own_entry own_value) (λ kv, convertible kv.2) _
        (λ kv r, ⟨r = (kv.1, native kv.2)⟩ ∗ lost_blocks (unfreed kv.2))%I _ _ Hn).
Qed.

(** ** The blocks of a structure bound its depth *)

Definition bounded (P : hp) (d : nat) : Prop := ∀ h, holds P h → d ≤ size h.

Lemma bounded_0 P : bounded P 0.
Proof. intros h _. lia. Qed.
Lemma bounded_mono P Q d e : (P ⊢ Q) → bounded Q d → e ≤ d → bounded P e.
Proof. intros [HPQ] HQ He h HP. specialize (HQ h (HPQ h HP)). lia. Qed.
Lemma bounded_sep P Q d e : bounded P d → bounded Q e → bounded (P ∗ Q) (d + e).
Proof.
  intros HP HQ h (h1 & h2 & -> & Hd & H1 & H2). rw map_size_disj_union; [|done].
  specialize (HP h1 H1). specialize (HQ h2 H2). lia.
Qed.
Lemma bounded_exist {A} (Φ : A → hp) d : (∀ a, bounded (Φ a) d) → bounded (∃ a, Φ a) d.
Proof. intros HΦ h [a Ha]. by apply (HΦ a). Qed.
Lemma bounded_points_to l b : bounded (l ↦ b) 1.
Proof. intros h ->. by rw map_size_singleton. Qed.

Lemma bounded_list {X C} (own : X → C → hp) (f : X → nat) xs cs :
  Forall (λ x, ∀ c, bounded (own x c) (f x)) xs → bounded (own_list own xs cs) (list_max (map f xs)).
Proof.
  intros Hf. revert cs. induction Hf as [|x xs Hx _ IH]; intros [|c cs]; cbn; try (by intros h []);
    [apply bounded_0|].
  eapply bounded_mono; [done|apply bounded_sep; [apply Hx|apply IH]|]. unfold list_max. lia.
Qed.
Lemma bounded_vec {X C} `{VecElem C} (own : X → C → hp) (f : X → nat) cap xs v :
  Forall (λ x, ∀ c, bounded (own x c) (pred (f x))) xs →
  bounded (own_vec own cap xs v) (list_max (map f xs)).
Proof.
  intros Hf. apply bounded_exist. intros cs h (h1 & h2 & -> & Hd & Hb & Hl).
  pose proof (bounded_list own (λ x, pred (f x)) xs cs Hf h2 Hl) as Hle.
  assert (length xs = length cs) as Hlen.
  { destruct (own_list_length own xs cs) as [Hlen]. exact (proj1 (Hlen h2 Hl)). }
  rw map_size_disj_union; [|done]. destruct xs as [|x xs]; [cbn; lia|].
  assert (1 ≤ size h1) as H1.
  { destruct Hb as (h3 & h4 & -> & Hd' & [_ [_ [_ Hcap]]] & Hb). cbn in Hlen.
    rw decide_False in Hb; [|lia]. rw map_size_disj_union; [|done]. cbn in Hb. subst h4.
    rw map_size_singleton. lia. }
  assert (∀ l, list_max (map f l) ≤ S (list_max (map (λ x, pred (f x)) l))) as Hmax.
  { unfold list_max. induction l as [|y l IH]; cbn; lia. }
  specialize (Hmax (x :: xs)). lia.
Qed.
Lemma bounded_box {C} (mk : C → Block) (own : C → hp) d l :
  (∀ c, bounded (own c) d) → bounded (own_box mk own l) (S d).
Proof.
  intros Ho. apply bounded_exist. intros c.
  eapply bounded_mono; [done|apply bounded_sep; [apply bounded_points_to|apply Ho]|lia].
Qed.

Lemma bounded_value a v : bounded (own_value a v) (pred (depth a)).
Proof.
  revert v. induction a as [x|i|b|s|cap l IH|cap l IH] using AValue_rect'; intros v;
    try apply bounded_0; destruct v as [y|j|c|t|r|r]; cbn; try (by intros h []).
  - by apply bounded_vec.
  - apply bounded_vec. eapply Forall_impl; [exact IH|]. intros kv Hkv e. cbn in Hkv.
    eapply bounded_mono; [done|apply bounded_sep; [apply bounded_0|by apply bounded_box]|lia].
Qed.
Lemma bounded_entry kv e : bounded (own_entry own_value kv e) (pred (depth kv.2)).
Proof.
  eapply bounded_mono; [done|apply bounded_sep; [apply bounded_0|apply bounded_box, bounded_value]|lia].
Qed.

(** ** Parameters *)

Record AParam := { ap_name : string; ap_type : FoxgloveParameterType; ap_value : option AValue }.

Definition own_opt {A C} (own : A → C → hp) (a : option A) (c : option C) : hp :=
  match a, c with
  | None, None => emp
  | Some a, Some c => own a c
  | _, _ => ⌜False⌝
  end%I.
Definition own_param (a : AParam) (p : CParam) : hp :=
  (own_str (cp_name p) (ap_name a) ∗ ⟨cp_type p = ap_type a⟩ ∗
   own_opt (λ a, own_box BValue (own_value a)) (ap_value a) (cp_value p))%I.

Definition param_depth (a : AParam) : nat := from_option depth 0 (ap_value a).
Definition param_native (a : AParam) : Param :=
  {| p_name := ap_name a; p_type := Type_to_native (ap_type a); p_value := native <$> ap_value a |}.
Definition param_convertible (a : AParam) : bool := from_option convertible true (ap_value a).
Definition param_unfreed (a : AParam) : nat := from_option unfreed 0 (ap_value a).
Definition param_fitted (a : AParam) : AParam :=
  {| ap_name := ap_name a; ap_type := ap_type a; ap_value := fitted <$> ap_value a |}.

Lemma bounded_param a p : bounded (own_param a p) (param_depth a).
Proof.
  unfold own_param, param_depth. destruct (ap_value a) as [v|]; cbn; [|apply bounded_0].
  destruct (cp_value p) as [l|].
  - eapply bounded_mono; [done| |].
    + apply bounded_sep; [apply bounded_0|]. apply bounded_sep; [apply bounded_0|].
      apply bounded_box. apply bounded_value.
    + lia.
  - intros h (h1 & h2 & _ & _ & _ & (h3 & h4 & _ & _ & _ & [])).
Qed.

Lemma wp_Box_drop_value a n l :
  depth a ≤ n → own_box BValue (own_value a) l ⊢ wp (Box_drop as_value (Value_drop n) l) (λ _, emp).
Proof. intros Hn. apply wp_Box_drop; [done|]. by apply wp_Value_drop. Qed.

Lemma wp_Parameter_drop a n p :
  param_depth a ≤ n → own_param a p ⊢ wp (Parameter_drop n p) (λ _, emp).
Proof.
  iIntros (Hn) "(Hn & _ & Hv)". iApply wp_bind.
  iApply (wp_wand with "[Hn]"); [by iApply wp_StringBuf_drop|]. iIntros (_) "_".
  unfold param_depth in Hn. destruct (ap_value a) as [v|], (cp_value p) as [l|]; cbn; try (by iDestruct "Hv" as %[]).
  - by iApply wp_Box_drop_value.
  - by iApply wp_ret.
Qed.

Lemma wp_Parameter_clone a n p :
  param_depth a ≤ n → own_param a p ⊢
  wp (Parameter_clone n p) (λ q, own_param a p ∗ own_param (param_fitted a) q).
Proof.
  iIntros (Hn) "(Hs & %Ht & Hv)". iApply wp_bind. unfold param_depth in Hn.
  iApply (wp_wand _ (λ c, own_opt (λ a, own_box BValue (own_value a)) (ap_value a) (cp_value p) ∗
    own_opt (λ a, own_box BValue (own_value a)) (fitted <$> ap_value a) c)%I with "[Hv]").
  { destruct (ap_value a) as [v|], (cp_value p) as [l|]; cbn; try (by iDestruct "Hv" as %[]).
    - iDestruct "Hv" as (c) "(Hl & Hv)". step wp_Box_read with "Hl"; [done|]. iIntros "Hl". iApply wp_bind.
      iApply (wp_wand with "[Hv]"); [by iApply wp_Value_clone|]. iIntros (w) "(Hv & Hw)".
      step wp_alloc. iIntros (k) "Hk". iApply wp_ret. iFrame.
    - iApply wp_ret. by iSplit. }
  iIntros (c) "(Hv & Hc)". iApply wp_bind.
  iApply (wp_wand with "[Hs]"); [by iApply wp_StringBuf_clone|]. iIntros (s) "(Hs & Ht)".
  iApply wp_ret. unfold own_param. cbn. iFrame. by iSplit.
Qed.

Lemma wp_Parameter_into_native a n :
  param_depth a ≤ n →
  if param_convertible a then ∀ p, own_param a p ⊢
    wp (Parameter_into_native n p) (λ r, ⟨r = param_native a⟩ ∗ lost_blocks (param_unfreed a))
  else ∀ p, own_param a p ⊢ wp_fault (Parameter_into_native n p) BadLayout.
Proof.
  unfold param_depth, param_convertible, param_unfreed, param_native, own_param.
  destruct a as [name ty [v|]]; cbn; intros Hn.
  - pose proof (wp_Value_into_native v n Hn) as Hv. unfold native_ok in Hv.
    destruct (convertible v); intros [s t [l|]]; cbn; try (by iIntros "(_ & _ & [])");
      iIntros "(Hs & %Ht & %c & Hl & Hv)"; subst t.
    + iApply wp_bind. step wp_Box_take with "Hl"; [done|]. iApply wp_bind.
      iApply (wp_wand with "[Hv]"); [by iApply Hv|]. iIntros (w) "(-> & Hu)". iApply wp_ret. iApply wp_bind.
      iApply (wp_wand with "[Hs]"); [by iApply wp_into_string|]. iIntros (str ->). iApply wp_ret. by iFrame.
    + iApply wp_fault_first. iApply wp_fault_bind. iApply (wp_Box_take with "Hl"); [done|].
      iApply wp_fault_first. iApply (wp_fault_frame with "[Hv] Hs"). by iApply Hv.
  - intros [s t [l|]]; cbn; try (by iIntros "(_ & _ & [])"). iIntros "(Hs & %Ht & _)". subst t.
    step wp_ret. iApply wp_bind. iApply (wp_wand with "[Hs]"); [by iApply wp_into_string|].
    iIntros (str ->). iApply wp_ret. rw lost_0. by iSplit.
Qed.

Lemma wp_Parameter_new name ty (v : option AValue) l :
  own_opt (λ a, own_box BValue (own_value a)) v l ⊢
  wp (Parameter_new name ty l) (own_param {| ap_name := name; ap_type := ty; ap_value := v |}).
Proof.
  iIntros "Hv". iApply wp_bind. iApply (wp_wand with "[]"); [by iApply wp_StringBuf_new|].
  iIntros (s) "Hs". iApply wp_ret. unfold own_param. cbn. iFrame. done.
Qed.

(** The text of a byte array. *)
Definition byte_array_text (a : AParam) : option string :=
  match ap_type a, ap_value a with TByteArray, Some (AString s) => Some s | _, _ => None end.
Lemma own_value_string a c :
  own_value a c ⊢ ⌜match c with CString _ => ∃ s, a = AString s | _ => ∀ s, a ≠ AString s end⌝ ∧
    own_value a c.
Proof.
  iIntros "Hc". destruct a, c; cbn; try (by iDestruct "Hc" as %[]);
    (iSplit; [iPureIntro; naive_solver|done]).
Qed.
Lemma wp_get_byte_array a p Q :
  own_param a p -∗ (own_param a p -∗ Q (byte_array_text a)) -∗ wp (get_byte_array_as_str p) Q.
Proof.
  iIntros "(Hs & %Ht & Hv) HQ". unfold get_byte_array_as_str, byte_array_text. rw -Ht.
  destruct (ap_value a) as [v|] eqn:Ev, (cp_value p) as [l|] eqn:El; cbn; try (by iDestruct "Hv" as %[]).
  - iDestruct "Hv" as (c) "(Hl & Hv)". step wp_Box_read with "Hl"; [done|]. iIntros "Hl".
    iDestruct (own_value_string with "Hv") as "[%Hc Hv]".
    iAssert (own_value v c -∗ own_param a p)%I with "[Hs Hl]" as "Hp".
    { iIntros "Hv". unfold own_param. rw Ev El. iFrame. done. }
    destruct (cp_type p); try (iApply wp_ret; iApply "HQ"; by iApply "Hp").
    destruct c as [| | |s| |]; try (iApply wp_ret; iDestruct ("Hp" with "Hv") as "Hp";
      destruct v; try (by iApply "HQ"); by destruct (Hc s)).
    destruct Hc as [str ->]. step wp_as_str with "Hv". iIntros "Hv". iApply wp_ret.
    iApply "HQ". by iApply "Hp".
  - iApply wp_ret. iDestruct ("HQ" with "[Hs]") as "HQ".
    { unfold own_param. rw Ev El. by iFrame. }
    by destruct (cp_type p).
Qed.
