(* ===== verification/CParameterApi.v ===== *)
(** * CParameterApi: programs that use parameters through the C API

    A C program holds handles (pointers) to parameters, values, arrays and
    dictionaries, and calls the functions of CParameter.v.  The abstract state [Abs]
    says which handles it holds and what is behind each; [effect] says what a call
    returns and does to that state; [allowed] is the documented contract of the
    functions: handles are null or held, and of the right kind.  A handle that is
    passed to a consuming function is no longer held.

    The theorem: up to the first call that [failure] describes, a program that keeps to
    the contract causes no undefined behaviour and no panic, sees what [effect] says, and
    the heap holds what is behind its handles and nothing else but the buffers that
    [unfreed_by] counts. *)

From S2P Require Import Prelude Bytes Messages CError Advertise HeapLogic CParameter.
From S2P Require Import CParameterLogic.
From iris.proofmode Require Import proofmode.

(** ** Handles *)

Inductive Obj :=
| OValue (v : AValue)
| OArray (cap : nat) (l : list AValue)
| ODict (cap : nat) (l : list (string * AValue))
| OParam (p : AParam)
| OParams (cap : nat) (l : list AParam).
Abbreviation Abs := (gmap loc Obj).
Abbreviation Assertion := (hPropI Block).

Definition own_obj (l : loc) (o : Obj) : Assertion :=
  match o with
  | OValue v => own_box BValue (own_value v) l
  | OArray cap xs => own_box BArrayBox (own_vec own_value cap xs) l
  | ODict cap xs => own_box BDictBox (own_vec (own_entry own_value) cap xs) l
  | OParam p => own_box BParam (own_param p) l
  | OParams cap xs => own_box BParamsBox (own_vec own_param cap xs) l
  end.
Definition own_all (a : Abs) : Assertion := ([∗ map] l ↦ o ∈ a, own_obj l o)%I.

Definition val_at (a : Abs) (l : loc) : option AValue :=
  match a !! l with Some (OValue v) => Some v | _ => None end.
Definition arr_at (a : Abs) (l : loc) : option (nat * list AValue) :=
  match a !! l with Some (OArray cap xs) => Some (cap, xs) | _ => None end.
Definition dict_at (a : Abs) (l : loc) : option (nat * list (string * AValue)) :=
  match a !! l with Some (ODict cap xs) => Some (cap, xs) | _ => None end.
Definition par_at (a : Abs) (l : loc) : option AParam :=
  match a !! l with Some (OParam p) => Some p | _ => None end.
Definition pars_at (a : Abs) (l : loc) : option (nat * list AParam) :=
  match a !! l with Some (OParams cap xs) => Some (cap, xs) | _ => None end.

(** What is behind a handle that may be null. *)
Definition behind {A} (f : Abs → loc → option A) (a : Abs) (l : option loc) : option A :=
  match l with Some l => f a l | None => None end.

(** ** Calls *)

Inductive Call :=
| ValueCreateFloat64 (x : Z)
| ValueCreateInteger (i : Z)
| ValueCreateBoolean (b : bool)
| ValueCreateString (out : bool) (s : FoxgloveString)
| ValueCreateArray (array : loc)
| ValueCreateDict (dict : loc)
| ValueClone (value : option loc)
| ValueFree (value : option loc)
| ArrayCreate (capacity : nat)
| ArrayPush (array value : option loc)
| ArrayFree (array : option loc)
| DictCreate (capacity : nat)
| DictInsert (dict : option loc) (key : FoxgloveString) (value : option loc)
| DictFree (dict : option loc)
| ParamCreate (out : bool) (name : FoxgloveString) (ty : FoxgloveParameterType) (value : option loc)
| ParamCreateEmpty (out : bool) (name : FoxgloveString)
| ParamCreateFloat64 (out : bool) (name : FoxgloveString) (x : Z)
| ParamCreateInteger (out : bool) (name : FoxgloveString) (i : Z)
| ParamCreateBoolean (out : bool) (name : FoxgloveString) (b : bool)
| ParamCreateString (out : bool) (name value : FoxgloveString)
| ParamCreateByteArray (out : bool) (name : FoxgloveString) (data : list byte)
| ParamCreateFloat64Array (out : bool) (name : FoxgloveString) (values : list Z)
| ParamCreateIntegerArray (out : bool) (name : FoxgloveString) (values : list Z)
| ParamCreateDict (out : bool) (name : FoxgloveString) (dict : loc)
| ParamClone (param : option loc)
| ParamFree (param : option loc)
| DecodedSize (param : option loc)
| DecodeByteArray (param : option loc) (len : nat)
| ParamsCreate (capacity : nat)
| ParamsPush (array param : option loc)
| ParamsFree (array : option loc)
| Publish (server : ServerHandle) (params : option loc).

Inductive Ret :=
| RUnit
| RHandle (l : option loc)
| RError (e : CError)
| RCreated (e : CError) (l : option loc)
| RSize (e : CError) (n : option nat)
| RData (e : CError) (data : list byte)
| RPublished (e : CError) (params : option (list Param)).
Definition handle_of (r : Ret) : loc :=
  match r with RHandle (Some l) | RCreated _ (Some l) => l | _ => 1%positive end.

Section api.
Context `{Base64} `{Base64Slice}.

Definition exec (c : Call) : M Ret :=
  let handle m := l ← m; mret (RHandle (Some l)) in
  let handle_opt m := l ← m; mret (RHandle l) in
  let unit m := _ ← m; mret RUnit in
  let error m := e ← m; mret (RError e) in
  let created m := '(e, l) ← m; mret (RCreated e l) in
  match c with
  | ValueCreateFloat64 x => handle (foxglove_parameter_value_create_float64 x)
  | ValueCreateInteger i => handle (foxglove_parameter_value_create_integer i)
  | ValueCreateBoolean b => handle (foxglove_parameter_value_create_boolean b)
  | ValueCreateString out s => created (foxglove_parameter_value_create_string out s)
  | ValueCreateArray l => handle (foxglove_parameter_value_create_array l)
  | ValueCreateDict l => handle (foxglove_parameter_value_create_dict l)
  | ValueClone v => handle_opt (foxglove_parameter_value_clone v)
  | ValueFree v => unit (foxglove_parameter_value_free v)
  | ArrayCreate n => handle (foxglove_parameter_value_array_create n)
  | ArrayPush a v => error (foxglove_parameter_value_array_push a v)
  | ArrayFree a => unit (foxglove_parameter_value_array_free a)
  | DictCreate n => handle (foxglove_parameter_value_dict_create n)
  | DictInsert d k v => error (foxglove_parameter_value_dict_insert d k v)
  | DictFree d => unit (foxglove_parameter_value_dict_free d)
  | ParamCreate out name ty v => created (foxglove_parameter_create out name ty v)
  | ParamCreateEmpty out name => created (foxglove_parameter_create_empty out name)
  | ParamCreateFloat64 out name x => created (foxglove_parameter_create_float64 out name x)
  | ParamCreateInteger out name i => created (foxglove_parameter_create_integer out name i)
  | ParamCreateBoolean out name b => created (foxglove_parameter_create_boolean out name b)
  | ParamCreateString out name s => created (foxglove_parameter_create_string out name s)
  | ParamCreateByteArray out name d => created (foxglove_parameter_create_byte_array out name d)
  | ParamCreateFloat64Array out name l => created (foxglove_parameter_create_float64_array out name l)
  | ParamCreateIntegerArray out name l => created (foxglove_parameter_create_integer_array out name l)
  | ParamCreateDict out name d => created (foxglove_parameter_create_dict out name d)
  | ParamClone p => handle_opt (foxglove_parameter_clone p)
  | ParamFree p => unit (foxglove_parameter_free p)
  | DecodedSize p => '(e, n) ← foxglove_parameter_get_byte_array_decoded_size p; mret (RSize e n)
  | DecodeByteArray p len =>
    '(e, d) ← foxglove_parameter_decode_byte_array p true len; mret (RData e d)
  | ParamsCreate n => handle (foxglove_parameter_array_create n)
  | ParamsPush a p => error (foxglove_parameter_array_push a p)
  | ParamsFree a => unit (foxglove_parameter_array_free a)
  | Publish s a => '(e, ps) ← foxglove_server_publish_parameter_values s a; mret (RPublished e ps)
  end.

(** ** The contract and the effect *)

Definition null_or {A} (f : loc → option A) (l : option loc) : bool :=
  match l with None => true | Some l => match f l with Some _ => true | None => false end end.
Definition room (n size : nat) : bool := bool_decide (Z.of_nat n * Z.of_nat size < 2 ^ 63)%Z.

(** The contract of each function: its handles are null or held. *)
Definition allowed (c : Call) (a : Abs) : bool :=
  match c with
  | ValueCreateArray l => null_or (arr_at a) (Some l)
  | ValueCreateDict l | ParamCreateDict _ _ l => null_or (dict_at a) (Some l)
  | ValueClone v | ValueFree v | ParamCreate _ _ _ v => null_or (val_at a) v
  | ArrayPush l v => null_or (arr_at a) l && null_or (val_at a) v
  | ArrayFree l => null_or (arr_at a) l
  | DictInsert d _ v => null_or (dict_at a) d && null_or (val_at a) v
  | DictFree d => null_or (dict_at a) d
  | ParamClone p | ParamFree p | DecodedSize p | DecodeByteArray p _ => null_or (par_at a) p
  | ParamsPush l p => null_or (pars_at a) l && null_or (par_at a) p
  | ParamsFree l => null_or (pars_at a) l
  | Publish _ l => null_or (pars_at a) l
  | _ => true
  end.

(** Calls that keep the contract and do not return: a capacity of more than
    [isize::MAX] bytes panics, and publishing a value array that has elements and
    spare capacity frees its buffer with a layout that is not its own. *)
Inductive Failure := Panics | Faults (e : Fault).
Definition fails {A} (f : Failure) : result Fault A :=
  match f with Panics => Panic | Faults e => Err e end.
Definition failure (c : Call) (a : Abs) : option Failure :=
  match c with
  | ArrayCreate n | ParamsCreate n => if room n 32 then None else Some Panics
  | DictCreate n => if room n 24 then None else Some Panics
  | Publish OpenServer l =>
    match behind pars_at a l with
    | Some (_, ps) => if forallb param_convertible ps then None else Some (Faults BadLayout)
    | None => None
    end
  | _ => None
  end.
(** The buffers that a call forgets: those of the empty value arrays with spare
    capacity that are published. *)
Definition unfreed_by (c : Call) (a : Abs) : nat :=
  match c with
  | Publish OpenServer l =>
    match behind pars_at a l with Some (_, ps) => list_sum (map param_unfreed ps) | None => 0 end
  | _ => 0
  end.

Definition drop_handle (l : option loc) (a : Abs) : Abs :=
  match l with Some l => delete l a | None => a end.
Definition created (out : bool) (name : FoxgloveString) (ty : FoxgloveParameterType)
    (v : option AValue) (new : loc) (a : Abs) : Ret * Abs :=
  if negb out then (RCreated CValueError None, a)
  else match as_utf8_str name with
       | None => (RCreated CUtf8Error None, a)
       | Some n => (RCreated COk (Some new),
                    <[new := OParam {| ap_name := n; ap_type := ty; ap_value := v |}]> a)
       end.

(** [new] is the handle that the call returns, if it returns one. *)
Definition effect (c : Call) (new : loc) (a : Abs) : Ret * Abs :=
  let handle o a := (RHandle (Some new), <[new := o]> a) in
  match c with
  | ValueCreateFloat64 x => handle (OValue (AFloat64 x)) a
  | ValueCreateInteger i => handle (OValue (AInteger i)) a
  | ValueCreateBoolean b => handle (OValue (ABoolean b)) a
  | ValueCreateString out s =>
    if negb out then (RCreated CValueError None, a)
    else match as_utf8_str s with
         | None => (RCreated CUtf8Error None, a)
         | Some s => (RCreated COk (Some new), <[new := OValue (AString s)]> a)
         end
  | ValueCreateArray l =>
    match arr_at a l with
    | Some (cap, xs) => handle (OValue (AArray cap xs)) (delete l a)
    | None => (RUnit, a)
    end
  | ValueCreateDict l =>
    match dict_at a l with
    | Some (cap, xs) => handle (OValue (ADict cap xs)) (delete l a)
    | None => (RUnit, a)
    end
  | ValueClone v =>
    match behind val_at a v with Some v => handle (OValue (fitted v)) a | None => (RHandle None, a) end
  | ValueFree l | ArrayFree l | DictFree l | ParamFree l | ParamsFree l => (RUnit, drop_handle l a)
  | ArrayCreate n => handle (OArray n []) a
  | DictCreate n => handle (ODict n []) a
  | ParamsCreate n => handle (OParams n []) a
  | ArrayPush l v =>
    match behind arr_at a l, behind val_at a v, l with
    | Some (cap, xs), Some x, Some l =>
      (RError COk, <[l := OArray (pushed (length xs) cap) (xs ++ [x])]> (drop_handle v a))
    | _, _, _ => (RError CValueError, drop_handle v a)
    end
  | DictInsert d k v =>
    match behind dict_at a d, behind val_at a v, d with
    | Some (cap, xs), Some x, Some d =>
      match as_utf8_str k with
      | Some k => (RError COk, <[d := ODict (pushed (length xs) cap) (xs ++ [(k, x)])]> (drop_handle v a))
      | None => (RError CUtf8Error, drop_handle v a)
      end
    | _, _, _ => (RError CValueError, drop_handle v a)
    end
  | ParamCreate out name ty v => created out name ty (behind val_at a v) new (drop_handle v a)
  | ParamCreateEmpty out name => created out name TNone None new a
  | ParamCreateFloat64 out name x => created out name TFloat64 (Some (AFloat64 x)) new a
  | ParamCreateInteger out name i => created out name TNone (Some (AInteger i)) new a
  | ParamCreateBoolean out name b => created out name TNone (Some (ABoolean b)) new a
  | ParamCreateString out name s =>
    match as_utf8_str s with
    | None => (RCreated CUtf8Error None, a)
    | Some s => created out name TNone (Some (AString s)) new a
    end
  | ParamCreateByteArray out name d =>
    created out name TByteArray (Some (AString (base64_encode d))) new a
  | ParamCreateFloat64Array out name l =>
    created out name TFloat64Array (Some (AArray (length l) (AFloat64 <$> l))) new a
  | ParamCreateIntegerArray out name l =>
    created out name TNone (Some (AArray (length l) (AInteger <$> l))) new a
  | ParamCreateDict out name l =>
    match dict_at a l with
    | Some (cap, xs) => created out name TNone (Some (ADict cap xs)) new (delete l a)
    | None => (RUnit, a)
    end
  | ParamClone p =>
    match behind par_at a p with Some p => handle (OParam (param_fitted p)) a | None => (RHandle None, a) end
  | DecodedSize p =>
    match behind par_at a p ≫= byte_array_text with
    | Some s => (RSize COk (Some (decoded_len_estimate (String.length s))), a)
    | None => (RSize CValueError None, a)
    end
  | DecodeByteArray p len =>
    match behind par_at a p ≫= byte_array_text with
    | Some s =>
      (if decide (len < decoded_len_estimate (String.length s)) then RData CBufferTooShort []
       else match base64_decode s with
            | inr d => RData COk d
            | inl _ => RData CBase64DecodeError []
            end, a)
    | None => (RData CValueError [], a)
    end
  | ParamsPush l p =>
    match behind pars_at a l, behind par_at a p, l with
    | Some (cap, xs), Some x, Some l =>
      (RError COk, <[l := OParams (pushed (length xs) cap) (xs ++ [x])]> (drop_handle p a))
    | _, _, _ => (RError CValueError, drop_handle p a)
    end
  | Publish s l =>
    match behind pars_at a l with
    | Some (_, ps) =>
      match s with
      | OpenServer => (RPublished COk (Some (map param_native ps)), drop_handle l a)
      | NullServer => (RPublished CValueError None, drop_handle l a)
      | ClosedServer => (RPublished CSinkClosed None, drop_handle l a)
      end
    | None => (RPublished CValueError None, a)
    end
  end.

(** A program: it makes the calls the contract allows, and skips the others.  The
    result pairs each return value with the one that [effect] announces; [n] counts the
    buffers that were forgotten. *)
Fixpoint client (cs : list Call) (a : Abs) (n : nat) : M (list (Ret * Ret) * Abs * nat) :=
  match cs with
  | [] => mret ([], a, n)
  | c :: cs =>
    if allowed c a then
      r ← exec c;
      let '(r', a') := effect c (handle_of r) a in
      '(rs, b, m) ← client cs a' (n + unfreed_by c a);
      mret ((r, r') :: rs, b, m)
    else client cs a n
  end.
End api.

(** ** Ownership of the handles *)

Lemma own_all_take a l o : a !! l = Some o → own_all a ⊢ own_obj l o ∗ own_all (delete l a).
Proof. intros Hl. unfold own_all. by rw (big_sepM_delete _ a l o). Qed.
Lemma own_obj_points_to l o : own_obj l o ⊢ ∃ b, l ↦ b ∗ True.
Proof. destruct o; iIntros "(%c & Hl & _)"; iExists _; iFrame. Qed.
Lemma own_obj_fresh a l o : own_obj l o ∗ own_all a ⊢ ⌜a !! l = None⌝.
Proof.
  destruct (a !! l) as [o'|] eqn:El; [|by iIntros "_"]. rw (own_all_take a l o' El) !own_obj_points_to.
  iIntros "((%b & Hb & _) & (%c & Hc & _) & _)". iExFalso.
  iDestruct (points_to_ne with "[Hb Hc]") as %Hne; [iFrame|done].
Qed.
Lemma own_all_put a l o : own_obj l o ∗ own_all a ⊢ own_all (<[l:=o]> a).
Proof.
  rw {1}(bi.and_intro (own_obj l o ∗ own_all a) _ _ (own_obj_fresh a l o) (reflexivity _)).
  iIntros "[%Hl H]". unfold own_all. by rw big_sepM_insert.
Qed.

Lemma val_at_Some a l v : val_at a l = Some v → a !! l = Some (OValue v).
Proof. unfold val_at. destruct (a !! l) as [[]|]; naive_solver. Qed.
Lemma arr_at_Some a l p : arr_at a l = Some p → a !! l = Some (OArray p.1 p.2).
Proof. unfold arr_at. destruct (a !! l) as [[]|]; naive_solver. Qed.
Lemma dict_at_Some a l p : dict_at a l = Some p → a !! l = Some (ODict p.1 p.2).
Proof. unfold dict_at. destruct (a !! l) as [[]|]; naive_solver. Qed.
Lemma par_at_Some a l p : par_at a l = Some p → a !! l = Some (OParam p).
Proof. unfold par_at. destruct (a !! l) as [[]|]; naive_solver. Qed.
Lemma pars_at_Some a l p : pars_at a l = Some p → a !! l = Some (OParams p.1 p.2).
Proof. unfold pars_at. destruct (a !! l) as [[]|]; naive_solver. Qed.

(** Two different objects are behind different handles. *)
Lemma lookup_delete_other (a : Abs) k l o o' :
  a !! k = Some o → a !! l = Some o' → o ≠ o' → delete k a !! l = Some o'.
Proof. intros Hk Hl Hne. rw lookup_delete_ne //. intros ->. congruence. Qed.

Lemma own_all_back a l o : a !! l = Some o → own_obj l o ∗ own_all (delete l a) ⊢ own_all a.
Proof. intros Hl. unfold own_all. by rw -(big_sepM_delete _ a l o Hl). Qed.

(** ** Freeing what is behind a handle *)

Lemma list_max_elems {A} (f : A → nat) l n : list_max (map f l) ≤ n → Forall (λ x, f x ≤ n) l.
Proof. intros Hle%list_max_le. by apply Forall_map in Hle. Qed.

Lemma wp_free_value v l :
  own_obj l (OValue v) ⊢ wp (with_fuel (λ n, Box_drop as_value (Value_drop n) l)) (λ _, emp).
Proof.
  apply (wp_with_fuel _ _ _ (depth v)).
  - intros h Hh. pose proof (bounded_box BValue (own_value v) _ l (bounded_value v) h Hh). lia.
  - intros n Hn. by apply wp_Box_drop_value.
Qed.
Lemma wp_free_array cap xs l :
  own_obj l (OArray cap xs) ⊢
  wp (with_fuel (λ n, Box_drop as_array (vec_drop (Value_drop n)) l)) (λ _, emp).
Proof.
  apply (wp_with_fuel _ _ _ (list_max (map depth xs))).
  - intros h Hh. assert (bounded (own_obj l (OArray cap xs)) (S (list_max (map depth xs)))) as Hb.
    { apply bounded_box. intros v. apply bounded_vec, Forall_true. intros x c. apply bounded_value. }
    specialize (Hb h Hh). lia.
  - intros n Hn%list_max_elems. apply wp_Box_drop; [done|]. intros v. apply wp_vec_drop.
    eapply Forall_impl; [exact Hn|]. intros x Hx. by apply wp_Value_drop.
Qed.
Lemma wp_free_dict cap xs l :
  own_obj l (ODict cap xs) ⊢
  wp (with_fuel (λ n, Box_drop as_dict (vec_drop (Entry_drop (Value_drop n))) l)) (λ _, emp).
Proof.
  apply (wp_with_fuel _ _ _ (list_max (map (λ kv, depth kv.2) xs))).
  - intros h Hh.
    assert (bounded (own_obj l (ODict cap xs)) (S (list_max (map (λ kv, depth kv.2) xs)))) as Hb.
    { apply bounded_box. intros v. apply bounded_vec, Forall_true. intros x c. apply bounded_entry. }
    specialize (Hb h Hh). lia.
  - intros n Hn%list_max_elems. apply wp_Box_drop; [done|]. intros v. apply wp_vec_drop.
    eapply Forall_impl; [exact Hn|]. intros x Hx. by apply wp_Entry_drop, wp_Value_drop.
Qed.
Lemma wp_free_param p l :
  own_obj l (OParam p) ⊢ wp (with_fuel (λ n, Box_drop as_param (Parameter_drop n) l)) (λ _, emp).
Proof.
  apply (wp_with_fuel _ _ _ (param_depth p)).
  - intros h Hh. pose proof (bounded_box BParam (own_param p) _ l (bounded_param p) h Hh). lia.
  - intros n Hn. apply wp_Box_drop; [done|]. intros c. by apply wp_Parameter_drop.
Qed.

Lemma bounded_params cap ps v :
  bounded (own_vec own_param cap ps v) (list_max (map param_depth ps)).
Proof.
  apply bounded_vec, Forall_true. intros x c. eapply bounded_mono; [done|apply bounded_param|lia].
Qed.
Lemma wp_free_params cap ps l :
  own_obj l (OParams cap ps) ⊢
  wp (with_fuel (λ n, Box_drop as_params (vec_drop (Parameter_drop n)) l)) (λ _, emp).
Proof.
  apply (wp_with_fuel _ _ _ (list_max (map param_depth ps))).
  - intros h Hh. pose proof (bounded_box BParamsBox (own_vec own_param cap ps) _ l
      (bounded_params cap ps) h Hh). lia.
  - intros n Hn%list_max_elems. apply wp_Box_drop; [done|]. intros v. apply wp_vec_drop.
    eapply Forall_impl; [exact Hn|]. intros x Hx c. by apply wp_Parameter_drop.
Qed.

(** ** The calls *)

Lemma wp_value_string s : emp ⊢ wp (value_string s) (λ l, own_obj l (OValue (AString s))).
Proof.
  iIntros "_". iApply wp_bind. iApply (wp_wand with "[]"); [by iApply wp_StringBuf_new|].
  iIntros (c) "Hc". iApply wp_alloc. iIntros (l) "Hl". iExists (CString c). iFrame.
Qed.

(** An array of plain values, from a slice. *)
Lemma wp_value_array {X} (c : X → CValue) (f : X → AValue) xs :
  (∀ x, emp ⊢ own_value (f x) (c x)) →
  emp ⊢ wp (value_array (map c xs)) (λ l, own_obj l (OValue (AArray (length xs) (map f xs)))).
Proof.
  iIntros (Hc) "_". unfold value_array. rw length_map. iApply wp_bind.
  iApply (wp_wand with "[]"); [by iApply wp_vec_new; rw ?length_map|]. iIntros (v) "Hv".
  iAssert (own_vec own_value (length xs) (map f xs) v) with "[Hv]" as "Hv".
  { iExists (map c xs). iFrame "Hv". clear -Hc.
    iInduction xs as [|x xs] "IH"; cbn; [done|]. iSplitL ""; [by iApply Hc|]. by iApply "IH". }
  iApply wp_alloc. iIntros (l) "Hl". iExists (CArray v). iFrame.
Qed.

(** base64 respects its estimate. *)
Class Base64SliceLaws `{Base64} `{Base64Slice} : Prop := {
  decode_slice_law : ∀ s n, decoded_len_estimate (String.length s) ≤ n →
    decode_slice_unchecked s n =
    match base64_decode s with inr d => Ok d | inl e => Err e end
}.

Section calls.
Context `{Base64} `{Base64Slice} `{!Base64SliceLaws}.

(** What [effect] says of a call from the handles [a]. *)
Definition announced (c : Call) (a : Abs) (r : Ret) : Assertion :=
  (⟨(effect c (handle_of r) a).1 = r⟩ ∗ own_all (effect c (handle_of r) a).2)%I.

Definition own_value_opt (v : option AValue) (l : option loc) : Assertion :=
  own_opt (λ v, own_box BValue (own_value v)) v l.

Lemma wp_create out name ty v l a :
  own_value_opt v l ∗ own_all a ⊢
  wp (foxglove_parameter_create out name ty l) (λ r,
    ⟨(created out name ty v (handle_of (RCreated r.1 r.2)) a).1 = RCreated r.1 r.2⟩ ∗
    own_all (created out name ty v (handle_of (RCreated r.1 r.2)) a).2).
Proof.
  iIntros "(Hv & Ha)". unfold foxglove_parameter_create, created.
  assert (own_value_opt v l ⊢ wp (match l with
    | Some l => with_fuel (λ n, Box_drop as_value (Value_drop n) l) | None => mret tt end) (λ _, emp))
    as Hfree.
  { unfold own_value_opt. destruct v, l; cbn; try (by iIntros "%"); [apply wp_free_value|].
    iIntros "_". by iApply wp_ret. }
  destruct out; cbn [negb].
  - destruct (as_utf8_str name) as [n|].
    + iApply wp_bind. iApply (wp_wand with "[Hv]"); [by iApply wp_Parameter_new|]. iIntros (p) "Hp".
      step wp_alloc. iIntros (k) "Hk". iApply wp_ret. cbn. iSplit; [done|]. iApply own_all_put. iFrame.
    + iApply wp_bind. iApply (wp_wand with "[Hv]"); [by iApply Hfree|]. iIntros (_) "_". iApply wp_ret.
      by iFrame.
  - iApply wp_bind. iApply (wp_wand with "[Hv]"); [by iApply Hfree|]. iIntros (_) "_". iApply wp_ret.
    by iFrame.
Qed.

(** An array push: the vector with its new element goes back behind its handle. *)
Lemma wp_push {X C} `{VecElem C} (own : X → C → Assertion) mk (un : Block → option RawVec) o
    cap xs l x c :
  (∀ v, un (mk v) = Some v) → (∀ cap xs, own_obj l (o cap xs) = own_box mk (own_vec own cap xs) l) →
  own_obj l (o cap xs) ∗ own x c ⊢
  wp (a ← Box_read un l; a ← raw_vec_push a c; _ ← store l (mk a); mret COk)
    (λ e, ⟨e = COk⟩ ∗ own_obj l (o (pushed (length xs) cap) (xs ++ [x]))).
Proof.
  iIntros (Hun Hown) "(Ho & Hx)". rw !Hown. iDestruct "Ho" as (v) "(Hl & Hv)".
  step wp_Box_read with "Hl"; [done|]. iIntros "Hl". iApply wp_bind.
  iApply (wp_wand with "[Hv Hx]"); [iApply (wp_vec_push own cap xs v x c); iFrame|]. iIntros (w) "Hw".
  step wp_store with "Hl". iIntros "Hl". iApply wp_ret. iSplit; [done|]. iExists w. iFrame.
Qed.
Lemma wp_push_box {X C} `{VecElem C} (own : X → C → Assertion) mk (un : Block → option RawVec) o
    mk' (un' : Block → option C) cap xs l x k :
  (∀ v, un (mk v) = Some v) → (∀ c, un' (mk' c) = Some c) →
  (∀ cap xs, own_obj l (o cap xs) = own_box mk (own_vec own cap xs) l) →
  own_obj l (o cap xs) ∗ own_box mk' (own x) k ⊢
  wp (a ← Box_read un l; c ← Box_take un' k; a ← raw_vec_push a c; _ ← store l (mk a); mret COk)
    (λ e, ⟨e = COk⟩ ∗ own_obj l (o (pushed (length xs) cap) (xs ++ [x]))).
Proof.
  iIntros (Hun Hun' Hown) "(Ho & %c & Hk & Hx)". rw !Hown. iDestruct "Ho" as (v) "(Hl & Hv)".
  step wp_Box_read with "Hl"; [done|]. iIntros "Hl". step wp_Box_take with "Hk"; [done|]. iApply wp_bind.
  iApply (wp_wand with "[Hv Hx]"); [iApply (wp_vec_push own cap xs v x c); iFrame|]. iIntros (w) "Hw".
  step wp_store with "Hl". iIntros "Hl". iApply wp_ret. iSplit; [done|]. iExists w. iFrame.
Qed.

(** A call whose effect does not depend on the handle it returns. *)
Lemma announced_effect c a r a' m :
  exec c = m → (∀ new, effect c new a = (r, a')) →
  (own_all a ⊢ wp m (λ r', ⟨r' = r⟩ ∗ own_all a')) → own_all a ⊢ wp (exec c) (announced c a).
Proof.
  iIntros (-> He Hm) "Ha". iApply (wp_wand with "[Ha]"); [by iApply Hm|]. iIntros (r') "(-> & Ha)".
  unfold announced. rw He. by iFrame.
Qed.
(** A call that returns a new handle to [o]. *)
Lemma announced_handle c a o a' m :
  exec c = (l ← m; mret (RHandle (Some l))) →
  (∀ new, effect c new a = (RHandle (Some new), <[new := o]> a')) →
  (own_all a ⊢ wp m (λ l, own_obj l o ∗ own_all a')) → own_all a ⊢ wp (exec c) (announced c a).
Proof.
  iIntros (-> He Hm) "Ha". iApply wp_bind. iApply (wp_wand with "[Ha]"); [by iApply Hm|].
  iIntros (l) "H". iApply wp_ret. unfold announced. rw He. cbn. iSplit; [done|]. by iApply own_all_put.
Qed.
Lemma announced_handle_opt c a o a' m :
  exec c = (l ← m; mret (RHandle l)) →
  (∀ new, effect c new a = (RHandle (Some new), <[new := o]> a')) →
  (own_all a ⊢ wp m (λ l, ∃ k, ⟨l = Some k⟩ ∗ own_obj k o ∗ own_all a')) →
  own_all a ⊢ wp (exec c) (announced c a).
Proof.
  iIntros (-> He Hm) "Ha". iApply wp_bind. iApply (wp_wand with "[Ha]"); [by iApply Hm|].
  iIntros (l) "(%k & -> & H)". iApply wp_ret. unfold announced. rw He. cbn. iSplit; [done|].
  by iApply own_all_put.
Qed.
Lemma announced_created c a out name ty v a' m :
  exec c = ('(e, l) ← m; mret (RCreated e l)) →
  (∀ new, effect c new a = created out name ty v new a') →
  (own_all a ⊢ wp m (λ r,
    ⟨(created out name ty v (handle_of (RCreated r.1 r.2)) a').1 = RCreated r.1 r.2⟩ ∗
    own_all (created out name ty v (handle_of (RCreated r.1 r.2)) a').2)) →
  own_all a ⊢ wp (exec c) (announced c a).
Proof.
  iIntros (-> He Hm) "Ha". iApply wp_bind. iApply (wp_wand with "[Ha]"); [by iApply Hm|].
  iIntros ([e l]) "H". iApply wp_ret. unfold announced. by rw He.
Qed.

(** The last steps of a program that returns a constant after [m]. *)
Lemma wp_then {X Y} (m : M X) (r : Y) (P Q : Assertion) :
  (P ⊢ wp m (λ _, Q)) → P ⊢ wp (_ ← m; mret r) (λ r', ⟨r' = r⟩ ∗ Q).
Proof.
  iIntros (Hm) "HP". iApply wp_bind. iApply (wp_wand with "[HP]"); [by iApply Hm|].
  iIntros (x) "HQ". iApply wp_ret. by iFrame.
Qed.
Lemma wp_result {X Y} (m : M X) (f : X → Y) x (P Q : Assertion) :
  (P ⊢ wp m (λ x', ⟨x' = x⟩ ∗ Q)) → P ⊢ wp (x ← m; mret (f x)) (λ r', ⟨r' = f x⟩ ∗ Q).
Proof.
  iIntros (Hm) "HP". iApply wp_bind. iApply (wp_wand with "[HP]"); [by iApply Hm|].
  iIntros (x') "(-> & HQ)". iApply wp_ret. by iFrame.
Qed.
Lemma wp_frame {X} (m : M X) (P Q R : Assertion) :
  (P ⊢ wp m (λ _, Q)) → P ∗ R ⊢ wp m (λ _, Q ∗ R).
Proof. iIntros (Hm) "(HP & HR)". iApply (wp_wand with "[HP]"); [by iApply Hm|]. iIntros (x) "$". done. Qed.

Lemma null_or_Some {A} (f : loc → option A) l : null_or f (Some l) = true → ∃ x, f l = Some x.
Proof. cbn. destruct (f l); [by eauto|done]. Qed.

(** *** Handles to new objects *)

Lemma wp_alloc_obj b o a (P : Assertion) :
  (∀ l, l ↦ b ∗ P ⊢ own_obj l o) → P ∗ own_all a ⊢ wp (alloc b) (λ l, own_obj l o ∗ own_all a).
Proof.
  iIntros (Ho) "(HP & Ha)". iApply wp_alloc. iIntros (l) "Hl". iFrame. iApply Ho. iFrame.
Qed.

Lemma step_plain c v x a :
  exec c = (l ← alloc (BValue v); mret (RHandle (Some l))) →
  (∀ new, effect c new a = (RHandle (Some new), <[new := OValue x]> a)) →
  (emp ⊢ own_value x v) → own_all a ⊢ wp (exec c) (announced c a).
Proof.
  intros Hc He Hv. eapply (announced_handle _ _ _ _ _ Hc He). rw -{1}(bi.emp_sep (own_all a)).
  apply wp_alloc_obj. intros l. iIntros "(Hl & _)". iExists v. iFrame. by iApply Hv.
Qed.

Lemma step_vec_create {X C} `{VecElem C} (own : X → C → Assertion) mk o c n a :
  (∀ cap xs l, own_obj l (o cap xs) = own_box mk (own_vec own cap xs) l) →
  exec c = (l ← (v ← vec_with_capacity (A:=C) n; alloc (mk v)); mret (RHandle (Some l))) →
  (∀ new, effect c new a = (RHandle (Some new), <[new := o n []]> a)) →
  (Z.of_nat n * elem_size (A:=C) < 2 ^ 63)%Z → own_all a ⊢ wp (exec c) (announced c a).
Proof.
  intros Ho Hc He Hn. eapply (announced_handle _ _ _ _ _ Hc He). iIntros "Ha". iApply wp_bind.
  unfold vec_with_capacity. rw decide_True; [|done].
  iApply (wp_wand with "[]"); [iApply wp_vec_new; [cbn; lia|done]|]. iIntros (v) "Hv".
  iApply (wp_alloc_obj with "[$Ha Hv]"); [|iExact "Hv"]. intros l. rw Ho. iIntros "(Hl & Hv)".
  iExists v. iFrame.
Qed.

Lemma step_value_of_box c l o mk un (con : RawVec → CValue) x a (own : RawVec → Assertion) :
  exec c = (l' ← (v ← Box_take un l; alloc (BValue (con v))); mret (RHandle (Some l'))) →
  (∀ new, effect c new a = (RHandle (Some new), <[new := OValue x]> (delete l a))) →
  a !! l = Some o → own_obj l o = own_box mk own l → (∀ v, un (mk v) = Some v) →
  (∀ v, own v ⊢ own_value x (con v)) → own_all a ⊢ wp (exec c) (announced c a).
Proof.
  intros Hc He Hl Ho Hun Hv. eapply (announced_handle _ _ _ _ _ Hc He).
  rw (own_all_take a l o Hl) Ho. iIntros "((%v & Hl & Hv) & Ha)". step wp_Box_take with "Hl"; [done|].
  iApply (wp_alloc_obj with "[$Ha Hv]"); [|iExact "Hv"]. intros k. rw Hv. iIntros "(Hk & Hv)".
  iExists (con v). iFrame.
Qed.

(** *** Freeing *)

Lemma step_free c l (m : loc → M unit) o a :
  exec c = (_ ← m l; mret RUnit) → (∀ new, effect c new a = (RUnit, delete l a)) →
  a !! l = Some o → (own_obj l o ⊢ wp (m l) (λ _, emp)) → own_all a ⊢ wp (exec c) (announced c a).
Proof.
  intros Hc He Hl Hm. apply (announced_effect _ _ _ _ _ Hc He), wp_then.
  rw (own_all_take a l o Hl) (wp_frame _ _ emp _ Hm). iIntros "H". iApply (wp_wand with "H").
  by iIntros (_) "(_ & $)".
Qed.
Lemma step_free_null c a :
  exec c = (_ ← mret tt; mret RUnit) → (∀ new, effect c new a = (RUnit, a)) →
  own_all a ⊢ wp (exec c) (announced c a).
Proof.
  intros Hc He. apply (announced_effect _ _ _ _ _ Hc He), wp_then. iIntros "Ha". by iApply wp_ret.
Qed.

(** *** Pushing *)

Lemma wp_free_behind l o (m : M unit) a :
  a !! l = Some o → (own_obj l o ⊢ wp m (λ _, emp)) → own_all a ⊢ wp m (λ _, own_all (delete l a)).
Proof.
  intros Hl Hm. rw (own_all_take a l o Hl) (wp_frame _ _ emp _ Hm).
  iIntros "H". iApply (wp_wand with "H"). by iIntros (_) "(_ & $)".
Qed.

Lemma step_refused c e a :
  exec c = (e' ← mret e; mret (RError e')) → (∀ new, effect c new a = (RError e, a)) →
  own_all a ⊢ wp (exec c) (announced c a).
Proof.
  intros Hc He. apply (announced_effect _ _ _ _ _ Hc He), wp_result. iIntros "Ha". iApply wp_ret.
  by iFrame.
Qed.
Lemma step_refused_free c e l o (m : M unit) a :
  exec c = (e' ← (_ ← m; mret e); mret (RError e')) →
  (∀ new, effect c new a = (RError e, delete l a)) →
  a !! l = Some o → (own_obj l o ⊢ wp m (λ _, emp)) → own_all a ⊢ wp (exec c) (announced c a).
Proof.
  intros Hc He Hl Hm. apply (announced_effect _ _ _ _ _ Hc He), wp_result, wp_then.
  by apply (wp_free_behind l o).
Qed.
Lemma step_push c l k o o1 o2 (m : M CError) a :
  exec c = (e' ← m; mret (RError e')) →
  (∀ new, effect c new a = (RError COk, <[l := o2]> (delete k a))) →
  a !! k = Some o → a !! l = Some o1 → o ≠ o1 →
  (own_obj l o1 ∗ own_obj k o ⊢ wp m (λ e, ⟨e = COk⟩ ∗ own_obj l o2)) →
  own_all a ⊢ wp (exec c) (announced c a).
Proof.
  intros Hc He Hk Hl Hne Hm. apply (announced_effect _ _ _ _ _ Hc He), wp_result.
  rw (own_all_take a k o Hk) (own_all_take (delete k a) l o1); [|by eapply lookup_delete_other].
  iIntros "(Hk & Hl & Ha)". iApply (wp_wand with "[Hk Hl]"); [iApply Hm; iFrame|].
  iIntros (e) "(-> & Hl)". iSplit; [done|].
  iDestruct (own_all_put with "[Hl Ha]") as "Ha"; [iFrame|]. by rw insert_delete_eq.
Qed.
(** *** The remaining functions *)

(** Converting an array, in the fuel of [Params_consume] and then whole. *)
Lemma params_ok n ps :
  list_max (map param_depth ps) ≤ n →
  Forall (λ a, if param_convertible a then ∀ p, own_param a p ⊢
      wp (Parameter_into_native n p) (λ r, ⟨r = param_native a⟩ ∗ lost_blocks (param_unfreed a))
    else ∀ p, own_param a p ⊢ wp_fault (Parameter_into_native n p) BadLayout) ps.
Proof. intros Hn%list_max_elems. eapply Forall_impl; [exact Hn|]. intros a. apply wp_Parameter_into_native. Qed.
Lemma wp_consume l cap ps :
  forallb param_convertible ps = true →
  own_obj l (OParams cap ps) ⊢ wp (Params_consume l) (λ r,
    ⟨r = map param_native ps⟩ ∗ lost_blocks (list_sum (map param_unfreed ps))).
Proof.
  iIntros (Hf) "(%v & Hl & Hv)". step wp_Box_take with "Hl"; [done|].
  iApply (wp_with_fuel _ _ _ (list_max (map param_depth ps)) with "Hv").
  - intros h Hh. pose proof (bounded_params cap ps v h Hh). lia.
  - intros n Hn%params_ok. iIntros "Hv". iDestruct (own_vec_parts with "Hv") as "[[%El %Ec] Hv]".
    unfold Params_into_native. rw Ec. iApply (wp_vec_into_iter with "Hv"). by apply (good_elems _ _ _ _ Hn).
Qed.
Lemma wp_consume_fault l cap ps :
  forallb param_convertible ps = false →
  own_obj l (OParams cap ps) ⊢ wp_fault (Params_consume l) BadLayout.
Proof.
  iIntros (Hf) "(%v & Hl & Hv)". iApply wp_fault_bind. iApply (wp_Box_take with "Hl"); [done|].
  iApply (wp_fault_with_fuel _ _ _ (list_max (map param_depth ps)) with "Hv").
  - intros h Hh. pose proof (bounded_params cap ps v h Hh). lia.
  - intros n Hn%params_ok. iIntros "Hv". iDestruct (own_vec_parts with "Hv") as "[[%El %Ec] Hv]".
    unfold Params_into_native. rw Ec. iApply (wp_vec_into_iter_fault with "Hv"); [|exact Hf].
    exact (bad_elems own_param param_convertible _
      (λ a r, ⟨r = param_native a⟩ ∗ lost_blocks (param_unfreed a))%I _ _ Hn).
Qed.

Lemma wp_clone_value l v :
  own_obj l (OValue v) ⊢ wp (foxglove_parameter_value_clone (Some l))
    (λ r, ∃ k, ⟨r = Some k⟩ ∗ own_obj k (OValue (fitted v)) ∗ own_obj l (OValue v)).
Proof.
  iIntros "(%c & Hl & Hv)". step wp_Box_read with "Hl"; [done|]. iIntros "Hl". iApply wp_bind.
  iApply (wp_wand with "[Hv]").
  { iApply (wp_with_fuel _ _ _ (depth v) with "Hv").
    - intros h Hh. pose proof (bounded_value v c h Hh). lia.
    - intros n Hn. by apply wp_Value_clone. }
  iIntros (w) "(Hv & Hw)". step wp_alloc. iIntros (k) "Hk". iApply wp_ret. iExists k. iSplit; [done|].
  iSplitL "Hk Hw"; [iExists w; iFrame|iExists c; iFrame].
Qed.
Lemma wp_clone_param l p :
  own_obj l (OParam p) ⊢ wp (foxglove_parameter_clone (Some l))
    (λ r, ∃ k, ⟨r = Some k⟩ ∗ own_obj k (OParam (param_fitted p)) ∗ own_obj l (OParam p)).
Proof.
  iIntros "(%c & Hl & Hv)". step wp_Box_read with "Hl"; [done|]. iIntros "Hl". iApply wp_bind.
  iApply (wp_wand with "[Hv]").
  { iApply (wp_with_fuel _ _ _ (param_depth p) with "Hv").
    - intros h Hh. pose proof (bounded_param p c h Hh). lia.
    - intros n Hn. by apply wp_Parameter_clone. }
  iIntros (w) "(Hv & Hw)". step wp_alloc. iIntros (k) "Hk". iApply wp_ret. iExists k. iSplit; [done|].
  iSplitL "Hk Hw"; [iExists w; iFrame|iExists c; iFrame].
Qed.

Lemma step_clone c l o o' m a :
  exec c = (l' ← m; mret (RHandle l')) →
  (∀ new, effect c new a = (RHandle (Some new), <[new := o']> a)) →
  a !! l = Some o → (own_obj l o ⊢ wp m (λ r, ∃ k, ⟨r = Some k⟩ ∗ own_obj k o' ∗ own_obj l o)) →
  own_all a ⊢ wp (exec c) (announced c a).
Proof.
  intros Hc He Hl Hm. apply (announced_handle_opt _ _ _ _ _ Hc He).
  rw {1}(own_all_take a l o Hl). iIntros "(Hl & Ha)". iApply (wp_wand with "[Hl]"); [by iApply Hm|].
  iIntros (r) "(%k & -> & Hk & Hl)". iExists k. iSplit; [done|]. iFrame. iApply own_all_back; [done|].
  iFrame.
Qed.
Lemma step_clone_null c a :
  exec c = (l' ← mret None; mret (RHandle l')) → (∀ new, effect c new a = (RHandle None, a)) →
  own_all a ⊢ wp (exec c) (announced c a).
Proof.
  intros Hc He. apply (announced_effect _ _ _ _ _ Hc He), (wp_result _ RHandle None).
  iIntros "Ha". iApply wp_ret. by iFrame.
Qed.

(** Reading a byte array. *)
Lemma step_read {X} c l p (m : option string → M X) (g : X → M Ret) x r a :
  exec c = ((q ← Box_read as_param l; s ← get_byte_array_as_str q; m s) ≫= g) →
  (∀ new, effect c new a = (r, a)) → a !! l = Some (OParam p) →
  m (byte_array_text p) = mret x → g x = mret r → own_all a ⊢ wp (exec c) (announced c a).
Proof.
  intros Hc He Hl Hm Hg. apply (announced_effect _ _ _ _ _ Hc He).
  rw {1}(own_all_take a l _ Hl). iIntros "((%q & Hl & Hq) & Ha)". iApply wp_bind.
  step wp_Box_read with "Hl"; [done|]. iIntros "Hl". step wp_get_byte_array with "Hq". iIntros "Hq".
  rw Hm. iApply wp_ret. rw Hg. iApply wp_ret. iSplit; [done|].
  iApply own_all_back; [done|]. iFrame.
Qed.

Lemma step_value_array_push l v a :
  allowed (ArrayPush l v) a = true → own_all a ⊢ wp (exec (ArrayPush l v)) (announced (ArrayPush l v) a).
Proof.
  intros [Hl Hv]%andb_true_iff. destruct v as [v|].
  2: { eapply step_refused; [done|]. intros new. by destruct l as [l|]; cbn; [destruct (arr_at a l) as [[]|]|]. }
  apply null_or_Some in Hv as [x Hx]. destruct l as [l|].
  - apply null_or_Some in Hl as [[cap xs] Hxs].
    eapply (step_push _ l v (OValue x) (OArray cap xs)); [done| |by apply val_at_Some|
      exact (arr_at_Some _ _ _ Hxs)|done|].
    + intros new. cbn. by rw Hxs Hx.
    + by apply (wp_push_box own_value BArrayBox as_array OArray BValue as_value).
  - eapply (step_refused_free _ _ v (OValue x)); [done|done|by apply val_at_Some|apply wp_free_value].
Qed.

Lemma step_params_push l v a :
  allowed (ParamsPush l v) a = true → own_all a ⊢ wp (exec (ParamsPush l v)) (announced (ParamsPush l v) a).
Proof.
  intros [Hl Hv]%andb_true_iff. destruct v as [v|].
  2: { eapply step_refused; [done|]. intros new. by destruct l as [l|]; cbn; [destruct (pars_at a l) as [[]|]|]. }
  apply null_or_Some in Hv as [x Hx]. destruct l as [l|].
  - apply null_or_Some in Hl as [[cap xs] Hxs].
    eapply (step_push _ l v (OParam x) (OParams cap xs)); [done| |by apply par_at_Some|
      exact (pars_at_Some _ _ _ Hxs)|done|].
    + intros new. cbn. by rw Hxs Hx.
    + by apply (wp_push_box own_param BParamsBox as_params OParams BParam as_param).
  - eapply (step_refused_free _ _ v (OParam x)); [done|done|by apply par_at_Some|apply wp_free_param].
Qed.

Lemma step_dict_insert d k v a :
  allowed (DictInsert d k v) a = true → own_all a ⊢ wp (exec (DictInsert d k v)) (announced (DictInsert d k v) a).
Proof.
  intros [Hl Hv]%andb_true_iff. destruct v as [v|].
  2: { eapply step_refused; [done|]. intros new. by destruct d as [d|]; cbn; [destruct (dict_at a d) as [[]|]|]. }
  apply null_or_Some in Hv as [x Hx]. destruct d as [d|].
  2: { eapply (step_refused_free _ _ v (OValue x)); [done|done|by apply val_at_Some|apply wp_free_value]. }
  apply null_or_Some in Hl as [[cap xs] Hxs]. destruct (as_utf8_str k) as [key|] eqn:Ek.
  - eapply (step_push _ d v (OValue x) (ODict cap xs) (ODict _ (xs ++ [(key, x)])));
      [cbn; by rw Ek| |by apply val_at_Some|exact (dict_at_Some _ _ _ Hxs)|done|].
    + intros new. cbn. by rw Hxs Hx Ek.
    + iIntros "(Ho & Hv)". iApply wp_bind.
      iApply (wp_wand with "[Hv]"); [by iApply wp_Entry_new|]. iIntros (e) "He".
      iApply (wp_push (own_entry own_value) BDictBox as_dict ODict cap xs d (key, x) e); [done..|].
      iFrame.
  - eapply (step_refused_free _ _ v (OValue x)); [cbn; by rw Ek| |by apply val_at_Some|apply wp_free_value].
    intros new. cbn. by rw Hxs Hx Ek.
Qed.

(** A call that forgets no buffer. *)
Definition call_spec (c : Call) (a : Abs) : Prop :=
  own_all a ⊢ wp (exec c) (λ r, announced c a r ∗ lost_blocks (unfreed_by c a)).
Lemma call_plain c a : unfreed_by c a = 0 → (own_all a ⊢ wp (exec c) (announced c a)) → call_spec c a.
Proof.
  unfold call_spec. intros -> Hc. rw Hc. iIntros "H". iApply (wp_wand with "H"). iIntros (r) "$". by rw lost_0.
Qed.

Lemma step_publish s l a :
  allowed (Publish s l) a = true → failure (Publish s l) a = None → call_spec (Publish s l) a.
Proof.
  intros Hl Hf. destruct l as [l|].
  2: { apply call_plain; [by destruct s|].
       apply (announced_effect _ _ (RPublished CValueError None) a _ eq_refl); [done|].
       iIntros "Ha". step wp_ret. iApply wp_ret. by iFrame. }
  apply null_or_Some in Hl as [[cap ps] Hps]. pose proof (pars_at_Some _ _ _ Hps) as Hl. cbn in Hl, Hf.
  rw Hps in Hf.
  assert (∀ e, (s = NullServer ∧ e = CValueError) ∨ (s = ClosedServer ∧ e = CSinkClosed) →
    call_spec (Publish s (Some l)) a) as Hclosed.
  { intros e Hs. apply call_plain; [by destruct Hs as [[-> _]|[-> _]]|].
    apply (announced_effect _ _ (RPublished e None) (delete l a) _ eq_refl).
    - intros new. cbn. rw Hps. by destruct Hs as [[-> ->]|[-> ->]].
    - iIntros "Ha". iApply wp_bind. iApply (wp_wand _ (λ r, ⟨r = (e, None)⟩ ∗ own_all (delete l a))%I with "[Ha]").
      + destruct Hs as [[-> ->]|[-> ->]]; (iApply wp_then; [|iExact "Ha"]);
          by apply (wp_free_behind l _ _ _ Hl), wp_free_params.
      + iIntros (r) "(-> & Ha)". iApply wp_ret. by iFrame. }
  destruct s; [by eapply Hclosed; left|by eapply Hclosed; right|]. clear Hclosed.
  destruct (forallb param_convertible ps) eqn:Eps; [|done].
  unfold call_spec, announced. cbn [exec effect unfreed_by behind]. rw Hps (own_all_take a l _ Hl).
  iIntros "(Hl & Ha)". iApply wp_bind. iApply wp_bind.
  iApply (wp_wand with "[Hl]"); [by iApply wp_consume|]. iIntros (r) "(-> & Hu)". iApply wp_ret.
  iApply wp_ret. cbn. iFrame. done.
Qed.

(** A call that does not return. *)
Lemma call_fails c a n f h :
  allowed c a = true → failure c a = Some f → holds (own_all a ∗ lost_blocks n)%I h → exec c h = fails f.
Proof.
  intros Ha Hf Hh.
  assert (∀ {C} `{VecElem C} mk k size, elem_size (A:=C) = Z.of_nat size → room k size = false →
    (a ← vec_with_capacity (A:=C) k; alloc (mk a)) h = Panic (E:=Fault)) as Hroom.
  { intros C ? mk k size Hs ?%bool_decide_eq_false. unfold vec_with_capacity. rw Hs decide_False //. }
  destruct c; try discriminate Hf; cbn in Hf.
  - destruct (room capacity 32) eqn:Er; [done|]. injection Hf as <-. cbn. unfold mbind at 1, M_bind at 1.
    unfold foxglove_parameter_value_array_create. by rw (Hroom CValue _ BArrayBox _ 32).
  - destruct (room capacity 24) eqn:Er; [done|]. injection Hf as <-. cbn. unfold mbind at 1, M_bind at 1.
    unfold foxglove_parameter_value_dict_create. by rw (Hroom CEntry _ BDictBox _ 24).
  - destruct (room capacity 32) eqn:Er; [done|]. injection Hf as <-. cbn. unfold mbind at 1, M_bind at 1.
    unfold foxglove_parameter_array_create. by rw (Hroom CParam _ BParamsBox _ 32).
  - destruct server; try discriminate Hf. destruct params as [l|]; [|done]. cbn in Hf.
    destruct (pars_at a l) as [[cap ps]|] eqn:Hps; [|done].
    destruct (forallb param_convertible ps) eqn:Eps; [done|]. injection Hf as <-.
    refine (wp_fault_adequacy _ _ _ _ _ Hh). rw (own_all_take a l _ (pars_at_Some _ _ _ Hps)).
    iIntros "((Hl & Ha) & Hn)". iApply wp_fault_first. iApply wp_fault_first.
    iApply (wp_fault_frame with "[Hl] [Ha Hn]"); [by iApply wp_consume_fault|]. iCombine "Ha Hn" as "H".
    iExact "H".
Qed.

Lemma step_decode p len a :
  allowed (DecodeByteArray p len) a = true →
  own_all a ⊢ wp (exec (DecodeByteArray p len)) (announced (DecodeByteArray p len) a).
Proof.
  intros Hp. destruct p as [l|].
  2: { apply (announced_effect _ _ (RData CValueError []) a _ eq_refl); [done|].
       iIntros "Ha". step wp_ret. iApply wp_ret. by iFrame. }
  apply null_or_Some in Hp as [p Hp].
  set (x := match byte_array_text p with
    | Some s => if decide (len < decoded_len_estimate (String.length s)) then (CBufferTooShort, [])
                else match base64_decode s with inr d => (COk, d) | inl _ => (CBase64DecodeError, []) end
    | None => (CValueError, []) end).
  eapply (step_read _ l p _ _ x (RData x.1 x.2)); [done| |by apply par_at_Some| |].
  - intros new. cbn. rw Hp. cbn. unfold x. destruct (byte_array_text p) as [s|]; [|done].
    destruct (decide _); [done|]. by destruct (base64_decode s).
  - unfold x. destruct (byte_array_text p) as [s|]; [|done].
    destruct (decide _) as [|Hlen]; [done|]. rw decode_slice_law; [|lia]. by destruct (base64_decode s).
  - by destruct x.
Qed.
Lemma step_decoded_size p a :
  allowed (DecodedSize p) a = true → own_all a ⊢ wp (exec (DecodedSize p)) (announced (DecodedSize p) a).
Proof.
  intros Hp. destruct p as [l|].
  2: { apply (announced_effect _ _ (RSize CValueError None) a _ eq_refl); [done|].
       iIntros "Ha". step wp_ret. iApply wp_ret. by iFrame. }
  apply null_or_Some in Hp as [p Hp].
  set (x := match byte_array_text p with
    | Some s => (COk, Some (decoded_len_estimate (String.length s)))
    | None => (CValueError, None) end).
  eapply (step_read _ l p _ _ x (RSize x.1 x.2)); [done| |by apply par_at_Some| |].
  - intros new. cbn. rw Hp. cbn. unfold x. by destruct (byte_array_text p).
  - unfold x. by destruct (byte_array_text p).
  - by destruct x.
Qed.

(** *** Creating parameters *)

Lemma step_create c out name ty v m a :
  exec c = ('(e, l) ← (l ← m; foxglove_parameter_create out name ty (Some l)); mret (RCreated e l)) →
  (∀ new, effect c new a = created out name ty (Some v) new a) →
  (emp ⊢ wp m (λ l, own_obj l (OValue v))) → own_all a ⊢ wp (exec c) (announced c a).
Proof.
  intros Hc He Hm. apply (announced_created _ _ _ _ _ _ _ _ Hc He). iIntros "Ha". iApply wp_bind.
  iApply (wp_wand with "[]"); [by iApply Hm|]. iIntros (l) "Hl". iApply wp_create. iFrame.
Qed.
Lemma wp_alloc_value c v :
  (emp ⊢ own_value v c) → emp ⊢ wp (alloc (BValue c)) (λ l, own_obj l (OValue v)).
Proof.
  iIntros (Hv) "_". iApply wp_alloc. iIntros (l) "Hl". iExists c. iFrame. by iApply Hv.
Qed.

Lemma step_param_create out name ty v a :
  allowed (ParamCreate out name ty v) a = true →
  own_all a ⊢ wp (exec (ParamCreate out name ty v)) (announced (ParamCreate out name ty v) a).
Proof.
  intros Hv. eapply announced_created; [done..|]. destruct v as [v|].
  - apply null_or_Some in Hv as [x Hx]. cbn [behind drop_handle]. rw Hx.
    rw {1}(own_all_take a v _ (val_at_Some _ _ _ Hx)). iIntros "H". by iApply wp_create.
  - iIntros "Ha". iApply wp_create. by iFrame.
Qed.
Lemma step_param_create_dict out name d a :
  allowed (ParamCreateDict out name d) a = true →
  own_all a ⊢ wp (exec (ParamCreateDict out name d)) (announced (ParamCreateDict out name d) a).
Proof.
  intros [[cap xs] Hd]%null_or_Some. pose proof (dict_at_Some _ _ _ Hd) as Hl.
  eapply announced_created; [done|intros new; cbn; by rw Hd|].
  rw {1}(own_all_take a d _ Hl). iIntros "((%r & Hd & Hr) & Ha)". iApply wp_bind.
  step wp_Box_take with "Hd"; [done|]. iApply wp_alloc. iIntros (l) "Hl". iApply wp_create. iFrame.
Qed.
Lemma step_param_create_string out name s a :
  own_all a ⊢ wp (exec (ParamCreateString out name s)) (announced (ParamCreateString out name s) a).
Proof.
  destruct (as_utf8_str s) as [str|] eqn:Es.
  - eapply step_create; [cbn [exec]; unfold foxglove_parameter_create_string; by rw Es| |apply wp_value_string].
    intros new. cbn [effect]. by rw Es.
  - apply (announced_effect _ _ (RCreated CUtf8Error None) a _ eq_refl).
    + intros new. cbn [effect]. by rw Es.
    + cbn [exec]. unfold foxglove_parameter_create_string. rw Es. iIntros "Ha". step wp_ret. iApply wp_ret. by iFrame.
Qed.
Lemma step_value_create_string out s a :
  own_all a ⊢ wp (exec (ValueCreateString out s)) (announced (ValueCreateString out s) a).
Proof.
  unfold announced. cbn [exec effect]. unfold foxglove_parameter_value_create_string. iIntros "Ha".
  destruct out; cbn [negb]; [|step wp_ret; iApply wp_ret; by iFrame].
  destruct (as_utf8_str s) as [str|]; [|step wp_ret; iApply wp_ret; by iFrame].
  iApply wp_bind. iApply wp_bind. iApply (wp_wand with "[]"); [by iApply wp_value_string|].
  iIntros (l) "Hl". iApply wp_ret. iApply wp_ret. cbn. iSplit; [done|]. iApply own_all_put. iFrame.
Qed.

(** ** A call that the contract allows *)

Lemma call_ok c a : allowed c a = true → failure c a = None → call_spec c a.
Proof.
  intros Ha Hf. destruct c; try (apply call_plain; [done|]); cbn in Hf;
    try (destruct (room _ _) eqn:Er; [|done]; apply bool_decide_eq_true in Er).
  - by eapply step_plain.
  - by eapply step_plain.
  - by eapply step_plain.
  - apply step_value_create_string.
  - apply null_or_Some in Ha as [[cap xs] Hl].
    eapply (step_value_of_box _ array _ BArrayBox as_array CArray (AArray cap xs)); [done| |
      exact (arr_at_Some _ _ _ Hl)|done..].
    intros new. cbn. by rw Hl.
  - apply null_or_Some in Ha as [[cap xs] Hl].
    eapply (step_value_of_box _ dict _ BDictBox as_dict CDict (ADict cap xs)); [done| |
      exact (dict_at_Some _ _ _ Hl)|done..].
    intros new. cbn. by rw Hl.
  - destruct value as [l|]; [|by eapply step_clone_null].
    apply null_or_Some in Ha as [v Hl]. eapply step_clone; [done| |by apply val_at_Some|apply wp_clone_value].
    intros new. cbn. by rw Hl.
  - destruct value as [l|]; [|by eapply step_free_null].
    apply null_or_Some in Ha as [v Hl]. eapply (step_free _ l (λ l, foxglove_parameter_value_free (Some l))); [done|done|by apply val_at_Some|].
    apply wp_free_value.
  - by eapply (step_vec_create own_value BArrayBox OArray).
  - by apply step_value_array_push.
  - destruct array as [l|]; [|by eapply step_free_null].
    apply null_or_Some in Ha as [v Hl]. eapply (step_free _ l (λ l, foxglove_parameter_value_array_free (Some l))); [done|done|by apply arr_at_Some|].
    apply wp_free_array.
  - by eapply (step_vec_create (own_entry own_value) BDictBox ODict).
  - by apply step_dict_insert.
  - destruct dict as [l|]; [|by eapply step_free_null].
    apply null_or_Some in Ha as [v Hl]. eapply (step_free _ l (λ l, foxglove_parameter_value_dict_free (Some l))); [done|done|by apply dict_at_Some|].
    apply wp_free_dict.
  - by apply step_param_create.
  - eapply announced_created; [done..|]. iIntros "Ha". iApply wp_create. by iFrame.
  - eapply step_create; [done..|by apply wp_alloc_value].
  - eapply step_create; [done..|by apply wp_alloc_value].
  - eapply step_create; [done..|by apply wp_alloc_value].
  - apply step_param_create_string.
  - eapply step_create; [done..|apply wp_value_string].
  - eapply step_create; [done..|by apply (wp_value_array CFloat64 AFloat64)].
  - eapply step_create; [done..|by apply (wp_value_array CInteger AInteger)].
  - by apply step_param_create_dict.
  - destruct param as [l|]; [|by eapply step_clone_null].
    apply null_or_Some in Ha as [v Hl]. eapply step_clone; [done| |by apply par_at_Some|apply wp_clone_param].
    intros new. cbn. by rw Hl.
  - destruct param as [l|]; [|by eapply step_free_null].
    apply null_or_Some in Ha as [v Hl]. eapply (step_free _ l (λ l, foxglove_parameter_free (Some l))); [done|done|by apply par_at_Some|].
    apply wp_free_param.
  - by apply step_decoded_size.
  - by apply step_decode.
  - by eapply (step_vec_create own_param BParamsBox OParams).
  - by apply step_params_push.
  - destruct array as [l|]; [|by eapply step_free_null].
    apply null_or_Some in Ha as [v Hl]. eapply (step_free _ l (λ l, foxglove_parameter_array_free (Some l))); [done|done|by apply pars_at_Some|].
    apply wp_free_params.
  - by apply step_publish.
Qed.

Lemma own_all_empty : own_all ∅ ⊣⊢ emp.
Proof. unfold own_all. by rw big_sepM_empty. Qed.
Lemma holds_pure_sep (φ : Prop) (P : Assertion) h : holds (⟨φ⟩ ∗ P)%I h → φ ∧ holds P h.
Proof.
  assert (⟨φ⟩ ∗ P ⊢ ⌜φ⌝ ∧ P) as [HP]; [|apply HP]. iIntros "(% & HP)". by iSplit.
Qed.
Lemma own_all_allocated a l o h : holds (own_all a) h → a !! l = Some o → is_Some (h !! l).
Proof.
  intros Hh Hl. destruct (own_all_take a l o Hl) as [Ht].
  destruct (Ht h Hh) as (h1 & h2 & -> & Hd & Ho & _). destruct (own_obj_points_to l o) as [Hp].
  destruct (Hp h1 Ho) as (b & h3 & h4 & -> & _ & Hb & _). cbn in Hb. subst h3.
  exists b. rw -!(assoc_L (∪)) lookup_union_l' ?lookup_insert_eq //.
Qed.

(** A program runs to its end, or up to a call that does not return. *)
Definition client_spec (cs : list Call) (a : Abs) (n : nat) (h : gmap loc Block) : Prop :=
  ∃ done rest rs b m h', cs = done ++ rest ∧ client done a n h = Ok ((rs, b, m), h') ∧
    Forall (λ p, p.1 = p.2) rs ∧ holds (own_all b ∗ lost_blocks m)%I h' ∧
    match rest with
    | [] => True
    | c :: _ => allowed c b = true ∧ ∃ f, failure c b = Some f ∧ client cs a n h = fails f
    end.
Lemma client_ok cs a n h : holds (own_all a ∗ lost_blocks n)%I h → client_spec cs a n h.
Proof.
  unfold client_spec. revert a n h. induction cs as [|c cs IH]; intros a n h Hh.
  { exists [], [], [], a, n, h. by split_and!. }
  destruct (allowed c a) eqn:Ec; cbn [client]; rw ?Ec.
  2: { destruct (IH a n h Hh) as (done & rest & rs & b & m & h' & -> & E & Hrs & Hh' & Hrest).
       exists (c :: done), rest, rs, b, m, h'. cbn [client]. by rw Ec. }
  destruct (failure c a) as [f|] eqn:Ef.
  { exists [], (c :: cs), [], a, n, h. split_and!; [done..|]. exists f. split; [done|].
    unfold mbind, M_bind. rw (call_fails c a n f h Ec Ef Hh). by destruct f. }
  assert (own_all a ∗ lost_blocks n ⊢ wp (exec c) (λ r,
    ⟨(effect c (handle_of r) a).1 = r⟩ ∗ own_all (effect c (handle_of r) a).2 ∗
    lost_blocks (n + unfreed_by c a))) as Hwp.
  { iIntros "(Ha & Hn)". iApply (wp_wand with "[Ha]"); [by iApply call_ok|]. iIntros (r) "((% & Hr) & Hu)".
    iSplit; [done|]. iFrame "Hr". iApply lost_sep. iFrame. }
  destruct (wp_adequacy _ _ _ h Hwp Hh) as (r & h1 & Er & [Hr Hh1]%holds_pure_sep).
  destruct (effect c (handle_of r) a) as [r' a'] eqn:E. cbn in Hr, Hh1. subst r'.
  destruct (IH a' _ h1 Hh1) as (done & rest & rs & b & m & h' & -> & Ed & Hrs & Hh' & Hrest).
  exists (c :: done), rest, ((r, r) :: rs), b, m, h'. cbn [client]. rw Ec. unfold mbind, M_bind.
  unfold mbind, result_bind. rw Er E Ed.
  split_and!; [done|done|by constructor|done|]. destruct rest as [|c' rest]; [done|].
  destruct Hrest as (? & f & ? & ->). split; [done|]. exists f. by destruct f.
Qed.

(** C11: The C API for parameters is memory safe.  A C program calls its functions in any
    order, with handles that are null or that it holds.  It runs to its end, or up to the
    first call that does not return: the creation of an array or a dictionary of more
    than [isize::MAX] bytes, which panics, or the publication of a value array that has
    elements and spare capacity, which frees its buffer with a layout that is not its
    own ([failure]).  Up to there no call causes undefined behaviour (an access to freed
    memory, a second free, raw parts that do not match their allocation) or a panic, every
    call returns what [effect] says from the abstract contents of the handles, and the
    heap holds exactly what is behind the handles that the program still holds, and the
    buffers of the empty value arrays with spare capacity that were published: nothing
    else leaks. *)
Theorem c_api_safe cs :
  ∃ done rest rs a n h, cs = done ++ rest ∧ client done ∅ 0 ∅ = Ok ((rs, a, n), h) ∧
    Forall (λ p, p.1 = p.2) rs ∧ holds (own_all a ∗ lost_blocks n)%I h ∧ (a = ∅ → size h = n) ∧
    (∀ l o, a !! l = Some o → is_Some (h !! l)) ∧
    match rest with
    | [] => True
    | c :: _ => allowed c a = true ∧ ∃ f, failure c a = Some f ∧ client cs ∅ 0 ∅ = fails f
    end.
Proof.
  assert (holds (own_all ∅ ∗ lost_blocks 0)%I ∅) as Hempty.
  { assert (emp ⊢ own_all ∅ ∗ lost_blocks 0) as [He]; [|by apply He]. rw own_all_empty lost_0.
    iIntros "_". by iSplit. }
  destruct (client_ok cs ∅ 0 ∅ Hempty) as (done & rest & rs & a & n & h & E & Ed & Hrs & Hh & Hrest).
  exists done, rest, rs, a, n, h. split_and!; [done..| | |done].
  - intros ->. assert (own_all ∅ ∗ lost_blocks n ⊢ lost_blocks n) as [He]; [|by apply He].
    rw own_all_empty. by iIntros "(_ & $)".
  - intros l o Hl. destruct Hh as (h1 & h2 & -> & _ & Ha & _).
    destruct (own_all_allocated a l o h1 Ha Hl) as [x Hx]. exists x. by apply lookup_union_Some_l.
Qed.
End calls.

(** ** A base64 crate, and programs *)

#[export] Instance base64_slice_ref : Base64Slice :=
  {| decoded_len_estimate n := n;
     decode_slice_unchecked s n :=
       match base64_decode s with inr d => Ok d | inl e => Err e end |}.
#[export] Instance base64_slice_ref_laws : Base64SliceLaws.
Proof. by split. Qed.

(** A value array, put into a parameter that is cloned and published. *)
Definition demo : list Call :=
  [ArrayCreate 1; ValueCreateInteger 5; ArrayPush (Some 3) (Some 4); ValueCreateArray 3;
   ParamCreate true (Some [Byte.x61]) TNone (Some 3); ParamClone (Some 5); ParamsCreate 1;
   ParamsPush (Some 11) (Some 5); ParamFree (Some 9); Publish OpenServer (Some 11)]%positive.
(** The same with an array that is created with room for [capacity] values. *)
Definition publish_array (capacity : nat) : list Call :=
  [ArrayCreate capacity; ValueCreateInteger 5; ArrayPush (Some 3) (Some 4); ValueCreateArray 3;
   ParamCreate true (Some [Byte.x61]) TNone (Some 3); ParamsCreate 1; ParamsPush (Some 7) (Some 5);
   Publish OpenServer (Some 7)]%positive.

Lemma c_api_safe_witness :
  (∃ done rest rs a n h, demo = done ++ rest ∧ client done ∅ 0 ∅ = Ok ((rs, a, n), h) ∧
    holds (own_all a ∗ lost_blocks n)%I h) ∧
  match client demo ∅ 0 ∅ with
  | Ok (rs, a, n, h) => last (fst <$> rs) =
      Some (RPublished COk (Some [{| p_name := "a"; p_type := None; p_value := Some (PArray [PInteger 5]) |}]))
      ∧ size a = 0 ∧ n = 0 ∧ size h = 0
  | _ => False
  end.
Proof.
  split; [|vm_compute; done].
  destruct (c_api_safe demo) as (done & rest & rs & a & n & h & E & Ed & _ & Hh & _).
  exists done, rest, rs, a, n, h. split; [exact E|split; [exact Ed|exact Hh]].
Defined.

(** [FoxgloveParameterValueArray::into_native] gives the vector its length as its
    capacity: publishing an array that was created with room for more frees a buffer
    with a layout that is not its own. *)
Lemma spare_capacity_fault : client (publish_array 2) ∅ 0 ∅ = Err BadLayout.
Proof. vm_compute. reflexivity. Qed.

(** An empty array with spare capacity is published without a fault, but its buffer is
    never freed. *)
Definition publish_empty_array : list Call :=
  [ArrayCreate 2; ValueCreateArray 3; ParamCreate true (Some [Byte.x61]) TNone (Some 3); ParamsCreate 1;
   ParamsPush (Some 7) (Some 5); Publish OpenServer (Some 7)]%positive.
Lemma empty_array_leaks :
  match client publish_empty_array ∅ 0 ∅ with
  | Ok (rs, a, n, h) => last (fst <$> rs) =
      Some (RPublished COk (Some [{| p_name := "a"; p_type := None; p_value := Some (PArray []) |}]))
      ∧ size a = 0 ∧ n = 1 ∧ size h = 1
  | _ => False
  end.
Proof. vm_compute. done. Qed.
