(* ===== verification/CCallback.v ===== *)
(** * CCallback: parameters between a server and the callbacks of a C program

    `src/c/src/server.rs`: when a client gets or sets parameters, the server calls a
    C function.  The parameters of a set request are converted to the C
    representation, lent to the callback, and freed; the array that the callback
    returns is consumed.  The callback is C code: it is a parameter, with the contract
    that `server.rs` documents. *)

From S2P Require Import Prelude Bytes Messages Advertise HeapLogic CParameter CParameterLogic.
From S2P Require Import CParameterApi.
From iris.proofmode Require Import proofmode.

Abbreviation Callback := (loc → M (option loc)).

(** A null result is an empty list. *)
Definition callback_result (raw : option loc) : M (list Param) :=
  match raw with
  | None => mret []
  | Some l => Params_consume l
  end.
Definition on_get_parameters (callback : option (M (option loc))) : M (list Param) :=
  match callback with
  | None => mret []
  | Some callback => raw ← callback; callback_result raw
  end.

Section callback.
Context `{Collect}.

Definition on_set_parameters (callback : option Callback) (params : list Param) : M (list Param) :=
  match callback with
  | None => mret []
  | Some callback =>
    a ← Params_from params;
    c_params ← alloc (BParamsBox a);
    raw ← callback c_params;
    _ ← with_fuel (λ n, Box_drop as_params (vec_drop (Parameter_drop n)) c_params);
    callback_result raw
  end.

(** ** The C form of native values *)

Fixpoint of_value (p : ParameterValue) : AValue :=
  match p with
  | PFloat64 x => AFloat64 x
  | PInteger i => AInteger i
  | PBool b => ABoolean b
  | PString s => AString s
  | PArray l => AArray (collect_cap (length l)) (map of_value l)
  | PDict m => ADict (collect_cap (length m)) (map (λ kv, (kv.1, of_value kv.2)) m)
  end.
Definition of_param (p : Param) : AParam :=
  {| ap_name := p_name p; ap_type := Type_from (p_type p); ap_value := of_value <$> p_value p |}.

(** The entries of a [BTreeMap] are in the order of their keys. *)
Fixpoint ascending {V} (m : list (string * V)) : Prop :=
  match m with
  | [] => True
  | kv :: m => Forall (λ kv', String.compare kv'.1 kv.1 = Gt) m ∧ ascending m
  end.
Fixpoint value_sorted (p : ParameterValue) : Prop :=
  match p with
  | PArray l => fold_right (λ x P, value_sorted x ∧ P) True l
  | PDict m => ascending m ∧ fold_right (λ kv P, value_sorted kv.2 ∧ P) True m
  | _ => True
  end.
Definition param_sorted (p : Param) : Prop := from_option value_sorted True (p_value p).

Section induction.
Context (P : ParameterValue → Prop) (Hi : ∀ i, P (PInteger i)) (Hf : ∀ x, P (PFloat64 x))
  (Hb : ∀ b, P (PBool b)) (Hs : ∀ s, P (PString s))
  (Ha : ∀ l, Forall P l → P (PArray l)) (Hd : ∀ m, Forall (λ kv, P kv.2) m → P (PDict m)).
Fixpoint ParameterValue_rect' (p : ParameterValue) : P p :=
  match p with
  | PInteger i => Hi i
  | PFloat64 x => Hf x
  | PBool b => Hb b
  | PString s => Hs s
  | PArray l => Ha l ((fix go l := match l return Forall P l with
      | [] => Forall_nil_2 _ | p :: l => Forall_cons_2 _ _ _ (ParameterValue_rect' p) (go l) end) l)
  | PDict m => Hd m ((fix go m := match m return Forall (λ kv, P kv.2) m with
      | [] => Forall_nil_2 _
      | (k, p) :: m => Forall_cons_2 (λ kv, P kv.2) (k, p) m (ParameterValue_rect' p) (go m) end) m)
  end.
End induction.

Lemma fold_right_Forall {A} (f : A → Prop) l : fold_right (λ x P, f x ∧ P) True l ↔ Forall f l.
Proof. induction l as [|x l IH]; cbn; [done|]. by rw IH Forall_cons. Qed.

Lemma btree_insert_above {V} k (v : V) m :
  Forall (λ kv, String.compare k kv.1 = Gt) m → btree_insert k v m = m ++ [(k, v)].
Proof.
  induction 1 as [|[k' v'] m Hk _ IH]; [done|]. cbn in *. by rw Hk IH.
Qed.
Lemma btree_collect_sorted {V} (m : list (string * V)) : ascending m → btree_collect m = m.
Proof.
  unfold btree_collect. enough (∀ acc, ascending m →
    Forall (λ kv, Forall (λ kv', String.compare kv.1 kv'.1 = Gt) acc) m →
    foldl (λ m '(k, v), btree_insert k v m) acc m = acc ++ m) as Hm.
  { intros Ha. rw Hm //. by apply Forall_true. }
  induction m as [|[k v] m IH]; intros acc; cbn; [by rw app_nil_r|].
  intros [Hk Hm] [Hacc Hall]%Forall_cons. rw btree_insert_above //. rw IH //.
  - by rw -(assoc_L (++)).
  - rw Forall_forall. intros kv Hin. rw Forall_forall in Hall. rw Forall_forall in Hk.
    apply Forall_app. split; [by apply Hall|]. apply Forall_singleton. by apply Hk.
Qed.

(** Converting to the C form and back gives the same value. *)
Lemma native_of_value p : value_sorted p → native (of_value p) = p.
Proof.
  induction p as [i|x|b|s|l IH|m IH] using ParameterValue_rect'; intros Hp; try done.
  - apply fold_right_Forall in Hp. cbn. f_equal. rw map_map.
    induction IH as [|y l Hy _ IHl]; [done|]. apply Forall_cons in Hp as [Hy' Hl]. cbn. by rw Hy ?IHl.
  - destruct Hp as [Hm Hp%fold_right_Forall]. cbn. f_equal. rw map_map. cbn.
    assert (map (λ kv : string * ParameterValue, (kv.1, native (of_value kv.2))) m = m) as ->.
    { clear Hm. induction IH as [|[k y] m Hy _ IHm]; [done|]. apply Forall_cons in Hp as [Hy' Hp].
      cbn in *. by rw Hy ?IHm. }
    by apply btree_collect_sorted.
Qed.
Lemma native_of_param p : param_sorted p → param_native (of_param p) = p.
Proof.
  destruct p as [name ty v]. unfold param_sorted, param_native, of_param. cbn. intros Hv. f_equal.
  - by destruct ty as [[]|].
  - destruct v as [v|]; cbn in *; [|done]. by rw native_of_value.
Qed.

Lemma native_of_params ps : Forall param_sorted ps → map param_native (map of_param ps) = ps.
Proof. rw map_map. induction 1 as [|p ps Hp _ IH]; cbn; [done|]. by rw native_of_param ?IH. Qed.

(** ** Making the C form *)

Lemma own_list_self {X} (xs : list X) : emp ⊢ own_list (λ x c, ⟨c = x⟩%I : Assertion) xs xs.
Proof. induction xs as [|x xs IH]; cbn; [done|]. rw -IH. iIntros "_". by iSplit. Qed.

(** Collecting into a vector, with spare capacity. *)
Lemma wp_vec_from {X C} `{VecElem C} (own : X → C → Assertion) f xs :
  Forall (λ x, emp ⊢ wp (f x) (own x)) xs →
  emp ⊢ wp (vec_from f xs) (own_vec own (collect_cap (length xs)) xs).
Proof.
  iIntros (Hf) "_". iApply wp_bind. iApply (wp_wand with "[]").
  { iApply (wp_collect (λ x c, ⟨c = x⟩)%I (λ _ _, emp)%I own f xs xs); [|by iApply own_list_self].
    eapply Forall_impl; [exact Hf|]. intros x Hx c. cbn. iIntros (->).
    iApply (wp_wand with "[]"); [by iApply Hx|]. iIntros (d) "$". }
  iIntros (ds) "(HK & Hd)". rw own_list_emp; [|done].
  iDestruct (own_list_length with "Hd") as "[%E Hd]".
  iApply (wp_wand with "[]"); [iApply wp_vec_new; [apply collect_cap_ge|done]|].
  iIntros (v) "Hv". iExists ds. rw E. iFrame.
Qed.
Lemma own_vec_map {X Y C} `{VecElem C} (g : X → Y) (own : Y → C → Assertion) cap xs v :
  own_vec (λ x, own (g x)) cap xs v ⊢ own_vec own cap (map g xs) v.
Proof. iIntros "(%cs & Hv & Hl)". rw own_list_map. iExists cs. iFrame. Qed.

Lemma wp_Value_from p : emp ⊢ wp (Value_from p) (own_value (of_value p)).
Proof.
  induction p as [i|x|b|s|l IH|m IH] using ParameterValue_rect'; cbn [Value_from];
    try (iIntros "_"; iApply wp_ret; by cbn); iIntros "_"; iApply wp_bind.
  - iApply (wp_wand with "[]"); [by iApply wp_StringBuf_new|]. iIntros (c) "Hc". by iApply wp_ret.
  - iApply (wp_wand with "[]"); [by iApply (wp_vec_from (λ p, own_value (of_value p)))|].
    iIntros (v) "Hv". iApply wp_ret. cbn. by rw own_vec_map.
  - iApply (wp_wand with "[]").
    { iApply (wp_vec_from (λ kv, own_entry own_value (kv.1, of_value kv.2)) (Entry_from Value_from) m); [|done].
      eapply Forall_impl; [exact IH|]. intros kv Hkv. iIntros "_". iApply wp_bind.
      iApply (wp_wand with "[]"); [by iApply Hkv|]. iIntros (c) "Hc". step wp_alloc. iIntros (l) "Hl".
      iApply (wp_Entry_new kv.1 l (own_value (of_value kv.2))). iExists c. iFrame. }
    iIntros (v) "Hv". iApply wp_ret. cbn.
    by rw (own_vec_map (λ kv, (kv.1, of_value kv.2)) (own_entry own_value)).
Qed.

Lemma wp_Parameter_from p : emp ⊢ wp (Parameter_from p) (own_param (of_param p)).
Proof.
  iIntros "_". iApply wp_bind.
  iApply (wp_wand _ (own_opt (λ a, own_box BValue (own_value a)) (of_value <$> p_value p)) with "[]").
  { destruct (p_value p) as [v|]; cbn; [|by iApply wp_ret]. iApply wp_bind.
    iApply (wp_wand with "[]"); [by iApply wp_Value_from|]. iIntros (c) "Hc". step wp_alloc.
    iIntros (l) "Hl". iApply wp_ret. iExists c. iFrame. }
  iIntros (c) "Hc". by iApply (wp_Parameter_new (p_name p) (Type_from (p_type p))).
Qed.
Lemma wp_Params_from ps :
  emp ⊢ wp (Params_from ps) (own_vec own_param (collect_cap (length ps)) (map of_param ps)).
Proof.
  iIntros "_". iApply (wp_wand with "[]").
  - iApply (wp_vec_from (λ p, own_param (of_param p))); [|done]. apply Forall_true. apply wp_Parameter_from.
  - iIntros (v) "Hv". by rw own_vec_map.
Qed.

(** ** The callback *)

(** What the callback returns: null, or an array of its own that holds [out]. *)
Definition own_result (raw : option loc) (out : list AParam) : Assertion :=
  match raw with
  | None => ⟨out = []⟩
  | Some k => ∃ cap, own_obj k (OParams cap out)
  end.
(** The contract of `server.rs`: the callback may read the array it is lent, which holds
    the C form of [params]; it returns null or an array, which the caller frees. *)
Definition callback_ok (callback : Callback) (params : list Param) (out : list AParam) : Prop :=
  ∀ l cap, own_obj l (OParams cap (map of_param params)) ⊢ wp (callback l) (λ raw,
    own_obj l (OParams cap (map of_param params)) ∗ own_result raw out).

Lemma wp_callback_result raw out :
  forallb param_convertible out = true →
  own_result raw out ⊢ wp (callback_result raw) (λ r,
    ⟨r = map param_native out⟩ ∗ lost_blocks (list_sum (map param_unfreed out))).
Proof.
  intros Hf. destruct raw as [k|]; cbn.
  - iIntros "(%cap & Hk)". by iApply wp_consume.
  - iIntros (->). iApply wp_ret. iSplit; [done|]. by rw lost_0.
Qed.
Lemma wp_callback_fault raw out :
  forallb param_convertible out = false →
  own_result raw out ⊢ wp_fault (callback_result raw) BadLayout.
Proof.
  intros Hf. destruct raw as [k|]; cbn.
  - iIntros "(%cap & Hk)". by iApply wp_consume_fault.
  - by iIntros (->).
Qed.

(** Up to the result of the callback. *)
Lemma wp_on_set_parameters callback params out :
  callback_ok callback params out →
  emp ⊢ wp (a ← Params_from params; c_params ← alloc (BParamsBox a); raw ← callback c_params;
            _ ← with_fuel (λ n, Box_drop as_params (vec_drop (Parameter_drop n)) c_params); mret raw)
          (λ raw, own_result raw out).
Proof.
  intros Hc. iIntros "_". iApply wp_bind. iApply (wp_wand with "[]"); [by iApply wp_Params_from|].
  iIntros (a) "Ha". step wp_alloc. iIntros (l) "Hl". iApply wp_bind.
  iApply (wp_wand with "[Ha Hl]").
  { iApply (Hc l (collect_cap (length params))). iExists a. iFrame. }
  iIntros (raw) "(Hl & Hraw)". iApply wp_bind.
  iApply (wp_wand with "[Hl]"); [by iApply wp_free_params|]. iIntros (_) "_". by iApply wp_ret.
Qed.
Lemma on_set_parameters_parts callback params h :
  on_set_parameters (Some callback) params h =
  ((a ← Params_from params; c_params ← alloc (BParamsBox a); raw ← callback c_params;
    _ ← with_fuel (λ n, Box_drop as_params (vec_drop (Parameter_drop n)) c_params); mret raw)
   ≫= callback_result) h.
Proof.
  unfold on_set_parameters, mbind, M_bind, mret, M_ret, mbind, result_bind.
  repeat (case_match; simplify_eq; try done).
Qed.

(** C24: A set request passes through a C callback.  For any callback that keeps the
    documented contract (it reads the array it is lent, and returns null or a valid
    array), the server makes the C form of the parameters, which reads as exactly
    these parameters, and the array that the callback returns is converted to exactly what it holds,
    unless that contains a value array that has elements and spare capacity: then the
    conversion frees its buffer with a layout that is not its own.  Otherwise nothing is
    freed twice or wrongly, the rest of the heap is as it was, and what leaks is exactly
    one buffer for each empty value array with spare capacity in what is returned. *)
Theorem on_set_parameters_safe callback params out h :
  callback_ok callback params out →
  (Forall param_sorted params → map param_native (map of_param params) = params) ∧
  if forallb param_convertible out then
    ∃ leaked, on_set_parameters (Some callback) params h = Ok (map param_native out, leaked ∪ h) ∧
      leaked ##ₘ h ∧ size leaked = list_sum (map param_unfreed out)
  else on_set_parameters (Some callback) params h = Err BadLayout.
Proof.
  intros Hc. split; [apply native_of_params|]. rw on_set_parameters_parts.
  pose proof (wp_on_set_parameters _ _ _ Hc) as Hwp.
  pose proof (map_disjoint_empty_l h) as Hd. destruct (forallb param_convertible out) eqn:Ef.
  - match type of Hwp with _ ⊢ wp ?m _ => assert (emp ⊢ wp (m ≫= callback_result) (λ r,
      ⟨r = map param_native out⟩ ∗ lost_blocks (list_sum (map param_unfreed out)))) as [Hw] end.
    { iIntros "_". iApply wp_bind. iApply (wp_wand with "[]"); [by iApply Hwp|]. iIntros (raw) "H".
      by iApply wp_callback_result. }
    destruct (Hw ∅ eq_refl h Hd) as (r & h' & E & Hd' & [-> Hl]%holds_pure_sep).
    rw (left_id_L ∅ (∪)) in E. by exists h'.
  - match type of Hwp with _ ⊢ wp ?m _ => assert (emp ⊢ wp_fault (m ≫= callback_result) BadLayout) as [Hw] end.
    { iIntros "_". iApply wp_fault_bind. iApply (wp_wand with "[]"); [by iApply Hwp|]. iIntros (raw) "H".
      by iApply wp_callback_fault. }
    specialize (Hw ∅ eq_refl h Hd). by rw (left_id_L ∅ (∪)) in Hw.
Qed.
End callback.

(** ** A callback that returns what it is given *)

Definition push_clone (arr : loc) (p : CParam) : M unit :=
  q ← with_fuel (λ n, Parameter_clone n p);
  k ← alloc (BParam q);
  _ ← foxglove_parameter_array_push (Some arr) (Some k);
  mret tt.
Definition echo : Callback := λ l,
  a ← Box_read as_params l;
  ps ← from_raw_parts (A:=CParam) (rv_ptr a) (rv_len a) (rv_cap a);
  arr ← foxglove_parameter_array_create 0;
  _ ← for_each (push_clone arr) ps;
  mret (Some arr).

Lemma map_elems_eq {A B} (f g : A → B) l : Forall (λ x, f x = g x) l → map f l = map g l.
Proof. induction 1 as [|x l Hx _ IH]; cbn; [done|]. by rw Hx IH. Qed.
Lemma forallb_map_true {A B} (f : B → bool) (g : A → B) l :
  Forall (λ x, f (g x) = true) l → forallb f (map g l) = true.
Proof. induction 1 as [|x l Hx _ IH]; cbn; [done|]. by rw Hx IH. Qed.

Lemma list_sum_map_0 {A B} (f : B → nat) (g : A → B) l :
  Forall (λ x, f (g x) = 0) l → list_sum (map f (map g l)) = 0.
Proof. unfold list_sum. induction 1 as [|x l Hx _ IH]; cbn in *; [done|]. by rw Hx IH. Qed.

(** A clone is converted as it should be. *)
Lemma fitted_ok a : native (fitted a) = native a ∧ convertible (fitted a) = true ∧ unfreed (fitted a) = 0.
Proof.
  induction a as [x|i|b|s|cap l IH|cap l IH] using AValue_rect'; try done; cbn;
    rw ?map_map ?length_map.
  - rw bool_decide_true // decide_True //. split_and!.
    + f_equal. apply map_elems_eq. eapply Forall_impl; [exact IH|naive_solver].
    + apply forallb_map_true. eapply Forall_impl; [exact IH|naive_solver].
    + rw -map_map. apply list_sum_map_0. eapply Forall_impl; [exact IH|naive_solver].
  - split_and!.
    + do 2 f_equal. apply map_elems_eq. eapply Forall_impl; [exact IH|]. intros kv (E & _). cbn. by rw E.
    + apply forallb_map_true. eapply Forall_impl; [exact IH|naive_solver].
    + rw -map_map. apply list_sum_map_0. eapply Forall_impl; [exact IH|naive_solver].
Qed.
Lemma param_fitted_ok a :
  param_native (param_fitted a) = param_native a ∧ param_convertible (param_fitted a) = true ∧
  param_unfreed (param_fitted a) = 0.
Proof.
  destruct a as [name ty [v|]]; [|done]. destruct (fitted_ok v) as (E1 & E2 & E3).
  unfold param_native, param_convertible, param_unfreed. cbn. by rw E1 E2 E3.
Qed.

Lemma wp_push_clone arr cap xs a p :
  own_obj arr (OParams cap xs) ∗ own_param a p ⊢
  wp (push_clone arr p) (λ _, own_obj arr (OParams (pushed (length xs) cap) (xs ++ [param_fitted a])) ∗
    own_param a p).
Proof.
  iIntros "(Harr & Hp)". iApply wp_bind. iApply (wp_wand with "[Hp]").
  { iApply (wp_with_fuel _ _ _ (param_depth a) with "Hp").
    - intros h Hh. pose proof (bounded_param a p h Hh). lia.
    - intros n Hn. by apply wp_Parameter_clone. }
  iIntros (q) "(Hp & Hq)". step wp_alloc. iIntros (k) "Hk". iApply wp_bind.
  iApply (wp_wand with "[Harr Hk Hq]").
  { iApply (wp_push_box own_param BParamsBox as_params OParams BParam as_param cap xs arr (param_fitted a) k);
      [done..|]. iFrame. }
  iIntros (e) "(_ & Harr)". iApply wp_ret. iFrame.
Qed.
Lemma wp_push_clones arr aps : ∀ cap xs cs,
  own_obj arr (OParams cap xs) ∗ own_list own_param aps cs ⊢
  wp (for_each (push_clone arr) cs) (λ _, own_list own_param aps cs ∗
    ∃ cap', own_obj arr (OParams cap' (xs ++ map param_fitted aps))).
Proof.
  induction aps as [|a aps IH]; intros cap xs [|c cs]; cbn;
    try (by iIntros "(_ & %)").
  - iIntros "(Harr & _)". iApply wp_ret. iSplit; [done|]. rw app_nil_r. iExists cap. iFrame.
  - iIntros "(Harr & Hc & Hcs)". iApply wp_bind.
    iApply (wp_wand with "[Harr Hc]"); [iApply (wp_push_clone arr cap xs a c); iFrame|].
    iIntros (_) "(Harr & Hc)".
    iApply (wp_wand with "[Harr Hcs]"); [iApply (IH (pushed (length xs) cap) (xs ++ [param_fitted a]) cs); iFrame|].
    iIntros (_) "(Hcs & %cap' & Harr)".
    iFrame. iExists cap'. by rw -(assoc_L (++)).
Qed.

Lemma echo_ok `{Collect} params : callback_ok echo params (map param_fitted (map of_param params)).
Proof.
  intros l cap. set (aps := map of_param params). iIntros "(%v & Hl & %cs & Hv & Hcs)".
  step wp_Box_read with "Hl"; [done|].
  iIntros "Hl". iDestruct (own_buf_parts with "Hv") as "[[%El %Ec] Hv]". rw Ec.
  step wp_from_raw_parts with "Hv". iIntros "Hv". iApply wp_bind. iApply wp_bind.
  iApply (wp_wand with "[]"); [by iApply (wp_vec_new (C:=CParam) 0 [])|]. iIntros (w) "Hw".
  iApply wp_alloc. iIntros (arr) "Harr". iApply wp_bind.
  iApply (wp_wand with "[Harr Hw Hcs]").
  { iApply (wp_push_clones arr aps 0 []). iFrame "Hcs". iExists w. iFrame "Harr". iExists []. by iFrame "Hw". }
  iIntros (_) "(Hcs & %cap' & Harr)". iApply wp_ret. iSplitL "Hl Hv Hcs".
  { iExists v. iFrame "Hl". iExists cs. iFrame. }
  iExists cap'. iFrame.
Qed.

(** A vector with twice the room. *)
Lemma double_ge n : n ≤ 2 * n.
Proof. lia. Qed.
#[export] Instance collect_double : Collect := {| collect_cap n := 2 * n; collect_cap_ge := double_ge |}.

Definition example_params : list Param :=
  [{| p_name := "p"; p_type := None;
      p_value := Some (PDict [("a", PArray [PInteger 1; PInteger 2]); ("b", PString "x")]) |}].
Lemma on_set_parameters_safe_witness :
  (∃ leaked, on_set_parameters (Some echo) example_params ∅ = Ok (example_params, leaked ∪ ∅) ∧
    size leaked = 0) ∧
  on_set_parameters (Some echo) example_params ∅ = Ok (example_params, ∅).
Proof.
  split; [|vm_compute; reflexivity].
  destruct (on_set_parameters_safe echo example_params _ ∅ (echo_ok example_params)) as [_ Hs].
  cbn in Hs. destruct Hs as (leaked & E & _ & Hl). exists leaked. split; [exact E|exact Hl].
Defined.

(** A callback that returns an array with room for [capacity] values and one value. *)
Definition answer (capacity : nat) : Callback := λ _,
  a ← foxglove_parameter_value_array_create capacity;
  v ← foxglove_parameter_value_create_integer 5;
  _ ← foxglove_parameter_value_array_push (Some a) (Some v);
  v ← foxglove_parameter_value_create_array a;
  '(_, p) ← foxglove_parameter_create true None TNone (Some v);
  ps ← foxglove_parameter_array_create 1;
  _ ← foxglove_parameter_array_push (Some ps) p;
  mret (Some ps).
Lemma answer_fault : on_set_parameters (Some (answer 2)) example_params ∅ = Err BadLayout.
Proof. vm_compute. reflexivity. Qed.
