(* ===== verification/Typed.v ===== *)
(** * Typed: typed channels, and the contexts and channels of a whole process

    `encode.rs` (the trait [Encode]), `channel.rs` ([Channel<T>], here
    [TypedChannel]), `channel_builder.rs`, `channel/lazy_channel.rs` and
    `context/lazy_context.rs`.

    A [Process] is what several contexts share: the map of the contexts that
    have been created (each one a [ContextInner], named by the static or the
    [Arc] that holds it), the [OnceLock] cells of the lazily built channels, and
    one [World], whose channel ids and channel states are process-wide.  The
    invariant [process_inv] says that each channel has one owner and that each
    context satisfies [ctx_inv] on its share of the world; operations on one
    context leave the others alone, a lazily built channel is built once, and a
    typed channel delivers the encoded message. *)

From S2P Require Import Prelude Bytes Channel Subscriptions Context.
Local Open Scope Z_scope.

(** ** [Encode] and [Channel<T>] *)

(** The `smallbytes` crate's buffer. *)
Class SmallBytes := {
  small_bytes : Type;
  sb_new : small_bytes;
  sb_reserve : nat → small_bytes → small_bytes;
  sb_bytes : small_bytes → list byte
}.
Class Encode `{SmallBytes} (T : Type) := {
  encode_error : Type;
  get_schema : option Schema;
  get_message_encoding : string;
  encode : T → small_bytes → result encode_error small_bytes;
  encoded_len : T → option nat
}.

(** [Arc<RawChannel>]: the channel, and the context its [Weak] points to. *)
Definition ContextId : Type := nat.
Record ChannelRef := { cr_raw : RawChannel; cr_context : ContextId }.
Record TypedChannel (T : Type) := { tc_inner : ChannelRef }.
Arguments tc_inner {T} _.
Arguments Build_TypedChannel {T} _.
Definition from_raw_channel (T : Type) (raw_channel : ChannelRef) : TypedChannel T :=
  {| tc_inner := raw_channel |}.
Definition into_inner {T} (self : TypedChannel T) : ChannelRef := tc_inner self.

Definition PartialMetadata_default : PartialMetadata := {| pm_log_time := None |}.
Definition with_log_time (nanos : Z) : PartialMetadata := {| pm_log_time := Some nanos |}.

Section logging.
Context `{SmallBytes} {T : Type} `{!Encode T}.
(** The readings of the monotonic and of the system clock. *)
Context (instant epoch : Z).

(** The buffer that [encode] gets. *)
Definition encode_buffer (msg : T) : small_bytes :=
  match encoded_len msg with
  | Some estimated_size => sb_reserve estimated_size sb_new
  | None => sb_new
  end.
Definition typed_log_to_sinks (self : TypedChannel T) (msg : T) (metadata : PartialMetadata)
    (id : option SinkId) (w : World) : result FoxgloveError World :=
  match encode msg (encode_buffer msg) with
  | Ok buf => Ok (log_to_sinks epoch (cr_raw (tc_inner self)) (sb_bytes buf) metadata id w)
  | _ => Panic
  end.
Definition typed_log_with_meta_to_sink (self : TypedChannel T) (msg : T)
    (metadata : PartialMetadata) (id : option SinkId) (w : World) : result FoxgloveError World :=
  if has_sinks w (cr_raw (tc_inner self)) then typed_log_to_sinks self msg metadata id w
  else Ok (log_warn_if_closed instant (cr_raw (tc_inner self)) w).
Definition typed_log_with_meta (self : TypedChannel T) (msg : T) (metadata : PartialMetadata) :
    World → result FoxgloveError World :=
  typed_log_with_meta_to_sink self msg metadata None.
Definition typed_log_to_sink (self : TypedChannel T) (msg : T) (id : option SinkId) :
    World → result FoxgloveError World :=
  typed_log_with_meta_to_sink self msg PartialMetadata_default id.
Definition typed_log (self : TypedChannel T) (msg : T) : World → result FoxgloveError World :=
  typed_log_with_meta self msg PartialMetadata_default.
(** [timestamp] through [ToUnixNanos]. *)
Definition typed_log_with_time (self : TypedChannel T) (msg : T) (timestamp : Z) :
    World → result FoxgloveError World :=
  typed_log_with_meta self msg (with_log_time timestamp).
End logging.

(** ** Processes *)

Definition CellId : Type := nat.
Record Process := {
  p_contexts : gmap ContextId ContextInner;
  p_cells : gmap CellId ChannelRef;
  p_world : World
}.
Definition process_init : Process :=
  {| p_contexts := ∅; p_cells := ∅; p_world := ctx_init.2 |}.

Definition DEFAULT_CONTEXT : ContextId := 0%nat.

(** [LazyContext::deref], and [Context::new] for a new name. *)
Definition LazyContext_deref (self : ContextId) (p : Process) : Process :=
  match p_contexts p !! self with
  | Some _ => p
  | None => {| p_contexts := <[self := ContextInner_default]> (p_contexts p);
               p_cells := p_cells p; p_world := p_world p |}
  end.

(** A builder, and the [context] field it has beside those of [ChannelBuilder]. *)
Record Builder := { b_options : ChannelBuilder; b_context : ContextId }.
Definition with_options (f : ChannelBuilder → ChannelBuilder) (self : Builder) : Builder :=
  {| b_options := f (b_options self); b_context := b_context self |}.

(** [ChannelBuilder::new] takes the default context, and so creates it. *)
Definition Builder_new (topic : string) (p : Process) : Builder * Process :=
  ({| b_options := {| cb_topic := topic; cb_message_encoding := None; cb_schema := None;
                      cb_metadata := ∅ |};
      b_context := DEFAULT_CONTEXT |}, LazyContext_deref DEFAULT_CONTEXT p).
Definition Builder_schema (schema : option Schema) : Builder → Builder :=
  with_options (λ b, {| cb_topic := cb_topic b; cb_message_encoding := cb_message_encoding b;
    cb_schema := schema; cb_metadata := cb_metadata b |}).
Definition Builder_message_encoding (encoding : string) : Builder → Builder :=
  with_options (λ b, {| cb_topic := cb_topic b; cb_message_encoding := Some encoding;
    cb_schema := cb_schema b; cb_metadata := cb_metadata b |}).
Definition Builder_metadata (metadata : gmap string string) : Builder → Builder :=
  with_options (λ b, {| cb_topic := cb_topic b; cb_message_encoding := cb_message_encoding b;
    cb_schema := cb_schema b; cb_metadata := metadata |}).
Definition Builder_add_metadata (key value : string) : Builder → Builder :=
  with_options (λ b, {| cb_topic := cb_topic b; cb_message_encoding := cb_message_encoding b;
    cb_schema := cb_schema b; cb_metadata := <[key := value]> (cb_metadata b) |}).
Definition Builder_context (ctx : ContextId) (self : Builder) : Builder :=
  {| b_options := b_options self; b_context := ctx |}.
(** [Context::channel_builder]. *)
Definition channel_builder (self : ContextId) (topic : string) (p : Process) : Builder * Process :=
  let '(b, p) := Builder_new topic p in (Builder_context self b, p).

(** The state of a context that somebody holds. *)
Definition context_of (ctx : ContextId) (p : Process) : ContextInner :=
  default ContextInner_default (p_contexts p !! ctx).
Definition set_context (ctx : ContextId) (x : ContextInner) (w : World) (p : Process) : Process :=
  {| p_contexts := <[ctx := x]> (p_contexts p); p_cells := p_cells p; p_world := w |}.
Definition set_world (w : World) (p : Process) : Process :=
  {| p_contexts := p_contexts p; p_cells := p_cells p; p_world := w |}.
Definition set_cell (cell : CellId) (c : ChannelRef) (p : Process) : Process :=
  {| p_contexts := p_contexts p; p_cells := <[cell := c]> (p_cells p); p_world := p_world p |}.

(** [ChannelBuilder::build_raw] and [build]. *)
Definition Builder_build_raw (self : Builder) (p : Process)
    : result FoxgloveError (ChannelRef * Process) :=
  '(c, x, w) ← build_raw (b_options self) (context_of (b_context self) p) (p_world p);
  Ok ({| cr_raw := c; cr_context := b_context self |}, set_context (b_context self) x w p).
Definition expect {E F A} (r : result E A) : result F A :=
  match r with Ok a => Ok a | _ => Panic end.

Section building.
Context `{SmallBytes} {T : Type} `{!Encode T}.
Definition fill_encode (b : ChannelBuilder) : ChannelBuilder :=
  {| cb_topic := cb_topic b;
     cb_message_encoding := Some (default get_message_encoding (cb_message_encoding b));
     cb_schema := match cb_schema b with None => get_schema | s => s end;
     cb_metadata := cb_metadata b |}.
Definition Builder_build (self : Builder) (p : Process)
    : result FoxgloveError (TypedChannel T * Process) :=
  '(channel, p) ← expect (Builder_build_raw (with_options fill_encode self) p);
  Ok (from_raw_channel T channel, p).
Definition TypedChannel_new (topic : string) (p : Process)
    : result FoxgloveError (TypedChannel T * Process) :=
  let '(b, p) := Builder_new topic p in Builder_build b p.
End building.

(** ** Lazily built channels *)

(** A static: [inner] names its [OnceLock]. *)
Record LazyChannel (T : Type) := { lc_topic : string; lc_context : ContextId; lc_inner : CellId }.
Arguments lc_topic {T} _.
Arguments lc_context {T} _.
Arguments lc_inner {T} _.
Definition LazyChannel_new (T : Type) (topic : string) (cell : CellId) : LazyChannel T :=
  {| lc_topic := topic; lc_context := DEFAULT_CONTEXT; lc_inner := cell |}.
Definition LazyChannel_context {T} (context : ContextId) (self : LazyChannel T) : LazyChannel T :=
  {| lc_topic := lc_topic self; lc_context := context; lc_inner := lc_inner self |}.

Record LazyRawChannel := {
  lr_topic : string;
  lr_context : ContextId;
  lr_message_encoding : string;
  lr_schema : option (string * string * list byte);
  lr_inner : CellId
}.
Definition LazyRawChannel_new (topic message_encoding : string) (cell : CellId) : LazyRawChannel :=
  {| lr_topic := topic; lr_context := DEFAULT_CONTEXT; lr_message_encoding := message_encoding;
     lr_schema := None; lr_inner := cell |}.
Definition LazyRawChannel_context (context : ContextId) (self : LazyRawChannel) : LazyRawChannel :=
  {| lr_topic := lr_topic self; lr_context := context;
     lr_message_encoding := lr_message_encoding self; lr_schema := lr_schema self;
     lr_inner := lr_inner self |}.
Definition LazyRawChannel_schema (name encoding : string) (data : list byte)
    (self : LazyRawChannel) : LazyRawChannel :=
  {| lr_topic := lr_topic self; lr_context := lr_context self;
     lr_message_encoding := lr_message_encoding self; lr_schema := Some (name, encoding, data);
     lr_inner := lr_inner self |}.

(** [LazyContext::channel] and [LazyContext::raw_channel]. *)
Definition LazyContext_channel (T : Type) (self : ContextId) (topic : string) (cell : CellId)
    : LazyChannel T :=
  LazyChannel_context self (LazyChannel_new T topic cell).
Definition LazyContext_raw_channel (self : ContextId) (topic message_encoding : string)
    (cell : CellId) : LazyRawChannel :=
  LazyRawChannel_context self (LazyRawChannel_new topic message_encoding cell).

(** [OnceLock::get_or_init]: a panicking closure leaves the cell empty. *)
Definition OnceLock_get_or_init (cell : CellId)
    (f : Process → result FoxgloveError (ChannelRef * Process)) (p : Process)
    : result FoxgloveError (ChannelRef * Process) :=
  match p_cells p !! cell with
  | Some c => Ok (c, p)
  | None => '(c, p) ← f p; Ok (c, set_cell cell c p)
  end.

(** [get_or_init]; [init] is the same without the result.  [.context(self.context)]
    derefs the lazy context. *)
Definition LazyChannel_get_or_init `{SmallBytes} {T} `{!Encode T} (self : LazyChannel T)
    (p : Process) : result FoxgloveError (TypedChannel T * Process) :=
  '(c, p) ← OnceLock_get_or_init (lc_inner self) (λ p,
    let '(b, p) := Builder_new (lc_topic self) p in
    let p := LazyContext_deref (lc_context self) p in
    '(c, p) ← Builder_build (T:=T) (Builder_context (lc_context self) b) p;
    Ok (into_inner c, p)) p;
  Ok (from_raw_channel T c, p).
Definition LazyRawChannel_get_or_init (self : LazyRawChannel) (p : Process)
    : result FoxgloveError (ChannelRef * Process) :=
  OnceLock_get_or_init (lr_inner self) (λ p,
    let schema := '(name, encoding, data) ← lr_schema self;
      Some {| sch_name := name; sch_encoding := encoding; sch_data := data |} in
    let '(b, p) := Builder_new (lr_topic self) p in
    let b := Builder_schema schema (Builder_message_encoding (lr_message_encoding self) b) in
    let p := LazyContext_deref (lr_context self) p in
    expect (Builder_build_raw (Builder_context (lr_context self) b) p)) p.

(** ** What an application does *)

Inductive Op :=
| OpContext (ctx : ContextId) (op : CtxOp)  (* a call on a context, or on a channel of it *)
| OpBuild `{SmallBytes} (T : Type) `{!Encode T} (b : Builder)
| OpLazy `{SmallBytes} (T : Type) `{!Encode T} (l : LazyChannel T)
| OpLazyRaw (l : LazyRawChannel)
| OpLog `{SmallBytes} (T : Type) `{!Encode T} (instant epoch : Z) (c : TypedChannel T) (msg : T)
    (metadata : PartialMetadata) (id : option SinkId)
| OpLogRaw (instant epoch : Z) (c : ChannelRef) (msg : list byte)
    (metadata : PartialMetadata) (id : option SinkId).

(** A call that panics leaves the process as it was. *)
Definition unless_panic {A} (p : Process) (r : result FoxgloveError (A * Process)) : Process :=
  match r with Ok (_, p) => p | _ => p end.
Definition run_op (op : Op) (p : Process) : Process :=
  match op with
  | OpContext ctx op =>
    let p := LazyContext_deref ctx p in
    let '(x, w) := run_ctx_op op (context_of ctx p, p_world p) in set_context ctx x w p
  | OpBuild T b =>
    unless_panic p (Builder_build (T:=T) b (LazyContext_deref (b_context b) p))
  | OpLazy T l => unless_panic p (LazyChannel_get_or_init l p)
  | OpLazyRaw l => unless_panic p (LazyRawChannel_get_or_init l p)
  | OpLog T instant epoch c msg metadata id =>
    match typed_log_with_meta_to_sink instant epoch c msg metadata id (p_world p) with
    | Ok w => set_world w p
    | _ => p
    end
  | OpLogRaw instant epoch c msg metadata id =>
    set_world (log_with_meta_to_sink instant epoch (cr_raw c) msg metadata id (p_world p)) p
  end.
Definition run_ops (ops : list Op) (p : Process) : Process := foldl (λ p op, run_op op p) p ops.
(** The context an operation works on. *)
Definition op_context (op : Op) : ContextId :=
  match op with
  | OpContext ctx _ => ctx
  | OpBuild _ b => b_context b
  | OpLazy _ l => lc_context l
  | OpLazyRaw l => lr_context l
  | OpLog _ _ _ c _ _ _ => cr_context (tc_inner c)
  | OpLogRaw _ _ c _ _ _ => cr_context c
  end.

(** ** A context's share of the world *)

(** The channel states of the ids in [P]. *)
Definition share (P : ChannelId → bool) (w : World) : World :=
  {| w_next_id := w_next_id w; w_store := filter (λ kv, P kv.1 = true) (w_store w);
     w_trace := w_trace w |}.

Lemma share_lookup P w id :
  w_store (share P w) !! id = if P id then w_store w !! id else None.
Proof.
  cbn. rewrite map_lookup_filter. destruct (w_store w !! id) as [st|]; cbn; [|by destruct (P id)].
  by destruct (P id).
Qed.

Lemma world_eq w w' : w_next_id w = w_next_id w' → w_trace w = w_trace w' →
  (∀ id, w_store w !! id = w_store w' !! id) → w = w'.
Proof. destruct w, w'. cbn. intros -> -> E. f_equal. by apply map_eq. Qed.

Lemma share_ext P Q w : (∀ id, is_Some (w_store w !! id) → P id = Q id) → share P w = share Q w.
Proof.
  intros H. apply world_eq; [done..|]. intros id. rewrite !share_lookup.
  destruct (w_store w !! id) eqn:E; [by rewrite H by eauto|by destruct (P id), (Q id)].
Qed.
Lemma share_emit P evs w : share P (emit evs w) = emit evs (share P w).
Proof. done. Qed.
Lemma share_alter P f c w : share P (alter_channel f c w) = alter_channel f c (share P w).
Proof.
  apply world_eq; [done..|]. intros id. rewrite share_lookup. cbn [alter_channel w_store].
  destruct (decide (id = rc_id c)) as [->|Hne].
  - rewrite !lookup_alter_eq, share_lookup. by destruct (P (rc_id c)).
  - by rewrite !lookup_alter_ne, share_lookup.
Qed.
Lemma share_update_sinks P c ks w : share P (update_sinks c ks w) = update_sinks c ks (share P w).
Proof. apply share_alter. Qed.
Lemma share_update_channel_sinks P s cs w :
  share P (update_channel_sinks s cs w) = update_channel_sinks s cs (share P w).
Proof.
  unfold update_channel_sinks. revert w. induction cs as [|c cs IH]; intros w; [done|].
  cbn [foldl]. by rewrite IH, share_update_sinks.
Qed.
Lemma share_remove_from_context P c w :
  share P (remove_from_context c w) = remove_from_context c (share P w).
Proof. unfold remove_from_context. by rewrite !share_alter. Qed.
Lemma share_notify_removed P x c w :
  share P (notify_removed x c w) = notify_removed x c (share P w).
Proof.
  unfold notify_removed. revert w. induction (values (sinks x)) as [|k l IH]; intros w; [done|].
  cbn [foldl]. by rewrite IH.
Qed.
Lemma share_notify_added P c ks s w :
  foldl (notify_added c) (s, share P w) ks =
  prod_map id (share P) (foldl (notify_added c) (s, w) ks).
Proof.
  revert s w. induction ks as [|k ks IH]; intros s w; [done|]. cbn [foldl].
  change (notify_added c (s, share P w) k) with (prod_map id (share P) (notify_added c (s, w) k)).
  destruct (notify_added c (s, w) k). apply IH.
Qed.
Lemma share_clear P x cs w :
  share P (foldl (λ w c, notify_removed x c (remove_from_context c w)) w cs) =
  foldl (λ w c, notify_removed x c (remove_from_context c w)) (share P w) cs.
Proof.
  revert w. induction cs as [|c cs IH]; intros w; [done|].
  cbn [foldl]. by rewrite IH, share_notify_removed, share_remove_from_context.
Qed.
Lemma share_new P topic enc schema md w : P (w_next_id w) = true →
  RawChannel_new topic enc schema md (share P w) =
  prod_map id (share P) (RawChannel_new topic enc schema md w).
Proof.
  intros HP. unfold RawChannel_new. cbn [prod_map fst snd id]. unfold prod_map. cbn [fst snd]. f_equal.
  apply world_eq; [done..|]. intros i. rewrite share_lookup. cbn [w_store w_next_id share].
  destruct (decide (i = w_next_id w)) as [->|Hne]; [by rewrite !lookup_insert_eq, HP|].
  rewrite !lookup_insert_ne by done. apply share_lookup.
Qed.

Create Rewrite HintDb share.
#[local] Hint Rewrite share_emit share_alter share_update_sinks share_update_channel_sinks
  share_remove_from_context share_notify_removed share_clear : share.

Lemma share_add_channel P c x w :
  add_channel c x (share P w) = prod_map id (share P) (add_channel c x w).
Proof.
  unfold add_channel. destruct (find _ _) as [d|]; [done|].
  destruct (default [] _) as [|d l]; rewrite <- ?share_emit, share_notify_added;
    destruct (foldl _ _ _) as [s w']; cbn [prod_map fst snd id]; unfold prod_map; cbn [fst snd id];
    by rewrite share_update_sinks.
Qed.

(** The channels of a context are in its share. *)
Lemma inv_share P x w id c : ctx_inv (x, share P w) → channels x !! id = Some c →
  rc_id c = id ∧ P id = true ∧ is_Some (w_store w !! id).
Proof.
  intros Hi Hc. destruct (ci_sinks _ Hi _ _ Hc) as (st & Hst & _). cbn [snd] in Hst.
  rewrite share_lookup in Hst. destruct (proj2 (ci_topics _ Hi) _ _ Hc) as [? _].
  by destruct (P id) eqn:E; [split_and!; [..|eauto]|].
Qed.

(** Whether an operation allocates a channel id. *)
Definition builds (op : CtxOp) : bool :=
  match op with OpBuildRaw b => bool_decide (is_Some (cb_message_encoding b)) | _ => false end.

Lemma build_raw_share P b x w :
  (is_Some (cb_message_encoding b) → P (w_next_id w) = true) →
  build_raw b x (share P w) =
  match build_raw b x w with
  | Ok r => Ok (prod_map id (share P) r) | Err e => Err e | Panic => Panic
  end.
Proof.
  intros HP. rewrite !build_raw_ok. destruct (cb_message_encoding b) as [e|]; [|done].
  rewrite share_new by (by apply HP). destruct (RawChannel_new _ _ _ _ w) as [c w1]. cbn [prod_map].
  unfold prod_map at 1. cbn [fst snd id]. by rewrite share_add_channel.
Qed.

(** An operation acts on its context's share as on a world of its own. *)
Lemma run_ctx_op_share P op x w :
  ctx_inv (x, share P w) → (builds op = true → P (w_next_id w) = true) →
  run_ctx_op op (x, share P w) = prod_map id (share P) (run_ctx_op op (x, w)).
Proof.
  intros Hi HP. destruct op as [b|c|k|i|i ids|i ids|]; cbn [run_ctx_op].
  - rewrite build_raw_share by (intros ?; by apply HP, bool_decide_eq_true).
    by destruct (build_raw b x w) as [[[c x'] w']| |].
  - unfold close, remove_channel.
    assert (is_closed (share P w) c = if P (rc_id c) then is_closed w c else false) as ->.
    { unfold is_closed. rewrite share_lookup. by destruct (P (rc_id c)). }
    destruct (channels x !! rc_id c) as [d|] eqn:E.
    + destruct (inv_share _ _ _ _ _ Hi E) as (_ & -> & _). destruct (is_closed w c); [done|].
      unfold prod_map. cbn [fst snd id]. by autorewrite with share.
    + by destruct (P (rc_id c)), (is_closed w c).
  - unfold add_sink. destruct (sinks x !! sink_id k); [done|]. unfold update_channel_sinks_by_ids.
    cbn [channels sinks subs channels_by_topic].
    destruct (values (channels x)) as [|d l], (sink_auto_subscribe k).
    all: cbn [Sink_add_channels channels subs].
    all: try (destruct (subscribe_global _ _) as [[] s]; unfold prod_map; cbn [fst snd id];
      by autorewrite with share).
    { done. }
    destruct (sink_add_channels k _) as [ids|]; [|done]. destruct (filter _ ids); [done|].
    destruct (Subscriptions.subscribe_channels _ _ _) as [[] s]; unfold prod_map; cbn [fst snd id];
      by autorewrite with share.
  - unfold remove_sink. destruct (remove_subscriber i (subs x)) as [[] s]; unfold prod_map;
      cbn [fst snd id]; by autorewrite with share.
  - unfold subscribe_channels, update_channel_sinks_by_ids. destruct (sinks x !! i) as [k|]; [|done].
    destruct (Subscriptions.subscribe_channels _ _ _) as [[] s]; unfold prod_map; cbn [fst snd id];
      by autorewrite with share.
  - unfold unsubscribe_channels, update_channel_sinks_by_ids.
    destruct (Subscriptions.unsubscribe_channels _ _ _) as [[] s]; unfold prod_map; cbn [fst snd id];
      by autorewrite with share.
  - unfold clear, prod_map. cbn [fst snd id]. by autorewrite with share.
Qed.

(** *** Frame: an operation touches the states of its context's channels only *)

Definition same_at (id : ChannelId) (w w' : World) : Prop := w_store w' !! id = w_store w !! id.

Lemma update_channel_sinks_frame s cs w id :
  (∀ c, c ∈ cs → rc_id c ≠ id) → same_at id w (update_channel_sinks s cs w).
Proof.
  intros H. unfold same_at. rewrite update_channel_sinks_store, decide_False; [done|].
  rewrite list_elem_of_fmap. intros (c & -> & Hc). by apply (H c).
Qed.
Lemma remove_from_context_frame c w id : rc_id c ≠ id → same_at id w (remove_from_context c w).
Proof. intros H. unfold same_at. cbn. by rewrite !lookup_alter_ne. Qed.
Lemma add_channel_frame c x w id : rc_id c ≠ id → same_at id w (add_channel c x w).2.
Proof.
  intros H. unfold add_channel. destruct (find _ _); [done|].
  assert (∀ ks s w0, w_store (foldl (notify_added c) (s, w0) ks).2 = w_store w0) as Hn.
  { induction ks as [|k ks IH]; intros s w0; [done|]. cbn [foldl].
    destruct (notify_added c (s, w0) k) as [s1 w1] eqn:E. rewrite IH.
    unfold notify_added in E. cbn in E. by simplify_eq. }
  assert (∀ w0, w_store w0 = w_store w → same_at id w
    (let '(s, w1) := foldl (notify_added c) (subs x, w0) (values (sinks x)) in
     update_sinks c (get_subscribers (rc_id c) s) w1)) as Hu.
  { intros w0 E. specialize (Hn (values (sinks x)) (subs x) w0). destruct (foldl _ _ _) as [s w1].
    unfold same_at. cbn in *. by rewrite lookup_alter_ne, Hn, E. }
  destruct (default [] _) as [|d l]; [specialize (Hu w eq_refl)|
    specialize (Hu (emit [EvWarnDuplicateTopic (rc_topic c)] w) eq_refl)];
    by destruct (foldl _ _ _).
Qed.
Lemma clear_frame x cs w id : (∀ c, c ∈ cs → rc_id c ≠ id) →
  same_at id w (foldl (λ w c, notify_removed x c (remove_from_context c w)) w cs).
Proof.
  revert w. induction cs as [|c cs IH]; intros w H; [done|]. cbn [foldl]. unfold same_at in *.
  rewrite IH by (intros d Hd; apply H; by right).
  destruct (notify_removed_store x c (remove_from_context c w)) as [-> _].
  apply remove_from_context_frame, H. by left.
Qed.

Lemma run_ctx_op_frame P op x w id :
  ctx_inv (x, share P w) → P id = false → (builds op = true → id ≠ w_next_id w) →
  same_at id w (run_ctx_op op (x, w)).2.
Proof.
  intros Hi HP Hid.
  assert (∀ i c, channels x !! i = Some c → rc_id c ≠ id) as Hne.
  { intros i c Hc <-. destruct (inv_share _ _ _ _ _ Hi Hc) as (<- & ? & _). congruence. }
  assert (∀ c, c ∈ values (channels x) → rc_id c ≠ id) as Hvals.
  { intros c Hc. eapply Hne, elem_of_values_chans; [apply (ci_topics _ Hi)|done]. }
  assert (∀ (ids : list ChannelId) c, c ∈ omap (λ i, channels x !! i) ids → rc_id c ≠ id) as Homap.
  { intros ids c (i & _ & Hc)%list_elem_of_omap. by eapply Hne. }
  destruct op as [b|c|k|i|i ids|i ids|]; cbn [run_ctx_op].
  - rewrite build_raw_ok. cbn [builds] in Hid.
    destruct (cb_message_encoding b) as [e|]; [|done]. specialize (Hid eq_refl).
    unfold RawChannel_new. set (c := {| rc_descriptor := _ |}). set (w1 := {| w_next_id := _ |}).
    pose proof (add_channel_frame c x w1 id (not_eq_sym Hid)) as Hf.
    destruct (add_channel c x w1) as [[c' x'] w']. unfold same_at in *. cbn in *.
    by rewrite Hf, lookup_insert_ne.
  - unfold close, remove_channel. destruct (is_closed w c); [done|].
    destruct (channels x !! rc_id c) as [d|] eqn:E; [|done]. cbn [snd]. unfold same_at.
    rewrite (proj1 (notify_removed_store _ _ _)). by eapply remove_from_context_frame, Hne.
  - unfold add_sink. destruct (sinks x !! sink_id k); [done|]. unfold update_channel_sinks_by_ids.
    cbn [channels sinks subs channels_by_topic].
    destruct (values (channels x)) as [|d l], (sink_auto_subscribe k).
    all: cbn [Sink_add_channels channels subs].
    all: try (destruct (subscribe_global _ _) as [[] s]; [|done]; cbn [snd];
      etransitivity; [apply update_channel_sinks_frame, Hvals|done]).
    { done. }
    destruct (sink_add_channels k (d :: l)) as [ids|]; [|done]. destruct (filter _ ids); [done|].
    destruct (Subscriptions.subscribe_channels _ _ _) as [[] s]; [|done]; cbn [snd].
    etransitivity; [apply update_channel_sinks_frame, Homap|done].
  - unfold remove_sink. destruct (remove_subscriber i (subs x)) as [[] s]; [|done]; cbn [snd].
    by apply update_channel_sinks_frame.
  - unfold subscribe_channels, update_channel_sinks_by_ids. destruct (sinks x !! i) as [k|]; [|done].
    destruct (Subscriptions.subscribe_channels _ _ _) as [[] s]; [|done]; cbn [snd].
    apply update_channel_sinks_frame, Homap.
  - unfold unsubscribe_channels, update_channel_sinks_by_ids.
    destruct (Subscriptions.unsubscribe_channels _ _ _) as [[] s]; [|done]; cbn [snd].
    apply update_channel_sinks_frame, Homap.
  - unfold clear. cbn [snd]. by apply clear_frame.
Qed.

Lemma run_ctx_op_next op x w : ctx_inv (x, w) → ids_left w →
  w_next_id (run_ctx_op op (x, w)).2 = w_next_id w + if builds op then 1 else 0.
Proof.
  intros Hi Hleft. destruct op as [b|c|k|i|i ids|i ids|]; cbn [run_ctx_op builds];
    rewrite ?Z.add_0_r.
  - rewrite build_raw_ok. destruct (cb_message_encoding b) as [e|]; [|by rewrite Z.add_0_r].
    pose proof (RawChannel_new_inv (cb_topic b) e (cb_schema b) (cb_metadata b) x w Hi Hleft) as Hn.
    destruct (RawChannel_new _ _ _ _ w) as [c w1].
    destruct Hn as (Hi1 & Hf & _ & En & st & Hst & Hop).
    pose proof (add_channel_inv c x w1 st Hi1 Hf Hst Hop) as Ha.
    destruct (add_channel c x w1) as [[c' x'] w']. cbn. destruct Ha as [_ ->]. by rewrite En.
  - unfold close. destruct (is_closed w c); [done|].
    pose proof (remove_channel_inv (rc_id c) x w Hi) as Hr.
    destruct (remove_channel _ _ _) as [[? x'] w']. by destruct Hr.
  - pose proof (add_sink_inv k x w Hi) as Hr. destruct (add_sink _ _ _) as [[? x'] w'].
    by destruct Hr.
  - pose proof (remove_sink_inv i x w Hi) as Hr. destruct (remove_sink _ _ _) as [[? x'] w'].
    by destruct Hr.
  - by destruct (subscribe_channels_inv i ids x w Hi).
  - by destruct (unsubscribe_channels_inv i ids x w Hi).
  - by destruct (clear_inv x w Hi).
Qed.

(** ** The invariant of a process *)

Definition owned (owner : gmap ChannelId ContextId) (ctx : ContextId) (id : ChannelId) : bool :=
  bool_decide (owner !! id = Some ctx).

Record owned_by (owner : gmap ChannelId ContextId) (p : Process) : Prop := {
  ob_contexts : ∀ ctx x, p_contexts p !! ctx = Some x →
    ctx_inv (x, share (owned owner ctx) (p_world p));
  ob_store : ∀ id, is_Some (w_store (p_world p) !! id) → is_Some (owner !! id);
  ob_next : 0 ≤ w_next_id (p_world p);
  ob_owner : ∀ id ctx, owner !! id = Some ctx →
    id < w_next_id (p_world p) ∧ is_Some (p_contexts p !! ctx);
  ob_cells : ∀ cell c, p_cells p !! cell = Some c → owner !! rc_id (cr_raw c) = Some (cr_context c)
}.
(** Each channel has one owner, a context that has been created; each context
    satisfies [ctx_inv] on its share; the lazily built channels are owned by the
    contexts they name. *)
Definition process_inv (p : Process) : Prop := ∃ owner, owned_by owner p.

(** What [ctx_inv] depends on. *)
Definition view (w : World) (id : ChannelId) : option (list Sink * bool) :=
  (λ st, (cs_sinks st, cs_closed st)) <$> w_store w !! id.
Lemma ctx_inv_view x w w' : ctx_inv (x, w) → w_next_id w ≤ w_next_id w' →
  (∀ id, view w' id = view w id) → ctx_inv (x, w').
Proof.
  intros [Hs Ht Hr Hsk [Hn Hst]] Hle Hv. cbn in *. unfold view in Hv. split; cbn; [done..| |].
  - intros id c Hc. destruct (Hsk _ _ Hc) as (st & E & ? & ?). specialize (Hv id).
    rewrite E in Hv. apply fmap_Some in Hv as (st' & ? & [= ? ?]). exists st'. by split_and!; congruence.
  - split; [lia|]. intros id st' E. specialize (Hv id). rewrite E in Hv. cbn in Hv.
    symmetry in Hv. apply fmap_Some in Hv as (st & Est & [= ? ?]).
    destruct (Hst _ _ Est) as [? Hno]. split; [lia|]. intros Hc. rewrite <- (Hno Hc). congruence.
Qed.
Lemma share_view P w w' : (∀ id, P id = true → view w' id = view w id) →
  ∀ id, view (share P w') id = view (share P w) id.
Proof.
  intros H id. unfold view. rewrite !share_lookup. destruct (P id) eqn:E; [|done]. by apply H.
Qed.
Lemma same_at_view id w w' : same_at id w w' → view w' id = view w id.
Proof. unfold view. by intros ->. Qed.

Lemma owned_by_init : owned_by ∅ process_init.
Proof.
  split; cbn.
  - intros ctx x. by rewrite lookup_empty.
  - intros id. by rewrite !lookup_empty.
  - done.
  - intros id ctx. by rewrite lookup_empty.
  - intros cell c. by rewrite lookup_empty.
Qed.

Lemma owned_true owner ctx id : owned owner ctx id = true ↔ owner !! id = Some ctx.
Proof. apply bool_decide_eq_true. Qed.

(** Creating a context. *)
Lemma ContextInner_default_inv w : (∀ id, w_store w !! id = None) → 0 ≤ w_next_id w →
  ctx_inv (ContextInner_default, w).
Proof.
  intros He Hn. split; cbn.
  - apply subs_wf_default.
  - by split.
  - split_and!; intros; unfold subs_at in *; cbn in *; by rewrite !lookup_empty in *.
  - intros id c. by rewrite lookup_empty.
  - split; [done|]. intros id st. by rewrite He.
Qed.
Lemma LazyContext_deref_some ctx p : is_Some (p_contexts (LazyContext_deref ctx p) !! ctx).
Proof.
  unfold LazyContext_deref. destruct (p_contexts p !! ctx) eqn:E; [by eauto|].
  cbn. rewrite lookup_insert_eq. by eauto.
Qed.
Lemma LazyContext_deref_old ctx ctx' x p : p_contexts p !! ctx' = Some x →
  p_contexts (LazyContext_deref ctx p) !! ctx' = Some x.
Proof.
  intros Hx. unfold LazyContext_deref. destruct (p_contexts p !! ctx) eqn:E; [done|].
  cbn. rewrite lookup_insert_ne; [done|congruence].
Qed.
Lemma LazyContext_deref_world ctx p :
  p_world (LazyContext_deref ctx p) = p_world p ∧ p_cells (LazyContext_deref ctx p) = p_cells p.
Proof. unfold LazyContext_deref. by destruct (p_contexts p !! ctx). Qed.
Lemma owned_by_deref owner ctx p : owned_by owner p → owned_by owner (LazyContext_deref ctx p).
Proof.
  intros [Hc Hs Hn Ho Hcell]. unfold LazyContext_deref.
  destruct (p_contexts p !! ctx) as [x|] eqn:E; [by split|]. split; cbn; [|done..| |done].
  - intros ctx' x. rewrite lookup_insert_Some. intros [[<- <-]|[? Hx]]; [|by apply Hc].
    apply ContextInner_default_inv; [|done]. intros id. rewrite share_lookup.
    destruct (owned owner ctx id) eqn:Eo; [|done]. apply owned_true in Eo.
    destruct (Ho _ _ Eo) as [_ [? ?]]. congruence.
  - intros id ctx' Hid. destruct (Ho _ _ Hid) as [? Hsome]. split; [done|].
    destruct (decide (ctx' = ctx)) as [->|?]; [by rewrite lookup_insert_eq; eauto|].
    by rewrite lookup_insert_ne.
Qed.

(** The contexts other than [ctx] and the states of their channels. *)
Definition elsewhere (ctx : ContextId) (p p' : Process) : Prop :=
  ∀ ctx' x, ctx' ≠ ctx → p_contexts p !! ctx' = Some x →
    p_contexts p' !! ctx' = Some x ∧
    ∀ id c, channels x !! id = Some c → same_at id (p_world p) (p_world p').
Lemma elsewhere_refl ctx p : elsewhere ctx p p.
Proof. by intros ctx' x _ Hx. Qed.
Lemma elsewhere_trans ctx p1 p2 p3 :
  elsewhere ctx p1 p2 → elsewhere ctx p2 p3 → elsewhere ctx p1 p3.
Proof.
  intros H1 H2 ctx' x Hne Hx. destruct (H1 _ _ Hne Hx) as [Hx2 Hs].
  destruct (H2 _ _ Hne Hx2) as [? Hs']. split; [done|].
  intros id c Hc. unfold same_at in *. by rewrite (Hs' _ _ Hc), (Hs _ _ Hc).
Qed.
Lemma elsewhere_deref ctx ctx' p : elsewhere ctx p (LazyContext_deref ctx' p).
Proof.
  intros ctx2 x _ Hx. split; [by apply LazyContext_deref_old|].
  intros id c _. unfold same_at. by rewrite (proj1 (LazyContext_deref_world ctx' p)).
Qed.
Lemma elsewhere_same ctx p p' : p_contexts p' = p_contexts p → p_world p' = p_world p →
  elsewhere ctx p p'.
Proof. intros E1 E2 ctx' x _ Hx. unfold same_at. by rewrite E1, E2. Qed.

Lemma owned_channel owner p ctx x id c : owned_by owner p → p_contexts p !! ctx = Some x →
  channels x !! id = Some c → owner !! id = Some ctx ∧ rc_id c = id.
Proof.
  intros Ho Hx Hc. destruct (inv_share _ _ _ _ _ (ob_contexts _ _ Ho _ _ Hx) Hc) as (? & Hid & _).
  by apply owned_true in Hid.
Qed.

(** The owners after an operation that may allocate the next id. *)
Definition new_owner (b : bool) (ctx : ContextId) (p : Process) (owner : gmap ChannelId ContextId)
    : gmap ChannelId ContextId :=
  if b then <[w_next_id (p_world p) := ctx]> owner else owner.

Lemma new_owner_old b ctx p owner id o : owned_by owner p → owner !! id = Some o →
  new_owner b ctx p owner !! id = Some o.
Proof.
  intros Ho Hid. unfold new_owner. destruct b; [|done].
  destruct (ob_owner _ _ Ho _ _ Hid) as [? _]. rewrite lookup_insert_ne; [done|lia].
Qed.
Lemma share_new_owner b ctx ctx' p owner : owned_by owner p →
  share (owned (new_owner b ctx p owner) ctx') (p_world p) = share (owned owner ctx') (p_world p).
Proof.
  intros Ho. apply share_ext. intros id Hid. destruct (ob_store _ _ Ho _ Hid) as [o Eo].
  unfold owned. by rewrite (new_owner_old b ctx p owner id o), Eo.
Qed.

(** A step of one context. *)
Lemma step_owned owner p ctx x op :
  owned_by owner p → p_contexts p !! ctx = Some x → ids_left (p_world p) →
  let '(x', w') := run_ctx_op op (x, p_world p) in
  owned_by (new_owner (builds op) ctx p owner) (set_context ctx x' w' p) ∧
  w_next_id w' = w_next_id (p_world p) + (if builds op then 1 else 0) ∧
  elsewhere ctx p (set_context ctx x' w' p).
Proof.
  intros Ho Hx Hleft. set (owner' := new_owner _ _ _ _).
  pose proof (ob_contexts _ _ Ho _ _ Hx) as Hi.
  rewrite <- (share_new_owner (builds op) ctx ctx p owner Ho) in Hi. fold owner' in Hi.
  assert (builds op = true → owned owner' ctx (w_next_id (p_world p)) = true) as Hnew.
  { intros Hb. unfold owner', new_owner. rewrite Hb. apply owned_true, lookup_insert_eq. }
  pose proof (run_ctx_op_inv op _ Hi Hleft) as [Hi' _].
  pose proof (run_ctx_op_next op _ _ Hi Hleft) as Hn'.
  rewrite (run_ctx_op_share _ op x (p_world p) Hi Hnew) in Hi', Hn'.
  assert (∀ id, owner' !! id ≠ Some ctx →
    same_at id (p_world p) (run_ctx_op op (x, p_world p)).2) as Hf.
  { intros id Hid. apply (run_ctx_op_frame (owned owner' ctx)); [done| |].
    - unfold owned. by apply bool_decide_eq_false.
    - intros Hb ->. by apply Hid, owned_true, Hnew. }
  destruct (run_ctx_op op (x, p_world p)) as [x' w']. cbn [prod_map fst snd id] in *.
  unfold prod_map in Hi', Hn'. cbn [fst snd id share w_next_id] in Hi', Hn'.
  assert (∀ ctx' id, ctx' ≠ ctx → owner' !! id = Some ctx' → same_at id (p_world p) w') as Hother.
  { intros ctx' id Hne Hid. apply Hf. congruence. }
  split_and!; [|done|].
  - split; cbn [p_contexts p_cells p_world set_context].
    + intros ctx' y. rewrite lookup_insert_Some. intros [[<- <-]|[Hne Hy]]; [done|].
      eapply ctx_inv_view; [apply (ob_contexts _ _ Ho _ _ Hy)| |].
      * cbn. rewrite Hn'. destruct (builds op); lia.
      * rewrite <- (share_new_owner (builds op) ctx ctx' p owner Ho). fold owner'.
        apply share_view. intros id Hid%owned_true. by eapply same_at_view, Hother.
    + intros id Hid. destruct (owner' !! id) as [o|] eqn:E; [by eauto|].
      rewrite (Hf id) in Hid by congruence. destruct (ob_store _ _ Ho _ Hid) as [o Eo].
      unfold owner' in E. by rewrite (new_owner_old _ _ _ _ _ _ Ho Eo) in E.
    + rewrite Hn'. pose proof (ob_next _ _ Ho). destruct (builds op); lia.
    + intros id o Hid. rewrite Hn'.
      assert (is_Some (<[ctx:=x']> (p_contexts p) !! ctx)) by (rewrite lookup_insert_eq; eauto).
      assert (∀ o, is_Some (p_contexts p !! o) → is_Some (<[ctx:=x']> (p_contexts p) !! o)).
      { intros o' Hsome. destruct (decide (o' = ctx)) as [->|?]; [done|by rewrite lookup_insert_ne]. }
      unfold owner', new_owner in Hid. destruct (builds op).
      * apply lookup_insert_Some in Hid as [[<- <-]|[_ Hid]]; [split; [lia|done]|].
        destruct (ob_owner _ _ Ho _ _ Hid). split; [lia|auto].
      * destruct (ob_owner _ _ Ho _ _ Hid). split; [lia|auto].
    + intros cell c Hc. by apply new_owner_old, (ob_cells _ _ Ho _ _ Hc).
  - intros ctx' y Hne Hy. cbn. split; [by rewrite lookup_insert_ne|].
    intros id c Hc. destruct (owned_channel _ _ _ _ _ _ Ho Hy Hc) as [Hid _].
    apply (Hother ctx'); [done|]. by apply new_owner_old.
Qed.

(** *** Building *)

(** The channel has the options of the builder. *)
Definition describes (b : ChannelBuilder) (c : RawChannel) : Prop :=
  rc_topic c = cb_topic b ∧
  Some (cd_message_encoding (rc_descriptor c)) = cb_message_encoding b ∧
  cd_schema (rc_descriptor c) = cb_schema b ∧ cd_metadata (rc_descriptor c) = cb_metadata b.

(** [c] is registered in the context it names. *)
Definition registered (p : Process) (c : ChannelRef) : Prop :=
  ∃ x, p_contexts p !! cr_context c = Some x ∧
       channels x !! rc_id (cr_raw c) = Some (cr_raw c).

(** A step to a process that keeps the invariant, the owners, the cells and the
    contexts other than [ctx]. *)
Record steps_to (n : Z) (ctx : ContextId) (owner owner' : gmap ChannelId ContextId) (p p' : Process)
    : Prop := {
  so_inv : owned_by owner' p';
  so_owner : ∀ id o, owner !! id = Some o → owner' !! id = Some o;
  so_cells : p_cells p' = p_cells p;
  so_elsewhere : elsewhere ctx p p';
  so_next : w_next_id (p_world p') = w_next_id (p_world p) + n
}.

Lemma describes_build b e c c0 x x' w w1 w' :
  cb_message_encoding b = Some e →
  RawChannel_new (cb_topic b) e (cb_schema b) (cb_metadata b) w = (c0, w1) →
  add_channel c0 x w1 = (c, x', w') → topics_ok (channels x) (channels_by_topic x) →
  topics_ok (channels x') (channels_by_topic x') →
  describes b c ∧ channels x' !! rc_id c = Some c.
Proof.
  intros He E0 E Ht Ht'. pose proof (add_channel_registers c0 x w1 Ht) as Hr. rewrite E in Hr.
  destruct Hr as [Hm (cs & Hcs & Hc)]. unfold RawChannel_new in E0. injection E0 as <- <-.
  apply rc_matches_spec in Hm as (? & ? & ? & ?). cbn in *. split.
  - unfold describes, rc_topic. rewrite He. split_and!; congruence.
  - by apply (proj1 Ht' _ _ Hcs).
Qed.

Lemma Builder_build_raw_steps owner b p :
  owned_by owner p → is_Some (p_contexts p !! b_context b) → ids_left (p_world p) →
  is_Some (cb_message_encoding (b_options b)) →
  ∃ c p' owner', Builder_build_raw b p = Ok (c, p') ∧
    steps_to 1 (b_context b) owner owner' p p' ∧ cr_context c = b_context b ∧
    describes (b_options b) (cr_raw c) ∧ registered p' c.
Proof.
  intros Ho [x Hx] Hleft [e He]. unfold Builder_build_raw, context_of. rewrite Hx.
  change (default ContextInner_default (Some x)) with x.
  pose proof (step_owned owner p _ x (OpBuildRaw (b_options b)) Ho Hx Hleft) as Hs.
  cbn [run_ctx_op builds] in Hs. rewrite build_raw_ok in *. rewrite He in *.
  rewrite (bool_decide_eq_true_2 (is_Some (Some e))) in Hs by by eexists.
  destruct (RawChannel_new _ _ _ _ (p_world p)) as [c0 w1] eqn:E0.
  destruct (add_channel c0 x w1) as [[c x'] w'] eqn:E. destruct Hs as (Ho' & Hn & He').
  assert (p_contexts (set_context (b_context b) x' w' p) !! b_context b = Some x') as Hx'
    by (cbn; by rewrite lookup_insert_eq).
  destruct (describes_build _ _ _ _ _ _ _ _ _ He E0 E (ci_topics _ (ob_contexts _ _ Ho _ _ Hx))
    (ci_topics _ (ob_contexts _ _ Ho' _ _ Hx'))) as [Hd Hc].
  do 3 eexists. split; [reflexivity|]. split_and!; [|done|done|by exists x'].
  split; [exact Ho'| |done|done|done]. intros id o. by apply (new_owner_old true).
Qed.

Section build_typed.
Context `{SmallBytes} {T : Type} `{!Encode T}.
Lemma Builder_build_steps owner b p :
  owned_by owner p → is_Some (p_contexts p !! b_context b) → ids_left (p_world p) →
  ∃ c p' owner', Builder_build (T:=T) b p = Ok (c, p') ∧
    steps_to 1 (b_context b) owner owner' p p' ∧ cr_context (tc_inner c) = b_context b ∧
    describes (fill_encode (b_options b)) (cr_raw (tc_inner c)) ∧ registered p' (tc_inner c).
Proof.
  intros Ho Hx Hleft.
  destruct (Builder_build_raw_steps owner (with_options fill_encode b) p Ho Hx Hleft)
    as (c & p' & owner' & E & ? & ? & ? & ?); [by eexists|].
  unfold Builder_build. rewrite E. do 3 eexists. split; [reflexivity|]. by split_and!.
Qed.
End build_typed.

(** *** Logging *)

(** A change of the throttlers of closed channels and of the trace. *)
Definition only_logs (w w' : World) : Prop :=
  w_next_id w' = w_next_id w ∧ (∀ id, view w' id = view w id) ∧
  ∀ id st, w_store w !! id = Some st → cs_closed st = false → same_at id w w'.
Lemma only_logs_emit evs w : only_logs w (emit evs w).
Proof. done. Qed.
Lemma log_warn_only_logs instant c w : only_logs w (log_warn_if_closed instant c w).
Proof.
  unfold log_warn_if_closed. destruct (w_store w !! rc_id c) as [st|] eqn:E; [|done].
  destruct (cs_closed st) eqn:Ec; [|done]. destruct (try_acquire _ _) as [ok t].
  assert (∀ f, (∀ st, cs_sinks (f st) = cs_sinks st ∧ cs_closed (f st) = cs_closed st) →
    only_logs w (alter_channel f c w)) as Ha.
  { intros f Hf. split_and!; [done| |].
    - intros id. unfold view. cbn. destruct (decide (id = rc_id c)) as [->|?];
        [|by rewrite lookup_alter_ne].
      rewrite lookup_alter_eq, E. cbn. by destruct (Hf st) as [-> ->].
    - intros id st' E' Ho. unfold same_at. cbn. rewrite lookup_alter_ne; [done|congruence]. }
  destruct ok; [|by apply Ha]. by apply Ha.
Qed.
Lemma log_only_logs instant epoch c msg opts id w :
  only_logs w (log_with_meta_to_sink instant epoch c msg opts id w).
Proof.
  unfold log_with_meta_to_sink. destruct (has_sinks w c); [|apply log_warn_only_logs].
  rewrite log_to_sinks_emit. apply only_logs_emit.
Qed.
Lemma only_logs_steps owner ctx p w : owned_by owner p → only_logs (p_world p) w →
  steps_to 0 ctx owner owner p (set_world w p).
Proof.
  intros Ho (Hn & Hv & Hs). split; [|done|done| |by rewrite Z.add_0_r].
  - split; cbn.
    + intros ctx' x Hx. eapply ctx_inv_view; [apply (ob_contexts _ _ Ho _ _ Hx)|cbn; lia|].
      by apply share_view.
    + intros id [st Hid]. apply (ob_store _ _ Ho). specialize (Hv id). unfold view in Hv.
      rewrite Hid in Hv. by destruct (w_store (p_world p) !! id).
    + rewrite Hn. apply (ob_next _ _ Ho).
    + intros id o Hid. rewrite Hn. by apply (ob_owner _ _ Ho).
    + apply (ob_cells _ _ Ho).
  - intros ctx' x _ Hx. cbn. split; [done|]. intros id c Hc.
    destruct (ci_sinks _ (ob_contexts _ _ Ho _ _ Hx) _ _ Hc) as (st & Hst & Hop & _).
    cbn [snd] in Hst. rewrite share_lookup in Hst. destruct (owned _ _ _); [|done]. by eapply Hs.
Qed.

(** *** Lazily built channels *)

Lemma steps_to_trans n m ctx o1 o2 o3 p1 p2 p3 :
  steps_to n ctx o1 o2 p1 p2 → steps_to m ctx o2 o3 p2 p3 → steps_to (n + m) ctx o1 o3 p1 p3.
Proof.
  intros [_ O1 C1 E1 N1] [I2 O2 C2 E2 N2]. split; [done|auto|congruence| |lia].
  by eapply elsewhere_trans.
Qed.
Lemma steps_to_refl ctx owner p : owned_by owner p → steps_to 0 ctx owner owner p p.
Proof. intros Ho. split; [done..|apply elsewhere_refl|by rewrite Z.add_0_r]. Qed.
Lemma deref_steps ctx ctx' owner p : owned_by owner p →
  steps_to 0 ctx owner owner p (LazyContext_deref ctx' p).
Proof.
  intros Ho. destruct (LazyContext_deref_world ctx' p) as [Ew Ec].
  split; [by apply owned_by_deref|done|done|apply elsewhere_deref|by rewrite Ew, Z.add_0_r].
Qed.

(** What any operation does: cells are only filled, at most one id is taken. *)
Record runs_to (ctx : ContextId) (owner owner' : gmap ChannelId ContextId) (p p' : Process)
    : Prop := {
  rt_inv : owned_by owner' p';
  rt_owner : ∀ id o, owner !! id = Some o → owner' !! id = Some o;
  rt_cells : p_cells p ⊆ p_cells p';
  rt_elsewhere : elsewhere ctx p p';
  rt_next : w_next_id (p_world p) ≤ w_next_id (p_world p') ≤ w_next_id (p_world p) + 1
}.
Lemma steps_runs n ctx owner owner' p p' : 0 ≤ n ≤ 1 → steps_to n ctx owner owner' p p' →
  runs_to ctx owner owner' p p'.
Proof. intros Hn [? ? Ec ? En]. split; [done|done|by rewrite Ec|done|lia]. Qed.

Lemma set_cell_runs cell c ctx owner owner' p p' :
  steps_to 1 ctx owner owner' p p' → p_cells p !! cell = None → registered p' c →
  runs_to ctx owner owner' p (set_cell cell c p').
Proof.
  intros [Ho Hmono Ec He En] Hnone (x & Hx & Hc). split; [|done| | |cbn; lia].
  - split; cbn; [apply (ob_contexts _ _ Ho)|apply (ob_store _ _ Ho)|apply (ob_next _ _ Ho)|
      apply (ob_owner _ _ Ho)|].
    intros cell' c'. rewrite lookup_insert_Some. intros [[<- <-]|[_ Hc']];
      [|by apply (ob_cells _ _ Ho _ _ Hc')].
    by apply (owned_channel _ _ _ _ _ _ Ho Hx Hc).
  - cbn. rewrite Ec. by apply insert_subseteq.
  - eapply elsewhere_trans; [done|]. by apply elsewhere_same.
Qed.

(** What a lazily built channel is when it has just been built. *)
Definition built (ctx : ContextId) (opts : ChannelBuilder) (p : Process) (c : ChannelRef) : Prop :=
  cr_context c = ctx ∧ describes opts (cr_raw c) ∧ registered p c.

Lemma OnceLock_spec cell ctx f opts owner p :
  owned_by owner p →
  (∃ c p1 owner1, f p = Ok (c, p1) ∧ steps_to 1 ctx owner owner1 p p1 ∧ cr_context c = ctx ∧
    describes opts (cr_raw c) ∧ registered p1 c) →
  ∃ c p' owner', OnceLock_get_or_init cell f p = Ok (c, p') ∧ runs_to ctx owner owner' p p' ∧
    p_cells p' !! cell = Some c ∧ (p_cells p !! cell = None → built ctx opts p' c).
Proof.
  intros Ho (c & p1 & owner1 & E & Hs & Hctx & Hd & Hr). unfold OnceLock_get_or_init.
  destruct (p_cells p !! cell) as [c0|] eqn:Ec.
  - exists c0, p, owner. split_and!; [done| |done|done].
    eapply (steps_runs 0); [lia|by apply steps_to_refl].
  - rewrite E. do 3 eexists. split; [reflexivity|].
    split_and!; [by apply (set_cell_runs _ _ _ _ _ _ _ Hs)|cbn; by rewrite lookup_insert_eq|].
    intros _. by split_and!.
Qed.

Definition default_options (topic : string) : ChannelBuilder :=
  {| cb_topic := topic; cb_message_encoding := None; cb_schema := None; cb_metadata := ∅ |}.

(** The two contexts that building a lazy channel creates. *)
Lemma lazy_contexts owner ctx p : owned_by owner p → ids_left (p_world p) →
  let p2 := LazyContext_deref ctx (LazyContext_deref DEFAULT_CONTEXT p) in
  steps_to 0 ctx owner owner p p2 ∧ ids_left (p_world p2) ∧ is_Some (p_contexts p2 !! ctx).
Proof.
  intros Ho Hleft. cbn zeta. split_and!; [| |apply LazyContext_deref_some].
  - pose proof (deref_steps ctx DEFAULT_CONTEXT owner p Ho) as H1.
    apply (steps_to_trans 0 0 _ _ _ _ _ _ _ H1), deref_steps, H1.
  - unfold ids_left.
    by rewrite (proj1 (LazyContext_deref_world ctx _)), (proj1 (LazyContext_deref_world _ p)).
Qed.

Section lazy_typed.
Context `{SmallBytes} {T : Type} `{!Encode T}.
Definition lazy_options (l : LazyChannel T) : ChannelBuilder :=
  fill_encode (T:=T) (default_options (lc_topic l)).
Lemma LazyChannel_spec (l : LazyChannel T) owner p :
  owned_by owner p → ids_left (p_world p) →
  ∃ c p' owner', LazyChannel_get_or_init l p = Ok (c, p') ∧
    runs_to (lc_context l) owner owner' p p' ∧ p_cells p' !! lc_inner l = Some (tc_inner c) ∧
    (p_cells p !! lc_inner l = None → built (lc_context l) (lazy_options l) p' (tc_inner c)).
Proof.
  intros Ho Hleft. unfold LazyChannel_get_or_init.
  destruct (lazy_contexts owner (lc_context l) p Ho Hleft) as (Hs & Hleft2 & Hx).
  destruct (Builder_build_steps (T:=T) owner
    {| b_options := default_options (lc_topic l); b_context := lc_context l |} _ (so_inv _ _ _ _ _ _ Hs)
    Hx Hleft2) as (c & p' & owner' & E & Hs' & Hctx & Hd & Hr).
  match goal with |- context [OnceLock_get_or_init _ ?f _] =>
    destruct (OnceLock_spec (lc_inner l) (lc_context l) f (lazy_options l) owner p Ho)
      as (c' & p'' & owner'' & -> & Hrun & Hcell & Hbuilt) end.
  - exists (tc_inner c), p', owner'. split_and!; [|by eapply (steps_to_trans 0 1)|done..].
    unfold Builder_new, Builder_context. cbn [b_options].
    change {| cb_topic := lc_topic l; cb_message_encoding := _ |} with (default_options (lc_topic l)).
    by rewrite E.
  - do 3 eexists. split; [reflexivity|]. by split_and!.
Qed.
End lazy_typed.

Definition lazy_raw_options (l : LazyRawChannel) : ChannelBuilder :=
  {| cb_topic := lr_topic l; cb_message_encoding := Some (lr_message_encoding l);
     cb_schema := match lr_schema l with
       | Some (name, encoding, data) =>
         Some {| sch_name := name; sch_encoding := encoding; sch_data := data |}
       | None => None
       end;
     cb_metadata := ∅ |}.
Lemma LazyRawChannel_spec (l : LazyRawChannel) owner p :
  owned_by owner p → ids_left (p_world p) →
  ∃ c p' owner', LazyRawChannel_get_or_init l p = Ok (c, p') ∧
    runs_to (lr_context l) owner owner' p p' ∧ p_cells p' !! lr_inner l = Some c ∧
    (p_cells p !! lr_inner l = None → built (lr_context l) (lazy_raw_options l) p' c).
Proof.
  intros Ho Hleft. unfold LazyRawChannel_get_or_init.
  destruct (lazy_contexts owner (lr_context l) p Ho Hleft) as (Hs & Hleft2 & Hx).
  destruct (Builder_build_raw_steps owner
    {| b_options := lazy_raw_options l; b_context := lr_context l |} _ (so_inv _ _ _ _ _ _ Hs)
    Hx Hleft2) as (c & p' & owner' & E & Hs' & Hctx & Hd & Hr); [by eexists|].
  apply OnceLock_spec; [done|].
  exists c, p', owner'. split_and!; [|by eapply (steps_to_trans 0 1)|done..].
  unfold lazy_raw_options in E. cbn -[Builder_build_raw LazyContext_deref].
  destruct (lr_schema l) as [[[name encoding] data]|]; cbn in E |- *; by rewrite E.
Qed.

(** *** Every operation *)

Lemma run_op_runs op owner p : owned_by owner p → ids_left (p_world p) →
  ∃ owner', runs_to (op_context op) owner owner' p (run_op op p).
Proof.
  intros Ho Hleft.
  assert (runs_to (op_context op) owner owner p p) as Hrefl
    by (eapply (steps_runs 0); [lia|by apply steps_to_refl]).
  destruct op as [ctx op|sb T enc b|sb T enc l|l|sb T enc instant epoch c msg md id|instant epoch c msg md id];
    cbn [run_op op_context] in *.
  - pose proof (deref_steps ctx ctx owner p Ho) as Hd. set (p1 := LazyContext_deref ctx p) in *.
    destruct (LazyContext_deref_some ctx p) as [x Hx]. fold p1 in Hx.
    unfold context_of. rewrite Hx. change (default ContextInner_default (Some x)) with x.
    pose proof (so_next _ _ _ _ _ _ Hd) as Hn.
    pose proof (step_owned owner p1 ctx x op (so_inv _ _ _ _ _ _ Hd) Hx) as Hs.
    destruct (run_ctx_op op (x, p_world p1)) as [x' w'].
    destruct Hs as (Ho' & Hn' & He); [unfold ids_left in *; lia|].
    eexists. eapply (steps_runs (0 + if builds op then 1 else 0)); [by destruct (builds op)|].
    apply (steps_to_trans _ _ _ _ _ _ _ _ _ Hd). split; [exact Ho'| |done|done|done].
    intros id o. apply new_owner_old, Hd.
  - pose proof (deref_steps (b_context b) (b_context b) owner p Ho) as Hd.
    pose proof (so_next _ _ _ _ _ _ Hd) as Hn.
    destruct (Builder_build_steps (T:=T) owner b _ (so_inv _ _ _ _ _ _ Hd)
      (LazyContext_deref_some _ _)) as (c & p' & owner' & E & Hs & _);
      [unfold ids_left in *; lia|]. rewrite E. exists owner'.
    eapply (steps_runs (0 + 1)); [lia|]. by eapply steps_to_trans.
  - destruct (LazyChannel_spec l owner p Ho Hleft) as (c & p' & owner' & -> & ? & _). by exists owner'.
  - destruct (LazyRawChannel_spec l owner p Ho Hleft) as (c & p' & owner' & -> & ? & _).
    by exists owner'.
  - exists owner. unfold typed_log_with_meta_to_sink, typed_log_to_sinks.
    destruct (has_sinks _ _).
    + destruct (encode msg _) as [buf| |]; [|done..].
      eapply (steps_runs 0); [lia|]. apply only_logs_steps; [done|].
      rewrite log_to_sinks_emit. apply only_logs_emit.
    + eapply (steps_runs 0); [lia|]. apply only_logs_steps; [done|]. apply log_warn_only_logs.
  - exists owner. eapply (steps_runs 0); [lia|]. apply only_logs_steps; [done|]. apply log_only_logs.
Qed.

Lemma run_ops_runs ops owner p :
  owned_by owner p → w_next_id (p_world p) + Z.of_nat (length ops) < 2 ^ 64 - 1 →
  ∃ owner', owned_by owner' (run_ops ops p) ∧ p_cells p ⊆ p_cells (run_ops ops p) ∧
    ∀ id o, owner !! id = Some o → owner' !! id = Some o.
Proof.
  unfold run_ops. revert owner p. induction ops as [|op ops IH]; intros owner p Ho Hl.
  { by exists owner. }
  cbn [foldl length] in *. pose proof (ob_next _ _ Ho).
  destruct (run_op_runs op owner p Ho) as (o1 & [Ho1 Hm1 Hc1 _ Hn1]); [split; lia|].
  destruct (IH o1 (run_op op p) Ho1) as (o2 & Ho2 & Hc2 & Hm2); [lia|].
  exists o2. split; [done|]. split; [by etransitivity|auto].
Qed.

(** ** The theorems *)

(** C3: Whatever an application does with its contexts and its channels, typed
    or raw, built at once or lazily, every channel keeps one owner and every
    context its invariant on its own channels ([process_inv]), and a call on one
    context changes no other context and no state of a channel registered in
    another. *)
Theorem contexts_isolated ops op :
  Z.of_nat (length ops) < 2 ^ 64 - 3 →
  let p := run_ops ops process_init in
  process_inv p ∧ process_inv (run_op op p) ∧ elsewhere (op_context op) p (run_op op p).
Proof.
  intros Hl p. destruct (run_ops_runs (ops ++ [op]) ∅ process_init owned_by_init) as (o & Ho & _).
  { rewrite length_app. cbn. lia. }
  destruct (run_ops_runs ops ∅ process_init owned_by_init) as (o1 & Ho1 & _); [cbn; lia|].
  unfold run_ops in Ho. rewrite foldl_app in Ho. cbn in Ho. fold (run_ops ops process_init) in Ho, Ho1.
  split; [by exists o1|]. split; [by exists o|]. fold p in Ho, Ho1.
  assert (w_next_id (p_world p) ≤ 1 + Z.of_nat (length ops)) as Hb.
  { clear Ho Ho1. unfold p, run_ops. change 1 with (w_next_id (p_world process_init)).
    assert (process_inv process_init) as [oi Hoi] by (exists ∅; apply owned_by_init).
    assert (w_next_id (p_world process_init) + Z.of_nat (length ops) < 2 ^ 64 - 1) as Hb by (cbn; lia).
    clear Hl. revert oi Hoi Hb. generalize process_init.
    induction ops as [|op' ops IH]; intros q oi Hoi Hb; cbn [foldl length] in *; [lia|].
    pose proof (ob_next _ _ Hoi).
    destruct (run_op_runs op' oi q Hoi) as (o2 & [Ho2 _ _ _ Hn2]); [split; lia|].
    specialize (IH (run_op op' q) o2 Ho2). lia. }
  destruct (run_op_runs op o1 p Ho1) as (o2 & [_ _ _ He _]); [|done].
  split; [apply (ob_next _ _ Ho1)|lia].
Qed.

(** A lazily built channel exists from its first use on: that use never
    panics and registers a channel with the topic of the static and the
    encoding and schema of the message type in the context of the static (or
    finds the one that is there); every later use, whatever happens in between,
    returns the same channel and changes nothing. *)
Theorem lazy_channel_once `{SmallBytes} {T} `{!Encode T} (l : LazyChannel T) p :
  process_inv p → ids_left (p_world p) →
  ∃ c p', LazyChannel_get_or_init l p = Ok (c, p') ∧ process_inv p' ∧
    (p_cells p !! lc_inner l = None → built (lc_context l) (lazy_options l) p' (tc_inner c)) ∧
    ∀ ops, w_next_id (p_world p') + Z.of_nat (length ops) < 2 ^ 64 - 1 →
      LazyChannel_get_or_init l (run_ops ops p') = Ok (c, run_ops ops p').
Proof.
  intros [owner Ho] Hleft.
  destruct (LazyChannel_spec l owner p Ho Hleft) as (c & p' & owner' & E & Hr & Hcell & Hb).
  exists c, p'. split_and!; [done|exists owner'; apply Hr|done|].
  intros ops Hl. destruct (run_ops_runs ops owner' p' (rt_inv _ _ _ _ _ Hr) Hl) as (o & _ & Hc & _).
  unfold LazyChannel_get_or_init, OnceLock_get_or_init.
  rewrite (lookup_weaken _ _ _ _ Hcell Hc). by destruct c.
Qed.

(** Building a channel that matches a registered one. *)
Lemma Builder_build_raw_matching owner b p (c : ChannelRef) :
  owned_by owner p → registered p c → cr_context c = b_context b →
  describes (b_options b) (cr_raw c) →
  ∃ p', Builder_build_raw b p = Ok (c, p') ∧
    p_contexts p' = p_contexts p ∧ w_trace (p_world p') = w_trace (p_world p).
Proof.
  intros Ho (x & Hx & Hc) Ectx (Htop & Henc & Hsch & Hmd). destruct c as [c ctx]. cbn in *. subst ctx.
  pose proof (ci_topics _ (ob_contexts _ _ Ho _ _ Hx)) as Ht. cbn in Ht.
  destruct (proj2 Ht _ _ Hc) as (_ & cs & Hcs & Hin).
  unfold Builder_build_raw, context_of. rewrite Hx. change (default ContextInner_default (Some x)) with x.
  rewrite build_raw_ok, <- Henc. unfold RawChannel_new. rewrite (add_channel_matching _ c cs); [|done| |done|].
  - eexists. split; [reflexivity|]. cbn. split; [by apply insert_id|done].
  - cbn. by rewrite <- Htop.
  - apply rc_matches_spec. cbn. unfold rc_topic in Htop. by split_and!.
Qed.
Lemma Builder_build_matching `{SmallBytes} {T} `{!Encode T} owner b p (c : ChannelRef) :
  owned_by owner p → registered p c → cr_context c = b_context b →
  describes (fill_encode (T:=T) (b_options b)) (cr_raw c) →
  ∃ p', Builder_build (T:=T) b p = Ok (from_raw_channel T c, p') ∧
    p_contexts p' = p_contexts p ∧ w_trace (p_world p') = w_trace (p_world p).
Proof.
  intros Ho Hr Ectx Hd.
  destruct (Builder_build_raw_matching owner (with_options fill_encode b) p c Ho Hr Ectx Hd)
    as (p' & E & ?). exists p'. unfold Builder_build. by rewrite E.
Qed.

(** Two statics for one topic, context, encoding and schema are one
    channel: after the first was built, and while it is registered, building
    the second returns the same channel, and no sink hears of it. *)
Theorem lazy_channels_shared `{SmallBytes} {T U} `{!Encode T} `{!Encode U} (l : LazyChannel T)
    (m : LazyChannel U) c p p1 :
  process_inv p → w_next_id (p_world p) < 2 ^ 64 - 2 →
  LazyChannel_get_or_init l p = Ok (c, p1) → registered p1 (tc_inner c) →
  p_cells p !! lc_inner l = None → p_cells p1 !! lc_inner m = None →
  lc_context m = lc_context l → lazy_options m = lazy_options l →
  ∃ p2, LazyChannel_get_or_init m p1 = Ok (from_raw_channel U (tc_inner c), p2) ∧
    p_contexts p2 = p_contexts p1 ∧ w_trace (p_world p2) = w_trace (p_world p1).
Proof.
  intros [owner Ho] Hb E Hreg Hl Hm Ectx Eopt. pose proof (ob_next _ _ Ho).
  destruct (LazyChannel_spec l owner p Ho) as (c' & p1' & o1 & E' & Hr & _ & Hbuilt); [split; lia|].
  rewrite E in E'. injection E' as <- <-. destruct (Hbuilt Hl) as (Hctx & Hd & x & Hx & _).
  assert (LazyContext_deref (lc_context m) (LazyContext_deref DEFAULT_CONTEXT p1) = p1) as Ed.
  { assert (is_Some (p_contexts p1 !! DEFAULT_CONTEXT)) as [y Hy].
    { revert E. unfold LazyChannel_get_or_init, OnceLock_get_or_init. rewrite Hl.
      destruct (lazy_contexts owner (lc_context l) p Ho) as (Hs & Hleft2 & Hx2); [split; lia|].
      destruct (Builder_build_steps (T:=T) owner
        {| b_options := default_options (lc_topic l); b_context := lc_context l |} _
        (so_inv _ _ _ _ _ _ Hs) Hx2 Hleft2) as (c2 & p2 & o2 & E2 & Hs2 & _).
      unfold Builder_new, Builder_context. cbn [b_options].
      change {| cb_topic := lc_topic l; cb_message_encoding := _ |}
        with (default_options (lc_topic l)). rewrite E2. intros [= <- <-]. cbn.
      pose proof (LazyContext_deref_some DEFAULT_CONTEXT p) as [y Hy].
      destruct (decide (DEFAULT_CONTEXT = lc_context l)) as [->|Hne].
      - rewrite <- Hctx. cbn in Hx. cbn. eauto.
      - exists y. apply (so_elsewhere _ _ _ _ _ _ Hs2); [done|]. by apply LazyContext_deref_old. }
    unfold LazyContext_deref. rewrite Hy, Ectx. rewrite <- Hctx. by rewrite Hx. }
  unfold LazyChannel_get_or_init, OnceLock_get_or_init. rewrite Hm.
  unfold Builder_new, Builder_context. cbn [b_options]. rewrite Ed.
  destruct (Builder_build_matching (T:=U) o1 {| b_options := default_options (lc_topic m);
    b_context := lc_context m |} p1 (tc_inner c) (rt_inv _ _ _ _ _ Hr)) as (p2 & E2 & Ec2 & Et2).
  - exists x. split; [done|]. destruct Hreg as (x' & Hx' & ?). congruence.
  - cbn. congruence.
  - cbn [b_options]. fold (lazy_options m). by rewrite Eopt.
  - unfold default_options in E2. rewrite E2. cbn. eexists. by split_and!.
Qed.

(** Logging a message on a registered typed channel encodes it and calls
    [log] exactly once, with the encoded bytes and the chosen time, on exactly
    the sinks that are subscribed (and are the given sink, if one is given);
    without subscribers the message is not encoded and nothing happens; and the
    call panics exactly when there is a subscriber and [encode] fails. *)
Theorem typed_log_delivers `{SmallBytes} {T} `{!Encode T} instant epoch (c : TypedChannel T) msg opts
    id p x :
  process_inv p → registered p (tc_inner c) → p_contexts p !! cr_context (tc_inner c) = Some x →
  let ch := cr_raw (tc_inner c) in
  let r := typed_log_with_meta_to_sink instant epoch c msg opts id (p_world p) in
  ((∀ k, ¬ subscribed x (rc_id ch) k) → r = Ok (p_world p)) ∧
  (∀ k, subscribed x (rc_id ch) k →
    match encode msg (encode_buffer msg) with
    | Ok buf => ∃ ks,
      r = Ok (emit (ks ≫= log_one ch (sb_bytes buf)
        {| m_log_time := default epoch (pm_log_time opts) |}) (p_world p)) ∧
      NoDup (sink_id <$> ks) ∧
      ∀ k, k ∈ ks ↔ subscribed x (rc_id ch) k ∧ match id with Some i => sink_id k = i | None => True end
    | _ => r = Panic
    end).
Proof.
  intros [owner Ho] (x' & Hx' & Hc) Hx. rewrite Hx in Hx'. injection Hx' as <-. cbn zeta.
  set (ch := cr_raw (tc_inner c)) in *. pose proof (ob_contexts _ _ Ho _ _ Hx) as Hi.
  assert (w_store (p_world p) !! rc_id ch = w_store (share (owned owner (cr_context (tc_inner c)))
    (p_world p)) !! rc_id ch) as Est.
  { rewrite share_lookup. destruct (inv_share _ _ _ _ _ Hi Hc) as (_ & -> & _). done. }
  destruct (channel_sinks_registered _ _ _ Hi Hc) as [Es Ecl].
  assert (channel_sinks (p_world p) ch = get_subscribers (rc_id ch) (subs x)) as Esinks.
  { rewrite <- Es. unfold channel_sinks. by rewrite Est. }
  assert (∀ k, k ∈ channel_sinks (p_world p) ch ↔ subscribed x (rc_id ch) k) as Hin.
  { intros k. rewrite Esinks. by apply (elem_of_get_subscribers_subscribed _ _ _ _ Hi). }
  unfold typed_log_with_meta_to_sink, has_sinks. fold ch. split.
  - intros Hno. destruct (channel_sinks (p_world p) ch) as [|k l];
      [|exfalso; eapply Hno, Hin; by left].
    f_equal. unfold log_warn_if_closed. unfold is_closed in Ecl. rewrite <- Est in Ecl.
    destruct (w_store (p_world p) !! rc_id ch); [|done]. cbn in Ecl. by rewrite Ecl.
  - intros k Hk. unfold typed_log_to_sinks. fold ch. apply Hin in Hk.
    destruct (channel_sinks (p_world p) ch) as [|k0 l] eqn:El; [by apply not_elem_of_nil in Hk|].
    destruct (encode msg _) as [buf| |]; [|done..].
    exists (targets (k0 :: l) id). split; [by rewrite log_to_sinks_emit, El|]. split.
    + apply targets_NoDup. rewrite Esinks. apply get_subscribers_NoDup, (ci_subs _ Hi).
    + intros k'. by rewrite elem_of_targets, Hin.
Qed.

(** ** Witnesses *)

#[local] Instance sample_small : SmallBytes :=
  {| small_bytes := list byte; sb_new := []; sb_reserve _ b := b; sb_bytes b := b |}.
(** A text message; the empty one does not encode. *)
#[local] Instance sample_encode : Encode string :=
  {| encode_error := unit; get_schema := None; get_message_encoding := "text";
     encode s buf := if String.eqb s "" then Err tt else Ok (buf ++ as_bytes s);
     encoded_len s := Some (String.length s) |}.

(** Two contexts with a sink each; two statics for one topic of the first, and
    one of the second. *)
Definition sample_l1 : LazyChannel string := LazyContext_channel string 1%nat "/log" 10%nat.
Definition sample_l2 : LazyChannel string := LazyContext_channel string 1%nat "/log" 11%nat.
Definition sample_l3 : LazyChannel string := LazyContext_channel string 2%nat "/log" 12%nat.
Definition sample_ops : list Op :=
  [OpContext 1%nat (OpAddSink (plain_sink 5 true)); OpContext 2%nat (OpAddSink (plain_sink 6 true))].
Definition sample_process : Process := run_ops sample_ops process_init.
Definition sample_p1 : Process := run_op (OpLazy string sample_l1) sample_process.
Definition sample_c : TypedChannel string :=
  {| tc_inner := {| cr_context := 1%nat; cr_raw := {| rc_descriptor := {| cd_id := 1;
     cd_topic := "/log"; cd_message_encoding := "text"; cd_metadata := ∅; cd_schema := None |} |} |} |}.

Lemma sample_inv : process_inv sample_process ∧ process_inv sample_p1.
Proof.
  destruct (run_ops_runs sample_ops ∅ process_init owned_by_init) as (o & Ho & _); [done|].
  split; [by exists o|].
  destruct (run_op_runs (OpLazy string sample_l1) o _ Ho) as (o' & [Ho' _ _ _ _]); [by split|].
  by exists o'.
Qed.
Lemma sample_l1_built : LazyChannel_get_or_init sample_l1 sample_process = Ok (sample_c, sample_p1).
Proof. reflexivity. Qed.
Lemma sample_registered : registered sample_p1 (tc_inner sample_c).
Proof. eexists. split; reflexivity. Qed.

Lemma contexts_isolated_witness :
  process_inv sample_process ∧ elsewhere 2%nat sample_process (run_op (OpLazy string sample_l3) sample_process).
Proof.
  destruct (contexts_isolated sample_ops (OpLazy string sample_l3)) as (H1 & _ & H2); [done|].
  split; [exact H1|exact H2].
Defined.

Lemma lazy_channel_once_witness :
  LazyChannel_get_or_init sample_l1 (run_ops [OpLazy string sample_l3; OpContext 1%nat OpClear] sample_p1) =
  Ok (sample_c, run_ops [OpLazy string sample_l3; OpContext 1%nat OpClear] sample_p1).
Proof.
  destruct (lazy_channel_once sample_l1 sample_process (proj1 sample_inv)) as (c & p' & E & _ & _ & H);
    [by split|].
  rewrite sample_l1_built in E. injection E as <- <-. by apply H.
Defined.

Lemma lazy_channels_shared_witness :
  ∃ p2, LazyChannel_get_or_init sample_l2 sample_p1 = Ok (sample_c, p2) ∧
    w_trace (p_world p2) = w_trace (p_world sample_p1).
Proof.
  destruct (lazy_channels_shared sample_l1 sample_l2 sample_c sample_process sample_p1) as (p2 & E & _ & Et).
  - exact (proj1 sample_inv).
  - done.
  - exact sample_l1_built.
  - exact sample_registered.
  - reflexivity.
  - reflexivity.
  - reflexivity.
  - reflexivity.
  - exists p2. split; [exact E|exact Et].
Defined.

Lemma typed_log_delivers_witness :
  typed_log_with_meta_to_sink 0 99 sample_c "" PartialMetadata_default None (p_world sample_p1) = Panic ∧
  ∃ ks, typed_log_with_meta_to_sink 0 99 sample_c "a" PartialMetadata_default None (p_world sample_p1) =
    Ok (emit (ks ≫= log_one (cr_raw (tc_inner sample_c)) (as_bytes "a") {| m_log_time := 99 |})
      (p_world sample_p1)).
Proof.
  assert (subscribed (context_of 1%nat sample_p1) 1 (plain_sink 5 true)) as Hsub
    by (split; [reflexivity|left; reflexivity]).
  destruct (typed_log_delivers 0 99 sample_c "" PartialMetadata_default None sample_p1
    (context_of 1%nat sample_p1) (proj2 sample_inv) sample_registered eq_refl) as [_ H1].
  destruct (typed_log_delivers 0 99 sample_c "a" PartialMetadata_default None sample_p1
    (context_of 1%nat sample_p1) (proj2 sample_inv) sample_registered eq_refl) as [_ H2].
  split; [exact (H1 _ Hsub)|]. destruct (H2 _ Hsub) as (ks & E & _). exists ks. exact E.
Defined.
