(* ===== verification/CChannel.v ===== *)
(** * CChannel: contexts and channels in the C API

    `src/c/src/channel.rs` (contexts and channels), `channel_descriptor.rs`,
    `sink_channel_filter.rs` and the borrowed strings of `src/c/src/lib.rs`.

    C holds raw pointers of [Arc]s.  An [Arc<RawChannel>] is named by the id of
    its channel; it is allocated as long as C holds a pointer that it has not
    freed ([a_held] counts them: creating the same channel twice gives the same
    pointer twice), or the channel is in the maps of its context.  Contexts that C
    has created live until C frees them, when [Context::drop] clears them; the
    default context is a static.  What a getter returns points into the channel
    or descriptor; reading through such a pointer, like any use of a pointer
    whose target is gone, is [UndefinedBehaviour].  A panic would abort the
    process. *)

From stdpp Require Import sorting.
From S2P Require Import Prelude Bytes Channel Subscriptions Context Typed CError.
Local Open Scope Z_scope.

(** ** Pointers and strings *)

(** A part of a channel descriptor that a pointer may lead to. *)
Inductive Part :=
| Topic | MessageEncoding | SchemaName | SchemaEncoding | SchemaData
| MetadataKey (key : string) | MetadataValue (key : string).
Inductive Place := ChannelAt (id : ChannelId) | DescriptorAt (k : nat).
(** [Literal] is the [""] of [FoxgloveString::default]. *)
Inductive Ptr := Literal | Into (place : Place) (part : Part).

(** A string that C gets. *)
Record FoxgloveString := { fs_data : Ptr; fs_len : Z }.
Definition FoxgloveString_default : FoxgloveString := {| fs_data := Literal; fs_len := 0 |}.
(** [From<&str>], for the string that is the part. *)
Definition FoxgloveString_from (place : Place) (part : Part) (s : string) : FoxgloveString :=
  {| fs_data := Into place part; fs_len := Z.of_nat (length (as_bytes s)) |}.
Record FoxgloveSchema := {
  fsch_name : FoxgloveString;
  fsch_encoding : FoxgloveString;
  fsch_data : Ptr;
  fsch_data_len : Z
}.

(** A string that C passes: null, or the bytes it points to. *)
Abbreviation CString := (option (list byte)).
Definition as_utf8_str (self : CString) : option string :=
  match self with
  | None | Some [] => Some ""
  | Some l => from_utf8 l
  end.
(** A schema that C passes. *)
Record CSchema := { csch_name : CString; csch_encoding : CString; csch_data : option (list byte) }.
Definition utf8_or (what : string) (s : CString) : result FoxgloveError string :=
  match as_utf8_str s with Some s => Ok s | None => Err (FoxgloveUtf8Error what) end.
Definition FoxgloveSchema_to_native (self : CSchema) : result FoxgloveError Schema :=
  name ← utf8_or "schema name invalid" (csch_name self);
  encoding ← utf8_or "schema encoding invalid" (csch_encoding self);
  Ok {| sch_name := name; sch_encoding := encoding; sch_data := default [] (csch_data self) |}.

(** ** The process *)

Record MetadataIterator := { mi_channel : Place; mi_index : nat }.
Record Api := {
  a_process : Process;
  a_contexts : gset ContextId;               (* created and not freed by C *)
  a_made : gmap ChannelId ChannelRef;        (* the channels C has been given *)
  a_held : gmap ChannelId nat;
  a_descriptors : gmap nat ChannelDescriptor; (* passed to running callbacks *)
  a_iters : gmap nat MetadataIterator;
  a_next : nat                               (* for the names of new objects *)
}.
Definition Api_init : Api := {|
  a_process := process_init; a_contexts := ∅; a_made := ∅; a_held := ∅; a_descriptors := ∅;
  a_iters := ∅; a_next := 1
|}.

Inductive Undefined := UndefinedBehaviour.
Definition M (A : Type) : Type := Api → result Undefined (A * Api).
#[export] Instance M_ret : MRet M := λ A a st, Ok (a, st).
#[export] Instance M_bind : MBind M := λ A B f m st, '(a, st) ← m st; f a st.
Definition undefined {A} : M A := λ _, Err UndefinedBehaviour.
Definition get : M Api := λ st, Ok (st, st).
Definition modify (f : Api → Api) : M unit := λ st, Ok (tt, f st).
Definition or_undefined {A} (o : option A) : M A := match o with Some a => mret a | None => undefined end.

Definition set_process (p : Process) (st : Api) : Api :=
  {| a_process := p; a_contexts := a_contexts st; a_made := a_made st; a_held := a_held st;
     a_descriptors := a_descriptors st; a_iters := a_iters st; a_next := a_next st |}.
Definition set_contexts (cs : gset ContextId) (st : Api) : Api :=
  {| a_process := a_process st; a_contexts := cs; a_made := a_made st; a_held := a_held st;
     a_descriptors := a_descriptors st; a_iters := a_iters st; a_next := a_next st |}.
Definition set_held (made : gmap ChannelId ChannelRef) (held : gmap ChannelId nat) (st : Api) : Api :=
  {| a_process := a_process st; a_contexts := a_contexts st; a_made := made; a_held := held;
     a_descriptors := a_descriptors st; a_iters := a_iters st; a_next := a_next st |}.
Definition set_descriptors (ds : gmap nat ChannelDescriptor) (st : Api) : Api :=
  {| a_process := a_process st; a_contexts := a_contexts st; a_made := a_made st; a_held := a_held st;
     a_descriptors := ds; a_iters := a_iters st; a_next := a_next st |}.
Definition set_iters (its : gmap nat MetadataIterator) (st : Api) : Api :=
  {| a_process := a_process st; a_contexts := a_contexts st; a_made := a_made st; a_held := a_held st;
     a_descriptors := a_descriptors st; a_iters := its; a_next := a_next st |}.
Definition fresh : M nat := λ st,
  Ok (a_next st, {| a_process := a_process st; a_contexts := a_contexts st; a_made := a_made st;
    a_held := a_held st; a_descriptors := a_descriptors st; a_iters := a_iters st;
    a_next := S (a_next st) |}).

(** A call of the library; its errors are values. *)
Definition lift {A} (f : Process → result FoxgloveError (A * Process)) : M (result FoxgloveError A) := λ st,
  match f (a_process st) with
  | Ok (a, p) => Ok (Ok a, set_process p st)
  | Err e => Ok (Err e, st)
  | Panic => Panic
  end.
Definition lift_process (f : Process → Process) : M unit := modify (λ st, set_process (f (a_process st)) st).
(** [?]. *)
Definition try_bind {A B} (m : M (result FoxgloveError A)) (f : A → M (result FoxgloveError B)) :
    M (result FoxgloveError B) :=
  r ← m; match r with Ok a => f a | Err e => mret (Err e) | Panic => λ _, Panic end.
Abbreviation pure r := (mret (M:=M) r).
(** [result_to_c] with a valid [out_ptr]. *)
Definition to_c {A} (r : result FoxgloveError A) : M (CError * option A) :=
  match result_to_c r false with Ok x => mret x | _ => λ _, Panic end.

(** ** Strong references *)

Definition held (id : ChannelId) (st : Api) : nat := default 0%nat (a_held st !! id).
(** The maps of the context the channel was made in have it. *)
Definition in_context (id : ChannelId) (st : Api) : bool :=
  match a_made st !! id with
  | Some c => bool_decide (is_Some (channels (context_of (cr_context c) (a_process st)) !! id))
  | None => false
  end.
Definition channel_live (id : ChannelId) (st : Api) : bool := (0 <? held id st)%nat || in_context id st.

(** The target of a reference to a channel, or a descriptor. *)
Definition channel_at (id : ChannelId) : M ChannelRef := λ st,
  if channel_live id st then or_undefined (a_made st !! id) st else undefined st.
Definition descriptor_at (place : Place) : M ChannelDescriptor :=
  match place with
  | ChannelAt id => c ← channel_at id; mret (rc_descriptor (cr_raw c))
  | DescriptorAt k => st ← get; or_undefined (a_descriptors st !! k)
  end.

(** [Arc::into_raw]. *)
Definition into_raw (c : ChannelRef) : M ChannelId :=
  let id := rc_id (cr_raw c) in
  _ ← modify (λ st, set_held (<[id := c]> (a_made st)) (<[id := S (held id st)]> (a_held st)) st);
  mret id.
(** The drop of an [Arc::from_raw]: of a reference that C does not hold it is
    undefined. *)
Definition drop_from_raw (id : ChannelId) : M unit := λ st,
  match held id st with
  | O => undefined st
  | S n => Ok (tt, set_held (a_made st) (<[id := n]> (a_held st)) st)
  end.
(** [Weak::upgrade]. *)
Definition upgrade (ctx : ContextId) (st : Api) : option ContextInner :=
  if bool_decide (ctx = DEFAULT_CONTEXT ∨ ctx ∈ a_contexts st) then p_contexts (a_process st) !! ctx else None.

(** ** Reading through pointers *)

Definition part_bytes (d : ChannelDescriptor) (part : Part) : option (list byte) :=
  match part with
  | Topic => Some (as_bytes (cd_topic d))
  | MessageEncoding => Some (as_bytes (cd_message_encoding d))
  | SchemaName => as_bytes ∘ sch_name <$> cd_schema d
  | SchemaEncoding => as_bytes ∘ sch_encoding <$> cd_schema d
  | SchemaData => sch_data <$> cd_schema d
  | MetadataKey key => (λ _, as_bytes key) <$> cd_metadata d !! key
  | MetadataValue key => as_bytes <$> cd_metadata d !! key
  end.
(** What C reads, [len] bytes from the pointer. *)
Definition read (p : Ptr) (len : Z) : M (list byte) :=
  if len =? 0 then mret [] else
  match p with
  | Literal => undefined
  | Into place part =>
    d ← descriptor_at place;
    l ← or_undefined (part_bytes d part);
    if (0 <? len) && (len <=? Z.of_nat (length l)) then mret (take (Z.to_nat len) l) else undefined
  end.
Definition read_string (s : FoxgloveString) : M (list byte) := read (fs_data s) (fs_len s).

(** ** Contexts *)

Definition foxglove_context_new : M ContextId :=
  ctx ← fresh;
  _ ← lift_process (LazyContext_deref ctx);
  _ ← modify (λ st, set_contexts ({[ctx]} ∪ a_contexts st) st);
  mret ctx.

(** [Context::drop]. *)
Definition Context_drop (ctx : ContextId) (p : Process) : Process :=
  let '(x, w) := clear (context_of ctx p) (p_world p) in set_context ctx x w p.
(** C's pointer is the only strong reference to the context. *)
Definition foxglove_context_free (context : option ContextId) : M unit :=
  match context with
  | None => mret tt
  | Some ctx =>
    st ← get;
    if bool_decide (ctx ∈ a_contexts st) then
      _ ← lift_process (Context_drop ctx);
      modify (λ st, set_contexts (a_contexts st ∖ {[ctx]}) st)
    else undefined
  end.

(** ** Creating channels *)

(** [builder.context(&context)], if the pointer is not null. *)
Definition builder_context (context : option ContextId) (b : Builder) : M Builder :=
  match context with
  | None => mret b
  | Some ctx => st ← get; if bool_decide (ctx ∈ a_contexts st) then mret (Builder_context ctx b) else undefined
  end.
Fixpoint builder_metadata (items : list (CString * CString)) (b : Builder) : result FoxgloveError Builder :=
  match items with
  | [] => Ok b
  | (key, value) :: items =>
    key ← utf8_or "invalid metadata key" key;
    value ← utf8_or "invalid metadata value" value;
    builder_metadata items (Builder_add_metadata key value b)
  end.

(** `lib.rs`: a collection of items, and where the pointer to it comes from: from
    [Arc::into_raw], or from the memory of the C program.  (No function of the API
    returns one of the former.) *)
Record FoxgloveChannelMetadata := { cm_from_arc : bool; cm_items : list (CString * CString) }.
(** [Arc::from_raw(metadata)], which the standard library only defines for a pointer from
    [Arc::into_raw], and the items. *)
Definition metadata_from_raw (metadata : option FoxgloveChannelMetadata) : M (list (CString * CString)) :=
  match metadata with
  | None => mret []
  | Some metadata => if cm_from_arc metadata then mret (cm_items metadata) else undefined
  end.

Definition do_foxglove_raw_channel_create (topic message_encoding : CString) (schema : option CSchema)
    (context : option ContextId) (metadata : option FoxgloveChannelMetadata) :
    M (result FoxgloveError ChannelId) :=
  try_bind (pure (utf8_or "topic invalid" topic)) (λ topic,
  try_bind (pure (utf8_or "message_encoding invalid" message_encoding)) (λ message_encoding,
  try_bind (pure (match schema with
    | Some schema => Some <$> FoxgloveSchema_to_native schema
    | None => Ok None
    end)) (λ maybe_schema,
  st ← get;
  let '(builder, p) := Builder_new topic (a_process st) in
  _ ← modify (set_process p);
  let builder := Builder_schema maybe_schema (Builder_message_encoding message_encoding builder) in
  builder ← builder_context context builder;
  items ← metadata_from_raw metadata;
  try_bind (pure (builder_metadata items builder)) (λ builder,
  try_bind (lift (Builder_build_raw builder)) (λ raw_channel,
  id ← into_raw raw_channel; mret (Ok id)))))).

Definition foxglove_raw_channel_create (topic message_encoding : CString) (schema : option CSchema)
    (context : option ContextId) (metadata : option FoxgloveChannelMetadata) (channel_null : bool) :
    M (CError * option ChannelId) :=
  if channel_null then mret (CValueError, None)
  else r ← do_foxglove_raw_channel_create topic message_encoding schema context metadata; to_c r.

(** The generated [foxglove_channel_create_*] call this with their message type. *)
Definition do_foxglove_channel_create `{SmallBytes} (T : Type) `{!Encode T} (topic : CString)
    (context : option ContextId) : M (result FoxgloveError ChannelId) :=
  try_bind (pure (utf8_or "topic invalid" topic)) (λ topic_str,
  st ← get;
  let '(builder, p) := Builder_new topic_str (a_process st) in
  _ ← modify (set_process p);
  builder ← builder_context context builder;
  try_bind (lift (Builder_build (T:=T) builder)) (λ channel,
  id ← into_raw (into_inner channel); mret (Ok id))).
Definition foxglove_channel_create `{SmallBytes} (T : Type) `{!Encode T} (topic : CString)
    (context : option ContextId) (channel_null : bool) : M (CError * option ChannelId) :=
  if channel_null then mret (CValueError, None)
  else r ← do_foxglove_channel_create T topic context; to_c r.

(** ** Channels *)

(** [RawChannel::close]. *)
Definition RawChannel_close (c : ChannelRef) : M unit :=
  st ← get;
  if is_closed (p_world (a_process st)) (cr_raw c) then mret tt
  else match upgrade (cr_context c) st with
  | Some x =>
    let '(_, x, w) := remove_channel (rc_id (cr_raw c)) x (p_world (a_process st)) in
    lift_process (set_context (cr_context c) x w)
  | None => mret tt
  end.
Definition foxglove_channel_close (channel : option ChannelId) : M unit :=
  match channel with
  | None => mret tt
  | Some channel => c ← channel_at channel; RawChannel_close c
  end.
Definition foxglove_channel_free (channel : option ChannelId) : M unit :=
  match channel with
  | None => mret tt
  | Some channel => drop_from_raw channel
  end.

Definition foxglove_channel_get_id (channel : option ChannelId) : M Z :=
  match channel with
  | None => mret 0
  | Some channel => c ← channel_at channel; mret (rc_id (cr_raw c))
  end.
Definition foxglove_channel_get_topic (channel : option ChannelId) : M FoxgloveString :=
  match channel with
  | None => mret FoxgloveString_default
  | Some channel =>
    d ← descriptor_at (ChannelAt channel); mret (FoxgloveString_from (ChannelAt channel) Topic (cd_topic d))
  end.
Definition foxglove_channel_get_message_encoding (channel : option ChannelId) : M FoxgloveString :=
  match channel with
  | None => mret FoxgloveString_default
  | Some channel =>
    d ← descriptor_at (ChannelAt channel);
    mret (FoxgloveString_from (ChannelAt channel) MessageEncoding (cd_message_encoding d))
  end.
(** The struct that is filled in. *)
Definition schema_out (place : Place) (s : Schema) : FoxgloveSchema :=
  {| fsch_name := FoxgloveString_from place SchemaName (sch_name s);
     fsch_encoding := FoxgloveString_from place SchemaEncoding (sch_encoding s);
     fsch_data := Into place SchemaData;
     fsch_data_len := Z.of_nat (length (sch_data s)) |}.
Definition foxglove_channel_get_schema (channel : option ChannelId) (schema_null : bool) :
    M (CError * option FoxgloveSchema) :=
  match channel with
  | None => mret (CValueError, None)
  | Some channel =>
    d ← descriptor_at (ChannelAt channel);
    if schema_null then mret (CValueError, None)
    else match cd_schema d with
    | None => mret (CValueError, None)
    | Some s => mret (COk, Some (schema_out (ChannelAt channel) s))
    end
  end.
Definition foxglove_channel_has_sinks (channel : option ChannelId) : M bool :=
  match channel with
  | None => mret false
  | Some channel => c ← channel_at channel; st ← get; mret (has_sinks (p_world (a_process st)) (cr_raw c))
  end.

(** ** Metadata iterators *)

(** The entries of a [BTreeMap] of strings, in the order of the keys. *)
Definition key_le (a b : string * string) : Prop := String.le a.1 b.1.
Definition entries (m : gmap string string) : list (string * string) := merge_sort key_le (map_to_list m).

Definition iterator (i : nat) : M MetadataIterator := st ← get; or_undefined (a_iters st !! i).
Definition put_iterator (i : nat) (it : MetadataIterator) : M unit :=
  modify (λ st, set_iters (<[i := it]> (a_iters st)) st).
(** [next] of both iterators, after the tests for null: the entry, if there is one. *)
Definition next_entry (i : nat) (it : MetadataIterator) : M (option (FoxgloveString * FoxgloveString)) :=
  d ← descriptor_at (mi_channel it);
  let metadata := cd_metadata d in
  if (size metadata <=? mi_index it)%nat then mret None
  else match entries metadata !! mi_index it with
  | None => mret None
  | Some (key, value) =>
    _ ← put_iterator i {| mi_channel := mi_channel it; mi_index := S (mi_index it) |};
    mret (Some (FoxgloveString_from (mi_channel it) (MetadataKey key) key,
                FoxgloveString_from (mi_channel it) (MetadataValue key) value))
  end.
(** [Box::from_raw] and its drop. *)
Definition free_iterator (i : nat) : M unit :=
  _ ← iterator i; modify (λ st, set_iters (delete i (a_iters st)) st).

Definition foxglove_channel_metadata_iter_create (channel : option ChannelId) : M (option nat) :=
  match channel with
  | None => mret None
  | Some channel =>
    _ ← channel_at channel;
    i ← fresh;
    _ ← put_iterator i {| mi_channel := ChannelAt channel; mi_index := 0 |};
    mret (Some i)
  end.
Definition foxglove_channel_metadata_iter_next (iter : option nat) (key_value_null : bool) :
    M (option (FoxgloveString * FoxgloveString)) :=
  match iter with
  | None => mret None
  | Some i =>
    if key_value_null then mret None else
    it ← iterator i;
    match mi_channel it with
    | ChannelAt _ => next_entry i it
    | DescriptorAt _ => undefined
    end
  end.
Definition foxglove_channel_metadata_iter_free (iter : option nat) : M unit :=
  match iter with None => mret tt | Some i => free_iterator i end.

(** ** Logging *)

(** [instant] and [epoch] are the clocks; [data] is null or the bytes. *)
Definition foxglove_channel_log (instant epoch : Z) (channel : option ChannelId) (data : option (list byte))
    (log_time : option Z) (sink_id : Z) : M CError :=
  match channel with
  | None => mret CValueError
  | Some channel =>
    c ← channel_at channel;
    match data with
    | None | Some [] => mret CValueError
    | Some msg =>
      let sink_id := if sink_id =? 0 then None else Some sink_id in
      _ ← lift_process (λ p, set_world (log_with_meta_to_sink instant epoch (cr_raw c) msg
            {| pm_log_time := log_time |} sink_id (p_world p)) p);
      mret COk
    end
  end.

(** ** Channel descriptors *)

Definition foxglove_channel_descriptor_get_topic (channel : option nat) : M FoxgloveString :=
  match channel with
  | None => mret FoxgloveString_default
  | Some k =>
    d ← descriptor_at (DescriptorAt k); mret (FoxgloveString_from (DescriptorAt k) Topic (cd_topic d))
  end.
Definition foxglove_channel_descriptor_get_message_encoding (channel : option nat) : M FoxgloveString :=
  match channel with
  | None => mret FoxgloveString_default
  | Some k =>
    d ← descriptor_at (DescriptorAt k);
    mret (FoxgloveString_from (DescriptorAt k) MessageEncoding (cd_message_encoding d))
  end.
Definition foxglove_channel_descriptor_get_schema (channel : option nat) (schema_null : bool) :
    M (CError * option FoxgloveSchema) :=
  match channel with
  | None => mret (CValueError, None)
  | Some k =>
    d ← descriptor_at (DescriptorAt k);
    if schema_null then mret (CValueError, None)
    else match cd_schema d with
    | None => mret (CValueError, None)
    | Some s => mret (COk, Some (schema_out (DescriptorAt k) s))
    end
  end.
Definition foxglove_channel_descriptor_metadata_iter_create (channel : option nat) : M (option nat) :=
  match channel with
  | None => mret None
  | Some k =>
    _ ← descriptor_at (DescriptorAt k);
    i ← fresh;
    _ ← put_iterator i {| mi_channel := DescriptorAt k; mi_index := 0 |};
    mret (Some i)
  end.
Definition foxglove_channel_descriptor_metadata_iter_next (iter : option nat) (key_value_null : bool) :
    M (option (FoxgloveString * FoxgloveString)) :=
  match iter with
  | None => mret None
  | Some i =>
    if key_value_null then mret None else
    it ← iterator i;
    match mi_channel it with
    | DescriptorAt _ => next_entry i it
    | ChannelAt _ => undefined
    end
  end.
Definition foxglove_channel_descriptor_metadata_iter_free (iter : option nat) : M unit :=
  match iter with None => mret tt | Some i => free_iterator i end.

(** [ChannelFilter::should_subscribe]: the callback gets a copy of the descriptor,
    which lives for the time of the call. *)
Definition should_subscribe (callback : nat → M bool) (channel : ChannelDescriptor) : M bool :=
  k ← fresh;
  _ ← modify (λ st, set_descriptors (<[k := channel]> (a_descriptors st)) st);
  r ← callback k;
  _ ← modify (λ st, set_descriptors (delete k (a_descriptors st)) st);
  mret r.

(** ** Programs *)

(** What a C program does.  [SinkOp] is a sink of the context at work: an MCAP
    writer or a client that comes, goes or subscribes. *)
Inductive Call :=
| ContextNew
| ContextFree (context : option ContextId)
| RawChannelCreate (topic message_encoding : CString) (schema : option CSchema) (context : option ContextId)
    (metadata : option FoxgloveChannelMetadata) (channel_null : bool)
| ChannelCreate `{SmallBytes} (T : Type) `{!Encode T} (topic : CString) (context : option ContextId)
    (channel_null : bool)
| ChannelClose (channel : option ChannelId)
| ChannelFree (channel : option ChannelId)
| GetId (channel : option ChannelId)
| GetTopic (channel : option ChannelId)
| GetMessageEncoding (channel : option ChannelId)
| GetSchema (channel : option ChannelId) (schema_null : bool)
| HasSinks (channel : option ChannelId)
| IterCreate (channel : option ChannelId)
| IterNext (iter : option nat) (key_value_null : bool)
| IterFree (iter : option nat)
| Log (instant epoch : Z) (channel : option ChannelId) (data : option (list byte)) (log_time : option Z)
    (sink_id : Z)
| Read (p : Ptr) (len : Z)
| SinkOp (context : ContextId) (op : CtxOp).

Inductive Answer :=
| AUnit
| AContext (ctx : ContextId)
| AChannel (code : CError) (channel : option ChannelId)
| AId (id : Z)
| AString (s : FoxgloveString)
| ASchema (code : CError) (schema : option FoxgloveSchema)
| ABool (b : bool)
| AIter (iter : option nat)
| AEntry (entry : option (FoxgloveString * FoxgloveString))
| ACode (code : CError)
| ABytes (l : list byte).

(** [Context]'s methods for sinks, of a context that lives. *)
Definition sink_op (ctx : ContextId) (op : CtxOp) : M unit :=
  st ← get;
  match upgrade ctx st with
  | Some x => let '(x, w) := run_ctx_op op (x, p_world (a_process st)) in lift_process (set_context ctx x w)
  | None => mret tt
  end.
Definition answer {A} (f : A → Answer) (m : M A) : M Answer := a ← m; mret (f a).
Definition run_call (c : Call) : M Answer :=
  match c with
  | ContextNew => answer AContext foxglove_context_new
  | ContextFree ctx => answer (λ _, AUnit) (foxglove_context_free ctx)
  | RawChannelCreate topic enc schema ctx md null =>
    answer (λ r, AChannel r.1 r.2) (foxglove_raw_channel_create topic enc schema ctx md null)
  | ChannelCreate T topic ctx null =>
    answer (λ r, AChannel r.1 r.2) (foxglove_channel_create T topic ctx null)
  | ChannelClose ch => answer (λ _, AUnit) (foxglove_channel_close ch)
  | ChannelFree ch => answer (λ _, AUnit) (foxglove_channel_free ch)
  | GetId ch => answer AId (foxglove_channel_get_id ch)
  | GetTopic ch => answer AString (foxglove_channel_get_topic ch)
  | GetMessageEncoding ch => answer AString (foxglove_channel_get_message_encoding ch)
  | GetSchema ch null => answer (λ r, ASchema r.1 r.2) (foxglove_channel_get_schema ch null)
  | HasSinks ch => answer ABool (foxglove_channel_has_sinks ch)
  | IterCreate ch => answer AIter (foxglove_channel_metadata_iter_create ch)
  | IterNext it null => answer AEntry (foxglove_channel_metadata_iter_next it null)
  | IterFree it => answer (λ _, AUnit) (foxglove_channel_metadata_iter_free it)
  | Log instant epoch ch data time sink => answer ACode (foxglove_channel_log instant epoch ch data time sink)
  | Read p len => answer ABytes (read p len)
  | SinkOp ctx op => answer (λ _, AUnit) (sink_op ctx op)
  end.
Fixpoint run_calls (cs : list Call) : M (list Answer) :=
  match cs with
  | [] => mret []
  | c :: cs => a ← run_call c; l ← run_calls cs; mret (a :: l)
  end.

(** The ownership rules of the documentation: a pointer is null, or one that C has
    been given and has not freed; a string is read while C holds its channel. *)
Definition holds (ch : option ChannelId) (st : Api) : Prop :=
  match ch with Some id => (0 < held id st)%nat | None => True end.
Definition holds_context (ctx : option ContextId) (st : Api) : Prop :=
  match ctx with Some ctx => ctx ∈ a_contexts st | None => True end.
(** An iterator whose channel C holds. *)
Definition holds_iter (it : option nat) (st : Api) : Prop :=
  match it with
  | Some i => ∃ id n, a_iters st !! i = Some {| mi_channel := ChannelAt id; mi_index := n |} ∧ (0 < held id st)%nat
  | None => True
  end.
Definition allowed (c : Call) (st : Api) : Prop :=
  match c with
  | ContextNew => True
  | ContextFree ctx => holds_context ctx st
  | RawChannelCreate _ _ _ ctx _ _ | ChannelCreate _ _ ctx _ => holds_context ctx st
  | ChannelClose ch | ChannelFree ch | GetId ch | GetTopic ch | GetMessageEncoding ch | GetSchema ch _
  | HasSinks ch | IterCreate ch | Log _ _ ch _ _ _ => holds ch st
  | IterNext it null => if null then True else holds_iter it st
  | IterFree it => match it with Some i => is_Some (a_iters st !! i) | None => True end
  | Read p len => len = 0 ∨ ∃ id c part l, p = Into (ChannelAt id) part ∧ (0 < held id st)%nat ∧
      a_made st !! id = Some c ∧ part_bytes (rc_descriptor (cr_raw c)) part = Some l ∧
      0 ≤ len ≤ Z.of_nat (length l)
  | SinkOp _ op => match op with
      | OpAddSink _ | OpRemoveSink _ | OpSubscribe _ _ | OpUnsubscribe _ _ => True
      | _ => False
      end
  end.
Fixpoint disciplined (cs : list Call) (st : Api) : Prop :=
  match cs with
  | [] => True
  | c :: cs => allowed c st ∧ ∀ a st', run_call c st = Ok (a, st') → disciplined cs st'
  end.
