(* ===== verification/CChannelProofs.v ===== *)
(** * CChannelProofs: C programs that own what they use

    For CChannel.v: a C program that follows the ownership rules ([disciplined])
    has no undefined behaviour and no panic, up to the first call that creates a
    channel with metadata of its own making ([casts_metadata]), which is undefined;
    when an allocation of a channel lives and that nothing leaks; that what the getters return stays
    readable; what creating a channel does on every branch; and that an iterator
    lists the metadata. *)

From stdpp Require Import sorting.
From S2P Require Import Prelude Bytes Channel Subscriptions Context Typed CError CChannel.
Local Open Scope Z_scope.

(** ** Closed channels *)

Definition shut (w : World) (id : ChannelId) : Prop := cs_closed <$> w_store w !! id = Some true.

Lemma shut_alter w f c id : (∀ st, cs_closed st = true → cs_closed (f st) = true) →
  shut w id → shut (alter_channel f c w) id.
Proof.
  unfold shut. cbn. intros Hf. destruct (decide (id = rc_id c)) as [->|?]; [|by rewrite lookup_alter_ne].
  rewrite lookup_alter_eq. destruct (w_store w !! rc_id c) as [st|]; [|done]. cbn. intros [= E].
  by rewrite Hf.
Qed.
Lemma shut_remove w c id : shut w id → shut (remove_from_context c w) id.
Proof. intros H. unfold remove_from_context. by apply shut_alter, shut_alter. Qed.
Lemma shut_removed w c : is_Some (w_store w !! rc_id c) → shut (remove_from_context c w) (rc_id c).
Proof.
  intros [st Hst]. unfold remove_from_context, shut. cbn. by rewrite !lookup_alter_eq, Hst.
Qed.
Lemma shut_notify x c w id : shut (notify_removed x c w) id ↔ shut w id.
Proof. unfold shut. by rewrite (proj1 (notify_removed_store x c w)). Qed.
Lemma shut_update s cs w id : shut w id → shut (update_channel_sinks s cs w) id.
Proof.
  unfold shut. rewrite update_channel_sinks_store. case_decide; [|done].
  by destruct (w_store w !! id).
Qed.
Lemma is_closed_shut w c : is_closed w c = true ↔ shut w (rc_id c).
Proof.
  unfold is_closed, shut. destruct (cs_closed <$> w_store w !! rc_id c); cbn; naive_solver.
Qed.
Lemma clear_shut x cs w id : shut w id →
  shut (foldl (λ w c, notify_removed x c (remove_from_context c w)) w cs) id.
Proof.
  revert w. induction cs as [|c cs IH]; intros w H; [done|]. cbn [foldl].
  by apply IH, shut_notify, shut_remove.
Qed.

(** ** What an operation does to the channels of its context *)

(** Closed channels stay closed; a registered channel stays or is closed; only [new]
    may become registered. *)
Record lifecycle (new : option RawChannel) (x x' : ContextInner) (w w' : World) : Prop := {
  lc_shut id : shut w id → shut w' id;
  lc_keep id c : channels x !! id = Some c → channels x' !! id = Some c ∨ shut w' id;
  lc_new id c : channels x' !! id = Some c → channels x !! id = Some c ∨ new = Some c
}.
Lemma clear_closes x cs w c : c ∈ cs → is_Some (w_store w !! rc_id c) →
  shut (foldl (λ w c, notify_removed x c (remove_from_context c w)) w cs) (rc_id c).
Proof.
  revert w. induction cs as [|d cs IH]; intros w Hc Hst; [by apply elem_of_nil in Hc|]. cbn [foldl].
  apply elem_of_cons in Hc as [->|Hc]; [by apply clear_shut, shut_notify, shut_removed|].
  apply IH; [done|]. rewrite (proj1 (notify_removed_store _ _ _)). cbn.
  destruct (decide (rc_id d = rc_id c)) as [->|?]; [|by rewrite !lookup_alter_ne].
  by rewrite !lookup_alter_eq, !fmap_is_Some.
Qed.
Lemma lifecycle_same x x' w w' : channels x' = channels x → (∀ id, shut w id → shut w' id) →
  lifecycle None x x' w w'.
Proof. intros E H. split; [done| |]; rewrite E; auto. Qed.

Section lifecycle.
Context (P : ChannelId → bool) (x : ContextInner) (w : World).
Hypothesis Hi : ctx_inv (x, share P w).

Lemma remove_channel_lifecycle id :
  let '(_, x', w') := remove_channel id x w in lifecycle None x x' w w'.
Proof.
  unfold remove_channel. destruct (channels x !! id) as [c|] eqn:Hc; [|by apply lifecycle_same].
  destruct (inv_share _ _ _ _ _ Hi Hc) as (<- & _ & Hst). split; cbn [channels].
  - intros i Hs. by apply shut_notify, shut_remove.
  - intros i d Hd. destruct (decide (i = rc_id c)) as [->|?]; [|left; by rewrite lookup_delete_ne].
    right. by apply shut_notify, shut_removed.
  - intros i d [_ Hd]%lookup_delete_Some. by left.
Qed.
Lemma clear_lifecycle : lifecycle None x (clear x w).1 w (clear x w).2.
Proof.
  unfold clear. split; cbn [fst snd channels]; [intros id; apply clear_shut| |by intros id c; rewrite lookup_empty].
  intros id c Hc. right. destruct (inv_share _ _ _ _ _ Hi Hc) as (<- & _ & Hst).
  apply clear_closes; [|done]. eapply elem_of_values_chans; [apply (ci_topics _ Hi)|done].
Qed.
Lemma build_lifecycle b : (∀ id, is_Some (w_store w !! id) → id < w_next_id w) →
  match build_raw b x w with
  | Ok (c, x', w') => lifecycle (Some c) x x' w w'
  | _ => True
  end.
Proof.
  intros Hnext. rewrite build_raw_ok. destruct (cb_message_encoding b) as [e|]; [|done].
  unfold RawChannel_new. set (c := {| rc_descriptor := _ |}). set (w1 := {| w_next_id := _ |}).
  assert (∀ id, shut w id → id ≠ rc_id c) as Hne.
  { intros id Hs ->. unfold shut in Hs. destruct (w_store w !! rc_id c) eqn:E; [|done].
    specialize (Hnext (rc_id c)). rewrite E in Hnext. cbn in Hnext. specialize (Hnext ltac:(by eexists)). lia. }
  assert (∀ id d, channels x !! id = Some d → id ≠ rc_id c) as Hreg.
  { intros id d Hd ->. destruct (inv_share _ _ _ _ _ Hi Hd) as (_ & _ & Hst). apply Hnext in Hst. cbn in Hst. lia. }
  pose proof (λ id H, add_channel_frame c x w1 id (not_eq_sym H)) as Hf.
  assert (∀ id, shut w id → shut (add_channel c x w1).2 id) as Hs.
  { intros id Hs. pose proof (Hne _ Hs) as H. unfold shut. rewrite (Hf _ H). unfold w1. cbn [w_store].
    by rewrite lookup_insert_ne by (by apply not_eq_sym). }
  revert Hs. unfold add_channel. destruct (find _ _) as [d|]; [intros Hs; split; [done|by left|by left]|].
  destruct (foldl _ _ _) as [s w']. intros Hs. split; cbn [channels]; [done| |].
  - intros id d Hd. left. rewrite lookup_insert_ne; [done|]. by apply not_eq_sym, (Hreg _ d).
  - intros id d [[<- <-]|[_ Hd]]%lookup_insert_Some; [by right|by left].
Qed.
Lemma run_ctx_op_lifecycle op : builds op = false →
  lifecycle None x (run_ctx_op op (x, w)).1 w (run_ctx_op op (x, w)).2.
Proof.
  intros Hb. destruct op as [b|c|k|i|i ids|i ids|]; cbn [run_ctx_op builds].
  - cbn [builds] in Hb. apply bool_decide_eq_false in Hb. rewrite build_raw_ok.
    destruct (cb_message_encoding b) as [e|]; [|by apply lifecycle_same]. by destruct Hb.
  - unfold close. destruct (is_closed w c); [by apply lifecycle_same|].
    pose proof (remove_channel_lifecycle (rc_id c)) as H. by destruct (remove_channel _ _ _) as [[? ?] ?].
  - unfold add_sink. destruct (sinks x !! sink_id k); [by apply lifecycle_same|].
    unfold update_channel_sinks_by_ids. cbn [channels sinks subs channels_by_topic].
    destruct (values (channels x)) as [|d l], (sink_auto_subscribe k);
      cbn [Sink_add_channels channels subs].
    all: try (destruct (subscribe_global _ _) as [[] s]; apply lifecycle_same; try done;
      intros ? ?; by apply shut_update).
    { by apply lifecycle_same. }
    destruct (sink_add_channels k (d :: l)) as [ids|]; [|by apply lifecycle_same].
    destruct (filter _ ids); [by apply lifecycle_same|].
    destruct (Subscriptions.subscribe_channels _ _ _) as [[] s]; apply lifecycle_same; try done.
    intros ? ?. by apply shut_update.
  - unfold remove_sink. destruct (remove_subscriber i (subs x)) as [[] s]; apply lifecycle_same; try done.
    intros ? ?. by apply shut_update.
  - unfold subscribe_channels, update_channel_sinks_by_ids.
    destruct (sinks x !! i) as [k|]; [|by apply lifecycle_same].
    destruct (Subscriptions.subscribe_channels _ _ _) as [[] s]; apply lifecycle_same; try done.
    intros ? ?. by apply shut_update.
  - unfold unsubscribe_channels, update_channel_sinks_by_ids.
    destruct (Subscriptions.unsubscribe_channels _ _ _) as [[] s]; apply lifecycle_same; try done.
    intros ? ?. by apply shut_update.
  - apply clear_lifecycle.
Qed.
End lifecycle.

(** ** What a step does to the channels of the process *)

Definition next_id (p : Process) : Z := w_next_id (p_world p).
Record advances (n : Z) (new : option ChannelRef) (p p' : Process) : Prop := {
  ad_inv : process_inv p';
  ad_next : next_id p ≤ next_id p' ≤ next_id p + n;
  ad_contexts ctx : is_Some (p_contexts p !! ctx) → is_Some (p_contexts p' !! ctx);
  ad_shut id : shut (p_world p) id → shut (p_world p') id;
  ad_keep c : registered p c → registered p' c ∨ shut (p_world p') (rc_id (cr_raw c));
  ad_new c : registered p' c → registered p c ∨ new = Some c
}.
Lemma advances_refl p : process_inv p → advances 0 None p p.
Proof. intros H. split; [done|lia|auto..]. Qed.
Lemma advances_weaken n m new p p' : n ≤ m → advances n new p p' → advances m new p p'.
Proof. intros H []. split; [done|lia|done..]. Qed.
Lemma advances_trans n m new p1 p2 p3 :
  advances n None p1 p2 → advances m new p2 p3 → advances (n + m) new p1 p3.
Proof.
  intros [I1 N1 C1 S1 K1 W1] [I2 N2 C2 S2 K2 W2]. split; [done|lia|auto|auto| |].
  - intros c Hc. destruct (K1 c Hc) as [H|H]; [by apply K2|right; by apply S2].
  - intros c Hc. destruct (W2 c Hc) as [H|H]; [|by right]. destruct (W1 c H) as [H'|H']; [by left|done].
Qed.

Lemma owned_store owner p id : owned_by owner p → is_Some (w_store (p_world p) !! id) →
  id < w_next_id (p_world p).
Proof. intros Ho Hid. destruct (ob_store _ _ Ho _ Hid) as [o E]. apply (ob_owner _ _ Ho _ _ E). Qed.

Lemma registered_deref ctx p c : registered (LazyContext_deref ctx p) c ↔ registered p c.
Proof.
  unfold registered, LazyContext_deref. destruct (p_contexts p !! ctx) as [y|] eqn:E; [done|]. cbn.
  split; intros (x & Hx & Hc).
  - apply lookup_insert_Some in Hx as [[<- <-]|[_ Hx]]; [|by exists x]. cbn in Hc. by rewrite lookup_empty in Hc.
  - exists x. rewrite lookup_insert_ne; [done|congruence].
Qed.
Lemma deref_advances ctx p : process_inv p → advances 0 None p (LazyContext_deref ctx p).
Proof.
  intros [owner Ho]. destruct (LazyContext_deref_world ctx p) as [Ew _]. split; unfold next_id; rewrite ?Ew.
  - exists owner. by apply owned_by_deref.
  - lia.
  - intros c [x Hx]. exists x. by apply LazyContext_deref_old.
  - done.
  - intros c Hc. left. by apply registered_deref.
  - intros c Hc%registered_deref. by left.
Qed.

(** A step of the context [ctx]. *)
Lemma context_advances n new ctx x x' w' p : process_inv p → p_contexts p !! ctx = Some x →
  process_inv (set_context ctx x' w' p) → next_id p ≤ w_next_id w' ≤ next_id p + n →
  lifecycle new x x' (p_world p) w' →
  advances n ((λ c, {| cr_raw := c; cr_context := ctx |}) <$> new) p (set_context ctx x' w' p).
Proof.
  intros Hp Hx Hp' Hn [Hs Hk Hnew]. split; [done|done| |done| |].
  - intros c Hc. cbn. destruct (decide (c = ctx)) as [->|?]; [rewrite lookup_insert_eq; by eexists|].
    by rewrite lookup_insert_ne.
  - intros [c o] (y & Hy & Hc). cbn in *. destruct (decide (o = ctx)) as [->|?].
    + assert (y = x) as -> by congruence. destruct (Hk _ _ Hc) as [H|H]; [left|by right].
      exists x'. cbn. by rewrite lookup_insert_eq.
    + left. exists y. cbn. by rewrite lookup_insert_ne.
  - intros [c o] (y & Hy & Hc). cbn in *. apply lookup_insert_Some in Hy as [[-> ->]|[? Hy]].
    + destruct (Hnew _ _ Hc) as [H| ->]; [left; by exists x|by right].
    + left. by exists y.
Qed.
Lemma op_advances op ctx x p : process_inv p → ids_left (p_world p) → p_contexts p !! ctx = Some x →
  builds op = false →
  advances 0 None p (set_context ctx (run_ctx_op op (x, p_world p)).1 (run_ctx_op op (x, p_world p)).2 p).
Proof.
  intros [owner Ho] Hleft Hx Hb. pose proof (step_owned owner p ctx x op Ho Hx Hleft) as Hs.
  pose proof (run_ctx_op_lifecycle _ _ _ (ob_contexts _ _ Ho _ _ Hx) op Hb) as Hl.
  destruct (run_ctx_op op (x, p_world p)) as [x' w']. cbn [fst snd] in *. destruct Hs as (Ho' & Hn & _).
  rewrite Hb in Ho', Hn. apply (context_advances 0 None _ x); [by exists owner|done|by eexists| |done].
  unfold next_id. lia.
Qed.
Lemma close_advances c ctx x p : process_inv p → ids_left (p_world p) → p_contexts p !! ctx = Some x →
  let '(_, x', w') := remove_channel (rc_id c) x (p_world p) in
  is_closed (p_world p) c = false → advances 0 None p (set_context ctx x' w' p).
Proof.
  intros Hp Hleft Hx. pose proof (op_advances (OpClose c) ctx x p Hp Hleft Hx eq_refl) as H.
  cbn [run_ctx_op] in H. unfold close in H. destruct (remove_channel _ _ _) as [[b x'] w'].
  intros E. by rewrite E in H.
Qed.
Lemma log_advances p w : process_inv p → only_logs (p_world p) w → advances 0 None p (set_world w p).
Proof.
  intros [owner Ho] Hl. destruct (only_logs_steps owner DEFAULT_CONTEXT p w Ho Hl) as [Ho' _ _ _ Hn].
  destruct Hl as (_ & Hv & _). split; [by exists owner|unfold next_id; lia|done| | |].
  - intros id. unfold shut. specialize (Hv id). unfold view in Hv. cbn.
    destruct (w_store (p_world p) !! id), (w_store w !! id); try done. cbn in *. congruence.
  - by left.
  - by left.
Qed.
Lemma build_advances b p : process_inv p → ids_left (p_world p) →
  is_Some (p_contexts p !! b_context b) → is_Some (cb_message_encoding (b_options b)) →
  ∃ c p', Builder_build_raw b p = Ok (c, p') ∧ advances 1 (Some c) p p' ∧ cr_context c = b_context b ∧
    describes (b_options b) (cr_raw c) ∧ registered p' c.
Proof.
  intros [owner Ho] Hleft [x Hx] Henc.
  destruct (Builder_build_raw_steps owner b p Ho ltac:(by eexists) Hleft Henc)
    as (c & p' & owner' & E & [Ho' _ _ _ Hn] & Hctx & Hd & Hr).
  exists c, p'. split; [done|]. split; [|done]. revert E. unfold Builder_build_raw, context_of.
  rewrite Hx. change (default _ (Some x)) with x.
  pose proof (build_lifecycle _ _ _ (ob_contexts _ _ Ho _ _ Hx) (b_options b) (λ i, owned_store owner p i Ho)) as Hl.
  destruct (build_raw _ _ _) as [[[c' x'] w']| |]; cbn; [|done..]. intros [= <- <-].
  apply (context_advances 1 (Some c') _ x); [by exists owner|done|by exists owner'| |done].
  unfold next_id. cbn in Hn. lia.
Qed.

(** ** The invariant of a C program *)

Record api_inv (st : Api) : Prop := {
  ai_process : process_inv (a_process st);
  ai_made id c : a_made st !! id = Some c → rc_id (cr_raw c) = id ∧
    (registered (a_process st) c ∨ shut (p_world (a_process st)) id);
  ai_registered c : registered (a_process st) c → a_made st !! rc_id (cr_raw c) = Some c;
  ai_alive c : registered (a_process st) c → cr_context c = DEFAULT_CONTEXT ∨ cr_context c ∈ a_contexts st;
  ai_held id : (0 < held id st)%nat → is_Some (a_made st !! id);
  ai_contexts ctx : ctx ∈ a_contexts st → is_Some (p_contexts (a_process st) !! ctx);
  ai_iters i : is_Some (a_iters st !! i) → (i < a_next st)%nat
}.
Record follows (n : Z) (st st' : Api) : Prop := {
  fo_inv : api_inv st';
  fo_made : a_made st ⊆ a_made st';
  fo_next : next_id (a_process st) ≤ next_id (a_process st') ≤ next_id (a_process st) + n
}.
Lemma follows_refl st : api_inv st → follows 0 st st.
Proof. intros H. split; [done..|lia]. Qed.
Lemma follows_weaken n m st st' : n ≤ m → follows n st st' → follows m st st'.
Proof. intros H []. split; [done..|lia]. Qed.
Lemma follows_trans n m st1 st2 st3 : follows n st1 st2 → follows m st2 st3 → follows (n + m) st1 st3.
Proof. intros [] []. split; [done|by etransitivity|lia]. Qed.

Lemma Api_init_inv : api_inv Api_init.
Proof.
  split; cbn.
  - exists ∅. apply owned_by_init.
  - intros id c. by rewrite lookup_empty.
  - intros c (x & Hx & _). cbn in Hx. by rewrite lookup_empty in Hx.
  - intros c (x & Hx & _). cbn in Hx. by rewrite lookup_empty in Hx.
  - intros id. unfold held. cbn. rewrite lookup_empty. cbn. lia.
  - intros ctx H. by apply elem_of_empty in H.
  - intros i [it H]. by rewrite lookup_empty in H.
Qed.

(** A registered channel is open. *)
Lemma registered_open p c : process_inv p → registered p c → ¬ shut (p_world p) (rc_id (cr_raw c)).
Proof.
  intros [owner Ho] (x & Hx & Hc) Hs.
  destruct (ci_sinks _ (ob_contexts _ _ Ho _ _ Hx) _ _ Hc) as (s & Hst & Hop & _).
  cbn [snd] in Hst. rewrite share_lookup in Hst. destruct (owned _ _ _); [|done].
  unfold shut in Hs. rewrite Hst in Hs. cbn in Hs. congruence.
Qed.
Lemma registered_unique p c d : process_inv p → registered p c → registered p d →
  rc_id (cr_raw c) = rc_id (cr_raw d) → c = d.
Proof.
  intros [owner Ho] (x & Hx & Hc) (y & Hy & Hd) E.
  destruct (owned_channel _ _ _ _ _ _ Ho Hx Hc) as [O1 _], (owned_channel _ _ _ _ _ _ Ho Hy Hd) as [O2 _].
  rewrite E, O2 in O1. injection O1 as O1. rewrite O1 in Hy. rewrite Hy in Hx. injection Hx as ->.
  rewrite E, Hd in Hc. destruct c, d. cbn in *. by simplify_eq.
Qed.
Lemma in_context_spec id st : api_inv st →
  in_context id st = true ↔ ∃ c, a_made st !! id = Some c ∧ registered (a_process st) c.
Proof.
  intros Hi. unfold in_context. split.
  - destruct (a_made st !! id) as [c|] eqn:Ec; [|done]. intros [d Hd]%bool_decide_eq_true.
    unfold context_of in Hd. destruct (p_contexts (a_process st) !! cr_context c) as [x|] eqn:Ex;
      cbn in Hd; [|by rewrite lookup_empty in Hd].
    destruct (ai_process _ Hi) as [owner Ho]. destruct (owned_channel _ _ _ _ _ _ Ho Ex Hd) as [_ Hid].
    assert (registered (a_process st) {| cr_raw := d; cr_context := cr_context c |}) as Hr
      by (exists x; cbn; by rewrite Hid).
    pose proof (ai_registered _ Hi _ Hr) as Hm. cbn in Hm. rewrite Hid, Ec in Hm.
    exists c. split; [done|]. by injection Hm as ->.
  - intros (c & Hm & x & Hx & Hc). destruct (ai_made _ Hi id c Hm) as [<- _]. rewrite Hm.
    apply bool_decide_eq_true. unfold context_of. rewrite Hx. by eexists.
Qed.

Lemma set_process_follows n p st : api_inv st → advances n None (a_process st) p →
  follows n st (set_process p st).
Proof.
  intros Hi [Ap An Ac As Ak Aw]. split; [|done|exact An]. destruct Hi as [Ip Im Ir Ia Ih Ix Ii].
  split; cbn; [done| | | |done|auto|done].
  - intros id c Hc. destruct (Im _ _ Hc) as [<- [Hr|Hs]]; (split; [done|]); [by apply Ak|right; by apply As].
  - intros c Hc. destruct (Aw _ Hc); [by apply Ir|done].
  - intros c Hc. destruct (Aw _ Hc); [by apply Ia|done].
Qed.

(** ** Running *)

Definition returns {A} (m : M A) (st : Api) (Q : A → Api → Prop) : Prop :=
  ∃ a st', m st = Ok (a, st') ∧ Q a st'.
Lemma returns_bind_ok {A B} (m : M A) (f : A → M B) st a st' : m st = Ok (a, st') → (m ≫= f) st = f a st'.
Proof. intros E. unfold mbind, M_bind. by rewrite E. Qed.
Lemma returns_ret {A} (a : A) st (Q : A → Api → Prop) : Q a st → returns (mret a) st Q.
Proof. intros H. by exists a, st. Qed.
Lemma returns_bind {A B} (m : M A) (f : A → M B) st (Q : B → Api → Prop) :
  returns m st (λ a st', returns (f a) st' Q) → returns (m ≫= f) st Q.
Proof.
  intros (a & st' & E & b & st'' & E' & HQ). exists b, st''. split; [|done].
  unfold mbind, M_bind. by rewrite E.
Qed.
Lemma returns_mono {A} (m : M A) st (Q Q' : A → Api → Prop) :
  returns m st Q → (∀ a st', Q a st' → Q' a st') → returns m st Q'.
Proof. intros (a & st' & ? & ?) E. exists a, st'. auto. Qed.
Lemma returns_modify f st (Q : unit → Api → Prop) : Q tt (f st) → returns (modify f) st Q.
Proof. intros H. by exists tt, (f st). Qed.
Lemma returns_get st (Q : Api → Api → Prop) : Q st st → returns get st Q.
Proof. intros H. by exists st, st. Qed.
Lemma returns_answer {A} f (m : M A) st (Q : Answer → Api → Prop) :
  returns m st (λ a, Q (f a)) → returns (answer f m) st Q.
Proof. intros H. apply returns_bind. eapply returns_mono; [done|]. intros a st' HQ. by apply (returns_ret (f a)). Qed.

(** The target of a pointer that C holds. *)
Lemma held_live id st : api_inv st → (0 < held id st)%nat →
  ∃ c, a_made st !! id = Some c ∧ channel_at id st = Ok (c, st) ∧ rc_id (cr_raw c) = id.
Proof.
  intros Hi Hh. destruct (ai_held _ Hi _ Hh) as [c Hc]. exists c. split; [done|].
  destruct (ai_made _ Hi _ _ Hc) as [Hid _]. split; [|done].
  unfold channel_at, channel_live. apply Nat.ltb_lt in Hh. rewrite Hh. cbn. by rewrite Hc.
Qed.
Lemma returns_channel_at id st (Q : ChannelRef → Api → Prop) : api_inv st → (0 < held id st)%nat →
  (∀ c, a_made st !! id = Some c → rc_id (cr_raw c) = id → Q c st) → returns (channel_at id) st Q.
Proof. intros Hi Hh H. destruct (held_live _ _ Hi Hh) as (c & Hc & E & Hid). exists c, st. auto. Qed.
Lemma returns_descriptor_at id st (Q : ChannelDescriptor → Api → Prop) : api_inv st → (0 < held id st)%nat →
  (∀ c, a_made st !! id = Some c → rc_id (cr_raw c) = id → Q (rc_descriptor (cr_raw c)) st) →
  returns (descriptor_at (ChannelAt id)) st Q.
Proof.
  intros Hi Hh H. apply returns_bind. apply returns_channel_at; [done..|]. intros c Hc Hid.
  apply returns_ret. auto.
Qed.

(** ** Creating channels *)

(** What the arguments of a creation ask for; an argument that is not UTF-8 is an
    error, in the order of the parameters. *)
Fixpoint metadata_map (items : list (CString * CString)) (m : gmap string string) :
    result FoxgloveError (gmap string string) :=
  match items with
  | [] => Ok m
  | (key, value) :: items =>
    key ← utf8_or "invalid metadata key" key;
    value ← utf8_or "invalid metadata value" value;
    metadata_map items (<[key := value]> m)
  end.
Definition create_options (topic message_encoding : CString) (schema : option CSchema)
    (metadata : option FoxgloveChannelMetadata) : result FoxgloveError ChannelBuilder :=
  topic ← utf8_or "topic invalid" topic;
  message_encoding ← utf8_or "message_encoding invalid" message_encoding;
  schema ← match schema with Some schema => Some <$> FoxgloveSchema_to_native schema | None => Ok None end;
  metadata ← metadata_map (default [] (cm_items <$> metadata)) ∅;
  Ok {| cb_topic := topic; cb_message_encoding := Some message_encoding; cb_schema := schema;
        cb_metadata := metadata |}.

(** The call uses a struct of the C program as the target of an [Arc]. *)
Definition casts (topic message_encoding : CString) (schema : option CSchema)
    (metadata : option FoxgloveChannelMetadata) : bool :=
  match metadata with
  | Some m => negb (cm_from_arc m) &&
      match create_options topic message_encoding schema None with Ok _ => true | _ => false end
  | None => false
  end.

Lemma builder_metadata_spec items b :
  builder_metadata items b =
  m ← metadata_map items (cb_metadata (b_options b)); Ok (Builder_metadata m b).
Proof.
  revert b. induction items as [|[k v] items IH]; intros b; cbn; [by destruct b as [[]]|].
  destruct (utf8_or _ k) as [k'| |]; cbn; [|done..]. destruct (utf8_or _ v) as [v'| |]; cbn; [|done..].
  by rewrite IH.
Qed.

(** A new or found channel [c], with the options [b], in the context [ctx]. *)
Definition created (b : ChannelBuilder) (ctx : ContextId) (o : option ChannelId) (st st' : Api) : Prop :=
  ∃ c, o = Some (rc_id (cr_raw c)) ∧ cr_context c = ctx ∧ describes b (cr_raw c) ∧
    registered (a_process st') c ∧ a_made st' = <[rc_id (cr_raw c) := c]> (a_made st) ∧
    a_held st' = <[rc_id (cr_raw c) := S (held (rc_id (cr_raw c)) st)]> (a_held st) ∧
    (∀ c', registered (a_process st) c' → cr_context c' = ctx → describes b (cr_raw c') → c = c').

Lemma into_raw_follows n c p st : api_inv st → advances n (Some c) (a_process st) p → registered p c →
  cr_context c = DEFAULT_CONTEXT ∨ cr_context c ∈ a_contexts st →
  returns (into_raw c) (set_process p st) (λ id st', id = rc_id (cr_raw c) ∧ follows n st st' ∧
    a_process st' = p ∧ a_made st' = <[id := c]> (a_made st) ∧ a_held st' = <[id := S (held id st)]> (a_held st)).
Proof.
  intros Hi [Ap An Ac As Ak Aw] Hr Hctx. apply returns_bind, returns_modify, returns_ret.
  split; [done|]. split; [|done]. destruct Hi as [Ip Im Ir Ia Ih Ix Ii]. split; cbn; [|  |exact An].
  - split; cbn; [done| | | | |auto|done].
    + intros id d [[<- <-]|[_ Hd]]%lookup_insert_Some; [by auto|].
      destruct (Im _ _ Hd) as [<- [Hd'|Hd']]; (split; [done|]); [by apply Ak|right; by apply As].
    + intros d Hd. destruct (Aw _ Hd) as [H|[= ->]]; [|by rewrite lookup_insert_eq].
      destruct (decide (rc_id (cr_raw d) = rc_id (cr_raw c))) as [E|?].
      * rewrite E, lookup_insert_eq. f_equal. by eapply registered_unique.
      * rewrite lookup_insert_ne by done. by apply Ir.
    + intros d Hd. destruct (Aw _ Hd) as [H|[= ->]]; auto.
    + intros id. unfold held. cbn. destruct (decide (id = rc_id (cr_raw c))) as [->|?];
        [rewrite !lookup_insert_eq; by eexists|]. rewrite !lookup_insert_ne by done. apply Ih.
  - destruct (a_made st !! rc_id (cr_raw c)) as [d|] eqn:Ed; [|by apply insert_subseteq].
    replace (<[rc_id (cr_raw c) := c]> (a_made st)) with (a_made st); [done|].
    symmetry. apply insert_id. rewrite Ed. f_equal.
    destruct (Im _ _ Ed) as [Eid [Hd|Hd]]; [|by destruct (registered_open _ _ Ap Hr); apply As].
    destruct (Ak _ Hd) as [Hd'|Hd']; [by eapply registered_unique|].
    rewrite Eid in Hd'. by destruct (registered_open _ _ Ap Hr).
Qed.

Lemma returns_try_ok {A B} (a : A) (f : A → M (result FoxgloveError B)) st (Q : result FoxgloveError B → Api → Prop) :
  returns (f a) st Q → returns (try_bind (pure (Ok a)) f) st Q.
Proof. done. Qed.
Lemma returns_try_err {A B} e (f : A → M (result FoxgloveError B)) st (Q : result FoxgloveError B → Api → Prop) :
  Q (Err e) st → returns (try_bind (pure (Err e)) f) st Q.
Proof. intros H. by exists (Err e), st. Qed.
Lemma returns_to_c {A} (r : result FoxgloveError A) st (Q : CError * option A → Api → Prop) :
  match r with Ok a => Q (COk, Some a) st | Err e => Q (CError_from e, None) st | Panic => False end →
  returns (to_c r) st Q.
Proof. destruct r as [a|e|]; [..|done]; intros H; by apply returns_ret. Qed.
Lemma utf8_or_cases what s :
  (∃ x, utf8_or what s = Ok x) ∨ utf8_or what s = Err (FoxgloveUtf8Error what).
Proof. unfold utf8_or. destruct (as_utf8_str s); eauto. Qed.

(** The end of both functions that create. *)
Lemma build_tail b st : api_inv st → ids_left (p_world (a_process st)) →
  is_Some (p_contexts (a_process st) !! b_context b) → is_Some (cb_message_encoding (b_options b)) →
  b_context b = DEFAULT_CONTEXT ∨ b_context b ∈ a_contexts st →
  returns (try_bind (lift (Builder_build_raw b)) (λ c, id ← into_raw c; mret (Ok id))) st
    (λ r st', ∃ id, r = Ok id ∧ follows 1 st st' ∧ created (b_options b) (b_context b) (Some id) st st').
Proof.
  intros Hi Hleft Hx Henc Hctx.
  destruct (build_advances b _ (ai_process _ Hi) Hleft Hx Henc) as (c & p & E & Ha & Ec & Hd & Hr).
  destruct (into_raw_follows 1 c p st Hi Ha Hr ltac:(by rewrite Ec)) as (id & st' & E' & Hid & Hf & Hp & Hm & Hh).
  exists (Ok id), st'. split.
  - unfold try_bind, mbind, M_bind, lift. rewrite E. cbn. unfold mbind, M_bind. by rewrite E'.
  - exists id. split; [done|]. split; [done|]. exists c. rewrite Hp. subst id. split_and!; try done.
    intros c' Hr' Hctx' Hd'. destruct (ai_process _ Hi) as [owner Ho].
    destruct (Builder_build_raw_matching owner b _ c' Ho Hr' Hctx' Hd') as (p2 & E2 & _).
    rewrite E in E2. by injection E2.
Qed.

(** The builder in its context. *)
Lemma returns_builder_context ctx b st (Q : Builder → Api → Prop) : holds_context ctx st →
  b_context b = DEFAULT_CONTEXT →
  Q (Builder_context (default DEFAULT_CONTEXT ctx) b) st → returns (builder_context ctx b) st Q.
Proof.
  intros Hc Hb HQ. destruct ctx as [ctx|]; cbn in *.
  - apply returns_bind, returns_get. rewrite bool_decide_eq_true_2 by done. by apply returns_ret.
  - apply returns_ret. destruct b as [o c]. cbn in *. by subst.
Qed.

Definition start_builder (topic : string) (st : Api) : Api := set_process (LazyContext_deref DEFAULT_CONTEXT (a_process st)) st.
Lemma start_follows topic st : api_inv st → follows 0 st (start_builder topic st).
Proof. intros Hi. apply set_process_follows; [done|]. apply deref_advances, Hi. Qed.
Lemma start_context topic ctx st : api_inv st → holds_context ctx st →
  is_Some (p_contexts (a_process (start_builder topic st)) !! default DEFAULT_CONTEXT ctx) ∧
  (default DEFAULT_CONTEXT ctx = DEFAULT_CONTEXT ∨ default DEFAULT_CONTEXT ctx ∈ a_contexts st).
Proof.
  intros Hi Hc. destruct ctx as [ctx|]; cbn in *.
  - split; [|by right]. destruct (ai_contexts _ Hi _ Hc) as [x Hx]. exists x. by apply LazyContext_deref_old.
  - split; [apply LazyContext_deref_some|by left].
Qed.
Lemma start_left topic st : ids_left (p_world (a_process st)) → ids_left (p_world (a_process (start_builder topic st))).
Proof. unfold ids_left. cbn. by rewrite (proj1 (LazyContext_deref_world _ _)). Qed.
Lemma created_start topic b ctx o st st' : created b ctx o (start_builder topic st) st' → created b ctx o st st'.
Proof.
  intros (c & ? & ? & ? & ? & ? & ? & Huniq). exists c. split_and!; try done.
  intros c' Hr. apply Huniq. by apply registered_deref.
Qed.

Definition create_answer (r : result FoxgloveError ChannelBuilder) (ctx : option ContextId)
    (a : CError * option ChannelId) (st st' : Api) : Prop :=
  match r with
  | Ok b => a.1 = COk ∧ created b (default DEFAULT_CONTEXT ctx) a.2 st st'
  | _ => a = (CUtf8Error, None) ∧ a_made st' = a_made st ∧ a_held st' = a_held st
  end.
Lemma raw_create_runs topic enc schema ctx md st :
  api_inv st → ids_left (p_world (a_process st)) → holds_context ctx st → casts topic enc schema md = false →
  returns (foxglove_raw_channel_create topic enc schema ctx md false) st (λ a st',
    follows 1 st st' ∧ create_answer (create_options topic enc schema md) ctx a st st').
Proof.
  unfold casts. intros Hi Hleft Hc Hcast. assert (follows 1 st st) as H1 by (eapply follows_weaken, follows_refl; [lia|done]).
  unfold foxglove_raw_channel_create, do_foxglove_raw_channel_create, create_options in *. apply returns_bind.
  destruct (utf8_or_cases "topic invalid" topic) as [[t Et]|Et]; rewrite Et in *;
    [apply returns_try_ok|by apply returns_try_err, returns_to_c].
  destruct (utf8_or_cases "message_encoding invalid" enc) as [[e Ee]|Ee]; cbn [mbind result_bind] in *; rewrite Ee in *;
    [apply returns_try_ok|by apply returns_try_err, returns_to_c]. cbn [mbind result_bind].
  set (s := match schema with Some _ => _ | None => _ end) in *.
  assert ((∃ s', s = Ok s') ∨ ∃ what, s = Err (FoxgloveUtf8Error what)) as [[s' Es]|[what Es]];
    [|rewrite Es in *; apply returns_try_ok|rewrite Es; by apply returns_try_err, returns_to_c].
  { subst s. destruct schema as [schema|]; [|by eauto]. unfold FoxgloveSchema_to_native.
    destruct (utf8_or_cases "schema name invalid" (csch_name schema)) as [[? ->]| ->]; cbn; [|by eauto].
    destruct (utf8_or_cases "schema encoding invalid" (csch_encoding schema)) as [[? ->]| ->]; cbn; eauto. }
  cbn [mbind result_bind]. apply returns_bind, returns_get, returns_bind, returns_modify.
  fold (start_builder t st). pose proof (start_follows t st Hi) as Hf.
  destruct (start_context t ctx st Hi Hc) as [Hx Ha]. pose proof (start_left t st Hleft) as Hleft'.
  apply returns_bind, returns_builder_context; [done|done|]. cbn in Hcast.
  assert (metadata_from_raw md = pure (default [] (cm_items <$> md))) as ->.
  { destruct md as [m|]; [|done]. cbn. destruct (cm_from_arc m); [done|]. discriminate Hcast. }
  apply returns_bind, returns_ret. rewrite builder_metadata_spec.
  change (cb_metadata _) with (∅ : gmap string string).
  assert (∀ items m, (∃ m', metadata_map items m = Ok m') ∨ ∃ what, metadata_map items m = Err (FoxgloveUtf8Error what))
    as Hmd.
  { induction items as [|[k v] items IH]; intros m; cbn; [by eauto|].
    destruct (utf8_or_cases "invalid metadata key" k) as [[? ->]| ->]; cbn; [|by eauto].
    destruct (utf8_or_cases "invalid metadata value" v) as [[? ->]| ->]; cbn; eauto. }
  destruct (Hmd (default [] (cm_items <$> md)) ∅) as [[m ->]|[what ->]]; cbn [mbind result_bind].
  - apply returns_try_ok. eapply returns_mono; [apply build_tail; [apply Hf|done..|by eexists|done]|].
    intros r st' (id & -> & Hf' & Hcr). apply returns_to_c. split; [|by split; [done|eapply created_start]].
    by apply (follows_trans 0 1 _ _ _ Hf).
  - apply returns_try_err, returns_to_c. split; [|done]. eapply follows_weaken, Hf. lia.
Qed.

Definition typed_options `{SmallBytes} (T : Type) `{!Encode T} (topic : CString) : result FoxgloveError ChannelBuilder :=
  topic ← utf8_or "topic invalid" topic; Ok (fill_encode (T:=T) (default_options topic)).
Lemma typed_create_runs `{SmallBytes} (T : Type) `{!Encode T} topic ctx st :
  api_inv st → ids_left (p_world (a_process st)) → holds_context ctx st →
  returns (foxglove_channel_create T topic ctx false) st (λ a st',
    follows 1 st st' ∧ create_answer (typed_options T topic) ctx a st st').
Proof.
  intros Hi Hleft Hc. assert (follows 1 st st) as H1 by (eapply follows_weaken, follows_refl; [lia|done]).
  unfold foxglove_channel_create, do_foxglove_channel_create, typed_options. apply returns_bind.
  destruct (utf8_or_cases "topic invalid" topic) as [[t ->]| ->]; [apply returns_try_ok|by apply returns_try_err, returns_to_c].
  cbn [mbind result_bind]. apply returns_bind, returns_get, returns_bind, returns_modify. fold (start_builder t st).
  pose proof (start_follows t st Hi) as Hf.
  destruct (start_context t ctx st Hi Hc) as [Hx Ha]. pose proof (start_left t st Hleft) as Hleft'.
  apply returns_bind, returns_builder_context; [done|done|].
  destruct (build_tail {| b_options := fill_encode (T:=T) (default_options t); b_context := default DEFAULT_CONTEXT ctx |}
    (start_builder t st) (fo_inv _ _ _ Hf) Hleft' Hx ltac:(by eexists) Ha) as (r & st' & E & id & -> & Hf' & Hcr).
  exists (Ok id), st'. split.
  - unfold try_bind, mbind, M_bind, lift, Builder_build in *.
    match type of E with context [Builder_build_raw ?x] =>
      match goal with |- context [Builder_build_raw ?y] => change y with x end end.
    by destruct (Builder_build_raw _ _) as [[c p]| |].
  - apply returns_to_c. split; [|by split; [done|eapply created_start]]. by apply (follows_trans 0 1 _ _ _ Hf).
Qed.

(** ** Every call *)

Lemma returns_lift_process n f st : api_inv st → advances n None (a_process st) (f (a_process st)) →
  returns (lift_process f) st (λ _ st', follows n st st').
Proof. intros Hi Ha. apply returns_modify. by apply set_process_follows. Qed.
Lemma inv_rest st st' : api_inv st → a_process st' = a_process st → a_contexts st' = a_contexts st →
  a_made st' = a_made st → (∀ id, (0 < held id st')%nat → is_Some (a_made st !! id)) →
  (∀ i, is_Some (a_iters st' !! i) → (i < a_next st')%nat) → follows 0 st st'.
Proof.
  intros [] Ep Ec Em Hh Hi. split; [|by rewrite Em|by rewrite Ep; lia].
  split; rewrite ?Ep, ?Ec, ?Em; auto.
Qed.

Lemma contexts_follows cs st : api_inv st → (∀ ctx, ctx ∈ cs → is_Some (p_contexts (a_process st) !! ctx)) →
  (∀ c, registered (a_process st) c → cr_context c = DEFAULT_CONTEXT ∨ cr_context c ∈ cs) →
  follows 0 st (set_contexts cs st).
Proof. intros [] H1 H2. split; [by split|done|cbn; lia]. Qed.

Lemma upgrade_spec ctx st : api_inv st →
  match upgrade ctx st with
  | Some x => p_contexts (a_process st) !! ctx = Some x
  | None => ∀ c, registered (a_process st) c → cr_context c ≠ ctx
  end.
Proof.
  intros Hi. unfold upgrade. case_bool_decide as Hctx.
  - destruct (p_contexts (a_process st) !! ctx) eqn:E; [done|]. intros c (x & Hx & _) <-. congruence.
  - intros c Hr <-. by apply Hctx, (ai_alive _ Hi).
Qed.
Lemma close_runs c st : api_inv st → ids_left (p_world (a_process st)) →
  a_made st !! rc_id (cr_raw c) = Some c →
  returns (RawChannel_close c) st (λ _ st', follows 0 st st' ∧ shut (p_world (a_process st')) (rc_id (cr_raw c)) ∧
    a_held st' = a_held st).
Proof.
  intros Hi Hleft Hm. unfold RawChannel_close. apply returns_bind, returns_get.
  destruct (is_closed _ _) eqn:Ec.
  { apply returns_ret. split; [by apply follows_refl|]. split; [by apply is_closed_shut|done]. }
  destruct (ai_made _ Hi _ _ Hm) as [_ [Hr|Hs]]; [|apply is_closed_shut in Hs; congruence].
  pose proof (upgrade_spec (cr_context c) st Hi) as Hu. destruct (upgrade _ _) as [x|]; [|by destruct (Hu c Hr)].
  pose proof (close_advances (cr_raw c) (cr_context c) x _ (ai_process _ Hi) Hleft Hu) as Ha.
  destruct Hr as (y & Hy & Hc). rewrite Hu in Hy. injection Hy as <-.
  assert (∀ p, advances 0 None (a_process st) p → ¬ registered p c → shut (p_world p) (rc_id (cr_raw c))) as Hshut.
  { intros p Hp Hn. destruct (ad_keep _ _ _ _ Hp c) as [|]; [by exists x|done..]. }
  revert Ha. unfold remove_channel. rewrite Hc. intros Ha. specialize (Ha Ec).
  apply returns_modify. split; [by apply set_process_follows|]. split; [|done]. apply Hshut; [done|].
  intros (y & Hy & Hcy). cbn in Hy. rewrite lookup_insert_eq in Hy. injection Hy as <-. cbn in Hcy.
  by rewrite lookup_delete_eq in Hcy.
Qed.
Lemma context_new_runs st : api_inv st →
  returns foxglove_context_new st (λ ctx st', follows 0 st st' ∧ a_contexts st' = {[ctx]} ∪ a_contexts st ∧
    a_held st' = a_held st).
Proof.
  intros Hi. apply returns_bind. exists (a_next st). eexists. split; [reflexivity|].
  set (st1 := {| a_next := S _ |}).
  assert (follows 0 st st1) as H1.
  { apply inv_rest; try done; [apply Hi|]. intros i Hs. apply (ai_iters _ Hi) in Hs. cbn. lia. }
  set (st2 := set_process (LazyContext_deref (a_next st) (a_process st)) st1).
  assert (follows 0 st1 st2) as H2 by (apply set_process_follows; [|apply deref_advances]; apply H1).
  apply returns_bind, returns_modify, returns_bind, returns_modify, returns_ret. split; [|done].
  apply (follows_trans 0 0 _ _ _ H1), (follows_trans 0 0 _ _ _ H2), contexts_follows; [apply H2| |].
  - intros ctx [->%elem_of_singleton|Hc]%elem_of_union; [apply LazyContext_deref_some|].
    by apply (ai_contexts _ (fo_inv _ _ _ H2)).
  - intros c [|]%(ai_alive _ (fo_inv _ _ _ H2)); [by left|right; set_solver].
Qed.
Lemma context_free_runs ctx st : api_inv st → ids_left (p_world (a_process st)) → ctx ∈ a_contexts st →
  returns (foxglove_context_free (Some ctx)) st (λ _ st', follows 0 st st' ∧
    a_contexts st' = a_contexts st ∖ {[ctx]} ∧ a_held st' = a_held st ∧
    ∀ c, registered (a_process st') c → cr_context c ≠ ctx).
Proof.
  intros Hi Hleft Hc. cbn [foxglove_context_free]. apply returns_bind, returns_get.
  rewrite bool_decide_eq_true_2 by done. destruct (ai_contexts _ Hi _ Hc) as [x Hx].
  set (st1 := set_process (Context_drop ctx (a_process st)) st).
  assert (advances 0 None (a_process st) (Context_drop ctx (a_process st))) as Ha.
  { pose proof (op_advances OpClear ctx x _ (ai_process _ Hi) Hleft Hx eq_refl) as H. cbn [run_ctx_op] in H.
    unfold Context_drop, context_of. rewrite Hx. by destruct (clear _ _). }
  assert (follows 0 st st1) as H1 by by apply set_process_follows.
  assert (∀ c, registered (a_process st1) c → cr_context c ≠ ctx) as Hnone.
  { intros c (y & Hy & Hyc) E. unfold st1, Context_drop in Hy. cbn in Hy.
    rewrite E in Hy. rewrite lookup_insert_eq in Hy. injection Hy as <-. cbn in Hyc. by rewrite lookup_empty in Hyc. }
  apply returns_bind, returns_modify, returns_modify. fold st1. split; [|done].
  apply (follows_trans 0 0 _ _ _ H1), contexts_follows; [apply H1| |].
  - intros o Ho. apply (ai_contexts _ (fo_inv _ _ _ H1)). cbn. set_solver.
  - intros c Hr. pose proof (Hnone _ Hr). destruct (ai_alive _ (fo_inv _ _ _ H1) _ Hr); [by left|].
    right. cbn in *. set_solver.
Qed.

Lemma put_iterator_follows i it st : api_inv st → (i < a_next st)%nat →
  follows 0 st (set_iters (<[i := it]> (a_iters st)) st).
Proof.
  intros Hi Hlt. apply inv_rest; try done; [apply Hi|]. intros j. cbn.
  destruct (decide (j = i)) as [->|?]; [done|]. rewrite lookup_insert_ne by done. apply (ai_iters _ Hi).
Qed.
(** A pointer to a channel or a descriptor, and what it leads to. *)
Definition sees (place : Place) (d : ChannelDescriptor) (st : Api) : Prop := descriptor_at place st = Ok (d, st).
Lemma sees_held id c st : api_inv st → (0 < held id st)%nat → a_made st !! id = Some c →
  sees (ChannelAt id) (rc_descriptor (cr_raw c)) st.
Proof.
  intros Hi Hh Hc. destruct (held_live _ _ Hi Hh) as (c' & Hc' & E & _). assert (c' = c) as -> by congruence.
  unfold sees, descriptor_at, mbind, M_bind. by rewrite E.
Qed.
Lemma sees_same place d st st' : sees place d st → a_process st' = a_process st → a_made st' = a_made st →
  a_held st' = a_held st → a_descriptors st' = a_descriptors st → sees place d st'.
Proof.
  unfold sees, descriptor_at, mbind, M_bind. intros Hs Ep Em Eh Ed. revert Hs. destruct place as [id|k].
  - unfold channel_at, channel_live, held, in_context. rewrite Ep, Em, Eh. destruct (_ || _); [|done].
    by destruct (a_made st !! id); [intros [= <-]|].
  - cbn. rewrite Ed. by destruct (a_descriptors st !! k); [intros [= <-]|].
Qed.
Lemma sees_iters place d its st : sees place d st → sees place d (set_iters its st).
Proof. intros Hs. by eapply sees_same. Qed.
#[export] Instance key_le_total : Total key_le.
Proof. intros a b. apply (total String.le). Qed.
#[export] Instance key_le_trans : Transitive key_le.
Proof. intros a b c. unfold key_le. apply transitivity. Qed.
Definition entry_out (place : Place) (e : string * string) : FoxgloveString * FoxgloveString :=
  (FoxgloveString_from place (MetadataKey e.1) e.1, FoxgloveString_from place (MetadataValue e.1) e.2).
Lemma entries_length md : length (entries md) = size md.
Proof. unfold entries. by rewrite merge_sort_Permutation, length_map_to_list. Qed.
Lemma next_entry_spec i it d st : sees (mi_channel it) d st →
  next_entry i it st =
  match entries (cd_metadata d) !! mi_index it with
  | Some e => Ok (Some (entry_out (mi_channel it) e),
      set_iters (<[i := {| mi_channel := mi_channel it; mi_index := S (mi_index it) |}]> (a_iters st)) st)
  | None => Ok (None, st)
  end.
Proof.
  intros Hs. unfold next_entry, mbind, M_bind. rewrite Hs. cbn [mbind result_bind]. rewrite <- entries_length.
  destruct (_ <=? _)%nat eqn:En.
  - apply Nat.leb_le in En. by rewrite (proj2 (lookup_ge_None _ _)) by lia.
  - by destruct (entries (cd_metadata d) !! mi_index it) as [[k v]|].
Qed.
Lemma iterator_at i it st : a_iters st !! i = Some it → iterator i st = Ok (it, st).
Proof. intros E. unfold iterator, mbind, M_bind, get. cbn. by rewrite E. Qed.
Lemma returns_iterator i it st (Q : MetadataIterator → Api → Prop) : a_iters st !! i = Some it → Q it st →
  returns (iterator i) st Q.
Proof. intros E H. exists it, st. split; [by apply iterator_at|done]. Qed.

(** What a pointer that a getter returned leads to. *)
Lemma read_sees place d part l len st : sees place d st → part_bytes d part = Some l →
  0 ≤ len ≤ Z.of_nat (length l) → read (Into place part) len st = Ok (take (Z.to_nat len) l, st).
Proof.
  intros Hs Hl Hlen. unfold read. destruct (len =? 0) eqn:E0.
  { apply Z.eqb_eq in E0. by subst. }
  apply Z.eqb_neq in E0. unfold mbind, M_bind. rewrite Hs. cbn [mbind result_bind]. rewrite Hl.
  assert ((0 <? len) && (len <=? Z.of_nat (length l)) = true) as E by (apply andb_true_iff; lia).
  cbn. by rewrite E.
Qed.
Lemma read_whole place d part l st : sees place d st → part_bytes d part = Some l →
  read (Into place part) (Z.of_nat (length l)) st = Ok (l, st).
Proof.
  intros Hs Hl. erewrite read_sees by (done || lia). by rewrite Nat2Z.id, take_ge.
Qed.

Definition casts_metadata (c : Call) : bool :=
  match c with
  | RawChannelCreate topic message_encoding schema _ metadata false =>
    casts topic message_encoding schema metadata
  | _ => false
  end.
Lemma run_call_ok c st : api_inv st → ids_left (p_world (a_process st)) → allowed c st →
  casts_metadata c = false → returns (run_call c) st (λ _ st', follows 1 st st').
Proof.
  intros Hi Hleft Hal Hcast. pose proof (follows_weaken 0 1 st st ltac:(lia) (follows_refl _ Hi)) as Hsame.
  assert (∀ st', follows 0 st st' → follows 1 st st') as H01 by (intros st'; apply follows_weaken; lia).
  destruct c as [|[ctx|]|topic enc schema ctx md []|sb T encT topic ctx []|[ch|]|[ch|]|[ch|]|[ch|]|[ch|]|[ch|] []|[ch|]
    |[ch|]|[it|] []|[it|]|instant epoch [ch|] data time sink|p len|ctx op];
    cbn [run_call allowed holds holds_context holds_iter] in *; apply returns_answer; try (by apply returns_ret).
  - eapply returns_mono; [by apply context_new_runs|]. intros ? ? [? _]. auto.
  - eapply returns_mono; [by apply context_free_runs|]. intros ? ? [? _]. auto.
  - eapply returns_mono; [by apply raw_create_runs|]. by intros ? ? [? _].
  - eapply returns_mono; [by apply (typed_create_runs T)|]. by intros ? ? [? _].
  - apply returns_bind, returns_channel_at; [done..|]. intros c Hc Hid. subst ch.
    eapply returns_mono; [by apply close_runs|]. intros ? ? [? _]. auto.
  - cbn. unfold returns, drop_from_raw. destruct (held ch st) as [|n] eqn:Eh; [lia|].
    do 2 eexists. split; [done|]. apply H01, inv_rest; try done; [|apply Hi].
    intros id. unfold held. cbn. destruct (decide (id = ch)) as [->|?].
    + intros _. apply (ai_held _ Hi). lia.
    + rewrite lookup_insert_ne by done. apply (ai_held _ Hi).
  - apply returns_bind, returns_channel_at; [done..|]. intros. by apply returns_ret.
  - apply returns_bind, returns_descriptor_at; [done..|]. intros. by apply returns_ret.
  - apply returns_bind, returns_descriptor_at; [done..|]. intros. by apply returns_ret.
  - apply returns_bind, returns_descriptor_at; [done..|]. intros. by apply returns_ret.
  - apply returns_bind, returns_descriptor_at; [done..|]. intros.
    destruct (cd_schema _); by apply returns_ret.
  - apply returns_bind, returns_channel_at; [done..|]. intros. apply returns_bind, returns_get. by apply returns_ret.
  - apply returns_bind, returns_channel_at; [done..|]. intros c Hc Hid.
    apply returns_bind. exists (a_next st). eexists. split; [reflexivity|]. set (st1 := {| a_next := S _ |}).
    assert (follows 0 st st1) as H1.
    { apply inv_rest; try done; [apply Hi|]. intros i Hs. apply (ai_iters _ Hi) in Hs. cbn. lia. }
    apply returns_bind, returns_modify, returns_ret, H01, (follows_trans 0 0 _ _ _ H1), put_iterator_follows; [apply H1|].
    cbn. lia.
  - destruct Hal as (id & n & Hit & Hh). apply returns_bind. eapply returns_iterator; [done|]. cbn [mi_channel].
    destruct (ai_held _ Hi _ Hh) as [c Hc]. unfold returns.
    rewrite (next_entry_spec it _ (rc_descriptor (cr_raw c))) by by apply sees_held.
    destruct (entries _ !! _); do 2 eexists; (split; [done|]); [|done].
    apply H01, put_iterator_follows; [done|]. apply (ai_iters _ Hi). by eexists.
  - destruct Hal as [x Hx]. apply returns_bind. eapply returns_iterator; [done|]. apply returns_modify.
    apply H01, inv_rest; try done; [apply Hi|]. intros j. cbn. rewrite lookup_delete_is_Some.
    intros [_ Hj]. by apply (ai_iters _ Hi).
  - apply returns_bind, returns_channel_at; [done..|]. intros c Hc Hid. destruct data as [[|b l]|]; try (by apply returns_ret).
    apply returns_bind. eapply returns_mono; [eapply (returns_lift_process 0); [done|]|].
    + apply log_advances; [apply Hi|apply log_only_logs].
    + intros ? ? ?. apply returns_ret. auto.
  - destruct Hal as [->|(id & c & part & l & -> & Hh & Hc & Hl & Hlen)]; [by apply returns_ret|].
    eexists _, _. split; [|done]. eapply read_sees; [by apply sees_held|done..].
  - apply returns_bind, returns_get. pose proof (upgrade_spec ctx st Hi) as Hu.
    destruct (upgrade ctx st) as [x|]; [|by apply returns_ret].
    assert (builds op = false) as Hb by by destruct op.
    pose proof (op_advances op ctx x _ (ai_process _ Hi) Hleft Hu Hb) as Ha.
    destruct (run_ctx_op _ _) as [x' w']. cbn [fst snd] in Ha.
    eapply returns_mono; [by apply (returns_lift_process 0)|]. auto.
Qed.

(** ** Programs *)

Lemma run_call_casts c st : allowed c st → casts_metadata c = true → run_call c st = Err UndefinedBehaviour.
Proof.
  destruct c as [| |topic enc schema ctx md []| | | | | | | | | | | | | |]; try done. cbn [allowed casts_metadata].
  unfold casts, create_options. destruct md as [m|]; [|done]. intros Hc [Hm Ho]%andb_prop.
  cbn [run_call]. unfold answer, foxglove_raw_channel_create, do_foxglove_raw_channel_create, try_bind.
  destruct (utf8_or "topic invalid" topic) as [t| |]; [|done..]. cbn in Ho.
  destruct (utf8_or "message_encoding invalid" enc) as [e| |]; [|done..]. cbn in Ho.
  set (s := match schema with Some _ => _ | None => _ end) in *. destruct s as [s'| |]; [|done..].
  assert (∀ st b, holds_context ctx st → (x ← builder_context ctx b; items ← metadata_from_raw (Some m);
    try_bind (pure (builder_metadata items x)) (λ builder,
    try_bind (lift (Builder_build_raw builder)) (λ raw_channel,
    id ← into_raw raw_channel; mret (Ok id)))) st = Err UndefinedBehaviour) as Hu.
  { intros st0 b Hc0. unfold builder_context. destruct ctx as [ctx|]; cbn in *; unfold mbind, M_bind, get; cbn.
    - rewrite bool_decide_true by done. cbn. by rewrite (negb_true_iff (cm_from_arc m)) in Hm; rewrite Hm.
    - by rewrite (negb_true_iff (cm_from_arc m)) in Hm; rewrite Hm. }
  cbn. unfold mbind, M_bind in *. cbn in *. destruct (Builder_new t (a_process st)) as [b p]. cbn.
  rewrite Hu; [done|]. by destruct ctx.
Qed.

(** A program runs to its end, or up to the first such call. *)
Lemma run_calls_cases cs st : api_inv st → disciplined cs st →
  next_id (a_process st) + Z.of_nat (length cs) < 2 ^ 64 - 1 →
  ∃ done rest answers st', cs = done ++ rest ∧ run_calls done st = Ok (answers, st') ∧
    follows (Z.of_nat (length done)) st st' ∧
    match rest with
    | [] => True
    | c :: _ => casts_metadata c = true ∧ run_calls cs st = Err UndefinedBehaviour
    end.
Proof.
  revert st. induction cs as [|c cs IH]; intros st Hi Hd Hb.
  { exists [], [], [], st. split_and!; [done|done|by apply follows_refl|done]. }
  destruct Hd as [Hal Hd]. cbn [length] in *. destruct (casts_metadata c) eqn:Ec.
  { exists [], (c :: cs), [], st. split_and!; [done|done|by apply follows_refl|done|].
    cbn [run_calls]. unfold mbind, M_bind. by rewrite run_call_casts. }
  assert (ids_left (p_world (a_process st))) as Hleft.
  { destruct (ai_process _ Hi) as [owner Ho]. pose proof (ob_next _ _ Ho). unfold ids_left, next_id in *. lia. }
  destruct (run_call_ok c st Hi Hleft Hal Ec) as (a & st1 & E & Hf). pose proof (fo_next _ _ _ Hf).
  destruct (IH st1) as (done & rest & l & st' & -> & Ed & Hf' & Hrest); [apply Hf|by eapply Hd|lia|].
  exists (c :: done), rest, (a :: l), st'. split_and!; [done| | |].
  - cbn [run_calls]. rewrite (returns_bind_ok _ _ _ _ _ E). by rewrite (returns_bind_ok _ _ _ _ _ Ed).
  - pose proof (follows_trans _ _ _ _ _ Hf Hf') as Hf2. eapply follows_weaken, Hf2. cbn [length]. lia.
  - destruct rest as [|c' rest]; [done|]. destruct Hrest as [Hc' Er]. split; [done|].
    cbn [run_calls app]. rewrite (returns_bind_ok _ _ _ _ _ E). unfold mbind at 1, M_bind at 1. by rewrite Er.
Qed.
Lemma run_calls_ok cs st answers st' : api_inv st → disciplined cs st →
  next_id (a_process st) + Z.of_nat (length cs) < 2 ^ 64 - 1 →
  run_calls cs st = Ok (answers, st') → follows (Z.of_nat (length cs)) st st'.
Proof.
  intros Hi Hd Hb E. destruct (run_calls_cases cs st Hi Hd Hb) as (done & rest & l & st2 & -> & Ed & Hf & Hrest).
  destruct rest as [|c rest]; [|by rewrite E in Hrest; destruct Hrest].
  rewrite app_nil_r in *. rewrite E in Ed. by injection Ed as _ <-.
Qed.

Lemma disciplined_app l k st : disciplined (l ++ k) st → disciplined l st ∧
  ∀ a st', run_calls l st = Ok (a, st') → disciplined k st'.
Proof.
  revert st. induction l as [|c l IH]; intros st Hd; [split; [done|]; by intros a st' [= _ <-]|].
  destruct Hd as [Hal Hd]. split; [split; [done|]; intros a st' E; by apply (IH st'), (Hd a)|].
  intros a st' E. cbn [run_calls] in E. apply bind_Ok in E as ([b st1] & E1 & E).
  apply bind_Ok in E as ([l' st2] & E2 & [= _ <-]). by eapply (proj2 (IH st1 (Hd _ _ E1))).
Qed.
(** The states that a C program which follows the rules can be in. *)
Definition reached (st : Api) : Prop :=
  ∃ before answers, disciplined before Api_init ∧ Z.of_nat (length before) < 2 ^ 64 - 3 ∧
    run_calls before Api_init = Ok (answers, st).
Lemma reached_inv st : reached st → api_inv st ∧ ids_left (p_world (a_process st)).
Proof.
  intros (before & answers & Hd & Hb & E).
  assert (follows (Z.of_nat (length before)) Api_init st) as Hf by (eapply run_calls_ok; [apply Api_init_inv|done|cbn; lia|done]).
  split; [apply Hf|]. pose proof (fo_next _ _ _ Hf) as Hn.
  destruct (ai_process _ (fo_inv _ _ _ Hf)) as [owner Ho]. pose proof (ob_next _ _ Ho).
  unfold ids_left, next_id in *. cbn in Hn. lia.
Qed.

(** C12: a C program that follows the ownership rules, whatever it does and in
    whatever order, runs to its end, or up to the first call that creates a raw channel
    with metadata of its own and valid strings: that call is undefined behaviour, since
    it takes the pointer for one from [Arc::into_raw] ([casts_metadata]; a null pointer
    is fine).  Up to there it never uses memory that is gone and never panics; and nothing
    lives too long: a channel is allocated exactly as long as C holds a pointer
    to it or it is open, and an open channel belongs to the default context or
    to one that C has not freed. *)
Theorem c_channels_safe calls : disciplined calls Api_init → Z.of_nat (length calls) < 2 ^ 64 - 3 →
  ∃ done rest answers st, calls = done ++ rest ∧ run_calls done Api_init = Ok (answers, st) ∧
    (∀ id c, a_made st !! id = Some c →
      let open := is_closed (p_world (a_process st)) (cr_raw c) = false in
      (channel_live id st = true ↔ (0 < held id st)%nat ∨ open) ∧
      (open → cr_context c = DEFAULT_CONTEXT ∨ cr_context c ∈ a_contexts st)) ∧
    match rest with
    | [] => True
    | c :: _ => casts_metadata c = true ∧ run_calls calls Api_init = Err UndefinedBehaviour
    end.
Proof.
  intros Hd Hb.
  destruct (run_calls_cases calls _ Api_init_inv Hd) as (done & rest & a & st & E & Ed & Hf & Hrest); [cbn; lia|].
  exists done, rest, a, st. split_and!; [done|done| |done]. intros id c Hc open. destruct Hf as [Hi _ _].
  destruct (ai_made _ Hi _ _ Hc) as [Hid Hor].
  assert (open ↔ registered (a_process st) c) as Hopen.
  { unfold open. split.
    - intros Ho. destruct Hor as [|Hs]; [done|]. rewrite <- Hid in Hs. apply is_closed_shut in Hs. congruence.
    - intros Hr. apply not_true_is_false. intros Hs%is_closed_shut.
      by apply (registered_open _ c (ai_process _ Hi)). }
  rewrite Hopen. split; [|apply (ai_alive _ Hi)].
  unfold channel_live. rewrite orb_true_iff, Nat.ltb_lt, (in_context_spec _ _ Hi). naive_solver.
Qed.

Definition create_answered (r : result Undefined ((CError * option ChannelId) * Api))
    (options : result FoxgloveError ChannelBuilder) (ctx : option ContextId) (st : Api) : Prop :=
  ∃ a st', r = Ok (a, st') ∧ create_answer options ctx a st st'.
(** Creating a channel from C, raw or of a message type, on every branch: an
    argument that is not UTF-8 is reported and nothing is created; otherwise (metadata
    being null or from [Arc::into_raw]) the
    call succeeds, and C holds one more pointer to the open channel with these
    options in the context, which is the one that was registered if there was one. *)
Theorem channel_create_spec `{SmallBytes} (T : Type) `{!Encode T} topic enc schema ctx md st :
  reached st → holds_context ctx st → casts topic enc schema md = false →
  create_answered (foxglove_raw_channel_create topic enc schema ctx md false st)
    (create_options topic enc schema md) ctx st ∧
  create_answered (foxglove_channel_create T topic ctx false st) (typed_options T topic) ctx st ∧
  foxglove_raw_channel_create topic enc schema ctx md true st = Ok ((CValueError, None), st) ∧
  foxglove_channel_create T topic ctx true st = Ok ((CValueError, None), st).
Proof.
  intros [Hi Hleft]%reached_inv Hc Hcast. split_and!; [| |done..].
  - destruct (raw_create_runs topic enc schema ctx md st Hi Hleft Hc Hcast) as (a & st' & E & _ & H0). by exists a, st'.
  - destruct (typed_create_runs T topic ctx st Hi Hleft Hc) as (a & st' & E & _ & H0). by exists a, st'.
Qed.

(** What C reads through a string, later. *)
Definition reads (s : FoxgloveString) (v : string) (st : Api) : Prop := read_string s st = Ok (as_bytes v, st).
Lemma reads_part place d part v st : sees place d st → part_bytes d part = Some (as_bytes v) →
  reads (FoxgloveString_from place part v) v st.
Proof. intros Hs Hp. by apply (read_whole place d). Qed.

(** What the getters of a held channel return describes the channel, and can be
    read, with the same result, whatever else the program does, as long as C
    holds the channel. *)
Theorem strings_stay_readable st calls answers st' id c :
  reached st → disciplined calls st → Z.of_nat (length calls) + next_id (a_process st) < 2 ^ 64 - 1 →
  run_calls calls st = Ok (answers, st') →
  (0 < held id st)%nat → (0 < held id st')%nat → a_made st !! id = Some c →
  let d := rc_descriptor (cr_raw c) in
  (∃ s, foxglove_channel_get_topic (Some id) st = Ok (s, st) ∧ reads s (cd_topic d) st') ∧
  (∃ s, foxglove_channel_get_message_encoding (Some id) st = Ok (s, st) ∧ reads s (cd_message_encoding d) st') ∧
  match cd_schema d with
  | Some schema => ∃ s, foxglove_channel_get_schema (Some id) false st = Ok ((COk, Some s), st) ∧
      reads (fsch_name s) (sch_name schema) st' ∧ reads (fsch_encoding s) (sch_encoding schema) st' ∧
      read (fsch_data s) (fsch_data_len s) st' = Ok (sch_data schema, st')
  | None => foxglove_channel_get_schema (Some id) false st = Ok ((CValueError, None), st)
  end.
Proof.
  intros [Hi Hleft]%reached_inv Hd Hb E Hh Hh' Hc d.
  assert (follows (Z.of_nat (length calls)) st st') as Hf by (eapply run_calls_ok; [done|done|lia|done]).
  pose proof (sees_held id c st Hi Hh Hc) as Hs.
  assert (sees (ChannelAt id) d st') as Hs'.
  { apply sees_held; [apply Hf|done|]. eapply lookup_weaken, Hf. done. }
  unfold foxglove_channel_get_topic, foxglove_channel_get_message_encoding, foxglove_channel_get_schema, mbind, M_bind.
  rewrite Hs. cbn [mbind result_bind]. fold d. split_and!.
  - eexists. split; [done|]. by apply (reads_part _ d).
  - eexists. split; [done|]. by apply (reads_part _ d).
  - destruct (cd_schema d) as [schema|] eqn:Esch; [|done]. eexists. split; [done|]. cbn.
    split_and!; [apply (reads_part _ d)|apply (reads_part _ d)|apply (read_whole _ d)]; try done; cbn; by rewrite Esch.
Qed.

(** ** Iterating over metadata *)

(** [k] calls of a function that gets the next entry. *)
Fixpoint nexts (next : option nat → bool → M (option (FoxgloveString * FoxgloveString))) (iter : option nat)
    (k : nat) : M (list (option (FoxgloveString * FoxgloveString))) :=
  match k with
  | O => mret []
  | S k => e ← next iter false; l ← nexts next iter k; mret (e :: l)
  end.
(** A loop over the metadata, one call more than there are entries. *)
Definition iterate (channel : ChannelId) (k : nat) : M (list (option (FoxgloveString * FoxgloveString))) :=
  it ← foxglove_channel_metadata_iter_create (Some channel);
  l ← nexts foxglove_channel_metadata_iter_next it k;
  _ ← foxglove_channel_metadata_iter_free it;
  mret l.

(** The two functions that get the next entry. *)
Definition advances_iter (place : Place) (next : option nat → bool → M (option (FoxgloveString * FoxgloveString))) : Prop :=
  ∀ i n st, a_iters st !! i = Some {| mi_channel := place; mi_index := n |} →
    next (Some i) false st = next_entry i {| mi_channel := place; mi_index := n |} st.
Lemma channel_iter_advances id : advances_iter (ChannelAt id) foxglove_channel_metadata_iter_next.
Proof.
  intros i n st Hit. cbn [foxglove_channel_metadata_iter_next].
  by erewrite returns_bind_ok by by apply iterator_at.
Qed.
Lemma descriptor_iter_advances k : advances_iter (DescriptorAt k) foxglove_channel_descriptor_metadata_iter_next.
Proof.
  intros i n st Hit. cbn [foxglove_channel_descriptor_metadata_iter_next].
  by erewrite returns_bind_ok by by apply iterator_at.
Qed.
Lemma nexts_spec next i place d k n st : advances_iter place next → sees place d st →
  a_iters st !! i = Some {| mi_channel := place; mi_index := n |} →
  ∃ m, nexts next (Some i) k st =
    Ok ((λ j, entry_out place <$> entries (cd_metadata d) !! j) <$> seq n k,
      set_iters (<[i := {| mi_channel := place; mi_index := m |}]> (a_iters st)) st).
Proof.
  intros Hnext. revert n st. induction k as [|k IH]; intros n st Hs Hit; cbn [nexts].
  { exists n. rewrite insert_id by done. by destruct st. }
  pose proof (Hnext i n st Hit) as En. rewrite (next_entry_spec i _ d) in En by done. cbn [mi_channel mi_index] in En.
  destruct (entries (cd_metadata d) !! n) as [e|] eqn:Ee; erewrite returns_bind_ok by done.
  - edestruct (IH (S n)) as [m E]; [by eapply sees_iters|cbn; by rewrite lookup_insert_eq|].
    exists m. erewrite returns_bind_ok by done. cbn. by rewrite Ee, insert_insert_eq.
  - assert (∀ j st', a_iters st' !! i = Some {| mi_channel := place; mi_index := n |} → sees place d st' →
      nexts next (Some i) j st' = Ok (replicate j None, st')) as Hrest.
    { intros j st' Hit' Hs'. induction j as [|j IHj]; [done|]. cbn [nexts].
      pose proof (Hnext i n st' Hit') as En'. rewrite (next_entry_spec i _ d) in En' by done.
      cbn [mi_channel mi_index] in En'. rewrite Ee in En'.
      erewrite returns_bind_ok by done. by erewrite returns_bind_ok by done. }
    exists n. erewrite returns_bind_ok by by apply Hrest. rewrite insert_id by done.
    cbn [seq fmap list_fmap]. rewrite Ee. cbn [fmap option_fmap option_map].
    assert (replicate k None = (λ j, entry_out place <$> entries (cd_metadata d) !! j) <$> seq (S n) k) as <-; [|by destruct st].
    apply lookup_ge_None in Ee. clear -Ee. apply list_eq_same_length with k; [by rewrite length_fmap, length_seq|by rewrite length_replicate|].
    intros j x y Hj [-> _]%lookup_replicate (i' & -> & [-> _]%lookup_seq)%list_lookup_fmap_Some.
    by rewrite (proj2 (lookup_ge_None _ _)) by lia.
Qed.
Lemma listed_entries {A B} (f : A → B) (l : list A) :
  (λ j, f <$> l !! j) <$> seq 0 (S (length l)) = (Some ∘ f <$> l) ++ [None].
Proof.
  rewrite seq_S, fmap_app. cbn. rewrite (proj2 (lookup_ge_None l (length l))) by lia. cbn. f_equal.
  induction l as [|x l IH] using rev_ind; [done|].
  rewrite length_app, Nat.add_1_r, seq_S, !fmap_app. cbn.
  rewrite lookup_app_r, Nat.sub_diag by lia. cbn. f_equal. rewrite <- IH.
  apply list_fmap_ext. intros i j [-> Hi]%lookup_seq. by rewrite lookup_app_l by lia.
Qed.

(** The new iterator. *)
Definition opened (place : Place) (st : Api) : Api :=
  {| a_process := a_process st; a_contexts := a_contexts st; a_made := a_made st; a_held := a_held st;
     a_descriptors := a_descriptors st;
     a_iters := <[a_next st := {| mi_channel := place; mi_index := 0 |}]> (a_iters st);
     a_next := S (a_next st) |}.
Lemma iter_create_spec id st : api_inv st → (0 < held id st)%nat →
  foxglove_channel_metadata_iter_create (Some id) st = Ok (Some (a_next st), opened (ChannelAt id) st).
Proof.
  intros Hi Hh. destruct (held_live _ _ Hi Hh) as (c & _ & E & _).
  unfold foxglove_channel_metadata_iter_create. by erewrite returns_bind_ok by done.
Qed.
Lemma free_iterator_spec i st : is_Some (a_iters st !! i) →
  free_iterator i st = Ok (tt, set_iters (delete i (a_iters st)) st).
Proof. intros [it Hit]. unfold free_iterator. by erewrite returns_bind_ok by by apply iterator_at. Qed.

(** Iterating over the metadata of a held channel lists every entry once, in
    the order of the keys, then ends; the strings read as the keys and values;
    the iterator is freed and the channels are as before. *)
Theorem metadata_iteration st id c : reached st → (0 < held id st)%nat → a_made st !! id = Some c →
  let md := cd_metadata (rc_descriptor (cr_raw c)) in
  ∃ l st', iterate id (S (size md)) st = Ok ((Some <$> l) ++ [None], st') ∧
    Forall2 (λ s e, reads s.1 e.1 st' ∧ reads s.2 e.2 st') l (entries md) ∧
    list_to_map (entries md) = md ∧ StronglySorted key_le (entries md) ∧
    a_iters st' = a_iters st ∧ a_process st' = a_process st ∧ a_held st' = a_held st.
Proof.
  intros [Hi _]%reached_inv Hh Hc md. set (d := rc_descriptor (cr_raw c)).
  assert (entries md ≡ₚ map_to_list md) as Hp by apply merge_sort_Permutation.
  assert (∃ st', iterate id (S (size md)) st =
      Ok ((Some ∘ entry_out (ChannelAt id) <$> entries md) ++ [None], st') ∧ sees (ChannelAt id) d st' ∧
      a_iters st' = a_iters st ∧ a_process st' = a_process st ∧ a_held st' = a_held st)
    as (st' & E & Hs' & Hits & Hpr & Hhe).
  { pose proof (sees_held _ _ _ Hi Hh Hc) as Hs. unfold iterate. erewrite returns_bind_ok by by apply iter_create_spec.
    destruct (nexts_spec foxglove_channel_metadata_iter_next (a_next st) (ChannelAt id) d (S (size md)) 0
      (opened (ChannelAt id) st)) as [m Em]; [apply channel_iter_advances|by eapply (sees_same _ _ st)|
      by cbn; rewrite lookup_insert_eq|].
    erewrite returns_bind_ok by done. rewrite <- (entries_length md), listed_entries.
    erewrite returns_bind_ok; [|by apply free_iterator_spec; cbn; rewrite lookup_insert_eq].
    eexists. split; [done|]. split; [by eapply sees_same|]. split; [|done].
    cbn. rewrite insert_insert_eq, delete_insert_id; [done|].
    destruct (a_iters st !! a_next st) eqn:En; [|done].
    pose proof (ai_iters _ Hi (a_next st) ltac:(by eexists)). lia. }
  exists (entry_out (ChannelAt id) <$> entries md), st'. rewrite <- list_fmap_compose.
  split; [done|]. split; [|split; [|split; [|done]]].
  - apply Forall2_fmap_l, Forall_Forall2_diag, Forall_forall. intros [k v] Hin. cbn.
    rewrite Hp in Hin. apply elem_of_map_to_list in Hin.
    split; apply (reads_part _ d); try done; cbn; fold d; unfold md in Hin; fold d in Hin; by rewrite Hin.
  - rewrite <- (list_to_map_to_list md) at 2. apply list_to_map_proper; [|done].
    rewrite Hp. apply NoDup_fst_map_to_list.
  - apply StronglySorted_merge_sort; apply _.
Qed.

(** ** Channel filters *)

(** What a callback of C may do with the descriptor it is given: ask for its parts,
    read them, and decide. *)
Inductive Script :=
| Decide (b : bool)
| AskTopic (k : list byte → Script)
| AskMessageEncoding (k : list byte → Script)
| AskSchema (k : option (list byte * list byte * list byte) → Script)
| AskMetadata (n : nat) (k : list (option (list byte * list byte)) → Script).

Fixpoint read_entries (l : list (option (FoxgloveString * FoxgloveString))) : M (list (option (list byte * list byte))) :=
  match l with
  | [] => mret []
  | None :: l => r ← read_entries l; mret (None :: r)
  | Some (k, v) :: l => k ← read_string k; v ← read_string v; r ← read_entries l; mret (Some (k, v) :: r)
  end.
Fixpoint run_script (s : Script) (channel : nat) : M bool :=
  match s with
  | Decide b => mret b
  | AskTopic k => s ← foxglove_channel_descriptor_get_topic (Some channel); l ← read_string s; run_script (k l) channel
  | AskMessageEncoding k =>
    s ← foxglove_channel_descriptor_get_message_encoding (Some channel); l ← read_string s; run_script (k l) channel
  | AskSchema k =>
    r ← foxglove_channel_descriptor_get_schema (Some channel) false;
    match r.2 with
    | None => run_script (k None) channel
    | Some s =>
      name ← read_string (fsch_name s);
      encoding ← read_string (fsch_encoding s);
      data ← read (fsch_data s) (fsch_data_len s);
      run_script (k (Some (name, encoding, data))) channel
    end
  | AskMetadata n k =>
    it ← foxglove_channel_descriptor_metadata_iter_create (Some channel);
    l ← nexts foxglove_channel_descriptor_metadata_iter_next it n;
    l ← read_entries l;
    _ ← foxglove_channel_descriptor_metadata_iter_free it;
    run_script (k l) channel
  end.
(** The same decision about the descriptor as a value. *)
Fixpoint decide_script (s : Script) (d : ChannelDescriptor) : bool :=
  match s with
  | Decide b => b
  | AskTopic k => decide_script (k (as_bytes (cd_topic d))) d
  | AskMessageEncoding k => decide_script (k (as_bytes (cd_message_encoding d))) d
  | AskSchema k =>
    decide_script (k ((λ s, (as_bytes (sch_name s), as_bytes (sch_encoding s), sch_data s)) <$> cd_schema d)) d
  | AskMetadata n k =>
    decide_script (k ((λ j, (λ e, (as_bytes e.1, as_bytes e.2)) <$> entries (cd_metadata d) !! j) <$> seq 0 n)) d
  end.

(** Names from [a_next] on are not in use. *)
Definition names_fresh (st : Api) : Prop :=
  ∀ k, (a_next st ≤ k)%nat → a_descriptors st !! k = None ∧ a_iters st !! k = None.
Definition set_next (n : nat) (st : Api) : Api :=
  {| a_process := a_process st; a_contexts := a_contexts st; a_made := a_made st; a_held := a_held st;
     a_descriptors := a_descriptors st; a_iters := a_iters st; a_next := n |}.
Lemma set_next_same st : set_next (a_next st) st = st.
Proof. by destruct st. Qed.

Lemma entry_reads place d j e st : sees place d st → entries (cd_metadata d) !! j = Some e →
  reads (entry_out place e).1 e.1 st ∧ reads (entry_out place e).2 e.2 st.
Proof.
  intros Hs Hj. assert (cd_metadata d !! e.1 = Some e.2) as Hin.
  { apply elem_of_map_to_list. rewrite <- surjective_pairing.
    assert (entries (cd_metadata d) ≡ₚ map_to_list (cd_metadata d)) as <- by apply merge_sort_Permutation.
    by eapply list_elem_of_lookup_2. }
  split; apply (reads_part _ d); try done; cbn; by rewrite Hin.
Qed.
Lemma read_entries_spec place d st js : sees place d st →
  read_entries ((λ j, entry_out place <$> entries (cd_metadata d) !! j) <$> js) st =
  Ok ((λ j, (λ e, (as_bytes e.1, as_bytes e.2)) <$> entries (cd_metadata d) !! j) <$> js, st).
Proof.
  intros Hs. induction js as [|j js IH]; [done|]. cbn [fmap list_fmap].
  destruct (entries (cd_metadata d) !! j) as [e|] eqn:Ee; cbn [fmap option_fmap option_map].
  - destruct (entry_reads place d j e st Hs Ee) as [Hk Hv]. cbn [read_entries entry_out].
    erewrite returns_bind_ok by exact Hk. erewrite returns_bind_ok by exact Hv. by erewrite returns_bind_ok by exact IH.
  - cbn [read_entries]. by erewrite returns_bind_ok by exact IH.
Qed.

Lemma run_script_spec s d channel st : sees (DescriptorAt channel) d st → names_fresh st →
  ∃ n, (a_next st ≤ n)%nat ∧ run_script s channel st = Ok (decide_script s d, set_next n st).
Proof.
  revert st. induction s as [b|k IH|k IH|k IH|m k IH]; intros st Hs Hf; cbn [run_script decide_script].
  - exists (a_next st). by rewrite set_next_same.
  - unfold foxglove_channel_descriptor_get_topic. erewrite returns_bind_ok by by erewrite returns_bind_ok by exact Hs.
    erewrite returns_bind_ok by by apply (reads_part _ d). by apply IH.
  - unfold foxglove_channel_descriptor_get_message_encoding.
    erewrite returns_bind_ok by by erewrite returns_bind_ok by exact Hs.
    erewrite returns_bind_ok by by apply (reads_part _ d). by apply IH.
  - unfold foxglove_channel_descriptor_get_schema. destruct (cd_schema d) as [schema|] eqn:Esch.
    + erewrite returns_bind_ok by (erewrite returns_bind_ok by exact Hs; cbn; by rewrite Esch). cbn [snd schema_out].
      erewrite returns_bind_ok by (apply (reads_part _ d); [done|cbn; by rewrite Esch]).
      erewrite returns_bind_ok by (apply (reads_part _ d); [done|cbn; by rewrite Esch]).
      erewrite returns_bind_ok by (apply (read_whole _ d); [done|cbn; by rewrite Esch]). by apply IH.
    + erewrite returns_bind_ok by (erewrite returns_bind_ok by exact Hs; cbn; by rewrite Esch). by apply IH.
  - assert (foxglove_channel_descriptor_metadata_iter_create (Some channel) st =
      Ok (Some (a_next st), opened (DescriptorAt channel) st)) as Ec.
    { cbn [foxglove_channel_descriptor_metadata_iter_create]. by erewrite returns_bind_ok by exact Hs. }
    erewrite returns_bind_ok by exact Ec.
    assert (∀ st', a_process st' = a_process st → a_made st' = a_made st → a_held st' = a_held st →
      a_descriptors st' = a_descriptors st → sees (DescriptorAt channel) d st') as Hsees by (intros; by eapply sees_same).
    destruct (nexts_spec _ (a_next st) _ d m 0 (opened (DescriptorAt channel) st) (descriptor_iter_advances channel))
      as [j Ej]; [by apply Hsees|cbn; by rewrite lookup_insert_eq|].
    erewrite returns_bind_ok by exact Ej. erewrite returns_bind_ok by (apply read_entries_spec, Hsees; done).
    erewrite returns_bind_ok; [|apply free_iterator_spec; cbn; by rewrite lookup_insert_eq].
    cbn [set_iters a_iters opened]. rewrite insert_insert_eq, delete_insert_id by by apply Hf.
    set (st1 := set_iters _ _).
    assert (names_fresh st1) as Hf1 by (intros i Hi; apply Hf; cbn in Hi; lia).
    destruct (IH ((λ j, (λ e, (as_bytes e.1, as_bytes e.2)) <$> entries (cd_metadata d) !! j) <$> seq 0 m) st1)
      as (n & Hn & E); [by apply Hsees|done|].
    exists n. split; [cbn in Hn; lia|]. done.
Qed.

(** A filter whose callback asks the descriptor for its parts and decides is the
    function of the descriptor that its answers make it: the callback reads
    exactly the values of the descriptor, its uses of the pointer are defined,
    and afterwards the descriptor and the iterators are gone. *)
Theorem filter_sees_descriptor s d st : names_fresh st →
  ∃ n, should_subscribe (run_script s) d st = Ok (decide_script s d, set_next n st).
Proof.
  intros Hf. unfold should_subscribe. erewrite returns_bind_ok by done. erewrite returns_bind_ok by done.
  set (st1 := set_descriptors _ _).
  assert (sees (DescriptorAt (a_next st)) d st1) as Hs.
  { unfold sees, descriptor_at. erewrite returns_bind_ok by done. cbn. by rewrite lookup_insert_eq. }
  destruct (run_script_spec s d (a_next st) st1 Hs) as (n & Hn & E).
  { intros i Hi. cbn in *. rewrite lookup_insert_ne by lia. apply Hf. lia. }
  exists n. erewrite returns_bind_ok by exact E. erewrite returns_bind_ok by done.
  cbn. rewrite delete_insert_id by by apply Hf. done.
Qed.
