(* ===== verification/CChannelExamples.v ===== *)
(** * CChannelExamples: a C program that logs on a channel

    Witnesses for CChannelProofs.v at a program that creates one channel twice,
    what happens to programs that break the ownership rules ([double_free],
    [use_after_free], [freed_stays_registered]), and to one that creates a channel
    with metadata ([plain_metadata_undefined]). *)

From S2P Require Import Prelude Bytes Channel Subscriptions Context Typed CError CChannel.
From S2P Require Import CChannelProofs.
Local Open Scope Z_scope.

#[local] Existing Instances sample_small sample_encode.
Definition run_to (calls : list Call) : Api :=
  match run_calls calls Api_init with Ok (_, st) => st | _ => Api_init end.
Definition c_string (s : string) : CString := Some (as_bytes s).
Definition sample_create : Call :=
  RawChannelCreate (c_string "/a") (c_string "json") (Some {| csch_name := c_string "A"; csch_encoding := None;
    csch_data := Some (as_bytes "{}") |}) (Some 1%nat)
    (Some {| cm_from_arc := true; cm_items := [(c_string "z", c_string "1"); (c_string "b", c_string "2")] |}) false.
(** Creates a channel twice. *)
Definition sample_calls : list Call := [ContextNew; sample_create; sample_create].
(** Frees one of the pointers and the context. *)
Definition sample_later : list Call :=
  [Log 0 9 (Some 1) (c_string "x") None 0; ChannelFree (Some 1); ContextFree (Some 1%nat)].

Lemma holds_check ctx st : bool_decide (ctx ∈ a_contexts st) = true → holds_context (Some ctx) st.
Proof. by intros H%bool_decide_eq_true. Qed.
Ltac holding := apply holds_check; vm_compute; reflexivity.
Ltac next_call := intros ? ? E; vm_compute in E; injection E as <- <-.
Lemma sample_disciplined : disciplined (sample_calls ++ sample_later) Api_init.
Proof.
  split; [done|]. next_call. split; [by holding|]. next_call.
  split; [by holding|]. next_call. split; [vm_compute; lia|]. next_call.
  split; [vm_compute; lia|]. next_call. split; [by holding|]. by next_call.
Qed.
Lemma sample_reached : reached (run_to sample_calls).
Proof.
  exists sample_calls, [AContext 1%nat; AChannel COk (Some 1); AChannel COk (Some 1)].
  split; [apply (disciplined_app _ sample_later), sample_disciplined|]. by split.
Qed.

(** One pointer is left; the channel was closed with its context, and lives. *)
Lemma c_channels_safe_witness :
  (∃ done rest answers st, sample_calls ++ sample_later = done ++ rest ∧
    run_calls done Api_init = Ok (answers, st) ∧
    match rest with
    | [] => True
    | c :: _ => casts_metadata c = true ∧
        run_calls (sample_calls ++ sample_later) Api_init = Err UndefinedBehaviour
    end) ∧
  held 1 (run_to (sample_calls ++ sample_later)) = 1%nat ∧
  channel_live 1 (run_to (sample_calls ++ sample_later)) = true.
Proof.
  split; [|split; vm_compute; reflexivity].
  destruct (c_channels_safe (sample_calls ++ sample_later) sample_disciplined eq_refl)
    as (done & rest & a & st & E & Ed & _ & Hr).
  exists done, rest, a, st. split; [exact E|split; [exact Ed|exact Hr]].
Defined.

(** A struct of C's own as metadata. *)
Lemma plain_metadata_undefined :
  run_calls [RawChannelCreate (c_string "/a") (c_string "json") None None
    (Some {| cm_from_arc := false; cm_items := [(c_string "z", c_string "1")] |}) false] Api_init =
  Err UndefinedBehaviour.
Proof. vm_compute. reflexivity. Qed.

Lemma strings_stay_readable_witness :
  ∃ s, foxglove_channel_get_topic (Some 1) (run_to sample_calls) = Ok (s, run_to sample_calls) ∧
    reads s "/a" (run_to (sample_calls ++ sample_later)).
Proof.
  destruct (strings_stay_readable (run_to sample_calls) sample_later [ACode COk; AUnit; AUnit]
    (run_to (sample_calls ++ sample_later)) 1
    {| cr_raw := {| rc_descriptor := {| cd_id := 1; cd_topic := "/a"; cd_message_encoding := "json";
         cd_metadata := <["z" := "1"]> (<["b" := "2"]> ∅);
         cd_schema := Some {| sch_name := "A"; sch_encoding := ""; sch_data := as_bytes "{}" |} |} |};
       cr_context := 1%nat |}) as [H _].
  - exact sample_reached.
  - exact (proj2 (disciplined_app _ _ _ sample_disciplined) _ _ eq_refl).
  - reflexivity.
  - vm_compute. reflexivity.
  - vm_compute. lia.
  - vm_compute. lia.
  - vm_compute. reflexivity.
  - exact H.
Defined.

Lemma metadata_iteration_witness :
  ∃ l st', iterate 1 3 (run_to sample_calls) = Ok ((Some <$> l) ++ [None], st') ∧
    Forall2 (λ s e, reads s.1 e.1 st' ∧ reads s.2 e.2 st') l [("b", "2"); ("z", "1")].
Proof.
  destruct (a_made (run_to sample_calls) !! 1) as [c|] eqn:Ec; [|vm_compute in Ec; discriminate].
  destruct (metadata_iteration (run_to sample_calls) 1 c sample_reached ltac:(vm_compute; lia) Ec)
    as (l & st' & E & Hl & _).
  vm_compute in Ec. injection Ec as <-. exists l, st'. split; [exact E|exact Hl].
Defined.

(** The same options give the same channel. *)
Lemma channel_create_spec_witness :
  create_answered (foxglove_channel_create string (c_string "/t") None false (run_to sample_calls))
    (typed_options string (c_string "/t")) None (run_to sample_calls) ∧
  create_answered (foxglove_raw_channel_create (Some [Byte.xff]) None None None None false (run_to sample_calls))
    (Err (FoxgloveUtf8Error "topic invalid")) None (run_to sample_calls).
Proof.
  split.
  - exact (proj1 (proj2 (channel_create_spec string (c_string "/t") None None None None _ sample_reached I eq_refl))).
  - exact (proj1 (channel_create_spec string (Some [Byte.xff]) None None None None _ sample_reached I eq_refl)).
Defined.

Definition sample_script : Script := AskTopic (λ t, if decide (t = as_bytes "/a") then AskMetadata 1 (λ l,
  Decide (bool_decide (l = [Some (as_bytes "b", as_bytes "2")]))) else Decide false).
Lemma filter_sees_descriptor_witness :
  ∃ d n, should_subscribe (run_script sample_script) d (run_to sample_calls) =
    Ok (true, set_next n (run_to sample_calls)).
Proof.
  exists {| cd_id := 1; cd_topic := "/a"; cd_message_encoding := "json";
    cd_metadata := <["z" := "1"]> (<["b" := "2"]> ∅); cd_schema := None |}.
  destruct (filter_sees_descriptor sample_script {| cd_id := 1; cd_topic := "/a"; cd_message_encoding := "json";
    cd_metadata := <["z" := "1"]> (<["b" := "2"]> ∅); cd_schema := None |} (run_to sample_calls)) as [n E].
  - intros k _. split; reflexivity.
  - exists n. exact E.
Defined.

(** Freeing a channel once more than C was given it is undefined, also when its
    context still has it; so is reading the topic of a channel that is gone. *)
Lemma double_free :
  run_call (ChannelFree (Some 1)) (run_to (sample_calls ++ [ChannelFree (Some 1); ChannelFree (Some 1)])) =
  Err UndefinedBehaviour.
Proof. vm_compute. reflexivity. Qed.
Lemma use_after_free : read_string {| fs_data := Into (ChannelAt 1) Topic; fs_len := 2 |}
  (run_to (sample_calls ++ [ChannelClose (Some 1); ChannelFree (Some 1); ChannelFree (Some 1)])) =
  Err UndefinedBehaviour.
Proof. vm_compute. reflexivity. Qed.
(** Freeing without closing leaves the channel registered. *)
Lemma freed_stays_registered :
  in_context 1 (run_to (sample_calls ++ [ChannelFree (Some 1); ChannelFree (Some 1)])) = true.
Proof. vm_compute. reflexivity. Qed.
