(* ===== verification/CServer.v ===== *)
(** * CServer: servers, services and connection graphs in the C API

    `src/c/src/server.rs`, `service.rs`, `fetch_asset.rs`, `connection_graph.rs`,
    `playback_state.rs` and `bytes.rs`, over the builder of WebSocketServer.v and the
    systems of Session.v.

    C holds raw pointers of boxes ([h_boxes]).  A box is freed when the library takes
    it back with [Box::from_raw]; the use of a pointer that is null or whose box is
    gone, or is another kind of box, is [UndefinedBehaviour].  A [Panic] in a call
    aborts the process.

    A server has a context of its own: programs with two servers in one context are
    not modelled.  The clients of a server, and the threads that log, act between the
    calls of C ([happens]); when this gives a request to a handler in C, the handler
    gets a box with the responder ([call_handlers]), and the callbacks of the listener
    are called for what it makes the server do ([hear]).  How parameter arrays are laid
    out and converted is in CParameter.v and CCallback.v; here a finished array is a box
    of native values. *)

From S2P Require Import Prelude Bytes Messages Wire ConnectionGraph Channel Subscriptions Context.
From S2P Require Import Advertise Services Token Outbox Client Server Session SessionProofs.
From S2P Require Import CError CChannel WebSocketServer.
Local Open Scope Z_scope.

(** ** Capabilities *)

Definition FOXGLOVE_SERVER_CAPABILITY_CLIENT_PUBLISH : Z := Z.shiftl 1 0.
Definition FOXGLOVE_SERVER_CAPABILITY_CONNECTION_GRAPH : Z := Z.shiftl 1 1.
Definition FOXGLOVE_SERVER_CAPABILITY_PARAMETERS : Z := Z.shiftl 1 2.
Definition FOXGLOVE_SERVER_CAPABILITY_TIME : Z := Z.shiftl 1 3.
Definition FOXGLOVE_SERVER_CAPABILITY_SERVICES : Z := Z.shiftl 1 4.
Definition FOXGLOVE_SERVER_CAPABILITY_ASSETS : Z := Z.shiftl 1 5.
Definition FOXGLOVE_SERVER_CAPABILITY_RANGED_PLAYBACK : Z := Z.shiftl 1 6.

(** The flags of [FoxgloveServerCapabilityBitFlags]. *)
Definition BitFlags_names : list (string * Z) := [
  ("ClientPublish", FOXGLOVE_SERVER_CAPABILITY_CLIENT_PUBLISH);
  ("ConnectionGraph", FOXGLOVE_SERVER_CAPABILITY_CONNECTION_GRAPH);
  ("Parameters", FOXGLOVE_SERVER_CAPABILITY_PARAMETERS);
  ("Time", FOXGLOVE_SERVER_CAPABILITY_TIME);
  ("Services", FOXGLOVE_SERVER_CAPABILITY_SERVICES);
  ("Assets", FOXGLOVE_SERVER_CAPABILITY_ASSETS);
  ("RangedPlayback", FOXGLOVE_SERVER_CAPABILITY_RANGED_PLAYBACK)]%string.

(** The [bitflags] crate: [iter_names] yields the named flags that the value has. *)
Class Bitflags := {
  iter_names : Z → list (string * Z);
  iter_names_spec bits f : f ∈ iter_names bits ↔ f ∈ BitFlags_names ∧ Z.land bits f.2 = f.2
}.
Definition websocket_capability (flag : Z) : option Capability :=
  if flag =? FOXGLOVE_SERVER_CAPABILITY_CLIENT_PUBLISH then Some CapClientPublish
  else if flag =? FOXGLOVE_SERVER_CAPABILITY_CONNECTION_GRAPH then Some CapConnectionGraph
  else if flag =? FOXGLOVE_SERVER_CAPABILITY_PARAMETERS then Some CapParameters
  else if flag =? FOXGLOVE_SERVER_CAPABILITY_TIME then Some CapTime
  else if flag =? FOXGLOVE_SERVER_CAPABILITY_SERVICES then Some CapServices
  else if flag =? FOXGLOVE_SERVER_CAPABILITY_ASSETS then Some CapAssets
  else if flag =? FOXGLOVE_SERVER_CAPABILITY_RANGED_PLAYBACK then Some CapRangedPlayback
  else None.
Definition iter_websocket_capabilities `{Bitflags} (flags : Z) : list Capability :=
  omap (λ f, websocket_capability f.2) (iter_names flags).

(** ** Arguments *)

(** An array that C passes: a pointer and a count. *)
Record CArray (A : Type) := { ca_items : option (list A); ca_count : nat }.
Arguments ca_items {A} _.
Arguments ca_count {A} _.
(** [FoxgloveBytes]. *)
Abbreviation FoxgloveBytes := (CArray byte).

Record FoxglovePlaybackState := {
  fps_status : Z;
  fps_current_time : Z;
  fps_playback_speed : Z;
  fps_did_seek : bool;
  fps_request_id : CString
}.
Definition FoxgloveString_is_empty (self : CString) : bool :=
  match self with None | Some [] => true | _ => false end.
Definition FoxglovePlaybackState_to_native (self : FoxglovePlaybackState)
    : result FoxgloveError PlaybackState :=
  status ← ok_or (PlaybackStatus_try_from (fps_status self)) (ValueError "invalid playback status");
  request_id ← (if FoxgloveString_is_empty (fps_request_id self) then Ok None
                else s ← utf8_or "" (fps_request_id self); Ok (Some s));
  Ok {| ps_status := status; ps_current_time := fps_current_time self;
        ps_playback_speed := fps_playback_speed self; ps_did_seek := fps_did_seek self;
        ps_request_id := request_id |}.

Record FoxgloveServiceMessageSchema := { fsm_encoding : CString; fsm_schema : CSchema }.
Definition FoxgloveServiceMessageSchema_to_native (self : FoxgloveServiceMessageSchema)
    : result FoxgloveError (string * Schema) :=
  encoding ← utf8_or "" (fsm_encoding self);
  schema ← FoxgloveSchema_to_native (fsm_schema self);
  Ok (encoding, schema).
Record FoxgloveServiceSchema := {
  fss_name : CString;
  fss_request : option FoxgloveServiceMessageSchema;
  fss_response : option FoxgloveServiceMessageSchema
}.
(** [if let Some(part) = part { schema = add(..) }]. *)
Definition add_message_schema (add : string → Schema → ServiceSchema → ServiceSchema)
    (part : option FoxgloveServiceMessageSchema) (schema : ServiceSchema)
    : result FoxgloveError ServiceSchema :=
  match part with
  | Some part =>
    '(encoding, s) ← FoxgloveServiceMessageSchema_to_native part; Ok (add encoding s schema)
  | None => Ok schema
  end.
Definition FoxgloveServiceSchema_to_native (self : FoxgloveServiceSchema)
    : result FoxgloveError ServiceSchema :=
  name ← utf8_or "" (fss_name self);
  schema ← add_message_schema with_request (fss_request self) (ServiceSchema_new name);
  add_message_schema with_response (fss_response self) schema.

Inductive FoxgloveServerStatusLevel := FsInfo | FsWarning | FsError.
Definition StatusLevel_from (value : FoxgloveServerStatusLevel) : StatusLevel :=
  match value with FsInfo => LevelInfo | FsWarning => LevelWarning | FsError => LevelError end.

Section capi.
Context `{HF : Flume} `{HM : BiMap} `{HB : Buf} `{HJ : Json} `{H64 : Base64}.
Context `{Net} `{Bitflags}.
(** [Display] of a [Utf8Error] for bytes that are not UTF-8. *)
Variable display_utf8 : list byte → string.

(** ** The callbacks of a listener *)

Record FoxgloveClientMetadata := { cm_id : Z; cm_sink_id : Z }.
(** [FoxgloveClientChannel], with the memory that its pointers lead to. *)
Record FoxgloveClientChannel := {
  fcc_id : Z;
  fcc_topic : list byte;
  fcc_encoding : list byte;
  fcc_schema_name : list byte;
  fcc_schema_encoding : option (list byte);
  fcc_schema : option (list byte);
  fcc_schema_len : Z
}.
Record FoxglovePlaybackControlRequest := {
  fpc_playback_command : Z;
  fpc_playback_speed : Z;
  fpc_seek_time : option Z;
  fpc_request_id : CString
}.
(** The functions C supplies.  Those that only hear are there or not; those that
    answer are functions of what they are passed (null, or the parameters of the
    array that is returned; the contents of the out parameter afterwards). *)
Record FoxgloveServerCallbacks := {
  cb_on_subscribe : bool;
  cb_on_unsubscribe : bool;
  cb_on_client_advertise : bool;
  cb_on_message_data : bool;
  cb_on_client_unadvertise : bool;
  cb_on_get_parameters : option (Z → CString → list CString → option (list Param));
  cb_on_set_parameters : option (Z → CString → list Param → option (list Param));
  cb_on_parameters_subscribe : bool;
  cb_on_parameters_unsubscribe : bool;
  cb_on_connection_graph_subscribe : bool;
  cb_on_connection_graph_unsubscribe : bool;
  cb_on_client_connect : bool;
  cb_on_client_disconnect : bool;
  cb_on_playback_control_request :
    option (FoxglovePlaybackControlRequest → FoxglovePlaybackState → FoxglovePlaybackState)
}.
(** A call of C. *)
Inductive CCall :=
| CallSubscribe (channel_id : Z) (client : FoxgloveClientMetadata)
| CallUnsubscribe (channel_id : Z) (client : FoxgloveClientMetadata)
| CallClientAdvertise (client_id : Z) (channel : FoxgloveClientChannel)
| CallMessageData (client_id client_channel_id : Z) (payload : list byte)
| CallClientUnadvertise (client_id client_channel_id : Z)
| CallParametersSubscribe (names : list CString)
| CallParametersUnsubscribe (names : list CString)
| CallConnectionGraphSubscribe
| CallConnectionGraphUnsubscribe
| CallClientConnect
| CallClientDisconnect.

(** [From<&str>], for a string that C reads. *)
Definition c_str (s : string) : CString := Some (as_bytes s).
Definition when (b : bool) (c : CCall) : list CCall := if b then [c] else [].
(** [CString::new(..).unwrap()]: a byte 0 ends a C string, and must not occur in it. *)
Definition CString_new {E} (s : string) : result E (list byte) :=
  if bool_decide (Byte.x00 ∈ as_bytes s) then Panic else Ok (as_bytes s ++ [Byte.x00]).

(** A client is known by its id, and by its sink while it lives. *)
Definition client_metadata (client : ClientId) (sink : option SinkId) : FoxgloveClientMetadata :=
  {| cm_id := client; cm_sink_id := default 0 sink |}.
Definition c_on_subscribe (self : FoxgloveServerCallbacks) (client : ClientId) (sink : option SinkId)
    (channel : ChannelId) : list CCall :=
  when (cb_on_subscribe self) (CallSubscribe channel (client_metadata client sink)).
Definition c_on_unsubscribe (self : FoxgloveServerCallbacks) (client : ClientId) (sink : option SinkId)
    (channel : ChannelId) : list CCall :=
  when (cb_on_unsubscribe self) (CallUnsubscribe channel (client_metadata client sink)).
Definition c_on_client_advertise (self : FoxgloveServerCallbacks) (client : ClientId)
    (channel : ClientChannel) : result string (list CCall) :=
  if negb (cb_on_client_advertise self) then Ok []
  else
    topic ← CString_new (cc_topic channel);
    encoding ← CString_new (cc_encoding channel);
    schema_name ← CString_new (cc_schema_name channel);
    schema_encoding ← match cc_schema_encoding channel with
                      | Some enc => enc ← CString_new enc; Ok (Some enc)
                      | None => Ok None
                      end;
    Ok [CallClientAdvertise client {|
      fcc_id := cc_id channel; fcc_topic := topic; fcc_encoding := encoding;
      fcc_schema_name := schema_name; fcc_schema_encoding := schema_encoding;
      fcc_schema := cc_schema channel;
      fcc_schema_len := from_option (λ schema, Z.of_nat (length schema)) 0 (cc_schema channel) |}].
Definition c_on_message_data (self : FoxgloveServerCallbacks) (client : ClientId)
    (channel : ClientChannel) (payload : list byte) : list CCall :=
  when (cb_on_message_data self) (CallMessageData client (cc_id channel) payload).
Definition c_on_client_unadvertise (self : FoxgloveServerCallbacks) (client : ClientId)
    (channel : ClientChannel) : list CCall :=
  when (cb_on_client_unadvertise self) (CallClientUnadvertise client (cc_id channel)).
Definition c_on_get_parameters (self : FoxgloveServerCallbacks) (client : ClientId)
    (param_names : list string) (request_id : option string) : list Param :=
  match cb_on_get_parameters self with
  | Some f => default [] (f client (request_id ≫= c_str) (c_str <$> param_names))
  | None => []
  end.
Definition c_on_set_parameters (self : FoxgloveServerCallbacks) (client : ClientId)
    (params : list Param) (request_id : option string) : list Param :=
  match cb_on_set_parameters self with
  | Some f => default [] (f client (request_id ≫= c_str) params)
  | None => []
  end.
Definition c_on_parameters_subscribe (self : FoxgloveServerCallbacks) (names : list string) : list CCall :=
  when (cb_on_parameters_subscribe self) (CallParametersSubscribe (c_str <$> names)).
Definition c_on_parameters_unsubscribe (self : FoxgloveServerCallbacks) (names : list string) : list CCall :=
  when (cb_on_parameters_unsubscribe self) (CallParametersUnsubscribe (c_str <$> names)).
Definition c_on_playback_control_request (self : FoxgloveServerCallbacks) (r : PlaybackControlRequest)
    : option PlaybackState :=
  f ← cb_on_playback_control_request self;
  let c_playback_control_request := {|
    fpc_playback_command := PlaybackCommand_as_u8 (pcr_playback_command r);
    fpc_playback_speed := pcr_playback_speed r;
    fpc_seek_time := pcr_seek_time r; fpc_request_id := c_str (pcr_request_id r) |} in
  let c_playback_state := {|
    fps_status := 0; fps_current_time := 0; fps_playback_speed := 0; fps_did_seek := false;
    fps_request_id := c_str (pcr_request_id r) |} in
  match FoxglovePlaybackState_to_native (f c_playback_control_request c_playback_state) with
  | Ok p => Some p
  | _ => None
  end.
(** The answers, as the server sees them. *)
Definition Listener_of (self : FoxgloveServerCallbacks) : Listener := {|
  Server.on_get_parameters := c_on_get_parameters self;
  Server.on_set_parameters := c_on_set_parameters self;
  Server.on_playback_control_request := c_on_playback_control_request self
|}.
(** What C hears of an effect of the server; [sink_of] is the sink of a client. *)
Definition c_hears (self : FoxgloveServerCallbacks) (sink_of : ClientId → option SinkId) (e : Effect)
    : result string (list CCall) :=
  match e with
  | EfSubscribe client channel _ => Ok (c_on_subscribe self client (sink_of client) channel)
  | EfUnsubscribe client channel _ => Ok (c_on_unsubscribe self client (sink_of client) channel)
  | EfClientAdvertise client channel => c_on_client_advertise self client channel
  | EfMessageData client channel payload => Ok (c_on_message_data self client channel payload)
  | EfClientUnadvertise client channel => Ok (c_on_client_unadvertise self client channel)
  | EfParametersSubscribe names => Ok (c_on_parameters_subscribe self names)
  | EfParametersUnsubscribe names => Ok (c_on_parameters_unsubscribe self names)
  | EfConnectionGraphSubscribe =>
    Ok (when (cb_on_connection_graph_subscribe self) CallConnectionGraphSubscribe)
  | EfConnectionGraphUnsubscribe =>
    Ok (when (cb_on_connection_graph_unsubscribe self) CallConnectionGraphUnsubscribe)
  | EfClientConnect => Ok (when (cb_on_client_connect self) CallClientConnect)
  | EfClientDisconnect => Ok (when (cb_on_client_disconnect self) CallClientDisconnect)
  | _ => Ok []
  end.
(** ** The process *)

(** [FoxgloveWebSocketServer] is an optional handle: its system and its port. *)
Inductive Box :=
| BServer (handle : option (nat * Z))
| BService (service : Service)
| BGraph (graph : ConnectionGraph)
| BParams (params : list Param)
| BServiceResponder (sys key : nat)
| BAssetResponder (sys key : nat).
Record Host := {
  h_boxes : gmap nat Box;
  h_systems : list System;  (* of every server that was started *)
  h_callbacks : list (option FoxgloveServerCallbacks);  (* their listeners *)
  h_next : nat;  (* the next pointer *)
  h_service_id : Z  (* the counter of [ServiceId::next] *)
}.
Definition Host_init : Host :=
  {| h_boxes := ∅; h_systems := []; h_callbacks := []; h_next := 1; h_service_id := 1 |}.

Definition CallM (A : Type) : Type := Host → result Undefined (A * Host).
#[global] Instance CallM_ret : MRet CallM := λ A a h, Ok (a, h).
#[global] Instance CallM_bind : MBind CallM := λ A B f m h, '(a, h) ← m h; f a h.
Definition ub {A} : CallM A := λ _, Err UndefinedBehaviour.
Definition panic {A} : CallM A := λ _, Panic.
Definition must {A} (o : option A) : CallM A := match o with Some a => mret a | None => ub end.
Definition set_boxes (b : gmap nat Box) (h : Host) : Host :=
  {| h_boxes := b; h_systems := h_systems h; h_callbacks := h_callbacks h; h_next := h_next h;
     h_service_id := h_service_id h |}.
Definition set_systems (l : list System) (h : Host) : Host :=
  {| h_boxes := h_boxes h; h_systems := l; h_callbacks := h_callbacks h; h_next := h_next h;
     h_service_id := h_service_id h |}.
Definition add_callbacks (cb : option FoxgloveServerCallbacks) (h : Host) : Host :=
  {| h_boxes := h_boxes h; h_systems := h_systems h; h_callbacks := h_callbacks h ++ [cb];
     h_next := h_next h; h_service_id := h_service_id h |}.

(** [Box::into_raw(Box::new(b))]. *)
Definition into_raw (b : Box) : CallM nat := λ h,
  Ok (h_next h, {| h_boxes := <[h_next h := b]> (h_boxes h); h_systems := h_systems h;
                   h_callbacks := h_callbacks h; h_next := S (h_next h); h_service_id := h_service_id h |}).
(** A reference made of a pointer, and [Box::from_raw]. *)
Definition deref {A} (as_a : Box → option A) (p : nat) : CallM A := λ h,
  must (h_boxes h !! p ≫= as_a) h.
Definition from_raw {A} (as_a : Box → option A) (p : option nat) : CallM A := λ h,
  match p with
  | Some p => match h_boxes h !! p ≫= as_a with
    | Some a => Ok (a, set_boxes (delete p (h_boxes h)) h)
    | None => Err UndefinedBehaviour
    end
  | None => Err UndefinedBehaviour
  end.
Definition assign (p : nat) (b : Box) : CallM unit := λ h, Ok (tt, set_boxes (<[p := b]> (h_boxes h)) h).
Definition as_server (b : Box) : option (option (nat * Z)) := match b with BServer o => Some o | _ => None end.
Definition as_service (b : Box) : option Service := match b with BService s => Some s | _ => None end.
Definition as_graph (b : Box) : option ConnectionGraph := match b with BGraph g => Some g | _ => None end.
Definition as_params (b : Box) : option (list Param) := match b with BParams l => Some l | _ => None end.
Definition as_service_responder (b : Box) : option (nat * nat) :=
  match b with BServiceResponder s k => Some (s, k) | _ => None end.
Definition as_asset_responder (b : Box) : option (nat * nat) :=
  match b with BAssetResponder s k => Some (s, k) | _ => None end.

(** An operation of the system [k]. *)
Definition on_system (k : nat) (f : System → result string System) : CallM unit := λ h,
  match h_systems h !! k with
  | Some s =>
    match f s with
    | Ok s => Ok (tt, set_systems (<[k := s]> (h_systems h)) h)
    | _ => Panic
    end
  | None => Err UndefinedBehaviour
  end.
(** One that fails with an error of the library. *)
Definition on_system_or_error (k : nat) (f : System → result FoxgloveError System) : CallM CError := λ h,
  match h_systems h !! k with
  | Some s =>
    match f s with
    | Ok s => Ok (COk, set_systems (<[k := s]> (h_systems h)) h)
    | Err e => Ok (CError_from e, h)
    | Panic => Panic
    end
  | None => Err UndefinedBehaviour
  end.

(** [std::slice::from_raw_parts]. *)
Definition from_raw_parts {A} (a : CArray A) : CallM (list A) :=
  match ca_items a with
  | Some l => if (ca_count a <=? length l)%nat then mret (take (ca_count a) l) else ub
  | None => ub
  end.
(** A [Result] that is known, and [?] on one. *)
Definition lift_error {A} (r : result FoxgloveError A) : CallM (result FoxgloveError A) :=
  match r with Panic => panic | _ => mret r end.
Definition try_ {A B} (m : CallM (result FoxgloveError A)) (f : A → CallM (result FoxgloveError B)) :
    CallM (result FoxgloveError B) :=
  r ← m; match r with Ok a => f a | Err e => mret (Err e) | Panic => panic end.
Definition fail {A} (e : FoxgloveError) : CallM (result FoxgloveError A) := mret (Err e).
(** The code of a [Result] without a value. *)
Definition code {A} (r : result FoxgloveError A) : CallM CError :=
  match r with Ok _ => mret COk | Err e => mret (CError_from e) | Panic => panic end.

(** ** Connection graphs *)

Definition foxglove_connection_graph_create (out_null : bool) : CallM (CError * option nat) :=
  if out_null then mret (CValueError, None)
  else p ← into_raw (BGraph ConnectionGraph_new); mret (COk, Some p).
Definition foxglove_connection_graph_free (graph : option nat) : CallM unit :=
  _ ← from_raw as_graph graph; mret tt.

(** The ids of an array: each is checked for null, then for UTF-8. *)
Fixpoint read_ids (l : list CString) : result FoxgloveError (list string) :=
  match l with
  | [] => Ok []
  | id :: l =>
    match id with None => Err (ValueError "encountered a null id") | Some _ => Ok tt end ≫= λ _,
    s ← utf8_or "id is invalid" id;
    rest ← read_ids l;
    Ok (s :: rest)
  end.
(** The three setters differ in [set]. *)
Definition do_set_ids (set : string → list string → ConnectionGraph → ConnectionGraph)
    (graph : nat) (name : CString) (ids : CArray CString) : CallM (result FoxgloveError unit) :=
  g ← deref as_graph graph;
  try_ (mret (utf8_or "name is invalid" name)) (λ name,
  if (0 <? ca_count ids)%nat then
    match ca_items ids with
    | None => fail (ValueError "ids is null")
    | Some _ =>
      l ← from_raw_parts ids;
      try_ (mret (read_ids l)) (λ strings,
      _ ← assign graph (BGraph (set name strings g)); mret (Ok tt))
    end
  else mret (Ok tt)).
Definition do_foxglove_connection_graph_set_published_topic := do_set_ids set_published_topic.
Definition do_foxglove_connection_graph_set_subscribed_topic := do_set_ids set_subscribed_topic.
Definition do_foxglove_connection_graph_set_advertised_service := do_set_ids set_advertised_service.
Definition foxglove_connection_graph_set_published_topic (graph : nat) (topic : CString)
    (publisher_ids : CArray CString) : CallM CError :=
  r ← do_foxglove_connection_graph_set_published_topic graph topic publisher_ids; code r.
Definition foxglove_connection_graph_set_subscribed_topic (graph : nat) (topic : CString)
    (subscriber_ids : CArray CString) : CallM CError :=
  r ← do_foxglove_connection_graph_set_subscribed_topic graph topic subscriber_ids; code r.
Definition foxglove_connection_graph_set_advertised_service (graph : nat) (service : CString)
    (provider_ids : CArray CString) : CallM CError :=
  r ← do_foxglove_connection_graph_set_advertised_service graph service provider_ids; code r.

(** ** Services *)

(** [ServiceId::next] panics when the ids are used up. *)
Definition next_service_id : CallM ServiceId := λ h,
  match ServiceId_next (h_service_id h) with
  | Ok (id, counter) => Ok (id, {| h_boxes := h_boxes h; h_systems := h_systems h; h_callbacks := h_callbacks h;
                                   h_next := h_next h; h_service_id := counter |})
  | _ => Panic
  end.
Definition foxglove_service_create (out_null : bool) (name : CString)
    (schema : option FoxgloveServiceSchema) (callback : bool) : CallM (CError * option nat) :=
  if out_null then mret (CValueError, None)
  else match as_utf8_str name with
  | None => mret (CUtf8Error, None)
  | Some name =>
    match schema with
    | None => mret (CValueError, None)
    | Some schema =>
      match FoxgloveServiceSchema_to_native schema with
      | Err e => mret (CError_from e, None)
      | Panic => panic
      | Ok schema =>
        if callback then
          id ← next_service_id;
          p ← into_raw (BService {| svc_id := id; svc_name := name; svc_schema := schema |});
          mret (COk, Some p)
        else mret (CValueError, None)
      end
    end
  end.
Definition foxglove_service_free (service : option nat) : CallM unit :=
  match service with
  | Some _ => _ ← from_raw as_service service; mret tt
  | None => mret tt
  end.

(** ** Responders *)

Definition foxglove_service_set_response_encoding (responder : option nat) (encoding : CString)
    : CallM CError :=
  match responder with
  | None => mret CValueError
  | Some responder =>
    r ← deref as_service_responder responder;
    match as_utf8_str encoding with
    | None => mret CUtf8Error
    | Some encoding => _ ← on_system r.1 (λ s, Ok (set_encoding r.2 encoding s)); mret COk
    end
  end.
Definition respond_with (r : nat * nat) (res : Response) : CallM unit :=
  on_system r.1 (λ s, Ok (respond r.2 res s)).
(** The message of an error response. *)
Definition error_text (message : CString) : string :=
  match as_utf8_str message with
  | Some s => s
  | None => "Server produced an invalid error message: " +:+ display_utf8 (default [] message)
  end.
Definition foxglove_service_respond_ok (responder : option nat) (data : FoxgloveBytes) : CallM unit :=
  r ← from_raw as_service_responder responder;
  data ← from_raw_parts data;
  respond_with r (RespondOk data).
Definition foxglove_service_respond_error (responder : option nat) (message : CString) : CallM unit :=
  r ← from_raw as_service_responder responder;
  respond_with r (RespondErr (error_text message)).
Definition foxglove_fetch_asset_respond_ok (responder : option nat) (data : FoxgloveBytes) : CallM unit :=
  r ← from_raw as_asset_responder responder;
  data ← from_raw_parts data;
  respond_with r (RespondOk data).
Definition foxglove_fetch_asset_respond_error (responder : option nat) (message : CString) : CallM unit :=
  r ← from_raw as_asset_responder responder;
  respond_with r (RespondErr (error_text message)).

(** ** Starting a server *)

Record FoxgloveKeyValue := { kv_key : CString; kv_value : CString }.
Record FoxgloveServerOptions := {
  fso_context : option nat;
  fso_name : CString;
  fso_host : CString;
  fso_port : Z;
  fso_callbacks : option FoxgloveServerCallbacks;
  fso_capabilities : Z;
  fso_supported_encodings : CArray CString;
  fso_server_info : CArray FoxgloveKeyValue;
  fso_fetch_asset : bool;
  fso_tls_cert : CArray byte;
  fso_tls_key : CArray byte;
  fso_sink_channel_filter : option (ChannelDescriptor → bool);
  fso_playback_start_time : option Z;
  fso_playback_end_time : option Z;
  fso_session_id : option CString
}.

(** What the clock and the contexts are when a server is started. *)
Record Moment := {
  mo_generated : string;  (* [generate_session_id] *)
  mo_contexts : option nat → ContextInner * World
}.

Fixpoint read_encodings (l : list CString) : result FoxgloveError (list string) :=
  match l with
  | [] => Ok []
  | enc :: l =>
    match enc with
    | None => Err (ValueError "encoding in supported_encodings is null")
    | Some _ => Ok tt
    end ≫= λ _,
    s ← utf8_or "encoding in supported_encodings is invalid" enc;
    rest ← read_encodings l;
    Ok (s :: rest)
  end.
Definition read_supported_encodings (a : CArray CString) (server : WebSocketServer) :
    CallM (result FoxgloveError WebSocketServer) :=
  if (0 <? ca_count a)%nat then
    match ca_items a with
    | None => fail (ValueError "supported_encodings is null")
    | Some _ =>
      l ← from_raw_parts a;
      try_ (mret (read_encodings l)) (λ encodings, mret (Ok (Builder.supported_encodings encodings server)))
    end
  else mret (Ok server).

Definition read_tls (cert_data key_data : CArray byte) (server : WebSocketServer) :
    CallM (result FoxgloveError WebSocketServer) :=
  match ca_items cert_data, ca_items key_data with
  | None, None => mret (Ok server)
  | Some _, Some _ =>
    if (ca_count cert_data =? 0)%nat || (ca_count key_data =? 0)%nat then
      fail (ValueError "Invalid TLS configuration (empty certificate or key)")
    else
      cert ← from_raw_parts cert_data;
      key ← from_raw_parts key_data;
      mret (Ok (Builder.tls {| cert := cert; key := key |} server))
  | _, _ => fail (ValueError "Invalid TLS configuration (null pointer)")
  end.

(** The loop reads the entries one by one. *)
Fixpoint read_info (l : list FoxgloveKeyValue) (n : nat) (info : gmap string string) {struct n} :
    CallM (result FoxgloveError (gmap string string)) :=
  match n with
  | O => mret (Ok info)
  | S n =>
    match l with
    | [] => ub
    | kv :: l =>
      match kv_key kv, kv_value kv with
      | Some _, Some _ =>
        try_ (mret (utf8_or "" (kv_key kv))) (λ k,
        try_ (mret (utf8_or "" (kv_value kv))) (λ v, read_info l n (<[k := v]> info)))
      | _, _ => fail (ValueError "null key or value in server_info")
      end
    end
  end.
Definition read_server_info (a : CArray FoxgloveKeyValue) (server : WebSocketServer) :
    CallM (result FoxgloveError WebSocketServer) :=
  if (0 <? ca_count a)%nat then
    match ca_items a with
    | None => fail (ValueError "server_info is null")
    | Some l => try_ (read_info l (ca_count a) ∅) (λ info, mret (Ok (Builder.server_info info server)))
    end
  else mret (Ok server).

Definition read_session_id (id : option CString) (server : WebSocketServer) :
    result FoxgloveError WebSocketServer :=
  match id with
  | Some None => Err (ValueError "session_id is null")
  | Some id => s ← utf8_or "session_id is invalid" id; Ok (Builder.session_id s server)
  | None => Ok server
  end.

(** [server = server.f(x)], if there is an [x]. *)
Definition apply_if {A B} (f : A → B → B) (x : option A) (server : B) : B :=
  match x with Some x => f x server | None => server end.

(** The builder, up to [start_blocking]. *)
Definition configure (options : FoxgloveServerOptions) (generated : string) :
    CallM (result FoxgloveError WebSocketServer) :=
  try_ (mret (utf8_or "name is invalid" (fso_name options))) (λ name,
  try_ (mret (utf8_or "host is invalid" (fso_host options))) (λ host,
  let server := Builder.bind host (fso_port options)
    (Builder.capabilities (iter_websocket_capabilities (fso_capabilities options))
      (Builder.name name (Builder.WebSocketServer_new generated))) in
  try_ (read_supported_encodings (fso_supported_encodings options) server) (λ server,
  let server := apply_if (λ callbacks, Builder.listener (Listener_of callbacks))
                  (fso_callbacks options) server in
  let server := if fso_fetch_asset options then Builder.fetch_asset_handler server else server in
  let server := apply_if Builder.channel_filter (fso_sink_channel_filter options) server in
  let server := match fso_context options with
                | Some ctx => Builder.context (Some ctx) server
                | None => server
                end in
  try_ (read_tls (fso_tls_cert options) (fso_tls_key options) server) (λ server,
  try_ (read_server_info (fso_server_info options) server) (λ server,
  let server := match fso_playback_start_time options, fso_playback_end_time options with
                | Some t, Some u => Builder.playback_time_range t u server
                | _, _ => server
                end in
  mret (read_session_id (fso_session_id options) server)))))).

(** The new system gets the next index; the box has the handle. *)
Definition do_foxglove_server_start (options : FoxgloveServerOptions) (now : Moment) :
    CallM (result FoxgloveError nat) :=
  try_ (configure options (mo_generated now)) (λ server,
  try_ (lift_error (start_blocking (mo_contexts now) (mo_generated now) server)) (λ '(s, port),
  h ← (λ h, Ok (h, h));
  _ ← (λ h, Ok (tt, add_callbacks (fso_callbacks options) (set_systems (h_systems h ++ [s]) h)));
  p ← into_raw (BServer (Some (length (h_systems h), port)));
  mret (Ok p))).
Definition foxglove_server_start (options : FoxgloveServerOptions) (now : Moment) (out_null : bool) :
    CallM (CError * option nat) :=
  r ← do_foxglove_server_start options now;
  match result_to_c r out_null with Ok x => mret x | _ => panic end.

(** ** Using a server *)

(** [let Some(server) = server else ..] and [let Some(server) = server.as_ref() else ..]. *)
Definition with_handle (server : nat) (f : nat * Z → CallM CError) : CallM CError :=
  h ← deref as_server server;
  match h with Some h => f h | None => mret CSinkClosed end.

Definition foxglove_server_broadcast_time (server : option nat) (timestamp_nanos : Z) : CallM CError :=
  match server with
  | None => mret CValueError
  | Some server => with_handle server (λ h,
    _ ← on_system h.1 (λ s, Ok (broadcast_time timestamp_nanos s)); mret COk)
  end.
Definition foxglove_server_broadcast_playback_state (server : option nat)
    (playback_state : option FoxglovePlaybackState) : CallM CError :=
  match server with
  | None => mret CValueError
  | Some server => with_handle server (λ h,
    match playback_state with
    | None => mret CValueError
    | Some playback_state =>
      match FoxglovePlaybackState_to_native playback_state with
      | Ok p => _ ← on_system h.1 (λ s, Ok (broadcast_playback_state p s)); mret COk
      | Err e => mret (CError_from e)
      | Panic => panic
      end
    end)
  end.
(** [version] is [get_library_version()]. *)
Definition foxglove_server_clear_session (version generated : string) (server : option nat)
    (session_id : option CString) : CallM CError :=
  match server with
  | None => mret CValueError
  | Some server => with_handle server (λ h,
    let session_id := match session_id with
                      | Some id => match as_utf8_str id with Some id => Some (Some id) | None => None end
                      | None => Some None
                      end in
    match session_id with
    | None => mret CUtf8Error
    | Some session_id => _ ← on_system h.1 (λ s, Ok (clear_session version generated session_id s)); mret COk
    end)
  end.
Definition foxglove_server_add_service (server service : option nat) : CallM CError :=
  match server with
  | None => mret CValueError
  | Some server =>
    match service with
    | None => mret CValueError
    | Some _ => with_handle server (λ h,
      service ← from_raw as_service service;
      on_system_or_error h.1 (add_services [service]))
    end
  end.
Definition foxglove_server_remove_service (server : option nat) (service_name : CString) : CallM CError :=
  match server with
  | None => mret CValueError
  | Some server => with_handle server (λ h,
    match as_utf8_str service_name with
    | None => mret CUtf8Error
    | Some service_name => _ ← on_system h.1 (λ s, Ok (remove_services [service_name] s)); mret COk
    end)
  end.
Definition foxglove_server_get_port (server : option nat) : CallM Z :=
  match server with
  | None => mret 0
  | Some server => h ← deref as_server server; mret (from_option snd 0 h)
  end.
Definition count_clients (k : nat) : CallM nat := λ h,
  match h_systems h !! k with
  | Some s => Ok (client_count s, h)
  | None => Err UndefinedBehaviour
  end.
Definition foxglove_server_get_client_count (server : option nat) : CallM nat :=
  match server with
  | None => mret 0%nat
  | Some server =>
    h ← deref as_server server;
    match h with
    | None => mret 0%nat
    | Some h => count_clients h.1
    end
  end.
Definition foxglove_server_stop (server : option nat) : CallM CError :=
  match server with
  | None => mret CValueError
  | Some _ =>
    h ← from_raw as_server server;
    match h with
    | None => mret CSinkClosed
    | Some h => _ ← on_system h.1 handle_stop; mret COk
    end
  end.
Definition foxglove_server_publish_parameter_values (server params : option nat) : CallM CError :=
  match params with
  | None => mret CValueError
  | Some _ =>
    l ← from_raw as_params params;
    match server with
    | None => mret CValueError
    | Some server => with_handle server (λ h,
      _ ← on_system h.1 (λ s, Ok (publish_parameter_values l s)); mret COk)
    end
  end.
Definition foxglove_server_publish_connection_graph (server graph : option nat) : CallM CError :=
  match server with
  | None => mret CValueError
  | Some server =>
    match graph with
    | None => mret CValueError
    | Some graph => with_handle server (λ h,
      g ← deref as_graph graph;
      on_system_or_error h.1 (replace_connection_graph g))
    end
  end.
Definition foxglove_server_publish_status (server : option nat) (level : FoxgloveServerStatusLevel)
    (message : CString) (id : option CString) : CallM CError :=
  match server with
  | None => mret CValueError
  | Some server => with_handle server (λ h,
    match as_utf8_str message with
    | None => mret CUtf8Error
    | Some message =>
      let id := match id with
                | Some id => match as_utf8_str id with Some id => Some (Some id) | None => None end
                | None => Some None
                end in
      match id with
      | None => mret CUtf8Error
      | Some id =>
        let status := {| st_level := StatusLevel_from level; st_message := message; st_id := id |} in
        _ ← on_system h.1 (publish_status status); mret COk
      end
    end)
  end.
Definition foxglove_server_remove_status (server : option nat) (ids : CArray CString) : CallM CError :=
  match server with
  | None => mret CValueError
  | Some server => with_handle server (λ h,
    match ca_items ids with
    | None => mret CValueError
    | Some _ =>
      l ← from_raw_parts ids;
      match mapM as_utf8_str l with
      | None => mret CUtf8Error
      | Some ids => _ ← on_system h.1 (λ s, Ok (remove_status ids s)); mret COk
      end
    end)
  end.

(** ** What happens between the calls *)

(** What a handler in C is told of a request. *)
Record FoxgloveServiceRequest := {
  fsr_service_name : CString;
  fsr_client_id : Z;
  fsr_call_id : Z;
  fsr_encoding : CString;
  fsr_payload : FoxgloveBytes
}.
Definition FoxgloveServiceRequest_from (req : Request) : FoxgloveServiceRequest := {|
  fsr_service_name := c_str (svc_name (rq_service req)); fsr_client_id := rq_client_id req;
  fsr_call_id := rq_call_id req; fsr_encoding := c_str (rq_encoding req);
  fsr_payload := {| ca_items := Some (rq_payload req); ca_count := length (rq_payload req) |} |}.

(** [Handler::call] and [AssetHandler::fetch]: a new responder goes to a box, for C. *)
Definition box_of (k key : nat) (r : Responder) : Box :=
  match r with ServiceResponder _ => BServiceResponder k key | AssetResponder _ => BAssetResponder k key end.
Fixpoint call_handlers (boxes : list Box) : CallM (list nat) :=
  match boxes with
  | [] => mret []
  | b :: boxes => p ← into_raw b; ps ← call_handlers boxes; mret (p :: ps)
  end.
(** What the clients of a server, and the threads that log in its context, do. *)
Definition background (op : SysOp) : bool :=
  match op with
  | SysConnect _ _ _ | SysMessage _ _ | SysClosed _ | SysPollSend _ _ | SysContext _
  | SysLog _ _ _ _ _ _ => true
  | _ => false
  end.
(** The listener is called for each effect of the server, in order. *)
Fixpoint hear (self : FoxgloveServerCallbacks) (sink_of : ClientId → option SinkId) (l : list Effect)
    : result string (list CCall) :=
  match l with
  | [] => Ok []
  | e :: l => heard ← c_hears self sink_of e; rest ← hear self sink_of l; Ok (heard ++ rest)
  end.
(** The sink of a client before or after what happens; a client that goes is alive while
    its listener is called. *)
Definition sink_of (s s' : System) (client : ClientId) : option SinkId :=
  cl_sink_id <$> union (sys_clients s' !! client) (sys_clients s !! client).
(** It happens in the system [k]; C hears of it, and the handlers in C get these
    pointers.  A panic of a callback ends the task it runs in, and the run. *)
Definition happens (display : ParseError → string) (k : nat) (op : SysOp) : CallM (list nat * list CCall) := λ h,
  match h_systems h !! k with
  | Some s =>
    match run_sys display op s with
    | Ok s' =>
      let heard := match mjoin (h_callbacks h !! k) with
                   | Some self => hear self (sink_of s s') (drop (length (sys_effects s)) (sys_effects s'))
                   | None => Ok []
                   end in
      match heard with
      | Ok heard =>
        let old := length (sys_responders s) in
        '(ps, h) ← call_handlers (imap (λ i, box_of k (old + i)) (drop old (sys_responders s')))
          (set_systems (<[k := s']> (h_systems h)) h);
        Ok (ps, heard, h)
      | _ => Panic
      end
    | _ => Panic
    end
  | None => Err UndefinedBehaviour
  end.

(** ** Programs *)

(** The calls of a program. *)
Inductive ServerCall :=
| GraphCreate (out_null : bool)
| GraphFree (graph : option nat)
| SetPublishedTopic (graph : nat) (topic : CString) (ids : CArray CString)
| SetSubscribedTopic (graph : nat) (topic : CString) (ids : CArray CString)
| SetAdvertisedService (graph : nat) (service : CString) (ids : CArray CString)
| ServiceCreate (out_null : bool) (name : CString) (schema : option FoxgloveServiceSchema) (callback : bool)
| ServiceFree (service : option nat)
| SetResponseEncoding (responder : option nat) (encoding : CString)
| ServiceRespondOk (responder : option nat) (data : FoxgloveBytes)
| ServiceRespondError (responder : option nat) (message : CString)
| AssetRespondOk (responder : option nat) (data : FoxgloveBytes)
| AssetRespondError (responder : option nat) (message : CString)
| ParamsFinished (params : list Param)
| ServerStart (options : FoxgloveServerOptions) (now : Moment) (out_null : bool)
| BroadcastTime (server : option nat) (timestamp : Z)
| BroadcastPlayback (server : option nat) (state : option FoxglovePlaybackState)
| ClearSession (version generated : string) (server : option nat) (id : option CString)
| AddService (server service : option nat)
| RemoveService (server : option nat) (name : CString)
| GetPort (server : option nat)
| GetClientCount (server : option nat)
| ServerStop (server : option nat)
| PublishParams (server params : option nat)
| PublishGraph (server graph : option nat)
| PublishStatus (server : option nat) (level : FoxgloveServerStatusLevel) (message : CString)
    (id : option CString)
| RemoveStatuses (server : option nat) (ids : CArray CString).
Inductive ServerAnswer :=
| RCode (e : CError) | RMade (e : CError) (p : option nat) | RUnit | RPort (port : Z) | RCount (n : nat)
| RHandlers (responders : list nat) (heard : list CCall).

Definition answer_with {A} (f : A → ServerAnswer) (m : CallM A) : CallM ServerAnswer := a ← m; mret (f a).
Definition made : CError * option nat → ServerAnswer := λ '(e, p), RMade e p.
Definition run_call (c : ServerCall) : CallM ServerAnswer :=
  match c with
  | GraphCreate o => answer_with made (foxglove_connection_graph_create o)
  | GraphFree g => answer_with (λ _, RUnit) (foxglove_connection_graph_free g)
  | SetPublishedTopic g t l => answer_with RCode (foxglove_connection_graph_set_published_topic g t l)
  | SetSubscribedTopic g t l => answer_with RCode (foxglove_connection_graph_set_subscribed_topic g t l)
  | SetAdvertisedService g t l => answer_with RCode (foxglove_connection_graph_set_advertised_service g t l)
  | ServiceCreate o n s c => answer_with made (foxglove_service_create o n s c)
  | ServiceFree s => answer_with (λ _, RUnit) (foxglove_service_free s)
  | SetResponseEncoding r e => answer_with RCode (foxglove_service_set_response_encoding r e)
  | ServiceRespondOk r d => answer_with (λ _, RUnit) (foxglove_service_respond_ok r d)
  | ServiceRespondError r m => answer_with (λ _, RUnit) (foxglove_service_respond_error r m)
  | AssetRespondOk r d => answer_with (λ _, RUnit) (foxglove_fetch_asset_respond_ok r d)
  | AssetRespondError r m => answer_with (λ _, RUnit) (foxglove_fetch_asset_respond_error r m)
  | ParamsFinished l => answer_with (λ p, RMade COk (Some p)) (into_raw (BParams l))
  | ServerStart o now out => answer_with made (foxglove_server_start o now out)
  | BroadcastTime s t => answer_with RCode (foxglove_server_broadcast_time s t)
  | BroadcastPlayback s p => answer_with RCode (foxglove_server_broadcast_playback_state s p)
  | ClearSession v g s i => answer_with RCode (foxglove_server_clear_session v g s i)
  | AddService s v => answer_with RCode (foxglove_server_add_service s v)
  | RemoveService s n => answer_with RCode (foxglove_server_remove_service s n)
  | GetPort s => answer_with RPort (foxglove_server_get_port s)
  | GetClientCount s => answer_with RCount (foxglove_server_get_client_count s)
  | ServerStop s => answer_with RCode (foxglove_server_stop s)
  | PublishParams s p => answer_with RCode (foxglove_server_publish_parameter_values s p)
  | PublishGraph s g => answer_with RCode (foxglove_server_publish_connection_graph s g)
  | PublishStatus s l m i => answer_with RCode (foxglove_server_publish_status s l m i)
  | RemoveStatuses s l => answer_with RCode (foxglove_server_remove_status s l)
  end.
(** A program is a sequence of calls, and of what happens between them. *)
Inductive ServerStep := Calls (c : ServerCall) | Happens (k : nat) (op : SysOp).
Definition run_step (display : ParseError → string) (e : ServerStep) : CallM ServerAnswer :=
  match e with
  | Calls c => run_call c
  | Happens k op => answer_with (λ x, RHandlers x.1 x.2) (happens display k op)
  end.
Fixpoint run_calls (display : ParseError → string) (steps : list ServerStep) (h : Host) :
    result Undefined (list ServerAnswer * Host) :=
  match steps with
  | [] => Ok ([], h)
  | e :: steps =>
    '(a, h) ← run_step display e h;
    '(l, h) ← run_calls display steps h;
    Ok (a :: l, h)
  end.
End capi.
