(* ===== verification/CServerProofs.v ===== *)
(** * CServerProofs: C programs that run servers

    Theorems about CServer.v: programs that keep the ownership rules are safe, and
    every responder that C holds is the only way to answer its request
    ([c_servers_safe]); calls that fail change nothing ([failed_calls_change_nothing]);
    what a server is started with ([server_start_spec]); and what clients advertise,
    as C sees it ([client_advertise_reads]). *)

From S2P Require Import Prelude Bytes Messages Wire WireProofs ConnectionGraph Channel.
From S2P Require Import Subscriptions Context Advertise Services Token Outbox Client Server.
From S2P Require Import Session SessionProofs CError CChannel WebSocketServer CServer.
Local Open Scope Z_scope.

(** ** Responders that wait *)

(** The kind of a responder that has not responded. *)
Definition awaits (l : list Responder) (key : nat) : option bool :=
  match l !! key with
  | Some (ServiceResponder (Some _)) => Some true
  | Some (AssetResponder (Some _)) => Some false
  | _ => None
  end.
Definition unanswered (r : Responder) : bool :=
  match r with ServiceResponder o => bool_decide (is_Some o) | AssetResponder o => bool_decide (is_Some o) end.

Section proofs.
Context `{HF : Flume} `{HM : BiMap} `{HB : Buf} `{HJ : Json} `{H64 : Base64}.
Context `{!FlumeLaws} `{!BiMapLaws} `{!BufLaws}.
Context `{Net} `{Bitflags}.
Implicit Types s : System.
Implicit Types h : Host.

(** [sys_inv] does not mention the listener's answers or the effects. *)
Record grows s s' : Prop := {
  gr_tasks : sv_tasks (sys_server s') = sv_tasks (sys_server s);
  gr_responders : ∃ new, sys_responders s' = sys_responders s ++ new ∧ forallb unanswered new = true
}.
Lemma grows_refl s : grows s s.
Proof. split; [done|]. exists []. by rewrite app_nil_r. Qed.
Lemma calm_grows s s' : calm s s' → grows s s'.
Proof. intros [_ [_ _ _ Ht] Hr _]. split; [done|]. exists []. by rewrite app_nil_r. Qed.
Definition grown s (r : result string System) : Prop := ∃ s', r = Ok s' ∧ grows s s'.
Lemma calmly_grown s r : calmly s r → grown s r.
Proof. intros (s' & -> & Hs). exists s'. split; [done|by apply calm_grows]. Qed.
Lemma grown_calm s s' : calm s s' → grown s (Ok s').
Proof. intros. by apply calmly_grown, calmly_Ok. Qed.

Lemma service_call_grows id m s : grows s (on_service_call id m s).
Proof.
  unfold on_service_call. destruct (negb _); [apply calm_grows, calm_send|].
  destruct (get_service _ _); [|apply calm_grows, calm_send].
  destruct (negb _); [apply calm_grows, calm_send|].
  destruct (sys_clients s !! id) as [c|]; [|apply grows_refl].
  destruct (cl_service_call_sem c); [apply calm_grows, calm_send|]. split; [done|]. by eexists [_].
Qed.
Lemma fetch_asset_grows id uri rid s : grows s (on_fetch_asset id uri rid s).
Proof.
  unfold on_fetch_asset. destruct (negb _); [apply calm_grows, calm_send|].
  destruct (sys_clients s !! id) as [c|]; [|apply grows_refl].
  destruct (cl_fetch_asset_sem c); [apply calm_grows, calm_send|].
  destruct (sv_fetch_asset_handler _); [|apply calm_grows, calm_send]. split; [done|]. by eexists [_].
Qed.
Lemma dispatch_message_grows id m s : live_all s → grown s (dispatch_message id m s).
Proof.
  intros Hl. destruct m; cbn [dispatch_message].
  - by apply calmly_grown, calmly_on_subscribe.
  - by apply calmly_grown, calmly_on_unsubscribe.
  - apply grown_calm, calm_on_advertise.
  - apply calmly_grown, calmly_on_unadvertise.
  - apply grown_calm, calm_on_message_data.
  - apply grown_calm, calm_on_get_parameters.
  - apply grown_calm, calm_on_set_parameters.
  - apply grown_calm, calm_on_parameters_subscribe.
  - apply grown_calm, calm_on_parameters_unsubscribe.
  - eexists. split; [done|]. apply service_call_grows.
  - apply grown_calm, calm_on_graph_subscribe.
  - apply grown_calm, calm_on_graph_unsubscribe.
  - eexists. split; [done|]. apply fetch_asset_grows.
  - apply grown_calm, calm_on_playback.
Qed.
Lemma handle_message_grows display id msg s s' :
  live_all s → handle_message display id msg s = Ok s' → grows s s'.
Proof.
  intros Hl. unfold handle_message. destruct (ClientMessage_try_from msg) as [m|e|]; [| |done].
  - destruct (dispatch_message_grows id m s Hl) as (s1 & -> & Hs). by intros [= <-].
  - destruct e; intros [= <-]; try apply grows_refl; apply calm_grows, calm_send.
Qed.
Lemma run_background n display op s : sys_inv n s → background op = true → Z.of_nat n + 2 < 2 ^ 32 →
  ∃ s', run_sys display op s = Ok s' ∧ sys_inv (S n) s' ∧ grows s s'.
Proof.
  intros Hi Hb Hn. pose proof (sys_inv_live n s Hi) as Hl.
  destruct (run_sys_inv n display op s Hi) as (s' & E & Hi'); [by destruct op|done|].
  exists s'. split; [done|]. split; [done|]. revert E.
  assert (∀ r, grown s r → r = Ok s' → grows s s') as Hg.
  { intros r (s1 & -> & Hs). by intros [= <-]. }
  destruct op; try done; cbn [run_sys].
  - destruct (handle_connection_spec n version offered_token info_sent s Hi Hn) as (s1 & -> & _ & Er & Et).
    intros [= <-]. split; [done|]. exists []. by rewrite app_nil_r.
  - destruct (decide _); [by apply handle_message_grows|]. intros [= <-]. apply grows_refl.
  - destruct (decide _); [by apply Hg, calmly_grown, calmly_closed|]. intros [= <-]. apply grows_refl.
  - apply Hg, grown_calm, calm_poll.
  - by apply Hg, calmly_grown, calmly_run_context.
  - by apply Hg, calmly_grown, calmly_run_context.
Qed.

(** ** The invariant *)

Definition waits h (b : Box) : Prop :=
  match b with
  | BServiceResponder k key => ∃ s, h_systems h !! k = Some s ∧ awaits (sys_responders s) key = Some true
  | BAssetResponder k key => ∃ s, h_systems h !! k = Some s ∧ awaits (sys_responders s) key = Some false
  | _ => False
  end.
Definition is_responder (b : Box) : bool :=
  match b with BServiceResponder _ _ | BAssetResponder _ _ => true | _ => false end.
Definition is_server (b : Box) : bool := match b with BServer _ => true | _ => false end.

(** The handle of a box is there and its server runs; no other box has it.  The boxes
    of responders are, one each, the responders that have not responded. *)
Record host_inv (n : nat) h : Prop := {
  hi_next : ∀ p, is_Some (h_boxes h !! p) → (p < h_next h)%nat;
  hi_ids : 1 ≤ h_service_id h ≤ Z.of_nat n + 1;
  hi_systems : ∀ k s, h_systems h !! k = Some s → sys_inv n s;
  hi_server : ∀ p o, h_boxes h !! p = Some (BServer o) →
    ∃ k port s, o = Some (k, port) ∧ h_systems h !! k = Some s ∧ sv_tasks (sys_server s) = true;
  hi_one : ∀ p q k port port', h_boxes h !! p = Some (BServer (Some (k, port))) →
    h_boxes h !! q = Some (BServer (Some (k, port'))) → p = q;
  hi_waits : ∀ p b, h_boxes h !! p = Some b → is_responder b = true → waits h b;
  hi_boxed : ∀ b, waits h b → ∃ p, h_boxes h !! p = Some b;
  hi_unique : ∀ p q b, h_boxes h !! p = Some b → h_boxes h !! q = Some b → is_responder b = true → p = q
}.

Lemma host_init_inv : host_inv 0 Host_init.
Proof.
  split; [by intros p [b Hb]|done|done|by intros p o Hb|by intros p q k port port' Hb|by intros p b Hb| |
    by intros p q b Hb].
  intros []; cbn; try done; by intros (s & Hs & _).
Qed.
Lemma waits_systems h h' b : h_systems h' = h_systems h → waits h' b ↔ waits h b.
Proof. intros E. destruct b; cbn; by rewrite ?E. Qed.
Lemma host_inv_mono n m h : (n ≤ m)%nat → host_inv n h → host_inv m h.
Proof.
  intros Hle [? ? Hs ? ? ? ? ?]. split; try done; [lia|]. intros k s Hk. apply (sys_inv_mono n); [done|].
  by eapply Hs.
Qed.

(** Boxes of other kinds come and go. *)
Lemma inv_boxes n h h' : host_inv n h → h_systems h' = h_systems h →
  1 ≤ h_service_id h' ≤ Z.of_nat n + 1 → (∀ p, is_Some (h_boxes h' !! p) → (p < h_next h')%nat) →
  (∀ p b, is_responder b || is_server b = true → h_boxes h' !! p = Some b ↔ h_boxes h !! p = Some b) →
  host_inv n h'.
Proof.
  intros [I1 I2 I3 I4 I5 I6 I7 I8] Es Hid Hnx Hb.
  assert (∀ p b, is_responder b = true → h_boxes h' !! p = Some b ↔ h_boxes h !! p = Some b) as Hr.
  { intros p b Hb'. apply Hb. by rewrite Hb'. }
  split; try done; rewrite ?Es.
  - done.
  - intros p o Hp. apply Hb in Hp; [|done]. eauto.
  - intros p q k port port' Hp Hq. apply Hb in Hp; [|done]. apply Hb in Hq; [|done]. eauto.
  - intros p b Hp Hb'. rewrite (waits_systems h h') by done. eapply I6; [by apply Hr|done].
  - intros b. rewrite (waits_systems h h') by done. intros Hw. destruct (I7 b Hw) as [p Hp].
    exists p. apply Hr; [by destruct b|done].
  - intros p q b Hp Hq Hb'. apply Hr in Hp; [|done]. apply Hr in Hq; [|done]. eauto.
Qed.
(** A system changes. *)
Lemma inv_system_any n m h k s s' : host_inv n h → (n ≤ m)%nat → h_systems h !! k = Some s → sys_inv m s' →
  (∀ p port, h_boxes h !! p = Some (BServer (Some (k, port))) → sv_tasks (sys_server s') = true) →
  (∀ key, awaits (sys_responders s') key = awaits (sys_responders s) key) →
  host_inv m (set_systems (<[k := s']> (h_systems h)) h).
Proof.
  intros Hi Hle Hk Hs' Ht Ha. apply (host_inv_mono n m) in Hi; [|done].
  destruct Hi as [I1 I2 I3 I4 I5 I6 I7 I8].
  pose proof (lookup_lt_Some _ _ _ Hk) as Hlt.
  assert (∀ b, waits (set_systems (<[k := s']> (h_systems h)) h) b ↔ waits h b) as Hw.
  { assert (∀ k' key o, (∃ s, <[k := s']> (h_systems h) !! k' = Some s ∧ awaits (sys_responders s) key = o) ↔
      ∃ s, h_systems h !! k' = Some s ∧ awaits (sys_responders s) key = o) as E.
    { intros k' key o. destruct (decide (k' = k)) as [->|Hne].
      - rewrite list_lookup_insert_eq, Hk by done.
        split; intros (s1 & [= <-] & <-); eexists; (split; [done|]); [symmetry|]; apply Ha.
      - by rewrite list_lookup_insert_ne. }
    intros []; cbn; try done; apply E. }
  split; cbn; try done.
  - intros k' s1 Hs1. destruct (decide (k' = k)) as [->|Hne].
    + rewrite list_lookup_insert_eq in Hs1 by done. by injection Hs1 as <-.
    + rewrite list_lookup_insert_ne in Hs1 by done. eauto.
  - intros p o Hp. destruct (I4 p o Hp) as (k' & port & s1 & -> & Hs1 & Ht1).
    destruct (decide (k' = k)) as [->|Hne].
    + exists k, port, s'. rewrite list_lookup_insert_eq by done. by split_and!; [..|eapply Ht].
    + exists k', port, s1. by rewrite list_lookup_insert_ne.
  - intros p b Hp Hb. apply Hw. eauto.
  - intros b Hb%Hw. eauto.
Qed.
Lemma inv_system n m h k s s' : host_inv n h → (n ≤ m)%nat → h_systems h !! k = Some s → sys_inv m s' →
  sv_tasks (sys_server s') = sv_tasks (sys_server s) →
  (∀ key, awaits (sys_responders s') key = awaits (sys_responders s) key) →
  host_inv m (set_systems (<[k := s']> (h_systems h)) h).
Proof.
  intros Hi Hle Hk Hs' Ht Ha. eapply inv_system_any; [done..| |done]. intros p port Hp. rewrite Ht.
  destruct (hi_server n h Hi p _ Hp) as (k' & port' & s1 & [= <- <-] & Hs1 & Ht1). by simplify_eq.
Qed.
Lemma calm_awaits s s' : calm s s' → ∀ key, awaits (sys_responders s') key = awaits (sys_responders s) key.
Proof. by intros [_ _ -> _] key. Qed.
(** ** Outcomes *)

Definition outcome {A} (m : CallM A) h (Q : A → Host → Prop) : Prop := ∃ a h', m h = Ok (a, h') ∧ Q a h'.
Lemma outcome_ret {A} (a : A) h (Q : A → Host → Prop) : Q a h → outcome (mret a) h Q.
Proof. intros HQ. by exists a, h. Qed.
Lemma outcome_then {A B} (m : CallM A) (f : A → CallM B) h (Q : B → Host → Prop) :
  outcome m h (λ a h', outcome (f a) h' Q) → outcome (m ≫= f) h Q.
Proof.
  intros (a & h1 & E & b & h2 & E2 & HQ). exists b, h2. split; [|done].
  unfold mbind, CallM_bind. rewrite E. exact E2.
Qed.
Lemma outcome_wand {A} (m : CallM A) h (P Q : A → Host → Prop) :
  outcome m h P → (∀ a h', P a h' → Q a h') → outcome m h Q.
Proof. intros (a & h' & E & HP) HPQ. exists a, h'. auto. Qed.
Lemma outcome_try {A B} (m : CallM (result FoxgloveError A)) (f : A → CallM (result FoxgloveError B)) h
    (Q : result FoxgloveError B → Host → Prop) :
  outcome m h (λ r h', match r with Ok a => outcome (f a) h' Q | Err e => Q (Err e) h' | Panic => False end) →
  outcome (try_ m f) h Q.
Proof.
  intros Hm. apply outcome_then. eapply outcome_wand; [exact Hm|].
  intros [a|e|] h' Hq; [done|by apply outcome_ret|done].
Qed.
(** A pointer to a box of a kind, and one that may be null. *)
Definition live {A} (as_a : Box → option A) (p : nat) h : Prop := is_Some (h_boxes h !! p ≫= as_a).
Definition live_or_null {A} (as_a : Box → option A) (p : option nat) h : Prop :=
  from_option (λ p, live as_a p h) True p.
Lemma outcome_deref {A} (as_a : Box → option A) p h (Q : A → Host → Prop) :
  live as_a p h → (∀ b a, h_boxes h !! p = Some b → as_a b = Some a → Q a h) → outcome (deref as_a p) h Q.
Proof.
  intros [a Ha] HQ. apply bind_Some in Ha as (b & Hb & Ha). exists a, h. split; [|by eapply HQ].
  unfold deref. rewrite Hb. cbn. by rewrite Ha.
Qed.
Lemma outcome_from_raw {A} (as_a : Box → option A) p h (Q : A → Host → Prop) :
  live as_a p h →
  (∀ b a, h_boxes h !! p = Some b → as_a b = Some a → Q a (set_boxes (delete p (h_boxes h)) h)) →
  outcome (from_raw as_a (Some p)) h Q.
Proof.
  intros [a Ha] HQ. apply bind_Some in Ha as (b & Hb & Ha). eexists a, _. split; [|by eapply HQ].
  unfold from_raw. rewrite Hb. cbn. by rewrite Ha.
Qed.
Lemma outcome_array {A} (a : CArray A) l h (Q : list A → Host → Prop) :
  ca_items a = Some l → (ca_count a ≤ length l)%nat → Q (take (ca_count a) l) h →
  outcome (from_raw_parts a) h Q.
Proof.
  intros Hl Hc HQ. unfold from_raw_parts. rewrite Hl. destruct (Nat.leb_spec (ca_count a) (length l)); [|lia].
  by apply outcome_ret.
Qed.

(** *** Frees and allocations of other boxes *)

Lemma inv_delete n h p b : host_inv n h → h_boxes h !! p = Some b → is_responder b || is_server b = false →
  host_inv n (set_boxes (delete p (h_boxes h)) h).
Proof.
  intros Hi Hp Hb. eapply inv_boxes; [exact Hi|done|apply Hi| |].
  - intros q [c Hc]. cbn in Hc. apply lookup_delete_Some in Hc as [_ Hc]. by apply (hi_next n h Hi).
  - intros q c Hc. cbn. rewrite lookup_delete_Some. split; [by intros [_ ?]|]. intros Hq. split; [|done].
    intros ->. congruence.
Qed.
Lemma inv_into_raw n h b : host_inv n h → is_responder b || is_server b = false →
  outcome (into_raw b) h (λ p h', host_inv n h' ∧ h_systems h' = h_systems h).
Proof.
  intros Hi Hb. eexists _, _. split; [done|]. split; [|done]. eapply inv_boxes; [exact Hi|done|apply Hi| |].
  - intros q. cbn. intros [->|[_ Hq]]%lookup_insert_is_Some; [lia|].
    apply (hi_next n h Hi) in Hq. lia.
  - intros q c Hc. cbn. rewrite lookup_insert_Some. split; [|intros Hq; right].
    + intros [[_ <-]|[_ Hq]]; [congruence|done].
    + split; [|done]. intros <-. pose proof (hi_next n h Hi (h_next h)) as Hlt.
      rewrite Hq in Hlt. specialize (Hlt (mk_is_Some _ _ eq_refl)). lia.
Qed.
Lemma inv_assign n h p b b' : host_inv n h → h_boxes h !! p = Some b →
  is_responder b || is_server b = false → is_responder b' || is_server b' = false →
  host_inv n (set_boxes (<[p := b']> (h_boxes h)) h).
Proof.
  intros Hi Hp Hb Hb'. eapply inv_boxes; [exact Hi|done|apply Hi| |].
  - intros q. cbn. intros [->|[_ Hq]]%lookup_insert_is_Some; apply (hi_next n h Hi); [by eexists|done].
  - intros q c Hc. cbn. rewrite lookup_insert_Some. split.
    + intros [[_ <-]|[_ Hq]]; [congruence|done].
    + intros Hq. right. split; [|done]. intros <-. congruence.
Qed.

(** *** What a call leaves *)

(** The call gave [e]; an error leaves everything as it was, but for a box that was
    moved into the call. *)
Definition leaves (n : nat) (moved : option nat) h (e : CError) h' : Prop :=
  host_inv (S n) h' ∧
  (e ≠ COk → e ≠ CSinkClosed ∧ h_systems h' = h_systems h ∧
    (h_boxes h' = h_boxes h ∨ ∃ p, moved = Some p ∧ h_boxes h' = delete p (h_boxes h))).
Lemma leaves_ok n m h h' : host_inv (S n) h' → leaves n m h COk h'.
Proof. by split. Qed.
Lemma leaves_error n m h e : host_inv n h → e ≠ CSinkClosed → leaves n m h e h.
Proof.
  intros Hi He. split; [apply (host_inv_mono n); [lia|done]|]. intros _. split_and!; [done..|by left].
Qed.
Lemma outcome_error n m h e : host_inv n h → e ≠ CSinkClosed → outcome (mret e) h (leaves n m h).
Proof. intros. apply outcome_ret. by apply leaves_error. Qed.

(** A call of a running system. *)
Lemma outcome_system n m k f s h Q : host_inv n h → (n ≤ m)%nat → h_systems h !! k = Some s →
  (∃ s', f s = Ok s' ∧ sys_inv m s' ∧ sv_tasks (sys_server s') = sv_tasks (sys_server s) ∧
    ∀ key, awaits (sys_responders s') key = awaits (sys_responders s) key) →
  (∀ h', host_inv m h' → Q tt h') → outcome (on_system k f) h Q.
Proof.
  intros Hi Hle Hk (s' & E & Hs' & Ht & Ha) HQ. eexists tt, _. unfold on_system. rewrite Hk, E.
  split; [done|]. apply HQ. by eapply inv_system.
Qed.
Lemma outcome_calm n m0 k f s h h0 : host_inv n h → h_systems h !! k = Some s → calmly s (f s) →
  outcome (_ ← on_system k f; mret COk) h (leaves n m0 h0).
Proof.
  intros Hi Hk (s' & E & Hc). apply outcome_then. eapply (outcome_system n (S n)); [exact Hi|lia|exact Hk| |].
  - exists s'. split; [done|]. split.
    + apply (sys_inv_mono n); [lia|]. eapply calm_inv; [exact Hc|]. by eapply hi_systems.
    + split; [apply Hc|]. by apply calm_awaits.
  - intros h' Hi'. apply outcome_ret. by apply leaves_ok.
Qed.
Lemma outcome_calm_or_error n m0 k f s h h0 :
  host_inv n h → h_systems h !! k = Some s → calmly s (keep_on_error (f s) s) →
  (∀ e, f s = Err e → leaves n m0 h0 (CError_from e) h) →
  outcome (on_system_or_error k f) h (leaves n m0 h0).
Proof.
  intros Hi Hk (s' & E & Hc) He. unfold outcome, on_system_or_error. rewrite Hk.
  destruct (f s) as [s1|e|]; [|by eauto|done]. injection E as ->. eexists _, _. split; [done|].
  apply leaves_ok. eapply inv_system; [exact Hi|lia|exact Hk| |apply Hc|by apply calm_awaits].
  apply (sys_inv_mono n); [lia|]. eapply calm_inv; [exact Hc|]. by eapply hi_systems.
Qed.
Lemma outcome_handle n h server f Q : host_inv n h → live as_server server h →
  (∀ k port s, h_systems h !! k = Some s → sys_inv n s → sv_tasks (sys_server s) = true →
    h_boxes h !! server = Some (BServer (Some (k, port))) → outcome (f (k, port)) h Q) →
  outcome (with_handle server f) h Q.
Proof.
  intros Hi Hl Hf. apply outcome_then, outcome_deref; [done|]. intros [] o Hb; try done. intros [= ->].
  destruct (hi_server n h Hi _ _ Hb) as (k & port & s & -> & Hk & Ht).
  eapply Hf; [exact Hk|by eapply hi_systems|done|exact Hb].
Qed.
(** ** The ownership rules *)

Definition array_ok {A} (a : CArray A) : Prop :=
  match ca_items a with Some l => (ca_count a ≤ length l)%nat | None => True end.
Definition bytes_ok (a : FoxgloveBytes) : Prop := is_Some (ca_items a) ∧ array_ok a.
(** The range must be given with the capability. *)
Definition options_ok (o : FoxgloveServerOptions) : Prop :=
  array_ok (fso_supported_encodings o) ∧ array_ok (fso_server_info o) ∧
  array_ok (fso_tls_cert o) ∧ array_ok (fso_tls_key o) ∧
  (Z.land (fso_capabilities o) FOXGLOVE_SERVER_CAPABILITY_RANGED_PLAYBACK
     = FOXGLOVE_SERVER_CAPABILITY_RANGED_PLAYBACK →
   is_Some (fso_playback_start_time o) ∧ is_Some (fso_playback_end_time o)).
(** A pointer that must not be null. *)
Definition live_ptr {A} (as_a : Box → option A) (p : option nat) h : Prop :=
  from_option (λ p, live as_a p h) False p.
Definition call_ok (c : ServerCall) h : Prop :=
  match c with
  | GraphCreate _ | ServiceCreate _ _ _ _ | ParamsFinished _ => True
  | GraphFree g => live_ptr as_graph g h
  | SetPublishedTopic g _ l | SetSubscribedTopic g _ l | SetAdvertisedService g _ l =>
    live as_graph g h ∧ array_ok l
  | ServiceFree v => live_or_null as_service v h
  | SetResponseEncoding r _ => live_or_null as_service_responder r h
  | ServiceRespondOk r d => live_ptr as_service_responder r h ∧ bytes_ok d
  | ServiceRespondError r _ => live_ptr as_service_responder r h
  | AssetRespondOk r d => live_ptr as_asset_responder r h ∧ bytes_ok d
  | AssetRespondError r _ => live_ptr as_asset_responder r h
  | ServerStart o _ _ => options_ok o
  | BroadcastTime v _ | BroadcastPlayback v _ | ClearSession _ _ v _ | RemoveService v _ | GetPort v
  | GetClientCount v | ServerStop v | PublishStatus v _ _ _ => live_or_null as_server v h
  | AddService v w => live_or_null as_server v h ∧ live_or_null as_service w h
  | PublishParams v w => live_or_null as_server v h ∧ live_or_null as_params w h
  | PublishGraph v w => live_or_null as_server v h ∧ live_or_null as_graph w h
  | RemoveStatuses v l => live_or_null as_server v h ∧ array_ok l
  end.
(** The box that a call takes over. *)
Definition moved (c : ServerCall) : option nat :=
  match c with AddService _ p | PublishParams _ p => p | _ => None end.

Implicit Types n : nat.

(** *** Graphs *)

Lemma utf8_or_outcome what (x : CString) : (∃ y, utf8_or what x = Ok y ∧ as_utf8_str x = Some y) ∨
  (utf8_or what x = Err (FoxgloveUtf8Error what) ∧ as_utf8_str x = None).
Proof. unfold utf8_or. destruct (as_utf8_str x); [left; eauto|by right]. Qed.
(** What checks of arguments may fail with. *)
Definition bad_argument (e : FoxgloveError) : Prop :=
  match e with ValueError _ | FoxgloveUtf8Error _ => True | _ => False end.
Definition checked {A} (r : result FoxgloveError A) : Prop :=
  match r with Ok _ => True | Err e => bad_argument e | Panic => False end.
Lemma checked_bind {A B} (r : result FoxgloveError A) (f : A → result FoxgloveError B) :
  checked r → (∀ a, checked (f a)) → checked (r ≫= f).
Proof. destruct r; cbn; auto. Qed.
Lemma checked_utf8 what x : checked (utf8_or what x).
Proof. by destruct (utf8_or_outcome what x) as [(y & -> & _)|[-> _]]. Qed.
Lemma bad_code e : bad_argument e → CError_from e ≠ CSinkClosed.
Proof. by destruct e. Qed.
Lemma checked_ids l : checked (read_ids l).
Proof.
  induction l as [|id l IH]; [done|]. cbn [read_ids]. apply checked_bind; [by destruct id|]. intros [].
  apply checked_bind; [apply checked_utf8|]. intros x. by apply checked_bind.
Qed.

Lemma set_ids_spec n set g name ids h : host_inv n h → live as_graph g h → array_ok ids →
  outcome (r ← do_set_ids set g name ids; code r) h (leaves n None h).
Proof.
  intros Hi Hg Hids. apply outcome_then, outcome_then, outcome_deref; [done|].
  intros b graph Hb Hgraph. assert (∀ e, bad_argument e → outcome (code (A:=unit) (Err e)) h (leaves n None h)) as He.
  { intros e He. apply outcome_error; [done|by apply bad_code]. }
  assert (∀ h', host_inv n h' → outcome (code (A:=unit) (Ok tt)) h' (leaves n None h)) as Hok.
  { intros h' Hi'. apply outcome_ret, leaves_ok, (host_inv_mono n); [lia|done]. }
  apply outcome_try, outcome_ret.
  destruct (utf8_or_outcome "name is invalid" name) as [(x & -> & _)|[-> _]]; [|by apply He].
  destruct (0 <? ca_count ids)%nat eqn:Ec; [|by apply outcome_ret, Hok].
  unfold array_ok in Hids. destruct (ca_items ids) as [l|] eqn:El; [|by apply outcome_ret, He].
  apply outcome_then. eapply outcome_array; [done..|]. apply outcome_try, outcome_ret.
  pose proof (checked_ids (take (ca_count ids) l)) as Hc.
  destruct (read_ids _) as [strings|e|]; [|by apply He|done]. apply outcome_then.
  eexists tt, _. split; [done|]. apply outcome_ret, Hok. destruct b; try done.
  by eapply inv_assign.
Qed.

(** *** Services *)

Lemma service_schema_checked x : checked (FoxgloveServiceSchema_to_native x).
Proof.
  assert (∀ add part schema, checked (add_message_schema add part schema)) as Hadd.
  { intros add [part|] schema; [|done]. apply checked_bind; [|by intros []].
    apply checked_bind; [apply checked_utf8|]. intros y. apply checked_bind; [|done].
    apply checked_bind; [apply checked_utf8|]. intros z. apply checked_bind; [apply checked_utf8|done]. }
  apply checked_bind; [apply checked_utf8|]. intros name. by apply checked_bind.
Qed.
Definition leaves_made n h (x : CError * option nat) : Host → Prop := leaves n None h x.1.
Lemma made_spec n m h : outcome m h (leaves_made n h) →
  outcome (answer_with made m) h (λ a h', ∃ e p, a = RMade e p ∧ leaves n None h e h').
Proof.
  intros Hm. apply outcome_then. eapply outcome_wand; [exact Hm|]. intros [e p] h' Hl.
  apply outcome_ret. eauto.
Qed.
Lemma into_raw_spec n h b h0 : host_inv n h → is_responder b || is_server b = false →
  outcome (p ← into_raw b; mret (COk, Some p)) h (leaves_made n h0).
Proof.
  intros Hi Hb. apply outcome_then. eapply outcome_wand; [by apply inv_into_raw|]. intros p h' [Hi' _].
  apply outcome_ret, leaves_ok, (host_inv_mono n); [lia|done].
Qed.
Lemma service_create_spec n o name schema cb h : host_inv n h → Z.of_nat n + 2 < 2 ^ 32 →
  outcome (foxglove_service_create o name schema cb) h (leaves_made n h).
Proof.
  intros Hi Hn. unfold foxglove_service_create.
  assert (∀ e, e ≠ CSinkClosed → outcome (mret (e, None)) h (leaves_made n h)) as He.
  { intros e He. apply outcome_ret. by apply leaves_error. }
  destruct o; [by apply He|]. destruct (as_utf8_str name) as [x|]; [|by apply He].
  destruct schema as [schema|]; [|by apply He]. pose proof (service_schema_checked schema) as Hc.
  destruct (FoxgloveServiceSchema_to_native schema) as [y|e|]; [|by apply He, bad_code|done].
  destruct cb; [|by apply He]. pose proof (hi_ids n h Hi) as Hid. apply outcome_then.
  unfold outcome at 1, next_service_id, ServiceId_next. rewrite bool_decide_eq_false_2 by lia.
  eexists _, _. split; [done|]. apply outcome_then.
  eapply outcome_wand; [apply (inv_into_raw (S n)); [|done]|].
  - apply (host_inv_mono n (S n)) in Hi; [|lia]. eapply inv_boxes; [exact Hi|done| |apply Hi|done]. cbn.
    rewrite wrap_small; [lia|]. unfold fits. lia.
  - intros p h' [Hi' _]. apply outcome_ret. by apply leaves_ok.
Qed.
(** *** Responders *)

Lemma use_responder_effect key res s k : awaits (sys_responders s) key = Some k →
  sys_server (use_responder key res s) = sys_server s ∧
  ∀ key', awaits (sys_responders (use_responder key res s)) key' =
    if decide (key' = key) then None else awaits (sys_responders s) key'.
Proof.
  intros Ha. unfold use_responder.
  assert (∀ r, unanswered r = false → is_Some (sys_responders s !! key) → ∀ key',
    awaits (<[key := r]> (sys_responders s)) key' =
    if decide (key' = key) then None else awaits (sys_responders s) key') as Hu.
  { intros r Hr [x Hx] key'. pose proof (lookup_lt_Some _ _ _ Hx). unfold awaits.
    destruct (decide (key' = key)) as [->|Hne].
    - rewrite list_lookup_insert_eq by done. by destruct r as [[]|[]].
    - by rewrite list_lookup_insert_ne. }
  unfold awaits in Ha at 1. destruct (sys_responders s !! key) as [[[r|]|[r|]]|] eqn:E; try done;
    (split; [done|]); cbn; apply Hu; by eauto.
Qed.
Lemma respond_effect key res s k : awaits (sys_responders s) key = Some k →
  sys_server (respond key res s) = sys_server s ∧
  ∀ key', awaits (sys_responders (respond key res s)) key' =
    if decide (key' = key) then None else awaits (sys_responders s) key'.
Proof.
  intros Ha. destruct (use_responder_effect key res s k Ha) as [E1 E2]. unfold respond.
  set (s1 := use_responder key res s) in *. assert (drop_responder key s1 = s1) as ->; [|done].
  specialize (E2 key). rewrite decide_True in E2 by done. unfold awaits in E2.
  unfold drop_responder, use_responder. by destruct (sys_responders s1 !! key) as [[[]|[]]|].
Qed.

Lemma respond_spec n h p b k key res : host_inv n h → h_boxes h !! p = Some b →
  b = BServiceResponder k key ∨ b = BAssetResponder k key →
  outcome (respond_with (k, key) res) (set_boxes (delete p (h_boxes h)) h) (λ _ h', host_inv n h').
Proof.
  intros [I1 I2 I3 I4 I5 I6 I7 I8] Hp Hb. assert (is_responder b = true) as Hrb by by destruct Hb as [-> | ->].
  assert (∃ s o, h_systems h !! k = Some s ∧ awaits (sys_responders s) key = Some o ∧
    b = (if o : bool then BServiceResponder k key else BAssetResponder k key)) as (s & o & Hk & Ha & Eb).
  { pose proof (I6 p b Hp Hrb) as Hw. destruct Hb as [-> | ->]; cbn in Hw; destruct Hw as (s & Hk & Ha);
      eexists s, _; by split_and!. }
  destruct (respond_effect key res s o Ha) as [Es Ea]. pose proof (lookup_lt_Some _ _ _ Hk) as Hlt.
  unfold outcome, respond_with, on_system. cbn [h_systems set_boxes fst snd]. rewrite Hk.
  eexists tt, _. split; [done|]. set (s' := respond key res s) in *.
  set (h' := set_systems _ _).
  assert (∀ b', waits h' b' ↔ waits h b' ∧ b' ≠ b) as Hw.
  { assert (∀ k' key' q, (∃ s1, <[k := s']> (h_systems h) !! k' = Some s1 ∧
        awaits (sys_responders s1) key' = Some q) ↔
      (∃ s1, h_systems h !! k' = Some s1 ∧ awaits (sys_responders s1) key' = Some q) ∧
      ¬ (k' = k ∧ key' = key)) as Hex.
    { intros k' key' q. destruct (decide (k' = k)) as [->|Hne].
      - rewrite list_lookup_insert_eq, Hk by done. split.
        + intros (s1 & [= <-] & Hx). rewrite Ea in Hx. case_decide as Hkey; [done|]. naive_solver.
        + intros [(s1 & [= <-] & Hx) Hne]. eexists. split; [done|]. rewrite Ea, decide_False; naive_solver.
      - rewrite list_lookup_insert_ne by done. naive_solver. }
    assert (∀ key' q, (∃ s1, h_systems h !! k = Some s1 ∧ awaits (sys_responders s1) key' = Some q) →
      key' = key → q = o) as Hkind by (intros key' q (s1 & Hs1 & Hx) ->; congruence).
    intros b'. subst h'. destruct b' as [| | | |k' key'|k' key']; cbn; [by split; [|intros [? _]]..| |];
      rewrite Hex, Eb; (split; intros [Hx Hne]; (split; [exact Hx|])); destruct o; try congruence.
    all: try (intros [= -> ->]; by apply Hne). all: intros [-> ->]; try by apply Hne.
    all: by specialize (Hkind key _ Hx eq_refl). }
  split; cbn.
  - intros q [c Hc]. apply lookup_delete_Some in Hc as [_ Hc]. eauto.
  - done.
  - intros k' s1 Hs1. destruct (decide (k' = k)) as [->|Hne].
    + rewrite list_lookup_insert_eq in Hs1 by done. injection Hs1 as <-.
      by apply drop_responder_inv, use_responder_inv, (I3 k).
    + rewrite list_lookup_insert_ne in Hs1 by done. eauto.
  - intros q o' [_ Hq]%lookup_delete_Some. destruct (I4 q o' Hq) as (k' & port & s1 & -> & Hs1 & Ht).
    destruct (decide (k' = k)) as [->|Hne].
    + exists k, port, s'. rewrite list_lookup_insert_eq by done. rewrite Es. by simplify_eq.
    + exists k', port, s1. by rewrite list_lookup_insert_ne.
  - intros q q' k' port port' [_ Hq]%lookup_delete_Some [_ Hq']%lookup_delete_Some. eauto.
  - intros q b' [Hne Hq]%lookup_delete_Some Hb'. apply Hw. split; [by eapply I6|]. intros ->. by eapply Hne, I8.
  - intros b' [Hw' Hne]%Hw. destruct (I7 b' Hw') as [q Hq]. exists q. apply lookup_delete_Some. split; [|done].
    intros ->. congruence.
  - intros q q' b' [_ Hq]%lookup_delete_Some [_ Hq']%lookup_delete_Some Hb'. eauto.
Qed.

(** A response: the responder's box is taken, and its request is answered. *)
Lemma response_spec n h as_r r (f : nat * nat → CallM unit) res :
  host_inv n h → as_r = as_service_responder ∨ as_r = as_asset_responder → live_ptr as_r r h →
  (∀ r h', f r h' = respond_with r res h') →
  outcome (r ← from_raw as_r r; f r) h (λ _ h', host_inv n h').
Proof.
  intros Hi Hr Hp Hf. destruct r as [p|]; [|done]. apply outcome_then, outcome_from_raw; [done|].
  intros b [k key] Hb Ha. unfold outcome. rewrite Hf. eapply respond_spec; [exact Hi|exact Hb|].
  destruct Hr as [-> | ->], b; cbn in Ha; try done; injection Ha as -> ->; first [by left|by right].
Qed.
Lemma respond_data d r h' : bytes_ok d →
  (d ← from_raw_parts d; respond_with r (RespondOk d)) h' =
  respond_with r (RespondOk (take (ca_count d) (default [] (ca_items d)))) h'.
Proof.
  intros [[l El] Hd]. unfold array_ok in Hd. unfold from_raw_parts. rewrite El in *.
  by destruct (Nat.leb_spec (ca_count d) (length l)); [|lia].
Qed.
Lemma set_encoding_spec n h r e : host_inv n h → live_or_null as_service_responder r h →
  outcome (foxglove_service_set_response_encoding r e) h (leaves n None h).
Proof.
  intros Hi Hp. destruct r as [p|]; [|by apply outcome_error]. apply outcome_then, outcome_deref; [done|].
  intros b [k key] Hb Ha. destruct (as_utf8_str e) as [x|]; [|by apply outcome_error].
  destruct b; try done. injection Ha as -> ->. destruct (hi_waits n h Hi p _ Hb eq_refl) as (s & Hk & Ha).
  apply outcome_then. eapply (outcome_system n (S n)); [exact Hi|lia|exact Hk| |].
  - eexists. split; [done|]. split.
    { apply (sys_inv_mono n); [lia|]. by apply set_encoding_inv, (hi_systems n h Hi k). }
    cbn [fst snd]. unfold set_encoding, awaits in *.
    destruct (sys_responders s !! key) as [[[i|]|[]]|] eqn:E; try done. split; [done|]. intros key'. cbn.
    destruct (decide (key' = key)) as [->|Hne]; [|by rewrite list_lookup_insert_ne].
    rewrite list_lookup_insert_eq, E; [done|]. by eapply lookup_lt_Some.
  - intros h' Hi'. apply outcome_ret. by apply leaves_ok.
Qed.
(** ** Starting a server *)

(** The elements of an array, and an entry of the server info. *)
Definition elements {A} (a : CArray A) : list A := default [] (take (ca_count a) <$> ca_items a).
Definition entry_of (kv : FoxgloveKeyValue) : option (string * string) :=
  k ← kv_key kv ≫= λ _, as_utf8_str (kv_key kv);
  v ← kv_value kv ≫= λ _, as_utf8_str (kv_value kv);
  Some (k, v).
Definition insert_entry (m : gmap string string) (kv : string * string) : gmap string string :=
  <[kv.1 := kv.2]> m.
Definition tls_of (o : FoxgloveServerOptions) : option TlsIdentity :=
  match ca_items (fso_tls_cert o), ca_items (fso_tls_key o) with
  | Some _, Some _ => Some {| cert := elements (fso_tls_cert o); key := elements (fso_tls_key o) |}
  | _, _ => None
  end.
Definition range_of (o : FoxgloveServerOptions) : option (Z * Z) :=
  t ← fso_playback_start_time o; u ← fso_playback_end_time o; Some (t, u).

(** A builder with these settings. *)
Definition built (host : string) (port : Z) (ctx : option nat) (t : option TlsIdentity)
    (session name : string) (l : option Listener) (caps : list Capability) (encs : option (gset string))
    (assets : bool) (f : option (ChannelDescriptor → bool)) (info : option (gmap string string))
    (range : option (Z * Z)) : WebSocketServer := {|
  wss_host := host; wss_port := port; wss_tls_identity := t; wss_context := ctx;
  wss_options := {|
    op_session_id := Some session; op_name := Some name; op_message_backlog_size := None;
    op_listener := l; op_capabilities := Some (list_to_set caps); op_services := [];
    op_supported_encodings := encs; op_fetch_asset_handler := assets; op_channel_filter := f;
    op_server_info := info; op_playback_time_range := range |}
|}.
(** The builder has what the options say. *)
Definition configured (o : FoxgloveServerOptions) (generated : string) (b : WebSocketServer) : Prop :=
  ∃ host session name encs info l es,
    as_utf8_str (fso_host o) = Some host ∧ as_utf8_str (fso_name o) = Some name ∧
    from_option as_utf8_str (Some generated) (fso_session_id o) = Some session ∧
    mapM as_utf8_str (elements (fso_supported_encodings o)) = Some l ∧ default ∅ encs = list_to_set l ∧
    mapM entry_of (elements (fso_server_info o)) = Some es ∧ default ∅ info = foldl insert_entry ∅ es ∧
    b = built host (fso_port o) (fso_context o) (tls_of o) session name (Listener_of <$> fso_callbacks o)
          (iter_websocket_capabilities (fso_capabilities o)) encs (fso_fetch_asset o)
          (fso_sink_channel_filter o) info (range_of o).

Lemma elements_count {A} (a : CArray A) : array_ok a → ca_count a = O → elements a = [].
Proof. unfold elements. intros _ ->. by destruct (ca_items a). Qed.
Lemma read_encodings_spec l :
  match read_encodings l with
  | Ok encodings => mapM as_utf8_str l = Some encodings
  | Err e => bad_argument e
  | Panic => False
  end.
Proof.
  induction l as [|x l IH]; [done|]. cbn [read_encodings]. destruct x as [b|]; [|done]. cbn [mbind result_bind].
  destruct (utf8_or_outcome "encoding in supported_encodings is invalid" (Some b)) as [(y & -> & E)|[-> _]];
    [|done]. cbn [mbind result_bind]. destruct (read_encodings l) as [rest|e|]; try done.
  cbn [mbind result_bind mapM option_bind]. rewrite E. cbn. by rewrite IH.
Qed.
Lemma entry_ok k v x y : as_utf8_str (Some k) = Some x → as_utf8_str (Some v) = Some y →
  entry_of {| kv_key := Some k; kv_value := Some v |} = Some (x, y).
Proof. intros Ex Ey. unfold entry_of. cbn -[as_utf8_str]. rewrite Ex. cbn -[as_utf8_str]. by rewrite Ey. Qed.
Lemma read_info_spec l c info h : (c ≤ length l)%nat →
  outcome (read_info l c info) h (λ r h', h' = h ∧
    match r with
    | Ok m => ∃ es, mapM entry_of (take c l) = Some es ∧ m = foldl insert_entry info es
    | Err e => bad_argument e
    | Panic => False
    end).
Proof.
  revert l info. induction c as [|c IH]; intros l info Hc.
  { cbn [read_info]. apply outcome_ret. split; [done|]. by exists []. }
  destruct l as [|[k v] l]; [cbn in Hc; lia|]. cbn [read_info kv_key kv_value].
  destruct k as [k|]; [|by apply outcome_ret]. destruct v as [v|]; [|by apply outcome_ret].
  apply outcome_try, outcome_ret.
  destruct (utf8_or_outcome "" (Some k)) as [(x & -> & Ex)|[-> _]]; [|done].
  apply outcome_try, outcome_ret.
  destruct (utf8_or_outcome "" (Some v)) as [(y & -> & Ey)|[-> _]]; [|done].
  eapply outcome_wand; [apply (IH l (<[x := y]> info)); cbn in Hc; lia|].
  intros r h' [-> Hr]. split; [done|]. destruct r as [m|e|]; [|done..]. destruct Hr as (es & E & ->).
  exists ((x, y) :: es). split; [|done]. cbn [take mapM]. rewrite (entry_ok k v x y Ex Ey). cbn. by rewrite E.
Qed.
(** The rest of the checks, each a change of the builder. *)
Definition step_spec {A} (m : CallM (result FoxgloveError A)) h (P : A → Prop) : Prop :=
  outcome m h (λ r h', h' = h ∧
    match r with Ok a => P a | Err e => bad_argument e | Panic => False end).
Lemma step_try {A B} (m : CallM (result FoxgloveError A)) (f : A → CallM (result FoxgloveError B)) h P Q :
  step_spec m h P → (∀ a, P a → step_spec (f a) h Q) → step_spec (try_ m f) h Q.
Proof.
  intros Hm Hf. apply outcome_try. eapply outcome_wand; [exact Hm|].
  intros [a|e|] h' [-> Hr]; [by apply Hf|done|done].
Qed.
Lemma step_ret {A} (a : A) h (P : A → Prop) : P a → step_spec (mret (Ok a)) h P.
Proof. intros. by apply outcome_ret. Qed.
Lemma step_fail {A} e h (P : A → Prop) : bad_argument e → step_spec (fail e) h P.
Proof. intros. by apply outcome_ret. Qed.
Lemma step_utf8 what x h : step_spec (mret (utf8_or what x)) h (λ y, as_utf8_str x = Some y).
Proof. apply outcome_ret. split; [done|]. by destruct (utf8_or_outcome what x) as [(y & -> & E)|[-> _]]. Qed.

Lemma encodings_step a b h : array_ok a → step_spec (read_supported_encodings a b) h (λ b',
  ∃ l, mapM as_utf8_str (elements a) = Some l ∧
    (b' = Builder.supported_encodings l b ∨ (l = [] ∧ b' = b))).
Proof.
  intros Ha. unfold read_supported_encodings. destruct (Nat.ltb_spec 0 (ca_count a)) as [Hc|Hc].
  - unfold array_ok, elements in *. destruct (ca_items a) as [l|] eqn:El; [|by apply step_fail]. cbn.
    apply outcome_then. eapply outcome_array; [done..|].
    eapply (step_try _ _ _ (λ es, mapM as_utf8_str (take (ca_count a) l) = Some es)).
    + apply outcome_ret. split; [done|]. apply read_encodings_spec.
    + intros es E. apply step_ret. exists es. split; [done|by left].
  - apply step_ret. exists []. rewrite elements_count by (done || lia). split; [done|by right].
Qed.
Lemma tls_step c k b h : array_ok c → array_ok k → step_spec (read_tls c k b) h (λ b',
  match ca_items c, ca_items k with
  | Some _, Some _ => b' = Builder.tls {| cert := elements c; key := elements k |} b
  | None, None => b' = b
  | _, _ => False
  end).
Proof.
  intros Hc Hk. unfold read_tls, array_ok, elements in *.
  destruct (ca_items c) as [lc|] eqn:Ec, (ca_items k) as [lk|] eqn:Ek;
    [|by apply step_fail..|by apply step_ret]. destruct (_ || _); [by apply step_fail|].
  apply outcome_then. eapply outcome_array; [done..|]. apply outcome_then. eapply outcome_array; [done..|].
  by apply step_ret.
Qed.
Lemma info_step a b h : array_ok a → step_spec (read_server_info a b) h (λ b',
  ∃ l, mapM entry_of (elements a) = Some l ∧
    (b' = Builder.server_info (foldl insert_entry ∅ l) b ∨ (l = [] ∧ b' = b))).
Proof.
  intros Ha. unfold read_server_info. destruct (Nat.ltb_spec 0 (ca_count a)) as [Hc|Hc].
  - unfold array_ok, elements in *. destruct (ca_items a) as [l|] eqn:El; [|by apply step_fail]. cbn.
    eapply (step_try _ _ _ (λ m, ∃ es, mapM entry_of (take (ca_count a) l) = Some es ∧
      m = foldl insert_entry ∅ es)); [by apply read_info_spec|].
    intros m (es & E & ->). apply step_ret. exists es. split; [done|by left].
  - apply step_ret. exists []. rewrite elements_count by (done || lia). split; [done|by right].
Qed.
Lemma session_step id b h : step_spec (mret (read_session_id id b)) h (λ b',
  match id with
  | None => b' = b
  | Some x => ∃ y, as_utf8_str x = Some y ∧ b' = Builder.session_id y b
  end).
Proof.
  apply outcome_ret. split; [done|]. unfold read_session_id. destruct id as [[x|]|]; [|done..].
  destruct (utf8_or_outcome "session_id is invalid" (Some x)) as [(y & -> & E)|[-> _]]; [|done]. cbn. eauto.
Qed.

(** The unconditional part of the builder. *)
Lemma built_if host port session name caps encs (cb : option FoxgloveServerCallbacks) fa fi ctx :
  match ctx with
  | Some c => Builder.context (Some c)
  | None => λ b, b
  end (apply_if Builder.channel_filter fi
    ((if fa : bool then Builder.fetch_asset_handler else λ b, b)
      (apply_if (λ callbacks, Builder.listener (Listener_of callbacks)) cb
        (built host port None None session name None caps encs false None None None)))) =
  built host port ctx None session name (Listener_of <$> cb) caps encs fa fi None None.
Proof. by destruct cb, fa, fi, ctx. Qed.
Lemma configure_spec o generated h :
  array_ok (fso_supported_encodings o) → array_ok (fso_server_info o) →
  array_ok (fso_tls_cert o) → array_ok (fso_tls_key o) →
  step_spec (configure o generated) h (configured o generated).
Proof.
  intros Henc Hinf Hcert Hkey. unfold configure. eapply step_try; [apply step_utf8|]. intros name En.
  eapply step_try; [apply step_utf8|]. intros host Eh. cbv zeta.
  eapply step_try; [by apply encodings_step|]. intros b1 (encs & Ee & Hb1).
  assert (∃ oe, default ∅ oe = (list_to_set encs : gset string) ∧
    b1 = built host (fso_port o) None None generated name None
           (iter_websocket_capabilities (fso_capabilities o)) oe false None None None) as (oe & Eo & ->).
  { destruct Hb1 as [->|[-> ->]]; [by exists (Some (list_to_set encs))|by exists None]. }
  match goal with |- step_spec (try_ (read_tls _ _ ?b) _) _ _ => set (b2 := b) end.
  assert (b2 = built host (fso_port o) (fso_context o) None generated name (Listener_of <$> fso_callbacks o)
    (iter_websocket_capabilities (fso_capabilities o)) oe (fso_fetch_asset o)
    (fso_sink_channel_filter o) None None) as ->.
  { rewrite <- built_if. subst b2. by destruct (fso_context o), (fso_fetch_asset o). }
  eapply step_try; [by apply tls_step|]. intros b3 Hb3.
  assert (b3 = built host (fso_port o) (fso_context o) (tls_of o) generated name
    (Listener_of <$> fso_callbacks o) (iter_websocket_capabilities (fso_capabilities o)) oe
    (fso_fetch_asset o) (fso_sink_channel_filter o) None None) as ->.
  { unfold tls_of. by destruct (ca_items (fso_tls_cert o)), (ca_items (fso_tls_key o)); subst. }
  eapply step_try; [by apply info_step|]. intros b4 (info & Ei & Hb4).
  assert (∃ oi, default ∅ oi = foldl insert_entry ∅ info ∧
    b4 = built host (fso_port o) (fso_context o) (tls_of o) generated name
      (Listener_of <$> fso_callbacks o) (iter_websocket_capabilities (fso_capabilities o)) oe
      (fso_fetch_asset o) (fso_sink_channel_filter o) oi None) as (oi & Eoi & ->).
  { destruct Hb4 as [->|[-> ->]]; [by eexists (Some _)|by exists None]. }
  eapply outcome_wand; [apply session_step|]. intros r h' [-> Hr]. split; [done|].
  destruct r as [b5|e|]; [|done..].
  assert (∃ session, from_option as_utf8_str (Some generated) (fso_session_id o) = Some session ∧
    b5 = built host (fso_port o) (fso_context o) (tls_of o) session name
      (Listener_of <$> fso_callbacks o) (iter_websocket_capabilities (fso_capabilities o)) oe
      (fso_fetch_asset o) (fso_sink_channel_filter o) oi (range_of o)) as (session & Es & ->).
  { unfold range_of. destruct (fso_session_id o) as [x|]; [destruct Hr as (y & Ey & ->); exists y|
      subst b5; exists generated]; (split; [done|]);
      by destruct (fso_playback_start_time o), (fso_playback_end_time o). }
  exists host, session, name, oe, oi, encs, info. by split_and!.
Qed.
Definition flag_of (cap : Capability) : Z :=
  match cap with
  | CapClientPublish => FOXGLOVE_SERVER_CAPABILITY_CLIENT_PUBLISH
  | CapConnectionGraph => FOXGLOVE_SERVER_CAPABILITY_CONNECTION_GRAPH
  | CapParameters => FOXGLOVE_SERVER_CAPABILITY_PARAMETERS
  | CapTime => FOXGLOVE_SERVER_CAPABILITY_TIME
  | CapServices => FOXGLOVE_SERVER_CAPABILITY_SERVICES
  | CapAssets => FOXGLOVE_SERVER_CAPABILITY_ASSETS
  | CapRangedPlayback => FOXGLOVE_SERVER_CAPABILITY_RANGED_PLAYBACK
  end.
Definition declares (o : FoxgloveServerOptions) (cap : Capability) : Prop :=
  Z.land (fso_capabilities o) (flag_of cap) = flag_of cap.
Lemma websocket_capabilities_spec o cap :
  cap ∈ iter_websocket_capabilities (fso_capabilities o) ↔ declares o cap.
Proof.
  unfold iter_websocket_capabilities, declares. rewrite list_elem_of_omap. split.
  - intros (f & [Hf Hl]%iter_names_spec & Hc).
    assert (f.2 = flag_of cap) as <-; [|done]. clear Hl. revert f Hf Hc.
    enough (Forall (λ f, websocket_capability f.2 = Some cap → f.2 = flag_of cap) BitFlags_names) as HF'
      by (rewrite Forall_forall in HF'; auto).
    repeat constructor; cbn; intros [= <-]; done.
  - intros Hl. assert (∃ name, (name, flag_of cap) ∈ BitFlags_names) as [name Hn].
    { destruct cap; eexists; unfold BitFlags_names; rewrite !elem_of_cons; cbn; eauto 10. }
    exists (name, flag_of cap). split; [by apply iter_names_spec|]. by destruct cap.
Qed.

(** What a server is started with. *)
Record started (o : FoxgloveServerOptions) (generated : string) (sv : Server) : Prop := {
  st_name' : as_utf8_str (fso_name o) = Some (sv_name sv);
  st_session : from_option as_utf8_str (Some generated) (fso_session_id o) = Some (sv_session_id sv);
  st_capabilities : ∀ cap, cap ∈ sv_capabilities sv ↔ declares o cap ∨
    (cap = CapRangedPlayback ∧ is_Some (range_of o)) ∨ (cap = CapAssets ∧ fso_fetch_asset o = true);
  st_encodings : ∃ l, mapM as_utf8_str (elements (fso_supported_encodings o)) = Some l ∧
    sv_supported_encodings sv = list_to_set l;
  st_info : ∃ l, mapM entry_of (elements (fso_server_info o)) = Some l ∧
    sv_server_info sv = foldl insert_entry ∅ l;
  st_listener : sv_listener sv = Listener_of <$> fso_callbacks o;
  st_assets : sv_fetch_asset_handler sv = fso_fetch_asset o;
  st_filter : sv_channel_filter sv = fso_sink_channel_filter o;
  st_range : sv_playback_time_range sv = range_of o;
  st_tasks : sv_tasks sv = true;
  st_fresh : fresh_server sv;
  st_backlog : sv_message_backlog_size sv = DEFAULT_MESSAGE_BACKLOG_SIZE
}.
(** The capability without the range that it needs. *)
Definition rangeless (o : FoxgloveServerOptions) : Prop := declares o CapRangedPlayback ∧ range_of o = None.

Lemma Server_new_spec o generated b : configured o generated b →
  match Server_new generated (wss_options b) with
  | Ok sv => ¬ rangeless o ∧ match Server.start sv with Ok sv => started o generated sv | _ => False end
  | Err _ => False
  | Panic => rangeless o
  end.
Proof.
  intros (host & session & name & encs & info & l & es & Eh & En & Es & El & Eencs & Ei & Einfo & ->).
  unfold Server_new. cbn -[wrap].
  set (caps := list_to_set (iter_websocket_capabilities (fso_capabilities o)) : gset Capability).
  assert (∀ cap, cap ∈ caps ↔ declares o cap) as Hcaps.
  { intros cap. unfold caps. rewrite elem_of_list_to_set. apply websocket_capabilities_spec. }
  unfold rangeless. destruct (range_of o) as [[t u]|] eqn:Er; cbn -[wrap].
  - split; [by intros [_ ?]|]. destruct (fso_fetch_asset o) eqn:Ea;
      (split; cbn -[wrap]; rewrite ?Er, ?Ea; try done; try by (eexists; split_and!));
      intros cap; rewrite ?elem_of_union, ?elem_of_singleton, Hcaps; naive_solver.
  - destruct (decide (CapRangedPlayback ∈ caps)) as [Hr|Hr]; cbn -[wrap]; [by rewrite <- Hcaps|].
    rewrite Hcaps in Hr. split; [by intros [? _]|].
    destruct (fso_fetch_asset o) eqn:Ea;
      (split; cbn -[wrap]; rewrite ?Er, ?Ea; try done; try by (eexists; split_and!));
      intros cap; rewrite ?elem_of_union, ?elem_of_singleton, Hcaps; unfold is_Some; naive_solver.
Qed.
(** A server that was started from these options, at this time. *)
Definition started_system (o : FoxgloveServerOptions) (now : Moment) (s : System) (port : Z) : Prop :=
  ∃ sv host, s = sys_start (mo_contexts now (fso_context o)).1 (mo_contexts now (fso_context o)).2 sv ∧
    started o (mo_generated now) sv ∧ as_utf8_str (fso_host o) = Some host ∧
    tcp_bind (host +:+ ":" +:+ pretty (fso_port o)) = inr port.
Definition add_server (cb : option FoxgloveServerCallbacks) (s : System) (port : Z) h : Host := {|
  h_boxes := <[h_next h := BServer (Some (length (h_systems h), port))]> (h_boxes h);
  h_systems := h_systems h ++ [s]; h_callbacks := h_callbacks h ++ [cb]; h_next := S (h_next h);
  h_service_id := h_service_id h |}.
Definition arrays_ok (o : FoxgloveServerOptions) : Prop :=
  array_ok (fso_supported_encodings o) ∧ array_ok (fso_server_info o) ∧
  array_ok (fso_tls_cert o) ∧ array_ok (fso_tls_key o).

Lemma StreamConfiguration_cases i : StreamConfiguration_new i = Ok tt ∨
  ∃ e, StreamConfiguration_new i = Err (ConfigurationError e).
Proof. unfold StreamConfiguration_new. destruct i as [i|]; [|by left]. destruct (rustls_refuses i); eauto. Qed.
Lemma start_blocking_spec o now b : configured o (mo_generated now) b →
  match start_blocking (mo_contexts now) (mo_generated now) b with
  | Ok (s, port) => ¬ rangeless o ∧ started_system o now s port
  | Err e => CError_from e ≠ CSinkClosed ∧ CError_from e ≠ COk
  | Panic => rangeless o
  end.
Proof.
  intros Hr. unfold start_blocking, create_server.
  destruct (StreamConfiguration_cases (wss_tls_identity b)) as [-> |[e ->]]; cbn [mbind result_bind]; [|done].
  pose proof (Server_new_spec o (mo_generated now) b Hr) as Hsv.
  destruct (Server_new _ _) as [sv|e|]; cbn [mbind result_bind]; [|done|done]. destruct Hsv as [Hnr Hsv].
  unfold server_start. destruct (Server.start sv) as [sv'|e|]; cbn [mbind result_bind]; [|done..].
  destruct Hr as (host & session & name & encs & info & l & es & Eh & En & Es & El & Eencs & Ei & Einfo & ->).
  cbn [wss_host wss_port wss_context built].
  destruct (tcp_bind _) as [e|port] eqn:Eb; cbn [mbind result_bind]; [done|].
  destruct (mo_contexts now (fso_context o)) as [x w] eqn:Ex. split; [done|].
  exists sv', host. rewrite Ex. by split_and!.
Qed.
Lemma do_start_spec o now h : arrays_ok o →
  match do_foxglove_server_start o now h with
  | Ok (Ok p, h') => p = h_next h ∧ ¬ rangeless o ∧ ∃ s port, started_system o now s port ∧ h' = add_server (fso_callbacks o) s port h
  | Ok (Err e, h') => h' = h ∧ CError_from e ≠ CSinkClosed ∧ CError_from e ≠ COk
  | Panic => rangeless o
  | _ => False
  end.
Proof.
  intros (Henc & Hinf & Hcert & Hkey). unfold do_foxglove_server_start, try_ at 1, mbind at 1, CallM_bind at 1.
  destruct (configure_spec o (mo_generated now) h Henc Hinf Hcert Hkey) as (r & h' & -> & -> & Hr).
  destruct r as [b|e|]; [|split; [done|by destruct e]|done]. cbn [mbind result_bind].
  pose proof (start_blocking_spec o now b Hr) as Hs.
  destruct (start_blocking _ _ b) as [[s port]|e|]; cbn; [|by split|done]. destruct Hs as [Hnr Hs].
  split; [done|]. split; [done|]. by exists s, port.
Qed.

Lemma set_systems_app n h cb s port : host_inv n h → sys_inv n s → sv_tasks (sys_server s) = true →
  sys_responders s = [] → host_inv n (add_server cb s port h).
Proof.
  intros [I1 I2 I3 I4 I5 I6 I7 I8] Hs Ht Hr.
  assert (∀ p b, h_boxes h !! p = Some b → p ≠ h_next h) as Hfresh.
  { intros p b Hp ->. specialize (I1 _ (mk_is_Some _ _ Hp)). lia. }
  assert (∀ b, waits (add_server cb s port h) b ↔ waits h b) as Hw.
  { assert (∀ k key q, (∃ s1, (h_systems h ++ [s]) !! k = Some s1 ∧ awaits (sys_responders s1) key = Some q) ↔
      ∃ s1, h_systems h !! k = Some s1 ∧ awaits (sys_responders s1) key = Some q) as E.
    { intros k key q. split; intros (s1 & Hk & Ha); [|exists s1; by rewrite (lookup_app_l_Some _ _ _ _ Hk)].
      apply lookup_app_Some in Hk as [?|[_ Hk]]; [by exists s1|].
      apply list_lookup_singleton_Some in Hk as [_ <-]. by rewrite Hr in Ha. }
    intros []; cbn; try done; apply E. }
  split; cbn.
  - intros p [->|[_ Hp]]%lookup_insert_is_Some; [lia|]. specialize (I1 _ Hp). lia.
  - done.
  - intros k s1 [Hk|[_ Hk]]%lookup_app_Some; [by eapply I3|].
    by apply list_lookup_singleton_Some in Hk as [_ <-].
  - intros p o [[<- [= <-]]|[_ Hp]]%lookup_insert_Some.
    + exists (length (h_systems h)), port, s. split_and!; [done| |done].
      by rewrite lookup_app_r, Nat.sub_diag by lia.
    + destruct (I4 p o Hp) as (k & pt & s1 & -> & Hk & ?). exists k, pt, s1.
      by rewrite (lookup_app_l_Some _ _ _ _ Hk).
  - intros p q k pt pt' [[<- [= <- <-]]|[_ Hp]]%lookup_insert_Some [[<- [= <-]]|[_ Hq]]%lookup_insert_Some;
      try done.
    + destruct (I4 q _ Hq) as (k & pt2 & s1 & [= <- <-] & Hk & _). apply lookup_lt_Some in Hk. lia.
    + destruct (I4 p _ Hp) as (k' & pt2 & s1 & [= <- <-] & Hk & _). apply lookup_lt_Some in Hk. lia.
    + eauto.
  - intros p b [[<- <-]|[_ Hp]]%lookup_insert_Some Hb; [done|]. apply Hw. eauto.
  - intros b [p Hp]%Hw%I7. exists p. apply lookup_insert_Some. right. split; [|done].
    by apply not_eq_sym, (Hfresh p b).
  - intros p q b [[<- <-]|[_ Hp]]%lookup_insert_Some [[<- Eq]|[_ Hq]]%lookup_insert_Some Hb; try done.
    + by subst b.
    + eauto.
Qed.
Lemma sys_start_inv x w sv : fresh_server sv → sys_inv 0 (sys_start x w sv).
Proof. intros Hf. eapply calm_inv; [apply calm_with_context|]. by apply sys_init_inv. Qed.
Lemma start_call_spec n o now out h : host_inv n h → options_ok o →
  outcome (foxglove_server_start o now out) h (leaves_made n h).
Proof.
  intros Hi (Henc & Hinf & Hcert & Hkey & Hr). apply outcome_then.
  pose proof (do_start_spec o now h) as Hd. unfold outcome at 1.
  destruct (do_foxglove_server_start o now h) as [[[p|e|] h']|e|].
  - destruct Hd as (_ & _ & s & port & (sv & host & -> & Hst & _) & ->); [by split_and!|].
    eexists _, _. split; [done|]. apply outcome_ret, leaves_ok, (host_inv_mono n); [lia|].
    apply set_systems_app; [done| |by apply Hst|done]. apply (sys_inv_mono 0); [lia|]. apply sys_start_inv, Hst.
  - destruct Hd as (-> & He & _); [by split_and!|]. eexists _, _. split; [done|].
    apply outcome_ret. by apply leaves_error.
  - by destruct Hd.
  - by destruct Hd.
  - destruct Hd as [Hd Hnone]; [by split_and!|]. destruct (Hr Hd) as [[t Et] [u Eu]].
    unfold range_of in Hnone. by rewrite Et, Eu in Hnone.
Qed.
(** ** Calls of a server *)

Lemma add_services_errors new s e : add_services new s = Err e → CError_from e ≠ CSinkClosed.
Proof.
  unfold add_services, register_services. destruct (has_capability _ _); cbn [ensure mbind result_bind];
    [|by intros [= <-]].
  destruct new as [|v new]; cbn [mbind result_bind]; [done|]. set (l := v :: new).
  assert (∀ names m e, check_new_services (sys_server s) names m = Err e → CError_from e ≠ CSinkClosed) as Hnew.
  { intros names m. revert names. induction m as [|x m IH]; intros names e'; cbn; [done|].
    destruct (negb (bool_decide (svc_name x ∈ names))); cbn; [|by intros [= <-]].
    destruct (negb _); cbn; [apply IH|by intros [= <-]]. }
  assert (∀ m e, check_unregistered (sv_services (sys_server s)) m = Err e → CError_from e ≠ CSinkClosed) as Hun.
  { intros m. induction m as [|x m IH]; intros e'; cbn; [done|].
    destruct (negb _); cbn; [apply IH|by intros [= <-]]. }
  destruct (check_new_services _ _ _) as [[]|e1|] eqn:E1; cbn [mbind result_bind];
    [|intros [= <-]; by eapply Hnew|done].
  destruct (check_unregistered _ _) as [[]|e2|] eqn:E2; cbn [mbind result_bind];
    [|intros [= <-]; by eapply Hun|done].
  assert (∀ l m e, ServiceMap_extend (E:=FoxgloveError) l m ≠ Err e) as Hext.
  { clear. intros l. induction l as [|x l IH]; intros m e; cbn; [done|]. unfold ServiceMap_insert.
    destruct (_ !! _); [done|]. destruct (_ !! _); [done|]. apply IH. }
  destruct (ServiceMap_extend _ _) as [m|e3|] eqn:E3; cbn [mbind result_bind]; [|by apply Hext in E3|done].
  by destruct (as_services _).
Qed.
Lemma replace_graph_errors g s e : replace_connection_graph g s = Err e → CError_from e ≠ CSinkClosed.
Proof.
  unfold replace_connection_graph. destruct (sys_capability _ _); cbn [ensure mbind result_bind];
    [|by intros [= <-]]. by destruct (update _ _).
Qed.

Section server.
Context (n : nat) (h : Host) (Hi : host_inv n h).

Lemma broadcast_time_spec v t : live_or_null as_server v h →
  outcome (foxglove_server_broadcast_time v t) h (leaves n None h).
Proof.
  intros Hv. destruct v as [v|]; [|by apply outcome_error]. eapply outcome_handle; [done..|].
  intros k port s Hk Hs Ht Hb. eapply outcome_calm; [done|exact Hk|]. apply calmly_Ok, calm_broadcast_time.
Qed.
Lemma broadcast_playback_spec v p : live_or_null as_server v h →
  outcome (foxglove_server_broadcast_playback_state v p) h (leaves n None h).
Proof.
  intros Hv. destruct v as [v|]; [|by apply outcome_error]. eapply outcome_handle; [done..|].
  intros k port s Hk Hs Ht Hb. destruct p as [p|]; [|by apply outcome_error].
  assert (checked (FoxglovePlaybackState_to_native p)) as Hc.
  { unfold FoxglovePlaybackState_to_native. apply checked_bind; [by destruct (PlaybackStatus_try_from _)|].
    intros st. apply checked_bind; [|done]. destruct (FoxgloveString_is_empty _); [done|].
    apply checked_bind; [apply checked_utf8|done]. }
  destruct (FoxglovePlaybackState_to_native p) as [q|e|]; [|by apply outcome_error, bad_code|done].
  eapply outcome_calm; [done|exact Hk|]. apply calmly_Ok, calm_broadcast_playback.
Qed.
Lemma clear_session_spec version generated v id : live_or_null as_server v h →
  outcome (foxglove_server_clear_session version generated v id) h (leaves n None h).
Proof.
  intros Hv. destruct v as [v|]; [|by apply outcome_error]. eapply outcome_handle; [done..|].
  intros k port s Hk Hs Ht Hb. cbv zeta.
  destruct id as [id|]; [destruct (as_utf8_str id) as [x|]; [|by apply outcome_error]|];
    (eapply outcome_calm; [done|exact Hk|]; apply calmly_Ok, calm_clear_session).
Qed.
Lemma add_service_spec v w : live_or_null as_server v h → live_or_null as_service w h →
  outcome (foxglove_server_add_service v w) h (leaves n w h).
Proof.
  intros Hv Hw. destruct v as [v|]; [|by apply outcome_error]. destruct w as [w|]; [|by apply outcome_error].
  eapply outcome_handle; [done..|]. intros k port s Hk Hs Ht Hb.
  apply outcome_then, outcome_from_raw; [done|]. intros b service Hw' Ha.
  assert (host_inv n (set_boxes (delete w (h_boxes h)) h)) as Hi'.
  { eapply inv_delete; [done|exact Hw'|by destruct b]. }
  eapply outcome_calm_or_error; [exact Hi'|exact Hk| |].
  - apply calmly_add_services; [apply Hs|apply NoDup_singleton].
  - intros e He. split; [apply (host_inv_mono n); [lia|done]|]. intros _.
    split; [by eapply add_services_errors|]. split; [done|]. right. by exists w.
Qed.
Lemma remove_service_spec v x : live_or_null as_server v h →
  outcome (foxglove_server_remove_service v x) h (leaves n None h).
Proof.
  intros Hv. destruct v as [v|]; [|by apply outcome_error]. eapply outcome_handle; [done..|].
  intros k port s Hk Hs Ht Hb. destruct (as_utf8_str x) as [y|]; [|by apply outcome_error].
  eapply outcome_calm; [done|exact Hk|]. apply calmly_Ok, calm_remove_services, Hs.
Qed.
Lemma publish_parameters_spec v w : live_or_null as_server v h → live_or_null as_params w h →
  outcome (foxglove_server_publish_parameter_values v w) h (leaves n w h).
Proof.
  intros Hv Hw. destruct w as [w|]; [|by apply outcome_error].
  apply outcome_then, outcome_from_raw; [done|]. intros b l Hw' Ha.
  assert (host_inv n (set_boxes (delete w (h_boxes h)) h)) as Hi'.
  { eapply inv_delete; [done|exact Hw'|by destruct b]. }
  destruct v as [v|].
  - eapply outcome_handle; [exact Hi'| |].
    + cbn in Hv |- *. unfold live in *. cbn. rewrite lookup_delete_ne; [done|]. intros ->.
      rewrite Hw' in Hv. cbn in Hv. destruct b; try done. by destruct Hv.
    + intros k port s Hk Hs Ht Hb. eapply outcome_calm; [exact Hi'|exact Hk|].
      apply calmly_Ok, calm_publish_parameters.
  - apply outcome_ret. split; [apply (host_inv_mono n); [lia|done]|]. intros _. split_and!; [done..|].
    right. by exists w.
Qed.
Lemma publish_graph_spec v w : live_or_null as_server v h → live_or_null as_graph w h →
  outcome (foxglove_server_publish_connection_graph v w) h (leaves n None h).
Proof.
  intros Hv Hw. destruct v as [v|]; [|by apply outcome_error]. destruct w as [w|]; [|by apply outcome_error].
  eapply outcome_handle; [done..|]. intros k port s Hk Hs Ht Hb.
  apply outcome_then, outcome_deref; [done|]. intros b g _ _.
  eapply outcome_calm_or_error; [done|exact Hk|apply calm_replace_graph|].
  intros e He. apply leaves_error; [done|]. by eapply replace_graph_errors.
Qed.
Lemma publish_status_spec v l m i : live_or_null as_server v h →
  outcome (foxglove_server_publish_status v l m i) h (leaves n None h).
Proof.
  intros Hv. destruct v as [v|]; [|by apply outcome_error]. eapply outcome_handle; [done..|].
  intros k port s Hk Hs Ht Hb. destruct (as_utf8_str m) as [x|]; [|by apply outcome_error]. cbv zeta.
  destruct i as [i|]; [destruct (as_utf8_str i) as [y|]; [|by apply outcome_error]|];
    (eapply outcome_calm; [done|exact Hk|]; eapply calmly_publish_status, sys_inv_live, Hs).
Qed.
Lemma remove_status_spec v a : live_or_null as_server v h → array_ok a →
  outcome (foxglove_server_remove_status v a) h (leaves n None h).
Proof.
  intros Hv Ha. destruct v as [v|]; [|by apply outcome_error]. eapply outcome_handle; [done..|].
  intros k port s Hk Hs Ht Hb. unfold array_ok in Ha.
  destruct (ca_items a) as [l|] eqn:El; [|by apply outcome_error].
  apply outcome_then. eapply outcome_array; [done..|]. destruct (mapM _ _) as [ids|]; [|by apply outcome_error].
  eapply outcome_calm; [done|exact Hk|]. apply calmly_Ok, calm_broadcast.
Qed.
Lemma stop_spec v : live_or_null as_server v h → outcome (foxglove_server_stop v) h (leaves n None h).
Proof.
  intros Hv. destruct v as [v|]; [|by apply outcome_error]. apply outcome_then, outcome_from_raw; [done|].
  intros [] o Hb; try done. intros [= ->].
  destruct (hi_server n h Hi v _ Hb) as (k & port & s & -> & Hk & Ht). apply outcome_then.
  set (h1 := set_boxes _ h). assert (host_inv n h1) as Hi1.
  { destruct Hi as [I1 I2 I3 I4 I5 I6 I7 I8].
    assert (∀ b, waits h1 b ↔ waits h b) as Hw by (intros b; by apply waits_systems).
    split; cbn; try done.
    - intros q [c [_ Hc]%lookup_delete_Some]. eauto.
    - intros q o [_ Hq]%lookup_delete_Some. eauto.
    - intros q q' k' pt pt' [_ Hq]%lookup_delete_Some [_ Hq']%lookup_delete_Some. eauto.
    - intros q b [_ Hq]%lookup_delete_Some Hr. apply Hw. eauto.
    - intros b Hw'%Hw. destruct (I7 b Hw') as [q Hq]. exists q. apply lookup_delete_Some. split; [|done].
      intros <-. rewrite Hb in Hq. by injection Hq as <-.
    - intros q q' b [_ Hq]%lookup_delete_Some [_ Hq']%lookup_delete_Some. eauto. }
  assert (handle_stop s = Ok (stop s).2) as E by (unfold handle_stop, stop; by rewrite Ht).
  unfold outcome, on_system. cbn [fst h_systems set_boxes h1]. rewrite Hk, E. eexists tt, _. split; [done|].
  apply outcome_ret, leaves_ok. eapply (inv_system_any n (S n) h1); [done|lia|done| | |].
  - apply (sys_inv_mono n); [lia|]. apply stop_inv. by eapply hi_systems.
  - intros q pt Hq. cbn in Hq. apply lookup_delete_Some in Hq as [Hne Hq].
    by destruct Hne; eapply (hi_one n h Hi).
  - intros key. unfold stop. rewrite Ht. cbn [snd]. by erewrite (calm_awaits _ _ (calm_shut_down _ _)).
Qed.
Lemma get_port_spec v : live_or_null as_server v h →
  outcome (foxglove_server_get_port v) h (λ _ h', h' = h).
Proof.
  intros Hv. destruct v as [v|]; [|by apply outcome_ret]. apply outcome_then, outcome_deref; [done|].
  intros b o _ _. by apply outcome_ret.
Qed.
Lemma client_count_spec v : live_or_null as_server v h →
  outcome (foxglove_server_get_client_count v) h (λ _ h', h' = h).
Proof.
  intros Hv. destruct v as [v|]; [|by apply outcome_ret]. apply outcome_then, outcome_deref; [done|].
  intros [] o Hb; try done. intros [= ->]. destruct (hi_server n h Hi v _ Hb) as (k & port & s & -> & Hk & _).
  unfold outcome, count_clients. cbn [fst]. rewrite Hk. eauto.
Qed.

End server.

(** New responders get boxes. *)
Lemma call_handlers_spec bs h : (∀ p, is_Some (h_boxes h !! p) → (p < h_next h)%nat) →
  ∃ ps h', call_handlers bs h = Ok (ps, h') ∧ h_systems h' = h_systems h ∧
    h_service_id h' = h_service_id h ∧ h_next h' = (h_next h + length bs)%nat ∧
    ∀ p b, h_boxes h' !! p = Some b ↔ h_boxes h !! p = Some b ∨
      ∃ i, p = (h_next h + i)%nat ∧ bs !! i = Some b.
Proof.
  revert h. induction bs as [|b bs IH]; intros h Hnx.
  { exists [], h. split_and!; [done..|cbn; lia|]. intros p b. split; [by left|]. by intros [?|(i & _ & ?)]. }
  set (h1 := {| h_boxes := <[h_next h := b]> (h_boxes h); h_systems := h_systems h;
    h_callbacks := h_callbacks h; h_next := S (h_next h); h_service_id := h_service_id h |}).
  destruct (IH h1) as (ps & h' & E & Es & Eid & En & Hb).
  { intros p. cbn. intros [->|[_ Hp]]%lookup_insert_is_Some; [lia|]. specialize (Hnx p Hp). lia. }
  exists (h_next h :: ps), h'. split.
  { change (call_handlers (b :: bs) h) with
      ('(ps, h') ← call_handlers bs h1; Ok (E:=Undefined) (h_next h :: ps, h')). by rewrite E. }
  split_and!; [done..|rewrite En; cbn; lia|]. intros p c. rewrite Hb. cbn. rewrite lookup_insert_Some.
  split.
  - intros [[[<- <-]|[_ Hp]]|(i & -> & Hi)]; [|by left|].
    + right. exists 0%nat. split; [lia|done].
    + right. exists (S i). split; [lia|done].
  - intros [Hp|([|i] & -> & Hi)].
    + left. right. split; [|done]. intros <-. specialize (Hnx _ (mk_is_Some _ _ Hp)). lia.
    + left. left. cbn in Hi. injection Hi as <-. split; [lia|done].
    + right. exists i. split; [lia|done].
Qed.
Lemma new_boxes k old l i b : imap (λ i, box_of k (old + i)) l !! i = Some b ↔
  ∃ r, l !! i = Some r ∧ b = box_of k (old + i) r.
Proof. rewrite list_lookup_imap, fmap_Some. done. Qed.
Lemma box_of_waits h k s key r : h_systems h !! k = Some s → sys_responders s !! key = Some r →
  unanswered r = true → waits h (box_of k key r).
Proof.
  intros Hk Hr Hu. destruct r as [[i|]|[i|]]; try done; cbn; exists s; (split; [done|]);
    unfold awaits; by rewrite Hr.
Qed.

(** What happens between the calls, unless a callback panics. *)
Definition heard (display : ParseError → string) (k : nat) (op : SysOp) h : result string (list CCall) :=
  match h_systems h !! k, mjoin (h_callbacks h !! k) with
  | Some s, Some self =>
    match run_sys display op s with
    | Ok s' => hear self (sink_of s s') (drop (length (sys_effects s)) (sys_effects s'))
    | _ => Ok []
    end
  | _, _ => Ok []
  end.
Lemma happens_spec n display k op h : host_inv n h → is_Some (h_systems h !! k) → background op = true →
  Z.of_nat n + 2 < 2 ^ 32 →
  match heard display k op h with
  | Ok _ => outcome (happens display k op) h (λ _ h', host_inv (S n) h')
  | _ => happens display k op h = Panic
  end.
Proof.
  intros Hi [s Hk] Hop Hn. pose proof (hi_systems n h Hi k s Hk) as Hs.
  destruct (run_background n display op s Hs Hop Hn) as (s' & E & Hs' & [Ht (new & Er & Hnew)]).
  unfold heard, outcome, happens. rewrite Hk, E. cbv zeta.
  set (hd := match mjoin _ with Some _ => _ | None => _ end). destruct hd as [told| |]; [|done..].
  rewrite Er, drop_app_length.
  set (old := length (sys_responders s)). set (bs := imap _ new). set (h1 := set_systems _ h).
  destruct (call_handlers_spec bs h1) as (ps & h' & -> & Es & Eid & En & Hb); [apply (hi_next n h Hi)|].
  exists (ps, told), h'. split; [done|]. apply (host_inv_mono n (S n)) in Hi; [|lia].
  pose proof (lookup_lt_Some _ _ _ Hk) as Hlt.
  assert (h_systems h' !! k = Some s') as Hk' by (rewrite Es; by apply list_lookup_insert_eq).
  assert (∀ k', k' ≠ k → h_systems h' !! k' = h_systems h !! k') as Hother.
  { intros k' Hne. rewrite Es. by apply list_lookup_insert_ne. }
  (* the boxes before, and the new ones *)
  assert (∀ b, waits h b → waits h' b) as Hold.
  { assert (∀ k1 key q, (∃ s1, h_systems h !! k1 = Some s1 ∧ awaits (sys_responders s1) key = Some q) →
      ∃ s1, h_systems h' !! k1 = Some s1 ∧ awaits (sys_responders s1) key = Some q) as Hex.
    { intros k1 key q (s1 & Hs1 & Ha). destruct (decide (k1 = k)) as [->|Hne];
        [|exists s1; by rewrite Hother]. exists s'. split; [done|].
      rewrite Hk in Hs1. injection Hs1 as <-. unfold awaits in *. rewrite Er.
      destruct (sys_responders s !! key) as [r|] eqn:Hr; [|done]. by rewrite (lookup_app_l_Some _ _ _ _ Hr). }
    intros []; cbn; try done; apply Hex. }
  assert (∀ i b, bs !! i = Some b → is_responder b = true ∧ waits h' b ∧
    ∃ r, new !! i = Some r ∧ b = box_of k (old + i) r) as Hbs.
  { intros i b (r & Hr & ->)%new_boxes. split; [by destruct r|]. split; [|eauto].
    eapply box_of_waits; [exact Hk'| |]; [rewrite Er, lookup_app_r by lia;
      by replace (old + i - length (sys_responders s))%nat with i by lia|].
    apply (proj1 (forallb_forall _ _) Hnew), list_elem_of_In. by eapply list_elem_of_lookup_2. }
  assert (∀ i b, bs !! i = Some b → ¬ waits h b) as Hnotold.
  { intros i b Hib Hw. destruct (Hbs i b Hib) as (_ & _ & r & _ & ->).
    assert (∃ q, awaits (sys_responders s) (old + i) = Some q) as [q Hq].
    { destruct r; cbn in Hw; destruct Hw as (s1 & Hs1 & Ha); simplify_eq; eauto. }
    unfold awaits in Hq. by rewrite lookup_ge_None_2 in Hq by lia. }
  assert (∀ b, waits h' b → waits h b ∨ ∃ i, bs !! i = Some b) as Hcases.
  { intros b Hw. assert (∃ k1 key s1 r, h_systems h' !! k1 = Some s1 ∧ sys_responders s1 !! key = Some r ∧
      unanswered r = true ∧ b = box_of k1 key r) as (k1 & key & s1 & r & Hs1 & Hr & Hu & ->).
    { destruct b as [| | | |k1 key|k1 key]; try done; cbn in Hw; destruct Hw as (s1 & Hs1 & Ha);
        unfold awaits in Ha; exists k1, key, s1; destruct (sys_responders s1 !! key) as [[[i|]|[i|]]|];
        try done; eexists; by split_and!. }
    destruct (decide (k1 = k)) as [->|Hne].
    - rewrite Hk' in Hs1. injection Hs1 as <-. rewrite Er in Hr.
      apply lookup_app_Some in Hr as [Hr|[Hge Hr]]; [left; by eapply box_of_waits|].
      right. exists (key - old)%nat. apply new_boxes. exists r. split; [done|].
      by replace (old + (key - old))%nat with key by lia.
    - left. rewrite Hother in Hs1 by done. by eapply box_of_waits. }
  destruct Hi as [I1 I2 I3 I4 I5 I6 I7 I8]. split.
  - intros p [b [Hp|(i & -> & Hib)]%Hb]; rewrite En; cbn; [|apply lookup_lt_Some in Hib; lia].
    specialize (I1 p (mk_is_Some _ _ Hp)). lia.
  - by rewrite Eid.
  - intros k1 s1 Hs1. destruct (decide (k1 = k)) as [->|Hne]; [rewrite Hk' in Hs1; by injection Hs1 as <-|].
    rewrite Hother in Hs1 by done. eauto.
  - intros p o [Hp|(i & -> & Hib)]%Hb; [|by destruct (Hbs i _ Hib)].
    destruct (I4 p o Hp) as (k1 & port & s1 & -> & Hs1 & Ht1). exists k1, port.
    destruct (decide (k1 = k)) as [->|Hne]; [exists s'; rewrite Hk in Hs1; injection Hs1 as <-|
      exists s1; by rewrite Hother]. by rewrite Ht.
  - intros p q k1 port port' [Hp|(i & -> & Hib)]%Hb [Hq|(j & -> & Hjb)]%Hb;
      [by eapply I5| |..]; [by destruct (Hbs j _ Hjb)|by destruct (Hbs i _ Hib)..].
  - intros p b [Hp|(i & -> & Hib)]%Hb Hr; [apply Hold; eauto|by apply (Hbs i)].
  - intros b [Hw|[i Hib]]%Hcases.
    + destruct (I7 b Hw) as [p Hp]. exists p. apply Hb. by left.
    + exists (h_next h + i)%nat. apply Hb. right. by exists i.
  - intros p q b [Hp|(i & -> & Hib)]%Hb [Hq|(j & -> & Hjb)]%Hb Hr; [by eapply I8| | |].
    + destruct (Hnotold j b Hjb). by eapply I6.
    + destruct (Hnotold i b Hib). by eapply I6.
    + destruct (Hbs i b Hib) as (_ & _ & r & _ & ->), (Hbs j _ Hjb) as (_ & _ & r' & _ & E').
      destruct r, r'; cbn in E'; simplify_eq; f_equal; lia.
Qed.

(** ** Every call *)

(** What an answer says went wrong. *)
Definition failed (a : ServerAnswer) : option CError :=
  match a with
  | RCode COk | RMade COk _ => None
  | RCode e | RMade e _ => Some e
  | _ => None
  end.
Definition answered (n : nat) (c : ServerCall) h (a : ServerAnswer) h' : Prop :=
  host_inv (S n) h' ∧
  ∀ e, failed a = Some e → e ≠ CSinkClosed ∧ h_systems h' = h_systems h ∧
    (h_boxes h' = h_boxes h ∨ ∃ p, moved c = Some p ∧ h_boxes h' = delete p (h_boxes h)).

Variable display_utf8 : list byte → string.
Variable display : ParseError → string.

Lemma answered_code n c h (m : CallM CError) : outcome m h (leaves n (moved c) h) →
  outcome (answer_with RCode m) h (answered n c h).
Proof.
  intros Hm. apply outcome_then. eapply outcome_wand; [exact Hm|]. intros e h' [Hi He].
  apply outcome_ret. split; [done|]. intros e' Hf. destruct e; try done; injection Hf as <-; by apply He.
Qed.
Lemma answered_made n c h (m : CallM (CError * option nat)) : outcome m h (leaves_made n h) →
  outcome (answer_with made m) h (answered n c h).
Proof.
  intros Hm. apply outcome_then. eapply outcome_wand; [exact Hm|]. intros [e p] h' [Hi He].
  apply outcome_ret. split; [done|]. cbn [fst] in He. intros e' Hf.
  assert (e ≠ COk ∧ e' = e) as [Hne ->] by by destruct e; try done; injection Hf as <-.
  destruct (He Hne) as (? & ? & [?|(q & Hq & _)]); [|done]. split_and!; [done..|by left].
Qed.
Lemma answered_quiet {A} n c h (f : A → ServerAnswer) (m : CallM A) : (∀ x, failed (f x) = None) →
  outcome m h (λ _ h', host_inv (S n) h') → outcome (answer_with f m) h (answered n c h).
Proof.
  intros Hf Hm. apply outcome_then. eapply outcome_wand; [exact Hm|]. intros x h' Hi.
  apply outcome_ret. split; [done|]. intros e. by rewrite Hf.
Qed.
Lemma call_spec n c h : host_inv n h → call_ok c h → Z.of_nat n + 2 < 2 ^ 32 →
  outcome (run_call display_utf8 c) h (answered n c h).
Proof.
  intros Hi Hok Hn.
  assert (host_inv (S n) h) as Hi' by (apply (host_inv_mono n); [lia|done]).
  assert (∀ p b, h_boxes h !! p = Some b → is_responder b || is_server b = false →
    host_inv (S n) (set_boxes (delete p (h_boxes h)) h)) as Hdel by (intros; by eapply inv_delete).
  destruct c; cbn [run_call call_ok] in *.
  - apply answered_made. destruct out_null; [by apply outcome_ret, leaves_error|by apply into_raw_spec].
  - apply answered_quiet; [done|]. destruct graph as [p|]; [|done].
    apply outcome_then, outcome_from_raw; [done|]. intros b g Hb Ha. apply outcome_ret.
    eapply Hdel; [exact Hb|by destruct b].
  - destruct Hok. by apply answered_code, set_ids_spec.
  - destruct Hok. by apply answered_code, set_ids_spec.
  - destruct Hok. by apply answered_code, set_ids_spec.
  - by apply answered_made, service_create_spec.
  - apply answered_quiet; [done|]. destruct service as [p|]; [|by apply outcome_ret].
    apply outcome_then, outcome_from_raw; [done|]. intros b g Hb Ha. apply outcome_ret.
    eapply Hdel; [exact Hb|by destruct b].
  - by apply answered_code, set_encoding_spec.
  - apply answered_quiet; [done|]. destruct Hok as [Hr Hd].
    eapply response_spec; [done|by left|done|by intros; apply respond_data].
  - apply answered_quiet; [done|]. by eapply response_spec; [done|left| |].
  - apply answered_quiet; [done|]. destruct Hok as [Hr Hd].
    eapply response_spec; [done|by right|done|by intros; apply respond_data].
  - apply answered_quiet; [done|]. by eapply response_spec; [done|right| |].
  - apply answered_quiet; [done|]. eapply outcome_wand; [by apply (inv_into_raw (S n))|]. by intros p h' [? _].
  - by apply answered_made, start_call_spec.
  - by apply answered_code, broadcast_time_spec.
  - by apply answered_code, broadcast_playback_spec.
  - by apply answered_code, clear_session_spec.
  - destruct Hok. by apply answered_code, add_service_spec.
  - by apply answered_code, remove_service_spec.
  - apply answered_quiet; [done|]. eapply outcome_wand; [by eapply get_port_spec|]. by intros x h' ->.
  - apply answered_quiet; [done|]. eapply outcome_wand; [by eapply client_count_spec|]. by intros x h' ->.
  - by apply answered_code, stop_spec.
  - destruct Hok. by apply answered_code, publish_parameters_spec.
  - destruct Hok. by apply answered_code, publish_graph_spec.
  - by apply answered_code, publish_status_spec.
  - destruct Hok. by apply answered_code, remove_status_spec.
Qed.

(** What happens is what clients and threads do with a system. *)
Definition step_allowed (e : ServerStep) h : Prop :=
  match e with
  | Calls c => call_ok c h
  | Happens k op => is_Some (h_systems h !! k) ∧ background op = true
  end.
(** A callback panics. *)
Definition panics (e : ServerStep) h : Prop :=
  match e with
  | Calls _ => False
  | Happens k op => match heard display k op h with Ok _ => False | _ => True end
  end.
Lemma server_step_spec n e h : host_inv n h → step_allowed e h → Z.of_nat n + 2 < 2 ^ 32 →
  outcome (run_step display_utf8 display e) h (λ a h', host_inv (S n) h' ∧ failed a ≠ Some CSinkClosed) ∨
  (panics e h ∧ run_step display_utf8 display e h = Panic).
Proof.
  intros Hi Hok Hn. destruct e as [c|k op].
  - left. eapply outcome_wand; [by apply call_spec|]. intros a h' [Hi' Ha]. split; [done|].
    intros Hf. by destruct (Ha _ Hf).
  - destruct Hok as [Hk Hop]. pose proof (happens_spec n display k op h Hi Hk Hop Hn) as Hh. unfold panics.
    destruct (heard display k op h) as [told| |].
    + left. apply outcome_then. eapply outcome_wand; [exact Hh|]. intros [ps l] h' Hi'. by apply outcome_ret.
    + right. split; [done|]. cbn [run_step]. unfold answer_with, mbind, CallM_bind. by rewrite Hh.
    + right. split; [done|]. cbn [run_step]. unfold answer_with, mbind, CallM_bind. by rewrite Hh.
Qed.

(** A program keeps the ownership rules. *)
Fixpoint disciplined (steps : list ServerStep) h : Prop :=
  match steps with
  | [] => True
  | e :: steps => step_allowed e h ∧
    ∀ a h', run_step display_utf8 display e h = Ok (a, h') → disciplined steps h'
  end.
(** It runs to its end, or up to a callback that panics. *)
Lemma program_spec steps n h : host_inv n h → disciplined steps h →
  Z.of_nat n + Z.of_nat (length steps) + 1 < 2 ^ 32 →
  ∃ done rest answers h', steps = done ++ rest ∧ run_calls display_utf8 display done h = Ok (answers, h') ∧
    host_inv (n + length done) h' ∧ (RCode CSinkClosed ∉ answers) ∧
    match rest with
    | [] => True
    | e :: _ => panics e h' ∧ run_calls display_utf8 display steps h = Panic
    end.
Proof.
  revert n h. induction steps as [|e steps IH]; intros n h Hi Hd Hn.
  { exists [], [], [], h. rewrite Nat.add_0_r. split_and!; [done..|apply not_elem_of_nil|done]. }
  destruct Hd as [Hok Hd]. cbn [length] in Hn.
  destruct (server_step_spec n e h Hi Hok) as [(a & h1 & E & Hi1 & Ha)|[Hp E]]; [lia| |].
  - destruct (IH (S n) h1 Hi1 (Hd a h1 E)) as (done & rest & l & h2 & -> & E2 & Hi2 & Hl & Hrest); [lia|].
    exists (e :: done), rest, (a :: l), h2. cbn [run_calls app length]. rewrite E. cbn [mbind result_bind].
    rewrite E2. split_and!; [done|done| | |].
    + by replace (n + S (length done))%nat with (S n + length done)%nat by lia.
    + intros [<-|Hin]%elem_of_cons; [|done]. by apply Ha.
    + destruct rest as [|e' rest]; [done|]. destruct Hrest as [? ->]. done.
  - exists [], (e :: steps), [], h. rewrite Nat.add_0_r.
    split_and!; [done..|apply not_elem_of_nil|done|]. cbn [run_calls]. by rewrite E.
Qed.
(** A run that is given. *)
Lemma server_program_runs steps n h answers h' : host_inv n h → disciplined steps h →
  Z.of_nat n + Z.of_nat (length steps) + 1 < 2 ^ 32 →
  run_calls display_utf8 display steps h = Ok (answers, h') → host_inv (n + length steps) h'.
Proof.
  intros Hi Hd Hn E. destruct (program_spec steps n h Hi Hd Hn) as (done & rest & l & h2 & -> & Ed & Hi2 & _ & Hr).
  destruct rest as [|e rest]; [|by rewrite E in Hr; destruct Hr].
  rewrite app_nil_r in *. rewrite E in Ed. by injection Ed as _ <-.
Qed.
(** One pointer leads to the box. *)
Definition sole (b : Box) h : Prop := ∃ p, ∀ q, h_boxes h !! q = Some b ↔ q = p.
Lemma waits_sole n h b : host_inv n h → waits h b → sole b h.
Proof.
  intros Hi Hw. destruct (hi_boxed n h Hi b Hw) as [p Hp]. exists p. intros q. split; [|by intros ->].
  intros Hq. eapply (hi_unique n h Hi); [done..|]. by destruct b.
Qed.
End proofs.

(** *** Checking the rules *)

Definition liveb {A} (as_a : Box → option A) (p : nat) (boxes : gmap nat Box) : bool :=
  match boxes !! p ≫= as_a with Some _ => true | None => false end.
Definition nullableb {A} (as_a : Box → option A) (p : option nat) (boxes : gmap nat Box) : bool :=
  match p with Some p => liveb as_a p boxes | None => true end.
Definition pointsb {A} (as_a : Box → option A) (p : option nat) (boxes : gmap nat Box) : bool :=
  match p with Some p => liveb as_a p boxes | None => false end.
Definition array_okb {A} (a : CArray A) : bool :=
  match ca_items a with Some l => (ca_count a <=? length l)%nat | None => true end.
Definition bytes_okb (a : FoxgloveBytes) : bool :=
  match ca_items a with Some _ => array_okb a | None => false end.
Definition options_okb (o : FoxgloveServerOptions) : bool :=
  array_okb (fso_supported_encodings o) && array_okb (fso_server_info o) &&
  array_okb (fso_tls_cert o) && array_okb (fso_tls_key o) &&
  (negb (Z.land (fso_capabilities o) FOXGLOVE_SERVER_CAPABILITY_RANGED_PLAYBACK
         =? FOXGLOVE_SERVER_CAPABILITY_RANGED_PLAYBACK) ||
   match fso_playback_start_time o, fso_playback_end_time o with Some _, Some _ => true | _, _ => false end).
Definition call_okb `{Flume} `{BiMap} (c : ServerCall) (h : Host) : bool :=
  let b := h_boxes h in
  match c with
  | GraphCreate _ | ServiceCreate _ _ _ _ | ParamsFinished _ => true
  | GraphFree g => pointsb as_graph g b
  | SetPublishedTopic g _ l | SetSubscribedTopic g _ l | SetAdvertisedService g _ l =>
    liveb as_graph g b && array_okb l
  | ServiceFree v => nullableb as_service v b
  | SetResponseEncoding r _ => nullableb as_service_responder r b
  | ServiceRespondOk r d => pointsb as_service_responder r b && bytes_okb d
  | ServiceRespondError r _ => pointsb as_service_responder r b
  | AssetRespondOk r d => pointsb as_asset_responder r b && bytes_okb d
  | AssetRespondError r _ => pointsb as_asset_responder r b
  | ServerStart o _ _ => options_okb o
  | BroadcastTime v _ | BroadcastPlayback v _ | ClearSession _ _ v _ | RemoveService v _ | GetPort v
  | GetClientCount v | ServerStop v | PublishStatus v _ _ _ => nullableb as_server v b
  | AddService v w => nullableb as_server v b && nullableb as_service w b
  | PublishParams v w => nullableb as_server v b && nullableb as_params w b
  | PublishGraph v w => nullableb as_server v b && nullableb as_graph w b
  | RemoveStatuses v l => nullableb as_server v b && array_okb l
  end.
Definition step_allowedb `{Flume} `{BiMap} (e : ServerStep) (h : Host) : bool :=
  match e with
  | Calls c => call_okb c h
  | Happens k op => (k <? length (h_systems h))%nat && background op
  end.
Section check.
Context `{Flume} `{BiMap}.
Implicit Types h : Host.
Lemma liveb_ok {A} (as_a : Box → option A) p h : liveb as_a p (h_boxes h) = true → live as_a p h.
Proof. unfold liveb, live. by destruct (_ ≫= _). Qed.
Lemma nullableb_ok {A} (as_a : Box → option A) p h :
  nullableb as_a p (h_boxes h) = true → live_or_null as_a p h.
Proof. destruct p; [apply liveb_ok|done]. Qed.
Lemma pointsb_ok {A} (as_a : Box → option A) p h : pointsb as_a p (h_boxes h) = true → live_ptr as_a p h.
Proof. destruct p; [apply liveb_ok|done]. Qed.
Lemma array_okb_ok {A} (a : CArray A) : array_okb a = true → array_ok a.
Proof. unfold array_okb, array_ok. destruct (ca_items a); [by apply Nat.leb_le|done]. Qed.
Lemma bytes_okb_ok a : bytes_okb a = true → bytes_ok a.
Proof.
  unfold bytes_okb, bytes_ok. destruct (ca_items a) eqn:E; [|done]. intros Ha%array_okb_ok.
  split; [by eexists|done].
Qed.
Lemma options_okb_ok o : options_okb o = true → options_ok o.
Proof.
  unfold options_okb. intros [[[[H1 H2]%andb_true_iff H3]%andb_true_iff H4]%andb_true_iff H5]%andb_true_iff.
  do 4 (split; [by apply array_okb_ok|]). intros E%Z.eqb_eq. rewrite E in H5. cbn in H5.
  by destruct (fso_playback_start_time o), (fso_playback_end_time o).
Qed.
#[local] Hint Resolve liveb_ok nullableb_ok pointsb_ok array_okb_ok bytes_okb_ok options_okb_ok : core.
Lemma call_okb_ok c h : call_okb c h = true → call_ok c h.
Proof.
  destruct c; cbn [call_okb call_ok]; auto;
    intros [? ?]%andb_true_iff; split; by auto.
Qed.
Lemma step_allowedb_ok e h : step_allowedb e h = true → step_allowed e h.
Proof.
  destruct e as [c|k op]; cbn; [apply call_okb_ok|].
  intros [Hk%Nat.ltb_lt ?]%andb_true_iff. split; [by apply lookup_lt_is_Some|done].
Qed.
End check.

(** ** What clients advertise *)

(** What C reads at a pointer: up to the first byte 0. *)
Fixpoint read_c (memory : list byte) : list byte :=
  match memory with
  | [] => []
  | b :: memory => if Byte.eqb b Byte.x00 then [] else b :: read_c memory
  end.
Definition has_nul (s : string) : Prop := Byte.x00 ∈ as_bytes s.
Definition channel_strings (ch : ClientChannel) : list string :=
  [cc_topic ch; cc_encoding ch; cc_schema_name ch] ++ option_list (cc_schema_encoding ch).

Lemma read_c_app l : Byte.x00 ∉ l → read_c (l ++ [Byte.x00]) = l.
Proof.
  induction l as [|b l IH]; [done|]. intros [Hb Hl]%not_elem_of_cons. cbn.
  destruct (Byte.eqb b Byte.x00) eqn:E; [|by rewrite IH].
  apply Byte.byte_dec_bl in E. by destruct Hb.
Qed.
Lemma CString_new_spec {E} s :
  (has_nul s ∧ CString_new (E:=E) s = Panic) ∨
  (¬ has_nul s ∧ ∃ m, CString_new (E:=E) s = Ok m ∧ read_c m = as_bytes s).
Proof.
  unfold CString_new, has_nul. case_bool_decide as Hs; [by left|]. right. split; [done|].
  eexists. split; [done|]. by apply read_c_app.
Qed.
Lemma has_nul_not_all ch s : s ∈ channel_strings ch → has_nul s → ¬ Forall (λ s, ¬ has_nul s) (channel_strings ch).
Proof. intros Hin Hs Hall. rewrite Forall_forall in Hall. by apply (Hall s). Qed.

(** The callback of an advertisement panics exactly for a string with a byte 0. *)
Lemma c_on_client_advertise_panics self client ch :
  match c_on_client_advertise self client ch with
  | Ok _ => True
  | Panic => cb_on_client_advertise self = true ∧ Exists has_nul (channel_strings ch)
  | Err _ => False
  end.
Proof.
  unfold c_on_client_advertise, channel_strings. destruct (cb_on_client_advertise self); cbn [negb]; [|done].
  destruct (CString_new_spec (E:=string) (cc_topic ch)) as [[Hs ->]|(_ & t & -> & _)]; cbn [mbind result_bind].
  { split; [done|]. by apply Exists_cons_hd. }
  destruct (CString_new_spec (E:=string) (cc_encoding ch)) as [[Hs ->]|(_ & e & -> & _)]; cbn [mbind result_bind].
  { split; [done|]. by apply Exists_cons_tl, Exists_cons_hd. }
  destruct (CString_new_spec (E:=string) (cc_schema_name ch)) as [[Hs ->]|(_ & n & -> & _)]; cbn [mbind result_bind].
  { split; [done|]. by do 2 apply Exists_cons_tl; apply Exists_cons_hd. }
  destruct (cc_schema_encoding ch) as [se|]; cbn [mbind result_bind]; [|done].
  destruct (CString_new_spec (E:=string) se) as [[Hs ->]|(_ & x & -> & _)]; cbn [mbind result_bind]; [|done].
  split; [done|]. by do 3 apply Exists_cons_tl; apply Exists_cons_hd.
Qed.
Lemma hear_panics self sinks l :
  match hear self sinks l with
  | Ok _ => True
  | Panic => ∃ client ch, EfClientAdvertise client ch ∈ l ∧ cb_on_client_advertise self = true ∧
      Exists has_nul (channel_strings ch)
  | Err _ => False
  end.
Proof.
  induction l as [|e l IH]; cbn [hear]; [done|].
  assert (match c_hears self sinks e with
    | Ok _ => True
    | Panic => ∃ client ch, e = EfClientAdvertise client ch ∧ cb_on_client_advertise self = true ∧
        Exists has_nul (channel_strings ch)
    | Err _ => False end) as He.
  { destruct e; try done. pose proof (c_on_client_advertise_panics self client channel) as Hc. cbn.
    destruct (c_on_client_advertise self client channel); [done|done|]. by exists client, channel. }
  destruct (c_hears self sinks e); cbn [mbind result_bind]; [|done|].
  - destruct (hear self sinks l); cbn [mbind result_bind]; [done|done|].
    destruct IH as (client & ch & Hin & H1). exists client, ch. split; [by right|done].
  - destruct He as (client & ch & -> & H1). exists client, ch. split; [left|done].
Qed.

(** In the system [k] a client advertises, to a listener with that callback, a channel of
    which a string holds a byte 0. *)
Definition advertises_nul `{Flume} `{BiMap} `{Buf} `{Json} `{Base64} (display : ParseError → string)
    (e : ServerStep) (h : Host) : Prop :=
  ∃ k op s s' self client ch, e = Happens k op ∧ h_systems h !! k = Some s ∧
    run_sys display op s = Ok s' ∧ h_callbacks h !! k = Some (Some self) ∧
    EfClientAdvertise client ch ∈ drop (length (sys_effects s)) (sys_effects s') ∧
    cb_on_client_advertise self = true ∧ Exists has_nul (channel_strings ch).
Lemma panics_nul `{Flume} `{BiMap} `{Buf} `{Json} `{Base64} display e h :
  panics display e h → advertises_nul display e h.
Proof.
  destruct e as [c|k op]; [done|]. cbn. unfold heard. destruct (h_systems h !! k) as [s|] eqn:Es; [|done].
  destruct (mjoin (h_callbacks h !! k)) as [self|] eqn:Ecb; [|done].
  assert (h_callbacks h !! k = Some (Some self)) as Ecb'
    by (destruct (h_callbacks h !! k) as [[cb|]|]; cbn in Ecb; congruence).
  destruct (run_sys display op s) as [s'| |] eqn:Er; [|done..].
  pose proof (hear_panics self (sink_of s s') (drop (length (sys_effects s)) (sys_effects s'))) as Hh.
  destruct (hear _ _ _); [done|done|]. destruct Hh as (client & ch & ? & ? & ?). intros _.
  by exists k, op, s, s', self, client, ch.
Qed.

(** C13: C programs that run servers are safe.  A program passes live pointers of
    the right kind (and null where it may), arrays that are as long as it says, and a
    time range with the ranged playback capability; between its calls the clients do
    anything, and the listener in C hears of it.  It runs to its end, or up to the first
    client that advertises, to a listener with that callback, a channel of which a string
    holds a byte 0: there the callback panics.  Up to there is no use of a freed pointer
    and no panic.  No call finds a server closed.  Every request of a client to a handler
    in C that is not yet answered is in exactly one box, through which C can answer it,
    and no other box is left of a responder.  (Converting parameter arrays is the matter
    of CParameterApi.v and CCallback.v.) *)
Theorem c_servers_safe `{Flume} `{BiMap} `{Buf} `{Json} `{Base64} `{!FlumeLaws} `{!BiMapLaws} `{!BufLaws}
    `{Net} `{Bitflags} display_utf8 display (steps : list ServerStep) :
  disciplined display_utf8 display steps Host_init → Z.of_nat (length steps) + 1 < 2 ^ 32 →
  ∃ done rest answers h, steps = done ++ rest ∧
    run_calls display_utf8 display done Host_init = Ok (answers, h) ∧
    (RCode CSinkClosed ∉ answers) ∧
    (∀ k s key, h_systems h !! k = Some s →
      match awaits (sys_responders s) key with
      | Some true => sole (BServiceResponder k key) h
      | Some false => sole (BAssetResponder k key) h
      | None => ∀ p, h_boxes h !! p ≠ Some (BServiceResponder k key) ∧
                     h_boxes h !! p ≠ Some (BAssetResponder k key)
      end) ∧
    match rest with
    | [] => True
    | e :: _ => advertises_nul display e h ∧ run_calls display_utf8 display steps Host_init = Panic
    end.
Proof.
  intros Hd Hn. destruct (program_spec display_utf8 display steps 0 Host_init host_init_inv Hd)
    as (done & rest & l & h & -> & E & Hi & Hl & Hrest); [lia|].
  exists done, rest, l, h. split_and!; [done|done|done| |].
  - intros k s key Hk. destruct (awaits (sys_responders s) key) as [[]|] eqn:Ea.
    + eapply waits_sole; [done|]. by exists s.
    + eapply waits_sole; [done|]. by exists s.
    + intros p. split; intros Hp; destruct (hi_waits _ h Hi p _ Hp eq_refl) as (s1 & Hs1 & Ha); congruence.
  - destruct rest as [|e rest]; [done|]. destruct Hrest as [Hp ?]. split; [by apply panics_nul|done].
Qed.

(** What a disciplined program can come to. *)
Definition reached `{Flume} `{BiMap} `{Buf} `{Json} `{Base64} `{Net} `{Bitflags} display_utf8 display
    (h : Host) : Prop :=
  ∃ steps answers, disciplined display_utf8 display steps Host_init ∧
    Z.of_nat (length steps) + 2 < 2 ^ 32 ∧
    run_calls display_utf8 display steps Host_init = Ok (answers, h).

(** C14: A call that fails changes nothing.  When a call of a disciplined program
    returns an error code, no system has changed, so that no client is sent anything
    and nothing is registered, and every box is as before, but for the service or the
    parameters that were moved into the call, which may be freed.  The code is never
    [SinkClosed]. *)
Theorem failed_calls_change_nothing `{Flume} `{BiMap} `{Buf} `{Json} `{Base64} `{!FlumeLaws}
    `{!BiMapLaws} `{!BufLaws} `{Net} `{Bitflags} display_utf8 display (h : Host) (c : ServerCall) :
  reached display_utf8 display h → call_ok c h →
  ∃ a h', run_call display_utf8 c h = Ok (a, h') ∧
    ∀ e, failed a = Some e → e ≠ CSinkClosed ∧ h_systems h' = h_systems h ∧
      (h_boxes h' = h_boxes h ∨ ∃ p, moved c = Some p ∧ h_boxes h' = delete p (h_boxes h)).
Proof.
  intros (steps & answers & Hd & Hn & E) Hok.
  assert (host_inv (0 + length steps) h) as Hi by (eapply server_program_runs; [apply host_init_inv|done|lia|done]).
  destruct (call_spec display_utf8 _ c h Hi Hok) as (a & h' & Ea & _ & Ha); [lia|]. by exists a, h'.
Qed.

(** C15: What a server is started with.  [foxglove_server_start] panics only if the
    options declare ranged playback without both ends of the range, and then it never
    starts a server; otherwise it fails and leaves everything as it was, or starts a server, in its context, bound to the host and port: with the name, session, range,
    filter and handlers of the options, the encodings and server info they list (a later
    entry replaces an earlier one of its key), and exactly the declared capabilities,
    with ranged playback if there is a range and assets if there is a handler. *)
Theorem server_start_spec `{Flume} `{BiMap} `{Buf} `{Json} `{Base64} `{!FlumeLaws} `{!BiMapLaws}
    `{!BufLaws} `{Net} `{Bitflags} (o : FoxgloveServerOptions) (now : Moment) (h : Host) :
  arrays_ok o →
  match foxglove_server_start o now false h with
  | Ok ((COk, Some p), h') => p = h_next h ∧ ¬ rangeless o ∧
    ∃ s port, started_system o now s port ∧ h' = add_server (fso_callbacks o) s port h
  | Ok ((e, p), h') => e ≠ COk ∧ p = None ∧ h' = h
  | Panic => rangeless o
  | Err _ => False
  end.
Proof.
  intros Ho. pose proof (do_start_spec o now h Ho) as Hd.
  unfold foxglove_server_start, mbind, CallM_bind.
  destruct (do_foxglove_server_start o now h) as [[[p|e|] h']|e|]; cbn [mbind result_bind]; [|..]; try done.
  destruct Hd as (-> & _ & He). cbn. by destruct (CError_from e).
Qed.

(** C16: What C hears of a client's channel.  The callback is called with pointers from
    which C reads exactly the topic, encoding, schema name and schema encoding that the
    client sent (the last null if there is none), and the schema with its length; but if
    one of these strings holds a byte 0, which a client is free to send, the conversion
    panics and the callback is not called. *)
Theorem client_advertise_reads (self : FoxgloveServerCallbacks) (client : ClientId) (ch : ClientChannel) :
  match c_on_client_advertise self client ch with
  | Ok calls =>
    (calls = [] ∧ cb_on_client_advertise self = false) ∨
    (Forall (λ s, ¬ has_nul s) (channel_strings ch) ∧
     ∃ c, calls = [CallClientAdvertise client c] ∧ fcc_id c = cc_id ch ∧
       read_c (fcc_topic c) = as_bytes (cc_topic ch) ∧
       read_c (fcc_encoding c) = as_bytes (cc_encoding ch) ∧
       read_c (fcc_schema_name c) = as_bytes (cc_schema_name ch) ∧
       read_c <$> fcc_schema_encoding c = as_bytes <$> cc_schema_encoding ch ∧
       fcc_schema c = cc_schema ch ∧
       fcc_schema_len c = Z.of_nat (length (default [] (cc_schema ch))))
  | Panic => cb_on_client_advertise self = true ∧ ¬ Forall (λ s, ¬ has_nul s) (channel_strings ch)
  | Err _ => False
  end.
Proof.
  unfold c_on_client_advertise. destruct (cb_on_client_advertise self); cbn [negb]; [|by left].
  destruct (CString_new_spec (E:=string) (cc_topic ch)) as [[Hs ->]|(Ht & t & -> & Et)]; cbn [mbind result_bind].
  { split; [done|]. eapply has_nul_not_all; [|done]. by left. }
  destruct (CString_new_spec (E:=string) (cc_encoding ch)) as [[Hs ->]|(He & e & -> & Ee)];
    cbn [mbind result_bind].
  { split; [done|]. eapply has_nul_not_all; [|done]. right. by left. }
  destruct (CString_new_spec (E:=string) (cc_schema_name ch)) as [[Hs ->]|(Hn & n & -> & En)];
    cbn [mbind result_bind].
  { split; [done|]. eapply has_nul_not_all; [|done]. right. right. by left. }
  destruct (cc_schema_encoding ch) as [se|] eqn:Ese; cbn [mbind result_bind].
  - destruct (CString_new_spec (E:=string) se) as [[Hs ->]|(Hse & x & -> & Ex)]; cbn [mbind result_bind].
    { split; [done|]. eapply (has_nul_not_all _ se); [|done]. unfold channel_strings. rewrite Ese.
      apply elem_of_app. right. by left. }
    right. split; [unfold channel_strings; rewrite Ese; by repeat constructor|].
    eexists. split; [done|]. cbn. rewrite Ex. by destruct (cc_schema ch).
  - right. split; [unfold channel_strings; rewrite Ese; by repeat constructor|].
    eexists. split; [done|]. cbn. by destruct (cc_schema ch).
Qed.
