(* ===== verification/CServerExamples.v ===== *)
(** * CServerExamples: a C program with a server

    Witnesses for CServerProofs.v at a program that starts a server with a service,
    whose client calls it, and what happens to a program that forgets the range of a
    ranged playback ([rangeless_start]), to a client that advertises a topic with a byte
    0 ([nul_topic]), and to ids that are set to none ([no_ids]). *)

From S2P Require Import Prelude Bytes Messages Wire WireProofs ConnectionGraph Channel.
From S2P Require Import Subscriptions Context Advertise Services Token Outbox Client Server.
From S2P Require Import Session SessionProofs SessionTheorems CError CChannel WebSocketServer.
From S2P Require Import CServer CServerProofs.
Local Open Scope Z_scope.

(** A network where every port is free, and the flags by a filter. *)
#[local] Instance sample_net : Net := {| rustls_refuses _ := None; tcp_bind _ := inr 8765 |}.
Definition sample_names (bits : Z) : list (string * Z) :=
  filter (λ f, Z.land bits f.2 = f.2) BitFlags_names.
Lemma sample_names_spec bits f : f ∈ sample_names bits ↔ f ∈ BitFlags_names ∧ Z.land bits f.2 = f.2.
Proof. unfold sample_names. rewrite list_elem_of_filter. tauto. Qed.
#[local] Instance sample_flags : Bitflags := {| iter_names := sample_names; iter_names_spec := sample_names_spec |}.
Definition sample_utf8 (l : list byte) : string := "invalid utf-8 sequence".

Definition no_array {A} : CArray A := {| ca_items := None; ca_count := 0 |}.
Definition sample_options (flags : Z) : FoxgloveServerOptions := {|
  fso_context := None; fso_name := c_str "demo"; fso_host := c_str "127.0.0.1"; fso_port := 8765;
  fso_callbacks := None; fso_capabilities := flags;
  fso_supported_encodings := {| ca_items := Some [c_str "json"]; ca_count := 1 |};
  fso_server_info := {| ca_items := Some [{| kv_key := c_str "k"; kv_value := c_str "1" |};
    {| kv_key := c_str "k"; kv_value := c_str "2" |}]; ca_count := 2 |};
  fso_fetch_asset := true; fso_tls_cert := no_array; fso_tls_key := no_array;
  fso_sink_channel_filter := None; fso_playback_start_time := Some 5; fso_playback_end_time := None;
  fso_session_id := Some (c_str "s") |}.
Definition sample_now : Moment := {| mo_generated := "0"; mo_contexts _ := ctx_init |}.
Definition sample_schema : FoxgloveServiceSchema := {|
  fss_name := c_str "T"; fss_response := None;
  fss_request := Some {| fsm_encoding := c_str "json";
    fsm_schema := {| csch_name := None; csch_encoding := None; csch_data := None |} |} |}.
Definition sample_request : Message := MBinary (frame (ClientOpcode_as_u8 COServiceCallRequest)
  {| scq_service_id := 1; scq_call_id := 9; scq_encoding := "json"; scq_payload := [] |}).

(** The second service has the name of the first one, and is refused. *)
Definition sample_program : list ServerStep := [
  Calls (ServerStart (sample_options FOXGLOVE_SERVER_CAPABILITY_SERVICES) sample_now false);
  Calls (ServiceCreate false (c_str "/s") (Some sample_schema) true);
  Calls (AddService (Some 1%nat) (Some 2%nat));
  Calls (ServiceCreate false (c_str "/s") (Some sample_schema) true);
  Calls (AddService (Some 1%nat) (Some 3%nat));
  Happens 0 (SysConnect "v" None true);
  Happens 0 (SysMessage 1 sample_request);
  Happens 0 (SysMessage 1 sample_request)].
Definition sample_end : list ServerStep := [
  Calls (ServiceRespondOk (Some 4%nat) {| ca_items := Some []; ca_count := 0 |});
  Calls (ServerStop (Some 1%nat))].

Definition after (steps : list ServerStep) : Host :=
  match run_calls sample_utf8 show steps Host_init with Ok (_, h) => h | _ => Host_init end.
(** The rules, checked along the run. *)
Fixpoint rules (steps : list ServerStep) (h : Host) : bool :=
  match steps with
  | [] => true
  | e :: steps => step_allowedb e h &&
    match run_step sample_utf8 show e h with Ok (_, h) => rules steps h | _ => true end
  end.
Lemma rules_disciplined steps h : rules steps h = true → disciplined sample_utf8 show steps h.
Proof.
  revert h. induction steps as [|e steps IH]; intros h; [done|]. cbn [rules].
  intros [Hc%step_allowedb_ok Hr]%andb_true_iff. split; [done|]. intros a h' E. rewrite E in Hr. by apply IH.
Qed.
Lemma program_disciplined : disciplined sample_utf8 show (sample_program ++ sample_end) Host_init.
Proof. apply rules_disciplined. vm_compute. reflexivity. Qed.

(** The first request was answered; the second is still in its box, after the stop. *)
Lemma c_servers_safe_witness :
  (∃ done rest answers h, sample_program ++ sample_end = done ++ rest ∧
    run_calls sample_utf8 show done Host_init = Ok (answers, h) ∧
    match rest with
    | [] => True
    | e :: _ => advertises_nul show e h ∧
        run_calls sample_utf8 show (sample_program ++ sample_end) Host_init = Panic
    end) ∧
  match run_calls sample_utf8 show (sample_program ++ sample_end) Host_init with
  | Ok (answers, h) => (match nth 4 answers RUnit, nth 9 answers RUnit with
        RCode CDuplicateService, RCode COk => true | _, _ => false end) &&
      match h_systems h !! 0%nat with
      | Some s => match awaits (sys_responders s) 0, awaits (sys_responders s) 1 with
                  None, Some true => true | _, _ => false end
      | None => false
      end
  | _ => false
  end = true.
Proof.
  split; [|vm_compute; reflexivity].
  destruct (c_servers_safe sample_utf8 show (sample_program ++ sample_end) program_disciplined eq_refl)
    as (done & rest & answers & h & E & Ed & _ & _ & Hr).
  exists done, rest, answers, h. split; [exact E|split; [exact Ed|exact Hr]].
Defined.

(** A second service of the same name is refused, and freed. *)
Lemma after_reached steps : rules steps Host_init = true → Z.of_nat (length steps) + 2 < 2 ^ 32 →
  match run_calls sample_utf8 show steps Host_init with Ok _ => True | _ => False end →
  reached sample_utf8 show (after steps).
Proof.
  intros Hr%rules_disciplined Hn E. unfold after.
  destruct (run_calls sample_utf8 show steps Host_init) as [[l h]| |] eqn:Er; [|done..]. by exists steps, l.
Qed.
Lemma program_reached : reached sample_utf8 show (after (take 4 sample_program)).
Proof. apply after_reached; [vm_compute; reflexivity..|]. vm_compute. exact I. Qed.
Lemma failed_calls_change_nothing_witness :
  let h := after (take 4 sample_program) in
  ∃ a h', run_call sample_utf8 (AddService (Some 1%nat) (Some 3%nat)) h = Ok (a, h') ∧
    failed a = Some CDuplicateService ∧ h_systems h' = h_systems h.
Proof.
  intros h. destruct (failed_calls_change_nothing sample_utf8 show h (AddService (Some 1%nat) (Some 3%nat))
    program_reached) as (a & h' & E & Ha); [apply call_okb_ok; vm_compute; reflexivity|].
  assert (match run_call sample_utf8 (AddService (Some 1%nat) (Some 3%nat)) h with
    | Ok (a, _) => match failed a with Some CDuplicateService => true | _ => false end
    | _ => false
    end = true) as Hf by (vm_compute; reflexivity).
  rewrite E in Hf. destruct (failed a) as [[]|] eqn:Ef; try discriminate Hf.
  exists a, h'. split; [exact E|]. split; [exact Ef|]. exact (proj1 (proj2 (Ha _ eq_refl))).
Defined.

Lemma server_start_spec_witness :
  ∃ s h', foxglove_server_start (sample_options FOXGLOVE_SERVER_CAPABILITY_SERVICES) sample_now false Host_init =
      Ok ((COk, Some 1%nat), h') ∧
    h_systems h' = [s] ∧ sv_supported_encodings (sys_server s) = {["json"%string]} ∧
    sv_server_info (sys_server s) = {["k" := "2"]}%string ∧
    (∀ cap, cap ∈ sv_capabilities (sys_server s) → cap = CapServices ∨ cap = CapAssets).
Proof.
  pose proof (server_start_spec (sample_options FOXGLOVE_SERVER_CAPABILITY_SERVICES) sample_now Host_init)
    as Hs.
  specialize (Hs ltac:(split_and!; [vm_compute; lia|vm_compute; lia|done|done])).
  assert (match foxglove_server_start (sample_options FOXGLOVE_SERVER_CAPABILITY_SERVICES) sample_now false
      Host_init with Ok ((COk, Some p), _) => (p =? 1)%nat | _ => false end = true) as Hrun
    by (vm_compute; reflexivity).
  destruct (foxglove_server_start _ _ _ _) as [[[[] [p|]] h']| |]; try discriminate Hrun.
  apply Nat.eqb_eq in Hrun as ->. destruct Hs as (_ & _ & s & port & Hst & ->). exists s.
  eexists. split; [reflexivity|]. split; [reflexivity|].
  destruct Hst as (sv & host & -> & Hst & _ & _). cbn [sys_server sys_start with_context sys_init].
  destruct (st_encodings _ _ _ Hst) as (l & El & ->). destruct (st_info _ _ _ Hst) as (es & Ees & ->).
  vm_compute in El. injection El as <-. vm_compute in Ees. injection Ees as <-.
  split; [vm_compute; reflexivity|]. split; [vm_compute; reflexivity|].
  intros cap [Hc|[[-> [r Hr]]|[-> _]]]%(st_capabilities _ _ _ Hst); [|discriminate Hr|by right].
  left. destruct cap; try (vm_compute in Hc; discriminate Hc). reflexivity.
Defined.

(** Ranged playback without an end of the range aborts the process. *)
Example rangeless_start :
  match foxglove_server_start (sample_options FOXGLOVE_SERVER_CAPABILITY_RANGED_PLAYBACK) sample_now false
    Host_init with Panic => true | _ => false end = true.
Proof. vm_compute. reflexivity. Qed.

(** A client advertises a topic with a byte 0: the server accepts it, and its listener
    panics before C hears of it. *)
Definition nul_channel : WireClientChannel := {|
  wcc_id := 1; wcc_topic := String Ascii.zero "x"; wcc_encoding := "json"; wcc_schema_name := "";
  wcc_schema_encoding := None; wcc_schema := None |}.
Definition silent_callbacks : FoxgloveServerCallbacks := {|
  cb_on_subscribe := false; cb_on_unsubscribe := false; cb_on_client_advertise := true;
  cb_on_message_data := false; cb_on_client_unadvertise := false; cb_on_get_parameters := None;
  cb_on_set_parameters := None; cb_on_parameters_subscribe := false;
  cb_on_parameters_unsubscribe := false; cb_on_connection_graph_subscribe := false;
  cb_on_connection_graph_unsubscribe := false; cb_on_client_connect := false;
  cb_on_client_disconnect := false; cb_on_playback_control_request := None |}.
Definition nul_json : Json := {| json_of_server _ := "{}";
  json_to_client _ := Some (CJAdvertise {| ca_channels := [nul_channel] |}) |}.
Definition nul_program : list ServerStep := [
  Calls (ServerStart {| fso_context := None; fso_name := c_str "demo"; fso_host := c_str "127.0.0.1";
    fso_port := 8765; fso_callbacks := Some silent_callbacks;
    fso_capabilities := FOXGLOVE_SERVER_CAPABILITY_CLIENT_PUBLISH;
    fso_supported_encodings := {| ca_items := Some [c_str "json"]; ca_count := 1 |};
    fso_server_info := no_array; fso_fetch_asset := false; fso_tls_cert := no_array; fso_tls_key := no_array;
    fso_sink_channel_filter := None; fso_playback_start_time := None; fso_playback_end_time := None;
    fso_session_id := None |} sample_now false);
  Happens 0 (SysConnect "v" None true)].
Example nul_topic :
  match run_calls (HJ:=nul_json) sample_utf8 show nul_program Host_init,
    run_calls (HJ:=nul_json) sample_utf8 show
      (nul_program ++ [Happens 0 (SysMessage 1 (MText "advertise"))]) Host_init with
  | Ok _, Panic => true
  | _, _ => false
  end = true.
Proof. vm_compute. reflexivity. Qed.

(** The documentation says that a setter overwrites the topic; with no ids it does not. *)
Example no_ids :
  match run_calls sample_utf8 show (Calls <$> [GraphCreate false;
    SetPublishedTopic 1 (c_str "/a") {| ca_items := Some [c_str "p"]; ca_count := 1 |};
    SetPublishedTopic 1 (c_str "/a") {| ca_items := Some []; ca_count := 0 |}]) Host_init with
  | Ok (answers, h) => match h_boxes h !! 1%nat with
    | Some (BGraph g) => bool_decide (cg_published_topics g !! "/a" = Some {["p"]})
    | _ => false
    end
  | _ => false
  end = true.
Proof. vm_compute. reflexivity. Qed.

(** A service is documented to be moved into [foxglove_server_add_service]; without a
    server it stays in its box. *)
Example service_stays :
  match run_calls sample_utf8 show (Calls <$> [ServiceCreate false (c_str "/s") (Some sample_schema) true;
    AddService None (Some 1%nat)]) Host_init with
  | Ok ([_; RCode CValueError], h) => match h_boxes h !! 1%nat with Some (BService _) => true | _ => false end
  | _ => false
  end = true.
Proof. vm_compute. reflexivity. Qed.
