(* ===== verification/CRecording.v ===== *)
(** * CRecording: recording to MCAP files in the C API

    The recording functions of `src/c/src/channel.rs` and the custom writers of C,
    over the recorders of Recorder.v, and the name of the library
    (`library_version.rs`) that a file carries.

    C holds raw pointers of boxes with a handle ([rg_writers]).  The use of a pointer
    that was closed is [UndefinedBehaviour], and a [Panic] aborts the process.  A
    program has one context, the default one or one that it has created; calls for
    another context are outside the model ([OtherContext]).  The functions that C
    passes as a custom writer act on a state of their own, and return what they write
    through their pointers.  A file system is the set of the paths that exist; a path
    names one file.  The settings of the mcap crate, and what it makes of a
    destination, are parameters ([McapOptions]). *)

From S2P Require Import Prelude Bytes Channel Subscriptions Context Following McapSink Recorder.
From S2P Require Import Typed CError CChannel.
Local Open Scope Z_scope.

(** [n as i64]. *)
Definition as_i64 (n : Z) : Z := let z := wrap 64 n in if z <? 2 ^ 63 then z else z - 2 ^ 64.

(** ** Custom writers *)

Section recording.
Context {CState : Type}.

(** A C function gets the user's context, and gives its result and what it has
    stored in its last argument. *)
Record FoxgloveCustomWriter := {
  cw_context : nat;
  cw_write_fn : option (nat → list byte → CState → (Z * Z) * CState);
  cw_flush_fn : option (nat → CState → Z * CState);
  cw_seek_fn : option (nat → Z → Z → CState → (Z * Z) * CState)
}.
Record CustomWriter := { callbacks : FoxgloveCustomWriter }.
Inductive SeekFrom := Start (n : Z) | End (n : Z) | Current (n : Z).

(** The error of [std::io] is the code of C. *)
Definition CustomWriter_write (self : CustomWriter) (buf : list byte) (s : CState) : result Z Z * CState :=
  match cw_write_fn (callbacks self) with
  | None => (Panic, s)
  | Some write_fn =>
    let '((written, error), s) := write_fn (cw_context (callbacks self)) buf s in
    (if negb (error =? 0) then Err error else Ok written, s)
  end.
Definition CustomWriter_flush (self : CustomWriter) (s : CState) : result Z unit * CState :=
  match cw_flush_fn (callbacks self) with
  | None => (Panic, s)
  | Some flush_fn =>
    let '(error, s) := flush_fn (cw_context (callbacks self)) s in
    (if negb (error =? 0) then Err error else Ok tt, s)
  end.
Definition CustomWriter_seek (self : CustomWriter) (pos : SeekFrom) (s : CState) : result Z Z * CState :=
  match cw_seek_fn (callbacks self) with
  | None => (Panic, s)
  | Some seek_fn =>
    let '(offset, whence) :=
      match pos with Start n => (as_i64 n, 0) | End n => (n, 2) | Current n => (n, 1) end in
    let '((error, new_pos), s) := seek_fn (cw_context (callbacks self)) offset whence s in
    (if negb (error =? 0) then Err error else Ok new_pos, s)
  end.

(** ** Options *)

Inductive FoxgloveMcapCompression := CompressionNone | CompressionZstd | CompressionLz4.
(** [mcap::Compression]. *)
Inductive Compression := Zstd | Lz4.

Record FoxgloveMcapOptions := {
  mo_context : option ContextId;
  mo_path : CString;
  mo_truncate : bool;
  mo_custom_writer : option FoxgloveCustomWriter;
  mo_compression : FoxgloveMcapCompression;
  mo_profile : CString;
  mo_chunk_size : Z;
  mo_use_chunks : bool;
  mo_disable_seeking : bool;
  mo_emit_statistics : bool;
  mo_emit_summary_offsets : bool;
  mo_emit_message_indexes : bool;
  mo_emit_chunk_indexes : bool;
  mo_emit_attachment_indexes : bool;
  mo_emit_metadata_indexes : bool;
  mo_repeat_channels : bool;
  mo_repeat_schemas : bool;
  mo_sink_channel_filter : option (ChannelDescriptor → bool)  (* with its context *)
}.

(** What the crate writes to: a buffered file, or functions of C. *)
Inductive Destination := ToFile (path : string) | ToCustom (writer : CustomWriter).

(** [mcap::WriteOptions] with its methods; [destination] is what [Writer::with_options]
    gets. *)
Class McapOptions `{McapCrate} := {
  WriteOptions : Type;
  WriteOptions_default : WriteOptions;
  wo_profile : string → WriteOptions → WriteOptions;
  wo_library : string → WriteOptions → WriteOptions;
  wo_compression : option Compression → WriteOptions → WriteOptions;
  wo_chunk_size : option Z → WriteOptions → WriteOptions;
  wo_use_chunks : bool → WriteOptions → WriteOptions;
  wo_disable_seeking : bool → WriteOptions → WriteOptions;
  wo_emit_statistics : bool → WriteOptions → WriteOptions;
  wo_emit_summary_offsets : bool → WriteOptions → WriteOptions;
  wo_emit_message_indexes : bool → WriteOptions → WriteOptions;
  wo_emit_chunk_indexes : bool → WriteOptions → WriteOptions;
  wo_emit_attachment_indexes : bool → WriteOptions → WriteOptions;
  wo_emit_metadata_indexes : bool → WriteOptions → WriteOptions;
  wo_repeat_channels : bool → WriteOptions → WriteOptions;
  wo_repeat_schemas : bool → WriteOptions → WriteOptions;
  destination : WriteOptions → Destination → Inner
}.
(** Why the operating system refuses to open a path for writing, apart from whether it
    exists. *)
Class Files := { os_refuses : string → option string }.
(** The environment of the build. *)
Class Build := { CARGO_PKG_VERSION : string; FOXGLOVE_SDK_LANGUAGE : option string }.

Context `{McapCrate} `{!McapOptions} `{Files} `{Build}.

Definition to_write_options (self : FoxgloveMcapOptions) : result FoxgloveError WriteOptions :=
  profile ← match as_utf8_str (mo_profile self) with
            | Some profile => Ok profile
            | None => Err (ValueError "profile is invalid")
            end;
  let compression := match mo_compression self with
    | CompressionZstd => Some Zstd
    | CompressionLz4 => Some Lz4
    | CompressionNone => None
    end in
  Ok (wo_repeat_schemas (mo_repeat_schemas self)
     (wo_repeat_channels (mo_repeat_channels self)
     (wo_emit_metadata_indexes (mo_emit_metadata_indexes self)
     (wo_emit_attachment_indexes (mo_emit_attachment_indexes self)
     (wo_emit_chunk_indexes (mo_emit_chunk_indexes self)
     (wo_emit_message_indexes (mo_emit_message_indexes self)
     (wo_emit_summary_offsets (mo_emit_summary_offsets self)
     (wo_emit_statistics (mo_emit_statistics self)
     (wo_disable_seeking (mo_disable_seeking self)
     (wo_use_chunks (mo_use_chunks self)
     (wo_chunk_size (if 0 <? mo_chunk_size self then Some (mo_chunk_size self) else None)
     (wo_compression compression
     (wo_profile profile WriteOptions_default))))))))))))).

(** ** The process *)

Inductive McapWriterVariant := File (id : SinkId) | Custom (id : SinkId).
#[export] Instance McapWriterVariant_eq_dec : EqDecision McapWriterVariant.
Proof. solve_decision. Defined.
(** The box holds the handle until it is taken. *)
Abbreviation FoxgloveMcapWriter := (option McapWriterVariant).

Record Recording := {
  rg_context : option ContextId;                (* the pointer of the context *)
  rg_recorder : Recorder;
  rg_files : gset string;
  rg_writers : gmap nat FoxgloveMcapWriter;     (* the boxes *)
  rg_next : nat;
  rg_language : option string                   (* [CELL] *)
}.
Definition Recording_init (context : option ContextId) (files : gset string) : Recording :=
  {| rg_context := context; rg_recorder := Recorder_init; rg_files := files; rg_writers := ∅;
     rg_next := 1; rg_language := None |}.
Definition set_recorder (s : Recorder) (st : Recording) : Recording :=
  {| rg_context := rg_context st; rg_recorder := s; rg_files := rg_files st;
     rg_writers := rg_writers st; rg_next := rg_next st; rg_language := rg_language st |}.
Definition set_files (fs : gset string) (st : Recording) : Recording :=
  {| rg_context := rg_context st; rg_recorder := rg_recorder st; rg_files := fs;
     rg_writers := rg_writers st; rg_next := rg_next st; rg_language := rg_language st |}.
Definition set_writers (ws : gmap nat FoxgloveMcapWriter) (next : nat) (st : Recording) : Recording :=
  {| rg_context := rg_context st; rg_recorder := rg_recorder st; rg_files := rg_files st;
     rg_writers := ws; rg_next := next; rg_language := rg_language st |}.
Definition set_language (l : option string) (st : Recording) : Recording :=
  {| rg_context := rg_context st; rg_recorder := rg_recorder st; rg_files := rg_files st;
     rg_writers := rg_writers st; rg_next := rg_next st; rg_language := l |}.

Inductive Outside := UndefinedBehaviour | OtherContext.
Definition RecM (A : Type) : Type := Recording → result Outside (A * Recording).
#[export] Instance RecM_ret : MRet RecM := λ A a st, Ok (a, st).
#[export] Instance RecM_bind : MBind RecM := λ A B f m st, '(a, st) ← m st; f a st.
Definition fails {A} (o : Outside) : RecM A := λ _, Err o.
(** [?]. *)
Definition and_then {A B} (m : RecM (result FoxgloveError A)) (f : A → RecM (result FoxgloveError B)) :
    RecM (result FoxgloveError B) :=
  r ← m; match r with Ok a => f a | Err e => mret (Err e) | Panic => λ _, Panic end.
(** An operation of the SDK; its errors are values. *)
Definition on_recorder {A} (f : Recorder → result FoxgloveError A * Recorder) : RecM (result FoxgloveError A) := λ st,
  match f (rg_recorder st) with
  | (Panic, _) => Panic
  | (r, s) => Ok (r, set_recorder s st)
  end.
(** The box of a pointer. *)
Definition writer_at (p : nat) : RecM FoxgloveMcapWriter := λ st,
  match rg_writers st !! p with Some w => Ok (w, st) | None => Err UndefinedBehaviour end.
Definition box_into_raw (w : FoxgloveMcapWriter) : RecM nat := λ st,
  Ok (rg_next st, set_writers (<[rg_next st := w]> (rg_writers st)) (S (rg_next st)) st).
Definition box_from_raw (p : nat) : RecM FoxgloveMcapWriter := λ st,
  match rg_writers st !! p with
  | Some w => Ok (w, set_writers (delete p (rg_writers st)) (rg_next st) st)
  | None => Err UndefinedBehaviour
  end.
(** [result_to_c]. *)
Definition code_of {A} (r : result FoxgloveError A) (out_null : bool) : RecM (CError * option A) :=
  match result_to_c r out_null with Ok x => mret x | _ => λ _, Panic end.

(** ** The name of the library *)

Definition COMPILED_SDK_LANGUAGE : string := default "rust"%string FOXGLOVE_SDK_LANGUAGE.
(** [OnceLock::get_or_init] of [CELL]. *)
Definition get_or_init (language : string) : RecM string := λ st,
  let l := default language (rg_language st) in Ok (l, set_language (Some l) st).
Definition set_sdk_language (language : string) : RecM unit := _ ← get_or_init language; mret tt.
Definition get_library_version : RecM string :=
  language ← get_or_init COMPILED_SDK_LANGUAGE;
  mret ("foxglove-sdk-" +:+ language +:+ "/v" +:+ CARGO_PKG_VERSION)%string.
(** [From<McapWriteOptions> for McapWriter]: its options. *)
Definition McapWriter_with_options (o : WriteOptions) : RecM WriteOptions :=
  v ← get_library_version; mret (wo_library v o).

(** ** Opening *)

(** The context of the options, which is the one of the program. *)
Definition options_context (context : option ContextId) : RecM unit := λ st,
  if decide (context = rg_context st) then
    if rec_alive (rg_recorder st) then Ok (tt, st) else Err UndefinedBehaviour
  else Err OtherContext.
(** [File::options], with [create(true).truncate(true)] or [create_new(true)], and
    [open]. *)
Definition open_file (truncate : bool) (path : string) : RecM (result FoxgloveError unit) := λ st,
  match os_refuses path with
  | Some e => Ok (Err (IoError e), st)
  | None =>
    if negb truncate && bool_decide (path ∈ rg_files st) then Ok (Err (IoError "File exists"), st)
    else Ok (Ok tt, set_files ({[path]} ∪ rg_files st) st)
  end.
(** [builder.create]. *)
Definition create_writer (filter : option (ChannelDescriptor → bool)) (o : WriteOptions) (d : Destination) :
    RecM (result FoxgloveError SinkId) :=
  on_recorder (McapWriter_create {| mw_channel_filter := filter |} (destination o d)).

(** [McapWriter::create_new_buffered_file]. *)
Definition create_new_buffered_file (filter : option (ChannelDescriptor → bool)) (o : WriteOptions)
    (path : string) : RecM (result FoxgloveError SinkId) :=
  and_then (open_file false path) (λ _, create_writer filter o (ToFile path)).

Definition is_none {A} (o : option A) : bool := match o with None => true | Some _ => false end.
(** [writer_variant]: the destination is chosen, and the writer created. *)
Definition writer_variant (options : FoxgloveMcapOptions) (builder : WriteOptions) :
    RecM (result FoxgloveError McapWriterVariant) :=
  match mo_custom_writer options with
  | Some custom =>
    if is_none (cw_seek_fn custom) && negb (mo_disable_seeking options) then
      mret (Err (ValueError "seek_fn is null but disable_seeking is false"))
    else if is_none (cw_write_fn custom) || is_none (cw_flush_fn custom) then
      mret (Err (ValueError "write_fn and flush_fn must be provided"))
    else
      and_then (create_writer None builder (ToCustom {| callbacks := custom |})) (λ writer,
      mret (Ok (Custom writer)))
  | None =>
    and_then (mret (utf8_or "path is invalid" (mo_path options))) (λ path,
    if decide (path = ""%string) then
      mret (Err (ValueError "Either path must be non-empty or custom_writer must be provided"))
    else
      and_then (open_file (mo_truncate options) path) (λ _,
      and_then (create_writer (mo_sink_channel_filter options) builder (ToFile path)) (λ writer,
      mret (Ok (File writer)))))
  end.
Definition do_foxglove_mcap_open (options : FoxgloveMcapOptions) : RecM (result FoxgloveError nat) :=
  and_then (mret (to_write_options options)) (λ mcap_options,
  builder ← McapWriter_with_options mcap_options;
  _ ← options_context (mo_context options);
  and_then (writer_variant options builder) (λ variant,
  p ← box_into_raw (Some variant); mret (Ok p))).

Definition foxglove_mcap_open (options : FoxgloveMcapOptions) (writer_null : bool) :
    RecM (CError * option nat) :=
  r ← do_foxglove_mcap_open options; code_of r writer_null.

(** ** Closing and writing *)

Definition variant_id (v : McapWriterVariant) : SinkId := match v with File id | Custom id => id end.

(** The box is freed, and the handle is dropped. *)
Definition foxglove_mcap_close (writer : option nat) : RecM CError :=
  match writer with
  | None => mret CValueError
  | Some p =>
    w ← box_from_raw p;
    match w with
    | None => mret CSinkClosed
    | Some v => r ← on_recorder (handle_close (variant_id v)); x ← code_of r true; mret x.1
    end
  end.

(** The [BTreeMap] of the pairs. *)
Fixpoint read_metadata (pairs : list (CString * CString)) (m : gmap string string) :
    result FoxgloveError (gmap string string) :=
  match pairs with
  | [] => Ok m
  | (key, value) :: pairs =>
    key ← utf8_or "invalid utf-8" key;
    value ← utf8_or "invalid utf-8" value;
    read_metadata pairs (<[key := value]> m)
  end.
Definition do_foxglove_mcap_write_metadata (writer : nat) (name : CString)
    (metadata : option (list (CString * CString))) : RecM (result FoxgloveError unit) :=
  w ← writer_at writer;
  and_then (mret (utf8_or "metadata name is invalid" name)) (λ name,
  match w with
  | None => mret (Err SinkClosed)
  | Some v =>
    match metadata with
    | None => mret (Ok tt)
    | Some pairs =>
      and_then (mret (read_metadata pairs ∅)) (λ m,
      on_recorder (handle_write_metadata (variant_id v) name m))
    end
  end).
Definition foxglove_mcap_write_metadata (writer : option nat) (name : CString)
    (metadata : option (list (CString * CString))) : RecM CError :=
  match writer with
  | None => mret CValueError
  | Some p => r ← do_foxglove_mcap_write_metadata p name metadata; x ← code_of r true; mret x.1
  end.

(** [ma_data] is null or the bytes that can be read there. *)
Record FoxgloveMcapAttachment := {
  ma_log_time : Z;
  ma_create_time : Z;
  ma_name : CString;
  ma_media_type : CString;
  ma_data : option (list byte);
  ma_data_len : Z
}.
Definition attachment_data (a : FoxgloveMcapAttachment) : RecM (result FoxgloveError (list byte)) :=
  match ma_data a with
  | None =>
    if negb (ma_data_len a =? 0)
    then mret (Err (ValueError "attachment data is null but data_len is not 0")) else mret (Ok [])
  | Some l =>
    if ma_data_len a =? 0 then mret (Ok [])
    else if Z.of_nat (length l) <? ma_data_len a then fails UndefinedBehaviour
    else mret (Ok (take (Z.to_nat (ma_data_len a)) l))
  end.
Definition do_foxglove_mcap_attach (writer : nat) (a : FoxgloveMcapAttachment) :
    RecM (result FoxgloveError unit) :=
  w ← writer_at writer;
  and_then (mret (utf8_or "attachment name is invalid" (ma_name a))) (λ name,
  and_then (mret (utf8_or "attachment media_type is invalid" (ma_media_type a))) (λ media_type,
  match w with
  | None => mret (Err SinkClosed)
  | Some v =>
    and_then (attachment_data a) (λ data,
    on_recorder (handle_attach (variant_id v)
      {| at_log_time := ma_log_time a; at_create_time := ma_create_time a; at_name := name;
         at_media_type := media_type; at_data := data |}))
  end)).
Definition foxglove_mcap_attach (writer : option nat) (a : FoxgloveMcapAttachment) : RecM CError :=
  match writer with
  | None => mret CValueError
  | Some p => r ← do_foxglove_mcap_attach p a; x ← code_of r true; mret x.1
  end.

(** ** Programs *)

(** What a C program does.  The other operations are those of RecOp that do not
    concern writers: channels that come and go (`CChannel.v`), messages that are
    logged, and the context that is freed. *)
Inductive Call :=
| McapOpen (options : FoxgloveMcapOptions) (writer_null : bool)
| McapClose (writer : option nat)
| McapWriteMetadata (writer : option nat) (name : CString) (metadata : option (list (CString * CString)))
| McapAttach (writer : option nat) (attachment : FoxgloveMcapAttachment)
| Other (op : RecOp).
Inductive Answer := ACode (code : CError) | AWriter (code : CError) (writer : option nat) | ADone.

Definition run_call (c : Call) : RecM Answer :=
  match c with
  | McapOpen options null => x ← foxglove_mcap_open options null; mret (AWriter x.1 x.2)
  | McapClose w => e ← foxglove_mcap_close w; mret (ACode e)
  | McapWriteMetadata w name md => e ← foxglove_mcap_write_metadata w name md; mret (ACode e)
  | McapAttach w a => e ← foxglove_mcap_attach w a; mret (ACode e)
  | Other op => λ st,
    match rec_step op (rg_recorder st) with
    | Ok s => Ok (ADone, set_recorder s st)
    | _ => Panic
    end
  end.
Fixpoint run_calls (cs : list Call) : RecM (list Answer) :=
  match cs with
  | [] => mret []
  | c :: cs => a ← run_call c; l ← run_calls cs; mret (a :: l)
  end.

(** A pointer is null, or one that C has and has not closed. *)
Definition owns (writer : option nat) (st : Recording) : Prop :=
  match writer with Some p => is_Some (rg_writers st !! p) | None => True end.
Definition allowed (c : Call) (st : Recording) : Prop :=
  match c with
  | McapOpen options _ => mo_context options = rg_context st ∧ rec_alive (rg_recorder st) = true
  | McapClose w | McapWriteMetadata w _ _ => owns w st
  | McapAttach w a => owns w st ∧
      match ma_data a with Some l => ma_data_len a ≤ Z.of_nat (length l) | None => True end
  | Other op => match op with
      | RBuild _ | RCloseChannel _ | RLog _ _ _ _ _ _ | RDropContext => True
      | _ => False
      end
  end.
Fixpoint disciplined (cs : list Call) (st : Recording) : Prop :=
  match cs with
  | [] => True
  | c :: cs => allowed c st ∧ ∀ a st', run_call c st = Ok (a, st') → disciplined cs st'
  end.

(** What a call asks of the file with pointer [p], sink [id] and filter [f]. *)
Definition asks (p : nat) (id : SinkId) (f : option (ChannelDescriptor → bool)) (c : Call) (st : Recording) :
    list McapOp :=
  match c with
  | McapWriteMetadata (Some p') name (Some pairs) =>
    match decide (p' = p), as_utf8_str name, read_metadata pairs ∅ with
    | left _, Some name, Ok m => [OpMetadata name m]
    | _, _, _ => []
    end
  | McapAttach (Some p') a =>
    match decide (p' = p), as_utf8_str (ma_name a), as_utf8_str (ma_media_type a), attachment_data a st with
    | left _, Some name, Some media_type, Ok (Ok data, _) =>
      [OpAttach {| at_log_time := ma_log_time a; at_create_time := ma_create_time a; at_name := name;
                   at_media_type := media_type; at_data := data |}]
    | _, _, _, _ => []
    end
  | Other op => seen_op id f op (rg_recorder st)
  | _ => []
  end.
Fixpoint all_asks (p : nat) (id : SinkId) (f : option (ChannelDescriptor → bool)) (cs : list Call)
    (st : Recording) : list McapOp :=
  match cs with
  | [] => []
  | c :: cs => asks p id f c st ++
      match run_call c st with Ok (_, st) => all_asks p id f cs st | _ => [] end
  end.
End recording.
