(* ===== verification/CRecordingProofs.v ===== *)
(** * CRecordingProofs: C programs that record

    For CRecording.v: a C program that keeps the ownership rules runs its recordings
    safely, each pointer that it has not closed is the one owner of an open handle,
    and its calls are operations of the recorders of Recorder.v
    ([c_recordings_safe]); what [foxglove_mcap_open] does ([mcap_open_spec]); and what
    the file of a pointer contains ([c_file_records]). *)

From S2P Require Import Prelude Bytes Channel Subscriptions Context Following McapSink Recorder.
From S2P Require Import Typed CError CChannel CRecording.
Local Open Scope Z_scope.

Section proofs.
Context {CState : Type} `{McapCrate} `{!McapOptions (CState:=CState)} `{Files} `{Build} `{!McapLaws}.
Abbreviation Call := (Call (CState:=CState)).

(** The boxes are the open handles. *)
Record recording_inv (n : nat) (st : Recording) : Prop := {
  ri_recorder : rec_inv n (rg_recorder st);
  ri_open : ∀ p w, rg_writers st !! p = Some w →
    (p < rg_next st)%nat ∧ ∃ v, w = Some v ∧ variant_id v ∈ rec_handles (rg_recorder st);
  ri_distinct : ∀ p q v v', rg_writers st !! p = Some (Some v) → rg_writers st !! q = Some (Some v') →
    variant_id v = variant_id v' → p = q;
  ri_boxed : ∀ id, id ∈ rec_handles (rg_recorder st) →
    ∃ p v, rg_writers st !! p = Some (Some v) ∧ variant_id v = id
}.

(** The operations of the recorder that a call is, and that the files that stay open
    see what it asks. *)
Definition carries (c : Call) (st st' : Recording) : Prop :=
  ∃ ops, (length ops ≤ 1)%nat ∧ rec_run ops (rg_recorder st) = Ok (rg_recorder st') ∧
    ∀ p v, rg_writers st !! p = Some (Some v) → c ≠ McapClose (Some p) →
      rg_writers st' !! p = Some (Some v) ∧ Forall (keeps (variant_id v)) ops ∧
      ∀ f, seen (variant_id v) f ops (rg_recorder st) = asks p (variant_id v) f c st.
Definition code_of_answer (a : Answer) : CError :=
  match a with ACode e | AWriter e _ => e | ADone => COk end.
Definition call_spec (n : nat) (c : Call) (st : Recording) : Prop :=
  ∃ a st', run_call c st = Ok (a, st') ∧ code_of_answer a ≠ CSinkClosed ∧
    recording_inv (S n) st' ∧ rg_context st' = rg_context st ∧ carries c st st'.

(** A state that differs in what writers do not see. *)
Lemma recording_inv_same n m st st' :
  recording_inv n st → (n ≤ m)%nat → rg_recorder st' = rg_recorder st → rg_writers st' = rg_writers st →
  rg_next st' = rg_next st → recording_inv m st'.
Proof.
  intros [Hr Ho Hd Hb] Hm E1 E2 E3. split; rewrite ?E1, ?E2, ?E3; [by eapply rec_inv_mono|done..].
Qed.
Lemma recording_inv_recorder n st s :
  recording_inv n st → rec_inv (S n) s → rec_handles s = rec_handles (rg_recorder st) →
  recording_inv (S n) (set_recorder s st).
Proof. intros [Hr Ho Hd Hb] Hs Eh. by split; cbn; rewrite ?Eh. Qed.

(** A call that does not touch the recorder. *)
Lemma carries_nothing (c : Call) st st' :
  rg_recorder st' = rg_recorder st → rg_writers st' = rg_writers st →
  (∀ p v f, rg_writers st !! p = Some (Some v) → asks p (variant_id v) f c st = []) → carries c st st'.
Proof.
  intros E1 E2 Ha. exists []. split_and!; [cbn; lia|by rewrite E1|]. intros p v Hp _.
  rewrite E2. split_and!; [done|constructor|]. intros f. by rewrite (Ha p v f Hp).
Qed.
Lemma untouched_spec n (c : Call) st st' a :
  recording_inv n st → run_call c st = Ok (a, st') → code_of_answer a ≠ CSinkClosed →
  rg_recorder st' = rg_recorder st → rg_writers st' = rg_writers st → rg_next st' = rg_next st →
  rg_context st' = rg_context st →
  (∀ p v f, rg_writers st !! p = Some (Some v) → asks p (variant_id v) f c st = []) → call_spec n c st.
Proof.
  intros Hi E Ha E1 E2 E3 E4 Hn. exists a, st'. split_and!; [done|done| |done|by apply carries_nothing].
  eapply recording_inv_same; [done| |done..]. lia.
Qed.

(** ** Operations that are not calls on writers *)

Lemma other_handles op s s' :
  match op with RBuild _ | RCloseChannel _ | RLog _ _ _ _ _ _ | RDropContext => True | _ => False end →
  rec_step op s = Ok s' → rec_handles s' = rec_handles s.
Proof.
  destruct op; try done; cbn; intros _.
  - destruct (rec_alive s); [|congruence]. destruct (build_raw _ _ _) as [[[c x] w]|e|]; intros [= <-]; done.
  - destruct (rec_made s !! _); [|congruence]. destruct (close _ _ _). by intros [= <-].
  - destruct (rec_made s !! _); [|congruence]. unfold log_message, deliver.
    destruct (log_all _ _ _) as [[evs ks]|e|]; cbn; by intros [= <-].
  - by intros [= <-].
Qed.
Lemma other_spec n op st :
  recording_inv n st → Z.of_nat n < 2 ^ 32 - 2 → allowed (Other op : Call) st → call_spec n (Other op) st.
Proof.
  intros Hi Hn Ha. destruct (rec_step_ok n op _ (ri_recorder _ _ Hi) Hn) as (s & E & Hs & _ & _).
  assert (rec_handles s = rec_handles (rg_recorder st)) as Eh by (eapply other_handles; [|exact E]; exact Ha).
  exists ADone, (set_recorder s st). cbn [run_call]. rewrite E.
  split_and!; [done|done|by apply recording_inv_recorder|done|]. exists [op].
  split_and!; [done|cbn; by rewrite E|]. intros p v Hp _. split_and!; [done| |].
  - constructor; [|constructor]. by destruct op.
  - intros f. cbn [seen asks]. rewrite E. apply app_nil_r.
Qed.

(** ** Writing *)

Lemma open_sink n st p v :
  recording_inv n st → rg_writers st !! p = Some (Some v) →
  variant_id v ∈ rec_handles (rg_recorder st) ∧
  ∃ m, rec_sinks (rg_recorder st) !! variant_id v = Some m.
Proof.
  intros Hi Hp. destruct (ri_open _ _ Hi _ _ Hp) as (_ & v' & [= <-] & Hh). split; [done|].
  destruct (ri_handles _ _ (ri_recorder _ _ Hi) _ Hh) as (m & Hm & _). by exists m.
Qed.

(** The errors of the writer are those of the crate. *)
Lemma writer_never_closed mop m :
  match mop with OpMetadata _ _ | OpAttach _ => True | _ => False end → is_Some (mk_inner m) →
  (McapSink.run_op mop m).2 ≠ Err SinkClosed.
Proof.
  intros Hop [st Hst]. destruct mop as [| |a|]; try done; cbn.
  - unfold McapSink_write_metadata. case_decide; [done|]. unfold with_writer. rewrite Hst.
    destruct (writer_metadata _ _ _) as [w r]. by destruct r.
  - unfold McapSink_attach, with_writer. rewrite Hst.
    destruct (writer_attach _ _) as [w r]. by destruct r.
Qed.

Lemma code_of_closed {A} (r : result FoxgloveError A) st :
  r ≠ Panic → r ≠ Err SinkClosed → (∀ e, r = Err e → CError_from e = CSinkClosed → e = SinkClosed) →
  ∃ x, code_of r true st = Ok (x, st) ∧ x.1 ≠ CSinkClosed.
Proof.
  intros Hp Hc He. destruct r as [a|e|]; [by eexists| |done]. exists (CError_from e, None).
  split; [done|]. cbn. intros E. apply Hc. f_equal. by apply He.
Qed.
Lemma CError_from_closed e : CError_from e = CSinkClosed → e = SinkClosed.
Proof. by destruct e. Qed.

(** A call that comes to an operation on the writer of [p]. *)
Lemma writer_call_spec n (c : Call) op mop p v st (r : RecM (result FoxgloveError unit)) :
  recording_inv n st → Z.of_nat n < 2 ^ 32 - 2 → rg_writers st !! p = Some (Some v) →
  match mop with OpMetadata _ _ | OpAttach _ => True | _ => False end →
  (∀ st, rec_step op st = (if decide (variant_id v ∈ rec_handles st)
     then no_result (with_sink (McapSink.run_op mop) (variant_id v) st) else Ok st)) →
  (∀ id, keeps id op) →
  (∀ id f st, seen_op id f op st = if decide (variant_id v = id) then [mop] else []) →
  (∀ p' id f, asks p' id f c st = if decide (p = p') then [mop] else []) →
  r st = on_recorder (with_sink (McapSink.run_op mop) (variant_id v)) st →
  run_call c st = (e ← (r ← r; x ← code_of r true; mret x.1); mret (ACode e)) st →
  call_spec n c st.
Proof.
  intros Hi Hn Hp Hmop Hstep Hkeeps Hseen Hasks Er Erun.
  destruct (open_sink n st p v Hi Hp) as (Hh & m & Hm).
  pose proof (ri_recorder _ _ Hi) as Hr.
  assert (op_made (rec_made (rg_recorder st)) mop) as Hmade by by destruct mop.
  destruct (with_sink_step n _ _ mop Hr Hn Hmade Hh) as (Hnp & Hr' & _ & Eh & _).
  destruct (ri_handles _ _ Hr _ Hh) as (m' & Hm' & Hhist & _). assert (m' = m) as -> by congruence.
  destruct (history_step _ _ _ _ mop Hhist Hmade ltac:(lia)) as (Hopen & _).
  assert ((with_sink (McapSink.run_op mop) (variant_id v) (rg_recorder st)).1 ≠ Err SinkClosed) as Hnc.
  { unfold with_sink. rewrite Hm. pose proof (writer_never_closed mop m Hmop Hopen) as Hc.
    by destruct (McapSink.run_op mop m). }
  unfold on_recorder in Er. pose proof (Hstep (rg_recorder st)) as Es. rewrite decide_True in Es by done.
  unfold no_result in Es. destruct (with_sink _ _ (rg_recorder st)) as [res s]. cbn in Hnp, Hr', Eh, Hnc, Es.
  assert (r st = Ok (res, set_recorder s st)) as Er' by by destruct res.
  assert (rec_step op (rg_recorder st) = Ok s) as Es' by by destruct res.
  destruct (code_of_closed res (set_recorder s st) Hnp Hnc) as (x & Ex & Hx).
  { intros e _. apply CError_from_closed. }
  exists (ACode x.1), (set_recorder s st). split_and!.
  - rewrite Erun. unfold mbind, RecM_bind. rewrite Er'. cbn. rewrite Ex. done.
  - done.
  - by apply recording_inv_recorder.
  - done.
  - exists [op]. split_and!; [done|cbn; by rewrite Es'|]. intros q u Hq _. split_and!; [done| |].
    + by repeat constructor.
    + intros f. cbn [seen]. rewrite Es', app_nil_r, Hseen, Hasks. destruct (decide (p = q)) as [->|Hne].
      * rewrite Hp in Hq. injection Hq as <-. by rewrite decide_True.
      * rewrite decide_False; [done|]. intros E. apply Hne. by eapply (ri_distinct _ _ Hi).
Qed.

Lemma read_metadata_error pairs m :
  (∃ m', read_metadata pairs m = Ok m') ∨ ∃ what, read_metadata pairs m = Err (FoxgloveUtf8Error what).
Proof.
  revert m. induction pairs as [|[key value] pairs IH]; intros m; cbn; [by left; eexists|].
  unfold utf8_or. destruct (as_utf8_str key); cbn; [|by right; eexists].
  destruct (as_utf8_str value); cbn; [apply IH|by right; eexists].
Qed.

Lemma owned n st p : recording_inv n st → owns (Some p) st → ∃ v, rg_writers st !! p = Some (Some v).
Proof. intros Hi [w Hp]. destruct (ri_open _ _ Hi _ _ Hp) as (_ & v & -> & _). by exists v. Qed.

Lemma metadata_spec n writer name metadata st :
  recording_inv n st → Z.of_nat n < 2 ^ 32 - 2 → owns writer st →
  call_spec n (McapWriteMetadata writer name metadata) st.
Proof.
  intros Hi Hn Hw. destruct writer as [p|]; [|by eapply (untouched_spec n _ st st)].
  destruct (owned n st p Hi Hw) as [v Hp].
  destruct (as_utf8_str name) as [s|] eqn:En.
  2: { eapply (untouched_spec n _ st st (ACode CUtf8Error)); [done| |done..|].
       - cbn. unfold do_foxglove_mcap_write_metadata, mbind, RecM_bind, writer_at, utf8_or. cbn.
         by rewrite Hp, En.
       - intros q u f _. cbn. destruct metadata; [|done]. case_match; [by rewrite En|done]. }
  destruct metadata as [pairs|].
  2: { eapply (untouched_spec n _ st st (ACode COk)); [done| |done..].
       cbn. unfold do_foxglove_mcap_write_metadata, mbind, RecM_bind, writer_at, utf8_or. cbn.
       by rewrite Hp, En. }
  destruct (read_metadata_error pairs ∅) as [[m Em]|[what Em]].
  2: { eapply (untouched_spec n _ st st (ACode CUtf8Error)); [done| |done..|].
       - cbn. unfold do_foxglove_mcap_write_metadata, mbind, RecM_bind, writer_at, utf8_or. cbn.
         rewrite Hp, En. cbn. by rewrite Em.
       - intros q u f _. cbn. case_match; [by rewrite En, Em|done]. }
  eapply (writer_call_spec n _ (RMetadata (variant_id v) s m) (OpMetadata s m) p v st
    (do_foxglove_mcap_write_metadata p name (Some pairs))); try done.
  - intros q id f. cbn. rewrite En, Em. by repeat case_decide.
  - unfold do_foxglove_mcap_write_metadata, mbind, RecM_bind, writer_at, utf8_or. cbn.
    rewrite Hp, En. cbn. by rewrite Em.
Qed.

Lemma attach_spec n writer a st :
  recording_inv n st → Z.of_nat n < 2 ^ 32 - 2 → allowed (McapAttach writer a : Call) st →
  call_spec n (McapAttach writer a) st.
Proof.
  intros Hi Hn [Hw Hdata]. destruct writer as [p|]; [|by eapply (untouched_spec n _ st st)].
  destruct (owned n st p Hi Hw) as [v Hp].
  assert (∀ e, e ≠ SinkClosed → do_foxglove_mcap_attach p a st = Ok (Err e, st) →
    (∀ q id f, asks q id f (McapAttach (Some p) a : Call) st = []) →
    call_spec n (McapAttach (Some p) a) st) as Hidle.
  { intros e He E Ha. eapply (untouched_spec n _ st st (ACode (CError_from e))); [done| |by intros ?%CError_from_closed|done..|].
    - cbn. unfold mbind, RecM_bind. by rewrite E.
    - intros q u f _. apply Ha. }
  unfold do_foxglove_mcap_attach, mbind, RecM_bind, writer_at in Hidle. rewrite Hp in Hidle.
  cbn in Hidle. unfold utf8_or in Hidle.
  destruct (as_utf8_str (ma_name a)) as [name|] eqn:En.
  2: { eapply Hidle; [|done|]; [done|]. intros q id f. cbn. by case_decide. }
  destruct (as_utf8_str (ma_media_type a)) as [media_type|] eqn:Et.
  2: { eapply Hidle; [|done|]; [done|]. intros q id f. cbn. by case_decide. }
  assert ((∃ data, attachment_data a st = Ok (Ok data, st)) ∨
    ∃ what, attachment_data a st = Ok (Err (ValueError what), st)) as [[data Ed]|[what Ed]].
  { unfold attachment_data. destruct (ma_data a) as [l|].
    - destruct (ma_data_len a =? 0); [left; by eexists|].
      destruct (Z.ltb_spec (Z.of_nat (length l)) (ma_data_len a)); [lia|]. left. by eexists.
    - destruct (negb _); [right|left]; by eexists. }
  2: { unfold and_then, mbind, RecM_bind, mret, RecM_ret in Hidle. cbn in Hidle. rewrite Ed in Hidle.
       eapply Hidle; [|done|]; [done|]. intros q id f. cbn. by case_decide. }
  set (mop := {| at_log_time := ma_log_time a; at_create_time := ma_create_time a; at_name := name;
                 at_media_type := media_type; at_data := data |}).
  eapply (writer_call_spec n _ (RAttach (variant_id v) mop) (OpAttach mop) p v st (do_foxglove_mcap_attach p a));
    try done.
  - intros q id f. cbn. rewrite En, Et, Ed. by repeat case_decide.
  - unfold do_foxglove_mcap_attach, mbind, RecM_bind, writer_at, utf8_or. cbn.
    rewrite Hp, En. cbn. rewrite Et. unfold and_then, mbind, RecM_bind. cbn. by rewrite Ed.
Qed.

(** ** Closing *)

Lemma close_call n p v st :
  recording_inv n st → Z.of_nat n < 2 ^ 32 - 2 → rg_writers st !! p = Some (Some v) →
  ∃ r s, handle_close (variant_id v) (rg_recorder st) = (r, s) ∧
    rec_step (RClose (variant_id v)) (rg_recorder st) = Ok s ∧
    rec_handles s = rec_handles (rg_recorder st) ∖ {[variant_id v]} ∧
    ((∃ a, r = Ok a) ∨ ∃ e, r = Err (McapError e)) ∧
    foxglove_mcap_close (Some p) st =
      Ok (match r with Ok _ => COk | _ => CMcapError end,
          set_recorder s (set_writers (delete p (rg_writers st)) (rg_next st) st)).
Proof.
  intros Hi Hn Hp. destruct (open_sink n st p v Hi Hp) as (Hh & m & Hm).
  destruct (close_spec n _ _ m (ri_recorder _ _ Hi) Hn Hh Hm) as (Er & Hnp & s1 & Es & Hfin).
  destruct (handle_close (variant_id v) (rg_recorder st)) as [r s] eqn:Ec. cbn in Er, Hnp, Es. subst s.
  exists r, (forget_handle (variant_id v) s1).
  assert ((∃ a, r = Ok a) ∨ ∃ e, r = Err (McapError e)) as Hr.
  { unfold McapSink_finish in Er. destruct (mk_inner m) as [i|]; [|by rewrite Er in Hnp].
    destruct (writer_finish _) as [w [u|e|]]; cbn in Er; subst r;
      [left; by eexists|right; by eexists|done]. }
  split_and!; [done| | |done|].
  - cbn [rec_step]. rewrite decide_True, Ec by done. unfold no_result. by destruct r.
  - cbn. by destruct (fi_rest _ _ _ _ Hfin) as (_ & _ & -> & _).
  - cbn. unfold mbind, RecM_bind, box_from_raw. rewrite Hp. cbn. unfold on_recorder. cbn. rewrite Ec.
    destruct Hr as [[a ->]|[e ->]]; done.
Qed.

Lemma close_call_spec n writer st :
  recording_inv n st → Z.of_nat n < 2 ^ 32 - 2 → owns writer st → call_spec n (McapClose writer) st.
Proof.
  intros Hi Hn Hw. destruct writer as [p|]; [|by eapply (untouched_spec n _ st st)].
  destruct (owned n st p Hi Hw) as [v Hp].
  destruct (close_call n p v st Hi Hn Hp) as (r & s & _ & Es & Eh & Hr & Ec).
  destruct (rec_step_ok n (RClose (variant_id v)) _ (ri_recorder _ _ Hi) Hn) as (s' & Es' & Hs & _).
  assert (s' = s) as -> by congruence.
  eexists _, _. cbn [run_call]. unfold mbind at 1, RecM_bind at 1. rewrite Ec.
  split_and!; [done|by destruct Hr as [[a ->]|[e ->]]| |done|].
  - destruct Hi as [Hrec Ho Hd Hb]. split; cbn; [done| | |].
    + intros q w. rewrite lookup_delete_Some. intros [Hne Hq]. destruct (Ho q w Hq) as (? & u & -> & Hu).
      split; [done|]. exists u. split; [done|]. rewrite Eh. apply elem_of_difference. split; [done|].
      intros E%elem_of_singleton. by apply Hne, (Hd p q v u).
    + intros q q' u u' [_ Hq]%lookup_delete_Some [_ Hq']%lookup_delete_Some. by eapply Hd.
    + intros id. rewrite Eh. intros [Hid Hne]%elem_of_difference. destruct (Hb id Hid) as (q & u & Hq & <-).
      exists q, u. split; [|done]. rewrite lookup_delete_ne; [done|]. intros ->. set_solver.
  - exists [RClose (variant_id v)]. split_and!; [done|cbn [rec_run]; by rewrite Es|].
    intros q u Hq Hne. assert (p ≠ q) as Hpq by congruence. split_and!.
    + cbn. by rewrite lookup_delete_ne.
    + constructor; [|constructor]. intros E. by apply Hpq, (ri_distinct _ _ Hi p q v u).
    + intros f. cbn [seen]. by rewrite Es.
Qed.

(** ** Opening *)

(** The filter that the file gets: the one of the options, unless there is a custom
    writer. *)
Definition opened_filter (options : FoxgloveMcapOptions (CState:=CState)) : option (ChannelDescriptor → bool) :=
  match mo_custom_writer options with Some _ => None | None => mo_sink_channel_filter options end.
(** What the file names its library. *)
Definition library_of (st : Recording) : string :=
  "foxglove-sdk-" +:+ default COMPILED_SDK_LANGUAGE (rg_language st) +:+ "/v" +:+ CARGO_PKG_VERSION.
(** A destination that the options name and that can be written. *)
Definition usable (options : FoxgloveMcapOptions) (files : gset string) (d : Destination (CState:=CState)) : Prop :=
  match mo_custom_writer options with
  | Some cw => d = ToCustom {| callbacks := cw |} ∧ is_Some (cw_write_fn cw) ∧ is_Some (cw_flush_fn cw) ∧
      (mo_disable_seeking options = false → is_Some (cw_seek_fn cw))
  | None => ∃ path, d = ToFile path ∧ as_utf8_str (mo_path options) = Some path ∧ path ≠ ""%string ∧
      os_refuses path = None ∧ (mo_truncate options = true ∨ path ∉ files)
  end.
Definition opened_files (d : Destination (CState:=CState)) (files : gset string) : gset string :=
  match d with ToFile path => {[path]} ∪ files | ToCustom _ => files end.

Definition opens (options : FoxgloveMcapOptions) (null : bool) (st : Recording)
    (code : CError) (p : option nat) (st' : Recording) : Prop :=
  ∃ o d id s v, to_write_options options = Ok o ∧ usable options (rg_files st) d ∧
    McapWriter_create {| mw_channel_filter := opened_filter options |}
      (destination (wo_library (library_of st) o) d) (rg_recorder st) = (Ok id, s) ∧
    variant_id v = id ∧ code = COk ∧ p = (if null then None else Some (rg_next st)) ∧
    rg_context st' = rg_context st ∧ rg_recorder st' = s ∧ rg_files st' = opened_files d (rg_files st) ∧
    rg_writers st' = <[rg_next st := Some v]> (rg_writers st) ∧ rg_next st' = S (rg_next st).
Definition refuses (options : FoxgloveMcapOptions) (st : Recording) (code : CError) (p : option nat)
    (st' : Recording) : Prop :=
  code ∈ [CValueError; CUtf8Error; CIoError; CMcapError] ∧ p = None ∧
  rg_context st' = rg_context st ∧ rg_recorder st' = rg_recorder st ∧
  rg_writers st' = rg_writers st ∧ rg_next st' = rg_next st ∧
  (rg_files st' = rg_files st ∧
     (∀ o d, to_write_options options = Ok o → ¬ usable options (rg_files st) d) ∨
   code = CMcapError ∧ ∃ o d e, to_write_options options = Ok o ∧ usable options (rg_files st) d ∧
     rg_files st' = opened_files d (rg_files st) ∧
     create (destination (wo_library (library_of st) o) d) = Err e).

Lemma usable_one options files d d' : usable options files d → usable options files d' → d = d'.
Proof.
  unfold usable. destruct (mo_custom_writer options) as [cw|]; [intros [-> _] [-> _]; done|].
  intros (path & -> & E & _) (path' & -> & E' & _). congruence.
Qed.

Lemma create_writer_run f o d st :
  (∃ id s, McapWriter_create {| mw_channel_filter := f |} (destination o d) (rg_recorder st) = (Ok id, s) ∧
     create_writer f o d st = Ok (Ok id, set_recorder s st)) ∨
  (∃ e, create (destination o d) = Err e ∧
     create_writer f o d st = Ok (Err (McapError e), set_recorder (rg_recorder st) st)).
Proof.
  unfold create_writer, on_recorder, McapWriter_create, McapSink_new.
  pose proof (create_returns (destination o d)). destruct (create (destination o d)) as [w|e|]; cbn; [| |done].
  - left. destruct (add_sink _ _ _) as [[ok x] w']. by eexists _, _.
  - right. by exists e.
Qed.

Lemma writer_variant_cases options o st :
  (∃ e, writer_variant options o st = Ok (Err e, st) ∧ CError_from e ∈ [CValueError; CUtf8Error; CIoError] ∧
     ∀ d, ¬ usable options (rg_files st) d) ∨
  ∃ d, usable options (rg_files st) d ∧
    let st1 := set_files (opened_files d (rg_files st)) st in
    (∃ id s v, McapWriter_create {| mw_channel_filter := opened_filter options |} (destination o d)
        (rg_recorder st) = (Ok id, s) ∧ variant_id v = id ∧
        writer_variant options o st = Ok (Ok v, set_recorder s st1)) ∨
    (∃ e, create (destination o d) = Err e ∧
        writer_variant options o st = Ok (Err (McapError e), set_recorder (rg_recorder st) st1)).
Proof.
  unfold writer_variant, opened_filter, usable. destruct (mo_custom_writer options) as [cw|].
  - destruct (is_none (cw_seek_fn cw) && negb (mo_disable_seeking options)) eqn:Es.
    { left. eexists. split_and!; [done|cbn; set_solver|]. intros d (_ & _ & _ & Hs).
      apply andb_prop in Es as [Es Ed]. apply negb_true_iff in Ed. destruct (Hs Ed) as [x Hx].
      by rewrite Hx in Es. }
    destruct (is_none (cw_write_fn cw) || is_none (cw_flush_fn cw)) eqn:Ew.
    { left. eexists. split_and!; [done|cbn; set_solver|]. intros d (_ & [x Hx] & [y Hy] & _).
      by rewrite Hx, Hy in Ew. }
    right. exists (ToCustom {| callbacks := cw |}). split.
    { split; [done|]. destruct (cw_write_fn cw), (cw_flush_fn cw); try done. split_and!; [done..|].
      intros Ed. rewrite Ed in Es. by destruct (cw_seek_fn cw). }
    unfold and_then, mbind, RecM_bind.
    destruct (create_writer_run None o (ToCustom {| callbacks := cw |}) st) as [(id & s & Ec & ->)|(e & Ec & ->)].
    + left. by exists id, s, (Custom id).
    + right. by exists e.
  - unfold utf8_or. destruct (as_utf8_str (mo_path options)) as [path|].
    2: { left. eexists. split_and!; [done|cbn; set_solver|]. by intros d (path & _ & ? & _). }
    unfold and_then, mbind, RecM_bind. cbn. destruct (decide (path = ""%string)) as [->|Hne].
    { left. eexists. split_and!; [done|cbn; set_solver|]. intros d (path & _ & [= <-] & ? & _). done. }
    unfold open_file. destruct (os_refuses path) as [e|] eqn:Eo.
    { left. eexists. split_and!; [done|cbn; set_solver|].
      intros d (path' & _ & [= <-] & _ & Hr & _). congruence. }
    destruct (negb (mo_truncate options) && bool_decide (path ∈ rg_files st)) eqn:Et.
    { left. eexists. split_and!; [done|cbn; set_solver|].
      intros d (path' & _ & [= <-] & _ & _ & Hr). apply andb_prop in Et as [Et Hin%bool_decide_eq_true].
      apply negb_true_iff in Et. destruct Hr; congruence. }
    cbn. right. exists (ToFile path). split.
    { exists path. split_and!; [done..|]. apply andb_false_iff in Et as [Et%negb_false_iff|Hin%bool_decide_eq_false];
        auto. }
    destruct (create_writer_run (mo_sink_channel_filter options) o (ToFile path)
      (set_files ({[path]} ∪ rg_files st) st)) as [(id & s & Ec & ->)|(e & Ec & ->)].
    + left. by exists id, s, (File id).
    + right. by exists e.
Qed.

Lemma open_cases options null st :
  mo_context options = rg_context st → rec_alive (rg_recorder st) = true →
  ∃ code p st', foxglove_mcap_open options null st = Ok ((code, p), st') ∧
    (opens options null st code p st' ∨ refuses options st code p st').
Proof.
  intros Hctx Ha. unfold foxglove_mcap_open, do_foxglove_mcap_open.
  unfold and_then, mbind, RecM_bind. cbn.
  destruct (to_write_options options) as [o|e|] eqn:Eo; cbn.
  3: { unfold to_write_options in Eo. by destruct (as_utf8_str (mo_profile options)). }
  2: { eexists _, _, st. split; [done|right]. assert (CError_from e = CValueError) as ->.
       { unfold to_write_options in Eo. destruct (as_utf8_str (mo_profile options)); by simplify_eq/=. }
       split_and!; [cbn; set_solver|done..|]. left. split; [done|]. intros o d. congruence. }
  unfold McapWriter_with_options, get_library_version, get_or_init. unfold mbind, RecM_bind. cbn.
  unfold options_context. cbn. rewrite decide_True, Ha by done. cbn. fold (library_of st).
  set (st0 := set_language _ st).
  destruct (writer_variant_cases options (wo_library (library_of st) o) st0)
    as [(e & -> & He & Hu)|(d & Hu & [(id & s & v & Ec & Ev & ->)|(e & Ec & ->)])]; cbn.
  - eexists _, _, _. split; [done|right]. split_and!; [set_solver|done..|]. left. split; [done|].
    intros o' d _. apply Hu.
  - eexists _, _, _. split; [done|left]. exists o, d, id, s, v. by split_and!.
  - eexists _, _, _. split; [done|right]. split_and!; [cbn; set_solver|done..|]. right. split; [done|].
    by exists o, d, e.
Qed.

(** A state after opening. *)
Lemma open_call_spec n options null st :
  recording_inv n st → Z.of_nat n < 2 ^ 32 - 2 → allowed (McapOpen options null) st →
  call_spec n (McapOpen options null) st.
Proof.
  intros Hi Hn [Hctx Ha]. destruct (open_cases options null st Hctx Ha) as (code & p & st' & E & Hc).
  destruct Hc as [(o & d & id & s & v & Eo & Hu & Ec & Ev & -> & -> & Hx & Es & Hf & Hw & Hnx)|Hr].
  2: { destruct Hr as (Hcode & -> & Hx & Es & Hw & Hnx & _). eapply (untouched_spec n _ st st'); [done| | |done..].
       - cbn. unfold mbind, RecM_bind. by rewrite E.
       - cbn. set_solver. }
  pose proof (ri_recorder _ _ Hi) as Hrec.
  destruct (create_spec n _ _ _ id s Hrec Ha Hn Ec) as (Hs & _ & _ & Eh & Hid & k & _ & Ek).
  eexists _, st'. cbn [run_call]. unfold mbind, RecM_bind. rewrite E. split_and!; [done|done| |done|].
  - assert (rg_writers st !! rg_next st = None) as Hnew.
    { destruct (rg_writers st !! rg_next st) as [w|] eqn:Ew; [|done].
      destruct (ri_open _ _ Hi _ _ Ew). lia. }
    destruct Hi as [_ Ho Hd Hb]. split; rewrite ?Es, ?Hw, ?Hnx; [done|..].
    + intros q w. rewrite lookup_insert_Some, Eh. intros [[<- <-]|[_ Hq]].
      * split; [lia|]. exists v. split; [done|]. set_solver.
      * destruct (Ho q w Hq) as (? & u & -> & Hu'). split; [lia|]. exists u. set_solver.
    + intros q q' u u'. rewrite !lookup_insert_Some. intros [[<- [= <-]]|[_ Hq]] [[<- [= <-]]|[_ Hq']] Eq.
      * done.
      * destruct (Ho _ _ Hq') as (_ & u2 & [= <-] & Hin). congruence.
      * destruct (Ho _ _ Hq) as (_ & u2 & [= <-] & Hin). congruence.
      * by eapply Hd.
    + intros id'. rewrite Eh. intros [->%elem_of_singleton|Hin]%elem_of_union.
      * exists (rg_next st), v. by rewrite lookup_insert_eq.
      * destruct (Hb id' Hin) as (q & u & Hq & ?). exists q, u. split; [|done].
        rewrite lookup_insert_ne; congruence.
  - eexists [RCreate _ _]. split_and!; [done|cbn [rec_run rec_step]; rewrite Ha|].
    + unfold no_result. by rewrite Ec, Es.
    + intros q u Hq _. split_and!; [|by repeat constructor|].
      * rewrite Hw, lookup_insert_ne; [done|]. intros <-. destruct (ri_open _ _ Hi _ _ Hq). lia.
      * intros f. cbn [seen]. by destruct (rec_step _ _).
Qed.

(** ** Programs *)

Lemma any_call_spec n (c : Call) st :
  recording_inv n st → Z.of_nat n < 2 ^ 32 - 2 → allowed c st → call_spec n c st.
Proof.
  intros Hi Hn Ha. destruct c as [options null|w|w name md|w a|op].
  - by apply open_call_spec.
  - by apply close_call_spec.
  - by apply metadata_spec.
  - by apply attach_spec.
  - by apply other_spec.
Qed.

Lemma seen_app id f ops1 ops2 s s1 :
  rec_run ops1 s = Ok s1 → seen id f (ops1 ++ ops2) s = seen id f ops1 s ++ seen id f ops2 s1.
Proof.
  revert s. induction ops1 as [|op ops IH]; intros s; cbn; [by intros [= ->]|].
  destruct (rec_step op s) as [s'|e|]; cbn; [|done..]. intros E. by rewrite (IH _ E), app_assoc.
Qed.
Lemma rec_run_app ops1 ops2 s s1 s2 :
  rec_run ops1 s = Ok s1 → rec_run ops2 s1 = Ok s2 → rec_run (ops1 ++ ops2) s = Ok s2.
Proof.
  revert s. induction ops1 as [|op ops IH]; intros s; cbn; [by intros [= ->]|].
  destruct (rec_step op s) as [s'|e|]; cbn; [|done..]. apply IH.
Qed.

(** A disciplined program returns, and is a run of the recorder. *)
Lemma program_runs n (cs : list Call) st :
  recording_inv n st → Z.of_nat (n + length cs) < 2 ^ 32 - 2 → disciplined cs st →
  ∃ l st' ops, run_calls cs st = Ok (l, st') ∧ recording_inv (n + length cs) st' ∧
    rg_context st' = rg_context st ∧ (CSinkClosed ∉ (code_of_answer <$> l)) ∧ (length ops ≤ length cs)%nat ∧
    rec_run ops (rg_recorder st) = Ok (rg_recorder st') ∧
    ∀ p v, rg_writers st !! p = Some (Some v) → McapClose (Some p) ∉ cs →
      rg_writers st' !! p = Some (Some v) ∧ Forall (keeps (variant_id v)) ops ∧
      ∀ f, seen (variant_id v) f ops (rg_recorder st) = all_asks p (variant_id v) f cs st.
Proof.
  revert n st. induction cs as [|c cs IH]; intros n st Hi Hn; cbn [length disciplined] in *.
  { intros _. exists [], st, []. rewrite Nat.add_0_r. split_and!; try done.
    cbn. set_solver. }
  intros [Ha Hd]. destruct (any_call_spec n c st Hi ltac:(lia) Ha) as (a & st1 & E & Hc & Hi1 & Hx1 & ops1 & Hl1 & Hr1 & Hp1).
  destruct (IH (S n) st1 Hi1 ltac:(lia) (Hd _ _ E)) as (l & st2 & ops2 & E2 & Hi2 & Hx2 & Hc2 & Hl2 & Hr2 & Hp2).
  exists (a :: l), st2, (ops1 ++ ops2). cbn [run_calls]. unfold mbind, RecM_bind. rewrite E. cbn. rewrite E2.
  split_and!; [done| |congruence| | | |].
  - by rewrite Nat.add_succ_r.
  - cbn. set_solver.
  - rewrite length_app. lia.
  - by eapply rec_run_app.
  - intros p v Hp Hn'. apply not_elem_of_cons in Hn' as [Hne Hni].
    destruct (Hp1 p v Hp (not_eq_sym Hne)) as (Hw1 & Hk1 & Hs1).
    destruct (Hp2 p v Hw1 Hni) as (Hw2 & Hk2 & Hs2). split_and!; [done|by apply Forall_app|].
    intros f. rewrite (seen_app _ _ _ _ _ _ Hr1), Hs1, Hs2. cbn [all_asks]. by rewrite E.
Qed.
Lemma recording_init_inv context files : recording_inv 0 (Recording_init context files).
Proof.
  split; cbn; [apply rec_init_inv|..].
  - intros p w. by rewrite lookup_empty.
  - intros p q v v'. by rewrite lookup_empty.
  - intros id. set_solver.
Qed.

(** ** Properties *)

(** C17: C programs that record are safe.  A program that passes null, or pointers of
    writers that it has not closed, never has undefined behaviour and never panics,
    whatever the files and the functions of custom writers do, and no call of it
    reports [SinkClosed].  A writer that it has not closed is the one owner of an open
    handle, and each open handle has one; the context logs to no other file. *)
Theorem c_recordings_safe context files (calls : list Call) :
  disciplined calls (Recording_init context files) → Z.of_nat (length calls) < 2 ^ 32 - 2 →
  ∃ answers st, run_calls calls (Recording_init context files) = Ok (answers, st) ∧
    (CSinkClosed ∉ (code_of_answer <$> answers)) ∧
    (∀ p w, rg_writers st !! p = Some w → ∃ v m, w = Some v ∧
       rec_sinks (rg_recorder st) !! variant_id v = Some m ∧ is_Some (mk_inner m)) ∧
    (∀ id, id ∈ rec_handles (rg_recorder st) ↔
       exists! p, ∃ v, rg_writers st !! p = Some (Some v) ∧ variant_id v = id) ∧
    ∀ id k, sinks (rec_context (rg_recorder st)) !! id = Some k → id ∈ rec_handles (rg_recorder st).
Proof.
  intros Hd Hl. destruct (program_runs 0 calls _ (recording_init_inv context files) Hl Hd)
    as (l & st & ops & E & Hi & _ & Hc & _).
  exists l, st. split_and!; [done|done| | |].
  - intros p w Hp. destruct (ri_open _ _ Hi _ _ Hp) as (_ & v & -> & Hh).
    destruct (ri_handles _ _ (ri_recorder _ _ Hi) _ Hh) as (m & Hm & Hhist & _). exists v, m.
    split_and!; [done..|]. by destruct (history_step _ _ _ _ (OpMetadata "" ∅) Hhist I ltac:(lia)).
  - intros id. split.
    + intros (p & v & Hp & <-)%(ri_boxed _ _ Hi). exists p. split; [by exists v|].
      intros q (u & Hq & Eq). by eapply (ri_distinct _ _ Hi).
    + intros (p & (v & Hp & <-) & _). by apply (open_sink _ _ p v Hi).
  - intros id k Hk. by destruct (ri_sinks _ _ (ri_recorder _ _ Hi) _ _ Hk).
Qed.

Lemma opens_created options null st code p st' :
  opens options null st code p st' → code = COk ∧ ∃ o d w v k,
    to_write_options options = Ok o ∧ usable options (rg_files st) d ∧
    create (destination (wo_library (library_of st) o) d) = Ok w ∧
    p = (if null then None else Some (rg_next st)) ∧ rg_files st' = opened_files d (rg_files st) ∧
    rg_writers st' = <[rg_next st := Some v]> (rg_writers st) ∧
    rec_sinks (rg_recorder st') !! variant_id v = Some k ∧ mk_channel_filter k = opened_filter options.
Proof.
  intros (o & d & id & s & v & Eo & Hu & Ec & <- & -> & -> & _ & Es & Hf & Hw & _). split; [done|].
  unfold McapWriter_create, McapSink_new in Ec.
  destruct (create (destination (wo_library (library_of st) o) d)) as [w|e|] eqn:Ew; cbn in Ec; [|done..].
  destruct (add_sink _ _ _) as [[ok x] w']. injection Ec as Eid <-.
  exists o, d, w, v. eexists. split_and!; [done..| |].
  - rewrite Es. cbn. by rewrite Eid, lookup_insert_eq.
  - done.
Qed.


End proofs.
