(* ===== verification/CRecordingExamples.v ===== *)
(** * CRecordingExamples: a C program that records

    Witnesses for CRecordingProofs.v at a program that records a channel with metadata
    and an attachment; and two faults of [foxglove_mcap_open]: a custom writer records
    the channels that the options filter out ([custom_writer_unfiltered]), and without a
    place for the pointer the writer can never be closed ([null_writer_leaks]). *)

From S2P Require Import Prelude Bytes Channel Subscriptions Context Following McapSink Recorder.
From S2P Require Import Typed CError CChannel CRecording CRecordingProofs.
Local Open Scope Z_scope.

(** A crate that needs no options, a system where every path can be opened, and C functions
    without a state. *)
#[local] Instance sample_options : @McapOptions unit mcap_ref := {|
  WriteOptions := list string; WriteOptions_default := []; wo_profile p o := ("profile " +:+ p)%string :: o;
  wo_library l o := l :: o; wo_compression _ o := o; wo_chunk_size _ o := o; wo_use_chunks _ o := o;
  wo_disable_seeking _ o := o; wo_emit_statistics _ o := o; wo_emit_summary_offsets _ o := o;
  wo_emit_message_indexes _ o := o; wo_emit_chunk_indexes _ o := o; wo_emit_attachment_indexes _ o := o;
  wo_emit_metadata_indexes _ o := o; wo_repeat_channels _ o := o; wo_repeat_schemas _ o := o;
  destination _ _ := tt : @Inner mcap_ref
|}.
#[local] Instance sample_files : Files := {| os_refuses _ := None |}.
#[local] Instance sample_build : Build := {| CARGO_PKG_VERSION := "1"; FOXGLOVE_SDK_LANGUAGE := None |}.
#[local] Existing Instance mcap_ref.
#[local] Existing Instance mcap_ref_laws.

Abbreviation SampleCall := (@Call unit mcap_ref).

(** ** Discipline, decided *)

Definition ownsb (writer : option nat) (st : Recording) : bool :=
  match writer with Some p => negb (is_none (rg_writers st !! p)) | None => true end.
Definition allowedb (c : SampleCall) (st : Recording) : bool :=
  match c with
  | McapOpen options _ => bool_decide (mo_context options = rg_context st) && rec_alive (rg_recorder st)
  | McapClose w | McapWriteMetadata w _ _ => ownsb w st
  | McapAttach w a => ownsb w st &&
      match ma_data a with Some l => ma_data_len a <=? Z.of_nat (length l) | None => true end
  | Other op => match op with
      | RBuild _ | RCloseChannel _ | RLog _ _ _ _ _ _ | RDropContext => true
      | _ => false
      end
  end.
Fixpoint disciplinedb (cs : list SampleCall) (st : Recording) : bool :=
  match cs with
  | [] => true
  | c :: cs => allowedb c st && match run_call c st with Ok (_, st) => disciplinedb cs st | _ => true end
  end.

Lemma ownsb_ok w st : ownsb w st = true → owns w st.
Proof. destruct w as [p|]; [|done]. cbn. by destruct (rg_writers st !! p). Qed.
Lemma allowedb_ok c st : allowedb c st = true → allowed c st.
Proof.
  destruct c as [options null|w|w name md|w a|op]; cbn.
  - intros [?%bool_decide_eq_true ?]%andb_prop. done.
  - apply ownsb_ok.
  - apply ownsb_ok.
  - intros [?%ownsb_ok Hd]%andb_prop. split; [done|]. destruct (ma_data a); [lia|done].
  - by destruct op.
Qed.
Lemma disciplinedb_ok cs st : disciplinedb cs st = true → disciplined cs st.
Proof.
  revert st. induction cs as [|c cs IH]; intros st; [done|]. cbn [disciplined disciplinedb].
  intros [Ha Hd]%andb_prop. split; [by apply allowedb_ok|]. intros a st' E. rewrite E in Hd. by apply IH.
Qed.

(** ** A recording *)

Definition text (s : string) : CString := Some (as_bytes s).
Definition plain_options (path : CString) (custom : option (@FoxgloveCustomWriter unit))
    (filter : option (ChannelDescriptor → bool)) : FoxgloveMcapOptions :=
  {| mo_context := None; mo_path := path; mo_truncate := false; mo_custom_writer := custom;
     mo_compression := CompressionZstd; mo_profile := text "ros2"; mo_chunk_size := 0; mo_use_chunks := true;
     mo_disable_seeking := false; mo_emit_statistics := true; mo_emit_summary_offsets := true;
     mo_emit_message_indexes := true; mo_emit_chunk_indexes := true; mo_emit_attachment_indexes := true;
     mo_emit_metadata_indexes := true; mo_repeat_channels := true; mo_repeat_schemas := true;
     mo_sink_channel_filter := filter |}.
(** Only the topic "/a". *)
Definition a_options : FoxgloveMcapOptions :=
  plain_options (text "rec.mcap") None (Some (λ d, bool_decide (cd_topic d = "/a"%string))).
Definition sample_attachment : FoxgloveMcapAttachment :=
  {| ma_log_time := 5; ma_create_time := 0; ma_name := text "config"; ma_media_type := text "text/plain";
     ma_data := Some [Byte.x61; Byte.x62]; ma_data_len := 1 |}.
Definition sample_before : list SampleCall := [Other (RBuild (topic_channel "/a"))].
Definition sample_during : list SampleCall :=
  [Other (example_log_op 1 Byte.x02); Other (RBuild (topic_channel "/b")); Other (example_log_op 2 Byte.x03);
   McapWriteMetadata (Some 1%nat) (text "m") (Some [(text "k", text "v"); (text "k", text "w")]);
   McapWriteMetadata (Some 1%nat) (Some [Byte.xff]) None; McapAttach (Some 1%nat) sample_attachment;
   McapClose None; Other (example_log_op 1 Byte.x04)].
Definition sample_calls : list SampleCall :=
  sample_before ++ McapOpen a_options false :: sample_during ++ [McapClose (Some 1%nat)].

Definition answers_of (r : result Outside (list Answer * Recording)) : list CError :=
  match r with Ok (l, _) => code_of_answer <$> l | _ => [] end.
(** What the file of the first sink holds. *)
Definition file_of (r : result Outside (list Answer * Recording)) : list McapRecord :=
  match r with
  | Ok (_, st) => match rec_sinks (rg_recorder st) !! 1 ≫= mk_inner with
      | Some ws => records (ws_writer ws)
      | None => []
      end
  | _ => []
  end.

Lemma sample_calls_disciplined : disciplined sample_calls (Recording_init None ∅).
Proof. apply disciplinedb_ok. vm_compute. reflexivity. Qed.

Lemma c_recordings_safe_witness :
  (∃ answers st, run_calls sample_calls (Recording_init None ∅) = Ok (answers, st) ∧
     (CSinkClosed ∉ (code_of_answer <$> answers))) ∧
  answers_of (run_calls sample_calls (Recording_init None ∅)) =
    [COk; COk; COk; COk; COk; COk; CUtf8Error; COk; CValueError; COk; COk].
Proof.
  split; [|vm_compute; reflexivity].
  destruct (c_recordings_safe None ∅ sample_calls sample_calls_disciplined eq_refl)
    as (answers & st & E & Hc & _). exists answers, st. split; [exact E|exact Hc].
Defined.

Example sample_file :
  match file_of (run_calls (sample_before ++ McapOpen a_options false :: sample_during) (Recording_init None ∅)) with
  | [RChannel 1 0 "/a" _ _; RMessage _ [Byte.x02]; McapSink.RMetadata "m" m; RAttachment a; RMessage _ [Byte.x04]] =>
    bool_decide (map_to_list m = [("k", "w")]%string) && bool_decide (at_data a = [Byte.x61])
  | _ => false
  end = true.
Proof. vm_compute. reflexivity. Qed.

(** The state before the file is opened, and the one after. *)
Definition state_of {A} (r : result Outside (A * Recording)) : Recording :=
  match r with Ok (_, st) => st | _ => Recording_init None ∅ end.
Definition before_state : Recording := state_of (run_calls sample_before (Recording_init None ∅)).
Definition opened_state : Recording := state_of (foxglove_mcap_open a_options false before_state).

Lemma before_runs : run_calls sample_before (Recording_init None ∅) = Ok ([ADone], before_state).
Proof. reflexivity. Qed.
Lemma sample_opens : foxglove_mcap_open a_options false before_state = Ok ((COk, Some 1%nat), opened_state).
Proof. reflexivity. Qed.

Lemma before_disciplined : disciplined sample_before (Recording_init None ∅).
Proof. apply disciplinedb_ok. vm_compute. reflexivity. Qed.
Lemma during_disciplined : disciplined sample_during opened_state.
Proof. apply disciplinedb_ok. vm_compute. reflexivity. Qed.



(** ** The faults *)

Definition echo_writer : @FoxgloveCustomWriter unit :=
  {| cw_context := 0; cw_write_fn := Some (λ _ l s, ((Z.of_nat (length l), 0), s));
     cw_flush_fn := Some (λ _ s, (0, s)); cw_seek_fn := Some (λ _ _ _ s, ((0, 0), s)) |}.
Definition none_options (custom : option (@FoxgloveCustomWriter unit)) : FoxgloveMcapOptions :=
  plain_options (text "rec.mcap") custom (Some (λ _, false)).

(** The same options with a filter that accepts nothing: the file stays empty, and the
    custom writer gets the message. *)
Example custom_writer_unfiltered :
  let program custom : list SampleCall := [Other (RBuild (topic_channel "/a")); McapOpen (none_options custom) false;
                          Other (example_log_op 1 Byte.x02)] in
  length (messages (file_of (run_calls (program None) (Recording_init None ∅)))) = 0%nat ∧
  length (messages (file_of (run_calls (program (Some echo_writer)) (Recording_init None ∅)))) = 1%nat.
Proof. vm_compute. by split. Qed.

(** The call succeeds, C gets no pointer, and the writer stays open. *)
Example null_writer_leaks :
  match run_calls ([McapOpen a_options true] : list SampleCall) (Recording_init None ∅) with
  | Ok ([AWriter COk None], st) => bool_decide (rg_writers st = {[1%nat := Some (File 1)]})
  | _ => false
  end = true.
Proof. vm_compute. reflexivity. Qed.
