(* ===== verification/Arena.v ===== *)
(** * Arena: the bump allocator behind the C API's messages

    `src/c/src/arena.rs`.  [Arena::alloc] hands out aligned slices of an inline
    buffer of 128 KB and falls back to the global allocator; [Arena::map]
    converts the elements of a C array into such a slice; dropping the arena
    frees the overflow blocks.

    Memory is addressed by bytes: a cell is a value that occupies [n] bytes from
    its address, storing a value destroys the cells it overlaps, and a store
    outside the buffer and the live heap blocks, or a misaligned one, is
    undefined behaviour ([None]), as is freeing a block that is not live with
    that layout.  [alloc_steps] says that what [alloc] returns is aligned,
    accessible and disjoint from all that was handed out before, or null when
    the global allocator is [out_of_memory]; [map_steps] lifts the specification
    of the conversion of one element to the array; [Arena_drop_steps] frees each
    overflow block exactly once. *)

From S2P Require Import Prelude Bytes Channel.
Local Open Scope Z_scope.

Record Layout := { l_size : Z; l_align : Z }.
#[export] Instance Layout_eq_dec : EqDecision Layout.
Proof. solve_decision. Defined.

(** [std::alloc::alloc]: the address of a new block, or 0. *)
Class GlobalAlloc := ga_alloc : gmap Z Layout → Layout → Z.

Section arena.
Context {V : Type} `{GlobalAlloc}.

Record State := {
  s_cells : gmap Z (Z * V);        (* address, size, value *)
  s_live : gmap Z Layout;          (* the blocks of the global allocator *)
  a_buffer : Z;                    (* [self.buffer.get() as usize] *)
  a_offset : Z;
  a_overflow : list (Z * Layout)
}.

(** ** Programs *)

Definition M (A : Type) : Type := State → option (result FoxgloveError A * State).
#[export] Instance M_ret : MRet M := λ A a st, Some (Ok a, st).
#[export] Instance M_bind : MBind M := λ A B f m st,
  match m st with
  | Some (Ok a, st) => f a st
  | Some (Err e, st) => Some (Err e, st)
  | Some (Panic, st) => Some (Panic, st)
  | None => None
  end.
Definition undefined {A} : M A := λ _, None.
Definition panic {A} : M A := λ st, Some (Panic, st).
Definition throw {A} (e : FoxgloveError) : M A := λ st, Some (Err e, st).
Definition get : M State := λ st, Some (Ok st, st).
Definition modify (f : State → State) : M unit := λ st, Some (Ok tt, f st).
Definition lift {A} (r : result FoxgloveError A) : M A := λ st, Some (r, st).

Definition set_heap (cells : gmap Z (Z * V)) (live : gmap Z Layout) (st : State) : State :=
  {| s_cells := cells; s_live := live; a_buffer := a_buffer st; a_offset := a_offset st;
     a_overflow := a_overflow st |}.
Definition set_arena (offset : Z) (overflow : list (Z * Layout)) (st : State) : State :=
  {| s_cells := s_cells st; s_live := s_live st; a_buffer := a_buffer st; a_offset := offset;
     a_overflow := overflow |}.

(** ** Memory *)

Definition SIZE : Z := 128 * 1024.

(** The bytes from [a] to [a + n] lie in the buffer or in a live block. *)
Definition within (a n p k : Z) : bool := (p <=? a) && (a + n <=? p + k).
Definition accessible (st : State) (a n : Z) : bool :=
  within a n (a_buffer st) SIZE ||
  existsb (λ '(p, l), within a n p (l_size l)) (map_to_list (s_live st)).
Definition overlaps (a n a' n' : Z) : bool := (a <? a' + n') && (a' <? a + n).

Definition store (a : Z) (t : Layout) (v : V) : M unit := λ st,
  if accessible st a (l_size t) && (a mod l_align t =? 0) then
    Some (Ok tt, set_heap (<[a := (l_size t, v)]>
      (filter (λ c, overlaps a (l_size t) c.1 c.2.1 = false) (s_cells st))) (s_live st) st)
  else None.
Definition load (st : State) (a : Z) (t : Layout) : option V :=
  '(n, v) ← s_cells st !! a; if n =? l_size t then Some v else None.

(** [std::alloc::alloc], of which a failure returns a null pointer, and
    [std::alloc::dealloc]. *)
Definition heap_alloc (l : Layout) : M Z := λ st,
  if l_size l =? 0 then None
  else
    let p := ga_alloc (s_live st) l in
    Some (Ok p, if p =? 0 then st else set_heap (s_cells st) (<[p := l]> (s_live st)) st).
Definition heap_dealloc (p : Z) (l : Layout) : M unit := λ st,
  if bool_decide (s_live st !! p = Some l) then
    Some (Ok tt, set_heap (filter (λ c, overlaps p (l_size l) c.1 c.2.1 = false) (s_cells st))
      (delete p (s_live st)) st)
  else None.

(** ** [Arena] *)

(** [usize::next_multiple_of], on a machine that wraps. *)
Definition next_multiple_of (x m : Z) : Z :=
  let r := x mod m in if r =? 0 then x else wrap 64 (x + (m - r)).
Definition ISIZE_MAX : Z := 2 ^ 63 - 1.
(** [Layout::array::<T>(n)]. *)
Definition Layout_array (t : Layout) (n : Z) : option Layout :=
  if n * l_size t <=? ISIZE_MAX - (l_align t - 1)
  then Some {| l_size := n * l_size t; l_align := l_align t |} else None.

(** The buffer of a new arena is uninitialised. *)
Definition Arena_new (st : State) : State :=
  set_arena 0 [] (set_heap
    (filter (λ c, overlaps (a_buffer st) SIZE c.1 c.2.1 = false) (s_cells st)) (s_live st) st).

Definition alloc (t : Layout) (n : Z) : M Z :=
  if 0 <? n then
    st ← get;
    let element_size := l_size t in
    let bytes_needed := wrap 64 (n * element_size) in
    let base_addr := a_buffer st in
    let aligned_offset :=
      wrap 64 (next_multiple_of (wrap 64 (base_addr + a_offset st)) (l_align t) - base_addr) in
    if SIZE <? wrap 64 (aligned_offset + bytes_needed) then
      match Layout_array t n with
      | None => panic
      | Some layout =>
        ptr ← heap_alloc layout;
        _ ← modify (λ st, set_arena (a_offset st) (a_overflow st ++ [(ptr, layout)]) st);
        mret ptr
      end
    else
      _ ← modify (λ st, set_arena (aligned_offset + bytes_needed) (a_overflow st) st);
      mret (a_buffer st + aligned_offset)
  else panic.

(** The loop of [map]: elements [i] to [i + k]. *)
Fixpoint map_loop (t : Layout) (borrow : Z → M V) (src stride result : Z) (i : Z) (k : nat) : M unit :=
  match k with
  | O => mret tt
  | S k =>
    tmp ← borrow (src + i * stride);
    _ ← store (result + i * l_size t) t tmp;
    map_loop t borrow src stride result (i + 1) k
  end.
(** [map]: [stride] is the size of an element of [src]; the vector is its
    pointer and its length, with no pointer for [Vec::new()]. *)
Definition map (t : Layout) (borrow : Z → M V) (src stride len : Z) : M (option (Z * Z)) :=
  if len =? 0 then mret None
  else
    result ← alloc t len;
    _ ← map_loop t borrow src stride result 0 (Z.to_nat len);
    mret (Some (result, len)).

(** [Drop for Arena]. *)
Fixpoint free_all (l : list (Z * Layout)) : M unit :=
  match l with
  | [] => mret tt
  | (ptr, layout) :: l => _ ← heap_dealloc ptr layout; free_all l
  end.
Definition Arena_drop : M unit :=
  st ← get; _ ← free_all (a_overflow st); modify (λ st, set_arena (a_offset st) [] st).
End arena.
Arguments State : clear implicits.
Arguments M : clear implicits.

(** ** Correctness *)

(** [foreign] are the bytes that the global allocator never hands out: the
    stack, with the buffer, and the caller's memory.  The answer of
    [std::alloc::alloc] is null or a new block. *)
Class GlobalAllocLaws `{GlobalAlloc} (foreign : Z → Prop) : Prop := {
  ga_alloc_law : ∀ live l, 0 < l_size l → 0 < l_align l →
    let p := ga_alloc live l in
    p = 0 ∨ 0 < p ∧ p mod l_align l = 0 ∧ live !! p = None ∧
    ∀ b, p ≤ b < p + l_size l → ¬ foreign b ∧ ∀ q k, live !! q = Some k → ¬ q ≤ b < q + l_size k
}.

(** How a call ends: it returns, it panics, or its behaviour is undefined; and the
    end of a sequence of calls. *)
Inductive Fate := Returns | Panics | Faults.
Definition fate_seq (f g : Fate) : Fate := match f with Returns => g | _ => f end.
Section fate_all.
Context {A : Type} (f : A → Fate).
Fixpoint fate_all (l : list A) : Fate :=
  match l with [] => Returns | x :: l => fate_seq (f x) (fate_all l) end.
End fate_all.
Lemma fate_seq_l f : fate_seq f Returns = f.
Proof. by destruct f. Qed.

(** The layouts of Rust's types. *)
Definition layout_ok (t : Layout) : Prop :=
  0 < l_size t ∧ 0 < l_align t ≤ 2 ^ 29 ∧ l_size t mod l_align t = 0.

Section spec.
Context {V : Type} `{GlobalAlloc} (foreign : Z → Prop) `{!GlobalAllocLaws foreign}.
Implicit Types (st : State V) (t : Layout) (b n p : Z).

(** The overflow blocks that the allocator did hand out. *)
Definition blocks st : list (Z * Layout) := filter (λ e, 0 < e.1) (a_overflow st).
Definition no_null st : Prop := ∀ p l, (p, l) ∈ a_overflow st → 0 < p.

(** The bytes handed out, and the slices of one allocation. *)
Definition taken st b : Prop :=
  a_buffer st ≤ b < a_buffer st + a_offset st ∨
  ∃ q l, (q, l) ∈ blocks st ∧ q ≤ b < q + l_size l.
Definition region st p n : Prop :=
  (a_buffer st ≤ p ∧ p + n ≤ a_buffer st + a_offset st) ∨
  ∃ q l, (q, l) ∈ blocks st ∧ q ≤ p ∧ p + n ≤ q + l_size l.

(** [live] are the heap blocks that are not the arena's. *)
Record arena_inv (live : gmap Z Layout) st : Prop := {
  iv_pos : ∀ p l, live !! p = Some l → 0 < p;
  iv_offset : 0 ≤ a_offset st ≤ SIZE;
  iv_buffer : 0 < a_buffer st < 2 ^ 63;
  iv_foreign : ∀ b, a_buffer st ≤ b < a_buffer st + SIZE → foreign b;
  iv_live : ∀ p l, s_live st !! p = Some l ↔ live !! p = Some l ∨ (p, l) ∈ blocks st;
  iv_nodup : NoDup (blocks st).*1;
  iv_overflow : ∀ p l, (p, l) ∈ blocks st →
    live !! p = None ∧ 0 < p ∧ 0 < l_size l ∧ ∀ b, p ≤ b < p + l_size l → ¬ foreign b;
  iv_cells : ∀ a n v, s_cells st !! a = Some (n, v) → 0 < n ∧ region st a n
}.

(** A later state: what was handed out stays, with its contents; new cells lie
    outside of it, or in the bytes [R]. *)
Record extends (R : Z → Prop) st st' : Prop := {
  ex_buffer : a_buffer st' = a_buffer st;
  ex_offset : a_offset st ≤ a_offset st';
  ex_overflow : ∃ more, blocks st' = blocks st ++ more;
  ex_cells : s_cells st ⊆ s_cells st';
  ex_new : ∀ a n v, s_cells st' !! a = Some (n, v) →
    s_cells st !! a = Some (n, v) ∨ ∀ b, a ≤ b < a + n → ¬ taken st b ∨ R b
}.
Definition none : Z → Prop := λ _, False.

Lemma extends_refl R st : extends R st st.
Proof. split; [done|done| |done|by left]. exists []. by rewrite app_nil_r. Qed.
Lemma taken_mono R st st' b : extends R st st' → taken st b → taken st' b.
Proof.
  intros [Eb Eo [more Em] _ _] [?|(q & l & ? & ?)]; unfold taken; rewrite Eb; [left; lia|].
  right. exists q, l. split; [|done]. rewrite Em. apply elem_of_app. by left.
Qed.
Lemma region_mono R st st' p n : extends R st st' → region st p n → region st' p n.
Proof.
  intros [Eb Eo [more Em] _ _] [?|(q & l & ? & ?)]; unfold region; rewrite Eb; [left; lia|].
  right. exists q, l. split; [|done]. rewrite Em. apply elem_of_app. by left.
Qed.
Lemma region_taken st p n b : region st p n → p ≤ b < p + n → taken st b.
Proof. intros [?|(q & l & ? & ?)] ?; [left; lia|]. right. exists q, l. split; [done|lia]. Qed.
Lemma region_sub st p n a k : region st p n → p ≤ a → a + k ≤ p + n → region st a k.
Proof. intros [?|(q & l & ? & ?)] ? ?; [left; lia|]. right. exists q, l. split; [done|lia]. Qed.

Lemma extends_trans R st1 st2 st3 : extends R st1 st2 → extends R st2 st3 → extends R st1 st3.
Proof.
  intros H12 H23.
  pose proof H12 as [Eb Eo [m1 Em1] Ec En]. pose proof H23 as [Eb' Eo' [m2 Em2] Ec' En'].
  split; [congruence|lia| |by etransitivity|].
  - exists (m1 ++ m2). by rewrite Em2, Em1, app_assoc.
  - intros a n v Ha. destruct (En' _ _ _ Ha) as [Ha2|Hb]; [by apply En|]. right. intros b Hab.
    destruct (Hb b Hab) as [Hnt|?]; [|by right]. left. intros Hbt. by eapply Hnt, taken_mono.
Qed.
Lemma extends_weaken R R' st st' : (∀ b, R b → ¬ taken st b ∨ R' b) →
  extends R st st' → extends R' st st'.
Proof.
  intros HR [? ? ? ? En]. split; [done..|]. intros a n v Ha.
  destruct (En _ _ _ Ha) as [?|Hb]; [by left|right]. intros b Hab.
  destruct (Hb b Hab); [by left|auto].
Qed.
Lemma extends_none R st st' : extends none st st' → extends R st st'.
Proof. apply extends_weaken. by intros b []. Qed.

(** The heap after allocations, and a later heap, after some of the wanted
    allocations [ls], in their order.  [out_of_memory]: after some of them, there
    is no room for the next one. *)
Definition allocs (heap : gmap Z Layout) (ls : list Layout) : gmap Z Layout :=
  foldl (λ heap l, <[ga_alloc heap l := l]> heap) heap ls.
Definition heap_grown (ls : list Layout) st st' : Prop :=
  ∃ used, used `sublist_of` ls ∧ s_live st' = allocs (s_live st) used.
Definition grown ls st st' : Prop := heap_grown ls st st' ∧ (no_null st → no_null st').
Definition out_of_memory (ls : list Layout) st : Prop := ∃ used l,
  used ++ [l] `sublist_of` ls ∧ ga_alloc (allocs (s_live st) used) l = 0.

Lemma heap_grown_same ls st st' : s_live st' = s_live st → heap_grown ls st st'.
Proof. intros El. exists []. split; [apply sublist_nil_l|done]. Qed.
Lemma allocs_app heap ls ls' : allocs heap (ls ++ ls') = allocs (allocs heap ls) ls'.
Proof. apply foldl_app. Qed.
Lemma heap_grown_trans ls ls' st1 st2 st3 : heap_grown ls st1 st2 → heap_grown ls' st2 st3 →
  heap_grown (ls ++ ls') st1 st3.
Proof.
  intros (u & Hu & E) (u' & Hu' & E'). exists (u ++ u').
  split; [by apply sublist_app|by rewrite E', E, allocs_app].
Qed.
Lemma grown_same ls st st' : s_live st' = s_live st → a_overflow st' = a_overflow st → grown ls st st'.
Proof. intros El Eo. split; [by apply heap_grown_same|]. unfold no_null. by rewrite Eo. Qed.
Lemma grown_refl ls st : grown ls st st.
Proof. by apply grown_same. Qed.
Lemma grown_trans ls ls' st1 st2 st3 : grown ls st1 st2 → grown ls' st2 st3 → grown (ls ++ ls') st1 st3.
Proof. intros [? H0] [? H0']. split; [by eapply heap_grown_trans|auto]. Qed.
Lemma out_of_memory_grown ls ls' st st' : heap_grown ls st st' → out_of_memory ls' st' →
  out_of_memory (ls ++ ls') st.
Proof.
  intros (u & Hu & E) (u' & l & Hu' & El). exists (u ++ u'), l. rewrite <- app_assoc.
  split; [by apply sublist_app|by rewrite allocs_app, <- E].
Qed.
Lemma out_of_memory_app ls ls' st : out_of_memory ls st → out_of_memory (ls ++ ls') st.
Proof. intros (u & l & ? & ?). exists u, l. split; [by apply sublist_inserts_r|done]. Qed.
Lemma blocks_no_null st : no_null st → blocks st = a_overflow st.
Proof.
  unfold blocks, no_null. induction (a_overflow st) as [|[p l] os IH]; [done|]. intros Hn.
  rewrite filter_cons_True by (eapply Hn; by left). f_equal. apply IH. intros q k Hq. eapply Hn. by right.
Qed.

Lemma region_accessible live st p n : arena_inv live st → region st p n → accessible st p n = true.
Proof.
  intros Hi Hr. unfold accessible, within. apply orb_true_iff. destruct Hr as [?|(q & l & Hq & ?)].
  - left. pose proof (iv_offset _ _ Hi). lia.
  - right. apply existsb_exists. exists (q, l). split; [|lia].
    apply list_elem_of_In, elem_of_map_to_list, (iv_live _ _ Hi). by right.
Qed.

Lemma overlaps_false a n a' n' : 0 < n → 0 < n' →
  overlaps a n a' n' = false ↔ ∀ b, a ≤ b < a + n → ¬ a' ≤ b < a' + n'.
Proof.
  intros Hn Hn'. unfold overlaps. split.
  - intros Ho b. lia.
  - intros Hb. destruct (Z.ltb_spec a (a' + n')), (Z.ltb_spec a' (a + n)); try done.
    exfalso. apply (Hb (Z.max a a')); lia.
Qed.

(** A store to a free slot of what was handed out. *)
Lemma store_spec live st a t v :
  arena_inv live st → layout_ok t → region st a (l_size t) → a mod l_align t = 0 →
  (∀ a' n' v', s_cells st !! a' = Some (n', v') → overlaps a (l_size t) a' n' = false) →
  ∃ st', store a t v st = Some (Ok tt, st') ∧ arena_inv live st' ∧
    extends (λ b, a ≤ b < a + l_size t) st st' ∧ grown [] st st' ∧
    s_cells st' = <[a := (l_size t, v)]> (s_cells st) ∧ s_cells st !! a = None ∧
    a_overflow st' = a_overflow st ∧ a_offset st' = a_offset st.
Proof.
  intros Hi (Hs & _ & _) Hr Ha Hfree. unfold store.
  rewrite (region_accessible live) by done. rewrite Ha. cbn [andb Z.eqb].
  assert (filter (λ c : Z * (Z * V), overlaps a (l_size t) c.1 c.2.1 = false) (s_cells st) = s_cells st)
    as ->. { apply map_filter_id. intros a' [n' v'] Hc. by apply Hfree in Hc. }
  assert (s_cells st !! a = None) as Hnone.
  { destruct (s_cells st !! a) as [[n' v']|] eqn:E; [|done]. pose proof (Hfree _ _ _ E) as Ho.
    destruct (iv_cells _ _ Hi _ _ _ E) as [? _]. unfold overlaps in Ho. lia. }
  eexists. split; [done|]. split; [|split; [|split_and!; try done; by apply grown_same]].
  - destruct Hi as [? ? ? ? ? ? ? Hcells]. split; cbn; try done. intros a' n' v'.
    rewrite lookup_insert_Some. intros [[<- [= <- <-]]|[_ Hc]]; [done|by apply (Hcells _ _ _ Hc)].
  - split; cbn; [done|lia|exists []; by rewrite app_nil_r|by apply insert_subseteq|].
    intros a' n' v'. rewrite lookup_insert_Some.
    intros [[<- [= <- <-]]|[_ Hc]]; [right; auto|by left].
Qed.

(** *** [alloc] *)

Lemma next_multiple_of_spec x m : 0 ≤ x → 0 < m → x + m < 2 ^ 64 →
  x ≤ next_multiple_of x m < x + m ∧ next_multiple_of x m mod m = 0.
Proof.
  intros Hx Hm Hlt. unfold next_multiple_of. pose proof (Z.mod_pos_bound x m Hm).
  destruct (Z.eqb_spec (x mod m) 0) as [E|E]; [split; [lia|done]|].
  rewrite wrap_small by (unfold fits; lia). split; [lia|].
  replace (x + (m - x mod m)) with ((x / m + 1) * m); [by apply Z.mod_mul; lia|].
  pose proof (Z.div_mod x m ltac:(lia)). lia.
Qed.

Definition array_of t n : Layout := {| l_size := n * l_size t; l_align := l_align t |}.

(** A new overflow block. *)
Lemma overflow_inv live st p l : arena_inv live st → 0 < p → 0 < l_size l → p = ga_alloc (s_live st) l →
  s_live st !! p = None →
  (∀ b, p ≤ b < p + l_size l → ¬ foreign b ∧ ∀ q k, s_live st !! q = Some k → ¬ q ≤ b < q + l_size k) →
  let st' := set_arena (a_offset st) (a_overflow st ++ [(p, l)])
    (set_heap (s_cells st) (<[p:=l]> (s_live st)) st) in
  arena_inv live st' ∧ extends none st st' ∧ grown [l] st st' ∧ blocks st' = blocks st ++ [(p, l)].
Proof.
  intros Hi Hp Hsz Hw Hfresh Hb st'.
  assert (blocks st' = blocks st ++ [(p, l)]) as Eb.
  { unfold blocks, st'. cbn. rewrite filter_app. f_equal. by rewrite filter_cons_True. }
  assert (extends none st st') as Hext.
  { split; [done|cbn; lia|by rewrite Eb; eexists|done|by left]. }
  split_and!; [|done| |done].
  - destruct Hi as [? ? ? ? Hl Hnd Hov Hc]. split; [done..| | | |].
    + intros q k. rewrite Eb. cbn.
      rewrite lookup_insert_Some, elem_of_app, list_elem_of_singleton, Hl.
      split; [intros [[<- <-]|[? [?|?]]]; auto|].
      intros [Hq|[Hq|[= -> ->]]]; [right|right|by left].
      * split; [|by left]. intros <-. rewrite (proj2 (Hl p k)) in Hfresh by (by left). done.
      * split; [|by right]. intros <-. rewrite (proj2 (Hl p k)) in Hfresh by (by right). done.
    + rewrite Eb, fmap_app. apply NoDup_app. split_and!; [done| |apply NoDup_singleton].
      intros q ([q' k] & -> & Hq)%list_elem_of_fmap. cbn. rewrite list_elem_of_singleton. intros ->.
      rewrite (proj2 (Hl p k)) in Hfresh by (by right). done.
    + intros q k. rewrite Eb, elem_of_app, list_elem_of_singleton. intros [Hq|[= -> ->]]; [by apply Hov|].
      split_and!; [|done|done|intros b Hbb; by apply Hb].
      destruct (live !! p) as [k|] eqn:E; [|done].
      rewrite (proj2 (Hl p k)) in Hfresh by (by left). done.
    + intros a k v Ha. destruct (Hc _ _ _ Ha) as [? Hr]. split; [done|].
      by apply (region_mono _ _ _ _ _ Hext).
  - split.
    + exists [l]. split; [done|]. cbn. by rewrite <- Hw.
    + unfold st'. intros Hn q k. cbn. rewrite elem_of_app, list_elem_of_singleton. intros [Hq|[= -> ->]]; [|done].
      by eapply Hn.
Qed.
(** The null pointer that [alloc] stores and returns. *)
Lemma null_inv live st l : arena_inv live st →
  let st' := set_arena (a_offset st) (a_overflow st ++ [(0, l)]) st in
  arena_inv live st' ∧ extends none st st' ∧ s_live st' = s_live st ∧ ¬ no_null st'.
Proof.
  intros Hi st'. assert (blocks st' = blocks st) as Eb.
  { unfold blocks, st'. cbn. by rewrite filter_app, app_nil_r. }
  assert (extends none st st') as Hext.
  { split; [done|cbn; lia|exists []; by rewrite Eb, app_nil_r|done|by left]. }
  split_and!; [|done|done|].
  - destruct Hi as [? ? ? ? Hl Hnd Hov Hc]. split; rewrite ?Eb; [done..|].
    intros a k v Ha. destruct (Hc _ _ _ Ha) as [? Hr]. split; [done|].
    by apply (region_mono _ _ _ _ _ Hext).
  - intros Hn. specialize (Hn 0 l). cbn in Hn. rewrite elem_of_app, list_elem_of_singleton in Hn.
    assert (0 < 0) by auto. lia.
Qed.

Lemma alloc_steps live st t n :
  arena_inv live st → layout_ok t → 0 < n → n * l_size t ≤ ISIZE_MAX - (l_align t - 1) →
  ∃ p st', alloc t n st = Some (Ok p, st') ∧ arena_inv live st' ∧ extends none st st' ∧
    s_cells st' = s_cells st ∧ heap_grown [array_of t n] st st' ∧ (no_null st' → no_null st) ∧
    (p = 0 ∧ out_of_memory [array_of t n] st ∧ ¬ no_null st' ∨
     0 < p ∧ grown [array_of t n] st st' ∧ p mod l_align t = 0 ∧ region st' p (n * l_size t) ∧
     ∀ b, p ≤ b < p + n * l_size t → ¬ taken st b).
Proof.
  intros Hi (Hs & Hal & _) Hn Hfit. unfold ISIZE_MAX in Hfit.
  pose proof (iv_offset _ _ Hi) as Hoff. pose proof (iv_buffer _ _ Hi) as Hbuf.
  assert (SIZE = 131072) as HS by done. assert (0 < n * l_size t) as Hpos by nia.
  unfold alloc. rewrite (proj2 (Z.ltb_lt 0 n)) by done.
  unfold mbind, M_bind, get. cbv beta iota zeta.
  rewrite (wrap_small 64 (n * l_size t)) by (unfold fits; lia).
  rewrite (wrap_small 64 (a_buffer st + a_offset st)) by (unfold fits; lia).
  destruct (next_multiple_of_spec (a_buffer st + a_offset st) (l_align t)) as [Hnext Hmod]; [lia..|].
  set (next := next_multiple_of _ _) in *.
  rewrite (wrap_small 64 (next - a_buffer st)) by (unfold fits; lia).
  rewrite (wrap_small 64 (next - a_buffer st + n * l_size t)) by (unfold fits; lia).
  destruct (Z.ltb_spec SIZE (next - a_buffer st + n * l_size t)) as [Hover|Hfits].
  - unfold Layout_array, ISIZE_MAX. rewrite (proj2 (Z.leb_le _ _)) by lia.
    fold (array_of t n). set (l := array_of t n) in *.
    assert (l_size l = n * l_size t) as El by done.
    unfold mbind, M_bind, heap_alloc, mret, M_ret, modify.
    rewrite (proj2 (Z.eqb_neq (l_size l) 0)) by lia.
    destruct (ga_alloc_law (s_live st) l) as [H0|(Hp & Hpa & Hfresh & Hb)]; [cbn; lia..| |].
    + rewrite H0. destruct (null_inv live st l Hi) as (Hi' & He & ? & ?).
      eexists 0, _. split; [reflexivity|]. split_and!; [done|done|done|by apply heap_grown_same|done|].
      left. split_and!; [done| |done]. by exists [], l.
    + set (p := ga_alloc (s_live st) l) in *. rewrite (proj2 (Z.eqb_neq p 0)) by lia.
      destruct (overflow_inv live st p l Hi Hp ltac:(lia) eq_refl Hfresh Hb) as (Hi' & Hext & Hg & Eb).
      match type of Eb with blocks ?s = _ => exists p, s end. split; [reflexivity|].
      split_and!; [done|done|done|apply Hg| |].
      { intros Hnn q k Hq. eapply Hnn. cbn. apply elem_of_app. by left. }
      right. split_and!; [done|done|exact Hpa| |].
      * right. exists p, l. split; [|cbn; lia]. rewrite Eb. apply elem_of_app. right. by left.
      * intros b Hbb [Hbt|(q & k & Hq & Hbt)]; destruct (Hb b) as [Hnf Hlive]; [done| |done|].
        -- apply Hnf, (iv_foreign _ _ Hi). lia.
        -- apply (Hlive q k); [|done]. apply (iv_live _ _ Hi). by right.
  - unfold mbind, M_bind, mret, M_ret, modify.
    eexists _, _. split; [reflexivity|].
    assert (extends none st (set_arena (next - a_buffer st + n * l_size t) (a_overflow st) st)) as Hext.
    { split; cbn; [done|lia|exists []; by rewrite app_nil_r|done|by left]. }
    split_and!; [|exact Hext|done|by apply heap_grown_same|done|right; split_and!].
    + destruct Hi as [? ? ? ? Hl Hnd Hov Hc]. split; cbn; [done|lia|done..|].
      intros a k v Ha. destruct (Hc _ _ _ Ha) as [? Hr]. split; [done|].
      by apply (region_mono _ _ _ _ _ Hext).
    + lia.
    + by apply grown_same.
    + by replace (a_buffer st + (next - a_buffer st)) with next by lia.
    + left. cbn. lia.
    + intros b Hbb [Hbt|(q & k & Hq & Hbt)]; [lia|].
      destruct (iv_overflow _ _ Hi _ _ Hq) as (_ & _ & _ & Hnf). apply (Hnf b Hbt), (iv_foreign _ _ Hi).
      lia.
Qed.

(** *** Programs on an arena *)

Definition fails {R} (m : M V R) st : Prop := m st = None ∨ ∃ st', m st = Some (Panic, st').
(** A program that fits the fate [e] and needs the blocks [ls]: it ends so, with
    [Q] and new cells in [T] if it returns; only a lack of memory for them makes
    it fail otherwise. *)
Definition runs {R} live (T : Z → Prop) ls (m : M V R) st (e : Fate) (Q : R → State V → Prop) : Prop :=
  match e with
  | Returns => ∃ r st', m st = Some (Ok r, st') ∧ arena_inv live st' ∧ extends T st st' ∧
      grown ls st st' ∧ Q r st'
  | Panics => ∃ st', m st = Some (Panic, st')
  | Faults => m st = None
  end ∨ out_of_memory ls st ∧ fails m st.

Lemma fails_bind {R S} (m : M V R) (f : R → M V S) st : fails m st → fails (m ≫= f) st.
Proof. unfold fails, mbind, M_bind. intros [->|[st' ->]]; [by left|right; by eexists]. Qed.
Lemma runs_bind {R S} live T ls ls' (m : M V R) (f : R → M V S) st e e' Q Q' :
  runs live T ls m st e Q →
  (∀ r st1, arena_inv live st1 → extends T st st1 → grown ls st st1 → Q r st1 →
    runs live T ls' (f r) st1 e' Q') →
  runs live T (ls ++ ls') (m ≫= f) st (fate_seq e e') Q'.
Proof.
  intros [Hm|[Ho Hm]] Hf; [|right; split; [by apply out_of_memory_app|by apply fails_bind]].
  destruct e; cbn [fate_seq].
  - destruct Hm as (r & st1 & E & Hi & He & Hg & HQ).
    assert ((m ≫= f) st = f r st1) as Ef by (unfold mbind, M_bind; by rewrite E).
    destruct (Hf r st1 Hi He Hg HQ) as [Hr|[Ho Hr]]; unfold runs, fails; rewrite Ef; [left|right].
    + destruct e'; [|done..]. destruct Hr as (r' & st2 & -> & ? & ? & ? & ?). exists r', st2.
      split_and!; [done|done| | |done]; [by eapply extends_trans|by eapply grown_trans].
    + split; [eapply out_of_memory_grown, Ho; apply Hg|exact Hr].
  - left. destruct Hm as [st' E]. exists st'. unfold mbind, M_bind. by rewrite E.
  - left. unfold mbind, M_bind. by rewrite Hm.
Qed.
Lemma runs_ret {R} live T ls (r : R) st (Q : R → State V → Prop) :
  arena_inv live st → Q r st → runs live T ls (mret r) st Returns Q.
Proof.
  intros Hi HQ. left. exists r, st. split_and!; [done|done|apply extends_refl|apply grown_refl|done].
Qed.
Lemma runs_weaken {R} live (T T' : Z → Prop) ls (m : M V R) st e Q Q' :
  (∀ b, T b → ¬ taken st b ∨ T' b) → (∀ r st', extends T st st' → Q r st' → Q' r st') →
  runs live T ls m st e Q → runs live T' ls m st e Q'.
Proof.
  intros HT HQ [Hm|?]; [left|by right]. destruct e; [|done..].
  destruct Hm as (r & st' & ? & ? & ? & ? & ?). exists r, st'. split_and!; [done|done| |done|auto].
  by eapply extends_weaken.
Qed.

(** Null is never accessible. *)
Lemma null_inaccessible live st n : arena_inv live st → 0 < n → accessible st 0 n = false.
Proof.
  intros Hi Hn. unfold accessible, within. pose proof (iv_buffer _ _ Hi).
  apply orb_false_iff. split; [lia|]. apply not_true_iff_false.
  intros ([p l] & Hp%list_elem_of_In%elem_of_map_to_list & Hw)%existsb_exists.
  assert (0 < p); [|lia]. apply (iv_live _ _ Hi) in Hp as [?|Hp]; [by eapply iv_pos|].
  by apply (iv_overflow _ _ Hi) in Hp as (_ & ? & _).
Qed.

(** *** [map] *)

Section map.
Context (live : gmap Z Layout) {A : Type} (fate : A → Fate) (needs : A → list Layout) (P : A → V → State V → Prop).
Context (HP : ∀ a v st st', s_cells st ⊆ s_cells st' → P a v st → P a v st').

(** The conversion of an element that stands for [a], and the blocks of a slice. *)
Definition converts (m : M V V) (a : A) : Prop :=
  ∀ st, arena_inv live st → runs live none (needs a) m st (fate a) (P a).
Definition slice_needs (t : Layout) (l : list A) : list Layout :=
  match l with [] => [] | _ => array_of t (Z.of_nat (length l)) :: (l ≫= needs) end.

Lemma map_loop_spec t borrow src stride result (l : list A) i st :
  arena_inv live st → layout_ok t → result mod l_align t = 0 → 0 ≤ i →
  let slots := result + i * l_size t in
  let room := Z.of_nat (length l) * l_size t in
  region st slots room →
  (∀ a n v, s_cells st !! a = Some (n, v) → ∀ b, a ≤ b < a + n → ¬ slots ≤ b < slots + room) →
  (∀ j a, l !! j = Some a → converts (borrow (src + (i + Z.of_nat j) * stride)) a) →
  runs live (λ b, slots ≤ b < slots + room) (l ≫= needs) (map_loop t borrow src stride result i (length l)) st
    (fate_all fate l) (λ _ st', ∀ j a, l !! j = Some a → ∃ v,
      load st' (result + (i + Z.of_nat j) * l_size t) t = Some v ∧ P a v st').
Proof.
  intros Hi Ht Hres. revert i st Hi. induction l as [|a l IH]; intros i st Hi Hi0 slots room Hr Hfree Hb.
  { by apply runs_ret. }
  pose proof Ht as (Hs & [Hal _] & Hmult). cbn [length] in *.
  pose proof (Hb 0%nat a eq_refl st Hi) as H0. rewrite Z.add_0_r in H0.
  unfold slots, room in *. clear slots room. cbn [fate_all map_loop].
  set (slot := result + i * l_size t) in *.
  assert (Z.of_nat (S (length l)) * l_size t = l_size t + Z.of_nat (length l) * l_size t) as Eroom by lia.
  assert (0 ≤ Z.of_nat (length l) * l_size t) as Hroom by nia. rewrite Eroom in *.
  eapply (runs_bind live _ _ _ _ _ _ _ _ (λ v st', extends none st st' ∧ P a v st'));
    [eapply (runs_weaken live none); [by intros b []|by intros|exact H0]|].
  intros v st1 Hi1 _ Hg1 [He1 HP1].
  assert (∀ b a' n' v', s_cells st1 !! a' = Some (n', v') → a' ≤ b < a' + n' →
    ¬ slot ≤ b < slot + (l_size t + Z.of_nat (length l) * l_size t)) as Hfree1.
  { intros b a' n' v' Hc Hab Hin. destruct (ex_new _ _ _ He1 _ _ _ Hc) as [Hc0|Hnew].
    - by apply (Hfree _ _ _ Hc0 b).
    - destruct (Hnew b Hab) as [Hnt|[]]. by eapply Hnt, region_taken. }
  change (fate_all fate l) with (fate_seq Returns (fate_all fate l)).
  eapply (runs_bind live _ [] _ _ _ _ _ _ (λ _ st2, s_cells st2 = <[slot := (l_size t, v)]> (s_cells st1) ∧
    extends (λ b, slot ≤ b < slot + l_size t) st1 st2)).
  { destruct (store_spec live st1 slot t v) as (st2 & E2 & Hi2 & He2 & Hg2 & Ec2 & _); try done.
    - eapply region_mono; [exact He1|]. eapply region_sub; [exact Hr|lia|lia].
    - unfold slot. rewrite Z.add_mod, Hres, Z.mul_mod, Hmult by lia. by rewrite Z.mul_0_r.
    - intros a' n' v' Hc. destruct (iv_cells _ _ Hi1 _ _ _ Hc) as [Hn' _].
      apply overlaps_false; [done|done|]. intros b Hbs Hba. apply (Hfree1 b _ _ _ Hc Hba). lia.
    - left. exists tt, st2. split_and!; [done|done| |done|done|done].
      eapply extends_weaken, He2. intros b Hbb. right. cbn in Hbb. lia. }
  intros [] st2 Hi2 _ Hg2 [Ec2 He2].
  assert (result + (i + 1) * l_size t = slot + l_size t) as Eslot by (unfold slot; lia).
  assert (s_cells st2 !! slot = Some (l_size t, v)) as Eslot2 by (rewrite Ec2; apply lookup_insert_eq).
  specialize (IH (i + 1) st2 Hi2 ltac:(lia)). rewrite Eslot in IH. cbv zeta in IH.
  eapply runs_weaken, IH.
  - intros b Hbb. cbn in Hbb. right. lia.
  - intros [] st' He' Hcells [|j] a'.
    + intros [= <-]. exists v. rewrite Z.add_0_r. split.
      * unfold load. fold slot. rewrite (lookup_weaken _ _ _ _ Eslot2 (ex_cells _ _ _ He')). cbn.
        by rewrite Z.eqb_refl.
      * eapply HP, HP1. etransitivity; [apply (ex_cells _ _ _ He2)|apply (ex_cells _ _ _ He')].
    + intros Hj. destruct (Hcells j a' Hj) as (v' & Hv' & HP'). exists v'. split; [|done].
      by replace (i + Z.of_nat (S j)) with (i + 1 + Z.of_nat j) by lia.
  - eapply region_mono; [exact He2|]. eapply region_mono; [exact He1|].
    eapply region_sub; [exact Hr|lia|lia].
  - intros a' n' v'. rewrite Ec2, lookup_insert_Some.
    intros [[<- [= <- <-]]|[_ Hc]] b Hab Hin; [lia|]. apply (Hfree1 b _ _ _ Hc Hab). lia.
  - intros j a' Hj. specialize (Hb (S j) a' Hj).
    by replace (i + 1 + Z.of_nat j) with (i + Z.of_nat (S j)) by lia.
Qed.

(** A slice of converted elements. *)
Definition slice_of (t : Layout) (r : option (Z * Z)) (l : list A) st : Prop :=
  match r with
  | None => l = []
  | Some (p, n) => n = Z.of_nat (length l) ∧
    ∀ j a, l !! j = Some a → ∃ v, load st (p + Z.of_nat j * l_size t) t = Some v ∧ P a v st
  end.

(** With no memory for the slice, the first element is stored to null. *)
Lemma map_loop_null t borrow src stride (l : list A) st a :
  arena_inv live st → 0 < l_size t → l !! 0%nat = Some a → converts (borrow src) a →
  fails (map_loop t borrow src stride 0 0 (length l)) st.
Proof.
  intros Hi Hs Ha Hb. destruct l as [|a' l]; [done|]. injection Ha as ->.
  cbn [length map_loop]. rewrite Z.mul_0_l, Z.add_0_r, Z.mul_0_l, Z.add_0_r.
  unfold fails, mbind, M_bind. destruct (Hb st Hi) as [Hr|[_ [->|[st' ->]]]]; [|by left|right; by eexists].
  destruct (fate a).
  - destruct Hr as (v & st1 & -> & Hi1 & _). left. unfold store.
    by rewrite (null_inaccessible _ _ _ Hi1).
  - destruct Hr as [st' ->]. right. by eexists.
  - rewrite Hr. by left.
Qed.

Lemma map_steps t borrow src stride (l : list A) st :
  arena_inv live st → layout_ok t →
  Z.of_nat (length l) * l_size t ≤ ISIZE_MAX - (l_align t - 1) →
  (∀ j a, l !! j = Some a → converts (borrow (src + Z.of_nat j * stride)) a) →
  runs live none (slice_needs t l) (map t borrow src stride (Z.of_nat (length l))) st (fate_all fate l)
    (λ r st', slice_of t r l st').
Proof.
  intros Hi Ht Hfit Hb. unfold map. destruct l as [|a l0] eqn:El; [by apply runs_ret|]. rewrite <- El in *.
  assert (0 < Z.of_nat (length l)) as Hlen by (rewrite El; cbn; lia).
  rewrite (proj2 (Z.eqb_neq _ 0)) by lia.
  assert (slice_needs t l = [array_of t (Z.of_nat (length l))] ++ (l ≫= needs)) as Eneeds by by subst l.
  destruct (alloc_steps live st t (Z.of_nat (length l)) Hi Ht Hlen Hfit) as
    (p & st1 & Ea & Hi1 & He1 & Ec1 & _ & _ & [(-> & Ho & _)|(Hp & Hg1 & Hal & Hr & Hnt)]).
  { right. split; [by rewrite Eneeds; apply out_of_memory_app|].
    assert (fails (map_loop t borrow src stride 0 0 (length l)) st1) as Hf.
    { eapply (map_loop_null _ _ _ _ _ _ a); [done|apply Ht|by rewrite El|].
      rewrite <- (Z.add_0_r src) at 1. apply (Hb 0%nat). by rewrite El. }
    unfold fails, mbind, M_bind. rewrite Ea, Nat2Z.id.
    destruct Hf as [->|[st' ->]]; [by left|right; by eexists]. }
  pose proof (map_loop_spec t borrow src stride p l 0 st1 Hi1 Ht Hal ltac:(lia)) as Hloop.
  cbv zeta in Hloop. rewrite Z.mul_0_l, Z.add_0_r in Hloop.
  assert (∀ a n v, s_cells st1 !! a = Some (n, v) → ∀ b, a ≤ b < a + n →
    ¬ p ≤ b < p + Z.of_nat (length l) * l_size t) as Hfree.
  { intros a' n v. rewrite Ec1. intros Hc b Hab Hin. destruct (iv_cells _ _ Hi _ _ _ Hc) as [_ Hrc].
    apply (Hnt b Hin). by eapply region_taken. }
  specialize (Hloop Hr Hfree Hb).
  eapply (runs_weaken _ (λ b, p ≤ b < p + Z.of_nat (length l) * l_size t));
    [intros b Hbb; left; by apply Hnt|by intros r st' _; exact id|].
  change (fate_all fate l) with (fate_seq Returns (fate_all fate l)). rewrite Eneeds.
  eapply (runs_bind _ _ _ _ _ _ _ _ _ (λ r st', r = p ∧ st' = st1)).
  { left. exists p, st1. split_and!; [done|done|by apply extends_none|done|done|done]. }
  intros r st1' _ _ _ [-> ->]. rewrite <- (fate_seq_l (fate_all fate l)), Nat2Z.id, <- (app_nil_r (l ≫= needs)).
  eapply runs_bind; [exact Hloop|]. intros [] st2 Hi2 _ _ Hcells.
  apply runs_ret; [done|]. split; [done|]. intros j a' Hj.
  destruct (Hcells j a' Hj) as (v & Hv & HPv). by exists v.
Qed.
End map.

(** *** Dropping the arena *)

Lemma free_all_spec l live (st : State V) :
  (∀ p k, s_live st !! p = Some k ↔ live !! p = Some k ∨ (p, k) ∈ l) → NoDup l.*1 →
  (∀ p k, (p, k) ∈ l → live !! p = None) →
  ∃ st', free_all l st = Some (Ok tt, st') ∧ s_live st' = live ∧ a_buffer st' = a_buffer st ∧
    ∀ a n v, s_cells st' !! a = Some (n, v) → s_cells st !! a = Some (n, v) ∧
      ∀ p k, (p, k) ∈ l → overlaps p (l_size k) a n = false.
Proof.
  revert st. induction l as [|[p k] l IH]; intros st Hl Hnd Hfr; cbn [free_all].
  - exists st. split_and!; [done| |done|]; [|intros a n v Ha; split; [done|inversion 1]]. apply map_eq. intros p. apply option_eq. intros k.
    rewrite Hl. split; [intros [?|Hin]; [done|inversion Hin]|by left].
  - cbn [fmap list_fmap fst] in Hnd. apply NoDup_cons in Hnd as [Hp Hnd].
    unfold mbind, M_bind, heap_dealloc.
    rewrite bool_decide_eq_true_2 by (apply Hl; right; left).
    match goal with |- context [free_all l ?s] => destruct (IH s) as (st' & -> & ? & ? & Hc) end.
    + intros q j. cbn. rewrite lookup_delete_Some, Hl, elem_of_cons. split.
      * intros [Hne [?|[[= -> ->]|?]]]; [by left|done|by right].
      * intros [Hq|Hq]; split; auto.
        -- intros <-. rewrite (Hfr p k) in Hq; [done|by left].
        -- intros <-. apply Hp, list_elem_of_fmap. by exists (p, j).
    + done.
    + intros q j Hq. apply (Hfr q j). by right.
    + eexists. split_and!; [done..|]. intros a n v Ha. destruct (Hc _ _ _ Ha) as [Ha' Ho].
      cbn in Ha'. apply map_lookup_filter_Some in Ha' as [Ha' Hf]. split; [done|].
      intros q j [[= -> ->]|Hq]%elem_of_cons; [done|by apply Ho].
Qed.
(** The null pointer is no block. *)
Lemma free_all_null l (st : State V) : (∀ p k, s_live st !! p = Some k → 0 < p) →
  Exists (λ e, ¬ 0 < e.1) l → free_all l st = None.
Proof.
  revert st. induction l as [|[p k] l IH]; intros st Hpos He; [by inversion He|].
  cbn [free_all]. unfold mbind, M_bind, heap_dealloc. case_bool_decide as Hp; [|done].
  rewrite IH; [done| |].
  - intros q j. cbn. rewrite lookup_delete_Some. intros [_ ?]. by eapply Hpos.
  - apply Exists_cons in He as [He|?]; [by apply Hpos in Hp|done].
Qed.
(** Between two arenas: the heap is [live], and values are left only in the
    memory of the dropped buffer. *)
Record idle (live : gmap Z Layout) (st : State V) : Prop := {
  id_live : s_live st = live;
  id_pos : ∀ p l, live !! p = Some l → 0 < p;
  id_buffer : 0 < a_buffer st < 2 ^ 63;
  id_foreign : ∀ b, a_buffer st ≤ b < a_buffer st + SIZE → foreign b;
  id_cells : ∀ a n v, s_cells st !! a = Some (n, v) → overlaps (a_buffer st) SIZE a n = true
}.
Lemma Arena_new_inv live st : idle live st → arena_inv live (Arena_new st) ∧ no_null (Arena_new st).
Proof.
  intros [El Hp Hb Hf Hc]. split; [split; cbn; [done|done|done|done| |by apply NoDup_nil_2| |]|].
  - intros p l. rewrite El. split; [by left|]. intros [?|Hin]; [done|inversion Hin].
  - intros p l Hin. inversion Hin.
  - intros a n v [Ha Ho]%map_lookup_filter_Some. cbn in Ho. by rewrite (Hc _ _ _ Ha) in Ho.
  - intros p l Hin. inversion Hin.
Qed.
Lemma Arena_drop_steps live (st : State V) : arena_inv live st → no_null st →
  ∃ st', Arena_drop st = Some (Ok tt, st') ∧ idle live st'.
Proof.
  intros Hi Hn%blocks_no_null. unfold Arena_drop, mbind, M_bind, get.
  destruct (free_all_spec (a_overflow st) live st) as (st' & E & El & Eb & Hc);
    [rewrite <- Hn; apply Hi..|rewrite <- Hn; intros p k Hp; by apply (iv_overflow _ _ Hi _ _ Hp)|].
  cbv beta iota. rewrite E. eexists. split; [reflexivity|].
  split; cbn; rewrite ?Eb; [done|apply Hi..|]. intros a n v Ha. destruct (Hc _ _ _ Ha) as [Ha' Ho].
  destruct (iv_cells _ _ Hi _ _ _ Ha') as [Hn' [Hr|(q & l & Hq & Hr)]].
  - pose proof (iv_offset _ _ Hi). unfold overlaps. unfold SIZE in *. lia.
  - destruct (iv_overflow _ _ Hi _ _ Hq) as (_ & _ & ? & _). rewrite Hn in Hq.
    pose proof (Ho _ _ Hq) as Hf. unfold overlaps in Hf. lia.
Qed.
Lemma Arena_drop_null live (st : State V) : arena_inv live st → ¬ no_null st → Arena_drop st = None.
Proof.
  intros Hi Hn. unfold Arena_drop, mbind, M_bind, get. rewrite free_all_null; [done| |].
  - intros p k [?|Hp]%(iv_live _ _ Hi); [by eapply iv_pos|by apply (iv_overflow _ _ Hi) in Hp as (_ & ? & _)].
  - destruct (decide (Forall (λ e : Z * Layout, 0 < e.1) (a_overflow st))) as [Hall|?];
      [|by apply not_Forall_Exists; [apply _|]].
    destruct Hn. intros p l Hin. rewrite Forall_forall in Hall. by apply (Hall (p, l)).
Qed.
End spec.

(** *** A session with an arena *)

Section session.
Context {V : Type} `{GlobalAlloc}.
Fixpoint alloc_all (reqs : list (Layout * Z)) : M V (list Z) :=
  match reqs with
  | [] => mret []
  | (t, n) :: reqs => p ← alloc t n; ps ← alloc_all reqs; mret (p :: ps)
  end.
(** A request that fits in Rust's address space. *)
Definition request_ok (r : Layout * Z) : Prop :=
  layout_ok r.1 ∧ 0 < r.2 ∧ r.2 * l_size r.1 ≤ ISIZE_MAX - (l_align r.1 - 1).

(** The blocks that they need at most. *)
Definition blocks_of (reqs : list (Layout * Z)) : list Layout := (λ '(t, n), array_of t n) <$> reqs.

Context (foreign : Z → Prop) `{!GlobalAllocLaws foreign}.
Lemma alloc_all_steps live reqs (st : State V) :
  arena_inv foreign live st → Forall request_ok reqs →
  ∃ ps st', alloc_all reqs st = Some (Ok ps, st') ∧ arena_inv foreign live st' ∧
    extends none st st' ∧ length ps = length reqs ∧
    (no_null st' ↔ no_null st ∧ 0 ∉ ps) ∧ (0 ∈ ps → out_of_memory (blocks_of reqs) st) ∧
    (∀ i p t n, ps !! i = Some p → reqs !! i = Some (t, n) → p ≠ 0 →
      p mod l_align t = 0 ∧ region st' p (n * l_size t) ∧
      ∀ b, p ≤ b < p + n * l_size t → ¬ taken st b) ∧
    (∀ i j p q t u n k, i ≠ j → ps !! i = Some p → ps !! j = Some q → p ≠ 0 → q ≠ 0 →
      reqs !! i = Some (t, n) → reqs !! j = Some (u, k) →
      ∀ b, p ≤ b < p + n * l_size t → ¬ q ≤ b < q + k * l_size u).
Proof.
  revert st. induction reqs as [|[t n] reqs IH]; intros st Hi Hok.
  { exists [], st. split_and!; [done|done|apply extends_refl|done| |set_solver|done|done].
    split; [intros ?; split; [done|set_solver]|by intros []]. }
  apply Forall_cons in Hok as [(Ht & Hn & Hfit) Hok]. cbn [fst snd] in *.
  destruct (alloc_steps foreign live st t n Hi Ht Hn Hfit) as
    (p & st1 & Ea & Hi1 & He1 & _ & Hg & Hnn & Hcase).
  destruct (IH st1 Hi1 Hok) as (ps & st2 & Es & Hi2 & He2 & El & Hnull & Ho & Hp & Hd).
  exists (p :: ps), st2. cbn [alloc_all]. unfold mbind, M_bind. rewrite Ea, Es.
  assert (p ≠ 0 → p mod l_align t = 0 ∧ region st1 p (n * l_size t) ∧
    ∀ b, p ≤ b < p + n * l_size t → ¬ taken st b) as Hgood.
  { intros Hp0. destruct Hcase as [(-> & _)|(_ & _ & ?)]; done. }
  assert (∀ j q u k b, ps !! j = Some q → p ≠ 0 → q ≠ 0 → reqs !! j = Some (u, k) →
    p ≤ b < p + n * l_size t → ¬ q ≤ b < q + k * l_size u) as Hhead.
  { intros j q u k b Hq Hp0 Hq0 Hu Hb Hbq. destruct (Hp j q u k Hq Hu Hq0) as (_ & _ & Hnt').
    destruct (Hgood Hp0) as (_ & Hr & _). apply (Hnt' b Hbq). by eapply region_taken. }
  split_and!; [done|done|by eapply extends_trans|cbn; by rewrite El| | | |].
  - rewrite Hnull, not_elem_of_cons. destruct Hcase as [(-> & _ & Hn1)|(Hp0 & [_ Hg1] & _)].
    + split; [by intros [? _]|by intros (_ & ? & _)].
    + split; [intros [? ?]; split_and!; [auto|lia|done]|intros (? & _ & ?); auto].
  - rewrite elem_of_cons. intros [<-|H0%Ho]; [|by eapply (out_of_memory_grown [_])].
    destruct Hcase as [(_ & Hm & _)|(? & _)]; [by apply (out_of_memory_app [_])|done].
  - intros [|i] q u k; cbn.
    + intros [= <-] [= <- <-] Hp0. destruct (Hgood Hp0) as (? & ? & ?).
      split_and!; [done|by eapply region_mono|done].
    + intros Hq Hu Hq0. destruct (Hp i q u k Hq Hu Hq0) as (? & ? & Hnt'). split_and!; [done|done|].
      intros b Hb Hbt. apply (Hnt' b Hb). by eapply taken_mono.
  - intros [|i] [|j] q r u w k m Hne; cbn; [done| | |].
    + intros [= <-] Hr' Hp0 Hr0 [= <- <-] Hw' b Hb. by eapply Hhead.
    + intros Hq [= <-] Hq0 Hp0 Hu [= <- <-] b Hb Hbp. by eapply (Hhead i q u k b).
    + intros Hq Hr' ? ? Hu Hw'. apply (Hd i j q r u w k m); [congruence|done..].
Qed.

End session.

(** ** Witness: an allocator that never reuses an address

    It fails at the end of the address space. *)

Definition HEAP_BASE : Z := 2 ^ 63.
Definition top (live : gmap Z Layout) : Z :=
  map_fold (λ q k m, Z.max m (q + Z.max 0 (l_size k))) HEAP_BASE live.
#[export] Instance bump_alloc : GlobalAlloc :=
  λ live l, let p := (top live / l_align l + 1) * l_align l in
    if p + l_size l <=? 2 ^ 64 then p else 0.

Lemma top_le live : HEAP_BASE ≤ top live ∧
  ∀ q k, live !! q = Some k → q + Z.max 0 (l_size k) ≤ top live.
Proof.
  unfold top. apply (map_fold_weak_ind (λ m live, HEAP_BASE ≤ m ∧
    ∀ q k, live !! q = Some k → q + Z.max 0 (l_size k) ≤ m)).
  - split; [done|]. intros q k. by rewrite lookup_empty.
  - intros q k live' m _ [Hb IH]. split; [lia|]. intros q' k'.
    rewrite lookup_insert_Some. intros [[<- <-]|[_ Hq]]; [lia|]. apply IH in Hq. lia.
Qed.
#[export] Instance bump_alloc_laws : GlobalAllocLaws (λ b, b < HEAP_BASE).
Proof.
  split. intros live l Hs Ha. cbn zeta. unfold ga_alloc, bump_alloc.
  destruct (top_le live) as [Hb Ht]. unfold HEAP_BASE in *. set (p := (top live / _ + 1) * _).
  destruct (p + l_size l <=? 2 ^ 64); [right|by left].
  assert (top live < p) as Hp.
  { unfold p. pose proof (Z.div_mod (top live) (l_align l) ltac:(lia)).
    pose proof (Z.mod_pos_bound (top live) (l_align l) Ha). nia. }
  split_and!; [lia|by apply Z.mod_mul; lia| |].
  - destruct (live !! p) as [k|] eqn:E; [|done]. apply Ht in E. lia.
  - intros b Hbp. split; [lia|]. intros q k Hq. apply Ht in Hq. lia.
Qed.

Definition sample_stack {V} : State V :=
  {| s_cells := ∅; s_live := {[ 2 ^ 63 + 8 := {| l_size := 24; l_align := 8 |} ]};
     a_buffer := 4100; a_offset := 0; a_overflow := [] |}.
Lemma sample_idle {V} : idle (V:=V) (λ b, b < HEAP_BASE) (s_live (sample_stack (V:=V))) sample_stack.
Proof.
  split; [done| |done| |]; unfold HEAP_BASE, SIZE; cbn; [|intros b Hb; lia|].
  - by intros p l [<- _]%lookup_singleton_Some.
  -intros a n v. by rewrite lookup_empty.
Qed.
(** Seven bytes, three words, and an array that does not fit any more. *)
Definition sample_requests : list (Layout * Z) :=
  [({| l_size := 1; l_align := 1 |}, 7); ({| l_size := 8; l_align := 8 |}, 3);
   ({| l_size := 24; l_align := 8 |}, 6000)].
(** Two arrays of [3 * 2 ^ 61] bytes. *)
Definition large_requests : list (Layout * Z) :=
  [({| l_size := 24; l_align := 8 |}, 2 ^ 58); ({| l_size := 24; l_align := 8 |}, 2 ^ 58)].
