(* ===== verification/CMessages.v ===== *)
(** * CMessages: logging the C API's message structs

    `src/c/src/generated_types.rs`, `src/c/src/util.rs`, the [BorrowToNative]
    trait of `src/c/src/arena.rs` and [log_msg_to_channel] of
    `src/c/src/channel.rs`.

    The caller passes a C struct whose pointers lead to strings, arrays and
    further structs.  [borrow_to_native] builds the Rust message without copying
    the caller's data: strings and numeric arrays alias the C memory, nested
    arrays are converted into slices of an [Arena] on the stack, and the result
    is logged or encoded before the arena is dropped.

    The 42 message types are the tables below ([ArrowPrimitive] to
    [VoxelGrid]), one per `impl BorrowToNative`, with the fields in the order of
    the source; the statements of each kind of field are the cases of
    [borrow_to_native].  [view] reads a borrowed message back through the memory,
    and [c_view] reads the C struct, its times as numbers of nanoseconds; the
    theorems say that conversion preserves the message, that it never disturbs
    what it has already converted, and that logging leaves the heap as it was.
    [fate] says of a message how its conversion ends otherwise: a string that is
    not UTF-8 is undefined behaviour, since [string_from_raw] makes a [Vec] of the
    caller's buffer and the error path drops it, and a time whose nanoseconds
    carry past the last second panics. *)

From S2P Require Import Prelude Bytes Time Channel Subscriptions Context Typed CError Arena.
Local Open Scope Z_scope.

(** ** The message types *)

(** A kind of field, with the types of nested messages [T]. *)
Inductive Kind (T : Type) :=
| Scalar          (* [self.f] *)
| Bool
| Enum (n : Z)    (* [self.f as i32], for an enum of [n] variants *)
| Time            (* [self.f.as_ref().map(|&m| m.into())], a [FoxgloveTimestamp] *)
| Dur             (* the same for a [FoxgloveDuration] *)
| Str             (* [string_from_raw] *)
| Bytes           (* [bytes_from_raw] *)
| Words           (* [vec_from_raw] of a pointer and a length *)
| Array (n : Z)   (* [vec_from_raw] of an inline array *)
| Opt (t : T)     (* [self.f.as_ref().map(|m| m.borrow_to_native(arena)).transpose()?] *)
| Many (t : T).   (* [arena.as_mut().map(self.f, self.f_count)?] *)
Arguments Scalar {T}.
Arguments Bool {T}.
Arguments Enum {T} _.
Arguments Time {T}.
Arguments Dur {T}.
Arguments Str {T}.
Arguments Bytes {T}.
Arguments Words {T}.
Arguments Array {T} _.
Arguments Opt {T} _.
Arguments Many {T} _.
Inductive Ty := Struct (name : string) (fields : list (string * Kind Ty)).

Module Schemas.
Definition Vector3 : Ty := Struct "Vector3"
  [("x", Scalar); ("y", Scalar); ("z", Scalar)].
Definition Quaternion : Ty := Struct "Quaternion"
  [("x", Scalar); ("y", Scalar); ("z", Scalar); ("w", Scalar)].
Definition Pose : Ty := Struct "Pose"
  [("position", Opt Vector3); ("orientation", Opt Quaternion)].
Definition Color : Ty := Struct "Color"
  [("r", Scalar); ("g", Scalar); ("b", Scalar); ("a", Scalar)].
Definition ArrowPrimitive : Ty := Struct "ArrowPrimitive"
  [("pose", Opt Pose); ("shaft_length", Scalar); ("shaft_diameter", Scalar);
   ("head_length", Scalar); ("head_diameter", Scalar); ("color", Opt Color)].
Definition CameraCalibration : Ty := Struct "CameraCalibration"
  [("timestamp", Time); ("frame_id", Str); ("width", Scalar); ("height", Scalar);
   ("distortion_model", Str); ("d", Words); ("k", Array 9); ("r", Array 9); ("p", Array 12)].
Definition Point2 : Ty := Struct "Point2"
  [("x", Scalar); ("y", Scalar)].
Definition CircleAnnotation : Ty := Struct "CircleAnnotation"
  [("timestamp", Time); ("position", Opt Point2); ("diameter", Scalar); ("thickness", Scalar);
   ("fill_color", Opt Color); ("outline_color", Opt Color)].
Definition CompressedImage : Ty := Struct "CompressedImage"
  [("timestamp", Time); ("frame_id", Str); ("data", Bytes); ("format", Str)].
Definition CompressedVideo : Ty := Struct "CompressedVideo"
  [("timestamp", Time); ("frame_id", Str); ("data", Bytes); ("format", Str)].
Definition CylinderPrimitive : Ty := Struct "CylinderPrimitive"
  [("pose", Opt Pose); ("size", Opt Vector3); ("bottom_scale", Scalar); ("top_scale", Scalar);
   ("color", Opt Color)].
Definition CubePrimitive : Ty := Struct "CubePrimitive"
  [("pose", Opt Pose); ("size", Opt Vector3); ("color", Opt Color)].
Definition FrameTransform : Ty := Struct "FrameTransform"
  [("timestamp", Time); ("parent_frame_id", Str); ("child_frame_id", Str);
   ("translation", Opt Vector3); ("rotation", Opt Quaternion)].
Definition FrameTransforms : Ty := Struct "FrameTransforms"
  [("transforms", Many FrameTransform)].
Definition GeoJson : Ty := Struct "GeoJson"
  [("geojson", Str)].
Definition Vector2 : Ty := Struct "Vector2"
  [("x", Scalar); ("y", Scalar)].
Definition PackedElementField : Ty := Struct "PackedElementField"
  [("name", Str); ("offset", Scalar); ("type", Enum 9)].
Definition Grid : Ty := Struct "Grid"
  [("timestamp", Time); ("frame_id", Str); ("pose", Opt Pose); ("column_count", Scalar);
   ("cell_size", Opt Vector2); ("row_stride", Scalar); ("cell_stride", Scalar);
   ("fields", Many PackedElementField); ("data", Bytes)].
Definition VoxelGrid : Ty := Struct "VoxelGrid"
  [("timestamp", Time); ("frame_id", Str); ("pose", Opt Pose); ("row_count", Scalar);
   ("column_count", Scalar); ("cell_size", Opt Vector3); ("slice_stride", Scalar);
   ("row_stride", Scalar); ("cell_stride", Scalar); ("fields", Many PackedElementField);
   ("data", Bytes)].
Definition PointsAnnotation : Ty := Struct "PointsAnnotation"
  [("timestamp", Time); ("type", Enum 5); ("points", Many Point2); ("outline_color", Opt Color);
   ("outline_colors", Many Color); ("fill_color", Opt Color); ("thickness", Scalar)].
Definition TextAnnotation : Ty := Struct "TextAnnotation"
  [("timestamp", Time); ("position", Opt Point2); ("text", Str); ("font_size", Scalar);
   ("text_color", Opt Color); ("background_color", Opt Color)].
Definition ImageAnnotations : Ty := Struct "ImageAnnotations"
  [("circles", Many CircleAnnotation); ("points", Many PointsAnnotation);
   ("texts", Many TextAnnotation)].
Definition KeyValuePair : Ty := Struct "KeyValuePair"
  [("key", Str); ("value", Str)].
Definition LaserScan : Ty := Struct "LaserScan"
  [("timestamp", Time); ("frame_id", Str); ("pose", Opt Pose); ("start_angle", Scalar);
   ("end_angle", Scalar); ("ranges", Words); ("intensities", Words)].
Definition Point3 : Ty := Struct "Point3"
  [("x", Scalar); ("y", Scalar); ("z", Scalar)].
Definition LinePrimitive : Ty := Struct "LinePrimitive"
  [("type", Enum 3); ("pose", Opt Pose); ("thickness", Scalar); ("scale_invariant", Bool);
   ("points", Many Point3); ("color", Opt Color); ("colors", Many Color); ("indices", Words)].
Definition LocationFix : Ty := Struct "LocationFix"
  [("timestamp", Time); ("frame_id", Str); ("latitude", Scalar); ("longitude", Scalar);
   ("altitude", Scalar); ("position_covariance", Array 9); ("position_covariance_type", Enum 4);
   ("color", Opt Color)].
Definition LocationFixes : Ty := Struct "LocationFixes"
  [("fixes", Many LocationFix)].
Definition Log : Ty := Struct "Log"
  [("timestamp", Time); ("level", Enum 6); ("message", Str); ("name", Str); ("file", Str);
   ("line", Scalar)].
Definition SceneEntityDeletion : Ty := Struct "SceneEntityDeletion"
  [("timestamp", Time); ("type", Enum 2); ("id", Str)].
Definition SpherePrimitive : Ty := Struct "SpherePrimitive"
  [("pose", Opt Pose); ("size", Opt Vector3); ("color", Opt Color)].
Definition TriangleListPrimitive : Ty := Struct "TriangleListPrimitive"
  [("pose", Opt Pose); ("points", Many Point3); ("color", Opt Color); ("colors", Many Color);
   ("indices", Words)].
Definition TextPrimitive : Ty := Struct "TextPrimitive"
  [("pose", Opt Pose); ("billboard", Bool); ("font_size", Scalar); ("scale_invariant", Bool);
   ("color", Opt Color); ("text", Str)].
Definition ModelPrimitive : Ty := Struct "ModelPrimitive"
  [("pose", Opt Pose); ("scale", Opt Vector3); ("color", Opt Color); ("override_color", Bool);
   ("url", Str); ("media_type", Str); ("data", Bytes)].
Definition SceneEntity : Ty := Struct "SceneEntity"
  [("timestamp", Time); ("frame_id", Str); ("id", Str); ("lifetime", Dur);
   ("frame_locked", Bool); ("metadata", Many KeyValuePair); ("arrows", Many ArrowPrimitive);
   ("cubes", Many CubePrimitive); ("spheres", Many SpherePrimitive);
   ("cylinders", Many CylinderPrimitive); ("lines", Many LinePrimitive);
   ("triangles", Many TriangleListPrimitive); ("texts", Many TextPrimitive);
   ("models", Many ModelPrimitive)].
Definition SceneUpdate : Ty := Struct "SceneUpdate"
  [("deletions", Many SceneEntityDeletion); ("entities", Many SceneEntity)].
Definition Point3InFrame : Ty := Struct "Point3InFrame"
  [("timestamp", Time); ("frame_id", Str); ("point", Opt Point3)].
Definition PointCloud : Ty := Struct "PointCloud"
  [("timestamp", Time); ("frame_id", Str); ("pose", Opt Pose); ("point_stride", Scalar);
   ("fields", Many PackedElementField); ("data", Bytes)].
Definition PoseInFrame : Ty := Struct "PoseInFrame"
  [("timestamp", Time); ("frame_id", Str); ("pose", Opt Pose)].
Definition PosesInFrame : Ty := Struct "PosesInFrame"
  [("timestamp", Time); ("frame_id", Str); ("poses", Many Pose)].
Definition RawAudio : Ty := Struct "RawAudio"
  [("timestamp", Time); ("data", Bytes); ("format", Str); ("sample_rate", Scalar);
   ("number_of_channels", Scalar)].
Definition RawImage : Ty := Struct "RawImage"
  [("timestamp", Time); ("frame_id", Str); ("width", Scalar); ("height", Scalar);
   ("encoding", Str); ("step", Scalar); ("data", Bytes)].
End Schemas.

(** [size_of] and the layout of the C struct, and of the Rust struct, of a
    message: the compiler's. *)
Class Layouts := { c_size : string → Z; rust_layout : string → Layout }.
Class LayoutsOk `{Layouts} : Prop := { rust_layout_ok : ∀ name, layout_ok (rust_layout name) }.
Definition ty_name (t : Ty) : string := let 'Struct name _ := t in name.

(** ** The caller's memory *)

(** A member of a struct: a number, a pointer (null is 0), or a pointer with a
    length, as in [FoxgloveString]; an inline array is the pointer to it. *)
Inductive CField := FWord (z : Z) | FPtr (a : Z) | FSlice (a n : Z).
Record CMem := {
  c_structs : gmap Z (list CField);
  c_times : gmap Z (Z * Z);           (* [sec] and [nsec] *)
  c_bytes : gmap Z (list byte);
  c_words : gmap Z (list Z)           (* arrays of [f64] and [u32], as bits *)
}.
Definition c_slice {A} (m : gmap Z (list A)) (a n : Z) : option (list A) :=
  l ← m !! a; if (0 <=? n) && (n <=? Z.of_nat (length l)) then Some (take (Z.to_nat n) l) else None.

(** ** The native messages *)

(** A borrowed slice: no pointer for the empty one. *)
Abbreviation slice := (option (Z * Z)).
Inductive Native :=
| NWord (z : Z)
| NTime (t : option Timestamp)
| NDur (d : option Duration)
| NString (s : slice)
| NBytes (s : slice)
| NWords (s : slice)
| NOpt (m : option Native)
| NSlice (s : slice)
| NStruct (fields : list Native).

(** A message as a value. *)
Inductive Value :=
| VWord (z : Z)
| VTime (t : option Z)              (* in nanoseconds *)
| VDur (d : option Z)
| VString (s : list byte)
| VBytes (s : list byte)
| VWords (l : list Z)
| VOpt (m : option Value)
| VMany (l : list Value)
| VStruct (fields : list Value).

(** [f] at [k] indices from [i]. *)
Fixpoint collect_from {A} (f : Z → option A) (i : Z) (k : nat) : option (list A) :=
  match k with
  | O => Some []
  | S k => x ← f i; l ← collect_from f (i + 1) k; Some (x :: l)
  end.

Section messages.
Context `{GlobalAlloc} `{Layouts} (cm : CMem).
Abbreviation M := (Arena.M Native).

(** ** `util.rs` *)

Definition bytes_from_raw (ptr len : Z) : M Native :=
  if len =? 0 then mret (NBytes None)
  else match c_slice (c_bytes cm) ptr len with
  | Some _ => mret (NBytes (Some (ptr, len)))
  | None => undefined
  end.
(** On malformed UTF-8 the [FromUtf8Error] that holds the [Vec] is dropped after
    its message has been formatted. *)
Definition string_from_raw (ptr len : Z) (field_name : string) : M Native :=
  if len =? 0 then mret (NString None)
  else match c_slice (c_bytes cm) ptr len with
  | Some s =>
    if utf8_valid s then mret (NString (Some (ptr, len)))
    else _ ← heap_dealloc ptr {| l_size := len; l_align := 1 |};
         throw (FoxgloveUtf8Error (field_name ++ " invalid"))
  | None => undefined
  end.
Definition vec_from_raw (ptr len : Z) : Native :=
  if len =? 0 then NWords None else NWords (Some (ptr, len)).

(** ** [borrow_to_native] *)

(** [as_ref] and [into]: [Timestamp::new] panics on overflow. *)
Definition time_of (p : Z) : option (result FoxgloveError (option Timestamp)) :=
  if p =? 0 then Some (Ok None)
  else '(s, n) ← c_times cm !! p; Some (Some <$> Timestamp_new s n).
Definition dur_of (p : Z) : option (result FoxgloveError (option Duration)) :=
  if p =? 0 then Some (Ok None)
  else '(s, n) ← c_times cm !! p; Some (Some <$> Duration_new s n).
Definition or_undefined {A} (o : option (result FoxgloveError A)) : M A :=
  match o with Some r => lift r | None => undefined end.

(** The field expressions of the struct literal; [bound] is the variable that a
    [let] has bound for the field. *)
Definition literal_field (k : Kind Ty) (x : CField) (bound : option Native) : M Native :=
  match bound, k, x with
  | Some n, _, _ => mret n
  | None, Scalar, FWord z => mret (NWord z)
  | None, Bool, FWord z => if (z =? 0) || (z =? 1) then mret (NWord z) else undefined
  | None, Enum n, FWord z => if (0 <=? z) && (z <? n) then mret (NWord z) else undefined
  | None, Time, FPtr p => t ← or_undefined (time_of p); mret (NTime t)
  | None, Dur, FPtr p => d ← or_undefined (dur_of p); mret (NDur d)
  | None, Bytes, FSlice p n => bytes_from_raw p n
  | None, Words, FSlice p n => mret (vec_from_raw p n)
  | None, Array n, FPtr p => mret (vec_from_raw p n)
  | _, _, _ => undefined
  end.
Fixpoint literal (ks : list (string * Kind Ty)) (xs : list CField) (bound : list (option Native))
    : M (list Native) :=
  match ks, xs, bound with
  | [], [], [] => mret []
  | (_, k) :: ks, x :: xs, b :: bound =>
    n ← literal_field k x b; ns ← literal ks xs bound; mret (n :: ns)
  | _, _, _ => undefined
  end.

(** First the [let]s, in the order of the fields, then the literal. *)
Fixpoint borrow_to_native (t : Ty) (a : Z) : M Native :=
  let 'Struct _ fields := t in
  match c_structs cm !! a with
  | None => undefined
  | Some xs =>
    bound ← (fix lets (ks : list (string * Kind Ty)) (xs : list CField) : M (list (option Native)) :=
      match ks, xs with
      | [], [] => mret []
      | (f, k) :: ks, x :: xs =>
        b ← match k, x with
            | Str, FSlice p n => n ← string_from_raw p n f; mret (Some n)
            | Opt t, FPtr p =>
              if p =? 0 then mret (Some (NOpt None))
              else n ← borrow_to_native t p; mret (Some (NOpt (Some n)))
            | Many t, FSlice p n =>
              s ← map (rust_layout (ty_name t)) (borrow_to_native t) p (c_size (ty_name t)) n;
              mret (Some (NSlice s))
            | Str, _ | Opt _, _ | Many _, _ => undefined
            | _, _ => mret None
            end;
        bs ← lets ks xs; mret (b :: bs)
      | _, _ => undefined
      end) fields xs;
    ns ← literal fields xs bound;
    mret (NStruct ns)
  end.

(** [borrow_option_to_native]. *)
Definition borrow_option_to_native (t : Ty) (msg : option Z) : M Native :=
  match msg with
  | None => throw (ValueError "msg is required")
  | Some a => borrow_to_native t a
  end.

(** ** Reading messages *)

(** The message at a C address.  The types of the members bound [sec] and [nsec]. *)
Definition c_leaf (k : Kind Ty) (x : CField) : option Value :=
  match k, x with
  | Scalar, FWord z => Some (VWord z)
  | Bool, FWord z => if (z =? 0) || (z =? 1) then Some (VWord z) else None
  | Enum n, FWord z => if (0 <=? z) && (z <? n) then Some (VWord z) else None
  | Time, FPtr p =>
    if p =? 0 then Some (VTime None)
    else '(s, n) ← c_times cm !! p;
      if (0 <=? s) && (s <? 2 ^ 32) && (0 <=? n) && (n <? 2 ^ 32)
      then Some (VTime (Some (s * 10 ^ 9 + n))) else None
  | Dur, FPtr p =>
    if p =? 0 then Some (VDur None)
    else '(s, n) ← c_times cm !! p;
      if (- 2 ^ 31 <=? s) && (s <? 2 ^ 31) && (0 <=? n) && (n <? 2 ^ 32)
      then Some (VDur (Some (s * 10 ^ 9 + n))) else None
  | Str, FSlice p n => if n =? 0 then Some (VString []) else VString <$> c_slice (c_bytes cm) p n
  | Bytes, FSlice p n => if n =? 0 then Some (VBytes []) else VBytes <$> c_slice (c_bytes cm) p n
  | Words, FSlice p n => if n =? 0 then Some (VWords []) else VWords <$> c_slice (c_words cm) p n
  | Array n, FPtr p => if n =? 0 then Some (VWords []) else VWords <$> c_slice (c_words cm) p n
  | _, _ => None
  end.
Fixpoint c_view (t : Ty) (a : Z) : option Value :=
  let 'Struct _ fields := t in
  xs ← c_structs cm !! a;
  VStruct <$> (fix go (ks : list (string * Kind Ty)) (xs : list CField) : option (list Value) :=
    match ks, xs with
    | [], [] => Some []
    | (_, k) :: ks, x :: xs =>
      v ← match k, x with
          | Opt t, FPtr p =>
            if p =? 0 then Some (VOpt None) else v ← c_view t p; Some (VOpt (Some v))
          | Many t, FSlice p n =>
            if 0 <=? n then
              l ← collect_from (λ i, c_view t (p + i * c_size (ty_name t))) 0 (Z.to_nat n);
              Some (VMany l)
            else None
          | _, _ => c_leaf k x
          end;
      vs ← go ks xs; Some (v :: vs)
    | _, _ => None
    end) fields xs.

(** The message that a borrowed struct is, through the memory. *)
Definition view_leaf (n : Native) : option Value :=
  match n with
  | NWord z => Some (VWord z)
  | NTime None => Some (VTime None)
  | NTime (Some t) =>
    if ts_nsec t <? 10 ^ 9 then Some (VTime (Some (ts_sec t * 10 ^ 9 + ts_nsec t))) else None
  | NDur None => Some (VDur None)
  | NDur (Some d) =>
    if dur_nsec d <? 10 ^ 9 then Some (VDur (Some (dur_sec d * 10 ^ 9 + dur_nsec d))) else None
  | NString None => Some (VString [])
  | NString (Some (p, n)) => VString <$> c_slice (c_bytes cm) p n
  | NBytes None => Some (VBytes [])
  | NBytes (Some (p, n)) => VBytes <$> c_slice (c_bytes cm) p n
  | NWords None => Some (VWords [])
  | NWords (Some (p, n)) => VWords <$> c_slice (c_words cm) p n
  | _ => None
  end.
Fixpoint view (t : Ty) (n : Native) (st : State Native) : option Value :=
  match t, n with
  | Struct _ fields, NStruct ns =>
    VStruct <$> (fix go (ks : list (string * Kind Ty)) (ns : list Native) : option (list Value) :=
      match ks, ns with
      | [], [] => Some []
      | (_, k) :: ks, n :: ns =>
        v ← match k, n with
            | Opt t, NOpt None => Some (VOpt None)
            | Opt t, NOpt (Some n) => v ← view t n st; Some (VOpt (Some v))
            | Many t, NSlice None => Some (VMany [])
            | Many t, NSlice (Some (p, k)) =>
              l ← collect_from (λ i,
                n ← load st (p + i * l_size (rust_layout (ty_name t))) (rust_layout (ty_name t));
                view t n st) 0 (Z.to_nat k);
              Some (VMany l)
            | _, _ => view_leaf n
            end;
        vs ← go ks ns; Some (v :: vs)
      | _, _ => None
      end) fields ns
  | _, _ => None
  end.
End messages.

(** ** The generated functions *)

Section functions.
Context `{GlobalAlloc} `{Layouts} (cm : CMem).
(** [Encode] of the message types; a message is what can be read through its
    references. *)
Context `{SmallBytes} (encoder : Ty → Encode Value).
(** The readings of the clocks. *)
Context (instant epoch : Z).

(** [log_msg_to_channel]: a sink id of 0 is none. *)
Definition log_msg_to_channel (t : Ty) (channel : option ChannelRef) (msg : Value)
    (log_time : option Z) (sink_id : Z) (w : World) : result FoxgloveError (CError * World) :=
  match channel with
  | None => Ok (CValueError, w)
  | Some channel =>
    let sink_id := if sink_id =? 0 then None else Some sink_id in
    w ← typed_log_with_meta_to_sink (Encode0 := encoder t) instant epoch
          (from_raw_channel Value channel) msg {| pm_log_time := log_time |} sink_id w;
    Ok (COk, w)
  end.

(** [foxglove_channel_log_*]: a new arena, the conversion, logging, and the drop
    of the arena; a panic aborts the process. *)
Definition foxglove_channel_log (t : Ty) (channel : option ChannelRef) (msg : option Z)
    (log_time : option Z) (sink_id : Z) (w : World) :
    Arena.M Native (CError * World) := λ st,
  match borrow_option_to_native cm t msg (Arena_new st) with
  | None => None
  | Some (Panic, st) => Some (Panic, st)
  | Some (Err e, st) => (_ ← Arena_drop; mret (CError_from e, w)) st
  | Some (Ok n, st) =>
    match view cm t n st with
    | None => None
    | Some msg =>
      (r ← lift (log_msg_to_channel t channel msg log_time sink_id w); _ ← Arena_drop; mret r) st
    end
  end.

(** [prost::Message] on a slice of [remaining] bytes: the encoding, or the
    capacity that it needs. *)
Class ProstMessage := {
  prost_encoded_len : Ty → Value → Z;
  prost_encode : Ty → Value → Z → result Z (list byte)
}.
Context `{ProstMessage}.

(** [foxglove_*_encode]: the code, the bytes written to the buffer [ptr] of [len]
    bytes, and the length stored in [encoded_len]. *)
Definition foxglove_encode (t : Ty) (msg : option Z) (ptr len : Z) (has_encoded_len : bool) :
    Arena.M Native (CError * list byte * option Z) := λ st,
  let out n := if has_encoded_len then Some n else None in
  match borrow_option_to_native cm t msg (Arena_new st) with
  | None => None
  | Some (Panic, st) => Some (Panic, st)
  | Some (Err e, st) => (_ ← Arena_drop; mret (CEncodeError, [], None)) st
  | Some (Ok n, st) =>
    match view cm t n st with
    | None => None
    | Some msg =>
      (r ← (if (len =? 0) || (ptr =? 0) then
              mret (CBufferTooShort, [], out (prost_encoded_len t msg))
            else match prost_encode t msg len with
            | Err required => mret (CBufferTooShort, [], out required)
            | Ok bytes => mret (COk, bytes, out (len - (len - Z.of_nat (length bytes))))
            | Panic => panic
            end);
       _ ← Arena_drop; mret r) st
    end
  end.
End functions.

(** ** Induction on the message types *)

Definition nested (P : Ty → Prop) (k : Kind Ty) : Prop :=
  match k with Opt t | Many t => P t | _ => True end.
Lemma Ty_ind' (P : Ty → Prop) :
  (∀ name fields, Forall (λ fk, nested P fk.2) fields → P (Struct name fields)) → ∀ t, P t.
Proof.
  intros HS. fix IH 1. intros [name fields]. apply HS.
  induction fields as [|[f k] fields IHf]; constructor; [|exact IHf].
  destruct k; cbn; try exact I; apply IH.
Qed.

Lemma collect_from_spec {A} (f : Z → option A) i k l :
  collect_from f i k = Some l ↔
  length l = k ∧ ∀ j x, l !! j = Some x → f (i + Z.of_nat j) = Some x.
Proof.
  revert i l. induction k as [|k IH]; intros i l; cbn [collect_from].
  - split; [intros [= <-]; by split|]. intros [El _]. by destruct l.
  - split.
    + intros (x & Hx & (l' & Hl & [= <-])%bind_Some)%bind_Some. apply IH in Hl as [<- Hj].
      split; [done|]. intros [|j] y Hy; cbn in Hy.
      * rewrite Z.add_0_r. congruence.
      * replace (i + Z.of_nat (S j)) with (i + 1 + Z.of_nat j) by lia. by apply Hj.
    + intros [El Hj]. destruct l as [|x l]; [done|]. injection El as El.
      pose proof (Hj 0%nat x eq_refl) as Hx. rewrite Z.add_0_r in Hx. rewrite Hx. cbn.
      rewrite (proj2 (IH (i + 1) l)); [done|]. split; [done|]. intros j y Hy.
      replace (i + 1 + Z.of_nat j) with (i + Z.of_nat (S j)) by lia. by apply Hj.
Qed.

(** How the conversion of a message ends: the strings and the nested messages
    come first, and then the times, which a [Timestamp] or a [Duration] must hold. *)
Definition is_time (v : Value) : bool := match v with VTime _ | VDur _ => true | _ => false end.
Fixpoint fate (v : Value) : Fate :=
  match v with
  | VString s => if utf8_valid s then Returns else Faults
  | VTime (Some t) => if t <? 2 ^ 32 * 10 ^ 9 then Returns else Panics
  | VDur (Some d) => if d <? 2 ^ 31 * 10 ^ 9 then Returns else Panics
  | VOpt (Some v) => fate v
  | VMany l => fate_all fate l
  | VStruct vs =>
    fate_seq (fate_all (λ v, if is_time v then Returns else fate v) vs)
      (fate_all (λ v, if is_time v then fate v else Returns) vs)
  | _ => Returns
  end.

Section correctness.
Context `{GlobalAlloc} (foreign : Z → Prop) `{!GlobalAllocLaws foreign}.
Context `{Layouts} `{!LayoutsOk} (cm : CMem).
Implicit Types st : State Native.

(** No slice is larger than Rust allows ([isize::MAX] bytes). *)
Fixpoint sized (t : Ty) (v : Value) : Prop :=
  match t, v with
  | Struct _ fields, VStruct vs =>
    (fix go (ks : list (string * Kind Ty)) (vs : list Value) : Prop :=
      match ks, vs with
      | (_, k) :: ks, v :: vs =>
        match k, v with
        | Opt t, VOpt (Some v) => sized t v
        | Many t, VMany l =>
          Z.of_nat (length l) * l_size (rust_layout (ty_name t)) ≤
            ISIZE_MAX - (l_align (rust_layout (ty_name t)) - 1) ∧
          ∀ v, v ∈ l → sized t v
        | _, _ => True
        end ∧ go ks vs
      | _, _ => True
      end) fields vs
  | _, _ => True
  end.

(** The blocks that the slices of a message need at most, in the order of the
    conversion. *)
Fixpoint needs (t : Ty) (v : Value) : list Layout :=
  match t, v with
  | Struct _ fields, VStruct vs =>
    (fix go (ks : list (string * Kind Ty)) (vs : list Value) : list Layout :=
      match ks, vs with
      | (_, k) :: ks, v :: vs =>
        match k, v with
        | Opt t, VOpt (Some v) => needs t v
        | Many t, VMany l => slice_needs (needs t) (rust_layout (ty_name t)) l
        | _, _ => []
        end ++ go ks vs
      | _, _ => []
      end) fields vs
  | _, _ => []
  end.

(** The loops of the recursive functions, on a field and on the fields. *)
Definition let_field (f : string) (k : Kind Ty) (x : CField) : Arena.M Native (option Native) :=
  match k, x with
  | Str, FSlice p n => n ← string_from_raw cm p n f; mret (Some n)
  | Opt t, FPtr p =>
    if p =? 0 then mret (Some (NOpt None))
    else n ← borrow_to_native cm t p; mret (Some (NOpt (Some n)))
  | Many t, FSlice p n =>
    s ← map (rust_layout (ty_name t)) (borrow_to_native cm t) p (c_size (ty_name t)) n;
    mret (Some (NSlice s))
  | Str, _ | Opt _, _ | Many _, _ => undefined
  | _, _ => mret None
  end.
Fixpoint lets (ks : list (string * Kind Ty)) (xs : list CField)
    : Arena.M Native (list (option Native)) :=
  match ks, xs with
  | [], [] => mret []
  | (f, k) :: ks, x :: xs => b ← let_field f k x; bs ← lets ks xs; mret (b :: bs)
  | _, _ => undefined
  end.
Definition c_field (k : Kind Ty) (x : CField) : option Value :=
  match k, x with
  | Opt t, FPtr p => if p =? 0 then Some (VOpt None) else v ← c_view cm t p; Some (VOpt (Some v))
  | Many t, FSlice p n =>
    if 0 <=? n then
      l ← collect_from (λ i, c_view cm t (p + i * c_size (ty_name t))) 0 (Z.to_nat n); Some (VMany l)
    else None
  | _, _ => c_leaf cm k x
  end.
Fixpoint c_fields (ks : list (string * Kind Ty)) (xs : list CField) : option (list Value) :=
  match ks, xs with
  | [], [] => Some []
  | (_, k) :: ks, x :: xs => v ← c_field k x; vs ← c_fields ks xs; Some (v :: vs)
  | _, _ => None
  end.
Definition view_field (k : Kind Ty) (n : Native) st : option Value :=
  match k, n with
  | Opt t, NOpt None => Some (VOpt None)
  | Opt t, NOpt (Some n) => v ← view cm t n st; Some (VOpt (Some v))
  | Many t, NSlice None => Some (VMany [])
  | Many t, NSlice (Some (p, k)) =>
    l ← collect_from (λ i,
      n ← load st (p + i * l_size (rust_layout (ty_name t))) (rust_layout (ty_name t));
      view cm t n st) 0 (Z.to_nat k);
    Some (VMany l)
  | _, _ => view_leaf cm n
  end.
Fixpoint view_fields (ks : list (string * Kind Ty)) (ns : list Native) st : option (list Value) :=
  match ks, ns with
  | [], [] => Some []
  | (_, k) :: ks, n :: ns => v ← view_field k n st; vs ← view_fields ks ns st; Some (v :: vs)
  | _, _ => None
  end.
Definition sized_field (k : Kind Ty) (v : Value) : Prop :=
  match k, v with
  | Opt t, VOpt (Some v) => sized t v
  | Many t, VMany l =>
    Z.of_nat (length l) * l_size (rust_layout (ty_name t)) ≤
      ISIZE_MAX - (l_align (rust_layout (ty_name t)) - 1) ∧
    ∀ v, v ∈ l → sized t v
  | _, _ => True
  end.
Fixpoint sized_fields (ks : list (string * Kind Ty)) (vs : list Value) : Prop :=
  match ks, vs with
  | (_, k) :: ks, v :: vs => sized_field k v ∧ sized_fields ks vs
  | _, _ => True
  end.
Definition needs_field (k : Kind Ty) (v : Value) : list Layout :=
  match k, v with
  | Opt t, VOpt (Some v) => needs t v
  | Many t, VMany l => slice_needs (needs t) (rust_layout (ty_name t)) l
  | _, _ => []
  end.
Fixpoint needs_fields (ks : list (string * Kind Ty)) (vs : list Value) : list Layout :=
  match ks, vs with
  | (_, k) :: ks, v :: vs => needs_field k v ++ needs_fields ks vs
  | _, _ => []
  end.

Lemma borrow_struct name fields a st : borrow_to_native cm (Struct name fields) a st =
  match c_structs cm !! a with
  | None => None
  | Some xs => (bound ← lets fields xs; ns ← literal cm fields xs bound; mret (NStruct ns)) st
  end.
Proof. cbn [borrow_to_native]. by destruct (c_structs cm !! a). Qed.
Lemma c_view_struct name fields a : c_view cm (Struct name fields) a =
  xs ← c_structs cm !! a; VStruct <$> c_fields fields xs.
Proof. done. Qed.
Lemma view_struct name fields ns st : view cm (Struct name fields) (NStruct ns) st =
  VStruct <$> view_fields fields ns st.
Proof.
  cbn [view]. f_equal. revert ns. induction fields as [|[f k] fields IH]; intros [|n ns]; try done.
  cbn [view_fields]. by rewrite <- IH.
Qed.
Lemma sized_struct name fields vs : sized (Struct name fields) (VStruct vs) = sized_fields fields vs.
Proof. done. Qed.
Lemma needs_struct name fields vs : needs (Struct name fields) (VStruct vs) = needs_fields fields vs.
Proof. done. Qed.

(** *** Later states show the same messages *)

Lemma load_mono st st' a t n : s_cells st ⊆ s_cells st' → load st a t = Some n → load st' a t = Some n.
Proof.
  unfold load. intros Hc ([k v] & Ha & Hk)%bind_Some. by rewrite (lookup_weaken _ _ _ _ Ha Hc).
Qed.
Definition views_mono (t : Ty) : Prop := ∀ n v st st', s_cells st ⊆ s_cells st' →
  view cm t n st = Some v → view cm t n st' = Some v.
Lemma view_field_mono k n v st st' : nested views_mono k → s_cells st ⊆ s_cells st' →
  view_field k n st = Some v → view_field k n st' = Some v.
Proof.
  intros Hk Hc. destruct k as [| | | | | | | | |t|t]; cbn [view_field]; try done; cbn in Hk.
  - destruct n as [| | | | | |[n|]| |]; try done. intros (w & Hw & [= <-])%bind_Some.
    by rewrite (Hk _ _ _ _ Hc Hw).
  - destruct n as [| | | | | | |[[p k]|]|]; try done. intros (l & Hl & [= <-])%bind_Some.
    apply collect_from_spec in Hl as [El Hl].
    rewrite (proj2 (collect_from_spec _ _ _ l)); [done|]. split; [done|].
    intros j x Hj. apply Hl, bind_Some in Hj as (n & Hn & Hv).
    by rewrite (load_mono _ _ _ _ _ Hc Hn); cbn; apply (Hk _ _ _ _ Hc).
Qed.
Lemma view_mono t : views_mono t.
Proof.
  induction t as [name fields IH] using Ty_ind'. intros n v st st' Hc.
  destruct n as [| | | | | | | |ns]; try done. rewrite !view_struct.
  intros (vs & Hvs & ->)%fmap_Some. enough (view_fields fields ns st' = Some vs) as -> by done.
  revert ns vs Hvs. induction IH as [|[f k] fields Hk _ IHf]; intros [|n ns] vs; cbn; try done.
  intros (v & Hv & (vs' & Hvs & [= <-])%bind_Some)%bind_Some.
  by rewrite (view_field_mono k _ _ _ _ Hk Hc Hv), (IHf _ _ Hvs).
Qed.

(** *** Conversion preserves the message *)

Context (live : gmap Z Layout).
(** The allocator's blocks are elsewhere than the caller's buffers. *)
Context (Hforeign : ∀ p, is_Some (c_bytes cm !! p) → foreign p ∧ live !! p = None).

Definition shows (t : Ty) (v : Value) (n : Native) st : Prop := view cm t n st = Some v.
Abbreviation runs_here := (runs foreign live none).
Definition borrows (t : Ty) : Prop := ∀ a v, c_view cm t a = Some v → sized t v →
  converts foreign live fate (needs t) (shows t) (borrow_to_native cm t a) v.

(** The variable that a [let] binds, or a field that the literal reads. *)
Definition bound_ok st (k : Kind Ty) (x : CField) (v : Value) (b : option Native) : Prop :=
  match b with
  | Some n => view_field k n st = Some v ∧ is_time v = false
  | None => match k with Str | Opt _ | Many _ => False | _ => c_leaf cm k x = Some v end
  end.
Lemma bound_ok_mono st st' k x v b : s_cells st ⊆ s_cells st' →
  bound_ok st k x v b → bound_ok st' k x v b.
Proof.
  intros Hc. destruct b as [n|]; [|done]. cbn. intros [Hn ?]. split; [|done].
  eapply view_field_mono; [|done|exact Hn]. destruct k; cbn; try done; apply view_mono.
Qed.

(** A buffer of the caller is not a block of the allocator. *)
Lemma string_spec p n f s st : arena_inv foreign live st →
  (if n =? 0 then Some [] else c_slice (c_bytes cm) p n) = Some s →
  if utf8_valid s then
    ∃ r, string_from_raw cm p n f st = Some (Ok (NString r), st) ∧
      view_leaf cm (NString r) = Some (VString s)
  else string_from_raw cm p n f st = None.
Proof.
  intros Hi Hs. unfold string_from_raw. destruct (n =? 0); [injection Hs as <-; by exists None|].
  rewrite Hs. destruct (utf8_valid s); [exists (Some (p, n)); cbn; by rewrite Hs|].
  unfold mbind, M_bind, heap_dealloc. rewrite bool_decide_eq_false_2; [done|].
  assert (is_Some (c_bytes cm !! p)) as Hp.
  { unfold c_slice in Hs. destruct (c_bytes cm !! p); [by eexists|done]. }
  destruct (Hforeign p Hp) as [Hf Hl]. intros [?|Ho]%(iv_live _ _ _ Hi); [congruence|].
  destruct (iv_overflow _ _ _ Hi _ _ Ho) as (_ & _ & ? & Hnf). apply (Hnf p); [lia|done].
Qed.

(** The fate of a [let]. *)
Definition let_fate (v : Value) : Fate := if is_time v then Returns else fate v.
Lemma c_leaf_fate k x v : c_leaf cm k x = Some v →
  match k with Str | Opt _ | Many _ => False | _ => True end → let_fate v = Returns.
Proof.
  intros Hv Hk. destruct k as [| | n | | | | | | n |t|t], x as [z|p|p n'];
    cbn [c_leaf] in Hv; try done;
    repeat (case_match || simplify_option_eq || apply fmap_Some in Hv as (? & _ & ->)); done.
Qed.

Lemma let_field_spec f k x v st : nested borrows k → c_field k x = Some v → sized_field k v →
  arena_inv foreign live st →
  runs_here (needs_field k v) (let_field f k x) st (let_fate v) (λ b st, bound_ok st k x v b).
Proof.
  intros Hk Hv Hsz Hi.
  assert (let_field f k x = mret None → c_leaf cm k x = Some v →
    match k with Str | Opt _ | Many _ => False | _ => True end →
    runs_here (needs_field k v) (let_field f k x) st (let_fate v) (λ b st, bound_ok st k x v b)) as Hleaf.
  { intros -> Hl Hkind. rewrite (c_leaf_fate k x v Hl Hkind). apply runs_ret; [done|]. by destruct k. }
  destruct k as [| | n | | | | | | n |t|t]; cbn [c_field nested sized_field] in *.
  1,2,3,4,5,7,8,9: by apply Hleaf; [destruct x|..].
  - destruct x as [| |p n]; [done..|]. cbn [c_leaf] in Hv. cbn [let_field].
    assert (∃ s, (if n =? 0 then Some [] else c_slice (c_bytes cm) p n) = Some s ∧ v = VString s)
      as (s & Hs & ->).
    { destruct (n =? 0); [injection Hv as <-; by eexists|].
      apply fmap_Some in Hv as (s & ? & ->). by exists s. }
    pose proof (string_spec p n f s st Hi Hs) as Hstr. unfold let_fate. cbn [is_time fate].
    left. unfold mbind, M_bind. destruct (utf8_valid s); [|by rewrite Hstr].
    destruct Hstr as (r & -> & Hr). exists (Some (NString r)), st.
    do 2 (split; [done|]). split; [apply extends_refl|]. by split; [apply grown_refl|].
  - destruct x as [|p|]; [done| |done]. cbn [let_field]. destruct (p =? 0).
    + injection Hv as <-. by apply runs_ret.
    + apply bind_Some in Hv as (w & Hw & [= <-]). unfold let_fate. cbn [is_time fate needs_field].
      rewrite <- (fate_seq_l (fate w)), <- (app_nil_r (needs t w)). eapply runs_bind; [by apply (Hk p w Hw Hsz)|].
      intros n st1 Hi1 _ _ Hn. apply runs_ret; [done|]. split; [|done]. cbn. unfold shows in Hn.
      by rewrite Hn.
  - destruct x as [| |p n]; [done..|]. cbn [let_field]. destruct (Z.leb_spec 0 n) as [Hn|]; [|done].
    apply bind_Some in Hv as (l & Hl & [= <-]). apply collect_from_spec in Hl as [El Hl].
    destruct Hsz as [Hfit Hsz]. unfold let_fate. cbn [is_time fate needs_field].
    set (T := rust_layout (ty_name t)) in *.
    rewrite <- (fate_seq_l (fate_all fate l)), <- (app_nil_r (slice_needs _ _ l)). replace n with (Z.of_nat (length l)) by lia.
    eapply runs_bind with (Q := λ s st, slice_of (shows t) T s l st).
    + apply map_steps; [apply _| |done|apply rust_layout_ok|done|].
      * intros a w st1 st2 Hc Hw'. by eapply view_mono.
      * intros j w Hj. apply Hk; [by rewrite <- (Z.add_0_l (Z.of_nat j)); apply Hl|].
        apply Hsz. by eapply list_elem_of_lookup_2.
    + intros s st1 Hi1 _ _ Hs. apply runs_ret; [done|]. split; [|done]. cbn.
      destruct s as [[q k]|]; cbn in Hs.
      * destruct Hs as [-> Hs]. rewrite (proj2 (collect_from_spec _ _ _ l)); [done|].
        split; [by rewrite Nat2Z.id|]. intros j w Hj. destruct (Hs j w Hj) as (m & Hm & Hw').
        fold T. rewrite Z.add_0_l, Hm. exact Hw'.
      * by subst l.
Qed.

Lemma lets_spec ks xs vs st : Forall (λ fk, nested borrows fk.2) ks → c_fields ks xs = Some vs →
  sized_fields ks vs → arena_inv foreign live st →
  runs_here (needs_fields ks vs) (lets ks xs) st (fate_all let_fate vs) (λ bs st,
    length bs = length ks ∧ ∀ j f k x v, ks !! j = Some (f, k) → xs !! j = Some x → vs !! j = Some v →
      ∃ b, bs !! j = Some b ∧ bound_ok st k x v b).
Proof.
  intros Hks. revert xs vs st. induction Hks as [|[f k] ks Hk _ IH]; intros [|x xs] [|v0 vs0] st Hvs Hsz Hi;
    cbn [c_fields lets] in *; try done.
  - by apply runs_ret.
  - apply bind_Some in Hvs as (v & _ & (vs' & _ & [=])%bind_Some).
  - apply bind_Some in Hvs as (v & Hv & (vs' & Hvs & [= <- <-])%bind_Some). destruct Hsz as [Hsz Hszs].
    cbn [fate_all needs_fields]. eapply runs_bind; [by apply let_field_spec|].
    intros b st1 Hi1 _ _ Hb.
    rewrite <- (fate_seq_l (fate_all let_fate vs')), <- (app_nil_r (needs_fields ks vs')).
    eapply runs_bind; [by apply IH|]. intros bs st2 Hi2 He2 _ [El Hbs].
    apply runs_ret; [done|]. split; [cbn; by rewrite El|]. intros [|j] f' k' x' v'; cbn; [|by apply Hbs].
    intros [= <- <-] [= <-] [= <-]. exists b. split; [done|].
    eapply bound_ok_mono; [apply (ex_cells _ _ _ He2)|done].
Qed.

(** The fate of a field of the literal. *)
Definition literal_fate (v : Value) : Fate := if is_time v then fate v else Returns.
Definition ends {R} (m : Arena.M Native R) st (e : Fate) (Q : R → Prop) : Prop :=
  match e with
  | Returns => ∃ r, m st = Some (Ok r, st) ∧ Q r
  | Panics => m st = Some (Panic, st)
  | Faults => False
  end.
Lemma ends_bind {R S} (m : Arena.M Native R) (f : R → Arena.M Native S) st e e' Q Q' :
  ends m st e Q → (∀ r, Q r → ends (f r) st e' Q') → ends (m ≫= f) st (fate_seq e e') Q'.
Proof.
  unfold ends, mbind, M_bind. destruct e; cbn [fate_seq]; [|by intros ->|done].
  intros (r & -> & HQ) Hf. by apply Hf.
Qed.
Lemma time_field_spec p v st : c_leaf cm Time (FPtr p) = Some v →
  ends (literal_field cm Time (FPtr p) None) st (literal_fate v) (λ n, view_leaf cm n = Some v).
Proof.
  cbn [c_leaf literal_field]. unfold time_of, or_undefined, ends, mbind, M_bind, lift.
  destruct (p =? 0); [intros [= <-]; by eexists|].
  destruct (c_times cm !! p) as [[s n]|]; [|done]. cbn [mbind option_bind].
  destruct (_ && _) eqn:Hr; [|done]. intros [= <-]. unfold literal_fate. cbn [is_time fate].
  rewrite Timestamp_new_spec by (unfold fits; lia).
  destruct (Z.ltb_spec (s * 10 ^ 9 + n) (2 ^ 32 * 10 ^ 9)) as [Hlt|Hge].
  - pose proof (Z.div_mod (s * 10 ^ 9 + n) NANOS ltac:(unfold NANOS; lia)).
    pose proof (Z.mod_pos_bound (s * 10 ^ 9 + n) NANOS ltac:(unfold NANOS; lia)).
    set (q := _ `div` NANOS) in *. set (r := _ `mod` NANOS) in *.
    rewrite (Timestamp_of_nanos_eq _ q r) by (time_unfold; lia). cbn.
    eexists. split; [done|]. cbn. unfold NANOS in *.
    rewrite (proj2 (Z.ltb_lt _ _)) by lia. do 3 f_equal. lia.
  - rewrite Timestamp_of_nanos_upper by (time_unfold; lia). done.
Qed.
Lemma dur_field_spec p v st : c_leaf cm Dur (FPtr p) = Some v →
  ends (literal_field cm Dur (FPtr p) None) st (literal_fate v) (λ n, view_leaf cm n = Some v).
Proof.
  cbn [c_leaf literal_field]. unfold dur_of, or_undefined, ends, mbind, M_bind, lift.
  destruct (p =? 0); [intros [= <-]; by eexists|].
  destruct (c_times cm !! p) as [[s n]|]; [|done]. cbn [mbind option_bind].
  destruct (_ && _) eqn:Hr; [|done]. intros [= <-]. unfold literal_fate. cbn [is_time fate].
  rewrite Duration_new_spec by (unfold fits, fits_signed; lia).
  destruct (Z.ltb_spec (s * 10 ^ 9 + n) (2 ^ 31 * 10 ^ 9)) as [Hlt|Hge].
  - pose proof (Z.div_mod (s * 10 ^ 9 + n) NANOS ltac:(unfold NANOS; lia)).
    pose proof (Z.mod_pos_bound (s * 10 ^ 9 + n) NANOS ltac:(unfold NANOS; lia)).
    set (q := _ `div` NANOS) in *. set (r := _ `mod` NANOS) in *.
    rewrite (Duration_of_nanos_eq _ q r) by (time_unfold; lia). cbn.
    eexists. split; [done|]. cbn. unfold NANOS in *.
    rewrite (proj2 (Z.ltb_lt _ _)) by lia. do 3 f_equal. lia.
  - rewrite Duration_of_nanos_upper by (time_unfold; lia). done.
Qed.

Lemma literal_field_spec k x v b st : bound_ok st k x v b →
  ends (literal_field cm k x b) st (literal_fate v) (λ n, view_field k n st = Some v).
Proof.
  destruct b as [n|].
  { intros [Hn Ht]. unfold literal_fate. rewrite Ht. by exists n. }
  cbn [bound_ok]. intros Hb.
  destruct k as [| |m| | | | | |m|t|t], x as [z|p|p n]; try done.
  4: by apply time_field_spec. 4: by apply dur_field_spec.
  all: cbn [c_leaf] in Hb; cbn [literal_field].
  - injection Hb as <-. by eexists.
  - destruct (_ || _); [injection Hb as <-; by eexists|done].
  - destruct (_ && _); [injection Hb as <-; by eexists|done].
  - unfold bytes_from_raw. destruct (n =? 0); [injection Hb as <-; by eexists|].
    destruct (c_slice (c_bytes cm) p n) as [s|] eqn:E; [|done]. injection Hb as <-.
    eexists. split; [done|]. cbn. by rewrite E.
  - unfold vec_from_raw. destruct (n =? 0); [injection Hb as <-; by eexists|].
    destruct (c_slice (c_words cm) p n) as [s|] eqn:E; [|done]. injection Hb as <-.
    eexists. split; [done|]. cbn. by rewrite E.
  - unfold vec_from_raw. destruct (m =? 0); [injection Hb as <-; by eexists|].
    destruct (c_slice (c_words cm) p m) as [s|] eqn:E; [|done]. injection Hb as <-.
    eexists. split; [done|]. cbn. by rewrite E.
Qed.
Lemma literal_spec ks xs bs vs st : c_fields ks xs = Some vs → length bs = length ks →
  (∀ j f k x v, ks !! j = Some (f, k) → xs !! j = Some x → vs !! j = Some v →
    ∃ b, bs !! j = Some b ∧ bound_ok st k x v b) →
  ends (literal cm ks xs bs) st (fate_all literal_fate vs) (λ ns, view_fields ks ns st = Some vs).
Proof.
  revert xs bs vs. induction ks as [|[f k] ks IH]; intros [|x xs] [|b bs] vs Hvs El Hb;
    cbn [c_fields] in Hvs; try done.
  - injection Hvs as <-. by exists [].
  - apply bind_Some in Hvs as (v & Hv & (vs' & Hvs & [= <-])%bind_Some). injection El as El.
    destruct (Hb 0%nat f k x v eq_refl eq_refl eq_refl) as (b' & [= <-] & Hb0).
    cbn [literal fate_all]. eapply ends_bind; [by apply literal_field_spec|]. intros n Hn.
    rewrite <- (fate_seq_l (fate_all literal_fate vs')).
    eapply ends_bind; [apply (IH xs bs vs' Hvs El); intros j; apply (Hb (S j))|].
    intros ns Hns. exists (n :: ns). split; [done|]. cbn. cbn in Hn. by rewrite Hn, Hns.
Qed.

Lemma borrow_steps t : borrows t.
Proof.
  induction t as [name fields IH] using Ty_ind'. intros a v Hv Hsz st Hi.
  rewrite c_view_struct in Hv. apply bind_Some in Hv as (xs & Hxs & (vs & Hvs & ->)%fmap_Some).
  rewrite sized_struct in Hsz. rewrite needs_struct. cbn [fate].
  assert (∀ ls e Q, runs_here ls (bound ← lets fields xs; ns ← literal cm fields xs bound; mret (NStruct ns))
    st e Q → runs_here ls (borrow_to_native cm (Struct name fields) a) st e Q) as Hrun.
  { intros ls e Q. unfold runs, fails. by rewrite borrow_struct, Hxs. }
  apply Hrun. rewrite <- (app_nil_r (needs_fields fields vs)).
  eapply runs_bind; [by apply lets_spec|]. intros bs st1 Hi1 _ _ [El Hbs].
  pose proof (literal_spec fields xs bs vs st1 Hvs El Hbs) as Hlit. fold literal_fate.
  change (λ v0, if is_time v0 then fate v0 else Returns) with literal_fate.
  rewrite <- (fate_seq_l (fate_all literal_fate vs)).
  eapply (runs_bind _ _ _ [] []) with (Q := λ ns st', view_fields fields ns st' = Some vs).
  - unfold ends in Hlit. left. destruct (fate_all literal_fate vs); [|by eexists|done].
    destruct Hlit as (ns & E & Hns). exists ns, st1.
    do 2 (split; [done|]). split; [apply extends_refl|]. by split; [apply grown_refl|].
  - intros ns st2 Hi2 _ _ Hns. apply runs_ret; [done|]. unfold shows. by rewrite view_struct, Hns.
Qed.
End correctness.

(** ** The theorems *)

Section theorems.
Context `{GlobalAlloc} (foreign : Z → Prop) `{!GlobalAllocLaws foreign}.
Context `{Layouts} `{!LayoutsOk} (cm : CMem).
Context `{SmallBytes} (encoder : Ty → Encode Value) (instant epoch : Z).

(** The caller's message: readable, not larger than memory, and in buffers that
    are not blocks of the Rust allocator. *)
Definition c_message (live : gmap Z Layout) (t : Ty) (a : Z) (v : Value) : Prop :=
  c_view cm t a = Some v ∧ sized t v ∧
  ∀ p, is_Some (c_bytes cm !! p) → foreign p ∧ live !! p = None.

(** C22: Converting a C message struct gives a Rust message that reads as the
    same message, field for field and element for element, through however many
    levels of optional structs, arrays and borrowed strings, its times being the
    same numbers of nanoseconds, and whatever the arena has served before stays
    readable.  It ends otherwise exactly as the message says: in undefined
    behaviour at the first string that is not UTF-8, the caller's buffer being
    freed as if it were a Rust allocation, and in a panic at the first time whose
    nanoseconds carry past the last second of its type.  Only when the allocator
    has no room for a slice of the message, whose null is not checked, does it
    fail without such a field. *)
Theorem borrow_preserves_message live t a v st :
  c_message live t a v → arena_inv foreign live st →
  let r := borrow_to_native cm t a st in
  match fate v with
  | Returns => ∃ n st', r = Some (Ok n, st') ∧ arena_inv foreign live st' ∧ view cm t n st' = Some v ∧
      ∀ u m w, view cm u m st = Some w → view cm u m st' = Some w
  | Panics => ∃ st', r = Some (Panic, st')
  | Faults => r = None
  end ∨ out_of_memory (needs t v) st ∧ (r = None ∨ ∃ st', r = Some (Panic, st')).
Proof.
  intros (Hv & Hsz & Hf) Hi r.
  destruct (borrow_steps foreign cm live Hf t a v Hv Hsz st Hi) as [Hb|Hb]; [left|by right].
  destruct (fate v); [|done..]. destruct Hb as (n & st' & E & Hi' & He & _ & Hn).
  exists n, st'. do 3 (split; [done|]). intros u m w. apply view_mono, (ex_cells _ _ _ He).
Qed.

(** C23: Logging a C message struct is logging the message it describes: if its
    strings are UTF-8 and its times fit their types, the call logs exactly that
    message on the typed channel (and aborts only if encoding it fails), answers
    [Ok], and leaves the heap as it was, every overflow block of its arena freed;
    a time that does not fit aborts the process, and a string that is not UTF-8
    is undefined behaviour, whichever comes first in the message; and only when
    the allocator has no room for a slice of the message does the call fail
    without these.  A null message or channel is answered with [ValueError] and
    nothing is logged. *)
Theorem log_message_safe live t channel msg log_time sink_id w st :
  idle foreign live st →
  let call := foxglove_channel_log cm encoder instant epoch t channel msg log_time sink_id w in
  match msg with
  | None => ∃ st', call st = Some (Ok (CValueError, w), st') ∧ idle foreign live st'
  | Some a => ∀ v, c_message live t a v →
    match fate v, channel with
    | Faults, _ => call st = None
    | Panics, _ => ∃ st', call st = Some (Panic, st')
    | Returns, None => ∃ st', call st = Some (Ok (CValueError, w), st') ∧ idle foreign live st'
    | Returns, Some c =>
      match typed_log_with_meta_to_sink (Encode0 := encoder t) instant epoch (from_raw_channel Value c)
        v {| pm_log_time := log_time |} (if sink_id =? 0 then None else Some sink_id) w with
      | Ok w' => ∃ st', call st = Some (Ok (COk, w'), st') ∧ idle foreign live st'
      | _ => ∃ st', call st = Some (Panic, st')
      end
    end ∨ out_of_memory (needs t v) (Arena_new st) ∧ fails call st
  end.
Proof.
  intros Hid. cbn zeta. unfold fails, foxglove_channel_log.
  destruct (Arena_new_inv foreign live st Hid) as [Hi Hn0]. destruct msg as [a|].
  - intros v (Hv & Hsz & Hf). cbn [borrow_option_to_native].
    destruct (borrow_steps foreign cm live Hf t a v Hv Hsz _ Hi) as [Hb|[Ho Hb]]; [left|right].
    + destruct (fate v); [|destruct Hb as [st1 ->]; by eexists|by rewrite Hb].
      destruct Hb as (n & st1 & -> & Hi1 & _ & [_ Hn1] & Hn). unfold shows in Hn. rewrite Hn.
      destruct (Arena_drop_steps foreign live st1 Hi1 (Hn1 Hn0)) as (st2 & Ed & Hid2).
      unfold log_msg_to_channel, mbind, M_bind, lift. destruct channel as [c|].
      * destruct (typed_log_with_meta_to_sink _ _ _ _ _ _ _) as [w'|e|] eqn:El; cbn.
        -- rewrite Ed. by exists st2.
        -- unfold typed_log_with_meta_to_sink, typed_log_to_sinks in El.
           destruct (has_sinks _ _); [|done]. by destruct (encode _ _).
        -- by eexists.
      * cbn. rewrite Ed. by exists st2.
    + split; [done|]. destruct Hb as [->|[st1 ->]]; [by left|right; by eexists].
  - cbn. destruct (Arena_drop_steps foreign live _ Hi Hn0) as (st2 & Ed & Hid2).
    unfold mbind, M_bind. rewrite Ed. by exists st2.
Qed.

(** What `prost` documents: [encode] needs [encoded_len] bytes. *)
Class ProstMessageLaws `{ProstMessage} : Prop := {
  prost_encode_law : ∀ t v cap, ∃ bytes, prost_encoded_len t v = Z.of_nat (length bytes) ∧
    prost_encode t v cap =
    if Z.of_nat (length bytes) <=? cap then Ok bytes else Err (Z.of_nat (length bytes))
}.

(** The encoding protocol: asked with no buffer, or with one that is too
    short, the function stores the length it needs; asked with a buffer of that
    length or more, it writes that many bytes and says so. *)
Theorem encode_two_calls `{ProstMessage} `{!ProstMessageLaws} live t a v st :
  c_message live t a v → fate v = Returns → idle foreign live st →
  ¬ out_of_memory (needs t v) (Arena_new st) →
  ∃ need, 0 ≤ need ∧ ∀ ptr len, 0 ≤ len →
    ∃ st', idle foreign live st' ∧
      if (len <? need) || (len =? 0) || (ptr =? 0) then
        foxglove_encode cm t (Some a) ptr len true st = Some (Ok (CBufferTooShort, [], Some need), st')
      else ∃ bytes, Z.of_nat (length bytes) = need ∧ prost_encode t v len = Ok bytes ∧
        foxglove_encode cm t (Some a) ptr len true st = Some (Ok (COk, bytes, Some need), st').
Proof.
  intros (Hv & Hsz & Hf) Hu Hid Hmem. destruct (Arena_new_inv foreign live st Hid) as [Hi Hn0].
  destruct (borrow_steps foreign cm live Hf t a v Hv Hsz _ Hi) as [Hb|[? _]]; [|done].
  rewrite Hu in Hb. destruct Hb as (n & st1 & E & Hi1 & _ & [_ Hn1] & Hn). unfold shows in Hn.
  destruct (Arena_drop_steps foreign live st1 Hi1 (Hn1 Hn0)) as (st2 & Ed & Hid2).
  exists (prost_encoded_len t v).
  split; [destruct (prost_encode_law t v 0) as (b & -> & _); lia|].
  intros ptr len Hlen. exists st2. split; [done|]. unfold foxglove_encode.
  cbn [borrow_option_to_native]. rewrite E, Hn. unfold mbind, M_bind.
  destruct (prost_encode_law t v len) as (bytes & El & Ee). rewrite Ee, El.
  destruct (Z.eqb_spec len 0) as [->|Hl0]; [rewrite orb_true_r; cbn; by rewrite Ed|].
  destruct (Z.eqb_spec ptr 0) as [->|Hp0]; [rewrite orb_true_r; cbn; by rewrite Ed|].
  rewrite !orb_false_r. cbn [orb].
  destruct (Z.ltb_spec len (Z.of_nat (length bytes))) as [Hs|Hs].
  - rewrite (proj2 (Z.leb_gt _ _)) by done. cbn. by rewrite Ed.
  - rewrite (proj2 (Z.leb_le _ _)) by done. exists bytes. split_and!; [done|done|].
    replace (len - (len - Z.of_nat (length bytes))) with (Z.of_nat (length bytes)) by lia.
    cbn. by rewrite Ed.
Qed.
End theorems.

(** ** Witnesses *)

#[local] Instance sample_layouts : Layouts :=
  {| c_size _ := 64; rust_layout _ := {| l_size := 72; l_align := 8 |} |}.
#[local] Instance sample_layouts_ok : LayoutsOk.
Proof. split. intros name. by split_and!. Qed.
#[local] Existing Instance sample_small.
Definition sample_encoder (t : Ty) : Encode Value :=
  {| encode_error := unit; get_schema := None; get_message_encoding := "text";
     encode v buf := match v with VStruct [] => Err tt | _ => Ok (app (A:=byte) buf (as_bytes "m")) end;
     encoded_len _ := None |}.
#[local] Instance sample_prost : ProstMessage :=
  {| prost_encoded_len _ _ := 3;
     prost_encode _ _ cap := if 3 <=? cap then Ok (as_bytes "abc") else Err 3 |}.
#[local] Instance sample_prost_laws : ProstMessageLaws.
Proof. split. intros t v cap. by exists (as_bytes "abc"). Qed.

(** Two transforms, with [frame_id] as the name of the parents, the first at
    [sec] seconds and a half. *)
Definition sample_cm (sec : Z) (frame_id : list byte) : CMem :=
  {| c_structs := {[ 1000000 := [FSlice 2000000 2];
       2000000 := [FPtr 3000000; FSlice 4000000 3; FSlice 4000100 1; FPtr 5000000; FPtr 0];
       2000064 := [FPtr 0; FSlice 4000000 3; FSlice 0 0; FPtr 0; FPtr 0];
       5000000 := [FWord 1; FWord 2; FWord 3] ]};
     c_times := {[ 3000000 := (sec - 1, 1500000000) ]};
     c_bytes := {[ 4000000 := frame_id; 4000100 := as_bytes "b" ]};
     c_words := ∅ |}.
Definition sample_value (sec : Z) (frame_id : list byte) : Value :=
  VStruct [VMany
    [VStruct [VTime (Some (sec * 1000000000 + 500000000)); VString frame_id;
       VString (as_bytes "b"); VOpt (Some (VStruct [VWord 1; VWord 2; VWord 3])); VOpt None];
     VStruct [VTime None; VString frame_id; VString []; VOpt None; VOpt None]]].
Definition sample_state : State Native := sample_stack.
Definition below_heap (b : Z) : Prop := b < HEAP_BASE.
#[local] Instance sample_laws : GlobalAllocLaws below_heap := bump_alloc_laws.
(** "map", and three bytes that are not UTF-8; the last second, and one that the
    carry takes past it. *)
Definition bad_utf8 : list byte := [Byte.xff; Byte.xfe; Byte.x00].
Definition last_second : Z := 2 ^ 32 - 1.

Lemma sample_c_message sec s : s = as_bytes "map" ∨ s = bad_utf8 → sec = 8 ∨ sec = last_second + 1 →
  c_message below_heap (sample_cm sec s) (s_live sample_state) Schemas.FrameTransforms 1000000
    (sample_value sec s).
Proof.
  intros Hs Hsec. split_and!.
  - by destruct Hs as [->| ->], Hsec as [->| ->].
  - split; [|done]. split; [vm_compute; congruence|]. intros v Hv.
    apply elem_of_cons in Hv as [->|[->|Hv]%elem_of_cons]; [by repeat split|by repeat split|].
    by apply not_elem_of_nil in Hv.
  - intros p Hp. unfold below_heap, HEAP_BASE.
    assert (p = 4000000 ∨ p = 4000100) as [-> | ->]; [|split; [done|reflexivity]..].
    destruct Hp as [x Hx]. cbn in Hx. apply lookup_insert_Some in Hx as [[<- _]|[_ Hx]]; [by left|].
    apply lookup_singleton_Some in Hx as [<- _]. by right.
Qed.
Lemma sample_arena_inv : arena_inv below_heap (s_live sample_state) (Arena_new sample_state).
Proof. apply Arena_new_inv, sample_idle. Qed.
Lemma sample_memory sec s :
  ¬ out_of_memory (needs Schemas.FrameTransforms (sample_value sec s)) (Arena_new sample_state).
Proof.
  assert (needs Schemas.FrameTransforms (sample_value sec s) = [{| l_size := 144; l_align := 8 |}]) as ->
    by reflexivity.
  intros (used & l & Hs & Hl). pose proof (sublist_length _ _ Hs) as Hlen.
  rewrite length_app in Hlen. destruct used; [|cbn in Hlen; lia].
  apply sublist_cons_r in Hs as [Hs|(k & E & _)]; [apply sublist_nil_r in Hs; discriminate Hs|].
  injection E as E _. rewrite E in Hl. vm_compute in Hl. discriminate Hl.
Qed.

Lemma borrow_preserves_message_witness :
  (∃ n st', borrow_to_native (sample_cm 8 (as_bytes "map")) Schemas.FrameTransforms 1000000
      (Arena_new sample_state) = Some (Ok n, st') ∧
    view (sample_cm 8 (as_bytes "map")) Schemas.FrameTransforms n st' =
      Some (sample_value 8 (as_bytes "map"))) ∧
  borrow_to_native (sample_cm 8 bad_utf8) Schemas.FrameTransforms 1000000 (Arena_new sample_state) = None ∧
  ∃ st', borrow_to_native (sample_cm (last_second + 1) (as_bytes "map")) Schemas.FrameTransforms 1000000
    (Arena_new sample_state) = Some (Panic, st').
Proof.
  split; [|split].
  - destruct (borrow_preserves_message below_heap (sample_cm 8 (as_bytes "map")) _ _ _ _ _
      (sample_c_message 8 _ (or_introl eq_refl) (or_introl eq_refl)) sample_arena_inv) as [Hc|[Ho _]];
      [|destruct (sample_memory _ _ Ho)].
    destruct Hc as (n & st' & E & _ & V & _). exists n, st'. split; [exact E|exact V].
  - destruct (borrow_preserves_message below_heap (sample_cm 8 bad_utf8) _ _ _ _ _
      (sample_c_message 8 _ (or_intror eq_refl) (or_introl eq_refl)) sample_arena_inv) as [Hc|[Ho _]];
      [exact Hc|destruct (sample_memory _ _ Ho)].
  - destruct (borrow_preserves_message below_heap (sample_cm (last_second + 1) (as_bytes "map")) _ _ _ _ _
      (sample_c_message (last_second + 1) _ (or_introl eq_refl) (or_intror eq_refl))
      sample_arena_inv) as [Hc|[Ho _]]; [exact Hc|destruct (sample_memory _ _ Ho)].
Defined.

Lemma log_message_safe_witness :
  (∃ w st', foxglove_channel_log (sample_cm 8 (as_bytes "map")) sample_encoder 0 99
      Schemas.FrameTransforms (Some (tc_inner sample_c)) (Some 1000000) None 0 (p_world sample_p1)
      sample_state = Some (Ok (COk, w), st') ∧
    idle below_heap (s_live sample_state) st' ∧
    w = emit [EvLog 5 1 (as_bytes "m") {| m_log_time := 99 |}] (p_world sample_p1)) ∧
  ∃ st', foxglove_channel_log (sample_cm (last_second + 1) (as_bytes "map")) sample_encoder 0 99
    Schemas.FrameTransforms (Some (tc_inner sample_c)) (Some 1000000) None 0 (p_world sample_p1)
    sample_state = Some (Panic, st').
Proof.
  split.
  - destruct (log_message_safe below_heap (sample_cm 8 (as_bytes "map")) sample_encoder 0 99 _
      Schemas.FrameTransforms (Some (tc_inner sample_c)) (Some 1000000) None 0 (p_world sample_p1)
      sample_state sample_idle (sample_value 8 (as_bytes "map"))
      (sample_c_message 8 _ (or_introl eq_refl) (or_introl eq_refl))) as [Hc|[Ho _]];
      [|destruct (sample_memory _ _ Ho)].
    assert (fate (sample_value 8 (as_bytes "map")) = Returns) as F by reflexivity. rewrite F in Hc.
    match type of Hc with match ?x with _ => _ end => assert (x = Ok (emit
      [EvLog 5 1 (as_bytes "m") {| m_log_time := 99 |}] (p_world sample_p1))) as El
      by (vm_compute; reflexivity) end.
    rewrite El in Hc. destruct Hc as (st' & E & Hid).
    exists (emit [EvLog 5 1 (as_bytes "m") {| m_log_time := 99 |}] (p_world sample_p1)), st'.
    split; [exact E|]. split; [exact Hid|reflexivity].
  - destruct (log_message_safe below_heap (sample_cm (last_second + 1) (as_bytes "map")) sample_encoder
      0 99 _ Schemas.FrameTransforms (Some (tc_inner sample_c)) (Some 1000000) None 0 (p_world sample_p1)
      sample_state sample_idle (sample_value (last_second + 1) (as_bytes "map"))
      (sample_c_message (last_second + 1) _ (or_introl eq_refl) (or_intror eq_refl)))
      as [Hc|[Ho _]]; [exact Hc|destruct (sample_memory _ _ Ho)].
Defined.

Lemma encode_two_calls_witness :
  ∃ need st st', foxglove_encode (sample_cm 8 (as_bytes "map")) Schemas.FrameTransforms (Some 1000000)
      0 0 true sample_state = Some (Ok (CBufferTooShort, [], Some need), st) ∧
    foxglove_encode (sample_cm 8 (as_bytes "map")) Schemas.FrameTransforms (Some 1000000)
      9000000 3 true sample_state = Some (Ok (COk, as_bytes "abc", Some need), st').
Proof.
  destruct (encode_two_calls below_heap (sample_cm 8 (as_bytes "map")) _ _ _ _ sample_state
    (sample_c_message 8 _ (or_introl eq_refl) (or_introl eq_refl)) eq_refl sample_idle (sample_memory _ _))
    as (need & _ & H).
  destruct (H 0 0 ltac:(lia)) as (st & _ & H0). destruct (H 9000000 3 ltac:(lia)) as (st' & _ & H1).
  rewrite orb_true_r in H0. exists need, st, st'. split; [exact H0|].
  assert (∃ st1, foxglove_encode (sample_cm 8 (as_bytes "map")) Schemas.FrameTransforms (Some 1000000)
    9000000 3 true sample_state = Some (Ok (COk, as_bytes "abc", Some 3), st1)) as [st1 E1]
    by (eexists; vm_compute; reflexivity).
  destruct (_ || _); [rewrite H1 in E1; discriminate E1|].
  destruct H1 as (bytes & _ & [= <-] & H1). exact H1.
Defined.
